(* ===== verification/_CoqProject ===== *)
-Q . S2P
Prelude.v
Words.v
PTree.v
BsTree.v
NodePool.v
OrdSpec.v
RbTree.v
Graph.v
GraphDfs.v
GraphStr.v
GraphRuns.v
WGraph.v
Chess.v
Trie.v
Radix.v
Bs23.v
Jzoffer.v
CutRod.v
SortSpec.v
Sort.v
LinkSort.v
LinkRig.v
MemPool.v
MmPool.v
UnionFind.v
Compete.v
KernelSort.v
Greedy.v
Bitmap.v
LogAlloc.v
KMax.v
GcBig.v
GcMgr.v
GcPtr.v
GcSmall.v
Paxos.v
PaxosNode.v
PaxosNet.v
PaxosLive.v
PList.v
Tailq.v
Backoff.v
Dllist.v
SfsVec.v
Ihash.v
Qhash.v
Bitvec.v
Msb.v
Keyfunc.v
Itree.v
Serial.v
Xdr.v
Timespec.v
Swaps.v
HeapSort.v
QuickSort.v
BinHeap.v
CtiTree.v
CtiList.v
CtiGraph.v
CtiBfs.v
CtiDfs.v
CtiExpr.v
CtiArray.v
CtiText.v
CtiMisc.v
JzCount.v
JzString.v
