(* ===== verification/Prelude.v ===== *)
(** * Verification of cpp-test

    cpp-test is a collection of data structures, algorithms and trial programs in C and C++.
    This development models the ones that carry logic of their own and proves what they
    compute, when they stop, and where they fail.

    ** Conventions

    A C or C++ function is a function into [res]: [Ok] with its result, or [Stop] with the
    [fault] that ends it (a null or dangling pointer, an index outside an array, a variable read
    before it is written, signed overflow, a failed [assert], [exit], ...).  Code that changes a
    shared state is in the monad [M] over it.  An [int] is a [Z] whose operations go through [ck],
    which faults outside the range of [int]; [size_t] wraps by [u64].  Heaps are [gmap]s from
    locations to records with the fields of the struct; arrays are lists read and written
    through [aget] and [aset].  The results of [malloc], [random] and [fscanf] are arguments.
    Text that is printed is a result where a program's purpose is to print it; messages are left out.

    A loop is either structurally recursive on the number of rounds still to go, or [loop] with
    fuel.  [Stop OutOfFuel] is no outcome of the code, and every theorem on a fuelled function
    gives a bound on the fuel that is enough (the height of a tree, the length of a list, the
    number of elements, plus one); where a program does not stop, the theorem is that no fuel
    gives a result.

    ** Files

    Prelude: outcomes, the state monad, loops, machine integers, arrays, lemmas on them; refinement over sequences of
    operations (Runs) and for clients that go on by what they are answered (Clients).

    Trees in a heap.  PTree: binary trees with parent pointers as a representation relation with
    contexts (zippers).  BsTree (intro_to_algs3th/test_binary_search_tree.cpp): insertion and deletion
    keep a search tree and do to its in-order walk what the sorted list says; search,
    recursive search and walks.  RbTree (intro_to_algs3th/rb_tree.cpp, rb_tree.h, tree_print.cpp):
    insertion keeps a left-leaning red-black tree with the order of the keys; search takes at most
    [2 log2 (n + 1)] rounds; the printer prints the layers.  OrdSpec: the class [TreeMap], the promise of an
    ordered tree to its clients, stated on sorted lists; RbTree has the instance.

    Allocators.  NodePool (node_pool.cpp, tdarr.cpp): the class [NodeAlloc] and its instance: no node
    is handed out twice.  MemPool (mem_pool/mem_pool.c) and MmPool (mmpool/mmpool.c): objects in use do
    not overlap and lie inside their blocks, what freeing does, what happens without memory.

    Graphs.  Graph (algorithms4th/graph.cpp, graph.h and the callbacks of test_graph.cpp), against
    [TreeMap] and [NodeAlloc]: the record [refines] relates the heap of bags to an abstract graph, and reading a
    file, adding edges and reversing refine the abstract operations, whatever the counters hold that new bags are not given.  GraphDfs: the search visits
    the reachable vertices.  GraphStr: printing into a buffer.  WGraph: weighted graphs with
    progress callbacks and the in-place reversal.  GraphRuns instantiates the classes and evaluates the samples.

    Search structures.  Trie (trie_st.cpp), Radix (intro_to_algs3th/radix_tree.cpp), Bs23
    (algorithms4th/bs23tree.cpp), UnionFind (algorithms4th/1.5.c, refinement of a partition;
    its vector is the class [CVector], which gets at least the room it asks for).

    deps/libbyz.  Bitmap (Bitmap.h): refinement of a list of booleans, the iterator, files.  LogAlloc
    (Log_allocator.h): the blocks handed out are disjoint and inside their chunks, whatever is freed and
    reallocated; a request that no chunk can hold is never answered.  KMax (K_max.h): the k-th largest
    value of a vector.

    Sorting.  SortSpec: sorted, permuted, stable; a reference merge.  Sort (algorithms4th/sort.c).
    LinkSort and LinkRig (merge_sort_link_list/*.c): the same loops on four shapes of lists, and the programs
    around them, with the list heads of hp/klist.h as the class [Klist].  KernelSort
    (deps/list_sort.c): the bottom-up sort with an array of partial lists, proved through a predicate [owns] of
    disjoint lists in memory.

    Programs.  Chess (chess/chess_core.cpp, chess_test.cpp): the search for five in a row finds the first line or
    none.  Jzoffer (jzoffer/construct_btree.cpp, print_list_reverse.cpp, ordered_2d_array_search.cpp), JzCount and JzString (test_string.cpp).  CutRod
    (intro_to_algs3th/dynamic_programming.cpp).  Greedy (intro_to_algs3th/16.c).  Compete
    (9787302356288/9787302356288.c).

    Containers of deps/sfslite-1.2, which refine lists, maps and sets over any sequence of operations (section Runs of
    the prelude).  PList, Tailq and Dllist (list.h): links threaded through the elements.  SfsVec (vec.h): a
    vector with a built-in buffer.  Ihash (ihash.h) and Qhash (qhash.h): hash tables and the maps on them.  Bitvec (bitvec.h;
    its words in Words) and Msb (msb.h): bits of words.  Keyfunc (keyfunc.h): string keys and hashes.
    Itree (itree.h): an ordered tree that refines a sorted sequence, and deleting all of it in postorder.
    Backoff (backoff.h): queues of messages to send again, one for each number of attempts; every element is in the queue of its attempts and
    a timer is set for each queue that is not empty.

    The garbage collector of deps/sfslite-1.2 (sp_gc.h, sp_gc_impl.h).  GcBig: arenas of objects of any size and their
    compaction, which keeps every object and the pointers to it.  GcMgr: the manager that tries its arenas in turn and collects where none has room.
    GcPtr: the smart pointers over a manager with one such arena refine a heap of counted objects.  GcSmall: arenas of slots of one size, the clusters they form, and the smart pointers over them.

    Marshalling in deps/sfslite-1.2.  Serial (serial.h): integers in memory, hexadecimal text.  Xdr (rpctypes.h, xdrmisc.h): the
    traversals are type classes over the type of the value and over what traverses; every type built of them is encoded as RFC
    4506 says, decoded again, and decoding garbage is safe.  Timespec (amisc.h, litetime.h): comparison and arithmetic of times.

    Interview programs (algs/cti).  Swaps, HeapSort, QuickSort, BinHeap (test_cti_heap.cpp): sorting in place and a
    heap.  CtiTree (test_cti_bstree.cpp), CtiList (test_cti_list.cpp).  CtiGraph (test_cti_graph.cpp): the searches, over
    adjacency lists from the Boost graph library; CtiBfs and CtiDfs prove shortest distances, the equality of the two
    depth-first searches, and topological order.  CtiExpr, CtiArray, CtiText, CtiMisc (test_cti.cpp): expressions, arrays,
    strings, and Hanoi, gcd and Josephus.

    Paxos (src/paxos/test_paxos.c): the node, its handlers and its queues of messages that point into
    strings and are packed into a buffer of 8192 bytes.  PaxosNode: the acceptor's promises, the proposer's choice through KernelSort's [list_sort].
    PaxosNet: any number of nodes and a network that loses, repeats and reorders; validity, and how
    agreement fails.  PaxosLive: a lone proposer among at least three nodes comes to rest with its string stored
    and announced, in whatever order the messages are delivered (a weight of the messages in flight decreases);
    with one node of three down it is stuck, for its own promise is not counted.

    ** Theorems

    The doc comments of the theorems that state properties of the code begin with a number C1, C2, ....
    Most state the full functional behaviour of an operation for every input within stated bounds.
    Each with a hypothesis has a witness: the theorem applied to a concrete input.  [Example]s run the test programs of the
    repository in the model and pin down the defects it shows.

    ** Assumptions

    Code that is not in the repository enters as type classes with laws (hp/klist.h, c-vector/cvector.h,
    the emptiness test of list.h), which have instances here, or as arguments (the comparators and
    other callbacks).  The allocation of nodes, rows, blocks and chunks may fail where the code asks for them ([avail], or a class of the allocator);
    the arrays of the graphs, [new] and the allocators of sfslite that end the program are taken to give memory.  [char] is signed and sizes of
    types are those of 64-bit Linux.  The strings of sds, what protobuf frees, the sizes a vector or a table grows
    to, the byte tables of msb.h, the tree functions of itree.C, the chunks of the log allocator, the memory of the collector's
    arenas and the alignment of objects in them, the operations of XDR streams, doubles and their text, and what Boost provides are classes too; addresses that [new] returns and what
    [realloc] leaves in new memory are arguments.

    ** Not modelled

    Trial programs of third-party libraries (graphics, sound, networks, databases, devices, the phxpaxos
    sample), whose logic is in those libraries; programs on processes, signals and the Windows API;
    the other vendored headers (deps/libbyz, deps/sfslite-1.2: messages, callbacks, RPC and cryptography, whose code is in sources that
    are not there); stack_queue.cpp, which is compiled out; stubs (test_strst.cpp, test_sm.c, the log parser); of
    the Paxos node the command line and the polling; random numbers. *)
From stdpp Require Export base tactics numbers option list gmap sorting.
From Stdlib Require Export ZArith Lia.

#[export] Set Default Goal Selector "!".

(** * Outcomes

    [fault] lists the ways a C or C++ function of the repository can fail to
    return: undefined behaviour of the language ([NoReturn] is the end of a function that
    promises a value, [BadShift] a shift by a negative count or one past the width; [Lifetime], an object made over a living one or memory given back under one, is no error of the language but one of the program), a failed [assert], a call of [exit], or (for the fuelled loops of the model only) lack of fuel. *)
Inductive fault : Type :=
| NullDeref
| Dangling
| OutOfBounds
| Uninit
| Overflow
| DivByZero
| EmptyContainer
| AssertFailed
| Exited
| NoReturn
| BadShift
| Lifetime
| OutOfFuel.

Inductive res (A : Type) : Type :=
| Ok (a : A)
| Stop (f : fault).
Arguments Ok {A} a.
Arguments Stop {A} f.

#[export] Instance res_ret : MRet res := fun A a => Ok a.
#[export] Instance res_bind : MBind res :=
  fun A B k m => match m with Ok a => k a | Stop f => Stop f end.

(** State passing over outcomes. *)
Definition M (S A : Type) : Type := S -> res (A * S).

#[export] Instance M_ret {S} : MRet (M S) := fun A a s => Ok (a, s).
#[export] Instance M_bind {S} : MBind (M S) :=
  fun A B k m s => match m s with Ok (a, s') => k a s' | Stop f => Stop f end.

Definition stop {S A} (f : fault) : M S A := fun _ => Stop f.
Definition lift {S A} (r : res A) : M S A :=
  fun s => match r with Ok a => Ok (a, s) | Stop f => Stop f end.
Definition gets {S A} (f : S -> A) : M S A := fun s => Ok (f s, s).
Definition modify {S} (f : S -> S) : M S unit := fun s => Ok (tt, f s).

(** [assert(b)] of <assert.h>. *)
Definition c_assert (b : bool) : res unit := if b then Ok tt else Stop AssertFailed.

(** * Loops

    One combinator for every [for], [while] and [do] of the source: a round of
    the body either continues with a new loop state ([inl]) or leaves the loop
    with a result ([inr]: the condition is false, a [break], a [return]). *)
Fixpoint loop {S R} (fuel : nat) (body : S -> res (S + R)) (s : S) : res R :=
  match fuel with
  | O => Stop OutOfFuel
  | Datatypes.S fuel' =>
      match body s with
      | Ok (inl s') => loop fuel' body s'
      | Ok (inr r) => Ok r
      | Stop f => Stop f
      end
  end.

(** The same combinator for a body that passes a state. *)
Definition loopM {S X R} (fuel : nat) (body : X -> M S (X + R)) (x : X) : M S R :=
  fun s =>
    loop fuel
      (fun xs => match body xs.1 xs.2 with
                 | Ok (inl x', s') => Ok (inl (x', s'))
                 | Ok (inr r, s') => Ok (inr (r, s'))
                 | Stop f => Stop f
                 end) (x, s).

(** * Machine integers *)
Definition INT_MAX : Z := 2147483647.
Definition INT_MIN : Z := -2147483648.
Definition SIZE_MAX : Z := 18446744073709551615.

Definition is_int (z : Z) : Prop := (INT_MIN <= z <= INT_MAX)%Z.
#[export] Instance is_int_dec z : Decision (is_int z).
Proof. unfold is_int. apply _. Defined.

(** The result of a signed [int] operation: undefined when it does not fit. *)
Definition ck (z : Z) : res Z := if decide (is_int z) then Ok z else Stop Overflow.

(** [size_t] arithmetic wraps. *)
Definition u64 (z : Z) : Z := (z mod 2 ^ 64)%Z.

(** A number that is narrowed to an [int]. *)
Definition i32 (z : Z) : Z := ((z + 2 ^ 31) mod 2 ^ 32 - 2 ^ 31)%Z.
Lemma i32_small z : (- 2 ^ 31 <= z < 2 ^ 31)%Z -> i32 z = z.
Proof. intros Hz. unfold i32. rewrite Z.mod_small by lia. lia. Qed.

(** * Arrays: checked access by a signed index *)
Definition aget {A} (l : list A) (i : Z) : res A :=
  if (i <? 0)%Z then Stop OutOfBounds
  else if (Z.of_nat (length l) <=? i)%Z then Stop OutOfBounds
  else match l !! Z.to_nat i with Some x => Ok x | None => Stop OutOfBounds end.

Definition aset {A} (l : list A) (i : Z) (x : A) : res (list A) :=
  if (i <? 0)%Z then Stop OutOfBounds
  else if (Z.of_nat (length l) <=? i)%Z then Stop OutOfBounds
  else Ok (<[Z.to_nat i := x]> l).

Create HintDb cpp.
Create Rewrite HintDb mon.

(** * Shared lemmas *)
Lemma bind_ok {A B} (a : A) (k : A -> res B) : (Ok a ≫= k) = k a.
Proof. reflexivity. Qed.

Lemma bind_Ok_inv {A B} (m : res A) (k : A -> res B) b :
  (m ≫= k) = Ok b -> exists a, m = Ok a /\ k a = Ok b.
Proof. destruct m as [a|f]; cbn; [eauto | discriminate]. Qed.

Lemma M_bind_ok {S A B} (m : M S A) (k : A -> M S B) s a s' :
  m s = Ok (a, s') -> (m ≫= k) s = k a s'.
Proof. intros E. unfold mbind, M_bind. by rewrite E. Qed.

Lemma M_bind_stop {S A B} (m : M S A) (k : A -> M S B) s f : m s = Stop f -> (m ≫= k) s = Stop f.
Proof. intros E. unfold mbind, M_bind. by rewrite E. Qed.

Lemma loop_step {S R} fuel (body : S -> res (S + R)) s :
  loop (Datatypes.S fuel) body s =
  match body s with
  | Ok (inl s') => loop fuel body s'
  | Ok (inr r) => Ok r
  | Stop f => Stop f
  end.
Proof. reflexivity. Qed.

Lemma loopM_step {S X R} fuel (body : X -> M S (X + R)) x s :
  loopM (Datatypes.S fuel) body x s =
  match body x s with
  | Ok (inl x', s') => loopM fuel body x' s'
  | Ok (inr r, s') => Ok (r, s')
  | Stop f => Stop f
  end.
Proof. unfold loopM. cbn. by destruct (body x s) as [[[x'|r] s']|f]. Qed.

Lemma bind_ret {S A B} (a : A) (k : A -> M S B) s : (mret a ≫= k) s = k a s.
Proof. reflexivity. Qed.

Lemma bind_gets {S A B} (f : S -> A) (k : A -> M S B) s : (gets f ≫= k) s = k (f s) s.
Proof. reflexivity. Qed.

Lemma bind_lift {S A B} (r : res A) (k : A -> M S B) s a :
  r = Ok a -> (lift r ≫= k) s = k a s.
Proof. by intros ->. Qed.

Lemma bind_assoc {S A B C} (m : M S A) (k : A -> M S B) (l : B -> M S C) s :
  ((m ≫= k) ≫= l) s = (m ≫= (fun a => k a ≫= l)) s.
Proof. unfold mbind, M_bind. by destruct (m s) as [[a s']|f]. Qed.

(** Total correctness of a loop: an invariant that every round either
    re-establishes while the measure decreases, or turns into the result. *)
Lemma loop_total {S R} (I : S -> Prop) (Q : R -> Prop) (mu : S -> nat)
    (body : S -> res (S + R)) :
  (forall s, I s ->
     (exists s', body s = Ok (inl s') /\ I s' /\ mu s' < mu s) \/
     (exists r, body s = Ok (inr r) /\ Q r)) ->
  forall fuel s, I s -> mu s < fuel -> exists r, loop fuel body s = Ok r /\ Q r.
Proof.
  intros Hbody fuel. induction fuel as [|fuel IH]; intros s HI Hmu; [lia|].
  destruct (Hbody s HI) as [(s' & E & HI' & Hlt)|(r & E & HQ)];
    rewrite loop_step, E.
  - apply IH; [done | lia].
  - by exists r.
Qed.

Lemma loopM_total {S X R} (I : X -> S -> Prop) (Q : R -> S -> Prop) (mu : X -> S -> nat)
    (body : X -> M S (X + R)) :
  (forall x s, I x s ->
     (exists x' s', body x s = Ok (inl x', s') /\ I x' s' /\ mu x' s' < mu x s) \/
     (exists r s', body x s = Ok (inr r, s') /\ Q r s')) ->
  forall fuel x s, I x s -> mu x s < fuel ->
  exists r s', loopM fuel body x s = Ok (r, s') /\ Q r s'.
Proof.
  intros Hbody fuel x s HI Hmu. unfold loopM.
  destruct (loop_total (fun xs => I xs.1 xs.2) (fun rs => Q rs.1 rs.2)
              (fun xs => mu xs.1 xs.2)
              (fun xs => match body xs.1 xs.2 with
                 | Ok (inl x', s') => Ok (inl (x', s'))
                 | Ok (inr r, s') => Ok (inr (r, s'))
                 | Stop f => Stop f
                 end)) with (fuel := fuel) (s := (x, s)) as ([r s'] & E & HQ).
  - intros [x0 s0] HI0; cbn in *.
    destruct (Hbody x0 s0 HI0) as [(x' & s' & E & HI' & Hlt)|(r & s' & E & HQ)];
      rewrite E; [left; by exists (x', s') | right; by exists (r, s')].
  - done.
  - done.
  - by exists r, s'.
Qed.

(** Partial correctness of a loop, for programs that may stop. *)
Lemma loop_partial {S R} (I : S -> Prop) (Q : R -> Prop) (body : S -> res (S + R)) :
  (forall s, I s -> match body s with Ok (inl s') => I s' | Ok (inr r) => Q r | Stop _ => True end) ->
  forall fuel s r, I s -> loop fuel body s = Ok r -> Q r.
Proof.
  intros Hbody fuel. induction fuel as [|fuel IH]; intros s r HI E; [discriminate|].
  rewrite loop_step in E. specialize (Hbody s HI). destruct (body s) as [[s'|r']|f]; [by apply IH with s'| |discriminate].
  by injection E as <-.
Qed.

Lemma loop_ext {S R} (body1 body2 : S -> res (S + R)) fuel s :
  (forall s, body1 s = body2 s) -> loop fuel body1 s = loop fuel body2 s.
Proof.
  intros H. revert s. induction fuel as [|fuel IH]; intros s; [done|]. rewrite !loop_step, H.
  by destruct (body2 s) as [[s'|r]|f].
Qed.

(** * Sequences of operations

    [run] is the code, [spec] what it promises and [may] when an operation may be called; every
    operation answers.  An invariant between states that each operation keeps carries over to sequences. *)
Section Runs.
Context {O St A R : Type} (run : O -> St -> res (St * R)) (spec : O -> A -> A * R) (may : O -> A -> Prop).

Fixpoint run_all (ops : list O) (s : St) : res (St * list R) :=
  match ops with
  | [] => Ok (s, [])
  | op :: ops => '(s, r) ← run op s; '(s, rs) ← run_all ops s; Ok (s, r :: rs)
  end.
Fixpoint spec_all (ops : list O) (a : A) : A * list R :=
  match ops with
  | [] => (a, [])
  | op :: ops => let '(a, r) := spec op a in let '(a, rs) := spec_all ops a in (a, r :: rs)
  end.
Fixpoint may_all (ops : list O) (a : A) : Prop :=
  match ops with [] => True | op :: ops => may op a /\ may_all ops (spec op a).1 end.

Lemma run_all_refines (I : St -> A -> Prop) :
  (forall op s a, I s a -> may op a -> exists s', run op s = Ok (s', (spec op a).2) /\ I s' (spec op a).1) ->
  forall ops s a, I s a -> may_all ops a ->
  exists s', run_all ops s = Ok (s', (spec_all ops a).2) /\ I s' (spec_all ops a).1.
Proof.
  intros Hstep ops. induction ops as [|op ops IH]; intros s a HI Hm; [by exists s|]. destruct Hm as [Hop Hm].
  destruct (Hstep op s a HI Hop) as (s1 & E1 & HI1). cbn [run_all spec_all]. rewrite E1. cbn [mbind res_bind].
  destruct (spec op a) as [a1 r]. cbn [fst snd] in *. destruct (IH s1 a1 HI1 Hm) as (s2 & E2 & HI2). rewrite E2.
  destruct (spec_all ops a1) as [a2 rs]. by exists s2.
Qed.
End Runs.

(** * Clients

    A client goes on by what it is answered.  Where an operation may answer more than one way [spec] is a relation; a client [behaves] if, however it is answered, it calls only
    what it may. *)
Inductive client (O R A : Type) : Type :=
| Return (a : A)
| Call (op : O) (k : R -> client O R A).
Arguments Return {O R A} a.
Arguments Call {O R A} op k.

Section Clients.
Context {O St B R A : Type} (run : O -> M St R) (spec : O -> B -> R -> B -> Prop) (may : O -> B -> Prop).

Fixpoint run_client (c : client O R A) : M St A := match c with Return a => mret a | Call op k => r ← run op; run_client (k r) end.
Fixpoint behaves (c : client O R A) (b : B) : Prop :=
  match c with Return _ => True | Call op k => may op b /\ forall r b', spec op b r b' -> behaves (k r) b' end.
Inductive meant : client O R A -> B -> A -> B -> Prop :=
| meant_return a b : meant (Return a) b a b
| meant_call op k b r b1 a b2 : spec op b r b1 -> meant (k r) b1 a b2 -> meant (Call op k) b a b2.

Lemma client_refines (I : St -> B -> Prop) :
  (forall op s b, I s b -> may op b -> exists r s' b', run op s = Ok (r, s') /\ spec op b r b' /\ I s' b') ->
  forall c s b, I s b -> behaves c b -> exists a s' b', run_client c s = Ok (a, s') /\ meant c b a b' /\ I s' b'.
Proof.
  intros Hstep c. induction c as [a|op k IH]; intros s b HI HB; cbn [run_client behaves] in *.
  - exists a, s, b. split; [done|]. split; [constructor|done].
  - destruct HB as [HM HB]. destruct (Hstep op s b HI HM) as (r & s1 & b1 & E1 & HS & HI1). rewrite (M_bind_ok _ _ _ _ _ E1).
    destruct (IH r s1 b1 HI1 (HB _ _ HS)) as (a & s2 & b2 & E2 & HS2 & HI2). exists a, s2, b2. split; [done|]. split; [by econstructor|done].
Qed.
End Clients.

Lemma ck_ok z : is_int z -> ck z = Ok z.
Proof. intros H. unfold ck. by rewrite decide_True. Qed.

Lemma aget_nat {A} (l : list A) (i : nat) x : l !! i = Some x -> aget l (Z.of_nat i) = Ok x.
Proof.
  intros E. pose proof (lookup_lt_Some _ _ _ E). unfold aget.
  rewrite (proj2 (Z.ltb_ge _ _)), (proj2 (Z.leb_gt _ _)) by lia. by rewrite Nat2Z.id, E.
Qed.

Lemma aget_Z {A} (l : list A) (i : Z) x :
  (0 <= i)%Z -> l !! Z.to_nat i = Some x -> aget l i = Ok x.
Proof. intros Hi E. rewrite <- (Z2Nat.id i) by lia. by apply aget_nat. Qed.

Lemma aget_inv {A} (l : list A) (i : Z) x :
  aget l i = Ok x -> (0 <= i)%Z /\ l !! Z.to_nat i = Some x.
Proof.
  unfold aget. destruct (Z.ltb_spec i 0); [discriminate|]. destruct (Z.leb_spec (Z.of_nat (length l)) i); [discriminate|].
  destruct (l !! Z.to_nat i); [|discriminate]. intros [= ->]. done.
Qed.

Lemma aget_oob {A} (l : list A) (i : Z) :
  (i < 0 \/ Z.of_nat (length l) <= i)%Z -> aget l i = Stop OutOfBounds.
Proof.
  intros Hi. unfold aget. destruct (Z.ltb_spec i 0); [done|].
  destruct (Z.leb_spec (Z.of_nat (length l)) i); [done|lia].
Qed.

Lemma aset_nat {A} (l : list A) (i : nat) x :
  i < length l -> aset l (Z.of_nat i) x = Ok (<[i := x]> l).
Proof.
  intros Hi. unfold aset. rewrite (proj2 (Z.ltb_ge _ _)), (proj2 (Z.leb_gt _ _)) by lia.
  by rewrite Nat2Z.id.
Qed.

Lemma aset_Z {A} (l : list A) (i : Z) x :
  (0 <= i < Z.of_nat (length l))%Z -> aset l i x = Ok (<[Z.to_nat i := x]> l).
Proof. intros Hi. rewrite <- (Z2Nat.id i) at 1 by lia. apply aset_nat. lia. Qed.

#[export] Hint Resolve ck_ok aget_nat aset_nat : cpp.
#[export] Hint Rewrite @bind_ok @bind_ret @bind_gets @bind_assoc : mon.

Lemma filter_none {A} (P : A -> Prop) `{forall x, Decision (P x)} (l : list A) : Forall (fun x => ~ P x) l -> filter P l = [].
Proof. induction 1 as [|x l Hx _ IH]; [done|]. by rewrite filter_cons_False. Qed.

Lemma filter_all {A} (P : A -> Prop) `{forall x, Decision (P x)} (l : list A) : Forall P l -> filter P l = l.
Proof. induction 1 as [|x l Hx _ IH]; [done|]. rewrite filter_cons_True by done. by rewrite IH. Qed.

Lemma StronglySorted_sublist {A} (R : relation A) (l k : list A) :
  sublist l k -> StronglySorted R k -> StronglySorted R l.
Proof.
  induction 1 as [|x l k Hsub IH|x l k Hsub IH]; intros Hs; [done|..];
    apply StronglySorted_cons in Hs as [Hx Hs].
  - constructor; [by apply IH|]. rewrite Forall_forall in *. eauto using elem_of_sublist.
  - by apply IH.
Qed.

Lemma Forall2_impl_l {A B} (P Q : A -> B -> Prop) l k :
  Forall2 P l k -> (forall x y, x ∈ l -> P x y -> Q x y) -> Forall2 Q l k.
Proof.
  induction 1 as [|x y l k HP HF IH]; intros HQ; constructor.
  - apply HQ; [by left|done].
  - apply IH. intros x' y' Hx'. apply HQ. by right.
Qed.

(** Deciding sortedness of a list of integers. *)
Fixpoint sortedb (l : list Z) : bool :=
  match l with
  | [] => true
  | x :: l' => forallb (fun y => (x <=? y)%Z) l' && sortedb l'
  end.

Lemma sortedb_sound (l : list Z) : sortedb l = true -> StronglySorted Z.le l.
Proof.
  induction l as [|x l IH]; cbn; [constructor|].
  intros [Hx Hs]%andb_prop. constructor; [by apply IH|].
  apply Forall_forall. intros y Hy. rewrite forallb_forall in Hx.
  apply Z.leb_le, Hx. by apply list_elem_of_In.
Qed.

(** Disjointness of lists of addresses. *)
Definition disj {A} (l k : list A) : Prop := forall x, x ∈ l -> x ∉ k.

Lemma disj_sym {A} (l k : list A) : disj l k -> disj k l.
Proof. intros HD x Hk Hl. exact (HD x Hl Hk). Qed.

Lemma disj_nil_l {A} (k : list A) : disj [] k.
Proof. intros x Hx. by apply not_elem_of_nil in Hx. Qed.

Lemma disj_cons_l {A} a (l k : list A) : disj (a :: l) k <-> a ∉ k /\ disj l k.
Proof.
  split; [intros HD; split; [apply HD; by left|intros x Hx; apply HD; by right]|].
  intros [Ha HD] x Hx. apply elem_of_cons in Hx as [->|Hx]; [done|by apply HD].
Qed.

Lemma disj_app_l {A} (l1 l2 k : list A) : disj (l1 ++ l2) k <-> disj l1 k /\ disj l2 k.
Proof.
  split; [intros HD; split; intros x Hx; apply HD, elem_of_app; auto|].
  intros [H1 H2] x Hx. apply elem_of_app in Hx as [Hx|Hx]; auto.
Qed.

Lemma NoDup_disj {A} (l k : list A) : NoDup (l ++ k) <-> NoDup l /\ disj l k /\ NoDup k.
Proof. apply NoDup_app. Qed.

(** Decides goals about membership, disjointness and [NoDup] of lists built with
    [::] and [++] from such facts in the context. *)
Ltac addr_split :=
  repeat match goal with
  | H : _ /\ _ |- _ => destruct H
  | H : _ ∈ [] |- _ => by apply not_elem_of_nil in H
  | H : _ ∈ _ :: _ |- _ => apply elem_of_cons in H as [->|H]
  | H : _ ∈ _ ++ _ |- _ => apply elem_of_app in H as [H|H]
  | H : NoDup (_ :: _) |- _ => apply NoDup_cons in H
  | H : NoDup (_ ++ _) |- _ => apply NoDup_disj in H
  | H : _ ∉ _ :: _ |- _ => apply not_elem_of_cons in H
  | H : _ ∉ _ ++ _ |- _ => apply not_elem_of_app in H
  | H : disj (_ :: _) _ |- _ => apply disj_cons_l in H
  | H : disj (_ ++ _) _ |- _ => apply disj_app_l in H
  | H : disj _ (_ :: _) |- _ => apply disj_sym, disj_cons_l in H
  | H : disj _ (_ ++ _) |- _ => apply disj_sym, disj_app_l in H
  | |- _ /\ _ => split
  | |- NoDup [] => apply NoDup_nil
  | |- NoDup (_ :: _) => apply NoDup_cons
  | |- NoDup (_ ++ _) => apply NoDup_disj
  | |- _ ∉ [] => apply not_elem_of_nil
  | |- _ ∉ _ :: _ => apply not_elem_of_cons
  | |- _ ∉ _ ++ _ => apply not_elem_of_app
  | |- disj [] _ => apply disj_nil_l
  | |- disj _ [] => apply disj_sym, disj_nil_l
  | |- disj (_ :: _) _ => apply disj_cons_l
  | |- disj (_ ++ _) _ => apply disj_app_l
  | |- disj _ (_ :: _) => apply disj_sym, disj_cons_l
  | |- disj _ (_ ++ _) => apply disj_sym, disj_app_l
  end.
Ltac addr_use :=
  first
  [ assumption
  | match goal with
    | |- False => congruence
    | |- disj _ _ => apply disj_sym; assumption
    | |- _ <> _ => apply not_eq_sym; assumption
    | Hi : ?x ∈ ?l |- ?x ∉ ?k =>
        match goal with
        | HD : disj l k |- _ => exact (HD x Hi)
        | HD : disj k l |- _ => exact (disj_sym _ _ HD x Hi)
        end
    | Hi : ?x ∈ ?l, Hn : ?y ∉ ?l |- ?x <> ?y => intros ->; exact (Hn Hi)
    | Hi : ?x ∈ ?l, Hn : ?y ∉ ?l |- ?y <> ?x => intros ->; exact (Hn Hi)
    | Hi : ?x ∈ ?l, Hj : ?y ∈ ?k |- ?x <> ?y =>
        match goal with
        | HD : disj l k |- _ => intros ->; exact (HD y Hi Hj)
        | HD : disj k l |- _ => intros ->; exact (HD y Hj Hi)
        end
    end ].
Ltac nodup_solve := solve [addr_split; addr_use].

(** Proves a closed decidable statement by evaluation. *)
Ltac decide_now := lazymatch goal with |- ?P => apply (bool_decide_unpack P); vm_compute; exact I end.

(** Runs the bookkeeping steps of a monadic program. *)
Ltac mnorm := repeat (cbn [fst snd] || autorewrite with mon).
