(* ===== verification/Words.v ===== *)
(** 64-bit words as integers: their bits, and what the operations of C do to them. *)
From S2P Require Import Prelude.

(** [~x] of an [unsigned long], and a word with one bit. *)
Definition not_word (x : Z) : Z := u64 (Z.lnot x).
Definition one_bit (p : Z) : Z := u64 (Z.shiftl 1 p).

Definition is_word (x : Z) : Prop := (0 <= x < 2 ^ 64)%Z.

Lemma word_high x j : is_word x -> (64 <= j)%Z -> Z.testbit x j = false.
Proof. intros Hx Hj. rewrite <- (Z.mod_small x (2 ^ 64)) by done. by apply Z.mod_pow2_bits_high. Qed.

Lemma word_bits x : (forall j, (64 <= j)%Z -> Z.testbit x j = false) -> is_word x.
Proof.
  intros H. assert (E : x = (x mod 2 ^ 64)%Z).
  { apply Z.bits_inj'. intros j Hj. destruct (Z.lt_ge_cases j 64).
    - by rewrite Z.mod_pow2_bits_low.
    - rewrite Z.mod_pow2_bits_high by lia. by apply H. }
  unfold is_word. rewrite E. apply Z.mod_pos_bound. lia.
Qed.

Lemma is_word_lor x y : is_word x -> is_word y -> is_word (Z.lor x y).
Proof. intros Hx Hy. apply word_bits. intros j Hj. by rewrite Z.lor_spec, !word_high. Qed.

Lemma is_word_land x y : is_word x -> is_word (Z.land x y).
Proof. intros Hx. apply word_bits. intros j Hj. by rewrite Z.land_spec, word_high. Qed.

Lemma is_word_u64 x : is_word (u64 x).
Proof. unfold u64, is_word. apply Z.mod_pos_bound. lia. Qed.

Lemma u64_bit x j : (0 <= j < 64)%Z -> Z.testbit (u64 x) j = Z.testbit x j.
Proof. intros Hj. unfold u64. apply Z.mod_pow2_bits_low. lia. Qed.

Lemma not_word_bit x j : (0 <= j < 64)%Z -> Z.testbit (not_word x) j = negb (Z.testbit x j).
Proof. intros Hj. unfold not_word. rewrite u64_bit by done. apply Z.lnot_spec. lia. Qed.

Lemma shifted_bit (v : bool) p j : (0 <= p)%Z -> (0 <= j)%Z -> Z.testbit (Z.shiftl (Z.b2z v) p) j = v && (p =? j)%Z.
Proof.
  intros Hp Hj. rewrite Z.shiftl_spec by done. destruct (Z.eqb_spec p j) as [->|Hne].
  - rewrite Z.sub_diag, andb_true_r. by destruct v.
  - rewrite andb_false_r. destruct (Z.lt_ge_cases j p); [by apply Z.testbit_neg_r; lia|].
    destruct v; [|apply Z.testbit_0_l]. apply Z.bits_above_log2; [done|]. change (Z.log2 (Z.b2z true)) with 0%Z. lia.
Qed.

Lemma is_word_not x : is_word (not_word x).
Proof. apply is_word_u64. Qed.

Lemma one_bit_bit p j : (0 <= p)%Z -> (0 <= j < 64)%Z -> Z.testbit (one_bit p) j = (p =? j)%Z.
Proof. intros Hp Hj. unfold one_bit. rewrite u64_bit by done. change 1%Z with (Z.b2z true). rewrite shifted_bit by lia. done. Qed.

(** A word masked with one bit is zero exactly when it lacks the bit. *)
Lemma land_one_bit c p : is_word c -> (0 <= p < 64)%Z -> negb (Z.land c (one_bit p) =? 0)%Z = Z.testbit c p.
Proof.
  intros Hc Hp. assert (Hb : Z.testbit (Z.land c (one_bit p)) p = Z.testbit c p) by (by rewrite Z.land_spec, one_bit_bit, Z.eqb_refl, andb_true_r by lia).
  destruct (Z.eqb_spec (Z.land c (one_bit p)) 0) as [E|E]; cbn [negb].
  - rewrite <- Hb, E. symmetry. apply Z.testbit_0_l.
  - destruct (Z.testbit c p) eqn:Et; [done|]. exfalso. apply E. apply Z.bits_inj'. intros j Hj. rewrite Z.testbit_0_l. destruct (Z.lt_ge_cases j 64).
    + rewrite Z.land_spec, one_bit_bit by lia. destruct (Z.eqb_spec p j) as [<-|]; [by rewrite Et|apply andb_false_r].
    + rewrite Z.land_spec, word_high by done. done.
Qed.
