(* ===== verification/PTree.v ===== *)
(** Binary trees in a heap of nodes with parent links: the part that
    [struct bstree_node] (src/algs/intro_to_algs3th/test_binary_search_tree.cpp)
    and [struct rbtree_node] (src/algs/intro_to_algs3th/rb_tree.h) share.

    A node is addressed by a location and carries the three pointers [left],
    [right], [p] and the remaining fields [dat].  [rep s c t] says that the heap
    of [s] holds the tree [t] in the position described by the context [c] (the
    path from the focus up to the root), every pointer, parent pointers
    included, being the one the shape dictates. *)
From S2P Require Import Prelude.

Section ptree.
Context {loc : Type} `{Countable loc} {D : Type}.

(** * Nodes, heaps and the operations the source performs on them *)
Record node := mkNode {
  left : option loc;
  right : option loc;
  p : option loc;
  dat : D
}.

Record tstate := mkTstate {
  root : option loc;
  hp : gmap loc node
}.

Definition with_left (q : option loc) (n : node) : node := mkNode q (right n) (p n) (dat n).
Definition with_right (q : option loc) (n : node) : node := mkNode (left n) q (p n) (dat n).
Definition with_p (q : option loc) (n : node) : node := mkNode (left n) (right n) q (dat n).
Definition with_dat (d : D) (n : node) : node := mkNode (left n) (right n) (p n) d.

(** [*x] *)
Definition load (x : option loc) : M tstate node :=
  fun s => match x with
           | None => Stop NullDeref
           | Some a => match hp s !! a with Some n => Ok (n, s) | None => Stop Dangling end
           end.

(** [x->field = ...] *)
Definition update (x : option loc) (f : node -> node) : M tstate unit :=
  fun s => match x with
           | None => Stop NullDeref
           | Some a => match hp s !! a with
                       | Some n => Ok (tt, mkTstate (root s) (<[a := f n]> (hp s)))
                       | None => Stop Dangling
                       end
           end.

Definition set_root (x : option loc) : M tstate unit := modify (fun s => mkTstate x (hp s)).

(** [if(x) x->p = q;] *)
Definition set_p_if (x q : option loc) : M tstate unit :=
  match x with None => mret tt | Some _ => update x (with_p q) end.

(** [if(!xp) root = q; else if(x == xp->left) xp->left = q; else xp->right = q;] *)
Definition relink (xp x q : option loc) : M tstate unit :=
  match xp with
  | None => set_root q
  | Some _ =>
      n ← load xp;
      if bool_decide (x = left n) then update xp (with_left q) else update xp (with_right q)
  end.

(** * The shape: trees annotated with the addresses of their nodes *)
Inductive tree :=
| Leaf
| Nd (l : tree) (a : loc) (d : D) (r : tree).

Inductive frame :=
| FL (a : loc) (d : D) (r : tree)
| FR (l : tree) (a : loc) (d : D).

Abbreviation ctx := (list frame).

Definition rootp (t : tree) : option loc :=
  match t with Leaf => None | Nd _ a _ _ => Some a end.

Definition floc (f : frame) : loc := match f with FL a _ _ => a | FR _ a _ => a end.
Definition cpar (c : ctx) : option loc := floc <$> head c.

Definition fill (f : frame) (t : tree) : tree :=
  match f with FL a d r => Nd t a d r | FR l a d => Nd l a d t end.
Fixpoint plug (c : ctx) (t : tree) : tree :=
  match c with [] => t | f :: c' => plug c' (fill f t) end.

Fixpoint locs (t : tree) : list loc :=
  match t with Leaf => [] | Nd l a _ r => a :: locs l ++ locs r end.
Definition flocs (f : frame) : list loc :=
  match f with FL a _ r => a :: locs r | FR l a _ => a :: locs l end.
Fixpoint clocs (c : ctx) : list loc :=
  match c with [] => [] | f :: c' => flocs f ++ clocs c' end.

Fixpoint inorder (t : tree) : list D :=
  match t with Leaf => [] | Nd l _ d r => inorder l ++ d :: inorder r end.
Definition finl (f : frame) : list D :=
  match f with FL _ _ _ => [] | FR l _ d => inorder l ++ [d] end.
Definition finr (f : frame) : list D :=
  match f with FL _ d r => d :: inorder r | FR _ _ _ => [] end.
Fixpoint cinl (c : ctx) : list D := match c with [] => [] | f :: c' => cinl c' ++ finl f end.
Fixpoint cinr (c : ctx) : list D := match c with [] => [] | f :: c' => finr f ++ cinr c' end.

Fixpoint height (t : tree) : nat :=
  match t with Leaf => 0 | Nd l _ _ r => S (Nat.max (height l) (height r)) end.

(** * Representation *)
Fixpoint cells (q : option loc) (t : tree) : list (loc * node) :=
  match t with
  | Leaf => []
  | Nd l a d r =>
      (a, mkNode (rootp l) (rootp r) q d) :: cells (Some a) l ++ cells (Some a) r
  end.

(** The cells of a context whose hole is filled by the child pointer [q]. *)
Fixpoint ccells (q : option loc) (c : ctx) : list (loc * node) :=
  match c with
  | [] => []
  | FL a d r :: c' =>
      (a, mkNode q (rootp r) (cpar c') d) :: cells (Some a) r ++ ccells (Some a) c'
  | FR l a d :: c' =>
      (a, mkNode (rootp l) q (cpar c') d) :: cells (Some a) l ++ ccells (Some a) c'
  end.

Definition croot (q : option loc) (c : ctx) : option loc :=
  match last c with None => q | Some f => Some (floc f) end.

Definition agrees (h : gmap loc node) (L : list (loc * node)) : Prop :=
  forall a n, (a, n) ∈ L -> h !! a = Some n.

Record rep (s : tstate) (c : ctx) (t : tree) : Prop := mkRep {
  rep_tree : agrees (hp s) (cells (cpar c) t);
  rep_ctx : agrees (hp s) (ccells (rootp t) c);
  rep_nodup : NoDup (locs t ++ clocs c);
  rep_root : root s = croot (rootp t) c
}.

#[export] Instance node_eq_dec `{!EqDecision D} : EqDecision node.
Proof. solve_decision. Defined.

Definition agreesb `{!EqDecision D} (h : gmap loc node) (L : list (loc * node)) : bool :=
  forallb (fun an => bool_decide (h !! an.1 = Some an.2)) L.

(** [rep] as a test. *)
Definition repb `{!EqDecision D} (s : tstate) (c : ctx) (t : tree) : bool :=
  agreesb (hp s) (cells (cpar c) t) && agreesb (hp s) (ccells (rootp t) c) &&
  bool_decide (NoDup (locs t ++ clocs c)) && bool_decide (root s = croot (rootp t) c).

(** The shape a heap holds below a pointer, cut off at depth [fuel]. *)
Fixpoint shape (fuel : nat) (h : gmap loc node) (x : option loc) : tree :=
  match fuel, x with
  | S fuel, Some a =>
      match h !! a with
      | Some n => Nd (shape fuel h (left n)) a (dat n) (shape fuel h (right n))
      | None => Leaf
      end
  | _, _ => Leaf
  end.

(** * Lemmas *)
Lemma agreesb_sound `{!EqDecision D} h L : agreesb h L = true -> agrees h L.
Proof.
  unfold agreesb. rewrite forallb_forall. intros HL a n Hin.
  apply list_elem_of_In, HL, bool_decide_eq_true in Hin. done.
Qed.

Lemma repb_sound `{!EqDecision D} s c t : repb s c t = true -> rep s c t.
Proof.
  unfold repb. intros [[[H1 H2]%andb_prop H3]%andb_prop H4]%andb_prop.
  split; [by apply agreesb_sound|by apply agreesb_sound| |];
    by eapply bool_decide_eq_true.
Qed.

Lemma cells_keys q t : (cells q t).*1 = locs t.
Proof.
  revert q. induction t as [|l IHl a d r IHr]; intros q; cbn; [done|].
  by rewrite fmap_app, IHl, IHr.
Qed.

Lemma ccells_keys q c : (ccells q c).*1 = clocs c.
Proof.
  revert q. induction c as [|[a d r|l a d] c IH]; intros q; cbn; [done|..];
    by rewrite fmap_app, IH, cells_keys.
Qed.

Lemma cells_key q t a n : (a, n) ∈ cells q t -> a ∈ locs t.
Proof. intros Hin. rewrite <- (cells_keys q t). apply list_elem_of_fmap. by exists (a, n). Qed.

Lemma ccells_key q c a n : (a, n) ∈ ccells q c -> a ∈ clocs c.
Proof. intros Hin. rewrite <- (ccells_keys q c). apply list_elem_of_fmap. by exists (a, n). Qed.

Lemma agrees_nil h : agrees h [].
Proof. intros a n Hin. by apply not_elem_of_nil in Hin. Qed.

Lemma agrees_cons h a n L : agrees h ((a, n) :: L) <-> h !! a = Some n /\ agrees h L.
Proof.
  split.
  - intros HA. split; [|intros b m Hb]; apply HA; by constructor.
  - intros [Ha HL] b m Hb. apply elem_of_cons in Hb as [[= -> ->]|Hb]; auto.
Qed.

Lemma agrees_app h L1 L2 : agrees h (L1 ++ L2) <-> agrees h L1 /\ agrees h L2.
Proof.
  split.
  - intros HA. split; intros b m Hb; apply HA; apply elem_of_app; auto.
  - intros [H1 H2] b m Hb. apply elem_of_app in Hb as [Hb|Hb]; auto.
Qed.

Lemma agrees_insert_tree h a m q t :
  a ∉ locs t -> agrees h (cells q t) -> agrees (<[a := m]> h) (cells q t).
Proof.
  intros Ha HA b n Hb. rewrite lookup_insert_ne; [by apply HA|].
  intros ->. by apply cells_key in Hb.
Qed.

Lemma agrees_insert_ctx h a m q c :
  a ∉ clocs c -> agrees h (ccells q c) -> agrees (<[a := m]> h) (ccells q c).
Proof.
  intros Ha HA b n Hb. rewrite lookup_insert_ne; [by apply HA|].
  intros ->. by apply ccells_key in Hb.
Qed.

(** [set_p_if] as a function on heaps *)
Definition set_ph (x q : option loc) (h : gmap loc node) : gmap loc node :=
  match x with None => h | Some a => alter (with_p q) a h end.

Definition set_child (c : ctx) (q : option loc) (h : gmap loc node) : gmap loc node :=
  match c with
  | [] => h
  | FL a _ _ :: _ => alter (with_left q) a h
  | FR _ a _ :: _ => alter (with_right q) a h
  end.

Lemma agrees_alter_tree h a f q t :
  a ∉ locs t -> agrees h (cells q t) -> agrees (alter f a h) (cells q t).
Proof.
  intros Ha HA b n Hb. rewrite lookup_alter_ne; [by apply HA|].
  intros ->. by apply cells_key in Hb.
Qed.

Lemma agrees_alter_ctx h a f q c :
  a ∉ clocs c -> agrees h (ccells q c) -> agrees (alter f a h) (ccells q c).
Proof.
  intros Ha HA b n Hb. rewrite lookup_alter_ne; [by apply HA|].
  intros ->. by apply ccells_key in Hb.
Qed.

Lemma agrees_reparent h q q' t :
  NoDup (locs t) -> agrees h (cells q t) -> agrees (set_ph (rootp t) q' h) (cells q' t).
Proof.
  destruct t as [|l a d r]; cbn; [intros _ _; apply agrees_nil|].
  intros [Ha Hnd]%NoDup_cons. rewrite !agrees_cons, !agrees_app.
  intros (Hl & HL & HR). rewrite lookup_alter_eq, Hl. cbn. split_and!; [done|..].
  - apply agrees_alter_tree; [|done]. set_solver.
  - apply agrees_alter_tree; [|done]. set_solver.
Qed.

Lemma agrees_rehole h q q' c :
  NoDup (clocs c) -> agrees h (ccells q c) -> agrees (set_child c q' h) (ccells q' c).
Proof.
  destruct c as [|[a d r|l a d] c]; cbn; [intros _ _; apply agrees_nil|..];
    intros [Ha Hnd]%NoDup_cons; rewrite !agrees_cons, !agrees_app;
    intros (Hl & HL & HR); rewrite lookup_alter_eq, Hl; cbn; split_and!; try done;
    (apply agrees_alter_tree || apply agrees_alter_ctx); set_solver.
Qed.

(** Moving the focus *)
Lemma croot_cons q f c : croot q (f :: c) = croot (Some (floc f)) c.
Proof. unfold croot. rewrite last_cons. by destruct (last c). Qed.

Lemma locs_fill f t c : locs (fill f t) ++ clocs c ≡ₚ locs t ++ clocs (f :: c).
Proof. destruct f; cbn; solve_Permutation. Qed.

Lemma rep_fill s f c t : rep s c (fill f t) <-> rep s (f :: c) t.
Proof.
  split; intros [HT HC HN HR]; split.
  - destruct f; cbn in HT; rewrite agrees_cons, agrees_app in HT; cbn; tauto.
  - destruct f; cbn in HT; rewrite agrees_cons, agrees_app in HT; cbn;
      rewrite agrees_cons, agrees_app; cbn in HC; tauto.
  - by rewrite <- locs_fill.
  - rewrite croot_cons. by destruct f.
  - destruct f; cbn in HC; rewrite agrees_cons, agrees_app in HC; cbn;
      rewrite agrees_cons, agrees_app; cbn in HT; tauto.
  - destruct f; cbn in HC; rewrite agrees_cons, agrees_app in HC; cbn; tauto.
  - by rewrite locs_fill.
  - rewrite croot_cons in HR. by destruct f.
Qed.

Lemma rep_left s c l a d r : rep s c (Nd l a d r) <-> rep s (FL a d r :: c) l.
Proof. apply (rep_fill s (FL a d r)). Qed.

Lemma rep_right s c l a d r : rep s c (Nd l a d r) <-> rep s (FR l a d :: c) r.
Proof. apply (rep_fill s (FR l a d)). Qed.

Lemma rep_to_left s c l a d r : rep s c (Nd l a d r) -> rep s (FL a d r :: c) l.
Proof. apply rep_left. Qed.

Lemma rep_to_right s c l a d r : rep s c (Nd l a d r) -> rep s (FR l a d :: c) r.
Proof. apply rep_right. Qed.

Lemma rep_plug s c t : rep s c t <-> rep s [] (plug c t).
Proof.
  revert t. induction c as [|f c IH]; intros t; [done|].
  cbn. by rewrite <- IH, rep_fill.
Qed.

Lemma locs_plug c t : locs (plug c t) ≡ₚ locs t ++ clocs c.
Proof.
  revert t. induction c as [|f c IH]; intros t; cbn; [by rewrite app_nil_r|].
  by rewrite IH, locs_fill.
Qed.

Lemma clocs_app c1 c2 : clocs (c1 ++ c2) = clocs c1 ++ clocs c2.
Proof. induction c1 as [|f c1 IH]; cbn; [done|]. by rewrite IH, app_assoc. Qed.

Lemma plug_app c1 c2 t : plug (c1 ++ c2) t = plug c2 (plug c1 t).
Proof. revert t. induction c1 as [|f c1 IH]; intros t; cbn; [done|]. apply IH. Qed.

Lemma inorder_plug c t : inorder (plug c t) = cinl c ++ inorder t ++ cinr c.
Proof.
  revert t. induction c as [|f c IH]; intros t; cbn; [by rewrite app_nil_r|].
  rewrite IH. destruct f; cbn; by rewrite <- ?app_assoc, ?app_nil_r; cbn; rewrite <- ?app_assoc.
Qed.

(** Reading the node at the focus. *)
Lemma load_rep s c l a d r :
  rep s c (Nd l a d r) ->
  load (Some a) s = Ok (mkNode (rootp l) (rootp r) (cpar c) d, s).
Proof.
  intros [HT _ _ _]. cbn in HT. apply agrees_cons in HT as [E _].
  unfold load. by rewrite E.
Qed.

Lemma load_ok s a n : hp s !! a = Some n -> load (Some a) s = Ok (n, s).
Proof. intros E. unfold load. by rewrite E. Qed.

Lemma update_ok s a f n :
  hp s !! a = Some n -> update (Some a) f s = Ok (tt, mkTstate (root s) (alter f a (hp s))).
Proof.
  intros E. unfold update. rewrite E. do 3 f_equal.
  apply map_eq. intros b. destruct (decide (a = b)) as [->|Hne].
  - by rewrite lookup_insert_eq, lookup_alter_eq, E.
  - by rewrite lookup_insert_ne, lookup_alter_ne.
Qed.

Lemma bind_load {B} s a n (k : node -> M tstate B) :
  hp s !! a = Some n -> (load (Some a) ≫= k) s = k n s.
Proof. intros E. by rewrite (M_bind_ok _ _ _ _ _ (load_ok s a n E)). Qed.

Lemma bind_update {B} s a f n (k : unit -> M tstate B) :
  hp s !! a = Some n ->
  (update (Some a) f ≫= k) s = k tt (mkTstate (root s) (alter f a (hp s))).
Proof. intros E. by rewrite (M_bind_ok _ _ _ _ _ (update_ok s a f n E)). Qed.

Lemma rep_cell s c l a d r :
  rep s c (Nd l a d r) -> hp s !! a = Some (mkNode (rootp l) (rootp r) (cpar c) d).
Proof. intros [HT _ _ _]. cbn in HT. by apply agrees_cons in HT as [E _]. Qed.

Lemma set_p_if_ok s x q :
  (forall a, x = Some a -> is_Some (hp s !! a)) ->
  set_p_if x q s = Ok (tt, mkTstate (root s) (set_ph x q (hp s))).
Proof.
  destruct x as [a|]; intros Hx; cbn.
  - destruct (Hx a eq_refl) as [n E]. by apply (update_ok _ _ _ n).
  - by destruct s.
Qed.

Lemma rep_focus_some s c t a :
  rep s c t -> rootp t = Some a ->
  exists l d r, t = Nd l a d r.
Proof. destruct t; cbn; [done|]. intros _ [= ->]. eauto. Qed.

Lemma agrees_is_some h q t a : agrees h (cells q t) -> a ∈ locs t -> is_Some (h !! a).
Proof.
  intros HT Ha. rewrite <- (cells_keys q) in Ha.
  apply list_elem_of_fmap in Ha as ([b n] & -> & Hin). exists n. by apply HT.
Qed.

Lemma rootp_in t a : rootp t = Some a -> a ∈ locs t.
Proof. destruct t; cbn; [done|]. intros [= ->]. by left. Qed.

Lemma locs_size h q t : agrees h (cells q t) -> NoDup (locs t) -> length (locs t) <= size h.
Proof.
  intros HT HN. rewrite <- (size_list_to_set (C := gset loc)), <- size_dom by done.
  apply subseteq_size. intros a Ha. apply elem_of_list_to_set in Ha. apply elem_of_dom.
  by eapply agrees_is_some.
Qed.

Lemma height_size h q t :
  agrees h (cells q t) -> NoDup (locs t) -> height t <= size h.
Proof.
  intros HT HN. pose proof (locs_size _ _ _ HT HN) as Hsz.
  assert (Hlen : height t <= length (locs t)); [|lia].
  clear. induction t; cbn; [lia|]. rewrite length_app. lia.
Qed.

Lemma rep_locs_size s c t : rep s c t -> length (locs t) + length c <= size (hp s).
Proof.
  intros HR. apply (proj1 (rep_plug _ _ _)) in HR as [HT _ HN _].
  cbn in HN. rewrite app_nil_r in HN. pose proof (locs_size _ _ _ HT HN) as Hsz.
  rewrite locs_plug, length_app in Hsz.
  assert (Hc : length c <= length (clocs c)); [|lia].
  clear. induction c as [|[] c IH]; cbn; rewrite ?length_app; lia.
Qed.

Lemma rep_height_size s t : rep s [] t -> height t <= size (hp s).
Proof.
  intros [HT _ HN _]. cbn in HN. rewrite app_nil_r in HN. by eapply height_size.
Qed.

(** The effect of hanging [q] in the hole of [c]. *)
Definition relinked (c : ctx) (q : option loc) (s : tstate) : tstate :=
  mkTstate (match c with [] => q | _ => root s end) (set_child c q (hp s)).

Lemma relink_ok s c a q :
  agrees (hp s) (ccells (Some a) c) -> a ∉ clocs c ->
  relink (cpar c) (Some a) q s = Ok (tt, relinked c q s).
Proof.
  intros HC Ha. destruct c as [|[b d r|l b d] c]; [done|..]; cbn in HC;
    apply agrees_cons in HC as [Hb HC]; cbn; unfold relink;
    rewrite (M_bind_ok _ _ _ _ _ (load_ok s b _ Hb)); cbn.
  - rewrite bool_decide_true by done. by rewrite (update_ok _ _ _ _ Hb).
  - rewrite bool_decide_false; [by rewrite (update_ok _ _ _ _ Hb)|].
    intros Hr. symmetry in Hr. apply rootp_in in Hr. apply Ha. cbn. set_solver.
Qed.

Lemma croot_relinked c q q' s :
  root s = croot q c -> root (relinked c q' s) = croot q' c.
Proof.
  destruct c as [|f c]; [done|]. intros E. cbn. rewrite E. by rewrite !croot_cons.
Qed.

(** Overwriting the payload at the focus. *)
Lemma rep_set_dat s c l a d d' r :
  rep s c (Nd l a d r) ->
  rep (mkTstate (root s) (alter (with_dat d') a (hp s))) c (Nd l a d' r).
Proof.
  intros [HT HC HN HR]. cbn in HT, HN, HR. apply agrees_cons in HT as [Ha HT].
  apply agrees_app in HT as [HL HRt]. apply NoDup_cons in HN as [Hni HN].
  split; cbn.
  - rewrite agrees_cons, agrees_app, lookup_alter_eq, Ha. split_and!; [done|..];
      apply agrees_alter_tree; set_solver.
  - apply agrees_alter_ctx; [set_solver|done].
  - by constructor.
  - done.
Qed.

(** Hanging a node [a] with empty subtrees in an empty hole. *)
Lemma rep_graft s c a d h' :
  rep s c Leaf -> a ∉ clocs c ->
  h' !! a = Some (mkNode None None (cpar c) d) ->
  (forall b, b ∈ clocs c -> h' !! b = set_child c (Some a) (hp s) !! b) ->
  rep (mkTstate (root (relinked c (Some a) s)) h') c (Nd Leaf a d Leaf).
Proof.
  intros [HT HC HN HR] Hni Ha Hc. split; cbn in HC, HN, HR.
  - cbn. apply agrees_cons. split; [done|apply agrees_nil].
  - intros b n Hb. cbn [hp]. rewrite Hc by (by eapply ccells_key).
    by apply (agrees_rehole (hp s) None).
  - cbn. by constructor.
  - by apply (croot_relinked c None).
Qed.

Lemma set_child_other c q h b :
  b ∉ clocs c -> set_child c q h !! b = h !! b.
Proof. destruct c as [|[]]; cbn; intros Hb; [done|..]; apply lookup_alter_ne; set_solver. Qed.

Lemma agrees_set_ph_tree h x q q' t :
  (forall a, x = Some a -> a ∉ locs t) ->
  agrees h (cells q t) -> agrees (set_ph x q' h) (cells q t).
Proof. destruct x as [a|]; cbn; [|done]. intros Ha. apply agrees_alter_tree. by apply Ha. Qed.

Lemma agrees_set_ph_ctx h x q q' c :
  (forall a, x = Some a -> a ∉ clocs c) ->
  agrees h (ccells q c) -> agrees (set_ph x q' h) (ccells q c).
Proof. destruct x as [a|]; cbn; [|done]. intros Ha. apply agrees_alter_ctx. by apply Ha. Qed.

Lemma agrees_set_child_tree h c q q' t :
  disj (locs t) (clocs c) ->
  agrees h (cells q t) -> agrees (set_child c q' h) (cells q t).
Proof.
  destruct c as [|[a d r|l a d] c]; cbn; [done|..]; intros HD; apply agrees_alter_tree;
    nodup_solve.
Qed.

Lemma size_alter f a (h : gmap loc node) : size (alter f a h) = size h.
Proof. by rewrite <- !size_dom, dom_alter_L. Qed.

Lemma size_set_ph x q h : size (set_ph x q h) = size h.
Proof. destruct x; cbn; [apply size_alter|done]. Qed.

Lemma size_set_child c q h : size (set_child c q h) = size h.
Proof. destruct c as [|[] c]; cbn; [done|apply size_alter..]. Qed.

Lemma set_ph_other x q h b : x <> Some b -> set_ph x q h !! b = h !! b.
Proof. destruct x; cbn; intros Hb; [|done]. apply lookup_alter_ne. congruence. Qed.
End ptree.

Arguments tree loc D : clear implicits.
Arguments node loc D : clear implicits.
Arguments frame loc D : clear implicits.
Arguments tstate loc {_ _} D.

(** Side conditions on the addresses of shapes. *)
Ltac tree_nodup := cbn [locs clocs flocs floc app] in *; nodup_solve.
