(* ===== verification/BsTree.v ===== *)
(** The binary search tree of
    src/algs/intro_to_algs3th/test_binary_search_tree.cpp: nodes with parent
    pointers in a heap, insertion, search, minimum and maximum, CLRS deletion by
    transplanting subtrees, and the in-order walk. *)
From S2P Require Import Prelude PTree.

(** * The code *)
Section bstree.
Context {loc : Type} `{Countable loc}.

(** [struct bstree_node]: the three pointers of [node], and the [int] key. *)
Abbreviation bstree_node := (node loc Z).
Abbreviation st := (tstate loc Z).
Definition key (n : bstree_node) : Z := dat n.

(** A bound on the rounds of every descent: no path is longer than the heap. *)
Definition hfuel (s : st) : nat := S (size (hp s)).

Definition bstree_max (x : option loc) : M st (option loc) :=
  fuel ← gets hfuel;
  loopM fuel (fun x =>
    n ← load x;
    match right n with
    | Some _ => mret (inl (right n))
    | None => mret (inr x)
    end) x.

Definition bstree_min (x : option loc) : M st (option loc) :=
  fuel ← gets hfuel;
  loopM fuel (fun x =>
    n ← load x;
    match left n with
    | Some _ => mret (inl (left n))
    | None => mret (inr x)
    end) x.

Fixpoint bstree_node_count_rec (fuel : nat) (x : option loc) : M st Z :=
  match fuel with
  | O => stop OutOfFuel
  | S fuel =>
      match x with
      | None => mret 0%Z
      | Some _ =>
          n ← load x;
          cl ← bstree_node_count_rec fuel (left n);
          cr ← bstree_node_count_rec fuel (right n);
          mret (u64 (cl + cr + 1))
      end
  end.
Definition bstree_node_count (x : option loc) : M st Z :=
  fuel ← gets hfuel; bstree_node_count_rec fuel x.

Definition bstree_insert (nd : option loc) : M st Z :=
  match nd with
  | None => mret (-1)%Z
  | Some _ =>
      fuel ← gets hfuel;
      r ← gets root;
      pp ← loopM fuel (fun px : option loc * option loc =>
             match px.2 with
             | None => mret (inr px.1)
             | Some _ =>
                 let pp := px.2 in
                 nn ← load nd;
                 np ← load pp;
                 nx ← load px.2;
                 if (key nn <? key np)%Z
                 then mret (inl (pp, left nx))
                 else mret (inl (pp, right nx))
             end) (None, r);
      match pp with
      | None => set_root nd
      | Some _ =>
          nn ← load nd;
          np ← load pp;
          if (key nn <? key np)%Z
          then update pp (with_left nd)
          else update pp (with_right nd)
      end;;
      update nd (with_p pp);;
      mret 0%Z
  end.

(** A reference to a pointer variable, the type [bstree_node *&]. *)
Inductive slot := SRoot | SLeft (x : option loc) | SRight (x : option loc).
Definition slot_get (r : slot) : M st (option loc) :=
  match r with
  | SRoot => gets root
  | SLeft x => n ← load x; mret (left n)
  | SRight x => n ← load x; mret (right n)
  end.
Definition slot_set (r : slot) (v : option loc) : M st unit :=
  match r with
  | SRoot => set_root v
  | SLeft x => update x (with_left v)
  | SRight x => update x (with_right v)
  end.

Fixpoint bstree_insert_recursive_rec (fuel : nat) (r : slot) (nd : option loc) : M st Z :=
  match fuel with
  | O => stop OutOfFuel
  | S fuel =>
      match nd with
      | None => mret (-1)%Z
      | Some _ =>
          x ← slot_get r;
          match x with
          | None => slot_set r nd;; mret 0%Z
          | Some _ =>
              nn ← load nd;
              nx ← load x;
              if (key nn <? key nx)%Z
              then bstree_insert_recursive_rec fuel (SLeft x) nd
              else bstree_insert_recursive_rec fuel (SRight x) nd
          end
      end
  end.
Definition bstree_insert_recursive (nd : option loc) : M st Z :=
  fuel ← gets hfuel; bstree_insert_recursive_rec fuel SRoot nd.

Definition bstree_search (x : option loc) (k : Z) : M st (option loc) :=
  fuel ← gets hfuel;
  loopM fuel (fun x =>
    match x with
    | None => mret (inr None)
    | Some _ =>
        n ← load x;
        if (key n =? k)%Z then mret (inr x)
        else if (k <? key n)%Z then mret (inl (left n)) else mret (inl (right n))
    end) x.

Definition bstree_search_recursive (x : option loc) (k : Z) : M st (option loc) :=
  match x with
  | None => mret None
  | Some _ =>
      n ← load x;
      if (k =? key n)%Z then mret x
      else if (k <? key n)%Z then bstree_search (left n) k
      else bstree_search (right n) k
  end.

Definition bstree_transplant (u v : option loc) : M st unit :=
  nu ← load u;
  match p nu with
  | None => set_root v
  | Some _ =>
      np ← load (p nu);
      if bool_decide (left np = u)
      then update (p nu) (with_left v)
      else update (p nu) (with_right v)
  end;;
  match v with
  | None => mret tt
  | Some _ => nu ← load u; update v (with_p (p nu))
  end.

Definition bstree_delete (nd : option loc) : M st unit :=
  n ← load nd;
  match left n, right n with
  | None, _ => bstree_transplant nd (right n)
  | Some _, None => bstree_transplant nd (left n)
  | Some _, Some _ =>
      y ← bstree_min (right n);
      ny ← load y;
      (if bool_decide (p ny = nd) then mret tt
       else
         bstree_transplant y (right ny);;
         n ← load nd;
         update y (with_right (right n));;
         ny ← load y;
         update (right ny) (with_p y));;
      bstree_transplant nd y;;
      n ← load nd;
      update y (with_left (left n));;
      ny ← load y;
      update (left ny) (with_p y)
  end.

Fixpoint bstree_inorder_walk_rec (fuel : nat) (x : option loc) : M st (list Z) :=
  match fuel with
  | O => stop OutOfFuel
  | S fuel =>
      match x with
      | None => mret []
      | Some _ =>
          n ← load x;
          o1 ← bstree_inorder_walk_rec fuel (left n);
          o2 ← bstree_inorder_walk_rec fuel (right n);
          mret (o1 ++ key n :: o2)
      end
  end.
(** The keys printed, in order. *)
Definition bstree_inorder_walk (x : option loc) : M st (list Z) :=
  fuel ← gets hfuel; bstree_inorder_walk_rec fuel x.

(** The loop of insertions of [bstree_init], then what it prints: the key of the
    root (so [n = 0] dereferences a null pointer) and the walk. *)
Fixpoint bstree_init_loop (nodes : list loc) : M st Z :=
  match nodes with
  | [] => mret 0%Z
  | a :: nodes' =>
      r ← bstree_insert (Some a);
      if decide (r = 0%Z) then bstree_init_loop nodes' else mret (-1)%Z
  end.
Definition bstree_init (nodes : list loc) : M st Z :=
  set_root None;;
  r ← bstree_init_loop nodes;
  if decide (r = 0%Z) then
    tr ← gets root;
    nr ← load tr;
    out ← bstree_inorder_walk tr;
    mret 0%Z
  else mret r.

(** The tests: the tree of [nodes], the extreme keys, and the deletion of the
    node a search finds, with what is printed. *)
Definition key_or_m1 (x : option loc) : M st Z :=
  match x with None => mret (-1)%Z | Some _ => n ← load x; mret (key n) end.

Definition test_binary_search_tree_search (nodes : list loc) : M st (option (Z * Z)) :=
  r ← bstree_init nodes;
  tr ← gets root;
  match tr with
  | None => mret None
  | Some _ =>
      if decide (r = 0%Z) then
        maxn ← bstree_max tr;
        nmax ← load maxn;
        minn ← bstree_min tr;
        nmin ← load minn;
        mret (Some (key nmax, key nmin))
      else mret None
  end.

Definition test_binary_search_tree_delete (nodes : list loc) (k : Z)
    : M st (option (Z * Z * Z * Z * list Z)) :=
  r ← bstree_init nodes;
  tr ← gets root;
  match tr with
  | None => mret None
  | Some _ =>
      if decide (r = 0%Z) then
        n ← bstree_search tr k;
        match n with
        | None => mret None
        | Some _ =>
            nn ← load n;
            kl ← key_or_m1 (left nn);
            kr ← key_or_m1 (right nn);
            kp ← key_or_m1 (p nn);
            bstree_delete n;;
            tr' ← gets root;
            nr ← load tr';
            out ← bstree_inorder_walk tr';
            mret (Some (kl, kr, kp, key nr, out))
        end
      else mret None
  end.
Definition test_binary_search_tree_delete_1 (nodes : list loc) :=
  test_binary_search_tree_delete nodes 118.
Definition test_binary_search_tree_delete_2 (nodes : list loc) :=
  test_binary_search_tree_delete nodes 95.
Definition test_binary_search_tree_delete_3 (nodes : list loc) :=
  test_binary_search_tree_delete nodes 110.
Definition test_binary_search_tree_delete_4 (nodes : list loc) :=
  test_binary_search_tree_delete nodes 120.

(** * Specification on shapes *)
Abbreviation tree := (tree loc Z).

Definition bst (t : tree) : Prop := StronglySorted Z.le (inorder t).

Fixpoint tins (a : loc) (k : Z) (t : tree) : tree :=
  match t with
  | Leaf => Nd Leaf a k Leaf
  | Nd l b kb r => if (k <? kb)%Z then Nd (tins a k l) b kb r else Nd l b kb (tins a k r)
  end.

(** Insertion into a sorted list, behind the equal elements. *)
Fixpoint linsert (k : Z) (l : list Z) : list Z :=
  match l with
  | [] => [k]
  | x :: l' => if (k <? x)%Z then k :: x :: l' else x :: linsert k l'
  end.
End bstree.

(** The array [bstree_node nodes[] = { {100}, {90}, ... }] of the tests: node [i]
    at address [i]. *)
Definition test_keys : list Z :=
  [100; 90; 95; 80; 70; 85; 94; 110; 105; 120; 103; 108; 115; 118; 119; 130; 140]%Z.
Definition nodes_of (keys : list Z) : list nat := seq 0 (length keys).
Definition array_state (keys : list Z) : tstate nat Z :=
  mkTstate None
    (list_to_map (zip (nodes_of keys) ((fun k => mkNode None None None k) <$> keys))).

(** * Proofs *)
Section proofs.
Context {loc : Type} `{Countable loc}.
Abbreviation st := (tstate loc Z).
Abbreviation tree := (tree loc Z).
Implicit Types (s : st) (t l r : tree) (c : list (frame loc Z)).

Lemma rep_hfuel s c t : rep s c t -> height t < hfuel s.
Proof.
  intros [HT _ HN _]. apply NoDup_app in HN as (HN & _ & _).
  unfold hfuel. pose proof (height_size _ _ _ HT HN). lia.
Qed.

(** ** Readers *)
Fixpoint tfind (k : Z) (t : tree) : option loc :=
  match t with
  | Leaf => None
  | Nd l a ka r =>
      if (ka =? k)%Z then Some a else if (k <? ka)%Z then tfind k l else tfind k r
  end.

Lemma bstree_search_run s c t k :
  rep s c t -> bstree_search (rootp t) k s = Ok (tfind k t, s).
Proof.
  intros HR. unfold bstree_search. mnorm.
  pose proof (rep_hfuel _ _ _ HR) as Hf. revert Hf HR. generalize (hfuel s). intros fuel.
  revert c fuel. induction t as [|l IHl a ka r IHr]; intros c fuel Hf HR;
    destruct fuel as [|fuel]; cbn in Hf; try lia; rewrite loopM_step; [done|].
  cbn [rootp]. rewrite (bind_load _ _ _ _ (rep_cell _ _ _ _ _ _ HR)).
  unfold key; cbn [dat left right].
  cbn [tfind]. destruct (ka =? k)%Z; [done|].
  destruct (k <? ka)%Z; cbn.
  - eapply IHl; [lia|]. exact (rep_to_left _ _ _ _ _ _ HR).
  - eapply IHr; [lia|]. exact (rep_to_right _ _ _ _ _ _ HR).
Qed.

Lemma tfind_spec t k :
  bst t ->
  (forall a, tfind k t = Some a -> exists c l r, t = plug c (Nd l a k r)) /\
  (tfind k t = None -> k ∉ inorder t).
Proof.
  unfold bst. induction t as [|l IHl a ka r IHr]; cbn; intros Hs.
  { split; [done|]. intros _. apply not_elem_of_nil. }
  apply StronglySorted_app in Hs as (Hlr & Hl & Hr).
  apply StronglySorted_cons in Hr as [Hka Hr]. rewrite Forall_forall in Hka.
  destruct (IHl Hl) as [Fl Nl]. destruct (IHr Hr) as [Fr Nr].
  destruct (Z.eqb_spec ka k) as [->|Hne].
  { split; [|done]. intros b [= ->]. by exists [], l, r. }
  destruct (Z.ltb_spec k ka) as [Hlt|Hge]; split.
  - intros b Hb. destruct (Fl b Hb) as (c & l' & r' & ->).
    exists (c ++ [FL a ka r]), l', r'. by rewrite plug_app.
  - intros Hn. rewrite elem_of_app, elem_of_cons. intros [Hin|[->|Hin]];
      [by apply Nl in Hin|lia|apply Hka in Hin; lia].
  - intros b Hb. destruct (Fr b Hb) as (c & l' & r' & ->).
    exists (c ++ [FR l a ka]), l', r'. by rewrite plug_app.
  - intros Hn. rewrite elem_of_app, elem_of_cons. intros [Hin|[->|Hin]];
      [|lia|by apply Nr in Hin].
    assert (k <= ka)%Z; [|lia]. apply Hlr; [done|]. by left.
Qed.

Lemma bstree_search_recursive_run s t k :
  rep s [] t -> bstree_search_recursive (rootp t) k s = Ok (tfind k t, s).
Proof.
  intros HR. destruct t as [|l a ka r]; [done|]. cbn [rootp bstree_search_recursive].
  rewrite (bind_load _ _ _ _ (rep_cell _ _ _ _ _ _ HR)). unfold key; cbn [dat left right tfind].
  rewrite Z.eqb_sym. destruct (ka =? k)%Z; [done|]. destruct (k <? ka)%Z.
  - eapply bstree_search_run. exact (rep_to_left _ _ _ _ _ _ HR).
  - eapply bstree_search_run. exact (rep_to_right _ _ _ _ _ _ HR).
Qed.

(** The leftmost node of a nonempty tree, with the path to it. *)
Fixpoint leftmost (c : list (frame loc Z)) (l : tree) (a : loc) (k : Z) (r : tree)
    : list (frame loc Z) * loc * Z * tree :=
  match l with
  | Leaf => (c, a, k, r)
  | Nd l' a' k' r' => leftmost (FL a k r :: c) l' a' k' r'
  end.

Lemma leftmost_plug c l a k r :
  forall c' y ky ry, leftmost c l a k r = (c', y, ky, ry) ->
  plug c (Nd l a k r) = plug c' (Nd Leaf y ky ry) /\ cinl c' = cinl c /\
  (exists c0, c' = c0 ++ c).
Proof.
  revert c a k r. induction l as [|l' IH a' k' r' _]; intros c a k r c' y ky ry; cbn.
  - intros [= -> -> -> ->]. split_and!; [done..|by exists []].
  - intros E. apply IH in E as (E1 & E2 & c0 & ->). cbn in E1, E2.
    rewrite app_nil_r in E2. split_and!; [done..|].
    exists (c0 ++ [FL a k r]). by rewrite <- app_assoc.
Qed.

Lemma bstree_min_run s c l a k r :
  rep s c (Nd l a k r) ->
  bstree_min (Some a) s = Ok (Some (leftmost c l a k r).1.1.2, s).
Proof.
  intros HR. unfold bstree_min. mnorm.
  pose proof (rep_hfuel _ _ _ HR) as Hf. revert Hf HR. generalize (hfuel s). intros fuel.
  revert c a k r fuel. induction l as [|l' IH a' k' r' _]; intros c a k r fuel Hf HR;
    (destruct fuel as [|fuel]; [cbn in Hf; lia|]); rewrite loopM_step;
    rewrite (bind_load _ _ _ _ (rep_cell _ _ _ _ _ _ HR)); cbn [left rootp]; [done|].
  unfold mret, M_ret. cbn [leftmost]. apply IH; [cbn in *; lia|].
  exact (rep_to_left _ _ _ _ _ _ HR).
Qed.

Lemma rightmost_run s c t k :
  rep s c t -> last (inorder t) = Some k ->
  exists y, bstree_max (rootp t) s = Ok (Some y, s) /\
    exists n, hp s !! y = Some n /\ key n = k.
Proof.
  intros HR Hlast. unfold bstree_max. mnorm.
  pose proof (rep_hfuel _ _ _ HR) as Hf. revert Hf HR Hlast. generalize (hfuel s). intros fuel.
  revert c fuel. induction t as [|l _ a ka r IHr]; intros c fuel Hf HR Hlast; [done|].
  destruct fuel as [|fuel]; [cbn in Hf; lia|]. rewrite loopM_step.
  cbn [rootp]. rewrite (bind_load _ _ _ _ (rep_cell _ _ _ _ _ _ HR)); cbn [right].
  cbn in Hlast. rewrite last_app, last_cons in Hlast.
  destruct r as [|l' a' k' r']; cbn [rootp].
  - exists a. cbn in Hlast. split; [done|]. eexists. split; [by eapply rep_cell|].
    unfold key. cbn. congruence.
  - change (Some a') with (rootp (Nd l' a' k' r')). eapply IHr.
    + cbn in Hf |- *. lia.
    + exact (rep_to_right _ _ _ _ _ _ HR).
    + destruct (last (inorder (Nd l' a' k' r'))) eqn:E; [done|].
      apply last_None in E; cbn in E. by destruct (inorder l').
Qed.

Lemma bstree_inorder_walk_run fuel s c t :
  rep s c t -> height t < fuel ->
  bstree_inorder_walk_rec fuel (rootp t) s = Ok (inorder t, s).
Proof.
  revert c fuel. induction t as [|l IHl a ka r IHr]; intros c fuel HR Hf;
    (destruct fuel as [|fuel]; [lia|]); [done|].
  cbn [rootp bstree_inorder_walk_rec].
  rewrite (bind_load _ _ _ _ (rep_cell _ _ _ _ _ _ HR)). cbn [left right]. cbn in Hf.
  erewrite M_bind_ok by (eapply IHl; [exact (rep_to_left _ _ _ _ _ _ HR)|lia]).
  erewrite M_bind_ok by (eapply IHr; [exact (rep_to_right _ _ _ _ _ _ HR)|lia]). done.
Qed.

Lemma bstree_node_count_run fuel s c t :
  rep s c t -> height t < fuel ->
  bstree_node_count_rec fuel (rootp t) s = Ok (u64 (Z.of_nat (length (inorder t))), s).
Proof.
  revert c fuel. induction t as [|l IHl a ka r IHr]; intros c fuel HR Hf;
    (destruct fuel as [|fuel]; [lia|]); [done|].
  cbn [rootp bstree_node_count_rec].
  rewrite (bind_load _ _ _ _ (rep_cell _ _ _ _ _ _ HR)). cbn [left right]. cbn in Hf.
  erewrite M_bind_ok by (eapply IHl; [exact (rep_to_left _ _ _ _ _ _ HR)|lia]).
  erewrite M_bind_ok by (eapply IHr; [exact (rep_to_right _ _ _ _ _ _ HR)|lia]).
  mnorm. unfold mret, M_ret, u64. do 2 f_equal. cbn [inorder]. rewrite length_app. cbn [length].
  rewrite <- Zplus_mod_idemp_l, <- (Zplus_mod (Z.of_nat _)), Zplus_mod_idemp_l.
  f_equal. lia.
Qed.

(** ** Insertion *)
Lemma linsert_perm k (l : list Z) : linsert k l ≡ₚ k :: l.
Proof.
  induction l as [|x l IH]; cbn; [done|]. destruct (k <? x)%Z; [done|].
  rewrite IH. apply Permutation_swap.
Qed.

Lemma linsert_sorted k (l : list Z) : StronglySorted Z.le l -> StronglySorted Z.le (linsert k l).
Proof.
  induction l as [|x l IH]; cbn; intros Hs; [by repeat constructor|].
  apply StronglySorted_cons in Hs as [Hx Hs]. destruct (Z.ltb_spec k x).
  - constructor; [by constructor|]. constructor; [lia|].
    eapply Forall_impl; [done|]. cbn. lia.
  - constructor; [by apply IH|]. rewrite linsert_perm. by constructor.
Qed.

Lemma linsert_app_ge k (l1 l2 : list Z) :
  Forall (fun x => (x <= k)%Z) l1 -> linsert k (l1 ++ l2) = l1 ++ linsert k l2.
Proof.
  induction 1 as [|x l1 Hx _ IH]; cbn; [done|].
  by rewrite (proj2 (Z.ltb_ge _ _)), IH.
Qed.

Lemma linsert_app_lt k x (l1 l2 : list Z) :
  (k < x)%Z -> linsert k (l1 ++ x :: l2) = linsert k l1 ++ x :: l2.
Proof.
  intros Hk. induction l1 as [|y l1 IH]; cbn.
  - by rewrite (proj2 (Z.ltb_lt _ _)).
  - destruct (k <? y)%Z; [done|]. by rewrite IH.
Qed.

(** The descent stops at the hole where [tins] hangs the new node, on the side
    the last comparison of the source chooses. *)
Definition side_ok (k : Z) (c : list (frame loc Z)) : Prop :=
  match c with
  | [] => True
  | FL _ kb _ :: _ => (k < kb)%Z
  | FR _ _ kb :: _ => (kb <= k)%Z
  end.

Lemma bstree_insert_descend s a nn t c fuel :
  hp s !! a = Some nn -> rep s c t -> height t < fuel -> side_ok (key nn) c ->
  exists c',
    loopM fuel (fun px : option loc * option loc =>
             match px.2 with
             | None => mret (inr px.1)
             | Some _ =>
                 let pp := px.2 in
                 nn ← load (Some a);
                 np ← load pp;
                 nx ← load px.2;
                 if (key nn <? key np)%Z
                 then mret (inl (pp, left nx))
                 else mret (inl (pp, right nx))
             end) (cpar c, rootp t) s = Ok (cpar c', s) /\
    rep s c' Leaf /\ side_ok (key nn) c' /\ plug c' Leaf = plug c t /\
    plug c' (Nd Leaf a (key nn) Leaf) = plug c (tins a (key nn) t).
Proof.
  intros Ha. revert c fuel. induction t as [|l IHl b kb r IHr]; intros c fuel HR Hf Hs;
    (destruct fuel as [|fuel]; [lia|]); rewrite loopM_step; cbn in Hf.
  { exists c. by split_and!. }
  cbn [rootp fst snd]. mnorm.
  rewrite (bind_load _ _ _ _ Ha), !(bind_load _ _ _ _ (rep_cell _ _ _ _ _ _ HR)).
  unfold key in *; cbn [dat left right tins] in *.
  destruct (Z.ltb_spec (dat nn) kb) as [Hlt|Hge]; unfold mret, M_ret.
  - exact (IHl (FL b kb r :: c) fuel (rep_to_left _ _ _ _ _ _ HR) ltac:(lia) Hlt).
  - exact (IHr (FR l b kb :: c) fuel (rep_to_right _ _ _ _ _ _ HR) ltac:(lia) Hge).
Qed.

Lemma bstree_insert_run s t a q k :
  rep s [] t -> hp s !! a = Some (mkNode None None q k) -> a ∉ locs t ->
  exists s', bstree_insert (Some a) s = Ok (0%Z, s') /\ rep s' [] (tins a k t) /\
    forall b, b ∉ a :: locs t -> hp s' !! b = hp s !! b.
Proof.
  intros HR Ha Hni. unfold bstree_insert. mnorm.
  destruct (bstree_insert_descend s a _ t [] (hfuel s) Ha HR (rep_hfuel _ _ _ HR) I)
    as (c' & E & HR' & Hs & Hp0 & Hp).
  unfold key in Hs, Hp; cbn [dat plug] in Hs, Hp0, Hp.
  replace (root s) with (rootp t) by (by destruct HR).
  rewrite (M_bind_ok _ _ _ _ _ E). clear E.
  assert (Hl : clocs c' ≡ₚ locs t) by (by rewrite <- Hp0, locs_plug).
  assert (Hnc : a ∉ clocs c') by (by rewrite Hl).
  assert (Hstep : forall k0 : unit -> M st Z,
    ((match cpar c' with
      | None => set_root (Some a)
      | Some _ =>
          nn ← load (Some a);
          np ← load (cpar c');
          if (key nn <? key np)%Z
          then update (cpar c') (with_left (Some a))
          else update (cpar c') (with_right (Some a))
      end) ≫= k0) s = k0 tt (relinked c' (Some a) s)).
  { intros k0. destruct c' as [|[b kb r|l b kb] c']; [done|..]; cbn [cpar floc fmap head];
      destruct HR' as [_ HC _ _]; cbn in HC; apply agrees_cons in HC as [Hb _]; cbn;
      rewrite bind_assoc, (bind_load _ _ _ _ Ha), bind_assoc, (bind_load _ _ _ _ Hb);
      unfold key; cbn [dat]; cbn in Hs.
    - rewrite (proj2 (Z.ltb_lt _ _)) by done. by rewrite (bind_update _ _ _ _ _ Hb).
    - rewrite (proj2 (Z.ltb_ge _ _)) by done. by rewrite (bind_update _ _ _ _ _ Hb). }
  rewrite Hstep. clear Hstep.
  assert (Ha' : hp (relinked c' (Some a) s) !! a = Some (mkNode None None q k)).
  { cbn. by rewrite set_child_other. }
  rewrite (bind_update _ _ _ _ _ Ha'). eexists. split; [done|]. split.
  - rewrite <- Hp. apply (rep_plug _ c'). apply rep_graft; [done..| |].
    + by rewrite lookup_alter_eq, Ha'.
    + intros b Hb. rewrite lookup_alter_ne by (by intros ->). done.
  - intros b Hb. cbn. rewrite lookup_alter_ne, set_child_other; [done|rewrite Hl|]; set_solver.
Qed.

Lemma inorder_tins a k t : bst t -> inorder (tins a k t) = linsert k (inorder t).
Proof.
  unfold bst. induction t as [|l IHl b kb r IHr]; cbn; intros Hs; [done|].
  apply StronglySorted_app in Hs as (Hlr & Hl & Hr).
  apply StronglySorted_cons in Hr as [Hkb Hr].
  destruct (Z.ltb_spec k kb) as [Hlt|Hge]; cbn.
  - rewrite IHl by done. by rewrite linsert_app_lt.
  - rewrite IHr by done. rewrite linsert_app_ge; cbn.
    + by rewrite (proj2 (Z.ltb_ge _ _)).
    + apply Forall_forall. intros x Hx. specialize (Hlr x kb Hx ltac:(by left)). lia.
Qed.

(** ** Deletion *)

(** [bstree_transplant u v] hangs [v] where [u] hangs. *)
Lemma bstree_transplant_run s c a na v :
  hp s !! a = Some na -> p na = cpar c ->
  agrees (hp s) (ccells (Some a) c) -> a ∉ clocs c ->
  (forall b, v = Some b -> is_Some (hp s !! b)) ->
  bstree_transplant (Some a) v s =
    Ok (tt, mkTstate (root (relinked c v s)) (set_ph v (cpar c) (hp (relinked c v s)))).
Proof.
  intros Ha Hp HC Hni Hv. unfold bstree_transplant.
  rewrite (bind_load _ _ _ _ Ha), Hp.
  assert (Hrel : forall k : unit -> M st unit,
    (match cpar c with
     | None => set_root v
     | Some _ =>
         np ← load (cpar c);
         if bool_decide (left np = Some a)
         then update (cpar c) (with_left v) else update (cpar c) (with_right v)
     end ≫= k) s = k tt (relinked c v s)).
  { intros k. rewrite <- (M_bind_ok _ k _ _ _ (relink_ok s c a v HC Hni)).
    unfold relink. destruct (cpar c); [|done]. rewrite !bind_assoc.
    unfold mbind, M_bind. destruct (load _ _) as [[n s0]|]; [|done].
    by rewrite (bool_decide_ext (left n = Some a) (Some a = left n)) by naive_solver. }
  rewrite Hrel. destruct v as [b|]; [|done].
  assert (Ha' : hp (relinked c (Some b) s) !! a = Some na)
    by (cbn; by rewrite set_child_other).
  rewrite (bind_load _ _ _ _ Ha'), Hp.
  destruct (Hv b eq_refl) as [nb Hb].
  assert (Hb' : exists nb', hp (relinked c (Some b) s) !! b = Some nb').
  { cbn. destruct c as [|[x d r|l x d] c]; cbn; [by exists nb|..];
      (destruct (decide (x = b)) as [->|Hne];
       [rewrite lookup_alter_eq, Hb; by eexists|rewrite lookup_alter_ne by done; by exists nb]). }
  destruct Hb' as [nb' Hb']. by rewrite (update_ok _ _ _ _ Hb').
Qed.

(** Replacing the subtree at the focus by one of its own subtrees. *)
Lemma bstree_transplant_rep s c l a k r t :
  rep s c (Nd l a k r) -> t = l \/ t = r ->
  exists s', bstree_transplant (Some a) (rootp t) s = Ok (tt, s') /\ rep s' c t /\
    (forall b, b ∉ locs t ++ clocs c -> hp s' !! b = hp s !! b).
Proof.
  intros HR Ht. destruct HR as [HT HC HN HRt]. cbn in HT, HC, HN, HRt.
  apply agrees_cons in HT as [Ha HT]. apply agrees_app in HT as [HL HR].
  apply NoDup_cons in HN as [Hni HN]. rewrite <- app_assoc in HN, Hni.
  assert (Htc : NoDup (locs t ++ clocs c) /\ a ∉ locs t /\ agrees (hp s) (cells (Some a) t)).
  { destruct Ht as [-> | ->]; (split_and!; [tree_nodup|set_solver|done]). }
  destruct Htc as (HNt & Hat & HTt). clear Ht HN HL HR.
  assert (Hac : a ∉ clocs c) by set_solver.
  eexists. split; [|split].
  - eapply bstree_transplant_run; [done|done|done|done|].
    intros b Hb. apply rootp_in in Hb. by eapply agrees_is_some.
  - split; cbn.
    + apply (agrees_reparent _ (Some a)); [tree_nodup|].
      destruct c as [|[x d y|y x d] c]; cbn; [done|..]; apply agrees_alter_tree; tree_nodup.
    + destruct (rootp t) as [b|] eqn:Hb; cbn [set_ph].
      * apply agrees_alter_ctx; [apply rootp_in in Hb; tree_nodup|].
        apply (agrees_rehole _ (Some a)); [tree_nodup|done].
      * apply (agrees_rehole _ (Some a)); [tree_nodup|done].
    + done.
    + by apply (croot_relinked c (Some a)).
  - intros b Hb. cbn. rewrite set_ph_other, set_child_other; [done|set_solver|].
    intros Hr. apply rootp_in in Hr. set_solver.
Qed.

(** What holds when only the successor [y] is left to take the place of [a]. *)
Record splice_ready s c (l : tree) (a : loc) (r' : tree) (y : loc) (ky : Z) : Prop := {
  sr_a : exists q k, hp s !! a = Some (mkNode (rootp l) q (cpar c) k);
  sr_l : agrees (hp s) (cells (Some a) l);
  sr_r : agrees (hp s) (cells (Some y) r');
  sr_c : agrees (hp s) (ccells (Some a) c);
  sr_y : exists q, hp s !! y = Some (mkNode None (rootp r') q ky);
  sr_nodup : NoDup (a :: y :: locs l ++ locs r' ++ clocs c);
  sr_root : root s = croot (Some a) c
}.

Lemma splice_run s c l a r' y ky :
  splice_ready s c l a r' y ky -> l <> Leaf ->
  exists s',
    (bstree_transplant (Some a) (Some y);;
     n ← load (Some a);
     update (Some y) (with_left (left n));;
     ny ← load (Some y);
     update (left ny) (with_p (Some y))) s = Ok (tt, s') /\
    rep s' c (Nd l y ky r') /\
    forall b, b ∉ y :: locs l ++ clocs c -> hp s' !! b = hp s !! b.
Proof.
  intros [(q & k & Ha) HL HR HC (qy & Hy) HN HRt] Hl.
  destruct l as [|ll b kb lr]; [done|]. clear Hl.
  assert (Hb : hp s !! b = Some (mkNode (rootp ll) (rootp lr) (Some a) kb))
    by (cbn in HL; by apply agrees_cons in HL as [? _]).
  rewrite (M_bind_ok _ _ _ _ _ (bstree_transplant_run s c a _ (Some y) Ha eq_refl HC
    ltac:(tree_nodup) ltac:(intros ? [= <-]; by eexists))).
  set (s1 := mkTstate _ _).
  assert (Hne : y <> a /\ y <> b /\ a <> b /\ a ∉ clocs c /\ y ∉ clocs c /\ b ∉ clocs c)
    by (tree_nodup).
  destruct Hne as (Hya & Hyb & Hab & Hac & Hyc & Hbc).
  assert (Ha1 : hp s1 !! a = Some (mkNode (Some b) q (cpar c) k)).
  { cbn. by rewrite lookup_alter_ne, set_child_other. }
  assert (Hy1 : hp s1 !! y = Some (mkNode None (rootp r') (cpar c) ky)).
  { cbn. by rewrite lookup_alter_eq, set_child_other, Hy. }
  rewrite (bind_load _ _ _ _ Ha1), (bind_update _ _ _ _ _ Hy1). cbn [left].
  set (s2 := mkTstate (root s1) _).
  assert (Hy2 : hp s2 !! y = Some (mkNode (Some b) (rootp r') (cpar c) ky)).
  { cbn. by rewrite lookup_alter_eq, lookup_alter_eq, set_child_other, Hy. }
  rewrite (bind_load _ _ _ _ Hy2). cbn [left].
  assert (Hb2 : hp s2 !! b = Some (mkNode (rootp ll) (rootp lr) (Some a) kb)).
  { cbn. by rewrite !lookup_alter_ne, set_child_other. }
  rewrite (update_ok _ _ _ _ Hb2). eexists. split; [done|]. split.
  - split; cbn [hp root].
    + cbn [cells]. rewrite agrees_cons, agrees_app. split_and!.
      * rewrite lookup_alter_ne by done. by rewrite Hy2.
      * apply (agrees_reparent _ (Some a) _ (Nd ll b kb lr)); [tree_nodup|]. cbn [hp].
        do 2 (apply agrees_alter_tree; [tree_nodup|]).
        intros x n Hx. cbn. rewrite set_child_other; [by apply HL|].
        apply cells_key in Hx. tree_nodup.
      * do 3 (apply agrees_alter_tree; [tree_nodup|]).
        intros x n Hx. cbn. rewrite set_child_other; [by apply HR|].
        apply cells_key in Hx. tree_nodup.
    + do 3 (apply agrees_alter_ctx; [done|]).
      apply (agrees_rehole _ (Some a)); [tree_nodup|done].
    + tree_nodup.
    + by apply (croot_relinked c (Some a)).
  - intros x Hx. cbn [hp]. rewrite !lookup_alter_ne by tree_nodup.
    cbn. rewrite !lookup_alter_ne by tree_nodup. apply set_child_other. tree_nodup.
Qed.

Lemma leftmost_app c l a k r :
  leftmost c l a k r =
  let '(c0, y, ky, ry) := leftmost [] l a k r in (c0 ++ c, y, ky, ry).
Proof.
  revert c a k r. induction l as [|l' IH a' k' r' _]; intros c a k r; cbn; [done|].
  rewrite IH, (IH [_]). destruct (leftmost [] l' a' k' r') as [[[c0 y] ky] ry].
  by rewrite <- app_assoc.
Qed.

Lemma plug_cons_root (f : frame loc Z) c t :
  exists l a k r, plug (f :: c) t = Nd l a k r.
Proof.
  revert f t. induction c as [|g c IH]; intros f t.
  - destruct f; cbn; eauto.
  - apply (IH g (fill f t)).
Qed.

Lemma bstree_delete_run s c l a k r :
  rep s c (Nd l a k r) ->
  exists s' t', bstree_delete (Some a) s = Ok (tt, s') /\ rep s' c t' /\
    inorder t' = inorder l ++ inorder r /\ locs t' ≡ₚ locs l ++ locs r /\
    forall b, b ∉ a :: locs l ++ locs r ++ clocs c -> hp s' !! b = hp s !! b.
Proof.
  intros HR. unfold bstree_delete.
  rewrite (bind_load _ _ _ _ (rep_cell _ _ _ _ _ _ HR)). cbn [left right].
  destruct l as [|ll b kb lr].
  { destruct (bstree_transplant_rep s c Leaf a k r r HR ltac:(by right)) as (s' & E & HR' & Hf).
    exists s', r. split_and!; try done. intros x Hx. apply Hf. tree_nodup. }
  destruct r as [|rl d kd rr].
  { destruct (bstree_transplant_rep s c _ a k Leaf _ HR ltac:(by left)) as (s' & E & HR' & Hf).
    exists s', (Nd ll b kb lr). rewrite !app_nil_r. split_and!; try done.
    intros x Hx. apply Hf. tree_nodup. }
  cbn [rootp]. set (l := Nd ll b kb lr) in *.
  rewrite (M_bind_ok _ _ _ _ _ (bstree_min_run s _ _ _ _ _ (rep_to_right _ _ _ _ _ _ HR))).
  rewrite leftmost_app. destruct (leftmost [] rl d kd rr) as [[[cy y] ky] ry] eqn:E.
  apply leftmost_plug in E as (Ep & Ein & _). cbn [fst snd cinl plug] in *.
  assert (HRy : rep s (cy ++ FR l a k :: c) (Nd Leaf y ky ry)).
  { apply (proj2 (rep_plug _ _ _)). rewrite plug_app, <- Ep.
    apply (proj1 (rep_plug _ _ _)), rep_to_right, HR. }
  pose proof (rep_cell _ _ _ _ _ _ HRy) as Hy.
  rewrite (bind_load _ _ _ _ Hy). cbn [p right].
  assert (Hin : inorder (Nd rl d kd rr) = ky :: inorder (plug cy ry)).
  { by rewrite Ep, !inorder_plug, Ein. }
  assert (Hlocs : locs (Nd rl d kd rr) ≡ₚ y :: locs (plug cy ry)).
  { by rewrite Ep, !locs_plug. }
  clear Ep Ein. set (r := Nd rl d kd rr) in *.
  assert (Hnl : l <> Leaf) by done. clearbody l r.
  destruct HR as [HT HC HN HRt]. cbn [locs] in HN.
  assert (HN' : NoDup (a :: y :: locs l ++ locs (plug cy ry) ++ clocs c)).
  { cbn in HN. rewrite <- app_assoc, Hlocs in HN. revert HN.
    apply NoDup_Permutation_proper. cbn. solve_Permutation. }
  assert (Hready : exists s1,
    ((if bool_decide (cpar (cy ++ FR l a k :: c) = Some a) then mret tt
      else
         bstree_transplant (Some y) (rootp ry);;
         n ← load (Some a);
         update (Some y) (with_right (right n));;
         ny ← load (Some y);
         update (right ny) (with_p (Some y))) s = Ok (tt, s1)) /\
    splice_ready s1 c l a (plug cy ry) y ky /\
    forall b, b ∉ a :: locs l ++ locs r ++ clocs c -> hp s1 !! b = hp s !! b).
  { destruct cy as [|f cy].
    - rewrite bool_decide_true by done. exists s. cbn in HT.
      rewrite agrees_cons, agrees_app in HT. destruct HT as (Ha & HL & HRr).
      split_and!; [done| |done]. split; [by eexists _, _|exact HL| |exact HC|by eexists|exact HN'|exact HRt].
      destruct HRy as [HTy _ _ _]. cbn in HTy.
      by apply agrees_cons in HTy as [_ HTy].
    - rewrite bool_decide_false.
      2:{ cbn. intros [= Hf]. rewrite locs_plug in HN'.
          destruct f; cbn in Hf; subst; tree_nodup. }
      destruct (bstree_transplant_rep s _ Leaf y ky ry ry HRy ltac:(by right))
        as (s1 & E1 & HR1 & Hf1).
      rewrite (M_bind_ok _ _ _ _ _ E1). clear E1.
      assert (Hyn : y ∉ locs ry ++ clocs ((f :: cy) ++ FR l a k :: c)).
      { destruct HRy as [_ _ HNy _]. cbn [locs] in HNy. nodup_solve. }
      pose proof (Hf1 y Hyn) as Hy1. rewrite Hy in Hy1.
      apply rep_plug in HR1. rewrite plug_app in HR1.
      apply (proj2 (rep_plug s1 _ _)) in HR1.
      pose proof (locs_plug (f :: cy) ry) as Hlr.
      setoid_rewrite clocs_app in Hf1. setoid_rewrite app_assoc in Hf1.
      setoid_rewrite <- Hlr in Hf1.
      destruct (plug_cons_root f cy ry) as (rl' & e & ke & rr' & Er).
      set (r' := plug (f :: cy) ry) in *. clearbody r'. subst r'.
      apply (rep_right s1) in HR1. pose proof (rep_cell _ _ _ _ _ _ HR1) as Ha1.
      rewrite (bind_load _ _ _ _ Ha1), (bind_update _ _ _ _ _ Hy1). cbn [rootp right].
      set (s2 := mkTstate _ _).
      assert (Hy2 : hp s2 !! y = Some (mkNode None (Some e) (cpar ((f :: cy) ++ FR l a k :: c)) ky))
        by (cbn; by rewrite lookup_alter_eq, Hy1).
      destruct HR1 as [HT1 HC1 HN1 HRt1]. cbn in HT1.
      rewrite !agrees_cons, !agrees_app, agrees_cons, agrees_app in HT1.
      destruct HT1 as (_ & HL1 & He & HR1).
      assert (He2 : hp s2 !! e = Some (mkNode (rootp rl') (rootp rr') (Some a) ke)).
      { cbn. rewrite lookup_alter_ne by tree_nodup. done. }
      rewrite (bind_load _ _ _ _ Hy2). cbn [right].
      rewrite (update_ok _ _ _ _ He2). eexists. split; [done|]. split.
      + split; cbn [hp root].
        * eexists _, _. rewrite !lookup_alter_ne by tree_nodup. cbn.
          rewrite lookup_alter_ne by tree_nodup. exact Ha1.
        * do 2 (apply agrees_alter_tree; [tree_nodup|]). done.
        * apply (agrees_reparent _ (Some a) _ (Nd rl' e ke rr')); [tree_nodup|].
          apply agrees_alter_tree; [tree_nodup|]. cbn.
          by rewrite agrees_cons, agrees_app.
        * do 2 (apply agrees_alter_ctx; [tree_nodup|]). done.
        * eexists. rewrite lookup_alter_ne by tree_nodup. exact Hy2.
        * done.
        * done.
      + intros x Hx. rewrite Hlocs in Hx. cbn [hp]. rewrite lookup_alter_ne by tree_nodup.
        cbn. rewrite lookup_alter_ne by tree_nodup. apply Hf1.
        cbn [clocs flocs]. tree_nodup. }
  destruct Hready as (s1 & E1 & Hs1 & Hf1). rewrite (M_bind_ok _ _ _ _ _ E1).
  destruct (splice_run s1 c l a _ y ky Hs1 Hnl) as (s2 & E2 & HR2 & Hf2).
  exists s2, (Nd l y ky (plug cy ry)). split_and!; [done|done| | |].
  - cbn. by rewrite Hin.
  - cbn. rewrite Hlocs. solve_Permutation.
  - intros x Hx. rewrite Hf2, Hf1; [done..|]. rewrite Hlocs in Hx. tree_nodup.
Qed.

(** ** The theorems about the operations *)

Lemma bst_tins a k t : bst t -> bst (tins a k t).
Proof. intros Hb. unfold bst. rewrite inorder_tins by done. by apply linsert_sorted. Qed.

Lemma locs_tins a k t : locs (tins a k t) ≡ₚ a :: locs t.
Proof.
  induction t as [|l IHl b kb r IHr]; cbn; [done|].
  destruct (k <? kb)%Z; cbn; rewrite ?IHl, ?IHr; solve_Permutation.
Qed.

(** C29: [bstree_insert] of a node [a] whose children are NULL, into a heap that
    holds a search tree, returns 0 and leaves a search tree, parent pointers
    included, whose in-order keys are the old ones with the new key inserted
    behind the equal ones; every node outside the tree is untouched. *)
Theorem bstree_insert_correct s t a q k :
  rep s [] t -> bst t ->
  hp s !! a = Some (mkNode None None q k) -> a ∉ locs t ->
  exists s' t', bstree_insert (Some a) s = Ok (0%Z, s') /\ rep s' [] t' /\ bst t' /\
    inorder t' = linsert k (inorder t) /\ locs t' ≡ₚ a :: locs t /\
    forall b, b ∉ a :: locs t -> hp s' !! b = hp s !! b.
Proof.
  intros HR Hb Ha Hni. destruct (bstree_insert_run s t a q k HR Ha Hni) as (s' & E & HR' & Hf).
  exists s', (tins a k t).
  split_and!; auto using bst_tins, inorder_tins, locs_tins.
Qed.

(** C12: [bstree_delete] of any node of a search tree leaves a search tree without
    exactly that occurrence of its key; no other node leaves or enters it. *)
Theorem bstree_delete_correct s c l a k r :
  rep s [] (plug c (Nd l a k r)) -> bst (plug c (Nd l a k r)) ->
  exists s' t', bstree_delete (Some a) s = Ok (tt, s') /\ rep s' [] t' /\ bst t' /\
    inorder (plug c (Nd l a k r)) = cinl c ++ inorder l ++ k :: inorder r ++ cinr c /\
    inorder t' = cinl c ++ inorder l ++ inorder r ++ cinr c /\
    a :: locs t' ≡ₚ locs (plug c (Nd l a k r)).
Proof.
  intros HR Hb. apply (proj2 (rep_plug _ _ _)) in HR.
  destruct (bstree_delete_run s c l a k r HR) as (s' & t' & E & HR' & Hin & Hl & _).
  assert (Hin1 : inorder (plug c (Nd l a k r)) = cinl c ++ inorder l ++ k :: inorder r ++ cinr c).
  { rewrite inorder_plug. cbn. by rewrite <- app_assoc. }
  assert (Hin2 : inorder (plug c t') = cinl c ++ inorder l ++ inorder r ++ cinr c).
  { by rewrite inorder_plug, Hin, <- app_assoc. }
  exists s', (plug c t'). split_and!; try done.
  - apply (proj1 (rep_plug _ _ _)), HR'.
  - unfold bst in *. rewrite Hin2. rewrite Hin1 in Hb.
    eapply StronglySorted_sublist; [|exact Hb].
    apply sublist_app; [done|]. apply sublist_app; [done|]. by apply sublist_cons.
  - rewrite !locs_plug, Hl. cbn. solve_Permutation.
Qed.

(** C30: [bstree_search] and [bstree_search_recursive] agree, change nothing, and
    return a node of the tree with the key, or NULL when no node has it. *)
Theorem bstree_search_correct s t k :
  rep s [] t -> bst t ->
  exists x, bstree_search (root s) k s = Ok (x, s) /\
    bstree_search_recursive (root s) k s = Ok (x, s) /\
    match x with
    | Some a => a ∈ locs t /\ exists n, hp s !! a = Some n /\ key n = k
    | None => k ∉ inorder t
    end.
Proof.
  intros HR Hb. replace (root s) with (rootp t) by (by destruct HR).
  exists (tfind k t). split_and!;
    [by eapply bstree_search_run|by apply bstree_search_recursive_run|].
  destruct (tfind_spec t k Hb) as [Hsome Hnone].
  destruct (tfind k t) as [a|] eqn:E; [|by apply Hnone].
  destruct (Hsome a eq_refl) as (c & l & r & ->). split.
  - rewrite locs_plug. by left.
  - eexists. split; [eapply rep_cell, (rep_plug _ c), HR|done].
Qed.

Lemma bstree_init_loop_run s t nodes keys :
  rep s [] t -> bst t -> NoDup nodes -> disj nodes (locs t) ->
  Forall2 (fun a k => hp s !! a = Some (mkNode None None None k)) nodes keys ->
  exists s' t', bstree_init_loop nodes s = Ok (0%Z, s') /\ rep s' [] t' /\ bst t' /\
    inorder t' ≡ₚ inorder t ++ keys.
Proof.
  revert s t keys. induction nodes as [|a nodes IH]; intros s t keys HR Hb HN HD HF;
    inversion HF as [|? k ? keys' Ha HF']; subst; cbn [bstree_init_loop].
  { exists s, t. by rewrite app_nil_r. }
  destruct (bstree_insert_run s t a None k HR Ha ltac:(nodup_solve))
    as (s1 & E1 & HR1 & Hf1).
  pose proof (bst_tins a k t Hb) as Hb1. pose proof (inorder_tins a k t Hb) as Hin1.
  pose proof (locs_tins a k t) as Hl1. set (t1 := tins a k t) in *. clearbody t1.
  rewrite (M_bind_ok _ _ _ _ _ E1). cbn beta.
  rewrite decide_True by done.
  apply NoDup_cons in HN as [Han HN].
  destruct (IH s1 t1 keys' HR1 Hb1 HN) as (s2 & t2 & E2 & HR2 & Hb2 & Hin2).
  - intros x Hx. rewrite Hl1. apply disj_cons_l in HD as [_ HD].
    apply not_elem_of_cons. split; [by intros ->|by apply HD].
  - eapply Forall2_impl_l; [exact HF'|]. intros x y Hx Hy. rewrite Hf1; [done|].
    apply disj_cons_l in HD as [_ HD].
    apply not_elem_of_cons. split; [by intros ->|by apply HD].
  - exists s2, t2. split_and!; try done. rewrite Hin2, Hin1, linsert_perm. solve_Permutation.
Qed.

Lemma rep_empty h : rep (mkTstate None h) [] (@Leaf loc Z).
Proof. split; cbn; [apply agrees_nil..|apply NoDup_nil_2|done]. Qed.

(** Tree sort.  [bstree_init] on a nonempty array of fresh nodes succeeds, and
    [bstree_inorder_walk] then prints a sorted permutation of their keys, which
    are as many as [bstree_node_count] says. *)
Theorem bstree_init_sorts h nodes keys :
  nodes <> [] -> NoDup nodes ->
  Forall2 (fun a k => h !! a = Some (mkNode None None None k)) nodes keys ->
  exists s' out, bstree_init nodes (mkTstate None h) = Ok (0%Z, s') /\
    bstree_inorder_walk (root s') s' = Ok (out, s') /\
    bstree_node_count (root s') s' = Ok (u64 (Z.of_nat (length keys)), s') /\
    StronglySorted Z.le out /\ out ≡ₚ keys.
Proof.
  intros Hne HN HF. unfold bstree_init.
  destruct (bstree_init_loop_run (mkTstate None h) Leaf nodes keys) as (s' & t' & E & HR & Hb & Hp);
    try done.
  - apply rep_empty.
  - constructor.
  - apply disj_sym, disj_nil_l.
  - cbn in Hp. exists s', (inorder t').
    assert (Hroot : root s' = rootp t') by (by destruct HR).
    assert (HW : bstree_inorder_walk (root s') s' = Ok (inorder t', s')).
    { rewrite Hroot. unfold bstree_inorder_walk. mnorm.
      eapply bstree_inorder_walk_run; eauto using rep_hfuel. }
    split_and!; try done.
    + unfold set_root, modify, mbind at 1, M_bind at 1. rewrite (M_bind_ok _ _ _ _ _ E).
      rewrite decide_True by done. mnorm.
      destruct t' as [|l a k r].
      { destruct nodes; [done|]. inversion HF; subst. by apply Permutation_nil_cons in Hp. }
      rewrite Hroot at 1. cbn [rootp]. rewrite (bind_load _ _ _ _ (rep_cell _ _ _ _ _ _ HR)).
      by rewrite (M_bind_ok _ _ _ _ _ HW).
    + rewrite Hroot. unfold bstree_node_count. mnorm. rewrite <- (Permutation_length Hp).
      eapply bstree_node_count_run; eauto using rep_hfuel.
Qed.
End proofs.

(** * The tests of the repository, and witnesses *)
Definition test_state : tstate nat Z := array_state test_keys.

Example test_binary_search_tree_results :
  let out {A} (r : res (A * tstate nat Z)) := match r with Ok (a, _) => Some a | _ => None end in
  out (test_binary_search_tree_search (nodes_of test_keys) test_state) = Some (Some (140, 70)%Z) /\
  out (test_binary_search_tree_delete_1 (nodes_of test_keys) test_state) =
    Some (Some (-1, 119, 115, 100,
      [70; 80; 85; 90; 94; 95; 100; 103; 105; 108; 110; 115; 119; 120; 130; 140]))%Z /\
  out (test_binary_search_tree_delete_2 (nodes_of test_keys) test_state) =
    Some (Some (94, -1, 90, 100,
      [70; 80; 85; 90; 94; 100; 103; 105; 108; 110; 115; 118; 119; 120; 130; 140]))%Z /\
  out (test_binary_search_tree_delete_3 (nodes_of test_keys) test_state) =
    Some (Some (105, 120, 100, 100,
      [70; 80; 85; 90; 94; 95; 100; 103; 105; 108; 115; 118; 119; 120; 130; 140]))%Z /\
  out (test_binary_search_tree_delete_4 (nodes_of test_keys) test_state) =
    Some (Some (115, 130, 110, 100,
      [70; 80; 85; 90; 94; 95; 100; 103; 105; 108; 110; 115; 118; 119; 130; 140]))%Z.
Proof. vm_compute. split_and!; reflexivity. Qed.

(** A heap with the tree 5 (3) (9 (7)) at addresses 0 to 3 and a fresh node 4. *)
Definition wit_tree : tree nat Z := Nd (Nd Leaf 1 3%Z Leaf) 0 5%Z (Nd (Nd Leaf 3 7%Z Leaf) 2 9%Z Leaf).
Definition wit_state : tstate nat Z :=
  mkTstate (Some 0) (<[4 := mkNode None None None 8%Z]> (list_to_map (cells None wit_tree))).

Lemma bstree_insert_correct_witness :
  exists s' t', bstree_insert (Some 4) wit_state = Ok (0%Z, s') /\ rep s' [] t' /\ bst t' /\
    inorder t' = linsert 8 (inorder wit_tree) /\ locs t' ≡ₚ 4 :: locs wit_tree /\
    forall b, b ∉ 4 :: locs wit_tree -> hp s' !! b = hp wit_state !! b.
Proof.
  apply (bstree_insert_correct wit_state wit_tree 4 None 8%Z);
    [by apply repb_sound|by apply sortedb_sound|reflexivity|].
  decide_now.
Defined.

Lemma bstree_delete_correct_witness :
  exists s' t', bstree_delete (Some 0) wit_state = Ok (tt, s') /\ rep s' [] t' /\ bst t' /\
    inorder wit_tree = [3; 5; 7; 9]%Z /\ inorder t' = [3; 7; 9]%Z /\
    0 :: locs t' ≡ₚ locs wit_tree.
Proof.
  apply (bstree_delete_correct wit_state [] (Nd Leaf 1 3%Z Leaf) 0 5%Z
           (Nd (Nd Leaf 3 7%Z Leaf) 2 9%Z Leaf));
    [by apply repb_sound|by apply sortedb_sound].
Defined.

Lemma bstree_search_correct_witness :
  exists x, bstree_search (root wit_state) 7 wit_state = Ok (x, wit_state) /\
    bstree_search_recursive (root wit_state) 7 wit_state = Ok (x, wit_state) /\
    match x with
    | Some a => a ∈ locs wit_tree /\ exists n, hp wit_state !! a = Some n /\ key n = 7%Z
    | None => 7%Z ∉ inorder wit_tree
    end.
Proof.
  apply (bstree_search_correct wit_state wit_tree 7);
    [by apply repb_sound|by apply sortedb_sound].
Defined.

Lemma bstree_init_sorts_witness :
  exists s' out, bstree_init (nodes_of test_keys) test_state = Ok (0%Z, s') /\
    bstree_inorder_walk (root s') s' = Ok (out, s') /\
    bstree_node_count (root s') s' = Ok (u64 17, s') /\
    StronglySorted Z.le out /\ out ≡ₚ test_keys.
Proof.
  apply (bstree_init_sorts (hp test_state) (nodes_of test_keys) test_keys).
  - discriminate.
  - decide_now.
  - repeat (constructor; [reflexivity|]). constructor.
Defined.

(** [bstree_insert_recursive] does not set the parent pointer: deleting the node
    it has inserted below the root empties the tree. *)
Example bstree_insert_recursive_loses_tree :
  match (bstree_insert (Some 0);; bstree_insert_recursive (Some 1);; bstree_delete (Some 1))
          (array_state [5; 3]%Z) with
  | Ok (_, s) => root s = None
  | Stop _ => False
  end.
Proof. vm_compute. reflexivity. Qed.
