(* ===== verification/NodePool.v ===== *)
(** The node pools: [node_new] and [node_pool_init] of src/algs/node_pool.cpp
    (rows of preallocated tree nodes, the allocator of the red-black tree and of
    the graph) and the two-dimensional array of src/algs/tdarr.cpp.

    [malloc], [calloc] and [realloc] are calls of the C library: the [k]-th
    request of a run succeeds when [avail k] says so, and a successful request
    yields the row number [k], different from every other row. *)
From S2P Require Import Prelude.

(** What a slot of the array of row pointers holds: the null pointer, bytes that
    were never written (a [malloc]ed or [realloc]ed tail), or a row. *)
Inductive slot := SNull | SGarbage | SRow (r : nat).
#[export] Instance slot_eq_dec : EqDecision slot.
Proof. solve_decision. Defined.

(** An address inside a row: [&p.n[i][j]]. *)
Abbreviation addr := (nat * Z)%type.

(** What an allocator of tree nodes promises to the containers that use it
    through the function pointer [node_new]. *)
Class NodeAlloc (P loc : Type) := {
  na_new : P -> res (loc * P);
  na_inv : P -> Prop;
  na_live : P -> loc -> Prop;
  na_new_spec q l q' :
    na_inv q -> na_new q = Ok (l, q') ->
    na_inv q' /\ ~ na_live q l /\ forall x, na_live q' x <-> x = l \/ na_live q x;
  na_new_progress q :
    na_inv q -> na_new q = Stop Exited \/ exists l q', na_new q = Ok (l, q')
}.

Section pools.
Variable avail : nat -> bool.

(** The largest object a program may allocate, PTRDIFF_MAX bytes. *)
Definition PTRDIFF_MAX : Z := 2 ^ 63 - 1.

(** [malloc], [calloc] and [realloc] of [sz] bytes: the new block's number, and
    the number of requests made so far. *)
Definition malloc (req : nat) (sz : Z) : option nat * nat :=
  (if avail req && (sz <=? PTRDIFF_MAX)%Z then Some req else None, S req).

(** A [realloc]ed array of pointers: the old contents, then bytes never written. *)
Definition resized (n : list slot) (k : Z) : list slot :=
  take (Z.to_nat k) n ++ replicate (Z.to_nat k - length n) SGarbage.

(** [(size_t)log2(x)] *)
Definition c_log2 (x : Z) : Z := Z.log2 x.

(** * src/algs/node_pool.cpp *)
Record node_pool := mkPool {
  n : list slot;
  i : Z;
  j : Z;
  N : Z;
  reqs : nat
}.

(** The elements of a row, and their size.  [pool_new] has rows of [RTR_POOL_N]
    tree nodes; the same code with rows of [NODE_N] and [BAG_N] elements makes the
    graph nodes and bags of test_graph.cpp. *)
Variables row_n row_sz : Z.

Definition node_pool_init (req : nat) (k : Z) : node_pool :=
  match malloc req (k * 8) with
  | (Some _, req) => mkPool (replicate (Z.to_nat k) SNull) 0 0 k req
  | (None, req) => mkPool [] 0 0 k req
  end.

(** [if(!p.n[0]){ ... }] *)
Definition node_new_first (q : node_pool) : res node_pool :=
  s0 ← aget (n q) 0;
  match s0 with
  | SNull =>
      match malloc (reqs q) (row_n * row_sz) with
      | (Some r, req) => n' ← aset (n q) 0 (SRow r); mret (mkPool n' (i q) (j q) (N q) req)
      | (None, _) => Stop Exited
      end
  | _ => mret q
  end.

(** [if(p.i == p.N - 1){ ... }] *)
Definition node_new_grow (q : node_pool) : res node_pool :=
  if (i q =? u64 (N q - 1))%Z then
    let NN := c_log2 (N q) in
    let N' := u64 (N q + (if (NN <? 8)%Z then 8 else NN)) in
    match malloc (reqs q) (u64 (N' * 8)) with
    | (Some _, req) => mret (mkPool (resized (n q) N') (i q) (j q) N' req)
    | (None, _) => Stop Exited
    end
  else mret q.

(** [if(p.j == row_n - 1){ ... }] *)
Definition node_new_row (q : node_pool) : res node_pool :=
  if (j q =? row_n - 1)%Z then
    let i' := u64 (i q + 1) in
    match malloc (reqs q) (row_n * row_sz) with
    | (Some r, req) => n' ← aset (n q) i' (SRow r); mret (mkPool n' i' 0 (N q) req)
    | (None, _) => Stop Exited
    end
  else mret q.

(** [&p.n[p.i][p.j++]] *)
Definition node_new_take (q : node_pool) : res (addr * node_pool) :=
  s ← aget (n q) (i q);
  match s with
  | SRow r =>
      if (j q <? row_n)%Z
      then mret ((r, j q), mkPool (n q) (i q) (u64 (j q + 1)) (N q) (reqs q))
      else Stop OutOfBounds
  | SNull => Stop NullDeref
  | SGarbage => Stop Uninit
  end.

(** The fields of the new node are written by the caller's heap, see RbTree. *)
Definition pool_new (q : node_pool) : res (addr * node_pool) :=
  q ← node_new_first q;
  q ← node_new_grow q;
  q ← node_new_row q;
  node_new_take q.

(** Successive calls, as the insertions into a tree make them. *)
Fixpoint pool_new_many (k : nat) (q : node_pool) : res (list addr * node_pool) :=
  match k with
  | O => mret ([], q)
  | S k => '(l, q) ← pool_new q; '(ls, q) ← pool_new_many k q; mret (l :: ls, q)
  end.

(** * src/algs/tdarr.cpp *)
Record tdarr := mkTd {
  td_p : list slot;
  td_i : Z;
  td_j : Z;
  td_I : Z;
  td_J : Z;
  td_mem : gmap addr Z;
  td_reqs : nat
}.

(** [a.p] is used without a test: a failed [malloc] is a null dereference. *)
Definition tdarr_init (req : nat) (i j : Z) : res tdarr :=
  match malloc req (u64 (i * 8)) with
  | (Some _, req) =>
      p' ← aset (replicate (Z.to_nat i) SGarbage) 0 SNull;
      mret (mkTd p' 0 0 i j ∅ req)
  | (None, _) => Stop NullDeref
  end.

(** The three guarded steps of [tdarr_int_new]; [inl] is [return 0]. *)
Definition td_first (a : tdarr) : res (tdarr + tdarr) :=
  s0 ← aget (td_p a) 0;
  match s0 with
  | SNull =>
      match malloc (td_reqs a) (u64 (td_J a * 4)) with
      | (Some r, req) =>
          p' ← aset (td_p a) 0 (SRow r);
          mret (inr (mkTd p' (td_i a) (td_j a) (td_I a) (td_J a) (td_mem a) req))
      | (None, req) =>
          mret (inl (mkTd (td_p a) (td_i a) (td_j a) (td_I a) (td_J a) (td_mem a) req))
      end
  | _ => mret (inr a)
  end.

Definition td_grow (a : tdarr) : res (tdarr + tdarr) :=
  if (td_i a =? u64 (td_I a - 1))%Z then
    let I := c_log2 (td_I a) in
    let I' := u64 (td_I a + (if (I <? td_I a)%Z then td_I a else I)) in
    match malloc (td_reqs a) (u64 (I' * 8)) with
    | (Some _, req) =>
        mret (inr (mkTd (resized (td_p a) I') (td_i a) (td_j a) I' (td_J a) (td_mem a) req))
    | (None, req) => mret (inl (mkTd [] (td_i a) (td_j a) I' (td_J a) (td_mem a) req))
    end
  else mret (inr a).

Definition td_row (a : tdarr) : res (tdarr + tdarr) :=
  if (td_j a =? u64 (td_J a - 1))%Z then
    let i' := u64 (td_i a + 1) in
    match malloc (td_reqs a) (u64 (td_J a * 4)) with
    | (Some r, req) =>
        p' ← aset (td_p a) i' (SRow r);
        mret (inr (mkTd p' i' 0 (td_I a) (td_J a) (td_mem a) req))
    | (None, req) =>
        p' ← aset (td_p a) i' SNull;
        mret (inl (mkTd p' i' (td_j a) (td_I a) (td_J a) (td_mem a) req))
    end
  else mret (inr a).

Definition td_take (a : tdarr) (key : Z) : res (option addr * tdarr) :=
  s ← aget (td_p a) (td_i a);
  match s with
  | SRow r =>
      if (td_j a <? td_J a)%Z
      then mret (Some (r, td_j a),
             mkTd (td_p a) (td_i a) (u64 (td_j a + 1)) (td_I a) (td_J a)
                  (<[(r, td_j a) := key]> (td_mem a)) (td_reqs a))
      else Stop OutOfBounds
  | SNull => Stop NullDeref
  | SGarbage => Stop Uninit
  end.

(** The result is the address of the new element, [None] for the null pointer. *)
Definition tdarr_int_new (a : tdarr) (key : Z) : res (option addr * tdarr) :=
  r1 ← td_first a;
  match r1 with
  | inl a => mret (None, a)
  | inr a =>
      r2 ← td_grow a;
      match r2 with
      | inl a => mret (None, a)
      | inr a =>
          r3 ← td_row a;
          match r3 with inl a => mret (None, a) | inr a => td_take a key end
      end
  end.

(** The insertions [tdarr_int_new(arr, k)] of a loop that stops at the first null
    pointer, as the test does. *)
Fixpoint tdarr_fill (a : tdarr) (keys : list Z) : res (list addr * tdarr) :=
  match keys with
  | [] => mret ([], a)
  | k :: keys =>
      '(x, a) ← tdarr_int_new a k;
      match x with
      | None => mret ([], a)
      | Some x => '(xs, a) ← tdarr_fill a keys; mret (x :: xs, a)
      end
  end.

(** * The invariant both share *)

(** Rows [0 .. i] are distinct rows numbered below [reqs]; column [j] of row [i] is
    the next free element, and the last column of a row of [cap] is never used. *)
Record rows_ok (n : list slot) (i j cap : Z) (reqs : nat) : Prop := {
  ro_i : (0 <= i < Z.of_nat (length n))%Z;
  ro_j : (0 <= j <= cap - 1)%Z;
  ro_row : forall k, k <= Z.to_nat i -> exists r, n !! k = Some (SRow r) /\ r < reqs;
  ro_inj : forall k1 k2 r, k1 <= Z.to_nat i -> k2 <= Z.to_nat i ->
    n !! k1 = Some (SRow r) -> n !! k2 = Some (SRow r) -> k1 = k2
}.

Definition rows_fresh (n : list slot) (i j : Z) : Prop := n !! 0 = Some SNull /\ i = 0%Z /\ j = 0%Z.

(** The addresses handed out so far. *)
Definition rows_live (n : list slot) (i j cap : Z) (x : addr) : Prop :=
  exists k, n !! k = Some (SRow x.1) /\ (0 <= x.2)%Z /\
    ((k < Z.to_nat i /\ (x.2 < cap - 1)%Z) \/ (k = Z.to_nat i /\ (x.2 < j)%Z)).

Definition pool_inv (q : node_pool) : Prop :=
  (rows_fresh (n q) (i q) (j q) \/ rows_ok (n q) (i q) (j q) row_n (reqs q)) /\
  N q = Z.of_nat (length (n q)) /\ (N q < 2 ^ 60)%Z.
Definition pool_live (q : node_pool) : addr -> Prop := rows_live (n q) (i q) (j q) row_n.

Definition td_inv (a : tdarr) : Prop :=
  (rows_fresh (td_p a) (td_i a) (td_j a) \/
   rows_ok (td_p a) (td_i a) (td_j a) (td_J a) (td_reqs a)) /\
  td_I a = Z.of_nat (length (td_p a)) /\ (td_I a < 2 ^ 60)%Z /\ (2 <= td_J a < 2 ^ 60)%Z.
Definition td_live (a : tdarr) : addr -> Prop := rows_live (td_p a) (td_i a) (td_j a) (td_J a).

(** ** Lemmas on the shared invariant *)
Lemma rows_fresh_not_live n i j cap x : rows_fresh n i j -> ~ rows_live n i j cap x.
Proof.
  intros (E & -> & ->) (k & Hk & H0 & [[Hlt _]|[_ Hlt]]); [cbn in Hlt; lia|lia].
Qed.

Lemma rows_first n cap i j reqs :
  rows_fresh n i j -> (1 <= cap)%Z ->
  rows_ok (<[0 := SRow reqs]> n) i j cap (S reqs) /\
  forall x, ~ rows_live (<[0 := SRow reqs]> n) i j cap x.
Proof.
  intros (E & -> & ->) Hcap. assert (Hlen : 0 < length n) by (by eapply lookup_lt_Some).
  split.
  - split; rewrite ?length_insert; try lia.
    + intros k Hk. exists reqs. replace k with 0 by (cbn in Hk; lia).
      rewrite list_lookup_insert_eq by done. split; [done|lia].
  - intros x (k & Hk & H0 & [[Hlt _]|[_ Hlt]]); [cbn in Hlt; lia|lia].
Qed.

Lemma rows_grow n i j cap reqs k :
  rows_ok n i j cap reqs -> (Z.of_nat (length n) <= k)%Z ->
  rows_ok (resized n k) i j cap (S reqs) /\
  (forall x, rows_live (resized n k) i j cap x <-> rows_live n i j cap x) /\
  Z.of_nat (length (resized n k)) = k.
Proof.
  intros [Hi Hj Hrow Hinj] Hk.
  assert (Hl : forall m, m <= Z.to_nat i -> resized n k !! m = n !! m).
  { intros m Hm. unfold resized. rewrite take_ge by lia. apply lookup_app_l. lia. }
  assert (Hlen : length (resized n k) = Z.to_nat k).
  { unfold resized. rewrite length_app, length_replicate, take_ge by lia. lia. }
  split_and!; [split; rewrite ?Hlen; try lia| |lia].
  - intros m Hm. destruct (Hrow m Hm) as (r & E & Hr). exists r. rewrite Hl by done.
    split; [done|lia].
  - intros k1 k2 r H1 H2. rewrite !Hl by done. by apply Hinj.
  - intros x. unfold rows_live. split; intros (m & Hm & H0 & Hor); exists m;
      (split; [|by split]); [rewrite <- Hl by lia|rewrite Hl by lia]; done.
Qed.

Lemma rows_next n i cap reqs :
  rows_ok n i (cap - 1) cap reqs -> (i + 1 < Z.of_nat (length n))%Z -> (1 <= cap)%Z ->
  rows_ok (<[Z.to_nat (i + 1) := SRow reqs]> n) (i + 1) 0 cap (S reqs) /\
  forall x, rows_live (<[Z.to_nat (i + 1) := SRow reqs]> n) (i + 1) 0 cap x <->
            rows_live n i (cap - 1) cap x.
Proof.
  intros [Hi Hj Hrow Hinj] Hlt Hcap.
  assert (Hsi : Z.to_nat (i + 1) = S (Z.to_nat i)) by lia. rewrite Hsi.
  assert (Hl : forall m, m <= Z.to_nat i -> <[S (Z.to_nat i) := SRow reqs]> n !! m = n !! m).
  { intros m Hm. apply list_lookup_insert_ne. lia. }
  assert (Hnew : <[S (Z.to_nat i) := SRow reqs]> n !! S (Z.to_nat i) = Some (SRow reqs)).
  { apply list_lookup_insert_eq. lia. }
  assert (Hold : forall m r, m <= Z.to_nat i -> n !! m = Some (SRow r) -> r < reqs).
  { intros m r Hm E. destruct (Hrow m Hm) as (r' & E' & Hr'). congruence. }
  split; [split; rewrite ?length_insert, ?Hsi; try lia|].
  - intros m Hm. destruct (decide (m = S (Z.to_nat i))) as [->|Hne].
    + exists reqs. split; [done|lia].
    + destruct (Hrow m ltac:(lia)) as (r & E & Hr). exists r. rewrite Hl by lia.
      split; [done|lia].
  - intros k1 k2 r H1 H2.
    destruct (decide (k1 = S (Z.to_nat i))) as [->|Hk1];
      destruct (decide (k2 = S (Z.to_nat i))) as [->|Hk2]; [done|..];
      rewrite ?Hnew, ?Hl by lia.
    + intros [= <-] E2. pose proof (Hold k2 reqs ltac:(lia) E2). lia.
    + intros E1 [= <-]. pose proof (Hold k1 reqs ltac:(lia) E1). lia.
    + apply Hinj; lia.
  - intros x. unfold rows_live. rewrite Hsi. split; intros (m & Hm & H0 & Hor).
    + destruct Hor as [[H1 H2]|[-> H2]]; [|lia]. exists m. rewrite Hl in Hm by lia.
      split_and!; [done..|]. destruct (decide (m = Z.to_nat i)); [right|left]; lia.
    + exists m. rewrite Hl by lia. split_and!; [done..|]. left. lia.
Qed.

Lemma rows_take n i j cap reqs r :
  rows_ok n i j cap reqs -> (j < cap - 1)%Z -> n !! Z.to_nat i = Some (SRow r) ->
  rows_ok n i (j + 1) cap reqs /\ ~ rows_live n i j cap (r, j) /\
  forall x, rows_live n i (j + 1) cap x <-> x = (r, j) \/ rows_live n i j cap x.
Proof.
  intros [Hi Hj Hrow Hinj] Hlt Hr. split_and!.
  - split; try done; lia.
  - intros (k & Hk & H0 & [[H1 H2]|[H1 H2]]); cbn in *; [|lia].
    pose proof (Hinj k (Z.to_nat i) r ltac:(lia) ltac:(lia) Hk Hr). lia.
  - intros [rx cx]. unfold rows_live; cbn. split.
    + intros (k & Hk & H0 & [H1|[-> H2]]); [right; exists k; auto|].
      destruct (decide (cx = j)) as [->|]; [left; congruence|].
      right. exists (Z.to_nat i). split_and!; [done..|]. right. lia.
    + intros [[= -> ->]|(k & Hk & H0 & Hor)].
      * exists (Z.to_nat i). split_and!; [done|lia|right; lia].
      * exists k. split_and!; [done..|]. destruct Hor as [?|[-> ?]]; [by left|right; lia].
Qed.

Lemma u64_small x : (0 <= x < 2 ^ 64)%Z -> u64 x = x.
Proof. apply Z.mod_small. Qed.

Lemma malloc_cases req sz :
  (malloc req sz = (Some req, S req) /\ (sz <= PTRDIFF_MAX)%Z) \/ malloc req sz = (None, S req).
Proof.
  unfold malloc. destruct (avail req); cbn; [|by right].
  destruct (Z.leb_spec sz PTRDIFF_MAX); [by left|by right].
Qed.

Lemma log2_bound x : (0 < x < 2 ^ 60)%Z -> (0 <= c_log2 x < 60)%Z.
Proof. intros Hx. unfold c_log2. split; [apply Z.log2_nonneg|]. apply Z.log2_lt_pow2; lia. Qed.

(** ** The node pool *)
Hypothesis Hcap : (2 <= row_n < 2 ^ 60)%Z.

Definition live_same (q q' : node_pool) : Prop := forall x, pool_live q' x <-> pool_live q x.

(** A step either returns a pool with the property, or the program exits. *)
Definition step_to (r : res node_pool) (P : node_pool -> Prop) : Prop :=
  r = Stop Exited \/ exists q', r = Ok q' /\ P q'.

Definition pool_ok (q : node_pool) : Prop :=
  rows_ok (n q) (i q) (j q) row_n (reqs q) /\
  N q = Z.of_nat (length (n q)) /\ (N q < 2 ^ 60)%Z.

Lemma node_new_first_spec q :
  pool_inv q -> step_to (node_new_first q) (fun q' => pool_ok q' /\ live_same q q').
Proof.
  intros ([HF|HO] & HN & Hb); unfold node_new_first, step_to.
  - pose proof HF as (E & Hi & Hj). rewrite (aget_Z (n q) 0 _ ltac:(lia) E). rewrite bind_ok; cbv beta iota.
    destruct (malloc_cases (reqs q) (row_n * row_sz)) as [[-> _]| ->]; [right|by left].
    apply lookup_lt_Some in E. rewrite aset_Z by lia. rewrite bind_ok. eexists. split; [done|].
    destruct (rows_first (n q) row_n _ _ (reqs q) HF ltac:(lia)) as [HO Hl].
    split; [split_and!; cbn; rewrite ?length_insert; done|].
    intros x. split; intros Hx; exfalso; [by apply Hl in Hx|by apply rows_fresh_not_live in Hx].
  - right. destruct (ro_row _ _ _ _ _ HO 0 ltac:(lia)) as (r & E & _).
    rewrite (aget_Z (n q) 0 _ ltac:(lia) E). rewrite bind_ok; cbv beta iota. by exists q.
Qed.

Lemma node_new_grow_spec q :
  pool_ok q ->
  step_to (node_new_grow q)
    (fun q' => pool_ok q' /\ live_same q q' /\ (i q' + 1 < Z.of_nat (length (n q')))%Z).
Proof.
  intros (HO & HN & Hb). unfold node_new_grow, step_to.
  pose proof (ro_i _ _ _ _ _ HO) as Hi. rewrite u64_small by lia.
  destruct (Z.eqb_spec (i q) (N q - 1)) as [Hq|Hq].
  - pose proof (log2_bound (N q) ltac:(lia)) as Hlog.
    set (d := if (c_log2 (N q) <? 8)%Z then 8%Z else c_log2 (N q)).
    assert (Hd : (0 < d < 64)%Z) by (unfold d; destruct (Z.ltb_spec (c_log2 (N q)) 8); lia).
    rewrite (u64_small (N q + d)), (u64_small ((N q + d) * 8)) by lia.
    destruct (malloc_cases (reqs q) ((N q + d) * 8)) as [[-> Hsz]| ->]; [right|by left].
    unfold PTRDIFF_MAX in Hsz.
    destruct (rows_grow _ _ _ _ _ (N q + d) HO ltac:(lia)) as (HO' & Hl & Hlen).
    eexists. split; [done|]. split_and!; cbn; [by split_and!; cbn; [..|lia]|done|].
    rewrite Hlen. lia.
  - right. exists q. split_and!; try done. lia.
Qed.

Lemma node_new_row_spec q :
  pool_ok q -> (i q + 1 < Z.of_nat (length (n q)))%Z ->
  step_to (node_new_row q) (fun q' => pool_ok q' /\ live_same q q' /\ (j q' < row_n - 1)%Z).
Proof.
  intros (HO & HN & Hb) Hlt. unfold node_new_row, step_to.
  pose proof (ro_i _ _ _ _ _ HO) as Hi. pose proof (ro_j _ _ _ _ _ HO) as Hj.
  destruct (Z.eqb_spec (j q) (row_n - 1)) as [Hq|Hq].
  - destruct (malloc_cases (reqs q) (row_n * row_sz)) as [[-> _]| ->]; [right|by left].
    rewrite u64_small by lia. rewrite aset_Z by lia. rewrite bind_ok. rewrite Hq in HO.
    destruct (rows_next _ _ _ _ HO Hlt ltac:(lia)) as [HO' Hl].
    eexists. split; [done|]. split_and!; cbn; [by split_and!; cbn; rewrite ?length_insert| |lia].
    intros x. unfold pool_live. cbn. rewrite Hq. apply Hl.
  - right. exists q. split_and!; try done. lia.
Qed.

Lemma node_new_take_spec q :
  pool_ok q -> (j q < row_n - 1)%Z ->
  exists l q', node_new_take q = Ok (l, q') /\ pool_inv q' /\ ~ pool_live q l /\
    (0 <= l.2 < row_n)%Z /\ forall x, pool_live q' x <-> x = l \/ pool_live q x.
Proof.
  intros (HO & HN & Hb) Hlt. unfold node_new_take.
  destruct (ro_row _ _ _ _ _ HO (Z.to_nat (i q)) ltac:(lia)) as (r & E & _).
  pose proof (ro_i _ _ _ _ _ HO) as Hi. pose proof (ro_j _ _ _ _ _ HO) as Hj.
  rewrite (aget_Z _ _ _ (proj1 Hi) E). rewrite bind_ok; cbv beta iota.
  rewrite (proj2 (Z.ltb_lt _ _)) by lia.
  rewrite u64_small by lia.
  destruct (rows_take _ _ _ _ _ r HO Hlt E) as (HO' & Hn & Hl).
  eexists _, _. split; [done|]. split; [split_and!; cbn; [by right|done|done]|].
  split; [done|]. split; [cbn; lia|done].
Qed.

(** [pool_new], all steps. *)
Lemma node_new_fresh_aux q :
  pool_inv q ->
  pool_new q = Stop Exited \/
  exists l q', pool_new q = Ok (l, q') /\ pool_inv q' /\ ~ pool_live q l /\
    (0 <= l.2 < row_n)%Z /\ forall x, pool_live q' x <-> x = l \/ pool_live q x.
Proof.
  intros HI. unfold pool_new.
  destruct (node_new_first_spec q HI) as [->|(q1 & -> & H1 & L1)]; [by left|]. cbn.
  destruct (node_new_grow_spec q1 H1) as [->|(q2 & -> & H2 & L2 & Hi)]; [by left|]. cbn.
  destruct (node_new_row_spec q2 H2 Hi) as [->|(q3 & -> & H3 & L3 & Hj)]; [by left|]. cbn.
  right. destruct (node_new_take_spec q3 H3 Hj) as (l & q4 & -> & H4 & Hl & Hb & L4).
  exists l, q4. unfold live_same in *. split_and!; try done; [|apply Hb|apply Hb|].
  - by rewrite <- L1, <- L2, <- L3.
  - intros x. by rewrite L4, L3, L2, L1.
Qed.

(** [k] calls in a row. *)
Lemma pool_new_many_spec q k :
  pool_inv q ->
  pool_new_many k q = Stop Exited \/
  exists ls q', pool_new_many k q = Ok (ls, q') /\ pool_inv q' /\ length ls = k /\
    NoDup ls /\ forall l, l ∈ ls -> ~ pool_live q l /\ (0 <= l.2 < row_n)%Z.
Proof.
  revert q. induction k as [|k IH]; intros q HI; cbn [pool_new_many].
  { right. exists [], q. split_and!; try done; [apply NoDup_nil_2|].
    intros l Hl. by apply not_elem_of_nil in Hl. }
  destruct (node_new_fresh_aux q HI) as [->|(l & q1 & -> & H1 & Hl & Hb & L1)]; [by left|].
  rewrite bind_ok.
  destruct (IH q1 H1) as [->|(ls & q2 & -> & H2 & Hlen & HN & Hls)]; [by left|].
  right. exists (l :: ls), q2. split_and!; [done|done|cbn; lia| |].
  - constructor; [|done]. intros Hin. apply Hls in Hin as [Hin _]. apply Hin, L1. by left.
  - intros x [->|Hx]%elem_of_cons; [done|]. apply Hls in Hx as [Hx Hbx]. split; [|done].
    intros Hlx. apply Hx, L1. by right.
Qed.


Lemma node_pool_init_inv req k :
  (1 <= k < 2 ^ 50)%Z -> avail req = true ->
  pool_inv (node_pool_init req k) /\ forall x, ~ pool_live (node_pool_init req k) x.
Proof.
  intros Hk Ha. unfold node_pool_init, malloc. rewrite Ha. cbn.
  rewrite (proj2 (Z.leb_le _ _)) by (unfold PTRDIFF_MAX; lia).
  assert (HF : rows_fresh (replicate (Z.to_nat k) SNull) 0 0).
  { split_and!; [|done..]. apply lookup_replicate_2. lia. }
  split; [|by intros x; apply rows_fresh_not_live].
  split_and!; cbn; [by left|rewrite length_replicate; lia|lia].
Qed.

(** [pool_new] as the allocator of a container: a failed call ends the program. *)
#[program] Definition pool_alloc : NodeAlloc node_pool addr := {|
  na_new := pool_new;
  na_inv := pool_inv;
  na_live := pool_live
|}.
Next Obligation.
  intros q l q' HI E. destruct (node_new_fresh_aux q HI) as [E'|(l' & q'' & E' & H1 & H2 & _ & H3)];
    rewrite E in E'; [done|]. by injection E' as <- <-.
Qed.
Next Obligation.
  intros q HI. destruct (node_new_fresh_aux q HI) as [E|(l & q' & E & _)]; [by left|].
  right. by exists l, q'.
Qed.

(** ** The two-dimensional array *)
Definition td_ok (a : tdarr) : Prop :=
  rows_ok (td_p a) (td_i a) (td_j a) (td_J a) (td_reqs a) /\
  td_I a = Z.of_nat (length (td_p a)) /\ (td_I a < 2 ^ 60)%Z /\ (2 <= td_J a < 2 ^ 60)%Z.
Definition td_same (a a' : tdarr) : Prop :=
  (forall x, td_live a' x <-> td_live a x) /\ td_mem a' = td_mem a /\ td_J a' = td_J a.

(** A step returns 0 or continues with an array that has the property. *)
Definition td_step_to (m : gmap addr Z) (r : res (tdarr + tdarr)) (P : tdarr -> Prop) : Prop :=
  exists o, r = Ok o /\ match o with inl a' => td_mem a' = m | inr a' => P a' end.

Lemma td_first_spec a :
  td_inv a -> td_step_to (td_mem a) (td_first a) (fun a' => td_ok a' /\ td_same a a').
Proof.
  intros ([HF|HO] & HN & Hb & HJ); unfold td_first, td_step_to.
  - pose proof HF as (E & Hi & Hj).
    rewrite (aget_Z (td_p a) 0 _ ltac:(lia) E). rewrite bind_ok; cbv beta iota.
    destruct (malloc_cases (td_reqs a) (u64 (td_J a * 4))) as [[-> _]| ->];
      [|eexists; split; done].
    apply lookup_lt_Some in E. rewrite aset_Z by lia. rewrite bind_ok.
    eexists. split; [done|].
    destruct (rows_first (td_p a) (td_J a) _ _ (td_reqs a) HF ltac:(lia)) as [HO Hl].
    split; [split_and!; cbn; rewrite ?length_insert; done || lia|].
    split; [|done].
    intros x. split; intros Hx; exfalso; [by apply Hl in Hx|by apply rows_fresh_not_live in Hx].
  - destruct (ro_row _ _ _ _ _ HO 0 ltac:(lia)) as (r & E & _).
    rewrite (aget_Z (td_p a) 0 _ ltac:(lia) E). rewrite bind_ok; cbv beta iota.
    eexists. split; [done|]. by split.
Qed.

Lemma td_grow_spec a :
  td_ok a ->
  td_step_to (td_mem a) (td_grow a)
    (fun a' => td_ok a' /\ td_same a a' /\ (td_i a' + 1 < Z.of_nat (length (td_p a')))%Z).
Proof.
  intros (HO & HN & Hb & HJ). unfold td_grow, td_step_to.
  pose proof (ro_i _ _ _ _ _ HO) as Hi. rewrite u64_small by lia.
  destruct (Z.eqb_spec (td_i a) (td_I a - 1)) as [Hq|Hq].
  - assert (Hd : (c_log2 (td_I a) < td_I a)%Z) by (apply Z.log2_lt_lin; lia).
    rewrite (proj2 (Z.ltb_lt _ _)) by done.
    rewrite (u64_small (td_I a + _)), (u64_small (_ * 8)) by lia.
    destruct (malloc_cases (td_reqs a) ((td_I a + td_I a) * 8)) as [[-> Hsz]| ->];
      [|eexists; split; done].
    unfold PTRDIFF_MAX in Hsz.
    destruct (rows_grow _ _ _ _ _ (td_I a + td_I a) HO ltac:(lia)) as (HO' & Hl & Hlen).
    eexists. split; [done|]. split; [split_and!; cbn; done || lia|]. split; [split_and!; [exact Hl|done|done]|]. cbn.
    rewrite Hlen. lia.
  - eexists. split; [done|]. split; [split_and!; done || lia|]. split; [by split_and!|]. lia.
Qed.

Lemma td_row_spec a :
  td_ok a -> (td_i a + 1 < Z.of_nat (length (td_p a)))%Z ->
  td_step_to (td_mem a) (td_row a) (fun a' => td_ok a' /\ td_same a a' /\ (td_j a' < td_J a' - 1)%Z).
Proof.
  intros (HO & HN & Hb & HJ) Hlt. unfold td_row, td_step_to.
  pose proof (ro_i _ _ _ _ _ HO) as Hi. pose proof (ro_j _ _ _ _ _ HO) as Hj.
  rewrite (u64_small (td_J a - 1)) by lia.
  destruct (Z.eqb_spec (td_j a) (td_J a - 1)) as [Hq|Hq].
  - rewrite (u64_small (td_i a + 1)) by lia.
    destruct (malloc_cases (td_reqs a) (u64 (td_J a * 4))) as [[-> _]| ->];
      rewrite aset_Z by lia; rewrite bind_ok; [|eexists; split; done].
    rewrite Hq in HO. destruct (rows_next _ _ _ _ HO Hlt ltac:(lia)) as [HO' Hl].
    eexists. split; [done|].
    split; [split_and!; cbn; rewrite ?length_insert; done || lia|].
    split; [|cbn; lia]. split_and!; [|done..]. intros x. unfold td_live. cbn. rewrite Hq. apply Hl.
  - eexists. split; [done|]. split; [split_and!; done || lia|]. split; [by split_and!|]. lia.
Qed.

Lemma td_take_spec a key :
  td_ok a -> (td_j a < td_J a - 1)%Z ->
  exists l a', td_take a key = Ok (Some l, a') /\ td_inv a' /\ ~ td_live a l /\
    td_mem a' = <[l := key]> (td_mem a) /\ forall x, td_live a' x <-> x = l \/ td_live a x.
Proof.
  intros (HO & HN & Hb & HJ) Hlt. unfold td_take.
  destruct (ro_row _ _ _ _ _ HO (Z.to_nat (td_i a)) ltac:(lia)) as (r & E & _).
  pose proof (ro_i _ _ _ _ _ HO) as Hi. pose proof (ro_j _ _ _ _ _ HO) as Hj.
  rewrite (aget_Z _ _ _ (proj1 Hi) E). rewrite bind_ok; cbv beta iota.
  rewrite (proj2 (Z.ltb_lt _ _)), u64_small by lia.
  destruct (rows_take _ _ _ _ _ r HO Hlt E) as (HO' & Hn & Hl).
  eexists _, _. split; [done|]. split; [split_and!; cbn; [by right|done || lia..]|].
  done.
Qed.

Lemma tdarr_int_new_spec a key :
  td_inv a ->
  exists o a', tdarr_int_new a key = Ok (o, a') /\
    match o with
    | None => td_mem a' = td_mem a
    | Some l => td_inv a' /\ ~ td_live a l /\ td_mem a' = <[l := key]> (td_mem a) /\
                forall x, td_live a' x <-> x = l \/ td_live a x
    end.
Proof.
  intros HI. unfold tdarr_int_new.
  destruct (td_first_spec a HI) as (o1 & -> & H1). rewrite bind_ok.
  destruct o1 as [?|a1]; [by eexists _, _|]. destruct H1 as (H1 & L1 & M1 & J1).
  destruct (td_grow_spec a1 H1) as (o2 & -> & H2). rewrite bind_ok.
  destruct o2 as [?|a2]; [eexists _, _; split; [done|]; cbn; congruence|]. destruct H2 as (H2 & (L2 & M2 & J2) & Hi).
  destruct (td_row_spec a2 H2 Hi) as (o3 & -> & H3). rewrite bind_ok.
  destruct o3 as [?|a3]; [eexists _, _; split; [done|]; cbn; congruence|]. destruct H3 as (H3 & (L3 & M3 & J3) & Hj).
  destruct (td_take_spec a3 key H3 Hj) as (l & a4 & -> & H4 & Hl & HM & L4).
  eexists _, a4. split; [done|]. cbn. split_and!; [done|by rewrite <- L1, <- L2, <- L3| |].
  - by rewrite HM, M3, M2, M1.
  - intros x. by rewrite L4, L3, L2, L1.
Qed.

Lemma tdarr_fill_spec a keys :
  td_inv a ->
  exists xs a', tdarr_fill a keys = Ok (xs, a') /\ NoDup xs /\
    Forall2 (fun x k => td_mem a' !! x = Some k) xs (take (length xs) keys) /\
    (forall x, x ∈ xs -> ~ td_live a x) /\
    forall y, td_live a y -> td_mem a' !! y = td_mem a !! y.
Proof.
  revert a. induction keys as [|k keys IH]; intros a HI; cbn [tdarr_fill].
  { exists [], a. split_and!; try done; [apply NoDup_nil_2|].
    intros x Hx. by apply not_elem_of_nil in Hx. }
  destruct (tdarr_int_new_spec a k HI) as (o & a1 & -> & H1). rewrite bind_ok. cbn [fst snd].
  destruct o as [l|].
  2:{ exists [], a1. split_and!; try done; [apply NoDup_nil_2| |by rewrite H1].
      intros x Hx. by apply not_elem_of_nil in Hx. }
  destruct H1 as (H1 & Hl & HM & L1).
  destruct (IH a1 H1) as (xs & a2 & -> & HN & HF & Hxs & Hk). rewrite bind_ok.
  exists (l :: xs), a2. split_and!; [done|..].
  - constructor; [|done]. intros Hin. apply (Hxs l Hin), L1. by left.
  - cbn. constructor; [|done]. rewrite Hk by (apply L1; by left). rewrite HM.
    apply lookup_insert_eq.
  - intros x [->|Hx]%elem_of_cons; [done|]. intros Hlx. apply (Hxs x Hx), L1. by right.
  - intros y Hy. rewrite Hk by (apply L1; by right). rewrite HM, lookup_insert_ne; [done|].
    intros ->. done.
Qed.

(** Rows of preallocated nodes never clash.  With rows of any length from 2
    on, from a pool [node_pool_init] has made, any number of calls of [pool_new] either ends the program ([exit], when
    memory runs out) or returns that many pairwise different addresses, each inside
    its row: no undefined behaviour and no address handed out twice, across the
    growth of the array of rows and the change of rows. *)
Theorem node_pool_never_reuses req k m :
  (1 <= k < 2 ^ 50)%Z -> avail req = true ->
  pool_new_many m (node_pool_init req k) = Stop Exited \/
  exists ls q, pool_new_many m (node_pool_init req k) = Ok (ls, q) /\ length ls = m /\
    NoDup ls /\ forall l, l ∈ ls -> (0 <= l.2 < row_n)%Z.
Proof.
  intros Hk Ha. destruct (node_pool_init_inv req k Hk Ha) as [HI _].
  destruct (pool_new_many_spec _ m HI) as [|(ls & q & E & _ & Hlen & HN & Hls)]; [by left|].
  right. exists ls, q. split_and!; try done. intros l Hl. by apply Hls.
Qed.

(** the two-dimensional array keeps what is put in it.  Starting from
    [tdarr_init] with at least one row pointer and rows of at least two elements,
    a run of insertions never misbehaves; the addresses it returns are pairwise
    different and afterwards each of them still holds its key, for as many keys as
    were stored before an allocation failed. *)
Theorem tdarr_keeps_elements req I J a0 keys :
  (1 <= I < 2 ^ 60)%Z -> (2 <= J < 2 ^ 60)%Z -> tdarr_init req I J = Ok a0 ->
  exists xs a, tdarr_fill a0 keys = Ok (xs, a) /\ NoDup xs /\
    Forall2 (fun x k => td_mem a !! x = Some k) xs (take (length xs) keys).
Proof.
  intros HI HJ E. unfold tdarr_init, malloc in E.
  destruct (avail req); cbn [andb] in E; [|done].
  rewrite u64_small in E by lia. destruct (Z.leb_spec (I * 8) PTRDIFF_MAX) as [_|]; [|done].
  rewrite aset_Z in E by (rewrite length_replicate; lia). injection E as <-.
  edestruct (tdarr_fill_spec) as (xs & a & -> & HN & HF & _); [|by exists xs, a].
  split_and!; cbn; [left|rewrite length_insert, length_replicate; lia|lia..].
  split_and!; [|done..]. apply list_lookup_insert_eq. rewrite length_replicate. lia.
Qed.
End pools.

(** [1024 * 1024 * 8 / sizeof(rbtree_node)], a node being 40 bytes. *)
Definition RTR_POOL_N : Z := 1024 * 1024 * 8 / 40.

Definition node_new (avail : nat -> bool) : node_pool -> res (addr * node_pool) :=
  pool_new avail RTR_POOL_N 40.

#[export] Instance node_pool_alloc (avail : nat -> bool) : NodeAlloc node_pool addr :=
  pool_alloc avail RTR_POOL_N 40 ltac:(done).

Definition wit_avail (k : nat) : bool := true.

Lemma node_pool_never_reuses_witness :
  pool_new_many wit_avail RTR_POOL_N 40 3 (node_pool_init wit_avail 0 8) = Stop Exited \/
  exists ls q,
    pool_new_many wit_avail RTR_POOL_N 40 3 (node_pool_init wit_avail 0 8) = Ok (ls, q) /\
    length ls = 3 /\ NoDup ls /\ forall l, l ∈ ls -> (0 <= l.2 < RTR_POOL_N)%Z.
Proof.
  apply (node_pool_never_reuses wit_avail RTR_POOL_N 40 ltac:(done) 0 8 3); [lia|reflexivity].
Defined.

(** Five elements in rows of two: the last column of a row is never used. *)
Example tdarr_run :
  (match tdarr_init wit_avail 0 2 2 with
   | Ok a => match tdarr_fill wit_avail a [10; 11; 12; 13; 14]%Z with Ok (xs, _) => xs | _ => [] end
   | _ => []
   end) = [(1, 0%Z); (2, 0%Z); (4, 0%Z); (5, 0%Z); (7, 0%Z)].
Proof. vm_compute. reflexivity. Qed.

Lemma tdarr_keeps_elements_witness :
  exists a0, tdarr_init wit_avail 0 2 2 = Ok a0 /\
  exists xs a, tdarr_fill wit_avail a0 [10; 11; 12]%Z = Ok (xs, a) /\ NoDup xs /\
    Forall2 (fun x k => td_mem a !! x = Some k) xs (take (length xs) [10; 11; 12]%Z).
Proof.
  eexists. split; [reflexivity|].
  apply (tdarr_keeps_elements wit_avail 0 2 2); [lia|lia|reflexivity].
Defined.
