(* ===== verification/OrdSpec.v ===== *)
(** Ordered containers: comparators, the sorted list that specifies them, and the
    interface [TreeMap] under which src/algs/algorithms4th/graph.cpp uses the tree of
    src/algs/intro_to_algs3th/rb_tree.h. *)
From S2P Require Import Prelude.

(** * Sorted lists under a comparator *)

(** What [node_cmp] must be for the tree to make sense: the comparison of a total
    preorder. *)
Class KeyOrder {D} (cmp : D -> D -> Z) : Prop := {
  ko_refl x : cmp x x = 0%Z;
  ko_opp x y : (cmp x y < 0 <-> 0 < cmp y x)%Z;
  ko_trans x y z : (cmp x y < 0 -> cmp y z < 0 -> cmp x z < 0)%Z;
  ko_eq_l x y z : (cmp x y = 0 -> cmp y z < 0 -> cmp x z < 0)%Z
}.

Section spec.
Context {D : Type} (cmp : D -> D -> Z) `{KO : !KeyOrder cmp}.

(** Put into a sorted list, in place of the equal element if there is one. *)
Fixpoint sput (d : D) (l : list D) : list D :=
  match l with
  | [] => [d]
  | x :: l' =>
      if (cmp d x =? 0)%Z then d :: l'
      else if (cmp d x <? 0)%Z then d :: x :: l' else x :: sput d l'
  end.

Definition sget (d : D) (l : list D) : option D :=
  head (filter (fun x => cmp d x = 0%Z) l).

Definition sorted : list D -> Prop := StronglySorted (fun x y => cmp x y < 0)%Z.

Lemma ko_sym x y : cmp x y = 0%Z <-> cmp y x = 0%Z.
Proof. pose proof (ko_opp x y). pose proof (ko_opp y x). lia. Qed.

Lemma ko_eq_r x y z : (cmp x y < 0 -> cmp y z = 0 -> cmp x z < 0)%Z.
Proof.
  intros Hxy Hyz. apply ko_sym in Hyz.
  destruct (Z.lt_trichotomy (cmp x z) 0) as [?|[E|Hgt]]; [done|..].
  - apply ko_sym in E. pose proof (ko_eq_l _ _ _ E Hxy).
    apply ko_sym in Hyz. pose proof (ko_opp z y). lia.
  - apply ko_opp in Hgt. pose proof (ko_trans _ _ _ Hgt Hxy). pose proof (ko_opp z y). lia.
Qed.

Lemma sput_app_gt d l1 l2 :
  Forall (fun x => 0 < cmp d x)%Z l1 -> sput d (l1 ++ l2) = l1 ++ sput d l2.
Proof.
  induction 1 as [|x l1 Hx _ IH]; cbn; [done|].
  rewrite (proj2 (Z.eqb_neq _ _)), (proj2 (Z.ltb_ge _ _)) by lia. by rewrite IH.
Qed.

Lemma sput_lt d l2 : Forall (fun x => cmp d x < 0)%Z l2 -> sput d l2 = d :: l2.
Proof.
  destruct 1 as [|x l2 Hx _]; cbn; [done|].
  by rewrite (proj2 (Z.eqb_neq _ _)), (proj2 (Z.ltb_lt _ _)) by lia.
Qed.

Lemma sput_sorted d l : sorted l -> sorted (sput d l).
Proof.
  induction l as [|x l IH]; cbn; intros Hs; [by repeat constructor|].
  apply StronglySorted_cons in Hs as [Hx Hs]. destruct (Z.eqb_spec (cmp d x) 0) as [E|Hne].
  - constructor; [done|]. eapply Forall_impl; [exact Hx|]. intros z Hz. by eapply ko_eq_l.
  - destruct (Z.ltb_spec (cmp d x) 0) as [Hlt|Hge].
    + constructor; [by constructor|]. constructor; [done|].
      eapply Forall_impl; [exact Hx|]. intros z. by apply ko_trans.
    + constructor; [by apply IH|]. clear IH Hs.
      assert (Hxd : (cmp x d < 0)%Z) by (apply ko_opp; lia).
      induction l as [|y l IH]; cbn; [by constructor|].
      inversion Hx as [|? ? Hxy Hl]; subst.
      destruct (cmp d y =? 0)%Z; [by constructor|].
      destruct (cmp d y <? 0)%Z; [by repeat constructor|]. constructor; [done|by apply IH].
Qed.

(** Everything left of an element equal to [d] is smaller than [d]; right, greater. *)
Lemma sorted_at d l1 x l2 :
  sorted (l1 ++ x :: l2) -> cmp d x = 0%Z ->
  Forall (fun y => 0 < cmp d y)%Z l1 /\ Forall (fun y => cmp d y < 0)%Z l2.
Proof.
  intros Hs E. apply StronglySorted_app in Hs as (Hlr & _ & Hr).
  apply StronglySorted_cons in Hr as [Hx _]. split; rewrite Forall_forall in *.
  - intros y Hy. apply ko_opp, ko_eq_r with x; [apply Hlr; [done|by left]|by apply ko_sym].
  - intros y Hy. eapply ko_eq_l; [done|by apply Hx].
Qed.

Lemma sput_replace d l1 x l2 :
  sorted (l1 ++ x :: l2) -> cmp d x = 0%Z -> sput d (l1 ++ x :: l2) = l1 ++ d :: l2.
Proof.
  intros Hs E. destruct (sorted_at d l1 x l2 Hs E) as [Hl _].
  rewrite sput_app_gt by done. cbn. by rewrite E.
Qed.

Lemma sget_some d l1 x l2 :
  sorted (l1 ++ x :: l2) -> cmp d x = 0%Z -> sget d (l1 ++ x :: l2) = Some x.
Proof.
  intros Hs E. destruct (sorted_at d l1 x l2 Hs E) as [Hl _]. unfold sget.
  rewrite filter_app, filter_none, filter_cons_True; [done|done|].
  eapply Forall_impl; [exact Hl|]. cbn. lia.
Qed.

Lemma sget_none d l1 l2 :
  Forall (fun y => 0 < cmp d y)%Z l1 -> Forall (fun y => cmp d y < 0)%Z l2 ->
  sget d (l1 ++ l2) = None.
Proof.
  intros H1 H2. unfold sget. rewrite filter_none; [done|].
  apply Forall_app. split; (eapply Forall_impl; [eassumption|]); cbn; lia.
Qed.

Lemma sget_eq d l x : sget d l = Some x -> cmp d x = 0%Z.
Proof.
  unfold sget. destruct (filter _ l) as [|y k] eqn:E; [done|]. intros [= ->].
  assert (Hx : x ∈ filter (fun x => cmp d x = 0%Z) l) by (rewrite E; by left).
  by apply list_elem_of_filter in Hx as [? _].
Qed.

Lemma sget_None_inv d l : sget d l = None -> Forall (fun x => cmp d x <> 0%Z) l.
Proof.
  unfold sget. destruct (filter _ l) as [|y k] eqn:E; [|done]. intros _.
  apply Forall_forall. intros x Hx Hc.
  assert (Hin : x ∈ filter (fun x => cmp d x = 0%Z) l) by (by apply list_elem_of_filter).
  rewrite E in Hin. by apply not_elem_of_nil in Hin.
Qed.

Lemma elem_of_sput d l r : sorted l -> (r ∈ sput d l <-> r = d \/ (r ∈ l /\ cmp d r <> 0%Z)).
Proof.
  induction l as [|x l IH]; intros Hs; cbn [sput].
  { rewrite list_elem_of_singleton. split; [auto|]. intros [?|[Hr _]]; [done|].
    by apply not_elem_of_nil in Hr. }
  pose proof Hs as Hs'. apply StronglySorted_cons in Hs' as [Hx Hs'].
  rewrite Forall_forall in Hx.
  destruct (Z.eqb_spec (cmp d x) 0) as [E|Hne].
  - rewrite !elem_of_cons. split.
    + intros [?|Hr]; [by left|right]. split; [by right|].
      pose proof (ko_eq_l _ _ _ E (Hx r Hr)). lia.
    + intros [?|[[->|Hr] Hc]]; [by left|done|by right].
  - destruct (Z.ltb_spec (cmp d x) 0) as [Hlt|Hge].
    + rewrite !elem_of_cons. split.
      * intros [?|[->|Hr]]; [by left|right; auto|right]. split; [auto|].
        pose proof (ko_trans _ _ _ Hlt (Hx r Hr)). lia.
      * intros [?|[[->|Hr] Hc]]; auto.
    + rewrite elem_of_cons, IH, elem_of_cons by done. split.
      * intros [->|[?|[Hr Hc]]]; auto.
      * intros [?|[[->|Hr] Hc]]; auto.
Qed.

(** Putting loses nothing: the replaced element, if any, is the one [sget] finds. *)
Lemma sput_perm d l :
  sorted l ->
  match sget d l with Some e => e :: sput d l | None => sput d l end ≡ₚ d :: l.
Proof.
  induction l as [|x l IH]; intros Hs; [done|]. pose proof Hs as Hs'.
  apply StronglySorted_cons in Hs' as [Hx Hs']. specialize (IH Hs').
  cbn [sput]. destruct (Z.eqb_spec (cmp d x) 0) as [E|Hne].
  - pose proof (sget_some d [] x l Hs E) as Eg. cbn [app] in Eg. rewrite Eg.
    apply Permutation_swap.
  - destruct (Z.ltb_spec (cmp d x) 0) as [Hlt|Hge].
    + assert (Hall : Forall (fun y => cmp d y < 0)%Z (x :: l)).
      { constructor; [done|]. eapply Forall_impl; [exact Hx|]. intros z. by apply ko_trans. }
      pose proof (sget_none d [] (x :: l) ltac:(constructor) Hall) as Eg.
      cbn [app] in Eg. by rewrite Eg.
    + unfold sget in *. rewrite filter_cons_False by done.
      destruct (head _) as [e|]; rewrite (Permutation_swap x d), <- IH; solve_Permutation.
Qed.
End spec.

(** * The interface *)

(** What [rbtree_insert], [rbtree_search] and [rbtree_inorder_walk] promise to a
    client that keeps its data behind [void *]: the container [T] stands for a
    sorted list, searching finds the equal element, inserting puts it in place or
    ends the program when memory runs out, and the walk fills the caller's array,
    which has to be large enough. *)
Class TreeMap (T D : Type) (cmp : D -> D -> Z) := {
  tm_insert : D -> T -> res (bool * T);
  tm_search : D -> T -> res (option D);
  tm_walk : list (option D) -> T -> res (list (option D) * Z);
  tm_ok : T -> list D -> Prop;
  tm_ok_sorted t l : tm_ok t l -> sorted cmp l;
  tm_insert_ok t l d :
    tm_ok t l ->
    tm_insert d t = Stop Exited \/ exists t', tm_insert d t = Ok (true, t') /\ tm_ok t' (sput cmp d l);
  tm_search_ok t l d : tm_ok t l -> tm_search d t = Ok (sget cmp d l);
  tm_walk_ok t l ns :
    tm_ok t l -> (length l <= length ns)%nat -> (Z.of_nat (length ns) < 2 ^ 64)%Z ->
    tm_walk ns t = Ok ((Some <$> l) ++ drop (length l) ns, Z.of_nat (length l))
}.
