(* ===== verification/RbTree.v ===== *)
(** The left-leaning red-black tree of src/algs/intro_to_algs3th/rb_tree.cpp and
    rb_tree.h: rotations, colour flips, insertion with its bottom-up repair loop,
    search and in-order walks, and the level-by-level printer of tree_print.cpp.

    Section [rbtree] is the code, on the heaps of PTree with the payload
    [(red, data)].  The callbacks of [struct rb_tree] are parameters: [node_cmp],
    the allocator [node_new] through the class [NodeAlloc], and whether
    [node_data_free] is set. *)
From S2P Require Import Prelude PTree NodePool OrdSpec.

(** * The code *)
Section rbtree.
Context {loc : Type} `{Countable loc} {D : Type}.

(** [struct rbtree_node] *)
Abbreviation rbtree_node := (node loc (bool * D)).
Abbreviation heap := (tstate loc (bool * D)).
Definition red (n : rbtree_node) : bool := (dat n).1.
Definition data (n : rbtree_node) : D := (dat n).2.
Definition with_red (b : bool) (n : rbtree_node) : rbtree_node := with_dat (b, data n) n.
Definition with_data (d : D) (n : rbtree_node) : rbtree_node := with_dat (red n, d) n.

Definition rbtree_left_rotate (x : option loc) : M heap (option loc) :=
  match x with
  | None => mret x
  | Some _ =>
      nx ← load x;
      match right nx with
      | None => mret x
      | Some _ =>
          let y := right nx in
          ny ← load y;
          update x (with_right (left ny));;
          ny ← load y;
          set_p_if (left ny) x;;
          nx ← load x;
          update y (with_p (p nx));;
          nx ← load x;
          relink (p nx) x y;;
          update y (with_left x);;
          update x (with_p y);;
          nx ← load x;
          update y (with_red (red nx));;
          update x (with_red true);;
          mret y
      end
  end.

Definition rbtree_right_rotate (x : option loc) : M heap (option loc) :=
  match x with
  | None => mret x
  | Some _ =>
      nx ← load x;
      match left nx with
      | None => mret x
      | Some _ =>
          let y := left nx in
          ny ← load y;
          update x (with_left (right ny));;
          ny ← load y;
          set_p_if (right ny) x;;
          nx ← load x;
          update y (with_p (p nx));;
          nx ← load x;
          relink (p nx) x y;;
          update y (with_right x);;
          update x (with_p y);;
          nx ← load x;
          update y (with_red (red nx));;
          update x (with_red true);;
          mret y
      end
  end.

Definition is_some {A} (x : option A) : bool := match x with Some _ => true | None => false end.

Definition rbtree_flipcolor (x : option loc) : M heap unit :=
  n ← load x;
  update x (with_red (is_some (p n)));;
  n ← load x;
  update (right n) (with_red false);;
  n ← load x;
  update (left n) (with_red false).

Definition rbtree_is_red (x : option loc) : M heap bool :=
  match x with None => mret false | Some _ => n ← load x; mret (red n) end.

(** [p->red && p->p && p->p->left == p] *)
Definition red_left_child (q : option loc) : M heap bool :=
  n ← load q;
  if red n then
    match p n with
    | None => mret false
    | Some _ => np ← load (p n); mret (bool_decide (left np = q))
    end
  else mret false.

(** One round of [for(auto p = node->p; p;)]. *)
Definition fixup_step (q : option loc) : M heap (option loc + unit) :=
  match q with
  | None => mret (inr tt)
  | Some _ =>
      n ← load q;
      rl ← rbtree_is_red (left n);
      rr ← rbtree_is_red (right n);
      if rl && rr then
        rbtree_flipcolor q;;
        n ← load q;
        mret (inl (p n))
      else
        c ← red_left_child q;
        if rl && c then q' ← rbtree_right_rotate (p n); mret (inl q')
        else if rr && c then q' ← rbtree_left_rotate q; mret (inl q')
        else if rr then q' ← rbtree_left_rotate q; mret (inl q')
        else mret (inr tt)
  end.

(** Two rounds per level and one more are enough, see [fixup_run]. *)
Definition fixup (q : option loc) : M heap unit :=
  fuel ← gets (fun s : heap => 2 * size (hp s) + 2);
  loopM fuel fixup_step q.

Context {P : Type} `{NA : !NodeAlloc P loc}.

(** [struct rb_tree]; [freed] lists what [node_data_free] has been called on. *)
Record rb_tree := mkRb {
  tr : heap;
  pool : P;
  freed : list D
}.

(** The callbacks that stay fixed. *)
Context (node_cmp : D -> D -> Z) (node_data_free : bool).

Definition on_heap {A} (m : M heap A) : M rb_tree A :=
  fun s => match m (tr s) with
           | Ok (a, h) => Ok (a, mkRb h (pool s) (freed s))
           | Stop f => Stop f
           end.

(** [tr.node_new(tr.pool, data)]: a node of the pool, all of whose fields
    [node_new] writes. *)
Definition tr_node_new (d : D) : M rb_tree (option loc) :=
  fun s => '(a, q) ← na_new (pool s);
           Ok (Some a, mkRb (mkTstate (root (tr s))
                               (<[a := mkNode None None None (false, d)]> (hp (tr s))))
                            q (freed s)).

Definition free_data (d : D) : M rb_tree unit :=
  if node_data_free then modify (fun s => mkRb (tr s) (pool s) (d :: freed s)) else mret tt.

(** The search for the place: [inl] is the early [return x] of a node whose data
    has been replaced, [inr] the last node [y] on the path. *)
Definition insert_descend (d : D) (x : option loc) : M rb_tree (option loc + option loc) :=
  fuel ← gets (fun s => S (size (hp (tr s))));
  loopM fuel (fun yx : option loc * option loc =>
    match yx.2 with
    | None => mret (inr (inr yx.1))
    | Some _ =>
        let x := yx.2 in
        n ← on_heap (load x);
        let r := node_cmp d (data n) in
        if (r =? 0)%Z then
          free_data (data n);;
          on_heap (update x (with_data d));;
          mret (inr (inl x))
        else if (r <? 0)%Z then mret (inl (x, left n)) else mret (inl (x, right n))
    end) (None, x).

Definition rbtree_insert (d : D) : M rb_tree (option loc) :=
  r ← gets (fun s => root (tr s));
  match r with
  | None =>
      nd ← tr_node_new d;
      on_heap (update nd (with_red false));;
      on_heap (set_root nd);;
      mret nd
  | Some _ =>
      found ← insert_descend d r;
      match found with
      | inl x => mret x
      | inr y =>
          nd ← tr_node_new d;
          on_heap (update nd (with_red true));;
          ny ← on_heap (load y);
          (if (node_cmp d (data ny) <? 0)%Z
           then on_heap (update y (with_left nd))
           else on_heap (update y (with_right nd)));;
          on_heap (update nd (with_p y));;
          nn ← on_heap (load nd);
          on_heap (fixup (p nn));;
          mret nd
      end
  end.

(** Successive insertions, as the callers make them. *)
Fixpoint rbtree_insert_all (ds : list D) : M rb_tree unit :=
  match ds with
  | [] => mret tt
  | d :: ds => x ← rbtree_insert d; rbtree_insert_all ds
  end.

(** The loop of [rbtree_search], for a number of rounds. *)
Definition rbtree_search_rounds (fuel : nat) (d : D) : M heap (option loc) :=
  r ← gets root;
  loopM fuel (fun x =>
    match x with
    | None => mret (inr None)
    | Some _ =>
        n ← load x;
        let r := node_cmp d (data n) in
        if (r =? 0)%Z then mret (inr x)
        else if (r <? 0)%Z then mret (inl (left n)) else mret (inl (right n))
    end) r.
Definition rbtree_search (d : D) : M heap (option loc) :=
  fuel ← gets (fun s : heap => S (size (hp s)));
  rbtree_search_rounds fuel d.

(** [nodes] is the caller's array: writing past its end is out of bounds. *)
Fixpoint rbtree_inorder_walk_rec (fuel : nat) (x : option loc) (nodes : list (option D)) (len : Z)
    : M heap (list (option D) * Z) :=
  match fuel with
  | O => stop OutOfFuel
  | S fuel =>
      match x with
      | None => mret (nodes, len)
      | Some _ =>
          n ← load x;
          r ← rbtree_inorder_walk_rec fuel (left n) nodes len;
          nodes' ← lift (aset r.1 r.2 (Some (data n)));
          rbtree_inorder_walk_rec fuel (right n) nodes' (u64 (r.2 + 1))
      end
  end.
Definition rbtree_inorder_walk (nodes : list (option D)) : M heap (list (option D) * Z) :=
  fuel ← gets (fun s : heap => S (size (hp s)));
  r ← gets root;
  rbtree_inorder_walk_rec fuel r nodes 0.

(** The printing overload, [node_c_str] being the caller's. *)
Context {str : Type} (node_c_str : D -> str).
Fixpoint rbtree_inorder_print_rec (fuel : nat) (x : option loc) : M heap (list str) :=
  match fuel with
  | O => stop OutOfFuel
  | S fuel =>
      match x with
      | None => mret []
      | Some _ =>
          n ← load x;
          o1 ← rbtree_inorder_print_rec fuel (left n);
          o2 ← rbtree_inorder_print_rec fuel (right n);
          mret (o1 ++ node_c_str (data n) :: o2)
      end
  end.
Definition rbtree_inorder_print : M heap (list str) :=
  fuel ← gets (fun s : heap => S (size (hp s)));
  r ← gets root;
  rbtree_inorder_print_rec fuel r.

(** * src/algs/intro_to_algs3th/tree_print.cpp *)

(** What one [fprintf] of [rbtree_draw_to_term] writes: ["C(H) "] for a left child,
    ["(H)R "] for a right child, ["H"] otherwise, and the end of a layer. *)
Inductive piece :=
| PLeft (self parent : str)
| PRight (parent self : str)
| PRoot (self : str)
| PNewline.

(** The queue, [curLayerCount], [nextLayerCount] and the output so far. *)
Record draw := mkDraw { nodes : list (option loc); cur : Z; next : Z; out : list piece }.

Definition draw_step (w : draw) : M heap (draw + list piece) :=
  match nodes w with
  | [] => mret (inr (out w))
  | q :: rest =>
      let cur1 := (cur w - 1)%Z in
      n ← load q;
      pc ← match p n with
           | None => mret (PRoot (node_c_str (data n)))
           | Some _ =>
               np ← load (p n);
               if bool_decide (left np = q)
               then mret (PLeft (node_c_str (data n)) (node_c_str (data np)))
               else if bool_decide (right np = q)
               then mret (PRight (node_c_str (data np)) (node_c_str (data n)))
               else mret (PRoot (node_c_str (data n)))
           end;
      let '(ns1, k1) :=
        match left n with Some _ => (rest ++ [left n], (next w + 1)%Z) | None => (rest, next w) end in
      let '(ns2, k2) :=
        match right n with Some _ => (ns1 ++ [right n], (k1 + 1)%Z) | None => (ns1, k1) end in
      if (cur1 =? 0)%Z
      then mret (inl (mkDraw ns2 k2 0 (out w ++ [pc; PNewline])))
      else mret (inl (mkDraw ns2 cur1 k2 (out w ++ [pc])))
  end.

Definition rbtree_draw_to_term : M heap (list piece) :=
  fuel ← gets (fun s : heap => size (hp s) + 2);
  r ← gets root;
  loopM fuel draw_step (mkDraw [r] 1 0 []).
End rbtree.

Arguments rb_tree loc {_ _} D P.

(** * Shapes *)
Section shapes.
Context {loc : Type} `{Countable loc} {D : Type}.
Abbreviation tree := (tree loc (bool * D)).
Abbreviation frame := (frame loc (bool * D)).
Abbreviation heap := (tstate loc (bool * D)).
Implicit Types (t l r : tree) (c : list frame) (s : heap).

Definition isred t : bool := match t with Nd _ _ d _ => d.1 | Leaf => false end.

(** A left-leaning red-black tree of black height [h]: red links lean left, no
    red node has a red child, and every path to a leaf passes [h] black nodes. *)
Fixpoint llrb t (h : nat) : Prop :=
  match t with
  | Leaf => h = 0
  | Nd l _ d r =>
      isred r = false /\
      if d.1 then isred l = false /\ llrb l h /\ llrb r h
      else match h with O => False | S h => llrb l h /\ llrb r h end
  end.

(** A context that accepts a tree of black height [h] whose root has colour [b]. *)
Fixpoint cok c (h : nat) (b : bool) : Prop :=
  match c with
  | [] => b = false
  | FL _ d r :: c =>
      isred r = false /\ llrb r h /\
      if d.1 then b = false /\ cok c h true else cok c (S h) false
  | FR l _ d :: c =>
      b = false /\ llrb l h /\
      if d.1 then isred l = false /\ cok c h true else cok c (S h) false
  end.

(** The red-black trees of the code: the root is black too. *)
Definition rbt t : Prop := isred t = false /\ exists h, llrb t h.

(** The data in order. *)
Definition elems t : list D := (inorder t).*2.

(** [rbtree_left_rotate] and [rbtree_right_rotate] as functions on shapes. *)
Definition rotl t : tree :=
  match t with
  | Nd l x dx (Nd rl y dy rr) => Nd (Nd l x (true, dx.2) rl) y (dx.1, dy.2) rr
  | _ => t
  end.
Definition rotr t : tree :=
  match t with
  | Nd (Nd ll y dy lr) x dx r => Nd ll y (dx.1, dy.2) (Nd lr x (true, dx.2) r)
  | _ => t
  end.

Definition paint (b : bool) t : tree :=
  match t with Leaf => Leaf | Nd l a d r => Nd l a (b, d.2) r end.

Lemma cok_plug c t h : cok c h (isred t) -> llrb t h -> rbt (plug c t).
Proof.
  revert t h. induction c as [|[a d r|l a d] c IH]; intros t h; cbn; intros Hc Ht.
  - split; [done|by exists h].
  - destruct Hc as (Hr & Hlr & Hc). destruct d as [[] d]; cbn in Hc.
    + destruct Hc as [Hb Hc]. by apply (IH (Nd t a (true, d) r) h).
    + by apply (IH (Nd t a (false, d) r) (S h)).
  - destruct Hc as (Hr & Hll & Hc). destruct d as [[] d]; cbn in Hc.
    + destruct Hc as [Hb Hc]. by apply (IH (Nd l a (true, d) t) h).
    + by apply (IH (Nd l a (false, d) t) (S h)).
Qed.

Lemma cok_split c t : rbt (plug c t) -> exists h, cok c h (isred t) /\ llrb t h.
Proof.
  revert t. induction c as [|f c IH]; intros t; cbn.
  - intros [Hr [h Ht]]. by exists h.
  - intros Hp. apply IH in Hp as (h & Hc & Ht).
    destruct f as [a [[] d] r|l a [[] d]]; cbn in *.
    + destruct Ht as (Hr & Hl & Ht & Hrr). exists h. tauto.
    + destruct Ht as (Hr & Ht). destruct h as [|h]; [done|]. exists h. tauto.
    + destruct Ht as (Hr & Hl & Hll & Ht). exists h. tauto.
    + destruct Ht as (Hr & Ht). destruct h as [|h]; [done|]. exists h. tauto.
Qed.

Lemma elems_plug c t : elems (plug c t) = (cinl c).*2 ++ elems t ++ (cinr c).*2.
Proof. unfold elems. by rewrite inorder_plug, !fmap_app. Qed.

Lemma elems_rotl t : elems (rotl t) = elems t.
Proof.
  destruct t as [|l x dx [|rl y dy rr]]; [done..|]. unfold elems; cbn.
  rewrite !fmap_app; cbn. rewrite !fmap_app; cbn. by rewrite <- app_assoc.
Qed.

Lemma elems_rotr t : elems (rotr t) = elems t.
Proof.
  destruct t as [|[|ll y dy lr] x dx r]; [done..|]. unfold elems; cbn.
  rewrite !fmap_app; cbn. rewrite !fmap_app; cbn. by rewrite <- app_assoc.
Qed.

Lemma elems_paint b t : elems (paint b t) = elems t.
Proof. destruct t; [done|]. unfold elems; cbn. by rewrite !fmap_app. Qed.

Lemma locs_rotl t : locs (rotl t) ≡ₚ locs t.
Proof. destruct t as [|l x dx [|rl y dy rr]]; [done..|]. cbn. solve_Permutation. Qed.

Lemma locs_rotr t : locs (rotr t) ≡ₚ locs t.
Proof. destruct t as [|[|ll y dy lr] x dx r]; [done..|]. cbn. solve_Permutation. Qed.

Lemma locs_paint b t : locs (paint b t) = locs t.
Proof. by destruct t. Qed.

(** Height: a red-black tree of black height [h] has at least [2^h - 1] nodes and
    no path longer than [2h] (plus one under a red root). *)
Lemma llrb_height t h : llrb t h -> height t <= 2 * h + (if isred t then 1 else 0).
Proof.
  revert h. induction t as [|l IHl a [[] d] r IHr]; intros h; cbn; [lia|..].
  - intros (Hr & Hl & Hll & Hlr). apply IHl in Hll. apply IHr in Hlr.
    rewrite Hl in Hll. rewrite Hr in Hlr. lia.
  - intros (Hr & Hh). destruct h as [|h]; [done|]. destruct Hh as [Hll Hlr].
    apply IHl in Hll. apply IHr in Hlr. destruct (isred l), (isred r); try done; lia.
Qed.

Lemma llrb_size t h : llrb t h -> 2 ^ h <= S (length (locs t)).
Proof.
  revert h. induction t as [|l IHl a [[] d] r IHr]; intros h; cbn; [intros ->; cbn; lia|..];
    rewrite length_app.
  - intros (_ & _ & Hll & Hlr). apply IHl in Hll. lia.
  - intros (_ & Hh). destruct h as [|h]; [done|]. destruct Hh as [Hll Hlr].
    apply IHl in Hll. apply IHr in Hlr. cbn. lia.
Qed.
End shapes.

(** * The rotations and the repair loop on the heap *)
Section repair.
Context {loc : Type} `{Countable loc} {D : Type}.
Abbreviation tree := (tree loc (bool * D)).
Abbreviation frame := (frame loc (bool * D)).
Abbreviation heap := (tstate loc (bool * D)).
Implicit Types (t l r : tree) (c : list frame) (s : heap).

(** Reads a cell through a chain of updates at other addresses. *)
Ltac cell :=
  repeat first
    [ rewrite lookup_alter_ne by tree_nodup
    | rewrite lookup_alter_eq
    | rewrite set_child_other by tree_nodup
    | rewrite set_ph_other by (intros ?%rootp_in; tree_nodup) ].

Ltac read :=
  cbn; cell;
  first [ done | match goal with E : hp _ !! _ = Some _ |- _ => rewrite E; done end ].

(** No repair step changes the data of a node. *)
Definition same_data s s' : Prop := forall b, data <$> hp s' !! b = data <$> hp s !! b.

Lemma data_alter f a (h : gmap loc (node loc (bool * D))) b :
  (forall n, data (f n) = data n) -> data <$> alter f a h !! b = data <$> h !! b.
Proof.
  intros Hf. destruct (decide (a = b)) as [->|Hne].
  - rewrite lookup_alter_eq. destruct (h !! b); cbn; [by rewrite Hf|done].
  - by rewrite lookup_alter_ne.
Qed.

Lemma data_set_ph x q (h : gmap loc (node loc (bool * D))) b :
  data <$> set_ph x q h !! b = data <$> h !! b.
Proof. destruct x; cbn; [by apply data_alter|done]. Qed.

Lemma data_set_child c q (h : gmap loc (node loc (bool * D))) b :
  data <$> set_child c q h !! b = data <$> h !! b.
Proof. destruct c as [|[] c]; cbn; [done|by apply data_alter..]. Qed.

(** Carries the cells of a subtree or a context through such updates. *)
Ltac keep :=
  repeat first
    [ eassumption
    | apply agrees_alter_tree; [tree_nodup|]
    | apply agrees_alter_ctx; [tree_nodup|]
    | apply agrees_set_child_tree; [tree_nodup|]
    | apply agrees_set_ph_tree; [intros ? ?%rootp_in; tree_nodup|]
    | apply agrees_set_ph_ctx; [intros ? ?%rootp_in; tree_nodup|] ].

Lemma is_some_p (h : gmap loc (node loc (bool * D))) q t a :
  agrees h (cells q t) -> rootp t = Some a -> is_Some (h !! a).
Proof. intros HA Ha. eapply agrees_is_some; [exact HA|]. by apply rootp_in. Qed.

Lemma left_rotate_run s c l x dx rl y dy rr :
  rep s c (Nd l x dx (Nd rl y dy rr)) ->
  exists s', rbtree_left_rotate (Some x) s = Ok (Some y, s') /\
    rep s' c (rotl (Nd l x dx (Nd rl y dy rr))) /\
    size (hp s') = size (hp s) /\ same_data s s' /\
    forall b, b ∉ x :: y :: locs l ++ locs rl ++ locs rr ++ clocs c -> hp s' !! b = hp s !! b.
Proof.
  intros HR. pose proof (rep_cell _ _ _ _ _ _ HR) as Hx.
  pose proof (rep_cell _ _ _ _ _ _ (rep_to_right _ _ _ _ _ _ HR)) as Hy.
  destruct HR as [HT HC HN HRt]. cbn [locs] in HN. cbn in HT, HC.
  rewrite !agrees_cons, !agrees_app, agrees_cons, agrees_app in HT.
  destruct HT as (_ & HL & _ & HRl & HRr).
  unfold rbtree_left_rotate. cbn [rootp] in *.
  rewrite (bind_load _ _ _ _ Hx). cbn [right].
  rewrite (bind_load _ _ _ _ Hy), (bind_update _ _ _ _ _ Hx). cbn [left].
  set (s1 := mkTstate _ _).
  assert (Hy1 : hp s1 !! y = Some (mkNode (rootp rl) (rootp rr) (Some x) dy))
    by read.
  rewrite (bind_load _ _ _ _ Hy1). cbn [left].
  rewrite (M_bind_ok _ _ _ _ _ (set_p_if_ok s1 (rootp rl) (Some x)
    ltac:(intros b Hb; eapply is_some_p; [|exact Hb]; cbn; keep))).
  set (s2 := mkTstate _ _).
  assert (Hx2 : hp s2 !! x = Some (mkNode (rootp l) (rootp rl) (cpar c) dx))
    by read.
  assert (Hy2 : hp s2 !! y = Some (mkNode (rootp rl) (rootp rr) (Some x) dy))
    by read.
  rewrite (bind_load _ _ _ _ Hx2), (bind_update _ _ _ _ _ Hy2). cbn [p].
  set (s3 := mkTstate _ _).
  assert (Hx3 : hp s3 !! x = Some (mkNode (rootp l) (rootp rl) (cpar c) dx))
    by read.
  rewrite (bind_load _ _ _ _ Hx3). cbn [p].
  rewrite (M_bind_ok _ _ _ _ _ (relink_ok s3 c x (Some y)
    ltac:(cbn; keep) ltac:(tree_nodup))).
  set (s4 := relinked _ _ _).
  assert (Hx4 : hp s4 !! x = Some (mkNode (rootp l) (rootp rl) (cpar c) dx))
    by read.
  assert (Hy4 : hp s4 !! y = Some (mkNode (rootp rl) (rootp rr) (cpar c) dy))
    by read.
  rewrite (bind_update _ _ _ _ _ Hy4). set (s5 := mkTstate _ _).
  assert (Hx5 : hp s5 !! x = Some (mkNode (rootp l) (rootp rl) (cpar c) dx))
    by read.
  rewrite (bind_update _ _ _ _ _ Hx5). set (s6 := mkTstate _ _).
  assert (Hx6 : hp s6 !! x = Some (mkNode (rootp l) (rootp rl) (Some y) dx))
    by read.
  assert (Hy6 : hp s6 !! y = Some (mkNode (Some x) (rootp rr) (cpar c) dy))
    by read.
  rewrite (bind_load _ _ _ _ Hx6), (bind_update _ _ _ _ _ Hy6). set (s7 := mkTstate _ _).
  assert (Hx7 : hp s7 !! x = Some (mkNode (rootp l) (rootp rl) (Some y) dx))
    by read.
  rewrite (bind_update _ _ _ _ _ Hx7). eexists. split; [done|].
  clear Hy1 Hx2 Hy2 Hx3 Hx4 Hx5 Hy6.
  split_and!; [split; cbn [locs rootp rotl cells]|..].
  - rewrite agrees_cons, agrees_app, agrees_cons, agrees_app. split_and!.
    + read.
    + read.
    + cbn; keep.
    + cbn. do 4 (apply agrees_alter_tree; [tree_nodup|]).
      apply agrees_set_child_tree; [tree_nodup|]. apply agrees_alter_tree; [tree_nodup|].
      apply agrees_reparent with (q := Some y); [tree_nodup|]. keep.
    + cbn; keep.
  - cbn. do 4 (apply agrees_alter_ctx; [tree_nodup|]).
    apply agrees_rehole with (q := Some x); [tree_nodup|]. keep.
  - tree_nodup.
  - cbn [root]. by apply (croot_relinked c (Some x)).
  - cbn. by rewrite !size_alter, size_set_child, size_alter, size_set_ph, size_alter.
  - intros b. cbn. do 4 (rewrite data_alter by done).
    by rewrite data_set_child, data_alter, data_set_ph, data_alter.
  - intros b Hb. cbn. cell. done.
Qed.

Lemma right_rotate_run s c ll y dy lr x dx r :
  rep s c (Nd (Nd ll y dy lr) x dx r) ->
  exists s', rbtree_right_rotate (Some x) s = Ok (Some y, s') /\
    rep s' c (rotr (Nd (Nd ll y dy lr) x dx r)) /\
    size (hp s') = size (hp s) /\ same_data s s' /\
    forall b, b ∉ x :: y :: locs ll ++ locs lr ++ locs r ++ clocs c -> hp s' !! b = hp s !! b.
Proof.
  intros HR. pose proof (rep_cell _ _ _ _ _ _ HR) as Hx.
  pose proof (rep_cell _ _ _ _ _ _ (rep_to_left _ _ _ _ _ _ HR)) as Hy.
  destruct HR as [HT HC HN HRt]. cbn [locs] in HN. cbn in HT, HC.
  rewrite !agrees_cons, !agrees_app in HT.
  destruct HT as (_ & _ & (HLl & HLr) & HRr).
  unfold rbtree_right_rotate. cbn [rootp] in *.
  rewrite (bind_load _ _ _ _ Hx). cbn [left].
  rewrite (bind_load _ _ _ _ Hy), (bind_update _ _ _ _ _ Hx). cbn [right].
  set (s1 := mkTstate _ _).
  assert (Hy1 : hp s1 !! y = Some (mkNode (rootp ll) (rootp lr) (Some x) dy)) by read.
  rewrite (bind_load _ _ _ _ Hy1). cbn [right].
  rewrite (M_bind_ok _ _ _ _ _ (set_p_if_ok s1 (rootp lr) (Some x)
    ltac:(intros b Hb; eapply is_some_p; [|exact Hb]; cbn; keep))).
  set (s2 := mkTstate _ _).
  assert (Hx2 : hp s2 !! x = Some (mkNode (rootp lr) (rootp r) (cpar c) dx)) by read.
  assert (Hy2 : hp s2 !! y = Some (mkNode (rootp ll) (rootp lr) (Some x) dy)) by read.
  rewrite (bind_load _ _ _ _ Hx2), (bind_update _ _ _ _ _ Hy2). cbn [p].
  set (s3 := mkTstate _ _).
  assert (Hx3 : hp s3 !! x = Some (mkNode (rootp lr) (rootp r) (cpar c) dx)) by read.
  rewrite (bind_load _ _ _ _ Hx3). cbn [p].
  rewrite (M_bind_ok _ _ _ _ _ (relink_ok s3 c x (Some y)
    ltac:(cbn; keep) ltac:(tree_nodup))).
  set (s4 := relinked _ _ _).
  assert (Hx4 : hp s4 !! x = Some (mkNode (rootp lr) (rootp r) (cpar c) dx)) by read.
  assert (Hy4 : hp s4 !! y = Some (mkNode (rootp ll) (rootp lr) (cpar c) dy)) by read.
  rewrite (bind_update _ _ _ _ _ Hy4). set (s5 := mkTstate _ _).
  assert (Hx5 : hp s5 !! x = Some (mkNode (rootp lr) (rootp r) (cpar c) dx)) by read.
  rewrite (bind_update _ _ _ _ _ Hx5). set (s6 := mkTstate _ _).
  assert (Hx6 : hp s6 !! x = Some (mkNode (rootp lr) (rootp r) (Some y) dx)) by read.
  assert (Hy6 : hp s6 !! y = Some (mkNode (rootp ll) (Some x) (cpar c) dy)) by read.
  rewrite (bind_load _ _ _ _ Hx6), (bind_update _ _ _ _ _ Hy6). set (s7 := mkTstate _ _).
  assert (Hx7 : hp s7 !! x = Some (mkNode (rootp lr) (rootp r) (Some y) dx)) by read.
  rewrite (bind_update _ _ _ _ _ Hx7). eexists. split; [done|].
  clear Hy1 Hx2 Hy2 Hx3 Hx4 Hx5 Hy6.
  split_and!; [split; cbn [locs rootp rotr cells]|..].
  - rewrite agrees_cons, agrees_app, agrees_cons, agrees_app. split_and!.
    + read.
    + cbn; keep.
    + read.
    + cbn. do 4 (apply agrees_alter_tree; [tree_nodup|]).
      apply agrees_set_child_tree; [tree_nodup|]. apply agrees_alter_tree; [tree_nodup|].
      apply agrees_reparent with (q := Some y); [tree_nodup|]. keep.
    + cbn; keep.
  - cbn. do 4 (apply agrees_alter_ctx; [tree_nodup|]).
    apply agrees_rehole with (q := Some x); [tree_nodup|]. keep.
  - tree_nodup.
  - cbn [root]. by apply (croot_relinked c (Some x)).
  - cbn. by rewrite !size_alter, size_set_child, size_alter, size_set_ph, size_alter.
  - intros b. cbn. do 4 (rewrite data_alter by done).
    by rewrite data_set_child, data_alter, data_set_ph, data_alter.
  - intros b Hb. cbn. cell. done.
Qed.

Lemma rep_set_red s c l a d b r :
  rep s c (Nd l a d r) ->
  rep (mkTstate (root s) (alter (with_red b) a (hp s))) c (Nd l a (b, d.2) r).
Proof.
  intros HR. pose proof (rep_cell _ _ _ _ _ _ HR) as Ha.
  replace (alter (with_red b) a (hp s)) with (alter (with_dat (b, d.2)) a (hp s)).
  - by eapply rep_set_dat.
  - apply alter_ext. intros n Hn. rewrite Ha in Hn. by injection Hn as <-.
Qed.

Lemma flipcolor_run s c ll a da lr x dx rl b db rr :
  let l := Nd ll a da lr in let r := Nd rl b db rr in
  rep s c (Nd l x dx r) ->
  exists s', rbtree_flipcolor (Some x) s = Ok (tt, s') /\
    rep s' c (Nd (paint false l) x (is_some (cpar c), dx.2) (paint false r)) /\
    size (hp s') = size (hp s) /\ same_data s s' /\
    forall y, y ∉ x :: locs l ++ locs r -> hp s' !! y = hp s !! y.
Proof.
  intros l r HR. unfold rbtree_flipcolor.
  pose proof (rep_cell _ _ _ _ _ _ HR) as Hx.
  rewrite (bind_load _ _ _ _ Hx), (bind_update _ _ _ _ _ Hx). cbn [p].
  pose proof (rep_set_red _ _ _ _ _ (is_some (cpar c)) _ HR) as HR1.
  set (s1 := mkTstate _ _) in *. pose proof (rep_cell _ _ _ _ _ _ HR1) as Hx1.
  rewrite (bind_load _ _ _ _ Hx1). cbn [right rootp r].
  pose proof (rep_to_right _ _ _ _ _ _ HR1) as HRr.
  rewrite (bind_update _ _ _ _ _ (rep_cell _ _ _ _ _ _ HRr)).
  pose proof (rep_set_red _ _ _ _ _ false _ HRr) as HR2.
  apply (proj2 (rep_right _ _ _ _ _ _)) in HR2.
  rewrite (bind_load _ _ _ _ (rep_cell _ _ _ _ _ _ HR2)). cbn [left rootp l].
  pose proof (rep_to_left _ _ _ _ _ _ HR2) as HRl.
  rewrite (update_ok _ _ _ _ (rep_cell _ _ _ _ _ _ HRl)).
  pose proof (rep_set_red _ _ _ _ _ false _ HRl) as HR3.
  apply (proj2 (rep_left _ _ _ _ _ _)) in HR3.
  eexists. split_and!; [done|exact HR3| | |].
  - cbn. by rewrite !size_alter.
  - intros y. cbn. by rewrite !data_alter.
  - intros y Hy. subst l r. cbn. cell. done.
Qed.

Lemma is_red_run s c t : rep s c t -> rbtree_is_red (rootp t) s = Ok (isred t, s).
Proof.
  destruct t as [|l a d r]; [done|]. intros HR. cbn.
  by rewrite (bind_load _ _ _ _ (rep_cell _ _ _ _ _ _ HR)).
Qed.

(** A red hole can only be the left child of a black node. *)
Lemma cok_red c h : cok c h true -> exists a d r c', c = FL a (false, d) r :: c'.
Proof.
  destruct c as [|[a [[] d] r|l a d] c]; cbn; [done| | |].
  - intros (_ & _ & ? & _); done.
  - intros _. by exists a, d, r, c.
  - intros (? & _); done.
Qed.

Lemma rep_parent_cell s f c t :
  rep s (f :: c) t -> exists n, hp s !! floc f = Some n /\ left n =
    match f with FL _ _ _ => rootp t | FR l _ _ => rootp l end.
Proof.
  intros HR. apply (proj2 (rep_fill _ _ _ _)) in HR. destruct f as [a d r|l a d]; cbn in *.
  - eexists. split; [by eapply rep_cell|done].
  - eexists. split; [by eapply rep_cell|done].
Qed.

Lemma red_left_child_run s c l x dx r h :
  rep s c (Nd l x dx r) -> cok c h dx.1 -> red_left_child (Some x) s = Ok (dx.1, s).
Proof.
  intros HR Hc. unfold red_left_child.
  rewrite (bind_load _ _ _ _ (rep_cell _ _ _ _ _ _ HR)). unfold red at 1; cbn [dat p].
  destruct dx as [[] dx]; [|done]. cbn [fst] in *. cbn [fst snd].
  destruct (cok_red _ _ Hc) as (a & d & r' & c' & ->). cbn [cpar floc head fmap option_fmap option_map].
  destruct (rep_parent_cell _ _ _ _ HR) as (n & Hn & El). cbn in Hn, El.
  cbn. rewrite (bind_load _ _ _ _ Hn). rewrite bool_decide_true by done. done.
Qed.

(** One round, with the colours read off the shape. *)
Lemma fixup_step_run s c l x dx r h :
  rep s c (Nd l x dx r) -> cok c h dx.1 ->
  fixup_step (Some x) s =
  (if isred l && isred r then
     rbtree_flipcolor (Some x);; n ← load (Some x); mret (inl (p n))
   else if isred l && dx.1 then q' ← rbtree_right_rotate (cpar c); mret (inl q')
   else if isred r && dx.1 then q' ← rbtree_left_rotate (Some x); mret (inl q')
   else if isred r then q' ← rbtree_left_rotate (Some x); mret (inl q')
   else mret (inr tt)) s.
Proof.
  intros HR Hc. cbn [fixup_step].
  rewrite (bind_load _ _ _ _ (rep_cell _ _ _ _ _ _ HR)). cbn [left right p].
  rewrite (M_bind_ok _ _ _ _ _ (is_red_run _ _ _ (rep_to_left _ _ _ _ _ _ HR))).
  rewrite (M_bind_ok _ _ _ _ _ (is_red_run _ _ _ (rep_to_right _ _ _ _ _ _ HR))).
  destruct (isred l && isred r); [done|].
  by rewrite (M_bind_ok _ _ _ _ _ (red_left_child_run _ _ _ _ _ _ _ HR Hc)).
Qed.

(** The heap [s'] holds a red-black tree with the content of [t], whose nodes are
    those of [t], and is [s] outside them. *)
Definition repaired s t s' : Prop :=
  exists t', rep s' [] t' /\ rbt t' /\ elems t' = elems t /\ locs t' ≡ₚ locs t /\
    size (hp s') = size (hp s) /\ same_data s s' /\
    forall b, b ∉ locs t -> hp s' !! b = hp s !! b.

Lemma repaired_trans s1 t1 s2 t2 s3 :
  elems t2 = elems t1 -> locs t2 ≡ₚ locs t1 -> size (hp s2) = size (hp s1) -> same_data s1 s2 ->
  (forall b, b ∉ locs t1 -> hp s2 !! b = hp s1 !! b) ->
  repaired s2 t2 s3 -> repaired s1 t1 s3.
Proof.
  intros He Hl Hs Hd Hf (t' & HR & Hrb & He' & Hl' & Hs' & Hd' & Hf').
  exists t'. split_and!; [done|done|congruence|by rewrite Hl'|congruence| |].
  { intros b. by rewrite Hd'. }
  intros b Hb. rewrite Hf' by (by rewrite Hl). by apply Hf.
Qed.

Lemma elems_plug_ext c t t' : elems t' = elems t -> elems (plug c t') = elems (plug c t).
Proof. intros E. by rewrite !elems_plug, E. Qed.

Lemma locs_plug_ext c t t' : locs t' ≡ₚ locs t -> locs (plug c t') ≡ₚ locs (plug c t).
Proof. intros E. by rewrite !locs_plug, E. Qed.

Lemma llrb_paint_black t h : isred t = true -> llrb t h -> llrb (paint false t) (S h).
Proof.
  destruct t as [|l a [[] d] r]; [done| |done]. intros _ (Hr & Hl & Hll & Hlr). by split.
Qed.

(** What holds at the focus of the repair loop: both subtrees are red-black trees of
    one height, the rest of the tree accepts the node, and a red node has at most
    one red child. *)
Record focus_ok c l (d : bool * D) r (h : nat) : Prop := {
  fo_l : llrb l h;
  fo_r : llrb r h;
  fo_c : cok c (if d.1 then h else S h) d.1;
  fo_red : d.1 = true -> isred l && isred r = false
}.

Definition redn t : nat := if isred t then 1 else 0.

Definition round_to s t (o : option loc) (m : nat) (s1 : heap) (t1 : tree) : Prop :=
  match o with
  | None => rep s1 [] t1 /\ rbt t1
  | Some x1 => exists c l d r h, t1 = plug c (Nd l x1 d r) /\ rep s1 c (Nd l x1 d r) /\
      focus_ok c l d r h /\ 2 * length c + redn r < m
  end /\
  elems t1 = elems t /\ locs t1 ≡ₚ locs t /\ size (hp s1) = size (hp s) /\ same_data s s1 /\
  forall b, b ∉ locs t -> hp s1 !! b = hp s !! b.

Lemma round_flip s c l x d r h :
  rep s c (Nd l x d r) -> focus_ok c l d r h -> isred l = true -> isred r = true ->
  exists o s1 t1,
    (rbtree_flipcolor (Some x);; n ← load (Some x); mret (@inl _ unit (p n))) s = Ok (inl o, s1) /\
    round_to s (plug c (Nd l x d r)) o (2 * length c + redn r) s1 t1.
Proof.
  intros HR [Hl Hr Hc Hred] El Er.
  destruct l as [|ll a da lr]; [done|]. destruct r as [|rl b db rr]; [done|].
  destruct (flipcolor_run s c ll a da lr x d rl b db rr HR) as (s1 & E & HR1 & Hsz & Hsd & Hf).
  rewrite (M_bind_ok _ _ _ _ _ E).
  rewrite (bind_load _ _ _ _ (rep_cell _ _ _ _ _ _ HR1)). cbn [p].
  set (l := Nd ll a da lr) in *. set (r := Nd rl b db rr) in *.
  assert (Hd : d.1 = false) by (destruct d.1; [by specialize (Hred eq_refl); rewrite El, Er in Hred|done]).
  rewrite Hd in *. pose proof (llrb_paint_black l h El Hl) as Hl'.
  pose proof (llrb_paint_black r h Er Hr) as Hr'.
  set (t1 := Nd (paint false l) x (is_some (cpar c), d.2) (paint false r)) in *.
  exists (cpar c), s1, (plug c t1). split; [done|]. split; [|split_and!].
  - destruct c as [|f c]; cbn [cpar fmap option_fmap option_map head].
    + split; [exact HR1|]. split; [done|]. exists (S (S h)). by cbn.
    + apply (proj2 (rep_fill _ _ _ _)) in HR1. cbn in Hc.
      destruct f as [y dy ry|ly y dy]; cbn [floc fill] in *.
      * exists c, t1, dy, ry, (S h). destruct Hc as (Hrr & Hlr & Hc). split_and!; [done|done| |cbn; unfold redn; rewrite Hrr; lia].
        split; [by cbn|done| |intros; rewrite Hrr; apply andb_false_r].
        destruct dy as [[] dy]; cbn in *; tauto.
      * exists c, ly, dy, t1, (S h). destruct Hc as (_ & Hlr & Hc). split_and!; [done|done| |cbn; unfold redn; cbn; lia].
        split; [done|by cbn| |].
        -- destruct dy as [[] dy]; cbn in *; tauto.
        -- destruct dy as [[] dy]; cbn in *; [|done]. intros _. by destruct Hc as [-> _].
  - apply elems_plug_ext. unfold elems. cbn. by repeat (rewrite fmap_app; cbn).
  - apply locs_plug_ext. unfold t1. cbn [locs]. by rewrite !locs_paint.
  - done.
  - done.
  - intros y Hy. apply Hf. rewrite locs_plug in Hy. cbn [locs] in Hy. tree_nodup.
Qed.

Lemma round_rotr s c l x d r h :
  rep s c (Nd l x d r) -> focus_ok c l d r h -> isred l = true -> d.1 = true ->
  exists o s1 t1,
    (q' ← rbtree_right_rotate (cpar c); mret (@inl _ unit q')) s = Ok (inl o, s1) /\
    round_to s (plug c (Nd l x d r)) o (2 * length c + redn r) s1 t1.
Proof.
  intros HR [Hl Hr Hc Hred] El Hd. rewrite Hd in Hc.
  destruct (cok_red _ _ Hc) as (g & dg & rg & c' & ->). cbn in Hc.
  destruct Hc as (Hrg & Hlg & Hc). specialize (Hred Hd). rewrite El in Hred. cbn in Hred.
  pose proof (proj2 (rep_left _ _ _ _ _ _) HR) as HRg.
  destruct (right_rotate_run s c' l x d r g (false, dg) rg HRg) as (s1 & E & HR1 & Hsz & Hsd & Hf).
  cbn [cpar floc fmap option_fmap option_map head]. rewrite (M_bind_ok _ _ _ _ _ E).
  exists (Some x), s1, (plug c' (rotr (Nd (Nd l x d r) g (false, dg) rg))).
  split; [done|]. split; [|split_and!].
  - cbn [rotr]. eexists c', l, _, _, h. split; [done|]. split; [exact HR1|].
    split; [|cbn; unfold redn; cbn; destruct (isred r); lia].
    split; cbn; try done.
  - apply (elems_plug_ext c'), elems_rotr.
  - apply (locs_plug_ext c'), locs_rotr.
  - done.
  - done.
  - intros y Hy. apply Hf. cbn [plug fill] in Hy. rewrite locs_plug in Hy. tree_nodup.
Qed.

Lemma round_rotl s c l x d r h :
  rep s c (Nd l x d r) -> focus_ok c l d r h -> isred l = false -> isred r = true ->
  exists o s1 t1,
    (q' ← rbtree_left_rotate (Some x); mret (@inl _ unit q')) s = Ok (inl o, s1) /\
    round_to s (plug c (Nd l x d r)) o (2 * length c + redn r) s1 t1.
Proof.
  intros HR [Hl Hr Hc Hred] El Er.
  destruct r as [|rl y [[] dy] rr]; [done| |done]. cbn in Hr. destruct Hr as (Hrr & Hrl & Hlrl & Hlrr).
  destruct (left_rotate_run s c l x d rl y (true, dy) rr HR) as (s1 & E & HR1 & Hsz & Hsd & Hf).
  rewrite (M_bind_ok _ _ _ _ _ E).
  exists (Some y), s1, (plug c (rotl (Nd l x d (Nd rl y (true, dy) rr)))).
  split; [done|]. split; [|split_and!].
  - cbn [rotl]. eexists c, _, _, rr, h. split; [done|]. split; [exact HR1|].
    split; [|unfold redn; rewrite Hrr; cbn; lia].
    split; cbn; try done.
  - apply (elems_plug_ext c), elems_rotl.
  - apply (locs_plug_ext c), locs_rotl.
  - done.
  - done.
  - intros b Hb. apply Hf. rewrite locs_plug in Hb. tree_nodup.
Qed.

(** The loop ends with the whole tree repaired. *)
Lemma fixup_loop fuel s c l x d r h :
  rep s c (Nd l x d r) -> focus_ok c l d r h -> 2 * length c + redn r + 1 < fuel ->
  exists s', loopM fuel fixup_step (Some x) s = Ok (tt, s') /\
    repaired s (plug c (Nd l x d r)) s'.
Proof.
  revert s c l x d r h. induction fuel as [|fuel IH]; intros s c l x d r h HR HF Hm; [lia|].
  assert (Hround : (exists o s1 t1, fixup_step (Some x) s = Ok (inl o, s1) /\
            round_to s (plug c (Nd l x d r)) o (2 * length c + redn r) s1 t1) \/
          (fixup_step (Some x) s = Ok (inr tt, s) /\ rbt (plug c (Nd l x d r)))).
  { rewrite (fixup_step_run _ _ _ _ _ _ _ HR (fo_c _ _ _ _ _ HF)).
    destruct (isred l) eqn:El, (isred r) eqn:Er; cbn [andb].
    - left. by eapply round_flip.
    - destruct d.1 eqn:Ed; [left; by eapply round_rotr|right].
      split; [done|]. destruct HF as [Hl Hr Hc _]. rewrite Ed in Hc.
      apply (cok_plug c _ (S h)); cbn; by rewrite ?Ed.
    - left. destruct d.1; by eapply round_rotl.
    - right. destruct HF as [Hl Hr Hc _].
      assert (Hrb : rbt (plug c (Nd l x d r))).
      { eapply cok_plug; [exact Hc|]. cbn. split; [done|]. by destruct d.1. }
      by destruct d.1. }
  rewrite loopM_step. destruct Hround as [(o & s1 & t1 & -> & Hto & He & Hl & Hs & Hd & Hf)|[-> Hrb]].
  - destruct o as [x1|].
    + destruct Hto as (c1 & l1 & d1 & r1 & h1 & -> & HR1 & HF1 & Hm1).
      destruct (IH s1 c1 l1 x1 d1 r1 h1 HR1 HF1 ltac:(lia)) as (s' & E & Hrep).
      exists s'. split; [done|]. by eapply repaired_trans.
    + destruct Hto as [HR1 Hrb]. destruct fuel as [|fuel]; [lia|]. rewrite loopM_step. cbn.
      exists s1. split; [done|]. exists t1. auto 10.
  - exists s. split; [done|]. eexists. split_and!; try done.
    exact (proj1 (rep_plug _ _ _) HR).
Qed.
End repair.

Section insertion.
Context {loc : Type} `{Countable loc} {D : Type} {P : Type} `{NA : !NodeAlloc P loc}.
Context (cmp : D -> D -> Z) `{KO : !KeyOrder cmp} (node_data_free : bool).
Abbreviation tree := (tree loc (bool * D)).
Abbreviation frame := (frame loc (bool * D)).
Abbreviation heap := (tstate loc (bool * D)).
Abbreviation rb_tree := (rb_tree loc D P).
Implicit Types (t l r : tree) (c : list frame) (s : heap) (st : rb_tree).

(** The place where the search for [d] stops: a leaf or an equal node. *)
Fixpoint locate (d : D) c t : list frame * tree :=
  match t with
  | Leaf => (c, Leaf)
  | Nd l a da r =>
      if (cmp d da.2 =? 0)%Z then (c, t)
      else if (cmp d da.2 <? 0)%Z then locate d (FL a da r :: c) l
      else locate d (FR l a da :: c) r
  end.

(** Left of the path everything is smaller than [d], right of it greater. *)
Definition path_ok (d : D) c : Prop :=
  Forall (fun x => 0 < cmp d x)%Z (cinl c).*2 /\ Forall (fun x => cmp d x < 0)%Z (cinr c).*2.

Lemma path_ok_left d c l a da r :
  sorted cmp (elems (plug c (Nd l a da r))) -> path_ok d c -> (cmp d da.2 < 0)%Z ->
  path_ok d (FL a da r :: c).
Proof.
  intros Hs [Hl Hr] Hlt. split; cbn; [by rewrite app_nil_r|].
  constructor; [done|]. rewrite fmap_app. apply Forall_app. split; [|done].
  rewrite elems_plug in Hs. apply StronglySorted_app in Hs as (_ & _ & Hs).
  apply StronglySorted_app in Hs as (_ & Hs & _). unfold elems in Hs. cbn in Hs.
  rewrite fmap_app in Hs. apply StronglySorted_app in Hs as (_ & _ & Hs). cbn in Hs.
  apply StronglySorted_cons in Hs as [Hx _].
  eapply Forall_impl; [exact Hx|]. intros z. by apply ko_trans.
Qed.

Lemma path_ok_right d c l a da r :
  sorted cmp (elems (plug c (Nd l a da r))) -> path_ok d c -> (0 < cmp d da.2)%Z ->
  path_ok d (FR l a da :: c).
Proof.
  intros Hs [Hl Hr] Hlt. split; cbn; [|done]. rewrite !fmap_app. cbn.
  apply Forall_app. split; [done|]. apply Forall_app. split; [|by constructor].
  rewrite elems_plug in Hs. apply StronglySorted_app in Hs as (_ & _ & Hs).
  apply StronglySorted_app in Hs as (_ & Hs & _). unfold elems in Hs. cbn in Hs.
  rewrite fmap_app in Hs. apply StronglySorted_app in Hs as (Hx & _ & _). cbn in Hx.
  apply Forall_forall. intros z Hz. apply ko_opp.
  apply ko_trans with da.2; [apply Hx; [done|by left]|by apply ko_opp].
Qed.

Lemma locate_spec d c t :
  sorted cmp (elems (plug c t)) -> path_ok d c ->
  plug (locate d c t).1 (locate d c t).2 = plug c t /\ path_ok d (locate d c t).1 /\
  match (locate d c t).2 with Leaf => True | Nd _ _ dx _ => cmp d dx.2 = 0%Z end.
Proof.
  revert c. induction t as [|l IHl a da r IHr]; intros c Hs Hp; cbn [locate]; [done|].
  destruct (Z.eqb_spec (cmp d da.2) 0) as [E|Hne]; [done|].
  destruct (Z.ltb_spec (cmp d da.2) 0) as [Hlt|Hge].
  - apply (IHl (FL a da r :: c)); [done|]. by apply (path_ok_left d c l a da r).
  - apply (IHr (FR l a da :: c)); [done|]. apply (path_ok_right d c l a da r); [done..|lia].
Qed.

Lemma path_ok_nil d : path_ok d [].
Proof. by split; constructor. Qed.

Lemma rb_fuel s c t : rep s c t -> height t < S (size (hp s)).
Proof.
  intros [HT _ HN _]. apply NoDup_app in HN as (HN & _ & _).
  pose proof (height_size _ _ _ HT HN). lia.
Qed.

Lemma rbtree_search_rounds_run fuel s t d :
  rep s [] t -> height t < fuel ->
  rbtree_search_rounds cmp fuel d s = Ok (rootp (locate d [] t).2, s).
Proof.
  intros HR Hf. unfold rbtree_search_rounds. mnorm.
  replace (root s) with (rootp t) by (by destruct HR).
  revert Hf HR. generalize ([] : list frame) as c. intros c. revert c fuel.
  induction t as [|l IHl a da r IHr]; intros c fuel Hf HR;
    (destruct fuel as [|fuel]; [lia|]); rewrite loopM_step; [done|].
  cbn [rootp locate]. rewrite (bind_load _ _ _ _ (rep_cell _ _ _ _ _ _ HR)).
  cbn [height] in Hf. unfold data; cbn [dat left right]. cbv zeta.
  destruct (cmp d da.2 =? 0)%Z; [done|].
  destruct (cmp d da.2 <? 0)%Z; cbn [rootp].
  - apply IHl; [lia|]. exact (rep_to_left _ _ _ _ _ _ HR).
  - apply IHr; [lia|]. exact (rep_to_right _ _ _ _ _ _ HR).
Qed.

Lemma rbtree_search_run s t d :
  rep s [] t -> rbtree_search cmp d s = Ok (rootp (locate d [] t).2, s).
Proof.
  intros HR. unfold rbtree_search. mnorm.
  by apply rbtree_search_rounds_run; [|eapply rb_fuel].
Qed.

Lemma bind_on_heap {A B} st (m : M heap A) (k : A -> M rb_tree B) a h :
  m (tr st) = Ok (a, h) -> (on_heap m ≫= k) st = k a (mkRb h (pool st) (freed st)).
Proof. intros E. apply M_bind_ok. unfold on_heap. by rewrite E. Qed.

Lemma rb_eta st : mkRb (tr st) (pool st) (freed st) = st.
Proof. by destruct st. Qed.

(** The state after an equal node [x] has been given the data [d]. *)
Definition replaced st (x : loc) (d e : D) : rb_tree :=
  mkRb (mkTstate (root (tr st)) (alter (with_data d) x (hp (tr st)))) (pool st)
    (if node_data_free then e :: freed st else freed st).

Lemma insert_descend_run st t d :
  rep (tr st) [] t ->
  insert_descend cmp node_data_free d (rootp t) st =
  match locate d [] t with
  | (c, Leaf) => Ok (inr (cpar c), st)
  | (c, Nd l x dx r) => Ok (inl (Some x), replaced st x d dx.2)
  end.
Proof.
  intros HR. unfold insert_descend. mnorm. pose proof (rb_fuel _ _ _ HR) as Hf.
  change None with (cpar ([] : list frame)) at 1.
  revert Hf HR. generalize (S (size (hp (tr st)))). generalize ([] : list frame) as c.
  intros c fuel. revert c fuel.
  induction t as [|l IHl a da r IHr]; intros c fuel Hf HR;
    (destruct fuel as [|fuel]; [lia|]); rewrite loopM_step; [done|].
  pose proof (rep_cell _ _ _ _ _ _ HR) as Ha.
  cbn [rootp locate fst snd]. rewrite (bind_on_heap _ _ _ _ _ (load_ok _ _ _ Ha)), rb_eta.
  cbn [height] in Hf. unfold data at 1 2 3; cbn [dat left right]. cbv zeta.
  destruct (cmp d da.2 =? 0)%Z eqn:E.
  - unfold free_data, replaced. destruct node_data_free.
    + unfold modify at 1, mbind at 1, M_bind at 1. cbn [tr].
      by rewrite (bind_on_heap _ _ _ _ _ (update_ok (tr (mkRb (tr st) _ _)) _ _ _ Ha)).
    + rewrite bind_ret.
      by rewrite (bind_on_heap _ _ _ _ _ (update_ok _ _ _ _ Ha)).
  - destruct (cmp d da.2 <? 0)%Z; cbn [rootp].
    + apply (IHl (FL a da r :: c)); [lia|]. exact (rep_to_left _ _ _ _ _ _ HR).
    + apply (IHr (FR l a da :: c)); [lia|]. exact (rep_to_right _ _ _ _ _ _ HR).
Qed.

(** ** The state of a tree of type [rb_tree] *)
Record rb_ok st t : Prop := {
  rb_rep : rep (tr st) [] t;
  rb_rbt : rbt t;
  rb_sorted : sorted cmp (elems t);
  rb_inv : na_inv (pool st);
  rb_live : forall x, x ∈ locs t -> na_live (pool st) x
}.

(** What [rbtree_insert] promises: unless the allocator ended the program, the
    returned node holds [d], the tree is a red-black tree of the content with [d]
    put in it, no other node lost or changed its data, and the replaced data, if
    any, was given to [node_data_free]. *)
Definition inserted st t d (r : res (option loc * rb_tree)) : Prop :=
  r = Stop Exited \/
  exists x st' t', r = Ok (Some x, st') /\ rb_ok st' t' /\
    elems t' = sput cmp d (elems t) /\
    x ∈ locs t' /\ data <$> hp (tr st') !! x = Some d /\
    (forall b, b <> x -> data <$> hp (tr st') !! b = data <$> hp (tr st) !! b) /\
    freed st' = match sget cmp d (elems t) with
                | Some e => if node_data_free then e :: freed st else freed st
                | None => freed st
                end.

Lemma elems_leaf_plug d c :
  path_ok d c -> sput cmp d (elems (plug c Leaf)) = (cinl c).*2 ++ d :: (cinr c).*2 /\
  sget cmp d (elems (plug c Leaf)) = None.
Proof.
  intros [Hl Hr]. rewrite elems_plug. cbn. split.
  - rewrite sput_app_gt by done. by rewrite sput_lt.
  - by apply sget_none.
Qed.

Lemma tr_node_new_run st d :
  na_inv (pool st) ->
  tr_node_new d st = Stop Exited \/
  exists a q, ~ na_live (pool st) a /\ na_inv q /\
    (forall x, na_live q x <-> x = a \/ na_live (pool st) x) /\
    tr_node_new d st = Ok (Some a, mkRb (mkTstate (root (tr st))
      (<[a := mkNode None None None (false, d)]> (hp (tr st)))) q (freed st)).
Proof.
  intros HI. unfold tr_node_new. destruct (na_new_progress (pool st) HI) as [->|(a & q & E)]; [by left|].
  right. destruct (na_new_spec _ _ _ HI E) as (HI' & Hn & Hl). rewrite E. by exists a, q.
Qed.

(** The repair loop, run on the whole state from the parent of the new node. *)
Lemma fixup_run s f c a d h :
  rep s (f :: c) (Nd Leaf a (true, d) Leaf) ->
  cok (f :: c) 0 false -> h = 0 ->
  exists s', fixup (Some (floc f)) s = Ok (tt, s') /\
    repaired s (plug (f :: c) (Nd Leaf a (true, d) Leaf)) s'.
Proof.
  intros HR Hc ->. unfold fixup. mnorm.
  pose proof (rep_locs_size _ _ _ HR) as Hsz. cbn in Hsz.
  apply (proj2 (rep_fill _ _ _ _)) in HR. cbn [plug].
  destruct f as [y dy r|l y dy]; cbn [fill floc] in *; cbn in Hc.
  - eapply fixup_loop; [exact HR| |unfold redn; destruct (isred r); lia].
    destruct Hc as (Hr & Hlr & Hc). split; [by cbn|done| |intros; by rewrite Hr].
    destruct dy as [[] dy]; cbn in *; tauto.
  - eapply fixup_loop; [exact HR| |unfold redn; cbn; lia].
    destruct Hc as (_ & Hll & Hc). split; [done|by cbn| |].
    + destruct dy as [[] dy]; cbn in *; tauto.
    + intros Hd. rewrite Hd in Hc. by destruct Hc as [-> _].
Qed.

Lemma insert_empty_run st d :
  rb_ok st Leaf -> inserted st Leaf d (rbtree_insert cmp node_data_free d st).
Proof.
  intros [HR _ _ HI _]. unfold rbtree_insert. mnorm.
  assert (Hroot : root (tr st) = None) by (by destruct HR). rewrite Hroot.
  destruct (tr_node_new_run st d HI) as [E|(a & q & Hn & HI' & Hq & E)].
  { left. unfold mbind, M_bind. by rewrite E. }
  right. rewrite (M_bind_ok _ _ _ _ _ E). set (st1 := mkRb _ _ _).
  assert (Ha : hp (tr st1) !! a = Some (mkNode None None None (false, d)))
    by (cbn; apply lookup_insert_eq).
  rewrite (bind_on_heap _ _ _ _ _ (update_ok _ _ _ _ Ha)).
  rewrite (bind_on_heap _ (set_root (Some a)) _ _ _ eq_refl).
  eexists a, _, (Nd Leaf a (false, d) Leaf). split; [done|].
  assert (Hc : alter (with_red false) a (hp (tr st1)) !! a = Some (mkNode None None None (false, d)))
    by (by rewrite lookup_alter_eq, Ha).
  split_and!; [|done|by left|cbn [tr hp]; by rewrite Hc| |done].
  - split; cbn [tr pool].
    + split; cbn.
      * apply agrees_cons. split; [exact Hc|apply agrees_nil].
      * apply agrees_nil.
      * apply NoDup_singleton.
      * done.
    + split; [done|]. by exists 1.
    + by repeat constructor.
    + done.
    + intros x ->%list_elem_of_singleton. apply Hq. by left.
  - intros b Hb. cbn. rewrite lookup_alter_ne, lookup_insert_ne by done. done.
Qed.

Lemma insert_replace_run st c l x dx r d :
  rb_ok st (plug c (Nd l x dx r)) -> cmp d dx.2 = 0%Z ->
  inserted st (plug c (Nd l x dx r)) d (Ok (Some x, replaced st x d dx.2)).
Proof.
  intros [HR Hrb Hs HI Hlive] E. right.
  apply (proj2 (rep_plug _ _ _)) in HR. pose proof (rep_cell _ _ _ _ _ _ HR) as Hx.
  eexists x, _, (plug c (Nd l x (dx.1, d) r)). split; [done|].
  assert (Hsplit : forall dx0, elems (plug c (Nd l x dx0 r)) =
            ((cinl c).*2 ++ elems l) ++ dx0.2 :: elems r ++ (cinr c).*2).
  { intros dx0. rewrite elems_plug. unfold elems. cbn. rewrite fmap_app. cbn.
    by rewrite <- !app_assoc. }
  rewrite Hsplit in Hs.
  assert (Hput : sput cmp d (elems (plug c (Nd l x dx r))) = elems (plug c (Nd l x (dx.1, d) r))).
  { rewrite !Hsplit. by apply sput_replace. }
  assert (Hdata : hp (tr (replaced st x d dx.2)) !! x =
            Some (mkNode (rootp l) (rootp r) (cpar c) (dx.1, d))).
  { cbn. by rewrite lookup_alter_eq, Hx. }
  split_and!; [|done| |by rewrite Hdata| |].
  - split; cbn [tr pool replaced]; [| | |done|].
    + apply (proj1 (rep_plug _ _ _)).
      replace (alter (with_data d) x (hp (tr st))) with (alter (with_dat (dx.1, d)) x (hp (tr st))).
      * by eapply rep_set_dat.
      * apply alter_ext. intros n Hn'. rewrite Hx in Hn'. by injection Hn' as <-.
    + destruct (cok_split _ _ Hrb) as (h & Hc & Hh). by apply (cok_plug c _ h).
    + rewrite <- Hput. apply sput_sorted; [done|]. by rewrite Hsplit.
    + intros y. rewrite locs_plug. cbn [locs]. rewrite <- (locs_plug c (Nd l x dx r)). apply Hlive.
  - rewrite locs_plug. by left.
  - intros b Hb. cbn. by rewrite lookup_alter_ne.
  - rewrite Hsplit, (sget_some cmp d _ dx.2) by done. done.
Qed.

(** The assignment to the child pointer that the hole of [f] stands for. *)
Definition with_hole (f : frame) : option loc -> node loc (bool * D) -> node loc (bool * D) :=
  match f with FL _ _ _ => with_left | FR _ _ _ => with_right end.

Lemma parent_cell s f c d :
  rep s (f :: c) Leaf -> path_ok d (f :: c) ->
  exists n, hp s !! floc f = Some n /\
    forall nd, (if (cmp d (data n) <? 0)%Z then with_left nd else with_right nd) = with_hole f nd.
Proof.
  intros HR [Hl Hr]. apply (proj2 (rep_fill _ _ _ _)) in HR.
  destruct f as [y dy r|l y dy]; cbn [fill floc] in *; eexists;
    (split; [by eapply rep_cell|]); intros nd; unfold data; cbn [dat].
  - cbn in Hr. inversion Hr as [|? ? Hlt]; subst. by rewrite (proj2 (Z.ltb_lt _ _)).
  - cbn in Hl. rewrite !fmap_app in Hl. apply Forall_app in Hl as [_ Hl].
    apply Forall_app in Hl as [_ Hl]. inversion Hl as [|? ? Hlt]; subst.
    by rewrite (proj2 (Z.ltb_ge _ _)) by lia.
Qed.

(** The heap once the new node [a] hangs below [floc f]. *)
Definition attached (f : frame) (a : loc) (s : heap) : heap :=
  mkTstate (root s) (alter (with_p (Some (floc f))) a
    (alter (with_hole f (Some a)) (floc f) (alter (with_red true) a (hp s)))).

Lemma attached_rep s f c a d h :
  rep (mkTstate (root s) h) (f :: c) Leaf -> a ∉ clocs (f :: c) ->
  hp s = <[a := mkNode None None None (false, d)]> h ->
  rep (attached f a s) (f :: c) (Nd Leaf a (true, d) Leaf).
Proof.
  intros HR Hni Hh.
  assert (Hne : floc f <> a) by (destruct f; tree_nodup).
  apply (rep_graft _ (f :: c) a (true, d) (hp (attached f a s)) HR Hni).
  - cbn. by rewrite Hh, lookup_alter_eq, lookup_alter_ne, lookup_alter_eq, lookup_insert_eq.
  - intros b Hb. assert (Hab : a <> b) by (by intros ->). cbn [attached hp]. rewrite Hh.
    rewrite lookup_alter_ne by done.
    destruct f as [y dy r|l y dy]; cbn [set_child floc with_hole] in *;
      (destruct (decide (y = b)) as [->|Hyb];
       [rewrite !lookup_alter_eq, lookup_alter_ne, lookup_insert_ne by done
       |rewrite !lookup_alter_ne, lookup_insert_ne by done]); done.
Qed.

(** Hanging the new node [a] below [floc f] and repairing the tree. *)
Lemma insert_attach_run st st1 f c a d :
  rb_ok st (plug (f :: c) Leaf) -> path_ok d (f :: c) ->
  a ∉ locs (plug (f :: c) Leaf) -> root (tr st1) = root (tr st) ->
  hp (tr st1) = <[a := mkNode None None None (false, d)]> (hp (tr st)) ->
  exists s',
    (on_heap (update (Some a) (with_red true));;
     ny ← on_heap (load (Some (floc f)));
     (if (cmp d (data ny) <? 0)%Z
      then on_heap (update (Some (floc f)) (with_left (Some a)))
      else on_heap (update (Some (floc f)) (with_right (Some a))));;
     on_heap (update (Some a) (with_p (Some (floc f))));;
     nn ← on_heap (load (Some a));
     on_heap (fixup (p nn));;
     mret (Some a)) st1 = Ok (Some a, mkRb s' (pool st1) (freed st1)) /\
    repaired (attached f a (tr st1)) (plug (f :: c) (Nd Leaf a (true, d) Leaf)) s'.
Proof.
  intros [HR Hrb _ _ _] Hp Hni Hroot Hh.
  apply (proj2 (rep_plug _ _ _)) in HR. rewrite locs_plug in Hni. cbn [locs app] in Hni.
  assert (Hne : floc f <> a) by (destruct f; tree_nodup).
  destruct (parent_cell _ _ _ _ HR Hp) as (ny & Hy & Hside).
  assert (Ha : hp (tr st1) !! a = Some (mkNode None None None (false, d)))
    by (rewrite Hh; apply lookup_insert_eq).
  rewrite (bind_on_heap _ _ _ _ _ (update_ok _ _ _ _ Ha)). set (st2 := mkRb _ _ _).
  assert (Hy2 : hp (tr st2) !! floc f = Some ny)
    by (cbn; by rewrite lookup_alter_ne, Hh, lookup_insert_ne).
  rewrite (bind_on_heap _ _ _ _ _ (load_ok _ _ _ Hy2)).
  assert (Hif : (if (cmp d (data ny) <? 0)%Z
      then on_heap (P := P) (update (Some (floc f)) (with_left (Some a)))
      else on_heap (update (Some (floc f)) (with_right (Some a)))) =
      on_heap (update (Some (floc f)) (with_hole f (Some a)))).
  { rewrite <- Hside. by destruct (cmp d (data ny) <? 0)%Z. }
  rewrite Hif. clear Hif. rewrite rb_eta.
  rewrite (bind_on_heap _ _ _ _ _ (update_ok _ _ _ _ Hy2)). set (st3 := mkRb _ _ _).
  assert (Ha3 : hp (tr st3) !! a = Some (mkNode None None None (true, d)))
    by (cbn; by rewrite lookup_alter_ne, lookup_alter_eq, Ha).
  rewrite (bind_on_heap _ _ _ _ _ (update_ok _ _ _ _ Ha3)). set (st4 := mkRb _ _ _).
  assert (Ha4 : hp (tr st4) !! a = Some (mkNode None None (Some (floc f)) (true, d)))
    by (cbn [st4 tr hp]; by rewrite lookup_alter_eq, Ha3).
  rewrite (bind_on_heap _ _ _ _ _ (load_ok _ _ _ Ha4)). cbn [p].
  assert (HR4 : rep (attached f a (tr st1)) (f :: c) (Nd Leaf a (true, d) Leaf)).
  { eapply attached_rep; [|exact Hni|exact Hh].
    rewrite Hroot. by destruct (tr st). }
  destruct (cok_split _ _ Hrb) as (h & Hc & ->).
  destruct (fixup_run _ _ _ _ _ 0 HR4 Hc eq_refl) as (s' & E & Hrep).
  exists s'. split; [|exact Hrep].
  rewrite rb_eta. by rewrite (bind_on_heap st4 _ _ _ _ E).
Qed.

Lemma insert_new_run st f c d :
  rb_ok st (plug (f :: c) Leaf) -> path_ok d (f :: c) ->
  inserted st (plug (f :: c) Leaf) d
    ((nd ← tr_node_new d;
      on_heap (update nd (with_red true));;
      ny ← on_heap (load (Some (floc f)));
      (if (cmp d (data ny) <? 0)%Z
       then on_heap (update (Some (floc f)) (with_left nd))
       else on_heap (update (Some (floc f)) (with_right nd)));;
      on_heap (update nd (with_p (Some (floc f))));;
      nn ← on_heap (load nd);
      on_heap (fixup (p nn));;
      mret nd) st).
Proof.
  intros Hok Hp. pose proof Hok as [HR Hrb Hs HI Hlive].
  destruct (tr_node_new_run st d HI) as [E|(a & q & Hn & HI' & Hq & E)].
  { left. unfold mbind at 1, M_bind at 1. by rewrite E. }
  right. rewrite (M_bind_ok _ _ _ _ _ E). set (st1 := mkRb _ _ _).
  assert (Hni : a ∉ locs (plug (f :: c) Leaf)) by (intros Ha; by apply Hn, Hlive).
  destruct (insert_attach_run st st1 f c a d Hok Hp Hni eq_refl eq_refl)
    as (s' & -> & t' & HR' & Hrb' & He & Hl & _ & Hsd & Hf).
  destruct (elems_leaf_plug d (f :: c) Hp) as [Hput Hget].
  assert (He' : elems t' = sput cmp d (elems (plug (f :: c) Leaf))).
  { by rewrite He, Hput, elems_plug. }
  assert (Hl' : locs t' ≡ₚ a :: locs (plug (f :: c) Leaf)).
  { rewrite Hl, !locs_plug. done. }
  assert (Hdat : forall b, data <$> hp s' !! b = data <$> hp (tr st1) !! b).
  { intros b. rewrite Hsd. cbn [attached hp]. rewrite !data_alter; [done|done| |done].
    by destruct f. }
  exists a, (mkRb s' q (freed st1)), t'. split_and!; [done| |done| | | |].
  - split; cbn [tr pool]; [done|done| |done|].
    + rewrite He'. by apply sput_sorted.
    + intros x Hx. rewrite Hl' in Hx. apply Hq. apply elem_of_cons in Hx as [->|Hx]; [by left|].
      right. by apply Hlive.
  - rewrite Hl'. by left.
  - cbn [tr]. rewrite Hdat. cbn. by rewrite lookup_insert_eq.
  - intros b Hb. cbn [tr]. rewrite Hdat. cbn. by rewrite lookup_insert_ne.
  - by rewrite Hget.
Qed.

(** [rbtree_insert] on every branch. *)
Lemma rbtree_insert_run st t d :
  rb_ok st t -> inserted st t d (rbtree_insert cmp node_data_free d st).
Proof.
  intros Hok. destruct t as [|l x dx r]; [by apply insert_empty_run|].
  set (t := Nd l x dx r) in *.
  pose proof (rb_rep _ _ Hok) as HR. pose proof (rb_sorted _ _ Hok) as Hs.
  unfold rbtree_insert. mnorm.
  assert (Hroot : root (tr st) = rootp t) by (by destruct HR). rewrite Hroot. cbn [t rootp].
  change (Some x) with (rootp t).
  destruct (locate_spec d [] t Hs (path_ok_nil d)) as (Hpl & Hp & Heq).
  pose proof (insert_descend_run st t d HR) as E.
  destruct (locate d [] t) as [c [|l' x' dx' r']] eqn:Eloc; cbn [fst snd] in *;
    rewrite (M_bind_ok _ _ _ _ _ E); cbv beta iota; cbn [plug] in Hpl; rewrite <- Hpl in *.
  - destruct c as [|f c]; [done|]. by apply insert_new_run.
  - by apply insert_replace_run.
Qed.

(** ** Search *)
Lemma search_result st t d :
  rb_ok st t ->
  match rootp (locate d [] t).2 with
  | Some x => x ∈ locs t /\ exists n, hp (tr st) !! x = Some n /\ sget cmp d (elems t) = Some (data n)
  | None => sget cmp d (elems t) = None
  end.
Proof.
  intros [HR _ Hs _ _].
  destruct (locate_spec d [] t Hs (path_ok_nil d)) as (Hpl & Hp & Heq). cbn [plug] in *.
  destruct (locate d [] t) as [c t']. cbn [fst snd] in *. subst t.
  destruct t' as [|l x dx r]; cbn [rootp].
  - by apply elems_leaf_plug.
  - split; [rewrite locs_plug; by left|]. apply (proj2 (rep_plug _ _ _)) in HR.
    eexists. split; [by eapply rep_cell|]. rewrite elems_plug in *.
    unfold elems in *. cbn in *. rewrite fmap_app in *. cbn in *.
    rewrite <- app_assoc in *. cbn in *. rewrite app_assoc in *. by apply sget_some.
Qed.

(** Red-black trees are balanced. *)
Lemma rbt_height t : rbt t -> height t <= 2 * Nat.log2 (S (length (locs t))).
Proof.
  intros [Hr [h Ht]]. pose proof (llrb_height _ _ Ht) as Hh. rewrite Hr in Hh.
  pose proof (llrb_size _ _ Ht) as Hs. apply Nat.log2_le_mono in Hs.
  rewrite Nat.log2_pow2 in Hs by lia. lia.
Qed.

(** ** The walk into an array *)
Lemma aset_next {A} (pre rest : list A) o x :
  aset (pre ++ o :: rest) (Z.of_nat (length pre)) x = Ok ((pre ++ [x]) ++ rest).
Proof.
  rewrite aset_nat by (rewrite length_app; cbn; lia).
  by rewrite insert_app_r_alt, Nat.sub_diag, <- app_assoc by lia.
Qed.

Lemma split_rest {A} n (rest : list A) :
  n < length rest -> exists (r1 : list A) o (r2 : list A), rest = r1 ++ o :: r2 /\ length r1 = n.
Proof.
  intros Hn. destruct (lookup_lt_is_Some_2 rest n Hn) as [o Ho].
  exists (take n rest), o, (drop (S n) rest). split; [by rewrite take_drop_middle|].
  apply length_take_le. lia.
Qed.

Lemma walk_rec_run fuel s c t (pre rest : list (option D)) :
  rep s c t -> height t < fuel -> length (elems t) <= length rest ->
  (Z.of_nat (length (pre ++ rest)) < 2 ^ 64)%Z ->
  rbtree_inorder_walk_rec fuel (rootp t) (pre ++ rest) (Z.of_nat (length pre)) s =
  Ok (pre ++ (Some <$> elems t) ++ drop (length (elems t)) rest,
      Z.of_nat (length (pre ++ (Some <$> elems t))), s).
Proof.
  revert c pre rest fuel. induction t as [|l IHl a da r IHr]; intros c pre rest fuel HR Hf Hlen Hb;
    (destruct fuel as [|fuel]; [lia|]); cbn [rbtree_inorder_walk_rec rootp].
  { cbn. by rewrite app_nil_r. }
  rewrite (bind_load _ _ _ _ (rep_cell _ _ _ _ _ _ HR)). cbn [left right].
  cbn [height] in Hf.
  assert (He : elems (Nd l a da r) = elems l ++ da.2 :: elems r)
    by (unfold elems; cbn; by rewrite fmap_app).
  rewrite He in *. rewrite length_app in Hlen. cbn [length] in Hlen.
  destruct (split_rest (length (elems l)) rest) as (r1 & o & r2 & -> & Hr1); [lia|].
  rewrite length_app in Hlen. rewrite !length_app in Hb. cbn [length] in Hlen, Hb.
  rewrite (M_bind_ok _ _ _ _ _ (IHl _ pre (r1 ++ o :: r2) fuel (rep_to_left _ _ _ _ _ _ HR) ltac:(lia)
             ltac:(rewrite length_app; lia) ltac:(rewrite !length_app; cbn [length]; lia))).
  cbn [fst snd]. rewrite <- Hr1, drop_app_length, app_assoc.
  unfold lift at 1. unfold mbind at 1, M_bind at 1. rewrite aset_next.
  replace (u64 _) with (Z.of_nat (length ((pre ++ (Some <$> elems l)) ++ [Some da.2]))).
  2:{ rewrite (length_app _ [_]). cbn [length]. rewrite u64_small; [lia|].
      rewrite length_app, length_fmap. lia. }
  unfold data; cbn [dat].
  rewrite (IHr _ _ _ _ (rep_to_right _ _ _ _ _ _ HR)); [|lia|lia|].
  2:{ rewrite !length_app, length_fmap. cbn. lia. }
  rewrite fmap_app, fmap_cons, (length_app (elems l)). cbn [length].
  rewrite <- Hr1, drop_app_add. cbn [drop]. by rewrite <- !app_assoc.
Qed.

Lemma rbtree_inorder_walk_run st t ns :
  rb_ok st t -> length (elems t) <= length ns -> (Z.of_nat (length ns) < 2 ^ 64)%Z ->
  rbtree_inorder_walk ns (tr st) =
  Ok ((Some <$> elems t) ++ drop (length (elems t)) ns, Z.of_nat (length (elems t)), tr st).
Proof.
  intros [HR _ _ _ _] Hlen Hb. unfold rbtree_inorder_walk. mnorm.
  replace (root (tr st)) with (rootp t) by (by destruct HR).
  pose proof (walk_rec_run _ _ [] t [] ns HR (rb_fuel _ _ _ HR) Hlen Hb) as E.
  cbn [app length] in E. rewrite length_fmap in E. exact E.
Qed.

(** ** The tree as an implementation of [TreeMap] *)
#[export] Program Instance rbtree_map : TreeMap rb_tree D cmp := {|
  tm_insert d st :=
    match rbtree_insert cmp node_data_free d st with
    | Ok (Some _, st') => Ok (true, st')
    | Ok (None, st') => Ok (false, st')
    | Stop f => Stop f
    end;
  tm_search d st :=
    match rbtree_search cmp d (tr st) with
    | Ok (Some x, s) =>
        match load (Some x) s with Ok (n, _) => Ok (Some (data n)) | Stop f => Stop f end
    | Ok (None, _) => Ok None
    | Stop f => Stop f
    end;
  tm_walk ns st :=
    match rbtree_inorder_walk ns (tr st) with Ok (r, _) => Ok r | Stop f => Stop f end;
  tm_ok st ds := exists t, rb_ok st t /\ elems t = ds
|}.
Next Obligation. intros st l (t & Hok & <-). by apply rb_sorted with st. Qed.
Next Obligation.
  intros st l d (t & Hok & <-).
  destruct (rbtree_insert_run st t d Hok) as [->|(x & st' & t' & -> & Hok' & He & _)]; [by left|].
  right. exists st'. split; [done|]. by exists t'.
Qed.
Next Obligation.
  intros st l d (t & Hok & <-). rewrite (rbtree_search_run _ _ _ (rb_rep _ _ Hok)).
  pose proof (search_result st t d Hok) as Hr.
  destruct (rootp _) as [x|]; [|by rewrite Hr].
  destruct Hr as (_ & n & Hn & ->). unfold load. by rewrite Hn.
Qed.
Next Obligation.
  intros st l ns (t & Hok & <-) Hlen Hb. by rewrite (rbtree_inorder_walk_run st t).
Qed.
End insertion.

(** * The printer *)
Section printer.
Context {loc : Type} `{Countable loc} {D str : Type} (node_c_str : D -> str).
Abbreviation tree := (tree loc (bool * D)).
Abbreviation frame := (frame loc (bool * D)).
Abbreviation heap := (tstate loc (bool * D)).
Abbreviation item := (list frame * tree)%type.
Implicit Types (s : heap) (t l r : tree) (it : item) (its nxt : list item).

(** What is printed for a node, given the path to it. *)
Definition piece_of it : list (@piece str) :=
  match it with
  | (_, Leaf) => []
  | ([], Nd _ _ d _) => [PRoot (node_c_str d.2)]
  | (FL _ dp _ :: _, Nd _ _ d _) => [PLeft (node_c_str d.2) (node_c_str dp.2)]
  | (FR _ _ dp :: _, Nd _ _ d _) => [PRight (node_c_str dp.2) (node_c_str d.2)]
  end.

Definition nonleaf (it : item) : list item :=
  match it.2 with Leaf => [] | _ => [it] end.
Definition kids it : list item :=
  match it with
  | (_, Leaf) => []
  | (c, Nd l a d r) => nonleaf (FL a d r :: c, l) ++ nonleaf (FR l a d :: c, r)
  end.

(** The layers of a forest, each ended by a new line. *)
Fixpoint layers (k : nat) its : list (@piece str) :=
  match k with
  | O => []
  | S k =>
      match its with
      | [] => []
      | _ => concat (piece_of <$> its) ++ PNewline :: layers k (concat (kids <$> its))
      end
  end.

Definition good s it : Prop := rep s it.1 it.2 /\ it.2 <> Leaf.
Definition addrs its : list (option loc) := (fun it => rootp it.2) <$> its.

Lemma kids_good s it : good s it -> Forall (good s) (kids it).
Proof.
  destruct it as [c [|l a d r]]; intros [HR Hne]; [done|]. cbn in *.
  unfold nonleaf; cbn. apply Forall_app. split; [destruct l|destruct r]; constructor; try constructor.
  - exact (rep_to_left _ _ _ _ _ _ HR).
  - done.
  - exact (rep_to_right _ _ _ _ _ _ HR).
  - done.
Qed.

Lemma piece_run s c l a d r :
  rep s c (Nd l a d r) ->
  exists pc, piece_of (c, Nd l a d r) = [pc] /\
  match cpar c with
  | None => mret (PRoot (node_c_str d.2))
  | Some _ =>
      np ← load (cpar c);
      if bool_decide (left np = Some a)
      then mret (PLeft (node_c_str d.2) (node_c_str (data np)))
      else if bool_decide (right np = Some a)
      then mret (PRight (node_c_str (data np)) (node_c_str d.2))
      else mret (PRoot (node_c_str d.2))
  end s = Ok (pc, s).
Proof.
  intros HR. destruct c as [|f c]; [by eexists|].
  pose proof (rep_nodup _ _ _ HR) as HN.
  apply (proj2 (rep_fill _ _ _ _)) in HR. destruct f as [y dy ry|ly y dy]; cbn [cpar head fmap option_fmap option_map floc];
    (eexists; split; [done|]); cbn [fill] in HR;
    rewrite (bind_load _ _ _ _ (rep_cell _ _ _ _ _ _ HR)); cbn [left right rootp].
  - by rewrite bool_decide_true.
  - rewrite bool_decide_false, bool_decide_true; [done|done|].
    intros Hl%rootp_in. cbn [locs clocs flocs] in HN. tree_nodup.
Qed.

Lemma draw_step_run s it its nxt o :
  good s it -> 
  draw_step node_c_str (mkDraw (addrs (it :: its ++ nxt)) (Z.of_nat (length (it :: its))) (Z.of_nat (length nxt)) o) s =
  Ok (inl (match its with
           | [] => mkDraw (addrs (nxt ++ kids it)) (Z.of_nat (length (nxt ++ kids it))) 0
                     (o ++ piece_of it ++ [PNewline])
           | _ => mkDraw (addrs (its ++ nxt ++ kids it)) (Z.of_nat (length its))
                    (Z.of_nat (length (nxt ++ kids it))) (o ++ piece_of it)
           end), s).
Proof.
  destruct it as [c [|l a d r]]; intros [HR Hne]; [done|]. cbn in HR.
  destruct (piece_run s c l a d r HR) as (pc & -> & Epc).
  unfold draw_step. cbn [nodes addrs fmap list_fmap snd rootp cur next out].
  rewrite (bind_load _ _ _ _ (rep_cell _ _ _ _ _ _ HR)). cbn [p left right].
  unfold data at 1 2 3 4 5; cbn [dat]. rewrite (M_bind_ok _ _ _ _ _ Epc).
  replace (Z.of_nat (length ((c, Nd l a d r) :: its)) - 1)%Z with (Z.of_nat (length its)) by (cbn; lia).
  unfold kids, nonleaf. cbn [snd].
  destruct its as [|it its].
  - cbn [app length]. rewrite Z.eqb_refl.
    destruct l, r; unfold mret, M_ret, addrs; cbn;
      rewrite ?app_nil_r, ?fmap_app, ?length_app, <- ?app_assoc; cbn;
      do 4 f_equal; lia.
  - rewrite (proj2 (Z.eqb_neq _ _)) by (cbn; lia).
    destruct l, r; unfold mret, M_ret, addrs; cbn;
      rewrite ?app_nil_r, ?fmap_app, ?length_app, <- ?app_assoc; cbn;
      do 4 f_equal; lia.
Qed.

Lemma draw_level s its nxt o fuel :
  its <> [] -> Forall (good s) its ->
  loopM (length its + fuel) (draw_step node_c_str)
    (mkDraw (addrs (its ++ nxt)) (Z.of_nat (length its)) (Z.of_nat (length nxt)) o) s =
  loopM fuel (draw_step node_c_str)
    (mkDraw (addrs (nxt ++ concat (kids <$> its)))
       (Z.of_nat (length (nxt ++ concat (kids <$> its)))) 0
       (o ++ concat (piece_of <$> its) ++ [PNewline])) s.
Proof.
  revert nxt o. induction its as [|it its IH]; intros nxt o Hne HG; [done|].
  apply Forall_cons in HG as [Hit HG].
  change (length (it :: its) + fuel) with (S (length its + fuel)). rewrite loopM_step.
  change ((it :: its) ++ nxt) with (it :: its ++ nxt).
  rewrite (draw_step_run s it its nxt o Hit). destruct its as [|it' its].
  - cbn. by rewrite !app_nil_r.
  - rewrite (app_assoc (it' :: its)) by done.
    replace (addrs (((it' :: its) ++ nxt) ++ kids it)) with (addrs ((it' :: its) ++ nxt ++ kids it))
      by (by rewrite <- app_assoc).
    rewrite IH by done. cbn [fmap list_fmap concat]. by rewrite <- !app_assoc.
Qed.

Definition tot its : nat := sum_list ((fun it => length (locs it.2)) <$> its).

Lemma tot_app its nxt : tot (its ++ nxt) = tot its + tot nxt.
Proof. unfold tot. by rewrite fmap_app, sum_list_with_app || (rewrite fmap_app; induction its; cbn; lia). Qed.

Lemma tot_kids s its : Forall (good s) its -> tot its = length its + tot (concat (kids <$> its)).
Proof.
  induction 1 as [|[c t] its [_ Hne] HG IH]; [done|]. cbn [fmap list_fmap concat].
  rewrite tot_app. change (tot ((c, t) :: its)) with (length (locs t) + tot its).
  destruct t as [|l a d r]; [done|]. cbn [kids length locs]. rewrite tot_app, length_app.
  unfold nonleaf. cbn [snd]. destruct l, r; unfold tot in *; cbn in *; lia.
Qed.

Lemma kids_height k c t : height t <= S k -> Forall (fun it : item => height it.2 <= k) (kids (c, t)).
Proof.
  destruct t as [|l a d r]; cbn; [constructor|]. intros Hh. unfold nonleaf; cbn.
  apply Forall_app. split; [destruct l|destruct r]; repeat constructor; cbn in *; lia.
Qed.

Lemma draw_layers k s its o fuel :
  Forall (good s) its -> Forall (fun it : item => height it.2 <= k) its -> tot its < fuel ->
  loopM fuel (draw_step node_c_str) (mkDraw (addrs its) (Z.of_nat (length its)) 0 o) s =
  Ok (o ++ layers k its, s).
Proof.
  revert its o fuel. induction k as [|k IH]; intros its o fuel HG Hh Hf;
    (destruct its as [|it its];
     [destruct fuel as [|fuel]; [lia|]; rewrite loopM_step; cbn; by rewrite app_nil_r|]).
  { exfalso. inversion Hh as [|? ? Hk0 _]; inversion HG as [|? ? [_ Hg1] _]; subst.
    destruct it as [c []]; cbn in *; [done|lia]. }
  pose proof (tot_kids s _ HG) as Ht. set (its' := it :: its) in *.
  replace fuel with (length its' + (fuel - length its')) by lia.
  pose proof (draw_level s its' [] o (fuel - length its') ltac:(done) HG) as E.
  rewrite app_nil_r, app_nil_l in E. etransitivity; [exact E|]. rewrite IH.
  - cbn [layers its']. by rewrite <- !app_assoc.
  - clear -HG. induction HG as [|it0 its0 Hit _ IH]; cbn; [constructor|].
    apply Forall_app. split; [by apply kids_good|done].
  - clear -Hh. induction Hh as [|[c t] its0 Hit _ IH]; cbn [fmap list_fmap concat]; [constructor|].
    apply Forall_app. split; [by apply kids_height|done].
  - lia.
Qed.

Lemma draw_run s t :
  rep s [] t -> t <> Leaf ->
  rbtree_draw_to_term node_c_str s = Ok (layers (height t) [([], t)], s).
Proof.
  intros HR Hne. unfold rbtree_draw_to_term. mnorm.
  replace (root s) with (rootp t) by (by destruct HR).
  apply (draw_layers (height t) s [([], t)] []).
  - apply Forall_singleton. by split.
  - by apply Forall_singleton.
  - pose proof (rep_locs_size _ _ _ HR). cbn in *. unfold tot. cbn. lia.
Qed.
End printer.

(** * The theorems about the tree *)
Section theorems.
Context {loc : Type} `{Countable loc} {D : Type} {P : Type} `{NA : !NodeAlloc P loc}.
Context (cmp : D -> D -> Z) `{KO : !KeyOrder cmp} (node_data_free : bool).
Abbreviation tree := (tree loc (bool * D)).
Abbreviation rb_tree := (rb_tree loc D P).
Implicit Types (t : tree) (st : rb_tree).

(** C1: [rbtree_insert] keeps the red-black invariant.  On a left-leaning red-black
    search tree (parent pointers included, nodes taken from the allocator) it ends
    the program for lack of memory, or returns a node of the tree that holds the new
    data; the tree is again a left-leaning red-black search tree, its in-order
    content is the old one with the data put at its place (in place of an equal
    element), no other node's data changed, and the replaced data was freed. *)
Theorem rbtree_insert_correct st t d :
  rb_ok cmp st t ->
  rbtree_insert cmp node_data_free d st = Stop Exited \/
  exists x st' t', rbtree_insert cmp node_data_free d st = Ok (Some x, st') /\
    rb_ok cmp st' t' /\ elems t' = sput cmp d (elems t) /\
    x ∈ locs t' /\ data <$> hp (tr st') !! x = Some d /\
    (forall b, b <> x -> data <$> hp (tr st') !! b = data <$> hp (tr st) !! b) /\
    freed st' = match sget cmp d (elems t) with
                | Some e => if node_data_free then e :: freed st else freed st
                | None => freed st
                end.
Proof. intros Hok. exact (rbtree_insert_run cmp node_data_free st t d Hok). Qed.

(** C28: [rbtree_search] changes nothing and returns a node of the tree with equal
    data, or NULL exactly when there is none; and its loop needs at most
    [2 * log2 (n + 1) + 1] rounds in a tree of [n] nodes. *)
Theorem rbtree_search_correct st t d :
  rb_ok cmp st t ->
  exists x, rbtree_search cmp d (tr st) = Ok (x, tr st) /\
    rbtree_search_rounds cmp (2 * Nat.log2 (S (length (locs t))) + 1) d (tr st) = Ok (x, tr st) /\
    match x with
    | Some a => a ∈ locs t /\ exists n, hp (tr st) !! a = Some n /\ cmp d (data n) = 0%Z /\
                  sget cmp d (elems t) = Some (data n)
    | None => Forall (fun e => cmp d e <> 0%Z) (elems t)
    end.
Proof.
  intros Hok. pose proof (search_result cmp st t d Hok) as Hr.
  exists (rootp (locate cmp d [] t).2). split_and!.
  - apply rbtree_search_run, (rb_rep _ _ _ Hok).
  - apply rbtree_search_rounds_run; [exact (rb_rep _ _ _ Hok)|].
    pose proof (rbt_height t (rb_rbt _ _ _ Hok)). lia.
  - destruct (rootp _) as [a|].
    + destruct Hr as (Ha & n & Hn & Hs). split; [done|]. exists n. split_and!; try done.
      by eapply sget_eq.
    + by apply sget_None_inv.
Qed.

(** C2: nothing is lost and nothing leaks.  After any sequence of insertions into an
    empty tree (that memory sufficed for), the walk writes the elements in
    increasing order into an array with enough room, and the elements of the tree
    together with the data given to [node_data_free] are the data inserted. *)
Theorem rbtree_insert_all_walk st ds :
  rb_ok cmp st Leaf -> freed st = [] -> node_data_free = true ->
  rbtree_insert_all cmp node_data_free ds st = Stop Exited \/
  exists st' l, rbtree_insert_all cmp node_data_free ds st = Ok (tt, st') /\
    sorted cmp l /\ freed st' ++ l ≡ₚ ds /\
    forall ns, length l <= length ns -> (Z.of_nat (length ns) < 2 ^ 64)%Z ->
      rbtree_inorder_walk ns (tr st') =
      Ok ((Some <$> l) ++ drop (length l) ns, Z.of_nat (length l), tr st').
Proof.
  intros Hok Hfr Hfree.
  assert (Hgen : forall t, rb_ok cmp st t ->
    rbtree_insert_all cmp node_data_free ds st = Stop Exited \/
    exists st' t', rbtree_insert_all cmp node_data_free ds st = Ok (tt, st') /\
      rb_ok cmp st' t' /\ freed st' ++ elems t' ≡ₚ ds ++ freed st ++ elems t).
  { clear Hok Hfr. revert st. induction ds as [|d ds' IH]; intros st t Hok; cbn [rbtree_insert_all].
    { right. by exists st, t. }
    destruct (rbtree_insert_run cmp node_data_free st t d Hok)
      as [E|(x & st1 & t1 & E & Hok1 & He & _ & _ & _ & Hf)].
    { left. unfold mbind, M_bind. by rewrite E. }
    rewrite (M_bind_ok _ _ _ _ _ E).
    destruct (IH st1 t1 Hok1) as [E'|(st' & t' & E' & Hok' & Hp)]; [by left|right].
    exists st', t'. split_and!; [done|done|]. rewrite Hp, He, Hf, Hfree.
    pose proof (sput_perm cmp d (elems t) (rb_sorted _ _ _ Hok)) as Hs.
    cbn [app]. destruct (sget cmp d (elems t)) as [e|].
    - rewrite <- app_comm_cons, Permutation_middle, Hs. solve_Permutation.
    - rewrite Hs. solve_Permutation. }
  destruct (Hgen Leaf Hok) as [E|(st' & t' & E & Hok' & Hp)]; [by left|right].
  exists st', (elems t'). split_and!; [done|by eapply rb_sorted| |].
  - rewrite Hp, Hfr. cbn. by rewrite app_nil_r.
  - intros ns Hlen Hb. by apply (rbtree_inorder_walk_run cmp).
Qed.

(** [rbtree_draw_to_term] prints every layer of a nonempty tree on a line of its
    own, from the root down and from left to right, each node with its parent on
    the side the parent is; printing an empty tree dereferences a null pointer. *)
Theorem rbtree_draw_layers {str} (node_c_str : D -> str) st t :
  rb_ok cmp st t ->
  rbtree_draw_to_term node_c_str (tr st) =
  match t with
  | Leaf => Stop NullDeref
  | _ => Ok (layers node_c_str (height t) [([], t)], tr st)
  end.
Proof.
  intros Hok. destruct t as [|l a d r]; [|by apply draw_run; [apply Hok|]].
  pose proof (rb_rep _ _ _ Hok) as [_ _ _ HR]. unfold rbtree_draw_to_term. mnorm.
  rewrite HR. by rewrite Nat.add_comm.
Qed.
End theorems.

(** * Concrete runs *)

(** The comparison of the callbacks in the repository ([graph_node_cmp]). *)
Definition int_cmp (a b : Z) : Z := if (a <? b)%Z then -1 else if (a =? b)%Z then 0 else 1.

#[export] Instance int_cmp_order : KeyOrder int_cmp.
Proof.
  unfold int_cmp. split; intros *;
    repeat match goal with
    | |- context [(?a <? ?b)%Z] => destruct (Z.ltb_spec a b)
    | |- context [(?a =? ?b)%Z] => destruct (Z.eqb_spec a b)
    end; lia.
Qed.

(** A bump allocator: addresses 0, 1, 2, ... *)
#[export] Program Instance bump_alloc : NodeAlloc nat nat := {|
  na_new q := Ok (q, S q);
  na_inv q := True;
  na_live q x := x < q
|}.
Next Obligation. intros q l q' _ [= <- <-]. split_and!; [done|lia|]. intros x. lia. Qed.
Next Obligation. intros q _. right. by eexists _, _. Qed.

(** "SEARCHXMPL" of the test's comment, as letters. *)
Definition search_keys : list Z := [83; 69; 65; 82; 67; 72; 88; 77; 80; 76]%Z.
Definition empty_tree : rb_tree nat Z nat := mkRb (mkTstate None ∅) 0 [].
Definition search_tree : rb_tree nat Z nat :=
  match rbtree_insert_all int_cmp true search_keys empty_tree with
  | Ok (_, st) => st
  | Stop _ => empty_tree
  end.

Definition search_shape : tree nat (bool * Z) := shape 10 (hp (tr search_tree)) (root (tr search_tree)).

Lemma search_tree_ok : rb_ok int_cmp search_tree search_shape.
Proof.
  split.
  - apply repb_sound. vm_compute. reflexivity.
  - split; [reflexivity|]. exists 3. vm_compute. tauto.
  - vm_compute. repeat constructor.
  - exact I.
  - intros x Hx. change (x < 10). apply (proj1 (Forall_forall (fun x => x < 10) _)) with (2 := Hx).
    decide_now.
Qed.

Lemma empty_tree_ok : rb_ok int_cmp empty_tree Leaf.
Proof.
  split; [by apply repb_sound|split; [done|by exists 0]|constructor|exact I|].
  intros x Hx. by apply not_elem_of_nil in Hx.
Qed.

Example rbtree_draw_search_tree :
  match rbtree_draw_to_term (fun k => k) (tr search_tree) with Ok (o, _) => o | Stop _ => [] end =
  [PRoot 77; PNewline;
   PLeft 69 77; PRight 77 82; PNewline;
   PLeft 67 69; PRight 69 76; PLeft 80 82; PRight 82 88; PNewline;
   PLeft 65 67; PLeft 72 76; PLeft 83 88; PNewline]%Z.
Proof. vm_compute. reflexivity. Qed.

Lemma rbtree_insert_correct_witness :
  rbtree_insert int_cmp true 70%Z search_tree = Stop Exited \/
  exists x st' t', rbtree_insert int_cmp true 70%Z search_tree = Ok (Some x, st') /\
    rb_ok int_cmp st' t' /\ elems t' = sput int_cmp 70%Z (elems search_shape) /\
    x ∈ locs t' /\ data <$> hp (tr st') !! x = Some 70%Z /\
    (forall b, b <> x -> data <$> hp (tr st') !! b = data <$> hp (tr search_tree) !! b) /\
    freed st' = match sget int_cmp 70%Z (elems search_shape) with
                | Some e => e :: freed search_tree
                | None => freed search_tree
                end.
Proof. apply (rbtree_insert_correct int_cmp true search_tree search_shape 70%Z search_tree_ok). Defined.

Lemma rbtree_search_correct_witness :
  exists x, rbtree_search int_cmp 80%Z (tr search_tree) = Ok (x, tr search_tree) /\
    rbtree_search_rounds int_cmp (2 * Nat.log2 (S (length (locs search_shape))) + 1) 80%Z
      (tr search_tree) = Ok (x, tr search_tree) /\
    match x with
    | Some a => a ∈ locs search_shape /\ exists n, hp (tr search_tree) !! a = Some n /\
                  int_cmp 80%Z (data n) = 0%Z /\ sget int_cmp 80%Z (elems search_shape) = Some (data n)
    | None => Forall (fun e => int_cmp 80%Z e <> 0%Z) (elems search_shape)
    end.
Proof. apply (rbtree_search_correct int_cmp search_tree search_shape 80%Z search_tree_ok). Defined.

Lemma rbtree_insert_all_walk_witness :
  rbtree_insert_all int_cmp true search_keys empty_tree = Stop Exited \/
  exists st' l, rbtree_insert_all int_cmp true search_keys empty_tree = Ok (tt, st') /\
    sorted int_cmp l /\ freed st' ++ l ≡ₚ search_keys /\
    forall ns, length l <= length ns -> (Z.of_nat (length ns) < 2 ^ 64)%Z ->
      rbtree_inorder_walk ns (tr st') =
      Ok ((Some <$> l) ++ drop (length l) ns, Z.of_nat (length l), tr st').
Proof.
  apply (rbtree_insert_all_walk int_cmp true empty_tree search_keys empty_tree_ok);
    reflexivity.
Defined.

Lemma rbtree_draw_layers_witness :
  rbtree_draw_to_term (fun k => k) (tr search_tree) =
  match search_shape with
  | Leaf => Stop NullDeref
  | _ => Ok (layers (fun k => k) (height search_shape) [([], search_shape)], tr search_tree)
  end.
Proof.
  apply (rbtree_draw_layers int_cmp (fun k => k) search_tree search_shape search_tree_ok).
Defined.
