(* ===== verification/Graph.v ===== *)
(** The graph of src/algs/algorithms4th/graph.cpp and graph.h, with the callbacks
    that test_graph.cpp installs: vertices are the elements of an ordered tree
    ([TreeMap], implemented by the red-black tree), each a "bag" with growing arrays
    of neighbours and weights.

    Section [graph] is the code.  The heap of a graph holds its [graph_node]s (keys)
    and its [graph_bag]s; what the tree stores behind [void *] is a [bagref], the
    address of a bag together with the key of its node, which never changes. *)
From S2P Require Import Prelude NodePool OrdSpec.

(** * The code *)

(** A pointer to a bag, seen through [graph_node_cmp]: [None] is the bag
    [graph_search] makes on the stack. *)
Record bagref (bloc : Type) := mkRef { bag_at : option bloc; bag_key : Z }.
Arguments mkRef {bloc}.
Arguments bag_at {bloc}.
Arguments bag_key {bloc}.
#[export] Instance bagref_eq_dec {bloc} `{!EqDecision bloc} : EqDecision (bagref bloc).
Proof. solve_decision. Defined.

Definition graph_node_cmp {bloc} (a b : bagref bloc) : Z :=
  if (bag_key a <? bag_key b)%Z then -1 else if (bag_key a =? bag_key b)%Z then 0 else 1.

(** [1024 * 1024 * 8 / sizeof(graph_bag)] and [1024 * 1024 * 4 / sizeof(graph_node)]. *)
Definition BAG_N : Z := 1024 * 1024 * 8 / 40.
Definition NODE_N : Z := 1024 * 1024 * 4 / 4.

Section graph.
Context {nloc bloc : Type} `{Countable nloc} `{Countable bloc} {W : Type}.
Context {T NP BP : Type} `{TM : !TreeMap T (bagref bloc) graph_node_cmp}.
Context `{NN : !NodeAlloc NP nloc} `{NB : !NodeAlloc BP bloc}.

(** What the memory of a new bag holds in its field [i]: [graph_bag_new] does not set it. *)
Context (fresh_i : bloc -> nat).

(** The default argument [weight = 0]. *)
Context (w0 : W).

(** [struct graph_bag]; a slot of [v] or [w] never written is [None]. *)
Record graph_bag := mkBag {
  bnode : nloc;
  bv : list (option nloc);
  bw : option (list (option W));
  bi : Z;
  bI : Z
}.

Record graph := mkGraph {
  gtr : T;
  npool : NP;
  bpool : BP;
  gv : Z;
  ge : Z;
  direct : bool;
  weight : bool;
  dfs_marked : list bool;
  gnodes : gmap nloc Z;
  gbags : gmap bloc graph_bag
}.

Definition with_gtr (t : T) (g : graph) : graph :=
  mkGraph t (npool g) (bpool g) (gv g) (ge g) (direct g) (weight g) (dfs_marked g) (gnodes g) (gbags g).
Definition with_marked (m : list bool) (g : graph) : graph :=
  mkGraph (gtr g) (npool g) (bpool g) (gv g) (ge g) (direct g) (weight g) m (gnodes g) (gbags g).
Definition with_bags (bs : gmap bloc graph_bag) (g : graph) : graph :=
  mkGraph (gtr g) (npool g) (bpool g) (gv g) (ge g) (direct g) (weight g) (dfs_marked g) (gnodes g) bs.
Definition with_counts (v e : Z) (w : bool) (g : graph) : graph :=
  mkGraph (gtr g) (npool g) (bpool g) v e (direct g) w (dfs_marked g) (gnodes g) (gbags g).

Definition get_bag (b : bloc) : M graph graph_bag :=
  fun g => match gbags g !! b with Some gb => Ok (gb, g) | None => Stop Dangling end.
Definition update_bag (b : bloc) (f : graph_bag -> res graph_bag) : M graph unit :=
  fun g => match gbags g !! b with
           | Some gb =>
               match f gb with
               | Ok gb' => Ok (tt, with_bags (<[b := gb']> (gbags g)) g)
               | Stop f => Stop f
               end
           | None => Stop Dangling
           end.
(** [node->key] *)
Definition node_key (n : option nloc) : M graph Z :=
  fun g => match n with
           | None => Stop Uninit
           | Some n => match gnodes g !! n with Some k => Ok (k, g) | None => Stop Dangling end
           end.

Definition unless (b : bool) (m : M graph unit) : M graph unit := if b then mret tt else m.

(** ** The callbacks of test_graph.cpp *)
Definition graph_node_new (key : Z) : M graph nloc :=
  fun g => '(n, q) ← na_new (npool g);
    Ok (n, mkGraph (gtr g) q (bpool g) (gv g) (ge g) (direct g) (weight g) (dfs_marked g)
             (<[n := key]> (gnodes g)) (gbags g)).

(** [(size_t)log2((double)v)]; the conversion of [-inf] is undefined. *)
Definition log2_cast (v : Z) : res Z := if (v =? 0)%Z then Stop Overflow else Ok (Z.log2 v).

Definition graph_bag_new (n : nloc) (v : Z) (wt : bool) : M graph bloc :=
  fun g => '(b, q) ← na_new (bpool g);
    l ← log2_cast v;
    let I := if (l <? 8)%Z then 8%Z else l in
    let ws := if wt then Some (replicate (Z.to_nat I) None) else None in
    Ok (b, mkGraph (gtr g) (npool g) q (gv g) (ge g) (direct g) (weight g) (dfs_marked g)
             (gnodes g) (<[b := mkBag n (replicate (Z.to_nat I) None) ws (Z.of_nat (fresh_i b)) I]> (gbags g))).

(** A [realloc]ed array: the old slots, then slots never written. *)
Definition grown {A} (k : Z) (l : list (option A)) : list (option A) :=
  take (Z.to_nat k) l ++ replicate (Z.to_nat k - length l) None.

Definition graph_bag_realloc (gb : graph_bag) (wt : bool) : res graph_bag :=
  if (bi gb <? u64 (bI gb - 1))%Z then Ok gb
  else
    II ← log2_cast (bI gb);
    let I := u64 (bI gb + (if (II <? 8)%Z then 8 else II)) in
    let ws := if wt then Some (grown I (match bw gb with Some ws => ws | None => [] end))
              else bw gb in
    Ok (mkBag (bnode gb) (grown I (bv gb)) ws (bi gb) I).

(** ** graph.cpp *)
Definition graph_search (key : Z) : M graph (option bloc) :=
  fun g => match tm_search (mkRef None key) (gtr g) with
           | Ok (Some r) => Ok (bag_at r, g)
           | Ok None => Ok (None, g)
           | Stop f => Stop f
           end.

(** [gb->v[gb->i] = n; if(g.weight) gb->w[gb->i] = w; ++gb->i;] *)
Definition push_adj (n : nloc) (wt : bool) (w : W) (gb : graph_bag) : res graph_bag :=
  v' ← aset (bv gb) (bi gb) (Some n);
  w' ← (if wt then
          match bw gb with
          | None => Stop NullDeref
          | Some ws => ws' ← aset ws (bi gb) (Some w); Ok (Some ws')
          end
        else Ok (bw gb));
  Ok (mkBag (bnode gb) v' w' (u64 (bi gb + 1)) (bI gb)).

Definition graph_add_edge (v w : Z) (wgt : W) : M graph Z :=
  nodev ← graph_search v;
  nodew ← graph_search w;
  match nodev, nodew with
  | Some nodev, Some nodew =>
      wt ← gets weight;
      dir ← gets direct;
      update_bag nodev (fun gb => graph_bag_realloc gb wt);;
      unless dir (update_bag nodew (fun gb => graph_bag_realloc gb wt));;
      gw ← get_bag nodew;
      update_bag nodev (push_adj (bnode gw) wt wgt);;
      unless dir (gv ← get_bag nodev; update_bag nodew (push_adj (bnode gv) wt wgt));;
      mret 0%Z
  | _, _ => mret (-1)%Z
  end.

(** [rbtree_insert(g.tr, gb)? 0 : -1] *)
Definition insert_bag (r : bagref bloc) : M graph Z :=
  fun g => match tm_insert r (gtr g) with
           | Ok (ok, t) => Ok (if ok then 0%Z else (-1)%Z, with_gtr t g)
           | Stop f => Stop f
           end.

Definition graph_add_vertex (v : Z) : M graph Z :=
  gn ← graph_node_new v;
  n ← gets gv;
  wt ← gets weight;
  gb ← graph_bag_new gn n wt;
  insert_bag (mkRef (Some gb) v).

(** The array of neighbours and its length; the null pointer for no vertex. *)
Definition graph_adj (v : Z) : M graph (option (list (option nloc)) * Z) :=
  gb ← graph_search v;
  match gb with
  | None => mret (None, 0%Z)
  | Some b => gb ← get_bag b; mret (Some (bv gb), bi gb)
  end.

(** [graph_vertex]: the walk into the caller's array, then each bag replaced by its
    node. *)
Fixpoint bags_to_nodes (fuel i : nat) (n : Z) (vs : list (option (bagref bloc)))
    : M graph (list nloc) :=
  match fuel with
  | O => stop OutOfFuel
  | S fuel =>
      if (Z.of_nat i <? n)%Z then
        r ← lift (aget vs (Z.of_nat i));
        match r with
        | None => stop Uninit
        | Some r =>
            match bag_at r with
            | None => stop NullDeref
            | Some b => gb ← get_bag b; ns ← bags_to_nodes fuel (S i) n vs; mret (bnode gb :: ns)
            end
        end
      else mret []
  end.
Definition graph_vertex (vs : list (option (bagref bloc))) : M graph (list nloc) :=
  t ← gets gtr;
  r ← lift (tm_walk vs t);
  bags_to_nodes (S (Z.to_nat r.2)) 0 r.2 r.1.

(** ** Depth first search: what it prints *)
Fixpoint do_graph_simple_dfs (fuel : nat) (v : Z) : M graph (list Z) :=
  match fuel with
  | O => stop OutOfFuel
  | S fuel =>
      m ← gets dfs_marked;
      m' ← lift (aset m v true);
      modify (with_marked m');;
      '(adj, sz) ← graph_adj v;
      out ← (fix go (i todo : nat) : M graph (list Z) :=
               match todo with
               | O => mret []
               | S todo =>
                   match adj with
                   | None => stop NullDeref
                   | Some adj =>
                       a ← lift (aget adj (Z.of_nat i));
                       k ← node_key a;
                       m ← gets dfs_marked;
                       b ← lift (aget m k);
                       o1 ← (if (b : bool) then mret [] else do_graph_simple_dfs fuel k);
                       o2 ← go (S i) todo;
                       mret (o1 ++ o2)
                   end
               end) 0 (Z.to_nat sz);
      mret (v :: out)
  end.
Definition graph_simple_dfs (v : Z) : M graph (list Z) :=
  n ← gets gv;
  modify (with_marked (replicate (Z.to_nat n) false));;
  do_graph_simple_dfs (S (Z.to_nat n)) v.

(** ** Reading a graph *)

(** What [fscanf] finds in the file: a number in range, or something else. *)
Inductive token := TNum (z : Z) | TBad.

(** [fscanf(in, "%zu", ...)] and one [%d]: the value and the rest; a token that is
    not a number stays. *)
Definition scan1 (ts : list token) : option Z * list token :=
  match ts with TNum z :: ts => (Some z, ts) | _ => (None, ts) end.
(** [fscanf(in, "%d%d", &w, &x)]: [inl] is EOF, [inr] the values assigned. *)
Definition scan2 (ts : list token) : (unit + list Z) * list token :=
  match ts with
  | [] => (inl tt, [])
  | TNum a :: TNum b :: ts => (inr [a; b], ts)
  | TNum a :: ts => (inr [a], ts)
  | TBad :: _ => (inr [], ts)
  end.

(** The [size_t] of the loop becomes the [int] of [graph_add_vertex]. *)
Fixpoint add_vertices (i n : nat) : M graph bool :=
  match n with
  | O => mret true
  | S n =>
      r ← graph_add_vertex (i32 (Z.of_nat i));
      if decide (r = 0%Z) then add_vertices (S i) n else mret false
  end.

(** The loop over the edges, for [fuel] calls of [fscanf]. *)
Fixpoint load_edges (fuel : nat) (ts : list token) : M graph unit :=
  match fuel with
  | O => stop OutOfFuel
  | S fuel =>
      match scan2 ts with
      | (inl _, _) => mret tt
      | (inr [w; x], ts) => r ← graph_add_edge w x w0; load_edges fuel ts
      | (inr _, ts) => load_edges fuel ts
      end
  end.

Definition graph_init (fuel : nat) (ts : list token) : M graph Z :=
  match scan1 ts with
  | (None, _) => mret (-1)%Z
  | (Some v, ts) =>
      modify (fun g => with_counts v (ge g) (weight g) g);;
      match scan1 ts with
      | (None, _) => mret (-1)%Z
      | (Some e, ts) =>
          modify (fun g => with_counts (gv g) e (weight g) g);;
          ok ← add_vertices 0 (Z.to_nat v);
          if ok : bool then load_edges fuel ts;; mret 0%Z else mret (-1)%Z
      end
  end.

(** ** [dgraph_reverse_copy], into the empty containers of the new graph *)
Fixpoint reverse_edges (og : graph) (key : Z) (adj : list (option nloc)) (i todo : nat)
    : M graph unit :=
  match todo with
  | O => mret tt
  | S todo =>
      a ← lift (aget adj (Z.of_nat i));
      match node_key a og with
      | Ok (k, _) => r ← graph_add_edge k key w0; reverse_edges og key adj (S i) todo
      | Stop f => stop f
      end
  end.

Fixpoint reverse_vertices (og : graph) (vers : list nloc) : M graph unit :=
  match vers with
  | [] => mret tt
  | n :: vers =>
      match node_key (Some n) og with
      | Stop f => stop f
      | Ok (k, _) =>
          match graph_adj k og with
          | Stop f => stop f
          | Ok ((Some adj, sz), _) =>
              (if (sz =? 0)%Z then mret tt else reverse_edges og k adj 0 (Z.to_nat sz));;
              reverse_vertices og vers
          | Ok ((None, _), _) => reverse_vertices og vers
          end
      end
  end.

(** [None] is the zeroed graph it returns on failure. *)
Definition dgraph_reverse_copy (t0 : T) (np0 : NP) (bp0 : BP) (og : graph) : res (option graph) :=
  if negb (direct og) then Ok None
  else
    let g := mkGraph t0 np0 bp0 (gv og) (ge og) (direct og) (weight og) [] ∅ ∅ in
    match add_vertices 0 (Z.to_nat (gv og)) g with
    | Stop f => Stop f
    | Ok (false, _) => Ok None
    | Ok (true, g) =>
        match graph_vertex (replicate (Z.to_nat (gv g)) None) og with
        | Stop f => Stop f
        | Ok ([], _) => Ok None
        | Ok (vers, _) =>
            match reverse_vertices og vers g with Stop f => Stop f | Ok (_, g) => Ok (Some g) end
        end
    end.
End graph.

(** * The abstract graph *)
Section abstract.
Context {W : Type}.

(** Vertices with their neighbours in the order of the edges; weights, if any. *)
Abbreviation agraph := (gmap Z (list (Z * option W))).

Definition apush (a b : Z) (w : option W) (m : agraph) : agraph :=
  alter (fun adj => adj ++ [(b, w)]) a m.

Definition aadd_edge (dir : bool) (a b : Z) (w : option W) (m : agraph) : agraph :=
  match m !! a, m !! b with
  | Some _, Some _ => let m := apush a b w m in if dir then m else apush b a w m
  | _, _ => m
  end.

Definition closed (m : agraph) : Prop :=
  forall k adj kw, m !! k = Some adj -> kw ∈ adj -> is_Some (m !! kw.1).

Lemma apush_dom a b w m k : is_Some (apush a b w m !! k) <-> is_Some (m !! k).
Proof. unfold apush. by rewrite lookup_alter_is_Some. Qed.

Lemma aadd_edge_dom dir a b w m k : is_Some (aadd_edge dir a b w m !! k) <-> is_Some (m !! k).
Proof.
  unfold aadd_edge. destruct (m !! a), (m !! b); [|done..].
  destruct dir; by rewrite ?apush_dom.
Qed.

Lemma apush_closed a b w m : is_Some (m !! b) -> closed m -> closed (apush a b w m).
Proof.
  intros Hb Hc k adj kw E Hin. apply apush_dom. unfold apush in E.
  destruct (decide (a = k)) as [->|Hne].
  - rewrite lookup_alter_eq in E. destruct (m !! k) as [adj0|] eqn:E0; [|done].
    injection E as <-. apply elem_of_app in Hin as [Hin|Hin]; [by eapply Hc|].
    by apply list_elem_of_singleton in Hin as ->.
  - rewrite lookup_alter_ne in E by done. by eapply Hc.
Qed.

Lemma aadd_edge_closed dir a b w m : closed m -> closed (aadd_edge dir a b w m).
Proof.
  intros Hc. unfold aadd_edge. destruct (m !! a) eqn:Ea, (m !! b) eqn:Eb; [|done..].
  destruct dir; [by apply apush_closed; [rewrite Eb|]|].
  apply apush_closed; [by rewrite apush_dom, Ea|]. by apply apush_closed; [rewrite Eb|].
Qed.
End abstract.

(** * Refinement *)
#[export] Instance graph_node_cmp_order {bloc} : KeyOrder (@graph_node_cmp bloc).
Proof.
  unfold graph_node_cmp. split; intros *;
    repeat match goal with
    | |- context [(?a <? ?b)%Z] => destruct (Z.ltb_spec a b)
    | |- context [(?a =? ?b)%Z] => destruct (Z.eqb_spec a b)
    end; lia.
Qed.

Lemma graph_node_cmp_eq {bloc} (a b : bagref bloc) :
  graph_node_cmp a b = 0%Z <-> bag_key a = bag_key b.
Proof.
  unfold graph_node_cmp. destruct (Z.ltb_spec (bag_key a) (bag_key b)), (Z.eqb_spec (bag_key a) (bag_key b)); lia.
Qed.

Section refinement.
Context {nloc bloc : Type} `{Countable nloc} `{Countable bloc} {W : Type}.
Context {T NP BP : Type} `{TM : !TreeMap T (bagref bloc) graph_node_cmp}.
Context `{NN : !NodeAlloc NP nloc} `{NB : !NodeAlloc BP bloc}.
Context (fresh_i : bloc -> nat) (w0 : W).
Abbreviation graph := (@graph nloc bloc _ _ _ _ W T NP BP).
Abbreviation graph_bag := (@graph_bag nloc W).
Abbreviation agraph := (gmap Z (list (Z * option W))).
Implicit Types (g : graph) (gb : graph_bag) (m : agraph).

(** A bag whose counter began at [s] stands for a list of neighbours: they are in the array from
    [s] on, and [i] is where they end. *)
Record bag_rep (nodes : gmap nloc Z) (wt : bool) (s : nat) gb (adj : list (Z * option W)) : Prop := {
  br_i : bi gb = Z.of_nat (s + length adj);
  br_I : (8 <= bI gb)%Z /\ (bi gb <= Z.max (bI gb) (Z.of_nat s))%Z;
  br_len : bI gb = Z.of_nat (length (bv gb));
  br_v : Forall2 (fun s kw => exists n, s = Some n /\ nodes !! n = Some kw.1)
           (take (length adj) (drop s (bv gb))) adj;
  br_w : if wt then exists ws, bw gb = Some ws /\ bI gb = Z.of_nat (length ws) /\
                      take (length adj) (drop s ws) = adj.*2 /\ Forall (fun kw => is_Some kw.2) adj
         else bw gb = None /\ Forall (fun kw => kw.2 = None) adj
}.

(** The graph stands for the abstract graph [m], the tree holding the bags [l]. *)
Record refines g (l : list (bagref bloc)) m : Prop := {
  rf_tree : tm_ok (gtr g) l;
  rf_bags : forall r, r ∈ l -> exists b gb adj, bag_at r = Some b /\ gbags g !! b = Some gb /\
    gnodes g !! bnode gb = Some (bag_key r) /\ m !! bag_key r = Some adj /\
    bag_rep (gnodes g) (weight g) (fresh_i b) gb adj;
  rf_keys : forall k, is_Some (m !! k) -> exists r, r ∈ l /\ bag_key r = k;
  rf_inj : forall r1 r2, r1 ∈ l -> r2 ∈ l -> bag_at r1 = bag_at r2 -> r1 = r2;
  rf_npool : na_inv (npool g) /\ forall n, is_Some (gnodes g !! n) -> na_live (npool g) n;
  rf_bpool : na_inv (bpool g) /\ forall b, is_Some (gbags g !! b) -> na_live (bpool g) b
}.

(** ** Bags *)
Lemma bag_rep_mono nodes nodes' wt s gb adj :
  (forall n k, nodes !! n = Some k -> nodes' !! n = Some k) ->
  bag_rep nodes wt s gb adj -> bag_rep nodes' wt s gb adj.
Proof.
  intros Hn [Hi HI Hl Hv Hw]. split; try done.
  eapply Forall2_impl; [exact Hv|]. intros x kw (n & -> & E). exists n. auto.
Qed.

Lemma length_grown {A} k (l : list (option A)) :
  (Z.of_nat (length l) <= k)%Z -> length (grown k l) = Z.to_nat k.
Proof. intros Hk. unfold grown. rewrite length_app, length_replicate, length_take. lia. Qed.

Lemma take_grown {A} k n s (l : list (option A)) :
  n = 0 \/ s + n <= length l -> (Z.of_nat (length l) <= k)%Z -> take n (drop s (grown k l)) = take n (drop s l).
Proof.
  intros [->|Hn] Hk; [by rewrite !take_0|]. unfold grown. rewrite (take_ge l) by lia.
  rewrite drop_app_le by lia. by rewrite take_app_le by (rewrite length_drop; lia).
Qed.

(** [graph_bag_realloc] makes the arrays at most 64 longer; where the counter began at no more than 14,
    there is room for two more neighbours then. *)
Lemma realloc_run nodes wt s gb adj :
  bag_rep nodes wt s gb adj -> (bI gb + 64 <= 2 ^ 60)%Z ->
  exists gb', graph_bag_realloc gb wt = Ok gb' /\ bag_rep nodes wt s gb' adj /\
    (bI gb' <= bI gb + 64)%Z /\ (s <= 14 -> (bi gb' + 2 <= bI gb')%Z) /\ bnode gb' = bnode gb.
Proof.
  intros [Hi [H8 HI] Hl Hv Hw] Hs. unfold graph_bag_realloc.
  rewrite u64_small by lia. destruct (Z.ltb_spec (bi gb) (bI gb - 1)).
  { exists gb. split_and!; [done|by split|lia|lia|done]. }
  unfold log2_cast. rewrite (proj2 (Z.eqb_neq _ _)) by lia. rewrite bind_ok. cbv beta zeta.
  assert (Hlog : (0 <= Z.log2 (bI gb) < 60)%Z).
  { split; [apply Z.log2_nonneg|]. apply Z.log2_lt_pow2; lia. }
  set (d := if (Z.log2 (bI gb) <? 8)%Z then 8%Z else Z.log2 (bI gb)).
  assert (Hd : (8 <= d < 60)%Z) by (unfold d; destruct (Z.ltb_spec (Z.log2 (bI gb)) 8); lia).
  rewrite u64_small by lia. eexists. split; [done|]. split; [|cbn; split_and!; [lia|lia|done]].
  assert (Hbv : length adj = 0 \/ s + length adj <= length (bv gb)) by lia.
  split; cbn; [done|lia|rewrite length_grown by lia; lia|by rewrite take_grown by lia|].
  destruct wt; [|done]. destruct Hw as (ws & -> & Hwl & Hwt & Hf).
  eexists. split; [done|]. rewrite length_grown, take_grown by lia. split_and!; [lia|done|done].
Qed.

Lemma take_insert_S {A} (l : list A) s n x :
  s + n < length l -> take (S n) (drop s (<[s + n := x]> l)) = take n (drop s l) ++ [x].
Proof.
  intros Hn. rewrite drop_insert_ge by lia. replace (s + n - s) with n by lia.
  rewrite insert_take_drop by (rewrite length_drop; lia).
  rewrite take_app_ge by (rewrite length_take, length_drop; lia).
  rewrite length_take, length_drop. replace (S n - n `min` (length l - s)) with 1 by lia. done.
Qed.

Lemma push_run nodes wt s gb adj n k w :
  bag_rep nodes wt s gb adj -> (bi gb < bI gb <= 2 ^ 60)%Z -> nodes !! n = Some k ->
  exists gb', push_adj n wt w gb = Ok gb' /\
    bag_rep nodes wt s gb' (adj ++ [(k, if wt then Some w else None)]) /\
    bI gb' = bI gb /\ bi gb' = (bi gb + 1)%Z /\ bnode gb' = bnode gb.
Proof.
  intros [Hi [H8 HI] Hl Hv Hw] Hr Hn. unfold push_adj.
  rewrite Hi, aset_nat by lia. rewrite bind_ok. cbv beta.
  assert (Hw' : exists w', (if wt then
        match bw gb with
        | None => Stop NullDeref
        | Some ws => ws' ← aset ws (Z.of_nat (s + length adj)) (Some w); Ok (Some ws')
        end else Ok (bw gb)) = Ok w' /\
      if wt then exists ws, w' = Some ws /\ bI gb = Z.of_nat (length ws) /\
              take (length (adj ++ [(k, Some w)])) (drop s ws) = (adj ++ [(k, Some w)]).*2 /\
              Forall (fun kw => is_Some kw.2) (adj ++ [(k, Some w)])
      else w' = None /\ Forall (fun kw => kw.2 = None) (adj ++ [(k, @None W)])).
  { destruct wt.
    - destruct Hw as (ws & -> & Hwl & Hwt & Hf). rewrite aset_nat by lia. rewrite bind_ok.
      eexists. split; [done|]. eexists. split; [done|]. rewrite length_insert.
      split_and!; [done| |].
      + rewrite length_app. cbn [length]. rewrite Nat.add_1_r, take_insert_S by lia.
        by rewrite Hwt, fmap_app.
      + apply Forall_app. split; [done|]. by repeat constructor.
    - destruct Hw as [-> Hf]. eexists. split; [done|]. split; [done|].
      apply Forall_app. split; [done|]. by repeat constructor. }
  destruct Hw' as (w' & -> & Hw'). rewrite bind_ok. rewrite u64_small by lia.
  eexists. split; [done|]. split; [|cbn; split_and!; lia || done].
  split; cbn; rewrite ?length_insert, ?length_app; cbn [length]; try lia.
  - rewrite Nat.add_1_r, take_insert_S by lia. apply Forall2_app; [done|].
    constructor; [by exists n|constructor].
  - rewrite length_app in Hw'. cbn [length] in Hw'. by destruct wt.
Qed.

Lemma push_out nodes wt s gb adj n w :
  bag_rep nodes wt s gb adj -> (bI gb <= bi gb)%Z -> push_adj n wt w gb = Stop OutOfBounds.
Proof.
  intros [Hi [H8 HI] Hl Hv Hw] Hr. unfold push_adj, aset.
  rewrite (proj2 (Z.ltb_ge _ _)) by lia. by rewrite (proj2 (Z.leb_le _ _)) by lia.
Qed.

(** ** Search *)
Lemma search_run g l m k :
  refines g l m ->
  match m !! k with
  | Some adj =>
      exists b gb, graph_search k g = Ok (Some b, g) /\ mkRef (Some b) k ∈ l /\
        gbags g !! b = Some gb /\ gnodes g !! bnode gb = Some k /\
        bag_rep (gnodes g) (weight g) (fresh_i b) gb adj
  | None => graph_search k g = Ok (None, g)
  end.
Proof.
  intros Hrf. unfold graph_search.
  rewrite (tm_search_ok _ _ (mkRef None k) (rf_tree _ _ _ Hrf)).
  destruct (sget graph_node_cmp (mkRef None k) l) as [r|] eqn:E.
  - pose proof (sget_eq _ _ _ _ E) as Ek. apply graph_node_cmp_eq in Ek. cbn in Ek.
    assert (Hr : r ∈ l).
    { unfold sget in E. apply head_Some_elem_of in E. by apply list_elem_of_filter in E as [_ ?]. }
    destruct (rf_bags _ _ _ Hrf r Hr) as (b & gb & adj & Hb & Hgb & Hn & Hm & Hbr).
    destruct r as [rb rk]. cbn in *. subst rk rb. rewrite Hm. by exists b, gb.
  - apply sget_None_inv in E. destruct (m !! k) as [adj|] eqn:Em; [|done].
    destruct (rf_keys _ _ _ Hrf k ltac:(by eexists)) as (r & Hr & Hk).
    rewrite Forall_forall in E. exfalso. apply (E r Hr). by apply graph_node_cmp_eq.
Qed.

(** ** Replacing one bag *)
Lemma refines_update g l m b k gb gb' adj' :
  refines g l m -> mkRef (Some b) k ∈ l -> gbags g !! b = Some gb ->
  bnode gb' = bnode gb -> bag_rep (gnodes g) (weight g) (fresh_i b) gb' adj' ->
  refines (with_bags (<[b := gb']> (gbags g)) g) l (<[k := adj']> m).
Proof.
  intros Hrf Hr Hgb Hbn Hbr'. split; cbn; [by eapply rf_tree| | |by eapply rf_inj|by eapply rf_npool|].
  - intros r Hrl. destruct (rf_bags _ _ _ Hrf r Hrl) as (b0 & gb0 & adj0 & Hb & Hgb0 & Hn & Hm & Hbr).
    destruct (decide (b0 = b)) as [->|Hne].
    + assert (r = mkRef (Some b) k) as -> by (by eapply rf_inj).
      exists b, gb', adj'. cbn. rewrite !lookup_insert_eq.
      split_and!; [done|done| |done|done]. rewrite Hbn. cbn in Hn. congruence.
    + exists b0, gb0, adj0. rewrite lookup_insert_ne by done. split_and!; try done.
      rewrite lookup_insert_ne; [done|]. intros Hk.
      (* keys are unique in a sorted list *)
      destruct (rf_bags _ _ _ Hrf _ Hr) as (b1 & gb1 & adj1 & Hb1 & _).
      assert (Hrr : r = mkRef (Some b) k); [clear Hb|rewrite Hrr in Hb; cbn in Hb; congruence].
      pose proof (tm_ok_sorted _ _ (rf_tree _ _ _ Hrf)) as Hs. clear -Hs Hrl Hr Hk.
      induction Hs as [|x l Hs IH Hx]; [by apply not_elem_of_nil in Hr|].
      rewrite Forall_forall in Hx.
      apply elem_of_cons in Hrl as [->|Hrl], Hr as [<-|Hr]; [done|..|by apply IH].
      * apply Hx in Hr. unfold graph_node_cmp in Hr. cbn in Hr. rewrite Hk, Z.ltb_irrefl, Z.eqb_refl in Hr. done.
      * apply Hx in Hrl. unfold graph_node_cmp in Hrl. cbn in Hrl. rewrite Hk, Z.ltb_irrefl, Z.eqb_refl in Hrl. done.
  - intros k0 [adj0 Hk0]. destruct (decide (k0 = k)) as [->|Hne].
    + by exists (mkRef (Some b) k).
    + rewrite lookup_insert_ne in Hk0 by done. eapply rf_keys; [exact Hrf|by eexists].
  - destruct (rf_bpool _ _ _ Hrf) as [HI HL]. split; [done|]. intros b0 Hb0.
    destruct (decide (b0 = b)) as [->|Hne]; [by apply HL; eexists|].
    rewrite lookup_insert_ne in Hb0 by done. by apply HL.
Qed.

Lemma bind_update_bag {B} g b gb gb' (f : graph_bag -> res graph_bag) (k : unit -> M graph B) :
  gbags g !! b = Some gb -> f gb = Ok gb' ->
  (update_bag b f ≫= k) g = k tt (with_bags (<[b := gb']> (gbags g)) g).
Proof. intros E1 E2. apply M_bind_ok. unfold update_bag. by rewrite E1, E2. Qed.

Lemma bind_get_bag {B} g b gb (k : graph_bag -> M graph B) :
  gbags g !! b = Some gb -> (get_bag b ≫= k) g = k gb g.
Proof. intros E. apply M_bind_ok. unfold get_bag. by rewrite E. Qed.

Lemma insert_same (m : agraph) k adj : m !! k = Some adj -> <[k := adj]> m = m.
Proof. apply insert_id. Qed.

(** What stays when bags are replaced. *)
Definition same_frame g g' : Prop :=
  gv g' = gv g /\ ge g' = ge g /\ direct g' = direct g /\ weight g' = weight g /\
  dfs_marked g' = dfs_marked g /\ gnodes g' = gnodes g.

(** ** Adding an edge *)

(** The arrays can still be made longer [n] times. *)
Definition roomy (n : nat) g : Prop :=
  forall b gb, gbags g !! b = Some gb -> (bI gb + 64 * Z.of_nat n <= 2 ^ 60)%Z.

Lemma roomy_le n n' g : n' <= n -> roomy n g -> roomy n' g.
Proof. intros Hn Hg b gb Hb. specialize (Hg b gb Hb). lia. Qed.

(** There is room for [s] more neighbours in the bag [b], if its counter began at no more than 14. *)
Definition room g (b : bloc) (s : Z) : Prop :=
  fresh_i b <= 14 -> forall gb, gbags g !! b = Some gb -> (bi gb + s <= bI gb)%Z.

Lemma same_frame_refl g : same_frame g g.
Proof. by split_and!. Qed.

Lemma same_frame_trans g1 g2 g3 : same_frame g1 g2 -> same_frame g2 g3 -> same_frame g1 g3.
Proof.
  intros (A1 & A2 & A3 & A4 & A5 & A6) (B1 & B2 & B3 & B4 & B5 & B6).
  split_and!; congruence.
Qed.

(** Something is written outside an array, for a counter began too far behind. *)
Definition strays {A} (r : res A) : Prop := r = Stop OutOfBounds /\ exists b, 14 < fresh_i b.

Lemma realloc_run_step {B} g l m b k (K : unit -> M graph B) :
  refines g l m -> roomy 1 g -> mkRef (Some b) k ∈ l ->
  exists g', (update_bag b (fun gb => graph_bag_realloc gb (weight g)) ≫= K) g = K tt g' /\
    refines g' l m /\ same_frame g g' /\ (forall n, roomy (S n) g -> roomy n g') /\ room g' b 2 /\
    forall b', room g b' 2 -> room g' b' 2.
Proof.
  intros Hrf Hs Hr.
  destruct (rf_bags _ _ _ Hrf _ Hr) as (b0 & gb & adj & [= <-] & Hgb & Hn & Hm & Hbr). cbn in Hm.
  destruct (realloc_run _ _ _ _ _ Hbr ltac:(specialize (Hs b gb Hgb); lia)) as (gb' & E & Hbr' & HI & Hroom & Hbn).
  eexists. rewrite (bind_update_bag g b gb gb') by done. split; [done|].
  split_and!; [rewrite <- (insert_same m k adj) by done; by eapply refines_update|by split_and!| | |].
  - intros n Hn' b0 gb0 Hgb0. cbn in Hgb0. destruct (decide (b0 = b)) as [->|Hne].
    + rewrite lookup_insert_eq in Hgb0. injection Hgb0 as <-. specialize (Hn' b gb Hgb). lia.
    + rewrite lookup_insert_ne in Hgb0 by done. specialize (Hn' b0 gb0 Hgb0). lia.
  - intros Hb gb0 Hgb0. cbn in Hgb0. rewrite lookup_insert_eq in Hgb0. injection Hgb0 as <-. by apply Hroom.
  - intros b' Hb' Hf gb0 Hgb0. cbn in Hgb0. destruct (decide (b' = b)) as [->|Hne].
    + rewrite lookup_insert_eq in Hgb0. injection Hgb0 as <-. by apply Hroom.
    + rewrite lookup_insert_ne in Hgb0 by done. by apply Hb'.
Qed.

Lemma push_run_step {B} g l m b k n k2 w s (K : unit -> M graph B) :
  refines g l m -> roomy 0 g -> mkRef (Some b) k ∈ l -> gnodes g !! n = Some k2 ->
  (0 <= s)%Z -> room g b (s + 1) ->
  strays ((update_bag b (push_adj n (weight g) w) ≫= K) g) \/
  exists g', (update_bag b (push_adj n (weight g) w) ≫= K) g = K tt g' /\
    refines g' l (apush k k2 (if weight g then Some w else None) m) /\ same_frame g g' /\
    (forall n, roomy n g -> roomy n g') /\ room g' b s /\ forall b', b' <> b -> room g b' 2 -> room g' b' 2.
Proof.
  intros Hrf Hs Hr Hn2 Hs0 Hroom.
  destruct (rf_bags _ _ _ Hrf _ Hr) as (b0 & gb & adj & [= <-] & Hgb & Hn & Hm & Hbr). cbn in Hn, Hm.
  specialize (Hs b gb Hgb). destruct (Z.lt_ge_cases (bi gb) (bI gb)) as [Hlt|Hge].
  2:{ left. split.
      - unfold mbind, M_bind, update_bag. rewrite Hgb. by rewrite (push_out _ _ _ _ _ n w Hbr Hge).
      - exists b. destruct (Nat.lt_ge_cases 14 (fresh_i b)) as [|Hle]; [done|]. specialize (Hroom Hle gb Hgb). lia. }
  right. destruct (push_run _ _ _ _ _ n k2 w Hbr ltac:(lia) Hn2) as (gb' & E & Hbr' & HI & Hi & Hbn).
  eexists. rewrite (bind_update_bag g b gb gb') by done. split; [done|].
  split_and!; [|by split_and!| | |].
  - replace (apush _ _ _ _) with (<[k := adj ++ [(k2, if weight g then Some w else None)]]> m).
    + by eapply refines_update.
    + unfold apush. apply map_eq. intros j. destruct (decide (j = k)) as [->|Hne].
      * by rewrite lookup_insert_eq, lookup_alter_eq, Hm.
      * by rewrite lookup_insert_ne, lookup_alter_ne.
  - intros n0 Hn0 b0 gb0 Hgb0. cbn in Hgb0. destruct (decide (b0 = b)) as [->|Hne].
    + rewrite lookup_insert_eq in Hgb0. injection Hgb0 as <-. specialize (Hn0 b gb Hgb). lia.
    + rewrite lookup_insert_ne in Hgb0 by done. by apply Hn0 in Hgb0.
  - intros Hf gb0 Hgb0. cbn in Hgb0. rewrite lookup_insert_eq in Hgb0. injection Hgb0 as <-.
    specialize (Hroom Hf gb Hgb). lia.
  - intros b' Hne Hb' Hf gb0 Hgb0. cbn in Hgb0. rewrite lookup_insert_ne in Hgb0 by done.
    by apply Hb'.
Qed.

Lemma graph_add_edge_run g l m a b w :
  refines g l m -> roomy 2 g ->
  strays (graph_add_edge a b w g) \/
  exists g', graph_add_edge a b w g =
      Ok (if bool_decide (is_Some (m !! a) /\ is_Some (m !! b)) then 0%Z else (-1)%Z, g') /\
    refines g' l (aadd_edge (direct g) a b (if weight g then Some w else None) m) /\
    same_frame g g' /\ forall n, roomy (2 + n) g -> roomy n g'.
Proof.
  intros Hrf Hs. unfold graph_add_edge, aadd_edge.
  assert (Hkeep : forall n, roomy (2 + n) g -> roomy n g) by (intros n; apply roomy_le; lia).
  pose proof (search_run g l m a Hrf) as Ha. pose proof (search_run g l m b Hrf) as Hb.
  destruct (m !! a) as [adja|] eqn:Ema.
  2:{ right. rewrite (M_bind_ok _ _ _ _ _ Ha). exists g.
      rewrite bool_decide_false by (intros [[? ?] _]; done).
      destruct (m !! b); [destruct Hb as (bb & gbb & Eb & _)|rename Hb into Eb];
        rewrite (M_bind_ok _ _ _ _ _ Eb); by split_and!. }
  destruct Ha as (ba & gba & Ea & Hra & _ & _ & _). rewrite (M_bind_ok _ _ _ _ _ Ea).
  destruct (m !! b) as [adjb|] eqn:Emb.
  2:{ right. rewrite (M_bind_ok _ _ _ _ _ Hb). exists g.
      rewrite bool_decide_false by (intros [_ [? ?]]; done). by split_and!. }
  destruct Hb as (bb & gbb & Eb & Hrb & _ & _ & _). rewrite (M_bind_ok _ _ _ _ _ Eb).
  rewrite bool_decide_true by (split; by eexists). rewrite !bind_gets.
  match goal with |- context [(update_bag ba _ ≫= ?K) g] =>
    destruct (realloc_run_step g l m ba a K Hrf ltac:(by eapply roomy_le; [|exact Hs]; lia) Hra)
      as (g1 & E1 & Hrf1 & Hf1 & Hy1 & Hroom1 & _)
  end.
  rewrite E1. clear E1. assert (Hw1 : weight g1 = weight g) by apply Hf1. rewrite <- Hw1.
  destruct (direct g) eqn:Hdir; cbn [unless].
  - (* directed *)
    rewrite bind_ret.
    destruct (rf_bags _ _ _ Hrf1 _ Hrb) as (b0 & gb1 & adj1 & [= <-] & Hgb1 & Hn1 & _).
    rewrite (bind_get_bag _ _ _ _ Hgb1).
    match goal with |- context [(update_bag ba (push_adj (bnode gb1) _ w) ≫= ?K) g1] =>
      destruct (push_run_step g1 l m ba a (bnode gb1) b w 1 K Hrf1
          ltac:(apply Hy1; by eapply roomy_le; [|exact Hs]; lia) Hra Hn1 ltac:(lia) Hroom1)
        as [Hst|(g2 & E2 & Hrf2 & Hf2 & Hy2 & _)]; [by left|right]
    end.
    rewrite E2, bind_ret. exists g2. split_and!; [done|done|by eapply same_frame_trans|].
    intros n Hn. apply Hy2, Hy1. by eapply roomy_le; [|exact Hn]; lia.
  - (* undirected *)
    match goal with |- context [(update_bag bb _ ≫= ?K) g1] =>
      destruct (realloc_run_step g1 l m bb b K Hrf1 (Hy1 1 Hs) Hrb) as (g2 & E2 & Hrf2 & Hf2 & Hy2 & Hroom2 & Hkeep2)
    end.
    rewrite E2. clear E2. specialize (Hkeep2 ba Hroom1).
    assert (Hw2 : weight g2 = weight g1) by apply Hf2. rewrite <- Hw2.
    destruct (rf_bags _ _ _ Hrf2 _ Hrb) as (b0 & gb2 & adj2 & [= <-] & Hgb2 & Hn2 & _).
    rewrite (bind_get_bag _ _ _ _ Hgb2).
    match goal with |- context [(update_bag ba (push_adj (bnode gb2) _ w) ≫= ?K) g2] =>
      destruct (push_run_step g2 l m ba a (bnode gb2) b w 1 K Hrf2 (Hy2 0 (Hy1 1 Hs)) Hra Hn2 ltac:(lia) Hkeep2)
        as [Hst|(g3 & E3 & Hrf3 & Hf3 & Hy3 & Hroom3 & Hkeep3)]; [by left|]
    end.
    rewrite E3. clear E3. cbn [unless]. rewrite bind_assoc.
    destruct (rf_bags _ _ _ Hrf3 _ Hra) as (b0 & gb3 & adj3 & [= <-] & Hgb3 & Hn3 & _).
    rewrite (bind_get_bag _ _ _ _ Hgb3).
    assert (Hw3 : weight g3 = weight g2) by apply Hf3. rewrite <- Hw3.
    assert (Hroomb : room g3 bb (0 + 1)).
    { destruct (decide (bb = ba)) as [->|Hne]; [exact Hroom3|].
      intros Hf gb Hgb. specialize (Hkeep3 bb Hne Hroom2 Hf gb Hgb). lia. }
    match goal with |- context [(update_bag bb (push_adj (bnode gb3) _ w) ≫= ?K) g3] =>
      destruct (push_run_step g3 l _ bb b (bnode gb3) a w 0 K Hrf3 (Hy3 0 (Hy2 0 (Hy1 1 Hs))) Hrb Hn3 ltac:(lia) Hroomb)
        as [Hst|(g4 & E4 & Hrf4 & Hf4 & Hy4 & _)]; [by left|right]
    end.
    rewrite E4. exists g4. rewrite Hw3 in Hrf4 |- *. split_and!; [done|done| |].
    + by eapply same_frame_trans; [eapply same_frame_trans; [eapply same_frame_trans|]|].
    + intros n Hn. by apply Hy4, Hy3, Hy2, Hy1.
Qed.

(** ** Adding a vertex *)
Lemma bag_rep_new nodes wt s n I :
  (8 <= I <= 64)%Z ->
  bag_rep nodes wt s
    (mkBag n (replicate (Z.to_nat I) None)
       (if wt then Some (replicate (Z.to_nat I) None) else None) (Z.of_nat s) I) [].
Proof.
  intros HI. split; cbn; [lia|lia|rewrite length_replicate; lia|by rewrite take_0|].
  destruct wt; [|by split]. eexists. split; [done|]. rewrite length_replicate, take_0.
  split_and!; [lia|done|constructor].
Qed.

Lemma graph_add_vertex_run g l m k :
  refines g l m -> (0 < gv g < 2 ^ 64)%Z ->
  graph_add_vertex fresh_i k g = Stop Exited \/
  exists g', graph_add_vertex fresh_i k g = Ok (0%Z, g') /\
    (exists l', refines g' l' (<[k := []]> m)) /\ (forall n, roomy n g -> (64 + 64 * Z.of_nat n <= 2 ^ 60)%Z -> roomy n g') /\
    gv g' = gv g /\ ge g' = ge g /\ direct g' = direct g /\ weight g' = weight g.
Proof.
  intros Hrf Hv. unfold graph_add_vertex.
  destruct (rf_npool _ _ _ Hrf) as [HnI HnL]. destruct (rf_bpool _ _ _ Hrf) as [HbI HbL].
  destruct (na_new_progress (npool g) HnI) as [E|(n & q & En)].
  { left. unfold mbind at 1, M_bind at 1, graph_node_new. by rewrite E. }
  destruct (na_new_spec _ _ _ HnI En) as (HnI' & Hnn & Hnl).
  rewrite (M_bind_ok (graph_node_new k) _ g n _
    ltac:(unfold graph_node_new; rewrite En; reflexivity)).
  rewrite !bind_gets. cbn [gv weight].
  destruct (na_new_progress (bpool g) HbI) as [E|(b & q' & Eb)].
  { left. unfold mbind at 1, M_bind at 1, graph_bag_new. cbn [bpool]. by rewrite E. }
  destruct (na_new_spec _ _ _ HbI Eb) as (HbI' & Hbn & Hbl).
  set (I := if (Z.log2 (gv g) <? 8)%Z then 8%Z else Z.log2 (gv g)).
  assert (HI : (8 <= I <= 64)%Z).
  { unfold I. assert (Z.log2 (gv g) < 64)%Z by (apply Z.log2_lt_pow2; lia).
    destruct (Z.ltb_spec (Z.log2 (gv g)) 8); lia. }
  set (gb := mkBag n (replicate (Z.to_nat I) None)
               (if weight g then Some (replicate (Z.to_nat I) None) else None) (Z.of_nat (fresh_i b)) I : graph_bag).
  set (g1 := mkGraph (gtr g) q q' (gv g) (ge g) (direct g) (weight g) (dfs_marked g)
               (<[n := k]> (gnodes g)) (<[b := gb]> (gbags g)) : graph).
  erewrite (M_bind_ok (graph_bag_new fresh_i n (gv g) (weight g)) _ _ b g1).
  2:{ unfold graph_bag_new. cbn [bpool]. rewrite Eb, bind_ok. unfold log2_cast.
      rewrite (proj2 (Z.eqb_neq _ _)) by lia. rewrite bind_ok. done. }
  unfold insert_bag. cbn [gtr g1].
  destruct (tm_insert_ok _ _ (mkRef (Some b) k) (rf_tree _ _ _ Hrf)) as [->|(t' & -> & Ht')]; [by left|].
  right. eexists. split; [done|]. split; [|split; [|done]].
  2:{ intros n0 Hn0 Hle b0 gb0 Hgb0. cbn in Hgb0. destruct (decide (b0 = b)) as [->|Hne].
      - rewrite lookup_insert_eq in Hgb0. injection Hgb0 as <-. cbn. lia.
      - rewrite lookup_insert_ne in Hgb0 by done. by apply Hn0 in Hgb0. }
  pose proof (tm_ok_sorted _ _ (rf_tree _ _ _ Hrf)) as Hsort.
  exists (sput graph_node_cmp (mkRef (Some b) k) l).
  assert (Hold : forall r, r ∈ l -> bag_at r <> Some b).
  { intros r Hr E. destruct (rf_bags _ _ _ Hrf r Hr) as (b0 & gb0 & _ & E0 & Hgb0 & _).
    apply Hbn, HbL. rewrite E in E0. injection E0 as <-. by eexists. }
  assert (Hmono : forall n0 k0, gnodes g !! n0 = Some k0 -> <[n := k]> (gnodes g) !! n0 = Some k0).
  { intros n0 k0 E. rewrite lookup_insert_ne; [done|]. intros ->. apply Hnn, HnL. by eexists. }
  pose proof (fun r => elem_of_sput graph_node_cmp (mkRef (Some b) k) l r Hsort) as Hel.
  split; cbn.
  - done.
  - intros r Hr. apply Hel in Hr as [->|[Hr Hc]].
    + exists b, gb, []. cbn. rewrite !lookup_insert_eq. split_and!; try done. by apply bag_rep_new.
    + destruct (rf_bags _ _ _ Hrf r Hr) as (b0 & gb0 & adj0 & Hb0 & Hgb0 & Hn0 & Hm0 & Hbr0).
      exists b0, gb0, adj0. split_and!; [done| |by apply Hmono| |by eapply bag_rep_mono].
      * rewrite lookup_insert_ne; [done|]. intros ->. by apply (Hold r Hr).
      * rewrite lookup_insert_ne; [done|]. intros Hk. apply Hc. by apply graph_node_cmp_eq.
  - intros j Hj. destruct (decide (j = k)) as [->|Hne].
    + exists (mkRef (Some b) k). split; [|done]. apply Hel. by left.
    + rewrite lookup_insert_ne in Hj by done. destruct (rf_keys _ _ _ Hrf j Hj) as (r & Hr & <-).
      exists r. split; [|done]. apply Hel. right. split; [done|].
      intros E. apply graph_node_cmp_eq in E. done.
  - intros r1 r2 Hr1 Hr2 E. apply Hel in Hr1 as [->|[Hr1 _]]; apply Hel in Hr2 as [->|[Hr2 _]].
    + done.
    + cbn in E. by destruct (Hold r2 Hr2).
    + cbn in E. by destruct (Hold r1 Hr1).
    + by eapply rf_inj.
  - split; [done|]. intros n0 Hn0. apply Hnl. destruct (decide (n0 = n)) as [->|Hne]; [by left|right].
    rewrite lookup_insert_ne in Hn0 by done. by apply HnL.
  - split; [done|]. intros b0 Hb0. apply Hbl. destruct (decide (b0 = b)) as [->|Hne]; [by left|right].
    rewrite lookup_insert_ne in Hb0 by done. by apply HbL.
Qed.

(** The vertices [i, ..., i + n - 1] without edges. *)
Fixpoint avertices (i n : nat) m : agraph :=
  match n with O => m | S n => avertices (S i) n (<[Z.of_nat i := []]> m) end.

Lemma add_vertices_run g l m i n :
  refines g l m -> (0 < gv g < 2 ^ 64)%Z \/ n = 0 -> (Z.of_nat (i + n) <= 2 ^ 31)%Z ->
  add_vertices fresh_i i n g = Stop Exited \/
  exists g' l', add_vertices fresh_i i n g = Ok (true, g') /\ refines g' l' (avertices i n m) /\
    (forall n, roomy n g -> (64 + 64 * Z.of_nat n <= 2 ^ 60)%Z -> roomy n g') /\
    gv g' = gv g /\ ge g' = ge g /\ direct g' = direct g /\ weight g' = weight g.
Proof.
  revert g l m i. induction n as [|n IH]; intros g l m i Hrf Hv Hi; cbn [add_vertices avertices].
  { right. by exists g, l. }
  destruct Hv as [Hv|]; [|done]. rewrite i32_small by lia.
  destruct (graph_add_vertex_run g l m (Z.of_nat i) Hrf Hv)
    as [E|(g1 & E & (l1 & Hrf1) & Hy1 & A1 & A2 & A3 & A4)].
  { left. unfold mbind, M_bind. by rewrite E. }
  rewrite (M_bind_ok _ _ _ _ _ E). rewrite decide_True by done. rewrite <- A1 in Hv.
  destruct (IH g1 l1 _ (S i) Hrf1 (or_introl Hv) ltac:(lia)) as [->|(g' & l' & -> & Hrf' & Hy' & B1 & B2 & B3 & B4)]; [by left|].
  right. exists g', l'. split_and!; try done; try congruence. intros j Hj Hle. apply Hy'; [by apply Hy1|done].
Qed.

(** The edges of a list of tokens, in order. *)
Fixpoint aload (dir wt : bool) (ts : list token) m : agraph :=
  match ts with
  | TNum a :: TNum b :: ts => aload dir wt ts (aadd_edge dir a b (if wt then Some w0 else None) m)
  | _ => m
  end.

Definition all_nums (ts : list token) : Prop := Forall (fun t => t <> TBad) ts.

Lemma load_edges_run fuel ts g l m :
  refines g l m -> all_nums ts -> roomy (2 * length ts) g -> length ts < fuel ->
  strays (load_edges w0 fuel ts g) \/
  exists g', load_edges w0 fuel ts g = Ok (tt, g') /\
    refines g' l (aload (direct g) (weight g) ts m) /\ same_frame g g'.
Proof.
  revert ts g m. induction fuel as [|fuel IH]; intros ts g m Hrf Hts Hs Hf; [lia|].
  destruct ts as [|[a|] ts]; cbn [load_edges scan2].
  - right. exists g. split_and!; try done.
  - apply Forall_cons in Hts as [_ Hts]. destruct ts as [|[b|] ts].
    + destruct fuel as [|fuel]; [cbn in Hf; lia|]. right. exists g. by split_and!.
    + apply Forall_cons in Hts as [_ Hts]. cbn [length] in Hs, Hf.
      destruct (graph_add_edge_run g l m a b w0 Hrf) as [[E Hst]|(g1 & E & Hrf1 & Hf1 & Hy1)].
      { eapply roomy_le; [|exact Hs]. lia. }
      { left. split; [|done]. by apply M_bind_stop. }
      rewrite (M_bind_ok _ _ _ _ _ E).
      destruct (IH ts g1 _ Hrf1 Hts) as [Hst|(g' & E' & Hrf' & Hf')].
      * apply Hy1. eapply roomy_le; [|exact Hs]. lia.
      * lia.
      * by left.
      * right. exists g'. split; [done|]. split; [|by eapply same_frame_trans].
        destruct Hf1 as (_ & _ & Hd & Hw & _). by rewrite Hd, Hw in Hrf'.
    + by apply Forall_cons in Hts as [? _].
  - by apply Forall_cons in Hts as [? _].
Qed.

(** The neighbours of [k] a list of tokens describes, in the order of the file:
    edges with an unknown endpoint are skipped. *)
Fixpoint neighbours (dir : bool) (v k : Z) (ts : list token) : list Z :=
  match ts with
  | TNum a :: TNum b :: ts =>
      (if (0 <=? a)%Z && (a <? v)%Z && ((0 <=? b)%Z && (b <? v)%Z) then
         (if (a =? k)%Z then [b] else []) ++ (if negb dir && (b =? k)%Z then [a] else [])
       else []) ++ neighbours dir v k ts
  | _ => []
  end.

Lemma aload_neighbours dir wt v ts m :
  (forall k, is_Some (m !! k) <-> (0 <= k < v)%Z) ->
  forall k adj, m !! k = Some adj ->
  exists adj', aload dir wt ts m !! k = Some adj' /\ adj'.*1 = adj.*1 ++ neighbours dir v k ts.
Proof.
  revert m. induction ts as [ts IH] using (induction_ltof1 _ (@length token)).
  intros m Hdom k adj Hk. destruct ts as [|[a|] [|[b|] ts]]; cbn [aload neighbours];
    try (exists adj; split; [done|by rewrite app_nil_r]).
  set (w := if wt then Some w0 else None).
  destruct (bool_decide_reflect (is_Some (m !! a) /\ is_Some (m !! b))) as [[Ha Hb]|Hno].
  - assert (Hc : (0 <=? a)%Z && (a <? v)%Z && ((0 <=? b)%Z && (b <? v)%Z) = true)
      by (apply Hdom in Ha, Hb; lia).
    rewrite Hc. unfold aadd_edge. destruct Ha as [adja Ha], Hb as [adjb Hb]. rewrite Ha, Hb.
    destruct (IH ts ltac:(unfold ltof; cbn; lia)
                (let m' := apush a b w m in if dir then m' else apush b a w m')
                ltac:(intros j; destruct dir; cbn; by rewrite ?apush_dom) k
                (adj ++ (if (a =? k)%Z then [(b, w)] else []) ++
                   (if negb dir && (b =? k)%Z then [(a, w)] else []))) as (adj' & E & Hadj).
    { assert (H1 : apush a b w m !! k = Some (adj ++ (if (a =? k)%Z then [(b, w)] else []))).
      { unfold apush. destruct (Z.eqb_spec a k) as [->|Hne].
        - by rewrite lookup_alter_eq, Hk.
        - by rewrite lookup_alter_ne, app_nil_r. }
      destruct dir; cbn [negb andb]; [by rewrite H1, app_nil_r|].
      unfold apush at 1. destruct (Z.eqb_spec b k) as [->|Hne].
      - rewrite lookup_alter_eq, H1. cbn. by rewrite <- app_assoc.
      - by rewrite lookup_alter_ne, H1, !app_nil_r. }
    exists adj'. split; [exact E|]. rewrite Hadj, !fmap_app, <- !app_assoc.
    by destruct (a =? k)%Z, (negb dir && (b =? k)%Z).
  - assert (Hc : (0 <=? a)%Z && (a <? v)%Z && ((0 <=? b)%Z && (b <? v)%Z) = false).
    { apply not_true_iff_false. intros Hc. apply Hno. rewrite !Hdom. lia. }
    rewrite Hc. assert (aadd_edge dir a b w m = m) as ->.
    { unfold aadd_edge. destruct (m !! a), (m !! b); try done. destruct Hno; by split; eexists. }
    apply IH; [unfold ltof; cbn; lia|done|done].
Qed.

Lemma avertices_lookup n i m k :
  avertices i n m !! k =
  if decide (Z.of_nat i <= k < Z.of_nat (i + n))%Z then Some [] else m !! k.
Proof.
  revert i m. induction n as [|n IH]; intros i m; cbn [avertices].
  { by rewrite decide_False by lia. }
  rewrite IH. destruct (decide (k = Z.of_nat i)) as [->|Hne].
  - rewrite decide_False by lia. rewrite decide_True by lia. apply lookup_insert_eq.
  - rewrite lookup_insert_ne by done.
    destruct (decide (Z.of_nat (S i) <= k < Z.of_nat (S i + n))%Z);
      [by rewrite decide_True by lia|by rewrite decide_False by lia].
Qed.

Lemma aload_dom dir wt ts m k : is_Some (aload dir wt ts m !! k) <-> is_Some (m !! k).
Proof.
  revert m. induction ts as [ts IH] using (induction_ltof1 _ (@length token)).
  intros m. destruct ts as [|[a|] [|[b|] ts]]; cbn [aload]; try done.
  rewrite IH by (unfold ltof; cbn; lia). apply aadd_edge_dom.
Qed.

Lemma aload_closed dir wt ts m : closed m -> closed (aload dir wt ts m).
Proof.
  revert m. induction ts as [ts IH] using (induction_ltof1 _ (@length token)).
  intros m Hc. destruct ts as [|[a|] [|[b|] ts]]; cbn [aload]; try done.
  apply IH; [unfold ltof; cbn; lia|]. by apply aadd_edge_closed.
Qed.

(** What [graph_adj] returns for a vertex, and for anything else. *)
Lemma graph_adj_run g l m k :
  refines g l m ->
  match m !! k with
  | Some adj =>
      exists b vs, graph_search k g = Ok (Some b, g) /\ graph_adj k g = Ok ((Some vs, Z.of_nat (fresh_i b + length adj)), g) /\
        Forall2 (fun s kw => exists n, s = Some n /\ gnodes g !! n = Some kw.1)
          (take (length adj) (drop (fresh_i b) vs)) adj
  | None => graph_adj k g = Ok ((None, 0%Z), g)
  end.
Proof.
  intros Hrf. unfold graph_adj. pose proof (search_run g l m k Hrf) as Hs.
  destruct (m !! k) as [adj|]; [|by rewrite (M_bind_ok _ _ _ _ _ Hs)].
  destruct Hs as (b & gb & E & _ & Hgb & _ & Hbr). exists b, (bv gb). split; [done|].
  rewrite (M_bind_ok _ _ _ _ _ E).
  rewrite (bind_get_bag _ _ _ _ Hgb). rewrite <- (br_i _ _ _ _ _ Hbr).
  split; [done|]. apply Hbr.
Qed.

(** A graph without vertices, as the callers of [graph_init] prepare it. *)
Definition empty_graph g : Prop :=
  tm_ok (gtr g) [] /\ gnodes g = ∅ /\ gbags g = ∅ /\ na_inv (npool g) /\ na_inv (bpool g).

Lemma empty_refines g : empty_graph g -> refines g [] ∅.
Proof.
  intros (Ht & Hn & Hb & HnI & HbI).
  split; rewrite ?Hn, ?Hb; try done; try (intros r Hr; by apply not_elem_of_nil in Hr).
  - intros k Hk. by apply lookup_empty_is_Some in Hk.
  - intros r1 r2 Hr. by apply not_elem_of_nil in Hr.
  - split; [done|]. intros n Hk. by apply lookup_empty_is_Some in Hk.
  - split; [done|]. intros n Hk. by apply lookup_empty_is_Some in Hk.
Qed.

Lemma empty_roomy n g : empty_graph g -> roomy n g.
Proof. intros (_ & _ & Hb & _) b gb Hgb. by rewrite Hb, lookup_empty in Hgb. Qed.

Lemma graph_init_run fuel g v e ts :
  empty_graph g -> (0 <= v <= 2 ^ 31)%Z -> all_nums ts -> length ts < fuel ->
  (Z.of_nat (length ts) < 2 ^ 52)%Z ->
  let r := graph_init fresh_i w0 fuel (TNum v :: TNum e :: ts) g in
  r = Stop Exited \/ strays r \/
  exists g' l', r = Ok (0%Z, g') /\
    refines g' l' (aload (direct g) (weight g) ts (avertices 0 (Z.to_nat v) ∅)) /\
    gv g' = v /\ ge g' = e /\ direct g' = direct g.
Proof.
  intros Hemp Hv Hts Hf Hlen r. set (g0 := with_counts v e (weight g) g).
  assert (Hinit : r =
    (ok ← add_vertices fresh_i 0 (Z.to_nat v);
     if ok : bool then load_edges w0 fuel ts;; mret 0%Z else mret (-1)%Z) g0) by reflexivity.
  rewrite Hinit. clear Hinit r.
  assert (Hrf0 : refines g0 [] ∅) by (by apply empty_refines).
  destruct (add_vertices_run g0 [] ∅ 0 (Z.to_nat v) Hrf0) as [E|(g1 & l1 & E & Hrf1 & Hy1 & A1 & A2 & A3 & A4)].
  { cbn. destruct (decide (v = 0%Z)) as [->|]; [by right|left; lia]. }
  { lia. }
  { left. unfold mbind, M_bind. by rewrite E. }
  rewrite (M_bind_ok _ _ _ _ _ E). cbv beta iota. right.
  destruct (load_edges_run fuel ts g1 l1 _ Hrf1 Hts) as [[E' Hst]|(g' & E' & Hrf' & F1 & F2 & F3 & F4 & _)]; [|done| |].
  { apply Hy1; [by apply empty_roomy|lia]. }
  { left. split; [|done]. by apply M_bind_stop. }
  right. exists g', l1. split; [by rewrite (M_bind_ok _ _ _ _ _ E')|].
  rewrite A3, A4 in Hrf'. split_and!; [exact Hrf'|..].
  - rewrite F1, A1. done.
  - rewrite F2, A2. done.
  - rewrite F3, A3. done.
Qed.

(** A token that is not a number is never consumed: [graph_init] does not return. *)
Lemma load_edges_spin fuel ts g : load_edges w0 fuel (TBad :: ts) g = Stop OutOfFuel.
Proof. induction fuel as [|fuel IH]; [done|]. exact IH. Qed.

(** ** The vertices in order *)
Definition vertices_upto (v : Z) m : Prop := forall k, is_Some (m !! k) <-> (0 <= k < v)%Z.

Lemma sorted_range (ks : list Z) (i : Z) (n : nat) :
  StronglySorted Z.lt ks -> (forall k, k ∈ ks <-> (i <= k < i + Z.of_nat n)%Z) -> ks = seqZ i (Z.of_nat n).
Proof.
  revert i ks. induction n as [|n IH]; intros i ks Hs Hin.
  - destruct ks as [|k ks]; [done|]. assert (k ∈ k :: ks) as Hk by (by left). apply Hin in Hk. lia.
  - destruct ks as [|k ks].
    { assert (i ∈ []) as Hi by (apply Hin; lia). by apply not_elem_of_nil in Hi. }
    apply StronglySorted_cons in Hs as [Hk Hs]. rewrite Forall_forall in Hk.
    assert (k = i) as ->.
    { assert (i ∈ k :: ks) as Hi by (apply Hin; lia). apply elem_of_cons in Hi as [?|Hi]; [done|].
      assert (k ∈ k :: ks) as Hk' by (by left). apply Hin in Hk'. specialize (Hk i Hi). lia. }
    rewrite seqZ_cons by lia. f_equal. rewrite Nat2Z.inj_succ, Z.pred_succ. apply (IH (Z.succ i)); [done|].
    intros j. split.
    + intros Hj. assert (j ∈ i :: ks) as Hj' by (by right). apply Hin in Hj'. specialize (Hk j Hj). lia.
    + intros Hj. assert (j ∈ i :: ks) as Hj' by (apply Hin; lia).
      apply elem_of_cons in Hj' as [?|?]; [lia|done].
Qed.

Lemma vertex_keys g l m v :
  refines g l m -> (0 <= v)%Z -> vertices_upto v m -> bag_key <$> l = seqZ 0 v.
Proof.
  intros Hrf Hv Hup. rewrite <- (Z2Nat.id v) by done. apply sorted_range.
  - pose proof (tm_ok_sorted _ _ (rf_tree _ _ _ Hrf)) as Hs. clear -Hs.
    induction Hs as [|r l Hs IH Hr]; cbn; constructor; [done|]. rewrite Forall_fmap.
    eapply Forall_impl; [exact Hr|]. intros r' Hlt. unfold graph_node_cmp in Hlt. cbn in Hlt |- *.
    destruct (Z.ltb_spec (bag_key r) (bag_key r')), (Z.eqb_spec (bag_key r) (bag_key r')); lia.
  - intros k. rewrite list_elem_of_fmap, Z2Nat.id by done. rewrite Z.add_0_l. rewrite <- (Hup k). split.
    + intros (r & -> & Hr). destruct (rf_bags _ _ _ Hrf r Hr) as (b & gb & adj & _ & _ & _ & Hm & _).
      by eexists.
    + intros Hk. destruct (rf_keys _ _ _ Hrf k Hk) as (r & Hr & <-). by exists r.
Qed.

(** The walk and the loop of [graph_vertex]. *)
Lemma bags_to_nodes_run g l m rs rest pre fuel :
  refines g l m -> Forall (fun r => r ∈ l) rs -> length rs < fuel ->
  exists ns, bags_to_nodes fuel (length pre) (Z.of_nat (length pre + length rs))
      (pre ++ (Some <$> rs) ++ rest) g = Ok (ns, g) /\
    Forall2 (fun n r => gnodes g !! n = Some (bag_key r)) ns rs.
Proof.
  intros Hrf. revert pre fuel. induction rs as [|r rs IH]; intros pre fuel Hrs Hf;
    (destruct fuel as [|fuel]; [cbn in Hf; lia|]); cbn [bags_to_nodes].
  - exists []. rewrite (proj2 (Z.ltb_ge _ _)) by (cbn; lia). by split; [|constructor].
  - rewrite (proj2 (Z.ltb_lt _ _)) by (cbn; lia). apply Forall_cons in Hrs as [Hr Hrs].
    assert (Hget : (pre ++ (Some <$> r :: rs) ++ rest) !! length pre = Some (Some r)).
    { by rewrite lookup_app_r, Nat.sub_diag by lia. }
    unfold lift at 1. unfold mbind at 1, M_bind at 1. rewrite (aget_nat _ _ _ Hget).
    destruct (rf_bags _ _ _ Hrf r Hr) as (b & gb & adj & Hb & Hgb & Hn & _). rewrite Hb.
    rewrite (bind_get_bag _ _ _ _ Hgb).
    destruct (IH (pre ++ [Some r]) fuel Hrs ltac:(cbn in Hf; lia)) as (ns & E & HF).
    rewrite length_app in E. cbn [length] in E. rewrite <- app_assoc in E. cbn [app] in E.
    replace (S (length pre)) with (length pre + 1) by lia.
    replace (length pre + length (r :: rs)) with (length pre + 1 + length rs) by (cbn; lia).
    rewrite (M_bind_ok _ _ _ _ _ E). exists (bnode gb :: ns). split; [done|]. by constructor.
Qed.

Lemma graph_vertex_run g l m vs :
  refines g l m -> length l <= length vs -> (Z.of_nat (length vs) < 2 ^ 64)%Z ->
  exists ns, graph_vertex vs g = Ok (ns, g) /\
    Forall2 (fun n r => gnodes g !! n = Some (bag_key r)) ns l.
Proof.
  intros Hrf Hlen Hb. unfold graph_vertex. rewrite bind_gets. unfold lift at 1.
  unfold mbind at 1, M_bind at 1. rewrite (tm_walk_ok _ _ _ (rf_tree _ _ _ Hrf) Hlen Hb).
  cbn [fst snd]. rewrite Nat2Z.id.
  apply (bags_to_nodes_run g l m l _ [] (S (length l)) Hrf); [|lia].
  by apply Forall_forall.
Qed.

(** ** The theorems about whole graphs *)

(** [graph_adj] says that the neighbours of [k] are in the array from [s] on, and are [ks], in this order. *)
Definition adj_from g (k : Z) (s : nat) (ks : list Z) : Prop :=
  exists vs, graph_adj k g = Ok ((Some vs, Z.of_nat (s + length ks)), g) /\
    Forall2 (fun x k' => exists n, x = Some n /\ gnodes g !! n = Some k') (take (length ks) (drop s vs)) ks.
Definition adj_is g (k : Z) (ks : list Z) : Prop := adj_from g k 0 ks.

Lemma refines_adj_from g l m k adj : refines g l m -> m !! k = Some adj ->
  exists b, graph_search k g = Ok (Some b, g) /\ adj_from g k (fresh_i b) adj.*1.
Proof.
  intros Hrf Hk. pose proof (graph_adj_run g l m k Hrf) as Ha. rewrite Hk in Ha.
  destruct Ha as (b & vs & Eb & E & HF). exists b. split; [done|]. exists vs. rewrite length_fmap. split; [done|].
  by rewrite Forall2_fmap_r.
Qed.

(** The abstract graph of a file. *)
Definition file_graph (dir wt : bool) (v : Z) (ts : list token) : agraph :=
  aload dir wt ts (avertices 0 (Z.to_nat v) ∅).

Lemma empty_dom v : (0 <= v)%Z -> vertices_upto v (avertices 0 (Z.to_nat v) ∅).
Proof.
  intros Hv k. rewrite avertices_lookup. cbn. rewrite Z2Nat.id by done.
  destruct (decide _) as [Hk|Hk]; [split; [done|by eexists]|].
  split; [|lia]. intros E. by apply lookup_empty_is_Some in E.
Qed.

Lemma file_graph_dom dir wt v ts : (0 <= v)%Z -> vertices_upto v (file_graph dir wt v ts).
Proof. intros Hv k. unfold file_graph. rewrite aload_dom. by apply empty_dom. Qed.

Lemma file_graph_closed dir wt v ts : closed (file_graph dir wt v ts).
Proof.
  apply aload_closed. intros k adj kw Hk Hin. rewrite avertices_lookup in Hk.
  destruct (decide _); [|by rewrite lookup_empty in Hk]. injection Hk as <-.
  by apply not_elem_of_nil in Hin.
Qed.

Lemma file_graph_neighbours dir wt v ts k :
  (0 <= k < v)%Z -> exists adj, file_graph dir wt v ts !! k = Some adj /\
    adj.*1 = neighbours dir v k ts.
Proof.
  intros Hk. destruct (aload_neighbours dir wt v ts (avertices 0 (Z.to_nat v) ∅)
    (empty_dom v ltac:(lia)) k []) as (adj & E & Hadj).
  { rewrite avertices_lookup, decide_True by lia. done. }
  by exists adj.
Qed.

(** C9: [graph_init] on a file of numbers, fewer than [2 ^ 52], with up to [2 ^ 31] vertices, builds the graph of the file.
    Unless memory runs out it returns 0, every vertex [0 .. v - 1] then has as neighbours,
    in the order of the file, the other ends of the edges whose two ends are
    vertices (both directions when the graph is undirected), any other edge is
    skipped, and any other key is not found.  This is so whatever the counters of new bags hold, which [graph_bag_new] does not set: the
    neighbours of a vertex stand in its array from where its counter began, from the front if that was 0.  Only where a
    counter began above 14 it can happen that [graph_init] writes outside an array instead. *)
Theorem graph_init_correct fuel g v e ts :
  empty_graph g -> (0 <= v <= 2 ^ 31)%Z -> all_nums ts -> length ts < fuel ->
  (Z.of_nat (length ts) < 2 ^ 52)%Z ->
  graph_init fresh_i w0 fuel (TNum v :: TNum e :: ts) g = Stop Exited \/
  (graph_init fresh_i w0 fuel (TNum v :: TNum e :: ts) g = Stop OutOfBounds /\ exists b, 14 < fresh_i b) \/
  exists g', graph_init fresh_i w0 fuel (TNum v :: TNum e :: ts) g = Ok (0%Z, g') /\
    (forall k, (0 <= k < v)%Z -> exists b, graph_search k g' = Ok (Some b, g') /\
       adj_from g' k (fresh_i b) (neighbours (direct g) v k ts)) /\
    (forall k, ~ (0 <= k < v)%Z -> graph_adj k g' = Ok ((None, 0%Z), g')).
Proof.
  intros Hemp Hv Hts Hf Hlen.
  destruct (graph_init_run fuel g v e ts Hemp Hv Hts Hf Hlen) as [E|[E|(g' & l & E & Hrf & _)]]; [by left|by right; left|right; right].
  exists g'. split; [done|]. split; intros k Hk.
  - destruct (file_graph_neighbours (direct g) (weight g) v ts k Hk) as (adj & Hadj & <-).
    by eapply refines_adj_from.
  - pose proof (graph_adj_run g' l _ k Hrf) as Ha.
    destruct (_ !! k) as [adj|] eqn:Ek; [|done]. destruct Hk.
    by eapply (file_graph_dom (direct g) (weight g) v ts); [lia|eexists].
Qed.

(** a word that is not a number, where [graph_init] expects an edge, is read
    again and again: however long it runs, the loop does not end. *)
Theorem graph_init_spins fuel g v e ts :
  empty_graph g -> (0 <= v <= 2 ^ 31)%Z ->
  graph_init fresh_i w0 fuel (TNum v :: TNum e :: TBad :: ts) g = Stop Exited \/
  graph_init fresh_i w0 fuel (TNum v :: TNum e :: TBad :: ts) g = Stop OutOfFuel.
Proof.
  intros Hemp Hv. set (g0 := with_counts v e (weight g) g).
  assert (Hinit : graph_init fresh_i w0 fuel (TNum v :: TNum e :: TBad :: ts) g =
    (ok ← add_vertices fresh_i 0 (Z.to_nat v);
     if ok : bool then load_edges w0 fuel (TBad :: ts);; mret 0%Z else mret (-1)%Z) g0) by reflexivity.
  rewrite Hinit.
  assert (Hrf0 : refines g0 [] ∅) by (by apply empty_refines).
  destruct (add_vertices_run g0 [] ∅ 0 (Z.to_nat v) Hrf0) as [E|(g1 & l1 & E & _)].
  { cbn. destruct (decide (v = 0%Z)) as [->|]; [by right|left; lia]. }
  { lia. }
  { left. unfold mbind, M_bind. by rewrite E. }
  right. rewrite (M_bind_ok _ _ _ _ _ E). cbv beta iota.
  unfold mbind, M_bind. by rewrite load_edges_spin.
Qed.

(** ** Counters that begin at 0 *)
Hypothesis fresh_zero : forall b, fresh_i b = 0.

Lemma strays_not {A} (r : res A) : ~ strays r.
Proof. intros (_ & b & Hb). rewrite fresh_zero in Hb. lia. Qed.

Lemma graph_adj_run0 g l m k :
  refines g l m ->
  match m !! k with
  | Some adj =>
      exists vs, graph_adj k g = Ok ((Some vs, Z.of_nat (length adj)), g) /\
        Forall2 (fun s kw => exists n, s = Some n /\ gnodes g !! n = Some kw.1) (take (length adj) vs) adj
  | None => graph_adj k g = Ok ((None, 0%Z), g)
  end.
Proof.
  intros Hrf. pose proof (graph_adj_run g l m k Hrf) as Ha. destruct (m !! k); [|done].
  destruct Ha as (b & vs & _ & E & HF). rewrite fresh_zero in E, HF. by exists vs.
Qed.

Lemma refines_adj_is g l m k adj : refines g l m -> m !! k = Some adj -> adj_is g k adj.*1.
Proof.
  intros Hrf Hk. destruct (refines_adj_from g l m k adj Hrf Hk) as (b & _ & Ha). by rewrite fresh_zero in Ha.
Qed.

(** ** Reversal *)

(** The edges [u -> k] of a vertex [u], added as [k -> u]. *)
Definition areverse_edges (dir : bool) (u : Z) (w : option W) (ks : list Z) m : agraph :=
  foldl (fun m k => aadd_edge dir k u w m) m ks.

Lemma node_key_some g n k : gnodes g !! n = Some k -> node_key (Some n) g = Ok (k, g).
Proof. intros E. unfold node_key. by rewrite E. Qed.

Lemma reverse_edges_run og g l m u pre post (vs : list (option nloc)) ks :
  refines g l m -> roomy (2 * length ks) g ->
  Forall2 (fun s k => exists n, s = Some n /\ gnodes og !! n = Some k) vs ks ->
  exists g',
    reverse_edges w0 og u (pre ++ vs ++ post) (length pre) (length ks) g = Ok (tt, g') /\
    refines g' l (areverse_edges (direct g) u (if weight g then Some w0 else None) ks m) /\
    same_frame g g' /\ forall n, roomy (2 * length ks + n) g -> roomy n g'.
Proof.
  intros Hrf Hs HF. revert pre g m Hrf Hs.
  induction HF as [|s k vs ks (n & -> & Hn) HF IH]; intros pre g m Hrf Hs; cbn [length reverse_edges].
  { exists g. by split_and!. }
  assert (Hget : (pre ++ (Some n :: vs) ++ post) !! length pre = Some (Some n)).
  { by rewrite lookup_app_r, Nat.sub_diag by lia. }
  unfold lift at 1. unfold mbind at 1, M_bind at 1. rewrite (aget_nat _ _ _ Hget).
  rewrite (node_key_some _ _ _ Hn).
  destruct (graph_add_edge_run g l m k u w0 Hrf) as [Hst|(g1 & E & Hrf1 & Hf1 & Hy1)].
  { eapply roomy_le; [|exact Hs]. cbn. lia. }
  { by destruct (strays_not _ Hst). }
  rewrite (M_bind_ok _ _ _ _ _ E).
  destruct (IH (pre ++ [Some n]) g1 _ Hrf1) as (g' & E' & Hrf' & Hf' & Hy').
  { apply Hy1. eapply roomy_le; [|exact Hs]. cbn. lia. }
  rewrite length_app in E'. cbn [length] in E'. rewrite Nat.add_1_r, <- app_assoc in E'.
  exists g'. split; [exact E'|]. split; [|split; [by eapply same_frame_trans|]].
  - destruct Hf1 as (_ & _ & Hd & Hw & _). by rewrite Hd, Hw in Hrf'.
  - intros j Hj. apply Hy', Hy1. eapply roomy_le; [|exact Hj]. cbn. lia.
Qed.

Definition areverse (dir : bool) (w : option W) (us : list Z) (om m : agraph) : agraph :=
  foldl (fun m u => areverse_edges dir u w (default [] (om !! u)).*1 m) m us.

(** The number of edges still to be added. *)
Definition degrees (us : list Z) m : nat :=
  sum_list ((fun u => length (default [] (m !! u))) <$> us).

Lemma reverse_vertices_run og ol om g l m vers us :
  refines og ol om -> refines g l m ->
  Forall2 (fun n u => gnodes og !! n = Some u) vers us ->
  roomy (2 * degrees us om) g ->
  exists g', reverse_vertices w0 og vers g = Ok (tt, g') /\
    refines g' l (areverse (direct g) (if weight g then Some w0 else None) us om m) /\
    same_frame g g'.
Proof.
  intros Hro Hrf HF. revert g m Hrf.
  induction HF as [|n u vers us Hn HF IH]; intros g m Hrf Hs; cbn [reverse_vertices].
  { exists g. by split_and!. }
  rewrite (node_key_some _ _ _ Hn). pose proof (graph_adj_run0 og ol om u Hro) as Hadj.
  unfold areverse. cbn [foldl]. fold (areverse (direct g) (if weight g then Some w0 else None) us om).
  unfold degrees in Hs. cbn [fmap list_fmap sum_list] in Hs. fold (degrees us om) in Hs.
  destruct (om !! u) as [adj|] eqn:Eu; cbn [default from_option] in *; unfold id in *.
  2:{ rewrite Hadj. cbn. by apply IH. }
  destruct Hadj as (vs & -> & Hvs).
  assert (Hstep : exists g1,
    (if (Z.of_nat (length adj) =? 0)%Z then mret tt
     else reverse_edges w0 og u vs 0 (Z.to_nat (Z.of_nat (length adj)))) g = Ok (tt, g1) /\
    refines g1 l (areverse_edges (direct g) u (if weight g then Some w0 else None) adj.*1 m) /\
    same_frame g g1 /\ roomy (2 * degrees us om) g1).
  { destruct (Z.eqb_spec (Z.of_nat (length adj)) 0) as [E0|_].
    - exists g. destruct adj; [|done]. by split_and!.
    - rewrite Nat2Z.id. rewrite <- (take_drop (length adj) vs).
      pose proof (reverse_edges_run og g l m u [] (drop (length adj) vs) (take (length adj) vs) adj.*1 Hrf) as Hrun.
      rewrite length_fmap in Hrun. destruct Hrun as (g1 & E & Hrf1 & Hf1 & Hy1).
      + eapply roomy_le; [|exact Hs]. lia.
      + rewrite Forall2_fmap_r. exact Hvs.
      + exists g1. split_and!; [done|done|apply Hf1..|]. apply Hy1. eapply roomy_le; [|exact Hs]. lia. }
  destruct Hstep as (g1 & E & Hrf1 & Hf1 & Hy1). rewrite (M_bind_ok _ _ _ _ _ E).
  destruct (IH g1 _ Hrf1 Hy1) as (g' & E' & Hrf' & Hf').
  exists g'. split; [exact E'|]. split; [|by eapply same_frame_trans].
  destruct Hf1 as (_ & _ & Hd & Hw & _). by rewrite Hd, Hw in Hrf'.
Qed.

(** The neighbours of [k] in the reversed graph: every [u] with an edge to [k], in
    increasing order, as often as there is an edge. *)
Definition reversed (v : Z) m (k : Z) : list Z :=
  concat ((fun u => replicate (length (filter (fun j => j = k) (default [] (m !! u)).*1)) u) <$> seqZ 0 v).

Lemma areverse_edges_lookup u w ks m k adj :
  (forall j, j ∈ ks -> is_Some (m !! j)) -> is_Some (m !! u) -> m !! k = Some adj ->
  exists adj', areverse_edges true u w ks m !! k = Some adj' /\
    adj'.*1 = adj.*1 ++ replicate (length (filter (fun j => j = k) ks)) u /\
    forall j, is_Some (areverse_edges true u w ks m !! j) <-> is_Some (m !! j).
Proof.
  unfold areverse_edges. revert m adj. induction ks as [|j ks IH]; intros m adj Hks Hu Hk; cbn [foldl].
  { exists adj. by rewrite app_nil_r. }
  assert (Hdom : forall i, is_Some (aadd_edge true j u w m !! i) <-> is_Some (m !! i))
    by (intros i; apply aadd_edge_dom).
  assert (Hk' : aadd_edge true j u w m !! k = Some (adj ++ (if decide (j = k) then [(u, w)] else []))).
  { unfold aadd_edge. destruct (Hks j ltac:(by left)) as [? ->]. destruct Hu as [? ->].
    unfold apush. destruct (decide (j = k)) as [->|Hne].
    - by rewrite lookup_alter_eq, Hk.
    - by rewrite lookup_alter_ne, app_nil_r. }
  edestruct (IH (aadd_edge true j u w m)) as (adj' & E & Hadj & Hd); [| |exact Hk'|].
  - intros i Hi. apply Hdom, Hks. by right.
  - by apply Hdom.
  - exists adj'. split; [done|]. split; [|intros i; by rewrite Hd].
    rewrite Hadj, fmap_app, <- app_assoc. f_equal. destruct (decide (j = k)) as [->|Hne].
    + by rewrite filter_cons_True.
    + by rewrite filter_cons_False.
Qed.

Lemma areverse_lookup w us om m k adj :
  closed om -> (forall j, is_Some (m !! j) <-> is_Some (om !! j)) ->
  (forall u, u ∈ us -> is_Some (om !! u)) -> m !! k = Some adj ->
  exists adj', areverse true w us om m !! k = Some adj' /\
    adj'.*1 = adj.*1 ++ concat ((fun u => replicate
      (length (filter (fun j => j = k) (default [] (om !! u)).*1)) u) <$> us).
Proof.
  intros Hcl. unfold areverse. revert m adj. induction us as [|u us IH]; intros m adj Hdom Hus Hk; cbn [foldl].
  { exists adj. by rewrite app_nil_r. }
  destruct (Hus u ltac:(by left)) as [adju Hu]. rewrite Hu. cbn [from_option]; unfold id.
  destruct (areverse_edges_lookup u w adju.*1 m k adj) as (adj1 & E1 & Hadj1 & Hd1).
  { intros j Hj. apply list_elem_of_fmap in Hj as (kw & -> & Hin). apply Hdom. by eapply Hcl. }
  { apply Hdom. by eexists. }
  { done. }
  destruct (IH _ adj1 ltac:(intros j; by rewrite Hd1) ltac:(intros j Hj; apply Hus; by right) E1)
    as (adj' & E & Hadj).
  exists adj'. split; [exact E|]. rewrite Hadj, Hadj1, <- app_assoc. cbn. by rewrite Hu.
Qed.

Lemma sum_indicator (us : list Z) a : NoDup us ->
  sum_list ((fun u => if (a =? u)%Z then 1 else 0) <$> us) <= 1.
Proof.
  induction 1 as [|u us Hu HN IH]; cbn; [lia|]. destruct (Z.eqb_spec a u) as [->|]; [|lia].
  assert (H1 : sum_list ((fun u0 => if (u =? u0)%Z then 1 else 0) <$> us) = 0); [|lia].
  clear -Hu. induction us as [|u' us IH]; cbn; [done|]. apply not_elem_of_cons in Hu as [Hne Hu].
  by rewrite (proj2 (Z.eqb_neq _ _)), IH.
Qed.

Lemma degree_sum (us : list Z) v ts :
  NoDup us -> sum_list ((fun u => length (neighbours true v u ts)) <$> us) <= length ts.
Proof.
  intros HN. induction ts as [ts IH] using (induction_ltof1 _ (@length token)).
  assert (Hz : sum_list ((fun _ : Z => 0) <$> us) = 0) by (clear; induction us; cbn; lia).
  destruct ts as [|[a|] [|[b|] ts]]; cbn [neighbours length]; rewrite ?Hz; try lia.
  specialize (IH ts ltac:(unfold ltof; cbn; lia)).
  pose proof (sum_indicator us a HN) as Hi.
  enough (Hle : forall (f h k : Z -> nat), (forall u, f u <= h u + k u) ->
    sum_list (f <$> us) <= sum_list (h <$> us) + sum_list (k <$> us)).
  { match goal with |- sum_list (?f <$> us) <= _ =>
      specialize (Hle f (fun u => if (a =? u)%Z then 1 else 0)
                    (fun u => length (neighbours true v u ts)))
    end.
    etransitivity; [apply Hle|lia]. intros u. rewrite length_app.
    destruct (_ && _), (a =? u)%Z; cbn; lia. }
  clear. intros f h k Hf. induction us as [|u us IH]; cbn; [lia|]. specialize (Hf u). lia.
Qed.

(** The vertices with an edge to [k], in increasing order, once per edge. *)
Definition predecessors (v k : Z) (ts : list token) : list Z :=
  concat ((fun u => replicate (length (filter (fun j => j = k) (neighbours true v u ts))) u) <$> seqZ 0 v).

(** Reversal.  [dgraph_reverse_copy] of a directed graph that [graph_init] has
    read returns, unless memory runs out, a graph in which the neighbours of [k] are
    the vertices that had an edge to [k], in increasing order; where the counters of new bags begin at 0. *)
Theorem dgraph_reverse_copy_correct fuel g v e ts og t0 np0 bp0 :
  empty_graph g -> direct g = true -> (0 < v <= 2 ^ 31)%Z -> all_nums ts -> length ts < fuel ->
  (Z.of_nat (length ts) < 2 ^ 52)%Z ->
  graph_init fresh_i w0 fuel (TNum v :: TNum e :: ts) g = Ok (0%Z, og) ->
  tm_ok t0 [] -> na_inv np0 -> na_inv bp0 ->
  dgraph_reverse_copy fresh_i w0 t0 np0 bp0 og = Stop Exited \/
  exists rg, dgraph_reverse_copy fresh_i w0 t0 np0 bp0 og = Ok (Some rg) /\
    forall k, (0 <= k < v)%Z -> adj_is rg k (predecessors v k ts).
Proof.
  intros Hemp Hdir Hv Hts Hf Hlen Hinit Ht0 Hnp Hbp.
  destruct (graph_init_run fuel g v e ts Hemp ltac:(lia) Hts Hf Hlen)
    as [E|[Hst|(og' & ol & E & Hro & Hgv & _ & Hd)]]; [by rewrite E in Hinit|by destruct (strays_not _ Hst)|rewrite E in Hinit].
  injection Hinit as ->. rewrite Hdir in *. fold (file_graph true (weight g) v ts) in Hro.
  set (om := file_graph true (weight g) v ts) in *.
  unfold dgraph_reverse_copy. rewrite Hd. cbn [negb]. cbv zeta. rewrite Hgv.
  set (g0 := mkGraph t0 np0 bp0 v (ge og) true (weight og) [] ∅ ∅).
  assert (He0 : empty_graph g0) by by split_and!.
  destruct (add_vertices_run g0 [] ∅ 0 (Z.to_nat v)) as [->|(g1 & l1 & -> & Hrf1 & Hy1 & A1 & A2 & A3 & A4)];
    [by apply empty_refines|left; cbn; lia|lia|by left|].
  rewrite A1. cbn [gv g0].
  assert (Hup : vertices_upto v om) by (apply file_graph_dom; lia).
  pose proof (vertex_keys og ol om v Hro ltac:(lia) Hup) as Hkeys.
  assert (Hlol : length ol = Z.to_nat v) by (by rewrite <- (length_fmap bag_key), Hkeys, length_seqZ).
  destruct (graph_vertex_run og ol om (replicate (Z.to_nat v) None) Hro) as (ns & -> & Hns);
    [by rewrite length_replicate, Hlol|rewrite length_replicate; lia|].
  destruct ns as [|n0 ns]; [apply Forall2_length in Hns; cbn in Hns; lia|].
  assert (Hus : Forall2 (fun n u => gnodes og !! n = Some u) (n0 :: ns) (seqZ 0 v))
    by (rewrite <- Hkeys; by apply Forall2_fmap_r).
  destruct (reverse_vertices_run og ol om g1 l1 _ (n0 :: ns) (seqZ 0 v) Hro Hrf1 Hus)
    as (g' & -> & Hrf' & Hf').
  { assert (Hdeg : degrees (seqZ 0 v) om <= length ts).
    { unfold degrees. etransitivity; [|apply (degree_sum (seqZ 0 v) v ts), NoDup_seqZ].
      apply Nat.eq_le_incl. f_equal. apply list_fmap_ext. intros i u Hu.
      apply lookup_seqZ in Hu as [-> Hi].
      destruct (file_graph_neighbours true (weight g) v ts (0 + Z.of_nat i)) as (adj & E' & Hadj); [lia|].
      unfold om. rewrite E', <- Hadj, length_fmap. done. }
    apply Hy1; [by apply empty_roomy|lia]. }
  right. exists g'. split; [done|]. intros k Hk. rewrite A3 in Hrf'. cbn [direct g0] in Hrf'.
  destruct (areverse_lookup (if weight g1 then Some w0 else None) (seqZ 0 v) om
    (avertices 0 (Z.to_nat v) ∅) k []) as (adj & E' & Hadj).
  - apply file_graph_closed.
  - intros j. rewrite (Hup j). apply empty_dom. lia.
  - intros u Hu. apply Hup. by apply elem_of_seqZ in Hu.
  - rewrite avertices_lookup, decide_True by lia. done.
  - assert (Hp : adj.*1 = predecessors v k ts).
    { rewrite Hadj. cbn. unfold predecessors. f_equal. apply list_fmap_ext. intros i u Hu.
      apply lookup_seqZ in Hu as [-> Hi].
      destruct (file_graph_neighbours true (weight g) v ts (0 + Z.of_nat i)) as (adju & E'' & Hadju); [lia|].
      unfold om. rewrite E''. cbn. by rewrite <- Hadju. }
    rewrite <- Hp. by eapply refines_adj_is.
Qed.
End refinement.
