(* ===== verification/GraphDfs.v ===== *)
(** Depth first search on a graph ([graph_simple_dfs] of
    src/algs/algorithms4th/graph.cpp): it visits exactly the vertices reachable from
    the start, each once, and its recursion is no deeper than the graph is large. *)
From S2P Require Import Prelude NodePool OrdSpec Graph.

Section dfs.
Context {nloc bloc : Type} `{Countable nloc} `{Countable bloc} {W : Type}.
Context {T NP BP : Type} `{TM : !TreeMap T (bagref bloc) graph_node_cmp}.
Context `{NN : !NodeAlloc NP nloc} `{NB : !NodeAlloc BP bloc}.
Abbreviation graph := (@graph nloc bloc _ _ _ _ W T NP BP).
Abbreviation agraph := (gmap Z (list (Z * option W))).
Implicit Types (g : graph) (m : agraph) (mk : list bool).

(** The graph stands for [m], and every bag holds its neighbours from the front of its array on. *)
Abbreviation represents := (refines (fun _ : bloc => 0)).

(** There is an edge from [a] to [b]. *)
Definition edge m (a b : Z) : Prop := exists adj, m !! a = Some adj /\ b ∈ adj.*1.

Definition marked mk (k : Z) : Prop := mk !! Z.to_nat k = Some true.
Definition unmarked mk : nat := length (filter (fun b => b = false) mk).

(** A search from the vertices [roots] turns the marks [mk] into [mk'] and prints
    [out]: what it prints is what it marks, it can be reached from the roots, and
    every edge out of it leads to a marked vertex. *)
Record visits m (v : Z) mk mk' (roots out : list Z) : Prop := {
  vs_len : length mk' = length mk;
  vs_nodup : NoDup out;
  vs_marks : forall k, (0 <= k < v)%Z -> marked mk' k <-> marked mk k \/ k ∈ out;
  vs_new : forall k, k ∈ out -> (0 <= k < v)%Z /\ ~ marked mk k;
  vs_closed : forall a b, a ∈ out -> edge m a b -> marked mk' b;
  vs_reach : forall a, a ∈ out -> exists r, r ∈ roots /\ rtc (edge m) r a;
  vs_roots : forall r, r ∈ roots -> marked mk' r;
  vs_less : unmarked mk' <= unmarked mk
}.

Lemma visits_nil m v mk : visits m v mk mk [] [].
Proof.
  split; try done; try (intros *; intros Hin; by apply not_elem_of_nil in Hin).
  - apply NoDup_nil_2.
  - intros k _. split; [auto|]. intros [?|Hin]; [done|by apply not_elem_of_nil in Hin].
Qed.

Lemma marked_mono m v mk mk' roots out k :
  visits m v mk mk' roots out -> (0 <= k < v)%Z -> marked mk k -> marked mk' k.
Proof. intros Hv Hk Hm. apply (vs_marks _ _ _ _ _ _ Hv k Hk). by left. Qed.

(** One search after the other. *)
Lemma visits_app m v mk mk1 mk2 r1 r2 o1 o2 :
  (forall a b, edge m a b -> (0 <= b < v)%Z) -> (forall r, r ∈ r1 -> (0 <= r < v)%Z) ->
  visits m v mk mk1 r1 o1 -> visits m v mk1 mk2 r2 o2 -> visits m v mk mk2 (r1 ++ r2) (o1 ++ o2).
Proof.
  intros Hedge Hr1 H1 H2. split.
  - by rewrite (vs_len _ _ _ _ _ _ H2), (vs_len _ _ _ _ _ _ H1).
  - apply NoDup_app. split_and!; [apply (vs_nodup _ _ _ _ _ _ H1)| |apply (vs_nodup _ _ _ _ _ _ H2)].
    intros k Hk Hk2. destruct (vs_new _ _ _ _ _ _ H1 k Hk) as [Hb _].
    apply (vs_new _ _ _ _ _ _ H2) in Hk2 as [_ Hn]. apply Hn. apply (vs_marks _ _ _ _ _ _ H1 k Hb). by right.
  - intros k Hk. rewrite (vs_marks _ _ _ _ _ _ H2 k Hk), (vs_marks _ _ _ _ _ _ H1 k Hk), elem_of_app. tauto.
  - intros k [Hk|Hk]%elem_of_app; [by apply (vs_new _ _ _ _ _ _ H1)|].
    destruct (vs_new _ _ _ _ _ _ H2 k Hk) as [Hb Hn]. split; [done|].
    intros Hm. apply Hn. by eapply marked_mono.
  - intros a b [Ha|Ha]%elem_of_app He.
    + eapply marked_mono; [exact H2|by eapply Hedge|].
      by eapply (vs_closed _ _ _ _ _ _ H1).
    + by eapply (vs_closed _ _ _ _ _ _ H2).
  - intros a [Ha|Ha]%elem_of_app.
    + destruct (vs_reach _ _ _ _ _ _ H1 a Ha) as (r & Hr & Hre). exists r. split; [apply elem_of_app; auto|done].
    + destruct (vs_reach _ _ _ _ _ _ H2 a Ha) as (r & Hr & Hre). exists r. split; [apply elem_of_app; auto|done].
  - intros r [Hr|Hr]%elem_of_app; [|by apply (vs_roots _ _ _ _ _ _ H2)].
    eapply marked_mono; [exact H2|by apply Hr1|by apply (vs_roots _ _ _ _ _ _ H1)].
  - etransitivity; [apply (vs_less _ _ _ _ _ _ H2)|apply (vs_less _ _ _ _ _ _ H1)].
Qed.

Lemma unmarked_insert mk i :
  mk !! i = Some false -> S (unmarked (<[i := true]> mk)) = unmarked mk.
Proof.
  unfold unmarked. revert i. induction mk as [|b mk IH]; intros [|i] E; cbn in E; [done..| |].
  - injection E as ->. change (<[0 := true]> (false :: mk)) with (true :: mk).
    by rewrite filter_cons_False, filter_cons_True.
  - change (<[S i := true]> (b :: mk)) with (b :: <[i := true]> mk). destruct b.
    + rewrite !(filter_cons_False _ true) by done. by apply IH.
    + rewrite !(filter_cons_True _ false) by done. cbn. f_equal. by apply IH.
Qed.

Lemma refines_marked g l m mk : represents g l m -> represents (with_marked mk g) l m.
Proof. by intros []. Qed.

Lemma marked_dec mk k (b : bool) : mk !! Z.to_nat k = Some b -> if b then marked mk k else ~ marked mk k.
Proof. unfold marked. intros E. destruct b; [done|]. rewrite E. done. Qed.

(** ** The recursion *)
Definition dfs_spec g m v (fuel : nat) : Prop :=
  forall mk x, length mk = Z.to_nat v -> (0 <= x < v)%Z -> mk !! Z.to_nat x = Some false ->
    unmarked mk <= fuel ->
    exists out mk', do_graph_simple_dfs fuel x (with_marked mk g) = Ok (x :: out, with_marked mk' g) /\
      visits m v mk mk' [x] (x :: out).

Lemma dfs_loop_run g l m v fuel x adj vs ks pre post mk :
  represents g l m -> (forall k, is_Some (m !! k) <-> (0 <= k < v)%Z) -> closed m ->
  dfs_spec g m v fuel ->
  adj = pre ++ vs ++ post ->
  Forall2 (fun s k => exists n, s = Some n /\ gnodes g !! n = Some k) vs ks ->
  Forall (edge m x) ks -> length mk = Z.to_nat v -> unmarked mk <= fuel ->
  exists out mk',
    (fix go (i todo : nat) : M graph (list Z) :=
       match todo with
       | O => mret []
       | S todo =>
           match Some adj with
           | None => stop NullDeref
           | Some adj =>
               a ← lift (aget adj (Z.of_nat i));
               k ← node_key a;
               m ← gets dfs_marked;
               b ← lift (aget m k);
               o1 ← (if (b : bool) then mret [] else do_graph_simple_dfs fuel k);
               o2 ← go (S i) todo;
               mret (o1 ++ o2)
           end
       end) (length pre) (length ks) (with_marked mk g) = Ok (out, with_marked mk' g) /\
    visits m v mk mk' ks out.
Proof.
  intros Hrf Hdom Hcl Hspec Hadj HF Hks. revert pre mk Hadj.
  induction HF as [|s k vs ks (n & -> & Hn) HF IH]; intros pre mk Hadj Hlen Hun.
  { exists [], mk. split; [done|apply visits_nil]. }
  apply Forall_cons in Hks as [Hk Hks].
  assert (Hedge : forall a b, edge m a b -> (0 <= b < v)%Z).
  { intros a b (adj0 & E & Hin). apply Hdom. apply list_elem_of_fmap in Hin as (kw & -> & Hin).
    by eapply Hcl. }
  pose proof (Hedge _ _ Hk) as Hkv.
  assert (Hget : adj !! length pre = Some (Some n)).
  { rewrite Hadj. by rewrite lookup_app_r, Nat.sub_diag by lia. }
  cbn [length]. rewrite (bind_lift _ _ _ _ (aget_nat _ _ _ Hget)).
  rewrite (M_bind_ok (node_key (Some n)) _ (with_marked mk g) k (with_marked mk g)
    (node_key_some (with_marked mk g) n k Hn)).
  rewrite bind_gets. cbn [dfs_marked with_marked].
  destruct (lookup_lt_is_Some_2 mk (Z.to_nat k)) as [b Hb]; [lia|].
  rewrite (bind_lift _ _ _ _ (aget_Z mk k b ltac:(lia) Hb)).
  assert (Hstep : exists o1 mk1,
    (if b then mret [] else do_graph_simple_dfs fuel k) (with_marked mk g) =
      Ok (o1, with_marked mk1 g) /\ visits m v mk mk1 [k] o1).
  { destruct b.
    - exists [], mk. split; [done|]. pose proof (visits_nil m v mk) as [].
      split; try done.
      + intros a Ha. by apply not_elem_of_nil in Ha.
      + by intros r ->%list_elem_of_singleton.
    - destruct (Hspec mk k Hlen Hkv Hb Hun) as (o1 & mk1 & E & Hv). by exists (k :: o1), mk1. }
  destruct Hstep as (o1 & mk1 & E1 & Hv1). rewrite (M_bind_ok _ _ _ _ _ E1).
  destruct (IH Hks (pre ++ [Some n]) mk1) as (o2 & mk2 & E2 & Hv2).
  { by rewrite Hadj, <- app_assoc. }
  { by rewrite (vs_len _ _ _ _ _ _ Hv1). }
  { pose proof (vs_less _ _ _ _ _ _ Hv1). lia. }
  rewrite length_app in E2. cbn [length] in E2. rewrite Nat.add_1_r in E2.
  erewrite M_bind_ok; [|exact E2]. exists (o1 ++ o2), mk2. split; [done|].
  change (k :: ks) with ([k] ++ ks). eapply visits_app; try done.
  by intros r ->%list_elem_of_singleton.
Qed.

Lemma dfs_run g l m v fuel :
  represents g l m -> (forall k, is_Some (m !! k) <-> (0 <= k < v)%Z) -> closed m ->
  dfs_spec g m v fuel.
Proof.
  intros Hrf Hdom Hcl. induction fuel as [|fuel IH]; intros mk x Hlen Hx Hmk Hun.
  { pose proof (unmarked_insert _ _ Hmk). lia. }
  cbn [do_graph_simple_dfs]. rewrite bind_gets. cbn [dfs_marked with_marked].
  rewrite (bind_lift _ _ _ _ (aset_Z mk x true ltac:(lia))).
  set (mk0 := <[Z.to_nat x := true]> mk).
  change ((modify (with_marked mk0) ≫= ?K) (with_marked mk g)) with (K tt (with_marked mk0 g)).
  assert (Hrf0 : represents (with_marked mk0 g) l m) by (by apply refines_marked).
  pose proof (graph_adj_run0 _ (fun _ => eq_refl) _ l m x Hrf0) as Ha.
  destruct (proj2 (Hdom x) Hx) as [adj Hadj]. rewrite Hadj in Ha. destruct Ha as (vs & Ea & HF).
  match goal with |- context [(graph_adj x ≫= ?K) _] =>
    rewrite (M_bind_ok (graph_adj x) K _ _ _ Ea) end.
  cbv beta iota. rewrite Nat2Z.id.
  destruct (dfs_loop_run g l m v fuel x vs (take (length adj) vs) adj.*1 [] (drop (length adj) vs) mk0
    Hrf Hdom Hcl IH) as (out & mk' & E & Hv).
  { by rewrite take_drop. }
  { by rewrite Forall2_fmap_r. }
  { apply Forall_forall. intros k Hk. by exists adj. }
  { unfold mk0. by rewrite length_insert. }
  { pose proof (unmarked_insert _ _ Hmk) as Hu. fold mk0 in Hu. lia. }
  rewrite length_fmap in E. cbn [length] in E. rewrite (M_bind_ok _ _ _ _ _ E).
  exists out, mk'. split; [done|].
  assert (Hmk0 : forall k, (0 <= k < v)%Z -> marked mk0 k <-> marked mk k \/ k = x).
  { intros k Hk. unfold marked, mk0. destruct (decide (k = x)) as [->|Hne].
    - rewrite list_lookup_insert_eq by lia. tauto.
    - rewrite list_lookup_insert_ne by lia. tauto. }
  assert (Hxn : ~ marked mk x) by (unfold marked; by rewrite Hmk).
  split.
  - rewrite (vs_len _ _ _ _ _ _ Hv). apply length_insert.
  - constructor; [|apply (vs_nodup _ _ _ _ _ _ Hv)]. intros Hin.
    apply (vs_new _ _ _ _ _ _ Hv) in Hin as [_ Hn]. apply Hn, Hmk0; auto.
  - intros k Hk. rewrite (vs_marks _ _ _ _ _ _ Hv k Hk), (Hmk0 k Hk), elem_of_cons. tauto.
  - intros k [->|Hk]%elem_of_cons; [done|].
    destruct (vs_new _ _ _ _ _ _ Hv k Hk) as [Hb Hn]. split; [done|].
    intros Hm. apply Hn, Hmk0; auto.
  - intros a b [->|Ha]%elem_of_cons He; [|by eapply (vs_closed _ _ _ _ _ _ Hv)].
    destruct He as (adj' & E' & Hin). rewrite Hadj in E'. injection E' as <-.
    by apply (vs_roots _ _ _ _ _ _ Hv).
  - intros a [->|Ha]%elem_of_cons; exists x; (split; [by left|]); [done|].
    destruct (vs_reach _ _ _ _ _ _ Hv a Ha) as (r & Hr & Hre).
    eapply rtc_l; [|exact Hre]. by exists adj.
  - intros r ->%list_elem_of_singleton. apply (vs_marks _ _ _ _ _ _ Hv x Hx). left. apply Hmk0; auto.
  - pose proof (vs_less _ _ _ _ _ _ Hv). pose proof (unmarked_insert _ _ Hmk) as Hu. fold mk0 in Hu. lia.
Qed.

(** The edges of a file: [b] is a neighbour of [a]. *)
Definition file_edge (dir : bool) (v : Z) (ts : list token) (a b : Z) : Prop :=
  (0 <= a < v)%Z /\ b ∈ neighbours dir v a ts.

(** A graph in order: its vertices are the numbers below [v], [m] are their neighbours, which are vertices too. *)
Definition graph_is g m : Prop := (exists l, represents g l m) /\ vertices_upto (gv g) m /\ closed m.

(** C10: depth first search.  On a graph of the vertices [0 .. v - 1] whose bags hold the neighbours [m] from the front of their arrays,
    which is what [graph_init] makes where the counters of new bags begin at 0, [graph_simple_dfs] from a vertex [x] terminates without misusing memory, starts
    with [x], prints no vertex twice, and prints exactly the vertices that can be
    reached from [x] along the edges; it changes nothing but the marks. *)
Theorem graph_simple_dfs_correct g m x : graph_is g m -> (0 <= x < gv g)%Z ->
  exists out mk, graph_simple_dfs x g = Ok (x :: out, with_marked mk g) /\ NoDup (x :: out) /\
    forall y, y ∈ x :: out <-> rtc (edge m) x y.
Proof.
  intros ((l & Hrf) & Hdom & Hcl) Hx. unfold vertices_upto in Hdom. set (v := gv g) in *.
  unfold graph_simple_dfs. rewrite bind_gets. fold v.
  set (mk := replicate (Z.to_nat v) false).
  change ((modify (with_marked mk) ≫= ?K) g) with (K tt (with_marked mk g)).
  assert (Hun : unmarked mk <= Z.to_nat v).
  { unfold unmarked, mk. etransitivity; [apply length_filter|]. by rewrite length_replicate. }
  destruct (dfs_run g l m v (S (Z.to_nat v)) Hrf Hdom Hcl mk x) as (out & mk' & Er & Hvis);
    [by unfold mk; rewrite length_replicate|done|unfold mk; apply lookup_replicate_2; lia|lia|].
  exists out, mk'. split; [exact Er|]. split; [apply (vs_nodup _ _ _ _ _ _ Hvis)|].
  assert (Hmk : forall k, ~ marked mk k).
  { intros k Hm. unfold marked, mk in Hm. by apply lookup_replicate in Hm as [? _]. }
  intros y. split.
  - intros Hy. by destruct (vs_reach _ _ _ _ _ _ Hvis y Hy) as (r & ->%list_elem_of_singleton & Hr).
  - assert (Hgen : forall a c, a ∈ x :: out -> rtc (edge m) a c -> c ∈ x :: out).
    { intros a c Ha Hr. revert Ha. induction Hr as [|a b c Hab _ IH]; [done|].
      intros Ha. apply IH. pose proof (vs_closed _ _ _ _ _ _ Hvis a b Ha Hab) as Hb.
      destruct Hab as (adj & E' & Hin). apply list_elem_of_fmap in Hin as (kw & -> & Hin).
      assert (Hbv : (0 <= kw.1 < v)%Z) by (apply Hdom; by eapply Hcl).
      apply (vs_marks _ _ _ _ _ _ Hvis _ Hbv) in Hb as [Hb|Hb]; [by destruct (Hmk kw.1)|done]. }
    apply Hgen. by left.
Qed.

(** What [graph_init] has read, the counters having begun at 0. *)
Lemma graph_init_is (fresh_i : bloc -> nat) (w0 : W) fuel g v e ts g' :
  (forall b, fresh_i b = 0) -> empty_graph g -> (0 <= v <= 2 ^ 31)%Z -> all_nums ts ->
  length ts < fuel -> (Z.of_nat (length ts) < 2 ^ 52)%Z ->
  graph_init fresh_i w0 fuel (TNum v :: TNum e :: ts) g = Ok (0%Z, g') ->
  graph_is g' (file_graph w0 (direct g) (weight g) v ts) /\ gv g' = v.
Proof.
  intros Hz Hemp Hv Hts Hf Hlen Hinit.
  destruct (graph_init_run fresh_i w0 fuel g v e ts Hemp Hv Hts Hf Hlen)
    as [E|[E|(g1 & l & E & Hrf & Hgv & _)]]; [by rewrite E in Hinit|by destruct (strays_not fresh_i Hz _ E)|rewrite E in Hinit].
  injection Hinit as <-. split; [|done]. split; [|split; [rewrite Hgv; apply file_graph_dom; lia|apply file_graph_closed]].
  exists l. destruct Hrf as [H1 H2' H3 H4 H5 H6]. split; try done. intros r Hr. destruct (H2' r Hr) as (b & gb & adj & ? & ? & ? & ? & Hbr).
  rewrite Hz in Hbr. by exists b, gb, adj.
Qed.

Lemma file_graph_edge (w0 : W) dir wt v ts a b : (0 <= v)%Z -> edge (file_graph w0 dir wt v ts) a b <-> file_edge dir v ts a b.
Proof.
  intros Hv. pose proof (file_graph_dom w0 dir wt v ts Hv a) as Hd. unfold edge, file_edge. split.
  - intros (adj & E & Hb). assert (Ha : (0 <= a < v)%Z) by (apply Hd; by eexists).
    destruct (file_graph_neighbours w0 dir wt v ts a Ha) as (adj' & E' & Hn). split; [done|]. rewrite <- Hn. congruence.
  - intros [Ha Hb]. destruct (file_graph_neighbours w0 dir wt v ts a Ha) as (adj' & E' & Hn). exists adj'. split; [done|]. by rewrite Hn.
Qed.
End dfs.
