(* ===== verification/GraphStr.v ===== *)
(** [graph_c_str] of src/algs/algorithms4th/graph.cpp: a graph printed into a
    caller's buffer, with the protocol of calling twice, first without a buffer to
    learn the length.  [snprintf] is the C library's: it writes at most the given
    number of characters, the terminating NUL included, and returns the length of
    the whole text. *)
From S2P Require Import Prelude NodePool OrdSpec Graph GraphDfs.
From stdpp Require Import strings pretty.
From Stdlib Require Import Ascii.

(** * The code *)
Section graph_str.
Context {nloc bloc : Type} `{Countable nloc} `{Countable bloc} {W : Type}.
Context {T NP BP : Type} `{TM : !TreeMap T (bagref bloc) graph_node_cmp}.
Context (fmt_f : W -> list ascii).
Abbreviation graph := (@graph nloc bloc _ _ _ _ W T NP BP).
Abbreviation graph_bag := (@graph_bag nloc W).

Definition NUL : ascii := "000".
Definition newline : ascii := "010".
Definition tab : ascii := "009".
Definition chars (s : string) : list ascii := String.list_ascii_of_string s.
(** The conversion [%d]. *)
Definition fmt_d (z : Z) : list ascii := chars (pretty z).

(** [snprintf(buf + off, len, ...)] of the text [s]. *)
Definition snprintf (buf : list ascii) (off len : Z) (s : list ascii) : res (list ascii) :=
  let k := Z.to_nat (len - 1) in
  let w := take k s ++ [NUL] in
  if (0 <=? off)%Z && (0 <? len)%Z && (off + Z.of_nat (length w) <=? Z.of_nat (length buf))%Z
  then Ok (take (Z.to_nat off) buf ++ w ++ drop (Z.to_nat off + length w) buf)
  else Stop OutOfBounds.

(** The buffer of the caller and the number of characters so far. *)
Abbreviation out_st := (option (list ascii) * Z)%type.

(** One [snprintf], into [buf + n] while there is room and into [tmp] otherwise. *)
Definition put (len : Z) (s : list ascii) (o : out_st) : res out_st :=
  let n' := (o.2 + Z.of_nat (length s))%Z in
  match o.1 with
  | Some buf =>
      if (o.2 <? len)%Z then buf ← snprintf buf o.2 (len - o.2) s; Ok (Some buf, n')
      else Ok (o.1, n')
  | None => Ok (o.1, n')
  end.

(** [if(buf && len > n) buf[n] = '\n'; ++n;] *)
Definition put_newline (len : Z) (o : out_st) : res out_st :=
  match o.1 with
  | Some buf =>
      if (o.2 <? len)%Z then buf ← aset buf o.2 newline; Ok (Some buf, (o.2 + 1)%Z)
      else Ok (o.1, (o.2 + 1)%Z)
  | None => Ok (o.1, (o.2 + 1)%Z)
  end.

(** The neighbours [j, ..., j + todo - 1] of a bag. *)
Fixpoint put_adj (g : graph) (len : Z) (gb : graph_bag) (j todo : nat) (o : out_st) : res out_st :=
  match todo with
  | O => Ok o
  | S todo =>
      x ← aget (bv gb) (Z.of_nat j);
      '(k, _) ← node_key x g;
      pre ← (if weight g then
               match bw gb with
               | None => Stop NullDeref
               | Some ws =>
                   w ← aget ws (Z.of_nat j);
                   match w with
                   | None => Stop Uninit
                   | Some w => Ok (chars "(" ++ fmt_f w ++ chars ")")
                   end
               end
             else Ok []);
      o ← put len (pre ++ fmt_d k ++ chars ", ") o;
      put_adj g len gb (S j) todo o
  end.

Fixpoint put_vertices (g : graph) (len : Z) (vers : list (option (bagref bloc))) (i todo : nat)
    (o : out_st) : res out_st :=
  match todo with
  | O => Ok o
  | S todo =>
      r ← aget vers (Z.of_nat i);
      match r with
      | None => Stop Uninit
      | Some (mkRef None _) => put_vertices g len vers (S i) todo o
      | Some (mkRef (Some b) _) =>
          '(gb, _) ← get_bag b g;
          if (bi gb =? 0)%Z then put_vertices g len vers (S i) todo o
          else
            '(k, _) ← node_key (Some (bnode gb)) g;
            o ← put len (tab :: fmt_d k ++ chars ": ") o;
            o ← put_adj g len gb 0 (Z.to_nat (bi gb)) o;
            o ← put_newline len o;
            put_vertices g len vers (S i) todo o
      end
  end.

(** Whether [buf] is returned (and not NULL), its content, and [len]. *)
Definition graph_c_str (g : graph) (buf : option (list ascii)) (len : Z)
    : res (bool * option (list ascii) * Z) :=
  let len := match buf with None => 0%Z | Some _ => len end in
  '(vers, vlen) ← tm_walk (replicate (Z.to_nat (gv g)) None) (gtr g);
  '(buf, n) ← put_vertices g len vers 0 (Z.to_nat vlen) (buf, 0%Z);
  match buf with
  | None => Ok (false, None, n)
  | Some b =>
      if (len <? n)%Z then Ok (false, Some b, n)
      else b ← aset b (u64 (n - 1)) NUL; Ok (true, Some b, len)
  end.
End graph_str.

(** * The text of an abstract graph *)
Section text.
Context {W : Type} (fmt_f : W -> list ascii).

(** The output as a sequence of [snprintf]s and line ends. *)
Inductive act := APut (s : list ascii) | ANewline.

Definition act_text (a : act) : list ascii :=
  match a with APut s => s | ANewline => [newline] end.

Definition entry_text (kw : Z * option W) : list ascii :=
  match kw.2 with Some w => chars "(" ++ fmt_f w ++ chars ")" | None => [] end ++
  fmt_d kw.1 ++ chars ", ".

Definition vertex_acts (k : Z) (adj : list (Z * option W)) : list act :=
  match adj with
  | [] => []
  | _ => APut (tab :: fmt_d k ++ chars ": ") :: ((fun kw => APut (entry_text kw)) <$> adj) ++ [ANewline]
  end.

(** The text of the vertices [ks]: a line for each that has neighbours. *)
Definition graph_acts (m : gmap Z (list (Z * option W))) (ks : list Z) : list act :=
  concat ((fun k => vertex_acts k (default [] (m !! k))) <$> ks).
Definition graph_text (m : gmap Z (list (Z * option W))) (ks : list Z) : list ascii :=
  concat (act_text <$> graph_acts m ks).

Fixpoint run (len : Z) (acts : list act) (o : option (list ascii) * Z)
    : res (option (list ascii) * Z) :=
  match acts with
  | [] => Ok o
  | APut s :: acts => o ← put len s o; run len acts o
  | ANewline :: acts => o ← put_newline len o; run len acts o
  end.

Lemma run_app len a1 a2 o : run len (a1 ++ a2) o = (o ← run len a1 o; run len a2 o).
Proof.
  revert o. induction a1 as [|[s|] a1 IH]; intros o; cbn [run app]; [done|..].
  - destruct (put len s o); cbn; [apply IH|done].
  - destruct (put_newline len o); cbn; [apply IH|done].
Qed.

(** Without a buffer only the length is computed. *)
Lemma run_none len acts n :
  run len acts (None, n) = Ok (None, (n + Z.of_nat (length (concat (act_text <$> acts))))%Z).
Proof.
  revert n. induction acts as [|[s|] acts IH]; intros n; cbn [run].
  - cbn. by rewrite Z.add_0_r.
  - unfold put. cbn [fst snd]. rewrite bind_ok, IH. cbn. rewrite length_app. do 2 f_equal. lia.
  - unfold put_newline. cbn [fst snd]. rewrite bind_ok, IH. cbn. do 2 f_equal. lia.
Qed.

(** With a buffer of at least [len] characters nothing is written beyond [len]. *)
Lemma snprintf_ok (buf : list ascii) n len s :
  (0 <= n < len)%Z -> (len <= Z.of_nat (length buf))%Z ->
  exists buf', snprintf buf n (len - n) s = Ok buf' /\ length buf' = length buf /\
    ((n + Z.of_nat (length s) < len)%Z ->
     buf' = take (Z.to_nat n) buf ++ s ++ NUL :: drop (Z.to_nat n + length s + 1) buf).
Proof.
  intros Hn Hlen. unfold snprintf.
  assert (Hw : (n + Z.of_nat (length (take (Z.to_nat (len - n - 1)) s ++ [NUL])) <= len)%Z).
  { rewrite length_app, length_take. cbn. lia. }
  rewrite (proj2 (Z.leb_le 0 n)), (proj2 (Z.ltb_lt 0 (len - n))), (proj2 (Z.leb_le _ _)) by lia.
  cbn [andb]. eexists. split; [done|]. split.
  - set (w := take _ s ++ _) in *. rewrite length_app, (length_app w), length_take, length_drop. lia.
  - intros Hs. rewrite (take_ge s) by lia. rewrite length_app. cbn [length].
    by rewrite <- app_assoc, Nat.add_assoc.
Qed.

Lemma run_some_length len acts buf n :
  (0 <= n)%Z -> (len <= Z.of_nat (length buf))%Z ->
  exists buf', run len acts (Some buf, n) =
      Ok (Some buf', (n + Z.of_nat (length (concat (act_text <$> acts))))%Z) /\
    length buf' = length buf.
Proof.
  revert buf n. induction acts as [|[s|] acts IH]; intros buf n Hn Hlen; cbn [run].
  - exists buf. cbn. by rewrite Z.add_0_r.
  - unfold put. cbn [fst snd]. destruct (Z.ltb_spec n len) as [Hlt|Hge].
    + destruct (snprintf_ok buf n len s ltac:(lia) Hlen) as (buf1 & -> & Hl1 & _). rewrite !bind_ok.
      destruct (IH buf1 (n + Z.of_nat (length s))%Z ltac:(lia) ltac:(lia)) as (buf' & -> & Hl').
      exists buf'. cbn. rewrite length_app. split; [do 2 f_equal; lia|lia].
    + rewrite bind_ok. destruct (IH buf (n + Z.of_nat (length s))%Z ltac:(lia) Hlen) as (buf' & -> & Hl').
      exists buf'. cbn. rewrite length_app. split; [do 2 f_equal; lia|lia].
  - unfold put_newline. cbn [fst snd]. destruct (Z.ltb_spec n len) as [Hlt|Hge].
    + rewrite aset_Z by lia. rewrite !bind_ok.
      destruct (IH (<[Z.to_nat n := newline]> buf) (n + 1)%Z ltac:(lia)) as (buf' & -> & Hl');
        [by rewrite length_insert|].
      exists buf'. rewrite length_insert in Hl'. cbn. split; [do 2 f_equal; lia|lia].
    + rewrite bind_ok. destruct (IH buf (n + 1)%Z ltac:(lia) Hlen) as (buf' & -> & Hl').
      exists buf'. cbn. split; [do 2 f_equal; lia|lia].
Qed.

(** What is in the buffer when everything so far has fitted: the text [t], then one
    character that may have been overwritten, then the old content. *)
Definition holds (b0 buf t : list ascii) : Prop :=
  exists c, buf = t ++ c :: drop (S (length t)) b0 /\ length t < length b0.

Lemma holds_put b0 buf t s len :
  holds b0 buf t -> (len <= Z.of_nat (length b0))%Z ->
  (Z.of_nat (length t + length s) < len)%Z ->
  exists buf', put len s (Some buf, Z.of_nat (length t)) =
      Ok (Some buf', Z.of_nat (length (t ++ s))) /\ holds b0 buf' (t ++ s).
Proof.
  intros (c & -> & Ht) Hlen Hs. unfold put. cbn [fst snd].
  assert (Hbl : length (t ++ c :: drop (S (length t)) b0) = length b0).
  { rewrite length_app. cbn. rewrite length_drop. lia. }
  rewrite (proj2 (Z.ltb_lt _ _)) by lia.
  destruct (snprintf_ok (t ++ c :: drop (S (length t)) b0) (Z.of_nat (length t)) len s
    ltac:(lia) ltac:(lia)) as (buf' & -> & _ & Hb).
  rewrite bind_ok. exists buf'. split; [rewrite length_app; do 2 f_equal; lia|].
  rewrite Hb by lia. rewrite Nat2Z.id, take_app_length. exists NUL. split; [|rewrite length_app; lia].
  rewrite <- app_assoc, <- Nat.add_assoc, drop_app_add, Nat.add_1_r. cbn [drop].
  by rewrite drop_drop, length_app.
Qed.

Lemma holds_newline b0 buf t len :
  holds b0 buf t -> (len <= Z.of_nat (length b0))%Z -> (Z.of_nat (length t) < len)%Z ->
  put_newline len (Some buf, Z.of_nat (length t)) =
    Ok (Some (t ++ newline :: drop (S (length t)) b0), (Z.of_nat (length t) + 1)%Z).
Proof.
  intros (c & -> & Ht) Hlen Hs. unfold put_newline. cbn [fst snd].
  rewrite (proj2 (Z.ltb_lt _ _)) by lia.
  rewrite aset_nat by (rewrite length_app; cbn; lia). rewrite bind_ok.
  by rewrite insert_app_r_alt, Nat.sub_diag by lia.
Qed.

Lemma run_puts b0 len ss buf t :
  holds b0 buf t -> (len <= Z.of_nat (length b0))%Z ->
  (Z.of_nat (length t + length (concat ss)) < len)%Z ->
  exists buf', run len (APut <$> ss) (Some buf, Z.of_nat (length t)) =
      Ok (Some buf', Z.of_nat (length (t ++ concat ss))) /\ holds b0 buf' (t ++ concat ss).
Proof.
  revert buf t. induction ss as [|s ss IH]; intros buf t Hh Hlen Hs;
    cbn [fmap list_fmap run concat].
  { exists buf. by rewrite app_nil_r. }
  cbn [concat] in Hs. rewrite length_app in Hs.
  destruct (holds_put b0 buf t s len Hh Hlen ltac:(lia)) as (buf1 & -> & Hh1). rewrite bind_ok.
  destruct (IH buf1 (t ++ s) Hh1 Hlen) as (buf' & E & Hh'); [rewrite length_app; lia|].
  exists buf'. rewrite <- app_assoc in E, Hh'. by split.
Qed.

Lemma exact_holds b0 t : length t < length b0 -> holds b0 (t ++ drop (length t) b0) t.
Proof.
  intros Ht. destruct (lookup_lt_is_Some_2 b0 (length t) Ht) as [c Hc].
  exists c. by rewrite (drop_S _ _ _ Hc).
Qed.

Lemma text_puts ss : concat (act_text <$> (APut <$> ss)) = concat ss.
Proof. induction ss as [|s ss IH]; cbn; [done|]. by rewrite IH. Qed.

(** One line. *)
Lemma run_vertex b0 len k adj t :
  (len <= Z.of_nat (length b0))%Z ->
  (Z.of_nat (length (t ++ concat (act_text <$> vertex_acts k adj))) <= len)%Z ->
  let t' := t ++ concat (act_text <$> vertex_acts k adj) in
  run len (vertex_acts k adj) (Some (t ++ drop (length t) b0), Z.of_nat (length t)) =
    Ok (Some (t' ++ drop (length t') b0), Z.of_nat (length t')).
Proof.
  intros Hlen Hfit t'. subst t'. destruct adj as [|kw adj]; [cbn; by rewrite app_nil_r|].
  set (ss := (tab :: fmt_d k ++ chars ": ") :: (entry_text <$> kw :: adj)).
  assert (Ha : vertex_acts k (kw :: adj) = (APut <$> ss) ++ [ANewline]).
  { unfold ss. cbn [vertex_acts fmap list_fmap app]. by rewrite <- list_fmap_compose. }
  rewrite Ha in *. clearbody ss. clear Ha. rewrite fmap_app, concat_app, text_puts in *.
  change (concat (act_text <$> [ANewline])) with [newline] in *.
  rewrite !length_app in Hfit. cbn [length] in Hfit.
  destruct (run_puts b0 len ss (t ++ drop (length t) b0) t) as (buf' & E & Hh).
  { apply exact_holds. lia. }
  { done. }
  { lia. }
  rewrite run_app, E, bind_ok. cbn [run].
  rewrite (holds_newline b0 buf' _ len Hh Hlen) by (rewrite length_app; lia).
  rewrite bind_ok. do 2 f_equal.
  - rewrite !length_app. cbn [length]. f_equal. rewrite <- !app_assoc. do 4 f_equal. cbn. f_equal. lia.
  - rewrite !length_app. cbn [length]. lia.
Qed.

Lemma run_graph b0 len m ks t :
  (len <= Z.of_nat (length b0))%Z -> (Z.of_nat (length (t ++ graph_text m ks)) <= len)%Z ->
  run len (graph_acts m ks) (Some (t ++ drop (length t) b0), Z.of_nat (length t)) =
  Ok (Some ((t ++ graph_text m ks) ++ drop (length (t ++ graph_text m ks)) b0),
      Z.of_nat (length (t ++ graph_text m ks))).
Proof.
  intros Hlen. revert t. unfold graph_text, graph_acts.
  induction ks as [|k ks IH]; intros t Hfit; cbn [fmap list_fmap concat] in *.
  { cbn. by rewrite app_nil_r. }
  rewrite fmap_app, concat_app in *.
  rewrite run_app, (run_vertex b0 len k);
    [|done|rewrite length_app; rewrite !length_app in Hfit; lia].
  rewrite bind_ok, IH; rewrite <- !app_assoc; [done|exact Hfit].
Qed.
End text.

(** * The code prints the text of the graph *)
Section graph_str_proofs.
Context {nloc bloc : Type} `{Countable nloc} `{Countable bloc} {W : Type}.
Context {T NP BP : Type} `{TM : !TreeMap T (bagref bloc) graph_node_cmp}.
Context `{NN : !NodeAlloc NP nloc} `{NB : !NodeAlloc BP bloc}.
Context (fresh_i : bloc -> nat) (w0 : W) (fmt_f : W -> list ascii).
Abbreviation graph := (@graph nloc bloc _ _ _ _ W T NP BP).
Abbreviation agraph := (gmap Z (list (Z * option W))).
Implicit Types (g : graph) (m : agraph).

Lemma put_adj_run g gb adj len j todo o :
  bag_rep (gnodes g) (weight g) 0 gb adj -> j + todo = length adj ->
  put_adj fmt_f g len gb j todo o =
  run len ((fun kw => APut (entry_text fmt_f kw)) <$> drop j adj) o.
Proof.
  intros Hbr. revert j o. induction todo as [|todo IH]; intros j o Hj; cbn [put_adj].
  { by rewrite drop_ge by lia. }
  destruct (lookup_lt_is_Some_2 adj j ltac:(lia)) as [[k ow] Hkw].
  rewrite (drop_S _ _ _ Hkw). cbn [fmap list_fmap run].
  destruct (Forall2_lookup_r _ _ _ _ _ (br_v _ _ _ _ _ Hbr) Hkw) as (s & Hs & n & -> & Hn).
  apply lookup_take_Some in Hs as [Hs _]. rewrite drop_0 in Hs.
  rewrite (aget_nat _ _ _ Hs), bind_ok, (node_key_some _ _ _ Hn), bind_ok.
  pose proof (br_w _ _ _ _ _ Hbr) as Hw. destruct (weight g).
  - destruct Hw as (ws & -> & _ & Hws & Hall).
    assert (Hwj : ws !! j = Some ow).
    { rewrite drop_0 in Hws. assert (E : take (length adj) ws !! j = Some ow) by (by rewrite Hws, list_lookup_fmap, Hkw).
      by apply lookup_take_Some in E as [? _]. }
    rewrite (aget_nat _ _ _ Hwj), bind_ok.
    rewrite Forall_forall in Hall. destruct (Hall (k, ow)) as [w Ew]; [by eapply list_elem_of_lookup_2|].
    cbn in Ew. subst ow. rewrite bind_ok.
    change ((chars "(" ++ fmt_f w ++ chars ")") ++ fmt_d (k, Some w).1 ++ chars ", ")
      with (entry_text fmt_f (k, Some w)).
    destruct (put len _ o) as [o'|]; [|done]. rewrite !bind_ok. apply IH. lia.
  - destruct Hw as [_ Hall]. rewrite Forall_forall in Hall.
    pose proof (Hall (k, ow) ltac:(by eapply list_elem_of_lookup_2)) as Ew. cbn in Ew. subst ow.
    rewrite bind_ok.
    change ([] ++ fmt_d (k, @None W).1 ++ chars ", ") with (entry_text fmt_f (k, @None W)).
    destruct (put len _ o) as [o'|]; [|done]. rewrite !bind_ok. apply IH. lia.
Qed.

Lemma vertex_acts_cons k (adj : list (Z * option W)) :
  adj <> [] -> vertex_acts fmt_f k adj =
  APut (tab :: fmt_d k ++ chars ": ") :: ((fun kw => APut (entry_text fmt_f kw)) <$> adj) ++ [ANewline].
Proof. by destruct adj. Qed.

Lemma put_vertices_run g l m len rest i todo o :
  refines (fun _ => 0) g l m -> i + todo = length l ->
  put_vertices fmt_f g len ((Some <$> l) ++ rest) i todo o =
  run len (graph_acts fmt_f m (bag_key <$> drop i l)) o.
Proof.
  intros Hrf. revert i o. induction todo as [|todo IH]; intros i o Hi; cbn [put_vertices].
  { by rewrite drop_ge by lia. }
  destruct (lookup_lt_is_Some_2 l i ltac:(lia)) as [r Hr].
  assert (Hget : ((Some <$> l) ++ rest) !! i = Some (Some r)).
  { rewrite lookup_app_l by (rewrite length_fmap; lia). by rewrite list_lookup_fmap, Hr. }
  rewrite (aget_nat _ _ _ Hget), bind_ok, (drop_S _ _ _ Hr).
  destruct (rf_bags _ _ _ _ Hrf r ltac:(by eapply list_elem_of_lookup_2))
    as (b & gb & adj & Hb & Hgb & Hn & Hm & Hbr).
  destruct r as [rb rk]. cbn in Hb, Hn, Hm. subst rb.
  unfold graph_acts. cbn [fmap list_fmap concat bag_key]. rewrite Hm. cbn [default from_option]. unfold id.
  fold (graph_acts fmt_f m (bag_key <$> drop (S i) l)).
  assert (Hgbag : get_bag b g = Ok (gb, g)) by (unfold get_bag; by rewrite Hgb).
  rewrite Hgbag, bind_ok. rewrite (br_i _ _ _ _ _ Hbr).
  destruct adj as [|kw adj].
  { cbn [length]. rewrite Z.eqb_refl. cbn [vertex_acts app]. apply IH. lia. }
  rewrite (proj2 (Z.eqb_neq _ _)) by (cbn; lia). rewrite (node_key_some _ _ _ Hn), bind_ok.
  rewrite run_app, vertex_acts_cons by done. set (adj' := kw :: adj) in *. cbn [run].
  destruct (put len _ o) as [o1|]; [|done]. rewrite !bind_ok, Nat2Z.id.
  rewrite (put_adj_run g gb adj' len 0) by done. rewrite drop_0.
  rewrite run_app. destruct (run len _ o1) as [o2|]; [|done]. rewrite !bind_ok. cbn [run].
  destruct (put_newline len o2) as [o3|]; [|done]. rewrite !bind_ok. apply IH. lia.
Qed.

(** [graph_c_str] and its buffer.  For a graph [graph_init] has read, let [text]
    be its lines; the counters of new bags began at 0.  Without a buffer the call returns NULL and the length of the text.
    With a buffer of [len] characters it never writes outside the buffer: when the
    text does not fit it returns NULL and the length; when it fits (and there is an
    edge) it returns the buffer, which then holds the text with the last line end
    replaced by NUL, and nothing behind it has changed. *)
Theorem graph_c_str_correct fuel g v e ts g' :
  (forall b, fresh_i b = 0) -> empty_graph g -> (0 <= v <= 2 ^ 31)%Z -> all_nums ts ->
  length ts < fuel -> (Z.of_nat (length ts) < 2 ^ 52)%Z ->
  graph_init fresh_i w0 fuel (TNum v :: TNum e :: ts) g = Ok (0%Z, g') ->
  let text := graph_text fmt_f (file_graph w0 (direct g) (weight g) v ts) (seqZ 0 v) in
  let n := Z.of_nat (length text) in
  (n < 2 ^ 64)%Z ->
  graph_c_str fmt_f g' None 0 = Ok (false, None, n) /\
  forall buf len, len = Z.of_nat (length buf) ->
    ((len < n)%Z -> exists buf', graph_c_str fmt_f g' (Some buf) len = Ok (false, Some buf', n)) /\
    ((0 < n <= len)%Z ->
       graph_c_str fmt_f g' (Some buf) len =
       Ok (true, Some (removelast text ++ NUL :: drop (length text) buf), len)).
Proof.
  intros Hz Hemp Hv Hts Hf Hlen Hinit text n Hn.
  destruct (graph_init_is fresh_i w0 fuel g v e ts g' Hz Hemp ltac:(lia) Hts Hf Hlen Hinit) as [((l & Hrf) & _) Hgv]. clear Hinit. rename g' into g1.
  set (m := file_graph w0 (direct g) (weight g) v ts) in *.
  pose proof (vertex_keys _ g1 l m v Hrf ltac:(lia) (file_graph_dom w0 (direct g) (weight g) v ts ltac:(lia))) as Hkeys.
  assert (Hll : length l = Z.to_nat v) by (by rewrite <- (length_fmap bag_key), Hkeys, length_seqZ).
  assert (Hwalk : tm_walk (replicate (Z.to_nat (gv g1)) None) (gtr g1) =
            Ok ((Some <$> l) ++ [], Z.of_nat (length l))).
  { rewrite Hgv. rewrite (tm_walk_ok _ _ _ (rf_tree _ _ _ _ Hrf)).
    - rewrite drop_ge; [done|]. rewrite length_replicate. lia.
    - rewrite length_replicate. lia.
    - rewrite length_replicate. lia. }
  assert (Hrun : forall len o, put_vertices fmt_f g1 len ((Some <$> l) ++ []) 0 (length l) o =
            run len (graph_acts fmt_f m (seqZ 0 v)) o).
  { intros len o. rewrite (put_vertices_run g1 l m len [] 0 (length l)) by done. by rewrite drop_0, Hkeys. }
  unfold graph_c_str.
  split; [|intros buf len ->; split].
  - rewrite Hwalk, bind_ok, Nat2Z.id. rewrite Hrun, run_none, bind_ok. done.
  - intros Hlt. rewrite Hwalk, bind_ok, Nat2Z.id. rewrite Hrun.
    destruct (run_some_length (Z.of_nat (length buf)) (graph_acts fmt_f m (seqZ 0 v)) buf 0 ltac:(lia) ltac:(lia))
      as (buf' & -> & Hl'). rewrite bind_ok. cbv beta iota. rewrite Z.add_0_l.
    fold (graph_text fmt_f m (seqZ 0 v)). fold text. fold n.
    rewrite (proj2 (Z.ltb_lt _ _)) by done. by exists buf'.
  - intros Hfit. rewrite Hwalk, bind_ok, Nat2Z.id. rewrite Hrun.
    pose proof (run_graph fmt_f buf (Z.of_nat (length buf)) m (seqZ 0 v) [] ltac:(lia) ltac:(cbn [app]; fold text; lia)) as Hr.
    cbn [app length drop] in Hr. rewrite drop_0 in Hr. fold text in Hr. change (Z.of_nat 0) with 0%Z in Hr.
    rewrite Hr, bind_ok. cbv beta iota. fold n.
    rewrite (proj2 (Z.ltb_ge _ _)) by lia. rewrite u64_small by lia.
    destruct text as [|c text' _] using rev_ind; [cbn in n; lia|].
    assert (Hn1 : (n - 1)%Z = Z.of_nat (length text')) by (unfold n; rewrite length_app; cbn; lia).
    rewrite Hn1, aset_nat by (rewrite !length_app; cbn; lia). rewrite bind_ok.
    rewrite removelast_last. do 4 f_equal. rewrite <- app_assoc.
    by rewrite insert_app_r_alt, Nat.sub_diag by lia.
Qed.
End graph_str_proofs.
