(* ===== verification/GraphRuns.v ===== *)
(** The graph over the red-black tree: the two components put together through
    [TreeMap], and runs on the sample of graph.h. *)
From S2P Require Import Prelude PTree NodePool OrdSpec RbTree Graph GraphDfs GraphStr.
From stdpp Require Import strings.
From Stdlib Require Import Ascii.

(** The tree of bags of test_graph.cpp: [node_cmp] is [graph_node_cmp], and
    [node_data_free] is NULL. *)
Abbreviation bag_tree := (rb_tree nat (bagref nat) nat).
#[export] Instance bag_tree_map : TreeMap bag_tree (bagref nat) graph_node_cmp :=
  rbtree_map graph_node_cmp false.

Definition zero_i (b : nat) : nat := 0.
Definition no_tree : bag_tree := mkRb (mkTstate None ∅) 0 [].
Abbreviation bag_graph := (@graph nat nat _ _ _ _ Z bag_tree nat nat).
Definition new_graph (dir wt : bool) : bag_graph :=
  mkGraph no_tree 0 0 0 0 dir wt [] ∅ ∅.

Lemma no_tree_ok : tm_ok no_tree [].
Proof.
  exists Leaf. split; [|done].
  split; [by apply repb_sound|split; [done|by exists 0]|constructor|exact I|].
  intros x Hx. by apply not_elem_of_nil in Hx.
Qed.

Lemma new_graph_empty dir wt : empty_graph (new_graph dir wt).
Proof. split_and!; [apply no_tree_ok|done..]. Qed.

(** The sample in the comment of [graph_init]. *)
Definition sample : list token :=
  TNum <$> [0; 5; 4; 3; 0; 1; 9; 12; 6; 4; 5; 4; 0; 2; 11; 12; 9; 10; 0; 6; 7; 8; 9; 11; 5; 3]%Z.
Definition sample_graph (dir : bool) : bag_graph :=
  match graph_init zero_i 0%Z 100 (TNum 13 :: TNum 13 :: sample) (new_graph dir false) with
  | Ok (_, g) => g
  | Stop _ => new_graph dir false
  end.

Lemma sample_init dir :
  graph_init zero_i 0%Z 100 (TNum 13 :: TNum 13 :: sample) (new_graph dir false) =
  Ok (0%Z, sample_graph dir).
Proof. destruct dir; vm_compute; reflexivity. Qed.

Lemma sample_nums : all_nums sample.
Proof. by repeat constructor. Qed.

(** The first lines of the picture in graph.h: 0: 5, 1, 2, 6 and 5: 4, 3. *)
Example sample_neighbours :
  neighbours true 13 0 sample = [5; 1; 2; 6]%Z /\ neighbours true 13 5 sample = [4; 3]%Z /\
  neighbours true 13 9 sample = [12; 10; 11]%Z /\ predecessors 13 4 sample = [5; 6]%Z.
Proof. vm_compute. done. Qed.

Example sample_dfs :
  match graph_simple_dfs 0 (sample_graph false) with
  | Ok (o, _) => o = [0; 5; 4; 3; 6; 1; 2]%Z
  | Stop _ => False
  end.
Proof. vm_compute. reflexivity. Qed.

(** New bags whose counters hold a 3 now and then. *)
Definition odd_i (b : nat) : nat := if Nat.even b then 0 else 3.
Lemma odd_i_small b : ~ 14 < odd_i b.
Proof. unfold odd_i. destruct (Nat.even b); lia. Qed.

Lemma odd_memory : match graph_init odd_i 0%Z 100 (TNum 13 :: TNum 13 :: sample) (new_graph false false) with Ok _ => True | Stop _ => False end.
Proof. vm_compute. exact I. Qed.

Lemma graph_init_correct_witness :
  exists g', graph_init odd_i 0%Z 100 (TNum 13 :: TNum 13 :: sample) (new_graph false false) = Ok (0%Z, g') /\
    (forall k, (0 <= k < 13)%Z -> exists b, graph_search k g' = Ok (Some b, g') /\ adj_from g' k (odd_i b) (neighbours false 13 k sample)).
Proof.
  destruct (graph_init_correct odd_i 0%Z 100 (new_graph false false) 13 13 sample (new_graph_empty false false) ltac:(done) sample_nums ltac:(cbn; lia) ltac:(cbn; lia))
    as [E|[[_ (b & Hb)]|(g' & E & Hk & _)]].
  - pose proof odd_memory as Hm. rewrite E in Hm. destruct Hm.
  - destruct (odd_i_small b Hb).
  - exists g'. split; [exact E|exact Hk].
Defined.

(** The counter of the first vertex begins at 100: an edge at it is written outside its array. *)
Example graph_counter_unset :
  graph_init (fun b => if decide (b = 0) then 100 else 0) 0%Z 9 [TNum 2; TNum 1; TNum 0; TNum 1] (new_graph false false) = Stop OutOfBounds.
Proof. vm_compute. reflexivity. Qed.

Lemma graph_init_spins_witness :
  graph_init zero_i 0%Z 1000 [TNum 2; TNum 1; TBad; TNum 0; TNum 1] (new_graph false false) = Stop Exited \/
  graph_init zero_i 0%Z 1000 [TNum 2; TNum 1; TBad; TNum 0; TNum 1] (new_graph false false) = Stop OutOfFuel.
Proof.
  apply (graph_init_spins zero_i 0%Z 1000 (new_graph false false) 2 1 [TNum 0; TNum 1]);
    [apply new_graph_empty|done].
Defined.

Lemma dgraph_reverse_copy_correct_witness :
  dgraph_reverse_copy zero_i 0%Z no_tree 0 0 (sample_graph true) = Stop Exited \/
  exists rg, dgraph_reverse_copy zero_i 0%Z no_tree 0 0 (sample_graph true) = Ok (Some rg) /\
    forall k, (0 <= k < 13)%Z -> adj_is rg k (predecessors 13 k sample).
Proof.
  apply (dgraph_reverse_copy_correct zero_i 0%Z ltac:(done) 100 (new_graph true false) 13 13 sample);
    [apply new_graph_empty|reflexivity|done|apply sample_nums|cbn; lia|cbn; lia|apply sample_init|
     apply no_tree_ok|exact I|exact I].
Defined.

Definition sample_edges : gmap Z (list (Z * option Z)) := file_graph 0%Z false false 13 sample.
Lemma sample_graph_is : graph_is (sample_graph false) sample_edges /\ gv (sample_graph false) = 13%Z.
Proof.
  apply (graph_init_is zero_i 0%Z 100 (new_graph false false) 13 13 sample (sample_graph false));
    [done|apply new_graph_empty|done|apply sample_nums|cbn; lia|cbn; lia|apply sample_init].
Qed.

Lemma graph_simple_dfs_correct_witness :
  exists out mk, graph_simple_dfs 0 (sample_graph false) = Ok (0%Z :: out, with_marked mk (sample_graph false)) /\ NoDup (0%Z :: out) /\
    forall y, y ∈ 0%Z :: out <-> rtc (edge sample_edges) 0%Z y.
Proof.
  destruct sample_graph_is as [Hg Hv]. apply (graph_simple_dfs_correct (sample_graph false) sample_edges 0 Hg). rewrite Hv. lia.
Defined.

(** The sample text of graph.h, a tab before and [", "] after each entry. *)
Definition no_f (w : Z) : list ascii := [].
Definition sample_text : list ascii :=
  graph_text no_f (file_graph 0%Z true false 13 sample) (seqZ 0 13).

Definition lines (l : list string) : list ascii := concat ((fun s => tab :: chars s ++ [newline]) <$> l).

Example sample_text_lines :
  sample_text = lines ["0: 5, 1, 2, 6, "; "4: 3, "; "5: 4, 3, "; "6: 4, "; "7: 8, ";
                       "9: 12, 10, 11, "; "11: 12, "].
Proof. vm_compute. reflexivity. Qed.

Lemma graph_c_str_correct_witness :
  let n := Z.of_nat (length sample_text) in
  graph_c_str no_f (sample_graph true) None 0 = Ok (false, None, n) /\
  forall buf len, len = Z.of_nat (length buf) ->
    ((len < n)%Z -> exists buf', graph_c_str no_f (sample_graph true) (Some buf) len = Ok (false, Some buf', n)) /\
    ((0 < n <= len)%Z ->
       graph_c_str no_f (sample_graph true) (Some buf) len =
       Ok (true, Some (removelast sample_text ++ NUL :: drop (length sample_text) buf), len)).
Proof.
  apply (graph_c_str_correct zero_i 0%Z no_f 100 (new_graph true false) 13 13 sample (sample_graph true));
    [done|apply new_graph_empty|done|apply sample_nums|cbn; lia|cbn; lia|apply sample_init|].
  vm_compute. reflexivity.
Defined.

(** An empty text, which a graph without edges has, makes the last assignment write
    before the buffer. *)
Example graph_c_str_no_edge :
  match graph_init zero_i 0%Z 10 [TNum 2; TNum 0] (new_graph true false) with
  | Ok (_, g) => graph_c_str no_f g (Some (replicate 8 NUL)) 8 = Stop OutOfBounds
  | Stop _ => False
  end.
Proof. vm_compute. reflexivity. Qed.
