(* ===== verification/WGraph.v ===== *)
(** The rest of src/algs/algorithms4th/graph.cpp, on the graphs of Graph.v: [wgraph_init],
    which reads an edge-weighted graph and reports progress to callbacks, and the in-place
    [dgraph_reverse]. *)
From S2P Require Import Prelude PTree NodePool OrdSpec RbTree Graph GraphRuns.

(** * The code *)

(** What [fscanf] finds next in the file: what [%d] reads and leaves of it, and what [%f] does;
    "1.5" is 1 and ".5" for [%d].  [None] is a conversion that fails and consumes nothing. *)
Inductive wtoken (W : Type) : Type :=
| WTok (as_int : option (Z * option (wtoken W))) (as_float : option (W * option (wtoken W))).
Arguments WTok {W}.

(** The calls of the four callbacks. *)
Inductive event : Type :=
| VertexBegin (total n : Z)
| VertexEnd (total n : Z)
| EdgeBegin (total n : Z)
| EdgeEnd (total n : Z).

(** Which of the four are given: the others are null pointers. *)
Record callbacks : Type := Cbs { cb_vertex_begin : bool; cb_vertex_end : bool; cb_edge_begin : bool; cb_edge_end : bool }.

Section wgraph.
Context {nloc bloc : Type} `{Countable nloc} `{Countable bloc} {W : Type}.
Context {T NP BP : Type} `{TM : !TreeMap T (bagref bloc) graph_node_cmp}.
Context `{NN : !NodeAlloc NP nloc} `{NB : !NodeAlloc BP bloc}.
Context (fresh_i : bloc -> nat) (w0 : W).
Abbreviation graph := (@graph nloc bloc _ _ _ _ W T NP BP).

(** What is left in the file when a conversion leaves [r] of a token. *)
Definition put_back (r : option (wtoken W)) (ts : list (wtoken W)) : list (wtoken W) :=
  match r with Some t => t :: ts | None => ts end.

(** One [%d] or [%zu], and one [%f]. *)
Definition scan_int (ts : list (wtoken W)) : option Z * list (wtoken W) :=
  match ts with WTok (Some (z, r)) _ :: ts => (Some z, put_back r ts) | _ => (None, ts) end.
Definition scan_float (ts : list (wtoken W)) : option W * list (wtoken W) :=
  match ts with WTok _ (Some (w, r)) :: ts => (Some w, put_back r ts) | _ => (None, ts) end.

(** [fscanf(in, "%d%d%f",  &w, &x, &we)]: [None] is EOF, [inl] a result other than 3. *)
Definition scan3 (ts : list (wtoken W)) : option (unit + Z * Z * W) * list (wtoken W) :=
  match ts with
  | [] => (None, [])
  | _ =>
      match scan_int ts with
      | (None, ts) => (Some (inl tt), ts)
      | (Some w, ts) =>
          match scan_int ts with
          | (None, ts) => (Some (inl tt), ts)
          | (Some x, ts) =>
              match scan_float ts with
              | (None, ts) => (Some (inl tt), ts)
              | (Some we, ts) => (Some (inr (w, x, we)), ts)
              end
          end
      end
  end.

(** A call through a callback: the null pointer if it is not given. *)
Definition call (given : bool) (e : event) : res (list event) := if given then Ok [e] else Stop NullDeref.

(** The loop over the vertices, the first of which is [i]. *)
Fixpoint wadd_vertices (cb : callbacks) (i n : nat) : M graph (bool * list event) :=
  match n with
  | O => mret (true, [])
  | S n =>
      r ← graph_add_vertex fresh_i (i32 (Z.of_nat i));
      if decide (r = 0%Z) then
        v ← gets gv;
        '(ok, ev) ← wadd_vertices cb (S i) n;
        mret (ok, (if cb_vertex_begin cb then [VertexBegin v (Z.of_nat i + 1)] else []) ++ ev)
      else mret (false, [])
  end.

(** The loop over the edges, for [fuel] calls of [fscanf]; [k] is the [n] of the source. *)
Fixpoint wload_edges (fuel : nat) (cb : callbacks) (ts : list (wtoken W)) (k : Z) : M graph (Z * list event) :=
  match fuel with
  | O => stop OutOfFuel
  | S fuel =>
      match scan3 ts with
      | (None, _) => mret (k, [])
      | (Some (inl _), ts) => wload_edges fuel cb ts k
      | (Some (inr (w, x, we)), ts) =>
          r ← graph_add_edge w x we;
          e ← gets ge;
          let k := u64 (k + 1) in
          '(k', ev) ← wload_edges fuel cb ts k;
          mret (k', (if cb_edge_begin cb then [EdgeBegin e (u64 (k + 1))] else []) ++ ev)
      end
  end.

Definition wgraph_init (fuel : nat) (cb : callbacks) (ts : list (wtoken W)) : M graph (Z * list event) :=
  modify (fun g => with_counts (gv g) (ge g) true g);;
  match scan_int ts with
  | (None, _) => mret ((-1)%Z, [])
  | (Some v, ts) =>
      modify (fun g => with_counts v (ge g) (weight g) g);;
      match scan_int ts with
      | (None, _) => mret ((-1)%Z, [])
      | (Some e, ts) =>
          modify (fun g => with_counts (gv g) e (weight g) g);;
          '(ok, ev1) ← wadd_vertices cb 0 (Z.to_nat v);
          if ok : bool then
            ev2 ← lift (call (cb_vertex_end cb) (VertexEnd v v));
            '(k, ev3) ← wload_edges fuel cb ts 0;
            ev4 ← lift (call (cb_edge_end cb) (EdgeEnd e k));
            mret (0%Z, ev1 ++ ev2 ++ ev3 ++ ev4)
          else mret ((-1)%Z, ev1)
      end
  end.

(** ** [dgraph_reverse] *)

(** The array [adj] of the bag [b] when its size was [size]: [realloc] ends its life. *)
Definition read_adj (b : bloc) (size : Z) (j : Z) : M graph (option nloc) :=
  gb ← get_bag b;
  if (bI gb =? size)%Z then lift (aget (bv gb) j) else stop Dangling.

(** The first loop: what [graph_adj] gives for each bag is kept ([None] for a null pointer), and the bag emptied. *)
Fixpoint take_adjs (gbs : list (option (bagref bloc))) : M graph (list (bloc * Z * option (bloc * Z * Z))) :=
  match gbs with
  | [] => mret []
  | r :: gbs =>
      match r with
      | None => stop Uninit
      | Some r =>
          match bag_at r with
          | None => take_adjs gbs
          | Some b =>
              gb ← get_bag b;
              k ← node_key (Some (bnode gb));
              found ← graph_search k;
              adj ← (match found with
                     | Some c => gc ← get_bag c; mret (Some (c, bI gc, bi gc))
                     | None => mret None
                     end);
              update_bag b (fun gb => Ok (mkBag (bnode gb) (bv gb) (bw gb) 0 (bI gb)));;
              rest ← take_adjs gbs;
              mret ((b, k, adj) :: rest)
          end
      end
  end.

(** The second loop: every neighbour kept gets an edge to the vertex. *)
Fixpoint turn_edges (k : Z) (c : bloc) (size : Z) (j : Z) (todo : nat) : M graph unit :=
  match todo with
  | O => mret tt
  | S todo =>
      a ← read_adj c size j;
      match a with
      | None => stop Uninit
      | Some n =>
          ka ← node_key (Some n);
          r ← graph_add_edge ka k w0;
          a ← read_adj c size j;
          _ ← node_key a;
          turn_edges k c size (j + 1) todo
      end
  end.
Fixpoint turn_all (adjs : list (bloc * Z * option (bloc * Z * Z))) : M graph unit :=
  match adjs with
  | [] => mret tt
  | (_, k, Some (c, size, sz)) :: adjs => turn_edges k c size 0 (Z.to_nat sz);; turn_all adjs
  | (_, _, None) :: adjs => turn_all adjs
  end.

Definition dgraph_reverse : M graph unit :=
  dir ← gets direct;
  if negb dir then mret tt
  else
    v ← gets gv;
    t ← gets gtr;
    r ← lift (tm_walk (replicate (Z.to_nat v) None) t);
    adjs ← take_adjs (take (Z.to_nat r.2) r.1);
    turn_all adjs.
End wgraph.

(** * Reading a weighted graph *)
Section correct.
Context {nloc bloc : Type} `{Countable nloc} `{Countable bloc} {W : Type}.
Context {T NP BP : Type} `{TM : !TreeMap T (bagref bloc) graph_node_cmp}.
Context `{NN : !NodeAlloc NP nloc} `{NB : !NodeAlloc BP bloc}.
Context (fresh_i : bloc -> nat).
Hypothesis fresh_zero : forall b, fresh_i b = 0.
Abbreviation graph := (@graph nloc bloc _ _ _ _ W T NP BP).
Abbreviation agraph := (gmap Z (list (Z * option W))).
Implicit Types (g : graph) (m : agraph) (es : list (Z * Z * W)).

(** The text of a list of edges: two integers and a float each. *)
Inductive edge_lines : list (wtoken W) -> list (Z * Z * W) -> Prop :=
| edge_lines_nil : edge_lines [] []
| edge_lines_cons a b w f1 f2 i3 ts es : edge_lines ts es ->
    edge_lines (WTok (Some (a, None)) f1 :: WTok (Some (b, None)) f2 :: WTok i3 (Some (w, None)) :: ts) ((a, b, w) :: es).

(** The abstract graph with the edges added. *)
Fixpoint waload (dir : bool) es m : agraph :=
  match es with
  | [] => m
  | (a, b, w) :: es => waload dir es (aadd_edge dir a b (Some w) m)
  end.

(** The neighbours of [k] with the weights of the edges, in the order of the file. *)
Fixpoint wneighbours (dir : bool) (v k : Z) es : list (Z * W) :=
  match es with
  | [] => []
  | (a, b, w) :: es =>
      (if (0 <=? a)%Z && (a <? v)%Z && ((0 <=? b)%Z && (b <? v)%Z) then
         (if (a =? k)%Z then [(b, w)] else []) ++ (if negb dir && (b =? k)%Z then [(a, w)] else [])
       else []) ++ wneighbours dir v k es
  end.

(** The neighbours and weights in the arrays of the bag of [k]. *)
Definition wadj_is g (k : Z) (kws : list (Z * W)) : Prop :=
  exists b gb ws, graph_search k g = Ok (Some b, g) /\ gbags g !! b = Some gb /\ bi gb = Z.of_nat (length kws) /\
    Forall2 (fun s k' => exists n, s = Some n /\ gnodes g !! n = Some k') (take (length kws) (bv gb)) kws.*1 /\
    bw gb = Some ws /\ take (length kws) ws = Some <$> kws.*2.

Lemma refines_wadj_is g l m k (kws : list (Z * W)) : refines fresh_i g l m -> weight g = true ->
  m !! k = Some ((fun kw => (kw.1, Some kw.2)) <$> kws) -> wadj_is g k kws.
Proof.
  intros Hrf Hw Hk. pose proof (search_run fresh_i g l m k Hrf) as Hs. rewrite Hk in Hs.
  destruct Hs as (b & gb & E & _ & Hgb & _ & [Hi _ _ Hv Hbw]). rewrite fresh_zero in *. rewrite Hw in Hbw. destruct Hbw as (ws & Ew & _ & Et & _).
  rewrite drop_0 in Hv. rewrite drop_0 in Et. rewrite length_fmap in *. exists b, gb, ws. split_and!; try done.
  - rewrite Forall2_fmap_r in Hv. rewrite Forall2_fmap_r. exact Hv.
  - rewrite Et, <- !list_fmap_compose. by apply list_fmap_ext.
Qed.

Lemma waload_neighbours dir v es : forall m, vertices_upto v m ->
  forall k adj, m !! k = Some adj ->
  waload dir es m !! k = Some (adj ++ ((fun kw => (kw.1, Some kw.2)) <$> wneighbours dir v k es)).
Proof.
  induction es as [|[[a b] w] es IH]; intros m Hdom k adj Hk; cbn [waload wneighbours]; [by rewrite app_nil_r|].
  destruct (bool_decide_reflect (is_Some (m !! a) /\ is_Some (m !! b))) as [[Ha Hb]|Hno].
  - assert (Hc : (0 <=? a)%Z && (a <? v)%Z && ((0 <=? b)%Z && (b <? v)%Z) = true)
      by (apply Hdom in Ha, Hb; lia).
    rewrite Hc. unfold aadd_edge. destruct Ha as [adja Ha], Hb as [adjb Hb]. rewrite Ha, Hb.
    set (m' := let m' := apush a b (Some w) m in if dir then m' else apush b a (Some w) m').
    assert (Hdom' : vertices_upto v m') by (intros j; subst m'; destruct dir; cbn; by rewrite ?apush_dom).
    assert (H1 : apush a b (Some w) m !! k = Some (adj ++ (if (a =? k)%Z then [(b, Some w)] else []))).
    { unfold apush. destruct (Z.eqb_spec a k) as [->|Hne]; [by rewrite lookup_alter_eq, Hk|].
      by rewrite lookup_alter_ne, app_nil_r. }
    assert (Hk' : m' !! k = Some (adj ++ (if (a =? k)%Z then [(b, Some w)] else []) ++
                                       (if negb dir && (b =? k)%Z then [(a, Some w)] else []))).
    { subst m'. destruct dir; cbn [negb andb]; [by rewrite H1, app_nil_r|].
      unfold apush at 1. destruct (Z.eqb_spec b k) as [->|Hne].
      + rewrite lookup_alter_eq, H1. cbn. by rewrite <- app_assoc.
      + by rewrite lookup_alter_ne, H1, !app_nil_r. }
    etrans; [exact (IH m' Hdom' k _ Hk')|]. f_equal. rewrite !fmap_app, <- !app_assoc.
    by destruct (a =? k)%Z, (negb dir && (b =? k)%Z).
  - assert (Hc : (0 <=? a)%Z && (a <? v)%Z && ((0 <=? b)%Z && (b <? v)%Z) = false).
    { apply not_true_iff_false. intros Hc. apply Hno. rewrite !(Hdom _). lia. }
    rewrite Hc. assert (aadd_edge dir a b (Some w) m = m) as ->.
    { unfold aadd_edge. destruct (m !! a), (m !! b); try done. destruct Hno; by split; eexists. }
    by apply IH.
Qed.

(** The calls of [cb_vertex_begin] and [cb_edge_begin]. *)
Definition vertex_events (cb : callbacks) (v : Z) (i n : nat) : list event :=
  if cb_vertex_begin cb then (fun j => VertexBegin v (Z.of_nat j + 1)) <$> seq i n else [].
Definition edge_events (cb : callbacks) (e : Z) (k n : nat) : list event :=
  if cb_edge_begin cb then (fun j => EdgeBegin e (Z.of_nat j + 2)) <$> seq k n else [].

Lemma wadd_vertices_run cb n : forall g l m i,
  refines fresh_i g l m -> (0 < gv g < 2 ^ 64)%Z \/ n = 0 -> (Z.of_nat (i + n) <= 2 ^ 31)%Z ->
  wadd_vertices fresh_i cb i n g = Stop Exited \/
  exists g' l', wadd_vertices fresh_i cb i n g = Ok ((true, vertex_events cb (gv g) i n), g') /\
    refines fresh_i g' l' (avertices i n m) /\ (forall n, roomy n g -> (64 + 64 * Z.of_nat n <= 2 ^ 60)%Z -> roomy n g') /\
    gv g' = gv g /\ ge g' = ge g /\ direct g' = direct g /\ weight g' = weight g.
Proof.
  induction n as [|n IH]; intros g l m i Hrf Hv Hi; cbn [wadd_vertices avertices].
  { right. exists g, l. unfold vertex_events. by destruct (cb_vertex_begin cb). }
  destruct Hv as [Hv|]; [|done]. rewrite i32_small by lia.
  destruct (graph_add_vertex_run fresh_i g l m (Z.of_nat i) Hrf Hv)
    as [E|(g1 & E & (l1 & Hrf1) & Hy1 & A1 & A2 & A3 & A4)].
  { left. unfold mbind, M_bind. by rewrite E. }
  rewrite (M_bind_ok _ _ _ _ _ E). rewrite decide_True by done. rewrite bind_gets. rewrite <- A1 in Hv.
  destruct (IH g1 l1 _ (S i) Hrf1 (or_introl Hv) ltac:(lia)) as [E2|(g' & l' & E2 & Hrf' & Hy' & B1 & B2 & B3 & B4)].
  { left. by apply M_bind_stop. }
  right. exists g', l'. rewrite (M_bind_ok _ _ _ _ _ E2). split; [|split_and!; [done|intros j Hj Hle; apply Hy'; [by apply Hy1|done]|congruence..]].
  unfold mret, M_ret. do 3 f_equal. rewrite A1. unfold vertex_events. by destruct (cb_vertex_begin cb).
Qed.

Lemma wload_edges_run cb ts es : edge_lines ts es -> forall fuel g l m k,
  refines fresh_i g l m -> weight g = true -> roomy (2 * length es) g -> length es < fuel ->
  (Z.of_nat (k + length es) + 1 < 2 ^ 64)%Z ->
  exists g', wload_edges fuel cb ts (Z.of_nat k) g = Ok ((Z.of_nat (k + length es), edge_events cb (ge g) k (length es)), g') /\
    refines fresh_i g' l (waload (direct g) es m) /\ same_frame g g'.
Proof.
  induction 1 as [|a b w f1 f2 i3 ts es _ IH]; intros [|fuel] g l m k Hrf Hw Hs Hf Hk; try (cbn in Hf; lia);
    cbn [wload_edges scan3 scan_int scan_float put_back waload].
  { exists g. rewrite Nat.add_0_r. unfold edge_events. split; [by destruct (cb_edge_begin cb)|]. by split. }
  cbn [length] in *. destruct (graph_add_edge_run fresh_i g l m a b w Hrf) as [Hst|(g1 & E & Hrf1 & Hf1 & Hy1)].
  { eapply roomy_le; [|exact Hs]. lia. }
  { by destruct (strays_not fresh_i fresh_zero _ Hst). }
  rewrite (M_bind_ok _ _ _ _ _ E), bind_gets.
  destruct Hf1 as (Fv & Fe & Fd & Fw & Fm & Fn). rewrite Hw in Hrf1.
  rewrite (u64_small (Z.of_nat k + 1)) by lia. replace (Z.of_nat k + 1)%Z with (Z.of_nat (S k)) by lia.
  destruct (IH fuel g1 l _ (S k) Hrf1) as (g' & E' & Hrf' & Hf'); [congruence|apply Hy1; eapply roomy_le; [|exact Hs]; lia|lia|lia|].
  rewrite (M_bind_ok _ _ _ _ _ E'). exists g'. rewrite Fd in Hrf'. split; [|split; [done|]].
  - rewrite u64_small by lia. unfold mret, M_ret. do 2 f_equal. f_equal; [lia|]. rewrite Fe. unfold edge_events.
    destruct (cb_edge_begin cb); [|done]. cbn [seq fmap list_fmap app]. do 2 f_equal. lia.
  - apply same_frame_trans with g1; [by split_and!|done].
Qed.

Definition wgraph_events (cb : callbacks) (v e : Z) (n : nat) : list event :=
  vertex_events cb v 0 (Z.to_nat v) ++ VertexEnd v v :: edge_events cb e 0 n ++ [EdgeEnd e (Z.of_nat n)].

Lemma vertices_upto_lookup v k : (0 <= k < v)%Z -> avertices 0 (Z.to_nat v) (∅ : agraph) !! k = Some [].
Proof. intros Hk. rewrite avertices_lookup, decide_True by lia. done. Qed.

Lemma wgraph_init_run fuel cb g v e ts es f1 f2 :
  empty_graph g -> (0 <= v <= 2 ^ 31)%Z -> edge_lines ts es -> length es < fuel -> (Z.of_nat (length es) < 2 ^ 52)%Z ->
  let run := wgraph_init fresh_i fuel cb (WTok (Some (v, None)) f1 :: WTok (Some (e, None)) f2 :: ts) g in
  run = Stop Exited \/
  if cb_vertex_end cb && cb_edge_end cb then
    exists g' l', run = Ok ((0%Z, wgraph_events cb v e (length es)), g') /\
      refines fresh_i g' l' (waload (direct g) es (avertices 0 (Z.to_nat v) ∅)) /\ weight g' = true
  else run = Stop NullDeref.
Proof.
  intros Hemp Hv Hes Hf Hlen run. set (g0 := with_counts v e true g).
  assert (Hrun : run = ('(ok, ev1) ← wadd_vertices fresh_i cb 0 (Z.to_nat v);
    if ok : bool then
      ev2 ← lift (call (cb_vertex_end cb) (VertexEnd v v));
      '(k, ev3) ← wload_edges fuel cb ts 0;
      ev4 ← lift (call (cb_edge_end cb) (EdgeEnd e k));
      mret (0%Z, ev1 ++ ev2 ++ ev3 ++ ev4)
    else mret ((-1)%Z, ev1)) g0) by reflexivity.
  rewrite Hrun. clear Hrun run.
  assert (Hrf0 : refines fresh_i g0 [] ∅) by (by apply empty_refines).
  destruct (wadd_vertices_run cb (Z.to_nat v) g0 [] ∅ 0 Hrf0) as [E|(g1 & l1 & E & Hrf1 & Hy1 & A1 & A2 & A3 & A4)].
  { cbn. destruct (decide (v = 0%Z)) as [->|]; [by right|left; lia]. }
  { lia. }
  { left. by apply M_bind_stop. }
  right. rewrite (M_bind_ok _ _ _ _ _ E). cbv beta iota. destruct (cb_vertex_end cb); [|done].
  rewrite (bind_lift (call true (VertexEnd v v)) _ _ _ eq_refl).
  destruct (wload_edges_run cb ts es Hes fuel g1 l1 _ 0 Hrf1) as (g' & E' & Hrf' & Hf'); [by rewrite A4| |done|lia|].
  { apply Hy1; [by apply empty_roomy|lia]. }
  change (Z.of_nat 0) with 0%Z in E'. rewrite (M_bind_ok _ _ _ _ _ E'). cbn [plus andb].
  destruct (cb_edge_end cb); [|done].
  rewrite (bind_lift (call true (EdgeEnd e (Z.of_nat (length es)))) _ _ _ eq_refl).
  exists g', l1. rewrite A3 in Hrf'. split; [|split; [done|]].
  - unfold mret, M_ret. do 3 f_equal. rewrite A2. done.
  - destruct Hf' as (_ & _ & _ & Fw & _). by rewrite Fw, A4.
Qed.

(** [wgraph_init] on a file of edges with weights, given its two end callbacks: unless memory
    runs out it returns 0, every vertex then has the neighbours and weights of the file, in
    order, and the calls of the callbacks are exactly these: each vertex counted from 1, each edge
    counted from 2. *)
Theorem wgraph_init_correct fuel cb g v e ts es f1 f2 :
  empty_graph g -> (0 <= v <= 2 ^ 31)%Z -> edge_lines ts es -> length es < fuel -> (Z.of_nat (length es) < 2 ^ 52)%Z ->
  cb_vertex_end cb = true -> cb_edge_end cb = true ->
  let run := wgraph_init fresh_i fuel cb (WTok (Some (v, None)) f1 :: WTok (Some (e, None)) f2 :: ts) g in
  run = Stop Exited \/
  exists g', run = Ok ((0%Z, wgraph_events cb v e (length es)), g') /\
    forall k, (0 <= k < v)%Z -> wadj_is g' k (wneighbours (direct g) v k es).
Proof.
  intros Hemp Hv Hes Hf Hlen C1 C2 run.
  destruct (wgraph_init_run fuel cb g v e ts es f1 f2 Hemp Hv Hes Hf Hlen) as [E|E]; [by left|]. right.
  rewrite C1, C2 in E. destruct E as (g' & l' & E & Hrf & Hw). exists g'. split; [done|]. intros k Hk.
  apply (refines_wadj_is g' l' _ k _ Hrf Hw).
  by rewrite (waload_neighbours _ v es _ (empty_dom v ltac:(lia)) k [] (vertices_upto_lookup v k Hk)).
Qed.

(** Without the end callbacks, which default to null, [wgraph_init] calls through a null pointer. *)
Theorem wgraph_init_null_callback fuel cb g v e ts es f1 f2 :
  empty_graph g -> (0 <= v <= 2 ^ 31)%Z -> edge_lines ts es -> length es < fuel -> (Z.of_nat (length es) < 2 ^ 52)%Z ->
  cb_vertex_end cb = false \/ cb_edge_end cb = false ->
  let run := wgraph_init fresh_i fuel cb (WTok (Some (v, None)) f1 :: WTok (Some (e, None)) f2 :: ts) g in
  run = Stop Exited \/ run = Stop NullDeref.
Proof.
  intros Hemp Hv Hes Hf Hlen Hc run.
  destruct (wgraph_init_run fuel cb g v e ts es f1 f2 Hemp Hv Hes Hf Hlen) as [E|E]; [by left|]. right.
  by destruct Hc as [Hc|Hc]; rewrite Hc, ?andb_false_r in E.
Qed.
End correct.

(** * Runs over the red-black tree; a weight is a number of hundredths *)
Definition int_tok (z : Z) : wtoken Z := WTok (Some (z, None)) (Some ((100 * z)%Z, None)).

(** "0.35", of which [%d] takes the 0. *)
Definition real_tok (w : Z) : wtoken Z := WTok (Some (0%Z, Some (WTok None (Some (w, None))))) (Some (w, None)).

(** The first lines of tinyEWG.txt and an edge to no vertex. *)
Definition ewg_edges : list (Z * Z * Z) := [(4, 5, 35); (4, 7, 37); (5, 7, 28); (0, 7, 16); (0, 9, 1); (7, 7, 2)]%Z.
Definition ewg_text : list (wtoken Z) := '(a, b, w) ← ewg_edges; [int_tok a; int_tok b; real_tok w].
Definition all_callbacks : callbacks := Cbs true true true true.

Lemma wgraph_init_correct_witness :
  let run := wgraph_init zero_i 100 all_callbacks (int_tok 8 :: int_tok 6 :: ewg_text) (new_graph false true) in
  run = Stop Exited \/
  exists g', run = Ok ((0%Z, wgraph_events all_callbacks 8 6 6), g') /\
    forall k, (0 <= k < 8)%Z -> wadj_is g' k (wneighbours false 8 k ewg_edges).
Proof.
  apply (wgraph_init_correct zero_i ltac:(done) 100 all_callbacks (new_graph false true) 8 6 ewg_text ewg_edges);
    [apply new_graph_empty|done|repeat constructor|cbn; lia|cbn; lia|reflexivity|reflexivity].
Defined.

Example ewg_neighbours : wneighbours false 8 7 ewg_edges = [(4, 37); (5, 28); (0, 16); (7, 2); (7, 2)]%Z /\
  wneighbours false 8 0 ewg_edges = [(7, 16)]%Z.
Proof. done. Qed.

(** The first edge is reported as number 2 of 1. *)
Example first_edge_event : match wgraph_init zero_i 9 all_callbacks ((int_tok <$> [2; 1; 0; 1]%Z) ++ [real_tok 5]) (new_graph false true) with
  | Ok ((r, ev), _) => ev = [VertexBegin 2 1; VertexBegin 2 2; VertexEnd 2 2; EdgeBegin 1 2; EdgeEnd 1 1]%Z
  | Stop _ => False end.
Proof. vm_compute. reflexivity. Qed.

(** A call that leaves the callbacks to their defaults. *)
Example default_callbacks : wgraph_init zero_i 9 (Cbs false false false false) (int_tok <$> [2; 0]%Z) (new_graph false true) =
  Stop NullDeref.
Proof. vm_compute. reflexivity. Qed.

(** The keys of the neighbours of a vertex. *)
Definition adj_keys (g : bag_graph) (k : Z) : res (list Z) :=
  '(r, _) ← graph_adj k g;
  match r with
  | (None, _) => Ok []
  | (Some vs, sz) => foldr (fun s (out : res (list Z)) => '(x, _) ← node_key s g; out ← out; Ok (x :: out)) (Ok []) (take (Z.to_nat sz) vs)
  end.

(** Reversing 0 -> 1 -> 2 in place: the edge from 2 to 1 is lost, the one from 1 to 0 gains its opposite. *)
Definition path_graph : bag_graph :=
  match graph_init zero_i 0%Z 9 (TNum <$> [3; 2; 0; 1; 1; 2]%Z) (new_graph true false) with Ok (_, g) => g | Stop _ => new_graph true false end.
Example dgraph_reverse_wrong :
  match dgraph_reverse 0%Z path_graph with
  | Ok (_, g) => adj_keys path_graph 0 = Ok [1]%Z /\ adj_keys path_graph 1 = Ok [2]%Z /\
      adj_keys g 0 = Ok [1]%Z /\ adj_keys g 1 = Ok [0]%Z /\ adj_keys g 2 = Ok []
  | Stop _ => False end.
Proof. vm_compute. done. Qed.
