(* ===== verification/Chess.v ===== *)
(** The gobang board of src/chess: [chess_board_reset], the search for a line of
    equal pieces of chess_core.cpp, and the cases of chess_test.cpp.

    A [chess_pt *] is the index of the point in [board.pts].  The four arrays of
    pointers of [chess_board_find_first] are the lists of what was written to them;
    writing more than [n] pointers, which the C++ arrays do not hold, is a fault. *)
From S2P Require Import Prelude.

(** * The code *)
Record chess_pt := mkPt { px : Z; py : Z; hit : Z; win : Z }.
Record chess_board := mkBoard { pts : list chess_pt; bW : Z; bH : Z }.

Definition with_hit (h : Z) (p : chess_pt) : chess_pt := mkPt (px p) (py p) h (win p).
Definition with_win (w : Z) (p : chess_pt) : chess_pt := mkPt (px p) (py p) (hit p) w.

(** [board.pts[i].f = ...] *)
Definition update_pt (i : Z) (f : chess_pt -> chess_pt) (b : chess_board) : res chess_board :=
  p ← aget (pts b) i;
  ps ← aset (pts b) i (f p);
  Ok (mkBoard ps (bW b) (bH b)).

(** ** [chess_board_reset] *)
Fixpoint reset_row (i j : Z) (todo : nat) (b : chess_board) : res chess_board :=
  match todo with
  | O => Ok b
  | S todo =>
      b ← update_pt j (fun _ => mkPt (j `rem` bW b)%Z i 0 0) b;
      reset_row i (j + 1) todo b
  end.
Fixpoint reset_rows (i : Z) (todo : nat) (b : chess_board) : res chess_board :=
  match todo with
  | O => Ok b
  | S todo =>
      j ← ck (i * bW b);
      e ← ck ((i + 1) * bW b);
      b ← reset_row i j (Z.to_nat (e - j)) b;
      reset_rows (i + 1) todo b
  end.
Definition chess_board_reset (b : chess_board) : res chess_board :=
  reset_rows 0 (Z.to_nat (bH b)) b.

(** ** [chess_board_find_first] *)

(** One of the four lines through a point: whether its two ends are passed, and the
    points found. *)
Record line := mkLine { off1 : bool; off2 : bool; found : list Z }.

(** [if(!off && in_board){ auto & p = board.pts[y * board.W + x]; ... }] *)
Definition probe (b : chess_board) (h n : Z) (in_board : bool) (x y : Z)
    (st : bool * list Z) : res (bool * list Z) :=
  let '(off, l) := st in
  if negb off && in_board then
    m ← ck (y * bW b);
    i ← ck (m + x);
    p ← aget (pts b) i;
    if (hit p =? h)%Z then
      if (Z.of_nat (length l) <? n)%Z then Ok (off, l ++ [i]) else Stop OutOfBounds
    else Ok (true, l)
  else Ok (off, l).

(** The search of one line in one round, its two ends in the order of the source;
    the boolean says that [n] points are found. *)
Definition search_line (b : chess_board) (h n : Z) (in1 : bool) (xa ya : Z) (in2 : bool) (xb yb : Z)
    (ln : line) : res (line * bool) :=
  if negb (off1 ln) || negb (off2 ln) then
    '(o1, l) ← probe b h n in1 xa ya (off1 ln, found ln);
    '(o2, l) ← probe b h n in2 xb yb (off2 ln, l);
    Ok (mkLine o1 o2 l, (n <=? Z.of_nat (length l))%Z)
  else Ok (ln, false).

Record scan := mkScan {
  x1 : Z; x2 : Z; y1 : Z; y2 : Z;
  lr : line; tb : line; ltrb : line; lbrt : line
}.

(** One round of the [for] loop; the result is the array copied to the caller, or
    [None] for [return -1]. *)
Definition find_round (b : chess_board) (pt : chess_pt) (n : Z) (s : scan)
    : res (scan + option (list Z)) :=
  if (x1 s <? bW b)%Z || (y1 s <? bH b)%Z || (-1 <? x2 s)%Z || (-1 <? y2 s)%Z then
    let l_in := (-1 <? x2 s)%Z in let r_in := (x1 s <? bW b)%Z in
    let t_in := (-1 <? y2 s)%Z in let b_in := (y1 s <? bH b)%Z in
    '(lr, done) ← search_line b (hit pt) n l_in (x2 s) (py pt) r_in (x1 s) (py pt) (lr s);
    if (done : bool) then Ok (inr (Some (found lr))) else
    '(tb, done) ← search_line b (hit pt) n t_in (px pt) (y2 s) b_in (px pt) (y1 s) (tb s);
    if (done : bool) then Ok (inr (Some (found tb))) else
    '(ltrb, done) ← search_line b (hit pt) n (l_in && t_in) (x2 s) (y2 s) (r_in && b_in) (x1 s) (y1 s) (ltrb s);
    if (done : bool) then Ok (inr (Some (found ltrb))) else
    '(lbrt, done) ← search_line b (hit pt) n (b_in && l_in) (x2 s) (y1 s) (t_in && r_in) (x1 s) (y2 s) (lbrt s);
    if (done : bool) then Ok (inr (Some (found lbrt))) else
    x1 ← ck (x1 s + 1);
    y1 ← ck (y1 s + 1);
    x2 ← ck (x2 s - 1);
    y2 ← ck (y2 s - 1);
    Ok (inl (mkScan x1 x2 y1 y2 lr tb ltrb lbrt))
  else Ok (inr None).

Definition no_line : line := mkLine false false [].

(** An array of length 0 or less is undefined. *)
Definition chess_board_find_first (b : chess_board) (pt : chess_pt) (out : list (option Z)) (n : Z)
    : res (Z * list (option Z)) :=
  if (n <=? 0)%Z then Stop OutOfBounds
  else
    x1 ← ck (px pt + 1);
    x2 ← ck (px pt - 1);
    y1 ← ck (py pt + 1);
    y2 ← ck (py pt - 1);
    r ← loop (S (Z.to_nat (bW b + bH b))) (find_round b pt n)
          (mkScan x1 x2 y1 y2 no_line no_line no_line no_line);
    match r with
    | None => Ok ((-1)%Z, out)
    | Some l =>
        if (n <=? Z.of_nat (length out))%Z
        then Ok (0%Z, (Some <$> take (Z.to_nat n) l) ++ drop (Z.to_nat n) out)
        else Stop OutOfBounds
    end.

(** ** [chess_board_find] *)

(** [for(int i = 0; i < n - 1; ++i) pts[i]->win = 1;] *)
Fixpoint mark_wins (out : list (option Z)) (i todo : nat) (b : chess_board) : res chess_board :=
  match todo with
  | O => Ok b
  | S todo =>
      p ← aget out (Z.of_nat i);
      match p with
      | None => Stop Uninit
      | Some p => b ← update_pt p (with_win 1) b; mark_wins out (S i) todo b
      end
  end.

(** The outcome of a search: what is returned, the board and the caller's array;
    [None] when the search goes on. *)
Abbreviation outcome := (option (chess_board * list (option Z))).

Fixpoint find_row (b : chess_board) (out : list (option Z)) (n j : Z) (todo : nat) : res outcome :=
  match todo with
  | O => Ok None
  | S todo =>
      p ← aget (pts b) j;
      if (hit p =? 0)%Z then find_row b out n (j + 1) todo
      else
        m ← ck (n - 1);
        '(r, out') ← chess_board_find_first b p out m;
        if (r =? 0)%Z then
          b ← update_pt j (with_win 1) b;
          b ← mark_wins out' 0 (Z.to_nat m) b;
          Ok (Some (b, out'))
        else find_row b out' n (j + 1) todo
  end.
Fixpoint find_rows (b : chess_board) (out : list (option Z)) (n i : Z) (todo : nat) : res outcome :=
  match todo with
  | O => Ok None
  | S todo =>
      j ← ck (i * bW b);
      e ← ck ((i + 1) * bW b);
      r ← find_row b out n j (Z.to_nat (e - j));
      match r with
      | Some r => Ok (Some r)
      | None => find_rows b out n (i + 1) todo
      end
  end.
Definition chess_board_find (b : chess_board) (out : list (option Z)) (n : Z)
    : res (Z * chess_board * list (option Z)) :=
  r ← find_rows b out n 0 (Z.to_nat (bH b));
  match r with
  | Some (b, out) => Ok (0%Z, b, out)
  | None => Ok ((-1)%Z, b, out)
  end.

(** ** chess_test.cpp *)
Definition CHESS_W : Z := 10.
Definition CHESS_H : Z := 10.
Definition CHESS_N : Z := 5.

(** [board.pts[y * board.W + x].hit = h;] for each [(y, x, h)]. *)
Fixpoint set_hits (hs : list (Z * Z * Z)) (b : chess_board) : res chess_board :=
  match hs with
  | [] => Ok b
  | (y, x, h) :: hs => b ← update_pt (y * bW b + x) (with_hit h) b; set_hits hs b
  end.

(** The boards the program sets up in turn, and whether it asserts that a line is
    found. *)
Definition test_boards : list (list (Z * Z * Z) * bool) :=
  [([(3, 3, 1)], false);
   ([(3, 3, 1); (3, 4, 1)], false);
   ([(3, 3, 1); (3, 4, 1); (3, 5, 1)], false);
   ([(3, 2, 0); (3, 3, 1); (3, 4, 1); (3, 5, 1); (3, 6, 1)], false);
   ([(3, 2, 1); (3, 3, 0); (3, 4, 1); (3, 5, 1); (3, 6, 1)], false);
   ([(3, 2, 1); (3, 3, 1); (3, 4, 0); (3, 5, 1); (3, 6, 1)], false);
   ([(3, 2, 1); (3, 3, 1); (3, 4, 1); (3, 5, 0); (3, 6, 1)], false);
   ([(3, 2, 1); (3, 3, 1); (3, 4, 1); (3, 5, 1); (3, 6, 0)], false);
   ([(3, 2, 1); (3, 3, 1); (3, 4, 1); (3, 5, 1); (3, 6, 1)], true);
   ([(3, 6, 0); (4, 6, 1); (5, 6, 1); (6, 6, 1); (7, 6, 1)], false);
   ([(3, 6, 1); (4, 6, 0); (5, 6, 1); (6, 6, 1); (7, 6, 1)], false);
   ([(3, 6, 1); (4, 6, 1); (5, 6, 0); (6, 6, 1); (7, 6, 1)], false);
   ([(3, 6, 1); (4, 6, 1); (5, 6, 1); (6, 6, 0); (7, 6, 1)], false);
   ([(3, 6, 1); (4, 6, 1); (5, 6, 1); (6, 6, 1); (7, 6, 0)], false);
   ([(3, 6, 1); (4, 6, 1); (5, 6, 1); (6, 6, 1); (7, 6, 1)], true);
   ([(3, 4, 1)], false);
   ([(2, 3, 1); (3, 4, 1)], false);
   ([(2, 3, 1); (3, 4, 1); (4, 5, 1)], false);
   ([(2, 3, 1); (3, 4, 1); (4, 5, 1); (5, 6, 1)], false);
   ([(2, 3, 1); (3, 4, 0); (4, 5, 1); (5, 6, 0); (6, 7, 1)], false);
   ([(2, 3, 1); (3, 4, 0); (4, 5, 1)], false);
   ([(2, 3, 1); (3, 4, 0); (4, 5, 1); (5, 6, 1); (6, 7, 1)], false);
   ([(2, 3, 1); (3, 4, 1); (4, 5, 0); (5, 6, 1); (6, 7, 1)], false);
   ([(2, 3, 1); (3, 4, 1); (4, 5, 1); (5, 6, 0); (6, 7, 1)], false);
   ([(1, 0, 1); (2, 1, 1); (3, 2, 1); (4, 3, 1); (5, 4, 0); (6, 5, 1); (7, 6, 1); (8, 7, 1); (9, 8, 1)], false);
   ([(2, 3, 1); (3, 4, 1); (4, 5, 1); (5, 6, 1); (6, 7, 1)], true);
   ([(8, 1, 1); (7, 2, 1); (6, 3, 1); (5, 4, 1); (4, 5, 0); (3, 6, 1); (2, 7, 1); (1, 8, 1); (0, 9, 1)], false);
   ([(8, 1, 1); (7, 2, 1); (6, 3, 1); (5, 4, 1); (4, 5, 1); (3, 6, 0); (2, 7, 1); (1, 8, 2); (0, 9, 1)], true)]%Z.

Fixpoint test_run (cases : list (list (Z * Z * Z) * bool)) (b : chess_board) (out : list (option Z)) : res Z :=
  match cases with
  | [] => Ok (-1)%Z
  | (hs, wins) :: cases =>
      b ← chess_board_reset b;
      b ← set_hits hs b;
      '(r, b, out) ← chess_board_find b out CHESS_N;
      c_assert (if (wins : bool) then (r =? 0)%Z else negb (r =? 0)%Z) ≫= fun _ =>
      test_run cases b out
  end.

(** [mem] is what [malloc] returns. *)
Definition chess_test_main (mem : list chess_pt) : res Z :=
  test_run test_boards (mkBoard mem CHESS_W CHESS_H) (replicate 5 None).

(** * The rules, stated on positions *)
Definition in_board (b : chess_board) (c : Z * Z) : bool :=
  (0 <=? c.1)%Z && (c.1 <? bW b)%Z && (0 <=? c.2)%Z && (c.2 <? bH b)%Z.
Definition idx (b : chess_board) (c : Z * Z) : Z := (c.2 * bW b + c.1)%Z.
Definition hit_at (b : chess_board) (c : Z * Z) : option Z :=
  if in_board b c then hit <$> pts b !! Z.to_nat (idx b c) else None.
Definition cell (c d : Z * Z) (k : Z) : Z * Z := (c.1 + k * d.1, c.2 + k * d.2)%Z.

(** Right, down, and down along the two diagonals. *)
Definition dirs : list (Z * Z) := [(1, 0); (0, 1); (1, 1); (-1, 1)]%Z.

(** [n] equal pieces, from [c] in the direction [d]. *)
Definition has_line (b : chess_board) (n : Z) (c d : Z * Z) : bool :=
  match hit_at b c with
  | None => false
  | Some h => negb (h =? 0)%Z && forallb (fun k => bool_decide (hit_at b (cell c d k) = Some h)) (seqZ 1 (n - 1))
  end.

Definition first_dir (b : chess_board) (n : Z) (c : Z * Z) : option (Z * Z) :=
  head (filter (fun d => has_line b n c d = true) dirs).
Fixpoint first_line (b : chess_board) (n : Z) (cs : list (Z * Z)) : option ((Z * Z) * (Z * Z)) :=
  match cs with
  | [] => None
  | c :: cs => match first_dir b n c with Some d => Some (c, d) | None => first_line b n cs end
  end.
Definition row_cells (b : chess_board) (y : Z) : list (Z * Z) := (fun x => (x, y)) <$> seqZ 0 (bW b).
Definition cells (b : chess_board) : list (Z * Z) := seqZ 0 (bH b) ≫= row_cells b.

(** The board with the points [js] marked, and the array with them filled in. *)
Definition won (js : list Z) (b : chess_board) : chess_board :=
  mkBoard (imap (fun i p => if bool_decide (Z.of_nat i ∈ js) then with_win 1 p else p) (pts b)) (bW b) (bH b).
Definition filled (js : list Z) (out : list (option Z)) : list (option Z) :=
  (Some <$> js) ++ drop (length js) out.

(** A board of the given size on which every point knows its place. *)
Record wf_board (b : chess_board) : Prop := {
  wf_W : (0 <= bW b)%Z;
  wf_H : (0 <= bH b)%Z;
  wf_len : Z.of_nat (length (pts b)) = (bW b * bH b)%Z;
  wf_wide : (2 * bW b <= INT_MAX)%Z;
  wf_high : (2 * bH b <= INT_MAX)%Z;
  wf_area : (bW b * bH b <= INT_MAX)%Z;
  wf_pos : forall x y p, in_board b (x, y) = true -> pts b !! Z.to_nat (idx b (x, y)) = Some p -> px p = x /\ py p = y
}.

(** * Positions *)
Section board.
Context (b : chess_board) (Hwf : wf_board b).

Lemma in_board_spec c : in_board b c = true <-> (0 <= c.1 < bW b)%Z /\ (0 <= c.2 < bH b)%Z.
Proof. unfold in_board. rewrite !andb_true_iff, !Z.leb_le, !Z.ltb_lt. lia. Qed.

Lemma idx_range c : in_board b c = true -> (0 <= idx b c < bW b * bH b)%Z.
Proof. rewrite in_board_spec. unfold idx. intros [Hx Hy]. nia. Qed.

Lemma idx_inj c c' : in_board b c = true -> in_board b c' = true -> idx b c = idx b c' -> c = c'.
Proof.
  rewrite !in_board_spec. unfold idx. destruct c as [x y], c' as [x' y']. cbn. intros [??] [??] E.
  assert (y = y') by nia. subst. f_equal. lia.
Qed.

Lemma hit_at_None c : hit_at b c = None <-> in_board b c = false.
Proof.
  unfold hit_at. destruct (in_board b c) eqn:E; [|done]. split; [|done].
  intros Hn. apply fmap_None in Hn. apply lookup_ge_None in Hn.
  pose proof (idx_range c E). pose proof (wf_len b Hwf). lia.
Qed.

Lemma hit_at_Some c h : hit_at b c = Some h ->
  in_board b c = true /\ exists p, pts b !! Z.to_nat (idx b c) = Some p /\ hit p = h.
Proof.
  unfold hit_at. destruct (in_board b c); [|done]. intros Hh. apply fmap_Some in Hh as (p & Hp & ->).
  split; [done|]. by exists p.
Qed.

Lemma is_int_below z : (- INT_MAX - 1 <= z <= INT_MAX)%Z -> is_int z.
Proof. unfold is_int, INT_MIN, INT_MAX. lia. Qed.

Lemma idx_ck c : in_board b c = true -> ck (c.2 * bW b) = Ok (c.2 * bW b)%Z /\ ck (c.2 * bW b + c.1) = Ok (idx b c).
Proof.
  intros Hc. pose proof (idx_range c Hc) as Hi. apply in_board_spec in Hc as [??]. pose proof (wf_area b Hwf).
  unfold idx in *. split; apply ck_ok, is_int_below; unfold INT_MAX in *; nia.
Qed.

(** ** One side of a line: the points [f 1], [f 2], ... *)
Section side.
Context (h : Z).
Implicit Types f g : nat -> Z * Z.

(** The points like the middle one among the first [r], from the middle. *)
Fixpoint cnt f (r : nat) : nat :=
  match r with
  | O => O
  | S r => if bool_decide (cnt f r = r /\ hit_at b (f (S r)) = Some h) then S r else cnt f r
  end.

Definition straight f : Prop := forall k k', k <= k' -> hit_at b (f k) = None -> hit_at b (f k') = None.

Record side_inv f (r : nat) (off : bool) : Prop := {
  side_off : off = true -> cnt f r < r;
  side_on : off = false -> cnt f r = r \/ hit_at b (f (S r)) = None
}.

Lemma cnt_le f r : cnt f r <= r.
Proof. induction r as [|r IH]; cbn; [lia|]. case_bool_decide; lia. Qed.

Lemma cnt_same f r k : 1 <= k <= cnt f r -> hit_at b (f k) = Some h.
Proof.
  induction r as [|r IH]; cbn; [lia|]. case_bool_decide as E; [|exact IH]. destruct E as [E Eh].
  intros Hk. destruct (decide (k = S r)) as [->|]; [done|]. apply IH. lia.
Qed.

Lemma cnt_ge f r : (forall k, 1 <= k <= r -> hit_at b (f k) = Some h) -> cnt f r = r.
Proof.
  induction r as [|r IH]; cbn; intros Hk; [done|]. rewrite bool_decide_true; [done|].
  split; [apply IH; intros k ?; apply Hk; lia|apply Hk; lia].
Qed.

Lemma cnt_mono f r r' : r <= r' -> cnt f r <= cnt f r'.
Proof. induction 1 as [|r' Hr IH]; [done|]. cbn. pose proof (cnt_le f r'). case_bool_decide; lia. Qed.

Lemma cnt_step f r : cnt f (S r) = cnt f r \/ (cnt f (S r) = S r /\ cnt f r = r).
Proof. cbn. case_bool_decide; [right; tauto|by left]. Qed.

Lemma cnt_quiet f r : hit_at b (f 1) <> Some h -> cnt f r = 0.
Proof.
  intros Hf. destruct (cnt f r) eqn:E; [done|]. destruct Hf. apply (cnt_same f r). lia.
Qed.

(** The points a side adds in round [S r]. *)
Definition adds f (r : nat) : list Z := (fun k => idx b (f k)) <$> seq (S (cnt f r)) (cnt f (S r) - cnt f r).

Lemma adds_length f r : length (adds f r) = cnt f (S r) - cnt f r.
Proof. unfold adds. by rewrite length_fmap, length_seq. Qed.

Lemma probe_run f r off l nn inb :
  straight f -> side_inv f r off -> inb = in_board b (f (S r)) ->
  length l + (cnt f (S r) - cnt f r) <= nn ->
  exists off', probe b h (Z.of_nat nn) inb (f (S r)).1 (f (S r)).2 (off, l) = Ok (off', l ++ adds f r) /\
    side_inv f (S r) off'.
Proof.
  intros Hst [Hoff Hon] -> Hlen. unfold probe, adds. destruct off; cbn [negb andb].
  { specialize (Hoff eq_refl). exists true. split; [|split; [|done]].
    - cbn [cnt]. rewrite bool_decide_false by lia. by rewrite Nat.sub_diag, app_nil_r.
    - cbn [cnt]. rewrite bool_decide_false by lia. lia. }
  specialize (Hon eq_refl). destruct (in_board b (f (S r))) eqn:Ein.
  2:{ apply hit_at_None in Ein. exists false. split; [|split; [done|]].
      - cbn [cnt]. rewrite bool_decide_false by (rewrite Ein; naive_solver).
        by rewrite Nat.sub_diag, app_nil_r.
      - right. apply (Hst (S r)); [lia|done]. }
  assert (Hr : cnt f r = r).
  { destruct Hon as [|Hn]; [done|]. apply hit_at_None in Hn. congruence. }
  destruct (idx_ck _ Ein) as [-> E2]. cbn [mbind res_bind]. rewrite E2. cbn [mbind res_bind].
  assert (exists p, pts b !! Z.to_nat (idx b (f (S r))) = Some p /\ hit_at b (f (S r)) = Some (hit p)) as (p & Hp & Hh).
  { pose proof (idx_range _ Ein). pose proof (wf_len b Hwf).
    destruct (lookup_lt_is_Some_2 (pts b) (Z.to_nat (idx b (f (S r))))) as [p Hp]; [lia|].
    exists p. split; [done|]. unfold hit_at. by rewrite Ein, Hp. }
  rewrite (aget_Z _ _ p); [|pose proof (idx_range _ Ein); lia|done]. cbn [mbind res_bind].
  destruct (Z.eqb_spec (hit p) h) as [Eh|Eh].
  - assert (Hc : cnt f (S r) = S r) by (cbn [cnt]; rewrite bool_decide_true by (split; congruence); done).
    rewrite Hc, Hr in *. rewrite (proj2 (Z.ltb_lt _ _)) by lia. exists false.
    replace (S r - r) with 1 by lia. split; [done|]. split; [done|]. by left.
  - assert (Hc : cnt f (S r) = r).
    { cbn [cnt]. rewrite bool_decide_false; [done|]. rewrite Hh. naive_solver. }
    rewrite Hc, Hr, Nat.sub_diag. exists true. rewrite app_nil_r. split; [done|]. split; [|done]. lia.
Qed.

(** ** The two sides of a line *)
Definition tot f g r : nat := cnt f r + cnt g r.

Record line_inv f g (ln : line) (r : nat) : Prop := {
  li_1 : side_inv f r (off1 ln);
  li_2 : side_inv g r (off2 ln);
  li_len : length (found ln) = tot f g r;
  li_f : (forall k, cnt g k = 0) -> found ln = (fun k => idx b (f k)) <$> seq 1 (cnt f r);
  li_g : (forall k, cnt f k = 0) -> found ln = (fun k => idx b (g k)) <$> seq 1 (cnt g r)
}.

Lemma adds_quiet f r : (forall k, cnt f k = 0) -> adds f r = [].
Proof. intros Hf. unfold adds. by rewrite !Hf. Qed.

Lemma seq_adds f r :
  ((fun k => idx b (f k)) <$> seq 1 (cnt f r)) ++ adds f r = (fun k => idx b (f k)) <$> seq 1 (cnt f (S r)).
Proof.
  unfold adds. pose proof (cnt_mono f r (S r) ltac:(lia)). rewrite <- fmap_app, <- seq_app. do 2 f_equal. lia.
Qed.

Lemma off_stays f r : side_inv f r true -> cnt f (S r) = cnt f r /\ side_inv f (S r) true.
Proof.
  intros [Ht _]. specialize (Ht eq_refl). destruct (cnt_step f r) as [E|[_ E]]; [|lia].
  split; [done|]. split; [lia|done].
Qed.

Lemma search_line_run f g r ln nn in1 in2 :
  straight f -> straight g -> line_inv f g ln r ->
  in1 = in_board b (f (S r)) -> in2 = in_board b (g (S r)) ->
  tot f g r < nn -> tot f g (S r) <= nn ->
  exists ln', search_line b h (Z.of_nat nn) in1 (f (S r)).1 (f (S r)).2 in2 (g (S r)).1 (g (S r)).2 ln =
    Ok (ln', bool_decide (nn <= tot f g (S r))) /\ line_inv f g ln' (S r).
Proof.
  intros Hsf Hsg [H1 H2 Hl Hf Hg] Hin1 Hin2 Hlt Hle. unfold search_line, tot in *.
  pose proof (cnt_mono f r (S r) ltac:(lia)). pose proof (cnt_mono g r (S r) ltac:(lia)).
  destruct (negb (off1 ln) || negb (off2 ln)) eqn:Eoff.
  - edestruct (probe_run f r (off1 ln) (found ln) nn in1) as (o1 & -> & Ho1); [done..|lia|].
    cbn [mbind res_bind].
    edestruct (probe_run g r (off2 ln) (found ln ++ adds f r) nn in2) as (o2 & -> & Ho2);
      [done..|rewrite length_app, adds_length; lia|].
    cbn [mbind res_bind]. eexists. split.
    + do 2 f_equal. rewrite !length_app, !adds_length.
      case_bool_decide; [apply Z.leb_le|apply Z.leb_gt]; lia.
    + split; cbn [found off1 off2]; [done|done|..].
      * rewrite !length_app, !adds_length. unfold tot. lia.
      * intros Hq. rewrite (adds_quiet g), app_nil_r, Hf by done. apply seq_adds.
      * intros Hq. rewrite (adds_quiet f), app_nil_r, Hg by done. apply seq_adds.
  - apply orb_false_iff in Eoff as [E1 E2]. apply negb_false_iff in E1, E2. rewrite E1 in H1. rewrite E2 in H2.
    apply off_stays in H1 as [Hc1 H1]. apply off_stays in H2 as [Hc2 H2].
    exists ln. split.
    + do 2 f_equal. symmetry. apply bool_decide_false. lia.
    + split; unfold tot; rewrite ?E1, ?E2, ?Hc1, ?Hc2; done.
Qed.

Lemma line_inv_0 f g : line_inv f g no_line 0.
Proof. split; try done; split; cbn; try done; by left. Qed.
End side.

(** ** The lines through a point *)
Definition fwd (c d : Z * Z) (k : nat) : Z * Z := cell c d (Z.of_nat k).
Definition back (c d : Z * Z) (k : nat) : Z * Z := cell c d (- Z.of_nat k).

Lemma in_dirs d : d ∈ dirs -> d = (1, 0)%Z \/ d = (0, 1)%Z \/ d = (1, 1)%Z \/ d = (-1, 1)%Z.
Proof. unfold dirs. rewrite !elem_of_cons, elem_of_nil. tauto. Qed.

Lemma straight_lines c d : in_board b c = true -> d ∈ dirs -> straight (fwd c d) /\ straight (back c d).
Proof.
  intros Hc Hd. apply in_board_spec in Hc.
  split; intros k k' Hk; rewrite !hit_at_None, <- !not_true_iff_false, !in_board_spec;
    apply in_dirs in Hd as [->|[->|[->| ->]]]; cbn; lia.
Qed.

Lemma has_line_spec n c d :
  has_line b n c d = true <->
  exists h, h <> 0%Z /\ hit_at b c = Some h /\ forall k, (1 <= k < n)%Z -> hit_at b (cell c d k) = Some h.
Proof.
  unfold has_line. destruct (hit_at b c) as [h|] eqn:E; [|naive_solver].
  rewrite andb_true_iff, negb_true_iff, Z.eqb_neq, forallb_forall. split.
  - intros [Hh Hk]. exists h. split_and!; [done..|]. intros k Hr. eapply bool_decide_eq_true_1, Hk.
    apply list_elem_of_In, elem_of_seqZ. lia.
  - intros (h' & Hh & [= ->] & Hk). split; [done|]. intros k Hr%list_elem_of_In%elem_of_seqZ.
    apply bool_decide_eq_true_2, Hk. lia.
Qed.

(** In the order of the search. *)
Definition before (c' c : Z * Z) : Prop := (c'.2 < c.2 \/ c'.2 = c.2 /\ c'.1 < c.1)%Z.
Definition none_before (n : Z) (c : Z * Z) : Prop :=
  forall c' d, in_board b c' = true -> before c' c -> d ∈ dirs -> has_line b n c' d = false.

Section point.
Context (h : Z) (c : Z * Z) (nn : nat) (Hh : h <> 0%Z) (Hc : hit_at b c = Some h) (Hnn : 1 <= nn).
Context (Hbefore : none_before (Z.of_nat nn + 1) c).
Let n : Z := (Z.of_nat nn + 1)%Z.

Lemma c_in : in_board b c = true.
Proof. by apply hit_at_Some in Hc as [? _]. Qed.

Lemma has_line_cnt d : has_line b n c d = true <-> cnt h (fwd c d) nn = nn.
Proof.
  rewrite has_line_spec. split.
  - intros (h' & _ & E & Hk). apply cnt_ge. intros k Hr. replace h with h' by congruence. apply Hk. unfold n. lia.
  - intros E. exists h. split_and!; [done..|]. intros k Hr. rewrite <- (Z2Nat.id k) by lia.
    apply (cnt_same h (fwd c d) nn). unfold n in Hr. lia.
Qed.

(** A line that goes on behind the point is shorter than [n]: its first point comes
    before. *)
Lemma line_total d : d ∈ dirs ->
  (forall k, cnt h (back c d) k = 0) \/ (forall r, tot h (fwd c d) (back c d) r < nn).
Proof.
  intros Hd. destruct (decide (hit_at b (back c d 1) = Some h)) as [E1|E1]; [right|left; intros k; by apply cnt_quiet].
  intros r. apply Nat.nle_gt. intros Hle. unfold tot in Hle.
  assert (Hr : 1 <= r) by (destruct r; [cbn in Hle|]; lia).
  set (B := cnt h (back c d) r) in *. set (F := cnt h (fwd c d) r) in *.
  assert (HB : 1 <= B).
  { transitivity (cnt h (back c d) 1); [|by apply cnt_mono]. cbn. by rewrite bool_decide_true. }
  assert (Hat : forall k, (- Z.of_nat B <= k <= Z.of_nat F)%Z -> hit_at b (cell c d k) = Some h).
  { intros k Hk. destruct (Z.lt_trichotomy k 0) as [Hk0|[->|Hk0]].
    - replace k with (- Z.of_nat (Z.to_nat (- k)))%Z by lia. apply (cnt_same h (back c d) r). fold B. lia.
    - unfold cell. rewrite !Z.mul_0_l, !Z.add_0_r. by destruct c.
    - rewrite <- (Z2Nat.id k) by lia. apply (cnt_same h (fwd c d) r). fold F. lia. }
  assert (Hline : has_line b n (cell c d (- Z.of_nat B)) d = true).
  { apply has_line_spec. exists h. split_and!; [done|apply Hat; lia|]. intros k Hk.
    replace (cell (cell c d (- Z.of_nat B)) d k) with (cell c d (k - Z.of_nat B))
      by (unfold cell; cbn; f_equal; lia).
    apply Hat. unfold n in Hk. lia. }
  unfold n in Hline. rewrite Hbefore in Hline; [done|..|done].
  - apply (hit_at_Some _ h), Hat. lia.
  - unfold before. apply in_dirs in Hd as [->|[->|[->| ->]]]; cbn; lia.
Qed.

Lemma tot_le d r : d ∈ dirs -> tot h (fwd c d) (back c d) r < nn -> tot h (fwd c d) (back c d) (S r) <= nn.
Proof.
  intros Hd Hlt. destruct (line_total d Hd) as [Hq|Ht]; [|specialize (Ht (S r)); lia].
  unfold tot in *. rewrite !Hq in *. destruct (cnt_step h (fwd c d) r) as [->|[-> ?]]; lia.
Qed.

Lemma reached d r : d ∈ dirs -> tot h (fwd c d) (back c d) r < nn -> nn <= tot h (fwd c d) (back c d) (S r) ->
  S r = nn /\ has_line b n c d = true /\ (forall k, cnt h (back c d) k = 0).
Proof.
  intros Hd Hlt Hle. destruct (line_total d Hd) as [Hq|Ht]; [|specialize (Ht (S r)); lia].
  unfold tot in *. rewrite !Hq in *. destruct (cnt_step h (fwd c d) r) as [E|[E ?]]; [lia|].
  assert (S r = nn) as Hr by lia. split_and!; [done| |done].
  apply has_line_cnt. by rewrite <- Hr.
Qed.

Lemma not_reached d : tot h (fwd c d) (back c d) nn < nn -> has_line b n c d = false.
Proof. intros Hlt. apply not_true_iff_false. rewrite has_line_cnt. unfold tot in Hlt. lia. Qed.

(** ** The rounds *)
Definition quiet_so_far (r : nat) : Prop := forall d, d ∈ dirs -> tot h (fwd c d) (back c d) r < nn.

Record scan_inv (r : nat) (s : scan) : Prop := {
  sc_x1 : x1 s = (c.1 + 1 + Z.of_nat r)%Z;
  sc_x2 : x2 s = (c.1 - 1 - Z.of_nat r)%Z;
  sc_y1 : y1 s = (c.2 + 1 + Z.of_nat r)%Z;
  sc_y2 : y2 s = (c.2 - 1 - Z.of_nat r)%Z;
  sc_lr : line_inv h (back c (1, 0)%Z) (fwd c (1, 0)%Z) (lr s) r;
  sc_tb : line_inv h (back c (0, 1)%Z) (fwd c (0, 1)%Z) (tb s) r;
  sc_ltrb : line_inv h (back c (1, 1)%Z) (fwd c (1, 1)%Z) (ltrb s) r;
  sc_lbrt : line_inv h (fwd c (-1, 1)%Z) (back c (-1, 1)%Z) (lbrt s) r;
  sc_quiet : quiet_so_far r
}.

(** The points after [c] on the line in the direction [d]. *)
Definition rest d : list Z := (fun k => idx b (cell c d k)) <$> seqZ 1 (Z.of_nat nn).

Lemma rest_fwd d : rest d = (fun k => idx b (fwd c d k)) <$> seq 1 nn.
Proof.
  unfold rest, seqZ. rewrite <- list_fmap_compose, Nat2Z.id, <- fmap_S_seq, <- list_fmap_compose.
  apply list_fmap_ext. intros i k _. unfold compose, fwd, cell. do 2 f_equal; lia.
Qed.

Lemma coords r :
  fwd c (1, 0)%Z (S r) = (c.1 + 1 + Z.of_nat r, c.2)%Z /\ back c (1, 0)%Z (S r) = (c.1 - 1 - Z.of_nat r, c.2)%Z /\
  fwd c (0, 1)%Z (S r) = (c.1, c.2 + 1 + Z.of_nat r)%Z /\ back c (0, 1)%Z (S r) = (c.1, c.2 - 1 - Z.of_nat r)%Z /\
  fwd c (1, 1)%Z (S r) = (c.1 + 1 + Z.of_nat r, c.2 + 1 + Z.of_nat r)%Z /\
  back c (1, 1)%Z (S r) = (c.1 - 1 - Z.of_nat r, c.2 - 1 - Z.of_nat r)%Z /\
  fwd c (-1, 1)%Z (S r) = (c.1 - 1 - Z.of_nat r, c.2 + 1 + Z.of_nat r)%Z /\
  back c (-1, 1)%Z (S r) = (c.1 + 1 + Z.of_nat r, c.2 - 1 - Z.of_nat r)%Z.
Proof. unfold fwd, back, cell. cbn [fst snd]. split_and!; f_equal; lia. Qed.

(** One line of one round: it ends the search exactly when it is complete. *)
Lemma line_step d f g r ln in1 in2 p1 p2 : d ∈ dirs -> quiet_so_far r ->
  (f = back c d /\ g = fwd c d \/ f = fwd c d /\ g = back c d) ->
  line_inv h f g ln r -> f (S r) = p1 -> g (S r) = p2 -> in1 = in_board b p1 -> in2 = in_board b p2 ->
  exists ln', search_line b h (Z.of_nat nn) in1 p1.1 p1.2 in2 p2.1 p2.2 ln =
      Ok (ln', bool_decide (nn <= tot h (fwd c d) (back c d) (S r))) /\
    line_inv h f g ln' (S r) /\
    (nn <= tot h (fwd c d) (back c d) (S r) -> S r = nn /\ has_line b n c d = true /\ found ln' = rest d).
Proof.
  intros Hd Hq Hfg Hln <- <- Hin1 Hin2. specialize (Hq d Hd).
  destruct (straight_lines c d c_in Hd) as [Hsf Hsb].
  assert (Htot : forall k, tot h f g k = tot h (fwd c d) (back c d) k).
  { intros k. unfold tot. destruct Hfg as [[-> ->]|[-> ->]]; lia. }
  pose proof (tot_le d r Hd Hq) as Hle. rewrite <- Htot in Hq, Hle.
  edestruct (search_line_run h f g r ln nn in1 in2) as (ln' & -> & Hln');
    [destruct Hfg as [[-> _]|[-> _]]; done|destruct Hfg as [[_ ->]|[_ ->]]; done|done..|].
  exists ln'. rewrite Htot. split; [done|]. split; [done|]. intros Hge. rewrite Htot in Hq.
  destruct (reached d r Hd Hq Hge) as (Hr & Hhas & Hback). split; [done|]. split; [done|].
  rewrite rest_fwd. pose proof (proj1 (has_line_cnt d) Hhas) as Hcnt. rewrite <- Hr in Hcnt.
  destruct Hfg as [[-> ->]|[-> ->]].
  - rewrite (li_g _ _ _ _ _ Hln' Hback), Hcnt. by rewrite Hr.
  - rewrite (li_f _ _ _ _ _ Hln' Hback), Hcnt. by rewrite Hr.
Qed.

Lemma first_dir_eq m : first_dir b m c =
  if has_line b m c (1, 0)%Z then Some (1, 0)%Z else if has_line b m c (0, 1)%Z then Some (0, 1)%Z
  else if has_line b m c (1, 1)%Z then Some (1, 1)%Z else if has_line b m c (-1, 1)%Z then Some (-1, 1)%Z else None.
Proof.
  unfold first_dir, dirs. rewrite !filter_cons, filter_nil.
  destruct (has_line b m c (1, 0)%Z), (has_line b m c (0, 1)%Z), (has_line b m c (1, 1)%Z), (has_line b m c (-1, 1)%Z);
    reflexivity.
Qed.

(** What the whole search of the lines through [c] finds. *)
Definition found_spec : option (list Z) := rest <$> first_dir b n c.

Lemma in_dir_1 : (1, 0)%Z ∈ dirs. Proof. by left. Qed.
Lemma in_dir_2 : (0, 1)%Z ∈ dirs. Proof. by do 2 constructor. Qed.
Lemma in_dir_3 : (1, 1)%Z ∈ dirs. Proof. by do 3 constructor. Qed.
Lemma in_dir_4 : (-1, 1)%Z ∈ dirs. Proof. by do 4 constructor. Qed.

(** No line is complete when the search has left the board. *)
Lemma outside_none r : quiet_so_far r ->
  (bW b <= c.1 + 1 + Z.of_nat r -> bH b <= c.2 + 1 + Z.of_nat r -> c.1 - 1 - Z.of_nat r <= -1 ->
   found_spec = None)%Z.
Proof.
  intros Hq Hx1 Hy1 Hx2. unfold found_spec.
  assert (Hno : forall d, d ∈ dirs -> has_line b n c d = false).
  { intros d Hd. apply not_true_iff_false. intros Hl%has_line_cnt. specialize (Hq d Hd).
    destruct (decide (nn <= r)) as [Hr|Hr].
    - pose proof (cnt_mono h (fwd c d) nn r Hr). unfold tot in Hq. lia.
    - assert (Hs : hit_at b (fwd c d (S r)) = Some h) by (apply (cnt_same h (fwd c d) nn); lia).
      apply hit_at_Some in Hs as [Hs%in_board_spec _]. unfold fwd, cell in Hs. cbn [fst snd] in Hs.
      apply in_dirs in Hd as [->|[->|[->| ->]]]; cbn [fst snd] in Hs; lia. }
  rewrite first_dir_eq, !Hno by auto using in_dir_1, in_dir_2, in_dir_3, in_dir_4. done.
Qed.

Ltac in_guard :=
  apply eq_true_iff_eq; rewrite ?andb_true_iff, in_board_spec, ?Z.ltb_lt; cbn [fst snd];
  pose proof (proj1 (in_board_spec _) c_in); lia.

Ltac full_or D :=
  match goal with |- context [bool_decide ?P] => destruct (bool_decide_reflect P) as [D|D] end.

Section rounds.
Context (pt : chess_pt) (Hx : px pt = c.1) (Hy : py pt = c.2) (Hp : hit pt = h).

Lemma has_line_of_tot d r : d ∈ dirs -> quiet_so_far r -> S r = nn ->
  ~ nn <= tot h (fwd c d) (back c d) (S r) -> has_line b n c d = false.
Proof. intros Hd Hq Hr Hn. apply not_reached. rewrite <- Hr at 1. lia. Qed.

Lemma find_round_run r s : scan_inv r s ->
  (exists s', find_round b pt (Z.of_nat nn) s = Ok (inl s') /\ scan_inv (S r) s' /\
     (Z.of_nat r < bW b + bH b)%Z) \/
  find_round b pt (Z.of_nat nn) s = Ok (inr found_spec).
Proof.
  intros [Ex1 Ex2 Ey1 Ey2 Hlr Htb Hltrb Hlbrt Hq]. unfold find_round.
  destruct (coords r) as (C1 & C2 & C3 & C4 & C5 & C6 & C7 & C8).
  pose proof (proj1 (in_board_spec _) c_in) as Hin. pose proof (wf_wide b Hwf). pose proof (wf_high b Hwf).
  destruct ((x1 s <? bW b)%Z || (y1 s <? bH b)%Z || (-1 <? x2 s)%Z || (-1 <? y2 s)%Z) eqn:Econd.
  2:{ right. rewrite !orb_false_iff, !Z.ltb_ge in Econd. do 2 f_equal. symmetry.
      apply (outside_none r); [done|lia..]. }
  rewrite !orb_true_iff, !Z.ltb_lt in Econd. rewrite Ex1, Ex2, Ey1, Ey2 in *. rewrite Hx, Hy, Hp.
  destruct (line_step (1, 0)%Z _ _ r (lr s) (-1 <? c.1 - 1 - Z.of_nat r)%Z (c.1 + 1 + Z.of_nat r <? bW b)%Z _ _
              in_dir_1 Hq (or_introl (conj eq_refl eq_refl)) Hlr C2 C1 ltac:(in_guard) ltac:(in_guard)) as (l1 & E1 & I1 & T1).
  destruct (line_step (0, 1)%Z _ _ r (tb s) (-1 <? c.2 - 1 - Z.of_nat r)%Z (c.2 + 1 + Z.of_nat r <? bH b)%Z _ _
              in_dir_2 Hq (or_introl (conj eq_refl eq_refl)) Htb C4 C3 ltac:(in_guard) ltac:(in_guard)) as (l2 & E2 & I2 & T2).
  destruct (line_step (1, 1)%Z _ _ r (ltrb s)
              ((-1 <? c.1 - 1 - Z.of_nat r)%Z && (-1 <? c.2 - 1 - Z.of_nat r)%Z)
              ((c.1 + 1 + Z.of_nat r <? bW b)%Z && (c.2 + 1 + Z.of_nat r <? bH b)%Z) _ _
              in_dir_3 Hq (or_introl (conj eq_refl eq_refl)) Hltrb C6 C5 ltac:(in_guard) ltac:(in_guard)) as (l3 & E3 & I3 & T3).
  destruct (line_step (-1, 1)%Z _ _ r (lbrt s)
              ((c.2 + 1 + Z.of_nat r <? bH b)%Z && (-1 <? c.1 - 1 - Z.of_nat r)%Z)
              ((-1 <? c.2 - 1 - Z.of_nat r)%Z && (c.1 + 1 + Z.of_nat r <? bW b)%Z) _ _
              in_dir_4 Hq (or_intror (conj eq_refl eq_refl)) Hlbrt C7 C8 ltac:(in_guard) ltac:(in_guard)) as (l4 & E4 & I4 & T4).
  cbn [fst snd] in E1, E2, E3, E4. unfold found_spec. rewrite first_dir_eq.
  assert (Hnone : forall d, d ∈ dirs -> ~ nn <= tot h (fwd c d) (back c d) (S r) -> S r = nn -> has_line b n c d = false)
    by (intros d ???; eapply has_line_of_tot; eauto).
  rewrite E1. cbn [mbind res_bind]. full_or D1.
  { right. destruct (T1 D1) as (_ & -> & ->). done. }
  rewrite E2. cbn [mbind res_bind]. full_or D2.
  { right. destruct (T2 D2) as (Hr & -> & ->). by rewrite (Hnone _ in_dir_1 D1 Hr). }
  rewrite E3. cbn [mbind res_bind]. full_or D3.
  { right. destruct (T3 D3) as (Hr & -> & ->). by rewrite (Hnone _ in_dir_1 D1 Hr), (Hnone _ in_dir_2 D2 Hr). }
  rewrite E4. cbn [mbind res_bind]. full_or D4.
  { right. destruct (T4 D4) as (Hr & -> & ->).
    by rewrite (Hnone _ in_dir_1 D1 Hr), (Hnone _ in_dir_2 D2 Hr), (Hnone _ in_dir_3 D3 Hr). }
  left. rewrite !ck_ok by (apply is_int_below; lia). cbn [mbind res_bind]. eexists. split; [done|]. split; [|lia].
  split; cbn; try done; try lia.
  intros d Hd. apply in_dirs in Hd as [->|[->|[->| ->]]]; lia.
Qed.

Lemma find_first_run out : nn <= length out ->
  chess_board_find_first b pt out (Z.of_nat nn) =
  Ok match first_dir b n c with
     | Some d => (0%Z, filled (rest d) out)
     | None => ((-1)%Z, out)
     end.
Proof.
  intros Hout. unfold chess_board_find_first. rewrite (proj2 (Z.leb_gt _ _)) by lia.
  pose proof (proj1 (in_board_spec _) c_in). pose proof (wf_wide b Hwf). pose proof (wf_high b Hwf).
  rewrite Hx, Hy, !ck_ok by (apply is_int_below; lia). cbn [mbind res_bind].
  destruct (loop_total (fun s => exists r, scan_inv r s) (fun o => o = found_spec)
              (fun s => Z.to_nat (bW b + bH b + c.1 + 1 - x1 s)) (find_round b pt (Z.of_nat nn)))
    with (fuel := S (Z.to_nat (bW b + bH b))) (s := mkScan (c.1 + 1) (c.1 - 1) (c.2 + 1) (c.2 - 1) no_line no_line no_line no_line)
    as (o & -> & ->).
  - intros s [r Hs]. destruct (find_round_run r s Hs) as [(s' & -> & Hs' & Hr)| ->]; [left|right; by eexists].
    exists s'. split; [done|]. split; [by exists (S r)|].
    rewrite (sc_x1 _ _ Hs), (sc_x1 _ _ Hs'). lia.
  - exists 0. split; cbn; try lia; try apply line_inv_0. intros d _. unfold tot. cbn. lia.
  - cbn. lia.
  - cbn [mbind res_bind]. unfold found_spec. destruct (first_dir b n c) as [d|]; [|done]. cbn [fmap option_fmap option_map].
    rewrite (proj2 (Z.leb_le _ _)) by lia. unfold filled.
    assert (length (rest d) = nn) as Hl by (unfold rest; by rewrite length_fmap, length_seqZ, Nat2Z.id).
    rewrite Nat2Z.id, Hl, take_ge by lia. done.
Qed.
End rounds.
End point.

(** ** Marking the winning points *)
Lemma won_ext js js' b0 : (forall x, x ∈ js <-> x ∈ js') -> won js b0 = won js' b0.
Proof.
  intros He. unfold won. f_equal. apply imap_ext. intros i p _. by rewrite (bool_decide_ext _ _ (He _)).
Qed.

Lemma won_nil b0 : won [] b0 = b0.
Proof.
  unfold won. destruct b0 as [ps w hh]. cbn. f_equal. rewrite (imap_ext _ (fun _ p => p)); [|done].
  apply list_eq. intros i. rewrite list_lookup_imap. by destruct (ps !! i).
Qed.

Lemma update_won i js b0 : (0 <= i < Z.of_nat (length (pts b0)))%Z ->
  update_pt i (with_win 1) (won js b0) = Ok (won (i :: js) b0).
Proof.
  intros Hi. unfold update_pt. set (ps := pts (won js b0)).
  assert (Hl : length ps = length (pts b0)) by (unfold ps, won; cbn; apply length_imap).
  destruct (lookup_lt_is_Some_2 ps (Z.to_nat i)) as [p Hp]; [lia|].
  rewrite (aget_Z _ _ p) by (done || lia). cbn [mbind res_bind]. rewrite aset_Z by lia. cbn [mbind res_bind].
  f_equal. unfold won at 3. f_equal. apply list_eq. intros k. rewrite list_lookup_imap.
  unfold ps, won in *. cbn [pts] in *. rewrite list_lookup_imap in Hp.
  destruct (decide (k = Z.to_nat i)) as [->|Hk].
  - rewrite list_lookup_insert_eq by lia.
    destruct (pts b0 !! Z.to_nat i) as [q|] eqn:Eq; [|done]. cbn in *. injection Hp as <-.
    rewrite (bool_decide_true (_ ∈ i :: js)) by (rewrite Z2Nat.id by lia; by left).
    by case_bool_decide.
  - rewrite list_lookup_insert_ne, list_lookup_imap by done. destruct (pts b0 !! k); [|done]. cbn. f_equal.
    rewrite (bool_decide_ext (Z.of_nat k ∈ i :: js) (Z.of_nat k ∈ js)); [done|].
    rewrite elem_of_cons. split; [intros [?|?]; [lia|done]|by right].
Qed.

Lemma mark_wins_run l out tl i js b0 :
  drop i out = (Some <$> l) ++ tl -> Forall (fun x => 0 <= x < Z.of_nat (length (pts b0)))%Z l ->
  mark_wins out i (length l) (won js b0) = Ok (won (l ++ js) b0).
Proof.
  revert i js. induction l as [|x l IH]; intros i js Hd Hf; [done|]. apply Forall_cons in Hf as [Hx Hf]. cbn.
  assert (Hi : out !! i = Some (Some x)) by (rewrite <- (Nat.add_0_r i), <- lookup_drop, Hd; done).
  rewrite (aget_nat _ _ _ Hi). cbn [mbind res_bind]. rewrite update_won by done. cbn [mbind res_bind].
  rewrite IH; [|by rewrite <- (Nat.add_1_r i), <- drop_drop, Hd|done].
  f_equal. apply won_ext. intros z. rewrite !elem_of_app, !elem_of_cons, elem_of_app. tauto.
Qed.

(** ** The search *)
Section search.
Context (n : Z) (Hn : (2 <= n <= INT_MAX)%Z).
Context (out : list (option Z)) (Hout : (n - 1 <= Z.of_nat (length out))%Z).

(** The points of the line, and what the search returns when it finds it. *)
Definition line_of c d : list Z := (fun k => idx b (cell c d k)) <$> seqZ 0 n.
Definition wins (cd : (Z * Z) * (Z * Z)) : chess_board * list (option Z) :=
  (won (line_of cd.1 cd.2) b, filled (tail (line_of cd.1 cd.2)) out).

Lemma first_dir_None m c : first_dir b m c = None <-> forall d, d ∈ dirs -> has_line b m c d = false.
Proof.
  rewrite first_dir_eq. split.
  - intros E d Hd. repeat case_match; try done. apply in_dirs in Hd as [->|[->|[->| ->]]]; done.
  - intros Hd. by rewrite !Hd by auto using in_dir_1, in_dir_2, in_dir_3, in_dir_4.
Qed.

Lemma first_dir_Some m c d : first_dir b m c = Some d -> d ∈ dirs /\ has_line b m c d = true.
Proof.
  rewrite first_dir_eq. intros E.
  repeat case_match; try done; injection E as <-; split;
    auto using in_dir_1, in_dir_2, in_dir_3, in_dir_4.
Qed.

Lemma none_before_next x y : none_before n (x, y) -> first_dir b n (x, y) = None -> none_before n (x + 1, y)%Z.
Proof.
  intros Hb Hf c d Hc Hbef Hd. unfold before in Hbef. cbn in Hbef.
  destruct (decide (c = (x, y))) as [->|Hne]; [by apply first_dir_None|].
  apply Hb; [done| |done]. unfold before. cbn. destruct c as [cx cy]. cbn in *.
  destruct (decide (cx = x)) as [->|]; [|lia]. destruct (decide (cy = y)) as [->|]; [done|lia].
Qed.

Lemma line_of_rest c d : line_of c d = idx b c :: rest c (Z.to_nat (n - 1)) d.
Proof.
  unfold line_of, rest. rewrite seqZ_cons by lia. rewrite fmap_cons. f_equal.
  - unfold cell. by rewrite !Z.mul_0_l, !Z.add_0_r, <- surjective_pairing.
  - rewrite Z2Nat.id by lia. do 2 f_equal; lia.
Qed.

Lemma line_in_board c d x : has_line b n c d = true -> x ∈ line_of c d -> (0 <= x < Z.of_nat (length (pts b)))%Z.
Proof.
  intros (h & _ & Hc & Hk)%has_line_spec (k & -> & Hr)%list_elem_of_fmap. apply elem_of_seqZ in Hr.
  rewrite (wf_len b Hwf). apply idx_range. destruct (decide (k = 0%Z)) as [->|].
  - unfold cell. rewrite !Z.mul_0_l, !Z.add_0_r, <- surjective_pairing. by apply hit_at_Some in Hc as [? _].
  - destruct (hit_at_Some (cell c d k) h) as [? _]; [apply Hk; lia|done].
Qed.

Lemma find_row_run y todo x : (0 <= x)%Z -> (0 <= y < bH b)%Z -> (x + Z.of_nat todo = bW b)%Z ->
  none_before n (x, y) ->
  find_row b out n (y * bW b + x) todo =
    Ok (wins <$> first_line b n ((fun x => (x, y)) <$> seqZ x (Z.of_nat todo))) /\
  (first_line b n ((fun x => (x, y)) <$> seqZ x (Z.of_nat todo)) = None -> none_before n (bW b, y)).
Proof.
  revert x. induction todo as [|todo IH]; intros x Hx Hy Hsum Hbef.
  { cbn. split; [done|]. intros _. by replace (bW b) with x by lia. }
  rewrite seqZ_cons by lia. rewrite fmap_cons. cbn [find_row first_line].
  replace (Z.succ x) with (x + 1)%Z by lia. replace (Z.pred (Z.of_nat (S todo))) with (Z.of_nat todo) by lia.
  specialize (IH (x + 1)%Z ltac:(lia) Hy ltac:(lia)). rewrite Z.add_assoc in IH.
  assert (Hin : in_board b (x, y) = true) by (apply in_board_spec; cbn; lia).
  pose proof (idx_range _ Hin) as Hr. unfold idx in Hr. cbn [fst snd] in Hr.
  destruct (lookup_lt_is_Some_2 (pts b) (Z.to_nat (y * bW b + x))) as [p Hp]; [rewrite <- (wf_len b Hwf) in Hr; lia|].
  assert (Hat : hit_at b (x, y) = Some (hit p)) by (unfold hit_at; by rewrite Hin; unfold idx; cbn [fst snd]; rewrite Hp).
  destruct (wf_pos b Hwf x y p Hin Hp) as [Epx Epy].
  rewrite (aget_Z _ _ p) by (done || lia). cbn [mbind res_bind].
  destruct (Z.eqb_spec (hit p) 0) as [E0|E0].
  - assert (Hfd : first_dir b n (x, y) = None).
    { apply first_dir_None. intros d _. apply not_true_iff_false. rewrite has_line_spec, Hat. naive_solver. }
    rewrite Hfd. apply IH, none_before_next; done.
  - rewrite ck_ok by (apply is_int_below; lia). cbn [mbind res_bind].
    set (nn := Z.to_nat (n - 1)). replace (n - 1)%Z with (Z.of_nat nn) in * by lia.
    assert (Hn' : (Z.of_nat nn + 1)%Z = n) by lia.
    rewrite (find_first_run (hit p) (x, y) nn) by (rewrite ?Hn'; done || lia). cbn [mbind res_bind].
    rewrite Hn'. destruct (first_dir b n (x, y)) as [d|] eqn:Ed.
    2:{ cbn. apply IH, none_before_next; done. }
    cbn [Z.eqb fmap option_fmap option_map]. split; [|done].
    apply first_dir_Some in Ed as [Hd Hl]. pose proof (line_of_rest (x, y) d) as El.
    pose proof (line_in_board (x, y) d) as Hib. rewrite El in Hib. fold nn in El, Hib.
    assert (Eu : update_pt (y * bW b + x) (with_win 1) b = Ok (won [idx b (x, y)] b)).
    { rewrite <- (won_nil b) at 2. apply update_won, (Hib _ Hl). by left. }
    rewrite Eu. cbn [mbind res_bind].
    assert (length (rest (x, y) nn d) = nn) as Hlen by (unfold rest; by rewrite length_fmap, length_seqZ, Nat2Z.id).
    pose proof (mark_wins_run (rest (x, y) nn d) (filled (rest (x, y) nn d) out) (drop nn out) 0 [idx b (x, y)] b) as Em.
    rewrite Hlen in Em. rewrite Em.
    + cbn [mbind res_bind]. unfold wins. cbn [fst snd]. rewrite El. do 3 f_equal.
      apply won_ext. intros z. rewrite elem_of_app, !elem_of_cons, elem_of_nil. tauto.
    + unfold filled. by rewrite Hlen.
    + apply Forall_forall. intros z Hz. apply (Hib _ Hl). by right.
Qed.

Lemma first_line_app cs cs' : first_line b n (cs ++ cs') =
  match first_line b n cs with Some r => Some r | None => first_line b n cs' end.
Proof. induction cs as [|c cs IH]; cbn; [done|]. by destruct (first_dir b n c). Qed.

Lemma find_rows_run todo y : (0 <= y)%Z -> (y + Z.of_nat todo = bH b)%Z -> none_before n (0, y)%Z ->
  find_rows b out n y todo = Ok (wins <$> first_line b n (seqZ y (Z.of_nat todo) ≫= row_cells b)).
Proof.
  revert y. induction todo as [|todo IH]; intros y Hy Hsum Hbef; [done|].
  rewrite seqZ_cons by lia. cbn [find_rows mbind list_bind]. fold (@mbind list _ (Z * Z) (Z * Z)).
  replace (Z.succ y) with (y + 1)%Z by lia. replace (Z.pred (Z.of_nat (S todo))) with (Z.of_nat todo) by lia.
  pose proof (wf_area b Hwf). pose proof (wf_W b Hwf).
  rewrite !ck_ok by (apply is_int_below; unfold INT_MAX in *; nia). cbn [mbind res_bind].
  destruct (find_row_run y (Z.to_nat ((y + 1) * bW b - y * bW b)) 0) as [E Hnext]; [lia..|done|].
  rewrite Z.add_0_r in E. rewrite E. cbn [mbind res_bind].
  replace (Z.of_nat (Z.to_nat ((y + 1) * bW b - y * bW b))) with (bW b) in * by lia.
  change ((fun x => (x, y)) <$> seqZ 0 (bW b)) with (row_cells b y) in *.
  rewrite first_line_app. destruct (first_line b n (row_cells b y)) as [r|]; [done|]. cbn [fmap option_fmap option_map].
  apply IH; [lia..|]. intros c d Hc Hbe Hd. apply (Hnext eq_refl); [done| |done].
  pose proof (proj1 (in_board_spec _) Hc). unfold before in *. cbn in *. lia.
Qed.

Lemma chess_board_find_run :
  chess_board_find b out n =
  Ok match first_line b n (cells b) with
     | Some cd => (0%Z, (wins cd).1, (wins cd).2)
     | None => ((-1)%Z, b, out)
     end.
Proof.
  unfold chess_board_find. pose proof (wf_H b Hwf). rewrite find_rows_run; [|lia..|].
  - rewrite Z2Nat.id by lia. unfold cells. cbn [mbind res_bind]. by destruct (first_line _ _ _).
  - intros c d Hc%in_board_spec Hbe _. unfold before in Hbe. cbn in Hbe. lia.
Qed.
End search.
End board.

(** * An empty board *)
Definition empty_pts (w h : Z) : list chess_pt := (fun j => mkPt (j mod w) (j / w) 0 0)%Z <$> seqZ 0 (w * h).
Definition empty_board (w h : Z) : chess_board := mkBoard (empty_pts w h) w h.

Section reset.
Context (w h : Z) (Hw : (0 <= w)%Z) (Hh : (0 <= h)%Z) (Harea : (w * h <= INT_MAX)%Z).

Lemma empty_lookup j : (0 <= j < w * h)%Z -> empty_pts w h !! Z.to_nat j = Some (mkPt (j mod w) (j / w) 0 0).
Proof.
  intros Hj. unfold empty_pts. rewrite list_lookup_fmap, lookup_seqZ_lt by lia. cbn.
  by rewrite Z2Nat.id by lia.
Qed.

Context (mem : list chess_pt) (Hmem : Z.of_nat (length mem) = (w * h)%Z).

Lemma empty_length : length (empty_pts w h) = length mem.
Proof. unfold empty_pts. rewrite length_fmap, length_seqZ. lia. Qed.

(** The first [j] points are reset. *)
Definition reset_upto (j : Z) : chess_board :=
  mkBoard (take (Z.to_nat j) (empty_pts w h) ++ drop (Z.to_nat j) mem) w h.

Lemma reset_step i j : (i * w <= j < (i + 1) * w)%Z -> (0 <= i < h)%Z ->
  update_pt j (fun _ => mkPt (j `rem` w)%Z i 0 0) (reset_upto j) = Ok (reset_upto (j + 1)).
Proof.
  intros Hj Hi. assert (Hr : (0 <= j < w * h)%Z) by nia. unfold update_pt.
  set (ps := pts (reset_upto j)). pose proof empty_length as He.
  assert (Hl : length ps = length mem).
  { unfold ps. cbn. rewrite length_app, length_take, length_drop. lia. }
  destruct (lookup_lt_is_Some_2 ps (Z.to_nat j)) as [p Hp]; [lia|].
  rewrite (aget_Z _ _ p) by (done || lia). cbn [mbind res_bind]. rewrite aset_Z by lia. cbn [mbind res_bind].
  f_equal. unfold reset_upto. f_equal. unfold ps. cbn [reset_upto pts].
  rewrite insert_app_r_alt by (rewrite length_take; lia). rewrite length_take, Nat.min_l, Nat.sub_diag by lia.
  destruct (lookup_lt_is_Some_2 mem (Z.to_nat j)) as [q Hq]; [lia|]. rewrite (drop_S _ _ _ Hq).
  replace (Z.to_nat (j + 1)) with (S (Z.to_nat j)) by lia.
  rewrite (take_S_r _ _ _ (empty_lookup j Hr)), <- app_assoc. cbn.
  assert (Ed : (j / w = i)%Z) by (symmetry; apply Z.div_unique with (r := (j - i * w)%Z); lia).
  by rewrite Z.rem_mod_nonneg, Ed by nia.
Qed.

Lemma reset_row_run i todo j : (i * w <= j)%Z -> (j + Z.of_nat todo <= (i + 1) * w)%Z -> (0 <= i < h)%Z ->
  reset_row i j todo (reset_upto j) = Ok (reset_upto (j + Z.of_nat todo)).
Proof.
  revert j. induction todo as [|todo IH]; intros j Hj Hle Hi; cbn [reset_row].
  - do 2 f_equal. lia.
  - change (bW (reset_upto j)) with w. rewrite reset_step by lia. cbn [mbind res_bind].
    rewrite IH by lia. do 2 f_equal. lia.
Qed.

Lemma reset_rows_run todo i : (0 <= i)%Z -> (i + Z.of_nat todo = h)%Z ->
  reset_rows i todo (reset_upto (i * w)) = Ok (reset_upto (h * w)).
Proof.
  revert i. induction todo as [|todo IH]; intros i Hi Hsum; cbn [reset_rows].
  - do 3 f_equal. lia.
  - change (bW (reset_upto (i * w))) with w.
    rewrite !ck_ok by (apply is_int_below; unfold INT_MAX in *; nia). cbn [mbind res_bind].
    rewrite reset_row_run by lia. cbn [mbind res_bind].
    replace (i * w + Z.of_nat (Z.to_nat ((i + 1) * w - i * w)))%Z with ((i + 1) * w)%Z by lia.
    apply IH; lia.
Qed.

Lemma chess_board_reset_run : chess_board_reset (mkBoard mem w h) = Ok (empty_board w h).
Proof.
  unfold chess_board_reset. replace (mkBoard mem w h) with (reset_upto (0 * w)) by (unfold reset_upto; by rewrite drop_0).
  rewrite (reset_rows_run (Z.to_nat h)) by lia. unfold reset_upto, empty_board.
  rewrite take_ge, drop_ge, app_nil_r by (rewrite ?empty_length; lia). done.
Qed.
End reset.

(** ** Well-formed boards *)
Lemma empty_board_wf w h : (0 <= w)%Z -> (0 <= h)%Z -> (2 * w <= INT_MAX)%Z -> (2 * h <= INT_MAX)%Z ->
  (w * h <= INT_MAX)%Z -> wf_board (empty_board w h).
Proof.
  intros Hw Hh Hw2 Hh2 Ha. split; cbn; try done.
  - unfold empty_pts. rewrite length_fmap, length_seqZ. nia.
  - intros x y p Hin%in_board_spec. cbn in *. unfold idx. cbn [fst snd bW empty_board].
    pose proof (Z.mul_le_mono_nonneg_r y (h - 1) w Hw ltac:(lia)).
    rewrite empty_lookup by lia. intros [= <-]. cbn.
    rewrite Z.add_comm, Z.mod_add, Z.div_add, Z.mod_small, Z.div_small by lia. lia.
Qed.

Lemma wf_set_hit b i h b' : wf_board b -> update_pt i (with_hit h) b = Ok b' -> wf_board b'.
Proof.
  intros [HW HH Hl Hw2 Hh2 Ha Hpos] E. unfold update_pt in E.
  apply bind_Ok_inv in E as (p & Hp & E). apply bind_Ok_inv in E as (ps & Hps & [= <-]).
  apply aget_inv in Hp as [Hi Hp]. pose proof (lookup_lt_Some _ _ _ Hp). rewrite aset_Z in Hps by lia.
  injection Hps as <-. split; cbn; try done; [by rewrite length_insert|].
  intros x y q Hin Hq. change (idx _ (x, y)) with (idx b (x, y)) in Hq. change (in_board b (x, y) = true) in Hin.
  destruct (decide (Z.to_nat (idx b (x, y)) = Z.to_nat i)) as [Ei|Ei].
  - rewrite Ei, list_lookup_insert_eq in Hq by done. injection Hq as <-. cbn. apply (Hpos x y); [done|]. by rewrite Ei.
  - rewrite list_lookup_insert_ne in Hq by done. by apply Hpos.
Qed.

(** * Properties *)

(** C35: On a well-formed board [chess_board_find] writes only inside its arrays, ends,
    and finds exactly the line a direct search over all points and the four directions
    finds first: it then returns 0, marks the points of that line and no other, and hands
    the caller all of them but the first; when there is no line it returns -1 and leaves
    the board and the array as they were. *)
Theorem chess_board_find_correct b out n : wf_board b -> (2 <= n <= INT_MAX)%Z ->
  (n - 1 <= Z.of_nat (length out))%Z ->
  chess_board_find b out n =
  Ok match first_line b n (cells b) with
     | Some (c, d) => (0%Z, won (line_of b n c d) b, filled (tail (line_of b n c d)) out)
     | None => ((-1)%Z, b, out)
     end.
Proof.
  intros Hwf Hn Hout. rewrite (chess_board_find_run b Hwf n Hn out Hout).
  by destruct (first_line b n (cells b)) as [[c d]|].
Qed.

Lemma first_line_found b n cs c d : wf_board b -> first_line b n cs = Some (c, d) ->
  c ∈ cs /\ d ∈ dirs /\ has_line b n c d = true.
Proof.
  intros Hwf. induction cs as [|c' cs IH]; cbn; [done|]. destruct (first_dir b n c') as [d'|] eqn:E.
  - intros [= -> ->]. apply first_dir_Some in E as [??]. split_and!; [by left|done..].
  - intros (?&?&?)%IH. split_and!; [by right|done..].
Qed.

Lemma first_line_none b n cs c d : wf_board b -> first_line b n cs = None -> c ∈ cs -> d ∈ dirs ->
  has_line b n c d = false.
Proof.
  intros Hwf. induction cs as [|c' cs IH]; cbn; [by intros _ ?%elem_of_nil|].
  destruct (first_dir b n c') eqn:E; [done|]. intros Hn [->|Hc]%elem_of_cons Hd; [|by apply IH].
  by apply (proj1 (first_dir_None _ _ _) E).
Qed.

Lemma elem_of_cells b c : wf_board b -> in_board b c = true <-> c ∈ cells b.
Proof.
  intros Hwf. unfold cells, row_cells. rewrite in_board_spec, list_elem_of_bind. split.
  - intros [Hx Hy]. exists c.2. rewrite list_elem_of_fmap, elem_of_seqZ. split; [|lia].
    exists c.1. rewrite elem_of_seqZ. split; [by destruct c|lia].
  - intros (y & (x & -> & Hx%elem_of_seqZ)%list_elem_of_fmap & Hy%elem_of_seqZ). cbn. lia.
Qed.

(** The rule of the game: from a reset board with any pieces set on it,
    [chess_board_find] returns 0 exactly when some piece is followed by [n - 1] equal ones
    to its right, below it, or along one of the two diagonals downwards. *)
Theorem chess_board_find_wins mem w h hs b out n : (0 <= w)%Z -> (0 <= h)%Z ->
  (2 * w <= INT_MAX)%Z -> (2 * h <= INT_MAX)%Z -> (w * h <= INT_MAX)%Z ->
  Z.of_nat (length mem) = (w * h)%Z -> (2 <= n <= INT_MAX)%Z -> (n - 1 <= Z.of_nat (length out))%Z ->
  (b0 ← chess_board_reset (mkBoard mem w h); set_hits hs b0) = Ok b ->
  (exists b' out', chess_board_find b out n = Ok (0%Z, b', out')) <->
  (exists c d colour, d ∈ dirs /\ colour <> 0%Z /\
     forall k, (0 <= k < n)%Z -> hit_at b (c.1 + k * d.1, c.2 + k * d.2)%Z = Some colour).
Proof.
  intros Hw Hh Hw2 Hh2 Ha Hmem Hn Hout Eb.
  assert (Hwf : wf_board b).
  { rewrite chess_board_reset_run in Eb by done. cbn [mbind res_bind] in Eb.
    pose proof (empty_board_wf w h Hw Hh Hw2 Hh2 Ha) as Hwf0. revert Eb Hwf0. generalize (empty_board w h).
    induction hs as [|[[y x] p] hs IH]; cbn; intros b0 Eb Hwf0; [by injection Eb as <-|].
    apply bind_Ok_inv in Eb as (b1 & E1 & Eb). eapply IH; [done|]. by eapply wf_set_hit. }
  rewrite (chess_board_find_run b Hwf n Hn out Hout). split.
  - destruct (first_line b n (cells b)) as [[c d]|] eqn:E; [intros _|by intros (?&?&[=])].
    apply first_line_found in E as (_ & Hd & (colour & Hc0 & Hc & Hk)%has_line_spec); [|done].
    exists c, d, colour. split_and!; [done..|]. intros k Hr. destruct (decide (k = 0%Z)) as [->|]; [|apply Hk; lia].
    rewrite !Z.mul_0_l, !Z.add_0_r. by destruct c.
  - intros (c & d & colour & Hd & Hc0 & Hk).
    assert (Hc : hit_at b c = Some colour).
    { specialize (Hk 0%Z ltac:(lia)). rewrite !Z.mul_0_l, !Z.add_0_r in Hk. by destruct c. }
    assert (Hl : has_line b n c d = true) by (apply has_line_spec; exists colour; split_and!; [done..|]; intros k Hr; apply Hk; lia).
    destruct (first_line b n (cells b)) as [[c' d']|] eqn:E; [by eexists _, _|].
    rewrite (first_line_none b n (cells b) c d) in Hl; [done..| |done].
    apply elem_of_cells; [done|]. by apply hit_at_Some in Hc as [? _].
Qed.

(** The program of chess_test.cpp runs to its end: every one of its assertions on
    won and not yet won boards holds, whatever the bytes of the board were. *)
Theorem chess_test_main_passes mem : length mem = 100 -> chess_test_main mem = Ok (-1)%Z.
Proof.
  intros Hmem. unfold chess_test_main. cbv [test_boards]. cbn [test_run].
  rewrite chess_board_reset_run by (cbn; rewrite ?Hmem; done). vm_compute. reflexivity.
Qed.

(** ** Witnesses *)
Definition blank : list chess_pt := replicate 100 (mkPt 7 7 7 7).
(** A column of five, and the diagonal of the same five points shifted. *)
Definition column : list (Z * Z * Z) := [(3, 6, 1); (4, 6, 1); (5, 6, 1); (6, 6, 1); (7, 6, 1); (4, 5, 2)]%Z.
Definition column_board : chess_board :=
  match b0 ← chess_board_reset (mkBoard blank 10 10); set_hits column b0 with
  | Ok b => b
  | Stop _ => empty_board 0 0
  end.

Lemma column_board_wf : wf_board column_board.
Proof.
  split; [vm_compute; congruence..|].
  intros x y p Hin%in_board_spec Hp.
  change (bW column_board) with 10%Z in Hin. change (bH column_board) with 10%Z in Hin. cbn [fst snd] in Hin.
  assert (Hf : Forall (fun yx => (fun q => (px q, py q)) <$> pts column_board !! Z.to_nat (idx column_board (yx.2, yx.1)) = Some (yx.2, yx.1))
                 (y ← seqZ 0 10; (fun x => (y, x)) <$> seqZ 0 10)) by (vm_compute; repeat constructor).
  assert (Hyx : (y, x) ∈ (y ← seqZ 0 10; (fun x => (y, x)) <$> seqZ 0 10)).
  { apply list_elem_of_bind. exists y. rewrite elem_of_seqZ, list_elem_of_fmap.
    split; [exists x; rewrite elem_of_seqZ; split; [done|lia]|lia]. }
  rewrite Forall_forall in Hf. specialize (Hf _ Hyx). cbn [fst snd] in Hf. rewrite Hp in Hf.
  clear - Hf. injection Hf as Ha Hb. by split.
Qed.

Lemma chess_board_find_correct_witness :
  chess_board_find column_board (replicate 4 None) 5 =
  Ok (0%Z, won [36; 46; 56; 66; 76]%Z column_board, [Some 46; Some 56; Some 66; Some 76]%Z).
Proof.
  rewrite (chess_board_find_correct column_board (replicate 4 None) 5 column_board_wf);
    [vm_compute; reflexivity|vm_compute; split; congruence|vm_compute; congruence].
Defined.

Lemma chess_board_find_wins_witness :
  exists b' out', chess_board_find column_board (replicate 4 None) 5 = Ok (0%Z, b', out').
Proof.
  apply (chess_board_find_wins blank 10 10 column column_board (replicate 4 None) 5);
    [vm_compute; congruence..|reflexivity|vm_compute; split; congruence|vm_compute; congruence|vm_compute; reflexivity|].
  exists (6, 3)%Z, (0, 1)%Z, 1%Z. split; [apply in_dir_2|]. split; [done|]. intros k Hk.
  assert (k ∈ seqZ 0 5) as Hs by (apply elem_of_seqZ; lia). clear Hk. revert k Hs. apply Forall_forall.
  vm_compute. repeat constructor.
Defined.

Lemma chess_test_main_passes_witness : chess_test_main blank = Ok (-1)%Z.
Proof. apply chess_test_main_passes. reflexivity. Defined.
