(* ===== verification/Trie.v ===== *)
(** The two string search trees of src/algs/trie_st.cpp: the R-way trie, whose nodes
    are arrays of 256 nodes, and the ternary search tree.

    Neither structure shares nodes, so a tree is a value and a pointer to a node is
    the node.  A C string is the list of its characters, without the terminating NUL;
    [char] is signed, as on the machines the makefiles build for.  [None] is the
    null pointer. *)
From S2P Require Import Prelude.
From stdpp Require Import strings.
From Stdlib Require Import Ascii.

(** * The R-way trie *)
Inductive trie := Trie (val : Z) (next : option (list trie)).
Definition val_of (t : trie) : Z := match t with Trie v _ => v end.
Definition next_of (t : trie) : option (list trie) := match t with Trie _ a => a end.

Definition R : nat := 256.
Definition trie_zero : trie := Trie 0 None.

Section trie.
(** Whether the [k]-th call of [calloc] finds memory. *)
Context (avail : nat -> bool).
(** The state is the number of calls so far. *)
Abbreviation Mem := (M nat).

Definition trie_st_node_alloc (r : nat) : Mem (option (list trie)) :=
  fun k => Ok (if avail k then Some (replicate r trie_zero) else None, S k).

Fixpoint trie_st_do_put (key : list Z) (val : Z) (tr : trie) : Mem trie :=
  match key with
  | [] => mret (Trie val (next_of tr))
  | c :: key =>
      next ← match next_of tr with None => trie_st_node_alloc R | Some a => mret (Some a) end;
      match next with
      | None => stop NullDeref
      | Some a =>
          t ← lift (aget a c);
          t ← trie_st_do_put key val t;
          a ← lift (aset a c t);
          mret (Trie (val_of tr) (Some a))
      end
  end.

(** [Some v] is a return value 0 with [val = v], [None] is -1. *)
Fixpoint trie_st_do_get (key : list Z) (tr : trie) : res (option Z) :=
  match key with
  | [] => Ok (Some (val_of tr))
  | c :: key =>
      match next_of tr with
      | None => Ok None
      | Some a => t ← aget a c; trie_st_do_get key t
      end
  end.

Definition trie_st_put (key : option (list Z)) (val : Z) (tr : trie) : Mem (Z * trie) :=
  match key with
  | None | Some [] => mret ((-1)%Z, tr)
  | Some k => tr ← trie_st_do_put k val tr; mret (0%Z, tr)
  end.

Definition trie_st_get (key : option (list Z)) (tr : trie) : res (option Z) :=
  match key with
  | None | Some [] => Ok None
  | Some k => trie_st_do_get k tr
  end.

Fixpoint trie_puts (l : list (list Z * Z)) (tr : trie) : Mem trie :=
  match l with
  | [] => mret tr
  | (k, v) :: l => '(_, tr) ← trie_st_put (Some k) v tr; trie_puts l tr
  end.
End trie.

(** * The ternary search tree *)
Inductive tst := TNil | TNode (c val : Z) (lt eq gt : tst).

(** [gnodes] (null or not) and [ginodes]. *)
Record tst_pool := mkTp { gnodes : bool; ginodes : Z; reqs : nat }.

Section tst.
Context (avail : nat -> bool).
Abbreviation Pool := (M tst_pool).

(** [1024 * 1024 / sizeof(tst_node)] *)
Definition TST_N : Z := 1024 * 1024 / 32.

(** One round of [for(;;)]; the node goes to the function's own copy of the pointer,
    so the caller sees only the return value. *)
Definition tst_node_get_round (_ : unit) : Pool (unit + Z) :=
  fun p =>
    match (if gnodes p then Some p
           else if avail (reqs p) then Some (mkTp true (ginodes p) (S (reqs p))) else None) with
    | None => Stop Exited
    | Some p =>
        if (ginodes p =? TST_N - 1)%Z then Ok (inl tt, mkTp false 0 (reqs p))
        else Ok (inr 0%Z, mkTp (gnodes p) (ginodes p + 1) (reqs p))
    end.
Definition tst_node_get : Pool Z := loopM 3 tst_node_get_round tt.

(** The last [return 0] follows [tr->val = val]. *)
Fixpoint tst_do_put (tr : tst) (key : list Z) (val : Z) : Pool (Z * tst) :=
  let c := hd 0%Z key in
  match tr with
  | TNil =>
      r ← tst_node_get;
      if (r =? 0)%Z then stop NullDeref else mret ((-1)%Z, TNil)
  | TNode d v l e g =>
      if (c <? d)%Z then '(r, l) ← tst_do_put l key val; mret (r, TNode d v l e g)
      else if (d <? c)%Z then '(r, g) ← tst_do_put g key val; mret (r, TNode d v l e g)
      else if decide (1 < length key) then '(r, e) ← tst_do_put e (tail key) val; mret (r, TNode d v l e g)
      else mret (0%Z, TNode d val l e g)
  end.

Definition tst_put (tr : tst) (key : option (list Z)) (val : Z) : Pool (Z * tst) :=
  match key with
  | None | Some [] => mret ((-1)%Z, tr)
  | Some k => tst_do_put tr k val
  end.

Fixpoint tst_do_get (tr : tst) (key : list Z) : option Z :=
  let c := hd 0%Z key in
  match tr with
  | TNil => None
  | TNode d v l e g =>
      if (c <? d)%Z then tst_do_get l key
      else if (d <? c)%Z then tst_do_get g key
      else if decide (1 < length key) then tst_do_get e (tail key)
      else Some v
  end.

Definition tst_get (tr : tst) (key : option (list Z)) : option Z :=
  match key with
  | None | Some [] => None
  | Some k => tst_do_get tr k
  end.
End tst.

(** * The programs of the file *)

(** The characters of a literal. *)
Definition c_str (s : string) : list Z :=
  (fun a => let n := Z.of_N (N_of_ascii a) in if (n <? 128)%Z then n else (n - 256)%Z) <$> String.list_ascii_of_string s.

Definition test_keys : list (list Z * Z) :=
  [(c_str "she", 1); (c_str "sells", 2); (c_str "sea", 3); (c_str "shells", 4);
   (c_str "by", 5); (c_str "the", 666); (c_str "sea", 7); (c_str "shore", 8)]%Z.

(** The values printed and the value returned; [get] is one of the two gets. *)
Definition report {T S} (get : T -> list Z -> res (option Z)) (tr : T) : M S (list Z * Z) :=
  r ← lift (get tr (c_str "the"));
  match r with
  | None => mret ([], (-1)%Z)
  | Some v =>
      r ← lift (get tr (c_str "that"));
      match r with
      | None => mret ([v], (-1)%Z)
      | Some w => mret ([v; w], 0%Z)
      end
  end.

Definition test_trie_st_main_1 (avail : nat -> bool) : M nat (list Z * Z) :=
  tr ← trie_puts avail test_keys trie_zero;
  report (fun tr k => trie_st_get (Some k) tr) tr.

Fixpoint tst_puts (avail : nat -> bool) (l : list (list Z * Z)) (tr : tst) : M tst_pool tst :=
  match l with
  | [] => mret tr
  | (k, v) :: l => '(_, tr) ← tst_put avail tr (Some k) v; tst_puts avail l tr
  end.

Definition test_tst_main (avail : nat -> bool) : M tst_pool (list Z * Z) :=
  tr ← tst_puts avail test_keys TNil;
  report (fun tr k => Ok (tst_get tr (Some k))) tr.

(** The second [return] is never reached. *)
Definition test_trie_st_main (avail : nat -> bool) : M tst_pool (list Z * Z) := test_tst_main avail.

(** * The trie holds what was put *)
Definition ascii_key (k : list Z) : Prop := Forall (fun c => 0 <= c < 128)%Z k.
#[export] Instance ascii_key_dec k : Decision (ascii_key k).
Proof. unfold ascii_key. apply _. Defined.

(** The value of the last [put] of a key. *)
Fixpoint last_put (l : list (list Z * Z)) (key : list Z) : option Z :=
  match l with
  | [] => None
  | (k, v) :: l => match last_put l key with Some w => Some w | None => if decide (k = key) then Some v else None end
  end.

(** Some key put is at least as long as [key] and agrees with it before its last
    character. *)
Definition opens (k key : list Z) : Prop := removelast key `prefix_of` k /\ length key <= length k.
Definition opened (l : list (list Z * Z)) (key : list Z) : Prop := Exists (fun kv => opens kv.1 key) l.
#[export] Instance opens_dec k key : Decision (opens k key).
Proof. unfold opens. apply _. Defined.
#[export] Instance opened_dec l key : Decision (opened l key).
Proof. unfold opened. apply _. Defined.

Definition held (l : list (list Z * Z)) (key : list Z) : option Z :=
  match last_put l key with
  | Some v => Some v
  | None => if decide (opened l key) then Some 0%Z else None
  end.

(** ** A trie is what its gets return *)
Definition obs_is (obs : list Z -> option Z) (tr : trie) : Prop :=
  forall key, ascii_key key -> trie_st_do_get key tr = Ok (obs key).

(** The effect of one put. *)
Definition put_obs (k : list Z) (v : Z) (obs : list Z -> option Z) (key : list Z) : option Z :=
  if decide (key = k) then Some v
  else match obs key with Some w => Some w | None => if decide (opens k key) then Some 0%Z else None end.

Lemma opens_nil k : opens k [].
Proof. split; [apply prefix_nil|cbn; lia]. Qed.

Lemma opens_cons c k d key : key <> [] -> opens (c :: k) (d :: key) <-> c = d /\ opens k key.
Proof.
  intros Hk. destruct key as [|e key]; [done|]. unfold opens. cbn [removelast length].
  split.
  - intros [Hp Hl]. pose proof (prefix_cons_inv_1 _ _ _ _ Hp) as ->. apply prefix_cons_inv_2 in Hp. auto with lia.
  - intros (-> & Hp & Hl). split; [by apply prefix_cons|lia].
Qed.

Lemma opens_single k d : opens k [d] <-> k <> [].
Proof.
  unfold opens. cbn. split; [intros [_ H]; by destruct k; cbn in *; [lia|]|].
  intros Hk. split; [apply prefix_nil|]. destruct k; [done|cbn; lia].
Qed.

Lemma opens_some c k d : opens (c :: k) [d].
Proof. by apply opens_single. Qed.

Section put.
Context (avail : nat -> bool).

Lemma get_zero key : ascii_key key -> trie_st_do_get key trie_zero = Ok (if decide (key = []) then Some 0%Z else None).
Proof. by destruct key. Qed.

Lemma do_put_spec k v tr obs q : ascii_key k -> obs_is obs tr ->
  (trie_st_do_put avail k v tr q = Stop NullDeref /\ exists j, avail j = false) \/
  exists tr' q', trie_st_do_put avail k v tr q = Ok (tr', q') /\ obs_is (put_obs k v obs) tr'.
Proof.
  revert tr obs q. induction k as [|c k IH]; intros tr obs q Hk Hobs.
  { right. eexists _, _. split; [done|]. intros [|d key] Hkey; unfold put_obs.
    - by rewrite decide_True.
    - rewrite decide_False by done. rewrite (decide_False (P := opens _ _)) by (unfold opens; cbn; lia).
      pose proof (Hobs _ Hkey) as E. cbn in *. rewrite E. by destruct (obs (d :: key)). }
  apply Forall_cons in Hk as [Hc Hk]. cbn [trie_st_do_put].
  assert (Hnil : obs [] = Some (val_of tr)) by (specialize (Hobs [] ltac:(constructor)); cbn in Hobs; congruence).
  (* the array of children, old or new *)
  assert (Ha : (exists j, avail j = false) /\ next_of tr = None /\ avail q = false \/
    exists a q', (match next_of tr with None => trie_st_node_alloc avail R | Some a => mret (Some a) end) q = Ok (Some a, q') /\
      forall d key, (0 <= d < 128)%Z -> ascii_key key ->
        exists t, aget a d = Ok t /\ trie_st_do_get key t =
          Ok (match next_of tr with Some _ => obs (d :: key) | None => if decide (key = []) then Some 0%Z else None end)).
  { destruct (next_of tr) as [a|] eqn:En.
    - right. exists a, q. split; [done|]. intros d key Hd Hkey.
      specialize (Hobs (d :: key) (Forall_cons_2 _ _ _ Hd Hkey)). cbn in Hobs. rewrite En in Hobs.
      apply bind_Ok_inv in Hobs as (t & Ht & Hg). by exists t.
    - destruct (avail q) eqn:Eq; [right|left; eauto]. unfold trie_st_node_alloc. rewrite Eq.
      eexists _, _. split; [done|]. intros d key Hd Hkey. exists trie_zero. split; [|by apply get_zero].
      apply aget_Z; [lia|]. apply lookup_replicate_2. unfold R. lia. }
  destruct Ha as [(Hj & En & Eq)|(a & q' & Ea & Ha)].
  { left. split; [|done]. rewrite En. unfold mbind at 1, M_bind at 1, trie_st_node_alloc. by rewrite Eq. }
  rewrite (M_bind_ok _ _ _ _ _ Ea). cbv beta iota.
  destruct (Ha c [] Hc ltac:(constructor)) as (t & Ht & _). rewrite (bind_lift _ _ _ _ Ht).
  set (obs_c := fun key => match next_of tr with Some _ => obs (c :: key) | None => if decide (key = []) then Some 0%Z else None end).
  destruct (IH t obs_c q' Hk) as [[E Hj]|(t' & q'' & E & Ht')].
  { intros key Hkey. destruct (Ha c key Hc Hkey) as (t1 & Ht1 & Hg1). unfold obs_c. congruence. }
  { left. split; [|done]. by rewrite (M_bind_stop _ _ _ _ E). }
  right. rewrite (M_bind_ok _ _ _ _ _ E).
  apply aget_inv in Ht as [_ Ht]. pose proof (lookup_lt_Some _ _ _ Ht) as Hlen.
  assert (Ha' : aset a c t' = Ok (<[Z.to_nat c := t']> a)) by (apply aset_Z; lia).
  rewrite (bind_lift _ _ _ _ Ha'). eexists _, _. split; [done|].
  intros [|d key] Hkey.
  { unfold put_obs. cbn [trie_st_do_get]. rewrite decide_False by done. by rewrite Hnil. }
  apply Forall_cons in Hkey as [Hd Hkey]. cbn [trie_st_do_get next_of].
  destruct (Ha d key Hd Hkey) as (td & Htd & Hg).
  assert (Hold : next_of tr = None -> obs (d :: key) = None).
  { intros En. specialize (Hobs (d :: key) (Forall_cons_2 _ _ _ Hd Hkey)). cbn in Hobs. rewrite En in Hobs. congruence. }
  unfold put_obs. destruct (decide (d = c)) as [->|Hne].
  - rewrite (aget_Z _ _ t'); [|lia|exact (list_lookup_insert_eq _ _ _ Hlen)].
    cbn [mbind res_bind]. rewrite (Ht' key Hkey). unfold put_obs, obs_c. f_equal.
    destruct (decide (key = k)) as [->|Hnk]; [by rewrite decide_True|].
    rewrite (decide_False (P := _ :: _ = _)) by congruence.
    destruct key as [|e key].
    + rewrite (decide_True _ _ (opens_nil k)).
      rewrite (decide_True _ _ (opens_some c k c)).
      destruct (next_of tr) eqn:En; [by destruct (obs [c])|]. by rewrite Hold.
    + rewrite (decide_ext (opens (c :: k) (c :: e :: key)) (opens k (e :: key))).
      2:{ rewrite opens_cons by done. tauto. }
      destruct (next_of tr) eqn:En; [done|]. by rewrite Hold, decide_False.
  - apply aget_inv in Htd as [? Htd].
    rewrite (aget_Z _ _ td); [|lia|by rewrite list_lookup_insert_ne by lia]. cbn [mbind res_bind].
    rewrite Hg. f_equal. rewrite (decide_False (P := _ :: _ = _ :: _)) by congruence.
    destruct key as [|e key].
    + rewrite (decide_True _ _ (opens_some c k d)).
      destruct (next_of tr) eqn:En; [|by rewrite Hold].
      cbn in Hg. injection Hg as Hg. by rewrite <- Hg.
    + rewrite (decide_False (P := opens (c :: k) (d :: e :: key))) by (rewrite opens_cons by done; naive_solver).
      destruct (next_of tr) eqn:En; [by destruct (obs (d :: e :: key))|]. by rewrite Hold, decide_False.
Qed.

End put.

(** ** Histories *)
Lemma last_put_snoc l k v key :
  last_put (l ++ [(k, v)]) key = if decide (key = k) then Some v else last_put l key.
Proof.
  induction l as [|[k' v'] l IH]; cbn.
  - destruct (decide (k = key)) as [->|]; [by rewrite decide_True|]. by rewrite decide_False by done.
  - rewrite IH. by destruct (decide (key = k)).
Qed.

(** The trie after the puts of [l] from an empty one: the root always has a value. *)
Definition held_or_root (l : list (list Z * Z)) (key : list Z) : option Z :=
  match key with [] => Some 0%Z | _ => held l key end.

Lemma held_snoc l k v key : k <> [] -> put_obs k v (held_or_root l) key = held_or_root (l ++ [(k, v)]) key.
Proof.
  intros Hk. unfold put_obs, held_or_root. destruct key as [|c key].
  { destruct (decide ([] = k)) as [<-|]; done. }
  unfold held. rewrite last_put_snoc. destruct (decide (c :: key = k)) as [|Hne]; [done|].
  destruct (last_put l (c :: key)); [done|].
  assert (Hsn : opened (l ++ [(k, v)]) (c :: key) <-> opened l (c :: key) \/ opens k (c :: key)).
  { unfold opened. rewrite Exists_app, Exists_cons, Exists_nil. cbn. tauto. }
  destruct (decide (opened l (c :: key))) as [Ho|Ho].
  - rewrite decide_True; [done|]. tauto.
  - rewrite (decide_ext _ _ _ _ Hsn). destruct (decide (opens k (c :: key))); [rewrite decide_True|rewrite decide_False]; tauto.
Qed.

Lemma trie_puts_spec avail l l0 tr q : Forall (fun kv => kv.1 <> [] /\ ascii_key kv.1) l ->
  obs_is (held_or_root l0) tr ->
  (trie_puts avail l tr q = Stop NullDeref /\ exists j, avail j = false) \/
  exists tr' q', trie_puts avail l tr q = Ok (tr', q') /\ obs_is (held_or_root (l0 ++ l)) tr'.
Proof.
  revert l0 tr q. induction l as [|[k v] l IH]; intros l0 tr q Hl Htr.
  { right. eexists _, _. split; [done|]. by rewrite app_nil_r. }
  apply Forall_cons in Hl as [[Hne Hk] Hl]. cbn [fst] in *. cbn [trie_puts].
  destruct k as [|c k]; [done|]. cbn [trie_st_put].
  destruct (do_put_spec avail (c :: k) v tr (held_or_root l0) q Hk Htr) as [[E Hj]|(tr1 & q1 & E & Htr1)].
  { left. split; [|done]. unfold mbind at 1 2, M_bind at 1 2. by rewrite E. }
  assert (E' : (tr' ← trie_st_do_put avail (c :: k) v tr; mret (0%Z, tr')) q = Ok ((0%Z, tr1), q1))
    by (by rewrite (M_bind_ok _ _ _ _ _ E)).
  rewrite (M_bind_ok _ _ _ _ _ E').
  replace (l0 ++ (c :: k, v) :: l) with ((l0 ++ [(c :: k, v)]) ++ l) by (by rewrite <- app_assoc).
  apply IH; [done|]. intros key Hkey. by rewrite <- held_snoc, (Htr1 key Hkey).
Qed.

(** * Properties *)

(** C36: After any sequence of puts of non-empty ASCII keys into an empty trie, a get returns
    the value of the last put of its key; for a key never put it returns 0 found with the
    value 0 when some longer or equally long key agrees with it up to its last character,
    and -1 otherwise.  Running out of memory is a null pointer dereference. *)
Theorem trie_st_get_after_puts avail l q : Forall (fun kv => kv.1 <> [] /\ ascii_key kv.1) l ->
  (trie_puts avail l trie_zero q = Stop NullDeref /\ exists j, avail j = false) \/
  exists tr q', trie_puts avail l trie_zero q = Ok (tr, q') /\
    forall key, key <> [] -> ascii_key key -> trie_st_get (Some key) tr =
      Ok match last_put l key with
         | Some v => Some v
         | None => if decide (opened l key) then Some 0%Z else None
         end.
Proof.
  intros Hl. destruct (trie_puts_spec avail l [] trie_zero q Hl) as [?|(tr & q' & E & Htr)]; [|by left|].
  - intros key Hkey. rewrite get_zero by done. f_equal. destruct key; [done|]. cbn. unfold held. cbn.
    rewrite decide_False; [done|]. by inversion 1.
  - right. exists tr, q'. split; [done|]. intros key Hne Hkey. specialize (Htr key Hkey).
    destruct key; [done|]. exact Htr.
Qed.

(** ** The ternary tree *)
Lemma tst_node_get_run avail p :
  (tst_node_get avail p = Stop Exited /\ exists j, avail j = false) \/
  exists p', tst_node_get avail p = Ok (0%Z, p').
Proof.
  unfold tst_node_get. rewrite loopM_step. unfold tst_node_get_round.
  destruct p as [g i r]. cbn [gnodes ginodes reqs].
  destruct g; [|destruct (avail r) eqn:Er; [|left; eauto]]; cbn [gnodes ginodes reqs];
    (destruct (Z.eqb_spec i (TST_N - 1)) as [->|Hi]; [|right; by eexists]); rewrite loopM_step; cbn [gnodes ginodes reqs].
  - destruct (avail r) eqn:Er2; [right; by eexists|left; eauto].
  - destruct (avail (S r)) eqn:Er2; [right; by eexists|left; eauto].
Qed.

Lemma tst_do_put_run avail tr v p c k :
  match tst_do_get tr (c :: k) with
  | Some _ => exists tr', tst_do_put avail tr (c :: k) v p = Ok ((0%Z, tr'), p) /\
      forall c' k', tst_do_get tr' (c' :: k') = if decide (c' :: k' = c :: k) then Some v else tst_do_get tr (c' :: k')
  | None => tst_do_put avail tr (c :: k) v p = Stop NullDeref \/ tst_do_put avail tr (c :: k) v p = Stop Exited
  end.
Proof.
  revert c k.
  induction tr as [|d w l IHl e IHe g IHg]; intros c k; cbn [tst_do_get tst_do_put].
  { destruct (tst_node_get_run avail p) as [[E _]|[p' E]]; [right; by apply M_bind_stop|left; by rewrite (M_bind_ok _ _ _ _ _ E)]. }
  cbn [hd]. destruct (Z.ltb_spec c d) as [Hlt|Hge]; [|destruct (Z.ltb_spec d c) as [Hgt|Hle]].
  - specialize (IHl c k). destruct (tst_do_get l (c :: k)).
    + destruct IHl as (l' & E & Hl'). exists (TNode d w l' e g). split; [by rewrite (M_bind_ok _ _ _ _ _ E)|].
      intros c' k'. specialize (Hl' c' k'). cbn. destruct (Z.ltb_spec c' d); [exact Hl'|].
      rewrite (decide_False (P := _ :: _ = _ :: _)); [done|]. intros [= -> ->]. lia.
    + destruct IHl as [E|E]; [left|right]; by apply M_bind_stop.
  - specialize (IHg c k). destruct (tst_do_get g (c :: k)).
    + destruct IHg as (g' & E & Hg'). exists (TNode d w l e g'). split; [by rewrite (M_bind_ok _ _ _ _ _ E)|].
      intros c' k'. specialize (Hg' c' k'). cbn.
      destruct (Z.ltb_spec c' d); [rewrite (decide_False (P := _ :: _ = _ :: _)); [done|]; intros [= -> ->]; lia|].
      destruct (Z.ltb_spec d c'); [exact Hg'|]. rewrite (decide_False (P := _ :: _ = _ :: _)); [done|]. intros [= -> ->]. lia.
    + destruct IHg as [E|E]; [left|right]; by apply M_bind_stop.
  - assert (c = d) as -> by lia. destruct k as [|c1 k].
    + cbn [length]. rewrite !decide_False by lia. exists (TNode d v l e g). split; [done|].
      intros c' k'. cbn.
      destruct (Z.ltb_spec c' d); [rewrite (decide_False (P := _ :: _ = _ :: _)); [done|]; intros [= -> ->]; lia|].
      destruct (Z.ltb_spec d c'); [rewrite (decide_False (P := _ :: _ = _ :: _)); [done|]; intros [= -> ->]; lia|].
      assert (c' = d) as -> by lia. destruct k' as [|c2 k']; cbn [length tail].
      { rewrite (decide_False (P := 1 < 1)) by lia. by rewrite decide_True. }
      by rewrite (decide_False (P := _ :: _ = _ :: _)).
    + cbn [length tail]. rewrite !(decide_True (P := 1 < _)) by (cbn; lia).
      specialize (IHe c1 k). destruct (tst_do_get e (c1 :: k)).
      * destruct IHe as (e' & E & He'). exists (TNode d w l e' g). split; [by rewrite (M_bind_ok _ _ _ _ _ E)|].
        intros c' k'. cbn.
        destruct (Z.ltb_spec c' d); [rewrite (decide_False (P := _ :: _ = _ :: _)); [done|]; intros [= -> ->]; lia|].
        destruct (Z.ltb_spec d c'); [rewrite (decide_False (P := _ :: _ = _ :: _)); [done|]; intros [= -> ->]; lia|].
        assert (c' = d) as -> by lia. destruct k' as [|c2 k']; cbn [length tail].
        { rewrite (decide_False (P := _ :: _ = _ :: _)); done. }
        specialize (He' c2 k'). cbn [length] in *. rewrite !(decide_True (P := 1 < _)) by lia.
        rewrite He'. destruct (decide (c2 :: k' = c1 :: k)) as [->|Hne]; [by rewrite decide_True|].
        rewrite decide_False by congruence. done.
      * destruct IHe as [E|E]; [left|right]; by apply M_bind_stop.
Qed.

(** [tst_put] never makes a node: it stores the value of a key exactly when [tst_get]
    already finds the key, changing nothing else; for every other key, in particular into an
    empty tree, it dereferences the null pointer that [tst_node_get] leaves (or the program
    exits for want of memory). *)
Theorem tst_put_only_updates avail tr k v p : k <> [] ->
  match tst_get tr (Some k) with
  | Some _ => exists tr', tst_put avail tr (Some k) v p = Ok ((0%Z, tr'), p) /\
      forall k', k' <> [] -> tst_get tr' (Some k') = if decide (k' = k) then Some v else tst_get tr (Some k')
  | None => tst_put avail tr (Some k) v p = Stop NullDeref \/ tst_put avail tr (Some k) v p = Stop Exited
  end.
Proof.
  destruct k as [|c k]; [done|]. intros _. cbn [tst_get tst_put].
  pose proof (tst_do_put_run avail tr v p c k) as Hrun. destruct (tst_do_get tr (c :: k)); [|done].
  destruct Hrun as (tr' & E & Htr'). exists tr'. split; [done|]. by intros [|c' k'].
Qed.

(** ** Witnesses and examples *)
Definition all_memory (k : nat) : bool := true.

Lemma trie_st_get_after_puts_witness :
  (trie_puts all_memory test_keys trie_zero 0 = Stop NullDeref /\ exists j, all_memory j = false) \/
  exists tr q', trie_puts all_memory test_keys trie_zero 0 = Ok (tr, q') /\
    forall key, key <> [] -> ascii_key key -> trie_st_get (Some key) tr =
      Ok match last_put test_keys key with
         | Some v => Some v
         | None => if decide (opened test_keys key) then Some 0%Z else None
         end.
Proof.
  apply trie_st_get_after_puts. apply (bool_decide_unpack _). vm_compute. exact I.
Defined.

Example trie_last_put : last_put test_keys (c_str "sea") = Some 7%Z.
Proof. reflexivity. Qed.

(** A key never put is found when a longer one shares its beginning. *)
Example trie_phantom_key :
  match trie_puts all_memory test_keys trie_zero 0 with
  | Ok (tr, _) => (trie_st_get (Some (c_str "sh")) tr, trie_st_get (Some (c_str "tha")) tr)
  | Stop _ => (Ok None, Ok None)
  end = (Ok (Some 0%Z), Ok (Some 0%Z)).
Proof. vm_compute. reflexivity. Qed.

Example test_trie_st_main_1_run :
  match test_trie_st_main_1 all_memory 0 with Ok (r, _) => r | Stop _ => ([], 0%Z) end = ([666]%Z, (-1)%Z).
Proof. vm_compute. reflexivity. Qed.

(** A byte from 128 up is a negative index. *)
Example trie_negative_index : trie_st_put all_memory (Some [(-61)%Z; (-87)%Z]) 1 trie_zero 0 = Stop OutOfBounds.
Proof. vm_compute. reflexivity. Qed.

Definition ab_tree : tst := TNode 97 0 TNil (TNode 98 5 TNil TNil TNil) (TNode 99 6 TNil TNil TNil).

Lemma tst_put_only_updates_witness :
  exists tr', tst_put all_memory ab_tree (Some [97; 98]%Z) 9 (mkTp false 0 0) = Ok ((0%Z, tr'), mkTp false 0 0) /\
    forall k', k' <> [] -> tst_get tr' (Some k') = if decide (k' = [97; 98]%Z) then Some 9%Z else tst_get ab_tree (Some k').
Proof. exact (tst_put_only_updates all_memory ab_tree [97; 98]%Z 9 (mkTp false 0 0) ltac:(done)). Defined.

Example test_trie_st_main_crashes : test_trie_st_main all_memory (mkTp false 0 0) = Stop NullDeref.
Proof. vm_compute. reflexivity. Qed.
