(* ===== verification/Radix.v ===== *)
(** The radix tree of src/algs/intro_to_algs3th/radix_tree.cpp: keys are read bit by
    bit from the low end, a 0 going left and a 1 going right, until the bits read make
    up the key.  The type of the bits is [std::bitset<sizeof(size_t)>], eight bits.

    Nodes are not shared and the field [p] is never used, so a tree is a value;
    [RNil] is the null pointer. *)
From S2P Require Import Prelude.

(** * The code *)
Inductive rtree := RNil | RNode (left right : rtree) (on : bool) (key : Z).

(** [32 * 1024 * 1024 / sizeof(radix_tree_node)] *)
Definition RTR_POOL_N : Z := 32 * 1024 * 1024 / 32.

(** The rows of the pool that are set, null or not, in order; [p.i] is their number. *)
Record rpool := mkRpool { rn : list bool; ri : Z; rj : Z; rreqs : nat }.
Definition g_pool : rpool := mkRpool (replicate 32 false) 0 0 0.

Section radix.
(** Whether the [k]-th call of [calloc] finds memory. *)
Context (avail : nat -> bool).
Abbreviation Pool := (M rpool).

(** [if(p.i == 0 || p.j == RTR_POOL_N) p.n[p.i++] = calloc(...)] *)
Definition radix_row : Pool unit := fun p =>
  if (ri p =? 0)%Z || (rj p =? RTR_POOL_N)%Z then
    n ← aset (rn p) (ri p) (avail (rreqs p));
    Ok (tt, mkRpool n (ri p + 1) (rj p) (S (rreqs p)))
  else Ok (tt, p).

(** A node or the null pointer; the memory of [calloc] is zero. *)
Definition radix_tree_node_get : Pool rtree := fun p =>
  if (ri p =? 32)%Z then Ok (RNil, p)
  else
    '(_, p) ← radix_row p;
    let j := if (rj p =? RTR_POOL_N)%Z then 0%Z else rj p in
    row ← aget (rn p) (ri p - 1);
    if (row : bool) then Ok (RNode RNil RNil false 0, mkRpool (rn p) (ri p) (j + 1) (rreqs p))
    else Stop NullDeref.

(** [if(!x) x = radix_tree_node_get(g_pool);] *)
Definition or_new (x : rtree) : Pool rtree := match x with RNil => radix_tree_node_get | _ => mret x end.

(** The rounds from bit [i] on, [todo] of them after this one; the boolean says that
    the key was stored. *)
Fixpoint radix_descend (todo i : nat) (key bitn : Z) (x : rtree) : Pool (bool * rtree) :=
  match x with
  | RNil => stop NullDeref
  | RNode l r on k =>
      let bit := Z.testbit key (Z.of_nat i) in
      child ← or_new (if bit then r else l);
      let bitn := if bit then Z.setbit bitn (Z.of_nat i) else Z.clearbit bitn (Z.of_nat i) in
      '(ok, child) ←
        (if (bitn =? key)%Z then
           match child with
           | RNil => stop NullDeref
           | RNode l' r' _ _ => mret (true, RNode l' r' true bitn)
           end
         else match todo with
              | O => mret (false, child)
              | S todo => radix_descend todo (S i) key bitn child
              end);
      mret (ok, if bit then RNode l child on k else RNode child r on k)
  end.

Definition radix_tree_insert (root : rtree) (key : Z) : Pool (Z * rtree) :=
  root ← or_new root;
  '(ok, root) ← radix_descend 7 0 key 0 root;
  mret (if ok : bool then 0%Z else (-1)%Z, root).

(** The keys printed. *)
Fixpoint radix_tree_inorder_walk (root : rtree) : list Z :=
  match root with
  | RNil => []
  | RNode l r on k => radix_tree_inorder_walk l ++ (if on then [k] else []) ++ radix_tree_inorder_walk r
  end.

Fixpoint radix_insert_all (root : rtree) (keys : list Z) : Pool (list Z * rtree) :=
  match keys with
  | [] => mret ([], root)
  | k :: keys =>
      '(r, root) ← radix_tree_insert root k;
      '(rs, root) ← radix_insert_all root keys;
      mret (r :: rs, root)
  end.

(** [radix_tree_sort] drops the tree, writes nothing to its array, and ends without
    the value it promises. *)
Definition radix_tree_sort (keys : list Z) : Pool Z :=
  _ ← radix_insert_all RNil keys;
  stop NoReturn.
End radix.

(** The five literals of [test_radix_tree_main]. *)
Definition test_radix_keys : list Z := [11; 2; 3; 4; 0]%Z.
Definition test_radix_tree_main (avail : nat -> bool) : M rpool Z :=
  _ ← radix_tree_sort avail test_radix_keys;
  mret (-1)%Z.

(** * The tree of a set of keys *)

(** The number of bits read to reach a key. *)
Definition depth (k : Z) : Z := if (k =? 0)%Z then 1 else Z.log2 k + 1.

(** A node reached through the [d] low bits [v]: the key it holds is [v]. *)
Fixpoint wf (t : rtree) (d : nat) (v : Z) : Prop :=
  match t with
  | RNil => True
  | RNode l r on k =>
      d <= 8 /\ (on = true -> k = v /\ depth v = Z.of_nat d) /\
      wf l (S d) v /\ wf r (S d) (v + 2 ^ Z.of_nat d)
  end.

(** The place of a node in the walk: half the previous step to the left for a 0, to
    the right for a 1. *)
Fixpoint place (d : nat) (v : Z) : Z :=
  match d with
  | O => 0
  | S d => place d v + (if Z.testbit v (Z.of_nat d) then 1 else -1) * 2 ^ (8 - Z.of_nat d)
  end.
Definition key_place (k : Z) : Z := place (Z.to_nat (depth k)) k.
Definition before (a b : Z) : Prop := (key_place a < key_place b)%Z.

Lemma pow2_S (d : nat) : (2 ^ Z.of_nat (S d) = 2 * 2 ^ Z.of_nat d)%Z.
Proof. rewrite Nat2Z.inj_succ, Z.pow_succ_r by lia. lia. Qed.

Lemma pow2_pos (d : nat) : (0 < 2 ^ Z.of_nat d)%Z.
Proof. apply Z.pow_pos_nonneg; lia. Qed.

Lemma testbit_add_pow (v : Z) (i d : nat) : (0 <= v < 2 ^ Z.of_nat d)%Z -> i <= d ->
  Z.testbit (v + 2 ^ Z.of_nat d) (Z.of_nat i) = if decide (i = d) then true else Z.testbit v (Z.of_nat i).
Proof.
  intros Hv Hi. destruct (decide (i = d)) as [->|Hne].
  - rewrite Z.add_comm, Z.testbit_true by lia.
    rewrite Z.div_add_l with (a := 1%Z) || (replace (2 ^ Z.of_nat d + v)%Z with (1 * 2 ^ Z.of_nat d + v)%Z by lia; rewrite Z.div_add_l by lia).
    by rewrite Z.div_small by lia.
  - rewrite <- (Z.mod_pow2_bits_low _ (Z.of_nat d)) by lia.
    replace (v + 2 ^ Z.of_nat d)%Z with (v + 1 * 2 ^ Z.of_nat d)%Z by lia.
    rewrite Z.mod_add by lia. by rewrite Z.mod_small by lia.
Qed.

Lemma testbit_small (v : Z) (d : nat) : (0 <= v < 2 ^ Z.of_nat d)%Z -> Z.testbit v (Z.of_nat d) = false.
Proof. intros Hv. rewrite Z.testbit_false by lia. by rewrite Z.div_small. Qed.

Lemma place_add_pow d v : (0 <= v < 2 ^ Z.of_nat d)%Z -> place d (v + 2 ^ Z.of_nat d) = place d v.
Proof.
  intros Hv. assert (Hind : forall e, e <= d -> place e (v + 2 ^ Z.of_nat d) = place e v); [|by apply Hind].
  induction e as [|e IH]; intros He; [done|]. cbn [place]. rewrite IH, testbit_add_pow by (done || lia).
  by rewrite decide_False by lia.
Qed.

Lemma place_left d v : (0 <= v < 2 ^ Z.of_nat d)%Z -> place (S d) v = (place d v - 2 ^ (8 - Z.of_nat d))%Z.
Proof. intros Hv. cbn [place]. rewrite testbit_small by done. lia. Qed.

Lemma place_right d v : (0 <= v < 2 ^ Z.of_nat d)%Z ->
  place (S d) (v + 2 ^ Z.of_nat d) = (place d v + 2 ^ (8 - Z.of_nat d))%Z.
Proof.
  intros Hv. cbn [place]. rewrite place_add_pow, testbit_add_pow, decide_True by (done || lia). lia.
Qed.

(** ** The walk of a well-formed tree *)
Lemma walk_places t d v : (0 <= v < 2 ^ Z.of_nat d)%Z -> wf t d v ->
  StronglySorted before (radix_tree_inorder_walk t) /\
  Forall (fun k => place d v - 2 ^ (9 - Z.of_nat d) < key_place k < place d v + 2 ^ (9 - Z.of_nat d))%Z
    (radix_tree_inorder_walk t).
Proof.
  revert d v. induction t as [|l IHl r IHr on k]; intros d v Hv; cbn [radix_tree_inorder_walk wf].
  { intros _. split; constructor. }
  intros (Hd & Hon & Hl & Hr). pose proof (pow2_S d) as Hp.
  destruct (IHl (S d) v ltac:(lia) Hl) as [Sl Fl].
  destruct (IHr (S d) (v + 2 ^ Z.of_nat d)%Z ltac:(lia) Hr) as [Sr Fr].
  rewrite place_left in Fl by done. rewrite place_right in Fr by done.
  replace (9 - Z.of_nat (S d))%Z with (8 - Z.of_nat d)%Z in * by lia.
  assert (E9 : (2 ^ (9 - Z.of_nat d) = 2 * 2 ^ (8 - Z.of_nat d))%Z).
  { replace (9 - Z.of_nat d)%Z with (Z.succ (8 - Z.of_nat d)) by lia. by rewrite Z.pow_succ_r by lia. }
  assert (H8 : (0 < 2 ^ (8 - Z.of_nat d))%Z) by (apply Z.pow_pos_nonneg; lia).
  rewrite E9. set (P := (2 ^ (8 - Z.of_nat d))%Z) in *.
  assert (Fm : Forall (fun k => key_place k = place d v) (if on then [k] else [])).
  { destruct on; [|constructor]. destruct (Hon eq_refl) as [-> Hdep]. constructor; [|constructor].
    unfold key_place. by rewrite Hdep, Nat2Z.id. }
  rewrite Forall_forall in Fl, Fr, Fm. split.
  - apply StronglySorted_app. split_and!; [|done|].
    + intros a b Ha Hb. specialize (Fl a Ha). unfold before. apply elem_of_app in Hb as [Hb|Hb].
      * rewrite (Fm b Hb). lia.
      * specialize (Fr b Hb). lia.
    + apply StronglySorted_app. split_and!; [|by destruct on; repeat constructor|done].
      intros a b Ha Hb. unfold before. rewrite (Fm a Ha). specialize (Fr b Hb). lia.
  - apply Forall_forall. intros a Ha. rewrite !elem_of_app in Ha. destruct Ha as [Ha|[Ha|Ha]].
    + specialize (Fl a Ha). lia.
    + rewrite (Fm a Ha). lia.
    + specialize (Fr a Ha). lia.
Qed.

(** ** The pool *)
Definition capacity : Z := 31 * RTR_POOL_N.

(** [c] nodes have been handed out. *)
Definition pool_ok (p : rpool) (c : Z) : Prop :=
  length (rn p) = 32 /\
  (c = 0%Z /\ ri p = 0%Z /\ rj p = 0%Z \/
   (1 <= ri p <= 32)%Z /\ (1 <= rj p <= RTR_POOL_N)%Z /\ c = ((ri p - 1) * RTR_POOL_N + rj p)%Z /\
   rn p !! Z.to_nat (ri p - 1) = Some true).

Lemma g_pool_ok : pool_ok g_pool 0.
Proof. split; [done|]. by left. Qed.

Section proofs.
Context (avail : nat -> bool).

(** A failed [calloc] shows as a null pointer dereference. *)
Definition no_memory {A} (r : res A) : Prop := r = Stop NullDeref /\ exists j, avail j = false.

Lemma node_get_spec p c : pool_ok p c -> (c < capacity)%Z ->
  no_memory (radix_tree_node_get avail p) \/
  exists p', radix_tree_node_get avail p = Ok (RNode RNil RNil false 0, p') /\ pool_ok p' (c + 1).
Proof.
  intros [Hlen Hp] Hc. unfold radix_tree_node_get, radix_row, capacity in *.
  change RTR_POOL_N with 1048576%Z in *.
  rewrite (proj2 (Z.eqb_neq _ _)) by lia.
  destruct ((ri p =? 0)%Z || (rj p =? 1048576)%Z) eqn:Erow; cbn [mbind res_bind].
  - assert (Hi : (0 <= ri p < 32)%Z) by (apply orb_true_iff in Erow; rewrite !Z.eqb_eq in Erow; lia).
    rewrite aset_Z by lia. cbn [mbind res_bind rj ri rn]. replace (ri p + 1 - 1)%Z with (ri p) by lia.
    rewrite (aget_Z _ _ (avail (rreqs p))); [|lia|apply list_lookup_insert_eq; lia]. cbn [mbind res_bind].
    destruct (avail (rreqs p)) eqn:Ea; [right|left; split; eauto].
    eexists. split; [done|]. split; cbn; [by rewrite length_insert|]. right.
    assert (Hj : (if (rj p =? 1048576)%Z then 0%Z else rj p) = 0%Z).
    { destruct (Z.eqb_spec (rj p) (1048576)) as [|Hne]; [done|].
      apply orb_true_iff in Erow. rewrite !Z.eqb_eq in Erow. lia. }
    rewrite Hj. change RTR_POOL_N with 1048576%Z. split_and!; [lia..| |].
    + apply orb_true_iff in Erow. rewrite !Z.eqb_eq in Erow. lia.
    + replace (ri p + 1 - 1)%Z with (ri p) by lia. apply list_lookup_insert_eq. lia.
  - apply orb_false_iff in Erow as [E1 E2]. rewrite E2. apply Z.eqb_neq in E1, E2.
    destruct Hp as [?|(Hi & Hj & Ec & Hrow)]; [lia|].
    rewrite (aget_Z _ _ true) by (done || lia). cbn [mbind res_bind]. right. eexists. split; [done|].
    split; [done|]. right. cbn. change RTR_POOL_N with 1048576%Z. split_and!; [lia..|done].
Qed.

(** ** One insertion *)
Definition child_of (b : bool) (x : rtree) : rtree :=
  match x with RNil => RNil | RNode l r _ _ => if b then r else l end.

Lemma mod_step (key : Z) (i : nat) :
  (key mod 2 ^ Z.of_nat (S i) = key mod 2 ^ Z.of_nat i + (if Z.testbit key (Z.of_nat i) then 2 ^ Z.of_nat i else 0))%Z.
Proof.
  pose proof (pow2_pos i). rewrite pow2_S, Z.mul_comm, Z.rem_mul_r by lia.
  rewrite Z.testbit_eqb by lia. pose proof (Z.mod_pos_bound (key / 2 ^ Z.of_nat i) 2 ltac:(lia)).
  destruct (Z.eqb_spec ((key / 2 ^ Z.of_nat i) mod 2) 1) as [->|]; [lia|].
  replace ((key / 2 ^ Z.of_nat i) mod 2)%Z with 0%Z by lia. lia.
Qed.

Lemma set_bit_step (key : Z) (i : nat) :
  let v := (key mod 2 ^ Z.of_nat i)%Z in
  (if Z.testbit key (Z.of_nat i) then Z.setbit v (Z.of_nat i) else Z.clearbit v (Z.of_nat i)) =
  (key mod 2 ^ Z.of_nat (S i))%Z.
Proof.
  cbv zeta. apply Z.bits_inj'. intros n Hn. rewrite <- (Z2Nat.id n) by lia. set (m := Z.to_nat n).
  destruct (Nat.lt_trichotomy m i) as [Hlt|[->|Hgt]].
  - rewrite (Z.mod_pow2_bits_low _ (Z.of_nat (S i))) by lia.
    destruct (Z.testbit key (Z.of_nat i)); [rewrite Z.setbit_neq by lia|rewrite Z.clearbit_neq by lia];
      rewrite Z.mod_pow2_bits_low by lia; done.
  - rewrite (Z.mod_pow2_bits_low _ (Z.of_nat (S i))) by lia.
    destruct (Z.testbit key (Z.of_nat i)); [by rewrite Z.setbit_eq by lia|by rewrite Z.clearbit_eq].
  - rewrite (Z.mod_pow2_bits_high _ (Z.of_nat (S i))) by lia.
    destruct (Z.testbit key (Z.of_nat i)); [rewrite Z.setbit_neq by lia|rewrite Z.clearbit_neq by lia];
      apply Z.mod_pow2_bits_high; lia.
Qed.

Lemma depth_of (key : Z) (i : nat) : (i = 0 \/ (2 ^ Z.of_nat i <= key)%Z) -> (0 <= key < 2 ^ Z.of_nat (S i))%Z ->
  depth key = Z.of_nat (S i).
Proof.
  intros Hlo Hhi. unfold depth. destruct (Z.eqb_spec key 0) as [->|Hne].
  - destruct Hlo as [->|Hlo]; [done|]. pose proof (pow2_pos i). lia.
  - destruct Hlo as [->|Hlo].
    + change (2 ^ Z.of_nat 1)%Z with 2%Z in Hhi. by replace key with 1%Z by lia.
    + rewrite (Z.log2_unique key (Z.of_nat i)); [lia|lia|]. rewrite <- Nat2Z.inj_succ. lia.
Qed.

(** What the rounds from bit [i] do to the tree [x] they start in. *)
Record descent (key : Z) (i : nat) (x : rtree) (ok : bool) (x' : rtree) : Prop := {
  ds_ok : ok = (key <? 256)%Z;
  ds_node : x' <> RNil;
  ds_wf : wf x' i (key mod 2 ^ Z.of_nat i);
  ds_keys : forall k, k ∈ radix_tree_inorder_walk x' <->
    k ∈ radix_tree_inorder_walk x \/ k = key /\ (key < 256)%Z
}.

(** Putting a child back. *)
Lemma descent_child key i l r on k ok child' c0 :
  wf (RNode l r on k) i (key mod 2 ^ Z.of_nat i) ->
  let b := Z.testbit key (Z.of_nat i) in
  (forall k, k ∈ radix_tree_inorder_walk c0 <-> k ∈ radix_tree_inorder_walk (if b then r else l)) ->
  descent key (S i) c0 ok child' ->
  descent key i (RNode l r on k) ok (if b then RNode l child' on k else RNode child' r on k).
Proof.
  cbv zeta. cbn [wf]. intros (Hd & Hon & Hl & Hr) Hc [Hok _ Hwf Hkeys]. pose proof (mod_step key i) as Hm.
  destruct (Z.testbit key (Z.of_nat i)); rewrite Hm, ?Z.add_0_r in Hwf;
    (split; [done|done|cbn [wf]; tauto|]); intros k'; cbn [radix_tree_inorder_walk];
    rewrite !elem_of_app, Hkeys, Hc; tauto.
Qed.

(** The end of a search, whatever it does after this round ([K]). *)
Definition round_spec (key : Z) (i : nat) (x : rtree) (c n : Z) (r : res ((bool * rtree) * rpool)) : Prop :=
  no_memory r \/
  exists ok x' p' c', r = Ok ((ok, x'), p') /\ descent key i x ok x' /\ pool_ok p' c' /\ (c' <= c + n)%Z.

Definition round_of (K : Z -> rtree -> M rpool (bool * rtree)) (i : nat) (key bitn : Z) l r on k : M rpool (bool * rtree) :=
  let bit := Z.testbit key (Z.of_nat i) in
  child ← or_new avail (if bit then r else l);
  let bitn := if bit then Z.setbit bitn (Z.of_nat i) else Z.clearbit bitn (Z.of_nat i) in
  '(ok, child) ←
    (if (bitn =? key)%Z then
       match child with
       | RNil => stop NullDeref
       | RNode l' r' _ _ => mret (true, RNode l' r' true bitn)
       end
     else K bitn child);
  mret (ok, if bit then RNode l child on k else RNode child r on k).

Lemma descend_round key i l r on k p c n K : (0 <= key < 2 ^ 64)%Z -> i < 8 ->
  wf (RNode l r on k) i (key mod 2 ^ Z.of_nat i) -> (i = 0 \/ (2 ^ Z.of_nat i <= key)%Z) ->
  pool_ok p c -> (c < capacity)%Z -> (1 <= n)%Z ->
  (forall child p1 c1, child <> RNil -> wf child (S i) (key mod 2 ^ Z.of_nat (S i)) ->
     (2 ^ Z.of_nat (S i) <= key)%Z -> pool_ok p1 c1 -> (c1 <= c + 1)%Z ->
     round_spec key (S i) child c n (K (key mod 2 ^ Z.of_nat (S i))%Z child p1)) ->
  round_spec key i (RNode l r on k) c n (round_of K i key (key mod 2 ^ Z.of_nat i) l r on k p).
Proof.
  intros Hkey Hi Hwf Hlo Hp Hc Hn HK. unfold round_of. cbv zeta. rewrite set_bit_step.
  set (b := Z.testbit key (Z.of_nat i)) in *. set (old := if b then r else l) in *.
  assert (Hchild : no_memory (or_new avail old p) \/
    exists c0 p1 c1, or_new avail old p = Ok (c0, p1) /\
      c0 <> RNil /\ radix_tree_inorder_walk c0 = radix_tree_inorder_walk old /\
      wf c0 (S i) (key mod 2 ^ Z.of_nat (S i)) /\ pool_ok p1 c1 /\ (c1 <= c + 1)%Z).
  { assert (Hold : wf old (S i) (key mod 2 ^ Z.of_nat (S i))).
    { unfold old. rewrite mod_step. fold b. destruct Hwf as (_ & _ & Hl & Hr). destruct b; [done|]. by rewrite Z.add_0_r. }
    destruct old as [|l0 r0 on0 k0].
    - destruct (node_get_spec p c Hp Hc) as [Hno|(p1 & E & Hp1)]; [by left|right].
      exists (RNode RNil RNil false 0), p1, (c + 1)%Z. split_and!; try done; cbn; split_and!; done || lia.
    - right. exists (RNode l0 r0 on0 k0), p, c. split_and!; done || lia. }
  destruct Hchild as [[E Hj]|(c0 & p1 & c1 & E & Hc0 & Hwalk & Hwf0 & Hp1 & Hc1)].
  { left. split; [|done]. by rewrite (M_bind_stop _ _ _ _ E). }
  rewrite (M_bind_ok _ _ _ _ _ E). cbv beta.
  pose proof (Z.mod_pos_bound key (2 ^ Z.of_nat (S i)) (pow2_pos (S i))) as Hmod.
  destruct (Z.eqb_spec (key mod 2 ^ Z.of_nat (S i)) key) as [Ek|Ek].
  - destruct c0 as [|l0 r0 on0 k0]; [done|]. rewrite bind_ret. right. rewrite Ek in *.
    assert (Hsmall : (key < 256)%Z).
    { apply (Z.lt_le_trans _ (2 ^ Z.of_nat (S i))); [lia|]. change 256%Z with (2 ^ Z.of_nat 8)%Z. apply Z.pow_le_mono_r; lia. }
    eexists _, _, p1, c1. split; [done|]. split; [|split; [done|lia]].
    eapply (descent_child key i l r on k _ _ (RNode l0 r0 on0 k0)); [done|by intros k'; rewrite Hwalk|].
    destruct Hwf0 as (Hd & Hon0 & Hl0 & Hr0).
    split; [symmetry; by apply Z.ltb_lt|done| |].
    + cbn [wf]. rewrite Ek. split_and!; try done. intros _. split; [done|]. apply depth_of; [done|lia].
    + intros k'. cbn [radix_tree_inorder_walk]. rewrite !elem_of_app, list_elem_of_singleton.
      destruct on0; [destruct (Hon0 eq_refl) as [-> _]; rewrite list_elem_of_singleton|rewrite elem_of_nil]; tauto.
  - edestruct (HK c0 p1 c1) as [[E' Hj]|(ok & x' & p' & c' & E' & Hdes & Hp' & Hc')]; try done.
    { destruct (decide (key < 2 ^ Z.of_nat (S i))%Z); [|lia]. destruct Ek. by rewrite Z.mod_small by lia. }
    + left. split; [|done]. by rewrite (M_bind_stop _ _ _ _ E').
    + right. exists ok, (if b then RNode l x' on k else RNode x' r on k), p', c'.
      rewrite (M_bind_ok _ _ _ _ _ E'). split; [done|]. split; [|done].
      eapply (descent_child key i l r on k _ _ c0); [done|by intros k'; rewrite Hwalk|done].
Qed.

Lemma radix_descend_eq todo i key bitn l r on k :
  radix_descend avail todo i key bitn (RNode l r on k) =
  round_of (fun bitn child => match todo with
            | O => mret (false, child)
            | S todo => radix_descend avail todo (S i) key bitn child
            end) i key bitn l r on k.
Proof. by destruct todo. Qed.

Lemma radix_descend_spec key : (0 <= key < 2 ^ 64)%Z -> forall todo i x p c,
  i + todo = 7 -> x <> RNil -> wf x i (key mod 2 ^ Z.of_nat i) ->
  (i = 0 \/ (2 ^ Z.of_nat i <= key)%Z) -> pool_ok p c -> (c + Z.of_nat todo < capacity)%Z ->
  round_spec key i x c (Z.of_nat todo + 1) (radix_descend avail todo i key (key mod 2 ^ Z.of_nat i) x p).
Proof.
  intros Hkey todo. induction todo as [|todo IH]; intros i x p c Hi Hx Hwf Hlo Hp Hc;
    (destruct x as [|l r on k]; [done|]); rewrite radix_descend_eq;
    apply descend_round; try done; try lia; intros child p1 c1 Hch Hwf1 Hle Hp1 Hc1.
  - right. exists false, child, p1, c1. split; [done|]. split; [|split; [done|lia]].
    assert (i = 7) as -> by lia. change (2 ^ Z.of_nat 8)%Z with 256%Z in *.
    split; [symmetry; by apply Z.ltb_ge|done|done|]. intros k'. split; [tauto|]. intros [?|[_ ?]]; [done|lia].
  - destruct (IH (S i) child p1 c1 ltac:(lia) Hch Hwf1 (or_intror Hle) Hp1 ltac:(lia))
      as [?|(ok & x' & p' & c' & E & Hd & Hp' & Hc')]; [by left|right].
    exists ok, x', p', c'. split_and!; try done. lia.
Qed.

(** ** Insertions *)
Lemma radix_tree_insert_spec key t p c : (0 <= key < 2 ^ 64)%Z -> wf t 0 0 -> pool_ok p c -> (c + 8 < capacity)%Z ->
  no_memory (radix_tree_insert avail t key p) \/
  exists t' p' c', radix_tree_insert avail t key p = Ok ((if (key <? 256)%Z then 0%Z else (-1)%Z, t'), p') /\
    wf t' 0 0 /\ pool_ok p' c' /\ (c' <= c + 9)%Z /\
    forall k, k ∈ radix_tree_inorder_walk t' <-> k ∈ radix_tree_inorder_walk t \/ k = key /\ (key < 256)%Z.
Proof.
  intros Hkey Hwf Hp Hc. unfold radix_tree_insert.
  assert (Hroot : no_memory (or_new avail t p) \/
    exists t0 p0 c0, or_new avail t p = Ok (t0, p0) /\ t0 <> RNil /\
      wf t0 0 0 /\ radix_tree_inorder_walk t0 = radix_tree_inorder_walk t /\ pool_ok p0 c0 /\ (c0 <= c + 1)%Z).
  { destruct t as [|l r on k].
    - destruct (node_get_spec p c Hp ltac:(lia)) as [?|(p0 & E & Hp0)]; [by left|right].
      exists (RNode RNil RNil false 0), p0, (c + 1)%Z. split_and!; try done; cbn; split_and!; done || lia.
    - right. exists (RNode l r on k), p, c. split_and!; done || lia. }
  destruct Hroot as [[E Hj]|(t0 & p0 & c0 & E & Ht0 & Hwf0 & Hw & Hp0 & Hc0)].
  { left. split; [|done]. by rewrite (M_bind_stop _ _ _ _ E). }
  rewrite (M_bind_ok _ _ _ _ _ E).
  assert (E0 : (key mod 2 ^ Z.of_nat 0)%Z = 0%Z) by apply Z.mod_1_r.
  assert (Hrun : round_spec key 0 t0 c0 8 (radix_descend avail 7 0 key 0 t0 p0)).
  { rewrite <- E0. apply (radix_descend_spec key Hkey 7 0 t0 p0 c0); rewrite ?E0; try done; [by left|lia]. }
  destruct Hrun as [[E' Hj]|(ok & t' & p' & c' & E' & [Hok _ Hwf' Hk] & Hp' & Hc')].
  - left. split; [|done]. by rewrite (M_bind_stop _ _ _ _ E').
  - right. exists t', p', c'. rewrite (M_bind_ok _ _ _ _ _ E'), Hok. rewrite E0 in Hwf'. split_and!; try done; [lia|].
    intros k'. by rewrite Hk, Hw.
Qed.

Lemma radix_insert_all_spec keys t p c : Forall (fun k => 0 <= k < 2 ^ 64)%Z keys -> wf t 0 0 -> pool_ok p c ->
  (c + 9 * Z.of_nat (length keys) < capacity)%Z ->
  no_memory (radix_insert_all avail t keys p) \/
  exists t' p', radix_insert_all avail t keys p =
      Ok (((fun k => if (k <? 256)%Z then 0%Z else (-1)%Z) <$> keys, t'), p') /\ wf t' 0 0 /\
    forall k, k ∈ radix_tree_inorder_walk t' <-> k ∈ radix_tree_inorder_walk t \/ k ∈ keys /\ (k < 256)%Z.
Proof.
  revert t p c. induction keys as [|key keys IH]; intros t p c Hkeys Hwf Hp Hc; cbn [radix_insert_all length] in *.
  { right. eexists _, _. split; [done|]. split; [done|]. intros k. rewrite elem_of_nil. tauto. }
  apply Forall_cons in Hkeys as [Hkey Hkeys].
  destruct (radix_tree_insert_spec key t p c Hkey Hwf Hp ltac:(lia)) as [[E Hj]|(t1 & p1 & c1 & E & Hwf1 & Hp1 & Hc1 & Hk1)].
  { left. split; [|done]. by rewrite (M_bind_stop _ _ _ _ E). }
  rewrite (M_bind_ok _ _ _ _ _ E).
  destruct (IH t1 p1 c1 Hkeys Hwf1 Hp1 ltac:(lia)) as [[E' Hj]|(t' & p' & E' & Hwf' & Hk')].
  { left. split; [|done]. by rewrite (M_bind_stop _ _ _ _ E'). }
  right. exists t', p'. rewrite (M_bind_ok _ _ _ _ _ E'). split_and!; try done.
  intros k. rewrite Hk', Hk1, elem_of_cons. naive_solver.
Qed.
End proofs.

(** * Properties *)

(** Keys inserted one after another into an empty tree: [radix_tree_insert] returns 0
    for a key that fits in a byte and -1 for any other, which is lost; the walk then shows
    every key below 256 once, ordered by the fractions that their bits, read from the low
    end, spell.  A pool that is out of memory is a null pointer dereference; up to three
    million keys fit the pool. *)
Theorem radix_insert_all_walk avail keys : Forall (fun k => 0 <= k < 2 ^ 64)%Z keys ->
  (9 * Z.of_nat (length keys) < capacity)%Z ->
  (radix_insert_all avail RNil keys g_pool = Stop NullDeref /\ exists j, avail j = false) \/
  exists t p, radix_insert_all avail RNil keys g_pool =
      Ok (((fun k => if (k <? 256)%Z then 0%Z else (-1)%Z) <$> keys, t), p) /\
    StronglySorted before (radix_tree_inorder_walk t) /\
    forall k, k ∈ radix_tree_inorder_walk t <-> k ∈ keys /\ (k < 256)%Z.
Proof.
  intros Hkeys Hlen.
  destruct (radix_insert_all_spec avail keys RNil g_pool 0 Hkeys I g_pool_ok ltac:(lia)) as [?|(t & p & E & Hwf & Hk)];
    [by left|right].
  exists t, p. split; [done|]. split; [by apply (walk_places t 0 0)|].
  intros k. rewrite Hk. cbn. rewrite elem_of_nil. tauto.
Qed.

Definition all_memory (k : nat) : bool := true.

Lemma radix_insert_all_walk_witness :
  (radix_insert_all all_memory RNil (300%Z :: test_radix_keys) g_pool = Stop NullDeref /\ exists j, all_memory j = false) \/
  exists t p, radix_insert_all all_memory RNil (300%Z :: test_radix_keys) g_pool = Ok (([-1; 0; 0; 0; 0; 0]%Z, t), p) /\
    StronglySorted before (radix_tree_inorder_walk t) /\
    forall k, k ∈ radix_tree_inorder_walk t <-> k ∈ 300%Z :: test_radix_keys /\ (k < 256)%Z.
Proof.
  apply (radix_insert_all_walk all_memory (300%Z :: test_radix_keys)).
  - apply (bool_decide_unpack _). vm_compute. exact I.
  - reflexivity.
Defined.

(** The order of the walk is not the one the head of the file announces
    ("0, 011, 10, 100, 1011"), and "011" is the same key as "11". *)
Example test_radix_walk :
  match radix_insert_all all_memory RNil test_radix_keys g_pool with
  | Ok ((_, t), _) => radix_tree_inorder_walk t
  | Stop _ => []
  end = [4; 0; 2; 11; 3]%Z.
Proof. vm_compute. reflexivity. Qed.

Example test_radix_tree_main_run : test_radix_tree_main all_memory g_pool = Stop NoReturn.
Proof. vm_compute. reflexivity. Qed.
