(* ===== verification/Bs23.v ===== *)
(** The 2-3 search tree of src/algs/algorithms4th/bs23tree.cpp, as its source has it:
    a node below the root takes a second key before it gets children, nodes are never
    split, and the root keeps one key.

    A tree is made of nodes of the caller's array, each in one place, so it is a value;
    [loc] is the index of the node in the array, and of the parent pointer only whether
    it is null is ever read. *)
From S2P Require Import Prelude.

(** * The code *)
Record bs23tree_node := mkNode { loc : nat; has_p : bool; lkey : Z; rkey : Z }.
Inductive tree23 := Nil | Node (n : bs23tree_node) (left midle right : tree23).

(** [BS23TR_NODE(key)] and [BS23TR_IS_3NODE(node)]. *)
Definition no_key : Z := - INT_MAX.
Definition BS23TR_NODE (i : nat) (key : Z) : bs23tree_node := mkNode i false key no_key.
Definition BS23TR_IS_3NODE (n : bs23tree_node) : bool := negb (rkey n =? no_key)%Z.

(** [x->p && BS23TR_IS_3NODE(x) && (key > x->lkey && key < x->rkey)] *)
Definition goes_midle (n : bs23tree_node) (key : Z) : bool :=
  has_p n && BS23TR_IS_3NODE n && ((lkey n <? key)%Z && (key <? rkey n)%Z).

(** The descent from [x], below another node or not: the new tree and the node that
    is returned, the given one or the one that took its key. *)
Fixpoint insert_below (below : bool) (x : tree23) (node : bs23tree_node) : tree23 * nat :=
  let key := lkey node in
  match x with
  | Nil => (Node (mkNode (loc node) below key (rkey node)) Nil Nil Nil, loc node)
  | Node n l m r =>
      if negb (has_p n) || BS23TR_IS_3NODE n then
        if goes_midle n key then let '(m, i) := insert_below true m node in (Node n l m r, i)
        else if (key <? lkey n)%Z then let '(l, i) := insert_below true l node in (Node n l m r, i)
        else let '(r, i) := insert_below true r node in (Node n l m r, i)
      else if (key <? lkey n)%Z then (Node (mkNode (loc n) (has_p n) key (lkey n)) l m r, loc n)
      else (Node (mkNode (loc n) (has_p n) (lkey n) key) l m r, loc n)
  end.
Definition bs23tree_insert (root : tree23) (node : bs23tree_node) : tree23 * nat :=
  insert_below false root node.

Fixpoint bs23tree_search (x : tree23) (key : Z) : option nat :=
  match x with
  | Nil => None
  | Node n l m r =>
      if negb (lkey n =? key)%Z || (has_p n && BS23TR_IS_3NODE n && negb (rkey n =? key)%Z) then
        if goes_midle n key then bs23tree_search m key
        else if (key <? lkey n)%Z then bs23tree_search l key
        else bs23tree_search r key
      else Some (loc n)
  end.

Fixpoint init_loop (tr : tree23) (i : nat) (keys : list Z) : tree23 :=
  match keys with
  | [] => tr
  | k :: keys => init_loop (bs23tree_insert tr (BS23TR_NODE i k)).1 (S i) keys
  end.
(** The tree, and the root key printed after the loop. *)
Definition bs23tree_init (keys : list Z) : res (tree23 * Z) :=
  let tr := init_loop Nil 0 keys in
  match tr with
  | Nil => Stop NullDeref
  | Node n _ _ _ => Ok (tr, lkey n)
  end.

(** "MEJACHLRPSX" *)
Definition test_keys : list Z := [77; 69; 74; 65; 67; 72; 76; 82; 80; 83; 88]%Z.
Definition test_bs23tree_main : res Z := _ ← bs23tree_init test_keys; Ok (-1)%Z.

(** * Trees in order *)
Definition is3 (n : bs23tree_node) : bool := has_p n && BS23TR_IS_3NODE n.

Fixpoint inorder (t : tree23) : list Z :=
  match t with
  | Nil => []
  | Node n l m r =>
      if is3 n then inorder l ++ lkey n :: inorder m ++ rkey n :: inorder r
      else inorder l ++ lkey n :: inorder r
  end.

(** The shapes the insertion makes: [below] says whether the tree hangs below a node. *)
Fixpoint shape (below : bool) (t : tree23) : Prop :=
  match t with
  | Nil => True
  | Node n l m r =>
      has_p n = below /\
      (if is3 n then shape true l /\ shape true m /\ shape true r
       else rkey n = no_key /\ m = Nil /\
            if below then l = Nil /\ r = Nil else shape true l /\ shape true r)
  end.

Definition sorted (l : list Z) : Prop := StronglySorted Z.lt l.

Lemma sorted_cut l x r : sorted (l ++ x :: r) <->
  sorted l /\ sorted r /\ Forall (fun y => y < x)%Z l /\ Forall (fun y => x < y)%Z r.
Proof.
  unfold sorted. rewrite StronglySorted_app, StronglySorted_cons, !Forall_forall. split.
  - intros (Hlr & Hl & Hx & Hr). split_and!; try done. intros y Hy. apply Hlr; [done|by left].
  - intros (Hl & Hr & Hly & Hry). split_and!; try done. intros y z Hy [->|Hz]%elem_of_cons; [by apply Hly|].
    specialize (Hly y Hy). specialize (Hry z Hz). lia.
Qed.

(** ** Insertion *)
Section insert.
Context (node : bs23tree_node) (Hkey : lkey node <> no_key) (Hnode : rkey node = no_key).

Lemma leaf_is3 i b k : is3 (mkNode i b k no_key) = false.
Proof. unfold is3, BS23TR_IS_3NODE. cbn. by rewrite andb_false_r. Qed.

Record inserted (below : bool) (x x' : tree23) : Prop := {
  in_shape : shape below x';
  in_keys : inorder x' ≡ₚ lkey node :: inorder x;
  in_sorted : sorted (inorder x')
}.

Lemma inserted_Forall below x x' (P : Z -> Prop) : inserted below x x' ->
  Forall P (inorder x) -> P (lkey node) -> Forall P (inorder x').
Proof. intros [_ Hk _] Hx Hn. rewrite Hk. by constructor. Qed.

Lemma insert_below_correct below x : shape below x -> sorted (inorder x) -> lkey node ∉ inorder x ->
  no_key ∉ inorder x ->
  inserted below x (insert_below below x node).1.
Proof.
  revert below. induction x as [|n l IHl m IHm r IHr]; intros below Hsh Hso Hnew Hno; cbn [insert_below].
  { rewrite Hnode. split; cbn [fst shape inorder]; rewrite ?leaf_is3; cbn; try done.
    - split; [done|]. by destruct below.
    - repeat constructor. }
  cbn [shape] in Hsh. destruct Hsh as [Hp Hsh].
  assert (E3 : is3 n = has_p n && BS23TR_IS_3NODE n) by done.
  cbn [inorder] in *. destruct (is3 n) eqn:E.
  - destruct Hsh as (Sl & Sm & Sr). symmetry in E3. apply andb_true_iff in E3 as [Ep Er].
    unfold goes_midle. rewrite Ep, Er. cbn [negb orb andb].
    apply sorted_cut in Hso as (Ol & Omr & Bl & Bmr). apply sorted_cut in Omr as (Om & Or & Bm & Br).
    apply Forall_app in Bmr as [Bm' Br']. apply Forall_cons in Br' as [Hlr Br'].
    rewrite elem_of_app, elem_of_cons, elem_of_app, elem_of_cons in Hnew, Hno.
    destruct (Z.ltb_spec (lkey n) (lkey node)) as [H1|H1]; [destruct (Z.ltb_spec (lkey node) (rkey n)) as [H2|H2]|]; cbn [andb].
    + specialize (IHm true Sm Om ltac:(tauto) ltac:(tauto)).
      destruct (insert_below true m node) as [m' i]. cbn [fst] in *. pose proof IHm as [Sm' Km' Om'].
      split; cbn [shape inorder fst]; rewrite ?E; [tauto| |].
      * rewrite Km'. cbn. solve_Permutation.
      * apply sorted_cut. rewrite sorted_cut, Forall_app, Forall_cons. split_and!; try done.
        -- eapply inserted_Forall; [done..|lia].
        -- eapply inserted_Forall; [done..|lia].
    + assert (lkey node <> rkey n) by tauto.
      rewrite (proj2 (Z.ltb_ge (lkey node) (lkey n))) by lia.
      specialize (IHr true Sr Or ltac:(tauto) ltac:(tauto)).
      destruct (insert_below true r node) as [r' i]. cbn [fst] in *. pose proof IHr as [Sr' Kr' Or'].
      split; cbn [shape inorder fst]; rewrite ?E; [tauto| |].
      * rewrite Kr'. solve_Permutation.
      * apply sorted_cut. rewrite sorted_cut, Forall_app, Forall_cons. split_and!; try done.
        -- eapply inserted_Forall; [done..|lia].
        -- eapply inserted_Forall; [done..|lia].
    + assert (lkey node <> lkey n) by tauto. rewrite (proj2 (Z.ltb_lt (lkey node) (lkey n))) by lia.
      specialize (IHl true Sl Ol ltac:(tauto) ltac:(tauto)).
      destruct (insert_below true l node) as [l' i]. cbn [fst] in *. pose proof IHl as [Sl' Kl' Ol'].
      split; cbn [shape inorder fst]; rewrite ?E; [tauto| |].
      * by rewrite Kl'.
      * apply sorted_cut. rewrite sorted_cut, Forall_app, Forall_cons. split_and!; try done.
        eapply inserted_Forall; [done..|lia].
  - destruct Hsh as (Er & -> & Hsh). unfold goes_midle. rewrite <- E3. cbn [andb].
    apply sorted_cut in Hso as (Ol & Or & Bl & Br). rewrite elem_of_app, elem_of_cons in Hnew, Hno.
    assert (lkey node <> lkey n) by tauto. subst below. destruct (has_p n) eqn:Ep; cbn [negb orb].
    + destruct Hsh as [-> ->]. unfold BS23TR_IS_3NODE at 1. rewrite Er, Z.eqb_refl. cbn [negb].
      destruct (Z.ltb_spec (lkey node) (lkey n)); cbn [fst inorder].
      * assert (E' : is3 (mkNode (loc n) true (lkey node) (lkey n)) = true).
        { unfold is3, BS23TR_IS_3NODE. cbn. apply negb_true_iff, Z.eqb_neq. intros E0. apply Hno. right. by left. }
        split; cbn [shape inorder]; rewrite ?E', ?E; cbn; [tauto|done|]. repeat (constructor; try lia).
      * assert (E' : is3 (mkNode (loc n) true (lkey n) (lkey node)) = true).
        { unfold is3, BS23TR_IS_3NODE. cbn. by apply negb_true_iff, Z.eqb_neq. }
        split; cbn [shape inorder]; rewrite ?E', ?E; cbn; [tauto|by apply perm_swap|]. repeat (constructor; try lia).
    + destruct Hsh as [Sl Sr].
      destruct (Z.ltb_spec (lkey node) (lkey n)).
      * specialize (IHl true Sl Ol ltac:(tauto) ltac:(tauto)).
        destruct (insert_below true l node) as [l' i]. cbn [fst] in *. pose proof IHl as [Sl' Kl' Ol'].
        split; cbn [shape inorder]; rewrite ?E, ?Ep; [tauto|by rewrite Kl'|].
        apply sorted_cut. split_and!; try done. eapply inserted_Forall; [done..|lia].
      * specialize (IHr true Sr Or ltac:(tauto) ltac:(tauto)).
        destruct (insert_below true r node) as [r' i]. cbn [fst] in *. pose proof IHr as [Sr' Kr' Or'].
        split; cbn [shape inorder]; rewrite ?E, ?Ep; [tauto| |].
        -- rewrite Kr'. solve_Permutation.
        -- apply sorted_cut. split_and!; try done. eapply inserted_Forall; [done..|lia].
Qed.
End insert.

Lemma init_loop_correct keys tr i : NoDup keys -> no_key ∉ keys -> disj (inorder tr) keys ->
  shape false tr -> sorted (inorder tr) -> no_key ∉ inorder tr ->
  shape false (init_loop tr i keys) /\ inorder (init_loop tr i keys) ≡ₚ inorder tr ++ keys /\
  sorted (inorder (init_loop tr i keys)).
Proof.
  revert tr i. induction keys as [|k keys IH]; intros tr i Hnd Hno Hdis Hsh Hso Hnt; cbn [init_loop].
  { split_and!; [done| |done]. by rewrite app_nil_r. }
  apply NoDup_cons in Hnd as [Hk Hnd]. rewrite elem_of_cons in Hno.
  destruct (insert_below_correct (BS23TR_NODE i k) ltac:(cbn; intros E; apply Hno; by left) eq_refl false tr) as [Hsh' Hk' Hso'];
    [done|done|cbn; intros Hin; apply (Hdis k Hin); by left|done|]. fold (bs23tree_insert tr (BS23TR_NODE i k)) in *.
  cbn [lkey BS23TR_NODE] in Hk'.
  destruct (IH (bs23tree_insert tr (BS23TR_NODE i k)).1 (S i)) as (Hs & Hp & Ho); try done; [tauto|..].
  - intros x. rewrite Hk', elem_of_cons. intros [->|Hx] Hin; [done|]. apply (Hdis x Hx). by right.
  - rewrite Hk', elem_of_cons. intros [E|?]; [apply Hno; by left|done].
  - split_and!; try done. rewrite Hp, Hk'. solve_Permutation.
Qed.

(** ** Search *)

(** Where [bs23tree_search] can stop: at a node with the key that is not a 3-node. *)
Fixpoint in_2node (t : tree23) (key : Z) (i : nat) : Prop :=
  match t with
  | Nil => False
  | Node n l m r =>
      (is3 n = false /\ lkey n = key /\ loc n = i) \/ in_2node l key i \/ in_2node m key i \/ in_2node r key i
  end.

Lemma in_2node_inorder below t key i : shape below t -> in_2node t key i -> key ∈ inorder t.
Proof.
  revert below. induction t as [|n l IHl m IHm r IHr]; intros below Hsh Hin; [done|].
  cbn [shape in_2node inorder] in *. destruct Hsh as [_ Hsh]. destruct (is3 n).
  - destruct Hsh as (?&?&?). rewrite elem_of_app, elem_of_cons, elem_of_app, elem_of_cons.
    destruct Hin as [(?&_)|[?|[?|?]]]; [done|left; by eapply IHl|right; right; left; by eapply IHm|
      right; right; right; right; by eapply IHr].
  - destruct Hsh as (_ & -> & Hsh). rewrite elem_of_app, elem_of_cons.
    destruct Hin as [(_&->&_)|[Hi|[Hi|Hi]]]; [tauto| |done|].
    + destruct below; [destruct Hsh as [-> _]; done|]. left. eapply IHl; [apply Hsh|done].
    + destruct below; [destruct Hsh as [_ ->]; done|]. right. right. eapply IHr; [apply Hsh|done].
Qed.

Lemma search_correct below t key i : shape below t -> sorted (inorder t) ->
  bs23tree_search t key = Some i <-> in_2node t key i.
Proof.
  revert below. induction t as [|n l IHl m IHm r IHr]; intros below Hsh Hso; [done|].
  cbn [bs23tree_search]. pose proof (fun k j b Hb => in_2node_inorder b l k j Hb) as Nl.
  pose proof (fun k j b Hb => in_2node_inorder b m k j Hb) as Nm.
  pose proof (fun k j b Hb => in_2node_inorder b r k j Hb) as Nr.
  cbn [shape inorder in_2node] in *. destruct Hsh as [_ Hsh]. fold (is3 n). unfold goes_midle. fold (is3 n).
  destruct (is3 n) eqn:E; cbn [andb].
  - destruct Hsh as (Sl & Sm & Sr).
    apply sorted_cut in Hso as (Ol & Omr & Bl & Bmr). apply sorted_cut in Omr as (Om & Or & Bm & Br).
    apply Forall_app in Bmr as [Bm' Br']. apply Forall_cons in Br' as [Hlr Br']. rewrite !Forall_forall in *.
    replace (negb (lkey n =? key)%Z || negb (rkey n =? key)%Z) with true.
    2:{ symmetry. apply orb_true_iff. rewrite !negb_true_iff, !Z.eqb_neq. lia. }
    specialize (Nl key i _ Sl). specialize (Nm key i _ Sm). specialize (Nr key i _ Sr).
    specialize (IHl _ Sl Ol). specialize (IHm _ Sm Om). specialize (IHr _ Sr Or).
    specialize (Bl key). specialize (Bm key). specialize (Bm' key). specialize (Br key). specialize (Br' key).
    destruct (Z.ltb_spec (lkey n) key) as [H1|H1]; [destruct (Z.ltb_spec key (rkey n)) as [H2|H2]|]; cbn [andb];
      [|rewrite (proj2 (Z.ltb_ge key (lkey n))) by lia|destruct (Z.ltb_spec key (lkey n)) as [H2|H2]].
    + rewrite IHm. split; [tauto|]. intros [(?&_)|[Hi|[Hi|Hi]]]; [done| |done|]; exfalso; [apply Nl, Bl in Hi|apply Nr, Br in Hi]; lia.
    + rewrite IHr. split; [tauto|]. intros [(?&_)|[Hi|[Hi|Hi]]]; [done| | |done]; exfalso; [apply Nl, Bl in Hi|apply Nm, Bm in Hi]; lia.
    + rewrite IHl. split; [tauto|]. intros [(?&_)|[Hi|[Hi|Hi]]]; [done|done| |]; exfalso; [apply Nm, Bm' in Hi|apply Nr, Br' in Hi]; lia.
    + rewrite IHr. split; [tauto|]. intros [(?&_)|[Hi|[Hi|Hi]]]; [done| | |done]; exfalso; [apply Nl, Bl in Hi|apply Nm, Bm' in Hi]; lia.
  - destruct Hsh as (_ & -> & Hsh). apply sorted_cut in Hso as (Ol & Or & Bl & Br). rewrite orb_false_r.
    assert (exists bl br, shape bl l /\ shape br r) as (bl & br & Sl & Sr).
    { destruct below; [destruct Hsh as [-> ->]; by exists true, true|]. by exists true, true. }
    rewrite Forall_forall in Bl, Br.
    specialize (Nl key i _ Sl). specialize (Nr key i _ Sr). specialize (IHl _ Sl Ol). specialize (IHr _ Sr Or).
    specialize (Bl key). specialize (Br key). cbn [in_2node].
    destruct (Z.eqb_spec (lkey n) key) as [Heq|Hne]; cbn [negb].
    + split; [intros [= <-]; tauto|]. intros [(_ & _ & ->)|[Hi|[[]|Hi]]]; [done| |]; exfalso; [apply Nl, Bl in Hi|apply Nr, Br in Hi]; lia.
    + destruct (Z.ltb_spec key (lkey n)) as [H2|H2].
      * rewrite IHl. split; [tauto|]. intros [(_&?&_)|[Hi|[[]|Hi]]]; [lia|done|]. exfalso. apply Nr, Br in Hi. lia.
      * rewrite IHr. split; [tauto|]. intros [(_&?&_)|[Hi|[[]|Hi]]]; [lia| |done]. exfalso. apply Nl, Bl in Hi. lia.
Qed.

(** * Properties *)

(** C37: [bs23tree_init] of different keys (none of them the marker [-INT_MAX]) makes a tree
    whose keys in order are the given keys, sorted, in which every node with children below
    the root has two keys; [bs23tree_search] then finds a key exactly when it sits in the
    root or in a node with one key. *)
Theorem bs23tree_init_correct keys : keys <> [] -> NoDup keys -> no_key ∉ keys ->
  exists t k, bs23tree_init keys = Ok (t, k) /\ shape false t /\
    sorted (inorder t) /\ inorder t ≡ₚ keys /\
    forall key i, bs23tree_search t key = Some i <-> in_2node t key i.
Proof.
  intros Hne Hnd Hno. unfold bs23tree_init.
  destruct (init_loop_correct keys Nil 0 Hnd Hno) as (Hsh & Hp & Hso);
    [apply disj_nil_l|done|apply SSorted_nil|apply not_elem_of_nil|]. cbn [inorder app] in Hp.
  destruct (init_loop Nil 0 keys) as [|n l m r] eqn:E.
  { cbn [inorder] in Hp. apply Permutation_nil_l in Hp. congruence. }
  exists (Node n l m r), (lkey n). split_and!; try done. intros key i. by eapply search_correct.
Qed.

Lemma bs23tree_init_correct_witness :
  exists t k, bs23tree_init test_keys = Ok (t, k) /\ shape false t /\
    sorted (inorder t) /\ inorder t ≡ₚ test_keys /\
    forall key i, bs23tree_search t key = Some i <-> in_2node t key i.
Proof.
  apply bs23tree_init_correct; [done|apply (bool_decide_unpack _); vm_compute; exact I..].
Defined.

(** Of the eleven keys of the test the search finds three, "M", "H" and "L": the eight
    others share a node. *)
Example test_found :
  match bs23tree_init test_keys with
  | Ok (t, _) => filter (fun k => is_Some (bs23tree_search t k)) test_keys
  | Stop _ => []
  end = [77; 72; 76]%Z.
Proof. vm_compute. reflexivity. Qed.
