(* ===== verification/Jzoffer.v ===== *)
(** The interview programs of src/algs/jzoffer: a tree rebuilt from two of its walks
    (construct_btree.cpp), a list printed backwards (print_list_reverse.cpp), and the
    search of an ordered two-dimensional array (ordered_2d_array_search.cpp). *)
From S2P Require Import Prelude.

(** * construct_btree.cpp *)

(** Nodes are made by [btrnode_get] and never shared: a tree is a value. *)
Inductive btr := BNil | BNode (key : Z) (left right : btr).

(** [gnodes] (null or not) and [ginodes]; the number of calls of [malloc]. *)
Record btr_pool := mkBp { bgnodes : bool; bginodes : Z; breqs : nat }.

(** [1024 * 1024 / sizeof(btr_node)] *)
Definition BTR_N : Z := 1024 * 1024 / 24.

Section btree.
(** Whether the [k]-th call of [malloc] finds memory. *)
Context (avail : nat -> bool).
Abbreviation Pool := (M btr_pool).

Definition btrnode_get_round (_ : unit) : Pool (unit + unit) := fun p =>
  match (if bgnodes p then Some p
         else if avail (breqs p) then Some (mkBp true (bginodes p) (S (breqs p))) else None) with
  | None => Stop Exited
  | Some p =>
      if (bginodes p =? BTR_N - 1)%Z then Ok (inl tt, mkBp false 0 (breqs p))
      else Ok (inr tt, mkBp (bgnodes p) (bginodes p + 1) (breqs p))
  end.
Definition btrnode_get : Pool unit := loopM 3 btrnode_get_round tt.

(** [std::find(in, in + len, root) - in]: [len] when there is none; [k] elements have
    been passed. *)
Fixpoint find_index (a : list Z) (root : Z) (k len : nat) : res nat :=
  match len with
  | O => Ok k
  | S len =>
      match a with
      | [] => Stop OutOfBounds
      | x :: a => if decide (x = root) then Ok k else find_index a root (S k) len
      end
  end.

(** The arrays from the two pointers on. *)
Fixpoint construct_btr_pre_in (fuel : nat) (pre inn : list Z) (len : Z) : Pool (Z * btr) :=
  match fuel with
  | O => stop OutOfFuel
  | S fuel =>
      if (len =? 0)%Z then mret ((-2)%Z, BNil)
      else
        root ← lift (aget pre 0);
        leftn ← lift (find_index inn root 0 (Z.to_nat len));
        btrnode_get;;
        '(r, l) ← (if decide (0 < leftn) then construct_btr_pre_in fuel (drop 1 pre) inn (Z.of_nat leftn)
                   else mret (0%Z, BNil));
        if negb (r =? 0)%Z then mret ((-4)%Z, BNode root l BNil)
        else
          let rightn := u64 (len - Z.of_nat leftn - 1) in
          '(r, t) ← (if (0 <? rightn)%Z
                     then construct_btr_pre_in fuel (drop (1 + leftn) pre) (drop (1 + leftn) inn) rightn
                     else mret (0%Z, BNil));
          if negb (r =? 0)%Z then mret ((-5)%Z, BNode root l t)
          else mret (0%Z, BNode root l t)
  end.
End btree.

Fixpoint btr_inorder_print (tr : btr) : list Z :=
  match tr with
  | BNil => []
  | BNode k l r => btr_inorder_print l ++ k :: btr_inorder_print r
  end.

(** What [test_jzoffter_construct_btr_main] prints and returns. *)
Definition test_construct_btr_main (avail : nat -> bool) : M btr_pool (list Z * Z) :=
  '(r, tr) ← construct_btr_pre_in avail 9 [1; 2; 4; 7; 3; 5; 6; 8]%Z [4; 7; 2; 1; 5; 3; 8; 6]%Z 8;
  match tr with
  | BNil => mret ([], (-1)%Z)
  | _ => if (r =? 0)%Z then mret (btr_inorder_print tr, 0%Z) else mret ([], (-1)%Z)
  end.

(** * print_list_reverse.cpp *)

(** The nodes of a list: key and next. *)
Definition lheap : Type := gmap nat (Z * option nat).

(** The [for] loop that pushes every node on the stack, and the [while] loop that pops
    and prints. *)
Fixpoint push_all (fuel : nat) (h : lheap) (p : option nat) (stack : list nat) : res (list nat) :=
  match fuel with
  | O => Stop OutOfFuel
  | S fuel =>
      match p with
      | None => Ok stack
      | Some a => match h !! a with Some (_, n) => push_all fuel h n (a :: stack) | None => Stop Dangling end
      end
  end.
Fixpoint pop_all (h : lheap) (stack : list nat) : res (list Z) :=
  match stack with
  | [] => Ok []
  | a :: stack =>
      match h !! a with
      | Some (k, _) => out ← pop_all h stack; Ok (k :: out)
      | None => Stop Dangling
      end
  end.
Definition print_list_reverse_1 (fuel : nat) (h : lheap) (li : option nat) : res (list Z) :=
  s ← push_all fuel h li []; pop_all h s.

Fixpoint print_list_reverse_2 (fuel : nat) (h : lheap) (li : option nat) : res (list Z) :=
  match fuel with
  | O => Stop OutOfFuel
  | S fuel =>
      match li with
      | None => Stop NullDeref
      | Some a =>
          match h !! a with
          | None => Stop Dangling
          | Some (k, n) =>
              out ← match n with Some _ => print_list_reverse_2 fuel h n | None => Ok [] end;
              Ok (out ++ [k])
          end
      end
  end.

(** The list [test_jzoffter_print_list_reverse_main] makes of [todo] nodes from [i] on,
    each put in front. *)
Fixpoint make_list (i todo : nat) (h : lheap) (li : option nat) : lheap * option nat :=
  match todo with
  | O => (h, li)
  | S todo => make_list (S i) todo (<[i := (Z.of_nat i, li)]> h) (Some i)
  end.
Definition print_list_reverse_main : res (list Z * list Z) :=
  let '(h, li) := make_list 0 32 ∅ None in
  a ← print_list_reverse_1 33 h li;
  b ← print_list_reverse_2 33 h li;
  Ok (a, b).

(** * ordered_2d_array_search.cpp *)

(** One round of the [for] loop; [i] and [j] are [size_t], so that [j >= 0] always
    holds and [--j] wraps. *)
Definition search_round (a : list Z) (m key : Z) (ij : Z * Z) : res (Z * Z + bool) :=
  let '(i, j) := ij in
  if (i <? m)%Z then
    x ← aget a (u64 (u64 (i * m) + j));
    if (key =? x)%Z then Ok (inr true)
    else if (key <? x)%Z then Ok (inl (i, u64 (j - 1)))
    else Ok (inl (u64 (i + 1), j))
  else Ok (inr false).

(** [a] is [None] for the null pointer. *)
Definition ordered_2d_array_search (fuel : nat) (a : option (list Z)) (m n key : Z) : res bool :=
  match a with
  | None => Ok false
  | Some a =>
      if negb ((0 <? m)%Z && (0 <? n)%Z) then Ok false
      else loop fuel (search_round a m key) (0%Z, u64 (n - 1))
  end.

Definition sample_2d : list Z := [1; 2; 8; 9; 2; 4; 9; 12; 4; 7; 10; 13; 6; 8; 11; 15]%Z.
(** The three searches of the test. *)
Definition test_ordered_2d_main : res (list bool) :=
  x ← ordered_2d_array_search 100 (Some sample_2d) 4 4 7;
  y ← ordered_2d_array_search 100 (Some sample_2d) 4 4 10;
  z ← ordered_2d_array_search 100 (Some sample_2d) 4 4 14;
  Ok [x; y; z].

(** * Rebuilding a tree *)
Fixpoint preorder (t : btr) : list Z :=
  match t with BNil => [] | BNode k l r => k :: preorder l ++ preorder r end.
Fixpoint nodes (t : btr) : nat := match t with BNil => 0 | BNode _ l r => S (nodes l + nodes r) end.

Lemma length_preorder t : length (preorder t) = nodes t.
Proof. induction t as [|k l IHl r IHr]; cbn; [done|]. by rewrite length_app, IHl, IHr. Qed.
Lemma length_inorder t : length (btr_inorder_print t) = nodes t.
Proof. induction t as [|k l IHl r IHr]; cbn; [done|]. rewrite length_app. cbn. lia. Qed.

Lemma find_index_spec a root k b x : root ∉ a ->
  find_index (a ++ root :: b) root k (length a + S x) = Ok (k + length a).
Proof.
  revert k. induction a as [|y a IH]; intros k Ha; cbn.
  - rewrite decide_True by done. f_equal. lia.
  - rewrite elem_of_cons in Ha. rewrite decide_False by naive_solver. rewrite IH by naive_solver. f_equal. lia.
Qed.

Section rebuild.
Context (avail : nat -> bool).

Lemma btrnode_get_run p :
  (btrnode_get avail p = Stop Exited /\ exists j, avail j = false) \/
  exists p', btrnode_get avail p = Ok (tt, p').
Proof.
  unfold btrnode_get. rewrite loopM_step. unfold btrnode_get_round.
  destruct p as [g i r]. cbn [bgnodes bginodes breqs].
  destruct g; [|destruct (avail r) eqn:Er; [|left; eauto]]; cbn [bgnodes bginodes breqs];
    (destruct (Z.eqb_spec i (BTR_N - 1)) as [->|Hi]; [|right; by eexists]); rewrite loopM_step; cbn [bgnodes bginodes breqs].
  - destruct (avail r) eqn:Er2; [right; by eexists|left; eauto].
  - destruct (avail (S r)) eqn:Er2; [right; by eexists|left; eauto].
Qed.

Definition exits {A} (r : res A) : Prop := r = Stop Exited /\ exists j, avail j = false.

Lemma construct_run t fuel x y p : t <> BNil -> NoDup (btr_inorder_print t) -> nodes t <= fuel ->
  (Z.of_nat (nodes t) < 2 ^ 64)%Z ->
  exits (construct_btr_pre_in avail fuel (preorder t ++ x) (btr_inorder_print t ++ y) (Z.of_nat (nodes t)) p) \/
  exists p', construct_btr_pre_in avail fuel (preorder t ++ x) (btr_inorder_print t ++ y) (Z.of_nat (nodes t)) p =
    Ok ((0%Z, t), p').
Proof.
  revert t x y p. induction fuel as [|fuel IH]; intros t x y p Hne Hnd Hf Hlt; (destruct t as [|k l r]; [done|]); [cbn in Hf; lia|].
  cbn [construct_btr_pre_in nodes preorder btr_inorder_print] in *. rewrite (proj2 (Z.eqb_neq _ _)) by lia.
  apply NoDup_app in Hnd as (Hl & Hlr & Hr). apply NoDup_cons in Hr as [Hkr Hr].
  assert (Hkl : k ∉ btr_inorder_print l) by (intros Hin; apply (Hlr k Hin); by left).
  cbn [app]. rewrite (bind_lift _ _ _ k) by done.
  assert (Efind : find_index ((btr_inorder_print l ++ k :: btr_inorder_print r) ++ y) k 0
            (Z.to_nat (Z.of_nat (S (nodes l + nodes r)))) = Ok (nodes l)).
  { replace (Z.to_nat _) with (length (btr_inorder_print l) + S (nodes r)) by (rewrite length_inorder; lia).
    rewrite <- app_assoc. cbn [app]. rewrite find_index_spec by done. by rewrite length_inorder. }
  rewrite (bind_lift _ _ _ _ Efind).
  destruct (btrnode_get_run p) as [[E Hj]|[p1 E]]; [left; split; [by apply M_bind_stop|done]|].
  rewrite (M_bind_ok _ _ _ _ _ E).
  set (m1 := if decide (0 < nodes l) then _ else _).
  assert (H1 : exits (m1 p1) \/ exists p2, m1 p1 = Ok ((0%Z, l), p2)).
  { unfold m1. destruct l as [|kl ll lr]; [right; by eexists|]. rewrite decide_True by (cbn; lia).
    cbn [drop]. rewrite drop_0, <- !app_assoc. apply IH; [done|done|lia|lia]. }
  destruct H1 as [[E1 Hj]|[p2 E1]]; [left; split; [by apply M_bind_stop|done]|].
  rewrite (M_bind_ok _ _ _ _ _ E1). cbn [Z.eqb negb].
  replace (u64 (Z.of_nat (S (nodes l + nodes r)) - Z.of_nat (nodes l) - 1)) with (Z.of_nat (nodes r))
    by (unfold u64; rewrite Z.mod_small by lia; lia).
  set (m2 := if (0 <? Z.of_nat (nodes r))%Z then _ else _).
  assert (H2 : exits (m2 p2) \/ exists p3, m2 p2 = Ok ((0%Z, r), p3)).
  { unfold m2. destruct r as [|kr rl rr]; [right; by eexists|].
    rewrite (proj2 (Z.ltb_lt _ _)) by (cbn [nodes]; lia). cbn [Nat.add drop].
    replace (drop (nodes l) ((preorder l ++ preorder (BNode kr rl rr)) ++ x)) with (preorder (BNode kr rl rr) ++ x).
    2:{ rewrite <- app_assoc, <- (length_preorder l). by rewrite drop_app_length. }
    replace (drop (S (nodes l)) ((btr_inorder_print l ++ k :: btr_inorder_print (BNode kr rl rr)) ++ y))
      with (btr_inorder_print (BNode kr rl rr) ++ y).
    2:{ rewrite <- app_assoc, <- (length_inorder l). cbn [app]. by rewrite drop_app_ge, Nat.sub_succ_l, Nat.sub_diag by lia. }
    apply IH; [done|done|lia|lia]. }
  destruct H2 as [[E2 Hj]|[p3 E2]]; [left; split; [by apply M_bind_stop|done]|].
  rewrite (M_bind_ok _ _ _ _ _ E2). right. by eexists.
Qed.
End rebuild.

(** * A list backwards *)
Fixpoint lrep (h : lheap) (p : option nat) (xs : list Z) : Prop :=
  match xs with
  | [] => p = None
  | x :: xs => exists a n, p = Some a /\ h !! a = Some (x, n) /\ lrep h n xs
  end.

Lemma push_all_run h xs p stack fuel : lrep h p xs -> length xs < fuel ->
  exists s, push_all fuel h p stack = Ok (s ++ stack) /\ forall rest out, pop_all h rest = Ok out -> pop_all h (s ++ rest) = Ok (rev xs ++ out).
Proof.
  revert p stack fuel. induction xs as [|x xs IH]; intros p stack fuel Hrep Hf; (destruct fuel as [|fuel]; [cbn in Hf; lia|]); cbn.
  - cbn in Hrep. subst. exists []. split; [done|]. intros rest out Hr; exact Hr.
  - destruct Hrep as (a & n & -> & Ha & Hrep). rewrite Ha.
    destruct (IH n (a :: stack) fuel Hrep ltac:(cbn in Hf; lia)) as (s & -> & Hs).
    exists (s ++ [a]). split; [by rewrite <- app_assoc|]. intros rest out Hr. rewrite <- !app_assoc. cbn [app].
    apply Hs. cbn. by rewrite Ha, Hr.
Qed.

Lemma print_2_run h xs p fuel : lrep h p xs -> xs <> [] -> length xs <= fuel -> print_list_reverse_2 fuel h p = Ok (rev xs).
Proof.
  revert p fuel. induction xs as [|x xs IH]; intros p fuel Hrep Hne Hf; [done|].
  destruct fuel as [|fuel]; [cbn in Hf; lia|]. destruct Hrep as (a & n & -> & Ha & Hrep). cbn. rewrite Ha.
  destruct xs as [|y ys].
  - cbn in Hrep. by subst.
  - destruct n as [n|]; [|by destruct Hrep as (? & ? & ? & _)]. by rewrite IH by (done || cbn in *; lia).
Qed.

(** * The ordered array *)
Definition entry (a : list Z) (m r c : Z) : Z := a !!! Z.to_nat (r * m + c).

(** Rows and columns do not decrease. *)
Definition ordered_2d (a : list Z) (m : Z) : Prop :=
  (forall r c c', 0 <= r < m -> 0 <= c <= c' -> c' < m -> entry a m r c <= entry a m r c')%Z /\
  (forall r r' c, 0 <= r <= r' -> r' < m -> 0 <= c < m -> entry a m r c <= entry a m r' c)%Z.

Section search.
Context (a : list Z) (m key : Z) (Hm : (0 < m)%Z) (Hlen : Z.of_nat (length a) = (m * m)%Z).
Context (Hbig : (m * m < 2 ^ 63)%Z) (Hord : ordered_2d a m).
Abbreviation e := (entry a m).

Lemma aget_entry r c : (0 <= r < m)%Z -> (0 <= c < m)%Z -> aget a (r * m + c) = Ok (e r c).
Proof.
  intros Hr Hc. assert (r * m <= (m - 1) * m)%Z by (apply Z.mul_le_mono_nonneg_r; lia).
  apply aget_Z; [lia|]. unfold entry. apply list_lookup_lookup_total_lt. lia.
Qed.

Lemma entry_00 r c : (0 <= r < m)%Z -> (0 <= c < m)%Z -> (e 0 0 <= e r c)%Z.
Proof. intros Hr Hc. destruct Hord as [Hrow Hcol]. transitivity (e 0 c); [apply Hrow|apply Hcol]; lia. Qed.

Lemma index_entry k : (0 <= k < m * m)%Z -> aget a k = Ok (e (k / m) (k mod m)) /\
  (0 <= k / m < m)%Z /\ (0 <= k mod m < m)%Z.
Proof.
  intros Hk. pose proof (Z.mod_pos_bound k m Hm). pose proof (Z.div_mod k m ltac:(lia)) as Hd.
  assert (0 <= k / m)%Z by (apply Z.div_pos; lia). assert (k / m < m)%Z by (apply Z.div_lt_upper_bound; lia).
  split; [|lia]. rewrite <- aget_entry by lia. f_equal. lia.
Qed.

Lemma elem_entry : key ∈ a <-> exists r c, (0 <= r < m)%Z /\ (0 <= c < m)%Z /\ e r c = key.
Proof.
  rewrite list_elem_of_lookup. split.
  - intros [k Hk]. pose proof (lookup_lt_Some _ _ _ Hk).
    destruct (index_entry (Z.of_nat k) ltac:(lia)) as (Hg & Hr & Hc). rewrite (aget_nat _ _ _ Hk) in Hg.
    injection Hg as Hg. by exists (Z.of_nat k / m)%Z, (Z.of_nat k mod m)%Z.
  - intros (r & c & Hr & Hc & Hk). pose proof (aget_entry r c Hr Hc) as Hg. apply aget_inv in Hg as [_ Hg].
    rewrite Hk in Hg. by eexists.
Qed.

(** What the search comes to. *)
Definition verdict : res bool :=
  if (key <? e 0 0)%Z then Stop OutOfBounds else Ok (bool_decide (key ∈ a)).

(** Rows above [i] and columns right of [j] are excluded; or, when [j] has wrapped [t]
    steps below zero, everything is. *)
Definition excluded (i j : Z) : Prop :=
  (0 <= i <= m)%Z /\ (0 <= j < m)%Z /\ (0 < i -> e 0 0 < key)%Z /\
  forall r c, (0 <= r < m)%Z -> (0 <= c < m)%Z -> (r < i \/ j < c)%Z -> e r c <> key.
Definition wrapped (i j t : Z) : Prop :=
  (0 <= i <= m)%Z /\ j = (2 ^ 64 - t)%Z /\ key ∉ a /\
  ((i = 0 /\ t = 1 /\ key < e 0 0) \/ (0 < i /\ 1 <= t <= i * m /\ e 0 0 < key))%Z.

Lemma u64_id z : (0 <= z < 2 ^ 64)%Z -> u64 z = z.
Proof. intros Hz. unfold u64. by rewrite Z.mod_small. Qed.

Lemma rows_le i : (0 <= i <= m)%Z -> (0 <= i * m <= m * m)%Z.
Proof. intros Hi. split; [lia|]. apply Z.mul_le_mono_nonneg_r; lia. Qed.

Lemma wrapped_run fuel i j t : wrapped i j t -> (m - i + (m * m - t) < Z.of_nat fuel)%Z ->
  loop fuel (search_round a m key) (i, j) = verdict.
Proof.
  revert i j t. induction fuel as [|fuel IH]; intros i j t (Hi & Hj & Hno & Hcase) Hf.
  { pose proof (rows_le i Hi). destruct Hcase as [(?&->&_)|(?&?&_)]; [|lia]. subst. nia. }
  pose proof (rows_le i Hi) as Him.
  assert (Hmm : (i < m -> i * m + m <= m * m)%Z).
  { intros. replace (i * m + m)%Z with ((i + 1) * m)%Z by lia. apply Z.mul_le_mono_nonneg_r; lia. }
  rewrite loop_step. unfold search_round. destruct (Z.ltb_spec i m) as [Hlt|Hge].
  2:{ unfold verdict. destruct Hcase as [(->&_)|(_&_&He)]; [lia|].
      rewrite (proj2 (Z.ltb_ge key (e 0 0))) by lia. by rewrite bool_decide_false. }
  rewrite (u64_id (i * m)) by lia. destruct Hcase as [(->&->&He)|(Hi0&Ht&He)].
  { rewrite (u64_id (0 * m + j)), aget_oob by lia. cbn [mbind res_bind].
    unfold verdict. by rewrite (proj2 (Z.ltb_lt key (e 0 0))). }
  replace (u64 (i * m + j)) with (i * m - t)%Z.
  2:{ rewrite Hj. unfold u64. replace (i * m + (2 ^ 64 - t))%Z with (i * m - t + 1 * 2 ^ 64)%Z by lia.
      rewrite Z.mod_add by lia. by rewrite Z.mod_small by lia. }
  destruct (index_entry (i * m - t) ltac:(lia)) as (-> & Hr & Hc). cbn [mbind res_bind].
  set (x := e ((i * m - t) / m) ((i * m - t) mod m)).
  destruct (Z.eqb_spec key x) as [E|E].
  { destruct Hno. apply elem_entry. eexists _, _. split_and!; [apply Hr|apply Hr|apply Hc|apply Hc|by symmetry]. }
  destruct (Z.ltb_spec key x) as [Hkx|Hkx].
  - assert (0 < i * m - t)%Z.
    { destruct (decide (i * m - t = 0)%Z) as [E0|]; [|lia]. unfold x in Hkx.
      rewrite E0, Z.div_0_l, Z.mod_0_l in Hkx by lia. lia. }
    apply (IH _ _ (t + 1)%Z); [|lia]. split; [lia|]. split; [rewrite Hj, u64_id; lia|]. split; [done|]. right. lia.
  - rewrite u64_id by lia. apply (IH _ _ t); [|lia]. split; [lia|]. split; [done|]. split; [done|]. right.
    split; [lia|]. split; [|done].
    replace ((i + 1) * m)%Z with (i * m + m)%Z by lia. lia.
Qed.

Lemma excluded_run fuel i j : excluded i j -> (m - i + j + 1 + m * m < Z.of_nat fuel)%Z ->
  loop fuel (search_round a m key) (i, j) = verdict.
Proof.
  revert i j. induction fuel as [|fuel IH]; intros i j (Hi & Hj & He & Hex) Hf; [nia|].
  pose proof (rows_le i Hi) as Him. destruct Hord as [Hrow Hcol].
  rewrite loop_step. unfold search_round. destruct (Z.ltb_spec i m) as [Hlt|Hge].
  2:{ unfold verdict. rewrite (proj2 (Z.ltb_ge key (e 0 0))) by lia. rewrite bool_decide_false; [done|].
      rewrite elem_entry. intros (r & c & Hr & Hc & E). apply (Hex r c); lia. }
  assert (i * m + m <= m * m)%Z by (replace (i * m + m)%Z with ((i + 1) * m)%Z by lia; apply Z.mul_le_mono_nonneg_r; lia).
  rewrite (u64_id (i * m)), (u64_id (i * m + j)), aget_entry by lia. cbn [mbind res_bind].
  pose proof (entry_00 i j ltac:(lia) Hj) as H00.
  destruct (Z.eqb_spec key (e i j)) as [E|E].
  { unfold verdict. rewrite (proj2 (Z.ltb_ge key (e 0 0))) by lia. rewrite bool_decide_true; [done|].
    apply elem_entry. exists i, j. lia. }
  destruct (Z.ltb_spec key (e i j)) as [Hkx|Hkx].
  - assert (Hcolj : forall r c, (0 <= r < m)%Z -> (0 <= c < m)%Z -> (r < i \/ j - 1 < c)%Z -> e r c <> key).
    { intros r c Hr Hc Hcase. destruct (decide (r < i \/ j < c)%Z); [by apply Hex|].
      assert (c = j) as -> by lia. specialize (Hcol i r j ltac:(lia) ltac:(lia) Hj). lia. }
    destruct (decide (j = 0)%Z) as [->|].
    + apply (wrapped_run _ _ _ 1); [|nia]. split; [done|]. split; [done|]. split.
      * rewrite elem_entry. intros (r & c & Hr & Hc & Ek). by apply (Hcolj r c); [..|lia|].
      * destruct (decide (i = 0)%Z) as [->|]; [left; lia|right; nia].
    + rewrite u64_id by lia. apply IH; [|lia]. split; [done|]. split; [lia|]. by split.
  - rewrite u64_id by lia. apply IH; [|lia]. split; [lia|]. split; [done|]. split; [lia|].
    intros r c Hr Hc Hcase. destruct (decide (r < i \/ j < c)%Z); [by apply Hex|].
    assert (r = i) as -> by lia. specialize (Hrow i c j ltac:(lia) ltac:(lia) ltac:(lia)). lia.
Qed.
End search.

(** * Properties *)

(** [construct_btr_pre_in] rebuilds a non-empty tree with different keys from its
    preorder and inorder walks, returning 0 (or the program exits for want of memory). *)
Theorem construct_btr_roundtrip avail t fuel p : t <> BNil -> NoDup (btr_inorder_print t) ->
  nodes t <= fuel -> (Z.of_nat (nodes t) < 2 ^ 64)%Z ->
  (construct_btr_pre_in avail fuel (preorder t) (btr_inorder_print t) (Z.of_nat (nodes t)) p = Stop Exited /\
   exists j, avail j = false) \/
  exists p', construct_btr_pre_in avail fuel (preorder t) (btr_inorder_print t) (Z.of_nat (nodes t)) p = Ok ((0%Z, t), p').
Proof.
  intros Hne Hnd Hf Hlt. pose proof (construct_run avail t fuel [] [] p Hne Hnd Hf Hlt) as H.
  by rewrite !app_nil_r in H.
Qed.

(** Both ways of printing a list backwards print it backwards; only the recursive one
    cannot take the empty list. *)
Theorem print_list_reverse_agree h li xs fuel : lrep h li xs -> length xs < fuel ->
  print_list_reverse_1 fuel h li = Ok (rev xs) /\
  print_list_reverse_2 fuel h li = if decide (xs = []) then Stop NullDeref else Ok (rev xs).
Proof.
  intros Hrep Hf. split.
  - unfold print_list_reverse_1. destruct (push_all_run h xs li [] fuel Hrep Hf) as (s & -> & Hs). cbn [mbind res_bind].
    rewrite (Hs [] []) by done. by rewrite app_nil_r.
  - destruct (decide (xs = [])) as [->|Hne]; [|by apply print_2_run; [..|lia]].
    cbn in Hrep. subst. by destruct fuel; [cbn in Hf; lia|].
Qed.

(** On a square array ordered along rows and columns [ordered_2d_array_search] ends and
    decides whether the key occurs, provided the key is not below the first element; below
    it, [--j] wraps and the search reads outside the array. *)
Theorem ordered_2d_array_search_correct a m key fuel : (0 < m)%Z -> Z.of_nat (length a) = (m * m)%Z ->
  (m * m < 2 ^ 63)%Z -> ordered_2d a m -> (m + m + m * m < Z.of_nat fuel)%Z ->
  ordered_2d_array_search fuel (Some a) m m key =
  if (key <? entry a m 0 0)%Z then Stop OutOfBounds else Ok (bool_decide (key ∈ a)).
Proof.
  intros Hm Hlen Hbig Hord Hf. unfold ordered_2d_array_search.
  rewrite (proj2 (Z.ltb_lt 0 m)) by done. cbn [andb negb].
  assert (m <= m * m)%Z by nia. rewrite u64_id by lia.
  rewrite (excluded_run a m key Hm Hlen Hbig Hord); [done| |lia].
  split; [lia|]. split; [lia|]. split; [lia|]. intros r c. lia.
Qed.

(** ** Witnesses and examples *)
Definition all_memory (k : nat) : bool := true.

(** The tree of the head comment of construct_btree.cpp. *)
Definition sample_btr : btr :=
  BNode 1 (BNode 2 (BNode 4 BNil (BNode 7 BNil BNil)) BNil)
          (BNode 3 (BNode 5 BNil BNil) (BNode 6 (BNode 8 BNil BNil) BNil)).

Lemma construct_btr_roundtrip_witness :
  (construct_btr_pre_in all_memory 8 (preorder sample_btr) (btr_inorder_print sample_btr) 8 (mkBp false 0 0) = Stop Exited /\
   exists j, all_memory j = false) \/
  exists p', construct_btr_pre_in all_memory 8 (preorder sample_btr) (btr_inorder_print sample_btr) 8 (mkBp false 0 0) =
    Ok ((0%Z, sample_btr), p').
Proof.
  apply (construct_btr_roundtrip all_memory sample_btr 8); [done|apply (bool_decide_unpack _); vm_compute; exact I|cbn; lia|reflexivity].
Defined.

Example test_construct_btr_main_run :
  match test_construct_btr_main all_memory (mkBp false 0 0) with Ok (r, _) => Some r | Stop _ => None end =
  Some ([4; 7; 2; 1; 5; 3; 8; 6]%Z, 0%Z).
Proof. vm_compute. reflexivity. Qed.

(** Walks that do not belong together: [std::find] returns the end, not a null
    pointer, and the recursion reads outside the arrays. *)
Example construct_btr_mismatch : construct_btr_pre_in all_memory 9 [1; 2]%Z [3; 4]%Z 2 (mkBp false 0 0) = Stop OutOfBounds.
Proof. vm_compute. reflexivity. Qed.

Definition short_list : lheap * option nat := make_list 0 3 ∅ None.

Lemma print_list_reverse_agree_witness :
  print_list_reverse_1 4 short_list.1 short_list.2 = Ok [0; 1; 2]%Z /\
  print_list_reverse_2 4 short_list.1 short_list.2 = Ok [0; 1; 2]%Z.
Proof.
  apply (print_list_reverse_agree short_list.1 short_list.2 [2; 1; 0]%Z 4); [|cbn; lia].
  vm_compute. repeat (eexists _, _; split; [reflexivity|split; [reflexivity|]]). reflexivity.
Defined.

Example print_list_reverse_main_run : print_list_reverse_main = Ok (seqZ 0 32, seqZ 0 32).
Proof. vm_compute. reflexivity. Qed.

Lemma sample_2d_ordered : ordered_2d sample_2d 4.
Proof.
  assert (Hf : Forall (fun '(r, c) => entry sample_2d 4 r c <= entry sample_2d 4 r (Z.min 3 (c + 1)) /\
                         entry sample_2d 4 r c <= entry sample_2d 4 (Z.min 3 (r + 1)) c)%Z
                 (r ← seqZ 0 4; (fun c => (r, c)) <$> seqZ 0 4)) by (apply (bool_decide_unpack _); vm_compute; exact I).
  rewrite Forall_forall in Hf.
  assert (Hstep : forall r c, (0 <= r < 4)%Z -> (0 <= c < 4)%Z ->
    (entry sample_2d 4 r c <= entry sample_2d 4 r (Z.min 3 (c + 1)) /\
     entry sample_2d 4 r c <= entry sample_2d 4 (Z.min 3 (r + 1)) c)%Z).
  { intros r c Hr Hc. apply (Hf (r, c)). apply list_elem_of_bind. exists r. rewrite elem_of_seqZ, list_elem_of_fmap.
    split; [exists c; rewrite elem_of_seqZ; split; [done|lia]|lia]. }
  split.
  - intros r c c' Hr Hc Hc'. replace c' with (c + Z.of_nat (Z.to_nat (c' - c)))%Z in * by lia.
    induction (Z.to_nat (c' - c)) as [|d IH]; [by rewrite Z.add_0_r|].
    etransitivity; [apply IH; lia|]. destruct (Hstep r (c + Z.of_nat d)%Z Hr ltac:(lia)) as [H _].
    replace (c + Z.of_nat (S d))%Z with (Z.min 3 (c + Z.of_nat d + 1)) by lia. done.
  - intros r r' c Hr Hr' Hc. replace r' with (r + Z.of_nat (Z.to_nat (r' - r)))%Z in * by lia.
    induction (Z.to_nat (r' - r)) as [|d IH]; [by rewrite Z.add_0_r|].
    etransitivity; [apply IH; lia|]. destruct (Hstep (r + Z.of_nat d)%Z c ltac:(lia) Hc) as [_ H].
    replace (r + Z.of_nat (S d))%Z with (Z.min 3 (r + Z.of_nat d + 1)) by lia. done.
Qed.

Lemma ordered_2d_array_search_correct_witness :
  ordered_2d_array_search 100 (Some sample_2d) 4 4 14 =
  if (14 <? entry sample_2d 4 0 0)%Z then Stop OutOfBounds else Ok (bool_decide (14%Z ∈ sample_2d)).
Proof. apply ordered_2d_array_search_correct; [lia|reflexivity|lia|apply sample_2d_ordered|lia]. Defined.

Example test_ordered_2d_main_run : test_ordered_2d_main = Ok [true; true; false].
Proof. vm_compute. reflexivity. Qed.

(** The index strides by the number of rows: on an ordered array of two rows and three
    columns the last element is missed. *)
Example ordered_2d_not_square :
  ordered_2d_array_search 100 (Some [1; 2; 3; 4; 5; 6]%Z) 2 3 6 = Ok false.
Proof. vm_compute. reflexivity. Qed.
