(* ===== verification/CutRod.v ===== *)
(** The rod cutting programs of src/algs/intro_to_algs3th/dynamic_programming.cpp: the
    recursive [cut_rod], the two-argument [bottom_up_cut_rod], and the one that also
    returns where to cut.  A [std::map<int, int>] is a [gmap Z Z]; reading it with
    [operator[]] inserts 0 for a key that is missing. *)
From S2P Require Import Prelude.

(** * The code *)

(** [r[k]] as a value: the map may grow. *)
Definition map_at (r : gmap Z Z) (k : Z) : Z * gmap Z Z :=
  match r !! k with Some v => (v, r) | None => (0%Z, <[k := 0%Z]> r) end.

(** The loop of [cut_rod] over [i], [todo] rounds: each assigns [q] anew. *)
Fixpoint cut_rod (fuel : nat) (p : list Z) (n : Z) : res Z :=
  match fuel with
  | O => Stop OutOfFuel
  | S fuel =>
      if (n =? 0)%Z then Ok 0%Z
      else
        (fix go (i : Z) (todo : nat) (q : Z) : res Z :=
           match todo with
           | O => Ok q
           | S todo =>
               x ← aget p (i - 1);
               y ← cut_rod fuel p (n - i);
               go (i + 1)%Z todo (Z.max x y)
           end) 1%Z (Z.to_nat n) INT_MIN
  end.

(** The sum [p[i - 1] + r[j - i]]. *)
Definition price_and_rest (p : list Z) (r : gmap Z Z) (i j : Z) : res (Z * gmap Z Z) :=
  x ← aget p (i - 1);
  let '(y, r) := map_at r (j - i) in
  s ← ck (x + y);
  Ok (s, r).

Fixpoint best_loop (p : list Z) (j i : Z) (todo : nat) (q : Z) (r : gmap Z Z) : res (Z * gmap Z Z) :=
  match todo with
  | O => Ok (q, r)
  | S todo =>
      '(s, r) ← price_and_rest p r i j;
      best_loop p j (i + 1) todo (Z.max q s) r
  end.
Fixpoint bottom_up_loop (p : list Z) (j : Z) (todo : nat) (r : gmap Z Z) : res (gmap Z Z) :=
  match todo with
  | O => Ok r
  | S todo =>
      '(q, r) ← best_loop p j 1 (Z.to_nat j) INT_MAX r;
      bottom_up_loop p (j + 1) todo (<[j := q]> r)
  end.
Definition bottom_up_cut_rod (p : list Z) (n : Z) : res Z :=
  r ← bottom_up_loop p 1 (Z.to_nat n) {[0%Z := 0%Z]};
  Ok (map_at r n).1.

(** The three-argument function: the length of the first piece is kept in [s]. *)
Fixpoint best_cut_loop (p : list Z) (j i : Z) (todo : nat) (q : Z) (r s : gmap Z Z) : res (Z * gmap Z Z * gmap Z Z) :=
  match todo with
  | O => Ok (q, r, s)
  | S todo =>
      '(x, r) ← price_and_rest p r i j;
      if (q <? x)%Z then
        '(x, r) ← price_and_rest p r i j;
        best_cut_loop p j (i + 1) todo x r (<[j := i]> s)
      else best_cut_loop p j (i + 1) todo q r s
  end.
Fixpoint bottom_up_cut_loop (p : list Z) (j : Z) (todo : nat) (r s : gmap Z Z) : res (gmap Z Z * gmap Z Z) :=
  match todo with
  | O => Ok (r, s)
  | S todo =>
      '(q, r, s) ← best_cut_loop p j 1 (Z.to_nat j) INT_MIN r s;
      bottom_up_cut_loop p (j + 1) todo (<[j := q]> r) s
  end.

(** The values of a map in the order of its iterator. *)
Definition in_key_order (s : gmap Z Z) : list Z := omap (s !!.) (merge_sort Z.le (map_to_list s).*1).

(** The result, and what is written through the output iterator. *)
Definition bottom_up_cut_rod_sol (p : list Z) (n : Z) : res (Z * list Z) :=
  '(r, s) ← bottom_up_cut_loop p 1 (Z.to_nat n) {[0%Z := 0%Z]} ∅;
  Ok ((map_at r n).1, in_key_order s).

(** The loop of [test_cut_rod_main] that prints a solution. *)
Fixpoint print_cuts (fuel : nat) (solutions : list Z) (n : Z) : res (list Z) :=
  match fuel with
  | O => Stop OutOfFuel
  | S fuel =>
      if (0 <? n)%Z then
        x ← aget solutions (n - 1);
        out ← print_cuts fuel solutions (u64 (n - x));
        Ok (x :: out)
      else Ok []
  end.

Definition prices : list Z := [1; 5; 8; 9; 10; 17; 17; 20; 24; 30]%Z.
(** The values the test prints: the three results and the pieces. *)
Definition test_cut_rod_main : res (Z * list Z) :=
  a ← cut_rod 11 prices 10;
  b ← bottom_up_cut_rod prices 10;
  '(c, solutions) ← bottom_up_cut_rod_sol prices 10;
  l ← print_cuts 11 solutions (Z.of_nat (length solutions));
  Ok (c, a :: b :: l).

(** * Cuttings *)
Definition price_of (p : list Z) (c : Z) : Z := p !!! Z.to_nat (c - 1).
Definition price (p : list Z) (l : list Z) : Z := foldr Z.add 0%Z (price_of p <$> l).
Definition total (l : list Z) : Z := foldr Z.add 0%Z l.
Definition cutting (n : Z) (l : list Z) : Prop := Forall (fun c => 1 <= c)%Z l /\ total l = n.

(** [v] is the best price of a rod of length [n]. *)
Definition optimal (p : list Z) (n v : Z) : Prop :=
  (exists l, cutting n l /\ price p l = v) /\ (forall l, cutting n l -> price p l <= v)%Z.

Lemma total_nonneg l : Forall (fun c => 1 <= c)%Z l -> (0 <= total l)%Z.
Proof. unfold total. induction 1; cbn; lia. Qed.

Lemma cutting_cons n c l : cutting n (c :: l) <-> (1 <= c)%Z /\ cutting (n - c) l.
Proof. unfold cutting, total. rewrite Forall_cons. cbn. split; intros; split_and!; try tauto; lia. Qed.

Lemma optimal_0 p : optimal p 0 0.
Proof.
  split; [by exists []|]. intros [|c l] Hl; [done|]. apply cutting_cons in Hl as [Hc [Hl Ht]].
  pose proof (total_nonneg l Hl). lia.
Qed.

(** A best price from a best first piece. *)
Lemma optimal_step p n (best : Z -> Z) c : (1 <= c <= n)%Z ->
  (forall k, 0 <= k < n -> optimal p k (best k))%Z ->
  (forall i, 1 <= i <= n -> price_of p i + best (n - i) <= price_of p c + best (n - c))%Z ->
  optimal p n (price_of p c + best (n - c))%Z.
Proof.
  intros Hc Hopt Hbest. split.
  - destruct (Hopt (n - c)%Z ltac:(lia)) as [(l & Hl & Hv) _]. exists (c :: l).
    rewrite cutting_cons. split; [split; [lia|done]|]. unfold price. cbn. unfold price in Hv. lia.
  - intros [|i l] Hl; [destruct Hl as [_ Ht]; cbn in Ht; lia|]. apply cutting_cons in Hl as [Hi Hl].
    pose proof (total_nonneg l (proj1 Hl)) as Ht. destruct Hl as [Hf Htot].
    destruct (Hopt (n - i)%Z ltac:(lia)) as [_ Hmax]. specialize (Hmax l (conj Hf Htot)). specialize (Hbest i ltac:(lia)).
    unfold price in *. cbn. lia.
Qed.

(** * The recursive function *)
Lemma price_get p i : (1 <= i <= Z.of_nat (length p))%Z -> aget p (i - 1) = Ok (price_of p i).
Proof. intros Hi. apply aget_Z; [lia|]. apply list_lookup_lookup_total_lt. lia. Qed.

Lemma cut_rod_run p fuel n : (0 <= n <= Z.of_nat (length p))%Z -> (n < Z.of_nat fuel)%Z ->
  cut_rod fuel p n = Ok (if (n =? 0)%Z then 0%Z else Z.max (price_of p n) 0).
Proof.
  revert n. induction fuel as [|fuel IH]; intros n Hn Hf; [lia|]. cbn [cut_rod].
  destruct (Z.eqb_spec n 0) as [|Hne]; [done|].
  match goal with |- ?f _ _ _ = _ => set (go := f) end.
  assert (Hgo : forall todo i q, (1 <= i)%Z -> (i + Z.of_nat todo = n + 1)%Z ->
    go i todo q = Ok (if decide (todo = 0) then q else Z.max (price_of p n) 0)).
  { induction todo as [|todo IHt]; intros i q Hi Hsum; [done|].
    change (go i (S todo) q) with (x ← aget p (i - 1); y ← cut_rod fuel p (n - i); go (i + 1)%Z todo (Z.max x y)).
    rewrite price_get by lia. cbn [mbind res_bind]. rewrite IH by lia. cbn [mbind res_bind].
    rewrite IHt by lia. destruct todo as [|todo].
    - cbn. assert (i = n) as -> by lia. by rewrite Z.sub_diag.
    - by rewrite !decide_False by lia. }
  rewrite Hgo by lia. by rewrite decide_False by lia.
Qed.

(** * The function with the solution *)
Section bottom_up.
Context (p : list Z) (n mx : Z) (Hn : (0 <= n <= Z.of_nat (length p))%Z).
Context (Hp : Forall (fun x => 0 <= x <= mx)%Z p) (Hmx : (n * mx <= INT_MAX)%Z).

Lemma price_range i : (1 <= i <= n)%Z -> (0 <= price_of p i <= mx)%Z.
Proof.
  intros Hi. pose proof (price_get p i ltac:(lia)) as Hg. apply aget_inv in Hg as [_ Hg].
  rewrite Forall_forall in Hp. apply Hp. by eapply list_elem_of_lookup_2.
Qed.

(** The tables when the lengths below [j] are done. *)
Record tables (j : Z) (best : Z -> Z) (r s : gmap Z Z) : Prop := {
  tb_r : forall k, (0 <= k < j)%Z -> r !! k = Some (best k);
  tb_opt : forall k, (0 <= k < j)%Z -> optimal p k (best k);
  tb_range : forall k, (0 <= k < j)%Z -> (0 <= best k <= k * mx)%Z;
  tb_s : forall k, (1 <= k < j)%Z -> exists c, s !! k = Some c /\ (1 <= c <= k)%Z /\
    best k = (price_of p c + best (k - c))%Z;
  tb_dom : forall k, is_Some (s !! k) -> (1 <= k < j)%Z
}.

Lemma price_and_rest_run j best r s i : tables j best r s -> (1 <= j <= n)%Z -> (1 <= i <= j)%Z ->
  price_and_rest p r i j = Ok ((price_of p i + best (j - i))%Z, r) /\
  (0 <= price_of p i + best (j - i) <= j * mx)%Z.
Proof.
  intros [Hr _ Hra _ _] Hj Hi. unfold price_and_rest, map_at. rewrite price_get by lia. cbn [mbind res_bind].
  rewrite Hr by lia. pose proof (Hra (j - i)%Z ltac:(lia)) as Hb. pose proof (price_range i ltac:(lia)) as Hpi.
  assert ((j - i) * mx <= (j - 1) * mx)%Z by (apply Z.mul_le_mono_nonneg_r; lia).
  assert (j * mx <= n * mx)%Z by (apply Z.mul_le_mono_nonneg_r; lia).
  rewrite ck_ok; [split; [done|lia]|]. unfold is_int, INT_MIN, INT_MAX in *. lia.
Qed.

(** The loop over the first piece from [i] on, the best so far being [c]. *)
Lemma best_cut_run j best r s : tables j best r s -> (1 <= j <= n)%Z -> forall todo i c s',
  (1 <= c < i)%Z -> (i + Z.of_nat todo = j + 1)%Z -> s' = <[j := c]> s ->
  (forall i', 1 <= i' < i -> price_of p i' + best (j - i') <= price_of p c + best (j - c))%Z ->
  exists c' : Z, best_cut_loop p j i todo (price_of p c + best (j - c))%Z r s' =
      Ok ((price_of p c' + best (j - c'))%Z, r, <[j := c']> s) /\ (1 <= c' <= j)%Z /\
    (forall i', 1 <= i' <= j -> price_of p i' + best (j - i') <= price_of p c' + best (j - c'))%Z.
Proof.
  intros Ht Hj todo. induction todo as [|todo IH]; intros i c s' Hc Hsum -> Hmax; cbn [best_cut_loop].
  { exists c. split; [done|]. split; [lia|]. intros i' Hi'. apply Hmax. lia. }
  destruct (price_and_rest_run j best r s i Ht Hj ltac:(lia)) as [Ei _]. rewrite Ei. cbn [mbind res_bind].
  destruct (Z.ltb_spec (price_of p c + best (j - c))%Z (price_of p i + best (j - i))%Z) as [Hlt|Hge].
  - rewrite Ei. cbn [mbind res_bind]. apply (IH (i + 1)%Z i); [lia|lia|by rewrite insert_insert_eq|].
    intros i' Hi'. destruct (decide (i' = i)) as [->|]; [lia|]. specialize (Hmax i' ltac:(lia)). lia.
  - apply (IH (i + 1)%Z c); [lia|lia|done|].
    intros i' Hi'. destruct (decide (i' = i)) as [->|]; [lia|]. apply Hmax. lia.
Qed.

Lemma bottom_up_cut_run todo j best r s : tables j best r s -> (1 <= j)%Z -> (j + Z.of_nat todo = n + 1)%Z ->
  exists best' r' s', bottom_up_cut_loop p j todo r s = Ok (r', s') /\ tables (n + 1) best' r' s'.
Proof.
  revert j best r s. induction todo as [|todo IH]; intros j best r s Ht Hj Hsum; cbn [bottom_up_cut_loop].
  { exists best, r, s. split; [done|]. by replace (n + 1)%Z with j by lia. }
  replace (Z.to_nat j) with (S (Z.to_nat (j - 1))) by lia. cbn [best_cut_loop].
  destruct (price_and_rest_run j best r s 1 Ht ltac:(lia) ltac:(lia)) as [E1 Hr1]. rewrite E1. cbn [mbind res_bind].
  assert (Hneg : (INT_MIN < price_of p 1 + best (j - 1))%Z) by (unfold INT_MIN; lia).
  rewrite (proj2 (Z.ltb_lt _ _) Hneg). cbn [mbind res_bind]. rewrite E1. cbn [mbind res_bind].
  destruct (best_cut_run j best r s Ht ltac:(lia) (Z.to_nat (j - 1)) 2 1 (<[j := 1%Z]> s)) as (c & E & Hc & Hmax);
    [lia|lia|done|intros i' Hi'; replace i' with 1%Z by lia; lia|].
  change (1 + 1)%Z with 2%Z. rewrite E. cbn [mbind res_bind].
  set (v := (price_of p c + best (j - c))%Z).
  destruct (price_and_rest_run j best r s c Ht ltac:(lia) Hc) as [_ Hv]. fold v in Hv.
  destruct Ht as [Hr Hopt Hra Hs Hdom].
  set (best' := fun k => if decide (k = j) then v else best k).
  assert (Hold : forall k, k <> j -> best' k = best k) by (intros k ?; unfold best'; by rewrite decide_False).
  assert (Hnew : best' j = v) by (unfold best'; by rewrite decide_True).
  apply (IH (j + 1)%Z best'); [|lia|lia]. split.
  - intros k Hk. destruct (decide (k = j)) as [->|]; [by rewrite lookup_insert_eq, Hnew|].
    rewrite lookup_insert_ne, Hold by done. apply Hr. lia.
  - intros k Hk. destruct (decide (k = j)) as [->|]; [|rewrite Hold by done; apply Hopt; lia].
    rewrite Hnew. apply optimal_step; [done|done|done].
  - intros k Hk. destruct (decide (k = j)) as [->|]; [by rewrite Hnew|]. rewrite Hold by done. apply Hra. lia.
  - intros k Hk. destruct (decide (k = j)) as [->|].
    + exists c. rewrite lookup_insert_eq, Hnew, Hold by lia. done.
    + rewrite lookup_insert_ne, Hold by done. destruct (Hs k ltac:(lia)) as (c' & ? & ? & ?).
      exists c'. rewrite Hold by lia. done.
  - intros k. destruct (decide (k = j)) as [->|]; [lia|]. rewrite lookup_insert_ne by done. intros Hk%Hdom. lia.
Qed.

Lemma tables_1 : tables 1 (fun _ => 0%Z) {[0%Z := 0%Z]} ∅.
Proof.
  split.
  - intros k Hk. by replace k with 0%Z by lia.
  - intros k Hk. replace k with 0%Z by lia. apply optimal_0.
  - intros k Hk. replace k with 0%Z by lia. lia.
  - lia.
  - intros k. rewrite lookup_empty. by intros [? ?].
Qed.

(** The iterator of a map whose keys are [1, ..., n]. *)
Lemma seqZ_sorted m k : StronglySorted Z.le (seqZ m (Z.of_nat k)).
Proof.
  revert m. induction k as [|k IH]; intros m; [constructor|].
  rewrite seqZ_cons by lia. replace (Z.pred (Z.of_nat (S k))) with (Z.of_nat k) by lia.
  constructor; [apply IH|]. apply Forall_forall. intros x Hx%elem_of_seqZ. lia.
Qed.

Lemma in_key_order_run best r s : tables (n + 1) best r s ->
  length (in_key_order s) = Z.to_nat n /\
  forall k, (1 <= k <= n)%Z -> in_key_order s !! Z.to_nat (k - 1) = s !! k.
Proof.
  intros Ht. unfold in_key_order.
  assert (Hkeys : merge_sort Z.le (map_to_list s).*1 = seqZ 1 n).
  { apply (StronglySorted_unique Z.le).
    - apply StronglySorted_merge_sort; intros x y; lia.
    - rewrite <- (Z2Nat.id n) by lia. apply seqZ_sorted.
    - rewrite merge_sort_Permutation. apply NoDup_Permutation; [apply NoDup_fst_map_to_list|apply NoDup_seqZ|].
      intros x. rewrite elem_of_seqZ. split.
      + intros ([x' c] & -> & Hx%elem_of_map_to_list)%list_elem_of_fmap. cbn.
        pose proof (tb_dom _ _ _ _ Ht x' (mk_is_Some _ _ Hx)). lia.
      + intros Hx. destruct (tb_s _ _ _ _ Ht x ltac:(lia)) as (c & Hc & _).
        apply list_elem_of_fmap. exists (x, c). split; [done|]. by apply elem_of_map_to_list. }
  rewrite Hkeys.
  assert (Homap : forall todo j, (1 <= j)%Z -> (j + Z.of_nat todo = n + 1)%Z ->
    length (omap (s !!.) (seqZ j (Z.of_nat todo))) = todo /\
    forall k, (j <= k <= n)%Z -> omap (s !!.) (seqZ j (Z.of_nat todo)) !! Z.to_nat (k - j) = s !! k).
  { induction todo as [|todo IH]; intros j Hj Hsum; [split; [done|lia]|].
    rewrite seqZ_cons by lia. replace (Z.pred (Z.of_nat (S todo))) with (Z.of_nat todo) by lia.
    replace (Z.succ j) with (j + 1)%Z by lia. destruct (IH (j + 1)%Z ltac:(lia) ltac:(lia)) as [Hl Hk].
    destruct (tb_s _ _ _ _ Ht j ltac:(lia)) as (c & Hc & _). cbn [omap list_omap]. rewrite Hc. split.
    - cbn. f_equal. exact Hl.
    - intros k Hkj. destruct (decide (k = j)) as [->|]; [by rewrite Z.sub_diag|].
      replace (Z.to_nat (k - j)) with (S (Z.to_nat (k - (j + 1)))) by lia. apply Hk. lia. }
  destruct (Homap (Z.to_nat n) 1%Z ltac:(lia) ltac:(lia)) as [Hl Hk]. rewrite Z2Nat.id in Hl, Hk by lia.
  split; [done|]. intros k Hk'. by apply Hk.
Qed.

Lemma print_cuts_run best r s fuel k : tables (n + 1) best r s -> (0 <= k <= n)%Z -> (k < Z.of_nat fuel)%Z ->
  (n < 2 ^ 64)%Z ->
  exists l, print_cuts fuel (in_key_order s) k = Ok l /\ cutting k l /\ price p l = best k.
Proof.
  intros Ht. revert k. induction fuel as [|fuel IH]; intros k Hk Hf H64; [lia|]. cbn [print_cuts].
  destruct (Z.ltb_spec 0 k) as [Hpos|Hz].
  - destruct (tb_s _ _ _ _ Ht k ltac:(lia)) as (c & Hc & Hck & Hb).
    rewrite (aget_Z _ _ c); [|lia|by rewrite (proj2 (in_key_order_run best r s Ht)) by lia]. cbn [mbind res_bind].
    unfold u64. rewrite Z.mod_small by lia.
    destruct (IH (k - c)%Z ltac:(lia) ltac:(lia) H64) as (l & -> & Hl & Hv). cbn [mbind res_bind].
    exists (c :: l). split; [done|]. split; [apply cutting_cons; split; [lia|done]|]. unfold price in *. cbn. lia.
  - assert (k = 0%Z) as -> by lia. exists []. split; [done|]. split; [done|].
    destruct (tb_opt _ _ _ _ Ht 0%Z ltac:(lia)) as [_ _]. pose proof (tb_range _ _ _ _ Ht 0%Z ltac:(lia)) as H0. cbn. lia.
Qed.
End bottom_up.

(** * Properties *)

(** The three-argument [bottom_up_cut_rod] returns the best price of a rod of length
    [n], and the lengths it writes through the iterator lead the loop of the test to a
    cutting with that price, as long as the sums of prices fit an [int]. *)
Theorem bottom_up_cut_rod_optimal p n mx fuel : (0 <= n <= Z.of_nat (length p))%Z -> (n < 2 ^ 64)%Z ->
  Forall (fun x => 0 <= x <= mx)%Z p -> (n * mx <= INT_MAX)%Z -> (n < Z.of_nat fuel)%Z ->
  exists v solutions l, bottom_up_cut_rod_sol p n = Ok (v, solutions) /\
    length solutions = Z.to_nat n /\
    print_cuts fuel solutions (Z.of_nat (length solutions)) = Ok l /\
    cutting n l /\ price p l = v /\ forall l', cutting n l' -> (price p l' <= v)%Z.
Proof.
  intros Hn H64 Hp Hmx Hf. unfold bottom_up_cut_rod_sol.
  destruct (bottom_up_cut_run p n mx Hn Hp Hmx (Z.to_nat n) 1 _ _ _ (tables_1 p mx)) as (best & r & s & E & Ht); [lia|lia|].
  rewrite E. cbn [mbind res_bind].
  destruct (in_key_order_run p n mx Hn best r s Ht) as [Hl _].
  destruct (print_cuts_run p n mx Hn best r s fuel n Ht ltac:(lia) Hf H64) as (l & El & Hcut & Hv).
  unfold map_at. rewrite (tb_r _ _ _ _ _ _ Ht) by lia.
  eexists _, _, l. split; [done|]. split; [done|]. rewrite Hl, Z2Nat.id by lia. split; [done|].
  split; [done|]. split; [done|]. apply (tb_opt _ _ _ _ _ _ Ht). lia.
Qed.

(** [cut_rod] ends but does not look at shorter pieces: it returns the price of the
    whole rod (or 0 when that is negative). *)
Theorem cut_rod_whole p fuel n : (1 <= n <= Z.of_nat (length p))%Z -> (n < Z.of_nat fuel)%Z ->
  cut_rod fuel p n = Ok (Z.max (price_of p n) 0).
Proof. intros Hn Hf. rewrite cut_rod_run by lia. by rewrite (proj2 (Z.eqb_neq _ _)) by lia. Qed.

(** The two-argument [bottom_up_cut_rod] starts from the largest [int]: for a rod of
    length 1 it returns that, for any longer one its first sum overflows. *)
Theorem bottom_up_cut_rod_overflows x p n : (0 < x <= INT_MAX)%Z -> (1 <= n)%Z ->
  bottom_up_cut_rod (x :: p) n = if (n =? 1)%Z then Ok INT_MAX else Stop Overflow.
Proof.
  intros Hx Hn. unfold bottom_up_cut_rod.
  assert (Hr1 : best_loop (x :: p) 1 1 1 INT_MAX {[0%Z := 0%Z]} = Ok (INT_MAX, {[0%Z := 0%Z]})).
  { cbn [best_loop]. unfold price_and_rest, map_at. cbn [mbind res_bind]. change (aget (x :: p) (1 - 1)) with (Ok x).
    cbn [mbind res_bind]. change (1 - 1)%Z with 0%Z. rewrite lookup_singleton_eq. rewrite ck_ok by (unfold is_int, INT_MIN, INT_MAX in *; lia).
    cbn [mbind res_bind]. by rewrite Z.max_l by lia. }
  destruct (Z.eqb_spec n 1) as [->|Hne].
  - change (Z.to_nat 1) with 1. cbn [bottom_up_loop]. change (Z.to_nat 1) with 1. rewrite Hr1. cbn [mbind res_bind].
    unfold map_at. by rewrite lookup_insert_eq.
  - replace (Z.to_nat n) with (S (S (Z.to_nat (n - 2)))) by lia. cbn [bottom_up_loop].
    change (Z.to_nat 1) with 1. rewrite Hr1. cbn [mbind res_bind].
    assert (Hov : price_and_rest (x :: p) (<[1%Z := INT_MAX]> {[0%Z := 0%Z]}) 1 (1 + 1) = Stop Overflow).
    { unfold price_and_rest, map_at. change (aget (x :: p) (1 - 1)) with (Ok x). cbn [mbind res_bind].
      change (1 + 1 - 1)%Z with 1%Z. rewrite lookup_insert_eq. unfold ck. rewrite decide_False; [done|].
      unfold is_int, INT_MIN, INT_MAX in *. lia. }
    change (Z.to_nat (1 + 1)) with 2. cbn [best_loop]. by rewrite Hov.
Qed.

Lemma bottom_up_cut_rod_optimal_witness :
  exists v solutions l, bottom_up_cut_rod_sol prices 9 = Ok (v, solutions) /\
    length solutions = Z.to_nat 9 /\
    print_cuts 11 solutions (Z.of_nat (length solutions)) = Ok l /\
    cutting 9 l /\ price prices l = v /\ forall l', cutting 9 l' -> (price prices l' <= v)%Z.
Proof.
  apply (bottom_up_cut_rod_optimal prices 9 30 11); [cbn; lia|lia|apply (bool_decide_unpack _); vm_compute; exact I|
    unfold INT_MAX; lia|lia].
Defined.

Lemma cut_rod_whole_witness : cut_rod 11 prices 4 = Ok 9%Z.
Proof. apply (cut_rod_whole prices 11 4); cbn; lia. Defined.

Lemma bottom_up_cut_rod_overflows_witness : bottom_up_cut_rod prices 10 = Stop Overflow.
Proof. apply (bottom_up_cut_rod_overflows 1 [5; 8; 9; 10; 17; 17; 20; 24; 30]%Z 10); unfold INT_MAX; lia. Defined.

Example cut_rod_not_optimal : bottom_up_cut_rod_sol prices 4 = Ok (10%Z, [1; 2; 3; 2]%Z).
Proof. vm_compute. reflexivity. Qed.

Example test_cut_rod_main_run : test_cut_rod_main = Stop Overflow.
Proof. vm_compute. reflexivity. Qed.
