(* ===== verification/SortSpec.v ===== *)
(** What the sorting routines of the repository promise: a list sorted by a key and, for
    the ones that merge with care ([strict]), elements of equal keys in their old order.
    [merge_by] is the reference merge that the loops over arrays (Sort.v) and linked lists
    (LinkSort.v) are compared with; [runs] says how far a bottom-up sort has come. *)
From S2P Require Import Prelude.

Section keyed.
Context {A : Type} (key : A -> Z) (strict : bool).

Definition le_key (x y : A) : Prop := (key x <= key y)%Z.

(** [k] is [l] sorted by key, stably. *)
Record sorts (l k : list A) : Prop := {
  sorts_perm : l ≡ₚ k;
  sorts_sorted : StronglySorted le_key k;
  sorts_stable : strict = true -> forall c, filter (fun x => key x = c) k = filter (fun x => key x = c) l;
}.

(** Whether the head [y] of the right list goes before the head [x] of the left one: when it is
    smaller or, in a merge that is not [strict], also when they are equal. *)
Definition goes_right (x y : A) : bool := if strict then (key y <? key x)%Z else (key y <=? key x)%Z.

Lemma goes_right_le x y : goes_right x y = true -> (key y <= key x)%Z.
Proof. unfold goes_right. destruct strict; [rewrite Z.ltb_lt | rewrite Z.leb_le]; lia. Qed.

Lemma goes_left_le x y : goes_right x y = false -> (key x <= key y)%Z.
Proof. unfold goes_right. destruct strict; [rewrite Z.ltb_ge | rewrite Z.leb_gt]; lia. Qed.

(** The merge of two lists. *)
Fixpoint merge_by (l : list A) : list A -> list A :=
  match l with
  | [] => fun k => k
  | x :: l' =>
      fix go (k : list A) : list A :=
        match k with
        | [] => l
        | y :: k' => if goes_right x y then y :: go k' else x :: merge_by l' k
        end
  end.

Lemma merge_by_nil_r l : merge_by l [] = l.
Proof. by destruct l. Qed.

Lemma merge_by_cons x l y k :
  merge_by (x :: l) (y :: k) =
  if goes_right x y then y :: merge_by (x :: l) k else x :: merge_by l (y :: k).
Proof. done. Qed.

Lemma merge_by_length l : forall k, length (merge_by l k) = length l + length k.
Proof.
  induction l as [|x l IHl]; [done|]. induction k as [|y k IHk]; [cbn; lia|].
  rewrite merge_by_cons. destruct (goes_right x y); cbn [length]; [rewrite IHk | rewrite IHl]; cbn; lia.
Qed.

Lemma merge_by_perm l : forall k, l ++ k ≡ₚ merge_by l k.
Proof.
  induction l as [|x l IHl]; [done|]. induction k as [|y k IHk]; [by rewrite app_nil_r|].
  rewrite merge_by_cons. destruct (goes_right x y).
  - rewrite <- IHk. symmetry. apply Permutation_middle.
  - cbn. by rewrite <- IHl.
Qed.

Lemma merge_by_sorted l : forall k,
  StronglySorted le_key l -> StronglySorted le_key k -> StronglySorted le_key (merge_by l k).
Proof.
  induction l as [|x l IHl]; [done|]. induction k as [|y k IHk]; [done|]. intros Hl Hk.
  rewrite merge_by_cons. pose proof Hl as Hl'. pose proof Hk as Hk'.
  apply StronglySorted_cons in Hl as [Hx Hl]. apply StronglySorted_cons in Hk as [Hy Hk].
  destruct (goes_right x y) eqn:E; [apply goes_right_le in E | apply goes_left_le in E]; constructor; auto.
  - rewrite <- merge_by_perm. rewrite Forall_forall in Hx. apply Forall_app; split; [|done].
    apply Forall_cons; split; [unfold le_key; lia|]. apply Forall_forall. intros z Hz.
    specialize (Hx z Hz). unfold le_key in *. lia.
  - rewrite <- merge_by_perm. apply Forall_app; split; [done|]. apply Forall_cons; split; [unfold le_key; lia|].
    eapply Forall_impl; [exact Hy|]. unfold le_key. cbn. lia.
Qed.

Lemma filter_key_none (c : Z) l : Forall (fun x => (c < key x)%Z) l -> filter (fun x => key x = c) l = [].
Proof. intros Hl. apply filter_none. eapply Forall_impl; [exact Hl|]. cbn. lia. Qed.

Lemma merge_by_stable c l : strict = true -> forall k,
  StronglySorted le_key l -> StronglySorted le_key k ->
  filter (fun x => key x = c) (merge_by l k) =
  filter (fun x => key x = c) l ++ filter (fun x => key x = c) k.
Proof.
  intros Hst. induction l as [|x l IHl]; [done|]. induction k as [|y k IHk]; intros Hl Hk.
  { rewrite merge_by_nil_r. by rewrite app_nil_r. }
  rewrite merge_by_cons. unfold goes_right. rewrite Hst. pose proof Hl as Hl'. pose proof Hk as Hk'.
  apply StronglySorted_cons in Hl as [Hx Hl]. apply StronglySorted_cons in Hk as [Hy Hk].
  destruct (Z.ltb_spec (key y) (key x)) as [Hlt|Hge].
  - destruct (decide (key y = c)) as [<-|Hne].
    + rewrite !(filter_cons_True _ y) by done. rewrite IHk by done.
      rewrite (filter_key_none (key y) (x :: l)); [done|]. apply Forall_cons; split; [lia|].
      eapply Forall_impl; [exact Hx|]. unfold le_key. cbn. lia.
    + rewrite !(filter_cons_False _ y) by done. by apply IHk.
  - destruct (decide (key x = c)) as [<-|Hne].
    + rewrite !(filter_cons_True _ x) by done. by rewrite IHl by done.
    + rewrite !(filter_cons_False _ x) by done. by apply IHl.
Qed.

(** Merging sorted halves sorts the whole. *)
Lemma merge_by_sorts l l' k k' : sorts l l' -> sorts k k' -> sorts (l ++ k) (merge_by l' k').
Proof.
  intros [Pl Sl Fl] [Pk Sk Fk]. split.
  - by rewrite <- merge_by_perm, Pl, Pk.
  - by apply merge_by_sorted.
  - intros Hst c. by rewrite merge_by_stable, filter_app, Fl, Fk.
Qed.

Lemma sorts_short l : length l <= 1 -> sorts l l.
Proof.
  intros Hl. split; [done| |done]. destruct l as [|x [|y l]]; cbn in Hl; [constructor| |lia].
  repeat constructor.
Qed.

Lemma sorts_length l k : sorts l k -> length k = length l.
Proof. intros [P _ _]. by rewrite P. Qed.

(** A stable sort is unique. *)
Lemma sorts_unique l k1 k2 : strict = true -> sorts l k1 -> sorts l k2 -> k1 = k2.
Proof.
  intros Hst [P1 S1 F1] [P2 S2 F2]. specialize (F1 Hst). specialize (F2 Hst).
  assert (F : forall c, filter (fun x => key x = c) k1 = filter (fun x => key x = c) k2)
    by (intros c; by rewrite F1, F2).
  assert (P : k1 ≡ₚ k2) by (by rewrite <- P1, <- P2).
  clear P1 P2 F1 F2 l. revert k2 S2 F P. induction k1 as [|x k1 IH]; intros k2 S2 F P.
  { symmetry. by apply Permutation_nil. }
  destruct k2 as [|y k2]; [symmetry in P; by apply Permutation_nil_cons in P|].
  apply StronglySorted_cons in S1 as [H1 S1]. apply StronglySorted_cons in S2 as [H2 S2].
  assert (Hk : key x = key y).
  { rewrite Forall_forall in H1, H2.
    assert (Hx : x ∈ y :: k2) by (rewrite <- P; by left).
    assert (Hy : y ∈ x :: k1) by (rewrite P; by left).
    apply elem_of_cons in Hx as [->|Hx]; [done|]. apply elem_of_cons in Hy as [->|Hy]; [done|].
    specialize (H1 y Hy). specialize (H2 x Hx). unfold le_key in *. lia. }
  assert (E : x = y).
  { specialize (F (key x)). rewrite !filter_cons_True in F by done. by injection F. }
  subst y. f_equal. apply IH; [done|done| |by apply Permutation_cons_inv in P].
  intros c. specialize (F c). destruct (decide (key x = c)).
  - rewrite !filter_cons_True in F by done. by injection F.
  - by rewrite !filter_cons_False in F by done.
Qed.

(** The list [k] is [l] with each run of [n] elements (the last may be shorter) sorted. *)
Inductive runs (n : nat) : list A -> list A -> Prop :=
| runs_nil : runs n [] []
| runs_last l k : l <> [] -> length l <= n -> sorts l k -> runs n l k
| runs_cons l k l' k' : length l = n -> l' <> [] -> sorts l k -> runs n l' k' -> runs n (l ++ l') (k ++ k').

Lemma runs_length n l k : runs n l k -> length k = length l.
Proof.
  induction 1 as [|l k _ _ S|l k l' k' _ _ S _ IH]; [done|by apply sorts_length in S|].
  apply sorts_length in S. rewrite !length_app. lia.
Qed.

Lemma runs_perm n l k : runs n l k -> l ≡ₚ k.
Proof. induction 1 as [|l k _ _ [? _ _]|l k l' k' _ _ [? _ _] _ IH]; [done|done|]. by apply Permutation_app. Qed.

Lemma runs_one l : runs 1 l l.
Proof.
  induction l as [|x l IH]; [constructor|]. destruct l as [|y l].
  - apply runs_last; [done|cbn; lia|by apply sorts_short; cbn; lia].
  - apply (runs_cons 1 [x] [x] (y :: l) (y :: l)); [done|done|by apply sorts_short; cbn; lia|done].
Qed.

Lemma runs_sorts n l k : runs n l k -> length l <= n -> sorts l k.
Proof.
  intros [|l0 k0 _ _ S|l0 k0 l' k' Hl Hne S _] Hn; [by apply sorts_short; cbn; lia|done|].
  rewrite length_app in Hn. destruct l'; [done|cbn in Hn; lia].
Qed.

(** One merge of a pass: the next two runs become one run of twice the size. *)
Lemma runs_split n l k : 0 < n -> runs n l k -> k <> [] ->
  exists l1 l2, l = l1 ++ l2 /\ l1 <> [] /\ length l1 <= 2 * n /\ (l2 <> [] -> length l1 = 2 * n) /\
    sorts l1 (merge_by (take n k) (take n (drop n k))) /\ runs n l2 (drop n (drop n k)).
Proof.
  intros Hn [|l1 k1 Hne Hl S1|l1 k1 l' k' Hl Hne S1 Hr] Hk; [done|..].
  - pose proof (sorts_length _ _ S1) as L1. exists l1, []. rewrite app_nil_r.
    rewrite (take_ge k1), (drop_ge k1), take_nil, drop_nil, merge_by_nil_r by lia.
    split_and!; try done; [lia|constructor].
  - pose proof (sorts_length _ _ S1) as L1. rewrite take_app_length', drop_app_length' by lia.
    assert (l1 <> []) by (intros ->; cbn in Hl; lia).
    inversion Hr as [E|l2 k2 Hne2 Hl2 S2|l2 k2 l3 k3 Hl2 Hne2 S2 Hr2]; subst l' k'; [done|..].
    + pose proof (sorts_length _ _ S2) as L2. exists (l1 ++ l2), []. rewrite app_nil_r.
      rewrite (take_ge k2), (drop_ge k2) by lia. rewrite length_app.
      split_and!; try done; [by intros [? _]%app_nil|lia|by apply merge_by_sorts|constructor].
    + pose proof (sorts_length _ _ S2) as L2. exists (l1 ++ l2), l3. rewrite (assoc_L app), length_app.
      rewrite take_app_length', drop_app_length' by lia.
      split_and!; try done; [by intros [? _]%app_nil|lia|lia|by apply merge_by_sorts].
Qed.

Lemma runs_join n l1 k1 l2 k2 :
  l1 <> [] -> length l1 <= n -> (l2 <> [] -> length l1 = n) -> sorts l1 k1 -> runs n l2 k2 ->
  runs n (l1 ++ l2) (k1 ++ k2).
Proof.
  intros Hne Hl Heq S1 Hr. destruct l2 as [|x l2].
  - pose proof (runs_length _ _ _ Hr) as L. destruct k2; [|discriminate]. rewrite !app_nil_r. by apply runs_last.
  - by apply runs_cons; [apply Heq| | |].
Qed.
End keyed.
