(* ===== verification/Sort.v ===== *)
(** The merge sort of src/algs/algorithms4th/sort.c.  The memory behind the pointer [arr]
    is a list of ints and an offset into it; the callbacks of [algs_sort_opt] are functions
    on such a memory.  [malloc_ok] says which requests the C library serves. *)
From S2P Require Import Prelude SortSpec.

(** * The code *)

Record algs_sort_opt : Type := Opt {
  compare : option (list Z -> Z -> Z -> res bool);
  swap : option (list Z -> Z -> Z -> res (list Z));
  size : option (unit -> Z);
}.

(** [sizeof(algs_sort_t)]. *)
Definition sort_t_size : Z := 4.

(** [memcpy(aux, arr, bytes)] into a block of [bytes] bytes: the ints that [aux] then holds. *)
Definition memcpy_aux (buf : list Z) (base bytes : Z) : res (list Z) :=
  let cnt := (bytes / sort_t_size)%Z in
  if (base + cnt <=? Z.of_nat (length buf))%Z
  then Ok (take (Z.to_nat cnt) (drop (Z.to_nat base) buf)) else Stop OutOfBounds.

Section malloc.
Context (malloc_ok : Z -> bool).

(** The loop over [k], [todo] rounds left. *)
Fixpoint merge_loop (cmp : list Z -> Z -> Z -> res bool) (aux : list Z) (base m n : Z)
    (todo : nat) (i j k : Z) (buf : list Z) : res (list Z) :=
  match todo with
  | O => Ok buf
  | S todo =>
      right ← (if (m <=? i)%Z then Ok true
               else if (n <=? j)%Z then Ok false
               else cmp aux i j);
      if (right : bool)
      then x ← aget aux j; buf ← aset buf (base + k) x;
           merge_loop cmp aux base m n todo i (j + 1) (k + 1) buf
      else x ← aget aux i; buf ← aset buf (base + k) x;
           merge_loop cmp aux base m n todo (i + 1) j (k + 1) buf
  end.

Definition algs_msort_merge (opt : algs_sort_opt) (base m n : Z) (buf : list Z) : res (Z * list Z) :=
  match compare opt, size opt with
  | Some cmp, Some sz =>
      bytes ← ck (n * sz tt);
      if malloc_ok (u64 bytes) then
        aux ← memcpy_aux buf base (u64 bytes);
        buf ← merge_loop cmp aux base m n (Z.to_nat n) 0 m 0 buf;
        Ok (0%Z, buf)
      else Stop NullDeref
  | _, _ => Stop AssertFailed
  end.

Fixpoint algs_msort_r (fuel : nat) (opt : algs_sort_opt) (base n : Z) (buf : list Z) : res (Z * list Z) :=
  match fuel with
  | O => Stop OutOfFuel
  | S fuel =>
      c_assert (0 <=? n)%Z;;
      if (n <=? 1)%Z then Ok (0%Z, buf)
      else
        let m := (n ÷ 2)%Z in
        '(_, buf) ← algs_msort_r fuel opt base m buf;
        '(_, buf) ← algs_msort_r fuel opt (base + m) (n - m) buf;
        '(_, buf) ← algs_msort_merge opt base m n buf;
        Ok (0%Z, buf)
  end.

(** The loop over [i] of [algs_msort_desc]. *)
Fixpoint desc_loop (sw : list Z -> Z -> Z -> res (list Z)) (n : Z) (todo : nat) (i : Z) (buf : list Z) : res (list Z) :=
  match todo with
  | O => Ok buf
  | S todo => buf ← sw buf i (n - 1 - i)%Z; desc_loop sw n todo (i + 1) buf
  end.
Definition algs_msort_desc (opt : algs_sort_opt) (n : Z) (buf : list Z) : res (Z * list Z) :=
  match swap opt with
  | Some sw => buf ← desc_loop sw n (Z.to_nat (n ÷ 2)) 0 buf; Ok (0%Z, buf)
  | None => Stop AssertFailed
  end.

(** The recursion is at most [n] calls deep. *)
Definition algs_msort (opt : algs_sort_opt) (n desc : Z) (arr : option (list Z)) : res (Z * option (list Z)) :=
  match arr, compare opt, swap opt with
  | Some buf, Some _, Some _ =>
      if negb (0 <=? n)%Z then Ok (-1, arr)%Z
      else if (n <=? 1)%Z then Ok (0%Z, arr)
      else
        '(rc, buf) ← algs_msort_r (Z.to_nat n) opt 0 n buf;
        if negb (rc =? 0)%Z then Ok (-1, Some buf)%Z
        else if (desc =? 0)%Z then Ok (0%Z, Some buf)
        else '(_, buf) ← algs_msort_desc opt n buf; Ok (0%Z, Some buf)
  | _, _, _ => Ok (-1, arr)%Z
  end.
End malloc.

(** The callbacks and the runs of the test. *)
Definition int_cmp (iarr : list Z) (m n : Z) : res bool :=
  x ← aget iarr m; y ← aget iarr n; Ok (y <? x)%Z.
Definition int_swap (iarr : list Z) (m n : Z) : res (list Z) :=
  ex ← aget iarr m;
  y ← aget iarr n;
  iarr ← aset iarr m y;
  aset iarr n ex.
Definition int_size (_ : unit) : Z := 4.

Definition int_opt : algs_sort_opt := Opt (Some int_cmp) (Some int_swap) (Some int_size).

(** A block of the test: the array, [desc], and the elements the asserts look at. *)
Definition sort_block (malloc_ok : Z -> bool) (vec : list Z) (desc : Z) (want : list (Z * Z)) : res unit :=
  '(rc, arr) ← algs_msort malloc_ok int_opt (Z.of_nat (length vec)) desc (Some vec);
  c_assert (rc =? 0)%Z;;
  match arr with
  | None => Stop NullDeref
  | Some vec =>
      foldr (fun '(i, x) (k : res unit) => y ← aget vec i; c_assert (y =? x)%Z;; k) (Ok tt) want
  end.

Definition upto9 (f : Z -> Z) : list (Z * Z) := (fun i => (Z.of_nat i, f (Z.of_nat i))) <$> seq 0 9.

Definition test_algs4th_sort_main (malloc_ok : Z -> bool) : res Z :=
  (sort_block malloc_ok [1] 0 [];;
  sort_block malloc_ok [1; 2] 0 [(1, 2); (0, 1)];;
  sort_block malloc_ok [2; 1] 0 [(1, 2); (0, 1)];;
  sort_block malloc_ok [1; 2; 3] 0 [(0, 1); (1, 2); (2, 3)];;
  sort_block malloc_ok [2; 3; 1] 0 [(0, 1); (1, 2); (2, 3)];;
  sort_block malloc_ok [3; 4; 2; 1] 0 [(0, 1); (1, 2); (2, 3); (3, 4)];;
  sort_block malloc_ok [4; 3; 2; 1] 0 [(0, 1); (1, 2); (2, 3); (3, 4)];;
  sort_block malloc_ok [0; 1; 2; 3; 4; 5; 6; 7; 8; 9] 0 (upto9 (fun i => i));;
  sort_block malloc_ok [9; 8; 7; 6; 5; 4; 3; 2; 1; 0] 0 (upto9 (fun i => i));;
  sort_block malloc_ok [2; 0; 4; 6; 5; 9; 8; 1; 7; 3] 0 (upto9 (fun i => i));;
  sort_block malloc_ok [1; 2] 1 [(0, 2); (1, 1)];;
  sort_block malloc_ok [2; 1] 1 [(0, 2); (1, 1)];;
  sort_block malloc_ok [1; 2; 3] 1 [(0, 3); (1, 2); (2, 1)];;
  sort_block malloc_ok [2; 3; 1] 1 [(0, 3); (1, 2); (2, 1)];;
  sort_block malloc_ok [3; 4; 2; 1] 1 [(0, 4); (1, 3); (2, 2); (3, 1)];;
  sort_block malloc_ok [0; 1; 2; 3; 4; 5; 6; 7; 8; 9] 1 (upto9 (fun i => 9 - i));;
  sort_block malloc_ok [9; 8; 7; 6; 5; 4; 3; 2; 1; 0] 1 (upto9 (fun i => 9 - i));;
  sort_block malloc_ok [2; 0; 4; 6; 5; 9; 8; 1; 7; 3] 1 (upto9 (fun i => 9 - i));;
  Ok 0)%Z.


(** * What the functions do *)

Lemma aget_mid {A} (l : list A) x r (i : Z) :
  i = Z.of_nat (length l) -> aget (l ++ x :: r) i = Ok x.
Proof. intros ->. apply aget_nat. by apply list_lookup_middle. Qed.

Lemma aset_mid {A} (l : list A) x y r (i : Z) :
  i = Z.of_nat (length l) -> aset (l ++ x :: r) i y = Ok ((l ++ [y]) ++ r).
Proof.
  intros ->. rewrite aset_nat by (rewrite length_app; cbn; lia).
  rewrite insert_app_r_alt, Nat.sub_diag by lia. by rewrite <- (assoc_L app).
Qed.

Section correct.
Context (key : Z -> Z) (malloc_ok : Z -> bool).

(** The callback compares two elements of any array by their keys. *)
Definition compares (cmp : list Z -> Z -> Z -> res bool) : Prop :=
  forall a i j x y, aget a i = Ok x -> aget a j = Ok y -> cmp a i j = Ok (key y <? key x)%Z.

(** The callback exchanges two elements. *)
Definition swaps (sw : list Z -> Z -> Z -> res (list Z)) : Prop :=
  forall l x k y r, sw (l ++ x :: k ++ y :: r) (Z.of_nat (length l)) (Z.of_nat (length l + S (length k)))
                    = Ok (l ++ y :: k ++ x :: r).

(** The array [a] holds [l] from index [i] on. *)
Definition holds (a : list Z) (i : Z) (l : list Z) : Prop :=
  forall d x, l !! d = Some x -> aget a (i + Z.of_nat d) = Ok x.

Lemma holds_cons a i x l : holds a i (x :: l) -> aget a i = Ok x /\ holds a (i + 1) l.
Proof.
  intros H. split; [specialize (H 0 x eq_refl); by rewrite Z.add_0_r in H|].
  intros d y Hd. specialize (H (S d) y Hd). replace (i + 1 + Z.of_nat d)%Z with (i + Z.of_nat (S d))%Z by lia. done.
Qed.

Lemma holds_app a l r : holds (a ++ l ++ r) (Z.of_nat (length a)) l.
Proof.
  intros d x Hd. rewrite <- Nat2Z.inj_add. apply aget_nat.
  rewrite lookup_app_r by lia. rewrite Nat.add_comm, Nat.add_sub. by apply lookup_app_l_Some.
Qed.

Lemma merge_loop_ok cmp aux (base m n : Z) todo : compares cmp ->
  forall l r (pre old post : list Z) i j k,
    holds aux i l -> holds aux j r -> m = (i + Z.of_nat (length l))%Z -> n = (j + Z.of_nat (length r))%Z ->
    (base + k)%Z = Z.of_nat (length pre) -> todo = length l + length r -> length old = todo ->
    merge_loop cmp aux base m n todo i j k (pre ++ old ++ post) = Ok (pre ++ merge_by key true l r ++ post).
Proof.
  intros Hc. induction todo as [|todo IH]; intros l r pre old post i j k Hl Hr Hm Hn Hk Ht Ho.
  { destruct l; [|cbn in Ht; lia]. destruct r; [|cbn in Ht; lia]. by destruct old. }
  destruct old as [|o old]; [discriminate|]. cbn [length] in Ho.
  assert (Hset : forall x, aset (pre ++ (o :: old) ++ post) (base + k) x = Ok ((pre ++ [x]) ++ old ++ post))
    by (intros x; by apply aset_mid).
  assert (Hpre : forall x : Z, (base + (k + 1))%Z = Z.of_nat (length (pre ++ [x])))
    by (intros x; rewrite length_app; cbn; lia).
  assert (Hright : forall x r', r = x :: r' ->
    (x' ← aget aux j; buf ← aset (pre ++ (o :: old) ++ post) (base + k) x';
     merge_loop cmp aux base m n todo i (j + 1) (k + 1) buf) = Ok (pre ++ x :: merge_by key true l r' ++ post)).
  { intros x r' ->. apply holds_cons in Hr as [Hx Hr]. rewrite Hx. cbn [mbind res_bind]. rewrite Hset. cbn [mbind res_bind].
    cbn [length] in *. rewrite (IH l r' (pre ++ [x]) old post) by (done || lia). by rewrite <- (assoc_L app). }
  assert (Hleft : forall x l', l = x :: l' ->
    (x' ← aget aux i; buf ← aset (pre ++ (o :: old) ++ post) (base + k) x';
     merge_loop cmp aux base m n todo (i + 1) j (k + 1) buf) = Ok (pre ++ x :: merge_by key true l' r ++ post)).
  { intros x l' ->. apply holds_cons in Hl as [Hx Hl]. rewrite Hx. cbn [mbind res_bind]. rewrite Hset. cbn [mbind res_bind].
    cbn [length] in *. rewrite (IH l' r (pre ++ [x]) old post) by (done || lia). by rewrite <- (assoc_L app). }
  cbn [merge_loop]. destruct l as [|x l]; [|destruct r as [|y r]]; cbn [length] in *.
  - rewrite (proj2 (Z.leb_le m i)) by lia. destruct r as [|y r]; [cbn in Ht; lia|].
    cbn [mbind res_bind]. by rewrite (Hright y r).
  - rewrite (proj2 (Z.leb_gt m i)), (proj2 (Z.leb_le n j)) by lia.
    cbn [mbind res_bind]. rewrite (Hleft x l), merge_by_nil_r by done. done.
  - rewrite (proj2 (Z.leb_gt m i)), (proj2 (Z.leb_gt n j)) by lia. cbn [mbind res_bind].
    destruct (holds_cons _ _ _ _ Hl) as [Hx _]. destruct (holds_cons _ _ _ _ Hr) as [Hy _].
    rewrite (Hc _ _ _ _ _ Hx Hy), merge_by_cons. unfold goes_right. cbn [mbind res_bind].
    destruct (key y <? key x)%Z; [by rewrite (Hright y r) | by rewrite (Hleft x l)].
Qed.

Context (opt : algs_sort_opt) (cmp : list Z -> Z -> Z -> res bool) (sw : list Z -> Z -> Z -> res (list Z)).
Context (Hcompare : compare opt = Some cmp) (Hswap : swap opt = Some sw) (Hsize : exists sz, size opt = Some sz /\ sz tt = 4%Z).
Context (Hcmp : compares cmp) (Hsw : swaps sw).

(** The allocation requests of a sort of [n] ints fit [int] and are served. *)
Definition served (n : Z) : Prop :=
  (n * 4 <= INT_MAX)%Z /\ forall b, (0 <= b <= n * 4)%Z -> malloc_ok b = true.

Lemma merge_ok pre l r post (base m n : Z) :
  base = Z.of_nat (length pre) -> m = Z.of_nat (length l) -> n = Z.of_nat (length l + length r) -> served n ->
  algs_msort_merge malloc_ok opt base m n (pre ++ (l ++ r) ++ post) = Ok (0%Z, pre ++ merge_by key true l r ++ post).
Proof.
  intros Hb Hm Hn [Hmax Hok]. destruct Hsize as (sz & Es & Esz). unfold algs_msort_merge.
  rewrite Hcompare, Es, Esz. unfold INT_MAX in Hmax.
  rewrite ck_ok by (unfold is_int, INT_MIN, INT_MAX; lia). cbn [mbind res_bind].
  assert (Hu : u64 (n * 4) = (n * 4)%Z) by (unfold u64; apply Z.mod_small; lia).
  rewrite Hu, Hok by lia. unfold memcpy_aux, sort_t_size. rewrite Z.div_mul by done.
  rewrite (proj2 (Z.leb_le _ _)) by (rewrite !length_app; lia). cbn [mbind res_bind].
  replace (Z.to_nat base) with (length pre) by lia. rewrite drop_app_length.
  replace (Z.to_nat n) with (length (l ++ r)) by (rewrite length_app; lia). rewrite take_app_length.
  rewrite (merge_loop_ok cmp (l ++ r) base m n _ Hcmp l r pre (l ++ r) post).
  - done.
  - apply (holds_app []).
  - rewrite Hm. intros d x Hd. rewrite <- (app_nil_r (l ++ r)), <- (assoc_L app). by apply holds_app.
  - lia.
  - rewrite Hm, Hn. lia.
  - lia.
  - by rewrite length_app.
  - done.
Qed.

Lemma msort_r_ok fuel : forall pre l post (base n : Z),
  base = Z.of_nat (length pre) -> n = Z.of_nat (length l) -> length l <= fuel -> 0 < fuel -> served n ->
  exists l', algs_msort_r malloc_ok fuel opt base n (pre ++ l ++ post) = Ok (0%Z, pre ++ l' ++ post) /\
             sorts key true l l'.
Proof.
  induction fuel as [|fuel IH]; intros pre l post base n Hb Hn Hf Hpos Hs; [lia|].
  cbn [algs_msort_r]. rewrite (proj2 (Z.leb_le 0 n)) by lia. cbn [c_assert mbind res_bind].
  destruct (Z.leb_spec n 1) as [Hle|Hgt].
  { exists l. split; [done|]. apply sorts_short. lia. }
  set (h := length l / 2).
  assert (Hh : (n ÷ 2)%Z = Z.of_nat h) by (subst n h; rewrite Nat2Z.inj_div; apply Z.quot_div_nonneg; lia).
  assert (Hh2 : 1 <= h < length l).
  { split; [apply Nat.div_le_lower_bound; lia | apply Nat.div_lt; lia]. }
  rewrite Hh. rewrite <- (take_drop h l). set (l1 := take h l). set (l2 := drop h l).
  assert (H1 : length l1 = h) by (subst l1; rewrite length_take; lia).
  assert (H2 : length l2 = length l - h) by (subst l2; by rewrite length_drop).
  assert (Hserved : forall k, (0 <= k <= n)%Z -> served k).
  { destruct Hs as [Ha Hb']. intros k Hk. split; [lia|]. intros b Hb2. apply Hb'. lia. }
  destruct (IH pre l1 (l2 ++ post) base (Z.of_nat h)) as (k1 & E1 & S1); [done|lia|lia|lia|apply Hserved; lia|].
  rewrite <- (assoc_L app l1), E1. cbn [mbind res_bind].
  pose proof (sorts_length _ _ _ _ S1) as L1.
  destruct (IH (pre ++ k1) l2 post (base + Z.of_nat h)%Z (n - Z.of_nat h)%Z) as (k2 & E2 & S2);
    [rewrite length_app; lia|lia|lia|lia|apply Hserved; lia|].
  rewrite (assoc_L app pre), E2. cbn [mbind res_bind]. pose proof (sorts_length _ _ _ _ S2) as L2.
  rewrite <- (assoc_L app pre), (assoc_L app k1).
  rewrite (merge_ok pre k1 k2 post base) by (done || lia). cbn [mbind res_bind].
  exists (merge_by key true k1 k2). split; [done|]. by apply merge_by_sorts.
Qed.

(** [desc_loop] exchanges the outermost elements first. *)
Lemma desc_loop_ok todo : forall pre l post (n i : Z),
  i = Z.of_nat (length pre) -> n = Z.of_nat (length pre + length l + length pre) -> todo = length l / 2 ->
  desc_loop sw n todo i (pre ++ l ++ post) = Ok (pre ++ reverse l ++ post).
Proof.
  induction todo as [|todo IH]; intros pre l post n i Hi Hn Ht.
  { destruct l as [|x [|y l]]; [done|done|]. cbn [length] in Ht.
    assert (0 < S (S (length l)) / 2) by (apply Nat.div_str_pos; lia). lia. }
  destruct l as [|x l]; [discriminate|]. destruct l as [|y l _] using rev_ind; [discriminate|].
  cbn [length] in Hn, Ht. rewrite length_app in Hn, Ht. cbn [length] in Hn, Ht.
  assert (Ht' : todo = length l / 2).
  { replace (S (length l + 1)) with (length l + 1 * 2) in Ht by lia. rewrite Nat.div_add in Ht by lia. lia. }
  cbn [desc_loop]. specialize (Hsw pre x l y post).
  replace (Z.of_nat (length pre + S (length l))) with (n - 1 - i)%Z in Hsw by lia.
  rewrite <- Hi in Hsw. replace (pre ++ (x :: l ++ [y]) ++ post) with (pre ++ x :: l ++ y :: post)
    by (cbn; by rewrite <- !(assoc_L app)).
  rewrite Hsw. cbn [mbind res_bind].
  specialize (IH (pre ++ [y]) l (x :: post) n (i + 1)%Z). rewrite length_app in IH. cbn [length] in IH.
  rewrite <- !(assoc_L app) in IH. cbn [app] in IH. rewrite IH by lia.
  rewrite reverse_cons, reverse_app. cbn. by rewrite <- !(assoc_L app).
Qed.
End correct.

(** The callbacks of [opt] compare by [key], exchange, and give the size of an int. *)
Definition callbacks_ok (key : Z -> Z) (opt : algs_sort_opt) : Prop :=
  exists cmp sw sz, compare opt = Some cmp /\ swap opt = Some sw /\ size opt = Some sz /\
    compares key cmp /\ swaps sw /\ sz tt = 4%Z.

Lemma int_swap_swaps : swaps int_swap.
Proof.
  intros l x k y r. unfold int_swap.
  assert (E1 : aget (l ++ x :: k ++ y :: r) (Z.of_nat (length l)) = Ok x) by by apply aget_mid.
  assert (E2 : aget (l ++ x :: k ++ y :: r) (Z.of_nat (length l + S (length k))) = Ok y).
  { rewrite app_comm_cons, (assoc_L app). apply aget_mid. by rewrite length_app. }
  rewrite E1. cbn [mbind res_bind]. rewrite E2. cbn [mbind res_bind].
  rewrite aset_mid by done. cbn [mbind res_bind].
  rewrite <- (assoc_L app l), app_comm_cons. cbn [app]. rewrite app_comm_cons, (assoc_L app).
  rewrite aset_mid by (rewrite length_app; done). by rewrite <- !(assoc_L app).
Qed.

Lemma int_cmp_compares : compares (fun x => x) int_cmp.
Proof. intros a i j x y Hx Hy. unfold int_cmp. by rewrite Hx, bind_ok, Hy. Qed.

Lemma int_opt_ok : callbacks_ok (fun x => x) int_opt.
Proof.
  exists int_cmp, int_swap, int_size. split_and!; try reflexivity; [apply int_cmp_compares | apply int_swap_swaps].
Qed.

(** The comparison of the last decimal digits: elements that differ may compare equal. *)
Definition digit_opt : algs_sort_opt :=
  Opt (Some (fun a i j => x ← aget a i; y ← aget a j; Ok (y mod 10 <? x mod 10)%Z)) (Some int_swap) (Some int_size).

Lemma digit_opt_ok : callbacks_ok (fun x => x mod 10)%Z digit_opt.
Proof.
  eexists _, _, _. split_and!; try reflexivity; [|apply int_swap_swaps].
  intros a i j x y Hx Hy. by rewrite Hx, bind_ok, Hy.
Qed.

(** With callbacks that compare by a key, [algs_msort] on the first [n] elements
    returns 0 and leaves them sorted by the key - stably, and in exactly the reverse of that
    order when [desc] is given; the elements behind them are not touched. *)
Theorem algs_msort_correct (key : Z -> Z) (malloc_ok : Z -> bool) (opt : algs_sort_opt) (l rest : list Z) (desc : Z) :
  callbacks_ok key opt -> served malloc_ok (Z.of_nat (length l)) ->
  exists l', sorts key true l l' /\
    algs_msort malloc_ok opt (Z.of_nat (length l)) desc (Some (l ++ rest)) =
    Ok (0%Z, Some ((if (desc =? 0)%Z then l' else reverse l') ++ rest)).
Proof.
  intros (cmp & sw & sz & Ec & Es & Ez & Hc & Hs & Hz) Hserved.
  unfold algs_msort. rewrite Ec, Es. rewrite (proj2 (Z.leb_le 0 _)) by lia. cbn [negb].
  destruct (Z.leb_spec (Z.of_nat (length l)) 1) as [Hle|Hgt].
  { exists l. split; [apply sorts_short; lia|]. destruct l as [|x [|y l]]; [|  |cbn in Hle; lia]; by destruct (desc =? 0)%Z. }
  destruct (msort_r_ok key malloc_ok opt cmp Ec (ex_intro _ sz (conj Ez Hz)) Hc (Z.to_nat (Z.of_nat (length l)))
              [] l rest 0%Z (Z.of_nat (length l))) as (l' & E & S); [done|done|lia|lia|done|].
  cbn [app] in E. exists l'. split; [done|]. rewrite E. cbn [mbind res_bind]. rewrite Z.eqb_refl. cbn [negb].
  destruct (desc =? 0)%Z; [done|]. unfold algs_msort_desc. rewrite Es.
  pose proof (sorts_length _ _ _ _ S) as L.
  pose proof (desc_loop_ok sw Hs (length l' / 2) [] l' rest (Z.of_nat (length l)) 0%Z) as D. cbn [app length] in D.
  replace (Z.to_nat (Z.of_nat (length l) ÷ 2)) with (length l' / 2); [|rewrite L, Z.quot_div_nonneg, <- (Nat2Z.inj_div _ 2), Nat2Z.id by lia; done].
  rewrite D by lia. done.
Qed.

Lemma algs_msort_correct_witness :
  exists l', sorts (fun x => x mod 10)%Z true [31; 12; 22; 41; 10]%Z l' /\
    algs_msort (fun _ => true) digit_opt 5 1 (Some ([31; 12; 22; 41; 10] ++ [7])%Z) =
    Ok (0%Z, Some (reverse l' ++ [7%Z])).
Proof.
  apply (algs_msort_correct (fun x => x mod 10)%Z (fun _ => true) digit_opt [31; 12; 22; 41; 10]%Z [7%Z] 1%Z).
  - exact digit_opt_ok.
  - split; [vm_compute; discriminate | intros b _; reflexivity].
Defined.

Example digit_sort : algs_msort (fun _ => true) digit_opt 5 0 (Some [31; 12; 22; 41; 10; 7]%Z) =
  Ok (0%Z, Some [10; 31; 41; 12; 22; 7]%Z).
Proof. vm_compute. reflexivity. Qed.

(** * Errors *)

Lemma msort_r_one malloc_ok opt fuel base buf :
  0 < fuel -> algs_msort_r malloc_ok fuel opt base 1 buf = Ok (0%Z, buf).
Proof. by destruct fuel; [lia|]. Qed.

(** A merge that always stops stops every sort of two or more elements. *)
Lemma msort_r_stops malloc_ok opt f (N : Z) fuel :
  (forall base m n buf, (2 <= n <= N)%Z -> algs_msort_merge malloc_ok opt base m n buf = Stop f) ->
  forall base n buf, (2 <= n <= N)%Z -> (n <= Z.of_nat fuel)%Z -> algs_msort_r malloc_ok fuel opt base n buf = Stop f.
Proof.
  intros Hm. induction fuel as [|fuel IH]; intros base n buf Hn Hf; [lia|].
  cbn [algs_msort_r]. rewrite (proj2 (Z.leb_le 0 n)), (proj2 (Z.leb_gt n 1)) by lia. cbn [c_assert mbind res_bind].
  assert (Hh : (1 <= n ÷ 2 < n)%Z).
  { rewrite Z.quot_div_nonneg by lia. split; [apply Z.div_le_lower_bound; lia | apply Z.div_lt; lia]. }
  destruct (decide (2 <= n ÷ 2)%Z) as [H2|H2]; [by rewrite IH by lia|].
  replace (n ÷ 2)%Z with 1%Z by lia. rewrite msort_r_one by lia. cbn [mbind res_bind].
  destruct (decide (2 <= n - 1)%Z) as [H3|H3]; [by rewrite IH by lia|].
  replace (n - 1)%Z with 1%Z by lia. rewrite msort_r_one by lia. cbn [mbind res_bind].
  by rewrite Hm by lia.
Qed.

(** A null array, a negative count or a missing [compare] or [swap] is refused with -1 and
    nothing is written.  The missing [size] callback and a failed [malloc] are not: with two
    or more elements they end in a failed assert and in a write through a null pointer. *)
Theorem algs_msort_failures (malloc_ok : Z -> bool) (opt : algs_sort_opt) (n desc : Z) (arr : option (list Z)) :
  (n <= 536870911)%Z ->
  let refused := match arr, compare opt, swap opt with Some _, Some _, Some _ => (n <? 0)%Z | _, _, _ => true end in
  if refused then algs_msort malloc_ok opt n desc arr = Ok (-1, arr)%Z
  else (2 <= n)%Z ->
    (size opt = None -> algs_msort malloc_ok opt n desc arr = Stop AssertFailed) /\
    (size opt = Some int_size -> (forall b, malloc_ok b = false) ->
     algs_msort malloc_ok opt n desc arr = Stop NullDeref).
Proof.
  intros Hmax. cbv zeta. unfold algs_msort. destruct arr as [buf|]; [|done].
  destruct (compare opt) as [cmp|] eqn:Ec; [|done]. destruct (swap opt) as [sw|] eqn:Es; [|done].
  destruct (Z.ltb_spec n 0) as [Hn|Hn]; [by rewrite (proj2 (Z.leb_gt 0 n)) by lia|]. intros H2.
  rewrite (proj2 (Z.leb_le 0 n)), (proj2 (Z.leb_gt n 1)) by lia. cbn [negb].
  split; [intros Ez | intros Ez Hf].
  - rewrite (msort_r_stops malloc_ok opt AssertFailed n); [done| |lia|lia].
    intros base m k b _. unfold algs_msort_merge. by rewrite Ec, Ez.
  - rewrite (msort_r_stops malloc_ok opt NullDeref n); [done| |lia|lia].
    intros base m k b Hk. unfold algs_msort_merge. rewrite Ec, Ez. unfold int_size.
    rewrite ck_ok by (unfold is_int, INT_MIN, INT_MAX; lia). cbn [mbind res_bind]. by rewrite Hf.
Qed.

Lemma algs_msort_failures_witness :
  algs_msort (fun _ => false) int_opt 3 0 (Some [3; 1; 2]%Z) = Stop NullDeref /\
  algs_msort (fun _ => true) (Opt (Some int_cmp) (Some int_swap) None) 2 0 (Some [3; 1]%Z) = Stop AssertFailed /\
  algs_msort (fun _ => true) int_opt (-1) 0 (Some [3; 1]%Z) = Ok (-1, Some [3; 1])%Z.
Proof.
  split_and!.
  - apply (algs_msort_failures (fun _ => false) int_opt 3 0 (Some [3; 1; 2]%Z)); [lia|lia|reflexivity|reflexivity].
  - apply (algs_msort_failures (fun _ => true) (Opt (Some int_cmp) (Some int_swap) None) 2 0 (Some [3; 1]%Z)); [lia|lia|reflexivity].
  - apply (algs_msort_failures (fun _ => true) int_opt (-1) 0 (Some [3; 1]%Z)). lia.
Defined.

Example test_sort_passes : test_algs4th_sort_main (fun _ => true) = Ok 0%Z.
Proof. vm_compute. reflexivity. Qed.
