(* ===== verification/LinkSort.v ===== *)
(** The merge sorts of src/algs/merge_sort_link_list: linked lists in memory, the loop that
    takes one element from one of two runs and appends it to the merged list, and the passes over
    ever longer runs.

    An address is a natural number; for the test rig of LinkRig.v it is the index into the array [k]. *)
From S2P Require Import Prelude SortSpec.

(** * Nodes in memory *)

(** [struct element], and the [struct list_head] of a [struct client_node]: [i] is [None]
    for a list head that is not the member of a node, whose integer no code may read. *)
Record element : Type := Elem { next : option nat; prev : option nat; i : option Z }.

Notation heap := (gmap nat element).

Definition load (h : heap) (p : option nat) : res element :=
  match p with
  | None => Stop NullDeref
  | Some a => match h !! a with Some e => Ok e | None => Stop Dangling end
  end.

Definition set_next (h : heap) (p v : option nat) : res heap :=
  match p with
  | None => Stop NullDeref
  | Some a => match h !! a with Some e => Ok (<[a := Elem v (prev e) (i e)]> h) | None => Stop Dangling end
  end.

Definition set_prev (h : heap) (p v : option nat) : res heap :=
  match p with
  | None => Stop NullDeref
  | Some a => match h !! a with Some e => Ok (<[a := Elem (next e) v (i e)]> h) | None => Stop Dangling end
  end.

(** [a->i - b->i]; in the two files on [list_head] through [list_entry]. *)
Definition cmp (h : heap) (a b : option nat) : res Z :=
  x ← load h a;
  y ← load h b;
  match i x, i y with Some x, Some y => ck (x - y) | _, _ => Stop OutOfBounds end.

(** The memory, [list] and [tail]. *)
Notation merged := (heap * option nat * option nat)%type.

(** * The sort

    [left_first] is the test on the result of the comparison that makes the next element come
    from [p]: [<= 0] in [listsort], [< 0] in [merge_sort_list]. *)
Section sort.
Context (compare : heap -> option nat -> option nat -> res Z) (left_first : Z -> bool).

(** [p = p->next; if(is_circular && p == oldhead) p = NULL]. *)
Definition advance (h : heap) (is_circular : bool) (oldhead p : option nat) : res (option nat) :=
  e ← load h p;
  Ok (if is_circular && bool_decide (next e = oldhead) then None else next e).

(** Steps [insize] places along from [p]: the place reached and the steps made. *)
Fixpoint step_along (h : heap) (is_circular : bool) (oldhead : option nat) (todo : nat) (q : option nat) (psize : Z)
    : res (option nat * Z) :=
  match todo with
  | O => Ok (q, psize)
  | S todo =>
      q' ← advance h is_circular oldhead q;
      match q' with
      | None => Ok (None, psize + 1)%Z
      | Some _ => step_along h is_circular oldhead todo q' (psize + 1)
      end
  end.

(** The places and the sizes left of the two runs being merged. *)
Record two_runs : Type := Two { p : option nat; psize : Z; q : option nat; qsize : Z }.

Definition take_p (h : heap) (is_circular : bool) (oldhead : option nat) (r : two_runs) : res (option nat * two_runs) :=
  p' ← advance h is_circular oldhead (p r);
  Ok (p r, Two p' (psize r - 1) (q r) (qsize r)).
Definition take_q (h : heap) (is_circular : bool) (oldhead : option nat) (r : two_runs) : res (option nat * two_runs) :=
  q' ← advance h is_circular oldhead (q r);
  Ok (q r, Two (p r) (psize r) q' (qsize r - 1)).

(** Decides whether the next element of the merge comes from [p] or [q]. *)
Definition pick (h : heap) (is_circular : bool) (oldhead : option nat) (r : two_runs) : res (option nat * two_runs) :=
  if (psize r =? 0)%Z then take_q h is_circular oldhead r
  else if (qsize r =? 0)%Z || bool_decide (q r = None) then take_p h is_circular oldhead r
  else
    c ← compare h (p r) (q r);
    if left_first c then take_p h is_circular oldhead r else take_q h is_circular oldhead r.

(** Adds the element [e] to the merged list. *)
Definition append (is_double : bool) (m : merged) (e : option nat) : res merged :=
  let '(h, list, tail) := m in
  '(h, list) ← match tail with
               | Some _ => h ← set_next h tail e; Ok (h, list)
               | None => Ok (h, e)
               end;
  h ← (if is_double then set_prev h e tail else Ok h);
  Ok (h, list, e).

(** [while (psize > 0 || (qsize > 0 && q))]: every round takes an element off one of the two sizes. *)
Definition merge_step (is_circular is_double : bool) (oldhead : option nat) (s : merged * two_runs)
    : res ((merged * two_runs) + (merged * option nat)) :=
  let '(m, r) := s in
  if (0 <? psize r)%Z || ((0 <? qsize r)%Z && negb (bool_decide (q r = None))) then
    '(e, r) ← pick m.1.1 is_circular oldhead r;
    m ← append is_double m e;
    Ok (inl (m, r))
  else Ok (inr (m, q r)).
Definition merge_runs (is_circular is_double : bool) (oldhead : option nat) (m : merged) (r : two_runs)
    : res (merged * option nat) :=
  loop (S (Z.to_nat (psize r + qsize r))) (merge_step is_circular is_double oldhead) (m, r).

(** One round of [while (p)]. *)
Definition pass_step (is_circular is_double : bool) (oldhead : option nat) (insize : Z) (s : merged * option nat * Z)
    : res ((merged * option nat * Z) + (merged * Z)) :=
  let '(m, p, nmerges) := s in
  match p with
  | None => Ok (inr (m, nmerges))
  | Some _ =>
      nmerges ← ck (nmerges + 1);
      '(q, psize) ← step_along m.1.1 is_circular oldhead (Z.to_nat insize) p 0;
      '(m, q) ← merge_runs is_circular is_double oldhead m (Two p psize q insize);
      Ok (inl (m, q, nmerges))
  end.
Definition pass (fuel : nat) (is_circular is_double : bool) (list : option nat) (insize : Z) (h : heap) : res (merged * Z) :=
  loop fuel (pass_step is_circular is_double list insize) ((h, None, None), list, 0%Z).

(** The ends of the list after a pass of [listsort]. *)
Definition close (is_circular is_double : bool) (m : merged) : res heap :=
  let '(h, list, tail) := m in
  if is_circular then
    h ← set_next h tail list;
    if is_double then set_prev h list tail else Ok h
  else set_next h tail None.

(** One round of [while (1)] on the memory, [list] and [insize]. *)
Definition sort_step (fuel : nat) (is_circular is_double : bool) (s : heap * option nat * Z)
    : res ((heap * option nat * Z) + (heap * option nat)) :=
  let '(h, list, insize) := s in
  '(m, nmerges) ← pass fuel is_circular is_double list insize h;
  h ← close is_circular is_double m;
  if (nmerges <=? 1)%Z then Ok (inr (h, m.1.2))
  else
    insize ← ck (insize * 2);
    Ok (inl (h, m.1.2, insize)).
End sort.

(** [listsort] of merge_sort_link_list.c. *)
Definition listsort (fuel : nat) (is_circular is_double : bool) (list : option nat) (h : heap) : res (heap * option nat) :=
  match list with
  | None => Ok (h, None)
  | Some _ => loop fuel (sort_step cmp (fun c => c <=? 0)%Z fuel is_circular is_double) (h, list, 1%Z)
  end.

(** * Lists in memory *)

Definition nxt (h : heap) (a : nat) : option (option nat) := next <$> h !! a.
Definition prv (h : heap) (a : nat) : option (option nat) := prev <$> h !! a.
Definition val (h : heap) (a : nat) : option Z := h !! a ≫= i.

(** The first of [l], or what follows the list. *)
Definition hd_or (l : list nat) (e : option nat) : option nat := match l with [] => e | x :: _ => Some x end.

(** The [next] links lead through [l] to [e]. *)
Fixpoint chain (h : heap) (l : list nat) (e : option nat) : Prop :=
  match l with
  | [] => True
  | x :: l' => nxt h x = Some (hd_or l' e) /\ chain h l' e
  end.

(** The [prev] links lead back through [l]; before its first is [p]. *)
Fixpoint back (h : heap) (p : option nat) (l : list nat) : Prop :=
  match l with
  | [] => True
  | x :: l' => prv h x = Some p /\ back h (Some x) l'
  end.

Lemma hd_or_app l1 l2 e : hd_or (l1 ++ l2) e = hd_or l1 (hd_or l2 e).
Proof. by destruct l1. Qed.

Lemma hd_or_None l : hd_or l None = head l.
Proof. by destruct l. Qed.

Lemma chain_app h l1 l2 e : chain h (l1 ++ l2) e <-> chain h l1 (hd_or l2 e) /\ chain h l2 e.
Proof.
  induction l1 as [|x l1 IH]; cbn; [tauto|]. rewrite IH, hd_or_app. tauto.
Qed.

Lemma back_snoc h p l x : back h p (l ++ [x]) <-> back h p l /\ prv h x = Some (match last l with Some y => Some y | None => p end).
Proof.
  revert p. induction l as [|y l IH]; intros p; cbn [app back]; [cbn; tauto|].
  rewrite IH. destruct l as [|z l]; [cbn; tauto|]. rewrite !last_cons. destruct (last l); tauto.
Qed.

Lemma chain_frame h h' l e : (forall x, x ∈ l -> nxt h' x = nxt h x) -> chain h l e -> chain h' l e.
Proof.
  induction l as [|x l IH]; intros Hf; [done|]. cbn. intros [Hx Hl]. split.
  - rewrite Hf; [done|by left].
  - apply IH; [|done]. intros y Hy. apply Hf. by right.
Qed.

Lemma back_frame h h' l : forall p, (forall x, x ∈ l -> prv h' x = prv h x) -> back h p l -> back h' p l.
Proof.
  induction l as [|x l IH]; intros p Hf; [done|]. cbn. intros [Hx Hl]. split.
  - rewrite Hf; [done|by left].
  - apply IH; [|done]. intros y Hy. apply Hf. by right.
Qed.

Lemma nxt_load h a v : nxt h a = Some v -> exists e, h !! a = Some e /\ next e = v.
Proof. unfold nxt. intros (e & -> & E)%fmap_Some. eauto. Qed.

Lemma set_next_spec h a v : is_Some (h !! a) ->
  exists h', set_next h (Some a) v = Ok h' /\ nxt h' a = Some v /\
    (forall b, b <> a -> nxt h' b = nxt h b) /\ (forall b, prv h' b = prv h b) /\ (forall b, val h' b = val h b) /\
    (forall b, b <> a -> h' !! b = h !! b).
Proof.
  intros [e Ea]. unfold set_next. rewrite Ea. eexists. split; [done|].
  unfold nxt, prv, val. split_and!.
  - by rewrite lookup_insert_eq.
  - intros b Hb. by rewrite lookup_insert_ne.
  - intros b. destruct (decide (b = a)) as [->|Hb]; [by rewrite lookup_insert_eq, Ea|by rewrite lookup_insert_ne].
  - intros b. destruct (decide (b = a)) as [->|Hb]; [by rewrite lookup_insert_eq, Ea|by rewrite lookup_insert_ne].
  - intros b Hb. by rewrite lookup_insert_ne.
Qed.

Lemma set_prev_spec h a v : is_Some (h !! a) ->
  exists h', set_prev h (Some a) v = Ok h' /\ prv h' a = Some v /\
    (forall b, b <> a -> prv h' b = prv h b) /\ (forall b, nxt h' b = nxt h b) /\ (forall b, val h' b = val h b) /\
    (forall b, b <> a -> h' !! b = h !! b).
Proof.
  intros [e Ea]. unfold set_prev. rewrite Ea. eexists. split; [done|].
  unfold nxt, prv, val. split_and!.
  - by rewrite lookup_insert_eq.
  - intros b Hb. by rewrite lookup_insert_ne.
  - intros b. destruct (decide (b = a)) as [->|Hb]; [by rewrite lookup_insert_eq, Ea|by rewrite lookup_insert_ne].
  - intros b. destruct (decide (b = a)) as [->|Hb]; [by rewrite lookup_insert_eq, Ea|by rewrite lookup_insert_ne].
  - intros b Hb. by rewrite lookup_insert_ne.
Qed.

(** The merged list [l] in memory: its links up to the last element, whose [next] is stale. *)
Record built (h : heap) (is_double : bool) (l : list nat) : Prop := {
  built_next : exists e, chain h l e;
  built_prev : is_double = true -> back h None l;
}.

Lemma nxt_is_Some h a v : nxt h a = Some v -> is_Some (h !! a).
Proof. intros (e & -> & _)%nxt_load. by eexists. Qed.

Lemma append_ok h d l x v :
  built h d l -> NoDup (l ++ [x]) -> nxt h x = Some v ->
  exists h', append d (h, head l, last l) (Some x) = Ok (h', head (l ++ [x]), last (l ++ [x])) /\
    built h' d (l ++ [x]) /\ nxt h' x = Some v /\ (forall y, y ∉ l -> nxt h' y = nxt h y) /\
    (forall y, val h' y = val h y) /\ (forall y, y ∉ l ++ [x] -> h' !! y = h !! y).
Proof.
  intros [[e0 Hn] Hp] ND Hx. apply NoDup_app in ND as (ND & Hd & _).
  assert (Hxl : x ∉ l) by (intros H; apply (Hd x H); by left).
  assert (exists h1, (match last l with
     | Some _ => h ← set_next h (last l) (Some x); Ok (h, head l)
     | None => Ok (h, Some x) end) = Ok (h1, head (l ++ [x])) /\
     chain h1 l (Some x) /\ nxt h1 x = Some v /\ (forall y, y ∉ l -> nxt h1 y = nxt h y) /\
     (forall y, prv h1 y = prv h y) /\ (forall y, val h1 y = val h y) /\ (forall y, y ∉ l -> h1 !! y = h !! y)) as (h1 & E1 & C1 & X1 & F1 & P1 & V1 & D1).
  { destruct l as [|t l0 _] using rev_ind; [exists h; by split_and!|].
    rewrite last_snoc. apply chain_app in Hn as [Hn1 Hn2]. cbn in Hn2. destruct Hn2 as [Ht _].
    destruct (set_next_spec h t (Some x) (nxt_is_Some _ _ _ Ht)) as (h1 & E & A & B & C & D & G).
    apply NoDup_app in ND as (ND & Hdt & _).
    assert (Htl : t ∉ l0) by (intros H; apply (Hdt t H); by left).
    exists h1. rewrite E. cbn [mbind res_bind]. split; [by destruct l0|]. split_and!.
    - apply chain_app. cbn. split; [|done]. apply chain_frame with h; [|done].
      intros y Hy. apply B. by intros ->.
    - rewrite B; [done|]. intros ->. apply Hxl, elem_of_app. right. by left.
    - intros y Hy. apply B. intros ->. apply Hy, elem_of_app. right. by left.
    - done.
    - done.
    - intros y Hy. apply G. intros ->. apply Hy, elem_of_app. right. by left. }
  unfold append. rewrite E1. cbn [mbind res_bind]. rewrite last_snoc. destruct d.
  - destruct (set_prev_spec h1 x (last l) (nxt_is_Some _ _ _ X1)) as (h2 & E2 & A & B & C & D & G).
    rewrite E2. cbn [mbind res_bind]. exists h2. split; [done|]. split_and!.
    + split; [exists v|].
      * apply chain_app. cbn. split; [|by rewrite C]. apply chain_frame with h1; [|done]. intros y _. apply C.
      * intros _. apply back_snoc. split; [|by destruct (last l)].
        apply back_frame with h; [|by apply Hp]. intros y Hy. rewrite B; [by rewrite P1|by intros ->].
    + by rewrite C.
    + intros y Hy. rewrite C. by apply F1.
    + intros y. by rewrite D.
    + intros y Hy. rewrite not_elem_of_app, list_elem_of_singleton in Hy. rewrite G by tauto. apply D1. tauto.
  - cbn [mbind res_bind]. exists h1. split; [done|]. split_and!; try done.
    + split; [|done]. exists v. apply chain_app. by cbn.
    + intros y Hy. rewrite not_elem_of_app in Hy. apply D1. tauto.
Qed.

(** * Merging two runs *)
Section correct.
Context (compare : heap -> option nat -> option nat -> res Z) (left_first : Z -> bool).
Context (key : nat -> Z) (strict : bool) (D : list nat).
Context (circ dbl : bool) (old : nat).

(** What the comparison says about the elements of [D] whose integers are their keys. *)
Definition compares_by_key : Prop := forall h x y,
  x ∈ D -> y ∈ D -> val h x = Some (key x) -> val h y = Some (key y) ->
  exists c, compare h (Some x) (Some y) = Ok c /\ left_first c = negb (goes_right key strict x y).
Context (Hcmp : compares_by_key).

(** What stands in [next] of the last element: the old head of a circular list, or null. *)
Definition list_end : option nat := if circ then Some old else None.

(** The state of a merge: [M] is built, [P] is left of the first run and [Q] is the second run
    with everything behind it. *)
Record merging (h : heap) (M P Q : list nat) : Prop := {
  mg_built : built h dbl M;
  mg_p : exists m, chain h P m;
  mg_q : chain h Q list_end;
  mg_nodup : NoDup (M ++ P ++ Q);
  mg_vals : forall x, x ∈ P ++ Q -> x ∈ D /\ val h x = Some (key x);
  mg_old : circ = true -> old ∉ tail P ++ Q;
}.

Lemma advance_chain h a l e :
  nxt h a = Some (hd_or l e) -> (l = [] -> e = list_end) -> (circ = true -> old ∉ l) ->
  advance h circ (Some old) (Some a) = Ok (head l).
Proof.
  intros (el & Ea & En)%nxt_load He Ho. unfold advance, load. rewrite Ea. cbn [mbind res_bind]. rewrite En.
  destruct l as [|y l]; cbn [hd_or head].
  - rewrite (He eq_refl). unfold list_end. destruct circ; [|done]. by rewrite bool_decide_eq_true_2.
  - destruct circ; [|done]. rewrite bool_decide_eq_false_2; [done|]. intros [= ->]. apply Ho; [done|by left].
Qed.

Lemma advance_any h a v : nxt h a = Some v -> exists p', advance h circ (Some old) (Some a) = Ok p'.
Proof.
  intros (el & Ea & _)%nxt_load. unfold advance, load. rewrite Ea. cbn [mbind res_bind]. by eexists.
Qed.

Lemma merging_take h M P Q x P' Q' v :
  merging h M P Q -> nxt h x = Some v -> M ++ P ++ Q ≡ₚ M ++ x :: P' ++ Q' ->
  (forall y, y ∈ P' -> y ∈ P) -> (forall y, y ∈ Q' -> y ∈ Q) ->
  (forall h', (forall y, y ∉ M -> nxt h' y = nxt h y) -> (exists m, chain h' P' m) /\ chain h' Q' list_end) ->
  (circ = true -> old ∉ tail P' ++ Q') ->
  exists h', append dbl (h, head M, last M) (Some x) = Ok (h', head (M ++ [x]), last (M ++ [x])) /\
    merging h' (M ++ [x]) P' Q' /\ (forall y, val h' y = val h y) /\ (forall y, y ∉ M ++ [x] -> h' !! y = h !! y).
Proof.
  intros [B _ _ ND V _] Hx Hperm HP HQ Hch Ho. rewrite Hperm in ND.
  destruct (append_ok h dbl M x v B) as (h' & E & B' & _ & F & V' & G); [|done|].
  { change (x :: P' ++ Q') with ([x] ++ P' ++ Q') in ND. rewrite (assoc_L app) in ND. by apply NoDup_app in ND as [? _]. }
  exists h'. split; [done|]. split; [|done]. destruct (Hch h' F) as [Cp Cq]. split; try done.
  - by rewrite <- (assoc_L app).
  - intros y Hy. rewrite V'. apply V. rewrite elem_of_app in Hy |- *. naive_solver.
Qed.

Lemma merging_p h M x P Q :
  merging h M (x :: P) Q ->
  exists h' p', advance h circ (Some old) (Some x) = Ok p' /\ (P <> [] -> p' = head P) /\
    append dbl (h, head M, last M) (Some x) = Ok (h', head (M ++ [x]), last (M ++ [x])) /\
    merging h' (M ++ [x]) P Q /\ (forall y, val h' y = val h y) /\ (forall y, y ∉ M ++ [x] -> h' !! y = h !! y).
Proof.
  intros H. pose proof H as [_ [m [Hx HP]] HQ ND _ Ho]. cbn [tail] in Ho.
  apply NoDup_app in ND as (_ & HM & ND).
  destruct (merging_take h M (x :: P) Q x P Q _ H Hx) as (h' & E & H'); [done|intros y Hy; by right|done| | |].
  - intros h' F. split; [exists m|]; (eapply chain_frame; [|done]); intros y Hy; apply F; intros Hm; apply (HM y Hm).
    + cbn. right. apply elem_of_app. by left.
    + cbn. right. apply elem_of_app. by right.
  - intros Hc Hin. apply (Ho Hc). apply elem_of_app in Hin as [Hin|Hin]; apply elem_of_app; [left|by right].
    destruct P; [done|by right].
  - destruct (advance_any h x _ Hx) as [p' Ep]. exists h', p'. split_and!; [done| |done|apply H'..].
    intros Hne. destruct P as [|y P]; [done|].
    rewrite (advance_chain h x (y :: P) m) in Ep; [by injection Ep|done|done|].
    intros Hc Hin. apply (Ho Hc). apply elem_of_app. by left.
Qed.

Lemma merging_q h M P y Q :
  merging h M P (y :: Q) ->
  exists h', advance h circ (Some old) (Some y) = Ok (head Q) /\
    append dbl (h, head M, last M) (Some y) = Ok (h', head (M ++ [y]), last (M ++ [y])) /\
    merging h' (M ++ [y]) P Q /\ (forall z, val h' z = val h z) /\ (forall z, z ∉ M ++ [y] -> h' !! z = h !! z).
Proof.
  intros H. pose proof H as [_ [m HP] [Hy HQ] ND _ Ho].
  apply NoDup_app in ND as (_ & HM & ND).
  destruct (merging_take h M P (y :: Q) y P Q _ H Hy) as (h' & E & H').
  - by rewrite Permutation_middle.
  - done.
  - intros z Hz. by right.
  - intros h' F. split; [exists m|]; (eapply chain_frame; [|done]); intros z Hz; apply F; intros Hm; apply (HM z Hm).
    + apply elem_of_app. by left.
    + apply elem_of_app. right. by right.
  - intros Hc Hin. apply (Ho Hc). apply elem_of_app in Hin as [Hin|Hin]; apply elem_of_app; [by left|right; by right].
  - exists h'. split; [|by split].
    apply (advance_chain h y Q list_end); [done|done|].
    intros Hc Hin. apply (Ho Hc). apply elem_of_app. right. by right.
Qed.
(** Memory that only the nodes of [l] may differ in, and never in their integers. *)
Definition same_but (l : list nat) (h h' : heap) : Prop :=
  (forall y, val h' y = val h y) /\ (forall y, y ∉ l -> h' !! y = h !! y).

Lemma same_but_trans l k h1 h2 h3 :
  (forall x, x ∈ l -> x ∈ k) -> same_but l h1 h2 -> same_but k h2 h3 -> same_but k h1 h3.
Proof.
  intros Hlk [V1 F1] [V2 F2]. split; [intros y; by rewrite V2, V1|].
  intros y Hy. rewrite F2 by done. apply F1. eauto.
Qed.

Lemma same_but_refl l h : same_but l h h.
Proof. done. Qed.

(** The places [p] and [q] hold for the runs [P] and [Q]. *)
Definition at_runs (P Q : list nat) (qs : nat) (r : two_runs) : Prop :=
  (P <> [] -> p r = head P) /\ psize r = Z.of_nat (length P) /\ q r = head Q /\ qsize r = Z.of_nat qs.

Lemma merge_step_p h M x P Q qs r :
  merging h M (x :: P) Q -> at_runs (x :: P) Q qs r ->
  (take qs Q = [] \/ exists y k, Q = y :: k /\ goes_right key strict x y = false) ->
  exists h' r', merge_step compare left_first circ dbl (Some old) ((h, head M, last M), r) =
      Ok (inl ((h', head (M ++ [x]), last (M ++ [x])), r')) /\
    merging h' (M ++ [x]) P Q /\ at_runs P Q qs r' /\ same_but (M ++ [x]) h h'.
Proof.
  intros HM (Hp & Hps & Hq & Hqs) Hwhy.
  destruct (merging_p _ _ _ _ _ HM) as (h' & p' & Ea & Hp' & Eapp & HM' & Hsame).
  specialize (Hp ltac:(done)). cbn [head] in Hp.
  exists h', (Two p' (psize r - 1) (q r) (qsize r)). split.
  - unfold merge_step. rewrite (proj2 (Z.ltb_lt 0 (psize r))) by (rewrite Hps; cbn; lia). cbn [orb fst].
    assert (Et : take_p h circ (Some old) r = Ok (Some x, Two p' (psize r - 1) (q r) (qsize r)))
      by (unfold take_p; rewrite Hp, Ea; done).
    assert (Ep : pick compare left_first h circ (Some old) r = Ok (Some x, Two p' (psize r - 1) (q r) (qsize r))).
    { unfold pick. rewrite (proj2 (Z.eqb_neq _ 0)) by (rewrite Hps; cbn; lia).
      destruct Hwhy as [Ht|(y & k & -> & Hle)].
      - replace ((qsize r =? 0)%Z || bool_decide (q r = None)) with true; [exact Et|].
        rewrite Hqs, Hq. symmetry. destruct qs as [|qs]; [done|]. destruct Q; [by rewrite orb_true_r|discriminate].
      - destruct ((qsize r =? 0)%Z || bool_decide (q r = None)); [exact Et|].
        destruct (mg_vals _ _ _ _ HM x) as [Dx Vx]; [by left|].
        destruct (mg_vals _ _ _ _ HM y) as [Dy Vy]; [apply elem_of_app; right; by left|].
        destruct (Hcmp h x y Dx Dy Vx Vy) as (c & Ec & Hc).
        replace (compare h (p r) (q r)) with (Ok c) by (rewrite Hp, Hq; done). cbn [mbind res_bind].
        by rewrite Hc, Hle. }
    rewrite Ep. cbn [mbind res_bind]. by rewrite Eapp.
  - split; [done|]. split; [|done]. split_and!; cbn [p psize q qsize]; [done|rewrite Hps; cbn; lia|done|done].
Qed.

Lemma merge_step_q h M P y Q qs r :
  merging h M P (y :: Q) -> at_runs P (y :: Q) (S qs) r ->
  (P = [] \/ exists x k, P = x :: k /\ goes_right key strict x y = true) ->
  exists h' r', merge_step compare left_first circ dbl (Some old) ((h, head M, last M), r) =
      Ok (inl ((h', head (M ++ [y]), last (M ++ [y])), r')) /\
    merging h' (M ++ [y]) P Q /\ at_runs P Q qs r' /\ same_but (M ++ [y]) h h'.
Proof.
  intros HM (Hp & Hps & Hq & Hqs) Hwhy. cbn [head] in Hq.
  destruct (merging_q _ _ _ _ _ HM) as (h' & Ea & Eapp & HM' & Hsame).
  exists h', (Two (p r) (psize r) (head Q) (qsize r - 1)). split.
  - unfold merge_step. rewrite (bool_decide_eq_false_2 (q r = None)) by (by rewrite Hq).
    rewrite (proj2 (Z.ltb_lt 0 (qsize r))) by lia. cbn [andb negb fst]. rewrite orb_true_r.
    assert (Et : take_q h circ (Some old) r = Ok (Some y, Two (p r) (psize r) (head Q) (qsize r - 1)))
      by (unfold take_q; rewrite Hq, Ea; done).
    assert (Ep : pick compare left_first h circ (Some old) r = Ok (Some y, Two (p r) (psize r) (head Q) (qsize r - 1))).
    { unfold pick. destruct Hwhy as [->|(x & k & -> & Hle)]; [by rewrite (proj2 (Z.eqb_eq _ 0))|].
      rewrite (proj2 (Z.eqb_neq _ 0)) by (rewrite Hps; cbn; lia).
      rewrite (proj2 (Z.eqb_neq (qsize r) 0)), bool_decide_eq_false_2 by (lia || by rewrite Hq). cbn [orb].
      destruct (mg_vals _ _ _ _ HM x) as [Dx Vx]; [by left|].
      destruct (mg_vals _ _ _ _ HM y) as [Dy Vy]; [apply elem_of_app; right; by left|].
      destruct (Hcmp h x y Dx Dy Vx Vy) as (c & Ec & Hc).
      replace (compare h (p r) (q r)) with (Ok c) by (rewrite (Hp ltac:(done)), Hq; done). cbn [mbind res_bind].
      by rewrite Hc, Hle. }
    rewrite Ep. cbn [mbind res_bind]. by rewrite Eapp.
  - split; [done|]. split; [|done]. split_and!; cbn [p psize q qsize]; [done|done|done|lia].
Qed.

Lemma merge_links_ok fuel : forall h M P Q qs r,
  merging h M P Q -> at_runs P Q qs r -> length P + qs < fuel ->
  let M' := M ++ merge_by key strict P (take qs Q) in
  exists h', loop fuel (merge_step compare left_first circ dbl (Some old)) ((h, head M, last M), r) =
      Ok ((h', head M', last M'), head (drop qs Q)) /\
    merging h' M' [] (drop qs Q) /\ same_but M' h h'.
Proof.
  induction fuel as [|fuel IH]; intros h M P Q qs r HM Hr Hf; [lia|]. cbv zeta. rewrite loop_step.
  assert (Hgo : forall x h' r' P' Q' qs' m,
    merge_step compare left_first circ dbl (Some old) ((h, head M, last M), r) =
      Ok (inl ((h', head (M ++ [x]), last (M ++ [x])), r')) ->
    merging h' (M ++ [x]) P' Q' -> at_runs P' Q' qs' r' -> same_but (M ++ [x]) h h' -> length P' + qs' < fuel ->
    drop qs' Q' = drop qs Q -> m = x :: merge_by key strict P' (take qs' Q') ->
    exists h'', match merge_step compare left_first circ dbl (Some old) ((h, head M, last M), r) with
           | Ok (inl s') => loop fuel (merge_step compare left_first circ dbl (Some old)) s'
           | Ok (inr r) => Ok r
           | Stop f => Stop f
           end = Ok ((h'', head (M ++ m), last (M ++ m)), head (drop qs Q)) /\
      merging h'' (M ++ m) [] (drop qs Q) /\ same_but (M ++ m) h h'').
  { intros x h' r' P' Q' qs' m E HM' Hr' Hs Hf' Hd ->. rewrite E, <- Hd.
    destruct (IH h' (M ++ [x]) P' Q' qs' r' HM' Hr' Hf') as (h'' & E'' & HM'' & Hs'').
    rewrite <- (assoc_L app) in E'', HM'', Hs''. cbn [app] in E'', HM'', Hs''.
    exists h''. split_and!; [done|done|]. apply same_but_trans with (M ++ [x]) h'; [|done|done].
    intros z. rewrite !elem_of_app, list_elem_of_singleton. intros [?| ->]; [by left|right; by left]. }
  destruct P as [|x P].
  - destruct qs as [|qs]; [|destruct Q as [|y Q]].
    + unfold merge_step. destruct Hr as (_ & Hps & Hq & Hqs). rewrite Hps, Hqs, Hq. cbn.
      exists h. rewrite app_nil_r. by split_and!.
    + unfold merge_step. destruct Hr as (_ & Hps & Hq & Hqs). rewrite Hps, Hqs, Hq. cbn [head length].
      rewrite bool_decide_eq_true_2 by done. cbn [negb]. rewrite andb_false_r. cbn.
      exists h. rewrite app_nil_r. by split_and!.
    + destruct (merge_step_q _ _ _ _ _ _ _ HM Hr (or_introl eq_refl)) as (h' & r' & E & HM' & Hr' & Hs).
      by apply (Hgo y h' r' [] Q qs (y :: take qs Q) E HM' Hr' Hs ltac:(cbn in *; lia)).
  - destruct (take qs Q) as [|y k] eqn:Et.
    + destruct (merge_step_p _ _ _ _ _ _ _ HM Hr (or_introl Et)) as (h' & r' & E & HM' & Hr' & Hs).
      apply (Hgo x h' r' P Q qs _ E HM' Hr' Hs ltac:(cbn in *; lia)); [done|].
      by rewrite Et, !merge_by_nil_r.
    + destruct qs as [|qs]; [discriminate|]. destruct Q as [|y' Q]; [discriminate|].
      cbn [take] in Et. injection Et as -> Et. rewrite merge_by_cons.
      destruct (goes_right key strict x y) eqn:Hg.
      * destruct (merge_step_q _ _ _ _ _ _ _ HM Hr) as (h' & r' & E & HM' & Hr' & Hs); [right; eauto|].
        apply (Hgo y h' r' (x :: P) Q qs _ E HM' Hr' Hs ltac:(cbn in *; lia)); [done|]. by rewrite Et.
      * destruct (merge_step_p _ _ _ _ _ _ _ HM Hr) as (h' & r' & E & HM' & Hr' & Hs); [right; eauto|].
        apply (Hgo x h' r' P (y :: Q) (S qs) _ E HM' Hr' Hs ltac:(cbn in *; lia)); [done|]. cbn [take]. by rewrite Et.
Qed.

(** * A pass *)
Lemma step_along_ok h todo : forall L ps,
  L <> [] -> chain h L list_end -> (circ = true -> old ∉ tail L) ->
  step_along h circ (Some old) todo (head L) ps =
  Ok (head (drop todo L), ps + Z.of_nat (length (take todo L)))%Z.
Proof.
  induction todo as [|todo IH]; intros L ps Hne Hc Ho; [cbn; by rewrite Z.add_0_r|].
  destruct L as [|x L]; [done|]. cbn [head step_along]. destruct Hc as [Hx Hc]. cbn [tail] in Ho.
  rewrite (advance_chain h x L list_end Hx) by done. cbn [mbind res_bind].
  destruct L as [|y L]; [cbn; by rewrite drop_nil, take_nil|]. cbn [head].
  rewrite (IH (y :: L)); [|done|done|].
  - cbn [drop take length]. do 2 f_equal. lia.
  - intros Hcirc Hin. apply (Ho Hcirc). by right.
Qed.

(** Between two merges of a pass: [M] is built and [K] is still to come. *)
Record passing (h : heap) (M K : list nat) : Prop := {
  ps_built : built h dbl M;
  ps_rest : chain h K list_end;
  ps_nodup : NoDup (M ++ K);
  ps_vals : forall x, x ∈ K -> x ∈ D /\ val h x = Some (key x);
  ps_old : circ = true -> old ∉ tail K;
}.

Lemma passing_merging h M K n : 0 < n -> K <> [] -> passing h M K -> merging h M (take n K) (drop n K).
Proof.
  intros Hn Hne [B C ND V Ho]. split; try (by rewrite ?take_drop); try done.
  - rewrite <- (take_drop n K) in C. apply chain_app in C as [C _]. eauto.
  - rewrite <- (take_drop n K) in C. by apply chain_app in C as [_ C].
  - destruct K as [|x K]; [done|]. destruct n as [|n]; [lia|]. cbn. by rewrite take_drop.
Qed.

Lemma merging_passing h M Q : merging h M [] Q -> passing h M Q.
Proof.
  intros [B _ C ND V Ho]. split; try done. intros Hc Hin. apply (Ho Hc). cbn. by destruct Q; [|right].
Qed.

Lemma pass_loop_ok n fuel : 0 < n -> forall h M K L nm,
  passing h M K -> runs key strict n L K -> length K < fuel -> (0 <= nm /\ nm + Z.of_nat (length K) <= INT_MAX)%Z ->
  exists h' K' c,
    loop fuel (pass_step compare left_first circ dbl (Some old) (Z.of_nat n)) ((h, head M, last M), head K, nm) =
      Ok ((h', head (M ++ K'), last (M ++ K')), (nm + Z.of_nat c)%Z) /\
    built h' dbl (M ++ K') /\ runs key strict (2 * n) L K' /\
    (c <= 1 <-> length K <= 2 * n) /\ (K <> [] -> 1 <= c) /\ same_but (M ++ K') h h'.
Proof.
  intros Hn. induction fuel as [|fuel IH]; intros h M K L nm HP HR Hf Hnm; [lia|].
  rewrite loop_step. destruct K as [|x K0] eqn:EK.
  { exists h, [], 0. cbn. rewrite app_nil_r, Z.add_0_r. split; [done|]. split; [apply HP|]. split; [|by split; [lia|]].
    pose proof (runs_length _ _ _ _ _ HR) as HL. destruct L; [constructor|discriminate]. }
  rewrite <- EK in *. assert (Hne : K <> []) by (by subst).
  destruct (runs_split _ _ _ _ _ Hn HR Hne) as (l1 & l2 & -> & Hl1 & Hlen & Hfull & Hsort & HR2).
  pose proof (sorts_length _ _ _ _ Hsort) as Hlm.
  pose proof (runs_length _ _ _ _ _ HR2) as Hl2.
  destruct (merge_links_ok (S (length (take n K) + n)) h M (take n K) (drop n K) n
              (Two (head K) (Z.of_nat (length (take n K))) (head (drop n K)) (Z.of_nat n)))
    as (h1 & E1 & HM1 & Hs1); [by apply passing_merging| | |].
  { split_and!; [|done..]. intros _. cbn [p]. rewrite EK. by destruct n; [lia|]. }
  { lia. }
  assert (Estep : pass_step compare left_first circ dbl (Some old) (Z.of_nat n) ((h, head M, last M), head K, nm) =
    Ok (inl ((h1, head (M ++ merge_by key strict (take n K) (take n (drop n K))),
                  last (M ++ merge_by key strict (take n K) (take n (drop n K)))),
             head (drop n (drop n K)), (nm + 1)%Z))).
  { unfold pass_step. replace (head K) with (Some x) at 1 by (by rewrite EK).
    rewrite ck_ok by (unfold is_int, INT_MIN in *; rewrite EK in Hnm; cbn [length] in Hnm; lia).
    cbn [mbind res_bind fst]. rewrite Nat2Z.id.
    rewrite step_along_ok by (apply HP || done). cbn [mbind res_bind]. rewrite Z.add_0_l.
    unfold merge_runs. cbn [psize qsize].
    replace (Z.to_nat (Z.of_nat (length (take n K)) + Z.of_nat n)) with (length (take n K) + n) by lia.
    by rewrite E1. }
  rewrite Estep. apply merging_passing in HM1.
  assert (Hdrop : length (drop n (drop n K)) = length K - 2 * n) by (rewrite !length_drop; lia).
  assert (HKl : length K = length l1 + length l2) by (rewrite (runs_length _ _ _ _ _ HR), length_app; done).
  assert (Hpos : 1 <= length l1) by (destruct l1; [done|cbn; lia]).
  destruct (IH h1 _ (drop n (drop n K)) l2 (nm + 1)%Z HM1 HR2) as (h2 & K2 & c & E2 & B2 & R2 & Hc & Hc1 & Hs2);
    [lia|unfold INT_MAX in *; lia|].
  rewrite <- (assoc_L app) in E2, B2, Hs2.
  exists h2, (merge_by key strict (take n K) (take n (drop n K)) ++ K2), (S c). split; [rewrite E2; do 2 f_equal; lia|].
  split; [done|]. split; [by apply runs_join|]. split; [|split; [lia|]].
  - rewrite Hdrop in Hc. destruct (drop n (drop n K)) as [|z Z'] eqn:EZ.
    + cbn in Hdrop. pose proof (runs_length _ _ _ _ _ R2) as HK2. destruct l2; [|discriminate].
      cbn in *. assert (c = 0); [|lia].
      destruct fuel; [cbn in E2; discriminate|]. cbn in E2. injection E2 as _ _ _ E2. lia.
    + cbn in Hdrop. specialize (Hc1 ltac:(done)). lia.
  - apply same_but_trans with (M ++ merge_by key strict (take n K) (take n (drop n K))) h1; [|done|done].
    intros z. rewrite !elem_of_app. tauto.
Qed.
End correct.

(** * The whole sort *)

(** The list [l] in memory: [next] leads from each element to the next one and from the last to
    the first or to null; so does [prev], the other way, when the list is double. *)
Record linked (h : heap) (circ dbl : bool) (l : list nat) : Prop := {
  linked_next : chain h l (if circ then head l else None);
  linked_prev : dbl = true -> back h (if circ then last l else None) l;
}.

Lemma close_ok h circ dbl l : built h dbl l -> NoDup l -> l <> [] ->
  exists h', close circ dbl (h, head l, last l) = Ok h' /\ linked h' circ dbl l /\ same_but l h h'.
Proof.
  intros [[e Hn] Hp] ND Hne. destruct l as [|t l _] using rev_ind; [done|]. clear Hne.
  apply chain_app in Hn as [Hn [Ht _]].
  apply NoDup_app in ND as (ND & Hdt & _).
  assert (Htl : t ∉ l) by (intros H; apply (Hdt t H); by left).
  set (v := if circ then head (l ++ [t]) else None).
  destruct (set_next_spec h t v (nxt_is_Some _ _ _ Ht)) as (h1 & E1 & A1 & N1 & P1 & V1 & F1).
  assert (C1 : chain h1 (l ++ [t]) v).
  { apply chain_app. cbn. split; [|done]. apply chain_frame with h; [|done]. intros y Hy. apply N1. by intros ->. }
  assert (S1 : same_but (l ++ [t]) h h1).
  { split; [done|]. intros y Hy. apply F1. intros ->. apply Hy, elem_of_app. right. by left. }
  unfold close. rewrite last_snoc. subst v. destruct circ; cbv iota in E1, C1; [|rewrite E1; exists h1; split; [done|]; split; [split; [done|]|done]].
  - rewrite E1. cbn [mbind res_bind]. destruct dbl.
    + destruct (l ++ [t]) as [|x l'] eqn:El; [by destruct l|]. cbn [head].
      assert (Hx : is_Some (h1 !! x)) by (cbn in C1; destruct C1 as [C1 _]; by apply nxt_is_Some in C1).
      destruct (set_prev_spec h1 x (Some t) Hx) as (h2 & E2 & A2 & P2 & N2 & V2 & F2).
      rewrite E2. exists h2. split; [done|].
      assert (Hxl : x ∉ l').
      { assert (NDl : NoDup (x :: l')) by (rewrite <- El; apply NoDup_app; split_and!; [done|done|apply NoDup_singleton]).
        by apply NoDup_cons in NDl as [? _]. }
      split; [split|].
      * apply chain_frame with h1; [|done]. intros y _. apply N2.
      * intros _. assert (Hlast : last (x :: l') = Some t) by (rewrite <- El; apply last_snoc).
        cbn [back]. rewrite Hlast. split; [done|].
        specialize (Hp eq_refl). cbn in Hp. destruct Hp as [_ Hp].
        apply back_frame with h; [|done]. intros y Hy. rewrite P2, P1; [done|]. by intros ->.
      * split; [intros y; by rewrite V2|]. intros y Hy. rewrite F2, F1; [done| |].
        -- intros ->. apply Hy. rewrite <- El. apply elem_of_app. right. by left.
        -- intros ->. apply Hy. by left.
    + exists h1. split; [done|]. split; [|done]. by split.
  - intros Hd. apply back_frame with h; [|by apply Hp]. intros y _. apply P1.
Qed.

Section whole.
Context (compare : heap -> option nat -> option nat -> res Z) (left_first : Z -> bool).
Context (key : nat -> Z) (strict : bool) (L : list nat) (circ dbl : bool).
Context (Hcmp : compares_by_key compare left_first key strict L).
Context (Hlen : (Z.of_nat (length L) <= INT_MAX)%Z).

(** The list [K] before a pass, a rearrangement of [L]. *)
Record ready (h : heap) (K : list nat) : Prop := {
  rd_next : chain h K (if circ then head K else None);
  rd_perm : K ≡ₚ L;
  rd_nodup : NoDup K;
  rd_vals : forall x, x ∈ K -> val h x = Some (key x);
}.

(** One pass on a list of sorted runs of [n] elements. *)
Lemma pass_ok n fuel h K : 0 < n -> ready h K -> runs key strict n L K -> length L < fuel -> L <> [] ->
  exists h' K' c,
    pass compare left_first fuel circ dbl (head K) (Z.of_nat n) h = Ok ((h', head K', last K'), Z.of_nat c) /\
    built h' dbl K' /\ runs key strict (2 * n) L K' /\ (c <= 1 <-> length L <= 2 * n) /\ same_but K' h h'.
Proof.
  intros Hn [Hc HP ND HV] HR Hf Hne. pose proof (runs_length _ _ _ _ _ HR) as HL.
  destruct K as [|x K0] eqn:EK; [by apply Permutation_nil in HP; subst|]. rewrite <- EK in *.
  assert (HH : head K = Some x) by (by rewrite EK). rewrite HH in *.
  assert (HPS : passing key L circ dbl x h [] K).
  { split; [split; [by exists None|done]|done|done| |].
    - intros y Hy. split; [by rewrite <- HP|by apply HV].
    - intros _. rewrite EK in ND |- *. by apply NoDup_cons in ND as [? _]. }
  destruct (pass_loop_ok compare left_first key strict L circ dbl x Hcmp n fuel Hn h [] K L 0 HPS HR)
    as (h' & K' & c & E & B & R & Hcc & _ & S); [lia|lia|].
  exists h', K', c. rewrite HL in Hcc. cbn [app head last] in E. rewrite HH in E. by split_and!.
Qed.

Lemma sort_loop_ok fuel0 fuel : forall n h K,
  0 < n -> ready h K -> runs key strict n L K -> length L < fuel0 -> L <> [] -> 0 < fuel -> length L < n + fuel ->
  exists h' K', loop fuel (sort_step compare left_first fuel0 circ dbl) (h, head K, Z.of_nat n) = Ok (h', head K') /\
    sorts key strict L K' /\ linked h' circ dbl K' /\ same_but L h h'.
Proof.
  induction fuel as [|fuel IH]; intros n h K Hn HRd HR Hf0 Hne Hpos Hf; [lia|]. rewrite loop_step. unfold sort_step.
  destruct (pass_ok n fuel0 h K Hn HRd HR Hf0 Hne) as (h1 & K1 & c & E & B & R & Hc & S1).
  rewrite E. cbn [mbind res_bind fst snd].
  assert (HP1 : K1 ≡ₚ L) by (symmetry; by apply (runs_perm _ _ _ _ _ R)).
  assert (ND1 : NoDup K1) by (rewrite HP1, <- (rd_perm _ _ HRd); apply HRd).
  assert (Hne1 : K1 <> []) by (intros ->; by apply Permutation_nil in HP1).
  destruct (close_ok h1 circ dbl K1 B ND1 Hne1) as (h2 & E2 & L2 & S2). rewrite E2. cbn [mbind res_bind].
  assert (S : same_but L h h2).
  { apply same_but_trans with K1 h1; [intros x; by rewrite HP1|done|].
    destruct S2 as [V F]. split; [done|]. intros y Hy. apply F. by rewrite HP1. }
  destruct (Z.leb_spec (Z.of_nat c) 1) as [Hle|Hgt].
  - exists h2, K1. split_and!; try done. apply (runs_sorts _ _ _ _ _ R). lia.
  - rewrite ck_ok by (unfold is_int, INT_MIN; lia). cbn [mbind res_bind].
    replace (Z.of_nat n * 2)%Z with (Z.of_nat (2 * n)) by lia.
    assert (HRd2 : ready h2 K1).
    { split; [apply L2|done|done|]. intros x Hx. destruct S as [V _]. rewrite V. apply HRd.
      by rewrite (rd_perm _ _ HRd), <- HP1. }
    destruct (IH (2 * n) h2 K1) as (h3 & K3 & E3 & S3 & L3 & F3); [lia|done|done|done|done|lia|lia|].
    exists h3, K3. split_and!; try done. by apply same_but_trans with L h2.
Qed.
End whole.

(** The differences of the integers fit [int]. *)
Definition keys_fit (key : nat -> Z) (l : list nat) : Prop :=
  forall x y, x ∈ l -> y ∈ l -> is_int (key x - key y).

Lemma cmp_compares key l : keys_fit key l -> compares_by_key cmp (fun c => c <=? 0)%Z key true l.
Proof.
  intros Hk h x y Hx Hy Vx Vy. exists (key x - key y)%Z.
  unfold val in Vx, Vy. apply bind_Some in Vx as (ex & Ex & Ix). apply bind_Some in Vy as (ey & Ey & Iy).
  unfold cmp, load. rewrite Ex, Ey. cbn [mbind res_bind]. rewrite Ix, Iy, ck_ok by (by apply Hk).
  split; [done|]. unfold goes_right. destruct (Z.leb_spec (key x - key y) 0), (Z.ltb_spec (key y) (key x)); done || lia.
Qed.

(** C38: [listsort] on a list of at most INT_MAX nodes, singly or doubly linked, linear or circular, for any two of whose keys [i] the difference fits an int (the comparison is
    [a->i - b->i]), returns the head of a list of the same elements, stably sorted by [i], whose [next] links, and [prev]
    links when the list is double, are those of such a list; no other memory and no [i] changes. *)
Theorem listsort_correct (h : heap) (L : list nat) (key : nat -> Z) (circ dbl : bool) (fuel : nat) :
  chain h L (if circ then head L else None) -> NoDup L -> (forall x, x ∈ L -> val h x = Some (key x)) ->
  keys_fit key L -> (Z.of_nat (length L) <= INT_MAX)%Z -> length L < fuel ->
  exists h' K, listsort fuel circ dbl (head L) h = Ok (h', head K) /\
    sorts key true L K /\ linked h' circ dbl K /\ same_but L h h'.
Proof.
  intros Hc ND HV Hk Hlen Hf. unfold listsort. destruct L as [|x L0] eqn:EL.
  { exists h, []. cbn. split; [done|]. split; [apply sorts_short; cbn; lia|]. split; [by split|done]. }
  rewrite <- EL in *. replace (head L) with (Some x) by (by rewrite EL). cbn.
  assert (HRd : ready key L circ h L) by (split; done).
  replace (Some x) with (head L) by (by rewrite EL).
  destruct (sort_loop_ok cmp (fun c => c <=? 0)%Z key true L circ dbl (cmp_compares key L Hk) Hlen fuel fuel 1 h L)
    as (h' & K & E & S); [lia|done|apply runs_one|lia|by subst|lia|lia|].
  exists h', K. split; [exact E|]. done.
Qed.

(** Three nodes on a circular double list; two of them have the same integer. *)
Definition three_nodes : heap :=
  {[ 0 := Elem (Some 1) (Some 2) (Some 5%Z); 1 := Elem (Some 2) (Some 0) (Some 3%Z); 2 := Elem (Some 0) (Some 1) (Some 3%Z) ]}.
Definition three_keys (a : nat) : Z := match a with 0 => 5 | 1 => 3 | _ => 3 end.

Lemma listsort_correct_witness :
  exists h' K, listsort 4 true true (Some 0) three_nodes = Ok (h', head K) /\
    sorts three_keys true [0; 1; 2] K /\ linked h' true true K /\ same_but [0; 1; 2] three_nodes h'.
Proof.
  apply (listsort_correct three_nodes [0; 1; 2] three_keys true true 4).
  - cbn. split_and!; reflexivity.
  - decide_now.
  - intros x Hx. repeat (apply elem_of_cons in Hx as [->|Hx]; [reflexivity|]). by apply not_elem_of_nil in Hx.
  - intros x y _ _. destruct x as [|[|x]], y as [|[|y]]; vm_compute; split; discriminate.
  - vm_compute. discriminate.
  - cbn. lia.
Defined.

Example listsort_three : match listsort 4 true true (Some 0) three_nodes with
  | Ok (h, p) => bool_decide (p = Some 1 /\ nxt h 1 = Some (Some 2) /\ nxt h 2 = Some (Some 0) /\ nxt h 0 = Some (Some 1) /\
                              prv h 1 = Some (Some 0))
  | Stop _ => false end = true.
Proof. vm_compute. reflexivity. Qed.
