(* ===== verification/LinkRig.v ===== *)
(** The programs around the list sorts of LinkSort.v: the test rig and the test of
    src/algs/merge_sort_link_list/merge_sort_link_list.c, the sort of list heads of
    merge_sort_link_list2.c, and [merge_sort_list] of merge_sort_link_list3.c with its
    [main].  The macros of hp/klist.h, which is not in the repository, are the operations of
    the class [Klist], with what the programs rely on as the laws of [KlistLaws]. *)
From S2P Require Import Prelude SortSpec LinkSort.

(** * The test rig of merge_sort_link_list.c *)

Definition nmax : Z := 13.

(** [1U << n]. *)
Definition shl1 (n : Z) : res Z :=
  if (0 <=? n)%Z && (n <? 32)%Z then Ok (Z.shiftl 1 n) else Stop BadShift.

(** The [do] loop over the list in the forward direction: [None] for a message and [return 0],
    or the tail.  [e] is a place in the array [k] or outside it. *)
Definition check_step (h : heap) (head : nat) (expected_len : Z) (s : nat * Z) : res ((nat * Z) + option nat) :=
  let '(e, bits_used) := s in
  if negb (Z.of_nat e <? expected_len)%Z then Ok (inr None)
  else
    bit ← shl1 (Z.of_nat e - Z.of_nat head);
    if negb (Z.land bits_used bit =? 0)%Z then Ok (inr None)
    else
      x ← load h (Some e);
      match next x with
      | Some e' => if bool_decide (e' = head) then Ok (inr (Some e)) else Ok (inl (e', Z.lor bits_used bit))
      | None => Ok (inr (Some e))
      end.

(** [for (e = head; e->next && e->next != head; e = e->next)] with a test of [e] and [e->next]. *)
Definition links_step (h : heap) (head : nat) (test : nat -> element -> nat -> element -> bool) (e : nat) : res (nat + bool) :=
  x ← load h (Some e);
  match next x with
  | None => Ok (inr true)
  | Some e' =>
      if bool_decide (e' = head) then Ok (inr true)
      else
        y ← load h (Some e');
        if test e x e' y then Ok (inl e') else Ok (inr false)
  end.

(** The list printed: its characters. *)
Definition putchar_step (h : heap) (head : nat) (s : nat * list Z) : res ((nat * list Z) + list Z) :=
  let '(e, out) := s in
  x ← load h (Some e);
  match i x with
  | None => Stop OutOfBounds
  | Some c =>
      match next x with
      | Some e' => if bool_decide (e' = head) then Ok (inr (out ++ [c])) else Ok (inl (e', out ++ [c]))
      | None => Ok (inr (out ++ [c]))
      end
  end.

Definition ordered (x y : element) : bool :=
  match i x, i y with Some a, Some b => (a <? b)%Z | _, _ => false end.

(** [None] is [return 0]; otherwise the characters printed before [return 1]. *)
Definition print_and_check_list (fuel : nat) (h : heap) (head : nat) (expected_len : Z)
    (is_circular is_double check_ordering : bool) : res (option (list Z)) :=
  c_assert (expected_len <=? 32)%Z;;
  tail ← loop fuel (check_step h head expected_len) (head, 0%Z);
  match tail with
  | None => Ok None
  | Some tail =>
      t ← load h (Some tail);
      hd ← load h (Some head);
      if negb (bool_decide (next t = if is_circular then Some head else None)) then Ok None
      else if is_double && negb (bool_decide (prev hd = if is_circular then Some tail else None)) then Ok None
      else
        back_ok ← (if is_double then loop fuel (links_step h head (fun e _ _ y => bool_decide (prev y = Some e))) head
                   else Ok true);
        if negb (back_ok : bool) then Ok None
        else
          order_ok ← (if check_ordering then loop fuel (links_step h head (fun _ x _ y => ordered x y)) head
                      else Ok true);
          if negb (order_ok : bool) then Ok None
          else out ← loop fuel (putchar_step h head) (head, []); Ok (Some out)
  end.

(** The three strings: the characters' codes. *)
Definition testcases : list (list Z) :=
  [[97; 98; 99; 100; 101; 102; 103; 104; 105; 106; 107; 108; 109];
   [103; 99; 105; 101; 108; 98; 109; 104; 100; 106; 102; 97; 107];
   [109; 108; 107; 106; 105; 104; 103; 102; 101; 100; 99; 98; 97]]%Z.

(** The nodes [k[0]] .. [k[n - 1]] for a string. *)
Definition set_up (is_circular is_double : bool) (str : list Z) : heap :=
  let n := length str in
  list_to_map ((fun '(j, c) =>
    (j, Elem (if (j + 1 <? n)%nat then Some (j + 1) else if is_circular then Some 0 else None)
             (if is_double then (if (0 <? j)%nat then Some (j - 1) else if is_circular then Some (n - 1) else None) else None)
             (Some c))) <$> zip (seq 0 n) str).

(** One test: whether it passed. *)
Definition run_case (is_circular is_double : bool) (str : list Z) : res bool :=
  let n := Z.of_nat (length str) in
  c_assert (n <=? nmax)%Z;;
  let h := set_up is_circular is_double str in
  before ← print_and_check_list 32 h 0 n is_circular is_double false;
  match before with
  | None => Ok false
  | Some _ =>
      '(h, head) ← listsort 32 is_circular is_double (Some 0) h;
      match head with
      | None => Stop NullDeref
      | Some head =>
          after ← print_and_check_list 32 h head n is_circular is_double true;
          Ok (match after with Some _ => true | None => false end)
      end
  end.

Fixpoint run_cases (cases : list (bool * bool * list Z)) (npasses nfails : Z) : res (Z * Z) :=
  match cases with
  | [] => Ok (npasses, nfails)
  | (c, d, str) :: cases =>
      pass ← run_case c d str;
      if (pass : bool) then run_cases cases (npasses + 1) nfails else run_cases cases npasses (nfails + 1)
  end.

(** [listsort(NULL, 0, 0)], then every shape of list with every string. *)
Definition merge_sort_link_list_main : res Z :=
  '(_, _) ← listsort 1 false false None ∅;
  '(_, nfails) ← run_cases ('(c, d) ← [(false, false); (false, true); (true, false); (true, true)];
                            s ← testcases; [(c, d, s)]) 0 0;
  Ok (if (nfails =? 0)%Z then 0 else 1)%Z.

(** The first string, in order already, passes; the second one makes the rig shift by a
    negative number of places, because it counts bits from the head of the sorted list. *)
Example rig_first_string : run_case true true (nth 0 testcases []) = Ok true.
Proof. vm_compute. reflexivity. Qed.
Example rig_second_string : merge_sort_link_list_main = Stop BadShift.
Proof. vm_compute. reflexivity. Qed.

(** * The list heads of hp/klist.h *)
Class Klist := {
  INIT_LIST_HEAD : nat -> heap -> res heap;
  list_add_tail : nat -> nat -> heap -> res heap;
  list_for_each_safe : nat -> heap -> res (list nat);
}.

(** An initialised head is an empty circular list; [list_add_tail] puts a new node before the head;
    the loop visits the nodes after the head.  Integers of the nodes stay. *)
Class KlistLaws (K : Klist) := {
  init_law : forall a h, is_Some (h !! a) ->
    exists h', INIT_LIST_HEAD a h = Ok h' /\ linked h' true true [a] /\ same_but [a] h h';
  add_tail_law : forall x a l h, linked h true true (a :: l) -> NoDup (x :: a :: l) -> is_Some (h !! x) ->
    exists h', list_add_tail x a h = Ok h' /\ linked h' true true (a :: l ++ [x]) /\ same_but (a :: l ++ [x]) h h';
  for_each_law : forall a l h, linked h true true (a :: l) -> NoDup (a :: l) -> list_for_each_safe a h = Ok l;
}.

Section klist.
Context `{Klist}.

(** The head at address 0 and the nodes at 1, 2, ...: [nodes] is zeroed memory. *)
Definition fresh_nodes (head_i : option Z) (n : nat) : heap :=
  <[0 := Elem None None head_i]> (list_to_map ((fun j => (S j, Elem None None (Some 0%Z))) <$> seq 0 n)).

Definition set_i (a : nat) (c : Z) (h : heap) : res heap :=
  match h !! a with Some e => Ok (<[a := Elem (next e) (prev e) (Some c)]> h) | None => Stop Dangling end.

(** [nodes[i].i = 1 + random() % 9; list_add_tail(...)] for the numbers [random] gives. *)
Fixpoint add_nodes (j : nat) (rnd : list Z) (h : heap) : res heap :=
  match rnd with
  | [] => Ok h
  | r :: rnd =>
      h ← set_i (S j) (1 + r mod 9) h;
      h ← list_add_tail (S j) 0 h;
      add_nodes (S j) rnd h
  end.

(** The integers printed: [list_entry(pos, CLIENT_NODE, list)->i]. *)
Definition print_nodes (h : heap) : res (list Z) :=
  l ← list_for_each_safe 0 h;
  foldr (fun a (k : res (list Z)) =>
           e ← load h (Some a);
           match i e with None => Stop OutOfBounds | Some c => out ← k; Ok (c :: out) end) (Ok []) l.

(** * merge_sort_link_list2.c *)

(** [cmp] goes from the list heads to their nodes; the text of [listsort] is repeated. *)
Definition listsort2 (fuel : nat) (is_circular is_double : bool) (list : option nat) (h : heap) : res (heap * option nat) :=
  match list with
  | None => Ok (h, None)
  | Some _ => loop fuel (sort_step cmp (fun c => c <=? 0)%Z fuel is_circular is_double) (h, list, 1%Z)
  end.

(** What is printed before and after the sort; the head is a bare [list_head]. *)
Definition merge_sort_link_list2_main (rnd : list Z) : res (list Z * list Z) :=
  h ← INIT_LIST_HEAD 0 (fresh_nodes None 10);
  h ← add_nodes 0 rnd h;
  before ← print_nodes h;
  '(h, _) ← listsort2 32 true true (Some 0) h;
  after ← print_nodes h;
  Ok (before, after).
End klist.

(** * merge_sort_link_list3.c *)
Section list3.
Context (compare : heap -> option nat -> option nat -> res Z).

(** [while (right && leftSize<listSize) leftSize++,right=right->next]. *)
Fixpoint cut_left (h : heap) (todo : nat) (right' : option nat) (leftSize : Z) : res (option nat * Z) :=
  match todo, right' with
  | O, _ | _, None => Ok (right', leftSize)
  | S todo, Some _ => e ← load h right'; cut_left h todo (next e) (leftSize + 1)%Z
  end.

(** One round of [while (left)]; the [prev] pointers are always kept. *)
Definition list_pass_step (listSize : Z) (s : merged * option nat * Z) : res ((merged * option nat * Z) + (merged * Z)) :=
  let '(m, left', numMerges) := s in
  match left' with
  | None => Ok (inr (m, numMerges))
  | Some _ =>
      numMerges ← ck (numMerges + 1);
      '(right', leftSize) ← cut_left m.1.1 (Z.to_nat listSize) left' 0;
      '(m, right') ← merge_runs compare (fun c => c <? 0)%Z false true None m (Two left' leftSize right' listSize);
      Ok (inl (m, right', numMerges))
  end.

(** One round of [do ... while (numMerges>1)]. *)
Definition list_sort_step (fuel : nat) (s : heap * option nat * Z) : res ((heap * option nat * Z) + (heap * option nat)) :=
  let '(h, list, listSize) := s in
  '((h, list, tail), numMerges) ← loop fuel (list_pass_step listSize) ((h, None, None), list, 0%Z);
  h ← set_next h tail None;
  listSize ← ck (listSize * 2);
  if (1 <? numMerges)%Z then Ok (inl (h, list, listSize)) else Ok (inr (h, list)).

Definition merge_sort_list (fuel : nat) (list : option nat) (h : heap) : res (heap * option nat) :=
  match list with
  | None => Ok (h, None)
  | Some _ =>
      e ← load h list;
      match next e with
      | None => Ok (h, list)
      | Some _ => loop fuel (list_sort_step fuel) (h, list, 1%Z)
      end
  end.
End list3.

(** The head is itself a node, with [i = 0]. *)
Definition merge_sort_link_list3_main `{Klist} (fuel : nat) (rnd : list Z) : res (list Z * list Z) :=
  h ← INIT_LIST_HEAD 0 (fresh_nodes (Some 0%Z) 10);
  h ← add_nodes 0 rnd h;
  before ← print_nodes h;
  '(h, _) ← merge_sort_list cmp fuel (Some 0) h;
  after ← print_nodes h;
  Ok (before, after).

(** * merge_sort_list on linear lists *)

Lemma cut_left_step_along h o n a : forall ps,
  cut_left h n (Some a) ps = step_along h false o n (Some a) ps.
Proof.
  revert a. induction n as [|n IH]; intros a ps; [done|]. cbn. destruct (h !! a) as [e|]; [|done]. cbn.
  destruct (next e) as [b|]; [apply IH|]. by destruct n.
Qed.

Section list3_correct.
Context (compare : heap -> option nat -> option nat -> res Z).
Context (key : nat -> Z) (L : list nat).
Context (Hcmp : compares_by_key compare (fun c => c <? 0)%Z key false L).
Context (Hlen : (2 * Z.of_nat (length L) <= INT_MAX)%Z).

Lemma list_pass_ok n fuel h K : 0 < n -> ready key L false h K -> runs key false n L K -> length L < fuel -> L <> [] ->
  exists h' K' c,
    loop fuel (list_pass_step compare (Z.of_nat n)) ((h, None, None), head K, 0%Z) = Ok ((h', head K', last K'), Z.of_nat c) /\
    built h' true K' /\ runs key false (2 * n) L K' /\ (c <= 1 <-> length L <= 2 * n) /\ same_but K' h h'.
Proof.
  intros Hn HRd HR Hf Hne.
  destruct (pass_ok compare (fun c => c <? 0)%Z key false L false true Hcmp ltac:(lia) n fuel h K Hn HRd HR Hf Hne)
    as (h' & K' & c & E & P).
  exists h', K', c. split; [|exact P]. rewrite <- E. unfold pass. apply loop_ext.
  intros [[m [a|]] nm]; [|done]. unfold list_pass_step, pass_step.
  destruct (ck (nm + 1)); [|done]. cbn [mbind res_bind]. by rewrite (cut_left_step_along _ (head K)).
Qed.

Lemma list_sort_loop_ok fuel0 fuel : forall n h K,
  0 < n -> ready key L false h K -> runs key false n L K -> length L < fuel0 -> L <> [] -> 0 < fuel ->
  length L < n + fuel -> n <= length L ->
  exists h' K', loop fuel (list_sort_step compare fuel0) (h, head K, Z.of_nat n) = Ok (h', head K') /\
    sorts key false L K' /\ linked h' false true K' /\ same_but L h h'.
Proof.
  induction fuel as [|fuel IH]; intros n h K Hn HRd HR Hf0 Hne Hpos Hf HnL; [lia|]. rewrite loop_step. unfold list_sort_step.
  destruct (list_pass_ok n fuel0 h K Hn HRd HR Hf0 Hne) as (h1 & K1 & c & E & B & R & Hc & S1).
  rewrite E. cbn [mbind res_bind fst snd].
  pose proof (runs_perm _ _ _ _ _ R) as HP1. symmetry in HP1.
  assert (ND1 : NoDup K1) by (rewrite HP1, <- (rd_perm _ _ _ _ _ HRd); apply HRd).
  assert (Hne1 : K1 <> []) by (intros ->; by apply Permutation_nil in HP1).
  destruct (close_ok h1 false true K1 B ND1 Hne1) as (h2 & E2 & L2 & S2).
  unfold close in E2. rewrite E2. cbn [mbind res_bind].
  assert (S : same_but L h h2).
  { apply same_but_trans with K1 h1; [intros x; by rewrite HP1|done|].
    destruct S2 as [V F]. split; [done|]. intros y Hy. apply F. by rewrite HP1. }
  rewrite ck_ok by (unfold is_int, INT_MIN; lia). cbn [mbind res_bind].
  destruct (Z.ltb_spec 1 (Z.of_nat c)) as [Hgt|Hle].
  - replace (Z.of_nat n * 2)%Z with (Z.of_nat (2 * n)) by lia.
    assert (HRd2 : ready key L false h2 K1).
    { split; [apply L2|done|done|]. intros x Hx. destruct S as [V _]. rewrite V. apply HRd.
      by rewrite (rd_perm _ _ _ _ _ HRd), <- HP1. }
    destruct (IH (2 * n) h2 K1) as (h3 & K3 & E3 & S3 & L3 & F3); [lia|done|done|done|done|lia|lia|lia|].
    exists h3, K3. split_and!; try done. by apply same_but_trans with L h2.
  - exists h2, K1. split_and!; try done. apply (runs_sorts _ _ _ _ _ R). lia.
Qed.
End list3_correct.

(** [merge_sort_list] on a linear list returns the head of a list of the same elements in
    order of the keys the callback compares by (elements with equal keys may change places),
    with the [next] links of such a list and, for two or more elements, the [prev] links. *)
Theorem merge_sort_list_correct (compare : heap -> option nat -> option nat -> res Z) (h : heap) (L : list nat)
    (key : nat -> Z) (fuel : nat) :
  compares_by_key compare (fun c => c <? 0)%Z key false L ->
  chain h L None -> NoDup L -> (forall x, x ∈ L -> val h x = Some (key x)) ->
  (2 * Z.of_nat (length L) <= INT_MAX)%Z -> length L < fuel ->
  exists h' K, merge_sort_list compare fuel (head L) h = Ok (h', head K) /\
    sorts key false L K /\ chain h' K None /\ (2 <= length L -> back h' None K) /\ same_but L h h'.
Proof.
  intros Hcmp Hc ND HV Hlen Hf. unfold merge_sort_list. destruct L as [|x [|y L0]] eqn:EL.
  - exists h, []. split; [done|]. split; [apply sorts_short; cbn; lia|]. done.
  - cbn in Hc |- *. destruct Hc as [(e & Ee & En)%nxt_load _]. rewrite Ee. cbn. rewrite En.
    exists h, [x]. split; [done|]. split; [apply sorts_short; cbn; lia|]. split; [|split; [lia|done]].
    split; [|done]. unfold nxt. rewrite Ee. cbn. by rewrite En.
  - rewrite <- EL in *. replace (head L) with (Some x) by (by rewrite EL).
    assert (He : exists e b, h !! x = Some e /\ next e = Some b).
    { rewrite EL in Hc. cbn in Hc. destruct Hc as [(e & Ee & En)%nxt_load _]. by exists e, y. }
    destruct He as (e & b & Ee & En). unfold load. rewrite Ee. cbn [mbind res_bind]. rewrite En.
    replace (Some x) with (head L) by (by rewrite EL).
    destruct (list_sort_loop_ok compare key L Hcmp Hlen fuel fuel 1 h L) as (h' & K & E & S & Lk & F);
      [lia|by split|apply runs_one|lia|by subst|lia|lia|by rewrite EL; cbn; lia|].
    exists h', K. split; [exact E|]. split; [done|]. split; [apply Lk|]. split; [|done]. intros _. by apply Lk.
Qed.

Lemma cmp_compares_lt key l : keys_fit key l -> compares_by_key cmp (fun c => c <? 0)%Z key false l.
Proof.
  intros Hk h x y Hx Hy Vx Vy. exists (key x - key y)%Z.
  unfold val in Vx, Vy. apply bind_Some in Vx as (ex & Ex & Ix). apply bind_Some in Vy as (ey & Ey & Iy).
  unfold cmp, load. rewrite Ex, Ey. cbn [mbind res_bind]. rewrite Ix, Iy, ck_ok by (by apply Hk).
  split; [done|]. unfold goes_right. destruct (Z.ltb_spec (key x - key y) 0), (Z.leb_spec (key y) (key x)); done || lia.
Qed.

(** * merge_sort_list on circular lists *)

(** A memory in which every [next] leads to a node: no list in it ends. *)
Definition endless (h : heap) : Prop := forall a v, nxt h a = Some v -> exists b, v = Some b /\ is_Some (h !! b).
Definition node_of (h : heap) (p : option nat) : Prop := exists a, p = Some a /\ is_Some (h !! a).

Section endless.
Context (compare : heap -> option nat -> option nat -> res Z).

Lemma endless_advance h p p' : endless h -> advance h false None p = Ok p' -> node_of h p /\ node_of h p'.
Proof.
  intros He E. unfold advance in E. destruct p as [a|]; [|discriminate]. cbn in E.
  destruct (h !! a) as [e|] eqn:Ea; [|discriminate]. cbn in E. injection E as <-.
  split; [by exists a; eauto|]. apply (He a). unfold nxt. by rewrite Ea.
Qed.

Lemma endless_set_next h p v h' : endless h -> node_of h v -> set_next h p v = Ok h' ->
  endless h' /\ forall q, node_of h q -> node_of h' q.
Proof.
  intros He Hv E. destruct p as [a|]; [|discriminate]. cbn in E. destruct (h !! a) as [e|] eqn:Ea; [|discriminate].
  injection E as <-.
  assert (Hd : forall b, is_Some (h !! b) -> is_Some (<[a:=Elem v (prev e) (i e)]> h !! b)).
  { intros b Hb. destruct (decide (b = a)) as [->|Hne]; [rewrite lookup_insert_eq; eauto|by rewrite lookup_insert_ne]. }
  split.
  - intros b w. unfold nxt. destruct (decide (b = a)) as [->|Hne].
    + rewrite lookup_insert_eq. cbn. intros [= <-]. destruct Hv as (c & -> & Hc). eauto.
    + rewrite lookup_insert_ne by done. intros Hw. destruct (He b w Hw) as (c & -> & Hc). eauto.
  - intros q (b & -> & Hb). exists b. eauto.
Qed.

Lemma endless_set_prev h p v h' : endless h -> set_prev h p v = Ok h' ->
  endless h' /\ forall q, node_of h q -> node_of h' q.
Proof.
  intros He E. destruct p as [a|]; [|discriminate]. cbn in E. destruct (h !! a) as [e|] eqn:Ea; [|discriminate].
  injection E as <-.
  assert (Hd : forall b, is_Some (h !! b) -> is_Some (<[a:=Elem (next e) v (i e)]> h !! b)).
  { intros b Hb. destruct (decide (b = a)) as [->|Hne]; [rewrite lookup_insert_eq; eauto|by rewrite lookup_insert_ne]. }
  split.
  - intros b w. unfold nxt. destruct (decide (b = a)) as [->|Hne].
    + rewrite lookup_insert_eq. cbn. intros [= <-]. destruct (He a (next e)) as (c & Ec & Hc); [unfold nxt; by rewrite Ea|]. eauto.
    + rewrite lookup_insert_ne by done. intros Hw. destruct (He b w Hw) as (c & -> & Hc). eauto.
  - intros q (b & -> & Hb). exists b. eauto.
Qed.

Lemma endless_append d h l t e m' : endless h -> node_of h e -> append d (h, l, t) e = Ok m' ->
  endless m'.1.1 /\ forall q, node_of h q -> node_of m'.1.1 q.
Proof.
  intros He Hn E. unfold append in E.
  apply bind_Ok_inv in E as ([h1 l1] & E1 & E).
  assert (H1 : endless h1 /\ forall q, node_of h q -> node_of h1 q).
  { destruct t; [|by injection E1 as <- <-]. apply bind_Ok_inv in E1 as (h2 & E1 & E2). injection E2 as <- <-.
    by apply (endless_set_next h (Some n) e). }
  destruct H1 as [He1 Hq1]. apply bind_Ok_inv in E as (h2 & E2 & E). injection E as <-. cbn [fst].
  destruct d; [|by injection E2 as <-].
  destruct (endless_set_prev _ _ _ _ He1 E2) as [He2 Hq2]. eauto.
Qed.

(** Both places of a merge stay on nodes. *)
Definition endless_merge (s : merged * two_runs) : Prop :=
  endless s.1.1.1 /\ node_of s.1.1.1 (p s.2) /\ node_of s.1.1.1 (q s.2).

Lemma endless_pick h r e r' : endless h -> node_of h (p r) -> node_of h (q r) ->
  pick compare (fun c => c <? 0)%Z h false None r = Ok (e, r') ->
  node_of h e /\ node_of h (p r') /\ node_of h (q r').
Proof.
  intros He Hp Hq E.
  assert (HP : forall e r', take_p h false None r = Ok (e, r') -> node_of h e /\ node_of h (p r') /\ node_of h (q r')).
  { intros e0 r0 E0. unfold take_p in E0. apply bind_Ok_inv in E0 as (p' & E1 & E2). injection E2 as <- <-.
    destruct (endless_advance _ _ _ He E1). done. }
  assert (HQ : forall e r', take_q h false None r = Ok (e, r') -> node_of h e /\ node_of h (p r') /\ node_of h (q r')).
  { intros e0 r0 E0. unfold take_q in E0. apply bind_Ok_inv in E0 as (p' & E1 & E2). injection E2 as <- <-.
    destruct (endless_advance _ _ _ He E1). done. }
  unfold pick in E. destruct (psize r =? 0)%Z; [eauto|].
  destruct ((qsize r =? 0)%Z || bool_decide (q r = None)); [eauto|].
  apply bind_Ok_inv in E as (c & _ & E). destruct (c <? 0)%Z; eauto.
Qed.

Lemma endless_merge_runs m r m' q' : endless m.1.1 -> node_of m.1.1 (p r) -> node_of m.1.1 (q r) ->
  merge_runs compare (fun c => c <? 0)%Z false true None m r = Ok (m', q') -> endless m'.1.1 /\ node_of m'.1.1 q'.
Proof.
  intros He Hp Hq E. unfold merge_runs in E.
  apply (loop_partial endless_merge (fun mq => endless mq.1.1.1 /\ node_of mq.1.1.1 mq.2)) in E; [done| |done].
  intros [m0 r0] (He0 & Hp0 & Hq0). cbn [fst snd] in *. unfold merge_step.
  destruct ((0 <? psize r0)%Z || _); [|done].
  destruct (pick _ _ _ _ _ r0) as [[e r1]|f] eqn:Epick; [|done]. cbn [mbind res_bind].
  destruct (endless_pick _ _ _ _ He0 Hp0 Hq0 Epick) as (Hn & Hp1 & Hq1).
  destruct (append true m0 e) as [m1|f] eqn:Eapp; [|done]. cbn [mbind res_bind].
  destruct m0 as [[h0 l0] t0]. destruct (endless_append _ _ _ _ _ _ He0 Hn Eapp) as [He1 Hq'].
  split; [done|]. split; apply Hq'; done.
Qed.

Lemma endless_cut_left h n : endless h -> forall a ps r s, node_of h a -> cut_left h n a ps = Ok (r, s) -> node_of h r.
Proof.
  intros He. induction n as [|n IH]; intros a ps r s Ha E; cbn in E; [by injection E as <- <-|].
  destruct Ha as (b & -> & Hb). apply bind_Ok_inv in E as (e & Ee & E). apply IH in E; [done|].
  cbn in Ee. destruct (h !! b) as [e0|] eqn:Eb; [|discriminate]. injection Ee as ->.
  apply (He b). unfold nxt. by rewrite Eb.
Qed.

Lemma endless_pass fuel n m left' nm r : endless m.1.1 -> node_of m.1.1 left' ->
  loop fuel (list_pass_step compare n) (m, left', nm) <> Ok r.
Proof.
  intros He Hl E.
  apply (loop_partial (fun s => endless s.1.1.1.1 /\ node_of s.1.1.1.1 s.1.2) (fun _ => False)) in E; [done| |done].
  intros [[m0 l0] nm0]. cbn [fst snd]. intros (He0 & Hl0). unfold list_pass_step.
  destruct Hl0 as (a & -> & Ha). destruct (ck (nm0 + 1)); [|done]. cbn [mbind res_bind].
  destruct (cut_left _ _ _ 0) as [[r0 s0]|f] eqn:Ec; [|done]. cbn [mbind res_bind].
  apply endless_cut_left in Ec; [|done|by exists a].
  destruct (merge_runs _ _ _ _ _ _ _) as [[m1 q1]|f] eqn:Em; [|done]. cbn [mbind res_bind].
  apply endless_merge_runs in Em; [done|done|by exists a|done].
Qed.
End endless.

Lemma endless_sort compare fuel list h :
  endless h -> is_Some (h !! list) -> forall r, merge_sort_list compare fuel (Some list) h <> Ok r.
Proof.
  intros He [e Ee] r. unfold merge_sort_list, load. rewrite Ee. cbn [mbind res_bind].
  destruct (He list (next e)) as (b & Eb & _); [unfold nxt; by rewrite Ee|]. rewrite Eb.
  destruct fuel as [|fuel]; [done|]. rewrite loop_step. unfold list_sort_step.
  destruct (loop (S fuel) (list_pass_step compare 1) _) as [res|f] eqn:E; [|done].
  exfalso. eapply (endless_pass compare); [| |exact E]; [done|]. exists list. split; [done|]. cbn. by rewrite Ee.
Qed.

(** On a list that does not end in a null pointer, such as the circular list headed by
    [client_lists->list], [merge_sort_list] never returns: no pass over it comes to an end. *)
Theorem merge_sort_list_spins (compare : heap -> option nat -> option nat -> res Z) (fuel : nat) (list : nat) (h : heap) :
  endless h -> is_Some (h !! list) -> ~ exists r, merge_sort_list compare fuel (Some list) h = Ok r.
Proof. intros He Hl [r E]. by apply endless_sort in E. Qed.

(** * The two programs on list heads *)
Section mains.
Context {K : Klist} {KL : KlistLaws K}.

Lemma linked_same h h' l c d :
  (forall x, nxt h' x = nxt h x) -> (forall x, prv h' x = prv h x) -> linked h c d l -> linked h' c d l.
Proof.
  intros Hn Hp [L1 L2]. split; [by apply chain_frame with h|]. intros Hd. apply back_frame with h; eauto.
Qed.

Lemma set_i_spec a c h : is_Some (h !! a) ->
  exists h', set_i a c h = Ok h' /\ (forall x, nxt h' x = nxt h x) /\ (forall x, prv h' x = prv h x) /\
    val h' a = Some c /\ (forall x, x <> a -> h' !! x = h !! x) /\ is_Some (h' !! a).
Proof.
  intros [e Ee]. unfold set_i. rewrite Ee. eexists. split; [done|]. unfold nxt, prv, val. split_and!.
  - intros x. destruct (decide (x = a)) as [->|Hne]; [by rewrite lookup_insert_eq, Ee|by rewrite lookup_insert_ne].
  - intros x. destruct (decide (x = a)) as [->|Hne]; [by rewrite lookup_insert_eq, Ee|by rewrite lookup_insert_ne].
  - by rewrite lookup_insert_eq.
  - intros x Hx. by rewrite lookup_insert_ne.
  - rewrite lookup_insert_eq. eauto.
Qed.

(** The head at 0 with the nodes 1 .. [j] on its list; the nodes up to [n] are still as allocated. *)
Record listed (hi : option Z) (n j : nat) (h : heap) : Prop := {
  ls_linked : linked h true true (0 :: seq 1 j);
  ls_head : val h 0 = hi;
  ls_vals : forall a, 1 <= a <= j -> exists c, val h a = Some c /\ (1 <= c <= 9)%Z;
  ls_rest : forall a, j < a -> h !! a = fresh_nodes hi n !! a;
}.

Lemma fresh_lookup hi n a : is_Some (fresh_nodes hi n !! a) <-> a <= n.
Proof.
  unfold fresh_nodes. destruct (decide (a = 0)) as [->|Hne]; [rewrite lookup_insert_eq; split; [lia|eauto]|].
  rewrite lookup_insert_ne by done. rewrite <- not_eq_None_Some, <- not_elem_of_list_to_map.
  rewrite <- list_fmap_compose. cbn. rewrite list_elem_of_fmap. setoid_rewrite elem_of_seq.
  destruct (decide (a <= n)) as [Hle|Hgt]; split; intros HH; try lia.
  - intros Hc. apply Hc. exists (a - 1). cbn. lia.
  - exfalso. apply HH. intros (y & -> & Hy). cbn in *. lia.
Qed.

Lemma add_nodes_ok hi n rnd : forall j h, listed hi n j h -> j + length rnd <= n ->
  exists h', add_nodes j rnd h = Ok h' /\ listed hi n (j + length rnd) h'.
Proof.
  induction rnd as [|r rnd IH]; intros j h HL Hn; [exists h; by rewrite Nat.add_0_r|]. cbn [length] in Hn.
  assert (Hj : is_Some (h !! S j)) by (rewrite (ls_rest _ _ _ _ HL) by lia; apply fresh_lookup; lia).
  destruct (set_i_spec (S j) (1 + r mod 9)%Z h Hj) as (h1 & E1 & N1 & P1 & V1 & F1 & D1).
  destruct (add_tail_law (S j) 0 (seq 1 j) h1) as (h2 & E2 & L2 & V2 & F2);
    [by apply linked_same with h; [..|apply HL]| |done|].
  { apply NoDup_cons. split; [rewrite elem_of_cons, elem_of_seq; lia|apply (NoDup_seq 0 (S j))]. }
  assert (HS : seq 1 j ++ [S j] = seq 1 (S j)) by (by rewrite seq_S).
  rewrite HS in *.
  destruct (IH (S j) h2) as (h3 & E3 & L3); [|lia|].
  - split; [done| | |].
    + rewrite V2. unfold val. rewrite F1 by done. apply HL.
    + intros a Ha. rewrite V2. destruct (decide (a = S j)) as [->|Hne].
      { eexists. split; [done|]. pose proof (Z.mod_pos_bound r 9 ltac:(lia)). lia. }
      unfold val. rewrite F1 by done. apply (ls_vals _ _ _ _ HL a). lia.
    + intros a Ha. rewrite F2, F1 by (rewrite ?elem_of_cons, ?elem_of_seq; lia). apply HL. lia.
  - exists h3. cbn [add_nodes length]. rewrite E1. cbn [mbind res_bind]. rewrite E2. cbn [mbind res_bind].
    split; [done|]. by replace (j + S (length rnd)) with (S j + length rnd) by lia.
Qed.

Lemma nodes_ok hi rnd : length rnd = 10 ->
  exists h, (h ← INIT_LIST_HEAD 0 (fresh_nodes hi 10); add_nodes 0 rnd h) = Ok h /\ listed hi 10 10 h.
Proof.
  intros Hr. destruct (init_law 0 (fresh_nodes hi 10)) as (h & E & L & V & F); [apply fresh_lookup; lia|].
  rewrite E. cbn [mbind res_bind]. destruct (add_nodes_ok hi 10 rnd 0 h) as (h' & E' & L'); [|lia|].
  - split; [done| |lia|].
    + by rewrite V.
    + intros a Ha. apply F. rewrite list_elem_of_singleton. lia.
  - exists h'. split; [done|]. by rewrite Hr in L'.
Qed.

(** What is printed of nodes with known integers. *)
Lemma print_nodes_keys key l h : linked h true true (0 :: l) -> NoDup (0 :: l) ->
  (forall x, x ∈ l -> val h x = Some (key x)) -> print_nodes h = Ok (key <$> l).
Proof.
  intros HL ND HV. unfold print_nodes. rewrite (for_each_law 0 l) by done. cbn [mbind res_bind].
  clear HL ND. induction l as [|x l IH]; [done|]. cbn [foldr fmap list_fmap].
  pose proof (HV x ltac:(by left)) as (e & Ee & Ie)%bind_Some.
  assert (El : load h (Some x) = Ok e) by (cbn; by rewrite Ee).
  rewrite El. cbn [mbind res_bind]. rewrite Ie, IH; [done|]. intros y Hy. apply HV. by right.
Qed.

(** The integer of a node that has one. *)
Definition int_at (h : heap) (a : nat) : Z := default 0%Z (val h a).

Lemma listed_ints hi h : listed hi 10 10 h -> forall x, x ∈ seq 1 10 ->
  val h x = Some (int_at h x) /\ (1 <= int_at h x <= 9)%Z.
Proof.
  intros HL x Hx%elem_of_seq. destruct (ls_vals _ _ _ _ HL x) as (c & Hc & Hb); [lia|].
  unfold int_at. rewrite Hc. done.
Qed.

Lemma print_nodes_ok hi h : listed hi 10 10 h -> print_nodes h = Ok (int_at h <$> seq 1 10).
Proof.
  intros HL. apply print_nodes_keys; [apply HL|apply (NoDup_seq 0 11)|]. intros x Hx.
  by destruct (listed_ints hi h HL x Hx).
Qed.

(** The sort of a circular list reads the integer of its head first. *)
Lemma listsort2_head h a b d fuel :
  nxt h a = Some (Some b) -> b <> a -> is_Some (h !! b) -> val h a = None ->
  listsort2 (S fuel) true d (Some a) h = Stop OutOfBounds.
Proof.
  intros (e & Ee & En)%nxt_load Hne [e' Ee'] Hv. unfold listsort2. rewrite loop_step. unfold sort_step, pass.
  rewrite loop_step. unfold pass_step. cbn [fst]. change (ck (0 + 1)) with (Ok 1%Z). cbn [mbind res_bind].
  change (Z.to_nat 1) with 1. cbn [step_along]. unfold advance, load. rewrite Ee. cbn [mbind res_bind]. rewrite En.
  rewrite bool_decide_eq_false_2 by (by intros [=]). cbn [andb]. cbn [mbind res_bind]. unfold merge_runs. cbn [psize qsize].
  change (Z.to_nat (0 + 1 + 1)) with 2. rewrite (loop_step 2).  unfold merge_step. cbn [psize qsize q p fst].
  unfold pick. cbn [psize qsize q p]. rewrite bool_decide_eq_false_2 by done. cbn.
  unfold val in Hv. rewrite Ee in Hv. cbn in Hv. unfold cmp, load. rewrite Ee, Ee'. cbn [mbind res_bind]. by rewrite Hv.
Qed.

(** Whatever numbers [random] gives, the program of merge_sort_link_list2.c reads
    outside its nodes: it sorts the list together with its head, a bare [list_head] whose
    [client_node] does not exist. *)
Theorem merge_sort_link_list2_out_of_bounds (rnd : list Z) :
  length rnd = 10 -> merge_sort_link_list2_main rnd = Stop OutOfBounds.
Proof.
  intros Hr. destruct (nodes_ok None rnd Hr) as (h & E & HL). unfold merge_sort_link_list2_main.
  apply bind_Ok_inv in E as (h0 & E0 & E). rewrite E0. cbn [mbind res_bind]. rewrite E. cbn [mbind res_bind].
  rewrite (print_nodes_ok _ _ HL). cbn [mbind res_bind].
  destruct (linked_next _ _ _ _ (ls_linked _ _ _ _ HL)) as [H0 [H1 _]].
  rewrite (listsort2_head h 0 1); [done|done|done|by apply nxt_is_Some in H1|apply HL].
Qed.

(** The program of merge_sort_link_list3.c prints its list and never comes back from the
    sort, whatever numbers [random] gives. *)
Theorem merge_sort_link_list3_never_ends (fuel : nat) (rnd : list Z) :
  length rnd = 10 -> forall r, merge_sort_link_list3_main fuel rnd <> Ok r.
Proof.
  intros Hr r E. destruct (nodes_ok (Some 0%Z) rnd Hr) as (h & E1 & HL). unfold merge_sort_link_list3_main in E.
  apply bind_Ok_inv in E1 as (h0 & E0 & E1). rewrite E0 in E. cbn [mbind res_bind] in E. rewrite E1 in E.
  cbn [mbind res_bind] in E. apply bind_Ok_inv in E as (out & _ & E). apply bind_Ok_inv in E as ([h' l'] & E & _).
  revert E. apply endless_sort.
  - intros a v Hv.
    assert (Ha : a <= 10).
    { destruct (decide (a <= 10)) as [Hle|Hgt]; [done|]. exfalso. apply nxt_is_Some in Hv.
      rewrite (ls_rest _ _ _ _ HL) in Hv by lia. apply fresh_lookup in Hv. lia. }
    pose proof (linked_next _ _ _ _ (ls_linked _ _ _ _ HL)) as HC. cbn in HC.
    repeat match type of HC with _ /\ _ => let H1 := fresh "N" in destruct HC as [H1 HC] end.
    do 11 (destruct a as [|a]; [match goal with H : nxt h ?x = Some _, Hv : nxt h ?x = Some v |- _ => rewrite H in Hv end;
      injection Hv as <-; eexists; split; [done|]; eapply nxt_is_Some; eassumption|]). lia.
  - pose proof (linked_next _ _ _ _ (ls_linked _ _ _ _ HL)) as [HC _]. by apply nxt_is_Some in HC.
Qed.
End mains.

(** * A klist *)

(** The operations as the Linux kernel has them satisfy the laws. *)
Definition kinit (a : nat) (h : heap) : res heap := h ← set_next h (Some a) (Some a); set_prev h (Some a) (Some a).
Definition kadd_tail (x a : nat) (h : heap) : res heap :=
  e ← load h (Some a);
  h ← set_prev h (Some a) (Some x);
  h ← set_next h (Some x) (Some a);
  h ← set_prev h (Some x) (prev e);
  set_next h (prev e) (Some x).
Definition kfor_each (a : nat) (h : heap) : res (list nat) :=
  e ← load h (Some a);
  loop (S (size h)) (fun '(p, out) =>
    if bool_decide (p = Some a) then Ok (inr out)
    else e ← load h p; match p with None => Stop NullDeref | Some b => Ok (inl (next e, out ++ [b])) end) (next e, []).
#[export] Instance kernel_klist : Klist := {
  INIT_LIST_HEAD := kinit; list_add_tail := kadd_tail; list_for_each_safe := kfor_each }.

Lemma kinit_law a h : is_Some (h !! a) ->
  exists h', kinit a h = Ok h' /\ linked h' true true [a] /\ same_but [a] h h'.
Proof.
  intros Ha. destruct (set_next_spec h a (Some a) Ha) as (h1 & E1 & A1 & N1 & P1 & V1 & F1).
  destruct (set_prev_spec h1 a (Some a) (nxt_is_Some _ _ _ A1)) as (h2 & E2 & A2 & P2 & N2 & V2 & F2).
  exists h2. split; [unfold kinit; by rewrite E1|]. split; [split; [|intros _]; cbn|split].
  - by rewrite N2.
  - done.
  - intros y. by rewrite V2.
  - intros y Hy. rewrite list_elem_of_singleton in Hy. by rewrite F2, F1.
Qed.

Lemma kadd_tail_law x a l h : linked h true true (a :: l) -> NoDup (x :: a :: l) -> is_Some (h !! x) ->
  exists h', kadd_tail x a h = Ok h' /\ linked h' true true (a :: l ++ [x]) /\ same_but (a :: l ++ [x]) h h'.
Proof.
  intros [Ln Lp] ND Hx. specialize (Lp eq_refl). cbn [head] in Ln.
  apply NoDup_cons in ND as [Hxl ND]. pose proof ND as ND'. apply NoDup_cons in ND' as [Hal _].
  assert (Hxa : x <> a) by (intros ->; apply Hxl; by left).
  destruct (last (a :: l)) as [t|] eqn:Ht; [|by apply last_None in Ht].
  apply last_Some in Ht as [m Em].
  assert (Hpa : prv h a = Some (Some t)) by apply Lp.
  assert (Hxt : x <> t) by (intros ->; apply Hxl; rewrite Em; apply elem_of_app; right; by left).
  rewrite Em in ND. apply NoDup_app in ND as (NDm & Hdm & _).
  assert (Htm : t ∉ m) by (intros H; apply (Hdm t H); by left).
  pose proof Ln as Lna. destruct Lna as [Hna _].
  rewrite Em in Ln. apply chain_app in Ln as [Lm [Lt _]]. cbn [hd_or] in Lt.
  destruct (set_prev_spec h a (Some x) (nxt_is_Some _ _ _ Hna)) as (h1 & E1 & A1 & P1 & N1 & V1 & F1).
  assert (Hx1 : is_Some (h1 !! x)) by (by rewrite F1).
  destruct (set_next_spec h1 x (Some a) Hx1) as (h2 & E2 & A2 & N2 & P2 & V2 & F2).
  destruct (set_prev_spec h2 x (Some t) (nxt_is_Some _ _ _ A2)) as (h3 & E3 & A3 & P3 & N3 & V3 & F3).
  assert (Ht3 : is_Some (h3 !! t)) by (apply (nxt_is_Some _ _ (Some a)); by rewrite N3, N2, N1).
  destruct (set_next_spec h3 t (Some x) Ht3) as (h4 & E4 & A4 & N4 & P4 & V4 & F4).
  exists h4. split.
  { unfold kadd_tail. unfold prv in Hpa. apply fmap_Some in Hpa as (e & Ee & Ep). symmetry in Ep.
    assert (El : load h (Some a) = Ok e) by (cbn; by rewrite Ee).
    rewrite El. cbn [mbind res_bind]. rewrite E1. cbn [mbind res_bind]. rewrite E2. cbn [mbind res_bind].
    rewrite Ep, E3. exact E4. }
  split; [split|].
  - rewrite app_comm_cons, Em, <- (assoc_L app). cbn [app]. apply chain_app. cbn [hd_or chain].
    split; [|split; [|split; [|done]]].
    + apply chain_frame with h; [|done]. intros y Hy.
      rewrite N4, N3, N2, N1; [done|intros ->|intros ->]; [|done].
      apply Hxl. rewrite Em. apply elem_of_app. by left.
    + done.
    + rewrite N4, N3 by done. rewrite A2. cbn. by destruct m; cbn in Em; injection Em as -> _.
  - intros _. rewrite app_comm_cons, last_snoc. cbn [app back]. split; [by rewrite P4, P3, P2|].
    apply back_snoc. destruct Lp as [_ Lp]. split.
    + apply back_frame with h; [|done]. intros y Hy.
      rewrite P4, P3, P2, P1; [done|by intros ->|intros ->]. apply Hxl. by right.
    + rewrite P4, A3. f_equal. clear -Em. destruct l as [|y l _] using rev_ind.
      * destruct m as [|? []]; by injection Em as ->.
      * rewrite last_snoc. rewrite app_comm_cons in Em. by apply app_inj_tail in Em as [_ ->].
  - split; [intros y; by rewrite V4, V3, V2|]. intros y Hy.
    rewrite app_comm_cons, not_elem_of_app, list_elem_of_singleton in Hy. destruct Hy as [Hy Hyx].
    rewrite F4, F3, F2, F1; [done|..|done|done|].
    + intros ->. apply Hy. by left.
    + intros ->. apply Hy. rewrite Em. apply elem_of_app. right. by left.
Qed.

Lemma kwalk_ok h a fuel : forall l out, chain h l (Some a) -> a ∉ l -> length l < fuel ->
  loop fuel (fun '(p, out) =>
    if bool_decide (p = Some a) then Ok (inr out)
    else e ← load h p; match p with None => Stop NullDeref | Some b => Ok (inl (next e, out ++ [b])) end)
    (hd_or l (Some a), out) = Ok (out ++ l).
Proof.
  induction fuel as [|fuel IH]; intros l out Hc Ha Hf; [lia|]. rewrite loop_step. destruct l as [|x l]; cbn [hd_or].
  - rewrite bool_decide_eq_true_2 by done. by rewrite app_nil_r.
  - apply not_elem_of_cons in Ha as [Hx Ha]. rewrite bool_decide_eq_false_2 by congruence.
    destruct Hc as [(e & Ee & En)%nxt_load Hc]. unfold load at 1. rewrite Ee. cbn [mbind res_bind]. rewrite En.
    rewrite (IH l); [by rewrite <- (assoc_L app)|done|done|cbn in Hf; lia].
Qed.

Lemma chain_in_dom h l e x : chain h l e -> x ∈ l -> x ∈ dom h.
Proof.
  induction l as [|y l IH]; intros Hc Hx; [by apply not_elem_of_nil in Hx|]. destruct Hc as [Hy Hc].
  apply elem_of_cons in Hx as [->|Hx]; [|by apply IH]. by apply elem_of_dom, (nxt_is_Some _ _ _ Hy).
Qed.

#[export] Instance kernel_klist_laws : KlistLaws kernel_klist.
Proof.
  split; [exact kinit_law|exact kadd_tail_law|].
  intros a l h [Ln _] ND. cbn [head] in Ln. change (kfor_each a h = Ok l).
  pose proof Ln as Ln'. destruct Ln' as [(e & Ee & En)%nxt_load Hc].
  unfold kfor_each. assert (El : load h (Some a) = Ok e) by (cbn; by rewrite Ee). rewrite El. cbn [mbind res_bind].
  rewrite En. apply NoDup_cons in ND as [Ha ND]. apply (kwalk_ok h a (S (size h)) l []); [done|done|].
  assert (Hsub : list_to_set l ⊆ dom h).
  { intros x Hx. rewrite elem_of_list_to_set in Hx. apply (chain_in_dom _ _ _ _ Hc Hx). }
  apply subseteq_size in Hsub. rewrite size_dom, size_list_to_set in Hsub by done. lia.
Qed.

Definition line_nodes : heap :=
  {[ 0 := Elem (Some 1) None (Some 5%Z); 1 := Elem (Some 2) None (Some 3%Z); 2 := Elem None None (Some 3%Z) ]}.

Lemma merge_sort_list_correct_witness :
  exists h' K, merge_sort_list cmp 4 (Some 0) line_nodes = Ok (h', head K) /\
    sorts three_keys false [0; 1; 2] K /\ chain h' K None /\ (2 <= 3 -> back h' None K) /\ same_but [0; 1; 2] line_nodes h'.
Proof.
  apply (merge_sort_list_correct cmp line_nodes [0; 1; 2] three_keys 4).
  - apply cmp_compares_lt. intros x y _ _. destruct x as [|[|x]], y as [|[|y]]; vm_compute; split; discriminate.
  - cbn. split_and!; reflexivity.
  - decide_now.
  - intros x Hx. repeat (apply elem_of_cons in Hx as [->|Hx]; [reflexivity|]). by apply not_elem_of_nil in Hx.
  - vm_compute. discriminate.
  - cbn. lia.
Defined.

(** The two equal elements of [line_nodes] change places. *)
Example merge_sort_list_unstable : match merge_sort_list cmp 4 (Some 0) line_nodes with
  | Ok (h, p) => bool_decide (p = Some 2 /\ nxt h 2 = Some (Some 1) /\ nxt h 1 = Some (Some 0) /\ nxt h 0 = Some None)
  | Stop _ => false end = true.
Proof. vm_compute. reflexivity. Qed.

Lemma merge_sort_list_spins_witness : ~ exists r, merge_sort_list cmp 100 (Some 0) three_nodes = Ok r.
Proof.
  apply (merge_sort_list_spins cmp 100 0 three_nodes).
  - intros a v Hv. destruct a as [|[|[|a]]].
    + injection Hv as <-. exists 1. split; [reflexivity|]. eexists. reflexivity.
    + injection Hv as <-. exists 2. split; [reflexivity|]. eexists. reflexivity.
    + injection Hv as <-. exists 0. split; [reflexivity|]. eexists. reflexivity.
    + exfalso. unfold nxt, three_nodes in Hv. rewrite !lookup_insert_ne in Hv by lia. by rewrite lookup_singleton_ne in Hv by lia.
  - eexists. reflexivity.
Defined.

Lemma merge_sort_link_list2_out_of_bounds_witness :
  merge_sort_link_list2_main [4; 8; 15; 16; 23; 42; 0; 1; 2; 3]%Z = Stop OutOfBounds.
Proof. apply merge_sort_link_list2_out_of_bounds. reflexivity. Defined.

Lemma merge_sort_link_list3_never_ends_witness :
  forall r, merge_sort_link_list3_main 1000 [4; 8; 15; 16; 23; 42; 0; 1; 2; 3]%Z <> Ok r.
Proof. apply merge_sort_link_list3_never_ends. reflexivity. Defined.
