(* ===== verification/MemPool.v ===== *)
(** The memory pool of fixed-size objects of src/mem_pool/mem_pool.c, and what it shares with
    src/mmpool/mmpool.c (MmPool.v): both keep a table of rows, each row one [malloc]ed block: a header, then the objects.
    An object's address is the number of its block and a byte offset.  [malloc], [calloc] and
    [realloc] are the C library's, as in NodePool.v. *)
From S2P Require Import Prelude.
From S2P Require NodePool.
From Stdlib Require Import Ascii.
Import NodePool (slot, SNull, SGarbage, SRow, resized).
Notation addr := NodePool.addr.

(** The allocator's request number, and the headers of the blocks that are rows. *)
Record world : Type := World { reqs : nat; rows : gmap nat (list (option addr)) }.

(** Conversion of a [size_t] to [int], modulo 2^32. *)
Definition to_int (z : Z) : Z := (u64 z + 2 ^ 31) mod 2 ^ 32 - 2 ^ 31.

Section pool.
Context (avail : nat -> bool).

Definition malloc (sz : Z) : M world (option nat) := fun w =>
  let '(b, req) := NodePool.malloc avail (reqs w) sz in Ok (b, World req (rows w)).

(** [ptr[k]] used as a row. *)
Definition row_at (l : list slot) (k : Z) : res (option nat) :=
  s ← aget l k;
  match s with SNull => Ok None | SRow r => Ok (Some r) | SGarbage => Stop Uninit end.

(** The header of a row, which [free] takes away. *)
Definition get_hdr (r : nat) : M world (list (option addr)) := fun w =>
  match rows w !! r with Some h => Ok (h, w) | None => Stop Dangling end.
Definition set_hdr (r : nat) (h : list (option addr)) : M world unit :=
  modify (fun w => World (reqs w) (<[r := h]> (rows w))).
Definition free_row (r : option nat) : M world unit := fun w =>
  match r with
  | None => Ok (tt, w)
  | Some r => match rows w !! r with Some _ => Ok (tt, World (reqs w) (delete r (rows w))) | None => Stop Dangling end
  end.

(** * src/mem_pool/mem_pool.c *)
Record mem_pool : Type := Pool {
  ptr : option (list slot);
  x : Z;
  y : Z;
  NX : Z;
  NY : Z;
  NOBJ : Z;
  memused : Z;
}.

(** The sizes of [struct mem_pool] and of a pointer. *)
Definition sizeof_mem_pool : Z := 40.
Definition sizeof_ptr : Z := 8.

Definition mp_create (objsize y : Z) : M world (option mem_pool) :=
  if (objsize <=? 0)%Z then mret None
  else
    let y := if (y <? 1)%Z then 1%Z else y in
    p ← malloc sizeof_mem_pool;
    match p with
    | None => stop AssertFailed
    | Some _ =>
        t ← malloc (10 * sizeof_ptr);
        match t with
        | None => stop AssertFailed
        | Some _ =>
            mret (Some (Pool (Some (replicate 10 SNull)) 0 0 10 y objsize (sizeof_mem_pool + 10 * sizeof_ptr)))
        end
    end.

(** [if(mp->x == mp->NX - 1){ ... }]: whether the table could be grown, and the pool. *)
Definition mp_grow (mp : mem_pool) : M world (bool * mem_pool) :=
  if (x mp =? NX mp - 1)%Z then
    NX2 ← lift (ck (NX mp * 2));
    t ← malloc (u64 (NX2 * sizeof_ptr));
    match t with
    | None => mret (false, Pool None (x mp) (y mp) (NX mp) (NY mp) (NOBJ mp) (memused mp))
    | Some _ =>
        let t := resized (default [] (ptr mp)) NX2 in
        let t := take (Z.to_nat (NX mp)) t ++ replicate (Z.to_nat (NX mp)) SNull in
        mret (true, Pool (Some t) (x mp) (y mp) NX2 (NY mp) (NOBJ mp) (u64 (memused mp + NX mp * sizeof_ptr)))
    end
  else mret (true, mp).

(** The current row, made when there is none yet: the row and the pool, or no row. *)
Definition mp_row (HDRLEN : Z) (mp : mem_pool) : M world (option nat * mem_pool) :=
  match ptr mp with
  | None => stop NullDeref
  | Some t =>
      row ← lift (row_at t (x mp));
      match row with
      | Some r => mret (Some r, mp)
      | None =>
          objs ← lift (ck (NY mp * NOBJ mp));
          sz ← lift (ck (HDRLEN + objs));
          b ← malloc (u64 sz);
          match b with
          | None => mret (None, mp)
          | Some r =>
              if (HDRLEN <? 0)%Z || (sz <? HDRLEN)%Z then stop OutOfBounds
              else
                set_hdr r (replicate (Z.to_nat (HDRLEN / sizeof_ptr)) None);;
                t ← lift (aset t (x mp) (SRow r));
                mret (Some r, Pool (Some t) (x mp) (y mp) (NX mp) (NY mp) (NOBJ mp) (u64 (memused mp + sz)))
          end
      end
  end.

(** [++mp->y; ...] *)
Definition mp_advance (mp : mem_pool) : mem_pool :=
  if (y mp + 1 =? NY mp)%Z
  then Pool (ptr mp) (x mp + 1) 0 (NX mp) (NY mp) (NOBJ mp) (memused mp)
  else Pool (ptr mp) (x mp) (y mp + 1) (NX mp) (NY mp) (NOBJ mp) (memused mp).

Definition mp_alloc (mp : mem_pool) : M world (option addr * mem_pool) :=
  '(grown, mp) ← mp_grow mp;
  if negb grown then mret (None, mp)
  else
    let HDRLEN := to_int (NY mp * sizeof_ptr) in
    '(row, mp) ← mp_row HDRLEN mp;
    match row with
    | None => mret (None, mp)
    | Some r =>
        off ← lift (ck (NOBJ mp * y mp));
        let a := (r, HDRLEN + off)%Z in
        hdr ← get_hdr r;
        hdr ← lift (aset hdr (y mp) (Some a));
        set_hdr r hdr;;
        mret (Some a, mp_advance mp)
    end.

(** The scan of a row's header for [p], [todo] columns left: whether it was found and cleared. *)
Fixpoint clear_col (r : nat) (p : addr) (i : Z) (todo : nat) : M world bool :=
  match todo with
  | O => mret false
  | S todo =>
      hdr ← get_hdr r;
      s ← lift (aget hdr i);
      if bool_decide (s = Some p) then hdr ← lift (aset hdr i None); set_hdr r hdr;; mret true
      else clear_col r p (i + 1) todo
  end.

Fixpoint free_scan (t : list slot) (NY : Z) (p : addr) (x : Z) (todo : nat) : M world unit :=
  match todo with
  | O => mret tt
  | S todo =>
      row ← lift (row_at t x);
      match row with
      | None => mret tt
      | Some r =>
          found ← clear_col r p 0 (Z.to_nat NY);
          if (found : bool) then mret tt else free_scan t NY p (x + 1) todo
      end
  end.

(** [mp_free] of an object; the null pool and the null object are nothing to do. *)
Definition mp_free (mp : option mem_pool) (p : option addr) : M world unit :=
  match mp, p with
  | Some mp, Some p =>
      match ptr mp with
      | None => if (x mp =? 0)%Z then mret tt else stop NullDeref
      | Some t => free_scan t (NY mp) p 0 (Z.to_nat (x mp))
      end
  | _, _ => mret tt
  end.

(** [for(x = 0; x != mp->x; ++x) free(mp->ptr[x]);] *)
Fixpoint free_rows (t : list slot) (x : Z) (todo : nat) : M world unit :=
  match todo with
  | O => mret tt
  | S todo => r ← lift (row_at t x); free_row r;; free_rows t (x + 1) todo
  end.

(** ** The dump of the current row's header

    [snprintf(out + n, len - n, ...)]: the difference becomes a [size_t]; a size of 0 writes
    nothing, otherwise the text and a NUL are written as far as the size goes. *)
Definition snprintf_at (out : list ascii) (n len : Z) (s : list ascii) : res (list ascii) :=
  let sz := u64 (len - n) in
  if (sz =? 0)%Z then Ok out
  else
    let w := (if (Z.of_nat (length s) <? sz)%Z then s else take (Z.to_nat (sz - 1)) s) ++ ["000"%char] in
    if (0 <=? n)%Z && (n + Z.of_nat (length w) <=? Z.of_nat (length out))%Z
    then Ok (take (Z.to_nat n) out ++ w ++ drop (Z.to_nat n + length w) out)
    else Stop OutOfBounds.

Context (fmt_p : option addr -> list ascii).

(** The loop over the columns: the buffer and the number of characters. *)
Fixpoint dump_cols (hdr : list (option addr)) (i : Z) (todo : nat) (len elen : Z) (out : list ascii) (n : Z)
    : res (list ascii * Z) :=
  match todo with
  | O => Ok (out, n)
  | S todo =>
      if (len - (n + 10 + elen) <=? 0)%Z
      then out ← snprintf_at out n len ["."; "."; "."]%char; Ok (out, n + 3)%Z
      else
        s ← aget hdr i;
        let text := fmt_p s ++ [","; " "]%char in
        out ← snprintf_at out n len text;
        dump_cols hdr (i + 1) todo len elen out (n + Z.of_nat (length text))
  end.

Definition mp_sdump_hdr (mp : mem_pool) (c : Z) (out : list ascii) (len : Z) (beg end_ : list ascii)
    : M world (list ascii) :=
  if negb ((0 <? c)%Z && (0 <? len)%Z) then mret out
  else
    out ← lift (aset out 0 "000"%char);
    let c := Z.min c (NY mp) in
    match ptr mp with
    | None => stop NullDeref
    | Some t =>
        row ← lift (row_at t (x mp));
        match row with
        | None => lift (snprintf_at out 0 len (beg ++ end_))
        | Some r =>
            hdr ← get_hdr r;
            out ← lift (snprintf_at out 0 len beg);
            '(out, n) ← lift (dump_cols hdr 0 (Z.to_nat c) len (Z.of_nat (length end_)) out (Z.of_nat (length beg)));
            lift (snprintf_at out n len end_)
        end
    end.

(** [mp_destroy]; a build without NDEBUG dumps the header first. *)
Definition mp_destroy (ndebug : bool) (mp : option mem_pool) : M world unit :=
  match mp with
  | None => mret tt
  | Some mp =>
      (if ndebug then mret []
       else mp_sdump_hdr mp (NY mp) ("000"%char :: replicate 511 "?"%char) 512 ["["]%char ["]"]%char);;
      match ptr mp with
      | None => if (x mp =? 0)%Z then mret tt else stop NullDeref
      | Some t => free_rows t 0 (Z.to_nat (x mp))
      end
  end.

(** ** The tests *)

(** [atoi]: white space, a sign, digits; a value outside [int] is undefined. *)
Definition digit (c : ascii) : option Z :=
  let k := Z.of_nat (nat_of_ascii c) in if (48 <=? k)%Z && (k <=? 57)%Z then Some (k - 48)%Z else None.
Fixpoint digits (s : list ascii) (acc : Z) : Z :=
  match s with
  | [] => acc
  | c :: s => match digit c with Some d => digits s (acc * 10 + d) | None => acc end
  end.
Definition is_space (c : ascii) : bool :=
  let k := Z.of_nat (nat_of_ascii c) in (k =? 32)%Z || ((9 <=? k)%Z && (k <=? 13)%Z).
Fixpoint atoi (s : list ascii) : res Z :=
  match s with
  | [] => Ok 0%Z
  | c :: s' =>
      if is_space c then atoi s'
      else if bool_decide (c = "-"%char) then ck (- digits s' 0)
      else if bool_decide (c = "+"%char) then ck (digits s' 0)
      else ck (digits s 0)
  end.

(** The options [-n] and [-m]: the count and the method. *)
Fixpoint mp_options (argv : list (list ascii)) (n method : Z) : res (Z * Z) :=
  match argv with
  | [] => Ok (n, method)
  | arg :: argv =>
      n ← (if bool_decide (take 2 arg = ["-"; "n"]%char) then atoi (drop 2 arg) else Ok n);
      method ← (if bool_decide (take 2 arg = ["-"; "m"]%char) then atoi (drop 2 arg) else Ok method);
      mp_options argv n method
  end.

(** The loop that allocates and fills the nodes.  [now] is what [time] gives in each round; a line
    of output is the count so far, the failures, and the fields of the node. *)
Fixpoint mp_test_loop (now : Z -> Z) (objsize : Z) (by_pool : bool) (l_of : Z -> res Z) (todo : nat) (i failed startt : Z)
    (mp : mem_pool) (out : list (Z * Z * Z)) : M world (Z * mem_pool * list (Z * Z * Z)) :=
  match todo with
  | O => mret (failed, mp, out)
  | S todo =>
      '(node, mp) ← (if by_pool then '(a, mp) ← mp_alloc mp; mret (bool_decide (a = None), mp)
                     else a ← malloc objsize; mret (bool_decide (a = None), mp));
      if (node : bool) then mp_test_loop now objsize by_pool l_of todo (i + 1) (failed + 1) startt mp out
      else
        l ← lift (l_of i);
        if (0 <? now i - startt)%Z
        then mp_test_loop now objsize by_pool l_of todo (i + 1) failed (now i) mp (out ++ [((i + 1)%Z, failed, l)])
        else mp_test_loop now objsize by_pool l_of todo (i + 1) failed startt mp out
  end.

Definition mp_test (now : Z -> Z) (objsize y : Z) (l_of : Z -> res Z) (argv : list (list ascii))
    : M world (Z * list (Z * Z * Z)) :=
  '(n, method) ← lift (mp_options argv 10000000 0);
  let n := if (n <=? 0)%Z then 10000000%Z else n in
  mp ← mp_create objsize y;
  match mp with
  | None => mret ((-1)%Z, [])
  | Some mp =>
      '(_, mp, out) ← mp_test_loop now objsize (method =? 0)%Z l_of (Z.to_nat n) 0 0 (now (-1)%Z) mp [];
      mp_destroy false (Some mp);;
      mret (0%Z, out)
  end.

(** The [struct list_node] of 536 bytes and the [struct client_node] of 16408 bytes. *)
Definition mp_test1_main (now : Z -> Z) : list (list ascii) -> M world (Z * list (Z * Z * Z)) :=
  mp_test now 536 50 (fun i => ck (i * 2)).
Definition mp_test2_main (now : Z -> Z) : list (list ascii) -> M world (Z * list (Z * Z * Z)) :=
  mp_test now 16408 128 (fun i => Ok 0%Z).
Definition mp_test_main (now : Z -> Z) (argv : list (list ascii)) : M world Z :=
  '(rc, _) ← mp_test1_main now argv;
  if negb (rc =? 0)%Z then mret (-1)%Z
  else '(rc, _) ← mp_test2_main now argv; if negb (rc =? 0)%Z then mret (-2)%Z else mret 0%Z.
End pool.

(** * Examples *)
Definition empty_world : world := World 0 ∅.

(** The texts of [%p] on a 64-bit system: 14 characters for an address, [(nil)]. *)
Definition fmt_p14 (a : option addr) : list ascii :=
  match a with Some _ => replicate 14 "0"%char | None => ["("; "n"; "i"; "l"; ")"]%char end.

(** Seven objects: the first test comes to its end.  Forty-nine objects, one row all but one: the
    dump of [mp_destroy] writes behind its buffer of 512 characters. *)
Example test1_seven : match mp_test1_main (fun _ => true) fmt_p14 (fun _ => 0%Z) [["-"; "n"; "7"]%char] empty_world with
  | Ok ((rc, _), _) => rc =? 0 | Stop _ => false end%Z = true.
Proof. vm_compute. reflexivity. Qed.
Example test1_dump_overflows :
  mp_test1_main (fun _ => true) fmt_p14 (fun _ => 0%Z) [["-"; "n"; "4"; "9"]%char] empty_world = Stop OutOfBounds.
Proof. vm_compute. reflexivity. Qed.

(** * Objects in rows

    The objects of both pools: the rows [rs] have [W] columns of [O] bytes behind a header of
    [Hd] bytes; the rows before row [x] are used up, and [y] objects of row [x] are. *)
Definition obj_cell (Hd O : Z) (r : nat) (c : Z) : addr := (r, Hd + O * c)%Z.
Definition obj_cells (Hd O : Z) (r : nat) (n : Z) : list addr :=
  (fun c => obj_cell Hd O r (Z.of_nat c)) <$> seq 0 (Z.to_nat n).
Definition objects (Hd O W x y : Z) (rs : list nat) : list addr :=
  (take (Z.to_nat x) rs ≫= fun r => obj_cells Hd O r W) ++ (drop (Z.to_nat x) rs ≫= fun r => obj_cells Hd O r y).

(** Two objects do not overlap; an object lies in a block of [Hd] and [n] times [O] bytes, behind the header. *)
Definition apart (O : Z) (a b : addr) : Prop := a.1 <> b.1 \/ (a.2 + O <= b.2)%Z \/ (b.2 + O <= a.2)%Z.
Definition in_block (Hd O n : Z) (a : addr) : Prop := (Hd <= a.2 /\ a.2 + O <= Hd + n * O)%Z.

Section objects.
Context (Hd O W : Z).

Lemma cells_snoc r n : (0 <= n)%Z -> obj_cells Hd O r (n + 1) = obj_cells Hd O r n ++ [obj_cell Hd O r n].
Proof.
  intros Hn. unfold obj_cells. rewrite Z2Nat.inj_add by lia. change (Z.to_nat 1) with 1.
  rewrite Nat.add_1_r, seq_S, fmap_app. cbn. by rewrite Z2Nat.id.
Qed.

Lemma elem_of_pool_cells r n a : a ∈ obj_cells Hd O r n -> exists c, (0 <= c < n)%Z /\ a = obj_cell Hd O r c.
Proof.
  unfold obj_cells. intros (c & -> & Hc%elem_of_seq)%list_elem_of_fmap. exists (Z.of_nat c). split; [lia|done].
Qed.

Lemma elem_of_objects x y rs a : (0 <= y <= W)%Z -> a ∈ objects Hd O W x y rs ->
  exists r c, r ∈ rs /\ a = obj_cell Hd O r c /\ (0 <= c < W)%Z.
Proof.
  intros Hy Ha. unfold objects in Ha.
  apply elem_of_app in Ha as [Ha|Ha]; apply list_elem_of_bind in Ha as (r & Hc & Hr);
    apply elem_of_pool_cells in Hc as (c & Hc & ->); exists r, c; (split; [|split; [done|lia]]).
  - rewrite <- (take_drop (Z.to_nat x) rs). apply elem_of_app. by left.
  - rewrite <- (take_drop (Z.to_nat x) rs). apply elem_of_app. by right.
Qed.

(** Row [x] is the last one: its objects come last, and one more is added at the end. *)
Lemma objects_last x y rs r : (0 <= x)%Z -> Z.of_nat (length rs) = (x + 1)%Z -> rs !! Z.to_nat x = Some r ->
  objects Hd O W x y rs = (take (Z.to_nat x) rs ≫= fun r => obj_cells Hd O r W) ++ obj_cells Hd O r y.
Proof.
  intros Hx Hl Hr. unfold objects. rewrite (drop_S _ r) by done. rewrite drop_ge by lia. cbn. by rewrite app_nil_r.
Qed.

Lemma objects_next_row x rs r : (0 <= x)%Z -> Z.of_nat (length rs) = (x + 1)%Z -> rs !! Z.to_nat x = Some r ->
  objects Hd O W (x + 1) 0 rs = objects Hd O W x W rs.
Proof.
  intros Hx Hl Hr. rewrite (objects_last x W rs r) by done. unfold objects.
  replace (Z.to_nat (x + 1)) with (S (Z.to_nat x)) by lia.
  rewrite (take_S_r _ _ r) by done. rewrite drop_ge by lia. cbn. by rewrite app_nil_r, bind_app; cbn; rewrite app_nil_r.
Qed.

Lemma objects_snoc x y rs r : (0 <= x)%Z -> (0 <= y)%Z -> Z.of_nat (length rs) = (x + 1)%Z -> rs !! Z.to_nat x = Some r ->
  objects Hd O W x (y + 1) rs = objects Hd O W x y rs ++ [obj_cell Hd O r y].
Proof.
  intros Hx Hy Hl Hr. rewrite !(objects_last _ _ _ r) by done. by rewrite cells_snoc, (assoc_L app) by lia.
Qed.

(** A new row adds no object. *)
Lemma objects_new_row x rs r : Z.of_nat (length rs) = x -> objects Hd O W x 0 (rs ++ [r]) = objects Hd O W x 0 rs.
Proof.
  intros Hl. unfold objects. replace (Z.to_nat x) with (length rs) by lia.
  by rewrite take_app_length, drop_app_length, firstn_all, drop_all.
Qed.

Context (HO : (1 <= O)%Z).

Lemma cell_in_block r c n : (0 <= c < n)%Z -> in_block Hd O n (obj_cell Hd O r c).
Proof. intros Hc. unfold in_block, obj_cell. cbn. nia. Qed.

Lemma cell_apart r c r' c' : (r <> r' \/ c <> c') -> apart O (obj_cell Hd O r c) (obj_cell Hd O r' c').
Proof.
  intros [Hr|Hc]; [by left|]. destruct (decide (r = r')) as [->|]; [right|by left]. cbn.
  destruct (decide (c < c')%Z); [left|right]; nia.
Qed.

Lemma cell_inj r c r' c' : obj_cell Hd O r c = obj_cell Hd O r' c' -> r = r' /\ c = c'.
Proof. unfold obj_cell. intros [= -> E]. split; [done|]. nia. Qed.

Lemma cells_nodup r n : NoDup (obj_cells Hd O r n).
Proof.
  unfold obj_cells. apply NoDup_fmap_2; [|apply NoDup_seq]. intros c c' E. apply cell_inj in E as [_ E]. lia.
Qed.

Lemma cells_row r n a : a ∈ obj_cells Hd O r n -> a.1 = r.
Proof. by intros (c & _ & ->)%elem_of_pool_cells. Qed.

Lemma objects_nodup x y rs : NoDup rs -> NoDup (objects Hd O W x y rs).
Proof.
  intros ND. rewrite <- (take_drop (Z.to_nat x) rs) in ND.
  apply NoDup_app in ND as (ND1 & Hd' & ND2). unfold objects.
  assert (Hb : forall n l, NoDup l -> NoDup (l ≫= fun r => obj_cells Hd O r n)).
  { intros n l Hl. apply NoDup_bind; [|intros r _; apply cells_nodup|done].
    intros r r' a _ _ Ha Ha'. apply cells_row in Ha, Ha'. congruence. }
  apply NoDup_app. split_and!; [by apply Hb| |by apply Hb].
  intros a Ha Ha'. apply list_elem_of_bind in Ha as (r & Hc & Hr). apply list_elem_of_bind in Ha' as (r' & Hc' & Hr').
  apply cells_row in Hc, Hc'. subst. by apply (Hd' a.1).
Qed.

Lemma objects_apart x y rs i j a b : NoDup rs -> (0 <= y <= W)%Z -> i <> j ->
  objects Hd O W x y rs !! i = Some a -> objects Hd O W x y rs !! j = Some b -> apart O a b.
Proof.
  intros ND Hy Hij Ha Hb.
  destruct (elem_of_objects x y rs a Hy (list_elem_of_lookup_2 _ _ _ Ha)) as (r & c & _ & -> & _).
  destruct (elem_of_objects x y rs b Hy (list_elem_of_lookup_2 _ _ _ Hb)) as (r' & c' & _ & -> & _).
  apply cell_apart. destruct (decide (r = r')) as [->|]; [|by left]. destruct (decide (c = c')) as [->|]; [|by right].
  exfalso. apply Hij. by apply (NoDup_lookup (objects Hd O W x y rs) i j (obj_cell Hd O r' c') (objects_nodup x y rs ND)).
Qed.

Lemma objects_in_block x y rs a : (0 <= y <= W)%Z -> a ∈ objects Hd O W x y rs -> in_block Hd O W a /\ a.1 ∈ rs.
Proof.
  intros Hy Ha. destruct (elem_of_objects x y rs a Hy Ha) as (r & c & Hr & -> & Hc). split; [by apply cell_in_block|done].
Qed.
End objects.

(** * What the pool keeps *)

Section pool_correct.
Context (avail : nat -> bool) (Y O : Z).
Context (HY : (1 <= Y)%Z) (HO : (1 <= O)%Z) (Hsz : (Y * 8 + Y * O <= INT_MAX)%Z).

Notation cell := (obj_cell (Y * 8) O).

(** The pool [mp] has the rows [rs]; its header slots hold their own objects or nothing. *)
Record mp_ok (w : world) (mp : mem_pool) (rs : list nat) : Prop := {
  mo_ptr : ptr mp = Some ((SRow <$> rs) ++ replicate (Z.to_nat (NX mp) - length rs) SNull);
  mo_x : (0 <= x mp < NX mp)%Z;
  mo_y : (0 <= y mp < Y)%Z;
  mo_rs : (Z.of_nat (length rs) = x mp + 1 \/ (Z.of_nat (length rs) = x mp /\ y mp = 0))%Z;
  mo_NY : NY mp = Y;
  mo_NOBJ : NOBJ mp = O;
  mo_nodup : NoDup rs;
  mo_old : Forall (fun r => r < reqs w) rs;
  mo_dom : forall r, is_Some (rows w !! r) <-> r ∈ rs;
  mo_hdr : forall r hdr, rows w !! r = Some hdr -> Z.of_nat (length hdr) = Y /\
    forall c a, hdr !! c = Some (Some a) -> a = cell r (Z.of_nat c);
  mo_mem : memused mp = u64 (40 + NX mp * 8 + Z.of_nat (length rs) * (Y * 8 + Y * O))
}.

(** The objects handed out so far, in this order. *)
Definition given (mp : mem_pool) (rs : list nat) : list addr := objects (Y * 8) O Y (x mp) (y mp) rs.

Lemma row_at_ok w mp rs k : mp_ok w mp rs -> k < length rs ->
  exists t r, ptr mp = Some t /\ rs !! k = Some r /\ row_at t (Z.of_nat k) = Ok (Some r).
Proof.
  intros H Hk. destruct (lookup_lt_is_Some_2 rs k Hk) as [r Hr]. eexists _, r. split; [apply H|]. split; [done|].
  unfold row_at. rewrite (aget_nat _ k (SRow r)); [done|]. rewrite lookup_app_l by (by rewrite length_fmap). by rewrite list_lookup_fmap, Hr.
Qed.

(** The pool as it is made. *)
Lemma mp_create_ok w : rows w = ∅ -> (forall k, avail k = true) ->
  exists mp w', mp_create avail O Y w = Ok (Some mp, w') /\ mp_ok w' mp [] /\ given mp [] = [] /\ x mp = 0%Z /\ y mp = 0%Z /\ NX mp = 10%Z.
Proof.
  intros Hw Ha. unfold mp_create. rewrite (proj2 (Z.leb_gt O 0)) by lia. rewrite (proj2 (Z.ltb_ge Y 1)) by lia.
  assert (Hm : forall sz w, (sz <= 1000)%Z -> malloc avail sz w = Ok (Some (reqs w), World (S (reqs w)) (rows w))).
  { intros sz w0 Hs. unfold malloc, NodePool.malloc. rewrite Ha, (proj2 (Z.leb_le _ _)) by (unfold NodePool.PTRDIFF_MAX; lia). done. }
  rewrite (M_bind_ok _ _ _ _ _ (Hm sizeof_mem_pool w ltac:(vm_compute; discriminate))).
  rewrite (M_bind_ok _ _ _ _ _ (Hm (10 * sizeof_ptr)%Z _ ltac:(vm_compute; discriminate))).
  eexists _, _. split; [done|]. split; [|done]. split; cbn; try done; try lia; try (by constructor).
  - intros r. rewrite Hw, lookup_empty. split; [intros [? ?]; done|intros H; by apply not_elem_of_nil in H].
  - intros r hdr. by rewrite Hw, lookup_empty.
Qed.

Lemma world_malloc_cases sz w :
  (malloc avail sz w = Ok (Some (reqs w), World (S (reqs w)) (rows w)) /\ avail (reqs w) = true) \/
  (malloc avail sz w = Ok (None, World (S (reqs w)) (rows w)) /\
   (avail (reqs w) = false \/ (NodePool.PTRDIFF_MAX < sz)%Z)).
Proof.
  unfold malloc, NodePool.malloc. destruct (avail (reqs w)); cbn [andb]; [|by right; eauto].
  destruct (Z.leb_spec sz NodePool.PTRDIFF_MAX); [by left|right; eauto].
Qed.

(** The same pool and memory, one request later. *)
Lemma mp_ok_req w mp rs : mp_ok w mp rs -> mp_ok (World (S (reqs w)) (rows w)) mp rs.
Proof.
  intros [? ? ? ? ? ? ? Hr ? ? ?]. split; try done. cbn. eapply Forall_impl; [exact Hr|]. cbn. lia.
Qed.

(** Growing the table: not needed, or done, or the table is lost. *)
Lemma mp_grow_ok w mp rs : mp_ok w mp rs -> (NX mp < 2 ^ 30)%Z ->
  exists b mp' w', mp_grow avail mp w = Ok ((b, mp'), w') /\ x mp' = x mp /\ y mp' = y mp /\
    ((b = true /\ mp_ok w' mp' rs /\ (x mp + 1 < NX mp')%Z /\ (NX mp' = NX mp \/ (x mp + 1 = NX mp /\ NX mp' = 2 * NX mp))%Z) \/
     (b = false /\ ptr mp' = None /\ (x mp + 1 = NX mp)%Z /\ NX mp' = NX mp /\ NY mp' = NY mp /\ NOBJ mp' = NOBJ mp /\
      rows w' = rows w /\ avail (reqs w) = false)).
Proof.
  intros H HN. pose proof (mo_x _ _ _ H) as Hx. pose proof (mo_rs _ _ _ H) as Hrs. unfold mp_grow.
  destruct (Z.eqb_spec (x mp) (NX mp - 1)) as [E|E].
  2:{ exists true, mp, w. split_and!; try done. left. split_and!; try done; lia. }
  rewrite (bind_lift _ _ _ (NX mp * 2)%Z) by (apply ck_ok; unfold is_int, INT_MIN, INT_MAX; lia).
  assert (Hu : u64 (NX mp * 2 * sizeof_ptr) = (NX mp * 16)%Z)
    by (unfold u64, sizeof_ptr; rewrite Z.mod_small by lia; lia).
  rewrite Hu. destruct (world_malloc_cases (NX mp * 16) w) as [[Em Ha]|[Em Ha]]; rewrite (M_bind_ok _ _ _ _ _ Em).
  - eexists true, _, _. split; [done|]. split; [done|]. split; [done|]. left. split; [done|]. cbn. split; [|lia].
    apply mp_ok_req in H. destruct H as [Hp ? ? ? ? ? ? ? ? ? Hm]. split; try done; cbn; try lia.
    + f_equal. rewrite Hp. cbn [from_option id]. unfold id, resized.
      rewrite (take_ge (_ ++ replicate _ SNull)) by (rewrite length_app, length_fmap, length_replicate; lia).
      rewrite take_app_length' by (rewrite length_app, length_fmap, length_replicate; lia).
      rewrite <- (assoc_L app), <- replicate_add. do 2 f_equal. lia.
    + rewrite Hm. unfold u64, sizeof_ptr. rewrite Zplus_mod_idemp_l. f_equal. lia.
  - destruct Ha as [Ha|Ha]; [|unfold NodePool.PTRDIFF_MAX in Ha; lia].
    eexists false, _, _. split; [done|]. split; [done|]. split; [done|]. right. cbn. split_and!; try done. lia.
Qed.

Lemma to_int_small z : (0 <= z <= INT_MAX)%Z -> to_int z = z.
Proof.
  intros Hz. unfold to_int, u64, INT_MAX in *. rewrite (Z.mod_small z) by lia. rewrite Z.mod_small by lia. lia.
Qed.

(** The current row: found, made, or no memory for it and nothing changed. *)
Lemma mp_row_ok w mp rs : mp_ok w mp rs -> (NX mp < 2 ^ 31)%Z ->
  exists o mp' w', mp_row avail (Y * 8) mp w = Ok ((o, mp'), w') /\ x mp' = x mp /\ y mp' = y mp /\ NX mp' = NX mp /\
    ((exists r rs', o = Some r /\ mp_ok w' mp' rs' /\ rs' !! Z.to_nat (x mp) = Some r /\ given mp' rs' = given mp rs /\
                    (Z.of_nat (length rs') = x mp + 1)%Z) \/
     (o = None /\ mp' = mp /\ mp_ok w' mp rs /\ avail (reqs w) = false)).
Proof.
  intros H HN. pose proof (mo_x _ _ _ H) as Hx. pose proof (mo_rs _ _ _ H) as Hrs. pose proof (mo_y _ _ _ H) as Hy.
  unfold mp_row. rewrite (mo_ptr _ _ _ H). destruct (decide (Z.of_nat (length rs) = x mp + 1)%Z) as [El|El].
  - destruct (row_at_ok w mp rs (Z.to_nat (x mp)) H ltac:(lia)) as (t & r & Et & Er & Erow).
    rewrite (mo_ptr _ _ _ H) in Et. injection Et as <-. rewrite Z2Nat.id in Erow by lia.
    rewrite (bind_lift _ _ _ (Some r)) by done.
    exists (Some r), mp, w. split; [done|]. split_and!; try done. left. by exists r, rs.
  - destruct Hrs as [|[El' Ey]]; [done|].
    assert (Erow : row_at ((SRow <$> rs) ++ replicate (Z.to_nat (NX mp) - length rs) SNull) (x mp) = Ok None).
    { unfold row_at. rewrite (aget_Z _ _ SNull); [done|lia|]. rewrite lookup_app_r by (rewrite length_fmap; lia).
      apply lookup_replicate_2. rewrite length_fmap. lia. }
    rewrite (bind_lift _ _ _ None) by done.
    rewrite (mo_NY _ _ _ H), (mo_NOBJ _ _ _ H).
    rewrite (bind_lift _ _ _ (Y * O)%Z) by (apply ck_ok; unfold is_int, INT_MIN, INT_MAX in *; nia).
    rewrite (bind_lift _ _ _ (Y * 8 + Y * O)%Z) by (apply ck_ok; unfold is_int, INT_MIN, INT_MAX in *; nia).
    assert (Hu : u64 (Y * 8 + Y * O) = (Y * 8 + Y * O)%Z)
      by (unfold u64, INT_MAX in *; apply Z.mod_small; nia).
    rewrite Hu. destruct (world_malloc_cases (Y * 8 + Y * O) w) as [[Em Ha]|[Em Ha]]; rewrite (M_bind_ok _ _ _ _ _ Em).
    2:{ exists None, mp. eexists. split; [done|]. split_and!; try done. right. split_and!; try done; [by apply mp_ok_req|].
        destruct Ha as [?|Ha]; [done|]. unfold NodePool.PTRDIFF_MAX, INT_MAX in *. lia. }
    rewrite (proj2 (Z.ltb_ge (Y * 8) 0)), (proj2 (Z.ltb_ge (Y * 8 + Y * O) (Y * 8))) by nia. cbn [orb].
    rewrite (M_bind_ok _ _ _ _ _ (eq_refl : set_hdr _ _ _ = Ok (tt, _))).
    rewrite (bind_lift _ _ _ ((SRow <$> (rs ++ [reqs w])) ++ replicate (Z.to_nat (NX mp) - S (length rs)) SNull)).
    2:{ rewrite aset_Z by (rewrite length_app, length_fmap, length_replicate; lia).
        rewrite insert_app_r_alt by (rewrite length_fmap; lia). rewrite length_fmap.
        replace (Z.to_nat (x mp) - length rs) with 0 by lia. rewrite fmap_app, <- (assoc_L app). do 2 f_equal.
        replace (Z.to_nat (NX mp) - length rs) with (S (Z.to_nat (NX mp) - S (length rs))) by lia. done. }
    assert (Hfresh : reqs w ∉ rs).
    { intros Hin. pose proof (mo_old _ _ _ H) as Ho. rewrite Forall_forall in Ho. specialize (Ho _ Hin). lia. }
    eexists (Some (reqs w)), _, _. split; [done|]. split_and!; try done. left. exists (reqs w), (rs ++ [reqs w]).
    split; [done|]. cbn [rows reqs x]. split; [|split; [|split]].
    + destruct H as [? ? ? ? ? ? ? ? Hdom Hhdr Hm]. split; cbn; try done.
      * rewrite length_app. cbn. do 3 f_equal. lia.
      * left. rewrite length_app. cbn. lia.
      * apply NoDup_app. split_and!; [done| |apply NoDup_singleton]. intros r Hr Hr2. apply list_elem_of_singleton in Hr2 as ->. done.
      * apply Forall_app. split; [|by constructor; [lia|]]. eapply Forall_impl; [exact mo_old0|]. cbn. lia.
      * intros r. rewrite elem_of_app, list_elem_of_singleton, <- Hdom.
        destruct (decide (r = reqs w)) as [->|Hne]; [rewrite lookup_insert_eq; split; [by right|eauto]|].
        rewrite lookup_insert_ne by done. tauto.
      * intros r hdr. destruct (decide (r = reqs w)) as [->|Hne].
        -- rewrite lookup_insert_eq. intros [= <-]. rewrite length_replicate. unfold sizeof_ptr. rewrite Z.div_mul by done.
           split; [lia|]. intros c a Hc. by apply lookup_replicate_1 in Hc as [? _].
        -- rewrite lookup_insert_ne by done. apply Hhdr.
      * rewrite Hm. unfold u64. rewrite Zplus_mod_idemp_l, length_app. cbn [length]. f_equal. lia.
    + rewrite lookup_app_r by lia. by replace (Z.to_nat (x mp) - length rs) with 0 by lia.
    + unfold given. cbn [x y]. rewrite Ey. by apply objects_new_row.
    + rewrite length_app. cbn. lia.
Qed.

(** Taking the next object of the current row. *)
Lemma mp_take_ok w mp rs r : mp_ok w mp rs -> rs !! Z.to_nat (x mp) = Some r -> Z.of_nat (length rs) = (x mp + 1)%Z ->
  (x mp + 1 < NX mp)%Z ->
  exists hdr hdr', rows w !! r = Some hdr /\ aset hdr (y mp) (Some (cell r (y mp))) = Ok hdr' /\
    mp_ok (World (reqs w) (<[r := hdr']> (rows w))) (mp_advance mp) rs /\
    given (mp_advance mp) rs = given mp rs ++ [cell r (y mp)] /\
    (x (mp_advance mp) * Y + y (mp_advance mp) = x mp * Y + y mp + 1)%Z /\
    (NX (mp_advance mp) = NX mp)%Z /\ (x mp <= x (mp_advance mp))%Z /\
    (y (mp_advance mp) = 0 -> Z.of_nat (length rs) = x (mp_advance mp))%Z.
Proof.
  intros H Hr Hl HN. pose proof (mo_x _ _ _ H) as Hx. pose proof (mo_y _ _ _ H) as Hy.
  pose proof (proj2 (mo_dom _ _ _ H r) (list_elem_of_lookup_2 _ _ _ Hr)) as [hdr Eh].
  destruct (mo_hdr _ _ _ H r hdr Eh) as [Hlen Hcell].
  exists hdr, (<[Z.to_nat (y mp) := Some (cell r (y mp))]> hdr). split; [done|].
  split; [apply aset_Z; lia|].
  set (hdr' := <[Z.to_nat (y mp) := Some (cell r (y mp))]> hdr).
  assert (Hok : forall mp', ptr mp' = ptr mp -> NX mp' = NX mp -> NY mp' = NY mp -> NOBJ mp' = NOBJ mp ->
    memused mp' = memused mp -> (0 <= x mp' < NX mp)%Z -> (0 <= y mp' < Y)%Z ->
    (Z.of_nat (length rs) = x mp' + 1 \/ (Z.of_nat (length rs) = x mp' /\ y mp' = 0))%Z ->
    mp_ok (World (reqs w) (<[r := hdr']> (rows w))) mp' rs).
  { intros mp' E1 E2 E3 E4 E5 Hx' Hy' Hrs'. destruct H. split; cbn; rewrite ?E1, ?E2, ?E3, ?E4, ?E5; try done.
    - intros r'. rewrite <- mo_dom0. destruct (decide (r' = r)) as [->|Hne].
      + rewrite lookup_insert_eq, Eh. split; intros _; eauto.
      + by rewrite lookup_insert_ne.
    - intros r' h'. destruct (decide (r' = r)) as [->|Hne]; [|rewrite lookup_insert_ne by done; apply mo_hdr0].
      rewrite lookup_insert_eq. intros [= <-]. unfold hdr'. rewrite length_insert. split; [done|].
      intros c a Hc. destruct (decide (c = Z.to_nat (y mp))) as [->|Hne].
      + rewrite list_lookup_insert_eq in Hc by lia. injection Hc as <-. f_equal. lia.
      + rewrite list_lookup_insert_ne in Hc by done. by apply Hcell. }
  unfold mp_advance. pose proof (mo_NY _ _ _ H) as HNY. destruct (Z.eqb_spec (y mp + 1) (NY mp)) as [E|E]; rewrite ?HNY in E; cbn [x y NX].
  - split; [apply Hok; cbn [ptr NX NY NOBJ memused x y]; (done || lia)|]. split; [|split; [nia|split_and!; (done || lia)]].
    unfold given. cbn [x y]. rewrite (objects_next_row _ _ _ _ _ r) by (done || lia).
    replace (objects (Y * 8) O Y (x mp) Y rs) with (objects (Y * 8) O Y (x mp) (y mp + 1) rs) by (by rewrite E).
    apply objects_snoc; (done || lia).
  - split; [apply Hok; cbn [ptr NX NY NOBJ memused x y]; (done || lia)|]. split; [|split; [nia|split_and!; (done || lia)]].
    unfold given. cbn [x y]. apply objects_snoc; (done || lia).
Qed.

Lemma mp_alloc_ok w mp rs : mp_ok w mp rs -> (NX mp < 2 ^ 30)%Z ->
  exists o mp' w', mp_alloc avail mp w = Ok ((o, mp'), w') /\
    ((exists r rs', o = Some (cell r (y mp)) /\ mp_ok w' mp' rs' /\ given mp' rs' = given mp rs ++ [cell r (y mp)] /\
        rs' !! Z.to_nat (x mp) = Some r /\ (x mp' * Y + y mp' = x mp * Y + y mp + 1)%Z /\ (x mp <= x mp')%Z /\
        (NX mp' = NX mp \/ NX mp' = 2 * (x mp + 1))%Z /\ (y mp' = 0 -> Z.of_nat (length rs') = x mp')%Z) \/
     (o = None /\ (exists k, avail k = false) /\
        ((mp_ok w' mp' rs /\ given mp' rs = given mp rs) \/ (ptr mp' = None /\ x mp' = x mp /\ (x mp + 1 = NX mp)%Z)))).
Proof.
  intros H HN. unfold mp_alloc.
  destruct (mp_grow_ok w mp rs H HN) as (b & mp1 & w1 & E1 & Hx1 & Hy1 & [(-> & H1 & HN1 & HNX)|(-> & Hp & HN1 & _ & _ & _ & _ & Ha)]);
    rewrite (M_bind_ok _ _ _ _ _ E1); cbn [negb].
  2:{ exists None, mp1, w1. split; [done|]. right. split; [done|]. split; [eauto|]. right. split_and!; (done || lia). }
  rewrite (mo_NY _ _ _ H1). rewrite to_int_small by (unfold sizeof_ptr, INT_MAX in *; nia).
  change (Y * sizeof_ptr)%Z with (Y * 8)%Z.
  destruct (mp_row_ok w1 mp1 rs H1) as (o & mp2 & w2 & E2 & Hx2 & Hy2 & HN2 & Hcase); [lia|].
  rewrite (M_bind_ok _ _ _ _ _ E2). destruct Hcase as [(r & rs2 & -> & H2 & Hr & Hg & Hl)|(-> & -> & H2 & Ha)].
  2:{ exists None, mp1, w2. split; [done|]. right. split; [done|]. split; [eauto|]. left. split; [done|].
      unfold given. by rewrite Hx1, Hy1. }
  pose proof (mo_y _ _ _ H2) as Hy. pose proof (mo_x _ _ _ H2) as Hx.
  rewrite (mo_NOBJ _ _ _ H2).
  rewrite (bind_lift _ _ _ (O * y mp2)%Z) by (apply ck_ok; unfold is_int, INT_MIN, INT_MAX in *; nia).
  rewrite <- Hx2 in Hr. destruct (mp_take_ok w2 mp2 rs2 r H2 Hr ltac:(lia) ltac:(lia)) as (hdr & hdr' & Eh & Es & H3 & Hg3 & Hxy & HN3 & Hle & Hy0).
  rewrite (M_bind_ok _ _ w2 hdr w2) by (unfold get_hdr; by rewrite Eh).
  rewrite (bind_lift _ _ _ hdr') by exact Es.
  rewrite (M_bind_ok _ _ w2 tt (World (reqs w2) (<[r := hdr']> (rows w2)))) by done.
  exists (Some (cell r (y mp2))), (mp_advance mp2), (World (reqs w2) (<[r := hdr']> (rows w2))). split; [done|]. left.
  exists r, rs2. assert (Hyy : y mp2 = y mp) by congruence. assert (Hxx : x mp2 = x mp) by congruence. rewrite Hyy, Hxx in *.
  split_and!; try done.
  - rewrite Hg3, Hg. f_equal. unfold given. by rewrite Hx1, Hy1.
  - lia.
Qed.

(** ** Releasing an object *)
Lemma clear_col_miss r p w hdr : rows w !! r = Some hdr -> forall todo i, i + todo = length hdr ->
  (forall c, i <= c -> hdr !! c <> Some (Some p)) -> clear_col r p (Z.of_nat i) todo w = Ok (false, w).
Proof.
  intros Eh. induction todo as [|todo IH]; intros i Hi Hn; [done|]. cbn [clear_col].
  rewrite (M_bind_ok _ _ w hdr w) by (unfold get_hdr; by rewrite Eh).
  destruct (lookup_lt_is_Some_2 hdr i ltac:(lia)) as [s Es]. rewrite (bind_lift _ _ _ s) by (by apply aget_nat).
  rewrite bool_decide_eq_false_2 by (intros ->; by apply (Hn i)).
  replace (Z.of_nat i + 1)%Z with (Z.of_nat (S i)) by lia. apply IH; [lia|]. intros c Hc. apply Hn. lia.
Qed.

Lemma clear_col_hit r p w hdr c : rows w !! r = Some hdr -> hdr !! c = Some (Some p) ->
  (forall c', c' < c -> hdr !! c' <> Some (Some p)) -> forall todo i, i + todo = length hdr -> i <= c ->
  clear_col r p (Z.of_nat i) todo w = Ok (true, World (reqs w) (<[r := <[c := None]> hdr]> (rows w))).
Proof.
  intros Eh Hc Hn. pose proof (lookup_lt_Some _ _ _ Hc) as Hlt.
  induction todo as [|todo IH]; intros i Hi Hic; [lia|]. cbn [clear_col].
  rewrite (M_bind_ok _ _ w hdr w) by (unfold get_hdr; by rewrite Eh).
  destruct (lookup_lt_is_Some_2 hdr i ltac:(lia)) as [s Es]. rewrite (bind_lift _ _ _ s) by (by apply aget_nat).
  destruct (decide (i = c)) as [->|Hne].
  - rewrite Hc in Es. injection Es as <-. rewrite bool_decide_eq_true_2 by done.
    rewrite (bind_lift _ _ _ (<[c := None]> hdr)) by (by apply aset_nat). done.
  - rewrite bool_decide_eq_false_2 by (intros ->; apply (Hn i); [lia|done]).
    replace (Z.of_nat i + 1)%Z with (Z.of_nat (S i)) by lia. apply IH; lia.
Qed.

Lemma hdr_own w mp rs r hdr c p : mp_ok w mp rs -> rows w !! r = Some hdr -> hdr !! c = Some (Some p) ->
  p = cell r (Z.of_nat c).
Proof. intros H Eh. apply (mo_hdr _ _ _ H r hdr Eh). Qed.

(** The scan over the rows behind the one at [k]: no row there has [p] in its header, or the first
    that has it is changed. *)
Lemma free_scan_miss w mp rs p todo : mp_ok w mp rs -> forall t k, ptr mp = Some t -> k + todo <= length rs ->
  (forall j r hdr, k <= j < k + todo -> rs !! j = Some r -> rows w !! r = Some hdr -> Some p ∉ hdr) -> free_scan t (NY mp) p (Z.of_nat k) todo w = Ok (tt, w).
Proof.
  intros H t. induction todo as [|todo IH]; intros k Et Hk Hn; [done|]. cbn [free_scan].
  destruct (row_at_ok w mp rs k H ltac:(lia)) as (t' & r & Et' & Er & Erow). rewrite Et in Et'. injection Et' as <-.
  rewrite (bind_lift _ _ _ (Some r)) by done.
  pose proof (proj2 (mo_dom _ _ _ H r) (list_elem_of_lookup_2 _ _ _ Er)) as [hdr Eh].
  destruct (mo_hdr _ _ _ H r hdr Eh) as [Hlen _].
  rewrite (M_bind_ok _ _ w false w).
  - replace (Z.of_nat k + 1)%Z with (Z.of_nat (S k)) by lia. apply IH; [done|lia|]. intros j r' h' Hj. apply Hn. lia.
  - rewrite (mo_NY _ _ _ H). apply (clear_col_miss r p w hdr Eh _ 0); [lia|]. intros c _ Hc.
    apply (Hn k r hdr ltac:(lia) Er Eh). by apply list_elem_of_lookup_2 in Hc.
Qed.

Lemma free_scan_hit w mp rs r hdr c n todo : mp_ok w mp rs -> rs !! n = Some r -> rows w !! r = Some hdr ->
  hdr !! c = Some (Some (cell r (Z.of_nat c))) ->
  forall t k, ptr mp = Some t -> k <= n < k + todo -> k + todo <= length rs ->
  free_scan t (NY mp) (cell r (Z.of_nat c)) (Z.of_nat k) todo w =
  Ok (tt, World (reqs w) (<[r := <[c := None]> hdr]> (rows w))).
Proof.
  intros H Hr Eh Hc t. induction todo as [|todo IH]; intros k Et Hk Hl; [lia|]. cbn [free_scan].
  destruct (row_at_ok w mp rs k H ltac:(lia)) as (t' & r' & Et' & Er' & Erow). rewrite Et in Et'. injection Et' as <-.
  rewrite (bind_lift _ _ _ (Some r')) by done.
  pose proof (proj2 (mo_dom _ _ _ H r') (list_elem_of_lookup_2 _ _ _ Er')) as [hdr' Eh'].
  destruct (mo_hdr _ _ _ H r' hdr' Eh') as [Hlen' _].
  rewrite (mo_NY _ _ _ H). destruct (decide (r' = r)) as [->|Hne].
  - rewrite Eh in Eh'. injection Eh' as <-.
    rewrite (M_bind_ok _ _ w true (World (reqs w) (<[r := <[c := None]> hdr]> (rows w)))); [done|].
    apply (clear_col_hit r _ w hdr c Eh Hc) with (i := 0); [|lia|lia].
    intros c' Hlt Hc'. apply (hdr_own w mp rs r hdr c' _ H Eh) in Hc'. apply (cell_inj _ O HO) in Hc' as [_ Hc']. lia.
  - assert (k <> n) by (intros ->; congruence).
    rewrite (M_bind_ok _ _ w false w).
    + replace (Z.of_nat k + 1)%Z with (Z.of_nat (S k)) by lia. rewrite (mo_NY _ _ _ H) in IH. apply IH; [done|lia|lia].
    + apply (clear_col_miss r' _ w hdr' Eh' _ 0); [lia|]. intros c' _ Hc'.
      apply (hdr_own w mp rs r' hdr' c' _ H Eh') in Hc'. apply (cell_inj _ O HO) in Hc' as [Hc' _]. done.
Qed.

(** Clearing a slot keeps the pool. *)
Lemma mp_ok_clear w mp rs r hdr c : mp_ok w mp rs -> rows w !! r = Some hdr ->
  mp_ok (World (reqs w) (<[r := <[c := None]> hdr]> (rows w))) mp rs.
Proof.
  intros H Eh. destruct H as [? ? ? ? ? ? ? ? Hdom Hhdr Hm]. split; cbn; try done.
  - intros r'. rewrite <- Hdom. destruct (decide (r' = r)) as [->|Hne].
    + rewrite lookup_insert_eq, Eh. split; intros _; eauto.
    + by rewrite lookup_insert_ne.
  - intros r' h'. destruct (decide (r' = r)) as [->|Hne]; [|rewrite lookup_insert_ne by done; apply Hhdr].
    rewrite lookup_insert_eq. intros [= <-]. rewrite length_insert. destruct (Hhdr r hdr Eh) as [Hl Hc]. split; [done|].
    intros c' a Ha. apply Hc. destruct (decide (c' = c)) as [->|Hne]; [|by rewrite list_lookup_insert_ne in Ha].
    destruct (decide (c < length hdr)); [rewrite list_lookup_insert_eq in Ha by done; done|].
    rewrite list_insert_ge in Ha by lia. done.
Qed.

(** [mp_free] of any address: one slot cleared, or nothing. *)
Lemma mp_free_ok w mp rs p : mp_ok w mp rs ->
  exists w', mp_free (Some mp) p w = Ok (tt, w') /\ mp_ok w' mp rs.
Proof.
  intros H. destruct p as [p|]; [|by exists w]. unfold mp_free. rewrite (mo_ptr _ _ _ H).
  pose proof (mo_x _ _ _ H) as Hx. pose proof (mo_rs _ _ _ H) as Hrs.
  assert (Hmiss : (forall j r hdr, 0 <= j < 0 + Z.to_nat (x mp) -> rs !! j = Some r -> rows w !! r = Some hdr -> Some p ∉ hdr) ->
    exists w', free_scan ((SRow <$> rs) ++ replicate (Z.to_nat (NX mp) - length rs) SNull) (NY mp) p 0 (Z.to_nat (x mp)) w = Ok (tt, w')
      /\ mp_ok w' mp rs).
  { intros Hn. exists w. split; [|done]. apply (free_scan_miss w mp rs p _ H _ 0); [apply H|lia|done]. }
  destruct (decide (p.1 ∈ take (Z.to_nat (x mp)) rs)) as [Hin|Hin].
  - apply list_elem_of_lookup in Hin as (n & Hn). apply lookup_take_Some in Hn as [Hn Hlt].
    pose proof (proj2 (mo_dom _ _ _ H p.1) (list_elem_of_lookup_2 _ _ _ Hn)) as [hdr Eh].
    destruct (decide (Some p ∈ hdr)) as [Hp|Hp].
    + apply list_elem_of_lookup in Hp as (c & Hc). pose proof (hdr_own _ _ _ _ _ _ _ H Eh Hc) as Ep.
      eexists. split; [|by apply (mp_ok_clear w mp rs p.1 hdr c)]. rewrite Ep in Hc |- *. cbn [fst cell] in *.
      apply (free_scan_hit w mp rs p.1 hdr c n _ H Hn Eh Hc _ 0); [apply H|lia|lia].
    + apply Hmiss. intros j r h' _ Hr Eh' Hp'. apply list_elem_of_lookup in Hp' as (c & Hc).
      pose proof (hdr_own _ _ _ _ _ _ _ H Eh' Hc) as Ep. rewrite Ep in Eh. cbn in Eh. rewrite Eh in Eh'. injection Eh' as <-.
      apply Hp. by apply list_elem_of_lookup_2 in Hc.
  - apply Hmiss. intros j r h' Hj Hr Eh' Hp'. apply list_elem_of_lookup in Hp' as (c & Hc).
    pose proof (hdr_own _ _ _ _ _ _ _ H Eh' Hc) as Ep. apply Hin. rewrite Ep. cbn [fst cell].
    apply list_elem_of_lookup. exists j. apply lookup_take_Some. split; [done|lia].
Qed.

(** ** Destroying the pool *)
Lemma free_rows_ok t rs todo : (forall k r, rs !! k = Some r -> row_at t (Z.of_nat k) = Ok (Some r)) -> NoDup rs ->
  forall k w, k + todo <= length rs -> (forall j r, k <= j -> rs !! j = Some r -> is_Some (rows w !! r)) ->
  exists w', free_rows t (Z.of_nat k) todo w = Ok (tt, w') /\
    forall r, is_Some (rows w' !! r) <-> is_Some (rows w !! r) /\ r ∉ take todo (drop k rs).
Proof.
  intros Ht ND. induction todo as [|todo IH]; intros k w Hk Hin.
  { exists w. split; [done|]. intros r. cbn. rewrite elem_of_nil. tauto. }
  destruct (lookup_lt_is_Some_2 rs k ltac:(lia)) as [r Hr]. cbn [free_rows].
  rewrite (bind_lift _ _ _ (Some r)) by (by apply Ht).
  destruct (Hin k r ltac:(lia) Hr) as [h Eh].
  rewrite (M_bind_ok _ _ w tt (World (reqs w) (delete r (rows w)))) by (unfold free_row; by rewrite Eh).
  replace (Z.of_nat k + 1)%Z with (Z.of_nat (S k)) by lia.
  destruct (IH (S k) (World (reqs w) (delete r (rows w)))) as (w' & E & Hw'); [lia| |].
  - intros j r' Hj Hr'. cbn. rewrite lookup_delete_ne; [apply (Hin j r'); (done || lia)|].
    intros ->. pose proof (NoDup_lookup rs j k r' ND Hr' Hr). lia.
  - exists w'. split; [done|]. intros r'. rewrite Hw'. cbn [rows]. rewrite (drop_S rs r k) by done. cbn [take].
    rewrite not_elem_of_cons. destruct (decide (r' = r)) as [->|Hne].
    + rewrite lookup_delete_eq. split; [by intros [[? ?] _]|tauto].
    + rewrite lookup_delete_ne by done. tauto.
Qed.

Lemma mp_destroy_ok fmt w mp rs : mp_ok w mp rs ->
  exists w', mp_destroy fmt true (Some mp) w = Ok (tt, w') /\
    forall r, is_Some (rows w' !! r) <-> r ∈ drop (Z.to_nat (x mp)) rs.
Proof.
  intros H. pose proof (mo_x _ _ _ H) as Hx. pose proof (mo_rs _ _ _ H) as Hrs.
  unfold mp_destroy. rewrite bind_ret. rewrite (mo_ptr _ _ _ H).
  destruct (free_rows_ok ((SRow <$> rs) ++ replicate (Z.to_nat (NX mp) - length rs) SNull) rs (Z.to_nat (x mp)))
    with (k := 0) (w := w) as (w' & E & Hw').
  - intros k r Hr. destruct (row_at_ok w mp rs k H) as (t & r' & Et & Er & Erow); [by apply lookup_lt_Some in Hr|].
    rewrite (mo_ptr _ _ _ H) in Et. injection Et as <-. congruence.
  - apply H.
  - lia.
  - intros j r _ Hr. apply (mo_dom _ _ _ H). by apply list_elem_of_lookup_2 in Hr.
  - exists w'. split; [exact E|]. intros r. rewrite Hw', (mo_dom _ _ _ H). rewrite drop_0.
    pose proof (mo_nodup _ _ _ H) as ND. rewrite <- (take_drop (Z.to_nat (x mp)) rs) in ND.
    apply NoDup_app in ND as (_ & Hd & _). rewrite <- (take_drop (Z.to_nat (x mp)) rs) at 1. rewrite elem_of_app.
    split; [intros [[?|?] ?]; done|]. intros Hr. split; [by right|]. intros Hr'. by apply (Hd r).
Qed.

(** ** Sequences of calls *)

(** [None] is a call of [mp_alloc], [Some p] the call [mp_free(mp, p)]. *)
Fixpoint mp_run (ops : list (option addr)) (mp : mem_pool) : M world (list (option addr) * mem_pool) :=
  match ops with
  | [] => mret ([], mp)
  | Some p :: ops => mp_free (Some mp) (Some p);; mp_run ops mp
  | None :: ops => '(a, mp) ← mp_alloc avail mp; '(l, mp) ← mp_run ops mp; mret (a :: l, mp)
  end.

Fixpoint allocs (ops : list (option addr)) : nat :=
  match ops with [] => 0 | None :: ops => S (allocs ops) | Some _ :: ops => allocs ops end.

Context (Havail : forall k, avail k = true).

(** A pool with the rows [rs], of which the current one is only there when an object of it is used. *)
Definition mp_state (w : world) (mp : mem_pool) (rs : list nat) : Prop :=
  mp_ok w mp rs /\ (NX mp <= 2 * (x mp + 5))%Z /\ (y mp = 0 -> Z.of_nat (length rs) = x mp)%Z.

Lemma mp_run_ok ops : forall w mp rs, mp_state w mp rs -> (x mp + Z.of_nat (length ops) <= 2 ^ 28)%Z ->
  exists l mp' w' rs', mp_run ops mp w = Ok ((Some <$> l, mp'), w') /\ mp_state w' mp' rs' /\
    given mp' rs' = given mp rs ++ l /\ length l = allocs ops /\
    (x mp' * Y + y mp' = x mp * Y + y mp + Z.of_nat (allocs ops))%Z.
Proof.
  induction ops as [|[p|] ops IH]; intros w mp rs (H & HN & Hy0) Hb; cbn [length] in Hb; cbn [mp_run allocs].
  - exists [], mp, w, rs. rewrite app_nil_r. split_and!; (done || lia).
  - destruct (mp_free_ok w mp rs (Some p) H) as (w1 & E1 & H1). rewrite (M_bind_ok _ _ _ _ _ E1).
    apply IH; [by split|lia].
  - destruct (mp_alloc_ok w mp rs H ltac:(lia)) as (o & mp1 & w1 & E1 & Hc).
    rewrite (M_bind_ok _ _ _ _ _ E1).
    destruct Hc as [(r & rs1 & -> & H1 & Hg & _ & Hxy & Hle & HN1 & Hy1)|(_ & (k & Hk) & _)]; [|by rewrite Havail in Hk].
    pose proof (mo_y _ _ _ H) as Hy. pose proof (mo_y _ _ _ H1) as Hy'. pose proof (mo_x _ _ _ H) as Hx.
    assert (Hx1 : (x mp1 <= x mp + 1)%Z) by nia.
    destruct (IH w1 mp1 rs1) as (l & mp2 & w2 & rs2 & E2 & H2 & Hg2 & Hl & Hxy2); [split_and!; (done || lia)|lia|].
    rewrite (M_bind_ok _ _ _ _ _ E2). exists (cell r (y mp) :: l), mp2, w2, rs2. split; [done|]. split; [done|].
    split; [by rewrite Hg2, Hg, <- (assoc_L app)|]. split; [cbn; lia|lia].
Qed.

Lemma rows_size w mp rs : mp_ok w mp rs -> size (rows w) = length rs.
Proof.
  intros H. rewrite <- size_dom. rewrite <- (size_list_to_set (C := gset nat) rs) by apply H. f_equal.
  apply set_eq. intros r. rewrite elem_of_dom, elem_of_list_to_set. apply H.
Qed.
End pool_correct.

(** A new pool of objects of [O] bytes, [Y] to a row, and the calls [ops] on it. *)
Definition pool_session (avail : nat -> bool) (O Y : Z) (ops : list (option addr)) : M world (list (option addr) * mem_pool) :=
  mp ← mp_create avail O Y;
  match mp with None => stop NullDeref | Some mp => mp_run avail ops mp end.

Lemma pool_session_ok avail O Y ops :
  (1 <= Y)%Z -> (1 <= O)%Z -> (Y * 8 + Y * O <= INT_MAX)%Z -> (forall k, avail k = true) -> (Z.of_nat (length ops) <= 2 ^ 28)%Z ->
  exists l mp w rs, pool_session avail O Y ops empty_world = Ok ((Some <$> l, mp), w) /\
    mp_state Y O w mp rs /\ given Y O mp rs = l /\ length l = allocs ops /\
    (x mp * Y + y mp = Z.of_nat (allocs ops))%Z.
Proof.
  intros HY HO Hsz Ha Hops. unfold pool_session.
  destruct (mp_create_ok avail Y O HY HO empty_world eq_refl Ha) as (mp0 & w0 & E0 & H0 & Hg0 & Hx0 & Hy0 & HN0).
  rewrite (M_bind_ok _ _ _ _ _ E0).
  destruct (mp_run_ok avail Y O HY HO Hsz Ha ops w0 mp0 []) as (l & mp & w & rs & E & H & Hg & Hl & Hxy).
  - split_and!; [done|lia|cbn; lia].
  - lia.
  - exists l, mp, w, rs. rewrite Hg0 in Hg. cbn in Hg. split_and!; (done || lia).
Qed.

(** While memory lasts, every object ever given, freed or not, lies in the block of a row that is still there and
    overlaps no other: no row is given back before the pool is destroyed, and no place is given twice. *)
Theorem mp_rows_stay (avail : nat -> bool) (O Y : Z) (ops : list (option addr)) :
  (1 <= Y)%Z -> (1 <= O)%Z -> (Y * 8 + Y * O <= INT_MAX)%Z -> (forall k, avail k = true) -> (Z.of_nat (length ops) <= 2 ^ 28)%Z ->
  exists l mp w, pool_session avail O Y ops empty_world = Ok ((Some <$> l, mp), w) /\ length l = allocs ops /\
    (forall i j a b, i <> j -> l !! i = Some a -> l !! j = Some b -> apart O a b) /\
    (forall a, a ∈ l -> in_block (Y * 8) O Y a /\ is_Some (rows w !! a.1)) /\
    memused mp = (40 + NX mp * 8 + Z.of_nat (size (rows w)) * (Y * 8 + Y * O))%Z.
Proof.
  intros HY HO Hsz Ha Hops.
  destruct (pool_session_ok avail O Y ops HY HO Hsz Ha Hops) as (l & mp & w & rs & E & (H & HN & _) & Hg & Hl & Hxy).
  exists l, mp, w. split; [done|]. split; [done|]. subst l. split; [|split].
  - intros i j a b. apply objects_apart; [lia|by apply H|]. pose proof (mo_y _ _ _ _ _ H). lia.
  - intros a. intros Ha'. apply objects_in_block in Ha' as [Hb Hr]; [|lia|pose proof (mo_y _ _ _ _ _ H); lia]. split; [done|]. by apply (mo_dom _ _ _ _ _ H).
  - rewrite (rows_size Y O w mp rs H), (mo_mem _ _ _ _ _ H). unfold u64. apply Z.mod_small.
    pose proof (mo_x _ _ _ _ _ H). pose proof (mo_y _ _ _ _ _ H). pose proof (mo_rs _ _ _ _ _ H).
    unfold INT_MAX in Hsz. assert (x mp <= 2 ^ 28)%Z; [|nia].
    assert (allocs ops <= length ops); [|nia]. clear. induction ops as [|[p|] ops IH]; cbn; lia.
Qed.

(** The objects that the client has: those given to it that it did not free; [l] are the answers of
    [mp_alloc]. *)
Fixpoint held (ops : list (option addr)) (l have : list addr) : list addr :=
  match ops, l with
  | Some p :: ops, _ => held ops l (filter (fun a => a <> p) have)
  | None :: ops, a :: l => held ops l (have ++ [a])
  | _, _ => have
  end.

Lemma held_sublist ops : forall l have, sublist (held ops l have) (have ++ l).
Proof.
  induction ops as [|[p|] ops IH]; intros l have; cbn [held]; [by apply sublist_inserts_r| |destruct l as [|a l]; [by apply sublist_inserts_r|]].
  - etrans; [apply IH|]. apply sublist_app; [apply sublist_filter|done].
  - etrans; [apply IH|]. by rewrite <- (assoc_L app).
Qed.

(** Two different ones of pairwise disjoint objects. *)
Lemma apart_sublist O (l live : list addr) : (1 <= O)%Z -> (forall i j a b, i <> j -> l !! i = Some a -> l !! j = Some b -> apart O a b) ->
  sublist live l -> forall i j a b, i <> j -> live !! i = Some a -> live !! j = Some b -> apart O a b.
Proof.
  intros HO Hl Hs i j a b Hij Ha Hb.
  assert (ND : NoDup l).
  { apply NoDup_alt. intros m n c Hm Hn. destruct (decide (m = n)) as [|Hne]; [done|]. destruct (Hl m n c c Hne Hm Hn) as [?|[?|?]]; [done|lia|lia]. }
  assert (Hne : a <> b) by (intros ->; apply Hij, (NoDup_lookup live i j b); [by eapply sublist_NoDup|done|done]).
  assert (Hin : forall c k, live !! k = Some c -> exists n, l !! n = Some c).
  { intros c k Hk. apply list_elem_of_lookup. apply (sublist_subseteq _ _ Hs). by apply list_elem_of_lookup_2 in Hk. }
  destruct (Hin a i Ha) as (m & Hm), (Hin b j Hb) as (n & Hn). apply (Hl m n a b); [|done|done]. intros ->. congruence.
Qed.

(** C27: take a new pool of objects of O bytes with Y of them to a row, O and Y positive, a row with its header not above INT_MAX bytes, and memory that lasts; and any calls of [mp_alloc] and
    [mp_free] on it, up to 2^28 of them, what is freed being anything.  Every call of [mp_alloc] gives an object; of the objects the client then has (those given to it and not freed) any two
    are disjoint, and each lies in the block of a row that is there, behind the row's header; and while each row has one of them, [memused] is the size of the pool, its table and its rows. *)
Theorem mp_alloc_objects (avail : nat -> bool) (O Y : Z) (ops : list (option addr)) :
  (1 <= Y)%Z -> (1 <= O)%Z -> (Y * 8 + Y * O <= INT_MAX)%Z -> (forall k, avail k = true) -> (Z.of_nat (length ops) <= 2 ^ 28)%Z ->
  exists l mp w, pool_session avail O Y ops empty_world = Ok ((Some <$> l, mp), w) /\ length l = allocs ops /\
    (forall i j a b, i <> j -> held ops l [] !! i = Some a -> held ops l [] !! j = Some b -> apart O a b) /\
    (forall a, a ∈ held ops l [] -> in_block (Y * 8) O Y a /\ is_Some (rows w !! a.1)) /\
    ((forall r, is_Some (rows w !! r) -> exists a, a ∈ held ops l [] /\ a.1 = r) ->
     memused mp = (40 + NX mp * 8 + Z.of_nat (size (rows w)) * (Y * 8 + Y * O))%Z).
Proof.
  intros HY HO Hsz Ha Hops. destruct (mp_rows_stay avail O Y ops HY HO Hsz Ha Hops) as (l & mp & w & E & Hl & Hap & Hin & Hm).
  exists l, mp, w. pose proof (held_sublist ops l []) as Hs. do 2 (split; [done|]). split; [by apply (apart_sublist O l)|]. split; [|done].
  intros a Hal. apply Hin. by apply (sublist_subseteq _ _ Hs).
Qed.

Lemma mp_alloc_objects_witness :
  exists l mp w, pool_session (fun _ => true) 24 2 [None; None; Some (2, 16%Z); None; None] empty_world = Ok ((Some <$> l, mp), w) /\
    length l = 4 /\
    (forall i j a b, i <> j -> held [None; None; Some (2, 16%Z); None; None] l [] !! i = Some a ->
       held [None; None; Some (2, 16%Z); None; None] l [] !! j = Some b -> apart 24 a b).
Proof.
  destruct (mp_alloc_objects (fun _ => true) 24 2 [None; None; Some (2, 16%Z); None; None]) as (l & mp & w & E & Hl & Hap & _);
    [lia|lia|vm_compute; discriminate|reflexivity|cbn; lia|].
  exists l, mp, w. split; [exact E|]. split; [exact Hl|exact Hap].
Defined.

Lemma allocs_length ops : allocs ops <= length ops.
Proof. induction ops as [|[p|] ops IH]; cbn; lia. Qed.

(** [mp_destroy] frees the rows before the current one only: unless the number of calls of
    [mp_alloc] is a multiple of the row size, the block of the last row is never freed. *)
Theorem mp_destroy_leaks (avail : nat -> bool) (O Y : Z) (ops : list (option addr)) (fmt_p : option addr -> list ascii) :
  (1 <= Y)%Z -> (1 <= O)%Z -> (Y * 8 + Y * O <= INT_MAX)%Z -> (forall k, avail k = true) -> (Z.of_nat (length ops) <= 2 ^ 28)%Z ->
  exists l mp w w', pool_session avail O Y ops empty_world = Ok ((l, mp), w) /\
    mp_destroy fmt_p true (Some mp) w = Ok (tt, w') /\
    size (rows w') = if (Z.of_nat (allocs ops) mod Y =? 0)%Z then 0 else 1.
Proof.
  intros HY HO Hsz Ha Hops.
  destruct (pool_session_ok avail O Y ops HY HO Hsz Ha Hops) as (l & mp & w & rs & E & (H & HN & Hy0) & Hg & Hl & Hxy).
  destruct (mp_destroy_ok avail Y O fmt_p w mp rs H) as (w' & E' & Hw').
  exists (Some <$> l), mp, w, w'. split; [done|]. split; [done|].
  pose proof (mo_x _ _ _ _ _ H) as Hx. pose proof (mo_y _ _ _ _ _ H) as Hy. pose proof (mo_rs _ _ _ _ _ H) as Hrs.
  assert (Hsize : size (rows w') = length (drop (Z.to_nat (x mp)) rs)).
  { rewrite <- size_dom. rewrite <- (size_list_to_set (C := gset nat) (drop (Z.to_nat (x mp)) rs)).
    - f_equal. apply set_eq. intros r. rewrite elem_of_dom, elem_of_list_to_set. apply Hw'.
    - pose proof (mo_nodup _ _ _ _ _ H) as ND. rewrite <- (take_drop (Z.to_nat (x mp)) rs) in ND.
      by apply NoDup_app in ND as (_ & _ & ?). }
  rewrite Hsize, length_drop, <- Hxy. rewrite Z.add_comm, Z.mod_add by lia. rewrite Z.mod_small by lia.
  destruct (Z.eqb_spec (y mp) 0) as [E0|E0]; [specialize (Hy0 E0)|]; lia.
Qed.

Lemma mp_destroy_leaks_witness :
  exists l mp w w', pool_session (fun _ => true) 24 2 [None; None; None] empty_world = Ok ((l, mp), w) /\
    mp_destroy fmt_p14 true (Some mp) w = Ok (tt, w') /\ size (rows w') = 1.
Proof.
  apply (mp_destroy_leaks (fun _ => true) 24 2 [None; None; None] fmt_p14);
    [lia|lia|vm_compute; discriminate|reflexivity|cbn; lia].
Defined.

(** The current row of the pool, when there is one. *)
Definition current_row (mp : mem_pool) : option nat :=
  match ptr mp with
  | Some t => match row_at t (x mp) with Ok r => r | Stop _ => None end
  | None => None
  end.

Lemma current_row_ok Y O w mp rs : mp_ok Y O w mp rs -> current_row mp = rs !! Z.to_nat (x mp).
Proof.
  intros H. pose proof (mo_x _ _ _ _ _ H) as Hx. unfold current_row. rewrite (mo_ptr _ _ _ _ _ H).
  destruct (rs !! Z.to_nat (x mp)) as [r|] eqn:Er.
  - destruct (row_at_ok Y O w mp rs (Z.to_nat (x mp)) H) as (t & r' & Et & Er' & E); [by apply lookup_lt_Some in Er|].
    rewrite (mo_ptr _ _ _ _ _ H) in Et. injection Et as <-. rewrite Z2Nat.id in E by lia. rewrite E. congruence.
  - apply lookup_ge_None in Er. unfold row_at. rewrite (aget_Z _ _ SNull); [done|lia|].
    rewrite lookup_app_r by (by rewrite length_fmap). apply lookup_replicate_2. rewrite length_fmap. lia.
Qed.

(** [mp_free] of an object that is in use clears its slot in the header of its row, and nothing
    else, once the row is full; while the row is still the current one it does nothing at all. *)
Theorem mp_free_marks (avail : nat -> bool) (O Y : Z) (ops : list (option addr)) l mp w r hdr c :
  (1 <= Y)%Z -> (1 <= O)%Z -> (Y * 8 + Y * O <= INT_MAX)%Z -> (forall k, avail k = true) -> (Z.of_nat (length ops) <= 2 ^ 28)%Z ->
  pool_session avail O Y ops empty_world = Ok ((l, mp), w) ->
  rows w !! r = Some hdr -> hdr !! c = Some (Some (obj_cell (Y * 8) O r (Z.of_nat c))) ->
  mp_free (Some mp) (Some (obj_cell (Y * 8) O r (Z.of_nat c))) w =
  Ok (tt, if bool_decide (current_row mp = Some r) then w else World (reqs w) (<[r := <[c := None]> hdr]> (rows w))).
Proof.
  intros HY HO Hsz Ha Hops E0 Eh Hc.
  destruct (pool_session_ok avail O Y ops HY HO Hsz Ha Hops) as (l' & mp' & w' & rs & E & (H & _) & _).
  rewrite E in E0. injection E0 as _ -> ->.
  rewrite (current_row_ok Y O w mp rs H).
  assert (Hr : r ∈ rs) by (apply (mo_dom _ _ _ _ _ H); eauto).
  apply list_elem_of_lookup in Hr as (n & Hn).
  pose proof (mo_x _ _ _ _ _ H) as Hx. pose proof (mo_rs _ _ _ _ _ H) as Hrs. pose proof (lookup_lt_Some _ _ _ Hn) as Hlt.
  unfold mp_free. rewrite (mo_ptr _ _ _ _ _ H). destruct (decide (n = Z.to_nat (x mp))) as [->|Hne].
  - rewrite bool_decide_eq_true_2 by done.
    apply (free_scan_miss Y O HY w mp rs (obj_cell (Y * 8) O r (Z.of_nat c)) _ H _ 0); [apply H|lia|].
    intros j r' hdr' Hj Hr' Eh' Hp. apply list_elem_of_lookup in Hp as (c' & Hc').
    apply (hdr_own Y O w mp rs r' hdr' c' _ H Eh') in Hc'. apply (cell_inj _ O HO) in Hc' as [-> _].
    pose proof (NoDup_lookup rs j _ r' (mo_nodup _ _ _ _ _ H) Hr' Hn). lia.
  - rewrite bool_decide_eq_false_2.
    + apply (free_scan_hit Y O HY HO w mp rs r hdr c n _ H Hn Eh Hc _ 0); [apply H|lia|lia].
    + intros E'. apply Hne. by apply (NoDup_lookup rs n _ r (mo_nodup _ _ _ _ _ H)).
Qed.

Lemma mp_free_marks_witness :
  exists l mp w hdr,
    pool_session (fun _ => true) 24 2 [None; None; None] empty_world = Ok ((l, mp), w) /\
    mp_free (Some mp) (Some (obj_cell 16 24 2 1)) w =
      Ok (tt, if bool_decide (current_row mp = Some 2) then w else World (reqs w) (<[2 := <[1 := None]> hdr]> (rows w))).
Proof.
  eexists _, _, _, _. split; [vm_compute; reflexivity|].
  eapply (mp_free_marks (fun _ => true) 24 2 [None; None; None] _ _ _ 2 _ 1);
    [lia|lia|vm_compute; discriminate|reflexivity|cbn; lia|vm_compute; reflexivity|reflexivity|reflexivity].
Defined.

(** The first row is full: the slot is cleared.  The third object is in the current row: it stays. *)
Example free_both :
  match pool_session (fun _ => true) 24 2 [None; None; None; Some (2, 16%Z); Some (3, 16%Z)] empty_world with
  | Ok (_, w) => bool_decide (rows w = {[ 2 := [None; Some (2, 40%Z)]; 3 := [Some (3, 16%Z); None] ]})
  | Stop _ => false end = true.
Proof. vm_compute. reflexivity. Qed.

(** A row that cannot be allocated makes [mp_alloc] return null and leaves the pool as it
    was.  A table that cannot be grown makes it return null too, but the table is lost:
    destroying the pool then is an access through a null pointer. *)
Theorem mp_alloc_no_memory (avail : nat -> bool) (O Y : Z) (w : world) (mp : mem_pool) (rs : list nat) (fmt_p : option addr -> list ascii) :
  (1 <= Y)%Z -> (1 <= O)%Z -> (Y * 8 + Y * O <= INT_MAX)%Z -> mp_ok Y O w mp rs -> (2 <= NX mp <= 2 ^ 28)%Z ->
  avail (reqs w) = false -> (Z.of_nat (length rs) = x mp)%Z ->
  exists mp' w', mp_alloc avail mp w = Ok ((None, mp'), w') /\
    if (x mp =? NX mp - 1)%Z then mp_destroy fmt_p true (Some mp') w' = Stop NullDeref
    else mp' = mp /\ rows w' = rows w.
Proof.
  intros HY HO Hsz H HN Ha Hl. pose proof (mo_x _ _ _ _ _ H) as Hx.
  assert (Hm : forall sz w0, reqs w0 = reqs w -> malloc avail sz w0 = Ok (None, World (S (reqs w0)) (rows w0)))
    by (intros sz w0 E0; unfold malloc, NodePool.malloc; by rewrite E0, Ha).
  unfold mp_alloc. destruct (Z.eqb_spec (x mp) (NX mp - 1)) as [E|E].
  - eexists (Pool None _ _ _ _ _ _), _. split.
    + erewrite M_bind_ok; [|unfold mp_grow; rewrite (proj2 (Z.eqb_eq _ _)) by exact E;
        rewrite (bind_lift _ _ _ (NX mp * 2)%Z) by (apply ck_ok; unfold is_int, INT_MIN, INT_MAX; lia);
        rewrite (M_bind_ok _ _ _ _ _ (Hm _ w eq_refl)); reflexivity]. reflexivity.
    + unfold mp_destroy. rewrite bind_ret. cbn [ptr x]. by rewrite (proj2 (Z.eqb_neq _ 0)) by lia.
  - exists mp, (World (S (reqs w)) (rows w)). split; [|done].
    rewrite (M_bind_ok _ _ w (true, mp) w) by (unfold mp_grow; by rewrite (proj2 (Z.eqb_neq _ _)) by exact E). cbn [negb].
    rewrite (mo_NY _ _ _ _ _ H). rewrite to_int_small by (unfold sizeof_ptr, INT_MAX in *; nia).
    rewrite (M_bind_ok _ _ w (None, mp) (World (S (reqs w)) (rows w))); [done|].
    unfold mp_row. rewrite (mo_ptr _ _ _ _ _ H).
    rewrite (bind_lift _ _ _ None).
    2:{ unfold row_at. rewrite (aget_Z _ _ SNull); [done|lia|]. rewrite lookup_app_r by (rewrite length_fmap; lia).
        apply lookup_replicate_2. rewrite length_fmap. lia. }
    rewrite (mo_NY _ _ _ _ _ H), (mo_NOBJ _ _ _ _ _ H).
    rewrite (bind_lift _ _ _ (Y * O)%Z) by (apply ck_ok; unfold is_int, INT_MIN, INT_MAX in *; nia).
    rewrite (bind_lift _ _ _ (Y * sizeof_ptr + Y * O)%Z) by (apply ck_ok; unfold is_int, sizeof_ptr, INT_MIN, INT_MAX in *; nia).
    by rewrite (M_bind_ok _ _ _ _ _ (Hm _ w eq_refl)).
Qed.

Lemma mp_alloc_no_memory_witness :
  exists mp w mp' w', mp_alloc (fun _ => false) mp w = Ok ((None, mp'), w') /\
    mp_destroy fmt_p14 true (Some mp') w' = Stop NullDeref.
Proof.
  set (rs := [0]). set (mp := Pool (Some [SRow 0; SNull]) 1 0 2 1 4 (40 + 16 + 12)).
  set (w := World 1 {[ 0 := [None] ]}).
  assert (H : mp_ok 1 4 w mp rs).
  { split; try done; try (by vm_compute); try (cbn; lia).
    - apply NoDup_singleton.
    - by repeat constructor.
    - intros r. unfold rs. rewrite list_elem_of_singleton. cbn [rows w]. split.
      + intros [h Eh]. by apply lookup_singleton_Some in Eh as [-> _].
      + intros ->. eexists. reflexivity.
    - intros r hdr Eh. cbn [rows w] in Eh. apply lookup_singleton_Some in Eh as [_ <-]. split; [done|].
      intros [|c] a Hc; discriminate. }
  destruct (mp_alloc_no_memory (fun _ => false) 4 1 w mp rs fmt_p14) as (mp' & w' & E & D);
    [lia|lia|vm_compute; discriminate|exact H|cbn; lia|reflexivity|reflexivity|].
  exists mp, w, mp', w'. split; [exact E|exact D].
Defined.
