(* ===== verification/MmPool.v ===== *)
(** The memory pool of src/mmpool/mmpool.c: like the one of MemPool.v, with one byte of
    header per column, a row size computed from the page size, and no release of objects. *)
From S2P Require Import Prelude MemPool.
From S2P Require NodePool.
Import NodePool (slot, SNull, SGarbage, SRow, resized).
From Stdlib Require Import Ascii.

Record mmpool : Type := MmPool {
  ptr : option (list slot);
  x : Z;
  y : Z;
  X : Z;
  Y : Z;
  obj_size : Z;
  stat_memused : Z;
}.

Definition sizeof_mmpool : Z := 40.

Section mmpool.
Context (avail : nat -> bool) (page_size : Z).

(** [factor * page_size / (objsize * 10.0) - 2], cut to an [int]: the quotient of integers is
    exact enough in [double] for the cut to be that of the rational number. *)
Definition mmp_cols (objsize factor : Z) : res Z :=
  bytes ← ck (factor * page_size);
  let c := ((bytes - 20 * objsize) ÷ (objsize * 10))%Z in
  Ok (if (c <=? 1)%Z then 2%Z else c).

Definition mmp_create (objsize factor : Z) : M world (option mmpool) :=
  if (objsize <=? 0)%Z then mret None
  else
    let factor := if (1 <=? factor)%Z && (factor <=? 10)%Z then factor else 5%Z in
    p ← malloc avail sizeof_mmpool;
    match p with
    | None => mret None
    | Some _ =>
        cols ← lift (mmp_cols objsize factor);
        let X := (factor * (if (objsize <? 256)%Z then 8 else Z.log2 objsize))%Z in
        t ← malloc avail (X * sizeof_ptr);
        match t with
        | None => mret None
        | Some _ =>
            mret (Some (MmPool (Some (replicate (Z.to_nat X) SNull)) 0 0 X cols objsize (u64 (sizeof_mmpool + X * sizeof_ptr))))
        end
    end.

(** [if(mp->y == mp->Y - 1){ ++mp->x; mp->y = 0; }] *)
Definition mmp_next_row (mp : mmpool) : mmpool :=
  if (y mp =? Y mp - 1)%Z then MmPool (ptr mp) (x mp + 1) 0 (X mp) (Y mp) (obj_size mp) (stat_memused mp) else mp.

(** [if(mp->x == mp->X - 1){ ... }]: whether the table could be grown. *)
Definition mmp_grow (mp : mmpool) : M world (bool * mmpool) :=
  if (x mp =? X mp - 1)%Z then
    X2 ← lift (ck (X mp * 2));
    t ← malloc avail (u64 (X2 * sizeof_ptr));
    match t with
    | None => mret (false, MmPool None (x mp) (y mp) (X mp) (Y mp) (obj_size mp) (stat_memused mp))
    | Some _ =>
        let t := take (Z.to_nat (X mp)) (resized (default [] (ptr mp)) X2) ++ replicate (Z.to_nat (X mp)) SNull in
        mret (true, MmPool (Some t) (x mp) (y mp) X2 (Y mp) (obj_size mp) (u64 (stat_memused mp + X mp * sizeof_ptr)))
    end
  else mret (true, mp).

(** [if(!mp->ptr[mp->x]){ ... }]: the row, or none when there is no memory. *)
Definition mmp_row (mp : mmpool) : M world (option nat * mmpool) :=
  match ptr mp with
  | None => stop NullDeref
  | Some t =>
      row ← lift (row_at t (x mp));
      match row with
      | Some r => mret (Some r, mp)
      | None =>
          objs ← lift (ck (Y mp * obj_size mp));
          sz ← lift (ck (Y mp + objs));
          b ← malloc avail (u64 sz);
          match b with
          | None => mret (None, mp)
          | Some r =>
              set_hdr r [];;
              t ← lift (aset t (x mp) (SRow r));
              mret (Some r, MmPool (Some t) (x mp) (y mp) (X mp) (Y mp) (obj_size mp) (u64 (stat_memused mp + sz)))
          end
      end
  end.

Definition mmp_alloc (mp : mmpool) : M world (option addr * mmpool) :=
  '(grown, mp) ← mmp_grow (mmp_next_row mp);
  if negb grown then mret (None, mp)
  else
    '(row, mp) ← mmp_row mp;
    match row with
    | None => mret (None, mp)
    | Some r =>
        off ← lift (ck (obj_size mp * y mp));
        mret (Some (r, Y mp + off)%Z,
              MmPool (ptr mp) (x mp) (y mp + 1) (X mp) (Y mp) (obj_size mp) (stat_memused mp))
    end.

Definition mmp_free (p : option addr) : M world unit := mret tt.

Definition mmp_destroy (mp : option mmpool) : M world unit :=
  match mp with
  | None => mret tt
  | Some mp => match ptr mp with None => mret tt | Some t => free_rows t 0 (Z.to_nat (x mp)) end
  end.

(** ** The test *)
Fixpoint mmp_test_loop (objsize : Z) (by_pool : bool) (todo : nat) (i failed : Z) (mp : mmpool) (out : list (Z * Z * Z))
    : M world (mmpool * list (Z * Z * Z)) :=
  match todo with
  | O => mret (mp, out)
  | S todo =>
      '(node, mp) ← (if by_pool then '(a, mp) ← mmp_alloc mp; mret (bool_decide (a = None), mp)
                     else a ← malloc avail objsize; mret (bool_decide (a = None), mp));
      if (node : bool) then mmp_test_loop objsize by_pool todo (i + 1) (failed + 1) mp out
      else
        l ← lift (ck (i * 2));
        mmp_test_loop objsize by_pool todo (i + 1) failed mp
          (if (i mod 10000 =? 0)%Z then out ++ [((i + 1)%Z, failed, l)] else out)
  end.

(** The nodes have 536 bytes. *)
Definition mmp_test_main (argv : list (list ascii)) : M world (Z * list (Z * Z * Z)) :=
  '(n, method) ← lift (mp_options argv 10000000 0);
  let n := if (n <=? 0)%Z then 10000000%Z else n in
  mp ← mmp_create 536 10;
  match mp with
  | None => mret ((-1)%Z, [])
  | Some mp =>
      '(mp, out) ← mmp_test_loop 536 (method =? 0)%Z (Z.to_nat n) 0 0 mp [];
      mmp_destroy (Some mp);;
      mret (0%Z, out)
  end.
End mmpool.

(** With pages of 4096 bytes the rows of the test have 5 columns, so the first node starts 5 bytes
    into its block: an [int] is written there. *)
Example test_node_misaligned :
  match (mp ← mmp_create (fun _ => true) 4096 536 10;
         match mp with None => stop NullDeref | Some mp => mmp_alloc (fun _ => true) mp end) empty_world with
  | Ok ((Some a, _), _) => bool_decide (a = (2, 5%Z)) | _ => false end = true.
Proof. vm_compute. reflexivity. Qed.

Example test_runs :
  match mmp_test_main (fun _ => true) 4096 [["-"; "n"; "9"]%char] empty_world with
  | Ok ((rc, out), w) => bool_decide (rc = 0%Z /\ out = [(1, 0, 0)]%Z /\ size (rows w) = 1) | Stop _ => false end = true.
Proof. vm_compute. reflexivity. Qed.

(** * What the pool keeps *)
Section mmpool_correct.
Context (avail : nat -> bool) (C O : Z).
Context (HC : (2 <= C)%Z) (HO : (1 <= O)%Z) (Hsz : (C + C * O <= INT_MAX)%Z) (Havail : forall k, avail k = true).

(** The pool [mp] has the rows [rs]; only the first [C - 1] columns of a row are used. *)
Record mm_ok (w : world) (mp : mmpool) (rs : list nat) : Prop := {
  mm_ptr : ptr mp = Some ((SRow <$> rs) ++ replicate (Z.to_nat (X mp) - length rs) SNull);
  mm_x : (0 <= x mp < X mp)%Z;
  mm_y : (0 <= y mp <= C - 1)%Z;
  mm_rs : (Z.of_nat (length rs) = x mp + 1 \/ (Z.of_nat (length rs) = x mp /\ y mp = 0))%Z;
  mm_Y : Y mp = C;
  mm_obj : obj_size mp = O;
  mm_nodup : NoDup rs;
  mm_old : Forall (fun r => r < reqs w) rs;
  mm_dom : forall r, is_Some (rows w !! r) <-> r ∈ rs;
  mm_mem : stat_memused mp = u64 (40 + X mp * 8 + Z.of_nat (length rs) * (C + C * O))
}.

Definition given (mp : mmpool) (rs : list nat) : list addr := objects C O (C - 1) (x mp) (y mp) rs.

Lemma malloc_ok sz w : (sz <= 2 ^ 40)%Z -> malloc avail sz w = Ok (Some (reqs w), World (S (reqs w)) (rows w)).
Proof.
  intros Hs. unfold malloc, NodePool.malloc. rewrite Havail, (proj2 (Z.leb_le _ _)); [done|].
  unfold NodePool.PTRDIFF_MAX. lia.
Qed.

Lemma mm_ok_req w mp rs : mm_ok w mp rs -> mm_ok (World (S (reqs w)) (rows w)) mp rs.
Proof.
  intros [? ? ? ? ? ? ? Hr ? ?]. split; try done. cbn. eapply Forall_impl; [exact Hr|]. cbn. lia.
Qed.

(** The table after the step to the next row may be one row too short; it is grown at once. *)
Lemma mmp_next_grow_ok w mp rs : mm_ok w mp rs -> (X mp <= 2 ^ 28)%Z -> (x mp + 1 < X mp \/ x mp = 0 /\ 2 <= X mp)%Z ->
  exists mp' w', mmp_grow avail (mmp_next_row mp) w = Ok ((true, mp'), w') /\ mm_ok w' mp' rs /\
    given mp' rs = given mp rs /\ (y mp' < C - 1)%Z /\ (x mp' + 1 < X mp')%Z /\
    (x mp' * (C - 1) + y mp' = x mp * (C - 1) + y mp)%Z /\ (x mp <= x mp' <= x mp + 1)%Z /\
    (X mp' = X mp \/ X mp' = 2 * (x mp' + 1))%Z.
Proof.
  intros H HX Hx'. pose proof (mm_x _ _ _ H) as Hx. pose proof (mm_y _ _ _ H) as Hy. pose proof (mm_rs _ _ _ H) as Hrs.
  assert (H1 : mm_ok w (mmp_next_row mp) rs /\ given (mmp_next_row mp) rs = given mp rs /\ (y (mmp_next_row mp) < C - 1)%Z /\
    (x (mmp_next_row mp) * (C - 1) + y (mmp_next_row mp) = x mp * (C - 1) + y mp)%Z /\
    (x mp <= x (mmp_next_row mp) <= x mp + 1)%Z /\ X (mmp_next_row mp) = X mp).
  { unfold mmp_next_row. pose proof (mm_Y _ _ _ H) as HY. destruct (Z.eqb_spec (y mp) (Y mp - 1)) as [E|E]; rewrite HY in E.
    - destruct Hrs as [Hl|[_ Hl]]; [|lia]. split; [|cbn [x y X]; split_and!; try lia].
      + destruct H. split; cbn; try done; lia.
      + unfold given. cbn [x y]. destruct (lookup_lt_is_Some_2 rs (Z.to_nat (x mp)) ltac:(lia)) as [r Hr].
        rewrite (objects_next_row _ _ _ _ _ r) by (done || lia). by rewrite E.
    - split_and!; (done || lia). }
  destruct H1 as (H1 & Hg & Hy1 & Hxy & Hle & HX1). set (mp1 := mmp_next_row mp) in *. clearbody mp1.
  pose proof (mm_x _ _ _ H1) as Hx1. unfold mmp_grow. destruct (Z.eqb_spec (x mp1) (X mp1 - 1)) as [E|E].
  2:{ exists mp1, w. split_and!; try (done || lia). }
  rewrite (bind_lift _ _ _ (X mp1 * 2)%Z) by (apply ck_ok; unfold is_int, INT_MIN, INT_MAX; lia).
  assert (Hu : u64 (X mp1 * 2 * sizeof_ptr) = (X mp1 * 16)%Z)
    by (unfold u64, sizeof_ptr; rewrite Z.mod_small by lia; lia).
  rewrite Hu, (M_bind_ok _ _ _ _ _ (malloc_ok (X mp1 * 16) w ltac:(lia))).
  eexists _, _. split; [done|]. cbn [x y X]. split; [|split_and!; (done || lia)].
  pose proof (mm_rs _ _ _ H1) as Hrs1. apply mm_ok_req in H1. destruct H1 as [Hp ? ? ? ? ? ? ? ? Hm]. split; try done; cbn; try lia.
  - f_equal. rewrite Hp. cbn [from_option id]. unfold id, resized.
    rewrite (take_ge (_ ++ replicate _ SNull)) by (rewrite length_app, length_fmap, length_replicate; lia).
    rewrite take_app_length' by (rewrite length_app, length_fmap, length_replicate; lia).
    rewrite <- (assoc_L app), <- replicate_add. do 2 f_equal. lia.
  - rewrite Hm. unfold u64, sizeof_ptr. rewrite Zplus_mod_idemp_l. f_equal. lia.
Qed.

Lemma mmp_row_ok w mp rs : mm_ok w mp rs ->
  exists r mp' w' rs', mmp_row avail mp w = Ok ((Some r, mp'), w') /\ x mp' = x mp /\ y mp' = y mp /\ X mp' = X mp /\
    mm_ok w' mp' rs' /\ rs' !! Z.to_nat (x mp) = Some r /\ given mp' rs' = given mp rs /\ (Z.of_nat (length rs') = x mp + 1)%Z.
Proof.
  intros H. pose proof (mm_x _ _ _ H) as Hx. pose proof (mm_rs _ _ _ H) as Hrs. pose proof (mm_y _ _ _ H) as Hy.
  unfold mmp_row. rewrite (mm_ptr _ _ _ H). destruct (decide (Z.of_nat (length rs) = x mp + 1)%Z) as [El|El].
  - destruct (lookup_lt_is_Some_2 rs (Z.to_nat (x mp)) ltac:(lia)) as [r Hr].
    rewrite (bind_lift _ _ _ (Some r)).
    2:{ unfold row_at. rewrite (aget_Z _ _ (SRow r)); [done|lia|]. rewrite lookup_app_l by (rewrite length_fmap; lia).
        by rewrite list_lookup_fmap, Hr. }
    exists r, mp, w, rs. by split_and!.
  - destruct Hrs as [|[El' Ey]]; [done|].
    rewrite (bind_lift _ _ _ None).
    2:{ unfold row_at. rewrite (aget_Z _ _ SNull); [done|lia|]. rewrite lookup_app_r by (rewrite length_fmap; lia).
        apply lookup_replicate_2. rewrite length_fmap. lia. }
    rewrite (mm_Y _ _ _ H), (mm_obj _ _ _ H).
    rewrite (bind_lift _ _ _ (C * O)%Z) by (apply ck_ok; unfold is_int, INT_MIN, INT_MAX in *; nia).
    rewrite (bind_lift _ _ _ (C + C * O)%Z) by (apply ck_ok; unfold is_int, INT_MIN, INT_MAX in *; nia).
    assert (Hu : u64 (C + C * O) = (C + C * O)%Z) by (unfold u64, INT_MAX in *; apply Z.mod_small; nia).
    rewrite Hu, (M_bind_ok _ _ _ _ _ (malloc_ok (C + C * O) w ltac:(unfold INT_MAX in *; lia))).
    rewrite (M_bind_ok _ _ _ _ _ (eq_refl : set_hdr _ _ _ = Ok (tt, _))).
    rewrite (bind_lift _ _ _ ((SRow <$> (rs ++ [reqs w])) ++ replicate (Z.to_nat (X mp) - S (length rs)) SNull)).
    2:{ rewrite aset_Z by (rewrite length_app, length_fmap, length_replicate; lia).
        rewrite insert_app_r_alt by (rewrite length_fmap; lia). rewrite length_fmap.
        replace (Z.to_nat (x mp) - length rs) with 0 by lia. rewrite fmap_app, <- (assoc_L app). do 2 f_equal.
        replace (Z.to_nat (X mp) - length rs) with (S (Z.to_nat (X mp) - S (length rs))) by lia. done. }
    assert (Hfresh : reqs w ∉ rs).
    { intros Hin. pose proof (mm_old _ _ _ H) as Ho. rewrite Forall_forall in Ho. specialize (Ho _ Hin). lia. }
    eexists (reqs w), _, _, (rs ++ [reqs w]). split; [done|]. split; [done|]. split; [done|]. split; [done|].
    cbn [rows reqs x]. split; [|split; [|split]].
    + destruct H as [? ? ? ? ? ? ? ? Hdom Hm]. split; cbn; try done.
      * rewrite length_app. cbn. do 3 f_equal. lia.
      * left. rewrite length_app. cbn. lia.
      * apply NoDup_app. split_and!; [done| |apply NoDup_singleton]. intros r Hr Hr2. apply list_elem_of_singleton in Hr2 as ->. done.
      * apply Forall_app. split; [|by constructor; [lia|]]. eapply Forall_impl; [exact mm_old0|]. cbn. lia.
      * intros r. rewrite elem_of_app, list_elem_of_singleton, <- Hdom.
        destruct (decide (r = reqs w)) as [->|Hne]; [rewrite lookup_insert_eq; split; [by right|eauto]|].
        rewrite lookup_insert_ne by done. tauto.
      * rewrite Hm. unfold u64. rewrite Zplus_mod_idemp_l, length_app. cbn [length]. f_equal. lia.
    + rewrite lookup_app_r by lia. by replace (Z.to_nat (x mp) - length rs) with 0 by lia.
    + unfold given. cbn [x y]. rewrite Ey. by apply objects_new_row.
    + rewrite length_app. cbn. lia.
Qed.

(** A pool as [mmp_create] and the calls of [mmp_alloc] leave it. *)
Definition mm_state (w : world) (mp : mmpool) (rs : list nat) : Prop :=
  mm_ok w mp rs /\ (x mp + 1 < X mp \/ x mp = 0 /\ 2 <= X mp)%Z /\ (Z.of_nat (length rs) = x mp + 1 \/ rs = [] /\ x mp = 0 /\ y mp = 0)%Z.

Lemma mmp_alloc_ok w mp rs : mm_state w mp rs -> (X mp <= 2 ^ 28)%Z ->
  exists a mp' w' rs', mmp_alloc avail mp w = Ok ((Some a, mp'), w') /\ mm_state w' mp' rs' /\
    given mp' rs' = given mp rs ++ [a] /\ (x mp' * (C - 1) + y mp' = x mp * (C - 1) + y mp + 1)%Z /\
    (x mp' <= x mp + 1)%Z /\ (X mp' = X mp \/ X mp' = 2 * (x mp' + 1))%Z /\ rs' <> [].
Proof.
  intros (H & HX' & _) HX.
  destruct (mmp_next_grow_ok w mp rs H HX HX') as (mp1 & w1 & E1 & H1 & Hg1 & Hy1 & Hx1 & Hxy1 & Hle & HX1).
  destruct (mmp_row_ok w1 mp1 rs H1) as (r & mp2 & w2 & rs2 & E2 & Hx2 & Hy2 & HX2 & H2 & Hr & Hg2 & Hl).
  unfold mmp_alloc. rewrite (M_bind_ok _ _ _ _ _ E1). cbn [negb]. rewrite (M_bind_ok _ _ _ _ _ E2).
  pose proof (mm_y _ _ _ H2) as Hy. pose proof (mm_x _ _ _ H2) as Hx3. rewrite (mm_obj _ _ _ H2), (mm_Y _ _ _ H2).
  rewrite (bind_lift _ _ _ (O * y mp2)%Z) by (apply ck_ok; unfold is_int, INT_MIN, INT_MAX in *; nia).
  eexists _, _, _, rs2. split; [done|]. cbn [x y X]. split; [|split].
  - split; [|split; [left; cbn [x X]; lia|left; cbn [x]; lia]]. destruct H2. split; cbn; try done; lia.
  - unfold given at 1. cbn [x y]. rewrite (objects_snoc C O (C - 1) (x mp2) (y mp2) rs2 r) by (rewrite ?Hx2; done || lia).
    change (objects C O (C - 1) (x mp2) (y mp2) rs2) with (given mp2 rs2). by rewrite Hg2, Hg1.
  - split_and!; try lia. by intros ->.
Qed.

(** [n] calls of [mmp_alloc]. *)
Fixpoint mmp_run (n : nat) (mp : mmpool) : M world (list (option addr) * mmpool) :=
  match n with
  | 0 => mret ([], mp)
  | S n => '(a, mp) ← mmp_alloc avail mp; '(l, mp) ← mmp_run n mp; mret (a :: l, mp)
  end.

Lemma mmp_run_ok n : forall w mp rs, mm_state w mp rs ->
  (X mp <= 1000 + 2 * (x mp + 1))%Z -> (x mp + Z.of_nat n <= 1000000)%Z ->
  exists l mp' w' rs', mmp_run n mp w = Ok ((Some <$> l, mp'), w') /\ mm_state w' mp' rs' /\
    given mp' rs' = given mp rs ++ l /\ length l = n /\ (X mp' <= 1000 + 2 * (x mp' + 1))%Z /\ (x mp' <= 1000000)%Z /\
    (rs' = [] <-> rs = [] /\ n = 0).
Proof.
  induction n as [|n IH]; intros w mp rs H HX Hn; cbn [mmp_run].
  - exists [], mp, w, rs. rewrite app_nil_r. split_and!; (done || lia || tauto).
  - pose proof (mm_x _ _ _ (proj1 H)) as Hx.
    destruct (mmp_alloc_ok w mp rs H ltac:(lia)) as (a & mp1 & w1 & rs1 & E1 & H1 & Hg1 & Hxy & Hx1 & HX1 & Hne).
    rewrite (M_bind_ok _ _ _ _ _ E1).
    pose proof (mm_y _ _ _ (proj1 H)) as Hy. pose proof (mm_y _ _ _ (proj1 H1)) as Hy1.
    assert (Hle : (x mp <= x mp1)%Z) by nia.
    destruct (IH w1 mp1 rs1 H1) as (l & mp2 & w2 & rs2 & E2 & H2 & Hg2 & Hl & HX2 & Hx2 & Hne2); [lia|lia|].
    rewrite (M_bind_ok _ _ _ _ _ E2). exists (a :: l), mp2, w2, rs2.
    split_and!; try (done || lia); [by rewrite Hg2, Hg1, <- (assoc_L app)|cbn; lia|]. rewrite Hne2. split; [intros [? _]; done|intros [_ ?]; lia].
Qed.
End mmpool_correct.

(** A new pool and [n] calls of [mmp_alloc]. *)
Definition mmp_session (avail : nat -> bool) (page_size O factor : Z) (n : nat) : M world (list (option addr) * mmpool) :=
  mp ← mmp_create avail page_size O factor;
  match mp with None => stop NullDeref | Some mp => mmp_run avail n mp end.

Lemma mmp_create_ok avail page_size O factor :
  (1 <= O <= 1000000)%Z -> (0 <= page_size <= 65536)%Z -> (forall k, avail k = true) ->
  exists C Xn, (2 <= C)%Z /\ (C + C * O <= INT_MAX)%Z /\ (8 <= Xn <= 200)%Z /\
    mmp_create avail page_size O factor empty_world =
    Ok (Some (MmPool (Some (replicate (Z.to_nat Xn) SNull)) 0 0 Xn C O (u64 (sizeof_mmpool + Xn * sizeof_ptr))), World 2 ∅).
Proof.
  intros HO Hpage Ha. unfold mmp_create. rewrite (proj2 (Z.leb_gt O 0)) by lia.
  set (f := if (1 <=? factor)%Z && (factor <=? 10)%Z then factor else 5%Z).
  assert (Hf : (1 <= f <= 10)%Z).
  { subst f. destruct (Z.leb_spec 1 factor), (Z.leb_spec factor 10); cbn; lia. }
  clearbody f.
  rewrite (M_bind_ok _ _ _ _ _ (malloc_ok avail Ha sizeof_mmpool empty_world ltac:(vm_compute; discriminate))).
  set (C := let c := ((f * page_size - 20 * O) ÷ (O * 10))%Z in if (c <=? 1)%Z then 2%Z else c).
  rewrite (bind_lift _ _ _ C).
  2:{ unfold mmp_cols. rewrite ck_ok by (unfold is_int, INT_MIN, INT_MAX; nia). done. }
  assert (HC : (2 <= C)%Z /\ (C + C * O <= INT_MAX)%Z).
  { unfold INT_MAX. subst C. cbv zeta. destruct (Z.leb_spec ((f * page_size - 20 * O) ÷ (O * 10)) 1) as [Hc|Hc]; [lia|].
    assert (Hpos : (0 <= f * page_size - 20 * O)%Z).
    { destruct (Z.le_gt_cases 0 (f * page_size - 20 * O)) as [?|Hneg]; [done|].
      pose proof (Z.quot_opp_l (20 * O - f * page_size) (O * 10) ltac:(lia)) as Ho.
      replace (- (20 * O - f * page_size))%Z with (f * page_size - 20 * O)%Z in Ho by lia.
      pose proof (Z.quot_pos (20 * O - f * page_size) (O * 10) ltac:(lia) ltac:(lia)). lia. }
    pose proof (Z.mul_quot_le (f * page_size - 20 * O) (O * 10) Hpos ltac:(lia)) as Hle.
    set (c := ((f * page_size - 20 * O) ÷ (O * 10))%Z) in *. clearbody c. nia. }
  clearbody C. destruct HC as [HC2 HCs].
  set (Xn := (f * (if (O <? 256)%Z then 8 else Z.log2 O))%Z).
  assert (HX : (8 <= Xn <= 200)%Z).
  { subst Xn. destruct (Z.ltb_spec O 256) as [|Hbig]; [lia|].
    assert (8 <= Z.log2 O < 20)%Z; [|nia]. split; [apply (Z.log2_le_mono (2 ^ 8) O); lia|apply Z.log2_lt_pow2; lia]. }
  clearbody Xn.
  rewrite (M_bind_ok _ _ _ _ _ (malloc_ok avail Ha (Xn * sizeof_ptr) _ ltac:(unfold sizeof_ptr; lia))).
  by exists C, Xn.
Qed.

Lemma mmp_session_ok avail page_size O factor n :
  (1 <= O <= 1000000)%Z -> (0 <= page_size <= 65536)%Z -> (forall k, avail k = true) -> (Z.of_nat n <= 1000000)%Z ->
  exists C l mp w rs, mmp_session avail page_size O factor n empty_world = Ok ((Some <$> l, mp), w) /\
    (2 <= C)%Z /\ (C + C * O <= INT_MAX)%Z /\ mm_ok C O w mp rs /\ given C O mp rs = l /\ length l = n /\
    (X mp <= 4000000)%Z /\ (x mp <= 1000000)%Z /\ (Z.of_nat (length rs) = if decide (n = 0) then 0%Z else (x mp + 1)%Z) /\ (n = 0 -> x mp = 0%Z).
Proof.
  intros HO Hpage Ha Hn.
  destruct (mmp_create_ok avail page_size O factor HO Hpage Ha) as (C & Xn & HC2 & HCs & HX & E0).
  unfold mmp_session. rewrite (M_bind_ok _ _ _ _ _ E0).
  destruct (mmp_run_ok avail C O HC2 ltac:(lia) HCs Ha n (World 2 ∅)
    (MmPool (Some (replicate (Z.to_nat Xn) SNull)) 0 0 Xn C O (u64 (sizeof_mmpool + Xn * sizeof_ptr))) [])
    as (l & mp & w & rs & E & (H & HX' & Hrs) & Hg & Hl & HXb & Hxb & Hne).
  - split; [|split; [right; cbn [x X]; lia|right; done]]. split; cbn [ptr x y X Y obj_size stat_memused length rows reqs]; try done; try lia; try (by constructor).
    + by rewrite Nat.sub_0_r.
    + intros r. rewrite lookup_empty. split; [by intros [? ?]|intros Hr; by apply not_elem_of_nil in Hr].
    + unfold sizeof_mmpool, sizeof_ptr. f_equal. lia.
  - cbn [x X]. lia.
  - cbn [x]. lia.
  - exists C, l, mp, w, rs. split; [exact E|]. split_and!; try (done || lia).
    + destruct (decide (n = 0)) as [->|Hn0]; [by rewrite (proj2 Hne) by done|].
      destruct Hrs as [?|[-> _]]; [done|]. by destruct (proj1 Hne eq_refl).
    + intros ->. destruct Hrs as [Hr|[_ [Hr _]]]; [|done]. rewrite (proj2 Hne) in Hr by done. cbn in Hr.
      pose proof (mm_x _ _ _ _ _ H). lia.
Qed.

(** While memory lasts, [n] calls of [mmp_alloc] on a new pool give [n] objects that lie in
    their rows' blocks behind the header, in all but the last of the [C] columns, and do not
    overlap; [stat_memused] is the size of the pool, its table and its rows. *)
Theorem mmp_alloc_objects (avail : nat -> bool) (page_size O factor : Z) (n : nat) :
  (1 <= O <= 1000000)%Z -> (0 <= page_size <= 65536)%Z -> (forall k, avail k = true) -> (Z.of_nat n <= 1000000)%Z ->
  exists C l mp w, mmp_session avail page_size O factor n empty_world = Ok ((Some <$> l, mp), w) /\ length l = n /\
    (forall i j a b, i <> j -> l !! i = Some a -> l !! j = Some b -> apart O a b) /\
    (forall a, a ∈ l -> in_block C O (C - 1) a /\ is_Some (rows w !! a.1)) /\
    stat_memused mp = (40 + X mp * 8 + Z.of_nat (size (rows w)) * (C + C * O))%Z.
Proof.
  intros HO Hpage Ha Hn.
  destruct (mmp_session_ok avail page_size O factor n HO Hpage Ha Hn) as (C & l & mp & w & rs & E & HC & HCs & H & Hg & Hl & HX & Hx & Hrs & _).
  exists C, l, mp, w. split; [done|]. split; [done|]. subst l. pose proof (mm_y _ _ _ _ _ H) as Hy.
  split; [|split].
  - intros i j a b. apply objects_apart; [lia|by apply H|lia].
  - intros a Ha'. apply objects_in_block in Ha' as [Hb Hr]; [|lia|lia]. split; [done|]. by apply (mm_dom _ _ _ _ _ H).
  - assert (Hs : size (rows w) = length rs).
    { rewrite <- size_dom. rewrite <- (size_list_to_set (C := gset nat) rs) by apply H. f_equal.
      apply set_eq. intros r. rewrite elem_of_dom, elem_of_list_to_set. apply H. }
    rewrite Hs, (mm_mem _ _ _ _ _ H). unfold u64. apply Z.mod_small.
    pose proof (mm_x _ _ _ _ _ H). unfold INT_MAX in HCs. destruct (decide (n = 0)); nia.
Qed.

Lemma mmp_alloc_objects_witness :
  exists C l mp w, mmp_session (fun _ => true) 4096 536 10 9 empty_world = Ok ((Some <$> l, mp), w) /\ length l = 9 /\
    (forall i j a b, i <> j -> l !! i = Some a -> l !! j = Some b -> apart 536 a b) /\
    (forall a, a ∈ l -> in_block C 536 (C - 1) a /\ is_Some (rows w !! a.1)) /\
    stat_memused mp = (40 + X mp * 8 + Z.of_nat (size (rows w)) * (C + C * 536))%Z.
Proof. apply (mmp_alloc_objects (fun _ => true) 4096 536 10 9); [lia|lia|reflexivity|lia]. Defined.

(** [mmp_destroy] never frees the current row: one block is left of every pool from which an
    object was taken. *)
Theorem mmp_destroy_leaks (avail : nat -> bool) (page_size O factor : Z) (n : nat) :
  (1 <= O <= 1000000)%Z -> (0 <= page_size <= 65536)%Z -> (forall k, avail k = true) -> (0 < Z.of_nat n <= 1000000)%Z ->
  exists l mp w w', mmp_session avail page_size O factor n empty_world = Ok ((l, mp), w) /\
    mmp_destroy (Some mp) w = Ok (tt, w') /\ size (rows w') = 1.
Proof.
  intros HO Hpage Ha Hn.
  destruct (mmp_session_ok avail page_size O factor n HO Hpage Ha ltac:(lia)) as (C & l & mp & w & rs & E & HC & HCs & H & Hg & Hl & HX & Hx & Hrs & _).
  exists (Some <$> l), mp, w. pose proof (mm_x _ _ _ _ _ H) as Hx'. rewrite decide_False in Hrs by lia.
  unfold mmp_destroy. rewrite (mm_ptr _ _ _ _ _ H).
  destruct (free_rows_ok avail ((SRow <$> rs) ++ replicate (Z.to_nat (X mp) - length rs) SNull) rs (Z.to_nat (x mp)))
    with (k := 0) (w := w) as (w' & E' & Hw').
  - intros k r Hr. unfold row_at. rewrite (aget_nat _ k (SRow r)); [done|]. rewrite lookup_app_l.
    + by rewrite list_lookup_fmap, Hr.
    + rewrite length_fmap. by apply lookup_lt_Some in Hr.
  - apply H.
  - lia.
  - intros j r _ Hr. apply (mm_dom _ _ _ _ _ H). by apply list_elem_of_lookup_2 in Hr.
  - exists w'. split; [done|]. split; [exact E'|].
    pose proof (mm_nodup _ _ _ _ _ H) as ND. rewrite <- (take_drop (Z.to_nat (x mp)) rs) in ND.
    apply NoDup_app in ND as (_ & Hd & ND2).
    assert (Hs : dom (rows w') = list_to_set (C := gset nat) (drop (Z.to_nat (x mp)) rs)).
    { apply set_eq. intros r. rewrite elem_of_dom, elem_of_list_to_set, Hw', (mm_dom _ _ _ _ _ H), drop_0.
      rewrite <- (take_drop (Z.to_nat (x mp)) rs) at 1. rewrite elem_of_app.
      split; [intros [[?|?] ?]; done|]. intros Hr. split; [by right|]. intros Hr'. by apply (Hd r). }
    rewrite <- size_dom, Hs, size_list_to_set, length_drop by done. lia.
Qed.

Lemma mmp_destroy_leaks_witness :
  exists l mp w w', mmp_session (fun _ => true) 4096 536 10 9 empty_world = Ok ((l, mp), w) /\
    mmp_destroy (Some mp) w = Ok (tt, w') /\ size (rows w') = 1.
Proof. apply (mmp_destroy_leaks (fun _ => true) 4096 536 10 9); [lia|lia|reflexivity|lia]. Defined.
