(* ===== verification/UnionFind.v ===== *)
(** The weighted quick-union of src/algs/algorithms4th/1.5.c.  The growable vectors of
    c-vector/cvector.h, which is not in the repository, are the operations of the class
    [CVector]; they make room for at least what is asked, with new memory as it happens to be. *)
From S2P Require Import Prelude.

(** A vector in memory: one cell per element of its capacity; [None] is a cell that was
    never written. *)
Notation cvec := (list (option Z)).

Class CVector := {
  cvector_init : Z -> res cvec;
  cvector_grow : cvec -> Z -> res cvec;
  cvector_init_law : forall n, (0 <= n)%Z -> exists v, cvector_init n = Ok v /\ (n <= Z.of_nat (length v))%Z;
  cvector_grow_law : forall v n, (0 <= n)%Z -> exists w, cvector_grow v n = Ok w /\ (n <= Z.of_nat (length w))%Z /\
    forall i, i < length v -> (Z.of_nat i < n)%Z -> w !! i = v !! i;
}.

Section code.
Context `{CVector}.

Definition cvector_capacity (v : cvec) : Z := Z.of_nat (length v).

Record wqu_s : Type := Wqu { ids : cvec; maxid : Z; sz : cvec }.

(** Reading and writing an element of a vector. *)
Definition cget (v : cvec) (i : Z) : res Z :=
  c ← aget v i; match c with Some x => Ok x | None => Stop Uninit end.
Definition cset (v : cvec) (i x : Z) : res cvec := aset v i (Some x).

(** [for(i = wqu->maxid + 1; i < maxid; ++i)], [todo] rounds. *)
Fixpoint init_ids (i : Z) (todo : nat) (ids sz : cvec) : res (cvec * cvec) :=
  match todo with
  | O => Ok (ids, sz)
  | S todo => ids ← cset ids i i; sz ← cset sz i 1; init_ids (i + 1) todo ids sz
  end.

Definition wqu_grow (max_id : Z) : M wqu_s Z := fun wqu =>
  if negb (0 <=? max_id)%Z then Ok (-1, wqu)%Z
  else if (cvector_capacity (ids wqu) <? max_id)%Z then
    ids' ← cvector_grow (ids wqu) max_id;
    sz' ← cvector_grow (sz wqu) max_id;
    '(ids', sz') ← init_ids (maxid wqu + 1) (Z.to_nat (max_id - (maxid wqu + 1))) ids' sz';
    Ok (0%Z, Wqu ids' (max_id - 1) sz')
  else Ok (0%Z, wqu).

Definition find_step (wqu : wqu_s) (p : Z) : res (Z + Z) :=
  x ← cget (ids wqu) p; if (x =? p)%Z then Ok (inr p) else Ok (inl x).
Definition wqu_find (fuel : nat) (wqu : wqu_s) (p : Z) : res Z :=
  c_assert ((0 <=? p)%Z && (p <=? maxid wqu)%Z);;
  loop fuel (find_step wqu) p.

(** [wqu_init] of an object; the null pointer is refused with -1. *)
Definition wqu_init : res (Z * wqu_s) :=
  ids ← cvector_init 1;
  sz ← cvector_init 1;
  ids ← cset ids 0 0;
  sz ← cset sz 0 1;
  Ok (0%Z, Wqu ids 0 sz).

(** [wqu->ids[lo] = hi; wqu->sz[hi] += wqu->sz[lo];] *)
Definition wqu_link (wqu : wqu_s) (lo hi : Z) : res wqu_s :=
  ids' ← cset (ids wqu) lo hi;
  a ← cget (sz wqu) hi;
  b ← cget (sz wqu) lo;
  c ← ck (a + b);
  sz' ← cset (sz wqu) hi c;
  Ok (Wqu ids' (maxid wqu) sz').

Definition wqu_union (fuel : nat) (p q : Z) : M wqu_s Z :=
  max_id ← lift (ck (Z.max p q + 1));
  rc ← wqu_grow max_id;
  if negb (rc =? 0)%Z then mret (-2)%Z
  else
    wqu ← gets (fun u => u);
    r ← lift (wqu_find fuel wqu p);
    s ← lift (wqu_find fuel wqu q);
    if (r =? s)%Z then mret 0%Z
    else
      szr ← lift (cget (sz wqu) r);
      szs ← lift (cget (sz wqu) s);
      u ← lift (if (szs <=? szr)%Z then wqu_link wqu s r else wqu_link wqu r s);
      modify (fun _ => u);;
      mret 0%Z.

Definition wqu_is_connected (fuel : nat) (p q : Z) : M wqu_s Z :=
  max_id ← lift (ck (Z.max p q + 1));
  rc ← wqu_grow max_id;
  if negb (rc =? 0)%Z then mret 0%Z
  else
    wqu ← gets (fun u => u);
    r ← lift (wqu_find fuel wqu p);
    s ← lift (wqu_find fuel wqu q);
    mret (if (r =? s)%Z then 1%Z else 0%Z).

Definition wqu_count (wqu : option wqu_s) : Z := 0.

(** * The test *)

(** The steps of a block: [CUnion p q] is a union whose result is asserted to be 0, [CConn p q b]
    a query asserted to be [b], [CSize r n] the assert on [sz[r]]. *)
Inductive check := CUnion (p q : Z) | CConn (p q : Z) (b : bool) | CSize (r n : Z).

Definition run_check (fuel : nat) (c : check) : M wqu_s unit :=
  match c with
  | CUnion p q => rc ← wqu_union fuel p q; lift (c_assert (rc =? 0)%Z)
  | CConn p q b => x ← wqu_is_connected fuel p q; lift (c_assert (eqb b (negb (x =? 0)%Z)))
  | CSize r n => wqu ← gets (fun u => u); x ← lift (cget (sz wqu) r); lift (c_assert (x =? n)%Z)
  end.

Definition run_block (fuel : nat) (cs : list check) : res unit :=
  '(rc, u) ← wqu_init;
  c_assert (rc =? 0)%Z;;
  '(_, _) ← foldr (fun c (k : M wqu_s unit) => run_check fuel c;; k) (mret tt) cs u;
  Ok tt.

(** The pairs of a file: [fscanf] reads the numbers one after the other, the first one alone; a
    number without a partner and the end of the file end the loop. *)
Fixpoint run_pairs (fuel : nat) (tokens : list Z) : M wqu_s unit :=
  match tokens with
  | p :: q :: tokens =>
      c ← wqu_is_connected fuel p q;
      if negb (c =? 0)%Z then run_pairs fuel tokens
      else rc ← wqu_union fuel p q; lift (c_assert (rc =? 0)%Z);; run_pairs fuel tokens
  | _ => mret tt
  end.

Definition run_file (fuel : nat) (file : option (list Z)) : res unit :=
  '(rc, u) ← wqu_init;
  c_assert (rc =? 0)%Z;;
  match file with
  | None => Stop AssertFailed
  | Some [] => Ok tt
  | Some (_ :: tokens) => '(_, _) ← run_pairs fuel tokens u; Ok tt
  end.

Definition blocks : list (list check) :=
  [[CConn 1 0 false; CUnion 0 1; CConn 1 0 true];
   [CConn 1 0 false; CUnion 0 1; CUnion 1 0; CConn 1 0 true];
   [CConn 1 2 false; CConn 1 3 false; CUnion 0 1; CUnion 0 2; CConn 1 2 true; CConn 1 3 false];
   [CConn 1 2 false; CConn 1 3 false; CUnion 1 0; CUnion 2 0; CConn 1 2 true; CConn 1 3 false];
   [CConn 1 4 false; CConn 2 3 false; CUnion 3 1; CUnion 2 4; CConn 1 4 false; CConn 2 3 false; CUnion 4 1; CConn 2 3 true];
   [CUnion 2 1; CUnion 5 1; CUnion 3 4; CConn 1 3 false; CConn 2 3 false; CSize 2 3; CUnion 5 3; CConn 1 3 true;
    CConn 2 3 true; CSize 2 5];
   [CConn 2 1 false; CConn 3 5 false; CConn 4 8 false; CConn 1 4 false; CUnion 2 1; CUnion 3 5; CUnion 4 8; CUnion 1 4;
    CConn 2 1 true; CConn 3 5 true; CConn 4 8 true; CConn 1 4 true; CConn 1 4 true; CConn 2 8 true; CConn 2 3 false]]%Z.

Definition test_algorithms4th_1_5_main (fuel : nat) (mediumUF largeUF : option (list Z)) : res Z :=
  foldr (fun b (k : res Z) => run_block fuel b;; k)
    (run_file fuel mediumUF;; run_file fuel largeUF;; Ok 0%Z) blocks.
End code.

(** A vector that grows to the number of elements asked for. *)
#[export] Program Instance exact_vector : CVector := {
  cvector_init n := Ok (replicate (Z.to_nat n) None);
  cvector_grow v n := Ok (take (Z.to_nat n) v ++ replicate (Z.to_nat n - length v) None);
}.
Next Obligation. intros n Hn. eexists. split; [done|]. rewrite length_replicate. lia. Qed.
Next Obligation.
  intros v n Hn. eexists. split; [done|]. rewrite length_app, length_take, length_replicate. split; [lia|].
  intros i Hi Hin. rewrite lookup_app_l by (rewrite length_take; lia). apply lookup_take_lt. lia.
Qed.

(** One that grows by doubling. *)
Program Definition doubling_vector : CVector := {|
  cvector_init n := Ok (replicate (Z.to_nat n) None);
  cvector_grow v n := Ok (v ++ replicate (Z.to_nat (2 * n) - length v) None);
|}.
Next Obligation. intros n Hn. eexists. split; [done|]. rewrite length_replicate. lia. Qed.
Next Obligation.
  intros v n Hn. eexists. split; [done|]. rewrite length_app, length_replicate. split; [lia|].
  intros i Hi _. by apply lookup_app_l.
Qed.

(** * What the structure keeps *)

(** The number of elements below [n] whose root is [r]. *)
Definition members (root : nat -> nat) (r n : nat) : nat := length (filter (fun i => root i = r) (seq 0 n)).

(** Elements joined by the pairs [E]. *)
Definition joined (E : list (nat * nat)) : nat -> nat -> Prop := rtsc (fun a b => (a, b) ∈ E).

(** How many elements there are. *)
Definition elems (u : wqu_s) : nat := Z.to_nat (maxid u + 1).

(** [par] are the parents in [ids], [root] the ends of their chains, [rk] grows along the chains; the
    size of a root is the number of its members and at least 2 to its rank.  Two
    elements have the same root when the pairs [E] join them. *)
Record forest (u : wqu_s) (E : list (nat * nat)) (par root rk : nat -> nat) : Prop := {
  fo_maxid : (0 <= maxid u)%Z;
  fo_len : elems u <= length (ids u) /\ elems u <= length (sz u);
  fo_ids : forall i, i < elems u -> ids u !! i = Some (Some (Z.of_nat (par i)));
  fo_par : forall i, i < elems u -> par i < elems u;
  fo_out : forall i, elems u <= i -> par i = i /\ rk i = 0;
  fo_root_par : forall i, root (par i) = root i;
  fo_root_fix : forall i, par (root i) = root i;
  fo_root_self : forall i, par i = i -> root i = i;
  fo_root_lt : forall i, i < elems u -> root i < elems u;
  fo_rk : forall i, par i <> i -> rk i < rk (par i);
  fo_rk_root : forall i, rk i <= rk (root i);
  fo_sz : forall r, r < elems u -> par r = r ->
    sz u !! r = Some (Some (Z.of_nat (members root r (elems u)))) /\ 2 ^ rk r <= members root r (elems u);
  fo_joined : forall i j, root i = root j <-> joined E i j
}.

Lemma members_le root r n : members root r n <= n.
Proof. unfold members. rewrite <- (length_seq n 0) at 2. apply length_filter. Qed.

Lemma members_S root r n : members root r (S n) = members root r n + (if decide (root n = r) then 1 else 0).
Proof.
  unfold members. rewrite seq_S, filter_app, length_app. cbn [Nat.add]. f_equal. rewrite filter_cons. by destruct (decide (root n = r)).
Qed.

Lemma members_zero root r n : (forall i, i < n -> root i <> r) -> members root r n = 0.
Proof.
  induction n as [|n IH]; intros Hn; [done|]. rewrite members_S, IH by (intros i Hi; apply Hn; lia).
  rewrite decide_False by (apply Hn; lia). done.
Qed.

Lemma cget_ok (v : cvec) i x : v !! i = Some (Some x) -> cget v (Z.of_nat i) = Ok x.
Proof. intros E. unfold cget. by rewrite (aget_nat _ _ _ E). Qed.

Lemma find_loop_ok u E par root rk : forest u E par root rk -> forall fuel i,
  i < elems u -> rk (root i) < fuel + rk i -> loop fuel (find_step u) (Z.of_nat i) = Ok (Z.of_nat (root i)).
Proof.
  intros F. induction fuel as [|fuel IH]; intros i Hi Hf; [pose proof (fo_rk_root _ _ _ _ _ F i); lia|].
  rewrite loop_step. unfold find_step. rewrite (cget_ok _ _ _ (fo_ids _ _ _ _ _ F i Hi)). cbn [mbind res_bind].
  destruct (Z.eqb_spec (Z.of_nat (par i)) (Z.of_nat i)) as [E0|E0].
  - by rewrite (fo_root_self _ _ _ _ _ F i) by lia.
  - rewrite IH; [by rewrite (fo_root_par _ _ _ _ _ F)|by apply (fo_par _ _ _ _ _ F)|].
    rewrite (fo_root_par _ _ _ _ _ F). pose proof (fo_rk _ _ _ _ _ F i ltac:(lia)). lia.
Qed.

(** A chain has at most as many links as the logarithm of the number of elements. *)
Lemma rank_bound u E par root rk i : forest u E par root rk -> i < elems u ->
  2 ^ rk (root i) <= elems u.
Proof.
  intros F Hi. destruct (fo_sz _ _ _ _ _ F (root i)) as [_ H];
    [by apply (fo_root_lt _ _ _ _ _ F)|apply (fo_root_fix _ _ _ _ _ F)|].
  pose proof (members_le root (root i) (elems u)). lia.
Qed.

Lemma wqu_find_ok u E par root rk fuel i : forest u E par root rk -> i < elems u ->
  elems u < 2 ^ fuel -> wqu_find fuel u (Z.of_nat i) = Ok (Z.of_nat (root i)).
Proof.
  intros F Hi Hf. unfold wqu_find.
  rewrite (proj2 (Z.leb_le 0 _)), (proj2 (Z.leb_le _ _)) by (unfold elems in Hi; lia). cbn [andb c_assert mbind res_bind].
  apply (find_loop_ok u E par root rk F fuel i Hi).
  pose proof (rank_bound _ _ _ _ _ _ F Hi) as Hr.
  assert (2 ^ rk (root i) < 2 ^ fuel) as Hlt by lia. apply Nat.pow_lt_mono_r_iff in Hlt; lia.
Qed.

(** ** Growing *)
Lemma init_ids_ok todo : forall i (a b : cvec), i + todo <= length a -> i + todo <= length b ->
  exists a' b', init_ids (Z.of_nat i) todo a b = Ok (a', b') /\ length a' = length a /\ length b' = length b /\
    (forall j, i <= j < i + todo -> a' !! j = Some (Some (Z.of_nat j)) /\ b' !! j = Some (Some 1%Z)) /\
    forall j, ~ i <= j < i + todo -> a' !! j = a !! j /\ b' !! j = b !! j.
Proof.
  induction todo as [|todo IH]; intros i a b Ha Hb.
  { exists a, b. split_and!; [done|done|done|lia|done]. }
  cbn [init_ids]. unfold cset. rewrite aset_nat by lia. cbn [mbind res_bind]. rewrite aset_nat by lia. cbn [mbind res_bind].
  replace (Z.of_nat i + 1)%Z with (Z.of_nat (S i)) by lia.
  destruct (IH (S i) (<[i:=Some (Z.of_nat i)]> a) (<[i:=Some 1%Z]> b)) as (a' & b' & E & La & Lb & Hin & Hout); [rewrite length_insert; lia..|].
  exists a', b'. rewrite length_insert in La, Lb. split_and!; [done|done|done| |].
  - intros j Hj. destruct (decide (j = i)) as [->|]; [|apply Hin; lia].
    destruct (Hout i ltac:(lia)) as [-> ->]. by rewrite !list_lookup_insert_eq by lia.
  - intros j Hj. destruct (Hout j ltac:(lia)) as [-> ->]. by rewrite !list_lookup_insert_ne by lia.
Qed.

(** New elements are joined with no other. *)
Lemma members_new u E par root rk t r : forest u E par root rk ->
  members root r (elems u + t) = members root r (elems u) + (if decide (elems u <= r < elems u + t) then 1 else 0).
Proof.
  intros F. induction t as [|t IH]; [rewrite Nat.add_0_r, decide_False by lia; lia|].
  rewrite Nat.add_succ_r, members_S, IH. rewrite (fo_root_self _ _ _ _ _ F (elems u + t)) by (apply (fo_out _ _ _ _ _ F); lia).
  destruct (decide (elems u + t = r)), (decide (elems u <= r < elems u + t)), (decide (elems u <= r < S (elems u + t))); lia.
Qed.

Lemma forest_grown u E par root rk (a b : cvec) (m : Z) : forest u E par root rk -> (maxid u < m)%Z ->
  Z.to_nat (m + 1) <= length a -> Z.to_nat (m + 1) <= length b ->
  (forall j, j < elems u -> a !! j = ids u !! j /\ b !! j = sz u !! j) ->
  (forall j, elems u <= j < Z.to_nat (m + 1) -> a !! j = Some (Some (Z.of_nat j)) /\ b !! j = Some (Some 1%Z)) ->
  forest (Wqu a m b) E par root rk.
Proof.
  intros F Hm La Lb Hold Hnew. pose proof (members_new u E par root rk (Z.to_nat (m + 1) - elems u)) as Hmem.
  pose proof (fo_maxid _ _ _ _ _ F) as H0. assert (Hn : elems u <= Z.to_nat (m + 1)) by (unfold elems; lia).
  destruct F as [? ? Fids Fpar Fout ? ? Fself Flt ? ? Fsz ?].
  assert (En : elems (Wqu a m b) = Z.to_nat (m + 1)) by done. set (n := elems u) in *. set (n' := Z.to_nat (m + 1)) in *.
  split; rewrite ?En; cbn [ids sz maxid]; try done; [lia|..].
  - intros i Hi. destruct (decide (i < n)) as [Hin|Hin]; [destruct (Hold i Hin) as [-> _]; by apply Fids|].
    destruct (Hnew i ltac:(lia)) as [-> _]. by destruct (Fout i ltac:(lia)) as [-> _].
  - intros i Hi. destruct (decide (i < n)) as [Hin|Hin]; [specialize (Fpar i Hin); lia|]. by destruct (Fout i ltac:(lia)) as [-> _].
  - intros i Hi. apply Fout. lia.
  - intros i Hi. destruct (decide (i < n)) as [Hin|Hin]; [specialize (Flt i Hin); lia|]. rewrite (Fself i) by (apply Fout; lia). done.
  - intros r Hr Hp. specialize (Hmem r). replace (n + (n' - n)) with n' in Hmem by lia. rewrite Hmem by done. destruct (decide (r < n)) as [Hin|Hin].
    + rewrite decide_False by lia. rewrite Nat.add_0_r. destruct (Hold r Hin) as [_ ->]. by apply Fsz.
    + rewrite decide_True by lia. destruct (Hnew r ltac:(lia)) as [_ ->]. destruct (Fout r ltac:(lia)) as [_ ->].
      rewrite members_zero; [done|]. intros i Hi. specialize (Flt i Hi). lia.
Qed.

Section grow.
Context `{CVector}.

(** Vectors exactly as large as was asked. *)
Definition exact : Prop :=
  (forall n v, cvector_init n = Ok v -> (0 <= n)%Z -> Z.of_nat (length v) = n) /\
  (forall v n w, cvector_grow v n = Ok w -> (0 <= n)%Z -> Z.of_nat (length w) = n).

(** Room is made up to [m - 1], unless the vector has that much already. *)
Lemma wqu_grow_ok u E par root rk m : forest u E par root rk -> (0 <= m)%Z -> (exact -> cvector_capacity (ids u) = maxid u + 1)%Z ->
  exists u', wqu_grow m u = Ok (0%Z, u') /\ forest u' E par root rk /\ (exact -> cvector_capacity (ids u') = maxid u' + 1)%Z /\
    if decide (cvector_capacity (ids u) < m)%Z then maxid u' = (m - 1)%Z else u' = u.
Proof.
  intros F Hm Hx. unfold wqu_grow. rewrite (proj2 (Z.leb_le 0 m)) by lia. cbn [negb].
  destruct (decide _) as [Hlt|Hge]; [|rewrite (proj2 (Z.ltb_ge _ _)) by lia; by exists u]. rewrite (proj2 (Z.ltb_lt _ _)) by lia.
  destruct (cvector_grow_law (ids u) m Hm) as (a & Ea & La & Ha). destruct (cvector_grow_law (sz u) m Hm) as (b & Eb & Lb & Hb).
  rewrite Ea. cbn [mbind res_bind]. rewrite Eb. cbn [mbind res_bind]. unfold cvector_capacity in Hlt.
  pose proof (fo_maxid _ _ _ _ _ F) as H0. pose proof (fo_len _ _ _ _ _ F) as [Hli Hls].
  replace (maxid u + 1)%Z with (Z.of_nat (elems u)) by (unfold elems; lia).
  destruct (init_ids_ok (Z.to_nat (m - Z.of_nat (elems u))) (elems u) a b) as (a' & b' & Ei & La' & Lb' & Hin & Hout); [lia..|].
  rewrite Ei. cbn [mbind res_bind]. eexists. split; [done|]. split; [|split; [|done]].
  - apply (forest_grown u E par root rk); [done|unfold elems in Hli; lia|lia|lia| |].
    + intros j Hj. destruct (Hout j ltac:(lia)) as [-> ->]. split; [apply Ha; lia|apply Hb; lia].
    + intros j Hj. apply Hin. lia.
  - intros [_ Hg]. unfold cvector_capacity. cbn [ids maxid]. rewrite La', (Hg _ _ _ Ea Hm). lia.
Qed.
End grow.

(** ** Joining two trees *)
Lemma members_merge root n lo hi : lo <> hi ->
  members (fun i => if decide (root i = lo) then hi else root i) hi n = members root hi n + members root lo n /\
  forall r, r <> lo -> r <> hi -> members (fun i => if decide (root i = lo) then hi else root i) r n = members root r n.
Proof.
  intros Hne. induction n as [|n [IH1 IH2]]; [done|]. split.
  - rewrite !members_S, IH1. repeat destruct (decide _); (congruence || lia).
  - intros r Hl Hh. rewrite !members_S, IH2 by done. repeat destruct (decide _); (congruence || lia).
Qed.

Lemma joined_cons E p q i j :
  joined ((p, q) :: E) i j <-> joined E i j \/ (joined E i p /\ joined E q j) \/ (joined E i q /\ joined E p j).
Proof.
  assert (Hmono : forall a b, joined E a b -> joined ((p, q) :: E) a b).
  { intros a b. apply rtc_subrel. intros c d [H|H]; [left|right]; by right. }
  assert (Hpq : joined ((p, q) :: E) p q) by (apply rtsc_lr; by left).
  assert (HE : Equivalence (joined E)) by apply rtsc_equivalence.
  assert (HE' : Equivalence (joined ((p, q) :: E))) by apply rtsc_equivalence.
  split.
  - unfold joined at 1. induction 1 as [a|a b c Hab _ IH]; [by left|].
    assert (Hstep : joined E a b \/ (a = p /\ b = q) \/ (a = q /\ b = p)).
    { destruct Hab as [H|H]; apply elem_of_cons in H as [[= -> ->]|H]; auto; left; [by apply rtsc_lr|by apply rtsc_rl]. }
    destruct Hstep as [Hab'|[[-> ->]|[-> ->]]].
    + destruct IH as [IH|[[H1 H2]|[H1 H2]]]; [left|right; left; split|right; right; split]; try done; by transitivity b.
    + destruct IH as [IH|[[H1 H2]|[H1 H2]]]; [right; left; split; done| |].
      * right. left. by split.
      * left. by transitivity p.
    + destruct IH as [IH|[[H1 H2]|[H1 H2]]]; [right; right; split; done| |].
      * left. by transitivity q.
      * right. right. by split.
  - intros [H|[[H1 H2]|[H1 H2]]]; [by apply Hmono| |].
    + transitivity p; [by apply Hmono|]. transitivity q; [done|by apply Hmono].
    + transitivity q; [by apply Hmono|]. transitivity p; [done|by apply Hmono].
Qed.

Lemma link_ok u E par root rk lo hi p q : forest u E par root rk ->
  lo < elems u -> hi < elems u -> par lo = lo -> par hi = hi -> lo <> hi ->
  members root lo (elems u) <= members root hi (elems u) ->
  (root p = lo /\ root q = hi) \/ (root p = hi /\ root q = lo) ->
  (Z.of_nat (elems u) <= INT_MAX)%Z ->
  exists u' par' root' rk', wqu_link u (Z.of_nat lo) (Z.of_nat hi) = Ok u' /\
    forest u' ((p, q) :: E) par' root' rk' /\ maxid u' = maxid u /\ length (ids u') = length (ids u).
Proof.
  intros F Hlo Hhi Plo Phi Hne Hsz Hpq Hmax. set (n := elems u) in *.
  destruct (fo_sz _ _ _ _ _ F lo Hlo Plo) as [Slo Rlo]. destruct (fo_sz _ _ _ _ _ F hi Hhi Phi) as [Shi Rhi].
  fold n in Slo, Rlo, Shi, Rhi. pose proof (fo_len _ _ _ _ _ F) as Hll. fold n in Hll. destruct Hll as [Hli Hls].
  pose proof (members_merge root n lo hi Hne) as [Hm1 Hm2].
  set (root' := fun i => if decide (root i = lo) then hi else root i) in *.
  set (par' := fun i => if decide (i = lo) then hi else par i).
  set (rk' := fun i => if decide (i = hi) then Nat.max (rk hi) (S (rk lo)) else rk i).
  pose proof (members_le root' hi n) as Hle.
  exists (Wqu (<[lo := Some (Z.of_nat hi)]> (ids u)) (maxid u)
              (<[hi := Some (Z.of_nat (members root hi n + members root lo n))]> (sz u))), par', root', rk'.
  split.
  { unfold wqu_link, cset. rewrite aset_nat by lia. cbn [mbind res_bind].
    rewrite (cget_ok _ _ _ Shi). cbn [mbind res_bind]. rewrite (cget_ok _ _ _ Slo). cbn [mbind res_bind].
    rewrite ck_ok by (unfold is_int, INT_MIN, INT_MAX in *; lia). cbn [mbind res_bind].
    rewrite aset_nat by lia. cbn [mbind res_bind]. do 2 f_equal. do 2 f_equal. lia. }
  cbn [ids maxid]. rewrite length_insert. split; [|done].
  assert (Rlo' : root lo = lo) by by apply (fo_root_self _ _ _ _ _ F).
  assert (Rhi' : root hi = hi) by by apply (fo_root_self _ _ _ _ _ F).
  set (u' := Wqu _ _ _). assert (En : elems u' = n) by done. split; rewrite ?En; cbn [u' ids sz maxid]; rewrite ?length_insert.
  - apply F.
  - done.
  - intros i Hi. unfold par'. destruct (decide (i = lo)) as [->|Hil]; [by rewrite list_lookup_insert_eq by lia|].
    rewrite list_lookup_insert_ne by done. by apply (fo_ids _ _ _ _ _ F).
  - intros i Hi. unfold par'. destruct (decide (i = lo)); [done|by apply (fo_par _ _ _ _ _ F)].
  - intros i Hi. unfold par', rk'. rewrite !decide_False by lia. by apply (fo_out _ _ _ _ _ F).
  - intros i. unfold root', par'. destruct (decide (i = lo)) as [->|Hil].
    + rewrite Rhi', Rlo'. by repeat destruct (decide _).
    + by rewrite (fo_root_par _ _ _ _ _ F).
  - intros i. unfold root', par'. destruct (decide (root i = lo)) as [El|El]; repeat destruct (decide _); try done.
    apply (fo_root_fix _ _ _ _ _ F).
  - intros i. unfold root', par'. destruct (decide (i = lo)) as [->|Hil]; [intros ->; done|].
    intros Hp. rewrite (fo_root_self _ _ _ _ _ F i Hp). by rewrite decide_False.
  - intros i Hi. unfold root'. destruct (decide (root i = lo)); [done|by apply (fo_root_lt _ _ _ _ _ F)].
  - intros i. unfold rk', par'. destruct (decide (i = lo)) as [->|Hil].
    + intros _. repeat destruct (decide _); (done || lia).
    + intros Hp. pose proof (fo_rk _ _ _ _ _ F i Hp). repeat destruct (decide _); subst; (congruence || lia).
  - intros i. unfold rk', root'. pose proof (fo_rk_root _ _ _ _ _ F i) as Hi.
    destruct (decide (root i = lo)) as [El|El]; repeat destruct (decide _); subst; try (congruence || lia).
  - intros r Hr. unfold par'. destruct (decide (r = lo)) as [->|Hrl]; [done|]. intros Hp.
    destruct (decide (r = hi)) as [->|Hrh].
    + rewrite list_lookup_insert_eq by lia. rewrite Hm1. split; [done|].
      unfold rk'. rewrite decide_True by done.
      destruct (Nat.max_spec (rk hi) (S (rk lo))) as [[_ ->]|[_ ->]]; [cbn; lia|lia].
    + rewrite list_lookup_insert_ne by done. rewrite Hm2 by done. unfold rk'. rewrite decide_False by done.
      by apply (fo_sz _ _ _ _ _ F).
  - intros i j. rewrite joined_cons, <- !(fo_joined _ _ _ _ _ F). unfold root'.
    destruct Hpq as [[-> ->]|[-> ->]]; repeat destruct (decide _); split; intros; try congruence; try tauto; naive_solver congruence.
Qed.

(** * The structure is a partition *)

(** A call: a union or a question. *)
Inductive uf_op := Union (p q : nat) | Query (p q : nat).

Definition op_ok (o : uf_op) : Prop :=
  match o with Union p q | Query p q => (Z.of_nat p < INT_MAX)%Z /\ (Z.of_nat q < INT_MAX)%Z end.

(** What the calls answer when the pairs [E] have been joined before: a union 0, a question 1 or 0
    as the elements are joined or not. *)
Fixpoint answers (E : list (nat * nat)) (ops : list uf_op) (rs : list Z) : Prop :=
  match ops, rs with
  | [], [] => True
  | Union p q :: ops, r :: rs => r = 0%Z /\ answers ((p, q) :: E) ops rs
  | Query p q :: ops, r :: rs => ((r = 1%Z /\ joined E p q) \/ (r = 0%Z /\ ~ joined E p q)) /\ answers E ops rs
  | _, _ => False
  end.

Section session.
Context `{CVector}.

Fixpoint run_ops (fuel : nat) (ops : list uf_op) : M wqu_s (list Z) :=
  match ops with
  | [] => mret []
  | o :: ops =>
      r ← match o with
          | Union p q => wqu_union fuel (Z.of_nat p) (Z.of_nat q)
          | Query p q => wqu_is_connected fuel (Z.of_nat p) (Z.of_nat q)
          end;
      rs ← run_ops fuel ops;
      mret (r :: rs)
  end.

Definition is_forest (u : wqu_s) (E : list (nat * nat)) : Prop :=
  (exists par root rk, forest u E par root rk) /\ (maxid u < INT_MAX)%Z /\ (exact -> cvector_capacity (ids u) = maxid u + 1)%Z.

Definition fuel_ok (fuel : nat) : Prop := (INT_MAX < 2 ^ Z.of_nat fuel)%Z.

Lemma fuel_enough fuel u : fuel_ok fuel -> (maxid u < INT_MAX)%Z -> elems u < 2 ^ fuel.
Proof. unfold fuel_ok, elems. intros Hf Hn. apply Nat2Z.inj_lt. rewrite Nat2Z.inj_pow. change (Z.of_nat 2) with 2%Z. lia. Qed.

(** The larger element of a call, and whether it is new while the vector has room for it already. *)
Definition largest (o : uf_op) : Z := match o with Union p q | Query p q => Z.max (Z.of_nat p) (Z.of_nat q) end.
Definition overlooked (u : wqu_s) (o : uf_op) : Prop := (maxid u < largest o < cvector_capacity (ids u))%Z.

(** Both calls first make room for the larger element. *)
Lemma room_ok u E p q : is_forest u E -> (Z.of_nat p < INT_MAX)%Z -> (Z.of_nat q < INT_MAX)%Z ->
  let m := (Z.max (Z.of_nat p) (Z.of_nat q))%Z in ck (m + 1) = Ok (m + 1)%Z /\
  exists u' par root rk, wqu_grow (m + 1) u = Ok (0%Z, u') /\ forest u' E par root rk /\ is_forest u' E /\
    ((p < elems u' /\ q < elems u') \/ ((maxid u < m < cvector_capacity (ids u))%Z /\ u' = u)).
Proof.
  intros [(par & root & rk & F) [Hn Hx]] Hp Hq m. split; [apply ck_ok; unfold is_int, INT_MIN, INT_MAX in *; lia|].
  destruct (wqu_grow_ok u E par root rk (m + 1) F ltac:(lia) Hx) as (u' & Eu & F' & Hx' & Hm).
  exists u', par, root, rk. pose proof (fo_maxid _ _ _ _ _ F'). split_and!; [done|done| |].
  - split; [by exists par, root, rk|]. split; [|done]. destruct (decide _); [lia|by subst].
  - unfold elems. subst m. set (m := Z.max (Z.of_nat p) (Z.of_nat q)) in *. assert (Z.of_nat p <= m /\ Z.of_nat q <= m)%Z by (subst m; lia). clearbody m.
    destruct (decide _); [left; lia|]. subst u'. destruct (decide (m <= maxid u)%Z); [left; lia|right; split; [lia|done]].
Qed.

(** [wqu_find] asserts that the element is there. *)
Lemma wqu_find_stop fuel u p : (maxid u < p)%Z -> wqu_find fuel u p = Stop AssertFailed.
Proof. intros Hp. unfold wqu_find. rewrite (proj2 (Z.leb_gt p _)) by done. by rewrite andb_false_r. Qed.

Lemma finds_stop {B} fuel u E par root rk p q (k : Z -> Z -> M wqu_s B) : forest u E par root rk -> fuel_ok fuel -> (maxid u < INT_MAX)%Z ->
  (maxid u < Z.max (Z.of_nat p) (Z.of_nat q))%Z ->
  (r ← lift (wqu_find fuel u (Z.of_nat p)); s ← lift (wqu_find fuel u (Z.of_nat q)); k r s) u = Stop AssertFailed.
Proof.
  intros F Hf Hn Hm. destruct (decide (maxid u < Z.of_nat p)%Z) as [Hp|Hp].
  - by rewrite (wqu_find_stop _ _ _ Hp).
  - rewrite (bind_lift _ _ _ _ (wqu_find_ok u E par root rk fuel p F ltac:(unfold elems; lia) (fuel_enough _ _ Hf Hn))).
    rewrite (wqu_find_stop _ _ (Z.of_nat q)); [done|lia].
Qed.

Lemma wqu_union_ok fuel u E p q : is_forest u E -> fuel_ok fuel -> (Z.of_nat p < INT_MAX)%Z -> (Z.of_nat q < INT_MAX)%Z ->
  (exists u', wqu_union fuel (Z.of_nat p) (Z.of_nat q) u = Ok (0%Z, u') /\ is_forest u' ((p, q) :: E)) \/
  (overlooked u (Union p q) /\ wqu_union fuel (Z.of_nat p) (Z.of_nat q) u = Stop AssertFailed).
Proof.
  intros HF Hfuel Hp Hq. destruct (room_ok u E p q HF Hp Hq) as (Eck & u1 & par & root & rk & Egrow & F & HF1 & Hroom).
  unfold wqu_union. rewrite (bind_lift _ _ _ _ Eck), (M_bind_ok _ _ _ _ _ Egrow). cbn [negb Z.eqb]. rewrite bind_gets.
  destruct HF1 as (_ & Hn & Hx). destruct Hroom as [[Hpl Hql]|[Ho ->]]; [left|right; split; [done|apply (finds_stop _ _ E par root rk); (done || lia)]].
  rewrite (bind_lift _ _ _ _ (wqu_find_ok u1 E par root rk fuel p F Hpl (fuel_enough _ _ Hfuel Hn))).
  rewrite (bind_lift _ _ _ _ (wqu_find_ok u1 E par root rk fuel q F Hql (fuel_enough _ _ Hfuel Hn))).
  destruct (Z.eqb_spec (Z.of_nat (root p)) (Z.of_nat (root q))) as [Er|Er].
  - exists u1. split; [done|]. split; [|done]. exists par, root, rk.
    assert (Hj : joined E p q) by (apply (fo_joined _ _ _ _ _ F); lia).
    destruct F as [? ? ? ? ? ? ? ? ? ? ? ? Fj]. split; try done. intros i j. rewrite joined_cons, Fj.
    assert (HE : Equivalence (joined E)) by apply rtsc_equivalence.
    split; [by left|]. intros [?|[[H1 H2]|[H1 H2]]]; [done| |].
    + transitivity p; [done|]. by transitivity q.
    + transitivity q; [done|]. transitivity p; [by symmetry|done].
  - pose proof (fo_root_lt _ _ _ _ _ F p Hpl) as Hrp. pose proof (fo_root_lt _ _ _ _ _ F q Hql) as Hrq.
    pose proof (fo_root_fix _ _ _ _ _ F p) as Frp. pose proof (fo_root_fix _ _ _ _ _ F q) as Frq.
    destruct (fo_sz _ _ _ _ _ F (root p) Hrp Frp) as [Sp _]. destruct (fo_sz _ _ _ _ _ F (root q) Hrq Frq) as [Sq _].
    rewrite (bind_lift _ _ _ _ (cget_ok _ _ _ Sp)), (bind_lift _ _ _ _ (cget_ok _ _ _ Sq)).
    assert (Hmax : (Z.of_nat (elems u1) <= INT_MAX)%Z) by (unfold elems, INT_MAX in *; lia).
    assert (exists u' par' root' rk',
      (if (Z.of_nat (members root (root q) (elems u1)) <=? Z.of_nat (members root (root p) (elems u1)))%Z
       then wqu_link u1 (Z.of_nat (root q)) (Z.of_nat (root p)) else wqu_link u1 (Z.of_nat (root p)) (Z.of_nat (root q))) = Ok u' /\
      forest u' ((p, q) :: E) par' root' rk' /\ maxid u' = maxid u1 /\ length (ids u') = length (ids u1)) as (u' & par' & root' & rk' & El & F' & Hm' & Hl').
    { destruct (Z.leb_spec (Z.of_nat (members root (root q) (elems u1))) (Z.of_nat (members root (root p) (elems u1)))).
      - apply (link_ok u1 E par root rk (root q) (root p) p q F); try done; [lia|lia|by right].
      - apply (link_ok u1 E par root rk (root p) (root q) p q F); try done; [lia|lia|by left]. }
    rewrite (bind_lift _ _ _ _ El). exists u'. split; [done|]. split; [by exists par', root', rk'|].
    unfold cvector_capacity in *. rewrite Hm', Hl'. done.
Qed.

Lemma wqu_is_connected_ok fuel u E p q : is_forest u E -> fuel_ok fuel -> (Z.of_nat p < INT_MAX)%Z -> (Z.of_nat q < INT_MAX)%Z ->
  (exists r u', wqu_is_connected fuel (Z.of_nat p) (Z.of_nat q) u = Ok (r, u') /\ is_forest u' E /\
    ((r = 1%Z /\ joined E p q) \/ (r = 0%Z /\ ~ joined E p q))) \/
  (overlooked u (Query p q) /\ wqu_is_connected fuel (Z.of_nat p) (Z.of_nat q) u = Stop AssertFailed).
Proof.
  intros HF Hfuel Hp Hq. destruct (room_ok u E p q HF Hp Hq) as (Eck & u1 & par & root & rk & Egrow & F & HF1 & Hroom).
  unfold wqu_is_connected. rewrite (bind_lift _ _ _ _ Eck), (M_bind_ok _ _ _ _ _ Egrow). cbn [negb Z.eqb]. rewrite bind_gets.
  pose proof (proj1 (proj2 HF1)) as Hn. destruct Hroom as [[Hpl Hql]|[Ho ->]]; [left|right; split; [done|apply (finds_stop _ _ E par root rk); (done || lia)]].
  rewrite (bind_lift _ _ _ _ (wqu_find_ok u1 E par root rk fuel p F Hpl (fuel_enough _ _ Hfuel Hn))).
  rewrite (bind_lift _ _ _ _ (wqu_find_ok u1 E par root rk fuel q F Hql (fuel_enough _ _ Hfuel Hn))).
  eexists _, u1. split; [done|]. split; [done|].
  rewrite <- (fo_joined _ _ _ _ _ F). destruct (Z.eqb_spec (Z.of_nat (root p)) (Z.of_nat (root q))); [left|right]; split; (done || lia).
Qed.

Lemma wqu_init_ok : exists u, wqu_init = Ok (0%Z, u) /\ is_forest u [].
Proof.
  unfold wqu_init. destruct (cvector_init_law 1 ltac:(lia)) as (v & Ev & Lv). rewrite Ev. cbn [mbind res_bind].
  destruct v as [|c v]; cbn [length] in Lv; [lia|]. unfold cset. change 0%Z with (Z.of_nat 0). rewrite !aset_nat by (cbn; lia).
  cbn [mbind res_bind list_insert]. eexists. split; [done|]. split; [|split; [vm_compute; reflexivity|]].
  - exists (fun i => i), (fun i => i), (fun _ => 0). split; cbn; try done.
    + change (elems _) with 1. lia.
    + change (elems _) with 1. intros [|i] Hi; [done|lia].
    + change (elems _) with 1. intros [|r] Hr; [|lia]. intros _. split; [done|]. vm_compute. lia.
    + intros i j. split; [intros ->; apply rtsc_equivalence|].
      intros Hj. induction Hj as [|a b d [Hab|Hab] _ _]; [done|..]; by apply not_elem_of_nil in Hab.
  - intros [Hi _]. by apply (Hi _ _ Ev).
Qed.

(** The calls up to one at which the assert fails. *)
Definition stops_at (fuel : nat) (u : wqu_s) (E : list (nat * nat)) (ops : list uf_op) : Prop :=
  exists ops1 o ops2 rs u1, ops = ops1 ++ o :: ops2 /\ run_ops fuel ops1 u = Ok (rs, u1) /\ answers E ops1 rs /\
    overlooked u1 o /\ run_ops fuel ops u = Stop AssertFailed /\ ~ exact.

Lemma overlooked_inexact u E o : is_forest u E -> overlooked u o -> ~ exact.
Proof. intros (_ & _ & Hx) Ho H'. unfold overlooked in Ho. rewrite (Hx H') in Ho. lia. Qed.

Lemma run_ops_ok fuel ops : fuel_ok fuel -> Forall op_ok ops -> forall u E, is_forest u E ->
  (exists rs u', run_ops fuel ops u = Ok (rs, u') /\ answers E ops rs) \/ stops_at fuel u E ops.
Proof.
  intros Hfuel. induction 1 as [|[p q|p q] ops [Hp Hq] _ IH]; intros u E HF; [left; by exists [], u|..].
  - destruct (wqu_union_ok fuel u E p q HF Hfuel Hp Hq) as [(u1 & E1 & HF1)|[Ho E1]].
    2:{ right. exists [], (Union p q), ops, [], u. split_and!; try done; [cbn [run_ops]; by apply M_bind_stop|by eapply overlooked_inexact]. }
    destruct (IH u1 _ HF1) as [(rs & u2 & E2 & Ha)|(ops1 & o & ops2 & rs & u2 & -> & E2 & Ha & Ho & Es & Hx)]; [left|right].
    + cbn [run_ops]. rewrite (M_bind_ok _ _ _ _ _ E1), (M_bind_ok _ _ _ _ _ E2). by exists (0%Z :: rs), u2.
    + exists (Union p q :: ops1), o, ops2, (0%Z :: rs), u2. cbn [run_ops]. rewrite !(M_bind_ok _ _ _ _ _ E1), (M_bind_ok _ _ _ _ _ E2), (M_bind_stop _ _ _ _ Es). done.
  - destruct (wqu_is_connected_ok fuel u E p q HF Hfuel Hp Hq) as [(r & u1 & E1 & HF1 & Hr)|[Ho E1]].
    2:{ right. exists [], (Query p q), ops, [], u. split_and!; try done; [cbn [run_ops]; by apply M_bind_stop|by eapply overlooked_inexact]. }
    destruct (IH u1 _ HF1) as [(rs & u2 & E2 & Ha)|(ops1 & o & ops2 & rs & u2 & -> & E2 & Ha & Ho & Es & Hx)]; [left|right].
    + cbn [run_ops]. rewrite (M_bind_ok _ _ _ _ _ E1), (M_bind_ok _ _ _ _ _ E2). by exists (r :: rs), u2.
    + exists (Query p q :: ops1), o, ops2, (r :: rs), u2. cbn [run_ops]. rewrite !(M_bind_ok _ _ _ _ _ E1), (M_bind_ok _ _ _ _ _ E2), (M_bind_stop _ _ _ _ Es). done.
Qed.
End session.

(** C13: From [wqu_init] on, any unions and questions about non-negative ints below INT_MAX are answered, and as
    the equivalence closure of the united pairs says; 31 rounds of the loop of [wqu_find] are enough, the trees being
    joined by weight.  This holds when the vectors, as they grow, get exactly the room that is asked for.  When they may get more, the only other
    outcome is that the calls so far were answered in this way and the assert in [wqu_find] fails at a call with an element that is new
    though the vector has room for it. *)
Theorem wqu_refines_partition (CV : CVector) (ops : list uf_op) :
  Forall op_ok ops ->
  exists u, wqu_init = Ok (0%Z, u) /\
    ((exists rs u', run_ops 31 ops u = Ok (rs, u') /\ answers [] ops rs) \/ stops_at 31 u [] ops).
Proof.
  intros Hops. destruct wqu_init_ok as (u & Eu & HF). exists u. split; [done|].
  by apply (run_ops_ok 31 ops ltac:(vm_compute; reflexivity) Hops u []).
Qed.

Lemma exact_vector_exact : @exact exact_vector.
Proof.
  split; [intros n v|intros v n w]; intros [= <-] Hn; rewrite ?length_app, ?length_take, length_replicate; lia.
Qed.

Lemma wqu_refines_partition_witness :
  exists rs u u', wqu_init = Ok (0%Z, u) /\ run_ops 31 [Union 3 1; Query 1 2; Union 1 2; Query 3 2] u = Ok (rs, u') /\
    answers [] [Union 3 1; Query 1 2; Union 1 2; Query 3 2] rs.
Proof.
  destruct (wqu_refines_partition exact_vector [Union 3 1; Query 1 2; Union 1 2; Query 3 2]) as (u & Eu & [(rs & u' & E & Ha)|Hs]).
  - repeat constructor.
  - exists rs, u, u'. split; [exact Eu|]. split; [exact E|exact Ha].
  - destruct Hs as (? & ? & ? & ? & ? & _ & _ & _ & _ & _ & Hx). destruct (Hx exact_vector_exact).
Defined.

(** A vector that doubles has room for 2 before 2 is an element. *)
Example doubling_stops : ('(_, u) ← @wqu_init doubling_vector; @run_ops doubling_vector 31 [Union 0 1; Query 0 2] u) = Stop AssertFailed.
Proof. vm_compute. reflexivity. Qed.

(** The blocks of the test, and two small files. *)
Example test_passes : test_algorithms4th_1_5_main 32 (Some [5; 0; 1; 1; 0; 4; 2])%Z (Some [3; 0; 2; 1]%Z) = Ok 0%Z.
Proof. vm_compute. reflexivity. Qed.
