(* ===== verification/Compete.v ===== *)
(** The programs of src/algs/9787302356288/9787302356288.c: three solutions of the number
    triangle, and the balls that drop through a binary tree of switches. *)
From S2P Require Import Prelude.

(** * The number triangle *)
Definition maxN : Z := 5.

(** A matrix of ints; [p[i][j]].  A cell of [d] that was never written is [None]. *)
Definition at_ (p : list (list Z)) (i j : Z) : res Z := row ← aget p i; aget row j.

Notation matrix := (list (list (option Z))).
Definition d_get (d : matrix) (i j : Z) : res Z :=
  row ← aget d i; c ← aget row j; match c with Some x => Ok x | None => Stop Uninit end.
Definition d_set (d : matrix) (i j x : Z) : res matrix :=
  row ← aget d i; row ← aset row j (Some x); aset d i row.

(** The macro [max]: the larger argument is evaluated once more. *)
Definition max_macro (a b : res Z) : res Z := x ← a; y ← b; if (y <? x)%Z then a else b.

Fixpoint solve1_r (fuel : nat) (p : list (list Z)) (i j n : Z) : res Z :=
  match fuel with
  | O => Stop OutOfFuel
  | S fuel =>
      x ← at_ p i j;
      if (x <? 0)%Z then Ok 0%Z
      else m ← max_macro (solve1_r fuel p (i + 1) j n) (solve1_r fuel p i (j + 1) n); ck (x + m)
  end.
Definition solve1 (fuel : nat) (p : list (list Z)) (n : Z) : res Z := solve1_r fuel p 0 0 n.

Definition solve2_r (fuel : nat) (p : list (list Z)) (i j n : Z) (d : matrix) : res (Z * matrix) :=
  c_assert ((0 <=? i) && (0 <=? j) && (0 <? n))%Z;;
  c ← d_get d i j;
  if (0 <=? c)%Z then Ok (c, d)
  else
    x ← at_ p i j;
    r ← (if (x <? 0)%Z then Ok 0%Z
         else m ← max_macro (solve1_r fuel p (i + 1) j n) (solve1_r fuel p i (j + 1) n); ck (x + m));
    d ← d_set d i j r;
    Ok (r, d).

(** The two loops of [solve2]: [todo] columns of a row from [j] down, [todo] rows from [i] on. *)
Fixpoint clear_row (i j : Z) (todo : nat) (d : matrix) : res matrix :=
  match todo with O => Ok d | S todo => d ← d_set d i j (-1); clear_row i (j - 1) todo d end.
Fixpoint clear_rows (n i : Z) (todo : nat) (d : matrix) : res matrix :=
  match todo with
  | O => Ok d
  | S todo => d ← clear_row i (n - 1 - i) (Z.to_nat (n - i)) d; clear_rows n (i + 1) todo d
  end.
Definition solve2 (fuel : nat) (p : list (list Z)) (d : matrix) (n : Z) : res (Z * matrix) :=
  d ← clear_rows n 0 (Z.to_nat n) d;
  solve2_r fuel p 0 0 n d.

(** The diagonal [i + j = k] of [solve3], from [i] down and [j] up. *)
Fixpoint solve_diagonal (p : list (list Z)) (n i j : Z) (todo : nat) (d : matrix) : res matrix :=
  match todo with
  | O => Ok d
  | S todo =>
      x ← at_ p i j;
      v ← (if (i + j =? n - 1)%Z then Ok x
           else m ← max_macro (d_get d (i + 1) j) (d_get d i (j + 1)); ck (x + m));
      d ← d_set d i j v;
      solve_diagonal p n (i - 1) (j + 1) todo d
  end.
(** The diagonals [k] from [todo - 1] down to 0. *)
Fixpoint solve_diagonals (p : list (list Z)) (n : Z) (todo : nat) (d : matrix) : res matrix :=
  match todo with
  | O => Ok d
  | S k => d ← solve_diagonal p n (Z.of_nat k) 0 (S k) d; solve_diagonals p n k d
  end.
Definition solve3 (p : list (list Z)) (d : matrix) (n : Z) : res Z :=
  d ← solve_diagonals p n (Z.to_nat n) d;
  d_get d 0 0.

(** [int D[maxN][maxN];] *)
Definition fresh_D : matrix := replicate 5 (replicate 5 None).

Definition rec : list (list Z) :=
  [[1; 2; 1; 20; -1]; [3; 10; 2; -1; -1]; [4; 3; -1; -1; -1]; [4; -1; -1; -1; -1]; [-1; 0; 0; 0; 0]]%Z.

Definition test_max_subarray_main (fuel : nat) : res Z :=
  r ← solve1 fuel rec 4;
  c_assert (r =? 24)%Z;;
  '(r, _) ← solve2 fuel rec fresh_D 4;
  c_assert (r =? 24)%Z;;
  r ← solve3 rec fresh_D 4;
  c_assert (r =? 24)%Z;;
  Ok 0%Z.

(** * The dropping balls *)
Definition s_maxD : Z := 2 ^ 20.

(** [s_s] after its [memset]: a map in which an absent index holds 0. *)
Definition switch (s : gmap Z Z) (k : Z) : res Z :=
  if (0 <=? k)%Z && (k <? s_maxD)%Z then Ok (default 0%Z (s !! k)) else Stop OutOfBounds.

(** [for(;;)]: one ball, from node [k] on. *)
Definition drop_step (n : Z) (st : gmap Z Z * Z) : res ((gmap Z Z * Z) + (gmap Z Z * Z)) :=
  let '(s, k) := st in
  v ← switch s k;
  let v := if (v =? 0)%Z then 1%Z else 0%Z in
  let s := <[k := v]> s in
  k ← ck (if (v =? 0)%Z then 2 * k + 1 else 2 * k)%Z;
  if (n <? k)%Z then Ok (inr (s, k)) else Ok (inl (s, k)).

(** The loop over [i]: the balls [todo] to come; [k] is what the last ball left. *)
Fixpoint drop_all (fuel : nat) (n : Z) (todo : nat) (s : gmap Z Z) (k : Z) : res Z :=
  match todo with
  | O => Ok k
  | S todo => '(s, k) ← loop fuel (drop_step n) (s, 1%Z); drop_all fuel n todo s k
  end.

Definition dropping_balls (D I : Z) : res Z :=
  if negb ((0 <? D)%Z && (0 <? I)%Z) then Ok (-1)%Z
  else if (31 <=? D)%Z then Stop BadShift
  else
    let n := (Z.shiftl 1 D - 1)%Z in
    k ← drop_all (Z.to_nat D) n (Z.to_nat I) ∅ 0;
    Ok (k ÷ 2)%Z.

Definition balls : list (Z * Z * Z) :=
  [(4, 2, 12); (3, 4, 7); (10, 1, 512); (2, 2, 3); (8, 128, 255); (16, 12345, 36358)]%Z.

Definition test_9787302356288_tree_main : res Z :=
  foldr (fun '(D, count, want) (k : res Z) => r ← dropping_balls D count; c_assert (r =? want)%Z;; k) (Ok 0%Z) balls.

(** * The best path *)
Definition val (p : list (list Z)) (i j : nat) : Z :=
  match at_ p (Z.of_nat i) (Z.of_nat j) with Ok x => x | Stop _ => 0%Z end.

(** The numbers on a path of down ([false]) and right ([true]) steps from [i], [j]. *)
Fixpoint path_sum (p : list (list Z)) (i j : nat) (steps : list bool) : Z :=
  match steps with
  | [] => 0
  | b :: steps => val p i j + (if b then path_sum p i (S j) steps else path_sum p (S i) j steps)
  end.

Fixpoint best (p : list (list Z)) (m i j : nat) : Z :=
  match m with
  | O => 0
  | S m => val p i j + Z.max (best p m (S i) j) (best p m i (S j))
  end.

Lemma best_is_max p m : forall i j,
  (forall steps, length steps = m -> (path_sum p i j steps <= best p m i j)%Z) /\
  exists steps, length steps = m /\ path_sum p i j steps = best p m i j.
Proof.
  induction m as [|m IH]; intros i j; cbn [best].
  - split; [|by exists []]. intros steps Hs. by destruct steps.
  - destruct (IH (S i) j) as [U1 (s1 & L1 & E1)]. destruct (IH i (S j)) as [U2 (s2 & L2 & E2)]. split.
    + intros [|b steps] Hs; [discriminate|]. injection Hs as Hs. cbn [path_sum].
      destruct b; [specialize (U2 steps Hs)|specialize (U1 steps Hs)]; lia.
    + destruct (Z.max_spec (best p m (S i) j) (best p m i (S j))) as [[_ ->]|[_ ->]];
        [exists (true :: s2)|exists (false :: s1)]; cbn; rewrite ?L1, ?L2; split; (done || lia).
Qed.

Section triangle.
Context (p : list (list Z)) (n : nat) (bound : Z).

(** A triangle of side [n]: numbers from 0 to [bound] with a border of negative ones behind. *)
Record triangle : Prop := {
  tr_in : forall i j, i + j < n -> exists x, at_ p (Z.of_nat i) (Z.of_nat j) = Ok x /\ (0 <= x <= bound)%Z;
  tr_border : forall i j, i + j = n -> exists x, at_ p (Z.of_nat i) (Z.of_nat j) = Ok x /\ (x < 0)%Z;
  tr_n : 1 <= n;
  tr_fits : (Z.of_nat n * bound <= INT_MAX)%Z
}.
Context (T : triangle).

Lemma best_bounds m : forall i j, i + j + m = n -> (0 <= best p m i j <= Z.of_nat m * bound)%Z.
Proof.
  induction m as [|m IH]; intros i j Hm; cbn [best]; [lia|].
  destruct (tr_in T i j ltac:(lia)) as (x & Ex & Hx). unfold val. rewrite Ex.
  pose proof (IH (S i) j ltac:(lia)). pose proof (IH i (S j) ltac:(lia)). lia.
Qed.

Lemma max_macro_ok (a b : res Z) x y : a = Ok x -> b = Ok y -> max_macro a b = Ok (Z.max x y).
Proof.
  intros -> ->. unfold max_macro. cbn. destruct (Z.ltb_spec y x); f_equal; lia.
Qed.

(** The step of all three solutions. *)
Lemma step_ok m i j : i + j + S m = n ->
  exists x, at_ p (Z.of_nat i) (Z.of_nat j) = Ok x /\ (0 <= x)%Z /\
    ck (x + Z.max (best p m (S i) j) (best p m i (S j))) = Ok (best p (S m) i j).
Proof.
  intros Hm. destruct (tr_in T i j ltac:(lia)) as (x & Ex & Hx). exists x. split; [done|]. split; [lia|].
  pose proof (best_bounds (S m) i j Hm) as Hb. cbn [best] in Hb |- *. unfold val in Hb |- *. rewrite Ex in Hb |- *.
  apply ck_ok. pose proof (tr_fits T). unfold is_int, INT_MIN. nia.
Qed.

Lemma solve1_r_ok m : forall i j fuel, i + j + m = n -> m < fuel ->
  solve1_r fuel p (Z.of_nat i) (Z.of_nat j) (Z.of_nat n) = Ok (best p m i j).
Proof.
  induction m as [|m IH]; intros i j fuel Hm Hf; (destruct fuel as [|fuel]; [lia|]); cbn [solve1_r].
  - destruct (tr_border T i j ltac:(lia)) as (x & -> & Hx). cbn. by rewrite (proj2 (Z.ltb_lt x 0)) by lia.
  - destruct (step_ok m i j Hm) as (x & -> & Hx & E). cbn [mbind res_bind]. rewrite (proj2 (Z.ltb_ge x 0)) by lia.
    rewrite (max_macro_ok _ _ (best p m (S i) j) (best p m i (S j))); [exact E| |];
      [rewrite <- IH with (fuel := fuel) by lia|rewrite <- IH with (fuel := fuel) by lia]; f_equal; lia.
Qed.

(** ** The matrix of the other two *)
Definition shape (d : matrix) : Prop := forall i, i < n -> exists row, d !! i = Some row /\ n <= length row.

Lemma d_set_ok (d : matrix) i j x : shape d -> i < n -> j < n ->
  exists d', d_set d (Z.of_nat i) (Z.of_nat j) x = Ok d' /\ shape d' /\
    d_get d' (Z.of_nat i) (Z.of_nat j) = Ok x /\
    forall i' j', i' <> i \/ j' <> j -> i' < n -> d_get d' (Z.of_nat i') (Z.of_nat j') = d_get d (Z.of_nat i') (Z.of_nat j').
Proof.
  intros Hs Hi Hj. destruct (Hs i Hi) as (row & Er & Hrow). pose proof (lookup_lt_Some _ _ _ Er) as Hlt.
  unfold d_set. rewrite (aget_nat _ _ _ Er). cbn [mbind res_bind]. rewrite aset_nat by lia. cbn [mbind res_bind].
  rewrite aset_nat by done. eexists. split; [done|]. split; [|split].
  - intros k Hk. destruct (decide (k = i)) as [->|Hne].
    + rewrite list_lookup_insert_eq by done. eexists. split; [done|]. by rewrite length_insert.
    + rewrite list_lookup_insert_ne by done. by apply Hs.
  - unfold d_get. rewrite (aget_nat _ i (<[j:=Some x]> row)) by (by apply list_lookup_insert_eq). cbn [mbind res_bind].
    by rewrite (aget_nat _ j (Some x)) by (apply list_lookup_insert_eq; lia).
  - intros i' j' Hne Hi'. unfold d_get. destruct (Hs i' Hi') as (row' & Er' & _). destruct (decide (i' = i)) as [->|Hii].
    + rewrite Er in Er'. injection Er' as <-.
      rewrite (aget_nat _ i (<[j:=Some x]> row)) by (by apply list_lookup_insert_eq). rewrite (aget_nat _ i row) by done.
      cbn [mbind res_bind]. unfold aget. rewrite length_insert, Nat2Z.id.
      by rewrite list_lookup_insert_ne by (destruct Hne; done).
    + rewrite (aget_nat _ i' row') by (by rewrite list_lookup_insert_ne). by rewrite (aget_nat _ i' row').
Qed.

Lemma clear_row_ok i todo : i < n -> forall (d : matrix) j, shape d -> (j < Z.of_nat n)%Z -> (Z.of_nat todo <= j + 1)%Z ->
  exists d', clear_row (Z.of_nat i) j todo d = Ok d' /\ shape d' /\
    (forall j', (j - Z.of_nat todo < Z.of_nat j' <= j)%Z -> d_get d' (Z.of_nat i) (Z.of_nat j') = Ok (-1)%Z) /\
    (forall i' j', i' <> i \/ ~ (j - Z.of_nat todo < Z.of_nat j' <= j)%Z -> i' < n ->
       d_get d' (Z.of_nat i') (Z.of_nat j') = d_get d (Z.of_nat i') (Z.of_nat j')).
Proof.
  intros Hi. induction todo as [|todo IH]; intros d j Hs Hj Ht; cbn [clear_row].
  - exists d. split; [done|]. split; [done|]. split; [intros; lia|done].
  - destruct (d_set_ok d i (Z.to_nat j) (-1) Hs Hi ltac:(lia)) as (d1 & E1 & S1 & G1 & F1). rewrite Z2Nat.id in E1, G1 by lia.
    rewrite E1. cbn [mbind res_bind]. destruct (IH d1 (j - 1)%Z S1 ltac:(lia) ltac:(lia)) as (d2 & E2 & S2 & G2 & F2).
    exists d2. split; [done|]. split; [done|]. split.
    + intros j' Hj'. destruct (decide (Z.of_nat j' = j)) as [Ej|Ej].
      * rewrite F2 by lia. by rewrite Ej.
      * apply G2. lia.
    + intros i' j' Hne Hi'. rewrite F2 by lia. apply F1; [|done]. destruct Hne; [by left|right; lia].
Qed.

Lemma clear_rows_ok todo : forall i d, shape d -> i + todo = n ->
  (0 < i -> d_get d 0 0 = Ok (-1)%Z) ->
  exists d', clear_rows (Z.of_nat n) (Z.of_nat i) todo d = Ok d' /\ shape d' /\ d_get d' 0 0 = Ok (-1)%Z.
Proof.
  pose proof (tr_n T) as Hn. induction todo as [|todo IH]; intros i d Hs Hi H0; cbn [clear_rows].
  { exists d. split; [done|]. split; [done|]. apply H0. lia. }
  destruct (clear_row_ok i (Z.to_nat (Z.of_nat n - Z.of_nat i)) ltac:(lia) d (Z.of_nat n - 1 - Z.of_nat i) Hs ltac:(lia) ltac:(lia))
    as (d1 & E1 & S1 & G1 & F1).
  rewrite E1. cbn [mbind res_bind]. replace (Z.of_nat i + 1)%Z with (Z.of_nat (S i)) by lia.
  apply IH; [done|lia|]. intros _. destruct (decide (i = 0)) as [->|Hne]; [by apply (G1 0); lia|].
  pose proof (F1 0 0 ltac:(lia) ltac:(lia)) as F0. change (Z.of_nat 0) with 0%Z in F0. rewrite F0. apply H0. lia.
Qed.

Lemma solve2_ok fuel d : shape d -> n <= fuel -> exists d', solve2 fuel p d (Z.of_nat n) = Ok (best p n 0 0, d').
Proof.
  intros Hs Hf. pose proof (tr_n T) as Hn. unfold solve2. rewrite Nat2Z.id.
  destruct (clear_rows_ok n 0 d Hs eq_refl ltac:(lia)) as (d1 & E1 & S1 & G1). change (Z.of_nat 0) with 0%Z in E1, G1.
  rewrite E1. cbn [mbind res_bind]. unfold solve2_r. change (Z.of_nat 0) with 0%Z. rewrite (proj2 (Z.ltb_lt 0 (Z.of_nat n))) by lia. change ((0 <=? 0)%Z && (0 <=? 0)%Z && true) with true. cbn [c_assert mbind res_bind].
  rewrite G1. cbn [mbind res_bind]. change (0 <=? -1)%Z with false. cbv iota.
  destruct (step_ok (n - 1) 0 0 ltac:(lia)) as (x & Ex & Hx & E). change (Z.of_nat 0) with 0%Z in Ex. rewrite Ex. cbn [mbind res_bind].
  rewrite (proj2 (Z.ltb_ge x 0)) by lia.
  rewrite (max_macro_ok _ _ (best p (n - 1) 1 0) (best p (n - 1) 0 1)).
  2:{ apply (solve1_r_ok (n - 1) 1 0); lia. }
  2:{ apply (solve1_r_ok (n - 1) 0 1); lia. }
  cbn [mbind res_bind]. rewrite E. cbn [mbind res_bind].
  destruct (d_set_ok d1 0 0 (best p (S (n - 1)) 0 0) S1 ltac:(lia) ltac:(lia)) as (d2 & E2 & _).
  change (Z.of_nat 0) with 0%Z in E2. rewrite E2. cbn [mbind res_bind]. exists d2. do 3 f_equal. lia.
Qed.

(** The diagonals below [k] are still to come. *)
Definition filled (d : matrix) (k : nat) : Prop :=
  forall i j, k <= i + j -> i + j < n -> d_get d (Z.of_nat i) (Z.of_nat j) = Ok (best p (n - (i + j)) i j).

Lemma diagonal_value d k i j : filled d (S k) -> i + j = k -> k < n ->
  exists x, at_ p (Z.of_nat i) (Z.of_nat j) = Ok x /\
    (if (Z.of_nat i + Z.of_nat j =? Z.of_nat n - 1)%Z then Ok x
     else m ← max_macro (d_get d (Z.of_nat i + 1) (Z.of_nat j)) (d_get d (Z.of_nat i) (Z.of_nat j + 1)); ck (x + m)) =
    Ok (best p (n - k) i j).
Proof.
  intros Hd Hk Hn. destruct (step_ok (n - S k) i j ltac:(lia)) as (x & Ex & Hx & E). exists x. split; [done|].
  replace (n - k) with (S (n - S k)) by lia. destruct (Z.eqb_spec (Z.of_nat i + Z.of_nat j) (Z.of_nat n - 1)) as [En|En].
  - replace (n - S k) with 0 by lia. cbn [best]. unfold val. rewrite Ex. f_equal. lia.
  - rewrite (max_macro_ok _ _ (best p (n - S k) (S i) j) (best p (n - S k) i (S j))); [exact E|..].
    + replace (Z.of_nat i + 1)%Z with (Z.of_nat (S i)) by lia. rewrite Hd by lia. do 2 f_equal. lia.
    + replace (Z.of_nat j + 1)%Z with (Z.of_nat (S j)) by lia. rewrite Hd by lia. do 2 f_equal. lia.
Qed.

Lemma solve_diagonal_ok k todo : k < n -> forall i j d, shape d -> filled d (S k) -> i + j = k ->
  todo = S i -> (forall i' j', i < i' -> i' + j' = k -> d_get d (Z.of_nat i') (Z.of_nat j') = Ok (best p (n - k) i' j')) ->
  exists d', solve_diagonal p (Z.of_nat n) (Z.of_nat i) (Z.of_nat j) todo d = Ok d' /\ shape d' /\ filled d' k.
Proof.
  intros Hk. induction todo as [|todo IH]; intros i j d Hs Hd Hij Ht Hdone; [lia|]. cbn [solve_diagonal].
  destruct (diagonal_value d k i j Hd Hij Hk) as (x & -> & Ev). cbn [mbind res_bind]. rewrite Ev. cbn [mbind res_bind].
  destruct (d_set_ok d i j (best p (n - k) i j) Hs ltac:(lia) ltac:(lia)) as (d1 & E1 & S1 & G1 & F1).
  rewrite E1. cbn [mbind res_bind].
  assert (Hd1 : filled d1 (S k)).
  { intros i' j' H1 H2. rewrite F1 by lia. by apply Hd. }
  assert (Hdone1 : forall i' j', i <= i' -> i' + j' = k -> d_get d1 (Z.of_nat i') (Z.of_nat j') = Ok (best p (n - k) i' j')).
  { intros i' j' H1 H2. destruct (decide (i' = i)) as [->|Hne]; [by replace j' with j by lia|].
    rewrite F1 by lia. apply Hdone; lia. }
  destruct i as [|i].
  - replace todo with 0 by lia. exists d1. split; [done|]. split; [done|]. intros i' j' H1 H2.
    destruct (decide (i' + j' = k)) as [E|E]; [rewrite E; apply Hdone1; lia|apply Hd1; lia].
  - replace (Z.of_nat (S i) - 1)%Z with (Z.of_nat i) by lia. replace (Z.of_nat j + 1)%Z with (Z.of_nat (S j)) by lia.
    apply IH; [done|done|lia|lia|]. intros i' j' H1 H2. apply Hdone1; lia.
Qed.

Lemma solve3_ok d : shape d -> solve3 p d (Z.of_nat n) = Ok (best p n 0 0).
Proof.
  intros Hs. pose proof (tr_n T) as Hn. unfold solve3. rewrite Nat2Z.id.
  assert (Hall : forall k d, k <= n -> shape d -> filled d k ->
    exists d', solve_diagonals p (Z.of_nat n) k d = Ok d' /\ shape d' /\ filled d' 0).
  { induction k as [|k IH]; intros d0 Hk Hs0 Hd0; cbn [solve_diagonals]; [by exists d0|].
    destruct (solve_diagonal_ok k (S k) ltac:(lia) k 0 d0 Hs0 Hd0) as (d1 & E1 & S1 & F1); [lia|lia|intros; lia|].
    change (Z.of_nat 0) with 0%Z in E1. rewrite E1. cbn [mbind res_bind]. apply IH; [lia|done|done]. }
  destruct (Hall n d (le_n n) Hs) as (d' & E & _ & F); [intros i j H1 H2; lia|]. rewrite E. cbn [mbind res_bind].
  pose proof (F 0 0 ltac:(lia) ltac:(lia)) as H0. change (Z.of_nat 0) with 0%Z in H0. rewrite H0. do 2 f_equal. lia.
Qed.
End triangle.

(** On a triangle of numbers with a negative border the recursion without memory, the one with
    the matrix and the loop over the diagonals give the same result: the largest sum
    of the numbers on a path of down and right steps from the corner. *)
Theorem triangle_solutions_agree (p : list (list Z)) (n : nat) (bound : Z) (D : matrix) (fuel : nat) :
  triangle p n bound -> shape n D -> n < fuel ->
  exists r, solve1 fuel p (Z.of_nat n) = Ok r /\ (exists D', solve2 fuel p D (Z.of_nat n) = Ok (r, D')) /\
    solve3 p D (Z.of_nat n) = Ok r /\
    (forall steps, length steps = n -> (path_sum p 0 0 steps <= r)%Z) /\
    exists steps, length steps = n /\ path_sum p 0 0 steps = r.
Proof.
  intros T Hs Hf. exists (best p n 0 0). split; [|split; [|split]].
  - by apply (solve1_r_ok p n bound T n 0 0).
  - apply (solve2_ok p n bound T fuel D Hs). lia.
  - by apply (solve3_ok p n bound T).
  - apply best_is_max.
Qed.

Lemma triangle_solutions_agree_witness :
  exists r, solve1 5 rec 4 = Ok r /\ (exists D', solve2 5 rec fresh_D 4 = Ok (r, D')) /\ solve3 rec fresh_D 4 = Ok r /\
    (forall steps, length steps = 4 -> (path_sum rec 0 0 steps <= r)%Z) /\
    exists steps, length steps = 4 /\ path_sum rec 0 0 steps = r.
Proof.
  apply (triangle_solutions_agree rec 4 20 fresh_D 5); [|intros i Hi|lia].
  - split.
    + intros i j Hij. destruct i as [|[|[|[|i]]]], j as [|[|[|[|j]]]]; try lia; (eexists; split; [reflexivity|lia]).
    + intros i j Hij. destruct i as [|[|[|[|[|i]]]]], j as [|[|[|[|[|j]]]]]; try lia; (eexists; split; [reflexivity|lia]).
    + lia.
    + vm_compute. discriminate.
  - destruct i as [|[|[|[|i]]]]; try lia; (eexists; split; [reflexivity|cbn; lia]).
Defined.

Example triangle_test : test_max_subarray_main 5 = Ok 0%Z.
Proof. vm_compute. reflexivity. Qed.

(** * Where the last ball ends *)

(** The number of balls, of [I], that come to node [k]. *)
Fixpoint visits (I : Z) (k : positive) : Z :=
  match k with
  | xH => I
  | xO k => (visits I k + 1) / 2
  | xI k => visits I k / 2
  end.

(** The node after [d] steps of the ball that is the [m]-th one to come to node [k]. *)
Fixpoint ball_end (d : nat) (m : Z) (k : positive) : positive :=
  match d with
  | O => k
  | S d => if Z.odd m then ball_end d ((m + 1) / 2) (xO k) else ball_end d (m / 2) (xI k)
  end.

(** Whether ball [I + 1] comes to node [k]. *)
Fixpoint on_path (I : Z) (k : positive) : bool :=
  match k with
  | xH => true
  | xO k => on_path I k && Z.even (visits I k)
  | xI k => on_path I k && Z.odd (visits I k)
  end.

Lemma visits_next I k : visits (I + 1) k = (visits I k + Z.b2z (on_path I k))%Z.
Proof.
  assert (Hhalf : forall x, ((x + 1 + 1) / 2 = (x + 1) / 2 + Z.b2z (Z.even x) /\ (x + 1) / 2 = x / 2 + Z.b2z (Z.odd x))%Z).
  { intros x. rewrite <- Z.negb_odd. pose proof (Z.div_mod x 2 ltac:(lia)) as Hx. rewrite Zmod_odd in Hx.
    pose proof (Z.div_mod (x + 1) 2 ltac:(lia)). pose proof (Z.mod_pos_bound (x + 1) 2 ltac:(lia)).
    pose proof (Z.div_mod (x + 1 + 1) 2 ltac:(lia)). pose proof (Z.mod_pos_bound (x + 1 + 1) 2 ltac:(lia)).
    destruct (Z.odd x); cbn [negb Z.b2z]; lia. }
  induction k as [k IH|k IH|]; cbn [visits on_path]; [..|cbn; lia]; rewrite IH; destruct (Hhalf (visits I k)) as [H1 H2].
  - destruct (on_path I k); cbn [Z.b2z andb]; [exact H2|by rewrite !Z.add_0_r].
  - destruct (on_path I k); cbn [Z.b2z andb]; [exact H1|by rewrite !Z.add_0_r].
Qed.

Definition depth (k : positive) : Z := Z.log2 (Zpos k).

Lemma depth_child k : depth (xO k) = (depth k + 1)%Z /\ depth (xI k) = (depth k + 1)%Z.
Proof.
  unfold depth. split; [rewrite Pos2Z.inj_xO, Z.log2_double by lia|rewrite Pos2Z.inj_xI, Z.log2_succ_double by lia]; lia.
Qed.

Lemma on_path_unique I k1 : forall k2, on_path I k1 = true -> on_path I k2 = true -> depth k1 = depth k2 -> k1 = k2.
Proof.
  induction k1 as [k1 IH|k1 IH|]; intros k2 H1 H2 Hd; destruct k2 as [k2|k2|]; try done; cbn [on_path] in H1, H2;
    pose proof (depth_child k1) as [D1 D1']; pose proof (depth_child k2) as [D2 D2'];
    rewrite ?andb_true_iff in H1, H2;
    try (pose proof (Z.log2_nonneg (Zpos k1)); unfold depth in *; change (Z.log2 1) with 0%Z in *; lia);
    try (pose proof (Z.log2_nonneg (Zpos k2)); unfold depth in *; change (Z.log2 1) with 0%Z in *; lia).
  - f_equal. apply IH; [tauto|tauto|lia].
  - exfalso. assert (k1 = k2) as -> by (apply IH; [tauto|tauto|lia]). rewrite <- Z.negb_odd in H2.
    destruct (Z.odd (visits I k2)); cbn in *; naive_solver.
  - exfalso. assert (k1 = k2) as -> by (apply IH; [tauto|tauto|lia]). rewrite <- Z.negb_odd in H1.
    destruct (Z.odd (visits I k2)); cbn in *; naive_solver.
  - f_equal. apply IH; [tauto|tauto|lia].
Qed.

Section balls.
Context (D : nat).
Context (HD : 1 <= D <= 20).

(** The switches while ball [I + 1] is on its way and has left the levels above [d]. *)
Definition switches (s : gmap Z Z) (I d : Z) : Prop :=
  forall k, (depth k < Z.of_nat D)%Z ->
    default 0%Z (s !! Zpos k) = Z.b2z (Z.odd (visits I k + Z.b2z (on_path I k && (depth k <? d)%Z))).

Lemma drop_step_ok s I k : on_path I k = true -> (depth k < Z.of_nat D)%Z -> switches s I (depth k) ->
  exists s' k', k' = (if Z.odd (visits (I + 1) k) then xO k else xI k) /\ on_path I k' = true /\
    switches s' I (depth k') /\ depth k' = (depth k + 1)%Z /\
    drop_step (2 ^ Z.of_nat D - 1) (s, Zpos k) =
      Ok (if (Z.of_nat D <=? depth k')%Z then inr (s', Zpos k') else inl (s', Zpos k')).
Proof.
  intros Hp Hd Hs.
  assert (Hk : (Zpos k < 2 ^ Z.of_nat D)%Z) by (by apply Z.log2_lt_pow2).
  assert (HDp : (2 ^ Z.of_nat D <= 2 ^ 20)%Z) by (apply Z.pow_le_mono_r; lia).
  pose proof (visits_next I k) as Hv. rewrite Hp in Hv. cbn [Z.b2z] in Hv.
  assert (Hval : default 0%Z (s !! Zpos k) = Z.b2z (Z.odd (visits I k))).
  { rewrite (Hs k Hd). rewrite (proj2 (Z.ltb_ge (depth k) (depth k))) by lia. by rewrite andb_false_r, Z.add_0_r. }
  set (k' := if Z.odd (visits (I + 1) k) then xO k else xI k).
  assert (Hdk : depth k' = (depth k + 1)%Z) by (subst k'; destruct (depth_child k); by destruct (Z.odd (visits (I + 1) k))).
  assert (Hodd : Z.odd (visits (I + 1) k) = negb (Z.odd (visits I k))) by (by rewrite Hv, Z.odd_add, xorb_true_r).
  assert (Hp' : on_path I k' = true).
  { subst k'. rewrite Hodd. destruct (Z.odd (visits I k)) eqn:Eo; cbn [negb on_path]; rewrite Hp; cbn [andb]; [done|].
    by rewrite <- Z.negb_odd, Eo. }
  exists (<[Zpos k := Z.b2z (Z.odd (visits (I + 1) k))]> s), k'. split; [done|]. split; [done|]. split; [|split; [done|]].
  - intros j Hj. rewrite Hdk. destruct (decide (j = k)) as [->|Hne].
    + rewrite lookup_insert_eq. cbn [default from_option id]. unfold id. rewrite Hp, (proj2 (Z.ltb_lt _ _)) by lia. cbn [andb Z.b2z].
      by rewrite Hv.
    + rewrite lookup_insert_ne by congruence. rewrite (Hs j Hj). destruct (on_path I j) eqn:Ej; [|done].
      do 5 f_equal. destruct (Z.ltb_spec (depth j) (depth k)), (Z.ltb_spec (depth j) (depth k + 1)); try done; [lia|].
      exfalso. apply Hne. apply (on_path_unique I); [done|done|lia].
  - unfold drop_step, switch. rewrite (proj2 (Z.leb_le 0 (Zpos k))), (proj2 (Z.ltb_lt (Zpos k) s_maxD)) by (unfold s_maxD; lia).
    cbn [andb mbind res_bind]. rewrite Hval.
    assert (Hflip : (if (Z.b2z (Z.odd (visits I k)) =? 0)%Z then 1%Z else 0%Z) = Z.b2z (Z.odd (visits (I + 1) k)))
      by (rewrite Hodd; by destruct (Z.odd (visits I k))).
    rewrite Hflip.
    assert (Hnext : (if (Z.b2z (Z.odd (visits (I + 1) k)) =? 0)%Z then 2 * Zpos k + 1 else 2 * Zpos k)%Z = Zpos k')
      by (subst k'; by destruct (Z.odd (visits (I + 1) k))).
    rewrite Hnext, ck_ok.
    2:{ unfold is_int, INT_MIN, INT_MAX. subst k'. destruct (Z.odd (visits (I + 1) k)); lia. }
    cbn [mbind res_bind].
    replace (2 ^ Z.of_nat D - 1 <? Zpos k')%Z with (Z.of_nat D <=? depth k')%Z
      by (clear Hnext Hflip; pose proof (Z.log2_le_pow2 (Zpos k') (Z.of_nat D) ltac:(lia)); unfold depth;
          destruct (Z.leb_spec (Z.of_nat D) (Z.log2 (Zpos k'))), (Z.ltb_spec (2 ^ Z.of_nat D - 1) (Zpos k')); try done; lia).
    by destruct (Z.of_nat D <=? depth k')%Z.
Qed.

Lemma drop_loop_ok I r : forall fuel s k, on_path I k = true -> (depth k + Z.of_nat (S r) = Z.of_nat D)%Z ->
  switches s I (depth k) -> S r <= fuel ->
  exists s', loop fuel (drop_step (2 ^ Z.of_nat D - 1)) (s, Zpos k) = Ok (s', Zpos (ball_end (S r) (visits (I + 1) k) k)) /\
    switches s' I (Z.of_nat D).
Proof.
  induction r as [|r IH]; intros fuel s k Hp Hd Hs Hf; (destruct fuel as [|fuel]; [lia|]); rewrite loop_step;
    destruct (drop_step_ok s I k Hp ltac:(lia) Hs) as (s' & k' & Ek & Hp' & Hs' & Hdk & ->).
  - rewrite (proj2 (Z.leb_le _ _)) by lia. exists s'. split.
    + do 3 f_equal. subst k'. cbn [ball_end]. by destruct (Z.odd (visits (I + 1) k)).
    + by replace (Z.of_nat D) with (depth k') by lia.
  - rewrite (proj2 (Z.leb_gt _ _)) by lia.
    destruct (IH fuel s' k' Hp' ltac:(lia) Hs' ltac:(lia)) as (s2 & E & Hs2). exists s2. split; [|done]. rewrite E.
    do 3 f_equal. subst k'. cbn [ball_end]. destruct (Z.odd (visits (I + 1) k)); done.
Qed.

Lemma drop_all_ok todo : forall I s k, switches s I 0 ->
  drop_all D (2 ^ Z.of_nat D - 1) todo s k =
  Ok (match todo with 0 => k | S _ => Zpos (ball_end D (I + Z.of_nat todo) xH) end).
Proof.
  induction todo as [|todo IH]; intros I s k Hs; [done|]. cbn [drop_all].
  destruct (drop_loop_ok I (D - 1) D s xH) as (s' & E & Hs'); [done|change (depth 1) with 0%Z; lia|done|lia|].
  replace (S (D - 1)) with D in E by lia. rewrite E. cbn [mbind res_bind visits].
  rewrite (IH (I + 1)%Z).
  - destruct todo as [|todo]; do 3 f_equal; lia.
  - intros j Hj. rewrite (Hs' j Hj), visits_next. rewrite (proj2 (Z.ltb_lt _ _)) by done.
    rewrite andb_true_r. rewrite (proj2 (Z.ltb_ge (depth j) 0)) by apply Z.log2_nonneg. by rewrite andb_false_r, Z.add_0_r.
Qed.
End balls.

Lemma ball_end_parent d : forall m k, (Zpos (ball_end (S d) m k) ÷ 2 = Zpos (ball_end d m k))%Z.
Proof.
  induction d as [|d IH]; intros m k.
  - cbn [ball_end]. rewrite Z.quot_div_nonneg by lia. destruct (Z.odd m);
      [symmetry; apply (Z.div_unique_pos _ 2 _ 0); lia|symmetry; apply (Z.div_unique_pos _ 2 _ 1); lia].
  - cbn [ball_end] in IH |- *. destruct (Z.odd m); apply IH.
Qed.

(** The simulation of all [I] balls ends where the number of the ball alone says: at every node
    an odd ball [m] goes left as ball [(m + 1) / 2] of the left subtree, an even one goes right
    as ball [m / 2] of the right subtree. *)
Theorem dropping_balls_correct (D I : Z) :
  (1 <= D <= 20)%Z -> (1 <= I < INT_MAX)%Z ->
  dropping_balls D I = Ok (Zpos (ball_end (Z.to_nat D - 1) I xH)).
Proof.
  intros HD HI. unfold dropping_balls. rewrite (proj2 (Z.ltb_lt 0 D)), (proj2 (Z.ltb_lt 0 I)) by lia. cbn [andb negb].
  rewrite (proj2 (Z.leb_gt 31 D)) by lia. rewrite Z.shiftl_1_l. rewrite <- (Z2Nat.id D) at 2 by lia.
  rewrite (drop_all_ok (Z.to_nat D) ltac:(lia) (Z.to_nat I) 0).
  - cbn [mbind res_bind]. destruct (Z.to_nat I) as [|i] eqn:Ei; [lia|]. rewrite <- Ei, Z.add_0_l, Z2Nat.id by lia. f_equal.
    replace (Z.to_nat D) with (S (Z.to_nat D - 1)) at 1 by lia. apply ball_end_parent.
  - intros k Hk. rewrite lookup_empty. cbn [default from_option id]. unfold id.
    assert (H0 : visits 0 k = 0%Z) by (clear; induction k as [k IH|k IH|]; cbn [visits]; rewrite ?IH; done).
    rewrite H0. rewrite (proj2 (Z.ltb_ge (depth k) 0)) by apply Z.log2_nonneg. by rewrite andb_false_r.
Qed.

Lemma dropping_balls_correct_witness : dropping_balls 16 12345 = Ok (Zpos (ball_end 15 12345 xH)).
Proof. apply (dropping_balls_correct 16 12345); [lia|unfold INT_MAX; lia]. Defined.

Example ball_end_test : Zpos (ball_end 15 12345 xH) = 36358%Z.
Proof. reflexivity. Qed.

(** Trees deeper than the array of switches. *)
Example dropping_balls_deep : dropping_balls 21 1 = Stop OutOfBounds.
Proof. vm_compute. reflexivity. Qed.

Example balls_test : test_9787302356288_tree_main = Ok 0%Z.
Proof. vm_compute. reflexivity. Qed.
