(* ===== verification/KernelSort.v ===== *)
(** The merge sort of src/deps/list_sort.c, the Linux kernel's: a circular double list of
    [list_head]s is cut into single nodes, which are merged like the carries of a binary
    counter in the array [part]; the last merge restores the back links.  Memory, nodes and
    the comparison of two nodes are those of LinkSort.v; list.h, which is not in the
    repository, is the class [Klist] of LinkRig.v with [list_empty]. *)
From S2P Require Import Prelude SortSpec LinkSort LinkRig.

Class KlistEmpty := list_empty : nat -> heap -> res bool.
Class KlistEmptyLaw (E : KlistEmpty) := list_empty_law : forall a l h,
  linked h true true (a :: l) -> NoDup (a :: l) -> list_empty a h = Ok (bool_decide (l = [])).

(** The members of [part]. *)
Definition MAX_LIST_LENGTH_BITS : Z := 20.
Definition ARRAY_SIZE_part : Z := MAX_LIST_LENGTH_BITS + 1.

(** [a ? : b]. *)
Definition or_else (a b : option nat) : option nat := match a with Some _ => a | None => b end.

Section kernel.
Context (compare : heap -> option nat -> option nat -> res Z) (fuel : nat).

(** One round of the loop of [merge]: the places [head.next] and [tail] are those of [append],
    whose empty list stands for [tail == &head]. *)
Definition merge_round (s : merged * option nat * option nat) : res ((merged * option nat * option nat) + (heap * option nat)) :=
  let '(m, a, b) := s in
  match a, b with
  | Some _, Some _ =>
      c ← compare m.1.1 a b;
      if (c <=? 0)%Z then m ← append false m a; e ← load m.1.1 a; Ok (inl (m, next e, b))
      else m ← append false m b; e ← load m.1.1 b; Ok (inl (m, a, next e))
  | _, _ => m ← append false m (or_else a b); Ok (inr m.1)
  end.
Definition merge (h : heap) (a b : option nat) : res (heap * option nat) :=
  loop fuel merge_round ((h, None, None), a, b).

(** The loop of [merge_and_restore_back_links]. *)
Definition restore_round (s : heap * option nat * option nat * option nat)
    : res ((heap * option nat * option nat * option nat) + (heap * option nat * option nat * option nat)) :=
  let '(h, tail, a, b) := s in
  match a, b with
  | Some _, Some _ =>
      c ← compare h a b;
      if (c <=? 0)%Z then
        h ← set_next h tail a; h ← set_prev h a tail; e ← load h a; Ok (inl (h, a, next e, b))
      else
        h ← set_next h tail b; h ← set_prev h b tail; e ← load h b; Ok (inl (h, b, a, next e))
  | _, _ => Ok (inr s)
  end.

(** Its [do] loop: only the [prev] links are missing. *)
Definition back_round (s : heap * option nat) : res ((heap * option nat) + (heap * option nat)) :=
  let '(h, tail) := s in
  e ← load h tail;
  _ ← compare h (next e) (next e);
  h ← set_prev h (next e) tail;
  e' ← load h (next e);
  match next e' with
  | Some _ => Ok (inl (h, next e))
  | None => Ok (inr (h, next e))
  end.

Definition merge_and_restore_back_links (h : heap) (head : nat) (a b : option nat) : res heap :=
  '(h, tail, a, b) ← loop fuel restore_round (h, Some head, a, b);
  h ← set_next h tail (or_else a b);
  '(h, tail) ← loop fuel back_round (h, tail);
  h ← set_next h tail (Some head);
  set_prev h (Some head) tail.

(** [for (lev = 0; part[lev]; lev++)]. *)
Definition carry_round (s : heap * list (option nat) * option nat * Z)
    : res ((heap * list (option nat) * option nat * Z) + (heap * list (option nat) * option nat * Z)) :=
  let '(h, part, cur, lev) := s in
  x ← aget part lev;
  match x with
  | None => Ok (inr s)
  | Some _ =>
      '(h, cur) ← merge h x cur;
      part ← aset part lev None;
      Ok (inl (h, part, cur, (lev + 1)%Z))
  end.

(** The level [cur] is put in, [max_lev] and the number of messages printed. *)
Definition place (lev max_lev warned : Z) : Z * Z * Z :=
  if (max_lev <? lev)%Z then
    if (ARRAY_SIZE_part - 1 <=? lev)%Z then (lev - 1, lev - 1, warned + 1)%Z else (lev, lev, warned)
  else (lev, max_lev, warned).

(** One round of [while (list)]. *)
Definition list_sort_round (s : heap * option nat * list (option nat) * Z * Z)
    : res ((heap * option nat * list (option nat) * Z * Z) + (heap * list (option nat) * Z * Z)) :=
  let '(h, list, part, max_lev, warned) := s in
  match list with
  | None => Ok (inr (h, part, max_lev, warned))
  | Some _ =>
      e ← load h list;
      h ← set_next h list None;
      '(h, part, cur, lev) ← loop 22 carry_round (h, part, list, 0%Z);
      let '(lev, max_lev, warned) := place lev max_lev warned in
      part ← aset part lev cur;
      Ok (inl (h, next e, part, max_lev, warned))
  end.

(** [for (lev = 0; lev < max_lev; lev++)]: the levels from [lev] on, [todo] of them. *)
Fixpoint collect (part : list (option nat)) (lev : Z) (todo : nat) (h : heap) (list : option nat) : res (heap * option nat) :=
  match todo with
  | O => Ok (h, list)
  | S todo =>
      x ← aget part lev;
      match x with
      | None => collect part (lev + 1) todo h list
      | Some _ => '(h, list) ← merge h x list; collect part (lev + 1) todo h list
      end
  end.

(** The memory after the sort and the number of messages "list too long for efficiency". *)
Definition list_sort `{KlistEmpty} (h : heap) (head : nat) : res (heap * Z) :=
  empty ← list_empty head h;
  if (empty : bool) then Ok (h, 0%Z)
  else
    e ← load h (Some head);
    h ← set_next h (prev e) None;
    e ← load h (Some head);
    '(h, part, max_lev, warned) ←
      loop fuel list_sort_round (h, next e, replicate (Z.to_nat ARRAY_SIZE_part) None, 0%Z, 0%Z);
    '(h, list) ← collect part 0 (Z.to_nat max_lev) h None;
    a ← aget part max_lev;
    h ← merge_and_restore_back_links h head a list;
    Ok (h, warned).
End kernel.

(** [na->i - nb->i] through [list_entry]. *)
Definition client_cmp : heap -> option nat -> option nat -> res Z := cmp.

(** Ten nodes with random integers, printed before and after the sort. *)
Definition test_kernel_list_sort_main `{Klist} `{KlistEmpty} (fuel : nat) (rnd : list Z) : res (list Z * list Z) :=
  h ← INIT_LIST_HEAD 0 (fresh_nodes None 10);
  h ← add_nodes 0 rnd h;
  before ← print_nodes h;
  '(h, _) ← list_sort client_cmp fuel h 0;
  after ← print_nodes h;
  Ok (before, after).

(** [head->next == head]. *)
#[export] Instance kernel_empty : KlistEmpty := fun a h => e ← load h (Some a); Ok (bool_decide (next e = Some a)).

Example test_kernel_list_sort : test_kernel_list_sort_main 32 [4; 8; 15; 16; 23; 42; 0; 1; 2; 3]%Z =
  Ok ([5; 9; 7; 8; 6; 7; 1; 2; 3; 4], [1; 2; 3; 4; 5; 6; 7; 7; 8; 9])%Z.
Proof. vm_compute. reflexivity. Qed.

(** * Several lists in memory at once *)

Lemma chain_same h h' l k e : same_but k h h' -> (forall x, x ∈ l -> x ∉ k) -> chain h l e -> chain h' l e.
Proof.
  intros [_ F] Hd. apply chain_frame. intros x Hx. unfold nxt. by rewrite F by auto.
Qed.

Lemma same_but_weaken l k h h' : (forall x, x ∈ l -> x ∈ k) -> same_but l h h' -> same_but k h h'.
Proof. intros Hlk [V F]. split; [done|]. intros y Hy. apply F. eauto. Qed.

(** The callback compares the nodes of [L] by [key] in every memory in which the integers of
    the nodes are those of [ival]. *)
Definition compares_as (compare : heap -> option nat -> option nat -> res Z) (key : nat -> Z) (ival : nat -> option Z)
    (L : list nat) : Prop := forall h x y,
  x ∈ L -> y ∈ L -> val h x = ival x -> val h y = ival y ->
  exists c, compare h (Some x) (Some y) = Ok c /\ (c <=? 0)%Z = negb (goes_right key true x y).

Section correct.
Context (compare : heap -> option nat -> option nat -> res Z) (key : nat -> Z) (ival : nat -> option Z) (L : list nat) (fuel : nat).
Context (Hcmp : compares_as compare key ival L).
Context (Hfuel : length L < fuel).

Notation merged_by := (merge_by key true).

(** The null-terminated lists [ls] have no node in common, and their nodes are elements of [L]. *)
Record owns (h : heap) (ls : list (list nat)) : Prop := {
  own_chain : Forall (fun l => chain h l None) ls;
  own_nodup : NoDup (concat ls);
  own_vals : forall x, x ∈ concat ls -> x ∈ L /\ val h x = ival x;
}.

#[export] Instance owns_proper h : Proper ((≡ₚ) ==> iff) (owns h).
Proof.
  assert (H : forall ls ks, ls ≡ₚ ks -> owns h ls -> owns h ks).
  { intros ls ks HP [C N V]. split; [by rewrite <- HP|by rewrite <- HP|]. intros x Hx. apply V. by rewrite HP. }
  intros ls ks HP. split; apply H; by symmetry in HP || done.
Qed.

Lemma owns_nil h ls : owns h ([] :: ls) <-> owns h ls.
Proof. split; intros [C N V]; split; try done; [by apply Forall_cons in C as [_ ?]|by constructor]. Qed.

Lemma owns_lengths h ls : owns h ls -> length (concat ls) <= length L.
Proof.
  intros [_ N V]. apply submseteq_length, NoDup_submseteq; [done|]. intros x Hx. by apply V.
Qed.

(** Lists the memory of which is not touched stay. *)
Lemma owns_replace h h' l k ls :
  owns h (l :: ls) -> same_but l h h' -> chain h' k None -> l ≡ₚ k -> owns h' (k :: ls).
Proof.
  intros [C N V] S Ck P. cbn [concat] in *. apply Forall_cons in C as [_ C]. pose proof N as (_ & Hd & _)%NoDup_app.
  split; cbn [concat].
  - constructor; [done|]. rewrite Forall_forall in *. intros m Hm.
    apply (chain_same h h' m l); [done| |by apply C]. intros x Hx Hl. apply (Hd x Hl).
    apply list_elem_of_In, in_concat. exists m. by rewrite <- !list_elem_of_In.
  - by rewrite <- P.
  - intros x. rewrite <- P. intros Hx. destruct S as [Sv _]. rewrite Sv. by apply V.
Qed.

Lemma compare_ok h x y : x ∈ L -> y ∈ L -> val h x = ival x -> val h y = ival y ->
  exists c, compare h (Some x) (Some y) = Ok c /\ (c <=? 0)%Z = negb (goes_right key true x y).
Proof. apply Hcmp. Qed.

(** ** The merge *)

(** The last link of a merge. *)
Lemma finish_ok h M R : built h false M -> chain h R None -> NoDup (M ++ R) ->
  exists h' t, append false (h, head M, last M) (head R) = Ok ((h', head (M ++ R)), t) /\
    chain h' (M ++ R) None /\ same_but M h h'.
Proof.
  intros [[e C] _] CR ND. destruct M as [|t M _] using rev_ind.
  { exists h, (head R). split; [done|]. by split; [rewrite app_nil_l|]. }
  apply chain_app in C as [CM [Ht _]].
  destruct (set_next_spec h t (head R) (nxt_is_Some _ _ _ Ht)) as (h1 & E1 & A1 & N1 & P1 & V1 & F1).
  exists h1, (head R). unfold append. rewrite last_snoc, E1. cbn [mbind res_bind].
  rewrite <- (assoc_L app) in ND |- *. apply NoDup_app in ND as (NM & HM & ND). cbn [app] in ND.
  apply NoDup_cons in ND as [HtR ND]. split; [by destruct M|]. split.
  - apply chain_app. split; [|split].
    + cbn [hd_or app]. apply chain_frame with h; [|done]. intros y Hy. apply N1. intros ->.
      apply (HM t Hy). by left.
    + by rewrite A1, hd_or_None.
    + apply chain_frame with h; [|done]. intros y Hy. apply N1. by intros ->.
  - split; [done|]. intros y Hy. apply F1. intros ->. apply Hy, elem_of_app. right. by left.
Qed.

(** One element goes from the head of its list to the merged list. *)
Lemma move_ok h M x X : built h false M -> chain h (x :: X) None -> NoDup (M ++ [x]) ->
  exists h' e, append false (h, head M, last M) (Some x) = Ok ((h', head (M ++ [x])), last (M ++ [x])) /\
    load h' (Some x) = Ok e /\ next e = head X /\ built h' false (M ++ [x]) /\
    (forall y, y ∉ M -> nxt h' y = nxt h y) /\ same_but (M ++ [x]) h h'.
Proof.
  intros B [Hx _] ND. destruct (append_ok h false M x _ B ND Hx) as (h' & E & B' & N' & F & V & G).
  apply nxt_load in N' as (e & Ee & En). exists h', e. split_and!; try done. cbn. by rewrite Ee.
Qed.

Lemma kernel_merge_loop_ok n : forall h M A B, length A + length B < n ->
  built h false M -> chain h A None -> chain h B None -> NoDup (M ++ A ++ B) ->
  (forall x, x ∈ A ++ B -> x ∈ L /\ val h x = ival x) ->
  exists h', loop n (merge_round compare) ((h, head M, last M), head A, head B) = Ok (h', head (M ++ merged_by A B)) /\
    chain h' (M ++ merged_by A B) None /\ same_but (M ++ A ++ B) h h'.
Proof.
  induction n as [|n IH]; intros h M A B Hn BM CA CB ND V; [lia|]. rewrite loop_step.
  assert (Hend : forall R, chain h R None -> NoDup (M ++ R) -> (M ++ R ≡ₚ M ++ A ++ B) -> merged_by A B = R ->
    or_else (head A) (head B) = head R -> merge_round compare ((h, head M, last M), head A, head B) =
      (m ← append false (h, head M, last M) (or_else (head A) (head B)); Ok (inr m.1)) ->
    exists h', match merge_round compare ((h, head M, last M), head A, head B) with
      | Ok (inl s') => loop n (merge_round compare) s' | Ok (inr r) => Ok r | Stop f => Stop f end =
      Ok (h', head (M ++ merged_by A B)) /\ chain h' (M ++ merged_by A B) None /\ same_but (M ++ A ++ B) h h').
  { intros R CR NR P -> E ->. destruct (finish_ok h M R BM CR NR) as (h' & t & E' & C' & S').
    rewrite E, E'. exists h'. split; [done|]. split; [done|]. apply (same_but_weaken M); [|done].
    intros x Hx. apply elem_of_app. by left. }
  destruct A as [|x A]; [by apply (Hend B)|]. destruct B as [|y B].
  { rewrite app_nil_r in *. by apply (Hend (x :: A)). }
  clear Hend. destruct (V x) as [Hx Vx]; [by left|]. destruct (V y) as [Hy Vy]; [apply elem_of_app; right; by left|].
  destruct (compare_ok h x y Hx Hy Vx Vy) as (c & Ec & Hc).
  cbn [merge_round head fst]. rewrite Ec. cbn [mbind res_bind]. rewrite Hc, merge_by_cons.
  destruct (goes_right key true x y); cbn [negb].
  - assert (P : M ++ (x :: A) ++ y :: B ≡ₚ (M ++ [y]) ++ (x :: A) ++ B) by solve_Permutation.
    rewrite P in ND. pose proof ND as (N1 & Hd & _)%NoDup_app.
    destruct (move_ok h M y B BM CB N1) as (h1 & e & E1 & El & En & B1 & F1 & S1).
    rewrite E1. cbn [mbind res_bind fst]. rewrite El. cbn [mbind res_bind]. rewrite En.
    destruct (IH h1 (M ++ [y]) (x :: A) B) as (h2 & E2 & C2 & S2); [cbn in *; lia|done| | |done| |].
    + apply chain_frame with h; [|done]. intros z Hz. apply F1. intros Hm. apply (Hd z); apply elem_of_app; by left.
    + destruct CB as [_ CB]. apply chain_frame with h; [|done]. intros z Hz. apply F1. intros Hm.
      apply (Hd z); apply elem_of_app; [by left|by right].
    + intros z Hz. destruct S1 as [Sv _]. rewrite Sv. apply V. rewrite elem_of_app in *. set_solver.
    + rewrite <- (assoc_L app) in E2, C2. exists h2. split; [done|]. split; [done|].
      apply same_but_trans with (M ++ [y]) h1; [|done|]; [set_solver|].
      destruct S2 as [Sv Sf]. split; [done|]. intros z Hz. apply Sf. by rewrite <- P.
  - assert (P : M ++ (x :: A) ++ y :: B ≡ₚ (M ++ [x]) ++ A ++ y :: B) by solve_Permutation.
    rewrite P in ND. pose proof ND as (N1 & Hd & _)%NoDup_app.
    destruct (move_ok h M x A BM CA N1) as (h1 & e & E1 & El & En & B1 & F1 & S1).
    rewrite E1. cbn [mbind res_bind fst]. rewrite El. cbn [mbind res_bind]. rewrite En.
    destruct (IH h1 (M ++ [x]) A (y :: B)) as (h2 & E2 & C2 & S2); [cbn in *; lia|done| | |done| |].
    + destruct CA as [_ CA]. apply chain_frame with h; [|done]. intros z Hz. apply F1. intros Hm.
      apply (Hd z); apply elem_of_app; by left.
    + apply chain_frame with h; [|done]. intros z Hz. apply F1. intros Hm.
      apply (Hd z); apply elem_of_app; [by left|by right].
    + intros z Hz. destruct S1 as [Sv _]. rewrite Sv. apply V. set_solver.
    + rewrite <- (assoc_L app) in E2, C2. exists h2. split; [done|]. split; [done|].
      apply same_but_trans with (M ++ [x]) h1; [|done|]; [set_solver|].
      destruct S2 as [Sv Sf]. split; [done|]. intros z Hz. apply Sf. by rewrite <- P.
Qed.

Lemma kernel_merge_ok h A B ls : owns h (A :: B :: ls) ->
  exists h', merge compare fuel h (head A) (head B) = Ok (h', head (merged_by A B)) /\
    owns h' (merged_by A B :: ls) /\ same_but L h h'.
Proof.
  intros O. pose proof (owns_lengths h _ O) as Hl. cbn [concat] in Hl. rewrite !length_app in Hl.
  pose proof O as [C N V]. cbn [concat] in N, V. rewrite (assoc_L app) in N, V.
  apply Forall_cons in C as [CA C]. apply Forall_cons in C as [CB C].
  pose proof N as (NAB & Hd & _)%NoDup_app.
  destruct (kernel_merge_loop_ok fuel h [] A B) as (h' & E & C' & S); [lia|by split; [exists None|]|done|done|done| |].
  { intros x Hx. apply V. apply elem_of_app. by left. }
  assert (Sub : forall x, x ∈ A ++ B -> x ∈ L) by (intros x Hx; apply V, elem_of_app; by left).
  cbn [app] in *. exists h'. split; [exact E|]. split; [|by apply (same_but_weaken (A ++ B))].
  split; cbn [concat].
  - constructor; [done|]. rewrite Forall_forall in *. intros m Hm. apply (chain_same h h' m (A ++ B)); [done| |by apply C].
    intros x Hx Hl'. apply (Hd x Hl'). apply list_elem_of_In, in_concat. exists m. by rewrite <- !list_elem_of_In.
  - by rewrite <- (merge_by_perm key true A B).
  - intros x. rewrite <- (merge_by_perm key true A B). destruct S as [Sv _]. intros Hx. rewrite Sv. by apply V.
Qed.

(** ** The levels of [part] *)

(** A level holds the part [s.1] of [L], sorted as [s.2]; level [k] is empty or has at least [2 ^ k] elements. *)
Notation level := (list nat * list nat)%type.
Definition level_ok (k : nat) (s : level) : Prop :=
  sorts key true s.1 s.2 /\ (s.2 <> [] -> 2 ^ Z.of_nat k <= Z.of_nat (length s.2))%Z.
Definition levels (k : nat) (ps : list level) : Prop := forall i s, ps !! i = Some s -> level_ok (k + i) s.
Definition no_level : level := ([], []).

(** The members of [part], and the part of [L] that the levels hold. *)
Notation heads ps := ((fun s : level => head s.2) <$> ps).
Fixpoint whole (ps : list level) : list nat := match ps with [] => [] | s :: ps => whole ps ++ s.1 end.

Lemma levels_cons k s ps : levels k (s :: ps) <-> level_ok k s /\ levels (S k) ps.
Proof.
  split.
  - intros H. split; [specialize (H 0 s eq_refl); by rewrite Nat.add_0_r in H|].
    intros i t Hi. specialize (H (S i) t Hi). by replace (S k + i) with (k + S i) by lia.
  - intros [H1 H2] [|i] t Hi; [injection Hi as <-; by rewrite Nat.add_0_r|].
    replace (k + S i) with (S k + i) by lia. by apply H2.
Qed.

Lemma level_ok_empty k s : level_ok k s -> s.2 = [] -> s = no_level.
Proof.
  intros [S _] E. destruct s as [a b]. cbn in *. subst b. destruct S as [P _ _]. symmetry in P.
  by apply Permutation_nil in P as ->.
Qed.

Lemma no_level_ok k : level_ok k no_level.
Proof. clear. split; [by apply sorts_short; cbn; lia|done]. Qed.

Lemma whole_app ps qs : whole (ps ++ qs) = whole qs ++ whole ps.
Proof. induction ps as [|s ps IH]; cbn; [by rewrite app_nil_r|]. by rewrite IH, (assoc_L app). Qed.

Lemma whole_empty ps : Forall (fun s => s = no_level) ps -> whole ps = [].
Proof. induction 1 as [|s ps -> _ IH]; [done|]. cbn. by rewrite IH. Qed.

(** The carry into level [k]: the full levels [ps] begins with are merged. *)
Lemma carry_ok ps : forall k n h c C others,
  levels k ps -> last ps = Some no_level -> length ps <= n -> level_ok k (c, C) -> C <> [] ->
  owns h (C :: (snd <$> ps) ++ others) ->
  exists j ps' h' c' C',
    loop n (carry_round compare fuel) (h, replicate k None ++ heads ps, head C, Z.of_nat k) =
      Ok (h', replicate (k + j) None ++ heads (no_level :: ps'), head C', Z.of_nat (k + j)) /\
    drop j ps = no_level :: ps' /\ level_ok (k + j) (c', C') /\ C' <> [] /\ whole ps ++ c = whole ps' ++ c' /\
    (forall i s, i < j -> ps !! i = Some s -> s.2 <> []) /\
    owns h' (C' :: (snd <$> ps') ++ others) /\ same_but L h h'.
Proof.
  induction ps as [|s ps IH]; intros k n h c C others HL Hlast Hn HC HCn O; [done|].
  destruct n as [|n]; [cbn in Hn; lia|]. rewrite loop_step. unfold carry_round at 1.
  assert (Hget : aget (replicate k None ++ heads (s :: ps)) (Z.of_nat k) = Ok (head s.2)).
  { apply aget_nat. rewrite lookup_app_r; rewrite length_replicate; [|done]. by rewrite Nat.sub_diag. }
  rewrite Hget. cbn [mbind res_bind]. apply levels_cons in HL as [Hs HL].
  destruct (head s.2) as [x|] eqn:Ex.
  - assert (Hne : s.2 <> []) by (by intros E0; rewrite E0 in Ex). rewrite <- Ex.
    cbn [fmap list_fmap app] in O. rewrite (Permutation_swap s.2 C) in O.
    destruct (kernel_merge_ok h s.2 C _ O) as (h1 & E1 & O1 & S1). rewrite E1. cbn [mbind res_bind].
    rewrite (aset_nat _ k) by (rewrite length_app, length_replicate; cbn; lia).
    cbn [mbind res_bind]. rewrite insert_app_r_alt by (by rewrite length_replicate).
    rewrite length_replicate, Nat.sub_diag. cbn [fmap list_fmap insert list_insert].
    replace (replicate k None ++ None :: heads ps) with (replicate (S k) (None : option nat) ++ heads ps)
      by (by rewrite replicate_S_end, <- (assoc_L app)).
    replace (Z.of_nat k + 1)%Z with (Z.of_nat (S k)) by lia.
    destruct Hs as [Ss Hsl]. destruct HC as [Sc HCl]. cbn [fst snd] in *.
    destruct (IH (S k) n h1 (s.1 ++ c) (merged_by s.2 C) others) as (j & ps' & h' & c' & C' & E & Hd & HC' & Hne' & Hw & Hfull & O' & S').
    + done.
    + destruct ps; [|done]. cbn in Hlast. injection Hlast as ->. done.
    + cbn in Hn. lia.
    + split; [by apply merge_by_sorts|]. intros _. cbn [snd]. rewrite merge_by_length.
      specialize (HCl HCn). specialize (Hsl Hne). rewrite Nat2Z.inj_succ, Z.pow_succ_r by lia. lia.
    + intros E0. apply (f_equal length) in E0. rewrite merge_by_length in E0. destruct C; [done|cbn in E0; lia].
    + done.
    + exists (S j), ps', h', c', C'. replace (k + S j) with (S k + j) by lia. split_and!; try done.
      * cbn [whole]. by rewrite <- (assoc_L app), Hw.
      * intros [|i] t Hi Ht; [by injection Ht as <-|]. apply (Hfull i); [lia|done].
      * by apply same_but_trans with L h1.
  - assert (Es : s.2 = []) by (by destruct s.2). pose proof (level_ok_empty k s Hs Es) as ->.
    exists 0, ps, h, c, C. rewrite Nat.add_0_r. split_and!; try done.
    + cbn. by rewrite app_nil_r.
    + intros i t Hi. lia.
    + cbn [fmap list_fmap app] in O. cbn [no_level snd] in O. rewrite (Permutation_swap [] C) in O. by apply (proj1 (owns_nil _ _)) in O.
Qed.

(** ** The loop over the nodes *)

(** The first node is cut off. *)
Lemma cut_ok h x R ls : owns h ((x :: R) :: ls) ->
  exists h1 e, load h (Some x) = Ok e /\ next e = head R /\ set_next h (Some x) None = Ok h1 /\
    owns h1 ([x] :: R :: ls) /\ same_but L h h1.
Proof.
  intros O. pose proof O as [C N V]. apply Forall_cons in C as [CR C]. destruct CR as [Hx CR].
  apply nxt_load in Hx as (e & Ee & En).
  destruct (set_next_spec h x None) as (h1 & E1 & A1 & N1 & P1 & V1 & F1); [by eexists|].
  exists h1, e. split; [cbn; by rewrite Ee|]. split; [by rewrite En, hd_or_None|]. split; [done|].
  assert (S1 : same_but [x] h h1) by (split; [done|]; intros y Hy; apply F1; intros ->; apply Hy; by left).
  cbn [concat] in N, V. apply NoDup_cons in N as [HxN N].
  split.
  - split; cbn [concat app].
    + constructor; [by split|]. rewrite Forall_forall in *. intros m Hm.
      assert (Hsame : chain h m None -> chain h1 m None).
      { apply (chain_same h h1 m [x]); [done|]. intros y Hy ->%list_elem_of_singleton. apply HxN.
        apply elem_of_cons in Hm as [->|Hm]; [apply elem_of_app; by left|]. apply elem_of_app. right.
        apply list_elem_of_In, in_concat. exists m. by rewrite <- !list_elem_of_In. }
      apply elem_of_cons in Hm as [->|Hm]; apply Hsame; [done|by apply C].
    + by apply NoDup_cons.
    + intros y Hy. destruct S1 as [Sv _]. rewrite Sv. by apply V.
  - apply (same_but_weaken [x]); [|done]. intros y ->%list_elem_of_singleton. apply V. by left.
Qed.

Record building (h : heap) (R : list nat) (ps : list level) (m : nat) (w : Z) : Prop := {
  bd_length : length ps = 21;
  bd_last : last ps = Some no_level;
  bd_levels : levels 0 ps;
  bd_whole : L = whole ps ++ R;
  bd_owns : owns h (R :: (snd <$> ps));
  bd_max : m <= 19;
  bd_above : forall i s, m < i -> ps !! i = Some s -> s = no_level;
  bd_top : m = 0 \/ exists s, ps !! m = Some s /\ s.2 <> [];
  bd_warned : (0 <= w)%Z /\ (w <> 0 -> 2 ^ 20 <= Z.of_nat (length L))%Z;
}.

Lemma place_ok j m w : j <= 20 -> m <= 19 ->
  place (Z.of_nat j) (Z.of_nat m) w =
  (Z.of_nat (min j 19), Z.of_nat (max m (min j 19)), (w + if decide (j = 20%nat) then 1 else 0)%Z).
Proof.
  intros Hj Hm. unfold place. change (ARRAY_SIZE_part - 1)%Z with 20%Z.
  destruct (Z.ltb_spec (Z.of_nat m) (Z.of_nat j)); [destruct (Z.leb_spec 20 (Z.of_nat j))|];
    destruct (decide (j = 20)); repeat f_equal; lia.
Qed.

Lemma owns_replicate h n ls : owns h (replicate n [] ++ ls) <-> owns h ls.
Proof. induction n as [|n IH]; [done|]. cbn [replicate app]. by rewrite owns_nil. Qed.

(** The array after [cur] is put in: where the carry stopped at level [j]. *)
Lemma put_ok h (ps ps' : list level) j c' C' R :
  length ps = 21 -> drop j ps = no_level :: ps' -> owns h (C' :: (snd <$> ps') ++ [R]) ->
  let qs := replicate (min j 19) no_level ++ (c', C') :: drop (S (min j 19)) ps in
  aset (replicate j None ++ heads (no_level :: ps')) (Z.of_nat (min j 19)) (head C') = Ok (heads qs) /\
  whole qs = whole ps' ++ c' /\ owns h (R :: (snd <$> qs)) /\ length qs = 21 /\ j <= 20 /\
  drop (S (min j 19)) ps = (if decide (j = 20) then [no_level] else ps').
Proof.
  intros Hl Hd O qs. pose proof (f_equal length Hd) as Hdl. rewrite length_drop in Hdl. cbn [length] in Hdl.
  assert (Hj : j <= 20) by lia. assert (H1 : length ps' = 20 - j) by lia. clear Hdl.
  assert (Hdrop : drop (S (min j 19)) ps = (if decide (j = 20) then [no_level] else ps')).
  { destruct (decide (j = 20)) as [->|Hne].
    - change (S (min 20 19)) with 20. rewrite Hd. by destruct ps'.
    - replace (min j 19) with j by lia. replace (S j) with (j + 1) by lia. by rewrite <- drop_drop, Hd. }
  assert (Ho : owns h (R :: (snd <$> (drop (S (min j 19)) ps)) ++ [C'])).
  { rewrite Hdrop. assert (O' : owns h (R :: (snd <$> ps') ++ [C'])).
    { eapply owns_proper; [|exact O]. solve_Permutation. }
    destruct (decide (j = 20)) as [->|Hne]; [|done]. destruct ps'; [|cbn in H1; lia].
    cbn in O' |- *. rewrite (Permutation_swap [] R). by apply owns_nil. }
  split_and!; [| | | |done|done].
  - assert (Hr : forall n, heads (replicate n no_level) = replicate n (None : option nat))
      by (intros n; by rewrite fmap_replicate).
    subst qs. rewrite fmap_app, Hr, fmap_cons, Hdrop. rewrite aset_nat by (rewrite length_app, length_replicate; cbn; lia).
    f_equal. destruct (decide (j = 20)) as [->|Hne].
    + destruct ps'; [reflexivity|cbn in H1; lia].
    + replace (min j 19) with j by lia. rewrite insert_app_r_alt by (by rewrite length_replicate).
      by rewrite length_replicate, Nat.sub_diag.
  - subst qs. rewrite whole_app. cbn [whole]. rewrite (whole_empty (replicate _ _)) by (by apply Forall_replicate).
    rewrite app_nil_r, Hdrop. cbn [fst]. destruct (decide (j = 20)) as [->|Hne]; [|done].
    destruct ps'; [done|cbn in H1; lia].
  - subst qs. rewrite fmap_app, fmap_replicate. cbn [snd no_level fmap list_fmap].
    apply (owns_replicate h (min j 19)) in Ho. eapply owns_proper; [|exact Ho]. solve_Permutation.
  - subst qs. rewrite length_app, length_replicate. cbn [length]. rewrite length_drop. lia.
Qed.

Lemma list_sort_round_ok h x R ps m w : building h (x :: R) ps m w ->
  exists h' ps' m' w', list_sort_round compare fuel (h, Some x, heads ps, Z.of_nat m, w) =
      Ok (inl (h', head R, heads ps', Z.of_nat m', w')) /\ building h' R ps' m' w' /\ same_but L h h'.
Proof.
  intros [Hl Hlast HL HW O Hm Ha Ht Hw]. unfold list_sort_round.
  destruct (cut_ok h x R _ O) as (h1 & e & El & En & E1 & O1 & S1). rewrite El. cbn [mbind res_bind].
  rewrite E1. cbn [mbind res_bind].
  destruct (carry_ok ps 0 22 h1 [x] [x] [R]) as (j & ps' & h2 & c' & C' & E2 & Hd & [HC HCl] & Hne & Hw2 & Hfull & O2 & S2);
    [done|done|lia|split; [by apply sorts_short; cbn; lia|cbn; lia]|done| |].
  { eapply owns_proper; [|exact O1]. solve_Permutation. }
  change (replicate 0 None ++ heads ps) with (heads ps) in E2. cbn [head] in E2. change (Z.of_nat 0) with 0%Z in E2.
  rewrite E2. cbn [mbind res_bind]. cbn [plus] in *. specialize (HCl Hne). cbn [fst snd] in *.
  destruct (put_ok h2 ps ps' j c' C' R Hl Hd O2) as (Ep & Hwq & Oq & Hlq & Hj & Hdq).
  rewrite place_ok by done. rewrite Ep. cbn [mbind res_bind]. rewrite En.
  exists h2, (replicate (min j 19) no_level ++ (c', C') :: drop (S (min j 19)) ps), (max m (min j 19)),
    (w + if decide (j = 20%nat) then 1 else 0)%Z. split; [done|]. split; [|by apply same_but_trans with L h1].
  assert (HCw : (2 ^ Z.of_nat j <= Z.of_nat (length L))%Z).
  { pose proof (owns_lengths h2 _ O2) as Hle. cbn [concat] in Hle. rewrite length_app in Hle. lia. }
  split; try done.
  - rewrite last_app, last_cons. rewrite Hdq. destruct (decide (j = 20)) as [->|Hj20]; [done|].
    assert (Hps : length ps' = 20 - j) by (apply (f_equal length) in Hd; rewrite length_drop in Hd; cbn in Hd; lia).
    rewrite <- (take_drop j ps), Hd, last_app, last_cons in Hlast. destruct (last ps') eqn:El'; [done|].
    apply last_None in El'. subst ps'. cbn in Hps. lia.
  - intros i s Hi. cbn [plus]. destruct (decide (i < min j 19)) as [Hlt|Hge].
    { rewrite lookup_app_l in Hi by (by rewrite length_replicate). apply lookup_replicate in Hi as [-> _]. apply no_level_ok. }
    rewrite lookup_app_r in Hi by (rewrite length_replicate; lia). rewrite length_replicate in Hi.
    destruct (i - min j 19) as [|k] eqn:Ek.
    + injection Hi as <-. split; [done|]. intros _. cbn [snd]. etrans; [|exact HCl]. apply Z.pow_le_mono_r; lia.
    + change (drop (S (min j 19)) ps !! k = Some s) in Hi. rewrite lookup_drop in Hi. apply HL in Hi. by replace i with (S (min j 19) + k) by lia.
  - by rewrite HW, Hwq, <- Hw2, <- (assoc_L app).
  - lia.
  - intros i s Hi Hs. rewrite lookup_app_r in Hs by (rewrite length_replicate; lia). rewrite length_replicate in Hs.
    destruct (i - min j 19) as [|k] eqn:Ek; [lia|]. change (drop (S (min j 19)) ps !! k = Some s) in Hs. rewrite lookup_drop in Hs. apply (Ha (S (min j 19) + k)); [lia|done].
  - right. destruct (decide (m <= min j 19)) as [Hle|Hgt].
    + replace (max m (min j 19)) with (min j 19) by lia. exists (c', C'). split; [|done].
      rewrite lookup_app_r by (by rewrite length_replicate). by rewrite length_replicate, Nat.sub_diag.
    + replace (max m (min j 19)) with m by lia. destruct Ht as [->|(s & Hs & Hsn)]; [lia|]. exists s. split; [|done].
      rewrite lookup_app_r by (rewrite length_replicate; lia). rewrite length_replicate.
      replace (m - min j 19) with (S (m - S (min j 19))) by lia.
      change (drop (S (min j 19)) ps !! (m - S (min j 19)) = Some s). rewrite lookup_drop.
      by replace (S (min j 19) + (m - S (min j 19))) with m by lia.
  - destruct (decide (j = 20)) as [->|_]; [|by rewrite Z.add_0_r]. split; [lia|]. intros _. exact HCw.
Qed.

Lemma list_sort_loop_all n : forall h R ps m w, building h R ps m w -> length R < n ->
  exists h' ps' m' w', loop n (list_sort_round compare fuel) (h, head R, heads ps, Z.of_nat m, w) =
      Ok (h', heads ps', Z.of_nat m', w') /\ building h' [] ps' m' w' /\ same_but L h h'.
Proof.
  induction n as [|n IH]; intros h R ps m w HB Hn; [lia|]. rewrite loop_step. destruct R as [|x R].
  - cbn [head list_sort_round]. by exists h, ps, m, w.
  - destruct (list_sort_round_ok h x R ps m w HB) as (h1 & ps1 & m1 & w1 & E1 & B1 & S1). cbn [head]. rewrite E1.
    destruct (IH h1 R ps1 m1 w1 B1) as (h2 & ps2 & m2 & w2 & E2 & B2 & S2); [cbn in Hn; lia|].
    exists h2, ps2, m2, w2. split; [done|]. split; [done|]. by apply same_but_trans with L h1.
Qed.

(** ** The lists of [part] in one *)

Lemma collect_ok (ps : list level) todo : forall lev h l,
  levels 0 ps -> lev + todo <= length ps -> owns h (l :: (snd <$> drop lev ps)) -> sorts key true (whole (take lev ps)) l ->
  exists h' l', collect compare fuel (heads ps) (Z.of_nat lev) todo h (head l) = Ok (h', head l') /\
    owns h' (l' :: (snd <$> drop (lev + todo) ps)) /\ sorts key true (whole (take (lev + todo) ps)) l' /\ same_but L h h'.
Proof.
  induction todo as [|todo IH]; intros lev h l HL Hn O S; [exists h, l; by rewrite Nat.add_0_r|].
  destruct (lookup_lt_is_Some_2 ps lev ltac:(lia)) as [s Hs]. destruct (HL lev s Hs) as [Ss _].
  assert (Hw : whole (take (Datatypes.S lev) ps) = s.1 ++ whole (take lev ps))
    by (rewrite (take_S_r _ _ _ Hs), whole_app; cbn; done).
  rewrite (drop_S _ _ _ Hs) in O. cbn [fmap list_fmap] in O. cbn [collect].
  rewrite (aget_nat (heads ps) lev (head s.2)) by (by rewrite list_lookup_fmap, Hs). cbn [mbind res_bind].
  replace (Z.of_nat lev + 1)%Z with (Z.of_nat (Datatypes.S lev)) by lia.
  replace (lev + Datatypes.S todo) with (Datatypes.S lev + todo) by lia.
  destruct (head s.2) as [x|] eqn:Ex.
  - rewrite <- Ex. rewrite (Permutation_swap s.2 l) in O.
    destruct (kernel_merge_ok h s.2 l _ O) as (h1 & E1 & O1 & S1). rewrite E1. cbn [mbind res_bind].
    destruct (IH (Datatypes.S lev) h1 (merged_by s.2 l)) as (h2 & l2 & E2 & O2 & S2 & F2); [done|lia|done| |].
    + rewrite Hw. by apply merge_by_sorts.
    + exists h2, l2. split_and!; try done. by apply same_but_trans with L h1.
  - assert (Es : s.2 = []) by (by destruct s.2). pose proof (level_ok_empty _ s (HL lev s Hs) Es) as ->.
    apply IH; [done|lia| |by rewrite Hw].
    rewrite (Permutation_swap [] l) in O. by apply (proj1 (owns_nil _ _)) in O.
Qed.

(** ** The last merge *)
Context (hd : nat) (Hhd : hd ∉ L).

(** The head with [M] behind it: the links both ways, but for [next] of the last one. *)
Record restored (h : heap) (M : list nat) : Prop := {
  rs_next : exists e, chain h (hd :: M) e;
  rs_prev : back h (Some hd) M;
}.

Lemma last_cons_snoc (l : list nat) x y : last (x :: l ++ [y]) = Some y.
Proof. by rewrite app_comm_cons, last_snoc. Qed.

(** [tail->next = x]: what is behind [x] comes behind the built part. *)
Lemma tail_next_ok h M R e0 : restored h M -> chain h R e0 -> NoDup (hd :: M ++ R) ->
  exists h', set_next h (last (hd :: M)) (hd_or R e0) = Ok h' /\ chain h' (hd :: M ++ R) e0 /\ back h' (Some hd) M /\
    same_but (hd :: M) h h' /\ (forall y, y ∉ hd :: M -> nxt h' y = nxt h y) /\ (forall y, prv h' y = prv h y).
Proof.
  intros [[e C] B] CR ND. destruct (last (hd :: M)) as [t|] eqn:Et; [|by apply last_None in Et].
  apply last_Some in Et as [M0 EM]. rewrite app_comm_cons, EM in ND |- *. rewrite EM in C.
  apply chain_app in C as [C0 [Ht _]]. apply NoDup_app in ND as (ND & HR & _).
  apply NoDup_app in ND as (_ & HM0 & _).
  destruct (set_next_spec h t (hd_or R e0) (nxt_is_Some _ _ _ Ht)) as (h1 & E1 & A1 & N1 & P1 & V1 & F1).
  assert (Htl : t ∈ M0 ++ [t]) by (apply elem_of_app; right; by left).
  exists h1. split; [done|]. split; [|split; [|split; [|split; [|done]]]].
  - apply chain_app. split; [apply chain_app; split|].
    + apply chain_frame with h; [|done]. intros y Hy. apply N1. intros ->. apply (HM0 t Hy). by left.
    + by split.
    + apply chain_frame with h; [|done]. intros y Hy. apply N1. intros ->. by apply (HR t).
  - apply back_frame with h; [|done]. intros y _. apply P1.
  - split; [done|]. intros y Hy. apply F1. intros ->. by apply Hy.
  - intros y Hy. apply N1. intros ->. by apply Hy.
Qed.

(** One element goes behind the built part. *)
Lemma kernel_relink_ok h M x v : restored h M -> nxt h x = Some v -> NoDup (hd :: M ++ [x]) ->
  exists h1 h2, set_next h (last (hd :: M)) (Some x) = Ok h1 /\ set_prev h1 (Some x) (last (hd :: M)) = Ok h2 /\
    restored h2 (M ++ [x]) /\ nxt h2 x = Some v /\ (forall y, y ∉ hd :: M -> nxt h2 y = nxt h y) /\
    same_but (hd :: M ++ [x]) h h2.
Proof.
  intros R Hx ND. destruct (tail_next_ok h M [x] v R) as (h1 & E1 & C1 & B1 & S1 & N1 & P1); [by split|done|].
  pose proof ND as ND'. rewrite app_comm_cons in ND'. apply NoDup_app in ND' as (ND' & Hd & _).
  assert (HxM : x ∉ hd :: M) by (intros Hin; apply (Hd x Hin); by left).
  destruct (set_prev_spec h1 x (last (hd :: M))) as (h2 & E2 & A2 & P2 & N2 & V2 & F2).
  { apply (nxt_is_Some _ _ v). by rewrite N1. }
  exists h1, h2. split; [done|]. split; [done|]. split; [split|split; [|split]].
  - exists v. apply chain_frame with h1; [|done]. intros y _. apply N2.
  - apply back_snoc. split.
    + apply back_frame with h1; [|done]. intros y Hy. apply P2. intros ->. apply HxM. by right.
    + rewrite A2. rewrite last_cons. by destruct (last M).
  - by rewrite N2, N1.
  - intros y Hy. rewrite N2. by apply N1.
  - destruct S1 as [V1 F1]. split; [intros y; by rewrite V2, V1|].
    intros y Hy. rewrite F2, F1; [done| |].
    + intros Hin. apply Hy. rewrite app_comm_cons. apply elem_of_app. by left.
    + intros ->. apply Hy. rewrite app_comm_cons. apply elem_of_app. right. by left.
Qed.

Record restoring (h : heap) (M A B : list nat) : Prop := {
  rg_built : restored h M;
  rg_a : chain h A None;
  rg_b : chain h B None;
  rg_nodup : NoDup (hd :: M ++ A ++ B);
  rg_vals : forall x, x ∈ A ++ B -> x ∈ L /\ val h x = ival x;
}.

Lemma restoring_swap h M A B : restoring h M A B -> restoring h M B A.
Proof.
  intros [R A' B' N V]. split; try done; [by rewrite (Permutation_app_comm B A)|].
  intros x Hx. apply V. by rewrite (Permutation_app_comm A B).
Qed.

Lemma restoring_move h M x A B : restoring h M (x :: A) B ->
  exists h1 h2 e, set_next h (last (hd :: M)) (Some x) = Ok h1 /\ set_prev h1 (Some x) (last (hd :: M)) = Ok h2 /\
    load h2 (Some x) = Ok e /\ next e = head A /\ restoring h2 (M ++ [x]) A B /\ same_but (hd :: M ++ x :: A ++ B) h h2.
Proof.
  intros [R [Hx CA] CB ND V].
  assert (P : hd :: M ++ (x :: A) ++ B ≡ₚ (hd :: M ++ [x]) ++ A ++ B) by solve_Permutation.
  rewrite P in ND. pose proof ND as (N1 & Hd & _)%NoDup_app.
  destruct (kernel_relink_ok h M x _ R Hx N1) as (h1 & h2 & E1 & E2 & R2 & Nx & N2 & S2).
  apply nxt_load in Nx as (e & Ee & En). exists h1, h2, e. split; [done|]. split; [done|].
  split; [cbn; by rewrite Ee|]. split; [by rewrite En, hd_or_None|].
  assert (Hframe : forall y, y ∈ A ++ B -> nxt h2 y = nxt h y).
  { intros y Hy. apply N2. intros Hin. apply (Hd y); [|done]. rewrite app_comm_cons. apply elem_of_app. by left. }
  split.
  - split.
    + done.
    + apply chain_frame with h; [|done]. intros y Hy. apply Hframe, elem_of_app. by left.
    + apply chain_frame with h; [|done]. intros y Hy. apply Hframe, elem_of_app. by right.
    + exact ND.
    + intros y Hy. destruct S2 as [Sv _]. rewrite Sv. apply V. by right.
  - apply (same_but_weaken (hd :: M ++ [x])); [|done]. intros y. rewrite !elem_of_cons, !elem_of_app. set_solver.
Qed.

Lemma restore_loop_ok n : forall h M A B, length A + length B < n -> A ++ B <> [] -> restoring h M A B ->
  exists h' M' A' B' R, loop n (restore_round compare) (h, last (hd :: M), head A, head B) =
      Ok (h', last (hd :: M'), head A', head B') /\ or_else (head A') (head B') = head R /\ R <> [] /\
    restoring h' M' R [] /\ M' ++ R = M ++ merged_by A B /\ same_but (hd :: M ++ A ++ B) h h'.
Proof.
  induction n as [|n IH]; intros h M A B Hn Hne HR; [lia|]. rewrite loop_step.
  assert (Hx : forall x, x ∈ A ++ B -> x ∈ L /\ val h x = ival x) by apply HR.
  destruct A as [|x A].
  { exists h, M, [], B, B. split_and!; try done. by apply restoring_swap. }
  destruct B as [|y B].
  { exists h, M, (x :: A), [], (x :: A). by split_and!. }
  destruct (Hx x) as [HxL Vx]; [by left|]. destruct (Hx y) as [HyL Vy]; [apply elem_of_app; right; by left|].
  destruct (compare_ok h x y HxL HyL Vx Vy) as (c & Ec & Hc).
  cbn [restore_round head]. rewrite Ec. cbn [mbind res_bind]. rewrite Hc, merge_by_cons.
  destruct (goes_right key true x y); cbn [negb].
  - destruct (restoring_move h M y B (x :: A) (restoring_swap _ _ _ _ HR)) as (h1 & h2 & e & E1 & E2 & El & En & HR2 & S2).
    rewrite E1. cbn [mbind res_bind]. rewrite E2. cbn [mbind res_bind]. rewrite El. cbn [mbind res_bind]. rewrite En.
    rewrite <- (last_cons_snoc M hd y).
    destruct (IH h2 (M ++ [y]) (x :: A) B) as (h3 & M3 & A3 & B3 & R3 & E3 & Ho & HneR & HR3 & HM & S3);
      [cbn in *; lia|done|by apply restoring_swap|].
    exists h3, M3, A3, B3, R3. rewrite <- (assoc_L app) in HM. split_and!; try done.
    apply same_but_trans with (hd :: M ++ y :: B ++ x :: A) h2; [|done|]; [intros z; set_solver|].
    apply (same_but_weaken (hd :: (M ++ [y]) ++ (x :: A) ++ B)); [|done]. intros z. set_solver.
  - destruct (restoring_move h M x A (y :: B) HR) as (h1 & h2 & e & E1 & E2 & El & En & HR2 & S2).
    rewrite E1. cbn [mbind res_bind]. rewrite E2. cbn [mbind res_bind]. rewrite El. cbn [mbind res_bind]. rewrite En.
    rewrite <- (last_cons_snoc M hd x).
    destruct (IH h2 (M ++ [x]) A (y :: B)) as (h3 & M3 & A3 & B3 & R3 & E3 & Ho & HneR & HR3 & HM & S3);
      [cbn in *; lia|by destruct A|done|].
    exists h3, M3, A3, B3, R3. rewrite <- (assoc_L app) in HM. split_and!; try done.
    apply same_but_trans with (hd :: M ++ x :: A ++ y :: B) h2; [|done|]; [intros z; set_solver|].
    apply (same_but_weaken (hd :: (M ++ [x]) ++ A ++ y :: B)); [|done]. intros z. set_solver.
Qed.

(** The rest of the list only lacks its [prev] links. *)
Lemma back_loop_ok R : forall n h M, length R <= n -> R <> [] -> chain h (hd :: M ++ R) None -> back h (Some hd) M ->
  NoDup (hd :: M ++ R) -> (forall x, x ∈ R -> x ∈ L /\ val h x = ival x) ->
  exists h', loop n (back_round compare) (h, last (hd :: M)) = Ok (h', last (hd :: M ++ R)) /\
    chain h' (hd :: M ++ R) None /\ back h' (Some hd) (M ++ R) /\ same_but R h h'.
Proof.
  induction R as [|x R IH]; intros n h M Hn Hne C B ND V; [done|]. destruct n as [|n]; [cbn in Hn; lia|]. clear Hne.
  rewrite loop_step. unfold back_round at 1.
  destruct (last (hd :: M)) as [t|] eqn:Et; [|by apply last_None in Et].
  assert (Ht : nxt h t = Some (Some x)).
  { apply last_Some in Et as [M0 EM]. rewrite app_comm_cons, EM in C. apply chain_app in C as [C _].
    apply chain_app in C as [_ [C _]]. exact C. }
  apply nxt_load in Ht as (e & Ee & En). assert (El : load h (Some t) = Ok e) by (cbn; by rewrite Ee).
  rewrite El. cbn [mbind res_bind]. rewrite En. destruct (V x) as [HxL Vx]; [by left|].
  destruct (compare_ok h x x HxL HxL Vx Vx) as (c & Ec & _). rewrite Ec. cbn [mbind res_bind].
  assert (HxC : nxt h x = Some (hd_or R None)).
  { rewrite app_comm_cons in C. apply chain_app in C as [_ [C _]]. exact C. }
  destruct (set_prev_spec h x (Some t) (nxt_is_Some _ _ _ HxC)) as (h1 & E1 & A1 & P1 & N1 & V1 & F1).
  rewrite E1. cbn [mbind res_bind]. pose proof HxC as HxC1. rewrite <- N1 in HxC1.
  apply nxt_load in HxC1 as (e1 & Ee1 & En1).
  assert (El1 : load h1 (Some x) = Ok e1) by (cbn; by rewrite Ee1). rewrite El1. cbn [mbind res_bind]. rewrite En1, hd_or_None.
  assert (C1 : chain h1 (hd :: M ++ x :: R) None) by (apply chain_frame with h; [|done]; intros y _; apply N1).
  assert (HxM : x ∉ M).
  { apply NoDup_cons in ND as [_ ND]. apply NoDup_app in ND as (_ & Hd & _). intros Hin. apply (Hd x Hin). by left. }
  assert (B1 : back h1 (Some hd) (M ++ [x])).
  { apply back_snoc. split.
    - apply back_frame with h; [|done]. intros y Hy. apply P1. by intros ->.
    - rewrite A1, <- Et, last_cons. by destruct (last M). }
  assert (S1 : same_but (x :: R) h h1) by (split; [done|]; intros y Hy; apply F1; intros ->; apply Hy; by left).
  destruct R as [|y R]; cbn [head].
  - exists h1. rewrite last_cons_snoc. by split_and!.
  - rewrite <- (last_cons_snoc M hd x).
    replace (M ++ x :: y :: R) with ((M ++ [x]) ++ y :: R) in * by (by rewrite <- (assoc_L app)).
    destruct (IH n h1 (M ++ [x])) as (h2 & E2 & C2 & B2 & S2); [cbn in *; lia|done..| |].
    { intros z Hz. rewrite V1. apply V. by right. }
    exists h2. split_and!; try done. apply same_but_trans with (x :: y :: R) h1; [done|done|].
    apply (same_but_weaken (y :: R)); [|done]. intros z Hz. by right.
Qed.

Lemma merge_and_restore_ok h A B : A ++ B <> [] -> restoring h [] A B ->
  exists h', merge_and_restore_back_links compare fuel h hd (head A) (head B) = Ok h' /\
    linked h' true true (hd :: merged_by A B) /\ same_but (hd :: L) h h'.
Proof.
  intros Hne HR. pose proof (rg_nodup _ _ _ _ HR) as ND. pose proof (rg_vals _ _ _ _ HR) as V.
  assert (Hlen : length A + length B <= length L).
  { rewrite <- length_app. apply submseteq_length, NoDup_submseteq; [by apply NoDup_cons in ND as [_ ?]|].
    intros x Hx. by apply V. }
  assert (SubL : forall x, x ∈ hd :: A ++ B -> x ∈ hd :: L).
  { intros x [->|Hx]%elem_of_cons; [by left|]. right. by apply V. }
  unfold merge_and_restore_back_links.
  destruct (restore_loop_ok fuel h [] A B) as (h1 & M & A' & B' & R & E1 & Ho & HneR & HR1 & HM & S1); [lia|done|done|].
  change (last [hd]) with (Some hd) in E1. rewrite E1. cbn [mbind res_bind app] in *. destruct HR1 as [R1 CR _ ND1 V1]. rewrite app_nil_r in *.
  destruct (tail_next_ok h1 M R None R1 CR ND1) as (h2 & E2 & C2 & B2 & S2 & _ & _).
  rewrite Ho, <- hd_or_None, E2. cbn [mbind res_bind].
  assert (HMR : M ++ R ≡ₚ A ++ B) by (rewrite HM; symmetry; apply merge_by_perm).
  assert (HlenR : length R <= length L) by (apply (f_equal length) in HM; rewrite length_app, merge_by_length in HM; lia).
  destruct (back_loop_ok R fuel h2 M) as (h3 & E3 & C3 & B3 & S3); [lia|done|done|done|done| |].
  { intros x Hx. destruct S2 as [Sv _]. rewrite Sv. by apply V1. }
  rewrite E3. cbn [mbind res_bind].
  destruct (tail_next_ok h3 (M ++ R) [] (Some hd)) as (h4 & E4 & C4 & B4 & S4 & _ & P4);
    [by split; [exists None|]|done|by rewrite app_nil_r|].
  cbn [hd_or] in E4. rewrite E4. cbn [mbind res_bind]. rewrite app_nil_r in C4.
  assert (Hh : is_Some (h4 !! hd)) by (destruct C4 as [C4 _]; by apply nxt_is_Some in C4).
  destruct (set_prev_spec h4 hd (last (hd :: M ++ R)) Hh) as (h5 & E5 & A5 & P5 & N5 & V5 & F5).
  exists h5. split; [done|]. rewrite <- HM. apply NoDup_cons in ND1 as [HhdM ND1]. split; [split|].
  - cbn [head]. apply chain_frame with h4; [|done]. intros y _. apply N5.
  - intros _. cbn [back]. split; [done|]. apply back_frame with h4; [|done]. intros y Hy. apply P5. by intros ->.
  - assert (SubM : forall x, x ∈ hd :: M ++ R -> x ∈ hd :: L) by (intros x; rewrite HMR; apply SubL).
    assert (S12 : same_but (hd :: L) h h2).
    { apply same_but_trans with (hd :: A ++ B) h1; [done|done|]. apply (same_but_weaken (hd :: M)); [|done].
      intros x Hx. apply SubM. rewrite app_comm_cons. apply elem_of_app. by left. }
    assert (S34 : same_but (hd :: L) h2 h4).
    { apply same_but_trans with R h3; [|done|by apply (same_but_weaken (hd :: M ++ R))].
      intros x Hx. apply SubM. rewrite app_comm_cons. apply elem_of_app. by right. }
    apply same_but_trans with (hd :: L) h2; [done|done|]. apply same_but_trans with (hd :: L) h4; [done|done|].
    split; [done|]. intros y Hy. apply F5. intros ->. apply Hy. by left.
Qed.

(** ** The whole sort *)

(** What the loop over the nodes leaves is sorted by the last merges. *)
Lemma last_merges_ok h ps m w : L <> [] -> is_Some (h !! hd) -> building h [] ps m w ->
  exists h1 h2 l a K, collect compare fuel (heads ps) 0 m h None = Ok (h1, l) /\
    aget (heads ps) (Z.of_nat m) = Ok a /\ merge_and_restore_back_links compare fuel h1 hd a l = Ok h2 /\
    sorts key true L K /\ linked h2 true true (hd :: K) /\ same_but (hd :: L) h h2.
Proof.
  intros HneL Hhdh [Hl _ HL HW O Hm Ha Ht _]. rewrite app_nil_r in HW.
  destruct (collect_ok ps m 0 h []) as (h1 & l & E1 & O1 & Sl & S1); [done|lia|done|by apply sorts_short; cbn; lia|].
  cbn [plus] in *. change (Z.of_nat 0) with 0%Z in E1. cbn [head] in E1.
  destruct (lookup_lt_is_Some_2 ps m ltac:(lia)) as [s Hs]. destruct (HL m s Hs) as [Ss _].
  assert (Hempty : whole (drop (S m) ps) = []).
  { apply whole_empty. apply Forall_lookup. intros i t Hi. rewrite lookup_drop in Hi. apply (Ha (S m + i)); [lia|done]. }
  assert (HLw : L = s.1 ++ whole (take m ps)).
  { rewrite HW, <- (take_drop_middle ps m s Hs) at 1. rewrite whole_app. cbn [whole]. by rewrite Hempty. }
  assert (Hne : s.2 <> []).
  { destruct Ht as [->|(s' & Hs' & Hn)]; [|congruence]. intros E. cbn in HLw. rewrite app_nil_r in HLw.
    rewrite (level_ok_empty 0 s (HL 0 s Hs) E) in HLw. done. }
  rewrite (drop_S _ _ _ Hs) in O1. cbn [fmap list_fmap] in O1.
  assert (O2 : owns h1 (s.2 :: l :: (snd <$> drop (S m) ps))) by (by rewrite (Permutation_swap l)).
  destruct O2 as [C2 N2 V2]. cbn [concat] in N2, V2. rewrite (assoc_L app) in N2, V2.
  apply Forall_cons in C2 as [Cs C2]. apply Forall_cons in C2 as [Cl _].
  apply NoDup_app in N2 as (N2 & _ & _).
  assert (V : forall x, x ∈ s.2 ++ l -> x ∈ L /\ val h1 x = ival x) by (intros x Hx; apply V2, elem_of_app; by left).
  destruct (merge_and_restore_ok h1 s.2 l) as (h2 & E2 & Lk & S2).
  - intros [E _]%app_nil. done.
  - split; [|done|done| |done].
    + split; [|done]. destruct Hhdh as [e He]. destruct S1 as [_ F1]. exists (next e). split; [|done].
      unfold nxt. by rewrite F1, He.
    + cbn [app]. apply NoDup_cons. split; [|done]. intros Hx. apply Hhd. by apply V.
  - exists h1, h2, (head l), (head s.2), (merged_by s.2 l). split; [done|]. split.
    { apply aget_nat. by rewrite list_lookup_fmap, Hs. }
    split; [done|]. split; [rewrite HLw; by apply merge_by_sorts|]. split; [done|].
    apply same_but_trans with L h1; [|done|done]. intros x Hx. by right.
Qed.

(** Cutting the circle: [head->prev->next = NULL]. *)
Lemma open_ok h : L <> [] -> linked h true true (hd :: L) -> NoDup (hd :: L) ->
  (forall x, x ∈ L -> val h x = ival x) ->
  exists e h1 e1, load h (Some hd) = Ok e /\ set_next h (prev e) None = Ok h1 /\ load h1 (Some hd) = Ok e1 /\
    next e1 = head L /\ owns h1 [L] /\ same_but L h h1.
Proof.
  clear Hcmp Hfuel. intros Hne [Ln Lp] ND V. cbn [head] in Ln. specialize (Lp eq_refl). destruct L as [|t L0 _] eqn:EL using rev_ind; [done|].
  rewrite <- EL in *. rewrite EL in Ln, Lp. rewrite last_cons_snoc in Lp. cbn [back] in Lp. destruct Lp as [Hp _].
  unfold prv in Hp. apply fmap_Some in Hp as (e & Ee & Ep). symmetry in Ep.
  rewrite app_comm_cons in Ln. apply chain_app in Ln as [Ln [Ht _]]. cbn [hd_or] in Ht, Ln. destruct Ln as [Hn Ln].
  apply NoDup_cons in ND as [Hhd' ND]. rewrite EL in ND, Hhd'. apply NoDup_app in ND as (ND & Hd & _).
  assert (Hth : t <> hd) by (intros ->; apply Hhd', elem_of_app; right; by left).
  assert (HtL : t ∈ L) by (rewrite EL; apply elem_of_app; right; by left).
  destruct (set_next_spec h t None (nxt_is_Some _ _ _ Ht)) as (h1 & E1 & A1 & N1 & P1 & V1 & F1).
  assert (Hn1 : nxt h1 hd = Some (head L)).
  { rewrite N1 by congruence. rewrite Hn, EL. by destruct L0. }
  apply nxt_load in Hn1 as (e1 & Ee1 & En1). exists e, h1, e1. split; [cbn; by rewrite Ee|].
  rewrite Ep. split; [done|]. split; [cbn; by rewrite Ee1|]. split; [done|]. split.
  - split.
    + constructor; [|done]. rewrite EL. apply chain_app. split; [|by split].
      apply chain_frame with h; [|done]. intros y Hy. apply N1. intros ->. apply (Hd t Hy). by left.
    + cbn [concat]. rewrite app_nil_r, EL. apply NoDup_app. split_and!; [done|done|by apply NoDup_singleton].
    + cbn [concat]. rewrite app_nil_r. intros x Hx. split; [done|]. rewrite V1. by apply V.
  - split; [done|]. intros y Hy. apply F1. by intros ->.
Qed.
End correct.

(** The sort, for the theorems below. *)
Lemma list_sort_ok `{KlistEmptyLaw} (compare : heap -> option nat -> option nat -> res Z) (key : nat -> Z)
    (ival : nat -> option Z) (L : list nat) (fuel : nat) (h : heap) (hd : nat) :
  compares_as compare key ival L ->
  linked h true true (hd :: L) -> NoDup (hd :: L) -> (forall x, x ∈ L -> val h x = ival x) -> length L < fuel ->
  exists h' K w, list_sort compare fuel h hd = Ok (h', w) /\ sorts key true L K /\
    linked h' true true (hd :: K) /\ same_but (hd :: L) h h' /\ (Z.of_nat (length L) < 2 ^ 20 -> w = 0)%Z.
Proof.
  intros Hcmp Hlk ND V Hf. unfold list_sort. rewrite (list_empty_law hd L h Hlk ND). cbn [mbind res_bind].
  case_bool_decide as HE.
  { subst L. exists h, [], 0%Z. split; [done|]. split; [by apply sorts_short; cbn; lia|]. by split_and!. }
  pose proof ND as [Hhd _]%NoDup_cons.
  destruct (open_ok ival L hd Hhd h HE Hlk ND V) as (e & h1 & e1 & El & E1 & El1 & En & O1 & S1).
  rewrite El. cbn [mbind res_bind]. rewrite E1. cbn [mbind res_bind]. rewrite El1. cbn [mbind res_bind]. rewrite En.
  change (Z.to_nat ARRAY_SIZE_part) with 21.
  assert (HB : building key ival L h1 L (replicate 21 no_level) 0 0).
  { split; try done.
    - intros i s Hi. apply lookup_replicate in Hi as [-> _]. apply no_level_ok.
    - cbn [fmap list_fmap replicate snd no_level]. rewrite (Permutation_cons_append _ L).
      by apply (owns_replicate ival L h1 21 [L]).
    - cbn. lia.
    - intros i s _ Hi. by apply lookup_replicate in Hi as [-> _].
    - by left. }
  destruct (list_sort_loop_all compare key ival L fuel Hcmp Hf fuel h1 L _ 0 0%Z HB) as (h2 & ps & m & w & E2 & B2 & S2); [done|].
  change (replicate 21 None) with ((fun s : list nat * list nat => head s.2) <$> replicate 21 no_level).
  change (Z.of_nat 0) with 0%Z in E2. rewrite E2. cbn [mbind res_bind]. rewrite Nat2Z.id.
  assert (Hh2 : is_Some (h2 !! hd)).
  { destruct S2 as [_ F2]. rewrite F2 by done. cbn in El1. destruct (h1 !! hd); [by eexists|done]. }
  destruct (last_merges_ok compare key ival L fuel Hcmp Hf hd Hhd h2 ps m w HE Hh2 B2)
    as (h3 & h4 & l & a & K & E3 & Ea & E4 & HK & Lk & S4).
  rewrite E3. cbn [mbind res_bind]. rewrite Ea. cbn [mbind res_bind]. rewrite E4. cbn [mbind res_bind].
  exists h4, K, w. split_and!; try done.
  - apply same_but_trans with L h2; [intros x Hx; by right| |done]. by apply same_but_trans with L h1.
  - destruct (bd_warned _ _ _ _ _ _ _ _ B2). lia.
Qed.

(** C11: [list_sort] leaves the nodes of any list stably sorted by the keys the callback compares
    by, the list circular and double again with its head in place, the integers of the nodes and
    all other memory as they were; with fewer than [2 ^ 20] nodes it prints no message, with more it
    still sorts.  The list is linked as a circle in memory, each node holds its key, and the callback compares nodes by their keys, whatever the links. *)
Theorem list_sort_correct `{KlistEmptyLaw} (compare : heap -> option nat -> option nat -> res Z) (key : nat -> Z)
    (L : list nat) (fuel : nat) (h : heap) (hd : nat) :
  compares_by_key compare (fun c => c <=? 0)%Z key true L ->
  linked h true true (hd :: L) -> NoDup (hd :: L) -> (forall x, x ∈ L -> val h x = Some (key x)) -> length L < fuel ->
  exists h' K w, list_sort compare fuel h hd = Ok (h', w) /\ sorts key true L K /\
    linked h' true true (hd :: K) /\ same_but (hd :: L) h h' /\ (Z.of_nat (length L) < 2 ^ 20 -> w = 0)%Z.
Proof. apply (list_sort_ok compare key (fun x => Some (key x))). Qed.

#[export] Instance kernel_empty_law : KlistEmptyLaw kernel_empty.
Proof.
  intros a l h [Ln _] ND. destruct Ln as [(e & Ee & En)%nxt_load _]. unfold list_empty, kernel_empty, load. rewrite Ee.
  cbn [mbind res_bind]. rewrite En. f_equal. apply bool_decide_ext. cbn [head]. destruct l as [|x l]; [done|]. cbn.
  split; [|done]. intros [= ->]. apply NoDup_cons in ND as [Ha _]. exfalso. apply Ha. by left.
Qed.

(** Three nodes behind the head 0; two of them have the same integer. *)
Definition three_behind : heap :=
  {[ 0 := Elem (Some 1) (Some 3) None; 1 := Elem (Some 2) (Some 0) (Some 5%Z);
     2 := Elem (Some 3) (Some 1) (Some 3%Z); 3 := Elem (Some 0) (Some 2) (Some 3%Z) ]}.
Definition behind_keys (a : nat) : Z := match a with 1 => 5 | _ => 3 end.

Lemma list_sort_correct_witness :
  exists h' K w, list_sort client_cmp 4 three_behind 0 = Ok (h', w) /\ sorts behind_keys true [1; 2; 3] K /\
    linked h' true true (0 :: K) /\ same_but [0; 1; 2; 3] three_behind h' /\ (Z.of_nat 3 < 2 ^ 20 -> w = 0)%Z.
Proof.
  apply (list_sort_correct client_cmp behind_keys [1; 2; 3] 4 three_behind 0).
  - apply cmp_compares. intros x y _ _. destruct x as [|[|x]], y as [|[|y]]; vm_compute; split; discriminate.
  - split; [|intros _]; cbn; split_and!; reflexivity.
  - decide_now.
  - intros x Hx. repeat (apply elem_of_cons in Hx as [->|Hx]; [reflexivity|]). by apply not_elem_of_nil in Hx.
  - cbn. lia.
Defined.

(** The test program prints its ten random integers and then the same integers in order. *)
Theorem test_kernel_list_sort_main_sorts `{KlistLaws} `{KlistEmptyLaw} (fuel : nat) (rnd : list Z) :
  length rnd = 10 -> 10 < fuel ->
  exists before after, test_kernel_list_sort_main fuel rnd = Ok (before, after) /\
    length before = 10 /\ before ≡ₚ after /\ StronglySorted Z.le after.
Proof.
  intros Hr Hf. destruct (nodes_ok None rnd Hr) as (h & E1 & HL). unfold test_kernel_list_sort_main.
  apply bind_Ok_inv in E1 as (h0 & E0 & E1). rewrite E0. cbn [mbind res_bind]. rewrite E1. cbn [mbind res_bind].
  rewrite (print_nodes_ok _ _ HL). cbn [mbind res_bind].
  pose proof (listed_ints None h HL) as HV.
  destruct (list_sort_ok client_cmp (int_at h) (fun x => Some (int_at h x)) (seq 1 10) fuel h 0) as (h' & k & w & Es & [P S _] & Lk & [Sv _] & _).
  - apply cmp_compares. intros x y Hx Hy. destruct (HV x Hx) as [_ Bx]. destruct (HV y Hy) as [_ By].
    unfold is_int, INT_MIN, INT_MAX. lia.
  - apply HL.
  - apply (NoDup_seq 0 11).
  - intros x Hx. by apply HV.
  - by rewrite length_seq.
  - rewrite Es. cbn [mbind res_bind]. rewrite (print_nodes_keys (int_at h) k h' Lk).
    + cbn [mbind res_bind]. exists (int_at h <$> seq 1 10), (int_at h <$> k). split; [done|]. split; [done|].
      split; [by rewrite P|]. clear -S. induction S as [|x l S IH Hx]; [constructor|]. constructor; [done|].
      apply Forall_fmap. exact Hx.
    + apply NoDup_cons. rewrite <- P. split; [intros Hin%elem_of_seq; lia|apply NoDup_seq].
    + intros x Hx. rewrite Sv. apply HV. by rewrite P.
Qed.

Lemma test_kernel_list_sort_main_sorts_witness :
  exists before after, test_kernel_list_sort_main 32 [4; 8; 15; 16; 23; 42; 0; 1; 2; 3]%Z = Ok (before, after) /\
    length before = 10 /\ before ≡ₚ after /\ StronglySorted Z.le after.
Proof. apply test_kernel_list_sort_main_sorts; [reflexivity|lia]. Defined.
