(* ===== verification/Greedy.v ===== *)
(** The activity selection of src/algs/intro_to_algs3th/16.c: [max_comp_activity] takes the longest
    activity in the given time, then goes on before and after it. *)
From S2P Require Import Prelude.

Record itoa_activity : Type := Act { s : Z; f : Z; chosen : Z }.

(** One round of the loop of [longest_activity]: the best place so far and its length. *)
Definition longest_round (s0 f0 : Z) (as_ : list itoa_activity) (i : Z) (st : option Z * Z) : res (option Z * Z) :=
  let '(a, maxa) := st in
  x ← aget as_ i;
  if (chosen x =? 0)%Z && ((s0 <=? s x)%Z && (f x <=? f0)%Z) then
    tmaxa ← ck (f x - s x);
    Ok (if (maxa <? tmaxa)%Z then (Some i, tmaxa) else (a, maxa))
  else Ok (a, maxa).
Fixpoint longest_loop (s0 f0 : Z) (as_ : list itoa_activity) (i : Z) (todo : nat) (st : option Z * Z) : res (option Z * Z) :=
  match todo with
  | O => Ok st
  | S todo => st ← longest_round s0 f0 as_ i st; longest_loop s0 f0 as_ (i + 1) todo st
  end.

(** The place of the activity found, if any, and the array. *)
Definition longest_activity (s0 f0 : Z) (as_ : list itoa_activity) (nas : Z) : res (option Z * list itoa_activity) :=
  if (s0 =? f0)%Z then Ok (None, as_)
  else if (nas =? 0)%Z then Ok (None, as_)
  else
    '(a, _) ← longest_loop s0 f0 as_ 0 (Z.to_nat nas) (None, 0%Z);
    match a with
    | Some i => x ← aget as_ i; as_ ← aset as_ i (Act (s x) (f x) 1); Ok (a, as_)
    | None => Ok (None, as_)
    end.

(** [as], [comp_as] with the places not written, and [*ias]. *)
Notation state := (list itoa_activity * list (option itoa_activity) * Z)%type.

Fixpoint max_comp_activity (fuel : nat) (s0 f0 : Z) (nas : Z) (st : state) : res state :=
  match fuel with
  | O => Stop OutOfFuel
  | S fuel =>
      let '(as_, comp_as, ias) := st in
      if (s0 =? f0)%Z then Ok st
      else if (nas =? 0)%Z then Ok st
      else
        '(a, as_) ← longest_activity s0 f0 as_ nas;
        match a with
        | None => Ok (as_, comp_as, ias)
        | Some i =>
            x ← aget as_ i;
            comp_as ← aset comp_as ias (Some x);
            ias ← ck (ias + 1);
            let st := (as_, comp_as, ias) in
            if (s x =? s0)%Z && (f x =? f0)%Z then Ok st
            else if (s x =? s0)%Z && (f x <? f0)%Z then max_comp_activity fuel (f x) f0 nas st
            else if (s0 <? s x)%Z && (f x =? f0)%Z then max_comp_activity fuel s0 (s x) nas st
            else st ← max_comp_activity fuel s0 (s x) nas st; max_comp_activity fuel (f x) f0 nas st
        end
  end.

(** What is printed of an activity: its numbers, and the character that follows. *)
Definition itoa_activity_dump (a : itoa_activity) (c : Ascii.ascii) : Z * Z * Ascii.ascii := (s a, f a, c).

Definition test_activities : list itoa_activity :=
  (fun p : Z * Z => Act p.1 p.2 0) <$>
    [(1, 4); (3, 5); (0, 6); (5, 7); (3, 9); (5, 9); (6, 10); (8, 11); (8, 12); (2, 14); (12, 16)]%Z.

(** [comp_as + i] for [i] from 0 on, [todo] of them in all [ncomp_as]. *)
Fixpoint dump_all (comp_as : list (option itoa_activity)) (ncomp_as i : Z) (todo : nat) : res (list (Z * Z * Ascii.ascii)) :=
  match todo with
  | O => Ok []
  | S todo =>
      x ← aget comp_as i;
      match x with
      | None => Stop Uninit
      | Some x =>
          out ← dump_all comp_as ncomp_as (i + 1) todo;
          Ok (itoa_activity_dump x (if (i =? ncomp_as - 1)%Z then Ascii.ascii_of_nat 10 else Ascii.ascii_of_nat 44) :: out)
      end
  end.

(** [sizeof(as)] is the number of bytes of the array: three 4-byte integers each. *)
Definition sizeof_as : Z := 12 * Z.of_nat (length test_activities).

(** What the program prints before it exits; [nas] is the count it gives for the array. *)
Definition greedy_program (fuel : nat) (nas : Z) : res (list (Z * Z * Ascii.ascii)) :=
  '(_, comp_as, ncomp_as) ←
    max_comp_activity fuel 1 11 nas (test_activities, replicate (Z.to_nat sizeof_as) None, 0%Z);
  dump_all comp_as ncomp_as 0 (Z.to_nat ncomp_as).
Definition test_greedy_main (fuel : nat) : res Z :=
  _ ← greedy_program fuel sizeof_as; Stop Exited.

(** * The sets of activities *)

(** An activity that can still be taken between [s0] and [f0]. *)
Definition candidate (s0 f0 : Z) (x : itoa_activity) : Prop :=
  chosen x = 0%Z /\ (s0 <= s x)%Z /\ (f x <= f0)%Z /\ (s x < f x)%Z.

(** Two activities do not overlap. *)
Definition compatible (x y : itoa_activity) : Prop := (f x <= s y \/ f y <= s x)%Z.

(** The array with the places of [ch] marked. *)
Definition mark (ch : list nat) (as_ : list itoa_activity) : list itoa_activity :=
  imap (fun i x => if decide (i ∈ ch) then Act (s x) (f x) 1 else x) as_.

Lemma mark_lookup ch as_ i :
  mark ch as_ !! i = (fun x => if decide (i ∈ ch) then Act (s x) (f x) 1 else x) <$> as_ !! i.
Proof. unfold mark. by rewrite list_lookup_imap. Qed.

Lemma mark_length ch as_ : length (mark ch as_) = length as_.
Proof. apply length_imap. Qed.

Lemma mark_mark ch1 ch2 as_ : mark ch2 (mark ch1 as_) = mark (ch1 ++ ch2) as_.
Proof.
  apply list_eq. intros i. rewrite !mark_lookup. destruct (as_ !! i) as [x|]; [|done]. cbn. f_equal.
  destruct (decide (i ∈ ch1)), (decide (i ∈ ch2)), (decide (i ∈ ch1 ++ ch2)); set_solver.
Qed.

Lemma mark_nil as_ : mark [] as_ = as_.
Proof.
  apply list_eq. intros i. rewrite mark_lookup. by destruct (as_ !! i).
Qed.

Lemma mark_insert as_ i x : as_ !! i = Some x -> <[i := Act (s x) (f x) 1]> as_ = mark [i] as_.
Proof.
  intros E. apply list_eq. intros j. rewrite mark_lookup. destruct (decide (j ∈ [i])) as [Hj|Hj].
  - apply list_elem_of_singleton in Hj as ->. rewrite list_lookup_insert_eq by (by apply lookup_lt_Some in E). by rewrite E.
  - rewrite list_elem_of_singleton in Hj. rewrite list_lookup_insert_ne by done. by destruct (as_ !! j).
Qed.

(** How many are still free. *)
Definition free_ones (as_ : list itoa_activity) : nat := length (filter (fun x => chosen x = 0%Z) as_).

Lemma free_ones_mark as_ i x : as_ !! i = Some x -> chosen x = 0%Z -> S (free_ones (mark [i] as_)) = free_ones as_.
Proof.
  intros E Hx. rewrite <- (mark_insert _ _ _ E). unfold free_ones.
  rewrite <- (take_drop_middle as_ i x E) at 2. rewrite insert_take_drop by (by apply lookup_lt_Some in E).
  rewrite !filter_app, !length_app, filter_cons_False, filter_cons_True by done. cbn [length]. lia.
Qed.

(** * The longest activity *)
(** The lengths of the activities fit [int]. *)
Definition lengths_fit (as_ : list itoa_activity) : Prop := Forall (fun x => is_int (f x - s x)) as_.

Lemma mark_lengths_fit ch as_ : lengths_fit as_ -> lengths_fit (mark ch as_).
Proof.
  unfold lengths_fit. rewrite !Forall_lookup. intros H i x Hx. rewrite mark_lookup in Hx.
  apply fmap_Some in Hx as (y & Hy & ->). specialize (H i y Hy). by destruct (decide (i ∈ ch)).
Qed.

(** What the loop knows after [k] activities. *)
Definition longest_of (s0 f0 : Z) (as_ : list itoa_activity) (k : nat) (st : option Z * Z) : Prop :=
  (forall i x, i < k -> as_ !! i = Some x -> candidate s0 f0 x -> (f x - s x <= st.2)%Z) /\
  match st.1 with
  | None => st.2 = 0%Z
  | Some a => exists i x, a = Z.of_nat i /\ as_ !! i = Some x /\ candidate s0 f0 x /\ st.2 = (f x - s x)%Z
  end.

Lemma longest_loop_ok s0 f0 as_ todo : forall k st, lengths_fit as_ -> longest_of s0 f0 as_ k st -> k + todo = length as_ ->
  exists st', longest_loop s0 f0 as_ (Z.of_nat k) todo st = Ok st' /\ longest_of s0 f0 as_ (length as_) st'.
Proof.
  induction todo as [|todo IH]; intros k [a m] HF HI Hk; cbn [longest_loop].
  { exists (a, m). split; [done|]. by replace (length as_) with k by lia. }
  destruct (lookup_lt_is_Some_2 as_ k ltac:(lia)) as [x Hx].
  assert (exists st1, longest_round s0 f0 as_ (Z.of_nat k) (a, m) = Ok st1 /\ longest_of s0 f0 as_ (S k) st1) as (st1 & E & HI1).
  { unfold longest_round. rewrite (aget_nat _ _ _ Hx). cbn [mbind res_bind].
    destruct HI as [Hmax Hbest]. cbn [fst snd] in *.
    assert (Hkeep : ~ (candidate s0 f0 x /\ (m < f x - s x)%Z) -> longest_of s0 f0 as_ (S k) (a, m)).
    { intros Hc. split; [|done]. cbn [snd]. intros i y Hi Hy Hcy. destruct (decide (i = k)) as [->|Hne].
      - assert (x = y) as <- by congruence. destruct (Z.le_gt_cases (f x - s x) m); [done|]. exfalso. apply Hc. split; [done|lia].
      - apply (Hmax i); [lia|done|done]. }
    unfold candidate in Hkeep.
    destruct (Z.eqb_spec (chosen x) 0), (Z.leb_spec s0 (s x)), (Z.leb_spec (f x) f0); cbn [andb];
      try (eexists; split; [done|]; apply Hkeep; lia).
    assert (Hfit : is_int (f x - s x)) by (by apply (Forall_lookup_1 _ _ _ _ HF Hx)).
    rewrite ck_ok by done. cbn [mbind res_bind].
    assert (Hm : (0 <= m)%Z).
    { destruct a as [a|]; [|lia]. destruct Hbest as (i & y & _ & _ & (_ & _ & _ & ?) & ->). lia. }
    destruct (Z.ltb_spec m (f x - s x)) as [Hlt|Hge]; (eexists; split; [done|]); [|apply Hkeep; lia].
    split; cbn [fst snd]; [|exists k, x; split_and!; [done|done|split_and!; lia|done]].
    intros i y Hi Hy Hcy. destruct (decide (i = k)) as [->|Hne]; [assert (x = y) as <- by congruence; lia|].
    specialize (Hmax i y ltac:(lia) Hy Hcy). lia. }
  rewrite E. cbn [mbind res_bind]. replace (Z.of_nat k + 1)%Z with (Z.of_nat (S k)) by lia. apply IH; [done|done|lia].
Qed.

Lemma longest_activity_ok s0 f0 as_ : lengths_fit as_ ->
  (longest_activity s0 f0 as_ (Z.of_nat (length as_)) = Ok (None, as_) /\
     forall i x, as_ !! i = Some x -> ~ candidate s0 f0 x) \/
  (exists i x, longest_activity s0 f0 as_ (Z.of_nat (length as_)) = Ok (Some (Z.of_nat i), mark [i] as_) /\
     as_ !! i = Some x /\ candidate s0 f0 x /\
     forall j y, as_ !! j = Some y -> candidate s0 f0 y -> (f y - s y <= f x - s x)%Z).
Proof.
  intros HF. unfold longest_activity. destruct (Z.eqb_spec s0 f0) as [->|Hne].
  { left. split; [done|]. intros i x _ (_ & ? & ? & ?). lia. }
  destruct (Z.eqb_spec (Z.of_nat (length as_)) 0) as [H0|H0].
  { left. split; [done|]. destruct as_; [|cbn in H0; lia]. by intros i x Hi%list_elem_of_lookup_2%not_elem_of_nil. }
  destruct (longest_loop_ok s0 f0 as_ (length as_) 0 (None, 0%Z)) as ([a m] & E & Hmax & Hbest); [done| |done|].
  { split; [intros i x Hi; lia|done]. }
  rewrite Nat2Z.id. change (Z.of_nat 0) with 0%Z in E. rewrite E. cbn [mbind res_bind]. cbn [fst snd] in *.
  destruct a as [a|].
  - right. destruct Hbest as (i & x & -> & Hx & Hc & ->). exists i, x.
    rewrite (aget_nat _ _ _ Hx). cbn [mbind res_bind]. rewrite aset_nat by (by apply lookup_lt_Some in Hx).
    cbn [mbind res_bind]. rewrite (mark_insert _ _ _ Hx). split_and!; try done.
    intros j y Hy. apply (Hmax j y); [by apply lookup_lt_Some in Hy|done].
  - left. split; [done|]. intros i x Hx Hc. specialize (Hmax i x ltac:(by apply lookup_lt_Some in Hx) Hx Hc).
    destruct Hc as (_ & _ & _ & ?). lia.
Qed.

(** * The selection *)

(** The places [ch] are a maximal set of compatible activities between [s0] and [f0]. *)
Record selection (s0 f0 : Z) (as_ : list itoa_activity) (ch : list nat) : Prop := {
  sel_nodup : NoDup ch;
  sel_candidates : forall i, i ∈ ch -> exists x, as_ !! i = Some x /\ candidate s0 f0 x;
  sel_compatible : forall i j x y, i ∈ ch -> j ∈ ch -> i <> j -> as_ !! i = Some x -> as_ !! j = Some y -> compatible x y;
  sel_maximal : forall i x, as_ !! i = Some x -> candidate s0 f0 x -> i ∉ ch ->
    exists j y, j ∈ ch /\ as_ !! j = Some y /\ ~ compatible x y;
}.

(** [out] are the activities at the places [ch], marked. *)
Definition picked (as_ : list itoa_activity) (ch : list nat) (out : list itoa_activity) : Prop :=
  Forall2 (fun i y => exists x, as_ !! i = Some x /\ y = Act (s x) (f x) 1) ch out.

Lemma mark_free c as_ j y : mark c as_ !! j = Some y -> chosen y = 0%Z -> j ∉ c /\ as_ !! j = Some y.
Proof.
  rewrite mark_lookup. intros (x & Hx & ->)%fmap_Some Hy. destruct (decide (j ∈ c)); [discriminate|done].
Qed.

Lemma mark_other c as_ j : j ∉ c -> mark c as_ !! j = as_ !! j.
Proof. intros Hj. rewrite mark_lookup. destruct (as_ !! j); [|done]. cbn. by rewrite decide_False. Qed.

Lemma selection_sub s0 f0 c as_ ch : selection s0 f0 (mark c as_) ch ->
  forall i, i ∈ ch -> i ∉ c /\ exists x, as_ !! i = Some x /\ candidate s0 f0 x.
Proof.
  intros HS i Hi. destruct (sel_candidates _ _ _ _ HS i Hi) as (x & Hx & Hc).
  destruct (mark_free _ _ _ _ Hx) as [Hn Hx']; [apply Hc|]. eauto.
Qed.

Lemma free_ones_selection s0 f0 as_ ch : selection s0 f0 as_ ch -> free_ones (mark ch as_) + length ch = free_ones as_.
Proof.
  intros HS. assert (HF : forall i, i ∈ ch -> exists x, as_ !! i = Some x /\ chosen x = 0%Z).
  { intros i Hi. destruct (sel_candidates _ _ _ _ HS i Hi) as (x & Hx & Hc & _). eauto. }
  pose proof (sel_nodup _ _ _ _ HS) as ND. clear HS. revert as_ HF.
  induction ND as [|i ch Hi ND IH]; intros as_ HF; [by rewrite mark_nil, Nat.add_0_r|].
  destruct (HF i ltac:(by left)) as (x & Hx & Hc). rewrite <- (free_ones_mark as_ i x Hx Hc).
  change (i :: ch) with ([i] ++ ch). rewrite <- mark_mark. cbn [length app]. rewrite <- (IH (mark [i] as_)); [lia|].
  intros j Hj. rewrite mark_other by (intros ->%list_elem_of_singleton; done). apply HF. by right.
Qed.

Lemma selection_nil s0 f0 as_ : (forall i x, as_ !! i = Some x -> ~ candidate s0 f0 x) -> selection s0 f0 as_ [].
Proof.
  intros H. split; [constructor|by intros i Hi%not_elem_of_nil|by intros i j x y Hi%not_elem_of_nil|].
  intros i x Hx Hc. by destruct (H i x Hx).
Qed.

(** The activity at [i] with a selection before it and one behind it. *)
Lemma selection_join s0 f0 as_ i x ch1 ch2 : as_ !! i = Some x -> candidate s0 f0 x ->
  selection s0 (s x) (mark [i] as_) ch1 -> selection (f x) f0 (mark (i :: ch1) as_) ch2 ->
  selection s0 f0 as_ (i :: ch1 ++ ch2).
Proof.
  intros Hx Hc S1 S2. pose proof Hc as (Hx0 & Hs & Hf & Hlt).
  pose proof (selection_sub _ _ _ _ _ S1) as C1. pose proof (selection_sub _ _ _ _ _ S2) as C2.
  assert (Hside : forall j y, as_ !! j = Some y -> (j ∈ ch1 -> (f y <= s x)%Z) /\ (j ∈ ch2 -> (f x <= s y)%Z)).
  { intros j y Hy. split; intros Hj; [destruct (C1 j Hj) as (_ & z & Hz & ?)|destruct (C2 j Hj) as (_ & z & Hz & ?)];
      assert (z = y) as -> by congruence; unfold candidate in *; lia. }
  split.
  - apply NoDup_cons. split.
    + rewrite elem_of_app. intros [Hi|Hi]; [destruct (C1 i Hi) as [Hn _]|destruct (C2 i Hi) as [Hn _]]; apply Hn; by left.
    + apply NoDup_app. split_and!; [apply S1| |apply S2]. intros j Hj1 Hj2. destruct (C2 j Hj2) as [Hn _]. apply Hn. by right.
  - intros j [->|[Hj|Hj]%elem_of_app]%elem_of_cons; [by exists x|..].
    + destruct (C1 j Hj) as (_ & y & Hy & Hcy). exists y. split; [done|]. unfold candidate in *. lia.
    + destruct (C2 j Hj) as (_ & y & Hy & Hcy). exists y. split; [done|]. unfold candidate in *. lia.
  - intros j k y z Hj Hk Hne Hy Hz. destruct (Hside j y Hy) as [J1 J2], (Hside k z Hz) as [K1 K2].
    unfold compatible. rewrite elem_of_cons, elem_of_app in Hj, Hk.
    destruct Hj as [->|[Hj|Hj]], Hk as [->|[Hk|Hk]]; try done;
      try (assert (y = x) as -> by congruence); try (assert (z = x) as -> by congruence);
      try (specialize (J1 Hj)); try (specialize (J2 Hj)); try (specialize (K1 Hk)); try (specialize (K2 Hk)); try lia.
    + apply (sel_compatible _ _ _ _ S1 j k); [done|done|done|..]; rewrite mark_other; try done.
      * intros ->%list_elem_of_singleton. by destruct (C1 i Hj) as [[] _]; left.
      * intros ->%list_elem_of_singleton. by destruct (C1 i Hk) as [[] _]; left.
    + apply (sel_compatible _ _ _ _ S2 j k); [done|done|done|..]; rewrite mark_other; try done; by apply C2.
  - intros j y Hy Hcy Hj. rewrite elem_of_cons, elem_of_app in Hj.
    destruct (Z.le_gt_cases (f y) (s x)) as [Hbefore|H1]; [|destruct (Z.le_gt_cases (f x) (s y)) as [Hafter|H2]].
    + destruct (sel_maximal _ _ _ _ S1 j y) as (k & z & Hk & Hz & Hn); [|unfold candidate in *; lia|tauto|].
      { rewrite mark_other; [done|]. rewrite list_elem_of_singleton. tauto. }
      exists k, z. split; [right; apply elem_of_app; by left|]. split; [|done].
      rewrite mark_other in Hz; [done|]. by apply C1.
    + destruct (sel_maximal _ _ _ _ S2 j y) as (k & z & Hk & Hz & Hn); [|unfold candidate in *; lia|tauto|].
      { rewrite mark_other; [done|]. rewrite elem_of_cons. tauto. }
      exists k, z. split; [right; apply elem_of_app; by right|]. split; [|done].
      rewrite mark_other in Hz; [done|]. by apply C2.
    + exists i, x. split; [by left|]. split; [done|]. unfold compatible. lia.
Qed.

Lemma max_comp_nothing fuel s0 nas st : max_comp_activity (S fuel) s0 s0 nas st = Ok st.
Proof. destruct st as [[a c] i]. cbn. by rewrite Z.eqb_refl. Qed.

(** The four cases behind a chosen activity come to the same: before it, then behind it. *)
Lemma max_comp_branches fuel s0 f0 nas st x : candidate s0 f0 x ->
  (if (s x =? s0)%Z && (f x =? f0)%Z then Ok st
   else if (s x =? s0)%Z && (f x <? f0)%Z then max_comp_activity (S fuel) (f x) f0 nas st
   else if (s0 <? s x)%Z && (f x =? f0)%Z then max_comp_activity (S fuel) s0 (s x) nas st
   else st ← max_comp_activity (S fuel) s0 (s x) nas st; max_comp_activity (S fuel) (f x) f0 nas st) =
  (st ← max_comp_activity (S fuel) s0 (s x) nas st; max_comp_activity (S fuel) (f x) f0 nas st).
Proof.
  intros (_ & Hs & Hf & _). destruct (Z.eqb_spec (s x) s0) as [Es|Es]; cbn [andb].
  - rewrite <- Es, max_comp_nothing. cbn [mbind res_bind]. destruct (Z.eqb_spec (f x) f0) as [Ef|Ef].
    + by rewrite Ef, max_comp_nothing.
    + by rewrite (proj2 (Z.ltb_lt (f x) f0)) by lia.
  - destruct (Z.eqb_spec (f x) f0) as [Ef|Ef].
    + rewrite (proj2 (Z.ltb_lt s0 (s x))) by lia. cbn [andb].
      destruct (max_comp_activity (S fuel) s0 (s x) nas st) as [st'|]; [|done]. cbn [mbind res_bind].
      by rewrite Ef, max_comp_nothing.
    + by rewrite andb_false_r.
Qed.

Lemma picked_mark c as_ ch out : (forall i, i ∈ ch -> i ∉ c) -> picked (mark c as_) ch out -> picked as_ ch out.
Proof.
  intros Hd HP. unfold picked in *. induction HP as [|i y ch out (x & Hx & ->) HP IH]; [constructor|].
  constructor.
  - exists x. split; [|done]. rewrite mark_other in Hx; [done|]. apply Hd. by left.
  - apply IH. intros j Hj. apply Hd. by right.
Qed.

Lemma max_comp_ok fuel : forall s0 f0 as_ comp_as n, lengths_fit as_ -> free_ones as_ < fuel ->
  n + free_ones as_ <= length comp_as -> (Z.of_nat (length comp_as) <= INT_MAX)%Z ->
  exists ch out, max_comp_activity fuel s0 f0 (Z.of_nat (length as_)) (as_, comp_as, Z.of_nat n) =
      Ok (mark ch as_, list_inserts n (Some <$> out) comp_as, Z.of_nat (n + length ch)) /\
    selection s0 f0 as_ ch /\ picked as_ ch out.
Proof.
  induction fuel as [|fuel IH]; intros s0 f0 as_ comp_as n HF Hfuel Hroom Hmax; [lia|]. cbn [max_comp_activity].
  assert (Hnone : (forall i x, as_ !! i = Some x -> ~ candidate s0 f0 x) ->
    exists ch out, Ok (as_, comp_as, Z.of_nat n) =
      Ok (mark ch as_, list_inserts n (Some <$> out) comp_as, Z.of_nat (n + length ch)) /\
    selection s0 f0 as_ ch /\ picked as_ ch out).
  { intros H. exists [], []. rewrite mark_nil, Nat.add_0_r. split; [done|]. split; [by apply selection_nil|constructor]. }
  destruct (Z.eqb_spec s0 f0) as [->|Hne]; [apply Hnone; intros i x _ (_ & ? & ? & ?); lia|].
  destruct (Z.eqb_spec (Z.of_nat (length as_)) 0) as [H0|_].
  { apply Hnone. destruct as_; [|cbn in H0; lia]. by intros i x Hi%list_elem_of_lookup_2%not_elem_of_nil. }
  destruct (longest_activity_ok s0 f0 as_ HF) as [[E Hno]|(i & x & E & Hx & Hc & _)]; rewrite E; cbn [mbind res_bind];
    [by apply Hnone|]. clear Hnone.
  pose proof Hc as (Hx0 & _). pose proof (free_ones_mark as_ i x Hx Hx0) as Hfree.
  assert (Hxm : mark [i] as_ !! i = Some (Act (s x) (f x) 1)).
  { rewrite <- (mark_insert _ _ _ Hx). apply list_lookup_insert_eq. by apply lookup_lt_Some in Hx. }
  rewrite (aget_nat _ _ _ Hxm). cbn [mbind res_bind]. rewrite aset_nat by lia. cbn [mbind res_bind].
  rewrite ck_ok by (unfold is_int, INT_MIN; lia). cbn [mbind res_bind s f].
  destruct fuel as [|fuel]; [lia|]. rewrite (max_comp_branches fuel s0 f0 _ _ x Hc).
  replace (Z.of_nat n + 1)%Z with (Z.of_nat (S n)) by lia.
  destruct (IH s0 (s x) (mark [i] as_) (<[n := Some (Act (s x) (f x) 1)]> comp_as) (S n)) as (ch1 & out1 & E1 & S1 & P1);
    [by apply mark_lengths_fit|lia|rewrite length_insert; lia|by rewrite length_insert|].
  rewrite mark_length in E1. rewrite E1. cbn [mbind res_bind].
  pose proof (free_ones_selection _ _ _ _ S1) as Hf1.
  rewrite mark_mark. rewrite mark_mark in Hf1.
  destruct (IH (f x) f0 (mark ([i] ++ ch1) as_)
              (list_inserts (S n) (Some <$> out1) (<[n := Some (Act (s x) (f x) 1)]> comp_as)) (S n + length ch1))
    as (ch2 & out2 & E2 & S2 & P2); [by apply mark_lengths_fit|lia|rewrite length_inserts, length_insert; lia|
      by rewrite length_inserts, length_insert|].
  rewrite mark_length in E2. rewrite E2, mark_mark.
  exists (i :: ch1 ++ ch2), (Act (s x) (f x) 1 :: out1 ++ out2). split; [|split].
  - do 3 f_equal; [|cbn [length]; rewrite length_app; lia]. cbn [fmap list_fmap]. rewrite fmap_app.
    change (Some (Act (s x) (f x) 1) :: (Some <$> out1) ++ (Some <$> out2))
      with ([Some (Act (s x) (f x) 1)] ++ (Some <$> out1) ++ (Some <$> out2)).
    rewrite (list_inserts_app_l [_]), list_inserts_app_l, length_fmap.
    rewrite <- (Forall2_length _ _ _ P1). f_equal; cbn; lia.
  - by apply selection_join with x.
  - constructor; [by exists x|]. apply Forall2_app.
    + apply (picked_mark [i]); [|done]. intros j Hj. by destruct (selection_sub _ _ _ _ _ S1 j Hj).
    + apply (picked_mark ([i] ++ ch1)); [|done]. intros j Hj. by destruct (selection_sub _ _ _ _ _ S2 j Hj).
Qed.

(** [max_comp_activity] appends to [comp_as], and marks in [as], activities between [s] and [f]
    that were free, do not overlap and form a maximal set of such: every other free activity
    of that time overlaps one of them. *)
Theorem max_comp_activity_maximal (fuel : nat) (s0 f0 : Z) (as_ : list itoa_activity)
    (comp_as : list (option itoa_activity)) (n : nat) :
  lengths_fit as_ -> length as_ < fuel -> n + length as_ <= length comp_as -> (Z.of_nat (length comp_as) <= INT_MAX)%Z ->
  exists ch out, max_comp_activity fuel s0 f0 (Z.of_nat (length as_)) (as_, comp_as, Z.of_nat n) =
      Ok (mark ch as_, list_inserts n (Some <$> out) comp_as, Z.of_nat (n + length ch)) /\
    selection s0 f0 as_ ch /\ picked as_ ch out.
Proof.
  intros HF Hf Hroom Hmax.
  assert (free_ones as_ <= length as_) by apply length_filter.
  by apply max_comp_ok; [|lia|lia|].
Qed.

Lemma max_comp_activity_maximal_witness :
  exists ch out, max_comp_activity 12 1 11 11 (test_activities, replicate 132 None, 0%Z) =
      Ok (mark ch test_activities, list_inserts 0 (Some <$> out) (replicate 132 None), Z.of_nat (0 + length ch)) /\
    selection 1 11 test_activities ch /\ picked test_activities ch out.
Proof.
  apply (max_comp_activity_maximal 12 1 11 test_activities (replicate 132 None) 0).
  - unfold lengths_fit. decide_now.
  - cbn. lia.
  - cbn. lia.
  - vm_compute. discriminate.
Defined.

(** With the right count the program takes one activity where three are possible; with
    the number of bytes that it gives for the count, it reads behind the array. *)
Example greedy_takes_one : greedy_program 12 11 = Ok [(3, 9, Ascii.ascii_of_nat 10)]%Z.
Proof. vm_compute. reflexivity. Qed.
Example three_are_possible : omap (fun i => test_activities !! i) [0; 3; 7] = [Act 1 4 0; Act 5 7 0; Act 8 11 0]%Z.
Proof. reflexivity. Qed.
Example test_greedy_reads_outside : test_greedy_main 200 = Stop OutOfBounds.
Proof. vm_compute. reflexivity. Qed.
