(* ===== verification/Bitmap.v ===== *)
(** The bitmap of src/deps/libbyz/Bitmap.h: booleans packed into 64-bit words, an iterator over the
    indices with a given value, writing to and reading from a file, and the operations on bits of
    a [char] array.  An [unsigned int] is a [Z] below [2 ^ 32], a word one below [2 ^ 64]. *)
From S2P Require Import Prelude Words.

(** * The code *)
Definition byte_bits : Z := 8.
Definition ChunkBits : Z := 8 * byte_bits.
Definition u32 (z : Z) : Z := (z mod 2 ^ 32)%Z.

(** [~x] of an [unsigned long]. *)
Definition not_chunk (x : Z) : Z := u64 (Z.lnot x).

(** A word that was never written is [None]. *)
Record Bitmap : Type := Bm { num : Z; chunks : list (option Z); nc : Z }.

(** [chunks[k]] and [chunks[k] = x]. *)
Definition chunk_get (cs : list (option Z)) (k : Z) : res Z :=
  c ← aget cs k; match c with Some x => Ok x | None => Stop Uninit end.
Definition chunk_set (cs : list (option Z)) (k x : Z) : res (list (option Z)) := aset cs k (Some x).
Definition with_chunks (b : Bitmap) (cs : list (option Z)) : Bitmap := Bm (num b) cs (nc b).
Definition new_chunks (n : Z) : list (option Z) := replicate (Z.to_nat n) None.

(** [for (Uint i = 0; i < nc; i++) chunks[i] = v;], the [todo] words from [i] on. *)
Fixpoint fill (v i : Z) (todo : nat) (cs : list (option Z)) : res (list (option Z)) :=
  match todo with O => Ok cs | S todo => cs ← chunk_set cs i v; fill v (i + 1) todo cs end.

Definition Bitmap_new (sz : Z) (value : bool) : res Bitmap :=
  let n := u32 (u64 (u64 (sz + ChunkBits) - 1) / ChunkBits) in
  cs ← fill (if value then not_chunk 0 else 0) 0 (Z.to_nat n) (new_chunks n);
  Ok (Bm sz cs n).

(** The copying loop of the copy constructor and of the assignment. *)
Fixpoint copy_chunks (from : list (option Z)) (i : Z) (todo : nat) (cs : list (option Z)) : res (list (option Z)) :=
  match todo with
  | O => Ok cs
  | S todo => x ← chunk_get from i; cs ← chunk_set cs i x; copy_chunks from (i + 1) todo cs
  end.

(** The copy constructor; [nc0] is the member [nc] before, [None] for memory never written. *)
Definition Bitmap_copy (nc0 : option Z) (other : Bitmap) : res Bitmap :=
  match nc0 with
  | None => Stop Uninit
  | Some n => cs ← copy_chunks (chunks other) 0 (Z.to_nat n) (new_chunks n); Ok (Bm (num other) cs n)
  end.

(** [operator=]; [same] is [this == &other]. *)
Definition Bitmap_assign (b : Bitmap) (same : bool) (other : Bitmap) : res Bitmap :=
  if same then Ok b
  else
    let b := if (nc b =? nc other)%Z then b else Bm (num b) (new_chunks (nc other)) (nc other) in
    cs ← copy_chunks (chunks other) 0 (Z.to_nat (nc b)) (chunks b);
    Ok (Bm (num other) cs (nc b)).

Definition bitSelector (i : Z) : Z := u64 (Z.shiftl 1 (i mod ChunkBits)).
Definition valBitSelector (i : Z) (val : bool) : Z := u64 (Z.shiftl (Z.b2z val) (i mod ChunkBits)).

Definition clear (b : Bitmap) : res Bitmap := cs ← fill 0 0 (Z.to_nat (nc b)) (chunks b); Ok (with_chunks b cs).
Definition setAll (b : Bitmap) : res Bitmap := cs ← fill (not_chunk 0) 0 (Z.to_nat (nc b)) (chunks b); Ok (with_chunks b cs).

Definition test (b : Bitmap) (i : Z) : res bool :=
  c_assert (i <? num b)%Z;;
  c ← chunk_get (chunks b) (i / ChunkBits);
  Ok (negb (Z.land c (bitSelector i) =? 0)%Z).

(** The conversion of an [unsigned int] to [int]. *)
Definition size (b : Bitmap) : Z := if (num b <=? INT_MAX)%Z then num b else (num b - 2 ^ 32)%Z.

Definition set (b : Bitmap) (i : Z) : res Bitmap :=
  c_assert (i <? num b)%Z;;
  c ← chunk_get (chunks b) (i / ChunkBits);
  cs ← chunk_set (chunks b) (i / ChunkBits) (Z.lor c (bitSelector i));
  Ok (with_chunks b cs).

Definition assign (b : Bitmap) (i : Z) (val : bool) : res Bitmap :=
  c_assert (i <? num b)%Z;;
  c ← chunk_get (chunks b) (i / ChunkBits);
  cs ← chunk_set (chunks b) (i / ChunkBits) (Z.land c (not_chunk (bitSelector i)));
  c ← chunk_get cs (i / ChunkBits);
  cs ← chunk_set cs (i / ChunkBits) (Z.lor c (valBitSelector i val));
  Ok (with_chunks b cs).

Definition reset (b : Bitmap) (i : Z) : res Bitmap :=
  c_assert (i <? num b)%Z;;
  c ← chunk_get (chunks b) (i / ChunkBits);
  cs ← chunk_set (chunks b) (i / ChunkBits) (Z.land c (not_chunk (bitSelector i)));
  Ok (with_chunks b cs).

(** [for (Uint i = min; i < max; i++) f(i);] *)
Fixpoint each (f : Bitmap -> Z -> res Bitmap) (i : Z) (todo : nat) (b : Bitmap) : res Bitmap :=
  match todo with O => Ok b | S todo => b ← f b i; each f (i + 1) todo b end.
Definition setRange (b : Bitmap) (min max : Z) : res Bitmap :=
  c_assert ((min <? num b) && (max <? num b))%Z;; each set min (Z.to_nat (max - min)) b.
Definition resetRange (b : Bitmap) (min max : Z) : res Bitmap :=
  c_assert ((min <? num b) && (max <? num b))%Z;; each reset min (Z.to_nat (max - min)) b.

(** The numbers printed in hexadecimal. *)
Definition print (b : Bitmap) : res (list Z) := 
  foldr (fun i (out : res (list Z)) => x ← chunk_get (chunks b) i; out ← out; Ok (x :: out)) (Ok []) (seqZ 0 (nc b)).

Fixpoint total_loop (b : Bitmap) (i retval : Z) (todo : nat) : res Z :=
  match todo with
  | O => Ok retval
  | S todo => t ← test b i; retval ← (if (t : bool) then ck (retval + 1) else Ok retval); total_loop b (i + 1) retval todo
  end.
Definition total_set (b : Bitmap) : res Z := total_loop b 0 0 (Z.to_nat (size b)).

(** Whether all words from [i] on pass a test. *)
Fixpoint all_chunks (p : Z -> res bool) (i : Z) (todo : nat) : res bool :=
  match todo with
  | O => Ok true
  | S todo => ok ← p i; if (ok : bool) then all_chunks p (i + 1) todo else Ok false
  end.

(** The parameter of [operator==] is passed by value: by the copy constructor. *)
Definition Bitmap_eq (b other : Bitmap) : res bool :=
  other ← Bitmap_copy None other;
  if negb (num b =? num other)%Z then Ok false
  else all_chunks (fun i => x ← chunk_get (chunks b) i; y ← chunk_get (chunks other) i; Ok (x =? y)%Z) 0 (Z.to_nat (nc b)).

Definition all_zero (b : Bitmap) : res bool :=
  all_chunks (fun i => x ← chunk_get (chunks b) i; Ok (x =? 0)%Z) 0 (Z.to_nat (nc b)).

(** ** The iterator *)
Record Iter : Type := It { it_value : bool; it_index : Z; ignoreValue : Z }.

(** [~0] is an [int], the conversion of which to [Chunk] has all bits set. *)
Definition Iter_new (v : bool) : Iter := It v 0 (if v then 0 else u64 (-1)).

(** One round of [get]: the result is the index found, if any, and the index to go on from. *)
Definition get_round (b : Bitmap) (it : Iter) (index : Z) : res (Z + (option Z * Z)) :=
  if (index <? num b)%Z then
    c ← chunk_get (chunks b) (index / ChunkBits);
    if (c =? ignoreValue it)%Z then Ok (inl (u32 (index + ChunkBits)))
    else
      this_value ← test b index;
      if Bool.eqb this_value (it_value it) then Ok (inr (Some index, u32 (index + 1)))
      else Ok (inl (u32 (index + 1)))
  else Ok (inr (None, index)).
Definition get (b : Bitmap) (it : Iter) : res (option Z * Iter) :=
  '(ind, index) ← loop (S (Z.to_nat (num b))) (get_round b it) (it_index it);
  Ok (ind, It (it_value it) index (ignoreValue it)).

(** ** Files: the bytes still to read, or those written and the room left *)
Record ostream : Type := Out { written : list Z; space : Z }.

(** An object of [n] bytes in memory, the lowest byte first. *)
Fixpoint to_bytes (n : nat) (x : Z) : list Z :=
  match n with O => [] | S n => (x mod 256)%Z :: to_bytes n (x / 256) end.
Fixpoint of_bytes (l : list Z) : Z := match l with [] => 0 | x :: l => (x + 256 * of_bytes l)%Z end.

(** [fwrite] of [n] items of [size] bytes, of the C library: as many whole items as there is room for. *)
Definition fwrite (bytes : list Z) (size n : Z) (o : ostream) : Z * ostream :=
  let k := Z.min n (space o / size) in
  (k, Out (written o ++ take (Z.to_nat (k * size)) bytes) (space o - k * size)).

(** [fread]: the whole items there are; a part of an item at the end is consumed. *)
Definition fread (size n : Z) (l : list Z) : Z * list Z * list Z :=
  let k := Z.min n (Z.of_nat (length l) / size) in
  (k, take (Z.to_nat (k * size)) l, drop (Z.to_nat (n * size)) l).

(** One [unsigned int] read over [x]: at the end of the file [x] stays, and an item of which only a
    part could be read has no determinate value. *)
Definition fread_u32 (x : Z) (l : list Z) : res (Z * Z * list Z) :=
  let '(s, w, rest) := fread 4 1 l in
  if (s =? 1)%Z then Ok (s, of_bytes w, rest) else if decide (l = []) then Ok (s, x, rest) else Stop Uninit.

(** The bytes of an array of words. *)
Fixpoint chunk_bytes (cs : list (option Z)) : res (list Z) :=
  match cs with
  | [] => Ok []
  | Some x :: cs => out ← chunk_bytes cs; Ok (to_bytes 8 x ++ out)
  | None :: _ => Stop Uninit
  end.

(** The words read are those the [nc] items of 4 bytes lie in. *)
Definition encode (b : Bitmap) (o : ostream) : res (bool * ostream) :=
  let '(s1, o) := fwrite (to_bytes 4 (num b)) 4 1 o in
  let '(s2, o) := fwrite (to_bytes 4 (nc b)) 4 1 o in
  bytes ← chunk_bytes (take (Z.to_nat ((4 * nc b + 7) / 8)) (chunks b));
  let '(s3, o) := fwrite bytes 4 (nc b) o in
  Ok ((s1 + s2 + s3 =? u32 (2 + nc b))%Z, o).

(** Fresh words over which bytes were read: a word with only a part of its bytes stays unwritten. *)
Definition read_chunks (n : Z) (bytes : list Z) : list (option Z) :=
  (fun k => let w := take 8 (drop (8 * k) bytes) in if decide (length w = 8) then Some (of_bytes w) else None) <$> seq 0 (Z.to_nat n).

Definition decode (b : Bitmap) (l : list Z) : res (bool * Bitmap * list Z) :=
  '(s1, num', l) ← fread_u32 (num b) l;
  '(s2, nc', l) ← fread_u32 (nc b) l;
  let '(s3, w3, l) := fread 4 nc' l in
  Ok ((s1 + s2 + s3 =? u32 (2 + nc'))%Z && (num' <=? u64 (nc' * ChunkBits))%Z, Bm num' (read_chunks nc' w3) nc', l).

(** ** Bits of a [char] array: signed bytes *)
Definition to_char (z : Z) : Z := ((z + 128) mod 256 - 128)%Z.

(** [1 << (i % byte_bits)]; the remainder of a negative [i] is negative. *)
Definition bit_of (i : Z) : res Z :=
  let k := Z.rem i byte_bits in if (k <? 0)%Z then Stop BadShift else Ok (Z.shiftl 1 k).
Definition Bits_set (bmap : list Z) (i : Z) : res (list Z) :=
  c ← aget bmap (i ÷ byte_bits); m ← bit_of i; aset bmap (i ÷ byte_bits) (to_char (Z.lor c m)).
Definition Bits_reset (bmap : list Z) (i : Z) : res (list Z) :=
  c ← aget bmap (i ÷ byte_bits); m ← bit_of i; aset bmap (i ÷ byte_bits) (to_char (Z.land c (Z.lnot m))).
Definition Bits_test (bmap : list Z) (i : Z) : res bool :=
  c ← aget bmap (i ÷ byte_bits); m ← bit_of i; Ok (negb (Z.land c m =? 0)%Z).

(** * Words *)
Lemma not_chunk_bit x j : (0 <= j < 64)%Z -> Z.testbit (not_chunk x) j = negb (Z.testbit x j).
Proof. apply not_word_bit. Qed.

Lemma bitSelector_bit i j : (0 <= j < 64)%Z -> Z.testbit (bitSelector i) j = (i mod 64 =? j)%Z.
Proof.
  intros Hj. unfold bitSelector. change ChunkBits with 64%Z. pose proof (Z.mod_pos_bound i 64 ltac:(lia)).
  rewrite u64_bit by done. change 1%Z with (Z.b2z true). rewrite shifted_bit by lia. done.
Qed.

Lemma valBitSelector_bit i v j : (0 <= j < 64)%Z -> Z.testbit (valBitSelector i v) j = v && (i mod 64 =? j)%Z.
Proof.
  intros Hj. unfold valBitSelector. change ChunkBits with 64%Z. pose proof (Z.mod_pos_bound i 64 ltac:(lia)).
  rewrite u64_bit by done. apply shifted_bit; lia.
Qed.

(** A word masked with one bit is zero exactly when it lacks the bit. *)
Lemma land_bit c i : is_word c -> negb (Z.land c (bitSelector i) =? 0)%Z = Z.testbit c (i mod 64).
Proof. intros Hc. apply (land_one_bit c (i mod 64) Hc). apply Z.mod_pos_bound. lia. Qed.

(** * A bitmap as a list of booleans *)
Record holds (b : Bitmap) (l : list bool) : Prop := {
  h_num : num b = Z.of_nat (length l);
  h_max : (num b <= 2 ^ 32 - 64)%Z;
  h_nc : nc b = ((num b + 63) / 64)%Z;
  h_len : length (chunks b) = Z.to_nat (nc b);
  h_words : forall k c, chunks b !! k = Some c -> exists x, c = Some x /\ is_word x;
  h_bits : forall i v, l !! i = Some v -> exists x, chunks b !! (i / 64) = Some (Some x) /\ Z.testbit x (Z.of_nat (i mod 64)) = v;
}.

Lemma chunk_of i : (Z.of_nat i / ChunkBits)%Z = Z.of_nat (i / 64) /\ (Z.of_nat i mod 64)%Z = Z.of_nat (i mod 64).
Proof. change ChunkBits with (Z.of_nat 64). rewrite Nat2Z.inj_div. split; [done|]. by rewrite Nat2Z.inj_mod. Qed.

Lemma chunk_get_ok cs k x : cs !! k = Some (Some x) -> chunk_get cs (Z.of_nat k) = Ok x.
Proof. intros E. unfold chunk_get. by rewrite (aget_nat _ _ _ E). Qed.

Lemma chunk_set_ok cs k x : k < length cs -> chunk_set cs (Z.of_nat k) x = Ok (<[k := Some x]> cs).
Proof. intros Hk. unfold chunk_set. by rewrite aset_nat. Qed.

Lemma holds_in b l i : holds b l -> i < length l -> (Z.of_nat i <? num b)%Z = true /\ i / 64 < length (chunks b) /\ i mod 64 < 64.
Proof.
  intros H Hi. rewrite (h_len _ _ H), (h_nc _ _ H), (h_num _ _ H). split; [lia|].
  pose proof (Nat.mod_upper_bound i 64 ltac:(lia)). pose proof (Nat.div_mod_eq i 64).
  split; [|lia]. apply Nat2Z.inj_lt. rewrite Z2Nat.id by (apply Z.div_pos; lia).
  apply Z.le_succ_l, Z.div_le_lower_bound; lia.
Qed.

Lemma test_ok b l i v : holds b l -> l !! i = Some v -> test b (Z.of_nat i) = Ok v.
Proof.
  intros H Hi. destruct (holds_in b l i H (lookup_lt_Some _ _ _ Hi)) as (Hn & Hk & Hp).
  destruct (h_bits _ _ H i v Hi) as (x & Hx & Hb). destruct (chunk_of i) as [E1 E2].
  unfold test. rewrite Hn. cbn [c_assert mbind res_bind]. rewrite E1, (chunk_get_ok _ _ _ Hx). cbn [mbind res_bind].
  destruct (h_words _ _ H _ _ Hx) as (y & [= <-] & Hy). by rewrite land_bit, E2, Hb.
Qed.

(** A word replaced by one that differs in one bit. *)
Lemma holds_word b l i v x y : holds b l -> i < length l -> chunks b !! (i / 64) = Some (Some x) -> is_word y ->
  (forall j, (0 <= j < 64)%Z -> Z.testbit y j = if (j =? Z.of_nat (i mod 64))%Z then v else Z.testbit x j) ->
  holds (with_chunks b (<[i / 64 := Some y]> (chunks b))) (<[i := v]> l).
Proof.
  intros H Hi Hx Hy Hbits. pose proof (lookup_lt_Some _ _ _ Hx) as Hk. split; cbn [with_chunks num chunks nc]; rewrite ?length_insert; try apply H.
  - intros k c Hc. destruct (decide (k = i / 64)) as [->|Hne].
    + rewrite list_lookup_insert_eq in Hc by done. injection Hc as <-. by exists y.
    + rewrite list_lookup_insert_ne in Hc by done. by apply (h_words _ _ H k).
  - intros j w Hj. assert (Hw : w = if decide (j = i) then v else default false (l !! j)).
    { destruct (decide (j = i)) as [->|Hne]; [rewrite list_lookup_insert_eq in Hj by done; by injection Hj|].
      rewrite list_lookup_insert_ne in Hj by done. by rewrite Hj. }
    assert (Hj' : exists w0, l !! j = Some w0).
    { apply lookup_lt_is_Some. apply lookup_lt_Some in Hj. by rewrite length_insert in Hj. }
    destruct Hj' as [w0 Hw0]. destruct (h_bits _ _ H j w0 Hw0) as (z & Hz & Hzb). rewrite Hw0 in Hw. cbn in Hw.
    pose proof (Nat.mod_upper_bound j 64 ltac:(lia)).
    pose proof (Nat.div_mod_eq i 64). pose proof (Nat.div_mod_eq j 64).
    destruct (decide (j / 64 = i / 64)) as [Ed|Hne].
    + rewrite Ed in Hz |- *. exists y. rewrite list_lookup_insert_eq by done. split; [done|].
      rewrite Hbits by lia. assert (z = x) as -> by congruence. rewrite Hw.
      destruct (Z.eqb_spec (Z.of_nat (j mod 64)) (Z.of_nat (i mod 64))), (decide (j = i)); lia || done.
    + exists z. rewrite list_lookup_insert_ne by done. split; [done|].
      rewrite Hw. destruct (decide (j = i)) as [->|]; done.
Qed.

Lemma set_ok b l i : holds b l -> i < length l -> exists b', set b (Z.of_nat i) = Ok b' /\ holds b' (<[i := true]> l).
Proof.
  intros H Hi. destruct (holds_in b l i H Hi) as (Hn & Hk & Hp). destruct (chunk_of i) as [E1 E2].
  destruct (lookup_lt_is_Some_2 _ _ Hk) as [c Hc]. destruct (h_words _ _ H _ _ Hc) as (x & -> & Hx).
  unfold set. rewrite Hn. cbn [c_assert mbind res_bind]. rewrite E1, (chunk_get_ok _ _ _ Hc). cbn [mbind res_bind].
  rewrite chunk_set_ok by done. cbn [mbind res_bind]. eexists. split; [done|].
  apply (holds_word b l i true x); [done|done|done|apply is_word_lor; [done|apply is_word_u64]|].
  intros j Hj. rewrite Z.lor_spec, bitSelector_bit, E2 by done. rewrite (Z.eqb_sym j).
  by destruct (_ =? j)%Z; rewrite ?orb_true_r, ?orb_false_r.
Qed.

Lemma reset_ok b l i : holds b l -> i < length l -> exists b', reset b (Z.of_nat i) = Ok b' /\ holds b' (<[i := false]> l).
Proof.
  intros H Hi. destruct (holds_in b l i H Hi) as (Hn & Hk & Hp). destruct (chunk_of i) as [E1 E2].
  destruct (lookup_lt_is_Some_2 _ _ Hk) as [c Hc]. destruct (h_words _ _ H _ _ Hc) as (x & -> & Hx).
  unfold reset. rewrite Hn. cbn [c_assert mbind res_bind]. rewrite E1, (chunk_get_ok _ _ _ Hc). cbn [mbind res_bind].
  rewrite chunk_set_ok by done. cbn [mbind res_bind]. eexists. split; [done|].
  apply (holds_word b l i false x); [done|done|done|by apply is_word_land|].
  intros j Hj. rewrite Z.land_spec, not_chunk_bit, bitSelector_bit, E2 by done. rewrite (Z.eqb_sym j).
  by destruct (_ =? j)%Z; cbn [negb]; rewrite ?andb_true_r, ?andb_false_r.
Qed.

Lemma assign_ok b l i v : holds b l -> i < length l -> exists b', assign b (Z.of_nat i) v = Ok b' /\ holds b' (<[i := v]> l).
Proof.
  intros H Hi. destruct (holds_in b l i H Hi) as (Hn & Hk & Hp). destruct (chunk_of i) as [E1 E2].
  destruct (lookup_lt_is_Some_2 _ _ Hk) as [c Hc]. destruct (h_words _ _ H _ _ Hc) as (x & -> & Hx).
  unfold assign. rewrite Hn. cbn [c_assert mbind res_bind]. rewrite E1, (chunk_get_ok _ _ _ Hc). cbn [mbind res_bind].
  rewrite chunk_set_ok by done. cbn [mbind res_bind].
  rewrite (chunk_get_ok _ _ (Z.land x (not_chunk (bitSelector (Z.of_nat i))))) by (by apply list_lookup_insert_eq).
  cbn [mbind res_bind]. rewrite chunk_set_ok by (by rewrite length_insert). cbn [mbind res_bind]. eexists. split; [done|].
  rewrite list_insert_insert_eq.
  apply (holds_word b l i v x); [done|done|done|apply is_word_lor; [by apply is_word_land|apply is_word_u64]|].
  intros j Hj. rewrite Z.lor_spec, Z.land_spec, not_chunk_bit, bitSelector_bit, valBitSelector_bit, E2 by done.
  rewrite (Z.eqb_sym j). destruct (_ =? j)%Z; cbn [negb];
    by rewrite ?andb_true_r, ?andb_false_r, ?orb_false_r.
Qed.

(** ** Whole bitmaps *)
Lemma fill_ok v cs todo i : i + todo = length cs ->
  fill v (Z.of_nat i) todo cs = Ok (take i cs ++ replicate todo (Some v)).
Proof.
  revert cs i. induction todo as [|todo IH]; intros cs i Hl; cbn [fill].
  - by rewrite app_nil_r, take_ge by lia.
  - rewrite chunk_set_ok by lia. cbn [mbind res_bind]. replace (Z.of_nat i + 1)%Z with (Z.of_nat (S i)) by lia.
    rewrite IH by (rewrite length_insert; lia). f_equal.
    rewrite (take_S_r _ _ (Some v)) by (apply list_lookup_insert_eq; lia).
    rewrite take_insert_ge by lia. by rewrite <- app_assoc.
Qed.

Lemma fill_all v cs n : length cs = n -> fill v 0 n cs = Ok (replicate n (Some v)).
Proof. intros <-. by apply (fill_ok v cs (length cs) 0). Qed.

Lemma holds_const n v w : (Z.of_nat n <= 2 ^ 32 - 64)%Z -> is_word w -> (forall j, (0 <= j < 64)%Z -> Z.testbit w j = v) ->
  let m := ((Z.of_nat n + 63) / 64)%Z in holds (Bm (Z.of_nat n) (replicate (Z.to_nat m) (Some w)) m) (replicate n v).
Proof.
  intros Hn Hw Hb m. split; cbn [num chunks nc]; rewrite ?length_replicate; try done.
  - intros k c [-> _]%lookup_replicate. by exists w.
  - intros i u [-> Hi]%lookup_replicate. exists w. pose proof (Nat.mod_upper_bound i 64 ltac:(lia)).
    pose proof (Nat.div_mod_eq i 64). split; [|apply Hb; lia].
    apply lookup_replicate. split; [done|]. apply Nat2Z.inj_lt. subst m.
    rewrite Z2Nat.id by (apply Z.div_pos; lia). apply Z.le_succ_l, Z.div_le_lower_bound; lia.
Qed.

Lemma zeros_bits j : Z.testbit 0 j = false.
Proof. apply Z.testbit_0_l. Qed.

Lemma ones_bits j : (0 <= j < 64)%Z -> Z.testbit (not_chunk 0) j = true.
Proof. intros Hj. by rewrite not_chunk_bit, zeros_bits. Qed.

Lemma Bitmap_new_ok n v : (Z.of_nat n <= 2 ^ 32 - 64)%Z -> exists b, Bitmap_new (Z.of_nat n) v = Ok b /\ holds b (replicate n v).
Proof.
  intros Hn. unfold Bitmap_new. change ChunkBits with 64%Z. unfold u64.
  rewrite (Z.mod_small (Z.of_nat n + 64)), (Z.mod_small (_ - 1)) by lia.
  replace (Z.of_nat n + 64 - 1)%Z with (Z.of_nat n + 63)%Z by lia.
  assert (Hm : (0 <= (Z.of_nat n + 63) / 64 < 2 ^ 32)%Z) by (split; [apply Z.div_pos|apply Z.div_lt_upper_bound]; lia).
  unfold u32. rewrite (Z.mod_small _ _ Hm). unfold new_chunks. rewrite fill_all by apply length_replicate.
  cbn [mbind res_bind]. eexists. split; [done|].
  destruct v; apply holds_const; try done; [apply ones_bits|intros; apply zeros_bits].
Qed.

Lemma whole_ok b l v w : holds b l -> is_word w -> (forall j, (0 <= j < 64)%Z -> Z.testbit w j = v) ->
  exists cs, fill w 0 (Z.to_nat (nc b)) (chunks b) = Ok cs /\ holds (with_chunks b cs) (replicate (length l) v).
Proof.
  intros H Hw Hb. rewrite fill_all by apply H. eexists. split; [done|]. unfold with_chunks.
  pose proof (h_max _ _ H). rewrite (h_nc _ _ H). rewrite (h_num _ _ H) in *. by apply holds_const.
Qed.

Lemma clear_ok b l : holds b l -> exists b', clear b = Ok b' /\ holds b' (replicate (length l) false).
Proof.
  intros H. destruct (whole_ok b l false 0 H) as (cs & E & Hh); [done|intros; apply zeros_bits|].
  unfold clear. rewrite E. by eexists.
Qed.

Lemma setAll_ok b l : holds b l -> exists b', setAll b = Ok b' /\ holds b' (replicate (length l) true).
Proof.
  intros H. destruct (whole_ok b l true (not_chunk 0) H) as (cs & E & Hh); [apply is_word_u64|apply ones_bits|].
  unfold setAll. rewrite E. by eexists.
Qed.

(** ** Ranges *)
Definition over (a e : nat) (v : bool) (l : list bool) : list bool :=
  imap (fun i x => if decide (a <= i < e) then v else x) l.

Lemma over_insert a e v l : a < e -> e <= length l -> over (S a) e v (<[a := v]> l) = over a e v l.
Proof.
  intros Ha He. unfold over. apply list_eq. intros i. rewrite !list_lookup_imap.
  destruct (decide (i = a)) as [->|Hne].
  - rewrite list_lookup_insert_eq by lia. destruct (lookup_lt_is_Some_2 l a ltac:(lia)) as [x ->].
    cbn. by rewrite decide_False, decide_True by lia.
  - rewrite list_lookup_insert_ne by done. destruct (l !! i) as [x|]; [|done]. cbn. f_equal.
    destruct (decide (a <= i < e)); [rewrite decide_True by lia|rewrite decide_False by lia]; done.
Qed.

Lemma over_none a e v l : e <= a -> over a e v l = l.
Proof.
  intros He. unfold over. apply list_eq. intros i. rewrite list_lookup_imap. destruct (l !! i); [|done].
  cbn. by rewrite decide_False by lia.
Qed.

Lemma each_ok f v b l a todo :
  (forall b l i, holds b l -> i < length l -> exists b', f b (Z.of_nat i) = Ok b' /\ holds b' (<[i := v]> l)) ->
  holds b l -> a + todo <= length l ->
  exists b', each f (Z.of_nat a) todo b = Ok b' /\ holds b' (over a (a + todo) v l).
Proof.
  intros Hf. revert b l a. induction todo as [|todo IH]; intros b l a H Hl; cbn [each].
  - exists b. rewrite over_none by lia. done.
  - destruct (Hf b l a H ltac:(lia)) as (b' & E & H'). rewrite E. cbn [mbind res_bind].
    replace (Z.of_nat a + 1)%Z with (Z.of_nat (S a)) by lia.
    destruct (IH b' _ (S a) H') as (b2 & E2 & H2); [rewrite length_insert; lia|].
    exists b2. split; [done|]. rewrite Nat.add_succ_comm in H2. by rewrite over_insert in H2 by lia.
Qed.

Lemma total_loop_ok b l done_ todo : holds b l -> (Z.of_nat (length l) <= INT_MAX)%Z -> done_ + todo = length l ->
  total_loop b (Z.of_nat done_) (Z.of_nat (count_occ Bool.bool_dec (take done_ l) true)) todo
  = Ok (Z.of_nat (count_occ Bool.bool_dec l true)).
Proof.
  intros H Hmax. revert done_. induction todo as [|todo IH]; intros d Hl; cbn [total_loop].
  - by rewrite take_ge by lia.
  - destruct (lookup_lt_is_Some_2 l d ltac:(lia)) as [v Hv]. rewrite (test_ok b l d v H Hv). cbn [mbind res_bind].
    pose proof (count_occ_bound Bool.bool_dec true (take d l)) as Hc. rewrite length_take in Hc.
    specialize (IH (S d) ltac:(lia)). rewrite (take_S_r _ _ _ Hv), count_occ_app in IH.
    replace (Z.of_nat d + 1)%Z with (Z.of_nat (S d)) by lia. destruct v.
    + rewrite ck_ok by (unfold is_int, INT_MIN in *; lia). cbn [mbind res_bind].
      replace (Z.of_nat (count_occ Bool.bool_dec (take d l) true) + 1)%Z
        with (Z.of_nat (count_occ Bool.bool_dec (take d l) true + count_occ Bool.bool_dec [true] true)) by (cbn; lia). done.
    + cbn in IH. rewrite Nat.add_0_r in IH. done.
Qed.

(** ** Sequences of operations *)
Inductive bop : Type :=
| OTest (i : nat) | OSet (i : nat) | OReset (i : nat) | OAssign (i : nat) (v : bool)
| OSetRange (min max : nat) | OResetRange (min max : nat) | OClear | OSetAll | OTotal | OSize.

Inductive answer : Type := ABool (v : bool) | ANum (n : Z) | ADone.

(** The calls of the code. *)
Definition run_bop (b : Bitmap) (op : bop) : res (Bitmap * answer) :=
  let upd (r : res Bitmap) := b' ← r; Ok (b', ADone) in
  match op with
  | OTest i => v ← test b (Z.of_nat i); Ok (b, ABool v)
  | OSet i => upd (set b (Z.of_nat i))
  | OReset i => upd (reset b (Z.of_nat i))
  | OAssign i v => upd (assign b (Z.of_nat i) v)
  | OSetRange min max => upd (setRange b (Z.of_nat min) (Z.of_nat max))
  | OResetRange min max => upd (resetRange b (Z.of_nat min) (Z.of_nat max))
  | OClear => upd (clear b)
  | OSetAll => upd (setAll b)
  | OTotal => n ← total_set b; Ok (b, ANum n)
  | OSize => Ok (b, ANum (size b))
  end.

(** What they mean for a list of booleans. *)
Definition spec_bop (l : list bool) (op : bop) : res (list bool * answer) :=
  let at_ i (r : list bool * answer) := if decide (i < length l) then Ok r else Stop AssertFailed in
  let range min max (r : list bool * answer) := if decide (min < length l /\ max <= length l) then Ok r else Stop AssertFailed in
  match op with
  | OTest i => at_ i (l, ABool (default false (l !! i)))
  | OSet i => at_ i (<[i := true]> l, ADone)
  | OReset i => at_ i (<[i := false]> l, ADone)
  | OAssign i v => at_ i (<[i := v]> l, ADone)
  | OSetRange min max => range min max (over min max true l, ADone)
  | OResetRange min max => range min max (over min max false l, ADone)
  | OClear => Ok (replicate (length l) false, ADone)
  | OSetAll => Ok (replicate (length l) true, ADone)
  | OTotal => Ok (l, ANum (Z.of_nat (count_occ Bool.bool_dec l true)))
  | OSize => Ok (l, ANum (Z.of_nat (length l)))
  end.

(** A range that ends behind the last of [n] booleans is documented but fails: [set_range_to_the_end]. *)
Definition short_range (n : nat) (op : bop) : Prop :=
  match op with OSetRange _ max | OResetRange _ max => max <> n | _ => True end.

Fixpoint runs {S} (step : S -> bop -> res (S * answer)) (s : S) (ops : list bop) : res (S * list answer) :=
  match ops with
  | [] => Ok (s, [])
  | op :: ops => '(s, a) ← step s op; '(s, out) ← runs step s ops; Ok (s, a :: out)
  end.

(** Two results that agree: the same failure, or related values and the same answers. *)
Definition agrees {A} (r : res (Bitmap * A)) (spec : res (list bool * A)) : Prop :=
  match spec with
  | Ok (l, a) => exists b, r = Ok (b, a) /\ holds b l
  | Stop e => r = Stop e
  end.

Lemma outside b l i : holds b l -> ~ i < length l -> (Z.of_nat i <? num b)%Z = false.
Proof. intros H Hi. rewrite (h_num _ _ H). lia. Qed.

Lemma agrees_upd (r : res Bitmap) l : (exists b, r = Ok b /\ holds b l) ->
  agrees (b' ← r; Ok (b', ADone)) (Ok (l, ADone)).
Proof. intros (b & -> & H). by exists b. Qed.

Lemma each_range_ok f v b l min max :
  (forall b l i, holds b l -> i < length l -> exists b', f b (Z.of_nat i) = Ok b' /\ holds b' (<[i := v]> l)) ->
  holds b l -> min `max` max < length l ->
  exists b', each f (Z.of_nat min) (Z.to_nat (Z.of_nat max - Z.of_nat min)) b = Ok b' /\ holds b' (over min max v l).
Proof.
  intros Hf H Hlt. replace (Z.to_nat (Z.of_nat max - Z.of_nat min)) with (max - min) by lia.
  destruct (Nat.le_ge_cases min max) as [Hm|Hm].
  - destruct (each_ok f v b l min (max - min) Hf H ltac:(lia)) as (b' & E & H').
    exists b'. split; [done|]. by replace (min + (max - min)) with max in H' by lia.
  - exists b. replace (max - min) with 0 by lia. by rewrite over_none.
Qed.

Lemma run_bop_ok b l op : holds b l -> short_range (length l) op -> (Z.of_nat (length l) <= INT_MAX)%Z -> agrees (run_bop b op) (spec_bop l op).
Proof.
  intros H Hshort Hmax. destruct op as [i|i|i|i v|min max|min max| | | |]; cbn [run_bop spec_bop short_range] in *.
  1-4: destruct (decide (i < length l)) as [Hi|Hi].
  1: { destruct (lookup_lt_is_Some_2 l i Hi) as [v Hv]. rewrite (test_ok b l i v H Hv), Hv. by exists b. }
  2: by apply agrees_upd, set_ok.
  3: by apply agrees_upd, reset_ok.
  4: by apply agrees_upd, assign_ok.
  1-4: unfold test, set, reset, assign; by rewrite (outside b l i H Hi).
  1-2: unfold setRange, resetRange; destruct (decide (min < length l /\ max <= length l)) as [Hi|Hi].
  1, 3: replace (_ && _) with true by (symmetry; rewrite (h_num _ _ H); lia);
        apply agrees_upd, each_range_ok; [|done|lia]; auto using set_ok, reset_ok.
  1-2: replace (_ && _) with false by (symmetry; rewrite (h_num _ _ H); lia); done.
  - by apply agrees_upd, clear_ok.
  - by apply agrees_upd, setAll_ok.
  - unfold total_set, size. rewrite (h_num _ _ H), (proj2 (Z.leb_le _ _)), Nat2Z.id by done.
    pose proof (total_loop_ok b l 0 (length l) H Hmax eq_refl) as E.
    change (Z.of_nat (count_occ _ (take 0 l) true)) with 0%Z in E. change (Z.of_nat 0) with 0%Z in E. rewrite E. by exists b.
  - unfold size. rewrite (h_num _ _ H), (proj2 (Z.leb_le _ _)) by done. by exists b.
Qed.

Lemma spec_bop_length l op l' a : spec_bop l op = Ok (l', a) -> length l' = length l.
Proof.
  destruct op; cbn [spec_bop]; try (destruct (decide _); [|done]); intros [= <- <-];
    rewrite ?length_insert, ?length_replicate; try done; apply length_imap.
Qed.

Lemma run_bops_ok b l ops : holds b l -> Forall (short_range (length l)) ops -> (Z.of_nat (length l) <= INT_MAX)%Z ->
  agrees (runs run_bop b ops) (runs spec_bop l ops).
Proof.
  revert b l. induction ops as [|op ops IH]; intros b l H Hs Hmax; cbn [runs]; [by exists b|].
  apply Forall_cons in Hs as [Hop Hs]. pose proof (run_bop_ok b l op H Hop Hmax) as Ha. destruct (spec_bop l op) as [[l' a]|e] eqn:E; cbn [agrees] in Ha.
  - destruct Ha as (b' & -> & H'). cbn [mbind res_bind]. specialize (IH b' l' H').
    rewrite (spec_bop_length _ _ _ _ E) in IH. specialize (IH Hs Hmax).
    destruct (runs spec_bop l' ops) as [[l2 out]|e]; cbn [agrees] in IH; [destruct IH as (b2 & -> & H2)|rewrite IH; done].
    by exists b2.
  - by rewrite Ha.
Qed.

(** ** The iterator *)
Definition indices_from (v : bool) (l : list bool) (p : nat) : list nat :=
  filter (fun i => l !! i = Some v) (seq p (length l - p)).
Definition indices (v : bool) (l : list bool) : list nat := indices_from v l 0.

(** [k] calls of [get]. *)
Fixpoint gets_of (b : Bitmap) (it : Iter) (k : nat) : res (list (option Z)) :=
  match k with O => Ok [] | S k => '(r, it) ← get b it; out ← gets_of b it k; Ok (r :: out) end.

Lemma indices_from_end v l p : length l <= p -> indices_from v l p = [].
Proof. intros Hp. unfold indices_from. by replace (length l - p) with 0 by lia. Qed.

Lemma indices_from_step v l p : p < length l ->
  indices_from v l p = if decide (l !! p = Some v) then p :: indices_from v l (S p) else indices_from v l (S p).
Proof.
  intros Hp. unfold indices_from. replace (length l - p) with (S (length l - S p)) by lia.
  cbn [seq]. by rewrite filter_cons.
Qed.

Lemma indices_from_skip v l p n : (forall i, p <= i < p + n -> l !! i <> Some v) -> indices_from v l p = indices_from v l (p + n).
Proof.
  revert p. induction n as [|n IH]; intros p H; [by rewrite Nat.add_0_r|].
  destruct (Nat.lt_ge_cases p (length l)) as [Hp|Hp].
  - rewrite indices_from_step, decide_False, IH by (try apply H; try intros; try apply H; lia).
    by rewrite Nat.add_succ_comm.
  - by rewrite !indices_from_end by lia.
Qed.

(** The word that [get] skips, and where it may start to look at a word. *)
Definition ignored (v : bool) : Z := if v then 0%Z else u64 (-1).
Definition fresh_at (b : Bitmap) (v : bool) (p : nat) : Prop :=
  p mod 64 = 0 \/ chunks b !! (p / 64) <> Some (Some (ignored v)).

Lemma ignored_bit v j : (0 <= j < 64)%Z -> Z.testbit (ignored v) j = negb v.
Proof.
  intros Hj. destruct v; cbn [ignored negb]; [apply zeros_bits|]. rewrite u64_bit by done. apply Z.bits_m1. lia.
Qed.

Lemma skipped_word b l v p i : holds b l -> p mod 64 = 0 -> chunks b !! (p / 64) = Some (Some (ignored v)) ->
  p <= i < p + 64 -> l !! i <> Some v.
Proof.
  intros H Hp Hc Hi Hv. destruct (h_bits _ _ H i v Hv) as (x & Hx & Hb).
  assert (Ed : i / 64 = p / 64).
  { pose proof (Nat.div_mod_eq p 64). symmetry. apply (Nat.div_unique i 64 (p / 64) (i - p)); lia. }
  rewrite Ed, Hc in Hx. injection Hx as <-. pose proof (Nat.mod_upper_bound i 64 ltac:(lia)).
  rewrite ignored_bit in Hb by lia. by destruct v.
Qed.

Lemma fresh_after b l v p : holds b l -> chunks b !! (p / 64) <> Some (Some (ignored v)) \/ l !! p = Some v ->
  fresh_at b v (S p).
Proof.
  intros H Hne. destruct (decide (S p mod 64 = 0)) as [Hz|Hz]; [by left|right].
  assert (Ed : S p / 64 = p / 64).
  { pose proof (Nat.div_mod_eq p 64). pose proof (Nat.mod_upper_bound p 64 ltac:(lia)).
    destruct (decide (p mod 64 = 63)) as [E|E].
    - exfalso. apply Hz. replace (S p) with (0 + (p / 64 + 1) * 64) by lia. by rewrite Nat.Div0.mod_add.
    - symmetry. apply (Nat.div_unique (S p) 64 (p / 64) (S (p mod 64))); lia. }
  rewrite Ed. destruct Hne as [Hne|Hv]; [done|]. intros Hc.
  destruct (h_bits _ _ H p v Hv) as (x & Hx & Hb). rewrite Hc in Hx. injection Hx as <-.
  pose proof (Nat.mod_upper_bound p 64 ltac:(lia)). rewrite ignored_bit in Hb by lia. by destruct v.
Qed.

Definition it_at (v : bool) (p : nat) : Iter := It v (Z.of_nat p) (ignored v).

(** One round of [get] at [p]. *)
Lemma get_round_ok b l v p : holds b l -> fresh_at b v p ->
  if decide (p < length l) then
    (chunks b !! (p / 64) = Some (Some (ignored v)) /\ p mod 64 = 0 /\
       get_round b (it_at v p) (Z.of_nat p) = Ok (inl (Z.of_nat (p + 64))))
    \/ (chunks b !! (p / 64) <> Some (Some (ignored v)) /\
       get_round b (it_at v p) (Z.of_nat p) =
       Ok (if decide (l !! p = Some v) then inr (Some (Z.of_nat p), Z.of_nat (S p)) else inl (Z.of_nat (S p))))
  else get_round b (it_at v p) (Z.of_nat p) = Ok (inr (None, Z.of_nat p)).
Proof.
  intros H Hf. unfold get_round. destruct (decide (p < length l)) as [Hp|Hp]; [|by rewrite (outside b l p H Hp)].
  destruct (holds_in b l p H Hp) as (Hn & Hk & _). rewrite Hn. destruct (chunk_of p) as [E1 _]. rewrite E1.
  destruct (lookup_lt_is_Some_2 _ _ Hk) as [c Hc]. destruct (h_words _ _ H _ _ Hc) as (x & -> & Hx).
  rewrite (chunk_get_ok _ _ _ Hc). cbn [mbind res_bind ignoreValue it_value it_at].
  pose proof (h_max _ _ H). pose proof (h_num _ _ H). destruct (Z.eqb_spec x (ignored v)) as [->|Hne].
  - left. split; [done|]. split; [by destruct Hf|]. unfold u32. change ChunkBits with 64%Z.
    rewrite Z.mod_small by lia. by rewrite Nat2Z.inj_add.
  - right. split; [congruence|]. destruct (lookup_lt_is_Some_2 l p Hp) as [w Hw]. rewrite (test_ok b l p w H Hw).
    cbn [mbind res_bind]. unfold u32. rewrite Z.mod_small by lia.
    replace (Z.of_nat p + 1)%Z with (Z.of_nat (S p)) by lia. rewrite Hw.
    destruct (Bool.eqb_spec w v) as [->|Hd]; [by rewrite decide_True|rewrite decide_False by congruence; done].
Qed.

Lemma get_loop_ok b l v p q fuel : holds b l -> fresh_at b v p -> length l - p < fuel ->
  exists r, loop fuel (get_round b (it_at v q)) (Z.of_nat p) = Ok (Z.of_nat <$> head (indices_from v l p), Z.of_nat r) /\
    fresh_at b v r /\ indices_from v l r = tail (indices_from v l p).
Proof.
  intros H. revert p. induction fuel as [|fuel IH]; intros p Hf Hl; [lia|]. rewrite loop_step.
  change (get_round b (it_at v q)) with (get_round b (it_at v p)) at 1.
  pose proof (get_round_ok b l v p H Hf) as R. destruct (decide (p < length l)) as [Hp|Hp].
  - destruct R as [(Hc & Hm & R)|(Hc & R)]; rewrite R.
    + destruct (IH (p + 64)) as (r & E & Hr & Hi); [left| |].
      * replace (p + 64) with (p + 1 * 64) by lia. by rewrite Nat.Div0.mod_add.
      * lia.
      * exists r. rewrite (indices_from_skip v l p 64) by (intros; by eapply skipped_word). done.
    + rewrite indices_from_step by done. destruct (decide (l !! p = Some v)) as [Hv|Hv].
      * exists (S p). split; [done|]. split; [by apply (fresh_after b l); auto|done].
      * apply IH; [by apply (fresh_after b l); auto|lia].
  - rewrite R. exists p. rewrite indices_from_end by lia. done.
Qed.

Lemma gets_of_ok b l v p k : holds b l -> fresh_at b v p ->
  gets_of b (it_at v p) k = Ok (take k ((Some ∘ Z.of_nat <$> indices_from v l p) ++ replicate k None)).
Proof.
  intros H. revert p. induction k as [|k IH]; intros p Hf; cbn [gets_of]; [done|].
  unfold get. destruct (get_loop_ok b l v p p (S (Z.to_nat (num b))) H Hf) as (r & E & Hr & Hi).
  { rewrite (h_num _ _ H). lia. }
  change (it_index (it_at v p)) with (Z.of_nat p). rewrite E. cbn [mbind res_bind].
  change (It (it_value (it_at v p)) (Z.of_nat r) (ignoreValue (it_at v p))) with (it_at v r).
  rewrite (IH r Hr). cbn [mbind res_bind]. rewrite Hi. f_equal.
  destruct (indices_from v l p) as [|j js]; cbn [head tail fmap option_fmap option_map list_fmap app take replicate]; f_equal.
  change (None :: replicate k None) with (replicate (S k) (@None Z)).
  rewrite !take_app, !take_replicate, !length_fmap. f_equal. f_equal; lia.
Qed.

(** ** Files *)
Lemma of_to_bytes n x : of_bytes (to_bytes n x) = (x mod 256 ^ Z.of_nat n)%Z.
Proof.
  revert x. induction n as [|n IH]; intros x; cbn [to_bytes of_bytes]; [by rewrite Z.mod_1_r|].
  rewrite IH, Nat2Z.inj_succ, Z.pow_succ_r by lia.
  rewrite (Z.rem_mul_r x 256) by lia. lia.
Qed.

Lemma length_to_bytes n x : length (to_bytes n x) = n.
Proof. revert x. induction n as [|n IH]; intros x; cbn; [done|]. by rewrite IH. Qed.

Definition words (xs : list Z) : list Z := xs ≫= to_bytes 8.

Lemma length_words xs : length (words xs) = 8 * length xs.
Proof. induction xs as [|x xs IH]; [done|]. cbn [words mbind list_bind length]. rewrite length_app, length_to_bytes. unfold words in IH. lia. Qed.

Lemma drop_words k xs : drop (8 * k) (words xs) = words (drop k xs).
Proof.
  revert xs. induction k as [|k IH]; intros xs; [done|]. destruct xs as [|x xs]; [by rewrite drop_nil|].
  replace (8 * S k) with (length (to_bytes 8 x) + 8 * k) by (rewrite length_to_bytes; lia).
  change (words (x :: xs)) with (to_bytes 8 x ++ words xs). by rewrite drop_app_add, IH.
Qed.

Lemma chunk_bytes_ok xs : chunk_bytes (Some <$> xs) = Ok (words xs).
Proof. induction xs as [|x xs IH]; [done|]. rewrite fmap_cons. cbn [chunk_bytes]. by rewrite IH. Qed.

(** Reading back the first half of the bytes of the words: every other half of the array. *)
Lemma read_chunks_half xs : Forall is_word xs ->
  read_chunks (Z.of_nat (length xs)) (take (4 * length xs) (words xs))
  = (Some <$> take (length xs / 2) xs) ++ replicate (length xs - length xs / 2) None.
Proof.
  intros Hw. unfold read_chunks. rewrite Nat2Z.id. pose proof (Nat.div_mod_eq (length xs) 2).
  pose proof (Nat.mod_upper_bound (length xs) 2 ltac:(lia)).
  apply list_eq. intros k. rewrite list_lookup_fmap. destruct (Nat.lt_ge_cases k (length xs)) as [Hk|Hk].
  - rewrite lookup_seq_lt by done. cbn [fmap option_fmap option_map Nat.add]. rewrite skipn_firstn_comm, drop_words, firstn_firstn.
    destruct (lookup_lt_is_Some_2 xs k Hk) as [x Hx].
    destruct (Nat.lt_ge_cases k (length xs / 2)) as [Hh|Hh].
    + rewrite lookup_app_l by (rewrite length_fmap, length_take; lia). rewrite list_lookup_fmap, lookup_take_lt, Hx by done.
      rewrite (drop_S _ x) by done. replace (8 `min` (4 * length xs - 8 * k)) with (length (to_bytes 8 x)) by (rewrite length_to_bytes; lia).
      change (words (x :: ?xs)) with (to_bytes 8 x ++ words xs). rewrite take_app_length, length_to_bytes, decide_True by done.
      rewrite of_to_bytes, Z.mod_small; [done|]. by apply (proj1 (Forall_lookup _ _) Hw k).
    + rewrite lookup_app_r by (rewrite length_fmap, length_take; lia). rewrite length_fmap.
      replace (length (take (length xs / 2) xs)) with (length xs / 2) by (rewrite length_take; lia).
      rewrite lookup_replicate_2 by lia.
      rewrite decide_False; [done|]. rewrite length_take. lia.
  - rewrite lookup_seq_ge by done. symmetry. apply lookup_ge_None_2.
    rewrite length_app, length_fmap, length_take, length_replicate. lia.
Qed.

Lemma holds_words b l : holds b l -> exists xs, chunks b = Some <$> xs /\ Forall is_word xs /\ Z.of_nat (length xs) = nc b.
Proof.
  intros H. assert (Hx : exists xs, chunks b = Some <$> xs /\ Forall is_word xs).
  { pose proof (h_words _ _ H) as Hw. clear H. induction (chunks b) as [|c cs IH]; [by exists []|].
    destruct IH as (xs & -> & Hxs); [intros k c' Hc; by apply (Hw (S k))|].
    destruct (Hw 0 c eq_refl) as (x & -> & Hx). exists (x :: xs). auto. }
  destruct Hx as (xs & E & Hxs). exists xs. split; [done|]. split; [done|].
  pose proof (h_len _ _ H) as Hl. rewrite E, length_fmap in Hl. rewrite Hl. apply Z2Nat.id.
  rewrite (h_nc _ _ H), (h_num _ _ H). apply Z.div_pos; lia.
Qed.

Lemma fwrite_all bytes size n o : (0 < size)%Z -> (n * size <= space o)%Z -> (0 <= n)%Z ->
  fwrite bytes size n o = (n, Out (written o ++ take (Z.to_nat (n * size)) bytes) (space o - n * size)).
Proof.
  intros Hs Hsp Hn. unfold fwrite. rewrite Z.min_l; [done|]. apply Z.div_le_lower_bound; lia.
Qed.

Lemma fread_all size n l rest : (0 < size)%Z -> (0 <= n)%Z -> Z.of_nat (length l) = (n * size)%Z -> fread size n (l ++ rest) = (n, l, rest).
Proof.
  intros Hs Hn Hl. unfold fread. rewrite length_app, Z.min_l.
  - assert (E : Z.to_nat (n * size) = length l) by lia. by rewrite E, take_app_length, drop_app_length.
  - apply Z.div_le_lower_bound; lia.
Qed.

Lemma fread_u32_ok x y rest : (0 <= y < 2 ^ 32)%Z -> fread_u32 x (to_bytes 4 y ++ rest) = Ok (1%Z, y, rest).
Proof.
  intros Hy. unfold fread_u32. rewrite (fread_all 4 1 (to_bytes 4 y)) by (rewrite ?length_to_bytes; lia).
  change (1 =? 1)%Z with true. cbv iota. rewrite of_to_bytes, Z.mod_small; [done|]. apply Hy.
Qed.

Lemma take_words k xs : take (8 * k) (words xs) = words (take k xs).
Proof.
  revert xs. induction k as [|k IH]; intros xs; [done|]. destruct xs as [|x xs]; [by rewrite take_nil|].
  replace (8 * S k) with (length (to_bytes 8 x) + 8 * k) by (rewrite length_to_bytes; lia).
  change (words (x :: xs)) with (to_bytes 8 x ++ words xs). by rewrite take_app_add, IH.
Qed.

Lemma nc_bounds b l : holds b l -> (0 <= num b < 2 ^ 32 /\ 0 <= nc b < 2 ^ 27 /\ num b <= nc b * 64)%Z.
Proof.
  intros H. pose proof (h_max _ _ H). pose proof (h_num _ _ H). rewrite (h_nc _ _ H).
  pose proof (Z.div_mod (num b + 63) 64 ltac:(lia)). pose proof (Z.mod_pos_bound (num b + 63) 64 ltac:(lia)). lia.
Qed.

(** What [encode] leaves in the file: the two counts and the first half of the bytes of the words. *)
Definition file_of (b : Bitmap) (xs : list Z) : list Z :=
  to_bytes 4 (num b) ++ to_bytes 4 (nc b) ++ take (4 * length xs) (words xs).

Lemma encode_ok b l xs w s : holds b l -> chunks b = Some <$> xs -> (8 + 4 * nc b <= s)%Z ->
  encode b (Out w s) = Ok (true, Out (w ++ file_of b xs) (s - (8 + 4 * nc b))).
Proof.
  intros H Hxs Hs. destruct (nc_bounds b l H) as (Hn & Hc & _). unfold encode.
  assert (Hl : nc b = Z.of_nat (length xs)).
  { pose proof (h_len _ _ H) as Hl. rewrite Hxs, length_fmap in Hl. lia. }
  rewrite fwrite_all by (cbn [space]; lia). cbn [written space]. rewrite fwrite_all by (cbn [space]; lia). cbn [written space].
  rewrite Hxs, <- fmap_take, chunk_bytes_ok. cbn [mbind res_bind]. rewrite fwrite_all by (cbn [space]; lia).
  cbn [written space]. unfold u32. rewrite Z.mod_small by lia.
  replace (1 + 1 + nc b =? 2 + nc b)%Z with true by lia. f_equal. f_equal. unfold file_of.
  rewrite !take_ge by (rewrite length_to_bytes; lia). rewrite <- !app_assoc. f_equal; [|lia].
  do 3 f_equal. rewrite <- take_words, take_take. f_equal.
  pose proof (Z.div_mod (4 * nc b + 7) 8 ltac:(lia)). pose proof (Z.mod_pos_bound (4 * nc b + 7) 8 ltac:(lia)). lia.
Qed.

Lemma decode_ok b l xs c : holds b l -> chunks b = Some <$> xs -> Forall is_word xs ->
  decode c (file_of b xs) = Ok (true, Bm (num b) (take (length xs / 2) (chunks b) ++ replicate (length xs - length xs / 2) None) (nc b), []).
Proof.
  intros H Hxs Hw. destruct (nc_bounds b l H) as (Hn & Hc & Hm). unfold decode, file_of.
  assert (Hl : nc b = Z.of_nat (length xs)).
  { pose proof (h_len _ _ H) as Hl. rewrite Hxs, length_fmap in Hl. lia. }
  rewrite fread_u32_ok by lia. cbn [mbind res_bind]. rewrite fread_u32_ok by lia. cbn [mbind res_bind].
  rewrite <- (app_nil_r (take (4 * length xs) (words xs))).
  rewrite fread_all by (rewrite ?length_take, ?length_words; lia).
  rewrite Hxs, <- fmap_take, <- read_chunks_half, Hl by done. do 4 f_equal. unfold u32, u64. change ChunkBits with 64%Z.
  rewrite !Z.mod_small by lia. apply andb_true_iff. split; lia.
Qed.

(** ** Bits of a [char] array *)
Lemma to_char_bit z j : (0 <= j < 8)%Z -> Z.testbit (to_char z) j = Z.testbit z j.
Proof.
  intros Hj. rewrite <- (Z.mod_pow2_bits_low (to_char z) 8), <- (Z.mod_pow2_bits_low z 8) by lia. f_equal.
  unfold to_char. change (2 ^ 8)%Z with 256%Z. rewrite Zminus_mod_idemp_l. f_equal. lia.
Qed.

Lemma byte_of i : (Z.of_nat i ÷ byte_bits)%Z = Z.of_nat (i / 8) /\ bit_of (Z.of_nat i) = Ok (Z.shiftl 1 (Z.of_nat (i mod 8))).
Proof.
  unfold bit_of. change byte_bits with (Z.of_nat 8). rewrite Z.quot_div_nonneg, Z.rem_mod_nonneg by lia.
  rewrite <- Nat2Z.inj_div, <- Nat2Z.inj_mod. split; [done|]. by rewrite (proj2 (Z.ltb_ge _ _)) by lia.
Qed.

Lemma one_bit_test (p j : nat) : Z.testbit (Z.shiftl 1 (Z.of_nat p)) (Z.of_nat j) = bool_decide (p = j).
Proof.
  change 1%Z with (Z.b2z true). rewrite shifted_bit by lia. cbn [andb].
  destruct (Z.eqb_spec (Z.of_nat p) (Z.of_nat j)), (bool_decide_reflect (p = j)); lia || done.
Qed.

Lemma Bits_test_ok cs i c : cs !! (i / 8) = Some c -> Bits_test cs (Z.of_nat i) = Ok (Z.testbit c (Z.of_nat (i mod 8))).
Proof.
  intros Hc. destruct (byte_of i) as [E1 E2]. unfold Bits_test. rewrite E1, (aget_nat _ _ _ Hc), E2. cbn [mbind res_bind]. f_equal.
  destruct (Z.eqb_spec (Z.land c (Z.shiftl 1 (Z.of_nat (i mod 8)))) 0) as [E|E]; cbn [negb].
  - pose proof (f_equal (fun z => Z.testbit z (Z.of_nat (i mod 8))) E) as Eb. cbn beta in Eb.
    rewrite Z.land_spec, one_bit_test, bool_decide_true, andb_true_r, Z.testbit_0_l in Eb by done. done.
  - destruct (Z.testbit c (Z.of_nat (i mod 8))) eqn:Et; [done|]. exfalso. apply E. apply Z.bits_inj'. intros j Hj.
    rewrite Z.testbit_0_l, Z.land_spec, <- (Z2Nat.id j), one_bit_test by done.
    case_bool_decide as Hd; [rewrite <- Hd, Et; done|apply andb_false_r].
Qed.

(** A byte of the array replaced: the bits of the other bytes stay. *)
Lemma Bits_test_insert cs i j c c' (v : bool) : cs !! (i / 8) = Some c ->
  (forall p, p < 8 -> Z.testbit c' (Z.of_nat p) = if decide (p = i mod 8) then v else Z.testbit c (Z.of_nat p)) ->
  j < 8 * length cs -> Bits_test (<[i / 8 := c']> cs) (Z.of_nat j) = if decide (j = i) then Ok v else Bits_test cs (Z.of_nat j).
Proof.
  intros Hc Hb Hj. pose proof (Nat.mod_upper_bound j 8 ltac:(lia)). pose proof (Nat.div_mod_eq i 8). pose proof (Nat.div_mod_eq j 8).
  destruct (decide (j / 8 = i / 8)) as [Ed|Hne].
  - rewrite (Bits_test_ok _ j c') by (rewrite Ed; apply list_lookup_insert_eq; by eapply lookup_lt_Some).
    rewrite Hb by done. destruct (decide (j mod 8 = i mod 8)), (decide (j = i)); try lia; [done|].
    by rewrite (Bits_test_ok cs j c) by (by rewrite Ed).
  - rewrite decide_False by congruence. destruct (lookup_lt_is_Some_2 cs (j / 8)) as [d Hd]; [lia|].
    rewrite (Bits_test_ok _ j d) by (by rewrite list_lookup_insert_ne). by rewrite (Bits_test_ok cs j d).
Qed.

(** * What the bitmap does *)

(** C34: a bitmap of up to [INT_MAX] booleans behaves, over any sequence of operations in which no range
    given to [setRange] or [resetRange] ends behind the last boolean, like the list of its booleans:
    tests return what was last set, reset, assigned or set in a range [min, max[, [total_set] counts
    the set booleans, [size] is their number, and the first index or range out of bounds stops the
    program with a failed assertion at the same operation.  (A range whose [max] is the size is
    allowed by the comment of [setRange], but its assertion fails: that is a finding, not part of
    this.) *)
Theorem bitmap_refines_booleans n v ops : (Z.of_nat n <= INT_MAX)%Z -> Forall (short_range n) ops ->
  agrees (b ← Bitmap_new (Z.of_nat n) v; runs run_bop b ops) (runs spec_bop (replicate n v) ops).
Proof.
  intros Hn Hs. destruct (Bitmap_new_ok n v) as (b & E & H); [unfold INT_MAX in Hn; lia|].
  rewrite E. cbn [mbind res_bind]. apply run_bops_ok; [done|by rewrite length_replicate|by rewrite length_replicate].
Qed.

Lemma bitmap_refines_booleans_witness :
  exists b, (b ← Bitmap_new 70 false; runs run_bop b [OSet 64; OSetRange 60 63; OAssign 61 false; OTest 64; OTotal; OSize])
    = Ok (b, [ADone; ADone; ADone; ABool true; ANum 3; ANum 70]).
Proof.
  pose proof (bitmap_refines_booleans 70 false [OSet 64; OSetRange 60 63; OAssign 61 false; OTest 64; OTotal; OSize] ltac:(unfold INT_MAX; lia)
    ltac:(repeat constructor; cbn; lia)) as R.
  vm_compute in R. destruct R as (b & E & _). exists b. exact E.
Defined.

(** A range up to the end, which the comments allow ([max] within bounds + 1), fails. *)
Lemma set_range_to_the_end b min :
  setRange b min (num b) = Stop AssertFailed /\ resetRange b min (num b) = Stop AssertFailed.
Proof. unfold setRange, resetRange. by rewrite Z.ltb_irrefl, andb_false_r. Qed.

(** An iterator over an unchanged bitmap yields with its calls of [get] the indices of the booleans
    with its value, all of them in ascending order, although it skips whole words, and then returns
    false for ever. *)
Theorem bitmap_iterator_correct b l v k : holds b l ->
  gets_of b (Iter_new v) (length (indices v l) + k) = Ok ((Some ∘ Z.of_nat <$> indices v l) ++ replicate k None).
Proof.
  intros H. assert (E : Iter_new v = it_at v 0) by by destruct v. rewrite E, gets_of_ok with (l := l) by (done || by left).
  f_equal. change (indices_from v l 0) with (indices v l). rewrite take_app, length_fmap, take_ge by (rewrite length_fmap; lia).
  f_equal. rewrite take_replicate. f_equal. lia.
Qed.

Lemma bitmap_iterator_correct_witness :
  exists b b', Bitmap_new 130 false = Ok b /\ set b 70 = Ok b' /\
    gets_of b' (Iter_new true) 3 = Ok [Some 70%Z; None; None].
Proof.
  destruct (Bitmap_new_ok 130 false ltac:(lia)) as (b & E & H).
  destruct (set_ok b _ 70 H) as (b' & E' & H'); [rewrite length_replicate; lia|].
  exists b, b'. split; [exact E|]. split; [exact E'|].
  pose proof (bitmap_iterator_correct b' _ true 2 H') as R.
  assert (Ei : indices true (<[70 := true]> (replicate 130 false)) = [70]) by (vm_compute; reflexivity).
  rewrite Ei in R. exact R.
Defined.

(** [encode] reports success and [decode] of what it wrote does too, but of the words only the first
    half was written and read (the items are counted with the size of an [unsigned int]), so the other
    words of the decoded bitmap are uninitialised memory. *)
Theorem bitmap_decode_loses_half b l c s : holds b l -> (8 + 4 * nc b <= s)%Z ->
  exists o, encode b (Out [] s) = Ok (true, o) /\
    decode c (written o) =
    Ok (true, Bm (num b) (take (length (chunks b) / 2) (chunks b) ++ replicate (length (chunks b) - length (chunks b) / 2) None) (nc b), []).
Proof.
  intros H Hs. destruct (holds_words b l H) as (xs & Hxs & Hw & Hl). eexists. split; [by apply (encode_ok b l xs)|].
  cbn [written app]. rewrite (decode_ok b l xs c H Hxs Hw). by rewrite Hxs, length_fmap.
Qed.

Lemma bitmap_decode_loses_half_witness :
  exists b o b', Bitmap_new 5 true = Ok b /\ encode b (Out [] 100) = Ok (true, o) /\ decode b (written o) = Ok (true, b', [])
    /\ test b' 0 = Stop Uninit.
Proof.
  destruct (Bitmap_new_ok 5 true ltac:(lia)) as (b & E & H). assert (Hn : nc b = 1%Z) by (rewrite (h_nc _ _ H), (h_num _ _ H); done).
  destruct (bitmap_decode_loses_half b _ b 100 H) as (o & Ho & D); [lia|].
  exists b, o. eexists. split; [exact E|]. split; [exact Ho|]. split; [exact D|].
  rewrite (h_len _ _ H), Hn, (h_num _ _ H). vm_compute. reflexivity.
Defined.

(** Setting or resetting a bit of a [char] array changes that bit only, also in bytes that are
    negative as [char]s. *)
Theorem Bits_set_reset_correct cs i : i < 8 * length cs ->
  exists cs1 cs2, Bits_set cs (Z.of_nat i) = Ok cs1 /\ Bits_reset cs (Z.of_nat i) = Ok cs2 /\
    forall j, j < 8 * length cs ->
      Bits_test cs1 (Z.of_nat j) = (if decide (j = i) then Ok true else Bits_test cs (Z.of_nat j)) /\
      Bits_test cs2 (Z.of_nat j) = (if decide (j = i) then Ok false else Bits_test cs (Z.of_nat j)).
Proof.
  intros Hi. pose proof (Nat.div_mod_eq i 8). pose proof (Nat.mod_upper_bound i 8 ltac:(lia)).
  assert (Hk : i / 8 < length cs) by lia. destruct (lookup_lt_is_Some_2 cs (i / 8) Hk) as [c Hc]. destruct (byte_of i) as [E1 E2].
  unfold Bits_set, Bits_reset. rewrite E1, (aget_nat _ _ _ Hc), E2. cbn [mbind res_bind]. rewrite !aset_nat by done.
  do 2 eexists. split; [done|]. split; [done|]. intros j Hj. split; apply (Bits_test_insert cs i j c); try done; intros p Hp;
    rewrite to_char_bit, ?Z.lor_spec, ?Z.land_spec, ?Z.lnot_spec, one_bit_test by lia;
    destruct (decide (p = i mod 8)) as [->|Hne]; rewrite ?bool_decide_true, ?bool_decide_false by done;
    by rewrite ?orb_true_r, ?orb_false_r, ?andb_false_r, ?andb_true_r.
Qed.

Lemma Bits_set_reset_correct_witness :
  Bits_set [0; -1]%Z 7 = Ok [-128; -1]%Z /\ Bits_test [-128; -1]%Z 7 = Ok true.
Proof.
  destruct (Bits_set_reset_correct [0; -1]%Z 7 ltac:(cbn; lia)) as (cs1 & cs2 & E1 & _ & H).
  vm_compute in E1. injection E1 as <-. split; [reflexivity|]. exact (proj1 (H 7 ltac:(cbn; lia))).
Defined.

(** The padding bits of the last word count: resetting every boolean of a bitmap created with true
    leaves [all_zero] false. *)
Lemma bitmap_all_zero_sees_padding :
  (b ← Bitmap_new 1 true; b ← reset b 0; n ← total_set b; z ← all_zero b; Ok (n, z)) = Ok (0%Z, false).
Proof. vm_compute. reflexivity. Qed.

(** [operator==] copies its argument with a constructor that reads the uninitialised [nc]. *)
Lemma bitmap_eq_uninitialised b other : Bitmap_eq b other = Stop Uninit.
Proof. done. Qed.
