(* ===== verification/LogAlloc.v ===== *)
(** The allocator of src/deps/libbyz/Log_allocator.h: blocks are cut one behind the other from chunks that count
    their blocks, and a chunk without blocks goes to a list of free chunks.  A pointer is its address; [alloc_chunk] is in
    a source that is not there and enters as the class [ChunkSource].  Assertions and DEBUG_ALLOC are on, as they are
    without NDEBUG. *)
From S2P Require Import Prelude.
#[local] Open Scope Z_scope.

(** * The code *)

(** The header of a [Chunk]; [data] follows it. *)
Record chunk : Type := Chunk { next : Z; max : Z; nb : Z }.
Definition data (c : Z) : Z := c + 24.

(** The allocator, the headers of its chunks by their address, and the bytes of memory. *)
Record log_allocator : Type := LogAllocator {
  cur : Z;
  chunk_size : Z;
  chunks : Z;
  max_num_chunks : Z;
  num_chunks : Z;
  free_chunks : Z;
  hdrs : gmap Z chunk;
  mem : Z -> Z
}.
Abbreviation la := log_allocator.

Definition with_cur (c : Z) (s : la) : la :=
  LogAllocator c (chunk_size s) (chunks s) (max_num_chunks s) (num_chunks s) (free_chunks s) (hdrs s) (mem s).
Definition with_free_chunks (c : Z) (s : la) : la :=
  LogAllocator (cur s) (chunk_size s) (chunks s) (max_num_chunks s) (num_chunks s) c (hdrs s) (mem s).
Definition with_hdrs (h : gmap Z chunk) (s : la) : la :=
  LogAllocator (cur s) (chunk_size s) (chunks s) (max_num_chunks s) (num_chunks s) (free_chunks s) h (mem s).
Definition with_mem (m : Z -> Z) (s : la) : la :=
  LogAllocator (cur s) (chunk_size s) (chunks s) (max_num_chunks s) (num_chunks s) (free_chunks s) (hdrs s) m.

(** [*c] and [c->field = ...] *)
Definition hdr (c : Z) : M la chunk :=
  fun s => if c =? 0 then Stop NullDeref else match hdrs s !! c with Some h => Ok (h, s) | None => Stop Dangling end.
Definition set_hdr (c : Z) (h : chunk) : M la unit := modify (fun s => with_hdrs (<[c := h]> (hdrs s)) s).

(** [n] bytes of memory from [p] on, the value of the [i]-th being [f i]. *)
Definition fill (p n : Z) (f : Z -> Z) (m : Z -> Z) : Z -> Z :=
  fun x => if bool_decide (p <= x < p + n) then f (x - p) else m x.
Definition bzero (p n : Z) : M la unit := modify (fun s => with_mem (fill p n (fun _ => 0) (mem s)) s).

Definition ALIGNMENT : Z := 8.
Definition ALIGNED (n : Z) : bool := Z.rem n ALIGNMENT =? 0.
Definition ALIGNED_SIZE (sz : Z) : Z := if ALIGNED sz then sz else sz - Z.rem sz ALIGNMENT + ALIGNMENT.

(** [Log_allocator_magic], and an [int] in memory. *)
Definition magic : Z := 946180775.
Definition store_int (p v : Z) (m : Z -> Z) : Z -> Z := fill p 4 (fun i => Z.land (Z.shiftr v (8 * i)) 255) m.
(** The loop of [free] over the [int]s of a block, [n] of which are left from [i] on. *)
Fixpoint debug_fill (n : nat) (p i : Z) (m : Z -> Z) : Z -> Z :=
  match n with O => m | S n => debug_fill n p (i + 1) (store_int (p + 4 * i) magic m) end.

(** What the source of the allocator provides: [alloc_chunk]. *)
Class ChunkSource := alloc_chunk : M la Z.

Definition chunk_of (s : la) (p : Z) : Z := Z.land p (Z.lnot (chunk_size s - 1)).

Definition free_chunk (c : Z) : M la unit :=
  h ← hdr c; f ← gets free_chunks; set_hdr c (Chunk f (max h) (nb h));; modify (with_free_chunks c).

Section code.
Context `{!ChunkSource}.

(** One round of the loop of [malloc]. *)
Definition malloc_round (sz : Z) (_ : unit) : M la (unit + Z) :=
  c ← gets cur; h ← hdr c;
  if next h + sz <? max h then
    set_hdr c (Chunk (next h + sz) (max h) (nb h + 1));; bzero (next h) sz;; mret (inr (next h))
  else if nb h =? 1 then set_hdr c (Chunk (data c) (max h) (nb h));; mret (inl tt)
  else
    set_hdr c (Chunk (next h) (max h) (nb h - 1));;
    c' ← alloc_chunk; modify (with_cur c');; mret (inl tt).
Definition malloc (fuel : nat) (sz : Z) : M la Z :=
  size ← gets chunk_size;
  lift (c_assert ((0 <? sz) && (sz <? size)));;
  lift (c_assert (negb (ALIGNED_SIZE sz =? 0)));;
  loopM fuel (malloc_round sz) tt.
End code.

Definition free (p sz : Z) : M la unit :=
  lift (c_assert (negb (ALIGNED_SIZE sz =? 0)));;
  lift (c_assert (ALIGNED p));;
  pc ← gets (fun s => chunk_of s p);
  modify (fun s => with_mem (debug_fill (Z.to_nat (sz ÷ 4)) p 0 (mem s)) s);;
  c ← gets cur;
  (if pc =? c then
     h ← hdr c; if p + sz =? next h then set_hdr c (Chunk (next h - sz) (max h) (nb h)) else mret tt
   else mret tt);;
  h ← hdr pc;
  set_hdr pc (Chunk (next h) (max h) (nb h - 1));;
  if nb h - 1 =? 0 then lift (c_assert (negb (pc =? c)));; free_chunk pc else mret tt.

Definition realloc (p osz nsz : Z) : M la bool :=
  pc ← gets (fun s => chunk_of s p);
  c ← gets cur;
  if pc =? c then
    h ← hdr c;
    if p + osz =? next h then
      diff ← lift (ck (nsz - osz));
      if next h + diff <? max h then set_hdr c (Chunk (next h + diff) (max h) (nb h));; mret true else mret false
    else mret false
  else mret false.

(** * Specification *)

(** The chunks that are free, from [x] on. *)
Fixpoint chain (h : gmap Z chunk) (x : Z) (F : list Z) : Prop :=
  match F with
  | [] => x = 0
  | c :: F => x = c /\ c <> 0 /\ exists hc, h !! c = Some hc /\ nb hc = 0 /\ chain h (next hc) F
  end.

(** The chunks lie side by side at multiples of their size, a power of two, and the ones without blocks are in the list of free chunks. *)
Record chunks_ok (s : la) (F : list Z) : Prop := {
  ok_size : exists k, 5 <= k /\ chunk_size s = 2 ^ k;
  ok_area : 0 < chunks s /\ chunks s mod chunk_size s = 0;
  ok_chunks c h : hdrs s !! c = Some h -> exists i, 0 <= i < num_chunks s /\ c = chunks s + i * chunk_size s;
  ok_num : 0 <= num_chunks s <= max_num_chunks s;
  ok_chain : chain (hdrs s) (free_chunks s) F;
  ok_nodup : NoDup F;
  ok_free c h : hdrs s !! c = Some h -> nb h = 0 -> c ∈ F
}.

(** What [alloc_chunk] is documented to do: it gives up, or makes a chunk that nobody uses, new or from the list, the current one:
    its free area is all of it and it counts one block.  The other chunks and what they hold stay. *)
Class ChunkLaws `{!ChunkSource} : Prop :=
  alloc_chunk_ok s F : chunks_ok s F ->
    alloc_chunk s = Stop Exited \/
    exists c s' F', alloc_chunk s = Ok (c, s') /\ chunks_ok s' F' /\
      (hdrs s !! c = None \/ c ∈ F) /\ hdrs s' = <[c := Chunk (data c) (c + chunk_size s) 1]> (hdrs s) /\
      cur s' = cur s /\ chunk_size s' = chunk_size s /\ (forall x, ~ c <= x < c + chunk_size s -> mem s' x = mem s x).

(** The blocks of the client: what they hold, by their address. *)
Abbreviation heap := (gmap Z (list Z)).
Definition read (m : Z -> Z) (p : Z) (n : nat) : list Z := (fun i => m (p + Z.of_nat i)) <$> seq 0 n.
Definition home (s : la) (p : Z) : Z := p - p mod chunk_size s.
Definition len (bs : list Z) : Z := Z.of_nat (length bs).
Definition count (s : la) (c : Z) (H : heap) : Z := Z.of_nat (size (filter (fun pb => home s pb.1 = c) H)).

Record inv (s : la) (H : heap) : Prop := {
  inv_chunks : exists F, chunks_ok s F;
  inv_cur : is_Some (hdrs s !! cur s);
  inv_hdr c h : hdrs s !! c = Some h -> nb h <> 0 -> data c <= next h <= max h /\ max h = c + chunk_size s /\ next h mod 8 = 0;
  inv_nb c h : hdrs s !! c = Some h -> nb h = count s c H + (if decide (c = cur s) then 1 else 0);
  inv_block p bs : H !! p = Some bs -> 0 < len bs /\ p mod 8 = 0 /\ len bs mod 8 = 0 /\
    exists h, hdrs s !! home s p = Some h /\ data (home s p) <= p /\ p + len bs <= next h;
  inv_apart p q bs cs : H !! p = Some bs -> H !! q = Some cs -> p <> q -> p + len bs <= q \/ q + len cs <= p;
  inv_mem p bs : H !! p = Some bs -> read (mem s) p (length bs) = bs
}.

(** ** What a client may do, and what it then sees *)
Inductive lop : Type := LMalloc (sz : Z) | LFree (p : Z) (sz : Z) | LRealloc (p osz nsz : Z) | LWrite (p i v : Z).
Inductive lret : Type := RPtr (p : Z) | RBool (b : bool) | RUnit.

Definition run_lop `{!ChunkSource} (op : lop) : M la lret :=
  match op with
  | LMalloc sz => p ← malloc 3 sz; mret (RPtr p)
  | LFree p sz => free p sz;; mret RUnit
  | LRealloc p osz nsz => b ← realloc p osz nsz; mret (RBool b)
  | LWrite p i v => modify (fun s => with_mem (fill (p + i) 1 (fun _ => v) (mem s)) s);; mret RUnit
  end.

Definition lmay (size : Z) (op : lop) (H : heap) : Prop :=
  match op with
  | LMalloc sz => 0 < sz /\ sz mod 8 = 0 /\ 24 + sz < size
  | LFree p sz => exists bs, H !! p = Some bs /\ len bs = sz
  | LRealloc p osz nsz => (exists bs, H !! p = Some bs /\ len bs = osz) /\ 0 < nsz /\ nsz mod 8 = 0 /\ is_int (nsz - osz)
  | LWrite p i v => exists bs, H !! p = Some bs /\ 0 <= i < len bs
  end.

Inductive lspec : lop -> heap -> lret -> heap -> Prop :=
| spec_malloc sz H p : H !! p = None -> p mod 8 = 0 ->
    (forall q bs, H !! q = Some bs -> q + len bs <= p \/ p + sz <= q) ->
    lspec (LMalloc sz) H (RPtr p) (<[p := replicate (Z.to_nat sz) 0]> H)
| spec_free p sz H : lspec (LFree p sz) H RUnit (delete p H)
| spec_grown p osz nsz H bs bs' : H !! p = Some bs -> len bs' = nsz ->
    take (Nat.min (length bs) (length bs')) bs' = take (Nat.min (length bs) (length bs')) bs ->
    lspec (LRealloc p osz nsz) H (RBool true) (<[p := bs']> H)
| spec_not_grown p osz nsz H : lspec (LRealloc p osz nsz) H (RBool false) H
| spec_write p i v H bs : H !! p = Some bs -> lspec (LWrite p i v) H RUnit (<[p := <[Z.to_nat i := v]> bs]> H).

(** * Proofs *)

(** ** Memory *)
Lemma fill_in p n f m x : p <= x < p + n -> fill p n f m x = f (x - p).
Proof. intros Hx. unfold fill. by rewrite bool_decide_true. Qed.

Lemma fill_out p n f m x : ~ p <= x < p + n -> fill p n f m x = m x.
Proof. intros Hx. unfold fill. by rewrite bool_decide_false. Qed.

Lemma debug_fill_out n p i m x : ~ p + 4 * i <= x < p + 4 * (i + Z.of_nat n) -> debug_fill n p i m x = m x.
Proof.
  revert i m. induction n as [|n IH]; intros i m Hx; [done|]. cbn [debug_fill]. rewrite IH by lia. unfold store_int. apply fill_out. lia.
Qed.

Lemma length_read m p n : length (read m p n) = n.
Proof. unfold read. by rewrite length_fmap, length_seq. Qed.

Lemma lookup_read m p n i : (i < n)%nat -> read m p n !! i = Some (m (p + Z.of_nat i)).
Proof. intros Hi. unfold read. rewrite list_lookup_fmap, lookup_seq_lt by done. done. Qed.

Lemma read_ext m m' p n : (forall x, p <= x < p + Z.of_nat n -> m' x = m x) -> read m' p n = read m p n.
Proof. intros E. unfold read. apply list_fmap_ext. intros i j [-> Hi]%lookup_seq. apply E. lia. Qed.

Lemma read_eq m p bs : (forall i b, bs !! i = Some b -> m (p + Z.of_nat i) = b) -> read m p (length bs) = bs.
Proof.
  intros E. apply list_eq. intros i. destruct (bs !! i) as [b|] eqn:Ei.
  - rewrite lookup_read by (by eapply lookup_lt_Some). by rewrite (E _ _ Ei).
  - apply lookup_ge_None in Ei. apply lookup_ge_None. by rewrite length_read.
Qed.

Lemma read_at m p bs i b : read m p (length bs) = bs -> bs !! i = Some b -> m (p + Z.of_nat i) = b.
Proof. intros E Ei. rewrite <- E in Ei. rewrite lookup_read in Ei; [by injection Ei|]. apply lookup_lt_Some in Ei. by rewrite length_read in Ei. Qed.

Lemma take_read k m p n : take k (read m p n) = read m p (Nat.min k n).
Proof. unfold read. rewrite <- fmap_take. f_equal. apply take_seq. Qed.

Lemma read_zeros m p n : read (fill p (Z.of_nat n) (fun _ => 0) m) p n = replicate n 0.
Proof.
  rewrite <- (length_replicate n (0:Z)) at 2. apply read_eq. intros i b [-> Hi]%lookup_replicate. apply fill_in. lia.
Qed.

Lemma read_write m p bs i v : read m p (length bs) = bs -> 0 <= i < Z.of_nat (length bs) ->
  read (fill (p + i) 1 (fun _ => v) m) p (length (<[Z.to_nat i := v]> bs)) = <[Z.to_nat i := v]> bs.
Proof.
  intros E Hi. apply read_eq. intros j b Hj. destruct (decide (j = Z.to_nat i)) as [->|Hne].
  - rewrite list_lookup_insert_eq in Hj by lia. injection Hj as <-. apply fill_in. lia.
  - rewrite list_lookup_insert_ne in Hj by done. rewrite fill_out by lia. by eapply read_at.
Qed.

(** ** Chunks *)
Lemma land_lnot_ones p k : 0 <= k -> Z.land p (Z.lnot (2 ^ k - 1)) = p - p mod 2 ^ k.
Proof.
  intros Hk. replace (2 ^ k - 1) with (Z.ones k) by (rewrite Z.ones_equiv; lia).
  rewrite <- Z.ldiff_land, Z.ldiff_ones_r, Z.shiftl_mul_pow2, Z.shiftr_div_pow2 by done.
  pose proof (Z.div_mod p (2 ^ k) ltac:(apply Z.pow_nonzero; lia)). lia.
Qed.

Lemma chunk_of_home s F p : chunks_ok s F -> chunk_of s p = home s p.
Proof. intros [(k & Hk & E) _ _ _ _ _ _]. unfold chunk_of, home. rewrite E. apply land_lnot_ones. lia. Qed.

Lemma size_pos s F : chunks_ok s F -> 32 <= chunk_size s /\ chunk_size s mod 8 = 0.
Proof.
  intros [(k & Hk & ->) _ _ _ _ _ _]. replace k with (5 + (k - 5)) by lia. rewrite Z.pow_add_r by lia.
  pose proof (Z.pow_pos_nonneg 2 (k - 5) ltac:(lia) ltac:(lia)). split; [lia|].
  replace (2 ^ 5 * 2 ^ (k - 5)) with (4 * 2 ^ (k - 5) * 8) by lia. apply Z.mod_mul. lia.
Qed.

Lemma chunk_multiple s F c h : chunks_ok s F -> hdrs s !! c = Some h -> 0 < c /\ c mod chunk_size s = 0.
Proof.
  intros HO Hc. destruct (size_pos _ _ HO) as [Hs _]. destruct (ok_chunks _ _ HO _ _ Hc) as (i & Hi & ->).
  destruct (ok_area _ _ HO) as [Ha Hm]. split; [nia|]. by rewrite Z.mod_add by lia.
Qed.

Lemma chunk_aligned s F c h : chunks_ok s F -> hdrs s !! c = Some h -> data c mod 8 = 0.
Proof.
  intros HO Hc. destruct (size_pos _ _ HO) as [Hs H8]. destruct (chunk_multiple _ _ _ _ HO Hc) as [_ Hm].
  apply Z.mod_divide in Hm as [a ->]; [|lia]. apply Z.mod_divide in H8 as [b ->]; [|lia]. unfold data.
  replace (a * (b * 8) + 24) with ((a * b + 3) * 8) by lia. apply Z.mod_mul. lia.
Qed.

Lemma home_in s c p : 0 < chunk_size s -> c mod chunk_size s = 0 -> c <= p < c + chunk_size s -> home s p = c.
Proof.
  intros Hs Hc Hp. apply Z.mod_divide in Hc as [a ->]; [|lia]. unfold home.
  rewrite (Z.mod_eq p) by lia. rewrite (Z.div_unique p (chunk_size s) a (p - a * chunk_size s)) by lia. lia.
Qed.

Lemma home_multiple s p : 0 < chunk_size s -> home s p mod chunk_size s = 0.
Proof. intros Hs. unfold home. rewrite (Z.mod_eq p) by lia. replace (p - (p - chunk_size s * (p / chunk_size s))) with ((p / chunk_size s) * chunk_size s) by lia. apply Z.mod_mul. lia. Qed.

Lemma multiples_apart n c d x : 0 < n -> c mod n = 0 -> d mod n = 0 -> c <> d -> c <= x < c + n -> ~ d <= x < d + n.
Proof.
  intros Hn Hc Hd Hne Hx Hy. apply Z.mod_divide in Hc as [a ->]; [|lia]. apply Z.mod_divide in Hd as [b ->]; [|lia].
  assert (a < b \/ b < a) as [?|?] by nia; nia.
Qed.

Lemma chain_nb h x F c hc : chain h x F -> c ∈ F -> h !! c = Some hc -> nb hc = 0.
Proof.
  revert x. induction F as [|d F IH]; intros x HC Hin Hc; [by apply not_elem_of_nil in Hin|].
  destruct HC as (-> & Hne & hd & Hd & Hz & HC). apply elem_of_cons in Hin as [->|Hin]; [congruence|by eapply IH].
Qed.

Lemma chain_insert h x F c hc : c ∉ F -> chain h x F -> chain (<[c := hc]> h) x F.
Proof.
  revert x. induction F as [|d F IH]; intros x Hni HC; [done|]. destruct HC as (-> & Hne & hd & Hd & Hz & HC).
  apply not_elem_of_cons in Hni as [Hcd Hni]. split_and!; [done|done|]. exists hd. rewrite lookup_insert_ne by done. auto.
Qed.

(** Writing the header of a chunk that has blocks keeps the chunks in order. *)
Lemma chunks_ok_set s F c h h' m : chunks_ok s F -> hdrs s !! c = Some h -> nb h <> 0 -> nb h' <> 0 ->
  chunks_ok (with_mem m (with_hdrs (<[c := h']> (hdrs s)) s)) F.
Proof.
  intros HO Hc Hn Hn'. split; cbn [chunk_size chunks hdrs num_chunks max_num_chunks free_chunks with_mem with_hdrs];
    [by eapply ok_size|by eapply ok_area| |by eapply ok_num| |by eapply ok_nodup|].
  - intros d hd Hd. apply lookup_insert_Some in Hd as [[<- <-]|[_ Hd]]; by eapply ok_chunks.
  - apply chain_insert; [|by apply ok_chain]. intros Hin. apply Hn. eapply chain_nb; [by apply ok_chain|done|done].
  - intros d hd Hd Hz. apply lookup_insert_Some in Hd as [[<- <-]|[_ Hd]]; [done|]. by eapply ok_free.
Qed.

(** ** Counting blocks *)
Lemma blocks_insert s c p bs H : H !! p = None -> count s c (<[p := bs]> H) = count s c H + (if decide (home s p = c) then 1 else 0).
Proof.
  intros Hp. unfold count. destruct (decide (home s p = c)) as [Hc|Hc].
  - rewrite map_filter_insert_True by done. rewrite map_size_insert_None; [lia|]. apply map_lookup_filter_None. by left.
  - rewrite map_filter_insert_False, delete_id by done. lia.
Qed.

Lemma blocks_delete s c p bs H : H !! p = Some bs -> count s c (delete p H) = count s c H - (if decide (home s p = c) then 1 else 0).
Proof. intros Hp. rewrite <- (insert_delete_id H p bs Hp) at 2. rewrite blocks_insert by apply lookup_delete_eq. lia. Qed.

Lemma blocks_update s c p bs cs H : H !! p = Some bs -> count s c (<[p := cs]> H) = count s c H.
Proof.
  intros Hp. rewrite <- insert_delete_eq, blocks_insert by apply lookup_delete_eq. rewrite (blocks_delete _ _ _ _ _ Hp). lia.
Qed.

Lemma count_zero s c H : count s c H = 0 -> forall p bs, H !! p = Some bs -> home s p <> c.
Proof.
  intros Hc p bs Hp Hh. assert (E : filter (fun pb => home s pb.1 = c) H !! p = Some bs) by by apply map_lookup_filter_Some_2.
  unfold count in Hc. assert (Hz : size (filter (fun pb : Z * list Z => home s pb.1 = c) H) = 0%nat) by lia.
  apply map_size_empty_inv in Hz. rewrite Hz in E. done.
Qed.

Lemma count_none s c H : (forall p bs, H !! p = Some bs -> home s p <> c) -> count s c H = 0.
Proof.
  intros Hn. unfold count. replace (filter (fun pb => home s pb.1 = c) H) with (∅ : heap); [done|].
  symmetry. apply map_empty. intros p. apply map_lookup_filter_None. right. intros bs Hp. by eapply Hn.
Qed.

Lemma count_nonneg s c H : 0 <= count s c H.
Proof. unfold count. lia. Qed.

(** ** The invariant *)
Abbreviation put s c h m := (with_mem m (with_hdrs (<[c := h]> (hdrs s)) s)).

Lemma block_range s H p bs : inv s H -> H !! p = Some bs ->
  exists h, hdrs s !! home s p = Some h /\ nb h <> 0 /\ home s p <= p /\ p + len bs <= home s p + chunk_size s.
Proof.
  intros HI Hp. destruct (inv_block _ _ HI _ _ Hp) as (Hlen & _ & _ & h & Hh & Hlo & Hhi). exists h.
  assert (Hn : nb h <> 0).
  { intros Hz. pose proof (inv_nb _ _ HI _ _ Hh) as E. pose proof (count_nonneg s (home s p) H).
    destruct (decide (home s p = cur s)); [lia|]. apply (count_zero s (home s p) H) with p bs; [lia|done|done]. }
  destruct (inv_hdr _ _ HI _ _ Hh Hn) as (Hnx & Hmx & _). unfold data in *. split_and!; [done|done|lia|lia].
Qed.

(** The header of one chunk, the memory and the blocks change together. *)
Lemma inv_set s H c h h' m H' : inv s H -> hdrs s !! c = Some h -> nb h <> 0 -> nb h' <> 0 ->
  data c <= next h' <= max h' -> max h' = max h -> next h' mod 8 = 0 ->
  nb h' = count s c H' + (if decide (c = cur s) then 1 else 0) ->
  (forall d, d <> c -> count s d H' = count s d H) ->
  (forall p bs, H' !! p = Some bs -> H !! p = Some bs /\ (home s p = c -> p + len bs <= next h') \/
     home s p = c /\ 0 < len bs /\ p mod 8 = 0 /\ len bs mod 8 = 0 /\ data c <= p /\ p + len bs <= next h') ->
  (forall p q bs cs, H' !! p = Some bs -> H' !! q = Some cs -> p <> q -> p + len bs <= q \/ q + len cs <= p) ->
  (forall p bs, H' !! p = Some bs -> read m p (length bs) = bs) ->
  inv (put s c h' m) H'.
Proof.
  intros HI Hc Hn Hn' Hnx Hmx H8 Hnb Hcnt Hbl Hap Hrd. destruct (inv_chunks _ _ HI) as [F HO]. split.
  - exists F. by eapply chunks_ok_set.
  - cbn. destruct (inv_cur _ _ HI) as [hc Hhc]. apply lookup_insert_is_Some. destruct (decide (c = cur s)); [by left|right; split; [done|by exists hc]].
  - intros d hd Hd Hnd. cbn in Hd. apply lookup_insert_Some in Hd as [[<- <-]|[_ Hd]]; [|by apply (inv_hdr _ _ HI)].
    destruct (inv_hdr _ _ HI _ _ Hc Hn) as (_ & E & _). split_and!; [lia|lia|cbn [chunk_size with_mem with_hdrs]; lia|done].
  - intros d hd Hd. cbn in Hd |- *. apply lookup_insert_Some in Hd as [[<- <-]|[Hne Hd]]; [done|].
    change (count _ d H') with (count s d H'). rewrite Hcnt by done. by apply (inv_nb _ _ HI).
  - intros p bs Hp. change (home _ p) with (home s p). cbn [hdrs with_mem with_hdrs].
    destruct (Hbl _ _ Hp) as [[Hp' Hin]|(Hh & Hl & Hp8 & Hl8 & Hlo & Hhi)].
    + destruct (inv_block _ _ HI _ _ Hp') as (Hl & Hp8 & Hl8 & hp & Hhp & Hlo & Hhi). split_and!; [done..|].
      destruct (decide (home s p = c)) as [Hh|Hh].
      * exists h'. rewrite Hh, lookup_insert_eq. rewrite Hh in Hlo. auto.
      * exists hp. rewrite lookup_insert_ne by done. done.
    + split_and!; [done..|]. exists h'. rewrite Hh, lookup_insert_eq. auto.
  - done.
  - done.
Qed.

(** The current chunk, once more. *)
Lemma cur_header s H : inv s H -> exists h, hdrs s !! cur s = Some h /\ nb h = count s (cur s) H + 1.
Proof.
  intros HI. destruct (inv_cur _ _ HI) as [h Hh]. exists h. split; [done|]. rewrite (inv_nb _ _ HI _ _ Hh).
  by rewrite decide_True.
Qed.

Lemma bind_hdr {B} s c h (k : chunk -> M la B) : c <> 0 -> hdrs s !! c = Some h -> (hdr c ≫= k) s = k h s.
Proof. intros Hc Hh. unfold mbind, M_bind, hdr. destruct (Z.eqb_spec c 0); [done|]. by rewrite Hh. Qed.

Lemma nonzero s H c h : inv s H -> hdrs s !! c = Some h -> c <> 0.
Proof. intros HI Hc. destruct (inv_chunks _ _ HI) as [F HO]. destruct (chunk_multiple _ _ _ _ HO Hc). lia. Qed.

(** A round that finds room. *)
Lemma inv_take s H h sz : inv s H -> hdrs s !! cur s = Some h -> 0 < sz -> sz mod 8 = 0 -> next h + sz < max h ->
  let p := next h in let H' := <[p := replicate (Z.to_nat sz) 0]> H in
  H !! p = None /\ p mod 8 = 0 /\ (forall q bs, H !! q = Some bs -> q + len bs <= p \/ p + sz <= q) /\
  inv (put s (cur s) (Chunk (p + sz) (max h) (nb h + 1)) (fill p sz (fun _ => 0) (mem s))) H'.
Proof.
  intros HI Hh Hsz H8 Hroom p H'. destruct (cur_header s H HI) as (h0 & Hh0 & Hnb). rewrite Hh in Hh0. injection Hh0 as <-.
  destruct (inv_chunks _ _ HI) as [F HO]. destruct (chunk_multiple _ _ _ _ HO Hh) as [_ Hcm]. destruct (size_pos _ _ HO) as [Hsp _].
  pose proof (count_nonneg s (cur s) H) as Hcn. destruct (inv_hdr _ _ HI _ _ Hh ltac:(lia)) as (Hnx & Hmx & Hn8).
  assert (Hhome : home s p = cur s) by (apply home_in; [lia|done|unfold p, data in *; lia]).
  assert (Hq : forall q bs, H !! q = Some bs -> q + len bs <= p \/ p + sz <= q).
  { intros q bs Hq. destruct (block_range _ _ _ _ HI Hq) as (hq & Hhq & _ & Hlo & Hhi). destruct (decide (home s q = cur s)) as [E|E].
    - left. destruct (inv_block _ _ HI _ _ Hq) as (_ & _ & _ & h1 & Hh1 & _ & Hle). rewrite E, Hh in Hh1. by injection Hh1 as <-.
    - destruct (Z.le_gt_cases (q + len bs) p); [by left|]. destruct (Z.le_gt_cases (p + sz) q); [by right|]. exfalso.
      destruct (inv_block _ _ HI _ _ Hq) as (Hl & _).
      eapply (multiples_apart (chunk_size s) (cur s) (home s q) (Z.max p q)); [lia|done|apply home_multiple; lia|done|unfold p, data in *; lia|lia]. }
  assert (Hp : H !! p = None).
  { destruct (H !! p) as [bs|] eqn:E; [|done]. destruct (inv_block _ _ HI _ _ E) as (Hl & _). destruct (Hq _ _ E); lia. }
  split_and!; [done|done|done|].
  assert (Hlen : len (replicate (Z.to_nat sz) 0) = sz) by (unfold len; rewrite length_replicate; lia).
  eapply inv_set; [done|exact Hh|lia|cbn; lia|cbn [next max]; unfold p in *; lia|done| | | | | |].
  - cbn [next]. unfold p. rewrite Z.add_mod, Hn8, H8 by lia. done.
  - cbn [nb]. unfold H'. rewrite blocks_insert, decide_True by done. rewrite decide_True by done. lia.
  - intros d Hd. unfold H'. rewrite blocks_insert, decide_False by (done || congruence). lia.
  - intros q bs Hqs. apply lookup_insert_Some in Hqs as [[<- <-]|[_ Hqs]].
    + right. rewrite Hlen. cbn [next]. split_and!; [done|done|done|done|unfold p; lia|lia].
    + left. split; [done|]. intros E. destruct (inv_block _ _ HI _ _ Hqs) as (_ & _ & _ & h1 & Hh1 & _ & Hle).
      rewrite E, Hh in Hh1. injection Hh1 as <-. cbn [next]. unfold p. lia.
  - intros q r bs cs Hqs Hrs Hne. apply lookup_insert_Some in Hqs, Hrs. destruct Hqs as [[<- <-]|[_ Hqs]], Hrs as [[<- <-]|[_ Hrs]]; [done| | |].
    + rewrite Hlen. destruct (Hq _ _ Hrs); lia.
    + rewrite Hlen. destruct (Hq _ _ Hqs); lia.
    + by eapply inv_apart.
  - intros q bs Hqs. apply lookup_insert_Some in Hqs as [[<- <-]|[_ Hqs]].
    + rewrite length_replicate. replace (fill p sz) with (fill p (Z.of_nat (Z.to_nat sz))) by (f_equal; lia). apply read_zeros.
    + rewrite (read_ext (mem s)); [by apply (inv_mem _ _ HI)|]. intros x Hx. apply fill_out. destruct (Hq _ _ Hqs); unfold len in *; lia.
Qed.

(** A round that starts the current chunk again. *)
Lemma inv_reuse s H h : inv s H -> hdrs s !! cur s = Some h -> nb h = 1 -> inv (put s (cur s) (Chunk (data (cur s)) (max h) (nb h)) (mem s)) H.
Proof.
  intros HI Hh H1. destruct (cur_header s H HI) as (h0 & Hh0 & Hnb). rewrite Hh in Hh0. injection Hh0 as <-.
  destruct (inv_chunks _ _ HI) as [F HO]. destruct (inv_hdr _ _ HI _ _ Hh ltac:(lia)) as (Hnx & Hmx & _).
  eapply inv_set; [done|exact Hh|lia|cbn; lia|cbn [next max]; lia|done| | |done| | |].
  - by eapply chunk_aligned.
  - cbn [nb]. by rewrite decide_True.
  - intros p bs Hp. left. split; [done|]. intros E. exfalso. by apply (count_zero s (cur s) H ltac:(lia) p bs Hp).
  - by apply (inv_apart _ _ HI).
  - by apply (inv_mem _ _ HI).
Qed.

Lemma count_ext s s' c H : chunk_size s' = chunk_size s -> count s' c H = count s c H.
Proof. intros E. unfold count, home. by rewrite E. Qed.

Lemma chunks_ok_cur s F c : chunks_ok s F -> chunks_ok (with_cur c s) F.
Proof. intros []. by split. Qed.

Section laws.
Context `{ChunkLaws}.

(** A round that leaves the current chunk: the chunk keeps its blocks and the new one has none. *)
Lemma inv_leave s B h : inv s B -> hdrs s !! cur s = Some h -> nb h <> 1 ->
  let s1 := put s (cur s) (Chunk (next h) (max h) (nb h - 1)) (mem s) in
  alloc_chunk s1 = Stop Exited \/
  exists c s2, alloc_chunk s1 = Ok (c, s2) /\ inv (with_cur c s2) B /\ chunk_size s2 = chunk_size s /\
    hdrs s2 !! c = Some (Chunk (data c) (c + chunk_size s) 1).
Proof.
  intros HI Hh H1 s1. destruct (cur_header s B HI) as (h0 & Hh0 & Hnb). rewrite Hh in Hh0. injection Hh0 as <-.
  pose proof (count_nonneg s (cur s) B) as Hcn. destruct (inv_chunks _ _ HI) as [F HO]. destruct (size_pos _ _ HO) as [Hsp _].
  assert (HO1 : chunks_ok s1 F) by (eapply chunks_ok_set; [done|exact Hh|lia|cbn; lia]).
  assert (Eh1 : hdrs s1 = <[cur s := Chunk (next h) (max h) (nb h - 1)]> (hdrs s)) by done.
  destruct (alloc_chunk_ok s1 F HO1) as [?|(c & s2 & F2 & E & HO2 & Hfresh & Eh & Ec & Es & Em)]; [by left|right].
  change (chunk_size s1) with (chunk_size s) in Es, Eh, Em. change (mem s1) with (mem s) in Em.
  assert (Hne : cur s <> c).
  { intros <-. rewrite Eh1, lookup_insert_eq in Hfresh. destruct Hfresh as [Hf|Hf]; [done|].
    pose proof (chain_nb _ _ _ _ _ (ok_chain _ _ HO1) Hf (lookup_insert_eq _ _ _)) as Hz. cbn in Hz. lia. }
  assert (Hno : forall p bs, B !! p = Some bs -> home s p <> c).
  { intros p bs Hp Hc. destruct (block_range _ _ _ _ HI Hp) as (hp & Hhp & Hn & _). rewrite Hc in Hhp. destruct Hfresh as [Hf|Hf].
    - by rewrite Eh1, lookup_insert_ne, Hhp in Hf.
    - apply Hn. eapply (chain_nb _ _ _ _ _ (ok_chain _ _ HO) Hf Hhp). }
  assert (Hc2 : hdrs s2 !! c = Some (Chunk (data c) (c + chunk_size s) 1)) by by rewrite Eh, lookup_insert_eq.
  assert (Hold : forall d, d <> c -> hdrs s2 !! d = hdrs s1 !! d) by (intros d Hd; by rewrite Eh, lookup_insert_ne).
  destruct (chunk_multiple _ _ _ _ HO2 Hc2) as [_ Hcm]. rewrite Es in Hcm.
  exists c, s2. split_and!; [done| |done|done]. split; cbn [cur hdrs with_cur mem].
  - exists F2. by apply chunks_ok_cur.
  - by rewrite Hc2.
  - intros d hd Hd Hn. cbn [chunk_size with_cur]. rewrite Es. destruct (decide (d = c)) as [->|Hdc].
    + rewrite Hc2 in Hd. injection Hd as <-. cbn [next max]. split_and!; [lia|unfold data; lia|done|by eapply chunk_aligned].
    + rewrite Hold, Eh1 in Hd by done. apply lookup_insert_Some in Hd as [[<- <-]|[_ Hd]]; [|by apply (inv_hdr _ _ HI)].
      apply (inv_hdr _ _ HI _ _ Hh). lia.
  - intros d hd Hd. rewrite (count_ext s) by (cbn; done). destruct (decide (d = c)) as [->|Hdc].
    + rewrite Hc2 in Hd. injection Hd as <-. by rewrite (count_none s c B Hno).
    + rewrite Hold, Eh1 in Hd by done. apply lookup_insert_Some in Hd as [[<- <-]|[Hdn Hd]]; [cbn [nb]; lia|].
      rewrite (inv_nb _ _ HI _ _ Hd), decide_False by done. done.
  - intros p bs Hp. destruct (inv_block _ _ HI _ _ Hp) as (Hl & Hp8 & Hl8 & hp & Hhp & Hlo & Hhi). split_and!; [done..|].
    unfold home. cbn [chunk_size with_cur]. rewrite Es. change (p - p mod chunk_size s) with (home s p).
    rewrite Hold, Eh1 by by eapply Hno. destruct (decide (cur s = home s p)) as [Ep|Ep].
    + rewrite Ep, lookup_insert_eq. eexists. split; [done|]. rewrite Ep, Hhp in Hh. injection Hh as <-. done.
    + rewrite lookup_insert_ne by done. exists hp. done.
  - by apply (inv_apart _ _ HI).
  - intros p bs Hp. rewrite (read_ext (mem s)); [by apply (inv_mem _ _ HI)|]. intros x Hx. apply Em.
    destruct (block_range _ _ _ _ HI Hp) as (hp & Hhp & _ & Hlo & Hhi). destruct (chunk_multiple _ _ _ _ HO Hhp) as [_ Hhm].
    eapply (multiples_apart _ (home s p) c); [lia|done|done|by eapply Hno|unfold len in *; lia].
Qed.
End laws.

(** ** [malloc] *)
Section malloc.
Context `{ChunkLaws}.

Lemma round_run s B h sz : inv s B -> hdrs s !! cur s = Some h -> malloc_round sz tt s =
  if next h + sz <? max h then Ok (inr (next h), put s (cur s) (Chunk (next h + sz) (max h) (nb h + 1)) (fill (next h) sz (fun _ => 0) (mem s)))
  else if nb h =? 1 then Ok (inl tt, put s (cur s) (Chunk (data (cur s)) (max h) (nb h)) (mem s))
  else match alloc_chunk (put s (cur s) (Chunk (next h) (max h) (nb h - 1)) (mem s)) with
       | Ok (c, s') => Ok (inl tt, with_cur c s') | Stop f => Stop f end.
Proof.
  intros HI Hh. unfold malloc_round. mnorm. rewrite (bind_hdr _ _ h _ (nonzero _ _ _ _ HI Hh) Hh).
  destruct (next h + sz <? max h); [done|]. destruct (nb h =? 1); [done|].
  unfold set_hdr, modify, mbind, M_bind. cbn [with_mem with_hdrs]. by destruct (alloc_chunk _) as [[c s']|f].
Qed.

(** What a round that does not return a block does to the invariant. *)
Lemma round_ok s B sz : inv s B ->
  (exists h, hdrs s !! cur s = Some h /\ next h + sz < max h /\
     malloc_round sz tt s = Ok (inr (next h), put s (cur s) (Chunk (next h + sz) (max h) (nb h + 1)) (fill (next h) sz (fun _ => 0) (mem s)))) \/
  malloc_round sz tt s = Stop Exited \/
  exists s' m, malloc_round sz tt s = Ok (inl tt, s') /\ inv s' B /\ chunk_size s' = chunk_size s /\
    hdrs s' !! cur s' = Some (Chunk (data (cur s')) m 1) /\ m = cur s' + chunk_size s.
Proof.
  intros HI. destruct (cur_header s B HI) as (h & Hh & Hnb). rewrite (round_run s B h) by done.
  pose proof (count_nonneg s (cur s) B).
  destruct (Z.ltb_spec (next h + sz) (max h)); [left; by exists h|right]. destruct (Z.eqb_spec (nb h) 1) as [E|E]; [right|].
  - eexists _, (max h). split; [done|]. split; [by apply inv_reuse|]. split; [done|]. cbn [hdrs cur with_mem with_hdrs].
    rewrite lookup_insert_eq, E. split; [done|]. apply (inv_hdr _ _ HI _ _ Hh). lia.
  - destruct (inv_leave s B h HI Hh E) as [Ea|(c & s2 & Ea & HI2 & Es & Hc)]; rewrite Ea; [by left|right].
    eexists _, _. split; [done|]. split; [done|]. split; [done|]. by split.
Qed.

Lemma log_malloc_ok s B sz fuel : inv s B -> 0 < sz -> sz mod 8 = 0 -> 24 + sz < chunk_size s -> (2 <= fuel)%nat ->
  malloc fuel sz s = Stop Exited \/
  exists p s', malloc fuel sz s = Ok (p, s') /\ B !! p = None /\ p mod 8 = 0 /\
    (forall q bs, B !! q = Some bs -> q + len bs <= p \/ p + sz <= q) /\
    inv s' (<[p := replicate (Z.to_nat sz) 0]> B) /\ chunk_size s' = chunk_size s.
Proof.
  intros HI Hsz H8 Hfit Hf. destruct fuel as [|[|fuel]]; [lia|lia|]. unfold malloc. mnorm.
  rewrite (bind_lift _ _ _ tt) by (unfold c_assert; by rewrite (proj2 (Z.ltb_lt 0 sz)), (proj2 (Z.ltb_lt sz (chunk_size s))) by lia).
  rewrite (bind_lift _ _ _ tt).
  2:{ unfold c_assert, ALIGNED_SIZE, ALIGNED, ALIGNMENT. rewrite Z.rem_mod_nonneg, H8 by lia. cbn. by rewrite (proj2 (Z.eqb_neq sz 0)) by lia. }
  rewrite loopM_step. destruct (round_ok s B sz HI) as [(h & Hh & Hlt & E)|[E|(s1 & m & E & HI1 & Es1 & Hh1 & Hm)]]; rewrite E; [right|by left|].
  { destruct (inv_take s B h sz HI Hh Hsz H8 Hlt) as (H1' & H2' & H3' & H4'). eexists _, _. split; [done|]. by split_and!. }
  rewrite loopM_step. destruct (round_ok s1 B sz HI1) as [(h & Hh & Hlt & E2)|[E2|(s2 & m2 & E2 & _)]]; rewrite E2; [right|by left|].
  { destruct (inv_take s1 B h sz HI1 Hh Hsz H8 Hlt) as (H1' & H2' & H3' & H4'). eexists _, _. split; [done|]. by split_and!. }
  exfalso. rewrite (round_run s1 B _ sz HI1 Hh1) in E2. cbn [next max] in E2. rewrite (proj2 (Z.ltb_lt _ _)) in E2 by (unfold data; lia). done.
Qed.

(** A block that with the header does not fit a chunk is never handed out: the assertions of [malloc] let it pass, although it is smaller than the
    chunk as the comment demands, and the loop starts the empty current chunk over and over, or the
    memory for chunks runs out. *)
Theorem log_malloc_spins s B sz fuel : inv s B -> 0 < sz < chunk_size s -> chunk_size s <= 24 + sz ->
  malloc fuel sz s = Stop OutOfFuel \/ malloc fuel sz s = Stop Exited.
Proof.
  intros HI Hsz Hbig. unfold malloc. mnorm.
  rewrite (bind_lift _ _ _ tt) by (unfold c_assert; by rewrite (proj2 (Z.ltb_lt 0 sz)), (proj2 (Z.ltb_lt sz (chunk_size s))) by lia).
  rewrite (bind_lift _ _ _ tt).
  2:{ unfold c_assert, ALIGNED_SIZE, ALIGNED, ALIGNMENT. rewrite Z.rem_mod_nonneg by lia. pose proof (Z.mod_pos_bound sz 8 ltac:(lia)).
      pose proof (Z.mod_le sz 8 ltac:(lia) ltac:(lia)).
      destruct (Z.eqb_spec (sz mod 8) 0); [by rewrite (proj2 (Z.eqb_neq sz 0)) by lia|].
      by rewrite (proj2 (Z.eqb_neq (sz - sz mod 8 + 8) 0)) by lia. }
  revert s HI Hsz Hbig. induction fuel as [|fuel IH]; intros s HI Hsz Hbig; [by left|]. rewrite loopM_step.
  destruct (round_ok s B sz HI) as [(h & Hh & Hlt & E)|[E|(s1 & m & E & HI1 & Es1 & _)]]; rewrite E; [|by right|apply IH; [done|lia|lia]].
  exfalso. destruct (cur_header s B HI) as (h0 & Hh0 & Hnb). rewrite Hh in Hh0. injection Hh0 as <-. pose proof (count_nonneg s (cur s) B).
  destruct (inv_hdr _ _ HI _ _ Hh ltac:(lia)) as (Hnx & Hmx & _). unfold data in *. lia.
Qed.
End malloc.

(** ** [free] *)

(** What [free] leaves in the header of a chunk that goes on being used. *)
Definition freed_next (s : la) (h : chunk) (c p sz : Z) : Z := if (c =? cur s) && (p + sz =? next h) then next h - sz else next h.
Definition freed_mem (s : la) (p sz : Z) : Z -> Z := debug_fill (Z.to_nat (sz ÷ 4)) p 0 (mem s).

Lemma aligned_true p : p mod 8 = 0 -> 0 <= p -> ALIGNED p = true.
Proof. intros E Hp. unfold ALIGNED, ALIGNMENT. by rewrite Z.rem_mod_nonneg, E by lia. Qed.

Lemma free_run s B p bs h : inv s B -> B !! p = Some bs -> hdrs s !! home s p = Some h ->
  free p (len bs) s = Ok (tt, let c := home s p in
    if nb h - 1 =? 0 then with_free_chunks c (put s c (Chunk (free_chunks s) (max h) 0) (freed_mem s p (len bs)))
    else put s c (Chunk (freed_next s h c p (len bs)) (max h) (nb h - 1)) (freed_mem s p (len bs))).
Proof.
  intros HI Hp Hh. destruct (inv_chunks _ _ HI) as [F HO]. destruct (inv_block _ _ HI _ _ Hp) as (Hl & Hp8 & Hl8 & h' & Hh' & Hlo & Hhi).
  rewrite Hh in Hh'. injection Hh' as <-. destruct (chunk_multiple _ _ _ _ HO Hh) as [Hc0 _]. unfold data in Hlo.
  unfold free. rewrite (bind_lift _ _ _ tt).
  2:{ unfold c_assert, ALIGNED_SIZE. rewrite aligned_true by (done || lia). by rewrite (proj2 (Z.eqb_neq _ 0)) by lia. }
  rewrite (bind_lift _ _ _ tt) by (unfold c_assert; by rewrite aligned_true by (done || lia)).
  mnorm. rewrite (chunk_of_home s F) by done. set (c := home s p) in *.
  set (s0 := with_mem (freed_mem s p (len bs)) s).
  change ((modify ?f ≫= ?k) s) with (k tt (f s)). cbn beta. mnorm. unfold freed_next.
  change (with_mem (debug_fill (Z.to_nat (len bs ÷ 4)) p 0 (mem s)) s) with s0. change (cur s0) with (cur s).
  assert (Hh0 : hdrs s0 !! c = Some h) by done.
  destruct (Z.eqb_spec c (cur s)) as [Ec|Ec]; cbn [andb].
  - pose proof (inv_nb _ _ HI _ _ Hh) as Hnb. fold c in Hnb. rewrite (decide_True (P := c = cur s)) in Hnb by done.
    assert (Hn2 : nb h - 1 <> 0).
    { intros E. apply (count_zero s c B ltac:(lia) p bs Hp). done. }
    rewrite <- Ec, bind_assoc, (bind_hdr s0 c h _ ltac:(lia) Hh0).
    rewrite (proj2 (Z.eqb_neq (nb h - 1) 0)) by done. destruct (p + len bs =? next h).
    + change ((set_hdr c ?x ≫= ?k) s0) with (k tt (put s c x (mem s0))). cbn beta.
      rewrite (bind_hdr _ c (Chunk (next h - len bs) (max h) (nb h))) by (lia || (cbn; apply lookup_insert_eq)).
      change ((set_hdr c ?x ≫= ?k) ?y) with (k tt (with_hdrs (<[c := x]> (hdrs y)) y)). cbn [nb next max]. rewrite (proj2 (Z.eqb_neq (nb h - 1) 0)) by done.
      unfold mret, M_ret. do 2 f_equal. cbn [with_hdrs with_mem hdrs]. by rewrite insert_insert_eq.
    + rewrite bind_ret, (bind_hdr s0 c h _ ltac:(lia) Hh0).
      change ((set_hdr c ?x ≫= ?k) ?y) with (k tt (with_hdrs (<[c := x]> (hdrs y)) y)). cbn [nb next max]. by rewrite (proj2 (Z.eqb_neq (nb h - 1) 0)) by done.
  - rewrite bind_ret, (bind_hdr s0 c h _ ltac:(lia) Hh0).
    change ((set_hdr c ?x ≫= ?k) ?y) with (k tt (with_hdrs (<[c := x]> (hdrs y)) y)). cbn beta. cbn [nb next max].
    destruct (Z.eqb_spec (nb h - 1) 0) as [E|E]; [|done]. cbn [negb c_assert].
    rewrite (bind_lift _ _ _ tt) by done. unfold free_chunk. rewrite (bind_hdr _ c (Chunk (next h) (max h) (nb h - 1))) by (lia || (cbn; apply lookup_insert_eq)).
    mnorm. unfold set_hdr, modify, mbind, M_bind. do 2 f_equal. cbn [with_hdrs with_mem hdrs with_free_chunks max nb cur chunk_size chunks max_num_chunks num_chunks free_chunks mem].
    by rewrite insert_insert_eq, E.
Qed.

(** Freeing writes inside the block only. *)
Lemma freed_mem_out s p sz x : 0 < sz -> ~ p <= x < p + sz -> freed_mem s p sz x = mem s x.
Proof.
  intros Hsz Hx. apply debug_fill_out. pose proof (Z.quot_pos sz 4 ltac:(lia) ltac:(lia)).
  pose proof (Z.mul_quot_le sz 4 ltac:(lia) ltac:(lia)). lia.
Qed.

Lemma read_freed s B p bs q cs : inv s B -> B !! p = Some bs -> delete p B !! q = Some cs ->
  read (freed_mem s p (len bs)) q (length cs) = cs.
Proof.
  intros HI Hp Hq. apply lookup_delete_Some in Hq as [Hne Hq]. destruct (inv_block _ _ HI _ _ Hp) as (Hl & _).
  rewrite (read_ext (mem s)); [by apply (inv_mem _ _ HI)|]. intros x Hx. apply freed_mem_out; [done|].
  destruct (inv_apart _ _ HI _ _ _ _ Hp Hq Hne); unfold len in *; lia.
Qed.

(** The last block of a chunk that is not the current one goes, and the chunk with it. *)
Lemma inv_release s B p bs h m : inv s B -> B !! p = Some bs -> hdrs s !! home s p = Some h -> nb h = 1 ->
  (forall q cs, delete p B !! q = Some cs -> read m q (length cs) = cs) ->
  inv (with_free_chunks (home s p) (put s (home s p) (Chunk (free_chunks s) (max h) 0) m)) (delete p B).
Proof.
  intros HI Hp Hh E Hrd. set (c := home s p) in *. pose proof (inv_nb _ _ HI _ _ Hh) as Hnb. destruct (inv_chunks _ _ HI) as [F HO].
  pose proof (blocks_delete s c p bs B Hp) as Hcd. rewrite decide_True in Hcd by done. pose proof (count_nonneg s c (delete p B)) as Hcn.
  assert (Hcc : c <> cur s) by (intros Ec; rewrite decide_True in Hnb by done; lia). rewrite decide_False in Hnb by done.
  assert (Hno : forall q cs, delete p B !! q = Some cs -> home s q <> c) by (apply count_zero; lia).
  destruct (chunk_multiple _ _ _ _ HO Hh) as [Hc0 _].
  split; cbn [hdrs with_free_chunks with_mem with_hdrs cur mem].
  - exists (c :: F). assert (HcF : c ∉ F) by (intros Hin; pose proof (chain_nb _ _ _ _ _ (ok_chain _ _ HO) Hin Hh); lia).
    split; cbn [chunk_size chunks hdrs num_chunks max_num_chunks free_chunks with_free_chunks with_mem with_hdrs]; [by eapply ok_size|by eapply ok_area| |by eapply ok_num| | |].
    + intros d hd Hd. apply lookup_insert_Some in Hd as [[<- <-]|[_ Hd]]; by eapply ok_chunks.
    + split_and!; [done|lia|]. eexists. split; [apply lookup_insert_eq|]. split; [done|]. apply chain_insert; [done|by apply ok_chain].
    + constructor; [done|by eapply ok_nodup].
    + intros d hd Hd Hz. apply lookup_insert_Some in Hd as [[<- <-]|[_ Hd]]; [by left|right]. by eapply ok_free.
  - rewrite lookup_insert_ne by done. apply (inv_cur _ _ HI).
  - intros d hd Hd Hnd. apply lookup_insert_Some in Hd as [[<- <-]|[_ Hd]]; [done|]. by apply (inv_hdr _ _ HI).
  - intros d hd Hd. rewrite (count_ext s) by done. apply lookup_insert_Some in Hd as [[<- <-]|[Hdc Hd]].
    + rewrite decide_False by done. cbn [nb]. lia.
    + rewrite (blocks_delete s d p bs B Hp), (decide_False (P := home s p = d)) by done. rewrite Z.sub_0_r. by apply (inv_nb _ _ HI).
  - intros q cs Hq. change (home _ q) with (home s q). pose proof (Hno _ _ Hq) as Hqc. apply lookup_delete_Some in Hq as [_ Hq].
    destruct (inv_block _ _ HI _ _ Hq) as (?&?&?& hq & Hhq & ?&?). split_and!; [done..|]. exists hq. rewrite lookup_insert_ne by done. done.
  - intros q r cs ds [_ Hq]%lookup_delete_Some [_ Hr]%lookup_delete_Some. by apply (inv_apart _ _ HI).
  - done.
Qed.

Lemma free_ok s B p bs : inv s B -> B !! p = Some bs ->
  exists s', free p (len bs) s = Ok (tt, s') /\ inv s' (delete p B) /\ chunk_size s' = chunk_size s.
Proof.
  intros HI Hp. destruct (inv_block _ _ HI _ _ Hp) as (Hl & Hp8 & Hl8 & h & Hh & Hlo & Hhi).
  rewrite (free_run s B p bs h HI Hp Hh). set (c := home s p) in *. cbn zeta. fold c.
  pose proof (inv_nb _ _ HI _ _ Hh) as Hnb. fold c in Hnb. pose proof (blocks_delete s c p bs B Hp) as Hcd. rewrite decide_True in Hcd by done.
  pose proof (count_nonneg s c (delete p B)) as Hcn.
  assert (Hn : nb h <> 0) by (destruct (decide (c = cur s)); lia). destruct (inv_hdr _ _ HI _ _ Hh Hn) as (Hnx & Hmx & Hn8).
  eexists. split; [done|]. split; [|by destruct (nb h - 1 =? 0)]. destruct (Z.eqb_spec (nb h - 1) 0) as [E|E].
  { apply (inv_release s B p bs); [done|done|done|lia|]. intros q cs Hq. by eapply read_freed. }
  assert (Hfn : data c <= freed_next s h c p (len bs) <= next h /\ freed_next s h c p (len bs) mod 8 = 0).
  { unfold freed_next. destruct (Z.eqb_spec c (cur s)), (Z.eqb_spec (p + len bs) (next h)) as [E2|E2]; cbn [andb]; try (split; [lia|done]).
    split; [lia|]. by replace (next h - len bs) with p by lia. }
  destruct Hfn as [Hf1 Hf2].
  eapply inv_set; [done|exact Hh|done|done|cbn [next max]; lia|done|done| | | | |].
  - cbn [nb]. lia.
  - intros d Hd. rewrite (blocks_delete s d p bs B Hp), decide_False by (fold c; congruence). lia.
  - intros q cs Hq. left. apply lookup_delete_Some in Hq as [Hne Hq]. split; [done|]. intros Eq. cbn [next].
    destruct (inv_block _ _ HI _ _ Hq) as (Hlq & _ & _ & hq & Hhq & _ & Hle). rewrite Eq in Hhq. rewrite Hh in Hhq. injection Hhq as <-.
    unfold freed_next. destruct (Z.eqb_spec c (cur s)), (Z.eqb_spec (p + len bs) (next h)) as [E2|E2]; cbn [andb]; try lia.
    destruct (inv_apart _ _ HI _ _ _ _ Hp Hq Hne); lia.
  - intros q r cs ds [_ Hq]%lookup_delete_Some [_ Hr]%lookup_delete_Some. by apply (inv_apart _ _ HI).
  - intros q cs Hq. by eapply read_freed.
Qed.

(** ** [realloc] and writing *)
Lemma realloc_ok s B p bs nsz : inv s B -> B !! p = Some bs -> 0 < nsz -> nsz mod 8 = 0 -> is_int (nsz - len bs) ->
  realloc p (len bs) nsz s = Ok (false, s) \/
  exists s' bs', realloc p (len bs) nsz s = Ok (true, s') /\ len bs' = nsz /\ inv s' (<[p := bs']> B) /\ chunk_size s' = chunk_size s /\
    take (Nat.min (length bs) (length bs')) bs' = take (Nat.min (length bs) (length bs')) bs.
Proof.
  intros HI Hp Hn0 Hn8 Hint. destruct (inv_block _ _ HI _ _ Hp) as (Hl & Hp8 & Hl8 & h & Hh & Hlo & Hhi).
  destruct (inv_chunks _ _ HI) as [F HO]. unfold realloc. mnorm. rewrite (chunk_of_home s F) by done.
  destruct (Z.eqb_spec (home s p) (cur s)) as [Ec|Ec]; [|by left]. rewrite Ec in *.
  rewrite (bind_hdr s _ h _ (nonzero _ _ _ _ HI Hh) Hh). destruct (Z.eqb_spec (p + len bs) (next h)) as [En|En]; [|by left].
  rewrite (bind_lift _ _ _ _ (ck_ok _ Hint)). destruct (Z.ltb_spec (next h + (nsz - len bs)) (max h)) as [Hm|Hm]; [right|by left].
  set (bs' := read (mem s) p (Z.to_nat nsz)).
  assert (Hlen : length bs' = Z.to_nat nsz) by apply length_read. assert (Hlen' : len bs' = nsz) by (unfold len; lia).
  exists (put s (cur s) (Chunk (next h + (nsz - len bs)) (max h) (nb h)) (mem s)), bs'. split_and!; [done|done| |done|].
  2:{ rewrite <- (inv_mem _ _ HI _ _ Hp) at 3. unfold bs'. rewrite !take_read. f_equal. rewrite length_read. lia. }
  pose proof (inv_nb _ _ HI _ _ Hh) as Hnb. rewrite decide_True in Hnb by done. pose proof (count_nonneg s (cur s) B).
  destruct (inv_hdr _ _ HI _ _ Hh ltac:(lia)) as (Hnx & Hmx & _).
  assert (Hq : forall q cs, B !! q = Some cs -> q <> p -> home s q = cur s -> q + len cs <= p).
  { intros q cs Hq Hne Eq. destruct (inv_block _ _ HI _ _ Hq) as (Hlq & _ & _ & hq & Hhq & _ & Hle). rewrite Eq, Hh in Hhq. injection Hhq as <-.
    destruct (inv_apart _ _ HI _ _ _ _ Hq Hp Hne); lia. }
  eapply inv_set; [done|exact Hh|lia|cbn; lia|cbn [next max]; lia|done| | | | | |].
  - cbn [next]. replace (next h + (nsz - len bs)) with (p + nsz) by lia. by rewrite Z.add_mod, Hp8, Hn8 by lia.
  - cbn [nb]. by rewrite (blocks_update s _ p bs), decide_True by done.
  - intros d _. by apply (blocks_update s d p bs).
  - intros q cs Hqs. apply lookup_insert_Some in Hqs as [[<- <-]|[Hne Hqs]]; [right|left]; cbn [next].
    + rewrite Hlen'. split_and!; [done|done|done|done|done|lia].
    + split; [done|]. intros Eq. specialize (Hq _ _ Hqs ltac:(done) Eq). lia.
  - assert (Hside : forall r ds, B !! r = Some ds -> r <> p -> r + len ds <= p \/ p + nsz <= r).
    { intros r ds Hr Hne. destruct (decide (home s r = cur s)) as [Er|Er]; [left; by eapply Hq|].
      destruct (inv_apart _ _ HI _ _ _ _ Hr Hp Hne) as [?|?]; [by left|]. destruct (Z.le_gt_cases (p + nsz) r); [by right|exfalso].
      destruct (block_range _ _ _ _ HI Hr) as (hr & Hhr & _ & Hlr & Hhr2). destruct (inv_block _ _ HI _ _ Hr) as (Hlr0 & _).
      destruct (chunk_multiple _ _ _ _ HO Hh) as [_ Hcm]. destruct (chunk_multiple _ _ _ _ HO Hhr) as [_ Hrm]. destruct (size_pos _ _ HO) as [Hsp _].
      eapply (multiples_apart (chunk_size s) (cur s) (home s r) r); [lia|done|done|congruence|unfold data in *; lia|lia]. }
    intros q r cs ds Hqs Hrs Hne. apply lookup_insert_Some in Hqs, Hrs. destruct Hqs as [[<- <-]|[Hq1 Hqs]], Hrs as [[<- <-]|[Hr1 Hrs]]; [done| | |].
    + destruct (Hside _ _ Hrs ltac:(done)); lia.
    + destruct (Hside _ _ Hqs ltac:(done)); lia.
    + by eapply inv_apart.
  - intros q cs Hqs. apply lookup_insert_Some in Hqs as [[<- <-]|[_ Hqs]]; [by rewrite Hlen|by apply (inv_mem _ _ HI)].
Qed.

Lemma write_ok s B p bs i v : inv s B -> B !! p = Some bs -> 0 <= i < len bs ->
  inv (with_mem (fill (p + i) 1 (fun _ => v) (mem s)) s) (<[p := <[Z.to_nat i := v]> bs]> B).
Proof.
  intros HI Hp Hi. destruct (inv_block _ _ HI _ _ Hp) as (Hl & Hp8 & Hl8 & h & Hh & Hlo & Hhi).
  destruct (block_range _ _ _ _ HI Hp) as (h' & Hh' & Hn & _). rewrite Hh in Hh'. injection Hh' as <-. destruct (inv_hdr _ _ HI _ _ Hh Hn) as (Hnx & Hmx & Hn8).
  assert (Hlen : len (<[Z.to_nat i := v]> bs) = len bs) by (unfold len; by rewrite length_insert).
  assert (E : with_mem (fill (p + i) 1 (fun _ => v) (mem s)) s = put s (home s p) h (fill (p + i) 1 (fun _ => v) (mem s))).
  { unfold with_mem, with_hdrs. cbn. by rewrite insert_id. }
  rewrite E. eapply inv_set; [done|exact Hh|done|done|done|done|done| | | | |].
  - rewrite (blocks_update s _ p bs) by done. by apply (inv_nb _ _ HI).
  - intros d _. by apply (blocks_update s d p bs).
  - intros q cs Hq. apply lookup_insert_Some in Hq as [[<- <-]|[_ Hq]].
    + right. rewrite Hlen. split_and!; done.
    + left. split; [done|]. intros Eq. destruct (inv_block _ _ HI _ _ Hq) as (_ & _ & _ & hq & Hhq & _ & Hle). rewrite Eq, Hh in Hhq. by injection Hhq as <-.
  - intros q r cs ds Hq Hr Hne. apply lookup_insert_Some in Hq, Hr.
    destruct Hq as [[<- <-]|[_ Hq]], Hr as [[<- <-]|[_ Hr]]; rewrite ?Hlen; [done|by eapply inv_apart..].
  - intros q cs Hq. apply lookup_insert_Some in Hq as [[<- <-]|[Hne Hq]].
    + apply read_write; [by apply (inv_mem _ _ HI)|unfold len in *; lia].
    + rewrite (read_ext (mem s)); [by apply (inv_mem _ _ HI)|]. intros x Hx. apply fill_out.
      destruct (inv_apart _ _ HI _ _ _ _ Hp Hq Hne); unfold len in *; lia.
Qed.

(** ** Every operation *)
Section refinement.
Context `{ChunkLaws}.

Lemma bind_of_ok {A C} (m : M la A) (k : A -> M la C) s a s' : m s = Ok (a, s') -> (m ≫= k) s = k a s'.
Proof. apply M_bind_ok. Qed.

(** C22: the allocator implements a heap of blocks that hold what the client writes.  Every call of [malloc] for a multiple of 8 bytes that is less than the chunk size by more than the 24 bytes of a
    chunk's header, every [free] of a live block with its size, every [realloc] of one to a positive multiple of 8 bytes (the change fits an [int]) and every write into one returns, unless memory for
    chunks runs out, and does to the heap what [lspec] says: a new block is aligned, apart from all others and
    zero, freeing and growing leave the other blocks alone, and a grown block keeps its bytes.  Blocks stay apart, inside their chunks,
    and counted, so that a chunk goes to the free list exactly when its last block is freed and it is not the current one.  The chunk size is a power of two, at least 32 (the address
    mask of [free] asks for it, the comment only for a multiple of the page size), and chunks lie at multiples of it. *)
Theorem log_allocator_refines s B op : inv s B -> lmay (chunk_size s) op B ->
  (exists sz, op = LMalloc sz /\ run_lop op s = Stop Exited) \/
  exists r s' B', run_lop op s = Ok (r, s') /\ lspec op B r B' /\ inv s' B' /\ chunk_size s' = chunk_size s.
Proof.
  intros HI Hm. destruct op as [sz|p sz|p osz nsz|p i v]; cbn [lmay run_lop] in *.
  - destruct Hm as (Hsz & H8 & Hfit). destruct (log_malloc_ok s B sz 3 HI Hsz H8 Hfit ltac:(lia)) as [E|(p & s' & E & Hp & Hp8 & Hq & HI' & Es)].
    + left. exists sz. split; [done|]. by rewrite (M_bind_stop _ _ _ _ E).
    + right. eexists _, s', _. rewrite (bind_of_ok _ _ _ _ _ E). split; [done|]. split_and!; [by constructor|done|done].
  - right. destruct Hm as (bs & Hp & <-). destruct (free_ok s B p bs HI Hp) as (s' & E & HI' & Es).
    eexists _, s', _. rewrite (bind_of_ok _ _ _ _ _ E). split; [done|]. split_and!; [constructor|done|done].
  - right. destruct Hm as ((bs & Hp & <-) & Hn0 & Hn8 & Hint).
    destruct (realloc_ok s B p bs nsz HI Hp Hn0 Hn8 Hint) as [E|(s' & bs' & E & Hlen & HI' & Es & Ht)]; rewrite (bind_of_ok _ _ _ _ _ E).
    + exists (RBool false), s, B. split_and!; [done|constructor|done|done].
    + eexists _, s', _. split; [done|]. split_and!; [by econstructor|done|done].
  - right. destruct Hm as (bs & Hp & Hi). exists RUnit, (with_mem (fill (p + i) 1 (fun _ => v) (mem s)) s), (<[p := <[Z.to_nat i := v]> bs]> B).
    split_and!; [done|by constructor|by apply write_ok|done].
Qed.

(** The first chunk. *)
Lemma start_ok s c s' : chunks_ok s [] -> hdrs s = ∅ -> alloc_chunk s = Ok (c, s') -> inv (with_cur c s') ∅.
Proof.
  intros HO Hh E. destruct (alloc_chunk_ok s [] HO) as [E'|(c' & s2 & F' & E' & HO' & _ & Eh & _ & Es & _)]; [by rewrite E in E'|].
  rewrite E in E'. injection E' as <- <-. rewrite Hh in Eh. assert (Hc : hdrs s' !! c = Some (Chunk (data c) (c + chunk_size s) 1)) by by rewrite Eh, lookup_insert_eq.
  destruct (size_pos _ _ HO) as [Hsp _].
  assert (Hone : forall d hd, hdrs s' !! d = Some hd -> d = c /\ hd = Chunk (data c) (c + chunk_size s) 1).
  { intros d hd Hd. rewrite Eh in Hd. apply lookup_insert_Some in Hd as [[<- <-]|[_ Hd]]; [done|]. by apply lookup_empty_Some in Hd. }
  split; cbn [hdrs cur with_cur].
  - exists F'. by apply chunks_ok_cur.
  - by rewrite Hc.
  - intros d hd Hd _. destruct (Hone _ _ Hd) as [-> ->]. cbn [next max chunk_size with_cur]. rewrite Es.
    split_and!; [lia|unfold data; lia|done|by eapply chunk_aligned].
  - intros d hd Hd. destruct (Hone _ _ Hd) as [-> ->]. rewrite decide_True, count_none; done.
  - intros p bs Hp. by apply lookup_empty_Some in Hp.
  - intros p q bs cs Hp. by apply lookup_empty_Some in Hp.
  - intros p bs Hp. by apply lookup_empty_Some in Hp.
Qed.
End refinement.

(** * An instance: chunks from the list, then from the area *)
Definition with_num_chunks (n : Z) (s : la) : la :=
  LogAllocator (cur s) (chunk_size s) (chunks s) (max_num_chunks s) n (free_chunks s) (hdrs s) (mem s).

#[export] Instance list_then_area : ChunkSource :=
  fun s =>
    if free_chunks s =? 0 then
      if num_chunks s <? max_num_chunks s then
        let c := chunks s + num_chunks s * chunk_size s in
        Ok (c, with_num_chunks (num_chunks s + 1) (with_hdrs (<[c := Chunk (data c) (c + chunk_size s) 1]> (hdrs s)) s))
      else Stop Exited
    else
      let c := free_chunks s in
      match hdrs s !! c with
      | Some h => Ok (c, with_free_chunks (next h) (with_hdrs (<[c := Chunk (data c) (c + chunk_size s) 1]> (hdrs s)) s))
      | None => Stop Dangling
      end.

#[export] Instance list_then_area_laws : ChunkLaws.
Proof.
  intros s F HO. unfold alloc_chunk, list_then_area. destruct (size_pos _ _ HO) as [Hsp _]. destruct HO as [H1 H2 H3 H4 H5 H6 H7].
  destruct (Z.eqb_spec (free_chunks s) 0) as [E0|E0].
  - destruct F as [|d F]; [|exfalso; cbn in H5; destruct H5 as (? & ? & _); congruence].
    destruct (Z.ltb_spec (num_chunks s) (max_num_chunks s)) as [Hlt|]; [right|by left].
    set (c := chunks s + num_chunks s * chunk_size s).
    assert (Hc : hdrs s !! c = None).
    { destruct (hdrs s !! c) as [h|] eqn:E; [|done]. destruct (H3 _ _ E) as (i & Hi & Ei). unfold c in Ei. nia. }
    eexists c, _, []. split; [done|]. split_and!; try done; [|by left].
    split; cbn [chunk_size chunks hdrs num_chunks max_num_chunks free_chunks with_num_chunks with_hdrs]; [done|done| |lia|done|done|].
    + intros d hd Hd. apply lookup_insert_Some in Hd as [[<- <-]|[_ Hd]]; [exists (num_chunks s); split; [lia|done]|].
      destruct (H3 _ _ Hd) as (i & Hi & Ei). exists i. split; [lia|done].
    + intros d hd Hd Hz. apply lookup_insert_Some in Hd as [[<- <-]|[_ Hd]]; [done|by eapply H7].
  - destruct F as [|d F]; [done|]. destruct H5 as (Ef & Hd0 & hd & Hd & Hz & HC). rewrite Ef, Hd. right. apply NoDup_cons in H6 as [HdF HF].
    eexists d, _, F. split; [done|]. split_and!; try done; [|right; by left].
    split; cbn [chunk_size chunks hdrs num_chunks max_num_chunks free_chunks with_free_chunks with_hdrs]; [done|done| |done| |done|].
    + intros e he He. apply lookup_insert_Some in He as [[<- <-]|[_ He]]; by eapply H3.
    + by apply chain_insert.
    + intros e he He Hez. apply lookup_insert_Some in He as [[<- <-]|[Hne He]]; [done|]. specialize (H7 _ _ He Hez). set_solver.
Qed.

(** * Runs *)

(** An allocator with [nc] chunks of 64 bytes. *)
Definition small (nc : Z) : la := LogAllocator 0 64 4096 nc 0 0 ∅ (fun _ => 0).
Definition started (nc : Z) : res la := '(c, s) ← alloc_chunk (small nc); Ok (with_cur c s).

Lemma small_ok nc : 0 <= nc -> chunks_ok (small nc) [].
Proof.
  intros Hn. split; cbn; [exists 6; split; [lia|done]|split; [lia|done]|by intros c h Hc%lookup_empty_Some|lia|done|constructor|by intros c h Hc%lookup_empty_Some].
Qed.

(** [malloc(8)], [malloc(24)], the first freed, the second grown in vain (its chunk is not the current one any more). *)
Example small_run : (s ← started 2; '(a, s) ← malloc 3 8 s; '(b, s) ← malloc 3 24 s; '(c, s) ← malloc 3 16 s;
  '(g, s) ← realloc b 24 32 s; '(_, s) ← free a 8 s; '(_, s) ← free b 24 s; Ok (a, b, c, g, free_chunks s, nb <$> hdrs s !! 4096, nb <$> hdrs s !! 4160))
  = Ok (4120, 4128, 4184, false, 4096, Some 0, Some 2).
Proof. vm_compute. reflexivity. Qed.

(** The assertion on [ALIGNED_SIZE] is true for every size.  A block of five bytes is handed out, the next one is not aligned, and [free] aborts on it. *)
Example unaligned_size : (s ← started 2; '(a, s) ← malloc 3 5 s; '(b, s) ← malloc 3 8 s; Ok (a, b, match free b 8 s with Ok _ => None | Stop f => Some f end))
  = Ok (4120, 4125, Some AssertFailed).
Proof. vm_compute. reflexivity. Qed.

Lemma log_allocator_refines_witness :
  exists s c s' r s2 B', alloc_chunk s = Ok (c, s') /\ run_lop (LMalloc 16) (with_cur c s') = Ok (r, s2) /\
    lspec (LMalloc 16) ∅ r B' /\ inv s2 B'.
Proof.
  exists (small 2), 4096. eexists. destruct (log_allocator_refines (with_cur 4096 (with_num_chunks 1 (with_hdrs (<[4096 := Chunk (data 4096) (4096 + 64) 1]> (hdrs (small 2))) (small 2)))) ∅ (LMalloc 16))
    as [(sz & _ & E)|(r & s2 & B' & E & HS & HI & _)].
  - eapply (start_ok (small 2)); [by apply small_ok|done|done].
  - split_and!; reflexivity.
  - exfalso. vm_compute in E. discriminate.
  - exists r, s2, B'. split; [done|]. split; [exact E|]. by split.
Defined.

Lemma log_malloc_spins_witness :
  exists s, started 2 = Ok s /\ (malloc 1000 40 s = Stop OutOfFuel \/ malloc 1000 40 s = Stop Exited).
Proof.
  eexists. split; [reflexivity|]. apply (log_malloc_spins _ ∅ 40 1000); [|cbn; lia|cbn; lia].
  eapply (start_ok (small 2)); [by apply small_ok|done|done].
Defined.

(** It does spin: the first chunk is empty and is started again in every round. *)
Example spins_at_once : (s ← started 2; Ok (match malloc 1000 40 s with Ok _ => None | Stop f => Some f end)) = Ok (Some OutOfFuel).
Proof. vm_compute. reflexivity. Qed.
