(* ===== verification/KMax.v ===== *)
(** The selection of src/deps/libbyz/K_max.h: the [k]-th largest value of a vector, by going down from the largest. *)
From S2P Require Import Prelude.
#[local] Open Scope Z_scope.

(** * The code *)
Section code.
Context (vector : list Z) (n : Z).

(** The body of the inner loop on [cv]. *)
Definition kmax_look (last_max cv : Z) (x : Z * Z) : res (Z * Z) :=
  let '(cur_max, cur_count) := x in
  if cv =? cur_max then c ← ck (cur_count + 1); Ok (cur_max, c)
  else if cur_max <? cv then if cv <? last_max then Ok (cv, 1) else Ok (cur_max, cur_count)
  else Ok (cur_max, cur_count).
Fixpoint kmax_scan (todo : nat) (i last_max : Z) (x : Z * Z) : res (Z * Z) :=
  match todo with
  | O => Ok x
  | S todo => cv ← aget vector i; x ← kmax_look last_max cv x; kmax_scan todo (i + 1) last_max x
  end.

(** The state of the outer loop: [last_max], [last_count] and [cur_max], whose count is 0. *)
Definition kmax_round (k : Z) (x : Z * Z * Z) : res (Z * Z * Z + Z) :=
  let '(last_max, last_count, cur_max) := x in
  if last_count <? k then
    r ← kmax_scan (Z.to_nat n) 0 last_max (cur_max, 0);
    c ← ck (last_count + r.2);
    Ok (inl (r.1, c, 0))
  else Ok (inr last_max).
Definition K_max (fuel : nat) (k tmax : Z) : res Z := loop fuel (kmax_round k) (tmax, 0, -1).
End code.

(** * Specification *)

(** How many values are not below [r]. *)
Definition not_below (r : Z) (v : list Z) : Z := Z.of_nat (length (filter (fun x => r <= x) v)).
Definition equal_to (r : Z) (v : list Z) : Z := Z.of_nat (length (filter (fun x => x = r) v)).

Section counts.
Lemma not_below_cons r x v : not_below r (x :: v) = not_below r v + (if decide (r <= x) then 1 else 0).
Proof. unfold not_below. rewrite filter_cons. destruct (decide (r <= x)); cbn [length]; lia. Qed.

Lemma equal_to_snoc r v x : equal_to r (v ++ [x]) = equal_to r v + (if decide (x = r) then 1 else 0).
Proof. unfold equal_to. rewrite filter_app, filter_cons, filter_nil, length_app. destruct (decide (x = r)); cbn [length]; lia. Qed.

Lemma equal_to_none r v : (forall x, x ∈ v -> x <> r) -> equal_to r v = 0.
Proof. intros Hv. unfold equal_to. rewrite filter_none; [done|]. by apply Forall_forall. Qed.

Lemma equal_to_in r v : r ∈ v -> 0 < equal_to r v.
Proof.
  intros Hr. unfold equal_to. destruct (filter _ v) as [|y l] eqn:E; [|cbn; lia].
  assert (Hin : r ∈ filter (fun x => x = r) v) by by apply list_elem_of_filter. rewrite E in Hin. by apply not_elem_of_nil in Hin.
Qed.

Lemma not_below_le r v : 0 <= not_below r v <= Z.of_nat (length v).
Proof. unfold not_below. pose proof (length_filter (fun x => r <= x) v). lia. Qed.

(** Nothing lies between the values [m] and [l]. *)
Lemma not_below_step m l v : m < l -> (forall x, x ∈ v -> x < l -> x <= m) -> not_below m v = not_below l v + equal_to m v.
Proof.
  intros Hml. induction v as [|x v IH]; intros Hv; [done|]. rewrite !not_below_cons, IH by (intros y Hy; apply Hv; by right).
  unfold equal_to. rewrite filter_cons. specialize (Hv x ltac:(by left)).
  destruct (decide (m <= x)), (decide (l <= x)), (decide (x = m)); cbn [length]; lia.
Qed.
End counts.

Section correct.
Context (v : list Z) (tmax : Z) (Hrange : forall x, x ∈ v -> 0 <= x < tmax) (Hlen : Z.of_nat (length v) <= INT_MAX).

(** What the inner loop knows of the values [pre] it has seen. *)
Record seen (pre : list Z) (l m0 m c : Z) : Prop := {
  seen_from : m = m0 \/ m ∈ pre /\ m < l;
  seen_max x : x ∈ pre -> x < l -> x <= m;
  seen_count : c = equal_to m pre
}.

Lemma kmax_scan_run l m0 pre todo m c : v = pre ++ drop (length pre) v -> length v = (length pre + todo)%nat -> (m0 < 0 \/ m0 < l) -> seen pre l m0 m c ->
  exists m' c', kmax_scan v todo (Z.of_nat (length pre)) l (m, c) = Ok (m', c') /\ seen v l m0 m' c'.
Proof.
  revert pre m c. induction todo as [|todo IH]; intros pre m c Ev Hl Hm0 HS; cbn [kmax_scan].
  - rewrite drop_ge, app_nil_r in Ev by lia. rewrite Ev. by exists m, c.
  - destruct (lookup_lt_is_Some_2 v (length pre) ltac:(lia)) as [cv Hcv]. rewrite (aget_nat _ _ _ Hcv). cbn [mbind res_bind].
    rewrite (drop_S _ _ _ Hcv) in Ev. pose proof (Hrange cv (list_elem_of_lookup_2 _ _ _ Hcv)) as Hr.
    assert (Hstep : exists m' c', kmax_look l cv (m, c) = Ok (m', c') /\ seen (pre ++ [cv]) l m0 m' c').
    { destruct HS as [Hfrom Hmax ->]. unfold kmax_look. destruct (Z.eqb_spec cv m) as [->|Hne]; [|destruct (Z.ltb_spec m cv) as [Hlt|Hge]; [destruct (Z.ltb_spec cv l) as [Hl'|Hl']|]].
      - assert (Hc : equal_to m pre + 1 <= INT_MAX).
        { unfold equal_to. pose proof (length_filter (fun x => x = m) pre). lia. }
        rewrite ck_ok by (unfold is_int, INT_MIN, equal_to in *; lia). eexists _, _. split; [done|]. split.
        + destruct Hfrom as [->|[Hin Hlt]]; [by left|right; split; [set_solver|done]].
        + intros x [Hx| ->%list_elem_of_singleton]%elem_of_app Hxl; [by apply Hmax|lia].
        + rewrite equal_to_snoc, decide_True by done. done.
      - eexists _, _. split; [done|]. split.
        + right. split; [set_solver|done].
        + intros x [Hx| ->%list_elem_of_singleton]%elem_of_app Hxl; [specialize (Hmax x Hx Hxl); lia|lia].
        + rewrite equal_to_snoc, decide_True, equal_to_none; [done| |done]. intros x Hx ->. specialize (Hmax cv Hx Hl'). lia.
      - eexists _, _. split; [done|]. split.
        + destruct Hfrom as [->|[Hin Hlt']]; [by left|right; split; [set_solver|done]].
        + intros x [Hx| ->%list_elem_of_singleton]%elem_of_app Hxl; [by apply Hmax|lia].
        + rewrite equal_to_snoc, decide_False by done. lia.
      - eexists _, _. split; [done|]. split.
        + destruct Hfrom as [->|[Hin Hlt']]; [by left|right; split; [set_solver|done]].
        + intros x [Hx| ->%list_elem_of_singleton]%elem_of_app Hxl; [by apply Hmax|lia].
        + rewrite equal_to_snoc, decide_False by done. lia. }
    destruct Hstep as (m' & c' & E & HS'). rewrite E. cbn [mbind res_bind].
    replace (Z.of_nat (length pre) + 1) with (Z.of_nat (length (pre ++ [cv]))) by (rewrite length_app; cbn; lia).
    apply IH; [|rewrite length_app; cbn; lia|done|done]. rewrite length_app, <- app_assoc. cbn. by rewrite Nat.add_1_r.
Qed.

(** The [k]-th largest value. *)
Definition is_kth (k r : Z) : Prop := r ∈ v /\ k <= not_below r v /\ not_below (r + 1) v < k.

Lemma some_below l k : not_below l v < k <= Z.of_nat (length v) -> exists x, x ∈ v /\ x < l.
Proof.
  intros Hk. destruct (decide (Exists (fun x => x < l) v)) as [He|Hn]; [by apply Exists_exists in He|exfalso].
  apply not_Exists_Forall in Hn; [|intros; apply _]. unfold not_below in Hk. rewrite filter_all in Hk; [lia|]. eapply Forall_impl; [exact Hn|]. cbn. lia.
Qed.

(** A round steps down to the next smaller value. *)
Lemma kmax_round_run k l m0 : not_below l v < k <= Z.of_nat (length v) -> m0 = -1 \/ m0 = 0 ->
  exists m, kmax_round v (Z.of_nat (length v)) k (l, not_below l v, m0) = Ok (inl (m, not_below m v, 0)) /\
    m ∈ v /\ not_below l v < not_below m v /\ not_below (m + 1) v = not_below l v.
Proof.
  intros Hk Hm0. destruct (some_below l k Hk) as (x & Hx & Hxl). pose proof (Hrange x Hx) as Hx0. unfold kmax_round. rewrite (proj2 (Z.ltb_lt _ _)) by lia.
  destruct (kmax_scan_run l m0 [] (length v) m0 0) as (m & c & E & [Hfrom Hmax Hc]); [done|done|lia|split; [by left|intros y Hy; by apply not_elem_of_nil in Hy|done]|].
  rewrite Nat2Z.id. change (Z.of_nat (length [])) with 0 in E. rewrite E. cbn [mbind res_bind fst snd].
  assert (Hm : m ∈ v /\ m < l).
  { destruct Hfrom as [->|?]; [|done]. pose proof (Hmax x Hx Hxl). assert (x = m0) as -> by lia. done. }
  destruct Hm as [Hm Hml]. pose proof (not_below_step m l v Hml (fun y Hy => Hmax y Hy)) as Es. pose proof (equal_to_in m v Hm). pose proof (not_below_le m v).
  rewrite Hc, <- Es, ck_ok by (unfold is_int, INT_MIN; lia). exists m. split; [done|]. split; [done|]. split; [lia|].
  pose proof (not_below_step m (m + 1) v ltac:(lia) ltac:(lia)). lia.
Qed.

Lemma kmax_loop fuel k l m0 : k <= Z.of_nat (length v) -> m0 = -1 \/ m0 = 0 -> l ∈ v \/ not_below l v < k -> not_below (l + 1) v < k ->
  (Z.to_nat (k - not_below l v) < fuel)%nat -> exists r, loop fuel (kmax_round v (Z.of_nat (length v)) k) (l, not_below l v, m0) = Ok r /\ is_kth k r.
Proof.
  intros Hk. revert l m0. induction fuel as [|fuel IH]; intros l m0 Hm0 Hl Hup Hf; [lia|]. rewrite loop_step.
  destruct (Z.ltb_spec (not_below l v) k) as [Hlt|Hge].
  - destruct (kmax_round_run k l m0 ltac:(lia) Hm0) as (m & E & Hm & Hless & Hsame). rewrite E. apply IH; [by right|by left|lia|lia].
  - unfold kmax_round. rewrite (proj2 (Z.ltb_ge _ _)) by lia. exists l. split; [done|]. split; [|done]. destruct Hl; [done|lia].
Qed.
End correct.

(** For values that are not negative and below [tmax] and [k] of them at most, [K_max] ends and gives the [k]-th largest value: one of the vector, with [k] values or more that are not below it
    and fewer that are above it. *)
Theorem K_max_correct v tmax k fuel : (forall x, x ∈ v -> 0 <= x < tmax) -> Z.of_nat (length v) <= INT_MAX -> 1 <= k <= Z.of_nat (length v) ->
  (Z.to_nat k < fuel)%nat -> exists r, K_max v (Z.of_nat (length v)) fuel k tmax = Ok r /\ is_kth v k r.
Proof.
  intros Hr Hlen Hk Hf. unfold K_max.
  assert (E : forall t, tmax <= t -> not_below t v = 0).
  { intros t Ht. unfold not_below. rewrite filter_none; [done|]. apply Forall_forall. intros x Hx. specialize (Hr x Hx). lia. }
  pose proof (E tmax ltac:(lia)) as E0. pose proof (E (tmax + 1) ltac:(lia)) as E1. pose proof (kmax_loop v tmax Hr Hlen fuel k tmax (-1)) as HL. rewrite E0, E1 in HL.
  apply HL; [lia|by left|right; lia|lia|lia].
Qed.

Lemma K_max_correct_witness : K_max [3; 7; 7; 0; 5] 5 6 3 100 = Ok 5 /\ is_kth [3; 7; 7; 0; 5] 3 5.
Proof.
  destruct (K_max_correct [3; 7; 7; 0; 5] 100 3 6) as (r & E & Hr).
  - intros x Hx. rewrite !elem_of_cons, elem_of_nil in Hx. lia.
  - cbn. unfold INT_MAX. lia.
  - cbn. lia.
  - lia.
  - change (Z.of_nat (length [3; 7; 7; 0; 5])) with 5 in E. assert (Er : r = 5) by (vm_compute in E; congruence). subst r. by split.
Defined.

(** A value that is [tmax], or a negative one as the [v] of an empty slot is, is not counted from the second round on: the loop goes on for ever. *)
Lemma kmax_stands vector n k x fuel : kmax_round vector n k x = Ok (inl x) -> loop fuel (kmax_round vector n k) x = Stop OutOfFuel.
Proof. intros E. induction fuel as [|fuel IH]; [done|]. by rewrite loop_step, E. Qed.

Lemma kmax_spins fuel : K_max [100; 100] 2 fuel 1 100 = Stop OutOfFuel /\ K_max [5; -1] 2 fuel 2 100 = Stop OutOfFuel.
Proof.
  unfold K_max. split.
  - destruct fuel as [|[|fuel]]; [done..|]. rewrite loop_step. change (kmax_round [100; 100] 2 1 (100, 0, -1)) with (@Ok (Z * Z * Z + Z) (inl (-1, 0, 0))). cbn match.
    rewrite loop_step. change (kmax_round [100; 100] 2 1 (-1, 0, 0)) with (@Ok (Z * Z * Z + Z) (inl (0, 0, 0))). by apply kmax_stands.
  - destruct fuel as [|[|fuel]]; [done..|]. rewrite loop_step. change (kmax_round [5; -1] 2 2 (100, 0, -1)) with (@Ok (Z * Z * Z + Z) (inl (5, 1, 0))). cbn match.
    rewrite loop_step. change (kmax_round [5; -1] 2 2 (5, 1, 0)) with (@Ok (Z * Z * Z + Z) (inl (0, 1, 0))). by apply kmax_stands.
Qed.
