(* ===== verification/GcBig.v ===== *)
(** The arena for big objects of src/deps/sfslite-1.2/sp_gc.h and sp_gc_impl.h: objects grow from the bottom of the arena, the
    slots that point to them from the top; a collection moves the live objects together and reseats their slots.  [T] is
    [memptr_t] and [G] is [nil::gc_ptr_t], whose members do nothing.

    Memory is what lies at addresses: the headers [bigslot_t] and the slots [bigptr_t] that are whole, and single bytes; writing
    over a part of one of them destroys it, and a check or a read of what is destroyed stops.  An address that is freed or fresh has no known byte. *)
From S2P Require Import Prelude.
#[local] Open Scope Z_scope.

(** * The stack of free slots *)
Section stack.
Context {A : Type}.
(** [None] is an element that [New T [n]] has not set. *)
Record simple_stack : Type := Stack { _base : list (option A); _nxt : Z; _size : Z }.
Definition defsize : nat := 16.
Definition stack_new : simple_stack := Stack (replicate defsize None) 0 (Z.of_nat defsize).
Definition stack_clear (st : simple_stack) : simple_stack := Stack (_base st) 0 (_size st).
(** The loop of [reserve]. *)
Fixpoint stack_copy (n : nat) (i : Z) (b nb : list (option A)) : res (list (option A)) :=
  match n with O => Ok nb | S n => x ← aget b i; nb ← aset nb i x; stack_copy n (i + 1) b nb end.
Definition stack_reserve (st : simple_stack) : res simple_stack :=
  if _nxt st =? _size st then
    let newsz := u64 (_size st * 2) in
    nb ← stack_copy (Z.to_nat (_nxt st)) 0 (_base st) (replicate (Z.to_nat newsz) None);
    Ok (Stack nb (_nxt st) newsz)
  else Ok st.
Definition push_back (t : A) (st : simple_stack) : res simple_stack :=
  st ← stack_reserve st;
  c_assert (_nxt st <? _size st);;
  b ← aset (_base st) (_nxt st) (Some t);
  Ok (Stack b (_nxt st + 1) (_size st)).
Definition stack_read (b : list (option A)) (i : Z) : res A := x ← aget b i; match x with Some a => Ok a | None => Stop Uninit end.
Definition pop_back (st : simple_stack) : res (A * simple_stack) :=
  c_assert (0 <? _nxt st);;
  x ← stack_read (_base st) (_nxt st - 1);
  Ok (x, Stack (_base st) (_nxt st - 1) (_size st)).
Definition back (st : simple_stack) : res A := c_assert (0 <? _nxt st);; stack_read (_base st) (_nxt st - 1).
Definition stack_at (st : simple_stack) (s : Z) : res A := c_assert (s <? _nxt st);; stack_read (_base st) s.
Definition n_elem (st : simple_stack) : Z := _nxt st.

(** The stack holds [l], the last element on top. *)
Record is_stack (st : simple_stack) (l : list A) : Prop := {
  stk_nxt : _nxt st = Z.of_nat (length l);
  stk_size : _size st = Z.of_nat (length (_base st)) /\ 0 < _size st;
  stk_take : take (length l) (_base st) = Some <$> l
}.

Lemma stk_fits st l : is_stack st l -> (length l <= length (_base st))%nat.
Proof. intros [_ _ Ht]. apply (f_equal length) in Ht. rewrite length_take, length_fmap in Ht. lia. Qed.

Lemma stack_new_ok : is_stack stack_new [].
Proof. split; [done|split; reflexivity|done]. Qed.

Lemma stack_clear_ok st l : is_stack st l -> is_stack (stack_clear st) [].
Proof. intros [_ Hs _]. by split. Qed.

Lemma stack_copy_ok n i b nb : (i + n <= length b)%nat -> (length b <= length nb)%nat -> take i nb = take i b ->
  exists nb', stack_copy n (Z.of_nat i) b nb = Ok nb' /\ length nb' = length nb /\ take (i + n) nb' = take (i + n) b.
Proof.
  revert i nb. induction n as [|n IH]; intros i nb Hb Hnb Ht; [exists nb; by rewrite Nat.add_0_r|].
  cbn [stack_copy]. destruct (lookup_lt_is_Some_2 b i ltac:(lia)) as [x Hx]. rewrite (aget_nat _ _ _ Hx). cbn [mbind res_bind]. rewrite aset_nat by lia. cbn [mbind res_bind].
  replace (Z.of_nat i + 1) with (Z.of_nat (S i)) by lia.
  destruct (IH (S i) (<[i := x]> nb)) as (nb' & E & Hl & Ht'); [lia|by rewrite length_insert| |].
  - rewrite !take_S_r with (x := x); [|done|by rewrite list_lookup_insert_eq by lia]. f_equal. by rewrite take_insert_ge by lia.
  - exists nb'. rewrite E, Hl, length_insert. replace (i + S n)%nat with (S i + n)%nat by lia. done.
Qed.

Lemma stack_reserve_ok st l : is_stack st l -> _size st * 2 < 2 ^ 64 ->
  exists st', stack_reserve st = Ok st' /\ is_stack st' l /\ _nxt st' < _size st'.
Proof.
  intros HS Hsz. pose proof (stk_fits _ _ HS) as Hf. destruct HS as [Hn [Hs Hs0] Ht]. unfold stack_reserve.
  destruct (Z.eqb_spec (_nxt st) (_size st)) as [E|E].
  - unfold u64. rewrite Z.mod_small by lia.
    destruct (stack_copy_ok (Z.to_nat (_nxt st)) 0 (_base st) (replicate (Z.to_nat (_size st * 2)) None)) as (nb & En & Hl & Ht'); [lia|rewrite length_replicate; lia|done|].
    change (Z.of_nat 0) with 0 in En. rewrite En. cbn [mbind res_bind]. eexists. split; [done|]. rewrite length_replicate in Hl. split; [|cbn; lia].
    split; cbn [_nxt _size _base]; [done|lia|]. rewrite Hn, Nat2Z.id in Ht'. cbn in Ht'. by rewrite Ht'.
  - exists st. split; [done|]. split; [by split|]. lia.
Qed.

Lemma push_back_ok t st l : is_stack st l -> _size st * 2 < 2 ^ 64 -> exists st', push_back t st = Ok st' /\ is_stack st' (l ++ [t]).
Proof.
  intros HS Hsz. unfold push_back. destruct (stack_reserve_ok st l HS Hsz) as (st1 & E & [Hn [Hs Hs0] Ht] & Hlt). rewrite E. cbn [mbind res_bind].
  rewrite (proj2 (Z.ltb_lt _ _)) by done. cbn [c_assert mbind res_bind]. rewrite Hn, aset_nat by lia. cbn [mbind res_bind].
  eexists. split; [done|]. split; cbn [_nxt _size _base]; [rewrite length_app; cbn; lia|by rewrite length_insert|].
  rewrite length_app. cbn [length]. rewrite Nat.add_1_r, take_S_r with (x := Some t) by by rewrite list_lookup_insert_eq by lia.
  rewrite take_insert_ge by lia. by rewrite Ht, fmap_app.
Qed.

Lemma top_read st l x : is_stack st (l ++ [x]) -> stack_read (_base st) (_nxt st - 1) = Ok x.
Proof.
  intros HS. pose proof (stk_fits _ _ HS) as Hf. destruct HS as [Hn Hs Ht]. rewrite length_app in *. cbn [length] in *. unfold stack_read.
  replace (_nxt st - 1) with (Z.of_nat (length l)) by lia.
  assert (E : _base st !! length l = Some (Some x)).
  { rewrite <- (lookup_take_lt _ (length l + 1)) by lia. rewrite Ht, fmap_app, lookup_app_r; rewrite length_fmap; [|done]. by rewrite Nat.sub_diag. }
  by rewrite (aget_nat _ _ _ E).
Qed.

Lemma stack_pop_ok st l x : is_stack st (l ++ [x]) -> exists st', pop_back st = Ok (x, st') /\ is_stack st' l.
Proof.
  intros HS. unfold pop_back. rewrite (top_read st l x HS). pose proof (stk_fits _ _ HS) as Hf. destruct HS as [Hn Hs Ht]. rewrite length_app in *. cbn [length] in *.
  rewrite (proj2 (Z.ltb_lt _ _)) by lia. cbn [c_assert mbind res_bind]. eexists. split; [done|]. split; cbn [_nxt _size _base]; [lia|done|].
  apply (f_equal (take (length l))) in Ht. rewrite take_take, fmap_app, take_app_length' in Ht by (by rewrite length_fmap). by rewrite Nat.min_l in Ht by lia.
Qed.

Lemma back_ok st l x : is_stack st (l ++ [x]) -> back st = Ok x.
Proof.
  intros HS. unfold back. rewrite (top_read st l x HS). destruct HS as [Hn _ _]. rewrite length_app in Hn. cbn [length] in Hn.
  by rewrite (proj2 (Z.ltb_lt _ _)) by lia.
Qed.
End stack.
Arguments simple_stack A : clear implicits.

(** * The code *)

(** [boa_obj_align] is in a source that is not there. *)
Class ObjAlign := boa_obj_align : Z -> Z.
Class ObjAlignLaws `{!ObjAlign} : Prop := align_up n : n <= boa_obj_align n.

(** [bigslot_t] with its magic in order: its links are the list [memslots], its data lie at offset 41 behind the byte of [_gcp]. *)
Record bigslot : Type := Slot { _sz : Z; _ptrslot : Z }.
Definition sizeof_bigslot : Z := 48.
Definition off_data : Z := 41.
Record bigptr : Type := Ptr { _ms : Z; _count : Z }.
Definition sizeof_bigptr : Z := 24.

Record arena : Type := Arena {
  abase : Z;
  asz : Z;
  top : Z;
  nxt_ptrslot : Z;
  nxt_memslot : Z;
  memslots : list Z;
  free_ptrslots : simple_stack Z;
  unclaimed_space : Z;
  slots : gmap Z bigslot;
  ptrs : gmap Z bigptr;
  mem : Z -> option Z
}.

Definition with_nxt (np nm : Z) (s : arena) : arena :=
  Arena (abase s) (asz s) (top s) np nm (memslots s) (free_ptrslots s) (unclaimed_space s) (slots s) (ptrs s) (mem s).
Definition with_memslots (l : list Z) (s : arena) : arena :=
  Arena (abase s) (asz s) (top s) (nxt_ptrslot s) (nxt_memslot s) l (free_ptrslots s) (unclaimed_space s) (slots s) (ptrs s) (mem s).
Definition with_free (st : simple_stack Z) (s : arena) : arena :=
  Arena (abase s) (asz s) (top s) (nxt_ptrslot s) (nxt_memslot s) (memslots s) st (unclaimed_space s) (slots s) (ptrs s) (mem s).
Definition with_unclaimed (n : Z) (s : arena) : arena :=
  Arena (abase s) (asz s) (top s) (nxt_ptrslot s) (nxt_memslot s) (memslots s) (free_ptrslots s) n (slots s) (ptrs s) (mem s).
Definition with_memory (sl : gmap Z bigslot) (pt : gmap Z bigptr) (m : Z -> option Z) (s : arena) : arena :=
  Arena (abase s) (asz s) (top s) (nxt_ptrslot s) (nxt_memslot s) (memslots s) (free_ptrslots s) (unclaimed_space s) sl pt m.

(** ** Memory *)

(** What lies at [a] and is [e] long meets the [n] bytes from [p] on. *)
Definition meets (a e p n : Z) : Prop := a < p + n /\ p < a + e.
#[export] Instance meets_dec a e p n : Decision (meets a e p n).
Proof. unfold meets. apply _. Defined.

(** The headers and slots that are left when the [n] bytes from [p] on are written. *)
Definition slots_but (p n : Z) (s : arena) : gmap Z bigslot := filter (fun al => ~ meets al.1 off_data p n) (slots s).
Definition ptrs_but (p n : Z) (s : arena) : gmap Z bigptr := filter (fun al => ~ meets al.1 sizeof_bigptr p n) (ptrs s).
Definition setb (p n : Z) (f : Z -> option Z) (m : Z -> option Z) : Z -> option Z :=
  fun x => if bool_decide (p <= x < p + n) then f (x - p) else m x.

Definition store (p n : Z) (f : Z -> option Z) (s : arena) : arena :=
  with_memory (slots_but p n s) (ptrs_but p n s) (setb p n f (mem s)) s.
(** The bytes from [p] on are not known any more; [mark_deallocated] and [mark_unitialized] may put anything there. *)
Definition forget (p n : Z) (s : arena) : arena := store p n (fun _ => None) s.
Definition memmove (dst src n : Z) (s : arena) : arena := store dst n (fun i => mem s (src + i)) s.
Definition poke (a v : Z) (s : arena) : arena := store a 1 (fun _ => Some v) s.
Definition put_slot (m : Z) (sl : bigslot) (s : arena) : arena :=
  let s := forget m off_data s in with_memory (<[m := sl]> (slots s)) (ptrs s) (mem s) s.
Definition put_ptr (h : Z) (p : bigptr) (s : arena) : arena :=
  let s := forget h sizeof_bigptr s in with_memory (slots s) (<[h := p]> (ptrs s)) (mem s) s.
(** [check ()], and the fields of what is there. *)
Definition slot (m : Z) : M arena bigslot := fun s => match slots s !! m with Some sl => Ok (sl, s) | None => Stop Dangling end.
Definition ptr (h : Z) : M arena bigptr := fun s => match ptrs s !! h with Some p => Ok (p, s) | None => Stop Dangling end.
Definition set_ptr (h : Z) (p : bigptr) : M arena unit := ptr h;; modify (fun s => with_memory (slots s) (<[h := p]> (ptrs s)) (mem s) s).
Definition assertM (b : bool) : M arena unit := lift (c_assert b).

Section code.
Context `{!ObjAlign}.

(** ** Slots *)
Definition bigslot_size (s : Z) : Z := u64 (boa_obj_align s + sizeof_bigslot).
Definition slot_size (m : Z) : M arena Z := sl ← slot m; mret (bigslot_size (_sz sl)).
Definition bigslot_new (m sz h : Z) : M arena unit := modify (put_slot m (Slot sz h));; modify (forget (m + off_data) sz).
(** Between the two writes into the new header, [m] is read again. *)
Definition copy_reinit (ns m : Z) : M arena unit :=
  sl ← slot m;
  (if ns =? m then mret tt else modify (forget ns off_data));;
  sl' ← slot m;
  modify (put_slot ns (Slot (_sz sl') (_ptrslot sl)));;
  sl'' ← slot m;
  modify (memmove (ns + off_data) (m + off_data) (_sz sl'')).
Definition reseat (m : Z) : M arena unit := sl ← slot m; p ← ptr (_ptrslot sl); set_ptr (_ptrslot sl) (Ptr m (_count p)).

(** ** The arena *)
Definition arena_init (base sz : Z) : arena :=
  Arena base sz (base + sz) (base + sz - sizeof_bigptr) base [] stack_new 0 ∅ ∅ (fun _ => None).
Definition free_space (s : arena) : Z := if nxt_memslot s <? nxt_ptrslot s then nxt_ptrslot s - nxt_memslot s else 0.
Definition can_fit (sz : Z) (s : arena) : bool := bigslot_size (boa_obj_align sz) <=? free_space s.
Definition cmp (s : arena) (mp : Z) : Z := if mp <? abase s then -1 else if abase s + asz s <=? mp then 1 else 0.

Definition get_free_ptrslot : M arena Z :=
  nxt ← gets nxt_ptrslot; st ← gets free_ptrslots;
  if negb (n_elem st =? 0) then
    x ← lift (pop_back st); let h := x.1 in
    modify (with_free x.2);;
    p ← ptr h; assertM (_count p =? -1);; assertM (nxt <? h);; mret h
  else modify (fun s => with_nxt (nxt - sizeof_bigptr) (nxt_memslot s) s);; mret nxt.

Definition aalloc (sz : Z) : M arena (option Z) :=
  fits ← gets (can_fit sz);
  if (fits : bool) then
    nm ← gets nxt_memslot; np ← gets nxt_ptrslot;
    assertM (nm <? np);;
    h ← get_free_ptrslot;
    assertM (negb (h =? 0));;
    modify (put_ptr h (Ptr nm 0));;
    let sz := boa_obj_align sz in
    bigslot_new nm sz h;;
    p ← ptr h; assertM (_count p =? 0);;
    n ← slot_size nm;
    modify (fun s => with_nxt (nxt_ptrslot s) (nxt_memslot s + n) s);;
    modify (fun s => with_memslots (memslots s ++ [nm]) s);;
    mret (Some h)
  else mret None.

Fixpoint check_slots (l : list Z) : M arena unit :=
  match l with [] => mret tt | m :: l => slot m;; check_slots l end.
Definition check_ptrs_round (p : Z) : M arena (Z + unit) :=
  t ← gets top; if p <? t then ptr p;; mret (inl (p + sizeof_bigptr)) else mret (inr tt).
Definition pfuel (s : arena) : nat := S (Z.to_nat (top s - nxt_ptrslot s)).
Definition sanity_check : M arena unit :=
  l ← gets memslots; check_slots l;;
  np ← gets nxt_ptrslot; let bottom := np + sizeof_bigptr in
  st ← gets free_ptrslots;
  (if negb (n_elem st =? 0) then b ← lift (back st); assertM (bottom <=? b) else mret tt);;
  fuel ← gets pfuel; loopM fuel check_ptrs_round bottom.

(** [tailq::remove]: the element's links are in its header. *)
Definition list_remove (m : Z) : M arena unit :=
  slot m;; modify (fun s => with_memslots (filter (fun x => x <> m) (memslots s)) s).
Definition remove (m : Z) : M arena unit :=
  sanity_check;;
  list_remove m;;
  n ← slot_size m;
  modify (fun s => with_unclaimed (u64 (unclaimed_space s + n)) s);;
  sanity_check.

Definition slot_deallocate (m : Z) : M arena unit := slot m;; remove m;; n ← slot_size m; modify (forget m n).
Definition ptr_mark_free (h : Z) : M arena unit := p ← ptr h; set_ptr h (Ptr (_ms p) (-1)).
(** [bigptr_t::deallocate]; the arena that [lookup] finds is this one. *)
Definition ptr_deallocate (h : Z) : M arena unit :=
  p ← ptr h; assertM (_count p =? 0);;
  slot (_ms p);;
  c ← gets (fun s => cmp s (_ms p + off_data)); assertM (c =? 0);;
  slot_deallocate (_ms p);;
  ptr_mark_free h.

(** ** Collection *)
Definition collect_round (bottom : Z) (x : Z * option Z) : M arena (Z * option Z + option Z) :=
  let '(p, last) := x in
  if bottom <? p then
    pt ← ptr p;
    (if _count pt =? -1 then st ← gets free_ptrslots; st ← lift (push_back p st); modify (with_free st) else mret tt);;
    mret (inl (p - sizeof_bigptr, Some p))
  else mret (inr last).
Definition collect_ptrslots : M arena unit :=
  t ← gets top; bottom ← gets nxt_ptrslot;
  modify (fun s => with_free (stack_clear (free_ptrslots s)) s);;
  fuel ← gets pfuel;
  last ← loopM fuel (collect_round bottom) (t - sizeof_bigptr, None);
  match last with None => mret tt | Some l => modify (fun s => with_nxt (l - sizeof_bigptr) (nxt_memslot s) s) end.

(** One slot [m] of the list; [p] is where the next one goes. *)
Definition compact_slot (m p : Z) : M arena Z :=
  sl ← slot m;
  modify (fun s => with_memslots (tail (memslots s)) s);;
  if p <? m + off_data then
    b ← gets abase; t ← gets top;
    let d := m + off_data in let e := d + _sz sl in
    assertM (b <=? d);; assertM (b <=? e);; assertM (d <? t);; assertM (e <? t);;
    copy_reinit p m;;
    reseat p;;
    n ← slot_size p;
    assertM (b <? p + n);; assertM (p + n <? t);;
    mret (p + n)
  else mret p.
Fixpoint compact_loop (l : list Z) (p : Z) (nl : list Z) : M arena (Z * list Z) :=
  match l with [] => mret (p, nl) | m :: l => p' ← compact_slot m p; compact_loop l p' (nl ++ [p]) end.
Definition compact_memslots : M arena unit :=
  b ← gets abase; l ← gets memslots;
  sanity_check;;
  x ← compact_loop l b [];
  modify (with_memslots x.2);;
  sanity_check;;
  modify (fun s => with_nxt (nxt_ptrslot s) x.1 s).

(** The marks of [lru_accounting] do nothing without an object to mark. *)
Definition lru_accounting : M arena unit := l ← gets memslots; check_slots l.
Definition gc (lru : bool) : M arena unit :=
  (if lru then lru_accounting else mret tt);;
  collect_ptrslots;;
  compact_memslots;;
  modify (fun s => forget (nxt_memslot s) (u64 (nxt_ptrslot s - nxt_memslot s)) s);;
  modify (with_unclaimed 0).
Definition gc_make_room (sz : Z) : M arena bool :=
  room ← gets (fun s => u64 (unclaimed_space s + free_space s));
  if sz <=? room then gc false;; mret true else mret false.

(** ** Redirectors to big objects *)
Definition data (h : Z) : M arena Z := p ← ptr h; slot (_ms p);; mret (_ms p + off_data).
Definition ptr_size (h : Z) : M arena Z := p ← ptr h; slot_size (_ms p).
Definition lim (h : Z) : M arena Z := p ← ptr h; assertM (0 <? _count p);; d ← data h; n ← ptr_size h; mret (d + n).
Definition rc_inc (h : Z) : M arena unit :=
  p ← ptr h; assertM (0 <=? _count p);; c ← lift (ck (_count p + 1)); set_ptr h (Ptr (_ms p) c).
Definition rc_dec (h : Z) : M arena bool :=
  p ← ptr h; assertM (0 <? _count p);; c ← lift (ck (_count p - 1)); set_ptr h (Ptr (_ms p) c);; mret (negb (c =? 0)).
(** What a client does with the object: [*(obj () + i) = v] and reading it. *)
Definition write (h i v : Z) : M arena unit := d ← data h; modify (poke (d + i) v).
Definition read (h i : Z) : M arena (option Z) := d ← data h; gets (fun s => mem s (d + i)).
End code.

(** * Specification *)

(** What a client sees: objects by their slot, with the count of references and the bytes, [None] for what was never written. *)
Record obj : Type := Obj { cnt : Z; bytes : list (option Z) }.
Abbreviation objs := (gmap Z obj).

Section spec.
Context `{!ObjAlign}.

(** The places of slots that are in use or were. *)
Definition pslot (s : arena) (h : Z) : Prop := exists i, 0 <= i /\ h = top s - sizeof_bigptr * (i + 1) /\ nxt_ptrslot s < h.

Definition gross (x : bigslot) : Z := boa_obj_align (_sz x) + sizeof_bigslot.

(** The objects [L] lie one behind the other from [lo] to [hi]; between two there is nothing, or the room of objects that are gone. *)
Fixpoint laid (sl : gmap Z bigslot) (lo : Z) (L : list Z) (hi : Z) : Prop :=
  match L with
  | [] => hi = lo \/ lo + sizeof_bigslot <= hi
  | m :: L => (m = lo \/ lo + sizeof_bigslot <= m) /\ exists x, sl !! m = Some x /\ 0 <= _sz x /\ gross x < 2 ^ 64 /\ laid sl (m + gross x) L hi
  end.
Fixpoint packed (sl : gmap Z bigslot) (lo : Z) (L : list Z) (hi : Z) : Prop :=
  match L with
  | [] => lo = hi
  | m :: L => m = lo /\ exists x, sl !! m = Some x /\ 0 <= _sz x /\ gross x < 2 ^ 64 /\ packed sl (m + gross x) L hi
  end.
Fixpoint total (sl : gmap Z bigslot) (L : list Z) : Z :=
  match L with [] => 0 | m :: L => from_option gross 0 (sl !! m) + total sl L end.

(** The slot of [m] is the client's object. *)
Definition holds_obj (s : arena) (O : objs) (m : Z) (x : bigslot) : Prop :=
  exists o, O !! _ptrslot x = Some o /\ ptrs s !! _ptrslot x = Some (Ptr m (cnt o)) /\ 0 <= cnt o <= INT_MAX /\
    Z.of_nat (length (bytes o)) = _sz x /\ forall i b, bytes o !! i = Some b -> mem s (m + off_data + Z.of_nat i) = b.

Record core (s : arena) (L : list Z) (O : objs) : Prop := {
  c_geo : 0 < abase s /\ top s = abase s + asz s /\ asz s < 2 ^ 61;
  c_np : exists k, 0 <= k /\ nxt_ptrslot s = top s - sizeof_bigptr * (k + 1);
  c_nm : abase s <= nxt_memslot s /\ nxt_memslot s <= nxt_ptrslot s + sizeof_bigptr /\ nxt_memslot s <= top s - sizeof_bigptr;
  c_ptrs h : pslot s h -> exists p, ptrs s !! h = Some p /\ (_count p = -1 \/ h ∈ dom O);
  c_obj m : m ∈ L -> exists x, slots s !! m = Some x /\ pslot s (_ptrslot x) /\ holds_obj s O m x;
  c_dom h : h ∈ dom O -> exists m x, m ∈ L /\ slots s !! m = Some x /\ _ptrslot x = h
}.
Record stack_ok (s : arena) : Prop := {
  s_stack : exists F, is_stack (free_ptrslots s) F /\ NoDup F /\ forall h, h ∈ F -> pslot s h /\ exists ms, ptrs s !! h = Some (Ptr ms (-1));
  s_size : _size (free_ptrslots s) <= 16 + 2 * asz s
}.
Record inv (s : arena) (O : objs) : Prop := {
  inv_core : core s (memslots s) O;
  inv_laid : laid (slots s) (abase s) (memslots s) (nxt_memslot s);
  inv_unclaimed : unclaimed_space s = nxt_memslot s - abase s - total (slots s) (memslots s);
  inv_stack : stack_ok s
}.
End spec.

(** * Proofs *)
Section memory.
Lemma lookup_slots_but p n s a : ~ meets a off_data p n -> slots_but p n s !! a = slots s !! a.
Proof.
  intros Hm. unfold slots_but. destruct (slots s !! a) as [x|] eqn:E; [by apply map_lookup_filter_Some_2|].
  apply map_lookup_filter_None. by left.
Qed.

Lemma lookup_ptrs_but p n s a : ~ meets a sizeof_bigptr p n -> ptrs_but p n s !! a = ptrs s !! a.
Proof.
  intros Hm. unfold ptrs_but. destruct (ptrs s !! a) as [x|] eqn:E; [by apply map_lookup_filter_Some_2|].
  apply map_lookup_filter_None. by left.
Qed.

Lemma setb_in p n f m x : p <= x < p + n -> setb p n f m x = f (x - p).
Proof. intros Hx. unfold setb. by rewrite bool_decide_true. Qed.

Lemma setb_out p n f m x : ~ p <= x < p + n -> setb p n f m x = m x.
Proof. intros Hx. unfold setb. by rewrite bool_decide_false. Qed.

Lemma bind_slot {B} s m x (k : bigslot -> M arena B) : slots s !! m = Some x -> (slot m ≫= k) s = k x s.
Proof. intros E. unfold mbind, M_bind, slot. by rewrite E. Qed.

Lemma bind_ptr {B} s h p (k : bigptr -> M arena B) : ptrs s !! h = Some p -> (ptr h ≫= k) s = k p s.
Proof. intros E. unfold mbind, M_bind, ptr. by rewrite E. Qed.

Lemma bind_modify {S B} (s : S) f (k : unit -> M S B) : (modify f ≫= k) s = k tt (f s).
Proof. done. Qed.

Lemma bind_assert {B} s b (k : unit -> M arena B) : b = true -> (assertM b ≫= k) s = k tt s.
Proof. by intros ->. Qed.
End memory.

Section layout.
Context `{ObjAlignLaws}.

Lemma gross_ge x : _sz x + sizeof_bigslot <= gross x.
Proof. unfold gross. pose proof (align_up (_sz x)). lia. Qed.

Lemma bigslot_size_gross x : 0 <= _sz x -> gross x < 2 ^ 64 -> bigslot_size (_sz x) = gross x.
Proof. intros Hx Hg. unfold bigslot_size, u64. pose proof (gross_ge x). unfold gross, sizeof_bigslot in *. rewrite Z.mod_small; lia. Qed.

Lemma laid_le sl lo L hi : laid sl lo L hi -> lo <= hi.
Proof.
  revert lo. induction L as [|m L IH]; intros lo HL; [cbn in HL; unfold sizeof_bigslot in HL; lia|]. destruct HL as (Hm & x & _ & Hx & _ & HL). apply IH in HL.
  pose proof (gross_ge x). unfold sizeof_bigslot in *. lia.
Qed.

(** Every object lies between [lo] and [hi]. *)
Lemma laid_in sl lo L hi m : laid sl lo L hi -> m ∈ L -> exists x, sl !! m = Some x /\ 0 <= _sz x /\ gross x < 2 ^ 64 /\ lo <= m /\ m + gross x <= hi.
Proof.
  revert lo. induction L as [|m' L IH]; intros lo HL Hin; [by apply not_elem_of_nil in Hin|]. destruct HL as (Hm & x & Hx & Hs & Hg & HL).
  pose proof (laid_le _ _ _ _ HL) as Hle. pose proof (gross_ge x). unfold sizeof_bigslot in *.
  apply elem_of_cons in Hin as [->|Hin]; [exists x; split_and!; try done; lia|].
  destruct (IH _ HL Hin) as (y & Hy & Hys & Hyg & Hlo & Hhi). exists y. split_and!; try done; lia.
Qed.

Lemma laid_ext sl sl' lo L hi : (forall m, m ∈ L -> sl' !! m = sl !! m) -> laid sl lo L hi -> laid sl' lo L hi.
Proof.
  revert lo. induction L as [|m L IH]; intros lo E HL; [done|]. destruct HL as (Hm & x & Hx & Hs & Hg & HL). split; [done|].
  exists x. rewrite E by (by left). split_and!; [done..|]. apply IH; [|done]. intros m' Hm'. apply E. by right.
Qed.

Lemma packed_ext sl sl' lo L hi : (forall m, m ∈ L -> sl' !! m = sl !! m) -> packed sl lo L hi -> packed sl' lo L hi.
Proof.
  revert lo. induction L as [|m L IH]; intros lo E HL; [done|]. destruct HL as (Hm & x & Hx & Hs & Hg & HL). split; [done|].
  exists x. rewrite E by (by left). split_and!; [done..|]. apply IH; [|done]. intros m' Hm'. apply E. by right.
Qed.

Lemma total_ext sl sl' L : (forall m, m ∈ L -> sl' !! m = sl !! m) -> total sl' L = total sl L.
Proof.
  induction L as [|m L IH]; intros E; [done|]. cbn [total]. rewrite E, IH; [done| |by left]. intros m' Hm'. apply E. by right.
Qed.

Lemma packed_laid sl lo L hi : packed sl lo L hi -> laid sl lo L hi.
Proof.
  revert lo. induction L as [|m L IH]; intros lo HL; cbn in *; [lia|]. destruct HL as (Hm & x & Hx & Hs & Hg & HL). split; [by left|].
  exists x. auto.
Qed.

Lemma packed_total sl lo L hi : packed sl lo L hi -> total sl L = hi - lo.
Proof.
  revert lo. induction L as [|m L IH]; intros lo HL; cbn [packed total] in *; [lia|]. destruct HL as (-> & x & Hx & Hs & Hg & HL).
  rewrite Hx, (IH _ HL). cbn. lia.
Qed.

Lemma packed_snoc sl lo L hi x : packed sl lo L hi -> sl !! hi = Some x -> 0 <= _sz x -> gross x < 2 ^ 64 -> packed sl lo (L ++ [hi]) (hi + gross x).
Proof.
  revert lo. induction L as [|m L IH]; intros lo HL Hx Hs Hg; cbn [packed app] in *.
  - subst hi. split; [done|]. exists x. auto.
  - destruct HL as (Hm & y & Hy & Hys & Hyg & HL). split; [done|]. exists y. auto.
Qed.

Lemma laid_snoc sl lo L hi x : laid sl lo L hi -> sl !! hi = Some x -> 0 <= _sz x -> gross x < 2 ^ 64 -> laid sl lo (L ++ [hi]) (hi + gross x).
Proof.
  revert lo. induction L as [|m L IH]; intros lo HL Hx Hs Hg; cbn [laid app] in *.
  - split; [done|]. exists x. split_and!; [done..|by left].
  - destruct HL as (Hm & y & Hy & Hys & Hyg & HL). split; [done|]. exists y. auto.
Qed.

Lemma laid_lower sl lo lo' L hi : laid sl lo L hi -> lo' + sizeof_bigslot <= lo -> laid sl lo' L hi.
Proof. destruct L as [|m L]; cbn [laid]; unfold sizeof_bigslot; [lia|]. intros [Hm HL] Hlo. split; [lia|done]. Qed.

(** Taking an object out leaves room that no header can straddle. *)
Lemma laid_remove sl lo L hi m : laid sl lo L hi -> m ∈ L -> NoDup L -> laid sl lo (filter (fun x => x <> m) L) hi.
Proof.
  revert lo. induction L as [|m' L IH]; intros lo HL Hin HN; [by apply not_elem_of_nil in Hin|].
  apply NoDup_cons in HN as [Hni HN]. destruct HL as (Hm & x & Hx & Hs & Hg & HL). pose proof (gross_ge x).
  destruct (decide (m' = m)) as [->|Hne].
  - rewrite filter_cons_False by tauto. rewrite filter_all by (apply Forall_forall; intros y Hy ->; done).
    eapply laid_lower; [exact HL|]. unfold sizeof_bigslot in *. lia.
  - rewrite filter_cons_True by done. split; [done|]. exists x. split_and!; [done..|]. apply IH; [done| |done].
    by apply elem_of_cons in Hin as [->|Hin].
Qed.

Lemma laid_NoDup sl lo L hi : laid sl lo L hi -> NoDup L.
Proof.
  revert lo. induction L as [|m L IH]; intros lo HL; [constructor|]. destruct HL as (Hm & x & Hx & Hs & Hg & HL). constructor; [|by eapply IH].
  intros Hin. destruct (laid_in _ _ _ _ _ HL Hin) as (y & _ & _ & _ & Hlo & _). pose proof (gross_ge x). unfold sizeof_bigslot in *. lia.
Qed.

(** Two objects do not meet. *)
Lemma laid_apart sl lo L hi m m' x x' : laid sl lo L hi -> m ∈ L -> m' ∈ L -> m <> m' -> sl !! m = Some x -> sl !! m' = Some x' ->
  m + gross x <= m' \/ m' + gross x' <= m.
Proof.
  revert lo. induction L as [|n L IH]; intros lo HL Hm Hm' Hne Hx Hx'; [by apply not_elem_of_nil in Hm|].
  destruct HL as (_ & y & Hy & Hs & Hg & HL). apply elem_of_cons in Hm, Hm'. destruct Hm as [->|Hm], Hm' as [->|Hm']; [done|left|right|by eapply IH].
  - rewrite Hy in Hx. injection Hx as ->. destruct (laid_in _ _ _ _ _ HL Hm') as (z & _ & _ & _ & ? & _). done.
  - rewrite Hy in Hx'. injection Hx' as ->. destruct (laid_in _ _ _ _ _ HL Hm) as (z & _ & _ & _ & ? & _). done.
Qed.

Lemma total_remove sl L m x : NoDup L -> m ∈ L -> sl !! m = Some x -> total sl (filter (fun y => y <> m) L) = total sl L - gross x.
Proof.
  intros HN Hin Hx. induction L as [|m' L IH]; [by apply not_elem_of_nil in Hin|]. apply NoDup_cons in HN as [Hni HN].
  destruct (decide (m' = m)) as [->|Hne].
  - rewrite filter_cons_False by tauto. rewrite filter_all by (apply Forall_forall; intros y Hy ->; done). cbn [total]. rewrite Hx. cbn. lia.
  - rewrite filter_cons_True by done. cbn [total]. rewrite IH; [lia|done|]. by apply elem_of_cons in Hin as [->|Hin].
Qed.

Lemma total_snoc sl L m x : sl !! m = Some x -> total sl (L ++ [m]) = total sl L + gross x.
Proof. intros Hx. induction L as [|m' L IH]; cbn [total app]; [rewrite Hx; cbn; lia|]. rewrite IH. lia. Qed.

End layout.

(** ** What a change of some bytes leaves alone *)
Definition geometry (s : arena) : Z * Z * Z * Z * Z := (abase s, asz s, top s, nxt_ptrslot s, nxt_memslot s).

Record same_out (p n : Z) (s s' : arena) : Prop := {
  out_slots a : ~ meets a off_data p n -> slots s' !! a = slots s !! a;
  out_ptrs a : ~ meets a sizeof_bigptr p n -> ptrs s' !! a = ptrs s !! a;
  out_mem y : ~ p <= y < p + n -> mem s' y = mem s y
}.

Lemma store_out p n f s : same_out p n s (store p n f s).
Proof. split; intros a Ha; [by apply lookup_slots_but|by apply lookup_ptrs_but|by apply setb_out]. Qed.

Lemma put_slot_out m x s : same_out m off_data s (put_slot m x s).
Proof.
  split; intros a Ha; cbn; [rewrite lookup_insert_ne; [by apply lookup_slots_but|]|by apply lookup_ptrs_but|by apply setb_out].
  intros ->. apply Ha. unfold meets, off_data. lia.
Qed.

Lemma put_ptr_out h p s : same_out h sizeof_bigptr s (put_ptr h p s).
Proof.
  split; intros a Ha; cbn; [by apply lookup_slots_but|rewrite lookup_insert_ne; [by apply lookup_ptrs_but|]|by apply setb_out].
  intros ->. apply Ha. unfold meets, sizeof_bigptr. lia.
Qed.

Lemma same_out_refl p n s : same_out p n s s.
Proof. by split. Qed.

Lemma same_out_weaken p n p' n' s s' : p' <= p -> p + n <= p' + n' -> same_out p n s s' -> same_out p' n' s s'.
Proof. intros Hp Hn [H1 H2 H3]. split; intros a Ha; [apply H1|apply H2|apply H3]; unfold meets in *; lia. Qed.

Lemma same_out_trans p n s1 s2 s3 : same_out p n s1 s2 -> same_out p n s2 s3 -> same_out p n s1 s3.
Proof. intros [H1 H2 H3] [K1 K2 K3]. split; intros a Ha; [rewrite K1, H1|rewrite K2, H2|rewrite K3, H3]; done. Qed.

Section frame.
Context `{ObjAlignLaws}.

Lemma pslot_geometry s s' h : geometry s' = geometry s -> pslot s' h <-> pslot s h.
Proof. intros [= ? ? Et En ?]. unfold pslot. by rewrite Et, En. Qed.

Lemma obj_out p n s s' O m x : same_out p n s s' -> slots s !! m = Some x -> 0 <= _sz x ->
  (m + gross x <= p \/ p + n <= m) -> (_ptrslot x + sizeof_bigptr <= p \/ p + n <= _ptrslot x) ->
  holds_obj s O m x -> slots s' !! m = Some x /\ holds_obj s' O m x.
Proof.
  intros [H1' H2' H3'] Hx Hs Hm Hh (o & Ho & Hp & Hc & Hl & Hb). pose proof (gross_ge x) as Hg. unfold sizeof_bigslot, off_data, sizeof_bigptr in *. split.
  - rewrite H1'; [done|]. unfold meets, off_data. lia.
  - exists o. split_and!; [done| |lia|lia|done|].
    + rewrite H2'; [done|]. unfold meets, sizeof_bigptr. lia.
    + intros i b Hi. pose proof (lookup_lt_Some _ _ _ Hi). rewrite H3'; [by apply Hb|]. unfold off_data. lia.
Qed.

(** The slots lie above the objects. *)
Lemma pslot_above s L O h : core s L O -> pslot s h -> nxt_memslot s <= h /\ h <= top s - sizeof_bigptr /\ nxt_ptrslot s + sizeof_bigptr <= h.
Proof.
  intros HC (i & Hi & Eh & Hlt). destruct (c_np _ _ _ HC) as (k & Hk & Ek). destruct (c_nm _ _ _ HC) as (_ & Hnm & _).
  unfold sizeof_bigptr in *. assert (i + 1 <= k) by nia. lia.
Qed.

Lemma pslots_apart s h h' : pslot s h -> pslot s h' -> h <> h' -> h + sizeof_bigptr <= h' \/ h' + sizeof_bigptr <= h.
Proof. intros (i & _ & Ei & _) (j & _ & Ej & _) Hne. unfold sizeof_bigptr in *. assert (i < j \/ j < i) as [?|?] by nia; lia. Qed.

(** Writing bytes that belong to no object of [L] and to no slot. *)
Lemma core_out p n s s' L O : same_out p n s s' -> geometry s' = geometry s -> p + n <= nxt_ptrslot s + sizeof_bigptr ->
  (forall m x, m ∈ L -> slots s !! m = Some x -> 0 <= _sz x /\ (m + gross x <= p \/ p + n <= m)) ->
  core s L O -> core s' L O.
Proof.
  intros HO HG Hp HL HC. pose proof HG as HG'. injection HG' as E1 E2 E3 E4 E5.
  assert (Hobj : forall m x, m ∈ L -> slots s !! m = Some x -> pslot s (_ptrslot x) -> holds_obj s O m x -> slots s' !! m = Some x /\ holds_obj s' O m x).
  { intros m x Hm Hx Hh Hob. destruct (HL m x Hm Hx) as [Hs Hd]. eapply obj_out; [done|done|done|done| |done].
    right. destruct (pslot_above _ _ _ _ HC Hh) as (_ & _ & ?). lia. }
  split.
  - rewrite E1, E2, E3. by apply (c_geo _ _ _ HC).
  - rewrite E3, E4. by apply (c_np _ _ _ HC).
  - rewrite E1, E3, E4, E5. by apply (c_nm _ _ _ HC).
  - intros h Hh. apply (pslot_geometry _ _ _ HG) in Hh. destruct (c_ptrs _ _ _ HC h Hh) as (q & Hq & Hc). exists q. split; [|done].
    rewrite (out_ptrs _ _ _ _ HO); [done|]. destruct (pslot_above _ _ _ _ HC Hh) as (_ & _ & ?). unfold meets, sizeof_bigptr in *. lia.
  - intros m Hm. destruct (c_obj _ _ _ HC m Hm) as (x & Hx & Hh & Hob). destruct (Hobj m x Hm Hx Hh Hob). exists x. split_and!; [done| |done].
    by apply (pslot_geometry _ _ _ HG).
  - intros h Hh. destruct (c_dom _ _ _ HC h Hh) as (m & x & Hm & Hx & Ex). exists m, x. split_and!; [done| |done].
    destruct (c_obj _ _ _ HC m Hm) as (y & Hy & Hyh & Hyob). rewrite Hx in Hy. injection Hy as <-. by destruct (Hobj m x Hm Hx Hyh Hyob).
Qed.

Lemma stack_out p n s s' L O : same_out p n s s' -> geometry s' = geometry s -> free_ptrslots s' = free_ptrslots s -> p + n <= nxt_ptrslot s + sizeof_bigptr ->
  core s L O -> stack_ok s -> stack_ok s'.
Proof.
  intros HO HG Ef Hp HC [(F & HF & HN & HF2) Hsz]. pose proof HG as HG'. injection HG' as E1 E2 E3 E4 E5. split; [|by rewrite Ef, E2].
  exists F. rewrite Ef. split_and!; [done|done|]. intros h Hh. destruct (HF2 h Hh) as (Hps & ms & Hms). split; [by apply (pslot_geometry _ _ _ HG)|].
  exists ms. rewrite (out_ptrs _ _ _ _ HO); [done|]. destruct (pslot_above _ _ _ _ HC Hps) as (_ & _ & ?). unfold meets, sizeof_bigptr in *. lia.
Qed.

(** The client's object behind a slot. *)
Lemma obj_of s L O h o : core s L O -> O !! h = Some o ->
  exists m x, m ∈ L /\ slots s !! m = Some x /\ _ptrslot x = h /\ pslot s h /\ ptrs s !! h = Some (Ptr m (cnt o)) /\ 0 <= cnt o <= INT_MAX /\
    Z.of_nat (length (bytes o)) = _sz x /\ (forall i b, bytes o !! i = Some b -> mem s (m + off_data + Z.of_nat i) = b).
Proof.
  intros HC Ho. destruct (c_dom _ _ _ HC h) as (m & x & Hm & Hx & Ex); [apply elem_of_dom; by exists o|].
  destruct (c_obj _ _ _ HC m Hm) as (y & Hy & Hh & o' & Ho' & Hp & Hc & Hl & Hb). rewrite Hx in Hy. injection Hy as <-. rewrite Ex in *.
  rewrite Ho in Ho'. injection Ho' as <-. exists m, x. split_and!; try done; lia.
Qed.

(** A slot belongs to one object. *)
Lemma one_obj s L O m m' x x' : core s L O -> m ∈ L -> m' ∈ L -> slots s !! m = Some x -> slots s !! m' = Some x' -> _ptrslot x = _ptrslot x' -> m = m'.
Proof.
  intros HC Hm Hm' Hx Hx' E. destruct (c_obj _ _ _ HC m Hm) as (y & Hy & _ & o & _ & Hp & _). rewrite Hx in Hy. injection Hy as <-.
  destruct (c_obj _ _ _ HC m' Hm') as (y & Hy & _ & o' & _ & Hp' & _). rewrite Hx' in Hy. injection Hy as <-. rewrite E, Hp' in Hp. by injection Hp.
Qed.

(** ** Checks *)
Lemma check_slots_run L s : (forall m, m ∈ L -> is_Some (slots s !! m)) -> check_slots L s = Ok (tt, s).
Proof.
  induction L as [|m L IH]; intros HL; [done|]. cbn [check_slots]. destruct (HL m ltac:(by left)) as [x Hx]. rewrite (bind_slot _ _ x) by done.
  apply IH. intros m' Hm'. apply HL. by right.
Qed.

Lemma check_ptrs_run i fuel s : (forall j, 0 <= j < Z.of_nat i -> is_Some (ptrs s !! (top s - sizeof_bigptr * (j + 1)))) -> (i < fuel)%nat ->
  loopM fuel check_ptrs_round (top s - sizeof_bigptr * Z.of_nat i) s = Ok (tt, s).
Proof.
  revert fuel. induction i as [|i IH]; intros fuel Hp Hf; (destruct fuel as [|fuel]; [lia|]); rewrite loopM_step; unfold check_ptrs_round; mnorm.
  - rewrite (proj2 (Z.ltb_ge _ _)) by lia. done.
  - rewrite (proj2 (Z.ltb_lt _ _)) by (unfold sizeof_bigptr; lia). destruct (Hp (Z.of_nat i) ltac:(lia)) as [q Hq].
    replace (top s - sizeof_bigptr * Z.of_nat (S i)) with (top s - sizeof_bigptr * (Z.of_nat i + 1)) by lia.
    rewrite (bind_ptr _ _ q) by done. unfold mret, M_ret.
    replace (top s - sizeof_bigptr * (Z.of_nat i + 1) + sizeof_bigptr) with (top s - sizeof_bigptr * Z.of_nat i) by lia.
    apply IH; [|lia]. intros j Hj. apply Hp. lia.
Qed.

Lemma pfuel_ok s k : 0 <= k -> nxt_ptrslot s = top s - sizeof_bigptr * (k + 1) -> (Z.to_nat k < pfuel s)%nat.
Proof. intros Hk E. unfold pfuel, sizeof_bigptr in *. lia. Qed.

Lemma sanity_run s : (forall m, m ∈ memslots s -> is_Some (slots s !! m)) -> (forall h, pslot s h -> is_Some (ptrs s !! h)) ->
  (exists k, 0 <= k /\ nxt_ptrslot s = top s - sizeof_bigptr * (k + 1)) ->
  (exists F, is_stack (free_ptrslots s) F /\ forall h, h ∈ F -> pslot s h) -> sanity_check s = Ok (tt, s).
Proof.
  intros Hsl Hps (k & Hk & Ek) (F & HF & HF2). unfold sanity_check. mnorm. rewrite (M_bind_ok _ _ _ _ _ (check_slots_run (memslots s) s Hsl)). mnorm.
  assert (Eb : (if negb (n_elem (free_ptrslots s) =? 0) then b ← lift (back (free_ptrslots s)); assertM (nxt_ptrslot s + sizeof_bigptr <=? b) else mret tt) s = Ok (tt, s)).
  { unfold n_elem. rewrite (stk_nxt _ _ HF). destruct F as [|h F _] using rev_ind; [done|]. rewrite length_app. cbn [length].
    rewrite (proj2 (Z.eqb_neq _ 0)) by lia. cbn [negb]. rewrite (bind_lift _ _ _ _ (back_ok _ _ _ HF)).
    destruct (HF2 h) as (i & Hi & Eh & Hlt); [set_solver|].
    unfold assertM. rewrite (proj2 (Z.leb_le _ _)); [done|]. unfold sizeof_bigptr in *. assert (i + 1 <= k) by nia. lia. }
  rewrite (M_bind_ok _ _ _ _ _ Eb). mnorm.
  replace (nxt_ptrslot s + sizeof_bigptr) with (top s - sizeof_bigptr * Z.of_nat (Z.to_nat k)) by (unfold sizeof_bigptr in *; lia).
  apply check_ptrs_run; [|by apply pfuel_ok]. intros j Hj. apply Hps. exists j. split_and!; [lia|done|]. unfold sizeof_bigptr in *. lia.
Qed.

Lemma core_slots s L O m : core s L O -> m ∈ L -> is_Some (slots s !! m).
Proof. intros HC Hm. destruct (c_obj _ _ _ HC m Hm) as (x & Hx & _). by exists x. Qed.

Lemma core_pslots s L O h : core s L O -> pslot s h -> is_Some (ptrs s !! h).
Proof. intros HC Hh. destruct (c_ptrs _ _ _ HC h Hh) as (q & Hq & _). by exists q. Qed.

Lemma stack_pslots s : stack_ok s -> exists F, is_stack (free_ptrslots s) F /\ forall h, h ∈ F -> pslot s h.
Proof. intros [(F & HF & _ & HF2) _]. exists F. split; [done|]. intros h Hh. by apply HF2. Qed.

Lemma inv_sanity s O : inv s O -> sanity_check s = Ok (tt, s).
Proof.
  intros HI. apply sanity_run; [intros m; by apply (core_slots _ _ O), (inv_core _ _ HI)|intros h; by apply (core_pslots _ _ _ _ (inv_core _ _ HI))|apply (c_np _ _ _ (inv_core _ _ HI))|].
  apply stack_pslots, (inv_stack _ _ HI).
Qed.
End frame.

(** ** Allocation *)
Section alloc.
Context `{ObjAlignLaws}.

(** [get_free_ptrslot] gives a place for a slot that nothing uses. *)
Record fresh_ptrslot (s s1 : arena) (h : Z) : Prop := {
  fr_state : s1 = with_free (free_ptrslots s1) (with_nxt (nxt_ptrslot s1) (nxt_memslot s) s);
  fr_np : nxt_ptrslot s - sizeof_bigptr <= nxt_ptrslot s1 <= nxt_ptrslot s /\ nxt_ptrslot s <= h;
  fr_k : exists k, 0 <= k /\ nxt_ptrslot s1 = top s - sizeof_bigptr * (k + 1);
  fr_pslot : pslot s1 h /\ forall h', pslot s1 h' -> h' <> h -> pslot s h';
  fr_old : forall h', pslot s h' -> pslot s1 h';
  fr_stack : exists F, is_stack (free_ptrslots s1) F /\ NoDup F /\ h ∉ F /\ forall h', h' ∈ F -> pslot s h' /\ exists ms, ptrs s !! h' = Some (Ptr ms (-1));
  fr_size : _size (free_ptrslots s1) <= 16 + 2 * asz s
}.

Lemma get_free_run s O : inv s O -> exists h s1, get_free_ptrslot s = Ok (h, s1) /\ fresh_ptrslot s s1 h /\ h ∉ dom O.
Proof.
  intros HI. destruct (inv_stack _ _ HI) as [(F & HF & HN & HF2) Hsz]. destruct (c_np _ _ _ (inv_core _ _ HI)) as (k & Hk & Ek).
  unfold get_free_ptrslot. mnorm. unfold n_elem. rewrite (stk_nxt _ _ HF). destruct F as [|h F _] using rev_ind; cbn [length].
  - exists (nxt_ptrslot s), (with_nxt (nxt_ptrslot s - sizeof_bigptr) (nxt_memslot s) s). split; [done|]. split.
    + split; cbn [nxt_ptrslot with_nxt free_ptrslots].
      * done.
      * unfold sizeof_bigptr. lia.
      * exists (k + 1). unfold sizeof_bigptr in *. lia.
      * split; [exists k; cbn; unfold sizeof_bigptr in *; lia|]. intros h' (i & Hi & Eh & Hlt) Hne. cbn in Eh, Hlt. exists i. split_and!; [done|done|].
        unfold sizeof_bigptr in *. assert (i <> k) by (intros ->; lia). lia.
      * intros h' (i & Hi & Eh & Hlt). exists i. cbn. unfold sizeof_bigptr in *. split_and!; [done|done|lia].
      * exists []. split_and!; [done|constructor|apply not_elem_of_nil|]. intros h' Hh. by apply not_elem_of_nil in Hh.
      * done.
    + intros Hin. apply elem_of_dom in Hin as [o Ho]. destruct (obj_of _ _ _ _ _ (inv_core _ _ HI) Ho) as (m & x & _ & _ & _ & (i & _ & _ & Hlt) & _). lia.
  - rewrite length_app. cbn [length]. rewrite (proj2 (Z.eqb_neq _ 0)) by lia. cbn [negb].
    destruct (stack_pop_ok _ _ _ HF) as (st & E & Hst). rewrite (bind_lift _ _ _ _ E). cbn [fst snd]. rewrite bind_modify.
    destruct (HF2 h) as (Hh & ms & Hms); [set_solver|]. rewrite (bind_ptr _ _ (Ptr ms (-1))) by done. rewrite bind_assert by done.
    destruct (pslot_above _ _ _ _ (inv_core _ _ HI) Hh) as (_ & _ & Hab). rewrite bind_assert by (apply Z.ltb_lt; unfold sizeof_bigptr in *; lia).
    exists h, (with_free st s). split; [done|]. apply NoDup_app in HN as (HN & HhF & _). split.
    + split; cbn [nxt_ptrslot with_free free_ptrslots].
      * by destruct s.
      * unfold sizeof_bigptr in *. lia.
      * by exists k.
      * by split.
      * done.
      * exists F. split_and!; [done|done|intros Hin; apply (HhF h Hin); by left|]. intros h' Hin. apply HF2. set_solver.
      * unfold pop_back, stack_read in E. destruct (0 <? _nxt (free_ptrslots s)); [|done]. cbn in E.
        destruct (aget (_base (free_ptrslots s)) (_nxt (free_ptrslots s) - 1)) as [[y|]|]; [|done..]. by injection E as _ <-.
    + intros Hin. apply elem_of_dom in Hin as [o Ho]. destruct (obj_of _ _ _ _ _ (inv_core _ _ HI) Ho) as (m & x & _ & _ & _ & _ & Hp & Hc & _).
      rewrite Hms in Hp. injection Hp as _ Hc'. lia.
Qed.

(** The arena with the new object of [sz] bytes. *)
Definition allocated (s1 : arena) (h sz : Z) : arena :=
  let s4 := forget (nxt_memslot s1 + off_data) sz (put_slot (nxt_memslot s1) (Slot sz h) (put_ptr h (Ptr (nxt_memslot s1) 0) s1)) in
  with_memslots (memslots s4 ++ [nxt_memslot s1]) (with_nxt (nxt_ptrslot s4) (nxt_memslot s4 + gross (Slot sz h)) s4).

Lemma alloc_memory s1 h sz : 0 <= sz -> nxt_memslot s1 + gross (Slot sz h) <= h ->
  let nm := nxt_memslot s1 in let s' := allocated s1 h sz in
  slots s' !! nm = Some (Slot sz h) /\ ptrs s' !! h = Some (Ptr nm 0) /\
  (forall y, nm + off_data <= y < nm + off_data + sz -> mem s' y = None) /\
  (forall a x, slots s1 !! a = Some x -> 0 <= _sz x -> a + gross x <= nm -> slots s' !! a = Some x) /\
  (forall a, h + sizeof_bigptr <= a \/ nm + gross (Slot sz h) <= a /\ a + sizeof_bigptr <= h -> ptrs s' !! a = ptrs s1 !! a) /\
  (forall y, y < nm -> mem s' y = mem s1 y).
Proof.
  intros Hsz Hh nm s'. pose proof (gross_ge (Slot sz h)) as Hg. cbn [_sz] in Hg.
  assert (O1 : same_out h sizeof_bigptr s1 (put_ptr h (Ptr nm 0) s1)) by apply put_ptr_out.
  set (s2 := put_ptr h (Ptr nm 0) s1) in *.
  assert (O2 : same_out nm off_data s2 (put_slot nm (Slot sz h) s2)) by apply put_slot_out.
  set (s3 := put_slot nm (Slot sz h) s2) in *.
  assert (O3 : same_out (nm + off_data) sz s3 (forget (nm + off_data) sz s3)) by apply store_out.
  change (slots s') with (slots (forget (nm + off_data) sz s3)). change (ptrs s') with (ptrs (forget (nm + off_data) sz s3)).
  change (mem s') with (mem (forget (nm + off_data) sz s3)). unfold sizeof_bigslot, off_data, sizeof_bigptr in *. split_and!.
  - rewrite (out_slots _ _ _ _ O3) by (unfold meets, off_data; lia). cbn. apply lookup_insert_eq.
  - rewrite (out_ptrs _ _ _ _ O3), (out_ptrs _ _ _ _ O2) by (unfold meets, sizeof_bigptr; lia). cbn. apply lookup_insert_eq.
  - intros y Hy. cbn. unfold setb. by rewrite bool_decide_true by lia.
  - intros a x Hx Hs Ha. pose proof (gross_ge x). unfold sizeof_bigslot in *.
    rewrite (out_slots _ _ _ _ O3), (out_slots _ _ _ _ O2), (out_slots _ _ _ _ O1) by (unfold meets, off_data; lia). done.
  - intros a Ha. rewrite (out_ptrs _ _ _ _ O3), (out_ptrs _ _ _ _ O2), (out_ptrs _ _ _ _ O1) by (unfold meets, sizeof_bigptr; lia). done.
  - intros y Hy. rewrite (out_mem _ _ _ _ O3), (out_mem _ _ _ _ O2), (out_mem _ _ _ _ O1) by lia. done.
Qed.
End alloc.

Section allocated.
Context `{ObjAlignLaws}.
Context (s s1 : arena) (O : objs) (h sz : Z) (HI : inv s O) (HF : fresh_ptrslot s s1 h) (Hh : h ∉ dom O).
Context (Hsz : 0 <= sz) (Hg64 : gross (Slot sz h) < 2 ^ 64) (Hroom : nxt_memslot s + gross (Slot sz h) <= nxt_ptrslot s).
Let s' := allocated s1 h sz.
Let new := Obj 0 (replicate (Z.to_nat sz) None).

Lemma fresh_fields : abase s1 = abase s /\ asz s1 = asz s /\ top s1 = top s /\ nxt_memslot s1 = nxt_memslot s /\ memslots s1 = memslots s /\
  slots s1 = slots s /\ ptrs s1 = ptrs s /\ mem s1 = mem s /\ unclaimed_space s1 = unclaimed_space s.
Proof. rewrite (fr_state _ _ _ HF). by split_and!. Qed.

Lemma alloc_objects m x : m ∈ memslots s -> slots s !! m = Some x -> 0 <= _sz x /\ m + gross x <= nxt_memslot s.
Proof.
  intros Hm Hx. destruct (laid_in _ _ _ _ _ (inv_laid _ _ HI) Hm) as (y & Hy & Hys & _ & _ & Hhi). rewrite Hx in Hy. by injection Hy as <-.
Qed.

Lemma alloc_pslot_apart h' : pslot s h' -> h' <> h -> h + sizeof_bigptr <= h' \/ nxt_memslot s + gross (Slot sz h) <= h' /\ h' + sizeof_bigptr <= h.
Proof.
  intros Hp Hne. destruct (pslots_apart s1 h' h) as [?|?]; [by apply (fr_old _ _ _ HF)|by apply (fr_pslot _ _ _ HF)|done|right|by left].
  destruct (pslot_above _ _ _ _ (inv_core _ _ HI) Hp) as (_ & _ & ?). unfold sizeof_bigptr in *. lia.
Qed.

Lemma alloc_core : core s' (memslots s ++ [nxt_memslot s]) (<[h := new]> O).
Proof.
  destruct fresh_fields as (E1 & E2 & E3 & E4 & E5 & E6 & E7 & E8 & _). destruct (fr_np _ _ _ HF) as [Hnp Hnph].
  pose proof (inv_core _ _ HI) as HC. destruct (c_nm _ _ _ HC) as (Hn1 & Hn2 & Hn3).
  destruct (alloc_memory s1 h sz Hsz ltac:(rewrite E4; lia)) as (M1 & M2 & M3 & M4 & M5 & M6). rewrite E4, E6, E7, E8 in *. fold s' in M1, M2, M3, M4, M5, M6.
  assert (Hps : forall a, pslot s' a <-> pslot s1 a) by (intros a; unfold pslot; by rewrite (eq_refl : top s' = top s1)).
  split.
  - change (abase s') with (abase s1). change (top s') with (top s1). change (asz s') with (asz s1). rewrite E1, E2, E3. by apply (c_geo _ _ _ HC).
  - change (top s') with (top s1). rewrite E3. apply (fr_k _ _ _ HF).
  - change (abase s') with (abase s1). change (top s') with (top s1). change (nxt_ptrslot s') with (nxt_ptrslot s1).
    change (nxt_memslot s') with (nxt_memslot s1 + gross (Slot sz h)). rewrite E1, E3, E4. pose proof (gross_ge (Slot sz h)). cbn [_sz] in *.
    destruct (c_np _ _ _ HC) as (k & Hk & Ek). unfold sizeof_bigslot, sizeof_bigptr in *. lia.
  - intros a Ha. apply Hps in Ha. destruct (decide (a = h)) as [->|Hne]; [exists (Ptr (nxt_memslot s) 0); split; [done|right; set_solver]|].
    destruct (fr_pslot _ _ _ HF) as [_ Hold]. specialize (Hold a Ha Hne). destruct (c_ptrs _ _ _ HC a Hold) as (q & Hq & Hc). exists q. split; [|set_solver].
    rewrite M5; [done|]. by apply alloc_pslot_apart.
  - intros m Hm. apply elem_of_app in Hm as [Hm|Hm%list_elem_of_singleton].
    + destruct (c_obj _ _ _ HC m Hm) as (x & Hx & Hxh & o & Ho & Hp & Hc & Hl & Hb). destruct (alloc_objects m x Hm Hx) as [Hxs Hxe].
      assert (Hne : _ptrslot x <> h) by (intros E; apply Hh; apply elem_of_dom; exists o; by rewrite <- E).
      exists x. split_and!; [by apply M4|by apply Hps, (fr_old _ _ _ HF)|]. exists o. rewrite lookup_insert_ne by done. split_and!; try done; [| lia | lia |].
      * rewrite M5; [done|]. by apply alloc_pslot_apart.
      * intros i b Hi. pose proof (lookup_lt_Some _ _ _ Hi). pose proof (gross_ge x). rewrite M6; [by apply Hb|]. unfold off_data, sizeof_bigslot in *. lia.
    + subst m. exists (Slot sz h). split_and!; [done|by apply Hps, (fr_pslot _ _ _ HF)|]. exists new. cbn [_ptrslot _sz]. rewrite lookup_insert_eq. split_and!; [done|done|done|done| |].
      * cbn [bytes new]. rewrite length_replicate. lia.
      * intros i b [-> Hi]%lookup_replicate. apply M3. lia.
  - intros a Ha. rewrite dom_insert in Ha. destruct (decide (a = h)) as [->|Hne].
    + exists (nxt_memslot s), (Slot sz h). split_and!; [set_solver|done|done].
    + destruct (c_dom _ _ _ HC a) as (m & x & Hm & Hx & Ex); [set_solver|]. destruct (alloc_objects m x Hm Hx). exists m, x. split_and!; [set_solver|by apply M4|done].
Qed.

Lemma alloc_inv : inv s' (<[h := new]> O).
Proof.
  destruct fresh_fields as (E1 & E2 & E3 & E4 & E5 & E6 & E7 & E8 & E9). destruct (fr_np _ _ _ HF) as [Hnp Hnph].
  destruct (alloc_memory s1 h sz Hsz ltac:(rewrite E4; lia)) as (M1 & M2 & M3 & M4 & M5 & M6). rewrite E4, E6, E7, E8 in *. fold s' in M1, M2, M3, M4, M5, M6.
  assert (El : memslots s' = memslots s ++ [nxt_memslot s]) by (change (memslots s') with (memslots s1 ++ [nxt_memslot s1]); by rewrite E4, E5).
  assert (Hsl : forall m, m ∈ memslots s -> slots s' !! m = slots s !! m).
  { intros m Hm. destruct (c_obj _ _ _ (inv_core _ _ HI) m Hm) as (x & Hx & _). destruct (alloc_objects m x Hm Hx). rewrite Hx. by apply M4. }
  split.
  - rewrite El. apply alloc_core.
  - rewrite El. change (abase s') with (abase s1). change (nxt_memslot s') with (nxt_memslot s1 + gross (Slot sz h)). rewrite E1, E4.
    apply (laid_snoc _ _ _ _ (Slot sz h)); [|done|done|done]. apply (laid_ext (slots s)); [done|]. by apply (inv_laid _ _ HI).
  - rewrite El. change (unclaimed_space s') with (unclaimed_space s1). change (abase s') with (abase s1). change (nxt_memslot s') with (nxt_memslot s1 + gross (Slot sz h)).
    rewrite E1, E4, E9, (total_snoc _ _ _ _ M1), (total_ext (slots s)) by done. rewrite (inv_unclaimed _ _ HI). lia.
  - destruct (fr_stack _ _ _ HF) as (F & HF1 & HN & Hni & HF2). split; [|change (asz s') with (asz s1); rewrite E2; apply (fr_size _ _ _ HF)].
    exists F. split_and!; [done|done|]. intros a Ha. destruct (HF2 a Ha) as (Hp & ms & Hms). split.
    + unfold pslot. change (top s') with (top s1). change (nxt_ptrslot s') with (nxt_ptrslot s1). by apply (fr_old _ _ _ HF).
    + exists ms. rewrite M5; [done|]. apply alloc_pslot_apart; [done|]. intros ->. done.
Qed.
End allocated.

Section alloc_run.
Context `{ObjAlignLaws}.

Lemma free_space_nonneg s : 0 <= free_space s.
Proof. unfold free_space. destruct (Z.ltb_spec (nxt_memslot s) (nxt_ptrslot s)); lia. Qed.

(** [aalloc] gives an object of the aligned size that nothing has written, or nothing when it does not fit. *)
Lemma aalloc_ok s O sz : inv s O -> 0 <= sz -> boa_obj_align (boa_obj_align sz) + sizeof_bigslot < 2 ^ 64 ->
  if can_fit sz s then
    exists h s', aalloc sz s = Ok (Some h, s') /\ h ∉ dom O /\ inv s' (<[h := Obj 0 (replicate (Z.to_nat (boa_obj_align sz)) None)]> O) /\
      abase s' = abase s /\ asz s' = asz s
  else aalloc sz s = Ok (None, s).
Proof.
  intros HI Hsz Hov. unfold aalloc. mnorm. destruct (can_fit sz s) eqn:Ef; [|done]. mnorm.
  pose proof (align_up sz) as Ha. pose proof (align_up (boa_obj_align sz)) as Ha2. unfold can_fit, bigslot_size, u64 in Ef. apply Z.leb_le in Ef.
  rewrite Z.mod_small in Ef by (unfold sizeof_bigslot in *; lia).
  assert (Eg : forall h, gross (Slot (boa_obj_align sz) h) = boa_obj_align (boa_obj_align sz) + sizeof_bigslot) by done.
  assert (Hroom : nxt_memslot s + (boa_obj_align (boa_obj_align sz) + sizeof_bigslot) <= nxt_ptrslot s).
  { unfold free_space in Ef. destruct (Z.ltb_spec (nxt_memslot s) (nxt_ptrslot s)); unfold sizeof_bigslot in *; lia. }
  rewrite bind_assert by (apply Z.ltb_lt; unfold sizeof_bigslot in *; lia).
  destruct (get_free_run s O HI) as (h & s1 & E & HF & Hh). rewrite (M_bind_ok _ _ _ _ _ E).
  destruct (fresh_fields s s1 h HF) as (E1 & E2 & E3 & E4 & E5 & E6 & E7 & E8 & E9). destruct (fr_np _ _ _ HF) as [Hnp Hnph].
  destruct (c_geo _ _ _ (inv_core _ _ HI)) as (Hb0 & _ & _). destruct (c_nm _ _ _ (inv_core _ _ HI)) as (Hnm & _ & _).
  rewrite bind_assert by (apply negb_true_iff, Z.eqb_neq; unfold sizeof_bigslot in *; lia). rewrite bind_modify. unfold bigslot_new. rewrite bind_assoc, !bind_modify.
  assert (Hz : 0 <= boa_obj_align sz) by lia. assert (Hr : nxt_memslot s1 + gross (Slot (boa_obj_align sz) h) <= h) by (rewrite Eg, E4; lia).
  destruct (alloc_memory s1 h (boa_obj_align sz) Hz Hr) as (M1 & M2 & _). rewrite E4 in M1, M2.
  rewrite (bind_ptr _ h (Ptr (nxt_memslot s) 0)) by (rewrite <- M2; unfold allocated; by rewrite E4). rewrite bind_assert by done.
  unfold slot_size. rewrite bind_assoc, (bind_slot _ _ (Slot (boa_obj_align sz) h)) by (rewrite <- M1; unfold allocated; by rewrite E4).
  rewrite bind_ret, !bind_modify. cbn [_sz]. pose proof (bigslot_size_gross (Slot (boa_obj_align sz) h) Hz ltac:(rewrite Eg; lia)) as Eb. cbn [_sz] in Eb. rewrite Eb.
  exists h, (allocated s1 h (boa_obj_align sz)). split; [unfold allocated; by rewrite E4|]. split; [done|]. split; [|by split].
  apply (alloc_inv s); [done|done|done|lia|rewrite Eg; lia|rewrite Eg; lia].
Qed.
End alloc_run.

(** ** One object changes *)
Section change.
Context `{ObjAlignLaws}.

Lemma core_set s s' L O h o o' m x : core s L O -> O !! h = Some o -> m ∈ L -> slots s !! m = Some x -> _ptrslot x = h ->
  geometry s' = geometry s -> (forall m', m' ∈ L -> slots s' !! m' = slots s !! m') ->
  (forall a, pslot s a -> a <> h -> ptrs s' !! a = ptrs s !! a) -> ptrs s' !! h = Some (Ptr m (cnt o')) -> 0 <= cnt o' <= INT_MAX ->
  Z.of_nat (length (bytes o')) = _sz x -> (forall i b, bytes o' !! i = Some b -> mem s' (m + off_data + Z.of_nat i) = b) ->
  (forall m' x' y, m' ∈ L -> m' <> m -> slots s !! m' = Some x' -> m' + off_data <= y < m' + off_data + _sz x' -> mem s' y = mem s y) ->
  core s' L (<[h := o']> O).
Proof.
  intros HC Ho Hm Hx Ex HG Hsl Hpt Hph Hc Hl Hb Hmem. pose proof HG as HG'. injection HG' as E1 E2 E3 E4 E5. split.
  - rewrite E1, E2, E3. by apply (c_geo _ _ _ HC).
  - rewrite E3, E4. by apply (c_np _ _ _ HC).
  - rewrite E1, E3, E4, E5. by apply (c_nm _ _ _ HC).
  - intros a Ha. apply (pslot_geometry _ _ _ HG) in Ha. destruct (decide (a = h)) as [->|Hne]; [exists (Ptr m (cnt o')); split; [done|right; set_solver]|].
    destruct (c_ptrs _ _ _ HC a Ha) as (q & Hq & Hd). exists q. rewrite Hpt by done. split; [done|set_solver].
  - intros m' Hm'. destruct (c_obj _ _ _ HC m' Hm') as (x' & Hx' & Hh' & Hob). exists x'. rewrite Hsl by done.
    split_and!; [done|by apply (pslot_geometry _ _ _ HG)|]. destruct (decide (m' = m)) as [->|Hne].
    + rewrite Hx in Hx'. injection Hx' as <-. exists o'. rewrite Ex, lookup_insert_eq. split_and!; try done; lia.
    + assert (Hne2 : _ptrslot x' <> h) by (intros E; apply Hne; eapply one_obj; [done|done|done|done|done|congruence]).
      destruct Hob as (o2 & Ho2 & Hp2 & Hc2 & Hl2 & Hb2). exists o2. rewrite lookup_insert_ne by done. rewrite Hpt by done. split_and!; try done; [lia|lia|].
      intros i b Hi. pose proof (lookup_lt_Some _ _ _ Hi). rewrite (Hmem m' x'); [by apply Hb2|done|done|done|lia].
  - intros a Ha. destruct (c_dom _ _ _ HC a) as (m' & x' & Hm' & Hx' & Ex').
    + rewrite dom_insert in Ha. apply elem_of_union in Ha as [->%elem_of_singleton|Ha]; [apply elem_of_dom; by exists o|done].
    + exists m', x'. by rewrite Hsl.
Qed.

Lemma inv_change s s' O O' : inv s O -> memslots s' = memslots s -> unclaimed_space s' = unclaimed_space s -> free_ptrslots s' = free_ptrslots s -> geometry s' = geometry s ->
  (forall m', m' ∈ memslots s -> slots s' !! m' = slots s !! m') ->
  (forall a, pslot s a -> a ∉ dom O -> ptrs s' !! a = ptrs s !! a) -> core s' (memslots s) O' -> inv s' O'.
Proof.
  intros HI El Eu Ef HG Hsl Hpt HC. pose proof HG as HG'. injection HG' as E1 E2 E3 E4 E5. split.
  - by rewrite El.
  - rewrite El, E1, E5. apply (laid_ext (slots s)); [done|]. by apply (inv_laid _ _ HI).
  - rewrite El, E1, E5, Eu, (total_ext (slots s)) by done. apply (inv_unclaimed _ _ HI).
  - destruct (inv_stack _ _ HI) as [(F & HF & HN & HF2) Hsz]. split; [|by rewrite Ef, E2]. exists F. rewrite Ef. split_and!; [done|done|].
    intros a Ha. destruct (HF2 a Ha) as (Hp & ms & Hms). split; [by apply (pslot_geometry _ _ _ HG)|]. exists ms. rewrite Hpt; [done|done|].
    intros Hd. apply elem_of_dom in Hd as [o Ho]. destruct (obj_of _ _ _ _ _ (inv_core _ _ HI) Ho) as (m & x & _ & _ & _ & _ & Hp' & Hc & _).
    rewrite Hms in Hp'. injection Hp' as _ Hc'. lia.
Qed.

(** A count is set. *)
Lemma set_count_inv s O h o m c : inv s O -> O !! h = Some o -> ptrs s !! h = Some (Ptr m (cnt o)) -> 0 <= c <= INT_MAX ->
  inv (with_memory (slots s) (<[h := Ptr m c]> (ptrs s)) (mem s) s) (<[h := Obj c (bytes o)]> O).
Proof.
  intros HI Ho Hp Hc. destruct (obj_of _ _ _ _ _ (inv_core _ _ HI) Ho) as (m' & x & Hm & Hx & Ex & Hh & Hp' & _ & Hl & Hb).
  rewrite Hp in Hp'. injection Hp' as <-. apply (inv_change s _ O); try done.
  - intros a _ Ha. cbn. rewrite lookup_insert_ne; [done|]. intros <-. apply Ha, elem_of_dom. by exists o.
  - eapply (core_set s _ _ _ h o _ m x); try done; cbn.
    + apply (inv_core _ _ HI).
    + intros a _ Hne. by rewrite lookup_insert_ne.
    + apply lookup_insert_eq.
Qed.

Lemma rc_inc_ok s O h o : inv s O -> O !! h = Some o -> cnt o < INT_MAX ->
  exists s', rc_inc h s = Ok (tt, s') /\ inv s' (<[h := Obj (cnt o + 1) (bytes o)]> O) /\ geometry s' = geometry s.
Proof.
  intros HI Ho Hmax. destruct (obj_of _ _ _ _ _ (inv_core _ _ HI) Ho) as (m & x & _ & _ & _ & _ & Hp & Hc & _).
  unfold rc_inc, set_ptr. rewrite (bind_ptr _ _ _ _ Hp), bind_assert by (cbn; lia). cbn [_count _ms].
  rewrite (bind_lift _ _ _ (cnt o + 1)) by (apply ck_ok; unfold is_int, INT_MIN; lia). rewrite (bind_ptr _ _ _ _ Hp).
  eexists. split; [done|]. split; [|done]. apply set_count_inv; [done|done|done|lia].
Qed.

Lemma rc_dec_ok s O h o : inv s O -> O !! h = Some o -> 0 < cnt o ->
  exists s', rc_dec h s = Ok (negb (cnt o - 1 =? 0), s') /\ inv s' (<[h := Obj (cnt o - 1) (bytes o)]> O) /\ geometry s' = geometry s.
Proof.
  intros HI Ho Hpos. destruct (obj_of _ _ _ _ _ (inv_core _ _ HI) Ho) as (m & x & _ & _ & _ & _ & Hp & Hc & _).
  unfold rc_dec, set_ptr. rewrite (bind_ptr _ _ _ _ Hp), bind_assert by (cbn; lia). cbn [_count _ms].
  rewrite (bind_lift _ _ _ (cnt o - 1)) by (apply ck_ok; unfold is_int, INT_MIN, INT_MAX in *; lia). rewrite bind_assoc, (bind_ptr _ _ _ _ Hp).
  eexists. split; [done|]. split; [|done]. apply set_count_inv; [done|done|done|lia].
Qed.

Lemma data_run s O h o : inv s O -> O !! h = Some o -> exists m, data h s = Ok (m + off_data, s) /\ m ∈ memslots s /\ ptrs s !! h = Some (Ptr m (cnt o)).
Proof.
  intros HI Ho. destruct (obj_of _ _ _ _ _ (inv_core _ _ HI) Ho) as (m & x & Hm & Hx & _ & _ & Hp & _).
  exists m. unfold data. by rewrite (bind_ptr _ _ _ _ Hp), (bind_slot _ _ _ _ Hx).
Qed.

(** Reading gives the client's byte, wherever the object lies. *)
Lemma boa_read_ok s O h o i b : inv s O -> O !! h = Some o -> bytes o !! i = Some b -> read h (Z.of_nat i) s = Ok (b, s).
Proof.
  intros HI Ho Hi. destruct (obj_of _ _ _ _ _ (inv_core _ _ HI) Ho) as (m & x & Hm & Hx & _ & _ & Hp & _ & _ & Hb).
  unfold read, data. rewrite bind_assoc, (bind_ptr _ _ _ _ Hp), bind_assoc, (bind_slot _ _ _ _ Hx), bind_ret. unfold gets. cbn [_ms]. by rewrite (Hb _ _ Hi).
Qed.

Lemma boa_write_ok s O h o i v : inv s O -> O !! h = Some o -> (i < length (bytes o))%nat ->
  exists s', write h (Z.of_nat i) v s = Ok (tt, s') /\ inv s' (<[h := Obj (cnt o) (<[i := Some v]> (bytes o))]> O) /\ geometry s' = geometry s.
Proof.
  intros HI Ho Hi. pose proof (inv_core _ _ HI) as HC. destruct (obj_of _ _ _ _ _ HC Ho) as (m & x & Hm & Hx & Ex & Hh & Hp & Hc & Hl & Hb).
  destruct (data_run s O h o HI Ho) as (m' & Ed & _ & Hp'). rewrite Hp in Hp'. injection Hp' as <-.
  unfold write. rewrite (M_bind_ok _ _ _ _ _ Ed). eexists. split; [done|]. split; [|done]. set (a := m + off_data + Z.of_nat i).
  pose proof (store_out a 1 (fun _ => Some v) s) as HO. pose proof (inv_laid _ _ HI) as HL.
  assert (Hfar : forall m' x', m' ∈ memslots s -> slots s !! m' = Some x' -> m' <> m -> m' + gross x' <= a \/ a + 1 <= m').
  { intros m' x' Hm' Hx' Hne. pose proof (gross_ge x). unfold a, off_data, sizeof_bigslot in *.
    destruct (laid_apart _ _ _ _ m' m x' x HL Hm' Hm Hne Hx' Hx); lia. }
  assert (Hsl : forall m', m' ∈ memslots s -> slots (poke a v s) !! m' = slots s !! m').
  { intros m' Hm'. apply (out_slots _ _ _ _ HO). destruct (decide (m' = m)) as [->|Hne]; [unfold meets, a, off_data; lia|].
    destruct (laid_in _ _ _ _ _ HL Hm') as (x' & Hx' & Hs' & _). pose proof (gross_ge x'). destruct (Hfar m' x' Hm' Hx' Hne); unfold meets, off_data, sizeof_bigslot in *; lia. }
  assert (Hpt : forall p, pslot s p -> ptrs (poke a v s) !! p = ptrs s !! p).
  { intros p Hps. apply (out_ptrs _ _ _ _ HO). destruct (pslot_above _ _ _ _ HC Hps) as (? & _ & _).
    destruct (laid_in _ _ _ _ _ HL Hm) as (y & Hy & _ & _ & _ & ?). rewrite Hx in Hy. injection Hy as <-. pose proof (gross_ge x).
    unfold meets, a, off_data, sizeof_bigslot, sizeof_bigptr in *. lia. }
  apply (inv_change s _ O); try done; [by intros; apply Hpt|].
  eapply (core_set s _ _ _ h o _ m x); try done; [intros; by apply Hpt|by rewrite Hpt|cbn [bytes]; by rewrite length_insert| |]; cbn [bytes].
  - intros j b Hj. destruct (decide (j = i)) as [->|Hne].
    + rewrite list_lookup_insert_eq in Hj by done. injection Hj as <-. cbn. unfold setb. by rewrite bool_decide_true by (unfold a; lia).
    + rewrite list_lookup_insert_ne in Hj by done. rewrite (out_mem _ _ _ _ HO) by (unfold a; lia). by apply Hb.
  - intros m' x' y Hm' Hne Hx' Hy. apply (out_mem _ _ _ _ HO). pose proof (gross_ge x'). destruct (Hfar m' x' Hm' Hx' Hne); unfold off_data, sizeof_bigslot in *; lia.
Qed.
End change.

(** ** An object goes *)
Section free.
Context `{ObjAlignLaws}.

Lemma core_drop s s' L O h o m x : core s L O -> O !! h = Some o -> m ∈ L -> slots s !! m = Some x -> _ptrslot x = h ->
  geometry s' = geometry s -> (forall m', m' ∈ L -> m' <> m -> slots s' !! m' = slots s !! m') ->
  (forall a, pslot s a -> a <> h -> ptrs s' !! a = ptrs s !! a) -> ptrs s' !! h = Some (Ptr m (-1)) ->
  (forall m' x' y, m' ∈ L -> m' <> m -> slots s !! m' = Some x' -> m' + off_data <= y < m' + off_data + _sz x' -> mem s' y = mem s y) ->
  core s' (filter (fun y => y <> m) L) (delete h O).
Proof.
  intros HC Ho Hm Hx Ex HG Hsl Hpt Hph Hmem. pose proof HG as HG'. injection HG' as E1 E2 E3 E4 E5. split.
  - rewrite E1, E2, E3. by apply (c_geo _ _ _ HC).
  - rewrite E3, E4. by apply (c_np _ _ _ HC).
  - rewrite E1, E3, E4, E5. by apply (c_nm _ _ _ HC).
  - intros a Ha. apply (pslot_geometry _ _ _ HG) in Ha. destruct (decide (a = h)) as [->|Hne]; [by exists (Ptr m (-1)); split; [|left]|].
    destruct (c_ptrs _ _ _ HC a Ha) as (q & Hq & Hd). exists q. rewrite Hpt by done. split; [done|set_solver].
  - intros m' [Hne Hm']%list_elem_of_filter. destruct (c_obj _ _ _ HC m' Hm') as (x' & Hx' & Hh' & o2 & Ho2 & Hp2 & Hc2 & Hl2 & Hb2). exists x'. rewrite Hsl by done.
    assert (Hne2 : _ptrslot x' <> h) by (intros E; apply Hne; eapply one_obj; [done|done|done|done|done|congruence]).
    split_and!; [done|by apply (pslot_geometry _ _ _ HG)|]. exists o2. rewrite lookup_delete_ne by done. rewrite Hpt by done. split_and!; try done; [lia|lia|].
    intros i b Hi. pose proof (lookup_lt_Some _ _ _ Hi). rewrite (Hmem m' x'); [by apply Hb2|done|done|done|lia].
  - intros a Ha. rewrite dom_delete in Ha. apply elem_of_difference in Ha as [Ha Hah]. destruct (c_dom _ _ _ HC a Ha) as (m' & x' & Hm' & Hx' & Ex').
    assert (Hne : m' <> m) by (intros ->; rewrite Hx in Hx'; injection Hx' as ->; set_solver).
    exists m', x'. split_and!; [by apply list_elem_of_filter|by rewrite Hsl|done].
Qed.

Lemma total_gross_nonneg sl lo L hi : laid sl lo L hi -> 0 <= total sl L.
Proof.
  revert lo. induction L as [|m L IH]; intros lo HL; [done|]. destruct HL as (_ & x & Hx & Hs & _ & HL). cbn [total]. rewrite Hx. cbn.
  pose proof (gross_ge x). specialize (IH _ HL). unfold sizeof_bigslot in *. lia.
Qed.

Lemma total_le sl lo L hi : laid sl lo L hi -> total sl L <= hi - lo.
Proof.
  revert lo. induction L as [|m L IH]; intros lo HL; cbn [laid total] in *; [unfold sizeof_bigslot in *; lia|].
  destruct HL as (Hm & x & Hx & Hs & _ & HL). rewrite Hx. cbn. specialize (IH _ HL). unfold sizeof_bigslot in *. lia.
Qed.

(** The arena without the object at [m]. *)
Definition freed (s : arena) (h m : Z) (x : bigslot) : arena :=
  let s2 := with_unclaimed (unclaimed_space s + gross x) (with_memslots (filter (fun y => y <> m) (memslots s)) s) in
  let s3 := forget m (gross x) s2 in
  with_memory (slots s3) (<[h := Ptr m (-1)]> (ptrs s3)) (mem s3) s3.

Lemma freed_inv s O h o m x : inv s O -> O !! h = Some o -> m ∈ memslots s -> slots s !! m = Some x -> _ptrslot x = h -> inv (freed s h m x) (delete h O).
Proof.
  intros HI Ho Hm Hx Ex. pose proof (inv_core _ _ HI) as HC. pose proof (inv_laid _ _ HI) as HL. pose proof (laid_NoDup _ _ _ _ HL) as HN.
  destruct (laid_in _ _ _ _ _ HL Hm) as (x0 & Hx0 & Hs & Hg & Hlo & Hhi). rewrite Hx in Hx0. injection Hx0 as <-.
  pose proof (store_out m (gross x) (fun _ => None) s) as HO. pose proof (gross_ge x) as Hge. destruct (c_nm _ _ _ HC) as (_ & Hnm & _).
  assert (Hsl : forall m', m' ∈ memslots s -> m' <> m -> slots (freed s h m x) !! m' = slots s !! m').
  { intros m' Hm' Hne. apply (out_slots _ _ _ _ HO). destruct (laid_in _ _ _ _ _ HL Hm') as (x' & Hx' & Hs' & _). pose proof (gross_ge x').
    destruct (laid_apart _ _ _ _ m' m x' x HL Hm' Hm Hne Hx' Hx); unfold meets, off_data, sizeof_bigslot in *; lia. }
  assert (Hpt : forall a, pslot s a -> a <> h -> ptrs (freed s h m x) !! a = ptrs s !! a).
  { intros a Ha Hne. cbn. rewrite lookup_insert_ne by done. apply (out_ptrs _ _ _ _ HO). destruct (pslot_above _ _ _ _ HC Ha) as (? & _).
    unfold meets. lia. }
  assert (HG : geometry (freed s h m x) = geometry s) by done.
  assert (HC' : core (freed s h m x) (filter (fun y => y <> m) (memslots s)) (delete h O)).
  { eapply (core_drop s _ _ _ h o m x); try done; [cbn; apply lookup_insert_eq|].
    intros m' x' y Hm' Hne Hx' Hy. apply (out_mem _ _ _ _ HO). pose proof (gross_ge x').
    destruct (laid_apart _ _ _ _ m' m x' x HL Hm' Hm Hne Hx' Hx); unfold off_data, sizeof_bigslot in *; lia. }
  assert (Hsl' : forall m', m' ∈ filter (fun y => y <> m) (memslots s) -> slots (freed s h m x) !! m' = slots s !! m').
  { intros m' [? ?]%list_elem_of_filter. by apply Hsl. }
  split; [done| | |].
  - apply (laid_ext (slots s)); [done|]. by apply laid_remove.
  - change (memslots (freed s h m x)) with (filter (fun y => y <> m) (memslots s)). change (unclaimed_space (freed s h m x)) with (unclaimed_space s + gross x).
    rewrite (total_ext (slots s)), (total_remove _ _ _ x) by done. rewrite (inv_unclaimed _ _ HI). change (nxt_memslot (freed s h m x)) with (nxt_memslot s).
    change (abase (freed s h m x)) with (abase s). lia.
  - destruct (inv_stack _ _ HI) as [(F & HF & HNF & HF2) Hsz]. split; [|done]. exists F. split_and!; [done|done|]. intros a Ha.
    destruct (HF2 a Ha) as (Hp & ms & Hms). split; [done|]. exists ms. rewrite Hpt; [done|done|]. intros ->.
    destruct (obj_of _ _ _ _ _ HC Ho) as (m' & x' & _ & _ & _ & _ & Hp' & Hc & _). rewrite Hms in Hp'. injection Hp' as _ Hc'. lia.
Qed.

Lemma remove_run s O h o m x : inv s O -> O !! h = Some o -> m ∈ memslots s -> slots s !! m = Some x -> _ptrslot x = h ->
  remove m s = Ok (tt, with_unclaimed (unclaimed_space s + gross x) (with_memslots (filter (fun y => y <> m) (memslots s)) s)).
Proof.
  intros HI Ho Hm Hx Ex. pose proof (inv_core _ _ HI) as HC. pose proof (inv_laid _ _ HI) as HL.
  destruct (laid_in _ _ _ _ _ HL Hm) as (x0 & Hx0 & Hs & Hg & Hlo & Hhi). rewrite Hx in Hx0. injection Hx0 as <-.
  unfold remove. rewrite (M_bind_ok _ _ _ _ _ (inv_sanity s O HI)). unfold list_remove. rewrite bind_assoc, (bind_slot _ _ _ _ Hx), bind_modify.
  unfold slot_size. rewrite bind_assoc, (bind_slot _ m x) by done. rewrite bind_ret, bind_modify, bigslot_size_gross by done.
  replace (u64 _) with (unclaimed_space s + gross x).
  2:{ cbn. unfold u64. destruct (c_geo _ _ _ HC) as (? & ? & ?). destruct (c_nm _ _ _ HC) as (? & ? & ?). rewrite (inv_unclaimed _ _ HI).
      pose proof (total_gross_nonneg _ _ _ _ (laid_remove _ _ _ _ m HL Hm (laid_NoDup _ _ _ _ HL))) as Ht. rewrite (total_remove _ _ _ x) in Ht by (done || by eapply laid_NoDup).
      pose proof (gross_ge x). pose proof (total_le _ _ _ _ HL). unfold sizeof_bigslot, sizeof_bigptr in *. rewrite Z.mod_small; lia. }
  apply sanity_run; cbn.
  - intros m' [_ Hm']%list_elem_of_filter. by apply (core_slots _ _ _ _ HC).
  - intros a. by apply (core_pslots _ _ _ _ HC).
  - apply (c_np _ _ _ HC).
  - exact (stack_pslots s (inv_stack _ _ HI)).
Qed.

Lemma ptr_deallocate_ok s O h o : inv s O -> O !! h = Some o -> cnt o = 0 ->
  exists s', ptr_deallocate h s = Ok (tt, s') /\ inv s' (delete h O) /\ geometry s' = geometry s.
Proof.
  intros HI Ho H0'. pose proof (inv_core _ _ HI) as HC. pose proof (inv_laid _ _ HI) as HL.
  destruct (obj_of _ _ _ _ _ HC Ho) as (m & x & Hm & Hx & Ex & Hh & Hp & _ & _ & _).
  destruct (laid_in _ _ _ _ _ HL Hm) as (x0 & Hx0 & Hs & Hg & Hlo & Hhi). rewrite Hx in Hx0. injection Hx0 as <-.
  destruct (c_geo _ _ _ HC) as (Hb & Ht & _). destruct (c_nm _ _ _ HC) as (_ & Hn & Hn2). pose proof (gross_ge x) as Hge.
  unfold ptr_deallocate. rewrite (bind_ptr _ _ _ _ Hp). cbn [_count _ms]. rewrite bind_assert by (by rewrite H0'). rewrite (bind_slot _ _ _ _ Hx), bind_gets.
  rewrite bind_assert.
  2:{ unfold cmp. rewrite (proj2 (Z.ltb_ge _ _)), (proj2 (Z.leb_gt _ _)); [done|unfold off_data, sizeof_bigslot, sizeof_bigptr in *; lia..]. }
  unfold slot_deallocate. rewrite bind_assoc, (bind_slot _ _ _ _ Hx), bind_assoc, (M_bind_ok _ _ _ _ _ (remove_run s O h o m x HI Ho Hm Hx Ex)).
  unfold slot_size. rewrite !bind_assoc, (bind_slot _ m x), bind_ret, bind_modify, bigslot_size_gross by done.
  unfold ptr_mark_free, set_ptr. pose proof (store_out m (gross x) (fun _ => None) s) as HO.
  set (s3 := forget m (gross x) _). assert (Hp3 : ptrs s3 !! h = Some (Ptr m (cnt o))).
  { rewrite <- Hp. apply (out_ptrs _ _ _ _ HO). destruct (pslot_above _ _ _ _ HC Hh) as (? & _). unfold meets. lia. }
  rewrite (bind_ptr _ _ _ _ Hp3), (bind_ptr _ _ _ _ Hp3). exists (freed s h m x). split; [done|]. split; [|done]. by eapply freed_inv.
Qed.
End free.

(** ** Collection *)
Lemma push_back_size {A} (t : A) st st' : push_back t st = Ok st' -> 0 <= _size st -> _size st' <= Z.max (_size st) (2 * _nxt st).
Proof.
  unfold push_back, stack_reserve. intros E Hs. destruct (Z.eqb_spec (_nxt st) (_size st)) as [En|En].
  - destruct (stack_copy _ _ _ _) as [nb|]; [|done]. cbn in E. destruct (_nxt st <? u64 (_size st * 2)); [|done]. cbn in E.
    destruct (aset nb _ _) as [b|]; [|done]. injection E as <-. cbn. unfold u64. pose proof (Z.mod_le (_size st * 2) (2 ^ 64) ltac:(lia) ltac:(lia)). lia.
  - cbn in E. destruct (_nxt st <? _size st); [|done]. cbn in E. destruct (aset _ _ _) as [b|]; [|done]. injection E as <-. cbn. lia.
Qed.

Section collect.
Context `{ObjAlignLaws}.

(** The free slots among the first [j]. *)
Record collected (s : arena) (j : Z) (st : simple_stack Z) : Prop := {
  col_stack : exists F, is_stack st F /\ NoDup F /\ Z.of_nat (length F) <= j /\
    forall h, h ∈ F -> exists i ms, 0 <= i < j /\ h = top s - sizeof_bigptr * (i + 1) /\ ptrs s !! h = Some (Ptr ms (-1));
  col_size : _size st <= 16 + 2 * asz s
}.

Lemma collect_slots_run s n j fuel st last : (forall i, 0 <= i < j + Z.of_nat n -> is_Some (ptrs s !! (top s - sizeof_bigptr * (i + 1)))) ->
  0 <= j -> nxt_ptrslot s = top s - sizeof_bigptr * (j + Z.of_nat n + 1) -> sizeof_bigptr * (j + Z.of_nat n) <= asz s < 2 ^ 61 ->
  collected s j st -> (n < fuel)%nat ->
  exists st', loopM fuel (collect_round (nxt_ptrslot s)) (top s - sizeof_bigptr * (j + 1), last) (with_free st s) =
    Ok (match n with O => last | S _ => Some (top s - sizeof_bigptr * (j + Z.of_nat n)) end, with_free st' s) /\ collected s (j + Z.of_nat n) st'.
Proof.
  revert j fuel st last. induction n as [|n IH]; intros j fuel st last Hp Hj En Hb HC Hf; (destruct fuel as [|fuel]; [lia|]); rewrite loopM_step; cbn [collect_round].
  - rewrite (proj2 (Z.ltb_ge _ _)) by (unfold sizeof_bigptr in *; lia). exists st. by rewrite Z.add_0_r.
  - rewrite (proj2 (Z.ltb_lt _ _)) by (unfold sizeof_bigptr in *; lia). destruct (Hp j ltac:(lia)) as [q Hq].
    rewrite (bind_ptr _ _ q) by done.
    assert (E1 : exists st1, (if _count q =? -1 then st ← gets free_ptrslots; st ← lift (push_back (top s - sizeof_bigptr * (j + 1)) st); modify (with_free st) else mret tt) (with_free st s) = Ok (tt, with_free st1 s) /\ collected s (j + 1) st1).
    { destruct HC as [(F & HF & HN & HlF & HF2) Hsz]. destruct (Z.eqb_spec (_count q) (-1)) as [Ec|Ec].
      - mnorm. destruct (stk_size _ _ HF) as [_ Hs0]. destruct (push_back_ok (top s - sizeof_bigptr * (j + 1)) st F HF ltac:(unfold sizeof_bigptr in *; lia)) as (st1 & E & HF1).
        rewrite (bind_lift _ _ _ _ E). exists st1. split; [done|]. split.
        + exists (F ++ [top s - sizeof_bigptr * (j + 1)]). split_and!; [done| |rewrite length_app; cbn; lia|].
          * apply NoDup_app. split_and!; [done| |apply NoDup_singleton]. intros h Hh Eh%list_elem_of_singleton. subst h. destruct (HF2 _ Hh) as (i & ms & Hi & E' & _). unfold sizeof_bigptr in *. lia.
          * intros h [Hh|Hh%list_elem_of_singleton]%elem_of_app; [destruct (HF2 _ Hh) as (i & ms & Hi & ? & ?); exists i, ms; split_and!; [lia|lia|done|done]|subst h].
            exists j. destruct q as [ms c]. cbn in Ec. subst c. exists ms. split_and!; [lia|lia|done|done].
        + pose proof (push_back_size _ _ _ E ltac:(lia)) as Hps. rewrite (stk_nxt _ _ HF) in Hps. unfold sizeof_bigptr in *. lia.
      - exists st. split; [done|]. split; [|done]. exists F. split_and!; [done|done|lia|]. intros h Hh. destruct (HF2 _ Hh) as (i & ms & Hi & ? & ?). exists i, ms. split_and!; [lia|lia|done|done]. }
    destruct E1 as (st1 & E1 & HC1). rewrite (M_bind_ok _ _ _ _ _ E1). unfold mret at 1, M_ret at 1.
    replace (top s - sizeof_bigptr * (j + 1) - sizeof_bigptr) with (top s - sizeof_bigptr * (j + 1 + 1)) by lia.
    destruct (IH (j + 1) fuel st1 (Some (top s - sizeof_bigptr * (j + 1)))) as (st' & E & HC'); [intros i Hi; apply Hp; lia|lia|rewrite En; f_equal; lia|unfold sizeof_bigptr in *; lia|done|lia|].
    exists st'. replace (j + Z.of_nat (S n)) with (j + 1 + Z.of_nat n) by lia. split; [|done].
    etrans; [exact E|]. do 2 f_equal. destruct n; [by rewrite Z.add_0_r|done].
Qed.

Lemma np_bound s L O k : core s L O -> nxt_ptrslot s = top s - sizeof_bigptr * (k + 1) -> sizeof_bigptr * k <= asz s.
Proof. intros HC Ek. destruct (c_geo _ _ _ HC) as (? & ? & ?). destruct (c_nm _ _ _ HC) as (? & ? & ?). unfold sizeof_bigptr in *. lia. Qed.

Lemma collect_run s L O : core s L O -> stack_ok s -> exists st, collect_ptrslots s = Ok (tt, with_free st s) /\ stack_ok (with_free st s).
Proof.
  intros HC HS. destruct (c_np _ _ _ HC) as (k & Hk & Ek). destruct (c_geo _ _ _ HC) as (Hb & Ht & Ha). pose proof (np_bound _ _ _ _ HC Ek) as Hkb.
  unfold collect_ptrslots. mnorm. rewrite bind_modify. mnorm. destruct HS as [(F & HF & _) Hsz].
  destruct (collect_slots_run s (Z.to_nat k) 0 (pfuel s) (stack_clear (free_ptrslots s)) None) as (st' & E & [(F' & HF' & HN' & _ & HF2') Hsz']).
  - intros i Hi. destruct (c_ptrs _ _ _ HC (top s - sizeof_bigptr * (i + 1))) as (q & Hq & _); [|by exists q].
    exists i. split_and!; [lia|done|]. unfold sizeof_bigptr in *. lia.
  - lia.
  - rewrite Ek. f_equal. f_equal. lia.
  - unfold sizeof_bigptr in *. lia.
  - split; [|done]. exists []. split_and!; [by eapply stack_clear_ok|constructor|done|]. intros h Hh. by apply not_elem_of_nil in Hh.
  - by apply pfuel_ok.
  - change (top s - sizeof_bigptr * (0 + 1)) with (top s - sizeof_bigptr) in E.
    change (pfuel (with_free (stack_clear (free_ptrslots s)) s)) with (pfuel s). rewrite (M_bind_ok _ _ _ _ _ E). exists st'. split.
    + destruct (Z.to_nat k) as [|n] eqn:En; [done|]. unfold modify. do 2 f_equal. rewrite Z.add_0_l, <- En, Z2Nat.id by lia.
      replace (top s - sizeof_bigptr * k - sizeof_bigptr) with (nxt_ptrslot s) by (rewrite Ek; lia). by destruct s.
    + split; [|done]. exists F'. split_and!; [done|done|]. intros h Hh. destruct (HF2' h Hh) as (i & ms & Hi & -> & Hms). split; [|by exists ms].
      exists i. cbn. split_and!; [lia|done|]. unfold sizeof_bigptr in *. lia.
Qed.
End collect.

Section compact.
Context `{ObjAlignLaws}.

(** The object at [m] is copied down to [p]: its header and its bytes arrive, and nothing else is written than where it now lies. *)
Record moved (s s' : arena) (p m : Z) (x : bigslot) : Prop := {
  mv_rest : s' = with_memory (slots s') (ptrs s') (mem s') s;
  mv_slot : slots s' !! p = Some x;
  mv_out : same_out p (off_data + _sz x) s s';
  mv_bytes i : 0 <= i < _sz x -> mem s' (p + off_data + i) = mem s (m + off_data + i)
}.

Lemma copy_reinit_run s p m x : slots s !! m = Some x -> 0 <= _sz x -> (m = p \/ p + sizeof_bigslot <= m) ->
  exists s', copy_reinit p m s = Ok (tt, s') /\ moved s s' p m x.
Proof.
  intros Hx Hs Hpm. unfold copy_reinit. rewrite (bind_slot _ _ _ _ Hx). unfold sizeof_bigslot in Hpm.
  set (s1 := if p =? m then s else forget p off_data s).
  assert (E1 : (if p =? m then mret tt else modify (forget p off_data)) s = Ok (tt, s1)) by (unfold s1; by destruct (p =? m)).
  assert (O1 : same_out p off_data s s1) by (unfold s1; destruct (p =? m); [apply same_out_refl|apply store_out]).
  assert (Hx1 : slots s1 !! m = Some x).
  { unfold s1. destruct (Z.eqb_spec p m) as [->|Hne]; [done|]. rewrite <- Hx. apply lookup_slots_but. unfold meets, off_data. lia. }
  assert (B1 : forall i, 0 <= i < _sz x -> mem s1 (m + off_data + i) = mem s (m + off_data + i)).
  { intros i Hi. apply (out_mem _ _ _ _ O1). unfold off_data. lia. }
  rewrite (M_bind_ok _ _ _ _ _ E1), (bind_slot _ _ _ _ Hx1), bind_modify.
  replace (Slot (_sz x) (_ptrslot x)) with x by (by destruct x). set (s2 := put_slot p x s1).
  pose proof (put_slot_out p x s1) as O2. fold s2 in O2.
  assert (Hx2 : slots s2 !! m = Some x).
  { destruct Hpm as [->|Hlt]; [apply lookup_insert_eq|]. rewrite <- Hx1. apply (out_slots _ _ _ _ O2). unfold meets, off_data. lia. }
  rewrite (bind_slot _ _ _ _ Hx2). eexists. split; [done|]. pose proof (store_out (p + off_data) (_sz x) (fun i => mem s2 (m + off_data + i)) s2) as O3.
  split.
  - unfold s2, s1. by destruct (p =? m).
  - rewrite (out_slots _ _ _ _ O3) by (unfold meets, off_data; lia). apply lookup_insert_eq.
  - apply (same_out_trans _ _ _ s2); [apply (same_out_trans _ _ _ s1)|].
    + eapply same_out_weaken; [| |exact O1]; lia.
    + eapply same_out_weaken; [| |exact O2]; lia.
    + eapply same_out_weaken; [| |exact O3]; unfold off_data; lia.
  - intros i Hi. cbn [mem memmove store with_memory]. rewrite setb_in by lia. replace (p + off_data + i - (p + off_data)) with i by lia.
    rewrite (out_mem _ _ _ _ O2) by (unfold off_data; lia). by apply B1.
Qed.

(** The objects [nl] are in place up to [p], [m] is next, and the others [L] are still where they were. *)
Record halfway (s : arena) (nl : list Z) (p : Z) (L : list Z) (O : objs) : Prop := {
  hw_core : core s (nl ++ L) O;
  hw_packed : packed (slots s) (abase s) nl p;
  hw_laid : laid (slots s) p L (nxt_memslot s)
}.

Lemma packed_in sl lo L hi m : packed sl lo L hi -> m ∈ L -> exists x, sl !! m = Some x /\ 0 <= _sz x /\ m + gross x <= hi.
Proof. intros HP Hm. destruct (laid_in _ _ _ _ _ (packed_laid _ _ _ _ HP) Hm) as (x & Hx & Hs & _ & _ & Hhi). by exists x. Qed.

(** The arena after the slot of the object that moved to [p] points there. *)
Definition reseated (s' : arena) (p h c : Z) : arena := with_memory (slots s') (<[h := Ptr p c]> (ptrs s')) (mem s') s'.

Lemma halfway_step s s' nl p m L O x o : halfway s nl p (m :: L) O -> moved s s' p m x -> slots s !! m = Some x -> O !! _ptrslot x = Some o ->
  halfway (reseated s' p (_ptrslot x) (cnt o)) (nl ++ [p]) (p + gross x) L O.
Proof.
  intros [HC HP HL] HM Hx Ho. pose proof (mv_out _ _ _ _ _ HM) as HO. pose proof (gross_ge x) as Hge.
  set (h := _ptrslot x) in *. set (s2 := reseated s' p h (cnt o)).
  assert (HG : geometry s2 = geometry s) by (unfold s2; rewrite (mv_rest _ _ _ _ _ HM); done).
  assert (E1 : abase s2 = abase s) by exact (f_equal (fun g => g.1.1.1.1) HG). assert (E2 : asz s2 = asz s) by exact (f_equal (fun g => g.1.1.1.2) HG).
  assert (E3 : top s2 = top s) by exact (f_equal (fun g => g.1.1.2) HG). assert (E4 : nxt_ptrslot s2 = nxt_ptrslot s) by exact (f_equal (fun g => g.1.2) HG).
  assert (E5 : nxt_memslot s2 = nxt_memslot s) by exact (f_equal snd HG).
  pose proof HL as HL'. destruct HL' as (Hpm & x0 & Hx0 & Hs & Hg & HL2). rewrite Hx in Hx0. injection Hx0 as <-.
  pose proof (laid_le _ _ _ _ HL2) as Hle. destruct (c_nm _ _ _ HC) as (Hn1 & Hn2 & Hn3). unfold sizeof_bigslot in *.
  assert (Hout : forall m' y, m' ∈ nl ++ L -> slots s !! m' = Some y -> 0 <= _sz y /\ (m' + gross y <= p \/ p + (off_data + _sz x) <= m')).
  { intros m' y [Hm'|Hm']%elem_of_app Hy.
    - destruct (packed_in _ _ _ _ _ HP Hm') as (y' & Hy' & Hys & Hye). rewrite Hy in Hy'. injection Hy' as <-. split; [done|by left].
    - destruct (laid_in _ _ _ _ _ HL2 Hm') as (y' & Hy' & Hys & _ & Hyl & _). rewrite Hy in Hy'. injection Hy' as <-. split; [done|right]. unfold off_data. lia. }
  assert (Hsl : forall m', m' ∈ nl ++ L -> slots s2 !! m' = slots s !! m').
  { intros m' Hm'. destruct (core_slots _ _ _ m' HC ltac:(set_solver)) as [y Hy]. destruct (Hout m' y Hm' Hy) as [Hys Hd]. pose proof (gross_ge y).
    apply (out_slots _ _ _ _ HO). unfold meets, off_data, sizeof_bigslot in *. lia. }
  assert (Hslp : slots s2 !! p = Some x) by apply (mv_slot _ _ _ _ _ HM).
  assert (Hpt : forall a, pslot s a -> a <> h -> ptrs s2 !! a = ptrs s !! a).
  { intros a Ha Hne. unfold s2, reseated. cbn [ptrs with_memory]. rewrite lookup_insert_ne by done. apply (out_ptrs _ _ _ _ HO).
    destruct (pslot_above _ _ _ _ HC Ha) as (? & _). unfold meets, off_data. lia. }
  destruct (c_obj _ _ _ HC m ltac:(set_solver)) as (x1 & Hx1 & Hh & o1 & Ho1 & Hp1 & Hc1 & Hl1 & Hb1). rewrite Hx in Hx1. injection Hx1 as <-.
  fold h in Hh, Ho1, Hp1. rewrite Ho in Ho1. injection Ho1 as <-.
  split.
  - split.
    + rewrite E1, E2, E3. by apply (c_geo _ _ _ HC).
    + rewrite E3, E4. by apply (c_np _ _ _ HC).
    + rewrite E1, E3, E4, E5. by apply (c_nm _ _ _ HC).
    + intros a Ha. apply (pslot_geometry _ _ _ HG) in Ha. destruct (decide (a = h)) as [->|Hne].
      * exists (Ptr p (cnt o)). split; [apply lookup_insert_eq|right]. apply elem_of_dom. by exists o.
      * rewrite Hpt by done. by apply (c_ptrs _ _ _ HC).
    + intros m' Hm'. assert (Hm2 : m' = p \/ m' ∈ nl ++ L) by set_solver. destruct Hm2 as [->|Hm2].
      * exists x. split_and!; [done|by apply (pslot_geometry _ _ _ HG)|]. exists o. fold h. split_and!; [done|apply lookup_insert_eq|lia|lia|done|].
        intros i b Hi. pose proof (lookup_lt_Some _ _ _ Hi). unfold s2, reseated. cbn [mem with_memory]. rewrite (mv_bytes _ _ _ _ _ HM) by lia. by apply Hb1.
      * destruct (c_obj _ _ _ HC m' ltac:(set_solver)) as (y & Hy & Hyh & o2 & Ho2 & Hp2 & Hc2 & Hl2 & Hb2). destruct (Hout m' y Hm2 Hy) as [Hys Hd].
        assert (Hne : m' <> m).
        { intros ->. apply elem_of_app in Hm2 as [Hm2|Hm2].
          - destruct (packed_in _ _ _ _ _ HP Hm2) as (z & Hz & _ & Hze). rewrite Hx in Hz. injection Hz as <-. lia.
          - destruct (laid_in _ _ _ _ _ HL2 Hm2) as (z & _ & _ & _ & Hzl & _). lia. }
        assert (Hin : m' ∈ nl ++ m :: L) by (rewrite elem_of_app, elem_of_cons; apply elem_of_app in Hm2; tauto).
        assert (Hin2 : m ∈ nl ++ m :: L) by (rewrite elem_of_app, elem_of_cons; tauto).
        assert (Hne2 : _ptrslot y <> h) by (intros E; apply Hne; by eapply (one_obj s (nl ++ m :: L))).
        pose proof (gross_ge y). exists y. split_and!; [by rewrite Hsl|by apply (pslot_geometry _ _ _ HG)|]. exists o2. rewrite Hpt by done. split_and!; try done; [lia|lia|].
        intros i b Hi. pose proof (lookup_lt_Some _ _ _ Hi). unfold s2, reseated. cbn [mem with_memory]. rewrite (out_mem _ _ _ _ HO); [by apply Hb2|]. unfold off_data, sizeof_bigslot in *. lia.
    + intros a Ha. destruct (c_dom _ _ _ HC a Ha) as (m' & y & Hm' & Hy & Ey). destruct (decide (m' = m)) as [->|Hne].
      * rewrite Hx in Hy. injection Hy as <-. exists p, x. split_and!; [set_solver|done|done].
      * assert (Hm2 : m' ∈ nl ++ L) by set_solver. exists m', y. split_and!; [set_solver|by rewrite Hsl|done].
  - rewrite E1. apply packed_snoc; [|done|done|done]. apply (packed_ext (slots s)); [|done]. intros m' Hm'. apply Hsl. set_solver.
  - rewrite E5. apply (laid_ext (slots s)); [intros m' Hm'; apply Hsl; set_solver|]. destruct Hpm as [<-|Hpm]; [done|].
    destruct L as [|m2 L]; cbn [laid] in *; [unfold sizeof_bigslot in *; lia|]. destruct HL2 as [Hm2 HL2]. split; [unfold sizeof_bigslot in *; lia|done].
Qed.
End compact.

Section collection.
Context `{ObjAlignLaws}.

(** What the steps of a compaction leave alone besides the objects. *)
Record steady (s s' : arena) (O : objs) : Prop := {
  st_geometry : geometry s' = geometry s;
  st_free : free_ptrslots s' = free_ptrslots s;
  st_ptrs a : pslot s a -> a ∉ dom O -> ptrs s' !! a = ptrs s !! a
}.

Lemma steady_trans s1 s2 s3 O : steady s1 s2 O -> steady s2 s3 O -> steady s1 s3 O.
Proof.
  intros [G1 F1 P1] [G2 F2 P2]. split; [congruence|congruence|]. intros a Ha Hd. rewrite P2, P1; [done|done|done| |done].
  by apply (pslot_geometry _ _ _ G1).
Qed.

Lemma steady_stack s s' O : steady s s' O -> (forall a ms, a ∈ dom O -> ptrs s !! a <> Some (Ptr ms (-1))) -> stack_ok s -> stack_ok s'.
Proof.
  intros [HG HF HP] Hd [(F & HF1 & HN & HF2) Hsz]. assert (E2 : asz s' = asz s) by exact (f_equal (fun g => g.1.1.1.2) HG).
  split; [|by rewrite HF, E2]. exists F. rewrite HF. split_and!; [done|done|]. intros a Ha. destruct (HF2 a Ha) as (Hp & ms & Hms).
  split; [by apply (pslot_geometry _ _ _ HG)|]. exists ms. rewrite HP; [done|done|]. intros Hin. by apply (Hd a ms Hin).
Qed.

Lemma live_not_free s L O a ms : core s L O -> a ∈ dom O -> ptrs s !! a <> Some (Ptr ms (-1)).
Proof.
  intros HC Ha E. apply elem_of_dom in Ha as [o Ho]. destruct (obj_of _ _ _ _ _ HC Ho) as (m & x & _ & _ & _ & _ & Hp & Hc & _).
  rewrite Hp in E. injection E as _ E. lia.
Qed.

Lemma core_memslots s L O l : core s L O -> core (with_memslots l s) L O.
Proof. intros []. by split. Qed.

Lemma compact_slot_run s nl p m L O : halfway s nl p (m :: L) O -> memslots s = m :: L ->
  exists x s', slots s !! m = Some x /\ compact_slot m p s = Ok (p + gross x, s') /\ halfway s' (nl ++ [p]) (p + gross x) L O /\ memslots s' = L /\
    (forall m', m' ∈ L -> slots s' !! m' = slots s !! m') /\ steady s s' O.
Proof.
  intros HW El. pose proof HW as [HC HP HL]. pose proof HL as (Hpm & x & Hx & Hs & Hg & HL2). exists x.
  pose proof (laid_le _ _ _ _ HL2) as Hle. pose proof (laid_le _ _ _ _ (packed_laid _ _ _ _ HP)) as Hbp. pose proof (gross_ge x) as Hge.
  destruct (c_nm _ _ _ HC) as (Hn1 & Hn2 & Hn3). destruct (c_obj _ _ _ HC m ltac:(set_solver)) as (x1 & Hx1 & Hh & o & Ho & Hpo & Hco & _).
  rewrite Hx in Hx1. injection Hx1 as <-. unfold compact_slot. rewrite (bind_slot _ _ _ _ Hx), bind_modify. rewrite El. cbn [tail].
  set (s0 := with_memslots L s). assert (HW0 : halfway s0 nl p (m :: L) O) by (split; [by apply core_memslots|done|done]).
  unfold sizeof_bigslot, sizeof_bigptr in *. rewrite (proj2 (Z.ltb_lt p _)) by (unfold off_data; lia). mnorm.
  change (abase s0) with (abase s). change (top s0) with (top s).
  rewrite bind_assert by (apply Z.leb_le; unfold off_data; lia). rewrite bind_assert by (apply Z.leb_le; unfold off_data; lia).
  rewrite bind_assert by (apply Z.ltb_lt; unfold off_data; lia). rewrite bind_assert by (apply Z.ltb_lt; unfold off_data; lia).
  destruct (copy_reinit_run s0 p m x Hx Hs ltac:(unfold sizeof_bigslot; lia)) as (s1 & E1 & HM). rewrite (M_bind_ok _ _ _ _ _ E1).
  pose proof (halfway_step s0 s1 nl p m L O x o HW0 HM Hx Ho) as HW1. pose proof (mv_out _ _ _ _ _ HM) as HO.
  destruct (pslot_above _ _ _ _ HC Hh) as (Hab & _). assert (Hp1 : ptrs s1 !! _ptrslot x = Some (Ptr m (cnt o))).
  { rewrite <- Hpo. change (ptrs s) with (ptrs s0). apply (out_ptrs _ _ _ _ HO). unfold meets, off_data. lia. }
  unfold reseat, set_ptr. rewrite bind_assoc, (bind_slot _ _ _ _ (mv_slot _ _ _ _ _ HM)), bind_assoc, (bind_ptr _ _ _ _ Hp1), bind_assoc, (bind_ptr _ _ _ _ Hp1), bind_modify.
  cbn [_count]. change (with_memory _ _ _ s1) with (reseated s1 p (_ptrslot x) (cnt o)).
  unfold slot_size. rewrite bind_assoc, (bind_slot _ p x) by (apply (mv_slot _ _ _ _ _ HM)). rewrite bind_ret, bigslot_size_gross by done.
  rewrite bind_assert by (apply Z.ltb_lt; lia). rewrite bind_assert by (apply Z.ltb_lt; lia).
  eexists. split; [done|]. split; [done|]. split; [done|]. split.
  { cbn. by rewrite (mv_rest _ _ _ _ _ HM). }
  split.
  - intros m' Hm'. cbn. change (slots s) with (slots s0). destruct (laid_in _ _ _ _ _ HL2 Hm') as (y & _ & _ & _ & Hyl & _).
    apply (out_slots _ _ _ _ HO). unfold meets, off_data. lia.
  - split; [unfold reseated; by rewrite (mv_rest _ _ _ _ _ HM)|cbn; by rewrite (mv_rest _ _ _ _ _ HM)|].
    intros a Ha Hd. cbn. rewrite lookup_insert_ne by (intros E; apply Hd; rewrite <- E; apply elem_of_dom; by exists o).
    change (ptrs s) with (ptrs s0). apply (out_ptrs _ _ _ _ HO). destruct (pslot_above _ _ _ _ HC Ha) as (? & _). unfold meets, off_data. lia.
Qed.

Lemma compact_loop_run L s nl p O : halfway s nl p L O -> memslots s = L ->
  exists nl' s', compact_loop L p nl s = Ok ((p + total (slots s) L, nl'), s') /\ halfway s' nl' (p + total (slots s) L) [] O /\ steady s s' O.
Proof.
  revert s nl p. induction L as [|m L IH]; intros s nl p HW El; cbn [compact_loop].
  - exists nl, s. cbn [total]. rewrite Z.add_0_r. by split_and!.
  - destruct (compact_slot_run s nl p m L O HW El) as (x & s1 & Hx & E1 & HW1 & El1 & Hsl & HS1). rewrite (M_bind_ok _ _ _ _ _ E1).
    destruct (IH s1 (nl ++ [p]) (p + gross x) HW1 El1) as (nl' & s2 & E2 & HW2 & HS2). rewrite (total_ext (slots s)) in E2, HW2 by done.
    cbn [total]. rewrite Hx. cbn [from_option]. rewrite Z.add_assoc. exists nl', s2. split; [exact E2|]. split; [done|]. by eapply steady_trans.
Qed.

(** The objects lie side by side from the bottom of the arena. *)
Lemma compact_run s O : inv s O -> exists s', compact_memslots s = Ok (tt, s') /\ core s' (memslots s') O /\ stack_ok s' /\
  packed (slots s') (abase s') (memslots s') (nxt_memslot s') /\ nxt_memslot s' = nxt_memslot s - unclaimed_space s /\
  abase s' = abase s /\ asz s' = asz s /\ top s' = top s /\ nxt_ptrslot s' = nxt_ptrslot s /\ free_ptrslots s' = free_ptrslots s /\
  (forall a, pslot s a -> a ∉ dom O -> ptrs s' !! a = ptrs s !! a).
Proof.
  intros HI. pose proof (inv_core _ _ HI) as HC. unfold compact_memslots. mnorm. rewrite (M_bind_ok _ _ _ _ _ (inv_sanity s O HI)).
  destruct (compact_loop_run (memslots s) s [] (abase s) O) as (nl & s1 & E1 & [HC1 HP1 HL1] & HS); [split; [done|done|by apply (inv_laid _ _ HI)]|done|].
  rewrite (M_bind_ok _ _ _ _ _ E1), bind_modify. cbn [fst snd]. rewrite app_nil_r in HC1. set (p := abase s + total (slots s) (memslots s)) in *.
  assert (Ep : p = nxt_memslot s - unclaimed_space s) by (rewrite (inv_unclaimed _ _ HI); unfold p; lia).
  pose proof (st_geometry _ _ _ HS) as HG.
  assert (G1 : abase s1 = abase s) by exact (f_equal (fun g => g.1.1.1.1) HG). assert (G2 : asz s1 = asz s) by exact (f_equal (fun g => g.1.1.1.2) HG).
  assert (G3 : top s1 = top s) by exact (f_equal (fun g => g.1.1.2) HG). assert (G4 : nxt_ptrslot s1 = nxt_ptrslot s) by exact (f_equal (fun g => g.1.2) HG).
  assert (G5 : nxt_memslot s1 = nxt_memslot s) by exact (f_equal snd HG).
  assert (HS1 : stack_ok s1) by (eapply (steady_stack s s1 O); [done|intros a ms; by apply (live_not_free s (memslots s))|apply (inv_stack _ _ HI)]).
  set (s2 := with_memslots nl s1).
  assert (E2 : sanity_check s2 = Ok (tt, s2)).
  { apply sanity_run; cbn; [intros m; by apply (core_slots _ _ _ _ HC1)|intros a; by apply (core_pslots _ _ _ _ HC1)|apply (c_np _ _ _ HC1)|exact (stack_pslots s1 HS1)]. }
  rewrite (M_bind_ok _ _ _ _ _ E2). eexists. split; [done|]. cbn [memslots nxt_memslot with_nxt abase asz top nxt_ptrslot slots ptrs free_ptrslots s2 with_memslots].
  pose proof (laid_le _ _ _ _ (packed_laid _ _ _ _ HP1)) as Hbp. pose proof (total_le _ _ _ _ (inv_laid _ _ HI)) as Htl.
  split; [|split_and!; try done; [|apply (st_free _ _ _ HS)|apply (st_ptrs _ _ _ HS)]].
  - destruct HC1 as [C1 C2 C3 C4 C5 C6]. split; try done. cbn. destruct C3 as (? & ? & ?). split_and!; unfold p in *; lia.
  - destruct HS1 as [HS1 HS2]. by split.
Qed.

Lemma gc_run s O lru : inv s O -> nxt_memslot s <= nxt_ptrslot s + unclaimed_space s ->
  exists s', gc lru s = Ok (tt, s') /\ inv s' O /\ packed (slots s') (abase s') (memslots s') (nxt_memslot s') /\
    unclaimed_space s' = 0 /\ free_space s' = nxt_ptrslot s - nxt_memslot s + unclaimed_space s /\ abase s' = abase s /\ asz s' = asz s.
Proof.
  intros HI Hfit. unfold gc.
  assert (E0 : (if lru then lru_accounting else mret tt) s = Ok (tt, s)).
  { destruct lru; [|done]. unfold lru_accounting. mnorm. apply check_slots_run. intros m. by apply (core_slots _ _ _ _ (inv_core _ _ HI)). }
  rewrite (M_bind_ok _ _ _ _ _ E0). destruct (collect_run s (memslots s) O (inv_core _ _ HI) (inv_stack _ _ HI)) as (st & E1 & HS1). rewrite (M_bind_ok _ _ _ _ _ E1).
  set (s1 := with_free st s) in *. assert (HI1 : inv s1 O).
  { destruct HI as [[C1 C2 C3 C4 C5 C6] HL HU _]. split; [by split|done|done|done]. }
  destruct (compact_run s1 O HI1) as (s2 & E2 & HC2 & HS2 & HP2 & Enm & Eb & Ea & Et & Enp & _). rewrite (M_bind_ok _ _ _ _ _ E2), bind_modify.
  change (unclaimed_space s1) with (unclaimed_space s) in Enm. change (nxt_memslot s1) with (nxt_memslot s) in Enm. change (nxt_ptrslot s1) with (nxt_ptrslot s) in Enp.
  change (abase s1) with (abase s) in Eb. change (asz s1) with (asz s) in Ea.
  destruct (c_geo _ _ _ HC2) as (Hg1 & Hg2 & Hg3). destruct (c_nm _ _ _ HC2) as (Hn1 & Hn2 & Hn3). destruct (c_np _ _ _ HC2) as (k & Hk & Ek).
  assert (Eu : u64 (nxt_ptrslot s2 - nxt_memslot s2) = nxt_ptrslot s2 - nxt_memslot s2) by (unfold u64, sizeof_bigptr in *; rewrite Z.mod_small; lia).
  rewrite Eu. set (n := nxt_ptrslot s2 - nxt_memslot s2) in *. pose proof (store_out (nxt_memslot s2) n (fun _ => None) s2) as HO. fold (forget (nxt_memslot s2) n s2) in HO.
  set (s3 := forget (nxt_memslot s2) n s2) in *.
  assert (HC3 : core s3 (memslots s3) O).
  { apply (core_out (nxt_memslot s2) n s2); [done|done|unfold n, sizeof_bigptr; lia| |done]. intros m x Hm Hx.
    destruct (packed_in _ _ _ _ _ HP2 Hm) as (y & Hy & Hys & Hye). rewrite Hx in Hy. injection Hy as <-. split; [done|by left]. }
  assert (HP3 : packed (slots s3) (abase s3) (memslots s3) (nxt_memslot s3)).
  { apply (packed_ext (slots s2)); [|done]. intros m Hm. apply (out_slots _ _ _ _ HO). destruct (packed_in _ _ _ _ _ HP2 Hm) as (y & _ & Hys & Hye).
    pose proof (gross_ge y). unfold meets, off_data, sizeof_bigslot in *. lia. }
  eexists. split; [done|]. split; [|split_and!; [done|done| |done|done]].
  - split; [by destruct HC3|by apply packed_laid| |].
    + cbn. change (total (slots_but (nxt_memslot s2) n s2) (memslots s2)) with (total (slots s3) (memslots s3)). rewrite (packed_total _ _ _ _ HP3). cbn. lia.
    + assert (HS3 : stack_ok s3) by (apply (stack_out (nxt_memslot s2) n s2 s3 (memslots s2) O); [done|done|done|unfold n, sizeof_bigptr; lia|done|done]).
      by destruct HS3.
  - unfold free_space. cbn. destruct (Z.ltb_spec (nxt_memslot s2) (nxt_ptrslot s2)); lia.
Qed.

Lemma unclaimed_bounds s O : inv s O -> 0 <= unclaimed_space s /\ unclaimed_space s + free_space s <= asz s.
Proof.
  intros HI. rewrite (inv_unclaimed _ _ HI). pose proof (total_le _ _ _ _ (inv_laid _ _ HI)). pose proof (total_gross_nonneg _ _ _ _ (inv_laid _ _ HI)).
  destruct (c_geo _ _ _ (inv_core _ _ HI)) as (? & ? & ?). destruct (c_nm _ _ _ (inv_core _ _ HI)) as (? & ? & ?). destruct (c_np _ _ _ (inv_core _ _ HI)) as (k & ? & ?).
  unfold free_space, sizeof_bigptr in *. destruct (Z.ltb_spec (nxt_memslot s) (nxt_ptrslot s)); lia.
Qed.

(** [gc_make_room] promises what it does not always keep: the last slot may stand in the room of the object, so that up to a slot's size is missing. *)
Lemma gc_make_room_run s O sz : inv s O -> sizeof_bigslot <= sz ->
  let u := unclaimed_space s + free_space s in
  exists s', gc_make_room sz s = Ok (bool_decide (sz <= u), s') /\ inv s' O /\ (u < sz -> s' = s) /\
    (sz <= u -> unclaimed_space s' = 0 /\ u - sizeof_bigptr <= free_space s' <= u) /\ abase s' = abase s /\ asz s' = asz s.
Proof.
  intros HI Hsz u. pose proof (unclaimed_bounds s O HI) as [Hu0 Hu]. destruct (c_geo _ _ _ (inv_core _ _ HI)) as (_ & _ & Hg).
  pose proof (free_space_nonneg s) as Hf0. unfold gc_make_room. mnorm. unfold u64. rewrite Z.mod_small by lia. fold u.
  destruct (Z.leb_spec sz u) as [Hle|Hlt].
  - destruct (c_nm _ _ _ (inv_core _ _ HI)) as (_ & Hn & _).
    assert (Hfit : nxt_memslot s <= nxt_ptrslot s + unclaimed_space s /\ u - sizeof_bigptr <= nxt_ptrslot s - nxt_memslot s + unclaimed_space s <= u).
    { unfold u, free_space, sizeof_bigslot, sizeof_bigptr in *. destruct (Z.ltb_spec (nxt_memslot s) (nxt_ptrslot s)); lia. }
    destruct (gc_run s O false HI (proj1 Hfit)) as (s' & E & HI' & _ & Hu' & Hf' & Hb' & Hs'). rewrite (M_bind_ok _ _ _ _ _ E).
    exists s'. split; [by rewrite bool_decide_true|]. split; [done|]. split; [intros Hlt; lia|]. split; [|done]. intros _. split; [done|]. rewrite Hf'. apply Hfit.
  - exists s. split; [by rewrite bool_decide_false by lia|]. split; [done|]. split; [done|]. split; [lia|done].
Qed.
End collection.

Section start.
Context `{ObjAlignLaws}.

Lemma arena_init_inv base sz : 0 < base -> sizeof_bigptr <= sz < 2 ^ 61 -> inv (arena_init base sz) ∅.
Proof.
  intros Hb Hsz. unfold sizeof_bigptr in Hsz. unfold arena_init. split.
  - split; cbn [abase asz top nxt_ptrslot nxt_memslot memslots].
    + lia.
    + exists 0. unfold sizeof_bigptr. lia.
    + unfold sizeof_bigptr. lia.
    + intros h (i & Hi & Eh & Hlt). cbn in Eh, Hlt. unfold sizeof_bigptr in *. lia.
    + intros m Hm. by apply not_elem_of_nil in Hm.
    + intros h Hh. rewrite dom_empty in Hh. by apply elem_of_empty in Hh.
  - by left.
  - cbn. lia.
  - split; [|change (16 <= 16 + 2 * sz); lia]. exists []. split_and!; [apply stack_new_ok|constructor|]. intros h Hh. by apply not_elem_of_nil in Hh.
Qed.

(** C23: when the arena is not so full that the two fronts have crossed, [gc] ends without a failed check; it moves the live objects together at the bottom, so that all room that freed
    objects had left is free again, and every object is where its slot says, with its count and its bytes, none of which a move has overwritten. *)
Theorem boa_gc_correct s O lru : inv s O -> nxt_memslot s <= nxt_ptrslot s + unclaimed_space s ->
  exists s', gc lru s = Ok (tt, s') /\ inv s' O /\ packed (slots s') (abase s') (memslots s') (nxt_memslot s') /\
    unclaimed_space s' = 0 /\ free_space s' = nxt_ptrslot s - nxt_memslot s + unclaimed_space s /\ abase s' = abase s /\ asz s' = asz s.
Proof. apply gc_run. Qed.
End start.

(** * Runs *)

(** Sizes are rounded up to eight bytes. *)
#[export] Instance align8 : ObjAlign := fun n => (n + 7) / 8 * 8.
#[export] Instance align8_laws : ObjAlignLaws.
Proof.
  intros n. unfold boa_obj_align, align8. pose proof (Z.div_mod (n + 7) 8 ltac:(lia)). pose proof (Z.mod_pos_bound (n + 7) 8 ltac:(lia)). lia.
Qed.

Definition new_obj (sz : Z) : M arena Z := r ← aalloc sz; match r with Some h => mret h | None => stop Exited end.
Definition result {A} (m : M arena A) (s : arena) : res A := r ← m s; Ok r.1.

(** Two objects with a byte each; the first goes, the second moves down and keeps its byte. *)
Example collect_run_once :
  result (a ← new_obj 5; rc_inc a;; write a 0 7;; b ← new_obj 16; rc_inc b;; write b 15 8;; d ← data b;
    rc_dec a;; ptr_deallocate a;; gc false;; d' ← data b; v ← read b 15; f ← gets free_space; mret (a, b, d, d', v, f)) (arena_init 1000 400)
  = Ok (1376, 1352, 1097, 1041, Some 8, 264).
Proof. vm_compute. reflexivity. Qed.

(** The slot of an object that went is given out again by a later [aalloc]. *)
Example slot_again :
  result (a ← new_obj 5; ptr_deallocate a;; b ← new_obj 5; gc false;; c ← new_obj 5; mret (a, b, c)) (arena_init 1000 400) = Ok (1376, 1352, 1376).
Proof. vm_compute. reflexivity. Qed.

(** An object that fills the arena leaves its slot in the room that [free_space] counts: the fronts have crossed.  A [gc] then marks more than there is as
    free, and the slot of the object is lost with it. *)
Example fronts_cross :
  result (a ← new_obj 16; b ← new_obj 16; nm ← gets nxt_memslot; np ← gets nxt_ptrslot; mret (nm, np)) (arena_init 1000 176) = Ok (1128, 1104).
Proof. vm_compute. reflexivity. Qed.
Example gc_destroys :
  result (a ← new_obj 16; b ← new_obj 16; write a 0 7;; gc false;; read a 0) (arena_init 1000 176) = Stop Dangling.
Proof. vm_compute. reflexivity. Qed.

(** [gc_make_room] says that there is room for 64 bytes, and after it there is not. *)
Example no_room_after_all :
  result (a ← new_obj 16; b ← new_obj 16; ptr_deallocate a;; r ← gc_make_room (bigslot_size 16); o ← aalloc 16; f ← gets free_space; mret (r, o, f)) (arena_init 1000 176)
  = Ok (true, None, 40).
Proof. vm_compute. reflexivity. Qed.

(** A size near 2^64 wraps: it fits, and the new object covers the arena with its own slot. *)
Example can_fit_wraps : can_fit (2 ^ 64 - 48) (arena_init 1000 176) = true /\ result (new_obj (2 ^ 64 - 48)) (arena_init 1000 176) = Stop Dangling.
Proof. by vm_compute. Qed.

(** [lim] is taken from the gross size. *)
Example lim_beyond : result (a ← new_obj 16; rc_inc a;; d ← data a; l ← lim a; mret (l - d)) (arena_init 1000 400) = Ok 64.
Proof. vm_compute. reflexivity. Qed.

Lemma boa_gc_correct_witness :
  exists s h s', aalloc 16 (arena_init 1000 400) = Ok (Some h, s) /\ gc true s = Ok (tt, s') /\ inv s' {[h := Obj 0 (replicate 16 None)]} /\ free_space s' = 288.
Proof.
  assert (HI0 : inv (arena_init 1000 400) ∅) by (apply arena_init_inv; unfold sizeof_bigptr; lia).
  pose proof (aalloc_ok (arena_init 1000 400) ∅ 16 HI0 ltac:(lia) ltac:(reflexivity)) as Ha.
  assert (Ef : can_fit 16 (arena_init 1000 400) = true) by by vm_compute. rewrite Ef in Ha. clear Ef. destruct Ha as (h & s & E & _ & HI & _).
  change (Z.to_nat (boa_obj_align 16)) with 16%nat in HI. rewrite insert_empty in HI.
  assert (Eg : nxt_memslot s = 1064 /\ nxt_ptrslot s = 1352 /\ unclaimed_space s = 0).
  { apply (f_equal (fun r => match r with Ok x => Some (nxt_memslot x.2, nxt_ptrslot x.2, unclaimed_space x.2) | Stop _ => None end)) in E.
    cbn [snd] in E. injection E as E1 E2 E3. vm_compute in E1, E2, E3. by split_and!. }
  destruct Eg as (E1 & E2 & E3). destruct (boa_gc_correct s {[h := Obj 0 (replicate 16 None)]} true HI) as (s' & Es & HI' & _ & _ & Ef & _).
  - rewrite E1, E2, E3. lia.
  - exists s, h, s'. split_and!; [done|done|done|]. rewrite Ef, E1, E2, E3. reflexivity.
Defined.
