(* ===== verification/GcMgr.v ===== *)
(** The manager of src/deps/sfslite-1.2/sp_gc.h and sp_gc_impl.h over its arenas for big objects: it looks for one that has room from the one it used last, all around, and
    collects if there is none. *)
From S2P Require Import Prelude GcBig.
#[local] Open Scope Z_scope.

(** * The code *)

(** The arenas have names; [bigs] is the list [_bigs], [next_big] is [_next_big]. *)
Record mgr : Type := Mgr { bigs : list nat; next_big : option nat; boas : gmap nat arena }.
Definition at_boa {A} (i : nat) (m : M arena A) : M mgr A := fun s =>
  match boas s !! i with
  | Some a => match m a with Ok (x, a') => Ok (x, Mgr (bigs s) (next_big s) (<[i := a']> (boas s))) | Stop f => Stop f end
  | None => Stop Dangling
  end.
Definition set_next_big (i : nat) : M mgr unit := modify (fun s => Mgr (bigs s) (Some i) (boas s)).

(** [tailq::next]. *)
Fixpoint list_next (l : list nat) (x : nat) : option nat :=
  match l with [] => None | y :: l => if decide (y = x) then head l else list_next l x end.

(** [cyclic_list_iterator_t]. *)
Record iter : Type := Iter { _start : option nat; _p : option nat }.
Definition iter_new (l : list nat) (s : option nat) : iter :=
  let st := match s with Some _ => s | None => head l end in Iter st st.
Definition iter_next (l : list nat) (it : iter) : option nat * iter :=
  match _p it with
  | None => (None, it)
  | Some x =>
      let p := match list_next l x with Some y => Some y | None => head l end in
      let p := if decide (p = _start it) then None else p in
      (Some x, Iter (_start it) p)
  end.

(** [while ((p = it.next ()) && !test (p)) {}] *)
Definition pick_round (l : list nat) (test : nat -> M mgr bool) (it : iter) : M mgr (iter + option nat) :=
  let '(p, it) := iter_next l it in
  match p with
  | None => mret (inr None)
  | Some i => b ← test i; if (b : bool) then mret (inr (Some i)) else mret (inl it)
  end.
Definition pick (test : nat -> M mgr bool) : M mgr (option nat) :=
  l ← gets bigs; s ← gets next_big; loopM (S (S (length l))) (pick_round l test) (iter_new l s).

(** The constructor makes every arena so: no arena holds the base of the new one, which goes to the end of the list. *)
Definition mgr_lookup (x : Z) (s : mgr) : option nat := fst <$> head (filter (fun ia => cmp ia.2 x = 0) (map_to_list (boas s))).
Definition mgr_add (base sz : Z) : M mgr unit :=
  o ← gets (mgr_lookup base); lift (c_assert (bool_decide (o = None)));;
  modify (fun s => let i := fresh (dom (boas s)) in Mgr (bigs s ++ [i]) (next_big s) (<[i := arena_init base sz]> (boas s))).
Definition no_mgr : mgr := Mgr [] None ∅.

Section code.
Context `{!ObjAlign}.

Fixpoint each {A} (f : nat -> M mgr A) (l : list nat) : M mgr unit := match l with [] => mret tt | i :: l => f i;; each f l end.
Definition mgr_sanity_check : M mgr unit := l ← gets bigs; each (fun i => at_boa i sanity_check) l.
Definition mgr_gc (lru : bool) : M mgr unit := l ← gets bigs; each (fun i => at_boa i (gc lru)) l.

Definition gc_make_room_big (sz : Z) : M mgr (option nat) :=
  let sz := bigslot_size sz in
  p ← pick (fun i => at_boa i (gc_make_room sz));
  match p with Some i => set_next_big i;; mret (Some i) | None => mret None end.
Definition big_pick (debug_mem : bool) (sz : Z) : M mgr (option nat) :=
  p ← pick (fun i => at_boa i (gets (can_fit sz)));
  match p with
  | Some i => set_next_big i;; mret (Some i)
  | None =>
      (if debug_mem then mgr_sanity_check else mret tt);;
      p ← gc_make_room_big sz;
      (if debug_mem then mgr_sanity_check else mret tt);;
      mret p
  end.
Definition big_alloc (debug_mem : bool) (sz : Z) : M mgr (option Z) :=
  a ← big_pick debug_mem sz;
  match a with Some i => at_boa i (aalloc sz) | None => mret None end.
End code.

(** * Specification *)

(** The list from [s] on, once around. *)
Fixpoint before (s : nat) (l : list nat) : list nat := match l with [] => [] | y :: l => if decide (y = s) then [] else y :: before s l end.
Fixpoint from (s : nat) (l : list nat) : list nat := match l with [] => [] | y :: l' => if decide (y = s) then l else from s l' end.
Definition around (s : option nat) (l : list nat) : list nat := match s with Some x => from x l ++ before x l | None => l end.

(** The first in [R] that passes the test. *)
Fixpoint first_true (test : nat -> M mgr bool) (R : list nat) : M mgr (option nat) :=
  match R with [] => mret None | i :: R => b ← test i; if (b : bool) then mret (Some i) else first_true test R end.

Section iteration.

Lemma list_next_app pre x post : x ∉ pre -> list_next (pre ++ x :: post) x = head post.
Proof.
  induction pre as [|y pre IH]; intros Hx; cbn; [by rewrite decide_True|]. rewrite decide_False by set_solver. apply IH. set_solver.
Qed.

Lemma around_app pre s post : s ∉ pre -> around (Some s) (pre ++ s :: post) = s :: post ++ pre.
Proof.
  intros Hs. assert (E : from s (pre ++ s :: post) = s :: post /\ before s (pre ++ s :: post) = pre).
  { induction pre as [|y pre IH]; cbn; [by rewrite !decide_True|]. rewrite !decide_False by set_solver. destruct IH as [-> ->]; [set_solver|done]. }
  destruct E as [E1 E2]. cbn [around]. by rewrite E1, E2.
Qed.

Lemma around_perm s l : (forall x, s = Some x -> x ∈ l) -> around s l ≡ₚ l.
Proof.
  destruct s as [x|]; [|done]. intros Hx. destruct (list_elem_of_split_l l x (Hx x eq_refl)) as (pre & post & -> & Hni).
  rewrite around_app by done. by rewrite (Permutation_app_comm pre).
Qed.

Lemma split_unique (x : nat) D A R B : x ∉ D -> x ∉ A -> D ++ x :: R = A ++ x :: B -> R = B.
Proof.
  revert A. induction D as [|d D IH]; intros [|y A] HD HA E; cbn in E.
  - by injection E.
  - injection E as -> _. set_solver.
  - injection E as -> _. set_solver.
  - injection E as _ E. apply (IH A); [set_solver|set_solver|done].
Qed.

(** From an element on the way around the iterator goes to the next one, and ends before the first. *)
Lemma iter_step pre s post D x R : NoDup (pre ++ s :: post) -> s :: post ++ pre = D ++ x :: R ->
  iter_next (pre ++ s :: post) (Iter (Some s) (Some x)) = (Some x, Iter (Some s) (head R)).
Proof.
  intros HN E. assert (HN' : NoDup (D ++ x :: R)) by (rewrite <- E, app_comm_cons, Permutation_app_comm; done).
  apply NoDup_app in HN' as (_ & HD & HR). apply NoDup_cons in HR as [HxR HR].
  assert (HxD : x ∉ D) by (intros Hx; apply (HD x Hx); by left).
  assert (HsR : s ∉ R).
  { destruct D as [|d D]; cbn in E; injection E as E1 E2; [by subst|]. subst d. intros Hs. apply (HD s); [by left|by right]. }
  assert (Hc : match list_next (pre ++ s :: post) x with Some y => Some y | None => head (pre ++ s :: post) end = Some (default s (head R))).
  { rewrite app_comm_cons in E. assert (Hx : x ∈ (s :: post) ++ pre) by (rewrite E; set_solver). destruct (decide (x ∈ s :: post)) as [Hin|Hout].
    - destruct (list_elem_of_split_l _ _ Hin) as (A & B & EA & HA). rewrite EA in *. rewrite <- app_assoc in E. cbn in E.
      apply (split_unique x A D) in E as <-; [|done|done]. rewrite app_assoc, list_next_app.
      + destruct B as [|b B]; [|done]. cbn. destruct pre as [|c pre]; [|done]. destruct A as [|c A]; cbn in *; by injection EA as -> _.
      + apply NoDup_app in HN as (_ & HN & _). intros [Hp|Hp]%elem_of_app; [|done]. apply (HN x Hp). set_solver.
    - apply elem_of_app in Hx as [Hx|Hx]; [done|]. destruct (list_elem_of_split_l _ _ Hx) as (A & B & EA & HA). rewrite EA in *.
      rewrite app_assoc in E. apply (split_unique x) in E as <-; [|by intros [?|?]%elem_of_app|done].
      rewrite <- app_assoc. cbn. rewrite list_next_app by done. by destruct B. }
  unfold iter_next. cbn [_p _start]. rewrite Hc. do 2 f_equal. destruct R as [|r R]; cbn; [by rewrite decide_True|].
  rewrite decide_False; [done|]. intros [= ->]. set_solver.
Qed.

(** Looking through the arenas finds the first, all around, that passes the test. *)
Lemma pick_loop pre s post test R : NoDup (pre ++ s :: post) -> forall D fuel st, s :: post ++ pre = D ++ R -> (length R < fuel)%nat ->
  loopM fuel (pick_round (pre ++ s :: post) test) (Iter (Some s) (head R)) st = first_true test R st.
Proof.
  intros HN. induction R as [|x R IH]; intros D fuel st E Hf; (destruct fuel as [|fuel]; [cbn in Hf; lia|]); rewrite loopM_step; cbn [first_true head pick_round]; unfold pick_round.
  - done.
  - rewrite (iter_step pre s post D x R HN E). unfold mbind, M_bind. destruct (test x st) as [[[] st']|]; [done| |done].
    unfold mret, M_ret. apply (IH (D ++ [x])); [by rewrite <- app_assoc|cbn in Hf; lia].
Qed.

Lemma pick_run test s : NoDup (bigs s) -> (forall x, next_big s = Some x -> x ∈ bigs s) -> pick test s = first_true test (around (next_big s) (bigs s)) s.
Proof.
  intros HN Hx. unfold pick. rewrite !bind_gets. unfold iter_new.
  assert (Hmain : forall x, x ∈ bigs s -> loopM (S (S (length (bigs s)))) (pick_round (bigs s) test) (Iter (Some x) (Some x)) s = first_true test (around (Some x) (bigs s)) s).
  { intros x Hin. destruct (list_elem_of_split_l _ _ Hin) as (pre & post & El & Hni). rewrite El in *. rewrite around_app by done.
    apply (pick_loop pre x post test (x :: post ++ pre) HN []); [done|]. rewrite !length_app. cbn. rewrite length_app. lia. }
  destruct (next_big s) as [x|] eqn:En; [by apply Hmain, Hx|]. destruct (bigs s) as [|x l] eqn:El; [done|]. cbn [head].
  rewrite Hmain by (by left). cbn [around from before]. rewrite !decide_True by done. by rewrite app_nil_r.
Qed.
End iteration.

(** The arenas of the manager, each with its objects; they do not overlap. *)
Record minv `{!ObjAlign} (s : mgr) (OO : gmap nat objs) : Prop := {
  mi_nodup : NoDup (bigs s);
  mi_bigs i : i ∈ bigs s <-> is_Some (boas s !! i);
  mi_next x : next_big s = Some x -> x ∈ bigs s;
  mi_inv i a : boas s !! i = Some a -> exists O, OO !! i = Some O /\ inv a O;
  mi_objs i O : OO !! i = Some O -> is_Some (boas s !! i);
  mi_apart i j a b : boas s !! i = Some a -> boas s !! j = Some b -> i <> j -> top a <= abase b \/ top b <= abase a
}.

Section manager.
Context `{ObjAlignLaws}.

Lemma bind_at {A X} s i a (m : M arena A) x a' (k : A -> M mgr X) : boas s !! i = Some a -> m a = Ok (x, a') ->
  (at_boa i m ≫= k) s = k x (Mgr (bigs s) (next_big s) (<[i := a']> (boas s))).
Proof. intros Ha E. unfold mbind, M_bind, at_boa. by rewrite Ha, E. Qed.

Lemma at_boa_run {A} s i a (m : M arena A) x a' : boas s !! i = Some a -> m a = Ok (x, a') -> at_boa i m s = Ok (x, Mgr (bigs s) (next_big s) (<[i := a']> (boas s))).
Proof. intros Ha E. unfold at_boa. by rewrite Ha, E. Qed.

(** Looking at an arena changes nothing. *)
Lemma at_boa_look {A} s i a (m : M arena A) x : boas s !! i = Some a -> m a = Ok (x, a) -> at_boa i m s = Ok (x, s).
Proof. intros Ha E. rewrite (at_boa_run _ _ _ _ _ _ Ha E), insert_id by done. by destruct s. Qed.

(** One arena does something. *)
Lemma minv_set s OO i a a' O' : minv s OO -> boas s !! i = Some a -> inv a' O' -> abase a' = abase a -> asz a' = asz a -> minv (Mgr (bigs s) (next_big s) (<[i := a']> (boas s))) (<[i := O']> OO).
Proof.
  intros HI Ha HA Eb Es.
  assert (Et : top a' = top a).
  { destruct (mi_inv _ _ HI i a Ha) as (O & _ & HO). destruct (c_geo _ _ _ (inv_core _ _ HO)) as (_ & -> & _). destruct (c_geo _ _ _ (inv_core _ _ HA)) as (_ & -> & _). congruence. }
  assert (Hold : forall j b, <[i := a']> (boas s) !! j = Some b -> exists b0, boas s !! j = Some b0 /\ abase b = abase b0 /\ top b = top b0).
  { intros j b Hb. apply lookup_insert_Some in Hb as [[<- <-]|[_ Hb]]; [by exists a|by exists b]. }
  split; cbn [bigs next_big boas].
  - apply (mi_nodup _ _ HI).
  - intros j. rewrite (mi_bigs _ _ HI), lookup_insert_is_Some'. split; [tauto|]. intros [<-|]; [by exists a|done].
  - apply (mi_next _ _ HI).
  - intros j b Hb. apply lookup_insert_Some in Hb as [[<- <-]|[Hne Hb]]; [exists O'; by rewrite lookup_insert_eq|].
    rewrite lookup_insert_ne by done. by apply (mi_inv _ _ HI).
  - intros j O Hj. apply lookup_insert_is_Some'. apply lookup_insert_Some in Hj as [[<- <-]|[_ Hj]]; [by left|right]. by eapply (mi_objs _ _ HI).
  - intros j1 j2 b1 b2 H1 H2 Hne. destruct (Hold _ _ H1) as (c1 & Hc1 & -> & ->). destruct (Hold _ _ H2) as (c2 & Hc2 & -> & ->). by eapply (mi_apart _ _ HI).
Qed.

Lemma minv_next s OO i : minv s OO -> i ∈ bigs s -> minv (Mgr (bigs s) (Some i) (boas s)) OO.
Proof. intros [] Hi. split; try done. by intros x [= <-]. Qed.

(** Slots of objects in different arenas are at different addresses. *)
Lemma handle_apart s OO i j a O O' h : minv s OO -> boas s !! i = Some a -> inv a O -> h ∈ dom O -> i <> j -> OO !! j = Some O' -> h ∉ dom O'.
Proof.
  intros HI Ha HA Hh Hne Hj Hh'. destruct (mi_objs _ _ HI j O' Hj) as [b Hb]. destruct (mi_inv _ _ HI j b Hb) as (O2 & E & HB). rewrite Hj in E. injection E as <-.
  assert (Hr : forall c C, inv c C -> h ∈ dom C -> abase c <= h < top c).
  { intros c C HC HhC. apply elem_of_dom in HhC as [o Ho]. pose proof (inv_core _ _ HC) as HCC. destruct (obj_of _ _ _ _ _ HCC Ho) as (m & x & _ & _ & _ & Hp & _).
    destruct (pslot_above _ _ _ _ HCC Hp) as (H1 & H2 & _). destruct (c_nm _ _ _ HCC) as (H3 & _). unfold sizeof_bigptr in *. lia. }
  pose proof (Hr a O HA Hh). pose proof (Hr b O' HB Hh'). destruct (mi_apart _ _ HI i j a b Ha Hb Hne); lia.
Qed.

(** ** Picking an arena *)
Definition fits (s : mgr) (sz : Z) (i : nat) : bool := match boas s !! i with Some a => can_fit sz a | None => false end.

Lemma first_fit s sz R : (forall i, i ∈ R -> is_Some (boas s !! i)) ->
  first_true (fun i => at_boa i (gets (can_fit sz))) R s = Ok (head (filter (fun i => fits s sz i = true) R), s).
Proof.
  induction R as [|i R IH]; intros HR; [done|]. cbn [first_true]. destruct (HR i) as [a Ha]; [by left|].
  rewrite (M_bind_ok _ _ _ _ _ (at_boa_look s i a (gets (can_fit sz)) (can_fit sz a) Ha eq_refl)).
  destruct (can_fit sz a) eqn:Ef.
  - rewrite filter_cons_True by (unfold fits; by rewrite Ha). done.
  - rewrite filter_cons_False by (unfold fits; rewrite Ha, Ef; done). apply IH. intros j Hj. apply HR. by right.
Qed.

Definition room (a : arena) : Z := unclaimed_space a + free_space a.

Lemma first_room s OO sz R : minv s OO -> sizeof_bigslot <= sz -> (forall i, i ∈ R -> is_Some (boas s !! i)) ->
  exists r s', first_true (fun i => at_boa i (gc_make_room sz)) R s = Ok (r, s') /\ minv s' OO /\ bigs s' = bigs s /\
    match r with
    | Some i => i ∈ R /\ exists a, boas s' !! i = Some a /\ unclaimed_space a = 0
    | None => s' = s /\ forall i a, i ∈ R -> boas s !! i = Some a -> room a < sz
    end.
Proof.
  intros HI Hsz. induction R as [|i R IH]; intros HR; cbn [first_true].
  - exists None, s. split; [done|]. split; [done|]. split; [done|]. split; [done|]. intros i a Hi. by apply not_elem_of_nil in Hi.
  - destruct (HR i) as [a Ha]; [by left|]. destruct (mi_inv _ _ HI i a Ha) as (O & HO & HA).
    destruct (gc_make_room_run a O sz HA Hsz) as (a' & E & HA' & Hsame & Hroom & Eb & Es). cbv zeta in *. fold (room a) in *.
    destruct (decide (sz <= room a)) as [Hle|Hgt].
    + rewrite bool_decide_true in E by done. rewrite (bind_at _ _ _ _ _ _ _ Ha E). eexists (Some i), _. split; [done|].
      pose proof (minv_set s OO i a a' O HI Ha HA' Eb Es) as HI'. rewrite (insert_id OO) in HI' by done. split; [done|]. split; [done|]. split; [by left|].
      exists a'. cbn. rewrite lookup_insert_eq. split; [done|]. by apply Hroom.
    + rewrite bool_decide_false in E by done. rewrite (Hsame ltac:(lia)) in E. rewrite (M_bind_ok _ _ _ _ _ (at_boa_look s i a _ _ Ha E)).
      destruct IH as (r & s' & E' & HI' & Ebs & Hr); [intros j Hj; apply HR; by right|]. exists r, s'. split; [exact E'|]. split; [done|]. split; [done|].
      destruct r as [j|]; [destruct Hr as [Hj Hr]; split; [by right|done]|]. destruct Hr as [-> Hr]. split; [done|].
      intros j b [->|Hj]%elem_of_cons Hb; [rewrite Ha in Hb; injection Hb as <-; lia|by apply (Hr j)].
Qed.

(** ** Operations *)
Lemma mgr_add_run s OO base sz : minv s OO -> 0 < base -> sizeof_bigptr <= sz < 2 ^ 61 ->
  (forall i a, boas s !! i = Some a -> base + sz <= abase a \/ top a <= base) ->
  exists i s', mgr_add base sz s = Ok (tt, s') /\ OO !! i = None /\ minv s' (<[i := ∅]> OO).
Proof.
  intros HI Hb Hsz Hap. unfold sizeof_bigptr in Hsz. unfold mgr_add. rewrite bind_gets.
  assert (El : mgr_lookup base s = None).
  { unfold mgr_lookup. destruct (filter _ _) as [|[j a] l] eqn:E; [done|exfalso].
    assert (Hin : (j, a) ∈ filter (fun ia => cmp ia.2 base = 0) (map_to_list (boas s))) by (rewrite E; by left).
    apply list_elem_of_filter in Hin as [Hc Ha%elem_of_map_to_list]. cbn in Hc. unfold cmp in Hc. destruct (mi_inv _ _ HI j a Ha) as (O & _ & HA).
    destruct (c_geo _ _ _ (inv_core _ _ HA)) as (_ & Et & _). destruct (Z.ltb_spec base (abase a)); [done|]. destruct (Z.leb_spec (abase a + asz a) base); [done|].
    destruct (Hap j a Ha); lia. }
  rewrite El. rewrite (bind_lift _ _ _ tt) by done. set (i := fresh (dom (boas s))).
  assert (Hi : boas s !! i = None) by apply not_elem_of_dom, is_fresh.
  assert (HiO : OO !! i = None) by (destruct (OO !! i) as [O|] eqn:E; [destruct (mi_objs _ _ HI i O E); congruence|done]).
  assert (Hib : i ∉ bigs s) by (intros Hin; apply (mi_bigs _ _ HI) in Hin as [a Ha]; congruence).
  exists i. eexists. split; [done|]. split; [done|]. fold i. split; cbn [bigs next_big boas].
  - apply NoDup_app. split_and!; [apply (mi_nodup _ _ HI)| |apply NoDup_singleton]. intros x Hx ->%list_elem_of_singleton. done.
  - intros j. rewrite elem_of_app, list_elem_of_singleton, lookup_insert_is_Some', (mi_bigs _ _ HI). naive_solver.
  - intros x Hx. apply elem_of_app. left. by apply (mi_next _ _ HI).
  - intros j a Ha. apply lookup_insert_Some in Ha as [[<- <-]|[Hne Ha]].
    + exists ∅. rewrite lookup_insert_eq. split; [done|]. by apply arena_init_inv.
    + rewrite lookup_insert_ne by done. by apply (mi_inv _ _ HI).
  - intros j O Hj. apply lookup_insert_is_Some'. apply lookup_insert_Some in Hj as [[<- _]|[_ Hj]]; [by left|right]. by eapply (mi_objs _ _ HI).
  - intros j1 j2 a b Ha Hb' Hne. apply lookup_insert_Some in Ha as [[<- <-]|[_ Ha]], Hb' as [[<- <-]|[_ Hb']]; [done| | |by eapply (mi_apart _ _ HI)].
    + cbn. destruct (Hap _ _ Hb'); tauto.
    + cbn. destruct (Hap _ _ Ha); tauto.
Qed.

Lemma mgr_sanity_run s OO : minv s OO -> mgr_sanity_check s = Ok (tt, s).
Proof.
  intros HI. unfold mgr_sanity_check. rewrite bind_gets. assert (Hb : forall i, i ∈ bigs s -> is_Some (boas s !! i)) by (intros i; apply (mi_bigs _ _ HI)).
  induction (bigs s) as [|i l IH]; [done|]. cbn [each]. destruct (Hb i) as [a Ha]; [by left|]. destruct (mi_inv _ _ HI i a Ha) as (O & _ & HA).
  rewrite (M_bind_ok _ _ _ _ _ (at_boa_look s i a _ _ Ha (inv_sanity a O HA))). apply IH. intros j Hj. apply Hb. by right.
Qed.

(** A collection of all arenas, none of them so full that its fronts have crossed. *)
Lemma each_gc_run l s OO lru : minv s OO -> NoDup l -> (forall i, i ∈ l -> exists a, boas s !! i = Some a /\ nxt_memslot a <= nxt_ptrslot a + unclaimed_space a) ->
  exists s', each (fun i => at_boa i (gc lru)) l s = Ok (tt, s') /\ minv s' OO /\ (forall i a, i ∈ l -> boas s' !! i = Some a -> unclaimed_space a = 0) /\
    forall i, i ∉ l -> boas s' !! i = boas s !! i.
Proof.
  revert s. induction l as [|i l IH]; intros s HI HN Hl.
  - exists s. split; [done|]. split; [done|]. split; [|done]. intros i a Hi. by apply not_elem_of_nil in Hi.
  - apply NoDup_cons in HN as [Hi HN]. destruct (Hl i) as (a & Ha & Hfit); [by left|]. destruct (mi_inv _ _ HI i a Ha) as (O & HO & HA).
    destruct (gc_run a O lru HA Hfit) as (a' & E & HA' & _ & Hu & _ & Eb & Es). cbn [each]. rewrite (bind_at _ _ _ _ _ _ _ Ha E).
    pose proof (minv_set s OO i a a' O HI Ha HA' Eb Es) as HI'. rewrite (insert_id OO) in HI' by done.
    destruct (IH _ HI' HN) as (s' & E' & HI2 & Hz & Hout).
    + intros j Hj. destruct (Hl j) as (b & Hb & Hfb); [by right|]. exists b. cbn. rewrite lookup_insert_ne; [done|]. intros <-. done.
    + exists s'. split; [exact E'|]. split; [done|]. split.
      * intros j b [->|Hj]%elem_of_cons Hb; [|by apply (Hz j)]. rewrite Hout in Hb by done. cbn in Hb. rewrite lookup_insert_eq in Hb. by injection Hb as <-.
      * intros j Hj. rewrite Hout by set_solver. cbn. rewrite lookup_insert_ne by set_solver. done.
Qed.

(** The first arena, all around from the last one used, in which the object fits. *)
Definition first_fitting (s : mgr) (sz : Z) : option nat := head (filter (fun i => fits s sz i = true) (around (next_big s) (bigs s))).

Lemma gc_make_room_big_run s OO sz : minv s OO -> 0 <= sz -> boa_obj_align (boa_obj_align sz) + sizeof_bigslot < 2 ^ 64 ->
  exists r s', gc_make_room_big sz s = Ok (r, s') /\ minv s' OO /\
    match r with
    | Some i => next_big s' = Some i /\ exists a, boas s' !! i = Some a /\ unclaimed_space a = 0
    | None => s' = s /\ forall i a, boas s !! i = Some a -> room a < bigslot_size sz
    end.
Proof.
  intros HI Hsz Hov. pose proof (align_up sz) as Ha. pose proof (align_up (boa_obj_align sz)) as Ha2.
  assert (Hb : sizeof_bigslot <= bigslot_size sz) by (unfold bigslot_size, u64, sizeof_bigslot in *; rewrite Z.mod_small; lia).
  unfold gc_make_room_big. pose proof (pick_run (fun i => at_boa i (gc_make_room (bigslot_size sz))) s (mi_nodup _ _ HI) (mi_next _ _ HI)) as Ep.
  pose proof (around_perm _ _ (mi_next _ _ HI)) as Hperm. assert (HR : forall i, i ∈ around (next_big s) (bigs s) <-> is_Some (boas s !! i)) by (intros i; by rewrite Hperm, (mi_bigs _ _ HI)).
  destruct (first_room s OO (bigslot_size sz) _ HI Hb (fun i Hi => proj1 (HR i) Hi)) as (r & s' & E & HI' & Ebs & Hr). rewrite E in Ep. rewrite (M_bind_ok _ _ _ _ _ Ep).
  destruct r as [i|]; [|destruct Hr as [-> Hr]; exists None, s; split; [done|]; split; [done|]; split; [done|]; intros i a Ha'; apply (Hr i); [apply HR; by exists a|done]].
  destruct Hr as [Hi Hr]. eexists (Some i), _. split; [done|]. split; [|by split]. apply minv_next; [done|]. rewrite Ebs. by rewrite <- Hperm.
Qed.

(** The arena that is picked allocates. *)
Lemma alloc_at s OO i sz : minv s OO -> i ∈ bigs s -> 0 <= sz -> boa_obj_align (boa_obj_align sz) + sizeof_bigslot < 2 ^ 64 ->
  (exists h s' O, at_boa i (aalloc sz) s = Ok (Some h, s') /\ OO !! i = Some O /\ (forall j O', OO !! j = Some O' -> h ∉ dom O') /\ next_big s' = next_big s /\
     minv s' (<[i := <[h := Obj 0 (replicate (Z.to_nat (boa_obj_align sz)) None)]> O]> OO)) \/
  (at_boa i (aalloc sz) s = Ok (None, s) /\ fits s sz i = false).
Proof.
  intros HI Hi Hsz Hov. destruct (proj1 (mi_bigs _ _ HI i) Hi) as [a Ha]. destruct (mi_inv _ _ HI i a Ha) as (O & HO & HA).
  pose proof (aalloc_ok a O sz HA Hsz Hov) as E. unfold fits. rewrite Ha. destruct (can_fit sz a).
  - destruct E as (h & a' & E & Hh & HA' & Eb & Es). left. eexists h, _, O. split; [by apply (at_boa_run _ _ a)|]. split; [done|]. split; [|split; [done|by apply (minv_set _ _ _ a)]].
    intros j O' Hj. destruct (decide (i = j)) as [<-|Hne]; [rewrite HO in Hj; by injection Hj as <-|].
    pose proof (minv_set s OO i a a' _ HI Ha HA' Eb Es) as HI'. eapply (handle_apart _ _ i j a' _ O' h HI'); [cbn; by rewrite lookup_insert_eq|exact HA'|set_solver|done|by rewrite lookup_insert_ne].
  - right. split; [by apply (at_boa_look _ _ a)|done].
Qed.

(** C26: [big_alloc] finds room wherever there is some.  When an arena can take the object, the first of them all around from the one last used takes it, and is the one to be used next.
    When none can, an arena is collected, and null comes back only if no arena had enough room with what a collection gives, or the collected one turned out to be too small; all objects are as they were, and the slot
    of the new one is not that of another object in any arena. *)
Theorem big_alloc_correct dbg s OO sz : minv s OO -> 0 <= sz -> boa_obj_align (boa_obj_align sz) + sizeof_bigslot < 2 ^ 64 ->
  exists r s', big_alloc dbg sz s = Ok (r, s') /\
    match r with
    | Some h => exists i O, next_big s' = Some i /\ OO !! i = Some O /\ (forall j O', OO !! j = Some O' -> h ∉ dom O') /\
        minv s' (<[i := <[h := Obj 0 (replicate (Z.to_nat (boa_obj_align sz)) None)]> O]> OO)
    | None => minv s' OO /\ ((forall i a, boas s !! i = Some a -> room a < bigslot_size sz) \/
        exists i a, next_big s' = Some i /\ boas s' !! i = Some a /\ unclaimed_space a = 0 /\ can_fit sz a = false)
    end /\
    match first_fitting s sz with Some i => next_big s' = Some i /\ is_Some r | None => forall i, fits s sz i = false end.
Proof.
  intros HI Hsz Hov. pose proof (around_perm _ _ (mi_next _ _ HI)) as Hperm.
  assert (HR : forall i, i ∈ around (next_big s) (bigs s) <-> is_Some (boas s !! i)) by (intros i; by rewrite Hperm, (mi_bigs _ _ HI)).
  pose proof (pick_run (fun i => at_boa i (gets (can_fit sz))) s (mi_nodup _ _ HI) (mi_next _ _ HI)) as Ep.
  rewrite (first_fit s sz _ (fun i Hi => proj1 (HR i) Hi)) in Ep. fold (first_fitting s sz) in Ep. unfold big_alloc, big_pick. rewrite bind_assoc, (M_bind_ok _ _ _ _ _ Ep).
  destruct (first_fitting s sz) as [i|] eqn:Ef.
  - assert (Hi : i ∈ filter (fun i => fits s sz i = true) (around (next_big s) (bigs s))) by (apply head_Some_elem_of; done).
    apply list_elem_of_filter in Hi as [Hfit Hi]. rewrite Hperm in Hi. unfold set_next_big. rewrite bind_assoc, bind_modify, bind_ret.
    destruct (alloc_at _ OO i sz (minv_next s OO i HI Hi) Hi Hsz Hov) as [(h & s' & O & E & HO & Hh & En & HI')|[_ Hno]]; [|unfold fits in *; cbn in Hno; congruence].
    exists (Some h), s'. split; [exact E|]. split; [exists i, O; by split_and!|]. split; [by rewrite En|done].
  - assert (Hnone : forall i, fits s sz i = false).
    { intros i. destruct (fits s sz i) eqn:E; [|done]. exfalso. assert (Hb : is_Some (boas s !! i)) by (unfold fits in E; destruct (boas s !! i); [done|done]).
      apply HR in Hb. assert (Hin : i ∈ filter (fun i => fits s sz i = true) (around (next_big s) (bigs s))) by by apply list_elem_of_filter.
      unfold first_fitting in Ef. destruct (filter _ _); [by apply not_elem_of_nil in Hin|done]. }
    assert (Ed : forall s0, minv s0 OO -> (if dbg then mgr_sanity_check else mret tt) s0 = Ok (tt, s0)) by (intros s0 HI0; destruct dbg; [by eapply mgr_sanity_run|done]).
    rewrite bind_assoc, (M_bind_ok _ _ _ _ _ (Ed s HI)). destruct (gc_make_room_big_run s OO sz HI Hsz Hov) as (r & s1 & E1 & HI1 & Hr).
    rewrite bind_assoc, (M_bind_ok _ _ _ _ _ E1), bind_assoc, (M_bind_ok _ _ _ _ _ (Ed s1 HI1)), bind_ret. destruct r as [i|].
    + destruct Hr as (En & a & Ha & Hu). assert (Hi : i ∈ bigs s1) by by apply (mi_next _ _ HI1).
      destruct (alloc_at _ OO i sz HI1 Hi Hsz Hov) as [(h & s' & O & E & HO & Hh & En' & HI')|[E Hno]].
      * exists (Some h), s'. split; [exact E|]. split; [exists i, O; split_and!; [congruence|done|done|done]|done].
      * exists None, s1. split; [exact E|]. split; [|done]. split; [done|]. right. exists i, a. unfold fits in Hno. rewrite Ha in Hno. by split_and!.
    + destruct Hr as [-> Hr]. exists None, s. split; [done|]. split; [|done]. split; [done|by left].
Qed.
End manager.

(** * Runs *)

Lemma no_mgr_ok `{!ObjAlign} : minv no_mgr ∅.
Proof.
  split; cbn; [constructor| |done|done|done|done]. intros i. split; [intros Hi; by apply not_elem_of_nil in Hi|by intros [a Ha]].
Qed.

Definition got {A} (m : M mgr A) : res A := match m no_mgr with Ok (a, _) => Ok a | Stop f => Stop f end.

(** Two arenas of 400 bytes.  Objects go to the first until it is full, then to the second; the arena used last is tried first. *)
Example two_arenas :
  got (mgr_add 1000 400;; mgr_add 2000 400;; a ← big_alloc true 200; b ← big_alloc true 200; d ← big_alloc true 8; n ← gets next_big; e ← big_alloc true 150; mret (a, b, d, n, e))
  = Ok (Some 1376, Some 2376, Some 2352, Some 1%nat, None).
Proof. vm_compute. reflexivity. Qed.

(** Both arenas are full.  One object of the second goes and both of the first, so a collection of the first would give room for another; but the second is asked first, says it has room, and
    has not: null comes back.  A second call gets an object. *)
Example null_with_room :
  got (mgr_add 1000 176;; mgr_add 2000 176;; a ← big_alloc true 16; b ← big_alloc true 16; d ← big_alloc true 16; e ← big_alloc true 16;
    at_boa 0 (ptr_deallocate (default 0 a));; at_boa 0 (ptr_deallocate (default 0 b));; at_boa 1 (ptr_deallocate (default 0 d));;
    r ← big_alloc true 16; r' ← big_alloc true 16; mret (a, b, d, e, r, r'))
  = Ok (Some 1152, Some 1128, Some 2152, Some 2128, None, Some 1128).
Proof. vm_compute. reflexivity. Qed.

Lemma big_alloc_correct_witness :
  exists s r s', mgr_add 1000 400 no_mgr = Ok (tt, s) /\ big_alloc true 16 s = Ok (r, s') /\
    match first_fitting s 16 with Some i => next_big s' = Some i /\ is_Some r | None => forall i, fits s 16 i = false end.
Proof.
  destruct (mgr_add_run no_mgr ∅ 1000 400 no_mgr_ok ltac:(lia) ltac:(unfold sizeof_bigptr; lia)) as (i & s & E & _ & HI); [by intros i a Ha|].
  destruct (big_alloc_correct true s _ 16 HI ltac:(lia) ltac:(reflexivity)) as (r & s' & Er & _ & Hf). by exists s, r, s'.
Defined.
