(* ===== verification/GcPtr.v ===== *)
(** The reference-counting pointers of src/deps/sfslite-1.2/sp_gc.h: [ptr], [alloc] and [vecalloc] over a manager configured with one arena for big objects and none for small ones
    ([_n_b_arenae] 1 and [_smallobj_lim] 0, in which case [std_mgr_t::aalloc] is [big_alloc]).  The redirectors are null or point to a slot of the arena ([SMALL] is not there); the
    constructor and the destructor of the object do nothing, so a client writes what it wants there itself.

    A client has variables; the theorem says that an object lives as long as a variable points to it, whatever is collected in between. *)
From S2P Require Import Prelude GcBig GcMgr.
#[local] Open Scope Z_scope.

(** * The code *)

(** [std_mgr_t::aalloc] with one arena; [dbg] is [debug_mem].  The state is that of the arena, since [_next_big] can only be null or the one arena there is. *)
Definition mgr_aalloc `{!ObjAlign} (dbg : bool) (sz : Z) : M arena (option Z) :=
  fit ← gets (can_fit sz);
  if (fit : bool) then aalloc sz
  else
    (if dbg then sanity_check else mret tt);;
    found ← gc_make_room (bigslot_size sz);
    (if dbg then sanity_check else mret tt);;
    if (found : bool) then aalloc sz else mret None.

(** The variables that are alive, each a [ptr] with its [_redir_ptr]. *)
Record heap : Type := Heap { boa : arena; vars : gmap nat (option Z) }.
Definition in_arena {A} (m : M arena A) : M heap A := fun s => match m (boa s) with Ok (a, b) => Ok (a, Heap b (vars s)) | Stop f => Stop f end.
Definition redir (i : nat) : M heap (option Z) := fun s => match vars s !! i with Some p => Ok (p, s) | None => Stop Dangling end.
Definition set_redir (i : nat) (p : option Z) : M heap unit := modify (fun s => Heap (boa s) (<[i := p]> (vars s))).

Section code.
Context `{!ObjAlign}.

Definition ptr_rc_inc (i : nat) : M heap unit := p ← redir i; match p with Some h => in_arena (rc_inc h) | None => mret tt end.
Definition ptr_rc_dec (i : nat) : M heap unit :=
  p ← redir i;
  match p with
  | Some h =>
      more ← in_arena (rc_dec h);
      if (more : bool) then mret tt
      else in_arena (data h);; in_arena (ptr_deallocate h);; set_redir i None
  | None => mret tt
  end.

(** The constructors, the destructor and the assignments. *)
Definition ptr_null (i : nat) : M heap unit := set_redir i None.
Definition ptr_of (i : nat) (p : option Z) : M heap unit := set_redir i p;; ptr_rc_inc i.
Definition ptr_copy (i j : nat) : M heap unit := p ← redir j; set_redir i p;; ptr_rc_inc i.
Definition ptr_destroy (i : nat) : M heap unit := ptr_rc_dec i;; modify (fun s => Heap (boa s) (delete i (vars s))).
Definition ptr_assign (i j : nat) : M heap unit := ptr_rc_dec i;; p ← redir j; set_redir i p;; ptr_rc_inc i.
Definition ptr_reset (i : nat) : M heap unit := ptr_rc_dec i;; set_redir i None.

Definition base_eq (i j : nat) : M heap bool := p ← redir i; q ← redir j; mret (Bool.eqb (bool_decide (is_Some p)) (bool_decide (is_Some q))).
(** [*(obj () + k)], read and written; [obj ()] of a null pointer is null. *)
Definition obj_read (i k : nat) : M heap (option Z) := p ← redir i; match p with Some h => in_arena (read h (Z.of_nat k)) | None => stop NullDeref end.
Definition obj_write (i k : nat) (v : Z) : M heap unit := p ← redir i; match p with Some h => in_arena (write h (Z.of_nat k) v) | None => stop NullDeref end.

(** [_p] is the pointer [i]; [ptr<T, V, G> (r)] is a temporary. *)
Definition alloc (dbg : bool) (i : nat) (sizeof_T : Z) : M heap unit :=
  ptr_null i;;
  r ← in_arena (mgr_aalloc dbg sizeof_T);
  match r with
  | Some h =>
      in_arena (data h);;
      t ← gets (fun s => fresh (dom (vars s)));
      ptr_of t (Some h);; ptr_assign i t;; ptr_destroy t
  | None => mret tt
  end.
Definition vecalloc (dbg : bool) (i : nat) (sizeof_T n : Z) : M heap unit := alloc dbg i (u64 (sizeof_T * n)).
End code.

(** * Specification *)

(** What a client sees: the variables, and the bytes of the objects. *)
Abbreviation names := (gmap nat (option Z)).
Abbreviation contents := (gmap Z (list (option Z))).

(** How many variables point to the object. *)
Definition refs (V : names) (h : Z) : Z := Z.of_nat (size (filter (fun kp => kp.2 = Some h) V)).
(** The objects that are left when a variable that held [p] does not any more: none goes but that of [p], and it goes with the last variable that points to it. *)
Definition release (p : option Z) (V : names) (B : contents) : contents :=
  match p with Some h => if decide (refs V h = 0) then delete h B else B | None => B end.

Inductive pop : Type :=
| PNull (i : nat)
| PCopy (i j : nat)
| PAssign (i j : nat)
| PReset (i : nat)
| PDestroy (i : nat)
| PVecalloc (i : nat) (w n : Z)
| PRead (i k : nat)
| PWrite (i k : nat) (v : Z)
| PRoom (sz : Z).
(** What an operation answers: whether the pointer is not null, a byte, whether there is room. *)
Inductive answer : Type := AUnit | ABool (b : bool) | AByte (b : option Z).

Definition is_new (V : names) (i : nat) : Prop := V !! i = None.
Definition is_var (V : names) (i : nat) : Prop := is_Some (V !! i).

Section spec.
Context `{!ObjAlign}.

(** What a client may do: it names new variables where it makes some and has fewer than [INT_MAX] of them, assigns no variable to itself, stays inside the objects,
    and asks for sizes that are numbers of bytes below 2^64, also when the header is added. *)
Definition pmay (op : pop) (VB : names * contents) : Prop :=
  let '(V, B) := VB in
  match op with
  | PNull i => is_new V i
  | PCopy i j => is_new V i /\ is_var V j /\ Z.of_nat (size V) + 1 < INT_MAX
  | PAssign i j => is_var V i /\ is_var V j /\ i <> j /\ Z.of_nat (size V) < INT_MAX
  | PReset i | PDestroy i => is_var V i
  | PVecalloc i w n => is_new V i /\ (0 <= w /\ 0 <= n /\ w * n < 2 ^ 64) /\ boa_obj_align (boa_obj_align (u64 (w * n))) + sizeof_bigslot < 2 ^ 64 /\ Z.of_nat (size V) + 2 < INT_MAX
  | PRead i k | PWrite i k _ => exists h b, V !! i = Some (Some h) /\ B !! h = Some b /\ (k < length b)%nat
  | PRoom sz => sizeof_bigslot <= sz
  end.

Inductive pspec : pop -> names * contents -> answer -> names * contents -> Prop :=
| spec_null i V B : pspec (PNull i) (V, B) AUnit (<[i := None]> V, B)
| spec_copy i j p V B : V !! j = Some p -> pspec (PCopy i j) (V, B) AUnit (<[i := p]> V, B)
| spec_assign i j p q V B : V !! i = Some p -> V !! j = Some q -> pspec (PAssign i j) (V, B) AUnit (<[i := q]> V, release p (<[i := q]> V) B)
| spec_reset i p V B : V !! i = Some p -> pspec (PReset i) (V, B) AUnit (<[i := None]> V, release p (<[i := None]> V) B)
| spec_destroy i p V B : V !! i = Some p -> pspec (PDestroy i) (V, B) AUnit (delete i V, release p (delete i V) B)
| spec_alloc i w n h V B : B !! h = None ->
    pspec (PVecalloc i w n) (V, B) (ABool true) (<[i := Some h]> V, <[h := replicate (Z.to_nat (boa_obj_align (u64 (w * n)))) None]> B)
| spec_full i w n V B : pspec (PVecalloc i w n) (V, B) (ABool false) (<[i := None]> V, B)
| spec_read i k h b x V B : V !! i = Some (Some h) -> B !! h = Some b -> b !! k = Some x -> pspec (PRead i k) (V, B) (AByte x) (V, B)
| spec_write i k v h b V B : V !! i = Some (Some h) -> B !! h = Some b -> pspec (PWrite i k v) (V, B) AUnit (V, <[h := <[k := Some v]> b]> B)
| spec_room sz r V B : pspec (PRoom sz) (V, B) (ABool r) (V, B).

Definition run_pop (dbg : bool) (op : pop) : M heap answer :=
  match op with
  | PNull i => ptr_null i;; mret AUnit
  | PCopy i j => ptr_copy i j;; mret AUnit
  | PAssign i j => ptr_assign i j;; mret AUnit
  | PReset i => ptr_reset i;; mret AUnit
  | PDestroy i => ptr_destroy i;; mret AUnit
  | PVecalloc i w n => vecalloc dbg i w n;; p ← redir i; mret (ABool (bool_decide (is_Some p)))
  | PRead i k => x ← obj_read i k; mret (AByte x)
  | PWrite i k v => obj_write i k v;; mret AUnit
  | PRoom sz => r ← in_arena (gc_make_room sz); mret (ABool r)
  end.

(** The arena holds the objects of [B], each with the count that [V] gives, and every variable points into [B]; the variables of the state may differ from [V] while an operation runs. *)
Definition counted (V : names) (B : contents) : objs := map_imap (fun h b => Some (Obj (refs V h) b)) B.
Record half (s : heap) (Vr V : names) (B : contents) : Prop := {
  h_vars : vars s = Vr;
  h_inv : inv (boa s) (counted V B);
  h_live i h : V !! i = Some (Some h) -> is_Some (B !! h)
}.
(** No object without a variable that points to it. *)
Definition no_garbage (V : names) (B : contents) : Prop := forall h, is_Some (B !! h) -> 0 < refs V h.
Definition hinv (s : heap) (VB : names * contents) : Prop := half s VB.1 VB.1 VB.2 /\ no_garbage VB.1 VB.2.
End spec.
(** * Counting *)
Section counting.
Definition one (p : option Z) (h : Z) : Z := if decide (p = Some h) then 1 else 0.

Lemma refs_insert V i p h : V !! i = None -> refs (<[i := p]> V) h = refs V h + one p h.
Proof.
  intros Hi. unfold refs, one. destruct (decide (p = Some h)) as [->|Hp].
  - rewrite map_filter_insert_True by done. rewrite map_size_insert_None; [lia|]. apply map_lookup_filter_None. by left.
  - rewrite map_filter_insert_False, delete_id by done. lia.
Qed.

Lemma refs_delete V i p h : V !! i = Some p -> refs (delete i V) h = refs V h - one p h.
Proof. intros Hi. rewrite <- (insert_delete_id V i p) at 2 by done. rewrite refs_insert by apply lookup_delete_eq. lia. Qed.

Lemma refs_set V i p q h : V !! i = Some p -> refs (<[i := q]> V) h = refs V h - one p h + one q h.
Proof. intros Hi. rewrite <- insert_delete_eq, refs_insert by apply lookup_delete_eq. by rewrite (refs_delete V i p). Qed.

Lemma refs_nonneg V h : 0 <= refs V h.
Proof. unfold refs. lia. Qed.

Lemma refs_pos V i h : V !! i = Some (Some h) -> 0 < refs V h.
Proof. intros Hi. pose proof (refs_delete V i _ h Hi) as E. pose proof (refs_nonneg (delete i V) h). unfold one in E. rewrite decide_True in E by done. lia. Qed.

Lemma refs_pos_inv V h : 0 < refs V h -> exists i, V !! i = Some (Some h).
Proof.
  unfold refs. intros Hp. destruct (map_choose (filter (fun kp => kp.2 = Some h) V)) as (i & p & Hi).
  - intros E. rewrite E, map_size_empty in Hp. lia.
  - apply map_lookup_filter_Some in Hi as [Hi E]. cbn in E. subst p. by exists i.
Qed.

Lemma refs_le V h : refs V h <= Z.of_nat (size V).
Proof.
  unfold refs. apply inj_le. rewrite <- !size_dom. apply subseteq_size. intros i Hi. apply elem_of_dom in Hi as [p Hi].
  apply map_lookup_filter_Some in Hi as [Hi _]. apply elem_of_dom. by exists p.
Qed.

Lemma lookup_counted V B h : counted V B !! h = (Obj (refs V h)) <$> (B !! h).
Proof. unfold counted. rewrite map_lookup_imap. by destruct (B !! h). Qed.

Lemma counted_ext V V' B : (forall h, is_Some (B !! h) -> refs V' h = refs V h) -> counted V' B = counted V B.
Proof. intros E. apply map_eq. intros h. rewrite !lookup_counted. destruct (B !! h) as [b|] eqn:Eh; [|done]. cbn. by rewrite E. Qed.

Lemma counted_set V V' B h b : B !! h = Some b -> (forall h', h' <> h -> refs V' h' = refs V h') -> counted V' B = <[h := Obj (refs V' h) b]> (counted V B).
Proof.
  intros Hb E. apply map_eq. intros a. rewrite lookup_counted. destruct (decide (a = h)) as [->|Hne].
  - by rewrite lookup_insert_eq, Hb.
  - rewrite lookup_insert_ne, lookup_counted, E by done. done.
Qed.

Lemma counted_insert V B h b : counted V (<[h := b]> B) = <[h := Obj (refs V h) b]> (counted V B).
Proof.
  apply map_eq. intros a. rewrite lookup_counted. destruct (decide (a = h)) as [->|Hne].
  - by rewrite !lookup_insert_eq.
  - by rewrite !lookup_insert_ne, lookup_counted.
Qed.

Lemma counted_delete V V' B h : (forall h', h' <> h -> refs V' h' = refs V h') -> counted V' (delete h B) = delete h (counted V B).
Proof.
  intros E. apply map_eq. intros a. rewrite lookup_counted. destruct (decide (a = h)) as [->|Hne].
  - by rewrite !lookup_delete_eq.
  - by rewrite !lookup_delete_ne, lookup_counted, E.
Qed.

Lemma one_ne p h h' : p = Some h -> h' <> h -> one p h' = 0.
Proof. intros -> Hne. unfold one. by rewrite decide_False by congruence. Qed.

Lemma one_None h : one None h = 0.
Proof. done. Qed.

Lemma one_eq h : one (Some h) h = 1.
Proof. unfold one. by rewrite decide_True. Qed.
End counting.

(** * The operations *)
Section ops.
Context `{ObjAlignLaws}.

Lemma bind_arena {A X} s (m : M arena A) a b (k : A -> M heap X) : m (boa s) = Ok (a, b) -> (in_arena m ≫= k) s = k a (Heap b (vars s)).
Proof. intros E. unfold mbind, M_bind, in_arena. by rewrite E. Qed.

Lemma bind_redir {X} s i p (k : option Z -> M heap X) : vars s !! i = Some p -> (redir i ≫= k) s = k p s.
Proof. intros E. unfold mbind, M_bind, redir. by rewrite E. Qed.

Lemma half_set s Vr V B i p : half s Vr V B -> half (Heap (boa s) (<[i := p]> (vars s))) (<[i := p]> Vr) V B.
Proof. intros [-> HI HL]. by split. Qed.

Lemma half_ext s Vr V V' B : (forall h, refs V' h = refs V h) -> (forall i h, V' !! i = Some (Some h) -> is_Some (B !! h)) -> half s Vr V B -> half s Vr V' B.
Proof. intros E HL' [Hv HI HL]. split; [done| |done]. by rewrite (counted_ext V V'). Qed.

(** A null pointer counts for nothing. *)
Lemma half_null s Vr V B i : V !! i = None -> half s Vr V B -> half s Vr (<[i := None]> V) B.
Proof.
  intros Hi HH. eapply half_ext; [| |exact HH].
  - intros h. rewrite refs_insert by done. unfold one. rewrite decide_False by done. lia.
  - intros j h Hj. apply lookup_insert_Some in Hj as [[_ Hj]|[_ Hj]]; [done|]. by apply (h_live _ _ _ _ HH j).
Qed.

Lemma half_forget s Vr V B i : V !! i = Some None -> half s Vr V B -> half s Vr (delete i V) B.
Proof.
  intros Hi HH. eapply half_ext; [| |exact HH].
  - intros h. rewrite (refs_delete V i None) by done. unfold one. rewrite decide_False by done. lia.
  - intros j h [_ Hj]%lookup_delete_Some. by apply (h_live _ _ _ _ HH j).
Qed.

Lemma rc_inc_run s Vr V B i p : half s Vr V B -> Vr !! i = Some p -> V !! i = Some None -> (forall h, p = Some h -> is_Some (B !! h)) ->
  Z.of_nat (size V) < INT_MAX -> exists s', ptr_rc_inc i s = Ok (tt, s') /\ half s' Vr (<[i := p]> V) B.
Proof.
  intros [Hv HI HL] Hp Hi Hlive Hsize. unfold ptr_rc_inc. rewrite <- Hv in Hp. rewrite (bind_redir _ _ _ _ Hp). destruct p as [h|].
  - destruct (Hlive h eq_refl) as [b Hb]. pose proof (refs_le V h).
    destruct (rc_inc_ok (boa s) (counted V B) h (Obj (refs V h) b) HI) as (a & E & HI' & _); [by rewrite lookup_counted, Hb|cbn; lia|].
    unfold in_arena. rewrite E. eexists. split; [done|]. split; [done| |].
    + rewrite (counted_set V _ B h b Hb).
      * rewrite (refs_set V i None) by done. unfold one at 1. rewrite decide_False by done. rewrite one_eq, Z.sub_0_r. done.
      * intros h' Hne. rewrite (refs_set V i None) by done. rewrite (one_ne (Some h) h) by done. unfold one. rewrite decide_False by done. lia.
    + intros j h' Hj. apply lookup_insert_Some in Hj as [[_ [= <-]]|[_ Hj]]; [by exists b|by eapply HL].
  - exists s. split; [done|]. by rewrite insert_id.
Qed.

Lemma release_live V B i h : V !! i = Some (Some h) -> forall p, is_Some (B !! h) -> is_Some (release p V B !! h).
Proof.
  intros Hi p Hb. destruct p as [h'|]; [|done]. cbn. destruct (decide (refs V h' = 0)) as [E|]; [|done].
  rewrite lookup_delete_ne; [done|]. intros ->. pose proof (refs_pos V i h Hi). lia.
Qed.

Lemma rc_dec_run s Vr V B i p : half s Vr V B -> Vr !! i = Some p -> V !! i = Some p ->
  exists s' x, ptr_rc_dec i s = Ok (tt, s') /\ half s' (<[i := x]> Vr) (<[i := None]> V) (release p (<[i := None]> V) B) /\
    forall h, p = Some h -> refs (<[i := None]> V) h = 0 -> x = None.
Proof.
  intros [Hv HI HL] Hp Hi. unfold ptr_rc_dec. rewrite <- Hv in Hp. rewrite (bind_redir _ _ _ _ Hp). destruct p as [h|]; cbn [release].
  2:{ exists s, None. split; [done|]. split; [|done]. rewrite <- Hv, !insert_id by done. by split. }
  destruct (HL i h Hi) as [b Hb]. pose proof (refs_pos V i h Hi) as Hpos. set (V0 := <[i := None]> V).
  assert (R0 : refs V0 h = refs V h - 1).
  { unfold V0. rewrite (refs_set V i (Some h)), one_eq by done. unfold one. rewrite decide_False by done. lia. }
  assert (Rne : forall h', h' <> h -> refs V0 h' = refs V h').
  { intros h' Hne. unfold V0. rewrite (refs_set V i (Some h)), (one_ne _ h) by done. unfold one. rewrite decide_False by done. lia. }
  assert (HL0 : forall j h', V0 !! j = Some (Some h') -> is_Some (B !! h')).
  { intros j h' Hj. unfold V0 in Hj. apply lookup_insert_Some in Hj as [[_ Hj]|[_ Hj]]; [done|by eapply HL]. }
  destruct (rc_dec_ok (boa s) (counted V B) h (Obj (refs V h) b) HI) as (a & E & HI' & _); [by rewrite lookup_counted, Hb|done|].
  cbn [cnt bytes] in E, HI'. rewrite <- R0 in E, HI'. rewrite <- (counted_set V V0 B h b Hb Rne) in HI'. rewrite (bind_arena _ _ _ _ _ E).
  destruct (Z.eqb_spec (refs V0 h) 0) as [Ez|Ez]; cbn [negb].
  - assert (Ho : counted V0 B !! h = Some (Obj (refs V0 h) b)) by by rewrite lookup_counted, Hb.
    destruct (data_run _ _ _ _ HI' Ho) as (m & Ed & _). rewrite (bind_arena (Heap a (vars s)) _ _ _ _ Ed).
    destruct (ptr_deallocate_ok _ _ _ _ HI' Ho Ez) as (a' & Ea & HI2 & _). rewrite (bind_arena (Heap a (vars s)) _ _ _ _ Ea).
    eexists _, None. split; [done|]. split; [|done]. rewrite decide_True by done. rewrite <- (counted_delete V0 V0 B h) in HI2 by done.
    split; [cbn; by rewrite Hv|done|]. intros j h' Hj. rewrite lookup_delete_ne; [by eapply HL0|]. intros <-. pose proof (refs_pos _ _ _ Hj). lia.
  - eexists _, (Some h). split; [done|]. split; [|by intros h' [= <-]]. rewrite decide_False by done. split; [cbn; by rewrite <- Hv, insert_id|done|done].
Qed.

Lemma release_ext p V V' B : (forall h, p = Some h -> refs V h = 0 <-> refs V' h = 0) -> release p V B = release p V' B.
Proof.
  intros E. destruct p as [h|]; [|done]. cbn. specialize (E h eq_refl). destruct (decide (refs V h = 0)), (decide (refs V' h = 0)); tauto.
Qed.

Lemma garbage_release p V V' B : no_garbage V B -> (forall h, p <> Some h -> refs V h <= refs V' h) -> no_garbage V' (release p V' B).
Proof.
  intros HG E h Hh. destruct (decide (p = Some h)) as [->|Hne].
  - cbn in Hh. destruct (decide (refs V' h = 0)); [by rewrite lookup_delete_eq in Hh; destruct Hh|]. pose proof (refs_nonneg V' h). lia.
  - assert (is_Some (B !! h)) as Hb.
    { destruct p as [h'|]; [|done]. cbn in Hh. destruct (decide (refs V' h' = 0)); [|done]. by rewrite lookup_delete_ne in Hh by congruence. }
    specialize (HG h Hb). specialize (E h Hne). lia.
Qed.

Lemma null_run s V B i : half s V V B -> V !! i = None -> exists s', ptr_null i s = Ok (tt, s') /\ half s' (<[i := None]> V) (<[i := None]> V) B.
Proof. intros HH Hi. eexists. split; [done|]. by apply half_set, half_null. Qed.

Lemma of_run s V B i p : half s V V B -> V !! i = None -> (forall h, p = Some h -> is_Some (B !! h)) -> Z.of_nat (size V) + 1 < INT_MAX ->
  exists s', ptr_of i p s = Ok (tt, s') /\ half s' (<[i := p]> V) (<[i := p]> V) B.
Proof.
  intros HH Hi Hp Hsize. unfold ptr_of, set_redir. rewrite bind_modify.
  destruct (rc_inc_run (Heap (boa s) (<[i := p]> (vars s))) (<[i := p]> V) (<[i := None]> V) B i p) as (s' & E & HH').
  - by apply half_set, half_null.
  - apply lookup_insert_eq.
  - apply lookup_insert_eq.
  - done.
  - rewrite map_size_insert_None by done. lia.
  - exists s'. by rewrite insert_insert_eq in HH'.
Qed.

Lemma copy_run s V B i j p : half s V V B -> V !! i = None -> V !! j = Some p -> Z.of_nat (size V) + 1 < INT_MAX ->
  exists s', ptr_copy i j s = Ok (tt, s') /\ half s' (<[i := p]> V) (<[i := p]> V) B.
Proof.
  intros HH Hi Hj Hsize. unfold ptr_copy. rewrite (bind_redir _ _ p) by by rewrite (h_vars _ _ _ _ HH).
  apply of_run; [done|done| |done]. intros h ->. by apply (h_live _ _ _ _ HH j).
Qed.

Lemma assign_run s V B i j p q : half s V V B -> V !! i = Some p -> V !! j = Some q -> i <> j -> Z.of_nat (size V) < INT_MAX ->
  exists s', ptr_assign i j s = Ok (tt, s') /\ half s' (<[i := q]> V) (<[i := q]> V) (release p (<[i := q]> V) B).
Proof.
  intros HH Hi Hj Hne Hsize. unfold ptr_assign, set_redir. destruct (rc_dec_run s V V B i p HH Hi Hi) as (s1 & x & E1 & HH1 & _). rewrite (M_bind_ok _ _ _ _ _ E1).
  set (V0 := <[i := None]> V) in *. set (B1 := release p V0 B) in *.
  assert (Hj0 : V0 !! j = Some q) by (unfold V0; by rewrite lookup_insert_ne).
  rewrite (bind_redir _ _ q) by (rewrite (h_vars _ _ _ _ HH1); by rewrite lookup_insert_ne). rewrite bind_modify.
  destruct (rc_inc_run (Heap (boa s1) (<[i := q]> (vars s1))) (<[i := q]> V) V0 B1 i q) as (s' & E & HH').
  - rewrite <- (insert_insert_eq V i q x). by apply half_set.
  - apply lookup_insert_eq.
  - apply lookup_insert_eq.
  - intros h ->. by apply (h_live _ _ _ _ HH1 j).
  - unfold V0. rewrite map_size_insert_Some by by exists p. done.
  - exists s'. split; [done|]. unfold V0 in HH'. rewrite insert_insert_eq in HH'. replace (release p (<[i := q]> V) B) with B1; [done|].
    apply release_ext. intros h Hp. replace (<[i := q]> V) with (<[i := q]> V0) by (unfold V0; by rewrite insert_insert_eq).
    rewrite (refs_set V0 i None), one_None by apply lookup_insert_eq. pose proof (refs_nonneg V0 h).
    destruct (decide (q = Some h)) as [->|Hq]; [pose proof (refs_pos V0 j h Hj0); rewrite one_eq; lia|]. unfold one. rewrite decide_False by done. lia.
Qed.

Lemma reset_run s V B i p : half s V V B -> V !! i = Some p ->
  exists s', ptr_reset i s = Ok (tt, s') /\ half s' (<[i := None]> V) (<[i := None]> V) (release p (<[i := None]> V) B).
Proof.
  intros HH Hi. unfold ptr_reset, set_redir. destruct (rc_dec_run s V V B i p HH Hi Hi) as (s1 & x & E1 & HH1 & _). rewrite (M_bind_ok _ _ _ _ _ E1).
  eexists. split; [done|]. rewrite <- (insert_insert_eq V i None x) at 1. by apply half_set.
Qed.

Lemma destroy_run s V B i p : half s V V B -> V !! i = Some p ->
  exists s', ptr_destroy i s = Ok (tt, s') /\ half s' (delete i V) (delete i V) (release p (delete i V) B).
Proof.
  intros HH Hi. unfold ptr_destroy. destruct (rc_dec_run s V V B i p HH Hi Hi) as (s1 & x & E1 & HH1 & _). rewrite (M_bind_ok _ _ _ _ _ E1).
  eexists. split; [done|]. apply (half_forget _ _ _ _ i) in HH1; [|apply lookup_insert_eq]. rewrite delete_insert_eq in HH1.
  destruct HH1 as [Hv HI HL].
  assert (ER : release p (<[i := None]> V) B = release p (delete i V) B).
  { apply release_ext. intros h _. rewrite (refs_set V i p), (refs_delete V i p), one_None by done. lia. }
  rewrite ER in *. split; [cbn; by rewrite Hv, delete_insert_eq|done|done].
Qed.
End ops.

Section refinement.
Context `{ObjAlignLaws}.

(** An allocation of the manager: an object that nothing points to yet, or none; then a collection may have moved the others. *)
Lemma mgr_aalloc_run dbg a O n : inv a O -> 0 <= n -> boa_obj_align (boa_obj_align n) + sizeof_bigslot < 2 ^ 64 ->
  exists a', (exists h, mgr_aalloc dbg n a = Ok (Some h, a') /\ h ∉ dom O /\ inv a' (<[h := Obj 0 (replicate (Z.to_nat (boa_obj_align n)) None)]> O)) \/
    (mgr_aalloc dbg n a = Ok (None, a') /\ inv a' O).
Proof.
  intros HI Hn Hov. unfold mgr_aalloc. rewrite bind_gets. pose proof (aalloc_ok a O n HI Hn Hov) as Ha.
  destruct (can_fit n a); [destruct Ha as (h & a' & E & Hh & HI' & _); exists a'; left; by exists h|].
  assert (Ed : forall a0, inv a0 O -> (if dbg then sanity_check else mret tt) a0 = Ok (tt, a0)) by (intros a0 HI0; destruct dbg; [by eapply inv_sanity|done]).
  rewrite (M_bind_ok _ _ _ _ _ (Ed a HI)). assert (Hb : sizeof_bigslot <= bigslot_size n).
  { pose proof (align_up n). pose proof (align_up (boa_obj_align n)). unfold bigslot_size, u64, sizeof_bigslot in *. rewrite Z.mod_small; lia. }
  destruct (gc_make_room_run a O _ HI Hb) as (a1 & E1 & HI1 & _). rewrite (M_bind_ok _ _ _ _ _ E1), (M_bind_ok _ _ _ _ _ (Ed a1 HI1)).
  destruct (bool_decide _); [|by exists a1; right]. pose proof (aalloc_ok a1 O n HI1 Hn Hov) as Ha1.
  destruct (can_fit n a1); [|by exists a1; right]. destruct Ha1 as (h & a' & E & Hh & HI' & _). exists a'. left. by exists h.
Qed.

(** With one arena [big_alloc] of the manager is [mgr_aalloc]. *)
Lemma pick_one test i nb a : nb = None \/ nb = Some i -> pick test (Mgr [i] nb {[i := a]}) =
  (b ← test i; if (b : bool) then mret (Some i) else mret None) (Mgr [i] nb {[i := a]}).
Proof.
  intros Hnb. rewrite pick_run; cbn [bigs next_big]; [|apply NoDup_singleton|intros x ->; destruct Hnb as [|[= ->]]; [done|by left]].
  destruct Hnb as [->| ->]; cbn [around from before]; [done|]. by rewrite !decide_True.
Qed.

Lemma at_one {X} i nb a (m : M arena X) : at_boa i m (Mgr [i] nb {[i := a]}) =
  match m a with Ok (x, a') => Ok (x, Mgr [i] nb {[i := a']}) | Stop f => Stop f end.
Proof. unfold at_boa. cbn [boas bigs next_big]. rewrite lookup_singleton_eq. destruct (m a) as [[x a']|f]; [|done]. by rewrite insert_singleton_eq. Qed.

Lemma sanity_one (dbg : bool) i nb a : (if dbg then mgr_sanity_check else mret tt : M mgr unit) (Mgr [i] nb {[i := a]}) =
  match (if dbg then sanity_check else mret tt : M arena unit) a with Ok (x, a') => Ok (x, Mgr [i] nb {[i := a']}) | Stop f => Stop f end.
Proof. destruct dbg; [|done]. unfold mgr_sanity_check. rewrite bind_gets. cbn [bigs each]. unfold mbind, M_bind. rewrite at_one. by destruct (sanity_check a) as [[[] a']|f]. Qed.

Lemma one_arena dbg sz i nb a : nb = None \/ nb = Some i ->
  match mgr_aalloc dbg sz a with
  | Ok (r, a') => exists nb', (nb' = None \/ nb' = Some i) /\ big_alloc dbg sz (Mgr [i] nb {[i := a]}) = Ok (r, Mgr [i] nb' {[i := a']})
  | Stop f => big_alloc dbg sz (Mgr [i] nb {[i := a]}) = Stop f
  end.
Proof.
  intros Hnb. unfold big_alloc, big_pick, gc_make_room_big, mgr_aalloc, mbind, M_bind. cbn beta. rewrite pick_one by done.
  unfold mbind, M_bind, gets. cbn beta. rewrite at_one. cbn. destruct (can_fit sz a).
  - cbn. rewrite at_one. destruct (aalloc sz a) as [[r a']|f]; [|done]. exists (Some i). split; [by right|done].
  - cbn. rewrite sanity_one. destruct ((if dbg then sanity_check else mret tt) a) as [[[] a1]|f]; [|done].
    rewrite pick_one by done. unfold mbind, M_bind. rewrite at_one. destruct (gc_make_room (bigslot_size sz) a1) as [[[] a2]|f]; [| |done]; cbn.
    + rewrite sanity_one. destruct ((if dbg then sanity_check else mret tt) a2) as [[[] a3]|f]; [|done]. cbn. rewrite at_one.
      destruct (aalloc sz a3) as [[r a4]|f]; [|done]. exists (Some i). split; [by right|done].
    + rewrite sanity_one. destruct ((if dbg then sanity_check else mret tt) a2) as [[[] a3]|f]; [|done]. cbn. by exists nb.
Qed.

(** The object that [alloc] has just got; nothing points to it yet. *)
Lemma new_object_run dbg s V B n : half s V V B -> 0 <= n -> boa_obj_align (boa_obj_align n) + sizeof_bigslot < 2 ^ 64 ->
  exists s', (exists h, in_arena (mgr_aalloc dbg n) s = Ok (Some h, s') /\ B !! h = None /\ refs V h = 0 /\
     half s' V V (<[h := replicate (Z.to_nat (boa_obj_align n)) None]> B)) \/
  (in_arena (mgr_aalloc dbg n) s = Ok (None, s') /\ half s' V V B).
Proof.
  intros [Hv HI HL] Hn Hov. destruct (mgr_aalloc_run dbg (boa s) (counted V B) n HI Hn Hov) as (a & [(h & E & Hh & HI')|[E HI']]); unfold in_arena; rewrite E;
    eexists; [left|right; split; [done|by split]].
  apply not_elem_of_dom in Hh. rewrite lookup_counted, fmap_None in Hh.
  assert (R0 : refs V h = 0).
  { pose proof (refs_nonneg V h). destruct (decide (refs V h = 0)) as [|Hne]; [done|]. destruct (refs_pos_inv V h ltac:(lia)) as [i Hi].
    destruct (HL i h Hi) as [b Hb]. congruence. }
  exists h. split; [done|]. split; [done|]. split; [done|]. split; [done| |].
  - cbn [boa]. by rewrite counted_insert, R0.
  - intros i h' Hi. destruct (decide (h' = h)) as [->|Hne]; [by rewrite lookup_insert_eq|]. rewrite lookup_insert_ne by done. by eapply HL.
Qed.

(** [alloc] leaves one pointer to the new object: that of the temporary is gone. *)
Lemma alloc_run dbg s V B i n : half s V V B -> V !! i = None -> 0 <= n -> boa_obj_align (boa_obj_align n) + sizeof_bigslot < 2 ^ 64 ->
  Z.of_nat (size V) + 2 < INT_MAX ->
  exists s', alloc dbg i n s = Ok (tt, s') /\
    ((exists h, B !! h = None /\ half s' (<[i := Some h]> V) (<[i := Some h]> V) (<[h := replicate (Z.to_nat (boa_obj_align n)) None]> B)) \/
     half s' (<[i := None]> V) (<[i := None]> V) B).
Proof.
  intros HH Hi Hn Hov Hsize. unfold alloc. destruct (null_run s V B i HH Hi) as (s1 & E1 & HH1). rewrite (M_bind_ok _ _ _ _ _ E1).
  set (V1 := <[i := None]> V) in *.
  destruct (new_object_run dbg s1 V1 B n HH1 Hn Hov) as (s2 & [(h & E2 & Hh & R0 & HH2)|[E2 HH2]]); rewrite (M_bind_ok _ _ _ _ _ E2);
    [|by exists s2; split; [|right]].
  set (B1 := <[h := _]> B) in *. assert (Ho : counted V1 B1 !! h = Some (Obj (refs V1 h) (replicate (Z.to_nat (boa_obj_align n)) None))).
  { unfold B1. by rewrite lookup_counted, lookup_insert_eq. }
  destruct (data_run _ _ _ _ (h_inv _ _ _ _ HH2) Ho) as (m & Ed & _). rewrite (bind_arena s2 _ _ _ _ Ed), bind_gets.
  replace (Heap (boa s2) (vars s2)) with s2 by by destruct s2. cbn [vars]. rewrite (h_vars _ _ _ _ HH2). set (t := fresh (dom V1)).
  assert (Ht : V1 !! t = None) by apply not_elem_of_dom, is_fresh.
  assert (Hti : i <> t) by (intros Eit; rewrite <- Eit in Ht; unfold V1 in Ht; by rewrite lookup_insert_eq in Ht).
  assert (Hs1 : size V1 = S (size V)) by (unfold V1; by rewrite map_size_insert_None).
  destruct (of_run s2 V1 B1 t (Some h) HH2 Ht) as (s3 & E3 & HH3); [intros h' [= <-]; unfold B1; by rewrite lookup_insert_eq|lia|].
  rewrite (M_bind_ok _ _ _ _ _ E3).
  destruct (assign_run s3 _ _ i t None (Some h) HH3) as (s4 & E4 & HH4);
    [rewrite lookup_insert_ne by done; apply lookup_insert_eq|apply lookup_insert_eq|done|rewrite map_size_insert_None by done; lia|].
  rewrite (M_bind_ok _ _ _ _ _ E4). cbn [release] in HH4.
  destruct (destroy_run s4 _ _ t (Some h) HH4) as (s5 & E5 & HH5); [rewrite lookup_insert_ne by done; apply lookup_insert_eq|].
  assert (EV : delete t (<[i := Some h]> (<[t := Some h]> V1)) = <[i := Some h]> V).
  { rewrite delete_insert_ne, delete_insert_id by done. unfold V1. by rewrite insert_insert_eq. }
  rewrite EV in HH5. exists s5. split; [done|]. left. exists h. split; [done|]. cbn [release] in HH5.
  rewrite decide_False in HH5; [done|]. pose proof (refs_pos (<[i := Some h]> V) i h (lookup_insert_eq _ _ _)). lia.
Qed.

Lemma one_nonneg p h : 0 <= one p h.
Proof. unfold one. by destruct (decide _). Qed.

Lemma garbage_insert V B i p : V !! i = None -> no_garbage V B -> no_garbage (<[i := p]> V) B.
Proof. intros Hi HG h Hh. rewrite refs_insert by done. pose proof (one_nonneg p h). specialize (HG h Hh). lia. Qed.

Lemma garbage_set V B i p q : V !! i = Some p -> no_garbage V B -> no_garbage (<[i := q]> V) (release p (<[i := q]> V) B).
Proof.
  intros Hi HG. apply (garbage_release _ V); [done|]. intros h Hne. rewrite (refs_set V i p) by done. pose proof (one_nonneg q h).
  unfold one at 1. rewrite decide_False by done. lia.
Qed.

Lemma garbage_delete V B i p : V !! i = Some p -> no_garbage V B -> no_garbage (delete i V) (release p (delete i V) B).
Proof.
  intros Hi HG. apply (garbage_release _ V); [done|]. intros h Hne. rewrite (refs_delete V i p) by done. unfold one. rewrite decide_False by done. lia.
Qed.

Lemma garbage_alloc V B i h b : V !! i = None -> no_garbage V B -> no_garbage (<[i := Some h]> V) (<[h := b]> B).
Proof.
  intros Hi HG h' Hh. destruct (decide (h' = h)) as [->|Hne]; [apply (refs_pos _ i), lookup_insert_eq|].
  rewrite lookup_insert_ne in Hh by done. exact (garbage_insert V B i _ Hi HG h' Hh).
Qed.

Lemma read_run s V B i k h b x : half s V V B -> V !! i = Some (Some h) -> B !! h = Some b -> b !! k = Some x -> obj_read i k s = Ok (x, s).
Proof.
  intros HH Hi Hb Hx. unfold obj_read. rewrite (bind_redir _ _ (Some h)) by by rewrite (h_vars _ _ _ _ HH).
  unfold in_arena. rewrite (boa_read_ok _ _ _ (Obj (refs V h) b) _ x (h_inv _ _ _ _ HH)); [by destruct s|by rewrite lookup_counted, Hb|done].
Qed.

Lemma write_run s V B i k h b v : half s V V B -> V !! i = Some (Some h) -> B !! h = Some b -> (k < length b)%nat ->
  exists s', obj_write i k v s = Ok (tt, s') /\ half s' V V (<[h := <[k := Some v]> b]> B).
Proof.
  intros [Hv HI HL] Hi Hb Hk. unfold obj_write. rewrite (bind_redir _ _ (Some h)) by by rewrite Hv.
  destruct (boa_write_ok _ _ h (Obj (refs V h) b) k v HI) as (a & E & HI' & _); [by rewrite lookup_counted, Hb|done|].
  unfold in_arena. rewrite E. eexists. split; [done|]. split; [done|by rewrite counted_insert|].
  intros j h' Hj. destruct (decide (h' = h)) as [->|Hne]; [by rewrite lookup_insert_eq|]. rewrite lookup_insert_ne by done. by eapply HL.
Qed.

Lemma room_run s V B sz : half s V V B -> sizeof_bigslot <= sz -> exists r s', in_arena (gc_make_room sz) s = Ok (r, s') /\ half s' V V B.
Proof.
  intros [Hv HI HL] Hsz. destruct (gc_make_room_run _ _ sz HI Hsz) as (a & E & HI' & _). unfold in_arena. rewrite E. eexists _, _. split; [done|]. by split.
Qed.

(** Every operation does what is specified. *)
Lemma pop_run dbg op s VB : hinv s VB -> pmay op VB -> exists r s' VB', run_pop dbg op s = Ok (r, s') /\ pspec op VB r VB' /\ hinv s' VB'.
Proof.
  destruct VB as [V B]. intros [HH HG] HM. cbn [fst snd] in *. destruct op as [i|i j|i j|i|i|i w n|i k|i k v|sz]; cbn [pmay run_pop] in *.
  - destruct (null_run s V B i HH HM) as (s' & E & HH'). rewrite (M_bind_ok _ _ _ _ _ E).
    eexists _, s', (_, _). split; [done|]. split; [constructor|]. split; [done|]. by apply garbage_insert.
  - destruct HM as (Hi & [p Hp] & Hs). destruct (copy_run s V B i j p HH Hi Hp ltac:(lia)) as (s' & E & HH'). rewrite (M_bind_ok _ _ _ _ _ E).
    eexists _, s', (_, _). split; [done|]. split; [by constructor|]. split; [done|]. by apply garbage_insert.
  - destruct HM as ([p Hp] & [q Hq] & Hne & Hs). destruct (assign_run s V B i j p q HH Hp Hq Hne Hs) as (s' & E & HH'). rewrite (M_bind_ok _ _ _ _ _ E).
    eexists _, s', (_, _). split; [done|]. split; [by constructor|]. split; [done|]. by apply garbage_set.
  - destruct HM as [p Hp]. destruct (reset_run s V B i p HH Hp) as (s' & E & HH'). rewrite (M_bind_ok _ _ _ _ _ E).
    eexists _, s', (_, _). split; [done|]. split; [by constructor|]. split; [done|]. by apply garbage_set.
  - destruct HM as [p Hp]. destruct (destroy_run s V B i p HH Hp) as (s' & E & HH'). rewrite (M_bind_ok _ _ _ _ _ E).
    eexists _, s', (_, _). split; [done|]. split; [by constructor|]. split; [done|]. by apply garbage_delete.
  - destruct HM as (Hi & _ & Hov & Hs). unfold vecalloc. assert (Hn : 0 <= u64 (w * n)) by (unfold u64; apply Z.mod_pos_bound; lia).
    destruct (alloc_run dbg s V B i _ HH Hi Hn Hov Hs) as (s' & E & [(h & Hh & HH')|HH']); rewrite (M_bind_ok _ _ _ _ _ E);
      rewrite (bind_redir _ _ _ _ (eq_trans (f_equal (lookup i) (h_vars _ _ _ _ HH')) (lookup_insert_eq _ _ _))); eexists _, s', (_, _); (split; [done|]);
      (split; [by constructor|]); (split; [done|]).
    + by apply garbage_alloc.
    + by apply garbage_insert.
  - destruct HM as (h & b & Hi & Hb & Hk). destruct (lookup_lt_is_Some_2 b k Hk) as [x Hx]. rewrite (M_bind_ok _ _ _ _ _ (read_run s V B i k h b x HH Hi Hb Hx)).
    eexists _, s, (V, B). split; [done|]. split; [by econstructor|by split].
  - destruct HM as (h & b & Hi & Hb & Hk). destruct (write_run s V B i k h b v HH Hi Hb Hk) as (s' & E & HH'). rewrite (M_bind_ok _ _ _ _ _ E).
    eexists _, s', (_, _). split; [done|]. split; [by econstructor|]. split; [done|]. intros h' Hh'. cbn [fst snd] in *. apply HG.
    destruct (decide (h' = h)) as [->|Hne]; [by exists b|]. by rewrite lookup_insert_ne in Hh'.
  - destruct (room_run s V B sz HH HM) as (r & s' & E & HH'). rewrite (M_bind_ok _ _ _ _ _ E). eexists _, s', (V, B). split; [done|]. split; [constructor|by split].
Qed.

(** C24: over one arena for big objects, a client of the pointers sees a heap that manages itself.  The client names a new variable where it makes one, assigns no variable to itself,
    stays inside its objects, has fewer than INT_MAX variables, and asks for vectors whose size in bytes is below 2^64, also when the header of a slot is added; constructors and destructors of
    the objects do nothing.  The heap is in its invariant at first, as that with a new arena is.  Collections are those of gc_make_room, which an allocation runs where there is no room and the client where it likes, for the size of a slot header at least; gc()
    is not among the calls.  Then, whatever the client allocates, copies, assigns, drops and has collected, every call returns, no check fails and no access goes astray; an allocation gives a
    new object or null; an object keeps its bytes while a variable points to it, and goes with the last one that does. *)
Theorem gc_heap_refines dbg A (c : client pop answer A) s VB : hinv s VB -> behaves pspec pmay c VB ->
  exists a s' VB', run_client (run_pop dbg) c s = Ok (a, s') /\ meant pspec c VB a VB' /\ hinv s' VB'.
Proof. apply client_refines, pop_run. Qed.

(** A variable assigned to itself that is the only one: the object goes, and the variable is null. *)
Lemma self_assignment s V B i h : hinv s (V, B) -> V !! i = Some (Some h) -> refs V h = 1 ->
  exists s', ptr_assign i i s = Ok (tt, s') /\ vars s' = <[i := None]> V /\ inv (boa s') (counted (<[i := None]> V) (delete h B)).
Proof.
  intros [HH HG] Hi HR. cbn [fst snd] in *. unfold ptr_assign, set_redir. destruct (rc_dec_run s V V B i (Some h) HH Hi Hi) as (s1 & x & E1 & HH1 & Hx). rewrite (M_bind_ok _ _ _ _ _ E1).
  assert (R0 : refs (<[i := None]> V) h = 0) by (rewrite (refs_set V i (Some h)), one_eq, one_None by done; lia). rewrite (Hx h eq_refl R0) in HH1.
  destruct HH1 as [Hv HI HL]. rewrite (bind_redir _ _ None) by (rewrite Hv; apply lookup_insert_eq). rewrite bind_modify, Hv, insert_insert_eq.
  unfold ptr_rc_inc. rewrite (bind_redir _ _ None) by apply lookup_insert_eq. eexists. split; [done|]. split; [done|].
  cbn [release] in HI. by rewrite decide_True in HI.
Qed.
End refinement.

(** * Runs *)

Definition start (base sz : Z) : heap := Heap (arena_init base sz) ∅.

Lemma gc_start_ok `{ObjAlignLaws} base sz : 0 < base -> sizeof_bigptr <= sz < 2 ^ 61 -> hinv (start base sz) (∅, ∅).
Proof.
  intros Hb Hsz. split.
  - split; [done| |done]. apply arena_init_inv; [done|done].
  - intros h [b Hh]. done.
Qed.

Definition out {A} (m : M heap A) : res A := match m (start 1000 400) with Ok (a, _) => Ok a | Stop f => Stop f end.

(** Two objects with a byte each; the variable of the first is assigned the second, a collection moves it, and it is read through both. *)
Example pointers_run :
  out (alloc true 0 16;; alloc true 1 16;; obj_write 0 0 7;; obj_write 1 0 8;; ptr_copy 2 1;; ptr_assign 0 1;; in_arena (gc false);;
    x ← obj_read 0 0; y ← obj_read 2 0; n ← gets (fun s => length (memslots (boa s))); mret (x, y, n)) = Ok (Some 8, Some 8, 1%nat).
Proof. vm_compute. reflexivity. Qed.

(** [p = p] destroys the object of its only pointer. *)
Example self_assignment_run : out (alloc true 0 16;; ptr_assign 0 0;; obj_read 0 0) = Stop NullDeref.
Proof. vm_compute. reflexivity. Qed.

(** Two pointers to different objects are equal: redirectors are compared as truth values. *)
Example different_equal : out (alloc true 0 16;; alloc true 1 16;; obj_write 0 0 7;; obj_write 1 0 8;; base_eq 0 1) = Ok true.
Proof. vm_compute. reflexivity. Qed.

(** The size of a vector wraps: [n] elements that do not fit in memory get an object of no byte. *)
Example vecalloc_wraps : out (vecalloc true 0 16 (2 ^ 60);; obj_write 0 0 7;; n ← gets (fun s => nxt_memslot (boa s)); mret n) = Ok 1048.
Proof. vm_compute. reflexivity. Qed.

(** A client: it makes an object, keeps a second pointer to it, collects, and writes through one and reads through the other. *)
Definition sharer : client pop answer (option (option Z)) :=
  Call (PVecalloc 0 1 16) (fun r =>
    match r with
    | ABool true =>
        Call (PCopy 1 0) (fun _ => Call (PWrite 0 3 9) (fun _ => Call (PRoom 64) (fun _ => Call (PDestroy 0) (fun _ =>
          Call (PRead 1 3) (fun r => Return (match r with AByte x => Some x | _ => None end))))))
    | _ => Return None
    end).

Lemma sharer_behaves : behaves pspec pmay sharer (∅, ∅).
Proof.
  cbn [behaves sharer]. split; [split; [done|]; split; [lia|]; by split|]. intros r VB HS. inversion HS as [| | | | |? ? ? h ? ? Hh| | | |]; subst; [|done].
  assert (Hb : forall x, (replicate (Z.to_nat (boa_obj_align (u64 (1 * 16)))) x : list (option Z)) = replicate 16 x) by done. rewrite Hb. clear HS Hh.
  split; [split_and!; [done|by exists (Some h)|done]|]. intros r VB HS. inversion HS as [|? ? p ? ? Hp| | | | | | | |]; subst. assert (p = Some h) as -> by (vm_compute in Hp; congruence). clear HS Hp.
  split; [exists h, (replicate 16 None); split_and!; [done|by rewrite lookup_insert_eq|rewrite length_replicate; lia]|].
  intros r VB HS. inversion HS as [| | | | | | | |? ? ? h' b ? ? Hi Hb'|]; subst. assert (h' = h) as -> by (vm_compute in Hi; congruence). rewrite lookup_insert_eq in Hb'. injection Hb' as <-. clear HS.
  split; [done|]. intros r VB HS. inversion HS; subst. clear HS.
  split; [by exists (Some h)|]. intros r VB HS. inversion HS as [| | | |? p ? ? Hp| | | | |]; subst. assert (p = Some h) as -> by (vm_compute in Hp; congruence). clear HS Hp.
  split; [|by intros]. cbn [release].
  rewrite decide_False by (intros E0; pose proof (refs_pos (delete 0%nat (<[1%nat := Some h]> (<[0%nat := Some h]> ∅))) 1 h eq_refl); lia).
  exists h, (<[3%nat := Some 9]> (replicate 16 None)). split_and!; [done|by rewrite lookup_insert_eq|rewrite length_insert, length_replicate; lia].
Qed.

Lemma gc_heap_refines_witness :
  exists a s' VB', run_client (run_pop true) sharer (start 1000 400) = Ok (a, s') /\ meant pspec sharer (∅, ∅) a VB' /\ hinv s' VB'.
Proof. apply gc_heap_refines; [apply gc_start_ok; unfold sizeof_bigptr; lia|apply sharer_behaves]. Defined.
