(* ===== verification/GcSmall.v ===== *)
(** The arenas for small objects of src/deps/sfslite-1.2/sp_gc.h and sp_gc_impl.h: slots of one size, handed out one after the other and again through a list of free ones that is threaded
    through their data; and the cluster of arenas of one size with its lists of those that have room and those that have none. *)
From S2P Require Import Prelude.
#[local] Open Scope Z_scope.

(** * The code *)

(** What the union of [_data] and [_free_ptr] holds.  Whoever reads [_free_ptr] where there are data, or a byte where there is [_free_ptr], gets what nobody knows. *)
Inductive payload : Type := FreePtr (i : Z) | Data (l : list (option Z)).
(** A [smallptr_t] whose magic is in order; its data lie at offset 12. *)
Record sslot : Type := SSlot { _count : Z; _union : payload }.
Definition off_data : Z := 12.
Definition sizeof_int32 : Z := 4.
Definition sizeof_smallptr : Z := 16.

Record soa : Type := Soa {
  sbase : Z;
  ssz : Z;
  stop_ : Z;
  snxt : Z;
  smin : Z;
  smax : Z;
  vacancy : bool;
  free_list : Z;
  vacancy_list_id : option bool
}.
Definition with_snxt (z : Z) (a : soa) : soa := Soa (sbase a) (ssz a) (stop_ a) z (smin a) (smax a) (vacancy a) (free_list a) (vacancy_list_id a).
Definition with_vacancy (b : bool) (a : soa) : soa := Soa (sbase a) (ssz a) (stop_ a) (snxt a) (smin a) (smax a) b (free_list a) (vacancy_list_id a).
Definition with_free_list (z : Z) (a : soa) : soa := Soa (sbase a) (ssz a) (stop_ a) (snxt a) (smin a) (smax a) (vacancy a) z (vacancy_list_id a).
Definition with_list_id (b : bool) (a : soa) : soa := Soa (sbase a) (ssz a) (stop_ a) (snxt a) (smin a) (smax a) (vacancy a) (free_list a) (Some b).

(** The arenas of one size, the lists of the cluster, and the slots in memory. *)
Record cluster : Type := Cluster { arenas : gmap nat soa; _vacancy : list nat; _no_vacancy : list nat; smem : gmap Z sslot }.
Definition arena (i : nat) : M cluster soa := fun c => match arenas c !! i with Some a => Ok (a, c) | None => Stop Dangling end.
Definition set_arena (i : nat) (f : soa -> soa) : M cluster unit :=
  a ← arena i; modify (fun c => Cluster (<[i := f a]> (arenas c)) (_vacancy c) (_no_vacancy c) (smem c)).
Definition with_smem (m : gmap Z sslot) (c : cluster) : cluster := Cluster (arenas c) (_vacancy c) (_no_vacancy c) m.
Definition with_lists (v n : list nat) (c : cluster) : cluster := Cluster (arenas c) v n (smem c).
Definition cassert (b : bool) : M cluster unit := lift (c_assert b).

Definition soa_new (b s l h : Z) : soa := Soa b s (b + s) b l h true (-1) None.
(** [smallptr_t::size (s)] and what is taken from it. *)
Definition smallptr_size (s : Z) : Z := u64 (sizeof_smallptr - sizeof_int32 + s).
Definition slotsize_gross (a : soa) : Z := smallptr_size (smax a).
(** The conversion to [int32_t]. *)
Definition n_items (a : soa) : Z := i32 (ssz a / slotsize_gross a).

Definition scheck (p : Z) : M cluster sslot := fun c => match smem c !! p with Some x => Ok (x, c) | None => Stop Dangling end.
Definition obj2ind (a : soa) (p : Z) : M cluster Z :=
  scheck p;;
  cassert (sbase a <=? p);; cassert (p <? stop_ a);;
  let objsz := slotsize_gross a in
  cassert (0 <? objsz);;
  let diff := p - sbase a in
  cassert (diff mod objsz =? 0);;
  let ret := i32 (diff / objsz) in
  cassert (0 <=? ret);; cassert (ret <? n_items a);;
  mret ret.
Definition ind2obj (a : soa) (i : Z) : M cluster Z :=
  cassert (0 <=? i);; cassert (i <? n_items a);;
  let vp := sbase a + slotsize_gross a * i in
  cassert (vp <? stop_ a);;
  scheck vp;; mret vp.

(** [p->_free_ptr = i] writes four bytes, also where a slot has less; what follows is then destroyed. *)
Definition set_free_ptr (a : soa) (p i : Z) : M cluster unit :=
  x ← scheck p;
  modify (fun c =>
    let m := <[p := SSlot (_count x) (FreePtr i)]> (smem c) in
    with_smem (if smax a <? sizeof_int32 then delete (p + slotsize_gross a) m else m) c).
Definition get_free_ptr (p : Z) : M cluster Z := x ← scheck p; match _union x with FreePtr i => mret i | Data _ => stop Uninit end.
(** [use ()] of a slot that is there, or of bare memory. *)
Definition use (a : soa) (p : Z) : M cluster unit :=
  modify (fun c => with_smem (<[p := SSlot 0 (match smem c !! p with Some x => _union x | None => Data (replicate (Z.to_nat (smax a)) None) end)]> (smem c)) c).
Definition small_set_count (p n : Z) : M cluster unit := x ← scheck p; modify (fun c => with_smem (<[p := SSlot n (_union x)]> (smem c)) c).

Definition soa_aalloc (i : nat) (sz : Z) : M cluster (option Z) :=
  a ← arena i;
  cassert (smin a <=? sz);; cassert (sz <=? smax a);;
  let inc := slotsize_gross a in
  mp ← (if 0 <=? free_list a then p ← ind2obj a (free_list a); f ← get_free_ptr p; set_arena i (with_free_list f);; mret (Some p)
        else if snxt a + inc <=? stop_ a then set_arena i (with_snxt (snxt a + inc));; mret (Some (snxt a))
        else mret None);
  match mp with
  | Some p =>
      use a p;;
      cassert (sbase a <=? p);; cassert (p <? stop_ a);;
      mret (Some p)
  | None => set_arena i (with_vacancy false);; mret None
  end.

(** ** The cluster *)

(** [tailq::remove] of an element that is in the list. *)
Definition list_remove (i : nat) (l : list nat) : res (list nat) := if bool_decide (i ∈ l) then Ok (filter (fun x => x <> i) l) else Stop Dangling.
Definition list_id (i : nat) : M cluster bool := a ← arena i; lift (match vacancy_list_id a with Some b => Ok b | None => Stop Uninit end).

Fixpoint cluster_try (sz : Z) (l : list nat) : M cluster (option Z) :=
  match l with
  | [] => mret None
  | i :: l =>
      b ← list_id i; cassert (Bool.eqb b true);;
      ret ← soa_aalloc i sz;
      match ret with
      | Some p => mret (Some p)
      | None =>
          vac ← gets _vacancy; novac ← gets _no_vacancy;
          v ← lift (list_remove i vac);
          modify (with_lists v (novac ++ [i]));;
          set_arena i (with_list_id false);;
          cluster_try sz l
      end
  end.
Definition cluster_aalloc (sz : Z) : M cluster (option Z) := l ← gets _vacancy; cluster_try sz l.
Definition cluster_add (i : nat) : M cluster unit := modify (fun c => with_lists (_vacancy c ++ [i]) (_no_vacancy c) c);; set_arena i (with_list_id true).
Definition became_vacant (i : nat) : M cluster unit :=
  b ← list_id i; cassert (Bool.eqb b false);;
  vac ← gets _vacancy; novac ← gets _no_vacancy;
  v ← lift (list_remove i novac);
  modify (with_lists (vac ++ [i]) v);;
  set_arena i (with_list_id true).

Definition soa_mark_free (i : nat) (p : Z) : M cluster unit :=
  a ← arena i;
  ind ← obj2ind a p;
  set_free_ptr a p (free_list a);;
  set_arena i (with_free_list ind);;
  if vacancy a then mret tt else became_vacant i;; set_arena i (with_vacancy true).

(** The arena that [mgr_t::lookup] finds with [cmp]. *)
Definition holds (a : soa) (x : Z) : bool := (sbase a <=? x) && (x <? sbase a + ssz a).
Definition mgr_lookup (x : Z) (c : cluster) : option nat := fst <$> head (filter (fun ia => holds ia.2 x = true) (map_to_list (arenas c))).
Definition lookup_arena (p : Z) : M cluster nat := o ← gets (mgr_lookup (p + off_data)); match o with Some i => mret i | None => stop AssertFailed end.
Definition small_deallocate (p : Z) : M cluster unit :=
  i ← lookup_arena p;
  scheck p;;
  small_set_count p (-1);;
  soa_mark_free i p.
Definition small_size (p : Z) : M cluster Z := i ← lookup_arena p; a ← arena i; mret (smax a).

(** The count of a slot, as a redirector changes it, and the bytes of its object. *)
Definition small_rc_inc (p : Z) : M cluster unit := x ← scheck p; cassert (0 <=? _count x);; n ← lift (ck (_count x + 1)); small_set_count p n.
Definition small_rc_dec (p : Z) : M cluster bool := x ← scheck p; cassert (0 <? _count x);; n ← lift (ck (_count x - 1)); small_set_count p n;; mret (negb (n =? 0)).
Definition small_read (p : Z) (k : nat) : M cluster (option Z) := x ← scheck p; mret (match _union x with FreePtr _ => None | Data l => mjoin (l !! k) end).
Definition small_write (n : nat) (p : Z) (k : nat) (v : Z) : M cluster unit :=
  x ← scheck p;
  let l := match _union x with FreePtr _ => replicate n None | Data l => l end in
  modify (fun c => with_smem (<[p := SSlot (_count x) (Data (<[k := Some v]> l))]> (smem c)) c).

(** ** New arenas *)

(** [align (sz, get_pagesz ())] and [cgc_mmap] are in a source that is not there. *)
Class Pages := { align_pages : Z -> Z; cgc_mmap : cluster -> Z -> Z }.

Section small.
Context `{!Pages}.

(** [mgr_t::insert]: no arena holds the new one's base. *)
Definition mgr_insert (i : nat) (a : soa) : M cluster unit :=
  o ← gets (mgr_lookup (sbase a)); cassert (bool_decide (o = None));;
  modify (fun c => Cluster (<[i := a]> (arenas c)) (_vacancy c) (_no_vacancy c) (smem c)).
(** [alloc_soa] for objects of [lo] to [sz] bytes, [min_objs] of them at least. *)
Definition alloc_soa (lo sz min_objs : Z) : M cluster nat :=
  let asz := align_pages (u64 (sz * min_objs)) in
  b ← gets (fun c => cgc_mmap c asz);
  i ← gets (fun c => fresh (dom (arenas c)));
  mgr_insert i (soa_new b asz lo sz);;
  cluster_add i;;
  mret i.
(** [small_alloc], the class of the size found: its objects have [lo] to [roundup] bytes. *)
Definition small_alloc (lo roundup min_objs sz : Z) : M cluster Z :=
  cassert (negb (roundup =? 0));;
  ret ← cluster_aalloc sz;
  match ret with
  | Some p => mret p
  | None =>
      i ← alloc_soa lo roundup min_objs;
      ret ← soa_aalloc i sz;
      match ret with Some p => mret p | None => stop AssertFailed end
  end.
End small.

(** * Specification *)

(** What a client sees: objects by their address, with the count of references and the bytes. *)
Record sobj : Type := SObj { scnt : Z; sbytes : list (option Z) }.
Abbreviation sobjs := (gmap Z sobj).

Section spec.
Context (lo hi : Z).

Definition gross : Z := hi + 12.
Definition capacity (a : soa) : Z := ssz a / gross.
Definition place (a : soa) (i : Z) : Z := sbase a + gross * i.
Definition in_range (a : soa) (p : Z) : Prop := sbase a <= p < stop_ a.
Definition payload_bytes (u : payload) : list (option Z) := match u with FreePtr _ => replicate (Z.to_nat hi) None | Data l => l end.

(** The free list from [h] on. *)
Fixpoint chain (m : gmap Z sslot) (a : soa) (h : Z) (F : list Z) : Prop :=
  match F with [] => h = -1 | i :: F => h = i /\ exists nxt, m !! place a i = Some (SSlot (-1) (FreePtr nxt)) /\ chain m a nxt F end.

(** The first [k] slots of the arena have been handed out; those of [F] are free again, the others are the client's. *)
Record soa_ok (m : gmap Z sslot) (a : soa) (k : Z) (F : list Z) (O : sobjs) : Prop := {
  so_geo : 0 < sbase a /\ 0 <= ssz a < 2 ^ 31 /\ stop_ a = sbase a + ssz a /\ smin a = lo /\ smax a = hi /\ 4 <= hi < 2 ^ 31;
  so_nxt : 0 <= k <= capacity a /\ snxt a = place a k;
  so_slots p : in_range a p -> is_Some (m !! p) <-> exists i, 0 <= i < k /\ p = place a i;
  so_chain : chain m a (free_list a) F;
  so_nodup : NoDup F;
  so_free i : i ∈ F -> 0 <= i < k;
  so_used i : 0 <= i < k -> i ∈ F \/ is_Some (O !! place a i);
  so_obj p o : O !! p = Some o -> in_range a p ->
    exists u, m !! p = Some (SSlot (scnt o) u) /\ 0 <= scnt o <= INT_MAX /\ sbytes o = payload_bytes u /\ Z.of_nat (length (sbytes o)) = hi;
  so_vac : vacancy a = false -> F = [] /\ k = capacity a
}.

Record cl_inv (c : cluster) (O : sobjs) : Prop := {
  ci_arena i a : arenas c !! i = Some a -> exists k F, soa_ok (smem c) a k F O;
  ci_apart i j a b : arenas c !! i = Some a -> arenas c !! j = Some b -> i <> j -> stop_ a <= sbase b \/ stop_ b <= sbase a;
  ci_id i a : arenas c !! i = Some a -> vacancy_list_id a = Some (vacancy a);
  ci_nodup : NoDup (_vacancy c ++ _no_vacancy c);
  ci_vac i : i ∈ _vacancy c <-> exists a, arenas c !! i = Some a /\ vacancy a = true;
  ci_novac i : i ∈ _no_vacancy c <-> exists a, arenas c !! i = Some a /\ vacancy a = false;
  ci_mem p : is_Some (smem c !! p) -> exists i a, arenas c !! i = Some a /\ in_range a p;
  ci_in p : is_Some (O !! p) -> exists i a, arenas c !! i = Some a /\ in_range a p
}.
End spec.

(** * Proofs *)
Section arena.
Context (lo hi : Z).
Notation soa_ok := (soa_ok lo hi).
Notation capacity := (capacity hi).
Notation place := (place hi).
Notation gross := (gross hi).

Lemma place_in_range m a k F O i : soa_ok m a k F O -> 0 <= i < capacity a -> in_range a (place a i) /\ place a i + gross <= stop_ a.
Proof.
  intros HS Hi. destruct (so_geo _ _ _ _ _ _ _ HS) as (? & ? & ? & _ & _ & ?). unfold in_range, place, capacity, gross in *.
  pose proof (Z.mul_div_le (ssz a) (hi + 12) ltac:(lia)). nia.
Qed.

Lemma gross_run m a k F O : soa_ok m a k F O -> slotsize_gross a = gross.
Proof.
  intros HS. destruct (so_geo _ _ _ _ _ _ _ HS) as (_ & _ & _ & _ & E & ?). unfold slotsize_gross, smallptr_size, u64, gross, sizeof_smallptr, sizeof_int32.
  rewrite E, Z.mod_small; lia.
Qed.

Lemma capacity_bounds m a k F O : soa_ok m a k F O -> 0 <= capacity a < 2 ^ 31.
Proof.
  intros HS. destruct (so_geo _ _ _ _ _ _ _ HS) as (_ & ? & _ & _ & _ & ?). unfold capacity, gross. split; [apply Z.div_pos; lia|].
  pose proof (Z.div_le_upper_bound (ssz a) (hi + 12) (ssz a) ltac:(lia) ltac:(nia)). lia.
Qed.

Lemma n_items_run m a k F O : soa_ok m a k F O -> n_items a = capacity a.
Proof. intros HS. unfold n_items. rewrite (gross_run _ _ _ _ _ HS), i32_small; [done|]. pose proof (capacity_bounds _ _ _ _ _ HS). unfold capacity in *. lia. Qed.

Lemma place_inj a i j : 4 <= hi -> place a i = place a j -> i = j.
Proof. unfold place, gross. intros Hh E. nia. Qed.

Lemma chain_ext m m' a h F : (forall i, i ∈ F -> m' !! place a i = m !! place a i) -> chain hi m a h F -> chain hi m' a h F.
Proof.
  revert h. induction F as [|i F IH]; intros h E HC; [done|]. destruct HC as (-> & nxt & Hm & HC). split; [done|]. exists nxt.
  split; [rewrite E by (by left); done|]. apply IH; [|done]. intros j Hj. apply E. by right.
Qed.

(** What a chain says of its slots does not depend on the rest of the record. *)
Lemma chain_base m a a' h F : sbase a' = sbase a -> chain hi m a h F -> chain hi m a' h F.
Proof.
  intros E. revert h. induction F as [|i F IH]; intros h HC; [done|]. destruct HC as (-> & nxt & Hm & HC). split; [done|]. exists nxt.
  split; [|by apply IH]. unfold GcSmall.place. by rewrite E.
Qed.

Lemma chain_slot m a h F i : chain hi m a h F -> i ∈ F -> exists nxt, m !! place a i = Some (SSlot (-1) (FreePtr nxt)).
Proof.
  revert h. induction F as [|j F IH]; intros h HC Hi; [by apply not_elem_of_nil in Hi|]. destruct HC as (_ & nxt & Hm & HC).
  apply elem_of_cons in Hi as [->|Hi]; [by exists nxt|by eapply IH].
Qed.

Lemma soa_frame m m' a k F O O' : (forall p, in_range a p -> m' !! p = m !! p /\ O' !! p = O !! p) -> soa_ok m a k F O -> soa_ok m' a k F O'.
Proof.
  intros E HS. assert (Hr : forall i, 0 <= i < k -> in_range a (place a i)).
  { intros i Hi. apply (place_in_range _ _ _ _ _ i HS). destruct (so_nxt _ _ _ _ _ _ _ HS). lia. }
  destruct HS as [H1 H2 H3 H4 H5 H6 H7 H8 H9]. split; try done.
  - intros p Hp. rewrite (proj1 (E p Hp)). by apply H3.
  - eapply chain_ext; [|done]. intros i Hi. by apply E, Hr, H6.
  - intros i Hi. rewrite (proj2 (E _ (Hr i Hi))). by apply H7.
  - intros p o Ho Hp. destruct (E p Hp) as [E1 E2]. rewrite E2 in Ho. rewrite E1. by apply H8.
Qed.

(** The fields that a list or a flag of the cluster changes. *)
Lemma soa_flags m a k F O b : soa_ok m a k F O -> soa_ok m (with_list_id b a) k F O.
Proof.
  intros [H1 H2 H3 H4 H5 H6 H7 H8 H9]. split; [exact H1|exact H2|exact H3| |exact H5|exact H6|exact H7|exact H8|exact H9].
  apply (chain_base m a (with_list_id b a)); [done|exact H4].
Qed.

Lemma slot_place m a k F O p : soa_ok m a k F O -> in_range a p -> is_Some (m !! p) -> exists i, 0 <= i < k /\ p = place a i.
Proof. intros HS Hp Hm. by apply (so_slots _ _ _ _ _ _ _ HS). Qed.

(** A free slot is not the client's. *)
Lemma free_not_obj m a k F O i : soa_ok m a k F O -> i ∈ F -> O !! place a i = None.
Proof.
  intros HS Hi. destruct (O !! place a i) as [o|] eqn:Ho; [|done]. destruct (chain_slot _ _ _ _ _ (so_chain _ _ _ _ _ _ _ HS) Hi) as [nxt Hm].
  pose proof (so_free _ _ _ _ _ _ _ HS i Hi) as Hk. pose proof (so_nxt _ _ _ _ _ _ _ HS) as [? _].
  destruct (so_obj _ _ _ _ _ _ _ HS _ _ Ho) as (u & Hu & Hc & _); [apply (place_in_range _ _ _ _ _ _ HS); lia|].
  rewrite Hm in Hu. injection Hu as Hu _. lia.
Qed.

Lemma insert_slots (m : gmap Z sslot) a k p (x : sslot) : in_range a p -> (forall q, in_range a q -> is_Some (m !! q) <-> exists i, 0 <= i < k /\ q = place a i) ->
  (exists i, 0 <= i < k /\ p = place a i) -> forall q, in_range a q -> is_Some (<[p := x]> m !! q) <-> exists i, 0 <= i < k /\ q = place a i.
Proof.
  intros Hp E Hi q Hq. destruct (decide (q = p)) as [->|Hne]; [rewrite lookup_insert_eq; by split|]. rewrite lookup_insert_ne by done. by apply E.
Qed.

Definition fresh_obj : sobj := SObj 0 (replicate (Z.to_nat hi) None).

Lemma take_free m a k j F O nxt : soa_ok m a k (j :: F) O -> m !! place a j = Some (SSlot (-1) (FreePtr nxt)) ->
  soa_ok (<[place a j := SSlot 0 (FreePtr nxt)]> m) (with_free_list nxt a) k F (<[place a j := fresh_obj]> O).
Proof.
  intros HS Hm. pose proof HS as [H1 H2 H3 H4 H5 H6 H7 H8 H9]. pose proof H1 as (_ & _ & _ & _ & _ & Hhi). apply NoDup_cons in H5 as [Hj HN].
  assert (Hp : in_range a (place a j)) by (apply (place_in_range _ _ _ _ _ _ HS); pose proof (H6 j ltac:(by left)); lia).
  destruct H4 as (E & nxt' & Hm' & HC). rewrite Hm in Hm'. injection Hm' as <-.
  split; [exact H1|exact H2| | |done| | | |].
  - apply (insert_slots m a k _ _ Hp H3). exists j. split; [|done]. apply H6. by left.
  - apply (chain_base _ a); [done|]. apply (chain_ext m); [|exact HC]. intros i Hi. rewrite lookup_insert_ne; [done|].
    intros Ei%place_inj; [|lia]. by subst i.
  - intros i Hi. apply H6. by right.
  - intros i Hi. change (GcSmall.place hi (with_free_list nxt a) i) with (place a i). destruct (decide (i = j)) as [->|Hne]; [right; by rewrite lookup_insert_eq|].
    rewrite lookup_insert_ne by (intros Ei%place_inj; [by subst i|lia]). destruct (H7 i Hi) as [[->|Hi']%elem_of_cons|Hi']; [done|by left|by right].
  - intros p o Ho Hr. destruct (decide (p = place a j)) as [->|Hne].
    + rewrite lookup_insert_eq in Ho. rewrite lookup_insert_eq. injection Ho as <-. exists (FreePtr nxt). cbn. split_and!; [done|done|done|done|]. rewrite length_replicate. lia.
    + rewrite lookup_insert_ne in Ho by done. rewrite lookup_insert_ne by done. by apply H8.
  - intros Hv. by destruct (H9 Hv).
Qed.

Lemma take_next m a k F O : soa_ok m a k F O -> k < capacity a -> free_list a < 0 ->
  soa_ok (<[snxt a := SSlot 0 (Data (replicate (Z.to_nat hi) None))]> m) (with_snxt (snxt a + gross) a) (k + 1) F (<[snxt a := fresh_obj]> O) /\
  in_range a (snxt a) /\ O !! snxt a = None /\ m !! snxt a = None.
Proof.
  intros HS Hk Hf. pose proof HS as [H1 H2 H3 H4 H5 H6 H7 H8 H9]. pose proof H1 as (_ & _ & _ & _ & _ & Hhi). destruct H2 as [Hk0 En]. rewrite En.
  assert (Hp : in_range a (place a k)) by (apply (place_in_range _ _ _ _ _ _ HS); lia).
  assert (Hm : m !! place a k = None).
  { destruct (m !! place a k) as [x|] eqn:Ex; [|done]. destruct (slot_place _ _ _ _ _ _ HS Hp ltac:(by exists x)) as (i & Hi & Ei%place_inj); lia. }
  assert (Ho : O !! place a k = None).
  { destruct (O !! place a k) as [o|] eqn:Eo; [|done]. destruct (H8 _ _ Eo Hp) as (u & Hu & _). by rewrite Hm in Hu. }
  split; [|done]. split; [exact H1| | | |done| | | |].
  - change (GcSmall.capacity hi (with_snxt (place a k + gross) a)) with (capacity a). split; [lia|]. unfold GcSmall.place. cbn. lia.
  - intros q Hq. change (GcSmall.place hi (with_snxt (place a k + gross) a)) with (place a). destruct (decide (q = place a k)) as [->|Hne].
    + rewrite lookup_insert_eq. split; [intros _; exists k; split; [lia|done]|done].
    + rewrite lookup_insert_ne by done. rewrite (H3 q Hq). split; intros (i & Hi & ->); exists i; (split; [|done]); [lia|]. assert (i <> k) by (intros ->; done). lia.
  - apply (chain_base _ a); [done|]. apply (chain_ext m); [|exact H4]. intros i Hi. rewrite lookup_insert_ne; [done|]. intros Ei%place_inj; [|lia]. specialize (H6 i Hi). lia.
  - intros i Hi. specialize (H6 i Hi). lia.
  - intros i Hi. change (GcSmall.place hi (with_snxt (place a k + gross) a) i) with (place a i). destruct (decide (i = k)) as [->|Hne]; [right; by rewrite lookup_insert_eq|].
    rewrite lookup_insert_ne by (intros Ei%place_inj; lia). apply H7. lia.
  - intros p o Hpo Hr. destruct (decide (p = place a k)) as [->|Hne].
    + rewrite lookup_insert_eq in Hpo. rewrite lookup_insert_eq. injection Hpo as <-. eexists. cbn. split_and!; [done|done|done|done|]. rewrite length_replicate. lia.
    + rewrite lookup_insert_ne in Hpo by done. rewrite lookup_insert_ne by done. by apply H8.
  - intros Hv. destruct (H9 Hv) as [_ Ek]. lia.
Qed.

Lemma give_back m a k F O j o : soa_ok m a k F O -> O !! place a j = Some o -> 0 <= j < k ->
  soa_ok (<[place a j := SSlot (-1) (FreePtr (free_list a))]> m) (with_vacancy true (with_free_list j a)) k (j :: F) (delete (place a j) O).
Proof.
  intros HS Ho Hj. pose proof HS as [H1 H2 H3 H4 H5 H6 H7 H8 H9]. pose proof H1 as (_ & _ & _ & _ & _ & Hhi).
  assert (Hp : in_range a (place a j)) by (apply (place_in_range _ _ _ _ _ _ HS); lia).
  assert (HjF : j ∉ F) by (intros Hin; pose proof (free_not_obj _ _ _ _ _ _ HS Hin); congruence).
  split; [exact H1|exact H2| | | | | | |].
  - apply (insert_slots m a k _ _ Hp H3). by exists j.
  - apply (chain_base _ a); [done|]. split; [done|]. exists (free_list a). split; [by rewrite lookup_insert_eq|]. apply (chain_ext m); [|exact H4].
    intros i Hi. rewrite lookup_insert_ne; [done|]. intros Ei%place_inj; [|lia]. by subst i.
  - by constructor.
  - intros i [->|Hi]%elem_of_cons; [done|by apply H6].
  - intros i Hi. change (GcSmall.place hi (with_vacancy true (with_free_list j a)) i) with (place a i). destruct (decide (i = j)) as [->|Hne]; [left; by left|].
    rewrite lookup_delete_ne by (intros Ei%place_inj; [by subst i|lia]). destruct (H7 i Hi) as [Hi'|Hi']; [left; by right|by right].
  - intros p o' [Hne Ho']%lookup_delete_Some Hr. rewrite lookup_insert_ne by done. by apply H8.
  - done.
Qed.

Lemma mark_full m a k O : soa_ok m a k [] O -> k = capacity a -> soa_ok m (with_vacancy false a) k [] O.
Proof.
  intros [H1 H2 H3 H4 H5 H6 H7 H8 H9] Hk. split; [exact H1|exact H2|exact H3|exact H4|exact H5|exact H6|exact H7|exact H8|done].
Qed.
End arena.

Section cluster.
Context (lo hi : Z).
Notation soa_ok := (soa_ok lo hi).
Notation cl_inv := (cl_inv lo hi).
Notation capacity := (capacity hi).
Notation place := (place hi).
Notation gross := (gross hi).
Notation fresh_obj := (fresh_obj hi).

(** ** Steps *)
Definition upd (i : nat) (a : soa) (c : cluster) : cluster := Cluster (<[i := a]> (arenas c)) (_vacancy c) (_no_vacancy c) (smem c).

Lemma bind_soa {B} c i a (k : soa -> M cluster B) : arenas c !! i = Some a -> (arena i ≫= k) c = k a c.
Proof. intros E. unfold mbind, M_bind, arena. by rewrite E. Qed.

Lemma bind_set {B} c i f a (k : unit -> M cluster B) : arenas c !! i = Some a -> (set_arena i f ≫= k) c = k tt (upd i (f a) c).
Proof. intros E. unfold set_arena. by rewrite bind_assoc, (bind_soa _ _ _ _ E). Qed.

Lemma bind_scheck {B} c p x (k : sslot -> M cluster B) : smem c !! p = Some x -> (scheck p ≫= k) c = k x c.
Proof. intros E. unfold mbind, M_bind, scheck. by rewrite E. Qed.

Lemma bind_cassert {B} c b (k : unit -> M cluster B) : b = true -> (cassert b ≫= k) c = k tt c.
Proof. by intros ->. Qed.

Lemma bind_modif {B} c f (k : unit -> M cluster B) : (modify f ≫= k) c = k tt (f c).
Proof. done. Qed.

Lemma ind2obj_run c a k F O j : soa_ok (smem c) a k F O -> 0 <= j < k -> ind2obj a j c = Ok (place a j, c).
Proof.
  intros HS Hj. destruct (so_nxt _ _ _ _ _ _ _ HS) as [Hk _]. destruct (place_in_range _ _ _ _ _ _ _ j HS) as [Hr _]; [lia|].
  unfold ind2obj. rewrite (n_items_run lo hi _ _ _ _ _ HS), (gross_run lo hi _ _ _ _ _ HS). rewrite !bind_cassert by (apply Z.leb_le || apply Z.ltb_lt; lia).
  rewrite bind_cassert by (apply Z.ltb_lt; destruct Hr; done). destruct (proj2 (so_slots _ _ _ _ _ _ _ HS _ Hr)) as [x Hx]; [by exists j|].
  by rewrite (bind_scheck _ _ x).
Qed.

Lemma obj2ind_run c m a k F O j : soa_ok m a k F O -> 0 <= j < k -> is_Some (smem c !! place a j) -> obj2ind a (place a j) c = Ok (j, c).
Proof.
  intros HS Hj [x Hx]. destruct (so_nxt _ _ _ _ _ _ _ HS) as [Hk _]. destruct (place_in_range _ _ _ _ _ _ _ j HS) as [Hr _]; [lia|].
  destruct (so_geo _ _ _ _ _ _ _ HS) as (_ & _ & _ & _ & _ & Hhi). pose proof (capacity_bounds _ _ _ _ _ _ _ HS).
  unfold obj2ind. rewrite (bind_scheck _ _ x) by done. rewrite bind_cassert by (apply Z.leb_le, Hr). rewrite bind_cassert by (apply Z.ltb_lt, Hr).
  rewrite (n_items_run lo hi _ _ _ _ _ HS), (gross_run lo hi _ _ _ _ _ HS). rewrite bind_cassert by (apply Z.ltb_lt; unfold GcSmall.gross; lia).
  replace (place a j - sbase a) with (j * gross) by (unfold GcSmall.place; lia).
  rewrite bind_cassert by (apply Z.eqb_eq, Z.mod_mul; unfold GcSmall.gross; lia).
  rewrite Z.div_mul by (unfold GcSmall.gross; lia). rewrite i32_small by lia. by rewrite !bind_cassert by (apply Z.leb_le || apply Z.ltb_lt; lia).
Qed.

(** What an arena has done when it gave the object at [p]. *)
Record given (c c' : cluster) (i : nat) (a : soa) (p : Z) (O : sobjs) : Prop := {
  gv_range : in_range a p;
  gv_new : O !! p = None;
  gv_lists : _vacancy c' = _vacancy c /\ _no_vacancy c' = _no_vacancy c;
  gv_mem q : q <> p -> smem c' !! q = smem c !! q;
  gv_arena : exists a' k F, arenas c' = <[i := a']> (arenas c) /\ sbase a' = sbase a /\ ssz a' = ssz a /\ stop_ a' = stop_ a /\ vacancy a' = vacancy a /\
    vacancy_list_id a' = vacancy_list_id a /\ soa_ok (smem c') a' k F (<[p := fresh_obj]> O)
}.

Lemma soa_aalloc_run c i a k F O sz : arenas c !! i = Some a -> soa_ok (smem c) a k F O -> lo <= sz <= hi ->
  (exists p c', soa_aalloc i sz c = Ok (Some p, c') /\ given c c' i a p O) \/
  (soa_aalloc i sz c = Ok (None, upd i (with_vacancy false a) c) /\ F = [] /\ k = capacity a).
Proof.
  intros Ha HS Hsz. pose proof (so_geo _ _ _ _ _ _ _ HS) as (_ & _ & Ht & Elo & Ehi & Hhi). destruct (so_nxt _ _ _ _ _ _ _ HS) as [Hk En].
  unfold soa_aalloc. rewrite (bind_soa _ _ _ _ Ha), !bind_cassert by (apply Z.leb_le; lia). rewrite (gross_run lo hi _ _ _ _ _ HS).
  destruct F as [|j F].
  - pose proof (so_chain _ _ _ _ _ _ _ HS) as Ef. cbn in Ef. rewrite (proj2 (Z.leb_gt _ _)) by lia.
    assert (Hcap : snxt a + gross <= stop_ a <-> k < capacity a).
    { rewrite En, Ht. unfold GcSmall.place, GcSmall.capacity, GcSmall.gross. split; intros Hle.
      - assert (k + 1 <= ssz a / (hi + 12)) by (apply Z.div_le_lower_bound; lia). lia.
      - pose proof (Z.mul_div_le (ssz a) (hi + 12) ltac:(lia)). nia. }
    destruct (Z.leb_spec (snxt a + gross) (stop_ a)) as [Hle|Hlt].
    + left. destruct (take_next lo hi _ _ _ _ _ HS (proj1 Hcap Hle) ltac:(lia)) as (HS' & Hr & Ho & Hm).
      rewrite bind_assoc, (bind_set _ _ _ a) by done. rewrite bind_ret. unfold use. rewrite bind_modif. cbn [smem upd]. rewrite Hm, Ehi.
      rewrite bind_cassert by (apply Z.leb_le, Hr). rewrite bind_cassert by (apply Z.ltb_lt, Hr). eexists _, _. split; [done|].
      split; [done|done|done|intros q Hq; cbn; by rewrite lookup_insert_ne|]. eexists _, _, _. split; [done|]. by split_and!.
    + right. rewrite bind_ret. split; [|split; [done|lia]]. by rewrite (bind_set _ _ _ a).
  - left. destruct (so_chain _ _ _ _ _ _ _ HS) as (Ef & nxt & Hm & HC). pose proof (so_free _ _ _ _ _ _ _ HS j ltac:(by left)) as Hj.
    destruct (place_in_range _ _ _ _ _ _ _ j HS) as [Hr _]; [lia|]. rewrite (proj2 (Z.leb_le _ _)) by lia. rewrite bind_assoc, Ef.
    rewrite (M_bind_ok _ _ _ _ _ (ind2obj_run c a k _ O j HS Hj)). rewrite bind_assoc. unfold get_free_ptr.
    rewrite bind_assoc, (bind_scheck _ _ _ _ Hm). cbn [_union]. rewrite bind_ret, bind_assoc, (bind_set _ _ _ a), bind_ret by done.
    unfold use. rewrite bind_modif. cbn [smem upd]. rewrite Hm. cbn [_union].
    rewrite bind_cassert by (apply Z.leb_le, Hr). rewrite bind_cassert by (apply Z.ltb_lt, Hr). eexists _, _. split; [done|].
    split; [done|exact (free_not_obj lo hi _ _ _ _ _ _ HS ltac:(by left))|done|intros q Hq; cbn; by rewrite lookup_insert_ne|].
    eexists _, _, _. split; [done|]. split_and!; try done. by apply take_free.
Qed.

(** ** The invariant of the cluster *)
Definition ranges (c : cluster) : gmap nat (Z * Z) := (fun a => (sbase a, ssz a)) <$> arenas c.

Lemma ranges_insert c i a a' v n m : arenas c !! i = Some a -> sbase a' = sbase a -> ssz a' = ssz a -> ranges (Cluster (<[i := a']> (arenas c)) v n m) = ranges c.
Proof.
  intros Ha E1 E2. unfold ranges. cbn [arenas]. rewrite fmap_insert, E1, E2. apply insert_id. by rewrite lookup_fmap, Ha.
Qed.

Lemma range_unique c O i j a b p : cl_inv c O -> arenas c !! i = Some a -> arenas c !! j = Some b -> in_range a p -> in_range b p -> i = j.
Proof.
  intros HI Ha Hb Hp Hq. destruct (decide (i = j)) as [|Hne]; [done|]. unfold in_range in *.
  destruct (ci_apart _ _ _ _ HI i j a b Ha Hb Hne); lia.
Qed.

(** One arena changes, with memory and objects inside it, and the lists. *)
Lemma inv_update c O i a a' m' O' v n : cl_inv c O -> arenas c !! i = Some a -> sbase a' = sbase a -> stop_ a' = stop_ a -> (exists k F, soa_ok m' a' k F O') ->
  (forall p, ~ in_range a p -> m' !! p = smem c !! p /\ O' !! p = O !! p) -> vacancy_list_id a' = Some (vacancy a') -> NoDup (v ++ n) ->
  (forall j, j ∈ v <-> if decide (j = i) then vacancy a' = true else j ∈ _vacancy c) ->
  (forall j, j ∈ n <-> if decide (j = i) then vacancy a' = false else j ∈ _no_vacancy c) ->
  cl_inv (Cluster (<[i := a']> (arenas c)) v n m') O'.
Proof.
  intros HI Ha E1 E2 HS Hout Hid HN Hv Hn.
  assert (Hr : forall p, in_range a' p <-> in_range a p) by (intros p; unfold in_range; by rewrite E1, E2).
  assert (Hcov : forall p, (exists j b, arenas c !! j = Some b /\ in_range b p) -> exists j b, <[i := a']> (arenas c) !! j = Some b /\ in_range b p).
  { intros p (j & b & Hb & Hp). destruct (decide (j = i)) as [->|Hne].
    - exists i, a'. rewrite lookup_insert_eq. split; [done|]. apply Hr. congruence.
    - exists j, b. by rewrite lookup_insert_ne. }
  assert (Hvac : forall (w : list nat) (old : list nat) (x : bool), (forall j, j ∈ w <-> if decide (j = i) then vacancy a' = x else j ∈ old) ->
    (forall j, j ∈ old <-> exists b, arenas c !! j = Some b /\ vacancy b = x) -> forall j, j ∈ w <-> exists b, <[i := a']> (arenas c) !! j = Some b /\ vacancy b = x).
  { intros w old x Hw Hold j. rewrite Hw. destruct (decide (j = i)) as [->|Hne].
    - rewrite lookup_insert_eq. split; [intros E; by exists a'|intros (b & [= <-] & E); done].
    - rewrite lookup_insert_ne by done. apply Hold. }
  split; cbn [arenas smem _vacancy _no_vacancy].
  - intros j b Hb. apply lookup_insert_Some in Hb as [[<- <-]|[Hne Hb]]; [done|]. destruct (ci_arena _ _ _ _ HI j b Hb) as (k & F & HSb). exists k, F.
    apply (soa_frame _ _ (smem c) _ _ _ _ O); [|done]. intros p Hp. apply Hout. intros Hpa. apply Hne. by eapply range_unique.
  - intros j1 j2 b1 b2 Hb1 Hb2 Hne. apply lookup_insert_Some in Hb1 as [[<- <-]|[Hne1 Hb1]], Hb2 as [[<- <-]|[Hne2 Hb2]];
      rewrite ?E1, ?E2; [done|by eapply (ci_apart _ _ _ _ HI)..].
  - intros j b Hb. apply lookup_insert_Some in Hb as [[<- <-]|[Hne Hb]]; [done|by eapply (ci_id _ _ _ _ HI)].
  - done.
  - by apply (Hvac v (_vacancy c) true Hv), (ci_vac _ _ _ _ HI).
  - by apply (Hvac n (_no_vacancy c) false Hn), (ci_novac _ _ _ _ HI).
  - intros p Hp. destruct (decide (sbase a <= p < stop_ a)) as [Hin|Hout'].
    + exists i, a'. rewrite lookup_insert_eq. split; [done|]. by apply Hr.
    + apply Hcov, (ci_mem _ _ _ _ HI). by rewrite <- (proj1 (Hout p Hout')).
  - intros p Hp. destruct (decide (sbase a <= p < stop_ a)) as [Hin|Hout'].
    + exists i, a'. rewrite lookup_insert_eq. split; [done|]. by apply Hr.
    + apply Hcov, (ci_in _ _ _ _ HI). by rewrite <- (proj2 (Hout p Hout')).
Qed.

(** The lists stay as they are. *)
Lemma inv_keep c O i a a' m' O' : cl_inv c O -> arenas c !! i = Some a -> sbase a' = sbase a -> stop_ a' = stop_ a -> vacancy a' = vacancy a ->
  vacancy_list_id a' = vacancy_list_id a -> (exists k F, soa_ok m' a' k F O') ->
  (forall p, ~ in_range a p -> m' !! p = smem c !! p /\ O' !! p = O !! p) ->
  cl_inv (Cluster (<[i := a']> (arenas c)) (_vacancy c) (_no_vacancy c) m') O'.
Proof.
  intros HI Ha E1 E2 Ev Ei HS Hout. apply (inv_update c O i a); try done.
  - rewrite Ei, Ev. by apply (ci_id _ _ _ _ HI i).
  - apply (ci_nodup _ _ _ _ HI).
  - intros j. destruct (decide (j = i)) as [->|]; [|done]. rewrite (ci_vac _ _ _ _ HI), Ev. split; [intros (b & Hb & E); congruence|intros E; by exists a].
  - intros j. destruct (decide (j = i)) as [->|]; [|done]. rewrite (ci_novac _ _ _ _ HI), Ev. split; [intros (b & Hb & E); congruence|intros E; by exists a].
Qed.

Lemma given_inv c c' i a p O : cl_inv c O -> arenas c !! i = Some a -> given c c' i a p O -> cl_inv c' (<[p := fresh_obj]> O) /\ ranges c' = ranges c.
Proof.
  intros HI Ha [Hr Ho [Ev En] Hm (a' & k & F & Ea & E1 & E2 & E3 & E4 & E5 & HS)]. destruct c' as [as' v' n' m']. cbn [arenas smem _vacancy _no_vacancy] in *. subst.
  split; [|by eapply ranges_insert]. apply (inv_keep c O i a); try done; [by exists k, F|]. intros q Hq. assert (q <> p) by (intros ->; done). rewrite Hm, lookup_insert_ne by done. done.
Qed.

(** ** Allocation *)
Lemma elem_of_removed (i j : nat) (l : list nat) : j ∈ filter (fun x => x <> i) l <-> if decide (j = i) then False else j ∈ l.
Proof. rewrite list_elem_of_filter. destruct (decide (j = i)); naive_solver. Qed.

(** An arena that turned out to be full changes the list. *)
Lemma full_inv c O i a k : cl_inv c O -> arenas c !! i = Some a -> vacancy a = true -> soa_ok (smem c) a k [] O -> k = capacity a ->
  cl_inv (Cluster (<[i := with_list_id false (with_vacancy false a)]> (arenas c)) (filter (fun x => x <> i) (_vacancy c)) (_no_vacancy c ++ [i]) (smem c)) O.
Proof.
  intros HI Ha Hv HS Hk. apply (inv_update c O i a); try done.
  - exists k, []. by apply soa_flags, mark_full.
  - pose proof (ci_nodup _ _ _ _ HI) as HN. apply NoDup_app in HN as (HN1 & HN2 & HN3). rewrite app_assoc. apply NoDup_app. split_and!.
    + apply NoDup_app. split_and!; [by apply NoDup_filter| |done]. intros j [_ Hj]%list_elem_of_filter. by apply HN2.
    + intros j [Hj|Hj]%elem_of_app Ej%list_elem_of_singleton; subst j; [by apply elem_of_removed in Hj; destruct (decide (i = i))|].
      apply (HN2 i); [|done]. apply (ci_vac _ _ _ _ HI). by exists a.
    + apply NoDup_singleton.
  - intros j. rewrite elem_of_removed. by destruct (decide (j = i)).
  - intros j. rewrite elem_of_app, list_elem_of_singleton. destruct (decide (j = i)) as [->|]; naive_solver.
Qed.

Lemma cluster_try_run l c O sz : cl_inv c O -> _vacancy c = l -> lo <= sz <= hi ->
  (exists p c', cluster_try sz l c = Ok (Some p, c') /\ O !! p = None /\ cl_inv c' (<[p := fresh_obj]> O) /\ ranges c' = ranges c) \/
  (exists c', cluster_try sz l c = Ok (None, c') /\ cl_inv c' O /\ ranges c' = ranges c /\ _vacancy c' = []).
Proof.
  revert c. induction l as [|i l IH]; intros c HI El Hsz; cbn [cluster_try]; [right; by exists c|].
  destruct (proj1 (ci_vac _ _ _ _ HI i)) as (a & Ha & Hv); [rewrite El; by left|]. pose proof (ci_id _ _ _ _ HI i a Ha) as Hid.
  unfold list_id. rewrite bind_assoc, (bind_soa _ _ _ _ Ha), Hid, Hv. rewrite (bind_lift _ _ _ true) by done. rewrite bind_cassert by done.
  destruct (ci_arena _ _ _ _ HI i a Ha) as (k & F & HS).
  destruct (soa_aalloc_run c i a k F O sz Ha HS Hsz) as [(p & c' & E & HG)|(E & -> & Hk)]; rewrite (M_bind_ok _ _ _ _ _ E).
  - left. exists p, c'. split; [done|]. split; [apply (gv_new _ _ _ _ _ _ HG)|]. by eapply given_inv.
  - rewrite !bind_gets. unfold list_remove. cbn [_vacancy _no_vacancy upd]. rewrite (bind_lift _ _ _ (filter (fun x => x <> i) (_vacancy c))).
    2:{ rewrite bool_decide_true; [done|]. rewrite El. by left. }
    rewrite bind_modif, (bind_set _ i _ (with_vacancy false a)) by apply lookup_insert_eq. unfold upd, with_lists. cbn [arenas smem]. rewrite insert_insert_eq.
    pose proof (ci_nodup _ _ _ _ HI) as HN. rewrite El in HN. apply NoDup_app in HN as (HN & _). apply NoDup_cons in HN as [Hi HN].
    assert (Ef : filter (fun x => x <> i) (_vacancy c) = l).
    { rewrite El, filter_cons_False by tauto. apply filter_all, Forall_forall. intros j Hj ->. done. }
    pose proof (full_inv c O i a k HI Ha Hv HS Hk) as HI'. set (c' := Cluster _ _ _ _) in HI'.
    destruct (IH c' HI' Ef Hsz) as [(p & c2 & E2 & Ho & HI2 & Hr2)|(c2 & E2 & HI2 & Hr2 & Hv2)].
    + left. exists p, c2. split; [exact E2|]. split; [done|]. split; [done|]. rewrite Hr2. by eapply ranges_insert.
    + right. exists c2. split; [exact E2|]. split; [done|]. split; [|done]. rewrite Hr2. by eapply ranges_insert.
Qed.

(** In a cluster without vacancy every slot holds an object. *)
Definition all_in_use (c : cluster) (O : sobjs) : Prop := forall i a j, arenas c !! i = Some a -> 0 <= j < capacity a -> is_Some (O !! place a j).

Lemma no_vacancy_full c O : cl_inv c O -> _vacancy c = [] -> all_in_use c O.
Proof.
  intros HI Hv i a j Ha Hj. destruct (ci_arena _ _ _ _ HI i a Ha) as (k & F & HS).
  assert (Hva : vacancy a = false).
  { destruct (vacancy a) eqn:E; [|done]. assert (Hin : i ∈ _vacancy c) by (apply (ci_vac _ _ _ _ HI); by exists a). rewrite Hv in Hin. by apply not_elem_of_nil in Hin. }
  destruct (so_vac _ _ _ _ _ _ _ HS Hva) as [-> Hk]. destruct (so_used _ _ _ _ _ _ _ HS j) as [Hin|Hin]; [lia|by apply not_elem_of_nil in Hin|done].
Qed.

Lemma all_in_use_ranges c c' O : ranges c' = ranges c -> all_in_use c' O -> all_in_use c O.
Proof.
  intros E HA i a j Ha Hj. assert (Hr : ranges c' !! i = Some (sbase a, ssz a)) by (rewrite E; unfold ranges; by rewrite lookup_fmap, Ha).
  unfold ranges in Hr. rewrite lookup_fmap in Hr. destruct (arenas c' !! i) as [a'|] eqn:Ha'; [|done]. cbn in Hr. injection Hr as E1 E2.
  specialize (HA i a' j Ha'). unfold GcSmall.place, GcSmall.capacity in *. rewrite E1, E2 in HA. by apply HA.
Qed.

Lemma cluster_aalloc_run c O sz : cl_inv c O -> lo <= sz <= hi ->
  (exists p c', cluster_aalloc sz c = Ok (Some p, c') /\ O !! p = None /\ cl_inv c' (<[p := fresh_obj]> O) /\ ranges c' = ranges c) \/
  (exists c', cluster_aalloc sz c = Ok (None, c') /\ cl_inv c' O /\ ranges c' = ranges c /\ all_in_use c O).
Proof.
  intros HI Hsz. unfold cluster_aalloc. rewrite bind_gets. destruct (cluster_try_run _ c O sz HI eq_refl Hsz) as [HA|(c' & E & HI' & Hr & Hv)]; [by left|right].
  exists c'. split; [exact E|]. split; [done|]. split; [done|]. eapply all_in_use_ranges; [exact Hr|]. by apply no_vacancy_full.
Qed.
End cluster.

Section objects.
Context (lo hi : Z).
Notation soa_ok := (soa_ok lo hi).
Notation cl_inv := (cl_inv lo hi).
Notation place := (place hi).
Notation gross := (gross hi).
Notation payload_bytes := (payload_bytes hi).

(** Where an object is. *)
Lemma obj_place c O p o : cl_inv c O -> O !! p = Some o -> exists i a k F j u, arenas c !! i = Some a /\ soa_ok (smem c) a k F O /\ in_range a p /\
  0 <= j < k /\ p = place a j /\ smem c !! p = Some (SSlot (scnt o) u) /\ 0 <= scnt o <= INT_MAX /\ sbytes o = payload_bytes u /\ Z.of_nat (length (sbytes o)) = hi.
Proof.
  intros HI Ho. destruct (ci_in _ _ _ _ HI p) as (i & a & Ha & Hp); [by exists o|]. destruct (ci_arena _ _ _ _ HI i a Ha) as (k & F & HS).
  destruct (so_obj _ _ _ _ _ _ _ HS p o Ho Hp) as (u & Hu & Hc & Hb & Hl). destruct (slot_place _ _ _ _ _ _ _ p HS Hp) as (j & Hj & Ej); [by eexists|].
  exists i, a, k, F, j, u. split_and!; try done; lia.
Qed.

(** Two objects do not overlap. *)
Lemma objs_apart c O p q : cl_inv c O -> is_Some (O !! p) -> is_Some (O !! q) -> p <> q -> p + gross <= q \/ q + gross <= p.
Proof.
  intros HI [o Ho] [o' Ho'] Hne. destruct (obj_place c O p o HI Ho) as (i & a & k & F & j & u & Ha & HS & Hr & Hj & Ej & _).
  destruct (obj_place c O q o' HI Ho') as (i' & b & k' & F' & j' & u' & Hb & HS' & Hr' & Hj' & Ej' & _).
  destruct (place_in_range _ _ _ _ _ _ _ j HS) as [_ He]; [pose proof (so_nxt _ _ _ _ _ _ _ HS); lia|].
  destruct (place_in_range _ _ _ _ _ _ _ j' HS') as [_ He']; [pose proof (so_nxt _ _ _ _ _ _ _ HS'); lia|].
  destruct (so_geo _ _ _ _ _ _ _ HS) as (_ & _ & _ & _ & _ & Hhi). destruct (decide (i = i')) as [<-|Hi].
  - rewrite Ha in Hb. injection Hb as <-. subst p q. unfold GcSmall.place, GcSmall.gross in *. assert (j < j' \/ j' < j) as [?|?] by nia; nia.
  - unfold in_range in *. subst p q. destruct (ci_apart _ _ _ _ HI i i' a b Ha Hb Hi); lia.
Qed.

(** One object changes. *)
Lemma change_inv c O p o o' u : cl_inv c O -> O !! p = Some o -> 0 <= scnt o' <= INT_MAX -> sbytes o' = payload_bytes u -> Z.of_nat (length (sbytes o')) = hi ->
  cl_inv (with_smem (<[p := SSlot (scnt o') u]> (smem c)) c) (<[p := o']> O).
Proof.
  intros HI Ho Hc Hb Hl. destruct (obj_place c O p o HI Ho) as (i & a & k & F & j & u0 & Ha & HS & Hr & Hj & Ej & Hm & _).
  unfold with_smem. rewrite <- (insert_id (arenas c) i a Ha). apply (inv_keep lo hi c O i a a); try done.
  - exists k, F. pose proof HS as [H1 H2 H3 H4 H5 H6 H7 H8 H9]. pose proof H1 as (_ & _ & _ & _ & _ & Hhi).
    split; [exact H1|exact H2| | |exact H5|exact H6| | |exact H9].
    + apply (insert_slots hi (smem c) a k p _ Hr H3). by exists j.
    + eapply chain_ext; [|exact H4]. intros f Hf. rewrite lookup_insert_ne; [done|]. intros E. pose proof (free_not_obj lo hi _ _ _ _ _ _ HS Hf). congruence.
    + intros f Hf. destruct (decide (place a f = p)) as [E|Hne]; [right; by rewrite E, lookup_insert_eq|]. rewrite lookup_insert_ne by done. by apply H7.
    + intros q x Hx Hq. destruct (decide (q = p)) as [->|Hne].
      * rewrite lookup_insert_eq in Hx. rewrite lookup_insert_eq. injection Hx as <-. exists u. (split_and!; try done; lia).
      * rewrite lookup_insert_ne in Hx by done. rewrite lookup_insert_ne by done. by apply H8.
  - intros q Hq. assert (q <> p) by (intros ->; done). by rewrite !lookup_insert_ne.
Qed.

Lemma small_rc_inc_run c O p o : cl_inv c O -> O !! p = Some o -> scnt o < INT_MAX ->
  exists c', small_rc_inc p c = Ok (tt, c') /\ cl_inv c' (<[p := SObj (scnt o + 1) (sbytes o)]> O).
Proof.
  intros HI Ho Hmax. destruct (obj_place c O p o HI Ho) as (i & a & k & F & j & u & _ & _ & _ & _ & _ & Hm & Hc & Hb & Hl).
  unfold small_rc_inc, small_set_count. rewrite (bind_scheck _ _ _ _ Hm). cbn [_count]. rewrite bind_cassert by (apply Z.leb_le; lia).
  rewrite (bind_lift _ _ _ (scnt o + 1)) by (apply ck_ok; unfold is_int, INT_MIN; lia). rewrite (bind_scheck _ _ _ _ Hm). eexists. split; [done|].
  apply (change_inv c O p o (SObj (scnt o + 1) (sbytes o)) u); cbn; [done|done|lia|done|done].
Qed.

Lemma small_rc_dec_run c O p o : cl_inv c O -> O !! p = Some o -> 0 < scnt o ->
  exists c', small_rc_dec p c = Ok (negb (scnt o - 1 =? 0), c') /\ cl_inv c' (<[p := SObj (scnt o - 1) (sbytes o)]> O).
Proof.
  intros HI Ho Hpos. destruct (obj_place c O p o HI Ho) as (i & a & k & F & j & u & _ & _ & _ & _ & _ & Hm & Hc & Hb & Hl).
  unfold small_rc_dec, small_set_count. rewrite (bind_scheck _ _ _ _ Hm). cbn [_count]. rewrite bind_cassert by (apply Z.ltb_lt; lia).
  rewrite (bind_lift _ _ _ (scnt o - 1)) by (apply ck_ok; unfold is_int, INT_MIN, INT_MAX in *; lia). rewrite bind_assoc, (bind_scheck _ _ _ _ Hm), bind_modif.
  eexists. split; [done|]. apply (change_inv c O p o (SObj (scnt o - 1) (sbytes o)) u); cbn; [done|done|lia|done|done].
Qed.

Lemma small_read_run c O p o k x : cl_inv c O -> O !! p = Some o -> sbytes o !! k = Some x -> small_read p k c = Ok (x, c).
Proof.
  intros HI Ho Hk. destruct (obj_place c O p o HI Ho) as (i & a & k0 & F & j & u & _ & _ & _ & _ & _ & Hm & _ & Hb & _).
  unfold small_read. rewrite (bind_scheck _ _ _ _ Hm). cbn [_union]. rewrite Hb in Hk. destruct u as [f|l]; cbn [GcSmall.payload_bytes] in Hk; [by apply lookup_replicate in Hk as [-> _]|by rewrite Hk].
Qed.

Lemma small_write_run c O p o k v : cl_inv c O -> O !! p = Some o ->
  exists c', small_write (Z.to_nat hi) p k v c = Ok (tt, c') /\ cl_inv c' (<[p := SObj (scnt o) (<[k := Some v]> (sbytes o))]> O).
Proof.
  intros HI Ho. destruct (obj_place c O p o HI Ho) as (i & a & k0 & F & j & u & _ & _ & _ & _ & _ & Hm & Hc & Hb & Hl).
  unfold small_write. rewrite (bind_scheck _ _ _ _ Hm). cbn [_union _count]. eexists. split; [done|].
  refine (change_inv c O p o (SObj (scnt o) _) (Data _) HI Ho Hc _ _); cbn [sbytes].
  - rewrite Hb. by destruct u.
  - by rewrite length_insert.
Qed.

(** ** An object goes *)
Lemma mgr_lookup_run c O i a x : cl_inv c O -> arenas c !! i = Some a -> in_range a x -> mgr_lookup x c = Some i.
Proof.
  intros HI Ha Hx.
  assert (Hh : forall j b, arenas c !! j = Some b -> holds b x = true <-> in_range b x).
  { intros j b Hb. destruct (ci_arena _ _ _ _ HI j b Hb) as (k & F & HS). destruct (so_geo _ _ _ _ _ _ _ HS) as (_ & _ & Et & _).
    unfold holds, in_range. rewrite Et, andb_true_iff, Z.leb_le, Z.ltb_lt. done. }
  unfold mgr_lookup. destruct (filter _ _) as [|[j b] l] eqn:E.
  - exfalso. assert (Hin : (i, a) ∈ filter (fun ia => holds ia.2 x = true) (map_to_list (arenas c))).
    { apply list_elem_of_filter. split; [by apply (Hh i a)|by apply elem_of_map_to_list]. }
    rewrite E in Hin. by apply not_elem_of_nil in Hin.
  - assert (Hin : (j, b) ∈ filter (fun ia => holds ia.2 x = true) (map_to_list (arenas c))) by (rewrite E; by left).
    apply list_elem_of_filter in Hin as [Hb Hj%elem_of_map_to_list]. cbn in Hb. apply (Hh j b Hj) in Hb. cbn. f_equal. by eapply range_unique.
Qed.

Lemma lookup_arena_run c O p o : cl_inv c O -> O !! p = Some o -> exists i a k F j u, lookup_arena p c = Ok (i, c) /\ arenas c !! i = Some a /\ soa_ok (smem c) a k F O /\
  in_range a p /\ 0 <= j < k /\ p = place a j /\ smem c !! p = Some (SSlot (scnt o) u).
Proof.
  intros HI Ho. destruct (obj_place c O p o HI Ho) as (i & a & k & F & j & u & Ha & HS & Hr & Hj & Ej & Hm & _). exists i, a, k, F, j, u. split; [|split_and!; try done; lia].
  destruct (so_geo _ _ _ _ _ _ _ HS) as (_ & _ & _ & _ & _ & Hhi). unfold lookup_arena. rewrite bind_gets, (mgr_lookup_run c O i a); [done|done|done|].
  destruct (place_in_range _ _ _ _ _ _ _ j HS) as [_ He]; [pose proof (so_nxt _ _ _ _ _ _ _ HS); lia|].
  unfold in_range, off_data, GcSmall.gross in *. rewrite <- Ej in He. lia.
Qed.

Lemma small_deallocate_run c O p o : cl_inv c O -> O !! p = Some o -> exists c', small_deallocate p c = Ok (tt, c') /\ cl_inv c' (delete p O) /\ ranges c' = ranges c.
Proof.
  intros HI Ho. destruct (lookup_arena_run c O p o HI Ho) as (i & a & k & F & j & u & E & Ha & HS & Hr & Hj & Ej & Hm).
  destruct (so_geo _ _ _ _ _ _ _ HS) as (_ & _ & _ & _ & Ehi & Hhi). pose proof (ci_id _ _ _ _ HI i a Ha) as Hid.
  unfold small_deallocate. rewrite (M_bind_ok _ _ _ _ _ E), (bind_scheck _ _ _ _ Hm). unfold small_set_count. rewrite bind_assoc, (bind_scheck _ _ _ _ Hm), bind_modif. cbn [_union].
  unfold soa_mark_free. set (c1 := with_smem _ c). assert (Ha1 : arenas c1 !! i = Some a) by done. rewrite (bind_soa _ _ _ _ Ha1).
  assert (Hp1 : smem c1 !! p = Some (SSlot (-1) u)) by apply lookup_insert_eq.
  assert (Hobj : obj2ind a p c1 = Ok (j, c1)) by (rewrite Ej; apply (obj2ind_run lo hi c1 (smem c) a k F O); [done|done|rewrite <- Ej; by eexists]).
  rewrite (M_bind_ok _ _ _ _ _ Hobj). unfold set_free_ptr. rewrite bind_assoc, (bind_scheck _ _ _ _ Hp1), bind_modif. rewrite Ehi, (proj2 (Z.ltb_ge _ _)) by (unfold sizeof_int32; lia).
  unfold c1, with_smem. cbn [smem arenas _vacancy _no_vacancy _count]. rewrite insert_insert_eq. set (m' := <[p := _]> (smem c)).
  rewrite (bind_set _ i _ a) by done. unfold upd. cbn [smem arenas _vacancy _no_vacancy].
  pose proof (give_back lo hi (smem c) a k F O j o HS ltac:(by rewrite <- Ej) Hj) as HS'. rewrite <- Ej in HS'. fold m' in HS'.
  assert (Hout : forall q, ~ in_range a q -> m' !! q = smem c !! q /\ delete p O !! q = O !! q).
  { intros q Hq. assert (q <> p) by (intros ->; done). unfold m'. by rewrite lookup_insert_ne, lookup_delete_ne. }
  destruct (vacancy a) eqn:Hv.
  - eexists. split; [done|]. split; [|by eapply ranges_insert]. apply (inv_keep lo hi c O i a); try done. exists k, (j :: F).
    replace (with_free_list j a) with (with_vacancy true (with_free_list j a)); [done|]. unfold with_vacancy, with_free_list. cbn. by rewrite Hv.
  - unfold became_vacant, list_id. rewrite !bind_assoc, (bind_soa _ i (with_free_list j a)) by apply lookup_insert_eq. cbn [vacancy_list_id with_free_list]. rewrite Hid.
    rewrite (bind_lift _ _ _ false) by done. rewrite bind_assoc, bind_cassert by done. rewrite bind_assoc, bind_gets, bind_assoc, bind_gets, bind_assoc.
    cbn [_vacancy _no_vacancy]. assert (Hin : i ∈ _no_vacancy c) by (apply (ci_novac _ _ _ _ HI); by exists a).
    unfold list_remove. rewrite bool_decide_true by done. rewrite (bind_lift _ _ _ _ eq_refl). rewrite bind_assoc, bind_modif.
    unfold with_lists. cbn [smem arenas _vacancy _no_vacancy]. rewrite (bind_set _ i _ (with_free_list j a)) by apply lookup_insert_eq.
    unfold upd. cbn [smem arenas _vacancy _no_vacancy]. rewrite insert_insert_eq. unfold set_arena. rewrite (bind_soa _ i (with_list_id true (with_free_list j a))) by apply lookup_insert_eq.
    unfold modify. cbn [smem arenas _vacancy _no_vacancy]. rewrite insert_insert_eq. eexists. split; [done|]. split; [|by eapply ranges_insert].
    pose proof (ci_nodup _ _ _ _ HI) as HN. apply NoDup_app in HN as (HN1 & HN2 & HN3).
    apply (inv_update lo hi c O i a); try done.
    + exists k, (j :: F). change (with_vacancy true _) with (with_list_id true (with_vacancy true (with_free_list j a))). by apply soa_flags.
    + apply NoDup_app. split_and!.
      * apply NoDup_app. split_and!; [done| |apply NoDup_singleton]. intros x Hx ->%list_elem_of_singleton. by apply (HN2 i).
      * intros x [Hx|Hx%list_elem_of_singleton]%elem_of_app Hf%elem_of_removed; destruct (decide (x = i)); [done| |done|done]. by apply (HN2 x).
      * by apply NoDup_filter.
    + intros x. rewrite elem_of_app, list_elem_of_singleton. destruct (decide (x = i)) as [->|]; naive_solver.
    + intros x. rewrite elem_of_removed. by destruct (decide (x = i)).
Qed.
End objects.

(** ** New arenas *)

(** Pages are not less than what was asked for, and where there is none of the cluster's yet. *)
Class PagesLaws `{!Pages} : Prop := {
  pages_up n : n <= align_pages n;
  pages_apart c n : 0 < cgc_mmap c n /\ forall i a, arenas c !! i = Some a -> cgc_mmap c n + n <= sbase a \/ stop_ a <= cgc_mmap c n
}.

(** What a client does with the objects of one size. *)
Inductive smop : Type :=
| SAlloc (sz : Z)
| SInc (p : Z)
| SDec (p : Z)
| SRead (p : Z) (k : nat)
| SWrite (p : Z) (k : nat) (v : Z)
| SFree (p : Z)
| SSize (p : Z).
Inductive smanswer : Type := APtr (p : Z) | ADone | AMore (b : bool) | AValue (b : option Z) | ANum (n : Z).

Section small_heap.
Context `{PagesLaws}.
Context (lo hi min_objs : Z).
Notation soa_ok := (soa_ok lo hi).
Notation cl_inv := (cl_inv lo hi).
Notation gross := (gross hi).

Definition smay (op : smop) (O : sobjs) : Prop :=
  match op with
  | SAlloc sz => lo <= sz <= hi
  | SInc p => exists o, O !! p = Some o /\ scnt o < INT_MAX
  | SDec p => exists o, O !! p = Some o /\ 0 < scnt o
  | SRead p k | SWrite p k _ => exists o, O !! p = Some o /\ (k < length (sbytes o))%nat
  | SFree p | SSize p => is_Some (O !! p)
  end.

Inductive smspec : smop -> sobjs -> smanswer -> sobjs -> Prop :=
| smspec_alloc sz p O : O !! p = None -> (forall q, is_Some (O !! q) -> p + gross <= q \/ q + gross <= p) -> smspec (SAlloc sz) O (APtr p) (<[p := fresh_obj hi]> O)
| smspec_inc p o O : O !! p = Some o -> smspec (SInc p) O ADone (<[p := SObj (scnt o + 1) (sbytes o)]> O)
| smspec_dec p o O : O !! p = Some o -> smspec (SDec p) O (AMore (negb (scnt o - 1 =? 0))) (<[p := SObj (scnt o - 1) (sbytes o)]> O)
| smspec_read p k o x O : O !! p = Some o -> sbytes o !! k = Some x -> smspec (SRead p k) O (AValue x) O
| smspec_write p k v o O : O !! p = Some o -> smspec (SWrite p k v) O ADone (<[p := SObj (scnt o) (<[k := Some v]> (sbytes o))]> O)
| smspec_free p O : smspec (SFree p) O ADone (delete p O)
| smspec_size p O : smspec (SSize p) O (ANum hi) O.

Definition run_smop (op : smop) : M cluster smanswer :=
  match op with
  | SAlloc sz => p ← small_alloc lo hi min_objs sz; mret (APtr p)
  | SInc p => small_rc_inc p;; mret ADone
  | SDec p => b ← small_rc_dec p; mret (AMore b)
  | SRead p k => x ← small_read p k; mret (AValue x)
  | SWrite p k v => small_write (Z.to_nat hi) p k v;; mret ADone
  | SFree p => small_deallocate p;; mret ADone
  | SSize p => n ← small_size p; mret (ANum n)
  end.

Lemma soa_new_ok m O b n : (forall p, b <= p < b + n -> m !! p = None /\ O !! p = None) -> 0 < b -> 0 <= n < 2 ^ 31 -> 4 <= hi < 2 ^ 31 ->
  soa_ok m (with_list_id true (soa_new b n lo hi)) 0 [] O.
Proof.
  intros Hm Hb Hn Hh. split; cbn.
  - split_and!; try done; lia.
  - split; [|unfold place; cbn; lia]. unfold capacity, GcSmall.gross. cbn. split; [done|]. apply Z.div_pos; lia.
  - intros p Hp. rewrite (proj1 (Hm p Hp)). split; [by intros [? ?]|]. intros (i & Hi & _). lia.
  - done.
  - constructor.
  - intros i Hi. by apply not_elem_of_nil in Hi.
  - intros i Hi. lia.
  - intros p o Ho Hp. rewrite (proj2 (Hm p Hp)) in Ho. done.
  - done.
Qed.

Lemma inv_add c O i a : cl_inv c O -> arenas c !! i = None -> vacancy a = true -> vacancy_list_id a = Some true -> (exists k F, soa_ok (smem c) a k F O) ->
  (forall j b, arenas c !! j = Some b -> stop_ a <= sbase b \/ stop_ b <= sbase a) ->
  cl_inv (Cluster (<[i := a]> (arenas c)) (_vacancy c ++ [i]) (_no_vacancy c) (smem c)) O.
Proof.
  intros HI Hi Hv Hid HS Hap.
  assert (Hold : forall j b, arenas c !! j = Some b -> <[i := a]> (arenas c) !! j = Some b) by (intros j b Hb; rewrite lookup_insert_ne; [done|congruence]).
  assert (Hni : forall (l : list nat) x, (forall j, j ∈ l <-> exists b, arenas c !! j = Some b /\ vacancy b = x) -> i ∉ l).
  { intros l x Hl Hin. apply Hl in Hin as (b & Hb & _). congruence. }
  pose proof (Hni _ _ (ci_vac _ _ _ _ HI)) as Hn1. pose proof (Hni _ _ (ci_novac _ _ _ _ HI)) as Hn2.
  split; cbn [arenas smem _vacancy _no_vacancy].
  - intros j b Hb. apply lookup_insert_Some in Hb as [[<- <-]|[_ Hb]]; [done|by eapply ci_arena].
  - intros j1 j2 b1 b2 Hb1 Hb2 Hne. apply lookup_insert_Some in Hb1 as [[<- <-]|[_ Hb1]], Hb2 as [[<- <-]|[_ Hb2]]; [done|by eapply Hap| |by eapply (ci_apart _ _ _ _ HI)].
    destruct (Hap j1 b1 Hb1); tauto.
  - intros j b Hb. apply lookup_insert_Some in Hb as [[<- <-]|[_ Hb]]; [by rewrite Hv|by eapply (ci_id _ _ _ _ HI)].
  - pose proof (ci_nodup _ _ _ _ HI) as HN. apply NoDup_app in HN as (HN1 & HN2 & HN3). apply NoDup_app. split_and!; [|set_solver|done].
    apply NoDup_app. split_and!; [done| |apply NoDup_singleton]. intros j Hj ->%list_elem_of_singleton. done.
  - intros j. rewrite elem_of_app, list_elem_of_singleton, (ci_vac _ _ _ _ HI). split.
    + intros [(b & Hb & E)| ->]; [exists b; split; [by apply Hold|done]|]. exists a. by rewrite lookup_insert_eq.
    + intros (b & Hb & E). apply lookup_insert_Some in Hb as [[<- <-]|[_ Hb]]; [by right|left; by exists b].
  - intros j. rewrite (ci_novac _ _ _ _ HI). split.
    + intros (b & Hb & E). exists b. split; [by apply Hold|done].
    + intros (b & Hb & E). apply lookup_insert_Some in Hb as [[<- <-]|[_ Hb]]; [congruence|by exists b].
  - intros p Hp. destruct (ci_mem _ _ _ _ HI p Hp) as (j & b & Hb & Hr). exists j, b. split; [by apply Hold|done].
  - intros p Hp. destruct (ci_in _ _ _ _ HI p Hp) as (j & b & Hb & Hr). exists j, b. split; [by apply Hold|done].
Qed.

Context (Hhi : 4 <= hi < 2 ^ 31) (Hmo : gross <= u64 (hi * min_objs)) (Hpages : align_pages (u64 (hi * min_objs)) < 2 ^ 31).

(** A new arena has room for an object. *)
Lemma alloc_soa_run c O : cl_inv c O -> exists i a c', alloc_soa lo hi min_objs c = Ok (i, c') /\ cl_inv c' O /\ arenas c' !! i = Some a /\
  soa_ok (smem c') a 0 [] O /\ 0 < capacity hi a.
Proof.
  intros HI. set (n := align_pages (u64 (hi * min_objs))) in *. pose proof (pages_up (u64 (hi * min_objs))) as Hn. fold n in Hn.
  destruct (pages_apart c n) as [Hb Hap]. set (b := cgc_mmap c n) in *. unfold GcSmall.gross in *.
  assert (Hout : forall x i a, arenas c !! i = Some a -> in_range a x -> ~ b <= x < b + n) by (intros x i a Ha Hx; unfold in_range in *; destruct (Hap i a Ha); lia).
  assert (HS : soa_ok (smem c) (with_list_id true (soa_new b n lo hi)) 0 [] O).
  { apply soa_new_ok; [|done|lia|done]. intros p Hp. split.
    - destruct (smem c !! p) as [x|] eqn:E; [|done]. destruct (ci_mem _ _ _ _ HI p) as (i & a & Ha & Hr); [by exists x|]. destruct (Hout p i a Ha Hr Hp).
    - destruct (O !! p) as [x|] eqn:E; [|done]. destruct (ci_in _ _ _ _ HI p) as (i & a & Ha & Hr); [by exists x|]. destruct (Hout p i a Ha Hr Hp). }
  unfold alloc_soa. fold n. rewrite !bind_gets. fold b. set (i := fresh (dom (arenas c))).
  assert (Hi : arenas c !! i = None) by apply not_elem_of_dom, is_fresh.
  unfold mgr_insert. rewrite bind_assoc, bind_gets. cbn [sbase soa_new].
  assert (El : mgr_lookup b c = None).
  { unfold mgr_lookup. destruct (filter _ _) as [|[j a] l] eqn:E; [done|exfalso].
    assert (Hin : (j, a) ∈ filter (fun ia => holds ia.2 b = true) (map_to_list (arenas c))) by (rewrite E; by left).
    apply list_elem_of_filter in Hin as [Hh Ha%elem_of_map_to_list]. cbn in Hh. unfold holds in Hh. apply andb_true_iff in Hh as [H1%Z.leb_le H2%Z.ltb_lt].
    destruct (ci_arena _ _ _ _ HI j a Ha) as (k & F & HSa). destruct (so_geo _ _ _ _ _ _ _ HSa) as (_ & _ & Et & _). destruct (Hap j a Ha); lia. }
  rewrite El, bind_assoc, bind_cassert by done. rewrite bind_modif. unfold cluster_add. rewrite bind_assoc, bind_modif. unfold with_lists. cbn [arenas smem _vacancy _no_vacancy].
  rewrite (bind_set _ i _ (soa_new b n lo hi)) by apply lookup_insert_eq. unfold upd. cbn [arenas smem _vacancy _no_vacancy]. rewrite insert_insert_eq.
  exists i, (with_list_id true (soa_new b n lo hi)). eexists. split; [done|]. split_and!.
  - apply inv_add; [done|done|done|done|by exists 0, []|]. intros j a Ha. cbn. destruct (Hap j a Ha); [by left|by right].
  - apply lookup_insert_eq.
  - done.
  - unfold capacity, GcSmall.gross. cbn. apply Z.div_str_pos. lia.
Qed.

(** [small_alloc] always gives an object, and asks for pages only when every slot there is is in use. *)
Lemma small_alloc_run c O sz : cl_inv c O -> lo <= sz <= hi ->
  exists p c', small_alloc lo hi min_objs sz c = Ok (p, c') /\ O !! p = None /\ cl_inv c' (<[p := fresh_obj hi]> O) /\ (all_in_use hi c O \/ ranges c' = ranges c).
Proof.
  intros HI Hsz. unfold small_alloc. rewrite bind_cassert by (apply negb_true_iff, Z.eqb_neq; lia).
  destruct (cluster_aalloc_run lo hi c O sz HI Hsz) as [(p & c' & E & Ho & HI' & Hr)|(c' & E & HI' & Hr & Hall)]; rewrite (M_bind_ok _ _ _ _ _ E); [exists p, c'; auto|].
  destruct (alloc_soa_run c' O HI') as (i & a & c2 & E2 & HI2 & Ha & HS & Hcap). rewrite (M_bind_ok _ _ _ _ _ E2).
  destruct (soa_aalloc_run lo hi c2 i a 0 [] O sz Ha HS Hsz) as [(p & c3 & E3 & HG)|(_ & _ & Hk)]; [|lia].
  rewrite (M_bind_ok _ _ _ _ _ E3). exists p, c3. split; [done|]. split; [apply (gv_new _ _ _ _ _ _ _ _ HG)|].
  split; [by eapply given_inv|by left].
Qed.

Lemma smop_run op c O : cl_inv c O -> smay op O -> exists r c' O', run_smop op c = Ok (r, c') /\ smspec op O r O' /\ cl_inv c' O'.
Proof.
  intros HI HM. destruct op as [sz|p|p|p k|p k v|p|p]; cbn [smay run_smop] in *.
  - destruct (small_alloc_run c O sz HI HM) as (p & c' & E & Ho & HI' & _). rewrite (M_bind_ok _ _ _ _ _ E). eexists _, c', _. split; [done|]. split; [|done].
    constructor; [done|]. intros q Hq. assert (p <> q) by (intros ->; rewrite Ho in Hq; by destruct Hq).
    apply (objs_apart lo hi c' (<[p := fresh_obj hi]> O)); [done|by rewrite lookup_insert_eq|by rewrite lookup_insert_ne|done].
  - destruct HM as (o & Ho & Hmax). destruct (small_rc_inc_run lo hi c O p o HI Ho Hmax) as (c' & E & HI'). rewrite (M_bind_ok _ _ _ _ _ E).
    eexists _, c', _. split; [done|]. split; [by constructor|done].
  - destruct HM as (o & Ho & Hpos). destruct (small_rc_dec_run lo hi c O p o HI Ho Hpos) as (c' & E & HI'). rewrite (M_bind_ok _ _ _ _ _ E).
    eexists _, c', _. split; [done|]. split; [by constructor|done].
  - destruct HM as (o & Ho & Hk). destruct (lookup_lt_is_Some_2 _ _ Hk) as [x Hx]. rewrite (M_bind_ok _ _ _ _ _ (small_read_run lo hi c O p o k x HI Ho Hx)).
    eexists _, c, O. split; [done|]. split; [by econstructor|done].
  - destruct HM as (o & Ho & Hk). destruct (small_write_run lo hi c O p o k v HI Ho) as (c' & E & HI'). rewrite (M_bind_ok _ _ _ _ _ E).
    eexists _, c', _. split; [done|]. split; [by constructor|done].
  - destruct HM as [o Ho]. destruct (small_deallocate_run lo hi c O p o HI Ho) as (c' & E & HI' & _). rewrite (M_bind_ok _ _ _ _ _ E).
    eexists _, c', _. split; [done|]. split; [by constructor|done].
  - destruct HM as [o Ho]. destruct (lookup_arena_run lo hi c O p o HI Ho) as (i & a & k & F & j & u & E & Ha & HS & _).
    unfold small_size. rewrite bind_assoc, (M_bind_ok _ _ _ _ _ E), bind_assoc, (bind_soa _ _ _ _ Ha), bind_ret.
    destruct (so_geo _ _ _ _ _ _ _ HS) as (_ & _ & _ & _ & Ehi & _). rewrite Ehi. eexists _, c, O. split; [done|]. split; [constructor|done].
Qed.

(** C25: the small objects of one size class are a heap.  Objects of the class are of lo to hi bytes, with hi at least 4 (in an object below that the free list would not fit) and below 2^31;
    an arena has room for one object with its header at least, and is smaller than 2^31 bytes when rounded up to pages; mmap gives memory above zero that overlaps no arena; and the cluster is in its invariant at first,
    as one without arenas is.  Then a client that allocates sizes
    of the class, counts references up to INT_MAX and down to zero, reads, writes and frees its own objects, and asks for their size, never sees a check fail: every allocation gives an object of hi
    bytes that overlaps none that is alive, and an object keeps its count and its bytes until it is freed, though the free list runs through the data of the freed ones and arenas wander between the lists. *)
Theorem small_heap_refines A (cl : client smop smanswer A) c O : cl_inv c O -> behaves smspec smay cl O ->
  exists a c' O', run_client run_smop cl c = Ok (a, c') /\ meant smspec cl O a O' /\ cl_inv c' O'.
Proof. apply client_refines, smop_run. Qed.
End small_heap.

(** * Runs *)

(** Pages of 4096 bytes, the new ones behind all others. *)
Definition last_stop (c : cluster) : Z := foldr (fun ia z => Z.max (stop_ ia.2) z) 0 (map_to_list (arenas c)).
#[export] Instance pages_4096 : Pages := {| align_pages n := (n + 4095) / 4096 * 4096; cgc_mmap c n := 4096 + last_stop c |}.

Lemma last_stop_ge (l : list (nat * soa)) : 0 <= foldr (fun ia z => Z.max (stop_ ia.2) z) 0 l /\ forall ia, ia ∈ l -> stop_ ia.2 <= foldr (fun ia z => Z.max (stop_ ia.2) z) 0 l.
Proof.
  induction l as [|ja l [IH0 IH]]; cbn [foldr]; [split; [done|intros ia Hia; by apply not_elem_of_nil in Hia]|]. split; [lia|].
  intros ia [->|Hia]%elem_of_cons; [lia|]. specialize (IH ia Hia). lia.
Qed.

#[export] Instance pages_4096_laws : PagesLaws.
Proof.
  split.
  - intros n. cbn. pose proof (Z.div_mod (n + 4095) 4096 ltac:(lia)). pose proof (Z.mod_pos_bound (n + 4095) 4096 ltac:(lia)). lia.
  - intros c n. cbn. unfold last_stop. destruct (last_stop_ge (map_to_list (arenas c))) as [H0 H1]. split; [lia|]. intros i a Ha. right.
    specialize (H1 (i, a) ltac:(by apply elem_of_map_to_list)). cbn in H1. lia.
Qed.

Definition no_arenas : cluster := Cluster ∅ [] [] ∅.

Lemma no_arenas_ok lo hi : cl_inv lo hi no_arenas ∅.
Proof.
  split; cbn; try done.
  - constructor.
  - intros i. split; [intros Hi; by apply not_elem_of_nil in Hi|intros (a & Ha & _); done].
  - intros i. split; [intros Hi; by apply not_elem_of_nil in Hi|intros (a & Ha & _); done].
  - by intros p [x Hx].
  - by intros p [x Hx].
Qed.

Definition outcome {A} (m : M cluster A) : res A := match m no_arenas with Ok (a, _) => Ok a | Stop f => Stop f end.

(** Objects of at most 16 bytes: the slots are handed out in order, and the freed ones again, the last first. *)
Example small_slots_run :
  outcome (a ← small_alloc 1 16 2 8; b ← small_alloc 1 16 2 8; small_write 16 b 3 7;; d ← small_alloc 1 16 2 8; small_deallocate a;; small_deallocate d;;
    e ← small_alloc 1 16 2 8; f ← small_alloc 1 16 2 8; x ← small_read b 3; mret (a, b, d, e, f, x)) = Ok (4096, 4124, 4152, 4152, 4096, Some 7).
Proof. vm_compute. reflexivity. Qed.

Fixpoint alloc_many (n : nat) (sz : Z) : M cluster (list Z) := match n with O => mret [] | S n => p ← small_alloc 1 16 2 sz; l ← alloc_many n sz; mret (p :: l) end.

(** An arena of 146 slots is used up: the next object comes from a second one.  An object of the first that is freed brings it back into the list. *)
Example second_arena :
  outcome (l ← alloc_many 147 8; a ← gets _vacancy; b ← gets _no_vacancy; small_deallocate 4096;; a' ← gets _vacancy; mret (last l, a, b, a')) =
  Ok (Some 12288, [1%nat], [0%nat], [1%nat; 0%nat]).
Proof. vm_compute. reflexivity. Qed.

(** Objects of less than four bytes: the pointer in a freed one reaches into the next slot. *)
Example tiny_objects :
  outcome (a ← small_alloc 1 1 128 1; b ← small_alloc 1 1 128 1; small_rc_inc b;; small_deallocate a;; small_rc_dec b) = Stop Dangling.
Proof. vm_compute. reflexivity. Qed.

(** An object is freed while references count. *)
Example freed_while_counted : outcome (a ← small_alloc 1 16 2 8; small_rc_inc a;; small_deallocate a;; b ← small_alloc 1 16 2 8; mret (bool_decide (a = b))) = Ok true.
Proof. vm_compute. reflexivity. Qed.

(** A client: two objects, a byte in the first, the second freed. *)
Definition two_objects : client smop smanswer (option (option Z)) :=
  Call (SAlloc 8) (fun r =>
    match r with
    | APtr p =>
        Call (SInc p) (fun _ => Call (SWrite p 3 7) (fun _ => Call (SAlloc 16) (fun r =>
          match r with
          | APtr q => Call (SFree q) (fun _ => Call (SRead p 3) (fun r => Return (match r with AValue x => Some x | _ => None end)))
          | _ => Return None
          end)))
    | _ => Return None
    end).

Lemma two_objects_behave : behaves (smspec 16) (smay 1 16) two_objects ∅.
Proof.
  cbn [behaves two_objects]. split; [cbn; lia|]. intros r O HS. inversion HS as [sz p O0 Hp Hap| | | | | |]; subst. clear HS Hap.
  split; [exists (fresh_obj 16); by rewrite lookup_insert_eq|]. intros r O HS. inversion HS as [|? o ? Ho| | | | |]; subst. clear HS.
  rewrite lookup_insert_eq in Ho. injection Ho as <-. rewrite insert_insert_eq.
  split; [eexists; rewrite lookup_insert_eq; split; [done|vm_compute; lia]|]. intros r O HS. inversion HS as [| | | |? ? ? o ? Ho| |]; subst. clear HS.
  rewrite lookup_insert_eq in Ho. injection Ho as <-. rewrite insert_insert_eq. set (o1 := SObj _ _).
  split; [cbn; lia|]. intros r O HS. inversion HS as [? q ? Hq Hap| | | | | |]; subst. clear HS Hap.
  assert (Hne : q <> p) by (intros ->; by rewrite lookup_insert_eq in Hq).
  split; [cbn; by rewrite lookup_insert_eq|]. intros r O HS. inversion HS; subst. clear HS. rewrite delete_insert_id by done.
  split; [exists o1; rewrite lookup_insert_eq; split; [done|vm_compute; lia]|by intros].
Qed.

Lemma small_heap_refines_witness :
  exists a c' O', run_client (run_smop 1 16 128) two_objects no_arenas = Ok (a, c') /\ meant (smspec 16) two_objects ∅ a O' /\ cl_inv 1 16 c' O'.
Proof. apply small_heap_refines; [lia|by vm_compute|reflexivity|apply no_arenas_ok|apply two_objects_behave]. Defined.
