(* ===== verification/Paxos.v ===== *)
(** The Paxos node of src/paxos/test_paxos.c: its state, the handlers of the sockets of its peers
    (it proposes) and of its own socket (it accepts), what it sends, and the start of a round.

    Packets stand for the bytes protobuf packs them into; a datagram that does not unpack is
    [None].  Queued messages hold a pointer into the string [value_try] or [value_store], which is
    read when they are sent: [vref].  Strings are those of the sds library (not in the repository).
    The list of answers is in memory, sorted by [list_sort] of KernelSort.v; what a node receives
    and whether the operating system takes its packets are arguments. *)
From S2P Require Import Prelude SortSpec LinkSort LinkRig KernelSort.

(** * Strings and messages *)

(** An [sds]: its address, its length, and the bytes from that address on. *)
Record sds : Type := Sds { at_ : nat; len : nat; bytes : list Z }.
Definition str (s : sds) : list Z := take (len s) (bytes s).

Class SdsLib := { sdsempty : sds; sdscpylen : sds -> list Z -> sds; sdsclear : sds -> sds }.

(** Copying gives the string its new contents, moving it if need be; clearing leaves it in place. *)
Class SdsLaws (L : SdsLib) := {
  sdsempty_law : str sdsempty = [] /\ len sdsempty = 0;
  sdscpylen_law : forall s t, str (sdscpylen s t) = t /\ len (sdscpylen s t) = length t;
  sdsclear_law : forall s, len (sdsclear s) = 0 /\ at_ (sdsclear s) = at_ s;
}.

(** [Xh__PaxosMsg]; [has_preacceptid] alone is optional in what the program sends. *)
Record Xh__PaxosMsg (D : Type) : Type := PMsg {
  msg_instanceid : Z; msg_nodeid : Z; proposalid : Z; flag : Z; has_preacceptid : bool; value : D }.
Arguments PMsg {D}.
Arguments msg_instanceid {D}. Arguments msg_nodeid {D}. Arguments proposalid {D}.
Arguments flag {D}. Arguments has_preacceptid {D}. Arguments value {D}.

Notation packet := (Xh__PaxosMsg (list Z)).

Inductive which : Type := VTry | VStore.
Record vref : Type := VRef { v_of : which; v_data : nat; v_len : nat }.

(** An address: the texts given to [inet_pton] and [atoi]. *)
Notation addr := (list Z * list Z)%type.

(** A queued [paxos_msg]. *)
Record paxos_msg : Type := QMsg { msg : Xh__PaxosMsg vref; to : addr }.

(** * The state *)
Definition PAXOS_PROPOSE_OK : Z := 2.
Record paxos_node : Type := Node { flags : Z; servaddr : addr; node_out : list paxos_msg }.

(** [propose_ok_list]: the list heads in memory, the head at 0, and [t] and [value] of its nodes. *)
Record answers : Type := Answers { links : heap; texts : gmap nat (Z * list Z) }.

(** The fields of [paxos_ctx] of the acceptor, of the proposer, and the others. *)
Record acceptor : Type := Acc { t_max : Z; t_store : Z; value_store : sds }.
Record proposer : Type := Pro {
  t_try : Z; value_try : sds; propose_ok_list : answers; n_propose_ok : Z; n_propose_success : Z }.
Record paxos_ctx : Type := Ctx {
  instance_id : Z; acc : acceptor; pro : proposer; nodes : list paxos_node; n_nodes : Z;
  o_list : list paxos_msg; echo_file_chksum : Z }.

Definition with_acc (c : paxos_ctx) (a : acceptor) : paxos_ctx :=
  Ctx (instance_id c) a (pro c) (nodes c) (n_nodes c) (o_list c) (echo_file_chksum c).
Definition with_pro (c : paxos_ctx) (p : proposer) : paxos_ctx :=
  Ctx (instance_id c) (acc c) p (nodes c) (n_nodes c) (o_list c) (echo_file_chksum c).
Definition with_nodes (c : paxos_ctx) (ns : list paxos_node) : paxos_ctx :=
  Ctx (instance_id c) (acc c) (pro c) ns (n_nodes c) (o_list c) (echo_file_chksum c).
Definition with_o_list (c : paxos_ctx) (l : list paxos_msg) : paxos_ctx :=
  Ctx (instance_id c) (acc c) (pro c) (nodes c) (n_nodes c) l (echo_file_chksum c).
Definition with_chksum (c : paxos_ctx) (t : Z) : paxos_ctx :=
  Ctx (instance_id c) (acc c) (pro c) (nodes c) (n_nodes c) (o_list c) t.

(** [list_del] of klist.h: the node is taken out, the others stay linked. *)
Class KlistDel := list_del : nat -> heap -> res heap.
Class KlistDelLaw (D : KlistDel) := list_del_law : forall a x l1 l2 h,
  linked h true true (a :: l1 ++ x :: l2) -> NoDup (a :: l1 ++ x :: l2) ->
  exists h', list_del x h = Ok h' /\ linked h' true true (a :: l1 ++ l2) /\ same_but (a :: l1 ++ x :: l2) h h'.

(** [xh__paxos_msg__free_unpacked] of a message that was not unpacked; what it does is protobuf's affair.
    [xh__paxos_msg__get_packed_size] of a message with its value. *)
Class Protobuf := { free_unpacked : Xh__PaxosMsg vref -> res unit; packed_size : packet -> nat }.

(** At most six integers of at most ten bytes, the length of the value and the tags of one byte come on top of the value. *)
Class ProtobufLaws (P : Protobuf) := packed_size_law : forall m, packed_size m <= 100 + length (value m).

(** [char buf[1024 * 8]], which messages are packed into. *)
Definition buf_size : nat := N.to_nat 8192.

Section node.
Context `{SdsLib} `{Klist} `{KlistDel} `{KlistEmpty} `{Protobuf} (node_id : Z).

(** * The proposer *)

(** A message about the current round, to every node that is [chosen]. *)
Definition request (c : paxos_ctx) (f : Z) (n : paxos_node) : paxos_msg :=
  let v := value_try (pro c) in
  QMsg (PMsg (instance_id c) node_id (t_try (pro c)) f false (VRef VTry (at_ v) (len v))) (servaddr n).
Definition queue (n : paxos_node) (m : paxos_msg) : paxos_node := Node (flags n) (servaddr n) (node_out n ++ [m]).
Definition send_all (f : Z) (chosen : paxos_node -> bool) (c : paxos_ctx) : paxos_ctx :=
  with_nodes c ((fun n => if chosen n then queue n (request c f n) else n) <$> nodes c).

Definition paxos_propose (c : paxos_ctx) : paxos_ctx :=
  send_all 3 (fun n => negb (Z.land (flags n) PAXOS_PROPOSE_OK =? 0)%Z) c.
Definition paxos_execute (c : paxos_ctx) : paxos_ctx := send_all 5 (fun _ => true) c.

(** The loop of [paxos_prepare] over the answers of the last round, which frees them. *)
Fixpoint free_answers (l : list nat) (a : answers) : res answers :=
  match l with
  | [] => Ok a
  | x :: l =>
      h ← list_del x (links a);
      match texts a !! x with
      | Some _ => free_answers l (Answers (delete x h) (delete x (texts a)))
      | None => Stop Dangling
      end
  end.

Definition paxos_prepare (c : paxos_ctx) : res paxos_ctx :=
  let p := pro c in
  let c := with_acc c (Acc (t_max (acc c)) 0 (sdsclear (value_store (acc c)))) in
  l ← list_for_each_safe 0 (links (propose_ok_list p));
  a ← free_answers l (propose_ok_list p);
  let c := with_pro c (Pro (u64 (t_try p + 1)) (value_try p) a 0 0) in
  Ok (send_all 1 (fun _ => true) (with_o_list c [])).

(** [nb->t > na->t]. *)
Definition propose_ok_list_comp_by_t (ts : gmap nat (Z * list Z)) (_ : heap) (a b : option nat) : res Z :=
  match a, b with
  | Some a, Some b =>
      match ts !! a, ts !! b with
      | Some na, Some nb => Ok (Z.b2z (na.1 <? nb.1)%Z)
      | _, _ => Stop Dangling
      end
  | _, _ => Stop NullDeref
  end.

(** [paxos_msg_new], its fields, and [list_add_tail]; memory is taken to suffice. *)
Definition add_answer (t : Z) (v : list Z) (a : answers) : res answers :=
  let x := fresh (dom (links a)) in
  h ← list_add_tail x 0 (<[x := Elem None None None]> (links a));
  Ok (Answers h (<[x := (t, v)]> (texts a))).

(** The answers sorted, and the first of them. *)
Definition sort_answers (a : answers) : res (answers * (Z * list Z)) :=
  '(h, _) ← list_sort (propose_ok_list_comp_by_t (texts a)) (S (size (links a))) (links a) 0;
  e ← load h (Some 0);
  match next e with
  | None => Stop NullDeref
  | Some x => match texts a !! x with Some m => Ok (Answers h (texts a), m) | None => Stop Dangling end
  end.

(** A datagram on the socket of the peer [k], from [from]. *)
Definition node_message (k : nat) (c : paxos_ctx) (d : addr * option packet) : res paxos_ctx :=
  match nodes c !! k with
  | None => Stop NullDeref
  | Some n =>
      let n := Node (flags n) d.1 (node_out n) in
      let c := with_nodes c (<[k := n]> (nodes c)) in
      match d.2 with
      | None => Ok c
      | Some m =>
          let p := pro c in
          if has_preacceptid m && (flag m =? 4)%Z then
            s ← ck (n_propose_success p + 1);
            let c := with_pro c (Pro (t_try p) (value_try p) (propose_ok_list p) (n_propose_ok p) s) in
            Ok (if (n_nodes c ÷ 2 <? s)%Z then paxos_execute c else c)
          else if (flag m =? 2)%Z then
            let c := with_nodes c (<[k := Node (Z.lor (flags n) PAXOS_PROPOSE_OK) (servaddr n) (node_out n)]> (nodes c)) in
            a ← add_answer (proposalid m) (value m) (propose_ok_list p);
            s ← ck (n_propose_ok p + 1);
            let c := with_pro c (Pro (t_try p) (value_try p) a s (n_propose_success p)) in
            if (n_nodes c ÷ 2 <? s)%Z then
              '(a, pmmax) ← sort_answers a;
              let v := if (0 <? pmmax.1)%Z then sdscpylen (value_try p) pmmax.2 else value_try p in
              Ok (paxos_propose (with_pro c (Pro (t_try p) v a s (n_propose_success p))))
            else Ok c
          else Ok c
      end
  end.

(** All datagrams there are; [recvfrom] then fails. *)
Fixpoint epoll_handle_paxos_node_fd_io (k : nat) (ds : list (addr * option packet)) (c : paxos_ctx) : res paxos_ctx :=
  match ds with [] => Ok c | d :: ds => c ← node_message k c d; epoll_handle_paxos_node_fd_io k ds c end.

(** * The acceptor *)
Definition value_of (c : paxos_ctx) (v : vref) : sds :=
  match v_of v with VTry => value_try (pro c) | VStore => value_store (acc c) end.

(** [xh__paxos_msg__pack] reads the bytes of the value where the message says they are, and writes into [buf]
    without asking for its size. *)
Definition pack (c : paxos_ctx) (m : Xh__PaxosMsg vref) : res packet :=
  let v := value m in
  let s := value_of c v in
  if decide (v_data v = at_ s) then
    if decide (v_len v <= length (bytes s)) then
      let p := PMsg (msg_instanceid m) (msg_nodeid m) (proposalid m) (flag m) (has_preacceptid m) (take (v_len v) (bytes s)) in
      if decide (packed_size p <= buf_size) then Ok p else Stop OutOfBounds
    else Stop OutOfBounds
  else Stop Dangling.

(** A reply with the stored proposal is packed and sent; when the socket is busy, it is queued. *)
Definition reply (c : paxos_ctx) (f : Z) (pre : bool) (from : addr) (again : bool) : res (paxos_ctx * option packet) :=
  let v := value_store (acc c) in
  let m := PMsg (instance_id c) node_id (t_store (acc c)) f pre (VRef VStore (at_ v) (len v)) in
  p ← pack c m;
  Ok (if again then with_o_list c (o_list c ++ [QMsg m from]) else c, Some p).

(** A datagram on the node's own socket; the reply, if any, whether sent or queued. *)
Definition acceptor_message (c : paxos_ctx) (from : addr) (m : option packet) (again : bool)
    : res (paxos_ctx * option packet) :=
  match m with
  | None => Ok (c, None)
  | Some m =>
      let a := acc c in
      if (flag m =? 5)%Z then Ok (with_acc c (Acc (t_max a) (t_store a) (sdscpylen (value_store a) (value m))), None)
      else if (t_max a <? proposalid m)%Z && (flag m =? 1)%Z then
        reply (with_acc c (Acc (proposalid m) (t_store a) (value_store a))) 2 false from again
      else if (proposalid m =? t_max a)%Z && (flag m =? 3)%Z then
        reply (with_acc c (Acc (t_max a) (proposalid m) (sdscpylen (value_store a) (value m)))) 4 true from again
      else Ok (c, None)
  end.

(** What is sent: each packet with its address. *)
Notation sent := (list (addr * packet)).

Fixpoint acceptor_messages (ds : list (addr * option packet * bool)) (c : paxos_ctx) : res (paxos_ctx * sent) :=
  match ds with
  | [] => Ok (c, [])
  | (from, m, again) :: ds =>
      '(c, r) ← acceptor_message c from m again;
      '(c, out) ← acceptor_messages ds c;
      Ok (c, match r with Some p => if again then out else (from, p) :: out | None => out end)
  end.

(** The loops over queued messages: the messages that stay, for which the socket was busy, and what was sent. *)
Fixpoint flush (release : Xh__PaxosMsg vref -> res unit) (c : paxos_ctx) (again : list bool) (l : list paxos_msg)
    : res (list paxos_msg * sent) :=
  match l with
  | [] => Ok ([], [])
  | m :: l =>
      p ← pack c (msg m);
      if default false (head again) then '(rest, out) ← flush release c (tail again) l; Ok (m :: rest, out)
      else release (msg m);; '(rest, out) ← flush release c (tail again) l; Ok (rest, (to m, p) :: out)
  end.

Definition paxos_ctx_write (again : list bool) (c : paxos_ctx) : res (paxos_ctx * sent) :=
  '(rest, out) ← flush free_unpacked c again (o_list c); Ok (with_o_list c rest, out).

(** The acceptor's socket: an error, readable, writable. *)
Definition epoll_handle_paxos_fd_io (err rd wr : bool) (ds : list (addr * option packet * bool)) (again : list bool)
    (c : paxos_ctx) : res (paxos_ctx * sent) :=
  if err then Ok (c, [])
  else
    '(c, out) ← (if rd then acceptor_messages ds c else Ok (c, []));
    '(c, out') ← (if wr then paxos_ctx_write again c else Ok (c, []));
    Ok (c, out ++ out').

(** * The loop *)

(** The messages to the peers [k], [k + 1], ...; per peer whether [connect] succeeds, and the busy
    times of its socket. *)
Fixpoint write_nodes (c : paxos_ctx) (io : list (bool * list bool)) (ns : list paxos_node) : res (list paxos_node * sent) :=
  match ns with
  | [] => Ok ([], [])
  | n :: ns =>
      let '(connected, again) := default (true, []) (head io) in
      '(n', out) ←
        (if connected && negb (bool_decide (node_out n = [])) then
           '(rest, out) ← flush (fun _ => Ok tt) c again (node_out n);
           Ok (Node (flags n) (servaddr n) rest, map (fun s => (servaddr n, s.2)) out)
         else Ok (n, []));
      '(ns', out') ← write_nodes c (tail io) ns;
      Ok (n' :: ns', out ++ out')
  end.

Definition epoll_before_wait (again : list bool) (io : list (bool * list bool)) (c : paxos_ctx) : res (paxos_ctx * sent) :=
  '(c, out) ← paxos_ctx_write again c;
  '(ns, out') ← write_nodes c io (nodes c);
  Ok (with_nodes c ns, out ++ out').

Definition paxos_echo (c : paxos_ctx) (s : list Z) : res paxos_ctx :=
  let p := pro c in
  paxos_prepare (with_pro c (Pro (t_try p) (sdscpylen (value_try p) s) (propose_ok_list p) (n_propose_ok p) (n_propose_success p))).

(** [read] gave [ibytes] bytes into [buf], or -1: the byte before the last is looked at in any case. *)
Definition epoll_handle_stdin (buf : option (list Z)) (c : paxos_ctx) : res paxos_ctx :=
  match buf with
  | None => Stop OutOfBounds
  | Some buf =>
      let k := (Z.of_nat (length buf) - 1)%Z in
      x ← aget buf k;
      buf ← (if (x =? 10)%Z then aset buf k 0%Z else Ok buf);
      paxos_echo c buf
  end.

(** The C library on strings without their final zero. *)
Fixpoint strchr (x : Z) (s : list Z) : option nat :=
  match s with [] => None | y :: s => if (y =? x)%Z then Some 0 else S <$> strchr x s end.
Fixpoint strrchr (x : Z) (s : list Z) : option nat :=
  match s with
  | [] => None
  | y :: s => match strrchr x s with Some k => Some (S k) | None => if (y =? x)%Z then Some 0 else None end
  end.
Fixpoint digits (n : Z) (s : list Z) : Z :=
  match s with
  | [] => n
  | x :: s => if ((48 <=? x) && (x <=? 57))%Z then digits (10 * n + (x - 48)) s else n
  end.
Fixpoint atoi (s : list Z) : Z :=
  match s with
  | [] => 0
  | x :: s =>
      if (x =? 32)%Z || ((9 <=? x) && (x <=? 13))%Z then atoi s
      else if (x =? 45)%Z then (- digits 0 s)%Z
      else if (x =? 43)%Z then digits 0 s
      else digits 0 (x :: s)
  end.

(** The loop over the lines of the file: the first line for this node is proposed. *)
Fixpoint echo_lines (ls : list (list Z)) (c : paxos_ctx) : res paxos_ctx :=
  match ls with
  | [] => Ok c
  | line :: ls =>
      let line := match strrchr 10 line with Some k => take k line | None => line end in
      match strchr 32 line with
      | None => echo_lines ls c
      | Some k => if (atoi (take k line) =? node_id)%Z then paxos_echo c (drop (S k) line) else echo_lines ls c
      end
  end.

(** [echo_file]: whether there is one, its time from [stat], its lines from [fgets]. *)
Definition paxos_try_echo (path : bool) (st_mtim : option Z) (file : option (list (list Z))) (c : paxos_ctx) : res paxos_ctx :=
  match path, st_mtim with
  | true, Some t =>
      if (t =? echo_file_chksum c)%Z then Ok c
      else match file with Some ls => echo_lines ls (with_chksum c t) | None => Ok (with_chksum c t) end
  | _, _ => Ok c
  end.

(** * The start *)

(** [char ip[64] = "127.0.0.1"; strncpy(ip, addr, n)], and the string then in [ip]. *)
Definition localhost : list Z := [49; 50; 55; 46; 48; 46; 48; 46; 49]%Z.
Definition strncpy_ip (address : list Z) (n : nat) : res (list Z) :=
  if decide (n <= 64) then
    let ip := take n address ++ drop n (localhost ++ replicate 55 0%Z) in
    match strchr 0 ip with Some k => Ok (take k ip) | None => Stop OutOfBounds end
  else Stop OutOfBounds.

(** The loop over the configured nodes; [fds]: whether the socket could be made. *)
Fixpoint init_nodes (self : list Z) (fds : list bool) (cfg : list (list Z)) (ns : list paxos_node) (n : Z)
    : res (bool * list paxos_node * Z) :=
  match cfg with
  | [] => Ok (true, ns, n)
  | a :: cfg =>
      if decide (a = self) then init_nodes self fds cfg ns n
      else
        match strchr 58 a with
        | None => Stop AssertFailed
        | Some k =>
            ip ← strncpy_ip a k;
            if default true (head fds) then
              n ← ck (n + 1);
              init_nodes self (tail fds) cfg (ns ++ [Node 0 (ip, drop (S k) a) []]) n
            else Ok (false, ns, n)
        end
  end.

(** [st_mtim]: [None] without a file, [Some None] when [stat] fails. *)
Definition paxos_init (self : list Z) (cfg : list (list Z)) (fds : list bool) (st_mtim : option (option Z))
    : res (Z * paxos_ctx) :=
  h ← INIT_LIST_HEAD 0 {[ 0 := Elem None None None ]};
  let c := Ctx 1 (Acc 0 0 sdsempty) (Pro 0 sdsempty (Answers h ∅) 0 0) [] 0 [] 0 in
  match st_mtim with
  | Some None => Ok ((-1)%Z, c)
  | _ =>
      let c := with_chksum c (default 0%Z (mjoin st_mtim)) in
      '(ok, ns, n) ← init_nodes self fds cfg [] 0;
      if (ok : bool) then
        n ← ck (n + 1);
        Ok (0%Z, Ctx (instance_id c) (acc c) (pro c) ns n (o_list c) (echo_file_chksum c))
      else Ok ((-1)%Z, Ctx (instance_id c) (acc c) (pro c) ns n (o_list c) (echo_file_chksum c))
  end.
End node.
