(* ===== verification/PaxosNode.v ===== *)
(** What a Paxos node does: its answers are a list sorted by [list_sort], its acceptor keeps its
    promises, its proposer takes over the value of the highest answer. *)
From S2P Require Import Prelude SortSpec LinkSort LinkRig KernelSort Paxos.

(** * [list_del] as the Linux kernel has it *)
#[export] Instance kernel_del : KlistDel := fun x h =>
  e ← load h (Some x);
  h ← set_prev h (next e) (prev e);
  set_next h (prev e) (next e).

Lemma back_app h p l1 l2 : back h p (l1 ++ l2) <-> back h p l1 /\ back h (match last l1 with Some y => Some y | None => p end) l2.
Proof.
  revert p. induction l1 as [|x l1 IH]; intros p; cbn [app back]; [tauto|].
  rewrite IH, last_cons. destruct (last l1); tauto.
Qed.

(** The node after and the node before a given one in a circle. *)
Lemma linked_around h a l1 x l2 : linked h true true (a :: l1 ++ x :: l2) ->
  nxt h x = Some (hd_or l2 (Some a)) /\ prv h x = Some (last (a :: l1)).
Proof.
  intros [Ln Lp]. specialize (Lp eq_refl). cbn [head] in Ln. rewrite app_comm_cons in Ln, Lp.
  apply chain_app in Ln as [_ [Ln _]]. apply back_app in Lp as [_ [Lp _]]. split; [done|].
  rewrite Lp. destruct (last (a :: l1)) eqn:E; [done|]. by apply last_None in E.
Qed.

#[export] Instance kernel_del_law : KlistDelLaw kernel_del.
Proof.
  intros a x l1 l2 h Lk ND. destruct (linked_around _ _ _ _ _ Lk) as [Nx Px]. destruct Lk as [Ln Lp].
  specialize (Lp eq_refl). cbn [head] in Ln. rewrite app_comm_cons in Ln, Lp, ND |- *.
  destruct (last (a :: l1)) as [t|] eqn:Ht; [|by apply last_None in Ht]. pose proof Ht as Ht'. apply last_Some in Ht as [m Em].
  assert (Hb : exists y, hd_or l2 (Some a) = Some y /\ y <> x /\ (forall z, z ∈ l1 ++ tail l2 -> z <> y) /\
      back h (Some x) l2 /\ is_Some (h !! y)).
  { apply back_app in Lp as [_ [_ Lp]]. rewrite NoDup_app in ND. destruct ND as (ND1 & Hd & [Hx2 ND2]%NoDup_cons).
    destruct l2 as [|y l2]; cbn [hd_or tail app].
    - exists a. split; [done|]. split; [intros ->; apply (Hd x); by left|]. apply NoDup_cons in ND1 as [Ha _].
      split; [rewrite app_nil_r; by intros z Hz ->|]. split; [done|]. apply (nxt_is_Some _ _ (hd_or (l1 ++ [x]) (Some a))). apply Ln.
    - exists y. split; [done|]. split; [intros ->; apply Hx2; by left|]. split.
      + apply NoDup_cons in ND2 as [Hy _]. intros z [Hz|Hz]%elem_of_app ->; [apply (Hd y); [by right|right; by left]|done].
      + split; [done|]. apply chain_app in Ln as [_ [_ [Ln _]]]. by eapply nxt_is_Some. }
  destruct Hb as (y & Eb & Hyx & Hy & Bx & Hyh). rewrite Eb in Nx.
  rewrite NoDup_app in ND. destruct ND as (ND1 & Hd & [Hx2 ND2]%NoDup_cons).
  assert (Htx : t <> x). { intros ->. apply (Hd x); [rewrite Em; apply elem_of_app; right; by left|by left]. }
  destruct (set_prev_spec h y (Some t) Hyh) as (h1 & E1 & A1 & P1 & N1 & V1 & F1).
  assert (Hth : is_Some (h !! t)).
  { rewrite Em, <- (assoc_L app) in Ln. apply chain_app in Ln as [_ [Ln _]]. by eapply nxt_is_Some. }
  assert (Hth1 : is_Some (h1 !! t)) by (destruct (decide (t = y)) as [->|]; [|by rewrite F1]; unfold prv in A1; destruct (h1 !! y); [by eexists|done]).
  destruct (set_next_spec h1 t (Some y) Hth1) as (h2 & E2 & A2 & N2 & P2 & V2 & F2).
  exists h2. split.
  { unfold list_del, kernel_del. pose proof Nx as (e & Ee & Ene)%nxt_load.
    assert (Epe : prev e = Some t) by (unfold prv in Px; rewrite Ee in Px; by injection Px).
    cbn [load]. rewrite Ee. cbn [mbind res_bind]. rewrite Ene, Epe, E1. cbn [mbind res_bind]. exact E2. }
  assert (Ht : t ∉ m /\ t ∉ l2).
  { rewrite Em, NoDup_app in ND1. destruct ND1 as (_ & Hm & _). split; [intros Hin; apply (Hm t Hin); by left|].
    intros Hin. apply (Hd t); [rewrite Em; apply elem_of_app; right; by left|by right]. }
  destruct Ht as [Htm Htl]. split; [split|].
  - cbn [head app]. rewrite ?app_comm_cons. apply chain_app in Ln as [L1 [_ L2]]. apply chain_app. rewrite Em in *.
    apply chain_app in L1 as [L1 _]. split; [apply chain_app; split; [|cbn; by rewrite A2, Eb]|].
    + apply chain_frame with h; [|done]. intros z Hz. rewrite N2, N1; [done|by intros ->].
    + apply chain_frame with h; [|done]. intros z Hz. rewrite N2, N1; [done|by intros ->].
  - intros _. rewrite ?app_comm_cons. apply back_app in Lp as [L1 _]. apply back_app. rewrite Ht'.
    destruct l2 as [|y2 l2]; cbn [hd_or tail] in *.
    + injection Eb as <-. rewrite app_nil_r in *. split; [|done]. destruct L1 as [_ L1]. split; [by rewrite P2, A1, Ht'|].
      apply back_frame with h; [|done]. intros z Hz. rewrite P2, P1; [done|auto].
    + injection Eb as <-. destruct Bx as [_ Bx]. split; [|split; [by rewrite P2|]].
      * rewrite last_app_cons in L1. rewrite last_app_cons. rewrite last_cons_cons in L1.
        apply back_frame with h; [|done]. intros z [->|Hz]%elem_of_cons.
        -- rewrite P2, P1; [done|]. intros ->. apply (Hd y2); [by left|right; by left].
        -- rewrite P2, P1; [done|]. apply Hy, elem_of_app. by left.
      * apply back_frame with h; [|done]. intros z Hz. rewrite P2, P1; [done|]. apply Hy, elem_of_app. by right.
  - split; [intros z; by rewrite V2|]. intros z Hz. rewrite ?app_comm_cons in Hz. rewrite F2, F1; [done|..].
    + intros ->. apply Hz. destruct l2 as [|y2 l2]; injection Eb as <-; [by left|].
      apply elem_of_app. right. right. by left.
    + intros ->. apply Hz. rewrite Em. apply elem_of_app. left. apply elem_of_app. right. by left.
Qed.

(** * The answers *)

(** The answers in memory are those of the list. *)
Definition answers_are (a : answers) (l : list (Z * list Z)) : Prop := exists L,
  linked (links a) true true (0 :: L) /\ NoDup (0 :: L) /\ Forall2 (fun x m => texts a !! x = Some m) L l.

Lemma linked_in_dom h l : linked h true true l -> forall x, x ∈ l -> x ∈ dom h.
Proof. intros [Ln _] x. by apply chain_in_dom with (1 := Ln). Qed.

Lemma linked_frame h h' l : (forall x, x ∈ l -> h' !! x = h !! x) -> linked h true true l -> linked h' true true l.
Proof.
  intros Hf [Ln Lp]. split; [|intros E; specialize (Lp E)].
  - apply chain_frame with h; [|done]. intros x Hx. unfold nxt. by rewrite Hf.
  - apply back_frame with h; [|done]. intros x Hx. unfold prv. by rewrite Hf.
Qed.

Section answers.
Context {K : Klist} {KL : KlistLaws K} {D : KlistDel} {DL : KlistDelLaw D} {E : KlistEmpty} {EL : KlistEmptyLaw E}.

Lemma free_answers_ok L a : linked (links a) true true (0 :: L) -> NoDup (0 :: L) ->
  (forall x, x ∈ L -> is_Some (texts a !! x)) -> exists a', free_answers L a = Ok a' /\ answers_are a' [].
Proof.
  revert a. induction L as [|x L IH]; intros a Lk ND Ht; cbn [free_answers].
  { exists a. split; [done|]. exists []. split; [done|]. split; [done|constructor]. }
  destruct (list_del_law 0 x [] L _ Lk ND) as (h & Eh & Lh & _). rewrite Eh. cbn [mbind res_bind].
  destruct (Ht x ltac:(by left)) as [m ->]. apply NoDup_cons in ND as [H0 [Hx ND]%NoDup_cons].
  apply IH; cbn [links texts].
  - apply linked_frame with h; [|done]. intros y [->|Hy]%elem_of_cons; apply lookup_delete_ne; [|by intros ->].
    intros ->. apply H0. by left.
  - apply NoDup_cons. split; [|done]. intros H. apply H0. by right.
  - intros y Hy. rewrite lookup_delete_ne by (by intros ->). apply Ht. by right.
Qed.

Lemma prepare_answers_ok a l : answers_are a l ->
  exists L a', list_for_each_safe 0 (links a) = Ok L /\ free_answers L a = Ok a' /\ answers_are a' [].
Proof.
  intros (L & Lk & ND & F). destruct (free_answers_ok L a Lk ND) as (a' & E' & H').
  { intros x Hx. apply list_elem_of_lookup in Hx as [i Hi]. destruct (Forall2_lookup_l _ _ _ _ _ F Hi) as (m & _ & Hm). by eexists. }
  exists L, a'. split; [|done]. by apply (for_each_law 0 L).
Qed.

Lemma add_answer_ok a l t v : answers_are a l -> exists a', add_answer t v a = Ok a' /\ answers_are a' (l ++ [(t, v)]).
Proof.
  intros (L & Lk & ND & F). unfold add_answer. set (x := fresh (dom (links a))).
  assert (Hx : x ∉ dom (links a)) by apply is_fresh.
  assert (Hnew : x ∉ 0 :: L) by (intros H; by apply Hx, (linked_in_dom _ _ Lk)).
  destruct (add_tail_law x 0 L (<[x := Elem None None None]> (links a))) as (h & Eh & Lh & _).
  - apply linked_frame with (links a); [|done]. intros y Hy. apply lookup_insert_ne. by intros ->.
  - by apply NoDup_cons.
  - rewrite lookup_insert_eq. by eexists.
  - rewrite Eh. cbn [mbind res_bind]. eexists. split; [done|]. exists (L ++ [x]). cbn [links texts]. split; [done|]. split.
    + rewrite app_comm_cons. apply NoDup_app. split; [done|]. split; [|apply NoDup_singleton].
      intros y Hy Hy'. apply list_elem_of_singleton in Hy' as ->. done.
    + apply Forall2_app; [|constructor; [by rewrite lookup_insert_eq|constructor]].
      apply Forall2_same_length_lookup. apply Forall2_same_length_lookup in F as [Fl F]. split; [done|].
      intros i y m Hy Hm. rewrite lookup_insert_ne; [by apply (F i)|].
      intros ->. apply Hnew. right. by eapply list_elem_of_lookup_2.
Qed.

(** Sorting the addresses sorts the answers. *)
Lemma Forall2_sorts {A B} (R : A -> B -> Prop) (f : A -> B) (ka : A -> Z) (kb : B -> Z) l k (m : list B) :
  (forall x y, x ∈ l -> R x y -> y = f x /\ kb y = ka x) -> Forall2 R l m -> sorts ka true l k ->
  m = f <$> l /\ sorts kb true m (f <$> k).
Proof.
  intros HR F [P S St].
  assert (Em : m = f <$> l /\ forall x, x ∈ l -> kb (f x) = ka x).
  { clear P S St. induction F as [|x y l m Hxy F IH]; [split; [done|]; intros x Hx; by apply not_elem_of_nil in Hx|].
    destruct (HR x y ltac:(by left) Hxy) as [-> Hk]. destruct IH as [-> IH]; [intros; apply HR; [by right|done]|].
    split; [done|]. intros z [->|Hz]%elem_of_cons; auto. }
  destruct Em as [-> Hk]. split; [done|].
  assert (Hf : forall j c, (forall x, x ∈ j -> x ∈ l) ->
    filter (fun y => kb y = c) (map f j) = map f (filter (fun x => ka x = c) j)).
  { intros j c. induction j as [|x j IH]; intros Hj; [done|]. cbn [map]. rewrite !filter_cons, Hk by (apply Hj; by left).
    rewrite IH by (intros; apply Hj; by right). by destruct (decide (ka x = c)). }
  split.
  - by rewrite P.
  - assert (Hin : forall x, x ∈ k -> x ∈ l) by (intros x; by rewrite P). clear P St Hf. induction S as [|x k S IH Hx]; cbn; [constructor|].
    constructor; [apply IH; intros; apply Hin; by right|]. apply Forall_fmap. rewrite Forall_forall in Hx |- *. intros y Hy.
    unfold compose, le_key in *. rewrite !Hk by (apply Hin; (by left) || by right). by apply Hx.
  - intros _ c. rewrite (Hf k), (Hf l), (St eq_refl); [done|done|intros x; by rewrite P].
Qed.

(** The order of the answers: the highest [t] first, equal ones as they arrived. *)
Definition by_t (m : Z * list Z) : Z := (- m.1)%Z.
Notation sorted_answers l k := (sorts by_t true l k).

Lemma sort_answers_ok a l : answers_are a l -> l <> [] ->
  exists a' k best, sort_answers a = Ok (a', best) /\ sorted_answers l k /\ head k = Some best /\ answers_are a' k.
Proof.
  intros (L & Lk & ND & F) Hl. unfold sort_answers.
  set (m x := default (0%Z, []) (texts a !! x)). set (key x := by_t (m x)).
  assert (Hm : forall x, x ∈ L -> texts a !! x = Some (m x)).
  { intros x [i Hi]%list_elem_of_lookup. destruct (Forall2_lookup_l _ _ _ _ _ F Hi) as (y & _ & Hy). unfold m. by rewrite Hy. }
  assert (Hlen : length L < S (size (links a))).
  { assert (Hsub : list_to_set (0 :: L) ⊆ dom (links a)).
    { intros x Hx. rewrite elem_of_list_to_set in Hx. by apply (linked_in_dom _ _ Lk). }
    apply subseteq_size in Hsub. rewrite size_dom, size_list_to_set in Hsub by done. cbn in Hsub. lia. }
  destruct (list_sort_ok (propose_ok_list_comp_by_t (texts a)) key (val (links a)) L (S (size (links a))) (links a) 0) as (h & J & w & Es & HJ & Lj & _).
  - intros h x y Hx Hy _ _. exists (Z.b2z (fst (m x) <? fst (m y)))%Z. cbn. rewrite !Hm by done. split; [done|].
    unfold goes_right, key, by_t. destruct (Z.ltb_spec (m x).1 (m y).1), (Z.ltb_spec (- (m y).1) (- (m x).1)); cbn; done || lia.
  - exact Lk.
  - exact ND.
  - done.
  - exact Hlen.
  - rewrite Es. cbn [mbind res_bind].
    destruct (Forall2_sorts (fun x y => texts a !! x = Some y) m key by_t L J l) as [-> Hs]; [|done|done|].
    { intros x y Hx Hy. rewrite (Hm x Hx) in Hy. injection Hy as <-. done. }
    destruct HJ as [P _ _]. destruct J as [|x J]; [by apply Permutation_nil_r in P; subst L|].
    pose proof (linked_next _ _ _ _ Lj) as [(e & Ee & Ene)%nxt_load _]. cbn [load]. rewrite Ee. cbn [mbind res_bind].
    rewrite Ene. cbn [hd_or]. rewrite (Hm x) by (rewrite P; by left).
    exists (Answers h (texts a)), (m <$> x :: J), (m x). split; [done|]. split; [done|]. split; [done|].
    exists (x :: J). split; [done|]. split; [by rewrite <- P|]. cbn [texts].
    apply Forall2_fmap_r, Forall_Forall2_diag, Forall_forall. intros y Hy. apply Hm. by rewrite P.
Qed.
End answers.

Notation sorted_answers l k := (sorts by_t true l k).

Lemma sorted_highest l k best : sorted_answers l k -> head k = Some best ->
  best ∈ l /\ forall m, m ∈ l -> (m.1 <= best.1)%Z.
Proof.
  intros [P S _] Hh. destruct k as [|b k]; [done|]. injection Hh as ->. split; [rewrite P; by left|].
  intros m. rewrite P. intros [->|Hm]%elem_of_cons; [done|]. apply StronglySorted_inv in S as [_ Hb].
  rewrite Forall_forall in Hb. specialize (Hb m Hm). unfold le_key, by_t in Hb. lia.
Qed.

(** * The operations of a node *)
Section node.
Context {SL : SdsLib} {SLaws : SdsLaws SL} {K : Klist} {KL : KlistLaws K} {D : KlistDel} {DL : KlistDelLaw D}
  {E : KlistEmpty} {EL : KlistEmptyLaw E} {PB : Protobuf} (node_id : Z).

(** The nodes after a message was queued for the chosen ones. *)
Definition asked (c : paxos_ctx) (f : Z) (chosen : paxos_node -> bool) (ns : list paxos_node) : list paxos_node :=
  (fun n => if chosen n then queue n (request node_id c f n) else n) <$> ns.

Definition promised (n : paxos_node) : bool := negb (Z.land (flags n) PAXOS_PROPOSE_OK =? 0)%Z.

(** A new round: the next number, no answers, a message to every peer; what was accepted is forgotten. *)
Record new_round (c c' : paxos_ctx) : Prop := {
  nr_acc : acc c' = Acc (t_max (acc c)) 0 (sdsclear (value_store (acc c)));
  nr_try : t_try (pro c') = u64 (t_try (pro c) + 1);
  nr_value : value_try (pro c') = value_try (pro c);
  nr_answers : answers_are (propose_ok_list (pro c')) [];
  nr_counts : n_propose_ok (pro c') = 0%Z /\ n_propose_success (pro c') = 0%Z;
  nr_nodes : nodes c' = asked c' 1 (fun _ => true) (nodes c);
  nr_rest : o_list c' = [] /\ n_nodes c' = n_nodes c /\ instance_id c' = instance_id c;
}.

Lemma paxos_prepare_ok c l : answers_are (propose_ok_list (pro c)) l ->
  exists c', paxos_prepare node_id c = Ok c' /\ new_round c c'.
Proof.
  intros Ha. destruct (prepare_answers_ok _ _ Ha) as (L & a & E1 & E2 & Ha'). unfold paxos_prepare.
  rewrite E1. cbn [mbind res_bind]. rewrite E2. cbn [mbind res_bind]. eexists. split; [done|]. by split.
Qed.

(** The proposer after an answer. *)
Record answered (c c' : paxos_ctx) (ns : list paxos_node) (l1 : list (Z * list Z)) : Prop := {
  an_acc : acc c' = acc c;
  an_try : t_try (pro c') = t_try (pro c);
  an_ok : n_propose_ok (pro c') = (n_propose_ok (pro c) + 1)%Z;
  an_success : n_propose_success (pro c') = n_propose_success (pro c);
  an_rest : o_list c' = o_list c /\ n_nodes c' = n_nodes c /\ instance_id c' = instance_id c;
  an_majority : if (n_nodes c ÷ 2 <? n_propose_ok (pro c) + 1)%Z
    then exists l2 best, sorted_answers l1 l2 /\ head l2 = Some best /\ answers_are (propose_ok_list (pro c')) l2 /\
      value_try (pro c') = (if (0 <? best.1)%Z then sdscpylen (value_try (pro c)) best.2 else value_try (pro c)) /\
      nodes c' = asked c' 3 promised ns
    else answers_are (propose_ok_list (pro c')) l1 /\ value_try (pro c') = value_try (pro c) /\ nodes c' = ns;
}.

Lemma answer_ok c k n from m l : nodes c !! k = Some n -> answers_are (propose_ok_list (pro c)) l ->
  flag m = 2%Z -> is_int (n_propose_ok (pro c) + 1) ->
  exists c', node_message node_id k c (from, Some m) = Ok c' /\
    answered c c' (<[k := Node (Z.lor (flags n) 2) from (node_out n)]> (nodes c)) (l ++ [(proposalid m, value m)]).
Proof.
  intros Hn Ha Hf Hi. unfold node_message. rewrite Hn. cbn [fst snd]. rewrite Hf. cbn [Z.eqb Pos.eqb]. rewrite andb_false_r.
  cbn [Z.eqb Pos.eqb pro with_nodes flags servaddr node_out nodes].
  destruct (add_answer_ok _ _ (proposalid m) (value m) Ha) as (a & Ea & Ha'). rewrite Ea. cbn [mbind res_bind].
  rewrite ck_ok by done. cbn [mbind res_bind]. change (n_nodes (with_pro _ _)) with (n_nodes c).
  destruct (n_nodes c ÷ 2 <? n_propose_ok (pro c) + 1)%Z eqn:Hq.
  - destruct (sort_answers_ok a _ Ha') as (a' & l2 & best & Es & Hs & Hb & Ha2); [by destruct l|].
    rewrite Es. cbn [mbind res_bind]. eexists. split; [done|]. split; try done. rewrite Hq.
    exists l2, best. split_and!; try done. unfold asked, paxos_propose, send_all. cbn [nodes with_nodes with_pro].
    by rewrite list_insert_insert_eq.
  - eexists. split; [done|]. split; try done. rewrite Hq. split_and!; try done.
    cbn [nodes with_nodes with_pro]. by rewrite list_insert_insert_eq.
Qed.

(** An acknowledgement is counted; the majority's worth of them ends the round. *)
Lemma ack_ok c k n from m : nodes c !! k = Some n -> flag m = 4%Z -> has_preacceptid m = true ->
  is_int (n_propose_success (pro c) + 1) ->
  exists c', node_message node_id k c (from, Some m) = Ok c' /\
    acc c' = acc c /\ o_list c' = o_list c /\ n_nodes c' = n_nodes c /\
    pro c' = Pro (t_try (pro c)) (value_try (pro c)) (propose_ok_list (pro c)) (n_propose_ok (pro c)) (n_propose_success (pro c) + 1) /\
    let ns := <[k := Node (flags n) from (node_out n)]> (nodes c) in
    nodes c' = (if (n_nodes c ÷ 2 <? n_propose_success (pro c) + 1)%Z then asked c' 5 (fun _ => true) ns else ns).
Proof.
  intros Hn Hf Hp Hi. unfold node_message. rewrite Hn. cbn [fst snd]. rewrite Hf, Hp. cbn [andb Z.eqb Pos.eqb].
  cbn [pro with_nodes]. rewrite ck_ok by done. cbn [mbind res_bind]. change (n_nodes (with_pro _ _)) with (n_nodes c).
  destruct (n_nodes c ÷ 2 <? n_propose_success (pro c) + 1)%Z; by eexists.
Qed.

(** Other datagrams only leave their address. *)
Lemma other_ok c k n from m : nodes c !! k = Some n ->
  (forall p, m = Some p -> flag p <> 2%Z /\ (has_preacceptid p = true -> flag p <> 4%Z)) ->
  node_message node_id k c (from, m) = Ok (with_nodes c (<[k := Node (flags n) from (node_out n)]> (nodes c))).
Proof.
  intros Hn Hm. unfold node_message. rewrite Hn. cbn [fst snd]. destruct m as [p|]; [|done].
  destruct (Hm p eq_refl) as [H2 H4]. destruct (has_preacceptid p); cbn [andb].
  - rewrite (proj2 (Z.eqb_neq _ _) (H4 eq_refl)). by rewrite (proj2 (Z.eqb_neq _ _) H2).
  - by rewrite (proj2 (Z.eqb_neq _ _) H2).
Qed.

(** ** The acceptor *)

Definition readable (s : sds) : Prop := len s <= length (bytes s).

Lemma readable_cpy s t : readable (sdscpylen s t).
Proof.
  destruct (sdscpylen_law s t) as [H1 H2]. unfold readable. rewrite H2. rewrite <- H1 at 1. unfold str. rewrite length_take. lia.
Qed.

Lemma readable_clear s : readable (sdsclear s).
Proof. unfold readable. rewrite (proj1 (sdsclear_law s)). lia. Qed.

Lemma str_clear s : str (sdsclear s) = [].
Proof. unfold str. by rewrite (proj1 (sdsclear_law s)). Qed.

Lemma reply_inv c f pre from (again : bool) c' r : readable (value_store (acc c)) -> reply node_id c f pre from again = Ok (c', r) ->
  r = Some (PMsg (instance_id c) node_id (t_store (acc c)) f pre (str (value_store (acc c)))) /\
  acc c' = acc c /\ pro c' = pro c /\ nodes c' = nodes c /\ (again = false -> c' = c).
Proof.
  intros Hr. unfold reply, pack. cbn [value value_of v_of v_data v_len]. rewrite !decide_True by done.
  destruct (decide _); [|done]. cbn [mbind res_bind]. intros [= <- <-]. by destruct again.
Qed.

(** Every message about the string has room in [buf]. *)
Definition fits (c : paxos_ctx) (s : list Z) : Prop :=
  forall t f pre, packed_size (PMsg (instance_id c) node_id t f pre s) <= buf_size.

Lemma reply_ok c f pre from again : readable (value_store (acc c)) -> fits c (str (value_store (acc c))) ->
  exists x, reply node_id c f pre from again = Ok x.
Proof.
  intros Hr Hf. unfold reply, pack. cbn [value value_of v_of v_data v_len]. rewrite 3!decide_True by done. by eexists.
Qed.

(** What one datagram does to the acceptor, and its reply. *)
Inductive accepts (c : paxos_ctx) (p : packet) : acceptor -> option packet -> Prop :=
| acc_promise : flag p = 1%Z -> (t_max (acc c) < proposalid p)%Z ->
    accepts c p (Acc (proposalid p) (t_store (acc c)) (value_store (acc c)))
      (Some (PMsg (instance_id c) node_id (t_store (acc c)) 2 false (str (value_store (acc c)))))
| acc_accept : flag p = 3%Z -> proposalid p = t_max (acc c) ->
    accepts c p (Acc (t_max (acc c)) (proposalid p) (sdscpylen (value_store (acc c)) (value p)))
      (Some (PMsg (instance_id c) node_id (proposalid p) 4 true (value p)))
| acc_learn : flag p = 5%Z -> accepts c p (Acc (t_max (acc c)) (t_store (acc c)) (sdscpylen (value_store (acc c)) (value p))) None
| acc_ignore : flag p <> 5%Z -> ~ (flag p = 1%Z /\ (t_max (acc c) < proposalid p)%Z) ->
    ~ (flag p = 3%Z /\ proposalid p = t_max (acc c)) -> accepts c p (acc c) None.

Lemma acceptor_message_inv c from p again c' r : readable (value_store (acc c)) ->
  acceptor_message node_id c from (Some p) again = Ok (c', r) -> accepts c p (acc c') r /\
    pro c' = pro c /\ nodes c' = nodes c /\ (again = false -> o_list c' = o_list c).
Proof.
  intros Hr. unfold acceptor_message. destruct (Z.eqb_spec (flag p) 5) as [H5|H5].
  { intros [= <- <-]. split; [by apply acc_learn|]. done. }
  destruct (_ && _) eqn:E1.
  { apply andb_true_iff in E1 as [Ht%Z.ltb_lt Hf%Z.eqb_eq]. intros Er.
    apply reply_inv in Er as (-> & Ea & Ep & En & Ec); [|done]. rewrite Ea.
    cbn [acc with_acc value_store t_store instance_id]. split; [by apply acc_promise|].
    split; [done|]. split; [done|]. intros Hag. exact (f_equal o_list (Ec Hag)). }
  destruct ((_ =? _)%Z && _) eqn:E3.
  { apply andb_true_iff in E3 as [Ht%Z.eqb_eq Hf%Z.eqb_eq]. intros Er.
    apply reply_inv in Er as (-> & Ea & Ep & En & Ec); [|apply readable_cpy]. rewrite Ea. split.
    - cbn [acc with_acc value_store t_store instance_id]. rewrite (proj1 (sdscpylen_law _ _)). by apply acc_accept.
    - split; [done|]. split; [done|]. intros Hag. exact (f_equal o_list (Ec Hag)). }
  intros [= <- <-]. split; [|done]. apply acc_ignore; [done|intros [Hf Ht]|intros [Hf Ht]].
  - rewrite Hf, (proj2 (Z.ltb_lt _ _) Ht) in E1. done.
  - by rewrite Hf, Ht, Z.eqb_refl in E3.
Qed.

Lemma acceptor_message_ok c from p again : readable (value_store (acc c)) -> fits c (str (value_store (acc c))) -> (flag p = 3%Z -> fits c (value p)) ->
  exists x, acceptor_message node_id c from (Some p) again = Ok x.
Proof.
  intros Hr Hs Hv. unfold acceptor_message. destruct (flag p =? 5)%Z; [by eexists|].
  destruct (_ && _); [by apply reply_ok|]. destruct (_ && _) eqn:E3; [|by eexists].
  apply andb_true_iff in E3 as [_ Hf%Z.eqb_eq].
  apply reply_ok; cbn [acc with_acc value_store]; [apply readable_cpy|]. rewrite (proj1 (sdscpylen_law _ _)). by apply Hv.
Qed.

(** ** Runs of a node, one datagram at a time *)
Inductive act : Type :=
| ADatagram (from : addr) (m : option packet) (again : bool)
| APeer (k : nat) (d : addr * option packet)
| AWait (again : list bool) (io : list (bool * list bool))
| AEcho (s : list Z).

(** The reply, if the act is a datagram that has one. *)
Definition do_act (c : paxos_ctx) (a : act) : res (paxos_ctx * option packet) :=
  match a with
  | ADatagram from m again => acceptor_message node_id c from m again
  | APeer k d => c ← node_message node_id k c d; Ok (c, None)
  | AWait again io => '(c, _) ← epoll_before_wait again io c; Ok (c, None)
  | AEcho s => c ← paxos_echo node_id c s; Ok (c, None)
  end.

Fixpoint do_acts (c : paxos_ctx) (l : list act) : res (paxos_ctx * list (option packet)) :=
  match l with
  | [] => Ok (c, [])
  | a :: l => '(c, r) ← do_act c a; '(c, log) ← do_acts c l; Ok (c, r :: log)
  end.

Lemma node_message_acc k c d c' : node_message node_id k c d = Ok c' -> acc c' = acc c /\ o_list c' = o_list c.
Proof.
  unfold node_message. destruct (nodes c !! k) as [n|]; [|done]. destruct d.2 as [m|]; [|by intros [= <-]].
  destruct (_ && _).
  { intros (s & _ & Hs)%bind_Ok_inv. destruct (_ <? s)%Z in Hs; by injection Hs as <-. }
  destruct (flag m =? 2)%Z; [|by intros [= <-]]. intros (a & _ & (s & _ & Hs)%bind_Ok_inv)%bind_Ok_inv.
  destruct (_ <? s)%Z in Hs; [|by injection Hs as <-]. apply bind_Ok_inv in Hs as ([a' m'] & _ & Hs). by injection Hs as <-.
Qed.

Lemma paxos_prepare_acc c c' : paxos_prepare node_id c = Ok c' ->
  acc c' = Acc (t_max (acc c)) 0 (sdsclear (value_store (acc c))).
Proof. unfold paxos_prepare. intros (l & _ & (a & _ & Hs)%bind_Ok_inv)%bind_Ok_inv. by injection Hs as <-. Qed.

Lemma epoll_before_wait_acc again io c c' out : epoll_before_wait again io c = Ok (c', out) -> acc c' = acc c /\ pro c' = pro c.
Proof.
  unfold epoll_before_wait, paxos_ctx_write. intros ([c1 out1] & E1 & ([ns out2] & _ & Hs)%bind_Ok_inv)%bind_Ok_inv.
  apply bind_Ok_inv in E1 as ([rest out0] & _ & E1). injection E1 as <- <-. by injection Hs as <- <-.
Qed.

(** An act never lowers [t_max], and every reply is due to [accepts]. *)
Lemma do_act_acceptor c a c' r : readable (value_store (acc c)) -> do_act c a = Ok (c', r) ->
  readable (value_store (acc c')) /\ (t_max (acc c) <= t_max (acc c'))%Z /\
  (forall p, r = Some p -> exists from m again, a = ADatagram from (Some m) again /\ accepts c m (acc c') (Some p)).
Proof.
  intros Hr Ha. destruct a as [from m again|k d|again io|s]; cbn [do_act] in Ha.
  - destruct m as [m|]; [|injection Ha as <- <-; done].
    destruct (acceptor_message_inv c from m again c' r Hr Ha) as [HA _].
    split; [|split].
    + inversion HA as [? ? Ea|? ? Ea|? Ea|? ? ? Ea]; cbn; [exact Hr|apply readable_cpy|apply readable_cpy|exact Hr].
    + inversion HA; cbn; lia.
    + intros p ->. by exists from, m, again.
  - apply bind_Ok_inv in Ha as (c1 & E1 & Ha). injection Ha as <- <-. rewrite (proj1 (node_message_acc _ _ _ _ E1)). done.
  - apply bind_Ok_inv in Ha as ([c1 out] & E1 & Ha). injection Ha as <- <-. rewrite (proj1 (epoll_before_wait_acc _ _ _ _ _ E1)). done.
  - apply bind_Ok_inv in Ha as (c1 & E1 & Ha). injection Ha as <- <-. rewrite (paxos_prepare_acc _ _ E1). cbn.
    split; [apply readable_clear|]. split; [lia|done].
Qed.

Lemma do_acts_t_max l : forall c c' log, readable (value_store (acc c)) -> do_acts c l = Ok (c', log) ->
  length log = length l /\ forall i p, log !! i = Some (Some p) -> exists from m again,
    l !! i = Some (ADatagram from (Some m) again) /\ (t_max (acc c) <= proposalid m)%Z /\
    ((flag p = 2 /\ t_max (acc c) < proposalid m) \/ (flag p = 4 /\ proposalid p = proposalid m))%Z.
Proof.
  induction l as [|a l IH]; intros c c' log Hr Hd; cbn [do_acts] in Hd.
  { injection Hd as <- <-. split; [done|]. intros i p Hi. by rewrite lookup_nil in Hi. }
  apply bind_Ok_inv in Hd as ([c1 r] & E1 & Hd). apply bind_Ok_inv in Hd as ([c2 log2] & E2 & Hd). injection Hd as <- <-.
  destruct (do_act_acceptor c a c1 r Hr E1) as (Hr1 & Hm & Hp). destruct (IH c1 _ _ Hr1 E2) as [Hl IH']. split; [cbn; by rewrite Hl|].
  intros [|i] p Hi; cbn in Hi.
  - injection Hi as ->. destruct (Hp p eq_refl) as (from & m & again & -> & HA). exists from, m, again. split; [done|].
    inversion HA; subst; cbn in *; lia.
  - destruct (IH' i p Hi) as (from & m & again & El & H1 & H2). exists from, m, again. split; [done|]. split; [lia|].
    destruct H2 as [[? ?]|?]; [left; split; [done|lia]|by right].
Qed.
End node.

(** * Properties of a node *)

(** C3: an acceptor keeps its promises.  In any run of a node (datagrams from others, answers to its own
    proposals, new proposals of its own, turns of the loop), after it answered a prepare message of proposal [t] with a
    promise, it accepts no proposal below [t] and promises none that is not above [t]. *)
Theorem acceptor_keeps_promises `{SdsLaws} `{KlistLaws} `{KlistDelLaw} `{KlistEmptyLaw} `{Protobuf} node_id c l c' log i j from m again p q :
  readable (value_store (acc c)) -> do_acts node_id c l = Ok (c', log) -> i < j ->
  l !! i = Some (ADatagram from (Some m) again) -> log !! i = Some (Some p) -> flag p = 2%Z -> log !! j = Some (Some q) ->
  (flag q = 4%Z /\ (proposalid m <= proposalid q)%Z) \/
  (flag q = 2%Z /\ exists from' m' again', l !! j = Some (ADatagram from' (Some m') again') /\ (proposalid m < proposalid m')%Z).
Proof.
  intros Hr Hd Hij Hl Hp Hf Hq. revert c log i j Hr Hd Hij Hl Hp Hq.
  induction l as [|a l IH]; intros c log i j Hr Hd Hij Hl Hp Hq; [by rewrite lookup_nil in Hl|].
  cbn [do_acts] in Hd. apply bind_Ok_inv in Hd as ([c1 r] & E1 & Hd). apply bind_Ok_inv in Hd as ([c2 log2] & E2 & Hd).
  injection Hd as -> <-. destruct (do_act_acceptor node_id c a c1 r Hr E1) as (Hr1 & Hm & Hpr).
  destruct j as [|j]; [lia|]. destruct i as [|i]; [|by apply (IH c1 log2 i j); try done; lia].
  cbn in Hl, Hp, Hq. injection Hl as ->. injection Hp as ->. destruct (Hpr p eq_refl) as (? & ? & ? & [= <- <- <-] & HA).
  destruct (do_acts_t_max node_id l c1 _ _ Hr1 E2) as [_ Hall]. destruct (Hall j q Hq) as (from' & m' & again' & Hlj & Q1 & Q2).
  assert (Ht : t_max (acc c1) = proposalid m) by (inversion HA; subst; cbn in *; done || lia).
  rewrite Ht in Q1, Q2. destruct Q2 as [[? ?]|[? Eq]]; [right|left; split; [done|lia]]. split; [done|]. by exists from', m', again'.
Qed.

Lemma sorted_first l k best : sorted_answers l k -> head k = Some best -> head (filter (fun m => by_t m = by_t best) l) = Some best.
Proof.
  intros [_ _ St] Hh. rewrite <- (St eq_refl (by_t best)). destruct k as [|b k]; [done|]. injection Hh as ->.
  by rewrite filter_cons_True.
Qed.

(** C4: a promise from a peer is recorded.  Once there are more than half as many as nodes, the proposer
    takes over the value of the answer with the highest proposal (of several, the one that came first),
    unless no answer holds an accepted value, and sends its proposal with the value it then has to exactly the peers that
    have promised; before that it only waits.  The acceptor's state is not touched. *)
Theorem proposer_takes_highest `{SdsLaws} `{KlistLaws} `{KlistDelLaw} `{KlistEmptyLaw} `{Protobuf} node_id c k n from m l :
  nodes c !! k = Some n -> answers_are (propose_ok_list (pro c)) l -> flag m = 2%Z -> is_int (n_propose_ok (pro c) + 1) ->
  let l1 := l ++ [(proposalid m, value m)] in
  let ns := <[k := Node (Z.lor (flags n) PAXOS_PROPOSE_OK) from (node_out n)]> (nodes c) in
  exists c' l', node_message node_id k c (from, Some m) = Ok c' /\ acc c' = acc c /\
    answers_are (propose_ok_list (pro c')) l' /\ l1 ≡ₚ l' /\
    if (n_nodes c ÷ 2 <? n_propose_ok (pro c) + 1)%Z then
      exists best, (forall a, a ∈ l1 -> (a.1 <= best.1)%Z) /\ head (filter (fun a => by_t a = by_t best) l1) = Some best /\
        str (value_try (pro c')) = (if (0 <? best.1)%Z then best.2 else str (value_try (pro c))) /\
        nodes c' = asked node_id c' 3 promised ns
    else value_try (pro c') = value_try (pro c) /\ nodes c' = ns.
Proof.
  intros Hn Ha Hf Hi l1 ns. destruct (answer_ok node_id c k n from m l Hn Ha Hf Hi) as (c' & Ec & [Ea _ _ _ _ Hm]).
  fold l1 ns in Hm. change PAXOS_PROPOSE_OK with 2%Z in ns. exists c'. destruct (_ <? _)%Z.
  - destruct Hm as (l2 & best & Hs & Hb & Ha2 & Hv & Hns). exists l2. split_and!; try done; [apply Hs|].
    exists best. split; [by apply (sorted_highest _ _ _ Hs Hb)|]. split; [by apply (sorted_first _ l2)|]. split; [|done].
    rewrite Hv. destruct (0 <? best.1)%Z; [apply sdscpylen_law|done].
  - destruct Hm as (Ha1 & Hv & Hns). by exists l1.
Qed.

(** * A string library and runs in it *)

(** Strings that grow when they must, and then move. *)
#[export] Instance sds_grow : SdsLib := {
  sdsempty := Sds 0 0 [0%Z];
  sdscpylen s t :=
    if decide (length t < length (bytes s)) then Sds (at_ s) (length t) (t ++ [0%Z] ++ drop (S (length t)) (bytes s))
    else Sds (S (at_ s)) (length t) (t ++ replicate (S (length t)) 0%Z);
  sdsclear s := Sds (at_ s) 0 (<[0 := 0%Z]> (bytes s));
}.

#[export] Instance sds_grow_laws : SdsLaws sds_grow.
Proof.
  split; [done| |done]. intros s t. unfold sdscpylen, sds_grow, str. destruct (decide _); cbn [len bytes]; by rewrite take_app_length.
Qed.

(** protobuf frees the bytes of the value: here an address that [malloc] did not return. *)
#[export] Instance free_value : Protobuf := {
  free_unpacked _ := Stop Dangling;
  packed_size m := (if has_preacceptid m then 66 else 55) + length (value m);
}.

#[export] Instance free_value_laws : ProtobufLaws free_value.
Proof. intros m. cbn. destruct (has_preacceptid m); lia. Qed.

(** Three nodes, and what they say. *)
Definition addr_of (i : Z) : addr := (localhost, [49; 48 + i]%Z).
Definition text_of (a : addr) : list Z := a.1 ++ [58%Z] ++ a.2.
Definition node_of (i : Z) : res paxos_ctx :=
  '(_, c) ← paxos_init (text_of (addr_of i)) (text_of <$> [addr_of 1; addr_of 2; addr_of 3]) [] None; Ok c.
Definition prepare (t : Z) (v : list Z) : packet := PMsg 1 2 t 1 false v.
Definition accept (t : Z) (v : list Z) : packet := PMsg 1 2 t 3 false v.
Definition promise (t : Z) (v : list Z) : packet := PMsg 1 2 t 2 false v.

Example three_nodes_init : (c ← node_of 2; Ok (servaddr <$> nodes c, n_nodes c)) = Ok ([addr_of 1; addr_of 3], 3%Z).
Proof. vm_compute. reflexivity. Qed.

Definition sample_acts : list act :=
  [ADatagram (addr_of 2) (Some (prepare 4 [])) false; AEcho [7%Z]; AWait [] []; ADatagram (addr_of 3) (Some (accept 4 [9%Z])) false].

Lemma acceptor_keeps_promises_witness :
  exists c c' log q, node_of 1 = Ok c /\ do_acts 1 c sample_acts = Ok (c', log) /\
    log !! 3 = Some (Some q) /\ flag q = 4%Z /\ (4 <= proposalid q)%Z.
Proof.
  destruct (node_of 1) as [c|] eqn:Ec; vm_compute in Ec; [|discriminate]. injection Ec as Ec.
  destruct (do_acts 1 c sample_acts) as [[c' log]|] eqn:Ed; [|rewrite <- Ec in Ed; vm_compute in Ed; discriminate].
  pose proof Ed as Ed'. rewrite <- Ec in Ed'. vm_compute in Ed'. injection Ed' as _ El.
  exists c, c', log. eexists. split; [reflexivity|]. split; [exact Ed|]. split; [rewrite <- El; reflexivity|].
  destruct (acceptor_keeps_promises 1 c sample_acts c' log 0 3 (addr_of 2) (prepare 4 []) false
    (PMsg 1 1 0 2 false []) (PMsg 1 1 4 4 true [9%Z])) as [Q|[Q _]].
  - unfold readable. rewrite <- Ec. cbn. lia.
  - exact Ed.
  - lia.
  - reflexivity.
  - rewrite <- El. reflexivity.
  - reflexivity.
  - rewrite <- El. reflexivity.
  - exact Q.
  - discriminate Q.
Defined.

(** A new round, in which the node 2 promised and the promise of 3 comes in. *)
Lemma proposer_takes_highest_witness :
  exists c c', (c ← node_of 1; c ← paxos_echo 1 c [7%Z]; node_message 1 0 c (addr_of 2, Some (promise 0 []))) = Ok c /\
    node_message 1 1 c (addr_of 3, Some (promise 3 [5%Z])) = Ok c' /\ str (value_try (pro c')) = [5%Z].
Proof.
  destruct (c ← node_of 1; c ← paxos_echo 1 c [7%Z]; node_message 1 0 c (addr_of 2, Some (promise 0 []))) as [c|] eqn:Ec;
    vm_compute in Ec; [|discriminate]. injection Ec as Ec.
  destruct (proposer_takes_highest 1 c 1 (Node 0 (addr_of 3) (node_out (nth 1 (nodes c) (Node 0 ([], []) [])))) (addr_of 3)
    (promise 3 [5%Z]) [(0%Z, [])]) as (c' & l' & Em & _ & _ & _ & H).
  - rewrite <- Ec. reflexivity.
  - exists [1]. rewrite <- Ec. split; [|split; [decide_now|by repeat constructor]].
    split; [|intros _]; cbn; split_and!; reflexivity.
  - reflexivity.
  - rewrite <- Ec. decide_now.
  - exists c, c'. split; [reflexivity|]. split; [exact Em|]. replace (_ <? _)%Z with true in H by (rewrite <- Ec; reflexivity).
    destruct H as (best & Hmax & Hb & -> & _). specialize (Hmax (3, [5])%Z). cbn in Hmax.
    assert (Hin : best ∈ [(0, []); (3, [5])]%Z).
    { apply (list_elem_of_filter (fun a => by_t a = by_t best)), head_Some_elem_of, Hb. }
    destruct best as [t v]. repeat (apply elem_of_cons in Hin as [Hin|Hin]; [injection Hin as -> ->|]); [|done|by apply not_elem_of_nil in Hin].
    exfalso. cbn in Hmax. enough (3 <= 0)%Z by lia. apply Hmax. right. by left.
Defined.
