(* ===== verification/PaxosNet.v ===== *)
(** Paxos nodes of test_paxos.c in a network that loses, repeats and reorders packets: when the sockets
    are never busy and every turn of the loop handles one event, only proposed strings travel; two
    different strings can be announced as chosen; with a busy socket a string nobody proposed is sent. *)
From S2P Require Import Prelude SortSpec LinkSort LinkRig KernelSort Paxos PaxosNode.

(** * The network *)

(** A packet under way; replies go to the socket the peer sent from, others to its own socket. *)
Record wire : Type := Wire { w_src : nat; w_dst : nat; w_reply : bool; w_body : packet }.

#[export] Instance packet_eq_dec : EqDecision packet.
Proof. solve_decision. Defined.
#[export] Instance wire_eq_dec : EqDecision wire.
Proof. solve_decision. Defined.

(** The nodes, every packet ever sent, the strings given to [paxos_echo]. *)
Record cluster : Type := Cl { members : list paxos_ctx; net : list wire; echoed : list (list Z) }.

(** What a node handles in a turn of its loop. *)
Inductive input : Type := Cmd (s : list Z) | Packet (w : wire).

Section net.
Context `{SdsLib} `{Klist} `{KlistDel} `{KlistEmpty} `{Protobuf}.
(** The addresses of the nodes' own sockets, and those their requests come from. *)
Context (addrs : list addr) (client : nat -> addr).

Definition id (i : nat) : Z := Z.of_nat i + 1.
Definition peers (i : nat) : list nat := filter (fun j => j <> i) (seq 0 (length addrs)).
Definition position {A} `{EqDecision A} (x : A) (l : list A) : option nat := fst <$> list_find (fun y => y = x) l.

(** The handler of an event: the node after it and its reply. *)
Definition handle (i : nat) (inp : input) (c : paxos_ctx) : res (paxos_ctx * list wire) :=
  match inp with
  | Cmd s => c ← paxos_echo (id i) c s; Ok (c, [])
  | Packet w =>
      if w_reply w then
        match position (w_src w) (peers i) with
        | Some k => c ← node_message (id i) k c (default ([], []) (addrs !! w_src w), Some (w_body w)); Ok (c, [])
        | None => Ok (c, [])
        end
      else
        '(c, r) ← acceptor_message (id i) c (client (w_src w)) (Some (w_body w)) false;
        Ok (c, match r with Some p => [Wire i (w_src w) true p] | None => [] end)
  end.

Definition requests (i : nat) (out : list (addr * packet)) : list wire :=
  omap (fun s => (fun j => Wire i j false s.2) <$> position s.1 addrs) out.

(** The handler and the start of the next turn, with no socket busy. *)
Definition turn_of (i : nat) (inp : input) (c : paxos_ctx) : res (paxos_ctx * list wire) :=
  '(c, out) ← handle i inp c;
  '(c, sent) ← epoll_before_wait [] [] c;
  Ok (c, out ++ requests i sent).

(** A node proposes, or gets a packet that is or was under way to it. *)
Inductive turn : cluster -> cluster -> Prop :=
| turn_cmd cl i s c c' out : members cl !! i = Some c -> turn_of i (Cmd s) c = Ok (c', out) ->
    turn cl (Cl (<[i := c']> (members cl)) (net cl ++ out) (s :: echoed cl))
| turn_packet cl i w c c' out : members cl !! i = Some c -> w ∈ net cl -> w_dst w = i -> turn_of i (Packet w) c = Ok (c', out) ->
    turn cl (Cl (<[i := c']> (members cl)) (net cl ++ out) (echoed cl)).

(** All nodes after [paxos_init]. *)
Definition init_all (text : addr -> list Z) : res cluster :=
  cs ← foldr (fun a (cs : res (list paxos_ctx)) => '(_, c) ← paxos_init (text a) (text <$> addrs) [] None; cs ← cs; Ok (c :: cs)) (Ok []) addrs;
  Ok (Cl cs [] []).

(** A run given by its events. *)
Fixpoint play (l : list (nat * input)) (cl : cluster) : res cluster :=
  match l with
  | [] => Ok cl
  | (i, inp) :: l =>
      match members cl !! i with
      | None => Stop OutOfBounds
      | Some c =>
          '(c, out) ← turn_of i inp c;
          match inp with
          | Cmd s => play l (Cl (<[i := c]> (members cl)) (net cl ++ out) (s :: echoed cl))
          | Packet w =>
              if decide (w ∈ net cl /\ w_dst w = i) then play l (Cl (<[i := c]> (members cl)) (net cl ++ out) (echoed cl))
              else Stop OutOfBounds
          end
      end
  end.

Lemma play_turns l : forall cl cl', play l cl = Ok cl' -> rtc turn cl cl'.
Proof.
  induction l as [|[i inp] l IH]; intros cl cl' Hp; cbn [play] in Hp; [injection Hp as ->; constructor|].
  destruct (members cl !! i) as [c|] eqn:Ec; [|done]. apply bind_Ok_inv in Hp as ([c' out] & Et & Hp). destruct inp as [s|w].
  - eapply rtc_l; [by eapply turn_cmd|by apply IH].
  - destruct (decide _) as [[Hw Hd]|]; [|done]. eapply rtc_l; [by eapply turn_packet|by apply IH].
Qed.
End net.

(** * Validity *)
Section validity.
Context {SL : SdsLib} {SLaws : SdsLaws SL} {K : Klist} {KL : KlistLaws K} {D : KlistDel} {DL : KlistDelLaw D}
  {E : KlistEmpty} {EL : KlistEmptyLaw E} {PB : Protobuf} (addrs : list addr) (client : nat -> addr).

Definition known (V : list (list Z)) (v : list Z) : Prop := v = [] \/ v ∈ V.

(** A node between two turns: nothing queued, only known strings. *)
Record calm (V : list (list Z)) (c : paxos_ctx) : Prop := {
  calm_nodes : forall n, n ∈ nodes c -> node_out n = [];
  calm_o_list : o_list c = [];
  calm_answers : exists l, answers_are (propose_ok_list (pro c)) l /\ forall m, m ∈ l -> known V m.2;
  calm_try : known V (str (value_try (pro c))) /\ readable (value_try (pro c));
  calm_store : known V (str (value_store (acc c))) /\ readable (value_store (acc c));
}.

(** A node after its handler: at most one message for each peer, about its present string. *)
Definition pending (nid : Z) (c : paxos_ctx) (n : paxos_node) : Prop :=
  node_out n = [] \/ exists f, node_out n = [request nid c f n].
Record busy (V : list (list Z)) (nid : Z) (c : paxos_ctx) : Prop := {
  busy_nodes : forall n, n ∈ nodes c -> pending nid c n;
  busy_calm : calm V (with_nodes c []);
}.

Lemma known_mono V W v : (forall x, x ∈ V -> x ∈ W) -> known V v -> known W v.
Proof. intros HVW [->|Hv]; [by left|right; auto]. Qed.

Lemma calm_mono V W c : (forall x, x ∈ V -> x ∈ W) -> calm V c -> calm W c.
Proof.
  intros HVW [Hn Ho (l & Hl & Hk) [Ht Htr] [Hs Hsr]]. split; [done|done|exists l; split; [done|]; intros m Hm; eauto using known_mono| |];
    eauto using known_mono.
Qed.

(** The turn's end sends what is queued. *)
Lemma write_nodes_inv nid c ns : readable (value_try (pro c)) -> (forall n, n ∈ ns -> pending nid c n) ->
  forall ns' out, write_nodes c [] ns = Ok (ns', out) ->
    ns' = (fun n => Node (flags n) (servaddr n) []) <$> ns /\ forall s, s ∈ out -> value s.2 = str (value_try (pro c)).
Proof.
  intros Hr. induction ns as [|n ns IH]; intros Hp ns' out.
  { intros [= <- <-]. split; [done|]. intros s Hs. by apply not_elem_of_nil in Hs. }
  specialize (IH (fun n' H => Hp n' ltac:(by right))). cbn [write_nodes head tail default from_option].
  destruct (Hp n ltac:(by left)) as [Hn|[f Hn]]; rewrite Hn.
  - rewrite bool_decide_eq_true_2 by done. cbn [andb negb mbind res_bind]. intros ([ns1 out1] & E1 & [= <- <-])%bind_Ok_inv.
    destruct (IH _ _ E1) as [-> Ho]. split; [|done]. rewrite fmap_cons. f_equal. destruct n; cbn in *. by subst.
  - rewrite bool_decide_eq_false_2 by done. cbn [andb negb flush head tail default from_option].
    unfold pack at 1. cbn [msg request value v_of v_data v_len value_of]. rewrite !decide_True by done. cbn zeta.
    destruct (decide (packed_size _ <= _)); [|done]. cbn [mbind res_bind]. intros ([ns1 out1] & E1 & [= <- <-])%bind_Ok_inv.
    destruct (IH _ _ E1) as [-> Ho]. split; [done|]. intros s [->|Hs]%elem_of_cons; [done|by apply Ho].
Qed.

Lemma turn_end V nid c c' sent : busy V nid c -> epoll_before_wait [] [] c = Ok (c', sent) ->
  calm V c' /\ forall s, s ∈ sent -> known V (value s.2).
Proof.
  intros [Hn [_ Ho Ha Ht Hs]] Ew. cbn [with_nodes nodes o_list pro acc] in *. unfold epoll_before_wait, paxos_ctx_write in Ew.
  rewrite Ho in Ew. cbn [flush mbind res_bind] in Ew.
  apply bind_Ok_inv in Ew as ([ns out] & Eo & [= <- <-]).
  destruct (write_nodes_inv nid (with_o_list c []) (nodes c) (proj2 Ht) Hn _ _ Eo) as [-> Hout]. cbn [with_o_list pro] in Hout. split.
  - split; try done. intros n. cbn [nodes with_nodes]. intros (n0 & -> & _)%list_elem_of_fmap. done.
  - intros s Hin. rewrite Hout by done. apply Ht.
Qed.

Lemma asked_pending nid c f chosen ns : (forall n, n ∈ ns -> node_out n = []) ->
  forall n, n ∈ asked nid c f chosen ns -> pending nid c n.
Proof.
  intros Hn n (n0 & -> & H0)%list_elem_of_fmap. destruct (chosen n0); [right; exists f|left; by apply Hn].
  cbn [queue node_out]. by rewrite Hn.
Qed.

Lemma insert_out c k n : (forall n, n ∈ nodes c -> node_out n = []) -> node_out n = [] ->
  forall n', n' ∈ <[k := n]> (nodes c) -> node_out n' = [].
Proof.
  intros Hn H0 n' [i Hi]%list_elem_of_lookup. apply list_lookup_insert_Some in Hi as [(_ & -> & _)|[_ Hi]]; [done|].
  apply Hn. by eapply list_elem_of_lookup_2.
Qed.

Lemma prepare_busy V nid c c' : calm V c -> paxos_prepare nid c = Ok c' -> busy V nid c'.
Proof.
  intros [Hn Ho (l & Hl & Hk) Ht Hs] Hp. destruct (paxos_prepare_ok nid c l Hl) as (c1 & E1 & [Ra Rt Rv Rl Rc Rn Rr]).
  rewrite E1 in Hp. injection Hp as ->. split.
  - rewrite Rn. by apply asked_pending.
  - split; cbn [with_nodes nodes o_list pro acc]; rewrite ?Ra, ?Rv; cbn [value_store]; try done.
    + intros n Hin. by apply not_elem_of_nil in Hin.
    + apply Rr.
    + exists []. split; [done|]. intros m Hm. by apply not_elem_of_nil in Hm.
    + split; [left; apply str_clear|apply readable_clear].
Qed.

Lemma node_message_int nid k c from m c' : node_message nid k c (from, Some m) = Ok c' ->
  exists n, nodes c !! k = Some n /\ (has_preacceptid m && (flag m =? 4)%Z = true -> is_int (n_propose_success (pro c) + 1)) /\
    (has_preacceptid m && (flag m =? 4)%Z = false -> flag m = 2%Z -> is_int (n_propose_ok (pro c) + 1)).
Proof.
  unfold node_message. destruct (nodes c !! k) as [n|]; [|done]. intros Hm. exists n. split; [done|]. cbn [fst snd] in Hm.
  assert (Hck : forall z x, ck z = Ok x -> is_int z) by (intros z x; unfold ck; destruct (decide _); done).
  destruct (_ && _); split; try done; intros _.
  - apply bind_Ok_inv in Hm as (x & Hx & _). by apply Hck in Hx.
  - intros Hf. rewrite Hf in Hm. cbn [Z.eqb Pos.eqb] in Hm. apply bind_Ok_inv in Hm as (a & _ & Hm).
    apply bind_Ok_inv in Hm as (x & Hx & _). by apply Hck in Hx.
Qed.

Lemma message_busy V nid k c from m c' : calm V c -> known V (value m) -> node_message nid k c (from, Some m) = Ok c' ->
  busy V nid c'.
Proof.
  intros [Hn Ho (l & Hl & Hk) Ht Hs] Hv Hm. destruct (node_message_int _ _ _ _ _ _ Hm) as (n & Hkn & H4 & H2).
  assert (Hn0 : node_out n = []) by (apply Hn; by eapply list_elem_of_lookup_2).
  assert (Hnil : forall n : paxos_node, n ∈ ([] : list paxos_node) -> node_out n = []) by (intros n' Hin; by apply not_elem_of_nil in Hin).
  destruct (has_preacceptid m && (flag m =? 4)%Z) eqn:E4; [|destruct (decide (flag m = 2%Z)) as [Hf|Hf]].
  - apply andb_true_iff in E4 as [Hpre Hf%Z.eqb_eq].
    destruct (ack_ok nid c k n from m Hkn Hf Hpre (H4 eq_refl)) as (c1 & E1 & Ea & Eo & _ & Ep & En). rewrite E1 in Hm. injection Hm as ->.
    split.
    + rewrite En. destruct (_ <? _)%Z; [apply asked_pending; by apply insert_out|]. intros n' Hin. left. revert n' Hin. by apply insert_out.
    + split; cbn [with_nodes nodes o_list pro acc]; rewrite ?Ea, ?Ep, ?Eo; cbn; try done. by exists l.
  - destruct (answer_ok nid c k n from m l Hkn Hl Hf (H2 eq_refl Hf)) as (c1 & E1 & [Ea _ _ _ (Eo & _) Emaj]). rewrite E1 in Hm. injection Hm as ->.
    assert (Hk1 : forall a, a ∈ l ++ [(proposalid m, value m)] -> known V a.2).
    { intros a [Hin|Hin]%elem_of_app; [by apply Hk|]. apply list_elem_of_singleton in Hin as ->. done. }
    destruct (_ <? _)%Z.
    + destruct Emaj as (l2 & best & Hso & Hb & Ha2 & Ev & En). split.
      * rewrite En. apply asked_pending. by apply insert_out.
      * split; cbn [with_nodes nodes o_list pro acc]; rewrite ?Ea, ?Eo; try done.
        -- exists l2. split; [done|]. intros a Ha. apply Hk1. by rewrite (sorts_perm _ _ _ _ Hso).
        -- rewrite Ev. destruct (0 <? best.1)%Z; [|done]. split; [|apply readable_cpy]. rewrite (proj1 (sdscpylen_law _ _)).
           apply Hk1. by apply (sorted_highest _ _ _ Hso Hb).
    + destruct Emaj as (Ha1 & Ev & En). split.
      * rewrite En. intros n' Hin. left. revert n' Hin. by apply insert_out.
      * split; cbn [with_nodes nodes o_list pro acc]; rewrite ?Ea, ?Eo, ?Ev; try done. by eexists.
  - rewrite (other_ok nid c k n from (Some m) Hkn) in Hm.
    + injection Hm as <-. split; [|by split; try done; exists l]. intros n' Hin. left. revert n' Hin. by apply insert_out.
    + intros p [= <-]. split; [done|]. intros Hp H4'. by rewrite Hp, H4' in E4.
Qed.

Lemma accept_busy V nid c from p c' r : calm V c -> known V (value p) ->
  acceptor_message nid c from (Some p) false = Ok (c', r) ->
  busy V nid c' /\ forall q, r = Some q -> known V (value q).
Proof.
  intros [Hn Ho Ha Ht Hs] Hv Hm.
  destruct (acceptor_message_inv nid c from p false c' r (proj2 Hs) Hm) as (HA & Ep & En & Eo).
  specialize (Eo eq_refl). split; [split|].
  - rewrite En. intros n Hin. left. by apply Hn.
  - split; cbn [with_nodes nodes o_list pro acc]; rewrite ?Ep, ?Eo; try done; [intros n Hin; by apply not_elem_of_nil in Hin|].
    assert (Hcpy : known V (str (sdscpylen (value_store (acc c)) (value p))) /\ readable (sdscpylen (value_store (acc c)) (value p))).
    { split; [by rewrite (proj1 (sdscpylen_law _ _))|apply readable_cpy]. }
    inversion HA as [? ? Ea|? ? Ea|? Ea|? ? ? Ea]; cbn; done.
  - intros q ->. inversion HA; cbn; [apply Hs|done].
Qed.

(** ** Clusters *)
Record valid (cl : cluster) : Prop := {
  valid_members : forall i c, members cl !! i = Some c -> calm (echoed cl) c;
  valid_net : forall w, w ∈ net cl -> known (echoed cl) (value (w_body w));
}.

Lemma turn_of_ok V i inp c c' out : calm V c ->
  match inp with Cmd s => known V s | Packet w => known V (value (w_body w)) end ->
  turn_of addrs client i inp c = Ok (c', out) -> calm V c' /\ forall w, w ∈ out -> known V (value (w_body w)).
Proof.
  intros Hc Hi Ht. unfold turn_of in Ht. apply bind_Ok_inv in Ht as ([c1 out1] & Eh & Ht).
  apply bind_Ok_inv in Ht as ([c2 sent] & Ew & Ht). injection Ht as <- <-.
  assert (Hb : busy V (id i) c1 /\ forall w, w ∈ out1 -> known V (value (w_body w))).
  { unfold handle in Eh. destruct inp as [s|w]; [|destruct (w_reply w)].
    - apply bind_Ok_inv in Eh as (c0 & E0 & Eh). injection Eh as <- <-. split; [|intros w Hw; by apply not_elem_of_nil in Hw].
      unfold paxos_echo in E0. eapply prepare_busy; [|exact E0]. destruct Hc as [Hn Ho Ha Hty Hs]. split; try done. cbn [pro with_pro value_try].
      split; [by rewrite (proj1 (sdscpylen_law _ _))|apply readable_cpy].
    - destruct (position _ _) as [k|].
      + apply bind_Ok_inv in Eh as (c0 & E0 & Eh). injection Eh as <- <-. split; [|intros w' Hw; by apply not_elem_of_nil in Hw].
        by eapply message_busy.
      + injection Eh as <- <-. split; [|intros w' Hw; by apply not_elem_of_nil in Hw].
        destruct Hc as [Hn Ho Ha Hty Hs]. split; [intros n Hin; left; by apply Hn|]. split; try done. intros n Hin. by apply not_elem_of_nil in Hin.
    - apply bind_Ok_inv in Eh as ([c0 r] & E0 & Eh). injection Eh as <- <-.
      destruct (accept_busy V _ _ _ _ _ _ Hc Hi E0) as [Hb Hr]. split; [done|]. intros w' Hw. destruct r as [p|]; [|by apply not_elem_of_nil in Hw].
      apply list_elem_of_singleton in Hw as ->. by apply Hr. }
  destruct Hb as [Hb Ho]. destruct (turn_end V (id i) c1 c2 sent Hb Ew) as [Hc2 Hs]. split; [done|].
  intros w [Hw|Hw]%elem_of_app; [by apply Ho|]. unfold requests in Hw. apply list_elem_of_omap in Hw as (x & Hx & Hw).
  destruct (position x.1 addrs) as [j|]; [|done]. injection Hw as <-. by apply Hs.
Qed.

Lemma turn_valid cl cl' : turn addrs client cl cl' -> valid cl -> valid cl'.
Proof.
  intros Ht [Hm Hnet].
  assert (HV : forall s x, x ∈ echoed cl -> x ∈ s :: echoed cl) by (intros; by right).
  destruct Ht as [cl i s c c' out Hc Ht|cl i w c c' out Hc Hw Hd Ht].
  - destruct (turn_of_ok (s :: echoed cl) i (Cmd s) c c' out) as [Hc' Ho]; [eapply calm_mono; [apply HV|by eapply Hm]|right; by left|exact Ht|].
    split; cbn [members net echoed].
    + intros j cj Hj. apply list_lookup_insert_Some in Hj as [(_ & -> & _)|[_ Hj]]; [done|]. eapply calm_mono; [apply HV|by eapply Hm].
    + intros w [Hw|Hw]%elem_of_app; [|by apply Ho]. eapply known_mono; [apply HV|by apply Hnet].
  - destruct (turn_of_ok (echoed cl) i (Packet w) c c' out) as [Hc' Ho]; [by eapply Hm|by apply Hnet|exact Ht|].
    split; cbn [members net echoed].
    + intros j cj Hj. apply list_lookup_insert_Some in Hj as [(_ & -> & _)|[_ Hj]]; [done|by eapply Hm].
    + intros w' [Hw'|Hw']%elem_of_app; [by apply Hnet|by apply Ho].
Qed.

Lemma init_nodes_out self fds cfg ns n b ns' n' : (forall x, x ∈ ns -> node_out x = []) ->
  init_nodes self fds cfg ns n = Ok (b, ns', n') -> forall x, x ∈ ns' -> node_out x = [].
Proof.
  revert fds ns n. induction cfg as [|a cfg IH]; intros fds ns n Hns Hi; cbn [init_nodes] in Hi; [by injection Hi as <- <- <-|].
  destruct (decide (a = self)); [by eapply IH|]. destruct (strchr 58 a) as [k|]; [|done]. apply bind_Ok_inv in Hi as (ip & _ & Hi).
  destruct (default true (head fds)); [|by injection Hi as <- <- <-]. apply bind_Ok_inv in Hi as (n1 & _ & Hi).
  eapply IH; [|exact Hi]. intros x [Hx|Hx]%elem_of_app; [by apply Hns|]. by apply list_elem_of_singleton in Hx as ->.
Qed.

Lemma paxos_init_calm V self cfg fds st r c : paxos_init self cfg fds st = Ok (r, c) -> calm V c.
Proof.
  unfold paxos_init. intros (h & Eh & Hi)%bind_Ok_inv.
  destruct (init_law 0 {[0 := Elem None None None]}) as (h' & Eh' & Lh & _); [by rewrite lookup_singleton_eq; eexists|].
  rewrite Eh' in Eh. injection Eh as ->.
  assert (Ha : exists l, answers_are (Answers h ∅) l /\ forall m, m ∈ l -> known V m.2).
  { exists []. split; [|intros m Hm; by apply not_elem_of_nil in Hm]. exists []. split; [done|]. split; [apply NoDup_singleton|constructor]. }
  assert (Hs : known V (str sdsempty) /\ readable sdsempty).
  { destruct (sdsempty_law) as [H1 H2]. split; [by left|]. unfold readable. rewrite H2. lia. }
  assert (Hnil : forall x : paxos_node, x ∈ ([] : list paxos_node) -> node_out x = []) by (intros x Hx; by apply not_elem_of_nil in Hx).
  assert (Hgen : forall ns n ch, (forall x, x ∈ ns -> node_out x = []) ->
    calm V (Ctx 1 (Acc 0 0 sdsempty) (Pro 0 sdsempty (Answers h ∅) 0 0) ns n [] ch)).
  { intros ns n ch Hns. by split. }
  destruct st as [[t|]|]; [| |].
  2: { injection Hi as <- <-. by apply Hgen. }
  all: apply bind_Ok_inv in Hi as ([[b ns] n] & En & Hi); pose proof (init_nodes_out _ _ _ _ _ _ _ _ Hnil En) as Hns; destruct b.
  2, 4: injection Hi as <- <-; by apply Hgen.
  all: apply bind_Ok_inv in Hi as (n1 & _ & Hi); injection Hi as <- <-; by apply Hgen.
Qed.

Lemma init_all_valid text cl : init_all addrs text = Ok cl -> valid cl.
Proof.
  unfold init_all. intros (cs & Hc & Hi)%bind_Ok_inv. injection Hi as <-. split; cbn [members net echoed].
  - intros i c Hi. assert (Hall : Forall (calm []) cs); [|by eapply Forall_lookup in Hall].
    clear i c Hi. revert cs Hc. generalize (text <$> addrs). intros cfg. induction addrs as [|a l IH]; intros cs Hc; cbn in Hc; [injection Hc as <-; constructor|].
    apply bind_Ok_inv in Hc as ([r c] & Ep & Hc). apply bind_Ok_inv in Hc as (cs' & Ec & Hc). injection Hc as <-.
    constructor; [by eapply paxos_init_calm|by apply IH].
  - intros w Hw. by apply not_elem_of_nil in Hw.
Qed.
End validity.

(** C5: while no socket is busy and a node handles one event a turn, every string that travels in any
    packet of any reachable state of any number of nodes, whatever is lost, repeated or reordered, is
    empty or was proposed at some node; so is every string accepted or announced as chosen. *)
Theorem paxos_validity `{SdsLaws} `{KlistLaws} `{KlistDelLaw} `{KlistEmptyLaw} `{Protobuf} addrs client text start cl :
  init_all addrs text = Ok start -> rtc (turn addrs client) start cl ->
  (forall w, w ∈ net cl -> value (w_body w) = [] \/ value (w_body w) ∈ echoed cl) /\
  (forall i c, members cl !! i = Some c -> str (value_store (acc c)) = [] \/ str (value_store (acc c)) ∈ echoed cl).
Proof.
  intros Hi Hr. assert (Hv : valid cl).
  { apply init_all_valid in Hi. induction Hr as [|x y z Hxy _ IH]; [done|]. apply IH. by eapply turn_valid. }
  destruct Hv as [Hm Hn]. split; [done|]. intros i c Hc. apply (Hm i c Hc).
Qed.

(** * Runs of three nodes *)
Definition three : list addr := [addr_of 1; addr_of 2; addr_of 3].
Definition from_port (i : nat) : addr := (localhost, [57; 48 + Z.of_nat i]%Z).

(** The messages of a run between the nodes [i] and [j]. *)
Definition ask (i j : nat) (t f : Z) (v : list Z) : nat * input := (j, Packet (Wire i j false (PMsg 1 (id i) t f false v))).
Definition answer (j i : nat) (t f : Z) (pre : bool) (v : list Z) : nat * input := (i, Packet (Wire j i true (PMsg 1 (id j) t f pre v))).

(** The node 0 has [A] chosen by 1 and 2. *)
Definition first_round (A : list Z) : list (nat * input) :=
  [(0, Cmd A); ask 0 1 1 1 A; ask 0 2 1 1 A; answer 1 0 0 2 false []; answer 2 0 0 2 false [];
   ask 0 1 1 3 A; ask 0 2 1 3 A; answer 1 0 1 4 true A; answer 2 0 1 4 true A].

(** Then 1 proposes something itself, and 2 proposes [C], twice. *)
Definition second_round (B C : list Z) : list (nat * input) :=
  [(1, Cmd B); (2, Cmd C); (2, Cmd C); ask 2 0 2 1 C; ask 2 1 2 1 C; answer 0 2 0 2 false []; answer 1 2 0 2 false [];
   ask 2 0 2 3 C; ask 2 1 2 3 C; answer 0 2 2 4 true C; answer 1 2 2 4 true C].

Definition announced (v : list Z) (w : wire) : bool := (flag (w_body w) =? 5)%Z && bool_decide (value (w_body w) = v).

Lemma announced_in v l : existsb (announced v) l = true -> exists w, w ∈ l /\ flag (w_body w) = 5%Z /\ value (w_body w) = v.
Proof.
  intros (w & Hw & Ha)%existsb_exists. exists w. split; [by apply list_elem_of_In|]. unfold announced in Ha.
  apply andb_true_iff in Ha as [Hf%Z.eqb_eq Hv%bool_decide_eq_true]. done.
Qed.

(** The two rounds above are possible, and each ends with an announcement. *)
Definition two_rounds (A B C : list Z) : res cluster :=
  start ← init_all three text_of; play three from_port (first_round A ++ second_round B C) start.

Lemma two_rounds_announce :
  (cl ← two_rounds [65%Z] [66%Z] [67%Z]; Ok (length (net cl), existsb (announced [65%Z]) (net cl), existsb (announced [67%Z]) (net cl)))
  = Ok (24, true, true).
Proof. vm_compute. reflexivity. Qed.

Lemma two_rounds_agree_not : exists start cl, init_all three text_of = Ok start /\
  play three from_port (first_round [65%Z] ++ second_round [66%Z] [67%Z]) start = Ok cl /\ length (net cl) = 24 /\
  existsb (announced [65%Z]) (net cl) = true /\ existsb (announced [67%Z]) (net cl) = true.
Proof.
  pose proof two_rounds_announce as R. apply bind_Ok_inv in R as (cl & Ep & R).
  apply bind_Ok_inv in Ep as (start & Ei & Ep). injection R as R1 R2 R3. by exists start, cl.
Qed.

(** Agreement fails even in calm turns: there is a run of three nodes in which a majority accepts
    the string of one node and another majority that of another, and both are announced as chosen.  [paxos_prepare]
    clears what the node has accepted itself, so the node in both majorities forgets the first string
    when it proposes something. *)
Theorem paxos_can_disagree : exists start cl w1 w2,
  init_all three text_of = Ok start /\ rtc (turn three from_port) start cl /\ w1 ∈ net cl /\ w2 ∈ net cl /\
  flag (w_body w1) = 5%Z /\ flag (w_body w2) = 5%Z /\ value (w_body w1) <> value (w_body w2).
Proof.
  destruct two_rounds_agree_not as (start & cl & Ei & Ep & _ & H1 & H2).
  apply announced_in in H1 as (w1 & Hw1 & F1 & V1). apply announced_in in H2 as (w2 & Hw2 & F2 & V2).
  exists start, cl, w1, w2. split; [done|]. split; [by apply (play_turns _ _ _ _ _ Ep)|]. split_and!; try done. by rewrite V1, V2.
Qed.

(** The first round of node 1 with its socket busy when it asks for acceptance, then a shorter proposal. *)
Definition hello : list Z := [104; 101; 108; 108; 111]%Z.
Definition busy_round (v w : list Z) : res (list (addr * packet)) :=
  c ← node_of 1;
  c ← paxos_echo 1 c v;
  '(c, _) ← epoll_before_wait [] [] c;
  c ← node_message 1 0 c (addr_of 2, Some (promise 0 []));
  c ← node_message 1 1 c (addr_of 3, Some (promise 0 []));
  '(c, _) ← epoll_before_wait [] [(true, [true]); (true, [true])] c;
  c ← paxos_echo 1 c w;
  '(_, out) ← epoll_before_wait [] [] c;
  Ok out.

(** A queued message points into [value_try], which the next proposal overwrites: the peers are asked
    to accept, under the old number, the new string, its end mark and the rest of the old one. *)
Lemma stale_value_sent :
  (out ← busy_round hello [97; 98]%Z; Ok (filter (fun s => flag s.2 = 3%Z) out)) =
  Ok [(addr_of 2, PMsg 1 1 1 3 false [97; 98; 0; 108; 111]%Z); (addr_of 3, PMsg 1 1 1 3 false [97; 98; 0; 108; 111]%Z)].
Proof. vm_compute. reflexivity. Qed.

Lemma paxos_validity_witness : exists start cl, init_all three text_of = Ok start /\
  rtc (turn three from_port) start cl /\ length (net cl) = 24 /\
  (forall w, w ∈ net cl -> value (w_body w) = [] \/ value (w_body w) ∈ echoed cl).
Proof.
  destruct two_rounds_agree_not as (start & cl & Ei & Ep & Hl & _). exists start, cl.
  pose proof (play_turns _ _ _ _ _ Ep) as Hr. split; [exact Ei|]. split; [exact Hr|]. split; [exact Hl|].
  exact (proj1 (paxos_validity three from_port text_of start cl Ei Hr)).
Defined.
