(* ===== verification/PaxosLive.v ===== *)
(** Progress of the Paxos nodes of test_paxos.c: when one node of at least three proposes a string and every packet is delivered
    once, in any order, the nodes come to rest, every other node has stored the string, and the proposer has announced it to all. *)
From S2P Require Import Prelude SortSpec LinkSort LinkRig KernelSort Paxos PaxosNode PaxosNet.

(** * Delivering every packet once *)

(** The nodes, the packets under way, and all packets that were ever sent. *)
Record traffic : Type := Traffic { nodes_of : list paxos_ctx; flight : list wire; log : list wire }.

Section once.
Context `{SdsLib} `{Klist} `{KlistDel} `{KlistEmpty} `{Protobuf} (addrs : list addr) (client : nat -> addr).

Inductive once : traffic -> traffic -> Prop :=
| once_deliver st f1 w f2 c c' out : flight st = f1 ++ w :: f2 -> nodes_of st !! w_dst w = Some c -> turn_of addrs client (w_dst w) (Packet w) c = Ok (c', out) ->
    once st (Traffic (<[w_dst w := c']> (nodes_of st)) (f1 ++ f2 ++ out) (log st ++ out)).

(** All nodes just started, and the node [p] is told to propose [v]. *)
Definition proposing_start (text : addr -> list Z) (p : nat) (v : list Z) : res traffic :=
  cl ← init_all addrs text;
  match members cl !! p with
  | None => Stop OutOfBounds
  | Some c => '(c, out) ← turn_of addrs client p (Cmd v) c; Ok (Traffic (<[p := c]> (members cl)) out out)
  end.
End once.

(** * Turns of quiet nodes *)

(** Strings whose messages have room in [buf]. *)
Definition short (s : list Z) : Prop := (Z.of_nat (length s) <= 8000)%Z.

Section live.
Context {SL : SdsLib} {SLaws : SdsLaws SL} {K : Klist} {KL : KlistLaws K} {D : KlistDel} {DL : KlistDelLaw D}
  {E : KlistEmpty} {EL : KlistEmptyLaw E} {PB : Protobuf} {PBL : ProtobufLaws PB} (addrs : list addr) (client : nat -> addr).
Context (ND : NoDup addrs) (p : nat) (v : list Z) (Hroom : short v).
Notation N := (length addrs).
Notation peers := (peers addrs).
Notation addr j := (addrs !!! j).

Lemma elem_of_peers i j : j ∈ peers i <-> j < N /\ j <> i.
Proof. unfold PaxosNet.peers. rewrite list_elem_of_filter, elem_of_seq. lia. Qed.

Lemma NoDup_peers i : NoDup (peers i).
Proof. apply NoDup_filter, NoDup_seq. Qed.

Lemma length_peers i : i < N -> S (length (peers i)) = N.
Proof.
  intros Hi. assert (HP : i :: peers i ≡ₚ seq 0 N).
  { apply NoDup_Permutation; [|apply NoDup_seq|].
    - apply NoDup_cons. split; [rewrite elem_of_peers; lia|apply NoDup_peers].
    - intros j. rewrite elem_of_cons, elem_of_peers, elem_of_seq. lia. }
  apply Permutation_length in HP. by rewrite length_seq in HP.
Qed.

Lemma position_nodup {A} `{EqDecision A} (l : list A) k x : NoDup l -> l !! k = Some x -> position x l = Some k.
Proof.
  intros Hnd Hk. unfold position. rewrite (proj2 (list_find_Some (fun y => y = x) l k x)); [done|]. split_and!; [done|done|].
  intros j y Hj Hlt ->. pose proof (NoDup_lookup _ _ _ _ Hnd Hk Hj). lia.
Qed.

Lemma position_peer i j : j ∈ peers i -> exists k, position j (peers i) = Some k /\ peers i !! k = Some j.
Proof.
  intros [k Hk]%list_elem_of_lookup. exists k. split; [|done]. apply position_nodup; [apply NoDup_peers|done].
Qed.

Lemma position_addr j : j < N -> position (addr j) addrs = Some j.
Proof. intros Hj. apply position_nodup; [done|]. by apply list_lookup_lookup_total_lt. Qed.

(** Nothing to send. *)
Record idle (c : paxos_ctx) : Prop := {
  idle_nodes : forall n, n ∈ nodes c -> node_out n = [];
  idle_o_list : o_list c = [];
}.

Lemma write_nodes_idle c ns : (forall n, n ∈ ns -> node_out n = []) -> write_nodes c [] ns = Ok (ns, []).
Proof.
  induction ns as [|n ns IH]; intros Hn; [done|]. cbn [write_nodes head tail default from_option]. rewrite (Hn n ltac:(by left)), bool_decide_eq_true_2 by done.
  cbn [andb negb mbind res_bind]. rewrite IH by (intros; apply Hn; by right). done.
Qed.

Lemma before_wait_idle c : idle c -> epoll_before_wait [] [] c = Ok (c, []).
Proof.
  intros [Hn Ho]. unfold epoll_before_wait, paxos_ctx_write. rewrite Ho. cbn [flush mbind res_bind]. rewrite write_nodes_idle by done. cbn [mbind res_bind app].
  destruct c; cbn in *. by subst.
Qed.

Lemma short_fits j c s : short s -> fits (id j) c s.
Proof. intros Hs t f pre. etrans; [apply packed_size_law|]. cbn [value]. unfold short, buf_size in *. lia. Qed.

Lemma pack_request c f n : short (str (value_try (pro c))) -> readable (value_try (pro c)) ->
  pack c (msg (request (id p) c f n)) = Ok (PMsg (instance_id c) (id p) (t_try (pro c)) f false (str (value_try (pro c)))).
Proof.
  intros Hs Hr. unfold pack. cbn [msg request value v_of v_data v_len value_of]. rewrite 2!decide_True by done.
  cbn zeta. by rewrite decide_True by (by apply short_fits).
Qed.

Lemma asked_ext c c' f chosen ns : pro c = pro c' -> instance_id c = instance_id c' -> asked (id p) c f chosen ns = asked (id p) c' f chosen ns.
Proof. intros Ep Ei. unfold asked, request. by rewrite Ep, Ei. Qed.

(** One message for each chosen node. *)
Lemma write_nodes_asked c f chosen ns : short (str (value_try (pro c))) -> readable (value_try (pro c)) -> (forall n, n ∈ ns -> node_out n = []) ->
  write_nodes c [] (asked (id p) c f chosen ns)
  = Ok (ns, (fun n => (servaddr n, PMsg (instance_id c) (id p) (t_try (pro c)) f false (str (value_try (pro c))))) <$> filter (fun n => chosen n = true) ns).
Proof.
  intros Hsh Hr. induction ns as [|n ns IH]; intros Hn; [done|]. unfold asked in *. rewrite fmap_cons. cbn [write_nodes head tail default from_option].
  specialize (IH (fun n' H => Hn n' ltac:(by right))). pose proof (Hn n ltac:(by left)) as H0'. destruct (chosen n) eqn:Ec.
  - cbn [queue node_out]. rewrite H0'. cbn [app]. rewrite bool_decide_eq_false_2 by done. cbn [andb negb flush head tail default from_option].
    rewrite pack_request by done. cbn [mbind res_bind]. rewrite IH. cbn [mbind res_bind]. rewrite filter_cons_True by done. rewrite fmap_cons.
    cbn [map app snd flags servaddr queue]. do 3 f_equal. destruct n; cbn in *. by subst.
  - rewrite H0', bool_decide_eq_true_2 by done. cbn [andb negb mbind res_bind]. rewrite IH. cbn [mbind res_bind]. rewrite filter_cons_False by congruence. done.
Qed.

Lemma before_wait_asked c f chosen ns : short (str (value_try (pro c))) -> readable (value_try (pro c)) -> o_list c = [] -> nodes c = asked (id p) c f chosen ns -> (forall n, n ∈ ns -> node_out n = []) ->
  epoll_before_wait [] [] c = Ok (with_nodes c ns, (fun n => (servaddr n, PMsg (instance_id c) (id p) (t_try (pro c)) f false (str (value_try (pro c))))) <$> filter (fun n => chosen n = true) ns).
Proof.
  intros Hsh Hr Ho En Hn. unfold epoll_before_wait, paxos_ctx_write. rewrite Ho. cbn [flush mbind res_bind]. cbn [with_o_list nodes]. rewrite En.
  rewrite (asked_ext c (with_o_list c [])) by done. rewrite write_nodes_asked by done. cbn [mbind res_bind app]. do 2 f_equal. destruct c; cbn in *. by subst.
Qed.

(** ** The proposer

    Its nodes in the order of the peers, with flags [fl]. *)
Definition peer_nodes (i : nat) (fl : nat -> Z) : list paxos_node := (fun j => Node (fl j) (addr j) []) <$> peers i.

Lemma peer_nodes_out i fl n : n ∈ peer_nodes i fl -> node_out n = [].
Proof. by intros (j & -> & _)%list_elem_of_fmap. Qed.

Definition flag_set (fl : nat -> Z) (j : nat) (x : Z) : nat -> Z := fun i => if decide (i = j) then x else fl i.

Lemma peer_nodes_insert i fl k j x : peers i !! k = Some j -> <[k := Node x (addr j) []]> (peer_nodes i fl) = peer_nodes i (flag_set fl j x).
Proof.
  intros Hk. apply list_eq. intros m. unfold peer_nodes. destruct (decide (m = k)) as [->|Hne].
  - rewrite list_lookup_insert_eq by (rewrite length_fmap; by apply lookup_lt_Some in Hk). rewrite list_lookup_fmap, Hk. cbn. unfold flag_set. by rewrite decide_True.
  - rewrite list_lookup_insert_ne by done. rewrite !list_lookup_fmap. destruct (peers i !! m) as [j'|] eqn:Em; [|done]. cbn. unfold flag_set.
    rewrite decide_False; [done|]. intros ->. apply Hne. by eapply NoDup_lookup; [apply NoDup_peers| |].
Qed.

(** What the peers with [chosen] flags are sent. *)
Lemma requests_peers (chosen : paxos_node -> bool) (b : packet) fl :
  requests addrs p ((fun n => (servaddr n, b)) <$> filter (fun n => chosen n = true) (peer_nodes p fl))
  = (fun j => Wire p j false b) <$> filter (fun j => chosen (Node (fl j) (addr j) []) = true) (peers p).
Proof.
  unfold requests, peer_nodes. assert (Hall : Forall (fun j => j < N) (peers p)) by (apply Forall_forall; intros j [Hj _]%elem_of_peers; done).
  induction Hall as [|j l Hj _ IH]; [done|]. rewrite fmap_cons. destruct (chosen (Node (fl j) (addr j) [])) eqn:Ec.
  - rewrite !filter_cons_True by done. rewrite !fmap_cons. cbn [omap list_omap]. cbn [fst snd servaddr]. rewrite position_addr by done. cbn [fmap option_fmap option_map]. by rewrite <- IH.
  - rewrite !filter_cons_False by congruence. exact IH.
Qed.
Record proposing (c : paxos_ctx) (fl : nat -> Z) : Prop := {
  pr_nodes : nodes c = peer_nodes p fl;
  pr_n : n_nodes c = Z.of_nat N;
  pr_o_list : o_list c = [];
  pr_try : t_try (pro c) = 1%Z;
  pr_value : str (value_try (pro c)) = v /\ readable (value_try (pro c));
  pr_answers : exists l, answers_are (propose_ok_list (pro c)) l /\ forall m, m ∈ l -> m.1 = 0%Z;
}.

Definition flagged (fl : nat -> Z) (j : nat) : bool := negb (Z.land (fl j) PAXOS_PROPOSE_OK =? 0)%Z.
Definition majority (n : Z) : bool := (Z.of_nat N ÷ 2 <? n)%Z.

(** The packets of the round, by kind and peer. *)
Inductive kind : Type := Prepare | Promise | Accept | Accepted | Announce.
Definition carries (k : kind) (j : nat) (w : wire) : Prop :=
  let b := w_body w in
  match k with
  | Prepare => w_src w = p /\ w_dst w = j /\ w_reply w = false /\ flag b = 1%Z /\ proposalid b = 1%Z
  | Promise => w_src w = j /\ w_dst w = p /\ w_reply w = true /\ flag b = 2%Z /\ proposalid b = 0%Z
  | Accept => w_src w = p /\ w_dst w = j /\ w_reply w = false /\ flag b = 3%Z /\ proposalid b = 1%Z /\ value b = v
  | Accepted => w_src w = j /\ w_dst w = p /\ w_reply w = true /\ flag b = 4%Z /\ has_preacceptid b = true
  | Announce => w_src w = p /\ w_dst w = j /\ w_reply w = false /\ flag b = 5%Z /\ value b = v
  end.

Lemma handle_reply c fl j w : proposing c fl -> j ∈ peers p -> w_src w = j -> w_reply w = true ->
  exists k, peers p !! k = Some j /\ nodes c !! k = Some (Node (fl j) (addr j) []) /\
    handle addrs client p (Packet w) c = (c ← node_message (id p) k c (addr j, Some (w_body w)); Ok (c, [])).
Proof.
  intros Hp Hj Hs Hr. destruct (position_peer p j Hj) as (k & Ek & Hk). exists k. split; [done|]. split.
  - rewrite (pr_nodes _ _ Hp). unfold peer_nodes. by rewrite list_lookup_fmap, Hk.
  - unfold handle. rewrite Hr, Hs, Ek. apply elem_of_peers in Hj as [Hj _]. by rewrite (list_lookup_lookup_total_lt addrs j Hj).
Qed.

(** A promise comes in. *)
Lemma promise_turn c fl j w : proposing c fl -> j ∈ peers p -> carries Promise j w -> is_int (n_propose_ok (pro c) + 1) ->
  exists c' out b, let fl' := flag_set fl j (Z.lor (fl j) PAXOS_PROPOSE_OK) in
    turn_of addrs client p (Packet w) c = Ok (c', out) /\ proposing c' fl' /\
    n_propose_ok (pro c') = (n_propose_ok (pro c) + 1)%Z /\ n_propose_success (pro c') = n_propose_success (pro c) /\
    (flag b = 3%Z /\ proposalid b = 1%Z /\ value b = v) /\
    out = if majority (n_propose_ok (pro c) + 1) then (fun j => Wire p j false b) <$> filter (fun j => flagged fl' j = true) (peers p) else [].
Proof.
  intros Hp Hj (Hs & Hd & Hr & Hf & Ht) Hi. destruct (handle_reply c fl j w Hp Hj Hs Hr) as (k & Hk & Hnk & Eh). unfold turn_of. rewrite Eh.
  destruct Hp as [Hns Hn Ho Htry [Hv Hrd] (l & Hl & Hl0)].
  destruct (answer_ok (id p) c k _ (addr j) (w_body w) l Hnk Hl Hf Hi) as (c1 & -> & [Ea Et Eok Esu (Eo & En & Ei) Emaj]). cbn [mbind res_bind].
  cbn [flags node_out] in Emaj. rewrite Hns, (peer_nodes_insert p fl k j _ Hk) in Emaj. rewrite Hn in Emaj. fold (majority (n_propose_ok (pro c) + 1)) in Emaj.
  set (fl' := flag_set fl j (Z.lor (fl j) PAXOS_PROPOSE_OK)). change (Z.lor (fl j) 2) with (Z.lor (fl j) PAXOS_PROPOSE_OK) in Emaj. fold fl' in Emaj.
  assert (Hl1 : forall m, m ∈ l ++ [(proposalid (w_body w), value (w_body w))] -> m.1 = 0%Z).
  { intros m [Hm|Hm]%elem_of_app; [by apply Hl0|]. apply list_elem_of_singleton in Hm as ->. done. }
  destruct (majority _).
  - destruct Emaj as (l2 & best & Hso & Hb & Ha2 & Ev & Enodes). rewrite (Hl1 best) in Ev by (by apply (sorted_highest _ _ _ Hso Hb)). cbn [Z.ltb Z.compare] in Ev.
    rewrite (before_wait_asked c1 3 promised (peer_nodes p fl')); [|by rewrite Ev, Hv|by rewrite Ev|by rewrite Eo|done|apply peer_nodes_out]. cbn [mbind res_bind app].
    rewrite requests_peers. eexists _, _, _. split_and!; [done| |done|done| | | |done].
    + split; cbn [with_nodes nodes n_nodes o_list pro]; [done|by rewrite En|by rewrite Eo|by rewrite Et|by rewrite Ev|]. exists l2. split; [done|]. intros m Hm. apply Hl1. by rewrite (sorts_perm _ _ _ _ Hso).
    + done.
    + cbn. by rewrite Et.
    + cbn. by rewrite Ev.
  - destruct Emaj as (Ha1 & Ev & Enodes). rewrite before_wait_idle; [|split; [rewrite Enodes; apply peer_nodes_out|by rewrite Eo]]. cbn [mbind res_bind app requests omap list_omap].
    eexists _, _, (PMsg 0 0 1 3 false v). split_and!; [done| |done|done|done|done|done|done].
    split; [done|by rewrite En|by rewrite Eo|by rewrite Et|by rewrite Ev|]. by eexists.
Qed.

(** An acknowledgement comes in. *)
Lemma accepted_turn c fl j w : proposing c fl -> j ∈ peers p -> carries Accepted j w -> is_int (n_propose_success (pro c) + 1) ->
  exists c' out b, turn_of addrs client p (Packet w) c = Ok (c', out) /\ proposing c' fl /\
    n_propose_ok (pro c') = n_propose_ok (pro c) /\ n_propose_success (pro c') = (n_propose_success (pro c) + 1)%Z /\
    (flag b = 5%Z /\ value b = v) /\ out = if majority (n_propose_success (pro c) + 1) then (fun j => Wire p j false b) <$> peers p else [].
Proof.
  intros Hp Hj (Hs & Hd & Hr & Hf & Hpre) Hi. destruct (handle_reply c fl j w Hp Hj Hs Hr) as (k & Hk & Hnk & Eh). unfold turn_of. rewrite Eh.
  destruct Hp as [Hns Hn Ho Htry [Hv Hrd] Hans].
  destruct (ack_ok (id p) c k _ (addr j) (w_body w) Hnk Hf Hpre Hi) as (c1 & -> & Ea & Eo & En & Ep & Enodes). cbn [mbind res_bind].
  cbn [flags node_out] in Enodes. rewrite Hns, (peer_nodes_insert p fl k j _ Hk) in Enodes.
  assert (Efl : peer_nodes p (flag_set fl j (fl j)) = peer_nodes p fl).
  { unfold peer_nodes, flag_set. apply list_fmap_ext. intros i x _. case_decide; by subst. }
  cbn zeta in Enodes. rewrite Efl, Hn in Enodes. fold (majority (n_propose_success (pro c) + 1)) in Enodes. destruct (majority _).
  - rewrite (before_wait_asked c1 5 (fun _ => true) (peer_nodes p fl)); [|rewrite Ep; cbn; by rewrite Hv|by rewrite Ep|by rewrite Eo|done|apply peer_nodes_out]. cbn [mbind res_bind app].
    rewrite requests_peers. eexists _, _, _. split_and!; [done| |cbn; by rewrite Ep|cbn; by rewrite Ep| | |f_equal; by apply filter_all, Forall_forall].
    + split; cbn [with_nodes nodes n_nodes o_list pro]; rewrite ?Ep; cbn; try done; [by rewrite En|by rewrite Eo].
    + done.
    + cbn. by rewrite Ep.
  - rewrite before_wait_idle; [|split; [rewrite Enodes; apply peer_nodes_out|by rewrite Eo]]. cbn [mbind res_bind app requests omap list_omap].
    eexists _, _, (PMsg 0 0 0 5 false v). split_and!; [done| |by rewrite Ep|by rewrite Ep|done|done|done].
    split; rewrite ?Ep; cbn; try done; [by rewrite En|by rewrite Eo].
Qed.

(** A request comes in at an acceptor. *)
Lemma acceptor_turn c j w : idle c -> readable (value_store (acc c)) -> short (str (value_store (acc c))) ->
  (flag (w_body w) = 3%Z -> short (value (w_body w))) -> w_reply w = false ->
  exists c' r, turn_of addrs client j (Packet w) c = Ok (c', match r with Some q => [Wire j (w_src w) true q] | None => [] end) /\
    accepts (id j) c (w_body w) (acc c') r /\ idle c'.
Proof.
  intros [Hn Ho] Hr Hs Hv Hw. unfold turn_of, handle. rewrite Hw.
  destruct (acceptor_message_ok (id j) c (client (w_src w)) (w_body w) false Hr) as ([c' r] & Er); [by apply short_fits|intros Hf; by apply short_fits, Hv|].
  rewrite Er. destruct (acceptor_message_inv _ _ _ _ _ _ _ Hr Er) as (Ha & Ep & En & Eo). cbn [mbind res_bind].
  assert (Hidle : idle c') by (split; [by rewrite En|by rewrite Eo]). rewrite before_wait_idle by done. cbn [mbind res_bind requests omap list_omap].
  exists c', r. split_and!; [|done|done]. by destruct r.
Qed.

(** ** The round *)

Definition under (k : kind) (j : nat) (ws : list wire) : Prop := exists w, w ∈ ws /\ carries k j w.

Lemma carries_inj k j k' j' w : carries k j w -> carries k' j' w -> k = k' /\ j = j'.
Proof. destruct k, k'; cbn; intros H1' H2'; destruct_and!; try congruence; (split; [done|congruence]). Qed.

Lemma under_app k j l l' : under k j (l ++ l') <-> under k j l \/ under k j l'.
Proof. unfold under. setoid_rewrite elem_of_app. naive_solver. Qed.

(** Delivering [w] leaves the other packets under way. *)
Lemma under_left k j k0 j0 f1 w f2 out : under k j (f1 ++ w :: f2) -> carries k0 j0 w -> (k, j) <> (k0, j0) -> under k j (f1 ++ f2 ++ out).
Proof.
  intros (w0 & Hw0 & Hc) Hw Hne. exists w0. split; [|done]. rewrite elem_of_app, elem_of_cons in Hw0. rewrite !elem_of_app. destruct Hw0 as [?|[->|?]]; [tauto| |tauto].
  destruct (carries_inj _ _ _ _ _ Hc Hw) as [-> ->]. done.
Qed.

(** A packet counts for as much as all it can cause. *)
Definition weight_of (k : kind) : nat :=
  match k with Announce => 1 | Accepted => N + 1 | Accept => N + 2 | Promise => N * (N + 2) + 1 | Prepare => N * (N + 2) + 2 end.
Definition kind_of (w : wire) : option kind :=
  let f := flag (w_body w) in
  if (f =? 1)%Z then Some Prepare else if (f =? 2)%Z then Some Promise else if (f =? 3)%Z then Some Accept
  else if (f =? 4)%Z then Some Accepted else if (f =? 5)%Z then Some Announce else None.
Definition wire_weight (w : wire) : nat := match kind_of w with Some k => weight_of k | None => 0 end.
Definition weight (ws : list wire) : nat := sum_list_with wire_weight ws.

Lemma wire_weight_carries k j w : carries k j w -> wire_weight w = weight_of k.
Proof.
  intros Hc. assert (Hf : flag (w_body w) = match k with Prepare => 1 | Promise => 2 | Accept => 3 | Accepted => 4 | Announce => 5 end%Z) by (destruct k; apply Hc).
  unfold wire_weight, kind_of. rewrite Hf. by destruct k.
Qed.

Lemma weight_app l l' : weight (l ++ l') = weight l + weight l'.
Proof. apply sum_list_with_app. Qed.

Lemma weight_wires (b : packet) k l : (forall j, j ∈ l -> carries k j (Wire p j false b)) -> weight ((fun j => Wire p j false b) <$> l) = length l * weight_of k.
Proof.
  induction l as [|j l IH]; intros Hc; [done|]. rewrite fmap_cons. cbn [weight sum_list_with length]. fold (weight ((fun j => Wire p j false b) <$> l)).
  rewrite (wire_weight_carries k j) by (apply Hc; by left). rewrite IH by (intros; apply Hc; by right). lia.
Qed.

(** The acceptor [j], the packets under way, the flags, how many promises, and who has acknowledged. *)
Record acceptor_at (ws : list wire) (fl : nat -> Z) (ok : Z) (A : list nat) (j : nat) (c : paxos_ctx) : Prop := {
  at_idle : idle c;
  at_readable : readable (value_store (acc c)) /\ short (str (value_store (acc c)));
  at_stage : (t_max (acc c) = 0%Z /\ t_store (acc c) = 0%Z /\ flagged fl j = false /\ ~ under Promise j ws /\ under Prepare j ws) \/
             (t_max (acc c) = 1%Z /\ (flagged fl j = true \/ under Promise j ws));
  at_asked : flagged fl j = true -> majority ok = true -> t_store (acc c) = 1%Z \/ under Accept j ws;
  at_stored : t_store (acc c) = 1%Z -> str (value_store (acc c)) = v /\ (j ∈ A \/ under Accepted j ws);
}.

Record round (W : Z) (st : traffic) (cp : paxos_ctx) (fl : nat -> Z) (A B : list nat) : Prop := {
  rd_p : nodes_of st !! p = Some cp;
  rd_proposing : proposing cp fl;
  rd_acceptors : forall j, j ∈ peers p -> exists c, nodes_of st !! j = Some c /\ acceptor_at (flight st) fl (n_propose_ok (pro cp)) A j c;
  rd_flight : forall w, w ∈ flight st -> exists k j, j ∈ peers p /\ carries k j w;
  rd_promises : n_propose_ok (pro cp) = Z.of_nat (length B) /\ forall j, j ∈ peers p -> flagged fl j = true -> j ∈ B;
  rd_acks : n_propose_success (pro cp) = Z.of_nat (length A);
  rd_announced : majority (n_propose_success (pro cp)) = true -> forall j, j ∈ peers p -> under Announce j (log st);
  rd_bound : (n_propose_ok (pro cp) + n_propose_success (pro cp) + Z.of_nat (weight (flight st)) <= W)%Z;
}.

(** An acceptor that is not concerned. *)
Lemma acceptor_at_left f1 w f2 out fl ok A j c k0 j0 : acceptor_at (f1 ++ w :: f2) fl ok A j c -> carries k0 j0 w -> j <> j0 -> ~ under Promise j out ->
  acceptor_at (f1 ++ f2 ++ out) fl ok A j c.
Proof.
  intros [Hi Hr Hs Ha Ht] Hw Hj Hout. assert (Hl : forall k, under k j (f1 ++ w :: f2) -> under k j (f1 ++ f2 ++ out)) by (intros k Hu; eapply under_left; [exact Hu|exact Hw|congruence]).
  split; [done|done| | |].
  - destruct Hs as [(H1' & H2' & H3' & H4' & H5')|(H1' & H2')]; [left|right].
    + split_and!; [done|done|done| |by apply Hl]. intros Hu. rewrite !under_app in Hu. apply H4'. rewrite under_app. destruct Hu as [Hu|[Hu|Hu]]; [by left| |done].
      right. destruct Hu as (w0 & ? & ?). exists w0. split; [set_solver|done].
    + split; [done|]. destruct H2'; [by left|right; by apply Hl].
  - intros Hf Hm. destruct (Ha Hf Hm); [by left|right; by apply Hl].
  - intros Hst. destruct (Ht Hst) as [? [?|?]]; (split; [done|]); [by left|right; by apply Hl].
Qed.

Lemma under_sub k j f1 w f2 : under k j (f1 ++ f2 ++ []) -> under k j (f1 ++ w :: f2).
Proof. intros (w0 & Hw0 & Hc). exists w0. split; [|done]. rewrite !elem_of_app in *. rewrite elem_of_cons. set_solver. Qed.

(** The acceptor a request is delivered to, and its answer. *)
Lemma acceptor_step f1 w f2 fl ok A j c k : acceptor_at (f1 ++ w :: f2) fl ok A j c -> carries k j w -> w_reply w = false ->
  exists c' out, turn_of addrs client j (Packet w) c = Ok (c', out) /\ acceptor_at (f1 ++ f2 ++ out) fl ok A j c' /\
    (forall w', w' ∈ out -> exists k', carries k' j w') /\ weight out < weight_of k.
Proof.
  intros [Hi Hr Hs Ha Ht] Hw Hrep. destruct (acceptor_turn c j w Hi (proj1 Hr) (proj2 Hr)) as (c' & r & Et & Hacc & Hi'); [|done|].
  { intros Hf. assert (k = Accept) as -> by (destruct k; cbn in Hw; destruct_and?; congruence). destruct Hw as (_ & _ & _ & _ & _ & ->). done. }
  assert (Hcpy : value (w_body w) = v -> readable (sdscpylen (value_store (acc c)) (value (w_body w))) /\ short (str (sdscpylen (value_store (acc c)) (value (w_body w))))).
  { intros ->. split; [apply readable_cpy|]. by rewrite (proj1 (sdscpylen_law _ _)). }
  assert (Hl : forall out k', k' <> k -> under k' j (f1 ++ w :: f2) -> under k' j (f1 ++ f2 ++ out)) by (intros out k' Hk Hu; eapply under_left; [exact Hu|exact Hw|congruence]).
  assert (Hsrc : w_src w = p) by (destruct k; cbn in Hw; destruct_and?; congruence). rewrite Hsrc in Et.
  exists c'. eexists. split; [exact Et|]. clear Et.
  inversion Hacc as [Hf Hlt Ea|Hf Eq Ea|Hf Ea|Hf5 Hf1 Hf3 Ea]; subst r.
  - assert (k = Prepare) as -> by (destruct k; cbn in Hw; destruct_and?; congruence). destruct Hw as (_ & _ & _ & _ & Hpid). destruct Hs as [(H1' & H2' & H3' & _)|[H1' _]]; [|lia].
    split; [split; [done|by rewrite <- Ea| | |]|]; rewrite <- ?Ea; cbn [t_max t_store value_store].
    + right. split; [done|]. right. rewrite !under_app. right. right. eexists. split; [by left|]. cbn. by rewrite H2'.
    + congruence.
    + congruence.
    + split; [|cbn; lia]. intros w' ->%list_elem_of_singleton. exists Promise. cbn. by rewrite H2'.
  - assert (k = Accept) as -> by (destruct k; cbn in Hw; destruct_and?; congruence). destruct Hw as (_ & _ & _ & _ & Hpid & Hv). destruct Hs as [(H1' & _)|[H1' H2']]; [lia|].
    split; [split; [done|rewrite <- Ea; by apply Hcpy| | |]|]; rewrite <- ?Ea; cbn [t_max t_store value_store].
    + right. split; [done|]. destruct H2'; [by left|right; by apply Hl].
    + intros _ _. left. congruence.
    + intros _. rewrite (proj1 (sdscpylen_law _ _)). split; [done|]. right. rewrite !under_app. right. right. eexists. split; [by left|]. done.
    + split; [|cbn; lia]. intros w' ->%list_elem_of_singleton. by exists Accepted.
  - assert (k = Announce) as -> by (destruct k; cbn in Hw; destruct_and?; congruence). destruct Hw as (_ & _ & _ & _ & Hv).
    split; [split; [done|rewrite <- Ea; by apply Hcpy| | |]|]; rewrite <- ?Ea; cbn [t_max t_store value_store].
    + destruct Hs as [(H1' & H2' & H3' & H4' & H5')|(H1' & H2')]; [left|right].
      * split_and!; [done|done|done| |by apply Hl]. intros Hu. apply H4'. by apply under_sub.
      * split; [done|]. destruct H2'; [by left|right; by apply Hl].
    + intros Hfl Hm. destruct (Ha Hfl Hm); [by left|right; by apply Hl].
    + intros Hst. rewrite (proj1 (sdscpylen_law _ _)). split; [done|]. destruct (Ht Hst) as [_ [?|?]]; [by left|right; by apply Hl].
    + split; [|cbn; lia]. intros w' Hw'. by apply not_elem_of_nil in Hw'.
  - assert (Hk : k = Prepare \/ k = Accept) by (destruct k; cbn in Hw; destruct_and?; try congruence; tauto).
    split; [split; [done|by rewrite <- Ea| | |]|]; rewrite <- ?Ea.
    + destruct Hk as [-> | ->]; destruct Hw as (_ & _ & _ & Hf & Hpid & Hrest) || destruct Hw as (_ & _ & _ & Hf & Hpid).
      * destruct Hs as [(H1' & _)|(H1' & H2')]; [exfalso; apply Hf1; split; [done|lia]|]. right. split; [done|]. destruct H2'; [by left|right; by apply Hl].
      * destruct Hs as [(H1' & H2' & H3' & H4' & H5')|(H1' & H2')]; [|exfalso; apply Hf3; split; [done|lia]]. left.
        split_and!; [done|done|done| |by apply Hl]. intros Hu. apply H4'. by apply under_sub.
    + destruct Hk as [-> | ->]; destruct Hw as (_ & _ & _ & Hf & Hpid & Hrest) || destruct Hw as (_ & _ & _ & Hf & Hpid).
      * intros Hfl Hm. destruct (Ha Hfl Hm); [by left|right; by apply Hl].
      * intros Hfl Hm. destruct Hs as [(_ & _ & H3' & _)|(H1' & H2')]; [congruence|exfalso; apply Hf3; split; [done|lia]].
    + intros Hst. destruct (Ht Hst) as [? [?|?]]; (split; [done|]); [by left|right; apply Hl; [destruct Hk as [-> | ->]; done|done]].
    + split; [|destruct k; cbn; lia]. intros w' Hw'. by apply not_elem_of_nil in Hw'.
Qed.

Lemma flagged_set fl j i : flagged (flag_set fl j (Z.lor (fl j) PAXOS_PROPOSE_OK)) i = (if decide (i = j) then true else flagged fl i).
Proof.
  unfold flagged, flag_set. destruct (decide (i = j)); [|done]. apply negb_true_iff, Z.eqb_neq. intros Hz.
  apply (f_equal (fun z => Z.testbit z 1)) in Hz. rewrite Z.land_spec, Z.lor_spec, orb_true_r in Hz. done.
Qed.

Lemma under_wires (b : packet) k (l : list nat) j : (forall i, carries k i (Wire p i false b)) -> under k j ((fun i => Wire p i false b) <$> l) <-> j ∈ l.
Proof.
  intros Hc. split.
  - intros (w & (i & -> & Hi)%list_elem_of_fmap & Hw). destruct (carries_inj _ _ _ _ _ Hw (Hc i)) as [_ ->]. done.
  - intros Hj. exists (Wire p j false b). split; [|done]. apply list_elem_of_fmap. by exists j.
Qed.

Lemma under_wires_other (b : packet) k k' (l : list nat) j : (forall i, carries k i (Wire p i false b)) -> k' <> k -> ~ under k' j ((fun i => Wire p i false b) <$> l).
Proof. intros Hc Hk (w & (i & -> & Hi)%list_elem_of_fmap & Hw). by destruct (carries_inj _ _ _ _ _ Hw (Hc i)) as [-> _]. Qed.

(** The acceptors after a promise or an acknowledgement came in. *)
Lemma acceptor_at_promised f1 w f2 fl ok A j c j0 b : acceptor_at (f1 ++ w :: f2) fl ok A j c -> j ∈ peers p -> carries Promise j0 w -> (forall i, carries Accept i (Wire p i false b)) ->
  let fl' := flag_set fl j0 (Z.lor (fl j0) PAXOS_PROPOSE_OK) in
  acceptor_at (f1 ++ f2 ++ (if majority (ok + 1) then (fun i => Wire p i false b) <$> filter (fun i => flagged fl' i = true) (peers p) else [])) fl' (ok + 1) A j c.
Proof.
  intros [Hi Hr Hs Ha Ht] Hj Hw Hb fl'. set (out := if majority (ok + 1) then _ else _).
  assert (Hl : forall k, (k, j) <> (Promise, j0) -> under k j (f1 ++ w :: f2) -> under k j (f1 ++ f2 ++ out)) by (intros k Hne Hu; by eapply under_left).
  assert (Hno : ~ under Promise j out).
  { subst out. destruct (majority (ok + 1)); [by apply (under_wires_other b Accept)|]. intros (w0 & Hw0 & _). by apply not_elem_of_nil in Hw0. }
  split; [done|done| | |].
  - destruct Hs as [(H1' & H2' & H3' & H4' & H5')|(H1' & H2')].
    + assert (j <> j0) by (intros ->; apply H4'; exists w; split; [set_solver|done]). left. split_and!; [done|done| | |apply Hl; [congruence|done]].
      * unfold fl'. rewrite flagged_set. by rewrite decide_False.
      * intros Hu. rewrite !under_app in Hu. apply H4'. rewrite under_app. destruct Hu as [Hu|[Hu|Hu]]; [by left| |done]. right. destruct Hu as (w0 & ? & ?). exists w0. split; [set_solver|done].
    + right. split; [done|]. unfold fl'. rewrite flagged_set. destruct (decide (j = j0)) as [->|Hne]; [by left|]. destruct H2'; [by left|right; apply Hl; [congruence|done]].
  - intros Hfl Hm. right. rewrite !under_app. right. right. subst out. rewrite Hm. apply (under_wires b Accept); [done|]. apply list_elem_of_filter. done.
  - intros Hst. destruct (Ht Hst) as [? [?|?]]; (split; [done|]); [by left|right; by apply Hl].
Qed.

Lemma acceptor_at_accepted f1 w f2 fl ok A j c j0 b (n : Z) : acceptor_at (f1 ++ w :: f2) fl ok A j c -> carries Accepted j0 w -> (forall i, carries Announce i (Wire p i false b)) ->
  acceptor_at (f1 ++ f2 ++ (if majority n then (fun i => Wire p i false b) <$> peers p else [])) fl ok (j0 :: A) j c.
Proof.
  intros [Hi Hr Hs Ha Ht] Hw Hb. set (out := if majority n then _ else _).
  assert (Hl : forall k, (k, j) <> (Accepted, j0) -> under k j (f1 ++ w :: f2) -> under k j (f1 ++ f2 ++ out)) by (intros k Hne Hu; by eapply under_left).
  assert (Hno : ~ under Promise j out).
  { subst out. destruct (majority n); [by apply (under_wires_other b Announce)|]. intros (w0 & Hw0 & _). by apply not_elem_of_nil in Hw0. }
  split; [done|done| | |].
  - destruct Hs as [(H1' & H2' & H3' & H4' & H5')|(H1' & H2')]; [left|right].
    + split_and!; [done|done|done| |by apply Hl].
      intros Hu. rewrite !under_app in Hu. apply H4'. rewrite under_app. destruct Hu as [Hu|[Hu|Hu]]; [by left| |done]. right. destruct Hu as (w0 & ? & ?). exists w0. split; [set_solver|done].
    + split; [done|]. destruct H2'; [by left|right; by apply Hl].
  - intros Hfl Hm. destruct (Ha Hfl Hm); [by left|right; by apply Hl].
  - intros Hst. destruct (Ht Hst) as [? [?|?]]; (split; [done|]); [left; by right|]. destruct (decide (j = j0)) as [->|Hne]; [left; by left|]. right. apply Hl; [congruence|done].
Qed.

Lemma weight_split f1 w f2 out : weight (f1 ++ f2 ++ out) + wire_weight w = weight (f1 ++ w :: f2) + weight out.
Proof. rewrite !weight_app. change (weight (w :: f2)) with (wire_weight w + weight f2). lia. Qed.

Lemma flight_left (P : wire -> Prop) f1 w f2 out : (forall w', w' ∈ f1 ++ w :: f2 -> P w') -> (forall w', w' ∈ out -> P w') -> forall w', w' ∈ f1 ++ f2 ++ out -> P w'.
Proof. intros H1' H2' w' Hw'. rewrite !elem_of_app in Hw'. destruct Hw' as [?|[?|?]]; [apply H1'; set_solver|apply H1'; set_solver|by apply H2']. Qed.

Lemma weight_of_pos k : 0 < weight_of k.
Proof. destruct k; cbn; lia. Qed.

Section steps.
Context (W : Z) (HW : (W <= INT_MAX)%Z) (Hp : p < N).

(** What a delivery to [i] does. *)
Definition delivers (st : traffic) (f1 : list wire) (w : wire) (f2 : list wire) : Prop :=
  exists c c' out, nodes_of st !! w_dst w = Some c /\ turn_of addrs client (w_dst w) (Packet w) c = Ok (c', out) /\
    weight (f1 ++ f2 ++ out) < weight (flight st) /\
    exists cp' fl' A' B', round W (Traffic (<[w_dst w := c']> (nodes_of st)) (f1 ++ f2 ++ out) (log st ++ out)) cp' fl' A' B'.

Lemma request_step st cp fl A B f1 w f2 j k : round W st cp fl A B -> flight st = f1 ++ w :: f2 -> j ∈ peers p -> carries k j w -> w_reply w = false -> delivers st f1 w f2.
Proof.
  intros [Hcp Hpr Hacc Hfl Hprom Hack Hann Hbd] Ef Hj Hw Hrep. rewrite Ef in Hacc, Hfl, Hbd.
  assert (Hd : w_dst w = j) by (destruct k; cbn in Hw; destruct_and?; congruence).
  destruct (Hacc j Hj) as (c & Hc & Hat). destruct (acceptor_step f1 w f2 fl _ A j c k Hat Hw Hrep) as (c' & out & Et & Hat' & Hout & Hwt).
  exists c, c', out. rewrite Hd. pose proof (weight_split f1 w f2 out) as Hs. rewrite (wire_weight_carries k j w Hw) in Hs. split_and!; [done|done|rewrite Ef; lia|].
  apply elem_of_peers in Hj as [HjN Hjp]. exists cp, fl, A, B. split; cbn [nodes_of flight log].
  - by rewrite list_lookup_insert_ne.
  - done.
  - intros i Hi. destruct (decide (i = j)) as [->|Hne].
    + exists c'. split; [|done]. apply list_lookup_insert_eq. by apply lookup_lt_Some in Hc.
    + destruct (Hacc i Hi) as (ci & Hci & Hati). exists ci. split; [by rewrite list_lookup_insert_ne|]. eapply acceptor_at_left; [exact Hati|exact Hw|done|].
      intros (w' & Hw' & Hcw). destruct (Hout w' Hw') as (k' & Hk'). destruct (carries_inj _ _ _ _ _ Hcw Hk') as [_ ->]. done.
  - apply (flight_left _ f1 w); [done|]. intros w' Hw'. destruct (Hout w' Hw') as (k' & Hk'). exists k', j. split; [by apply elem_of_peers|done].
  - done.
  - done.
  - intros Hm i Hi. apply under_app. left. by apply Hann.
  - lia.
Qed.

Lemma carries_wire k b i : flag b = (match k with Accept => 3 | _ => 5 end)%Z -> proposalid b = 1%Z \/ k = Announce -> value b = v -> k = Accept \/ k = Announce -> carries k i (Wire p i false b).
Proof. intros Hf Hpid Hv [-> | ->]; cbn; destruct Hpid; by try done. Qed.

Lemma promise_step st cp fl A B f1 w f2 j : round W st cp fl A B -> flight st = f1 ++ w :: f2 -> j ∈ peers p -> carries Promise j w -> delivers st f1 w f2.
Proof.
  intros [Hcp Hpr Hacc Hfl [Hok HB] Hack Hann Hbd] Ef Hj Hw. rewrite Ef in Hacc, Hfl, Hbd.
  assert (Hd : w_dst w = p) by apply Hw. pose proof (weight_split f1 w f2 []) as Hs0. rewrite (wire_weight_carries Promise j w Hw) in Hs0. change (weight []) with 0 in Hs0. pose proof (weight_of_pos Promise) as Hpos.
  destruct (promise_turn cp fl j w Hpr Hj Hw) as (c' & out & b & Et & Hpr' & Eok & Esu & (Hf & Hpid & Hv) & Eout); [unfold is_int, INT_MIN; lia|].
  assert (Hb : forall i, carries Accept i (Wire p i false b)) by (intros i; by apply carries_wire; auto).
  set (fl' := flag_set fl j (Z.lor (fl j) PAXOS_PROPOSE_OK)) in *.
  assert (Hwo : weight out <= N * (N + 2)).
  { rewrite Eout. destruct (majority (n_propose_ok (pro cp) + 1)); [|apply Nat.le_0_l]. rewrite (weight_wires b Accept) by (intros; apply Hb). cbn [weight_of].
    pose proof (length_peers p Hp). apply Nat.mul_le_mono_r. etrans; [apply length_filter|lia]. }
  exists cp, c', out. rewrite Hd. pose proof (weight_split f1 w f2 out) as Hs. rewrite (wire_weight_carries Promise j w Hw) in Hs. cbn [weight_of] in Hs. split_and!; [done|done|rewrite Ef; lia|].
  exists c', fl', A, (j :: B). split; cbn [nodes_of flight log].
  - apply list_lookup_insert_eq. by apply lookup_lt_Some in Hcp.
  - done.
  - intros i Hi. destruct (Hacc i Hi) as (ci & Hci & Hati). exists ci. split.
    + apply elem_of_peers in Hi as [_ Hip]. by rewrite list_lookup_insert_ne.
    + rewrite Eok, Eout. eapply acceptor_at_promised; [exact Hati|done|exact Hw|exact Hb].
  - apply (flight_left _ f1 w); [done|]. intros w' Hw'. rewrite Eout in Hw'. destruct (majority (n_propose_ok (pro cp) + 1)); [|by apply not_elem_of_nil in Hw'].
    apply list_elem_of_fmap in Hw' as (i & -> & Hi). apply list_elem_of_filter in Hi as [_ Hi]. by exists Accept, i.
  - split; [rewrite Eok, Hok; cbn; lia|]. intros i Hi Hfi. unfold fl' in Hfi. rewrite flagged_set in Hfi. destruct (decide (i = j)) as [->|]; [by left|right; by apply HB].
  - by rewrite Esu.
  - rewrite Esu. intros Hm i Hi. apply under_app. left. by apply Hann.
  - rewrite Eok, Esu. lia.
Qed.

Lemma accepted_step st cp fl A B f1 w f2 j : round W st cp fl A B -> flight st = f1 ++ w :: f2 -> j ∈ peers p -> carries Accepted j w -> delivers st f1 w f2.
Proof.
  intros [Hcp Hpr Hacc Hfl Hprom Hack Hann Hbd] Ef Hj Hw. rewrite Ef in Hacc, Hfl, Hbd.
  assert (Hd : w_dst w = p) by apply Hw. pose proof (weight_split f1 w f2 []) as Hs0. rewrite (wire_weight_carries Accepted j w Hw) in Hs0. change (weight []) with 0 in Hs0. pose proof (weight_of_pos Accepted) as Hpos.
  destruct (accepted_turn cp fl j w Hpr Hj Hw) as (c' & out & b & Et & Hpr' & Eok & Esu & (Hf & Hv) & Eout); [destruct Hprom; unfold is_int, INT_MIN; lia|].
  assert (Hb : forall i, carries Announce i (Wire p i false b)) by (intros i; by apply carries_wire; auto).
  assert (Hwo : weight out <= N).
  { rewrite Eout. destruct (majority (n_propose_success (pro cp) + 1)); [|apply Nat.le_0_l]. rewrite (weight_wires b Announce) by (intros; apply Hb). cbn [weight_of]. pose proof (length_peers p Hp). lia. }
  exists cp, c', out. rewrite Hd. pose proof (weight_split f1 w f2 out) as Hs. rewrite (wire_weight_carries Accepted j w Hw) in Hs. cbn [weight_of] in Hs. split_and!; [done|done|rewrite Ef; lia|].
  exists c', fl, (j :: A), B. split; cbn [nodes_of flight log].
  - apply list_lookup_insert_eq. by apply lookup_lt_Some in Hcp.
  - done.
  - intros i Hi. destruct (Hacc i Hi) as (ci & Hci & Hati). exists ci. split.
    + apply elem_of_peers in Hi as [_ Hip]. by rewrite list_lookup_insert_ne.
    + rewrite Eok, Eout. by eapply acceptor_at_accepted.
  - apply (flight_left _ f1 w); [done|]. intros w' Hw'. rewrite Eout in Hw'. destruct (majority (n_propose_success (pro cp) + 1)); [|by apply not_elem_of_nil in Hw'].
    apply list_elem_of_fmap in Hw' as (i & -> & Hi). by exists Announce, i.
  - by rewrite Eok.
  - rewrite Esu, Hack. cbn. lia.
  - rewrite Esu. intros Hm i Hi. apply under_app. right. rewrite Eout, Hm. by apply (under_wires b Announce).
  - rewrite Eok, Esu. lia.
Qed.

Lemma round_step st cp fl A B f1 w f2 : round W st cp fl A B -> flight st = f1 ++ w :: f2 -> delivers st f1 w f2.
Proof.
  intros Hr Ef. destruct (rd_flight _ _ _ _ _ _ Hr w) as (k & j & Hj & Hw); [rewrite Ef; set_solver|].
  destruct k; [eapply request_step|eapply promise_step|eapply request_step|eapply accepted_step|eapply request_step]; try done; try exact Hr; try exact Hw; cbn in Hw; destruct_and?; done.
Qed.

(** At rest. *)
Lemma round_rest st cp fl A B : 3 <= N -> round W st cp fl A B -> flight st = [] -> forall j, j ∈ peers p ->
  (exists c, nodes_of st !! j = Some c /\ t_store (acc c) = 1%Z /\ str (value_store (acc c)) = v) /\ under Announce j (log st).
Proof.
  intros HN [Hcp Hpr Hacc Hfl [Hok HB] Hack Hann Hbd] Ef. rewrite Ef in Hacc.
  assert (Hnone : forall k j, ~ under k j []) by (intros k j (w & Hw & _); by apply not_elem_of_nil in Hw).
  pose proof (length_peers p Hp) as HL.
  assert (Hmaj : forall L : list nat, (forall j, j ∈ peers p -> j ∈ L) -> majority (Z.of_nat (length L)) = true).
  { intros L HLi. assert (length (peers p) <= length L) by (apply submseteq_length, NoDup_submseteq; [apply NoDup_peers|done]).
    unfold majority. apply Z.ltb_lt. apply Z.quot_lt_upper_bound; lia. }
  assert (Hflag : forall j, j ∈ peers p -> flagged fl j = true).
  { intros j Hj. destruct (Hacc j Hj) as (c & _ & [_ _ Hs _ _]). destruct Hs as [(_ & _ & _ & _ & Hu)|(_ & [?|Hu])]; [by apply Hnone in Hu|done|by apply Hnone in Hu]. }
  assert (Hmok : majority (n_propose_ok (pro cp)) = true) by (rewrite Hok; apply Hmaj; auto).
  assert (Hst : forall j, j ∈ peers p -> exists c, nodes_of st !! j = Some c /\ t_store (acc c) = 1%Z /\ str (value_store (acc c)) = v /\ j ∈ A).
  { intros j Hj. destruct (Hacc j Hj) as (c & Hc & [_ _ _ Ha Ht]). destruct (Ha (Hflag j Hj) Hmok) as [Hst|Hu]; [|by apply Hnone in Hu].
    destruct (Ht Hst) as [? [?|Hu]]; [by exists c|by apply Hnone in Hu]. }
  assert (Hms : majority (n_propose_success (pro cp)) = true) by (rewrite Hack; apply Hmaj; intros j Hj; by destruct (Hst j Hj) as (? & ? & ? & ? & ?)).
  intros j Hj. split; [|by apply Hann]. destruct (Hst j Hj) as (c & ? & ? & ? & ?). by exists c.
Qed.
End steps.

(** ** The start *)

(** An address as the configuration must have it: [strncpy] into ["127.0.0.1"] leaves the end of that text
    behind a shorter one. *)
Definition well_formed (a : Paxos.addr) : Prop := 58%Z ∉ a.1 /\ 0%Z ∉ a.1 /\ 9 <= length a.1 < 64.

Lemma strchr_app x l r : x ∉ l -> strchr x (l ++ x :: r) = Some (length l).
Proof.
  induction l as [|y l IH]; intros Hx; cbn [app strchr length].
  - by rewrite Z.eqb_refl.
  - apply not_elem_of_cons in Hx as [H1' H2']. rewrite (proj2 (Z.eqb_neq y x)) by congruence. by rewrite IH.
Qed.

Lemma strchr_text a : well_formed a -> strchr 58 (text_of a) = Some (length a.1).
Proof. intros (Ha & _). by apply (strchr_app 58 a.1 a.2). Qed.

Lemma text_of_inj a b : well_formed a -> well_formed b -> text_of a = text_of b -> a = b.
Proof.
  intros Ha Hb Et. pose proof (strchr_text a Ha) as E1. rewrite Et, (strchr_text b Hb) in E1. injection E1 as El.
  destruct a as [a1 a2], b as [b1 b2]. unfold text_of in Et. cbn [fst snd] in *. apply app_inj_1 in Et as [-> Et]; [|done]. by injection Et as ->.
Qed.

Lemma strncpy_text a : well_formed a -> strncpy_ip (text_of a) (length a.1) = Ok a.1.
Proof.
  intros (_ & H0' & Hl). unfold strncpy_ip. rewrite decide_True by lia. unfold text_of. rewrite take_app_length.
  assert (Ed : drop (length a.1) (localhost ++ replicate 55 0%Z) = 0%Z :: replicate (63 - length a.1) 0%Z).
  { rewrite drop_app_ge by (cbn; lia). rewrite drop_replicate. cbn [localhost length]. destruct (55 - (length a.1 - 9)) as [|m] eqn:Em; [lia|]. cbn [replicate]. do 2 f_equal. lia. }
  rewrite Ed, strchr_app by done. by rewrite take_app_length.
Qed.

Lemma init_nodes_ok a l : well_formed a -> Forall well_formed l -> forall ns (n : nat), (Z.of_nat (n + length l) <= INT_MAX)%Z ->
  init_nodes (text_of a) [] (text_of <$> l) ns (Z.of_nat n)
  = Ok (true, ns ++ ((fun b => Node 0 b []) <$> filter (fun b => b <> a) l), Z.of_nat (n + length (filter (fun b => b <> a) l))).
Proof.
  intros Ha. induction 1 as [|b l Hb _ IH]; intros ns n Hn; [cbn; by rewrite app_nil_r, Nat.add_0_r|]. rewrite fmap_cons. cbn [init_nodes].
  destruct (decide (b = a)) as [->|Hne].
  - rewrite decide_True by done. rewrite filter_cons_False by tauto. apply IH. cbn in Hn. lia.
  - rewrite decide_False by (intros Et; by apply Hne, text_of_inj). rewrite strchr_text by done. rewrite strncpy_text by done. cbn [mbind res_bind head default from_option tail].
    rewrite ck_ok by (unfold is_int, INT_MIN; cbn in Hn; lia). cbn [mbind res_bind]. replace (Z.of_nat n + 1)%Z with (Z.of_nat (S n)) by lia.
    assert (Ed : drop (S (length b.1)) (text_of b) = b.2) by (unfold text_of; rewrite drop_app_ge by lia; by replace (S (length b.1) - length b.1) with 1 by lia).
    rewrite Ed, IH by (cbn in Hn; lia). rewrite filter_cons_True by done. rewrite <- app_assoc. cbn [length]. destruct b as [b1 b2]. cbn. do 2 f_equal. f_equal. lia.
Qed.

(** A node that has just started. *)
Record fresh (j : nat) (c : paxos_ctx) : Prop := {
  fr_nodes : nodes c = peer_nodes j (fun _ => 0%Z);
  fr_n : n_nodes c = Z.of_nat N;
  fr_o_list : o_list c = [];
  fr_acc : t_max (acc c) = 0%Z /\ t_store (acc c) = 0%Z /\ readable (value_store (acc c)) /\ str (value_store (acc c)) = [];
  fr_try : t_try (pro c) = 0%Z;
  fr_answers : answers_are (propose_ok_list (pro c)) [];
}.

Lemma filter_addrs j : j < N -> filter (fun b => b <> addr j) addrs = (fun i => addr i) <$> peers j.
Proof.
  intros Hj. assert (Ea : addrs = (fun i => addr i) <$> seq 0 N).
  { apply list_eq. intros i. rewrite list_lookup_fmap. destruct (decide (i < N)) as [Hi|Hi].
    - rewrite lookup_seq_lt by done. cbn. by apply list_lookup_lookup_total_lt.
    - rewrite lookup_seq_ge by lia. apply lookup_ge_None_2. lia. }
  rewrite Ea at 1. clear Ea. unfold PaxosNet.peers. assert (Hall : Forall (fun i => i < N) (seq 0 N)) by (apply Forall_forall; intros i Hi%elem_of_seq; lia).
  induction Hall as [|i l Hi _ IH]; [done|]. rewrite fmap_cons. destruct (decide (i = j)) as [->|Hne].
  - rewrite !filter_cons_False by tauto. exact IH.
  - rewrite (filter_cons_True (fun i => i <> j)) by done. rewrite filter_cons_True; [by rewrite fmap_cons, IH|]. intros Eq. apply Hne.
    eapply NoDup_lookup; [exact ND|by apply list_lookup_lookup_total_lt|]. rewrite Eq. by apply list_lookup_lookup_total_lt.
Qed.

Lemma paxos_init_fresh j : Forall well_formed addrs -> (Z.of_nat N <= INT_MAX)%Z -> j < N ->
  exists c, paxos_init (text_of (addr j)) (text_of <$> addrs) [] None = Ok (0%Z, c) /\ fresh j c.
Proof.
  intros Hwf HN Hj. unfold paxos_init. destruct (init_law 0 {[0 := Elem None None None]}) as (h & -> & Lh & _); [by rewrite lookup_singleton_eq; eexists|]. cbn [mbind res_bind].
  assert (Ha : well_formed (addr j)) by (rewrite Forall_lookup in Hwf; apply (Hwf j); by apply list_lookup_lookup_total_lt).
  rewrite (init_nodes_ok (addr j) addrs Ha Hwf [] 0 HN : init_nodes (text_of (addr j)) [] (text_of <$> addrs) [] 0 = _). cbn [mbind res_bind app].
  rewrite filter_addrs by done. rewrite length_fmap. pose proof (length_peers j Hj) as HL. rewrite ck_ok by (unfold is_int, INT_MIN; lia). cbn [mbind res_bind].
  eexists. split; [done|]. split; cbn; try done.
  - by rewrite <- list_fmap_compose.
  - lia.
  - split_and!; [done|done| |apply sdsempty_law]. destruct sdsempty_law as [_ H2']. unfold readable. rewrite H2'. lia.
  - exists []. split; [done|]. split; [apply NoDup_singleton|constructor].
Qed.

Lemma init_all_fresh : Forall well_formed addrs -> (Z.of_nat N <= INT_MAX)%Z ->
  exists cs, init_all addrs text_of = Ok (Cl cs [] []) /\ length cs = N /\ forall j, j < N -> exists c, cs !! j = Some c /\ fresh j c.
Proof.
  intros Hwf HN. unfold init_all.
  assert (Hl : forall l k, drop k addrs = l -> exists cs, foldr (fun a (cs : res (list paxos_ctx)) => '(_, c) ← paxos_init (text_of a) (text_of <$> addrs) [] None; cs ← cs; Ok (c :: cs)) (Ok []) l = Ok cs /\
    length cs = length l /\ forall j, j < length l -> exists c, cs !! j = Some c /\ fresh (k + j) c).
  { induction l as [|a l IH]; intros k Hk; [exists []; split_and!; [done|done|cbn; lia]|]. cbn [foldr].
    assert (Hka : addrs !! k = Some a) by (rewrite <- (Nat.add_0_r k), <- lookup_drop, Hk; done). pose proof (lookup_lt_Some _ _ _ Hka) as HkN.
    pose proof (list_lookup_total_correct _ _ _ Hka) as Ea.
    destruct (paxos_init_fresh k Hwf HN HkN) as (c & Ec & Hc). rewrite Ea in Ec. rewrite Ec. cbn [mbind res_bind].
    destruct (IH (S k)) as (cs & -> & Hlen & Hcs); [rewrite <- (Nat.add_1_r k), <- drop_drop, Hk; done|]. cbn [mbind res_bind]. exists (c :: cs). split_and!; [done|cbn; lia|].
    intros [|j] Hj; [exists c; by rewrite Nat.add_0_r|]. cbn in Hj. destruct (Hcs j ltac:(lia)) as (cj & ? & ?). exists cj. split; [done|]. by rewrite Nat.add_succ_r. }
  destruct (Hl addrs 0 eq_refl) as (cs & -> & Hlen & Hcs). cbn [mbind res_bind]. by exists cs.
Qed.

Lemma echo_turn c : fresh p c -> exists c' b, turn_of addrs client p (Cmd v) c = Ok (c', (fun j => Wire p j false b) <$> peers p) /\
  proposing c' (fun _ => 0%Z) /\ n_propose_ok (pro c') = 0%Z /\ n_propose_success (pro c') = 0%Z /\ flag b = 1%Z /\ proposalid b = 1%Z.
Proof.
  intros [Hns Hn Ho Hacc Ht Ha]. unfold turn_of, handle, paxos_echo.
  set (c0 := with_pro c _). destruct (paxos_prepare_ok (id p) c0 [] Ha) as (c1 & -> & [Ra Rt Rv Rl [Rc1 Rc2] Rn (Ro & Rnn & Ri)]). cbn [mbind res_bind].
  cbn [c0 pro with_pro t_try value_try nodes n_nodes] in Rt, Rv, Rn, Rnn. rewrite Hns in Rn.
  rewrite (before_wait_asked c1 1 (fun _ => true) (peer_nodes p (fun _ => 0%Z))); [|rewrite Rv; by rewrite (proj1 (sdscpylen_law _ _))|rewrite Rv; apply readable_cpy|done|done|apply peer_nodes_out]. cbn [mbind res_bind app].
  rewrite requests_peers. rewrite (filter_all (fun _ => true = true)) by (by apply Forall_forall). eexists _, _. split; [done|]. split; [|split_and!; [done|done|done|cbn; by rewrite Rt, Ht]].
  split; cbn [with_nodes nodes n_nodes o_list pro]; [done|by rewrite Rnn|done|by rewrite Rt, Ht|rewrite Rv|].
  - split; [by rewrite (proj1 (sdscpylen_law _ _))|apply readable_cpy].
  - exists []. split; [done|]. intros m Hm. by apply not_elem_of_nil in Hm.
Qed.

Lemma round_start : Forall well_formed addrs -> 3 <= N -> p < N -> (Z.of_nat (N * (N * (N + 2) + 2)) <= INT_MAX)%Z ->
  exists st cp, proposing_start addrs client text_of p v = Ok st /\ round (Z.of_nat (N * (N * (N + 2) + 2))) st cp (fun _ => 0%Z) [] [].
Proof.
  intros Hwf HN Hp HW. destruct (init_all_fresh Hwf) as (cs & Ei & Hlen & Hcs); [nia|]. unfold proposing_start. rewrite Ei. cbn [mbind res_bind members].
  destruct (Hcs p Hp) as (c & Hc & Hf). rewrite Hc. destruct (echo_turn c Hf) as (c' & b & -> & Hpr & Eok & Esu & Hfl & Hpid). cbn [mbind res_bind].
  assert (Hb : forall i, carries Prepare i (Wire p i false b)) by done. eexists _, c'. split; [done|]. split; cbn [nodes_of flight log].
  - apply list_lookup_insert_eq. by apply lookup_lt_Some in Hc.
  - done.
  - intros j Hj. pose proof Hj as [HjN Hjp]%elem_of_peers. destruct (Hcs j HjN) as (cj & Hcj & [Fn _ Fo (Ft & Fs & Fr & Fe) _ _]). exists cj. split; [by rewrite list_lookup_insert_ne|].
    split; [split; [rewrite Fn; apply peer_nodes_out|done]|by rewrite Fe| |done|congruence].
    left. split_and!; [done|done|done|by apply (under_wires_other b Prepare)|by apply (under_wires b Prepare)].
  - intros w (j & -> & Hj)%list_elem_of_fmap. by exists Prepare, j.
  - rewrite Eok. split; [done|]. intros j _ Hj. done.
  - by rewrite Esu.
  - rewrite Esu. intros Hm. exfalso. unfold majority in Hm. apply Z.ltb_lt in Hm. pose proof (Z.quot_pos (Z.of_nat N) 2). lia.
  - rewrite Eok, Esu, (weight_wires b Prepare) by (intros; apply Hb). cbn [weight_of]. pose proof (length_peers p Hp). nia.
Qed.

Lemma round_reached W st cp fl A B : (W <= INT_MAX)%Z -> p < N -> round W st cp fl A B -> forall n st', nsteps (once addrs client) n st st' ->
  n + weight (flight st') <= weight (flight st) /\ exists cp' fl' A' B', round W st' cp' fl' A' B'.
Proof.
  intros HW Hp Hr n st' Hn. revert cp fl A B Hr. induction Hn as [st|n st st1 st' Hs Hn IH]; intros cp fl A B Hr; [split; [lia|by exists cp, fl, A, B]|].
  inversion Hs as [st0 f1 w f2 c c' out Ef Hc Et]; subst st0 st1.
  destruct (round_step W HW Hp st cp fl A B f1 w f2 Hr Ef) as (c0 & c0' & out0 & Hc0 & Et0 & Hwt & cp' & fl' & A' & B' & Hr').
  rewrite Hc in Hc0. injection Hc0 as <-. rewrite Et in Et0. injection Et0 as <- <-. destruct (IH cp' fl' A' B' Hr') as [Hle Hex]. cbn [flight] in Hle. split; [lia|done].
Qed.
End live.



(** Delivery in the order of sending. *)
Fixpoint fifo (fuel : nat) (st : traffic) : res traffic :=
  match fuel, flight st with
  | _, [] => Ok st
  | O, _ => Stop OutOfFuel
  | S fuel, w :: ws =>
      match nodes_of st !! w_dst w with
      | Some c => '(c', out) ← turn_of three from_port (w_dst w) (Packet w) c; fifo fuel (Traffic (<[w_dst w := c']> (nodes_of st)) (ws ++ out) (log st ++ out))
      | None => Stop OutOfBounds
      end
  end.

(** With one of the three nodes down, one promise comes in, which is not more than half of three: the proposer's own vote is not counted, and
    nobody is asked to accept. *)
Lemma one_node_down : (st ← proposing_start three from_port text_of 0 hello; st ← fifo 10 (Traffic (nodes_of st) (take 1 (flight st)) (log st)); Ok (length (flight st), (fun w => flag (w_body w)) <$> log st))
  = Ok (0, [1; 1; 2]%Z).
Proof. vm_compute. reflexivity. Qed.

(** A string that has no room in [buf] is packed into it all the same. *)
Lemma long_string_overruns : (st ← proposing_start three from_port text_of 0 (replicate (N.to_nat 8200) 7%Z); Ok (length (log st))) = Stop OutOfBounds.
Proof. vm_compute. reflexivity. Qed.
