(* ===== verification/PList.v ===== *)
(** The intrusive lists of src/deps/sfslite-1.2/list.h.  An element of a [list] or [tailq] holds the
    address of the pointer that leads to it ([pprev]), so it can be removed without its list; a
    [dllist] holds both neighbours.  Lists are numbered; elements are addresses. *)
From S2P Require Import Prelude.

(** * Memory *)

(** A pointer that can lead to an element: [first] of a list, or [next] of an element. *)
Inductive slot : Type := Root (i : nat) | NextOf (x : nat).
#[export] Instance slot_eq_dec : EqDecision slot.
Proof. solve_decision. Defined.

(** [list_entry]; a [pprev] never written is [None]. *)
Record pentry : Type := PEnt { next : option nat; pprev : option slot }.
Record pmem : Type := PMem { roots : list (option nat); ents : gmap nat pentry }.

Definition load_ent (m : pmem) (p : option nat) : res pentry :=
  match p with
  | None => Stop NullDeref
  | Some x => match ents m !! x with Some e => Ok e | None => Stop Dangling end
  end.
Definition with_ent (m : pmem) (x : nat) (e : pentry) : pmem := PMem (roots m) (<[x := e]> (ents m)).
Definition set_next (m : pmem) (x : nat) (v : option nat) : res pmem :=
  e ← load_ent m (Some x); Ok (with_ent m x (PEnt v (pprev e))).
Definition set_pprev (m : pmem) (x : nat) (s : option slot) : res pmem :=
  e ← load_ent m (Some x); Ok (with_ent m x (PEnt (next e) s)).

(** [*s = v]. *)
Definition put (m : pmem) (s : option slot) (v : option nat) : res pmem :=
  match s with
  | None => Stop Uninit
  | Some (Root i) => if decide (i < length (roots m)) then Ok (PMem (<[i := v]> (roots m)) (ents m)) else Stop Dangling
  | Some (NextOf x) => set_next m x v
  end.
Definition root (m : pmem) (i : nat) : res (option nat) :=
  match roots m !! i with Some p => Ok p | None => Stop Dangling end.

(** [if (p) p->pprev = s;] *)
Definition relink (m : pmem) (p : option nat) (s : option slot) : res pmem :=
  match p with Some f => set_pprev m f s | None => Ok m end.

(** Walking a list: the callback gets each element after its [next] was read. *)
Definition traverse_round {S} (load : S -> option nat -> res (option nat)) (cb : nat -> S -> res S)
    (st : S * option nat) : res ((S * option nat) + S) :=
  let '(m, p) := st in
  match p with
  | None => Ok (inr m)
  | Some x => np ← load m p; m ← cb x m; Ok (inl (m, np))
  end.

(** * [list] *)

Definition insert_head (i elm : nat) (m : pmem) : res pmem :=
  first ← root m i;
  m ← set_next m elm first;
  m ← relink m first (Some (NextOf elm));
  m ← put m (Some (Root i)) (Some elm);
  set_pprev m elm (Some (Root i)).

Definition remove (elm : nat) (m : pmem) : res pmem :=
  e ← load_ent m (Some elm);
  m ← relink m (next e) (pprev e);
  e ← load_ent m (Some elm);
  put m (pprev e) (next e).

Definition list_next (elm : nat) (m : pmem) : res (option nat) := e ← load_ent m (Some elm); Ok (next e).

(** The callback may change the lists and a state of its own. *)
Definition traverse {A} (fuel : nat) (cb : nat -> pmem * A -> res (pmem * A)) (i : nat) (st : pmem * A) : res (pmem * A) :=
  first ← root st.1 i;
  loop fuel (traverse_round (fun st p => e ← load_ent st.1 p; Ok (next e)) cb) (st, first).

Definition swap (a b : nat) (m : pmem) : res pmem :=
  tp ← root m a;
  first ← root m b;
  m ← put m (Some (Root a)) first;
  m ← relink m first (Some (Root a));
  m ← put m (Some (Root b)) tp;
  relink m tp (Some (Root b)).

(** * Lists in memory *)

(** The elements of [l] hang on the pointer [s]. *)
Fixpoint seg (es : gmap nat pentry) (s : slot) (l : list nat) : Prop :=
  match l with
  | [] => True
  | x :: l => es !! x = Some (PEnt (head l) (Some s)) /\ seg es (NextOf x) l
  end.

(** All lists of the memory, disjoint. *)
Record lists (m : pmem) (ch : list (list nat)) : Prop := {
  ls_roots : roots m = head <$> ch;
  ls_segs : forall i l, ch !! i = Some l -> seg (ents m) (Root i) l;
  ls_nodup : NoDup (concat ch);
}.

Lemma seg_frame es es' s l : (forall x, x ∈ l -> es' !! x = es !! x) -> seg es s l -> seg es' s l.
Proof.
  revert s. induction l as [|x l IH]; intros s Hf; [done|]. intros [Hx Hl]. split; [rewrite Hf; [done|by left]|].
  apply IH; [|done]. intros y Hy. apply Hf. by right.
Qed.

Lemma seg_app es s l1 x l2 : seg es s (l1 ++ x :: l2) ->
  es !! x = Some (PEnt (head l2) (Some (match last l1 with Some y => NextOf y | None => s end))) /\ seg es (NextOf x) l2.
Proof.
  revert s. induction l1 as [|y l1 IH]; intros s; [cbn; tauto|]. intros [_ H]. apply IH in H as [H1 H2]. split; [|done].
  rewrite H1, last_cons. by destruct (last l1).
Qed.

Lemma seg_in es s l x : seg es s l -> x ∈ l -> is_Some (es !! x).
Proof. intros H (l1 & l2 & ->)%list_elem_of_split. apply seg_app in H as [-> _]. by eexists. Qed.

(** The lists without that of one root. *)
Lemma concat_delete {A} (ch : list (list A)) i l : ch !! i = Some l -> concat ch ≡ₚ l ++ concat (delete i ch).
Proof. intros H. rewrite (delete_Permutation _ _ _ H) at 1. by cbn. Qed.

Lemma concat_insert {A} (ch : list (list A)) i l k : ch !! i = Some l -> concat (<[i := k]> ch) ≡ₚ k ++ concat (delete i ch).
Proof.
  intros H. rewrite (concat_delete (<[i := k]> ch) i k) by (apply list_lookup_insert_eq; by eapply lookup_lt_Some).
  rewrite !delete_take_drop. rewrite take_insert_ge, drop_insert_lt by lia. done.
Qed.

Lemma lists_in m ch i l x : lists m ch -> ch !! i = Some l -> x ∈ l -> x ∈ concat ch.
Proof. intros H Hi Hx. rewrite (concat_delete _ _ _ Hi). apply elem_of_app. by left. Qed.

Lemma lists_other m ch i j l k x : lists m ch -> ch !! i = Some l -> ch !! j = Some k -> i <> j -> x ∈ l -> x ∉ k.
Proof.
  intros H Hi Hj Hne Hx Hk. pose proof (ls_nodup _ _ H) as ND. rewrite (concat_delete _ _ _ Hi) in ND.
  apply NoDup_app in ND as (_ & Hd & _). apply (Hd x Hx). clear -Hj Hne Hk.
  rewrite list_elem_of_In, in_concat. exists k. split; [|by apply list_elem_of_In]. apply list_elem_of_In.
  rewrite list_elem_of_lookup. destruct (Nat.lt_ge_cases j i).
  - exists j. by rewrite list_lookup_delete_lt.
  - exists (j - 1). rewrite list_lookup_delete_ge by lia. by replace (S (j - 1)) with j by lia.
Qed.

(** Changing one list and elements outside the others. *)
Lemma lists_update m ch i l k es : lists m ch -> ch !! i = Some l ->
  (forall j k' x, j <> i -> ch !! j = Some k' -> x ∈ k' -> es !! x = ents m !! x) -> seg es (Root i) k -> NoDup (k ++ concat (delete i ch)) ->
  lists (PMem (<[i := head k]> (roots m)) es) (<[i := k]> ch).
Proof.
  intros H Hi Hf Hk ND. split; cbn [roots ents].
  - by rewrite (ls_roots _ _ H), list_fmap_insert.
  - intros j k' Hj. apply list_lookup_insert_Some in Hj as [(<- & <- & _)|[Hne Hj]]; [done|].
    apply seg_frame with (ents m); [|by apply (ls_segs _ _ H)]. intros x Hx. by apply (Hf j k').
  - by rewrite (concat_insert _ _ l).
Qed.

Lemma load_ent_ok m x e : ents m !! x = Some e -> load_ent m (Some x) = Ok e.
Proof. intros H. cbn. by rewrite H. Qed.
Lemma set_next_ok m x e v : ents m !! x = Some e -> set_next m x v = Ok (with_ent m x (PEnt v (pprev e))).
Proof. intros H. unfold set_next. by rewrite (load_ent_ok _ _ _ H). Qed.
Lemma set_pprev_ok m x e s : ents m !! x = Some e -> set_pprev m x s = Ok (with_ent m x (PEnt (next e) s)).
Proof. intros H. unfold set_pprev. by rewrite (load_ent_ok _ _ _ H). Qed.
Lemma root_ok m ch i l : lists m ch -> ch !! i = Some l -> root m i = Ok (head l).
Proof. intros H Hi. unfold root. by rewrite (ls_roots _ _ H), list_lookup_fmap, Hi. Qed.
Lemma put_root_ok m i v : i < length (roots m) -> put m (Some (Root i)) v = Ok (PMem (<[i := v]> (roots m)) (ents m)).
Proof. intros H. unfold put. by rewrite decide_True. Qed.
Lemma roots_lt m ch i l : lists m ch -> ch !! i = Some l -> i < length (roots m).
Proof. intros H Hi. rewrite (ls_roots _ _ H), length_fmap. by eapply lookup_lt_Some. Qed.

(** The memory in which [x] was put before [l]. *)
Definition pushed (es : gmap nat pentry) (i x : nat) (l : list nat) : gmap nat pentry :=
  <[x := PEnt (head l) (Some (Root i))]>
    (match l with [] => es | f :: k => <[f := PEnt (head k) (Some (NextOf x))]> es end).

Lemma pushed_seg es i x l : seg es (Root i) l -> x ∉ l -> NoDup l -> seg (pushed es i x l) (Root i) (x :: l).
Proof.
  intros Hs Hx ND. split; [unfold pushed; by rewrite lookup_insert_eq|]. destruct l as [|f k]; [done|]. destruct Hs as [Hf Hk].
  apply not_elem_of_cons in Hx as [Hxf Hxk]. apply NoDup_cons in ND as [Hfk _]. unfold pushed. split.
  - rewrite lookup_insert_ne by done. by rewrite lookup_insert_eq.
  - apply seg_frame with es; [|done]. intros y Hy. rewrite !lookup_insert_ne; [done|by intros ->|by intros ->].
Qed.

Lemma pushed_other es i x l y : y <> x -> y ∉ l -> pushed es i x l !! y = es !! y.
Proof.
  intros Hx Hl. unfold pushed. rewrite lookup_insert_ne by done. destruct l as [|f k]; [done|].
  apply not_elem_of_cons in Hl as [Hf _]. by rewrite lookup_insert_ne.
Qed.

Lemma pushed_lists m ch i l x : lists m ch -> ch !! i = Some l -> x ∉ concat ch ->
  lists (PMem (<[i := Some x]> (roots m)) (pushed (ents m) i x l)) (<[i := x :: l]> ch).
Proof.
  intros H Hi Hx. pose proof (ls_nodup _ _ H) as ND. rewrite (concat_delete _ _ _ Hi) in ND, Hx.
  apply (lists_update m ch i l (x :: l)); try done.
  - intros j k y Hj Hk Hy. apply pushed_other.
    + intros ->. apply Hx. rewrite <- (concat_delete _ _ _ Hi). by eapply lists_in.
    + intros Hl. by apply (lists_other m ch i j l k y).
  - apply pushed_seg; [by apply (ls_segs _ _ H)|intros Hin; apply Hx, elem_of_app; by left|]. apply NoDup_app in ND. apply ND.
  - cbn. by apply NoDup_cons.
Qed.

(** [x] goes before the list [i]. *)
Lemma list_insert_head_ok m ch i l x : lists m ch -> ch !! i = Some l -> x ∉ concat ch -> is_Some (ents m !! x) ->
  exists m', insert_head i x m = Ok m' /\ lists m' (<[i := x :: l]> ch) /\
    (forall y, y <> x -> y ∉ concat ch -> ents m' !! y = ents m !! y).
Proof.
  intros H Hi Hx [e He]. eexists. split; [|split; [by apply (pushed_lists m ch i l x)|]].
  - unfold insert_head. rewrite (root_ok m ch i l H Hi). cbn [mbind res_bind]. rewrite (set_next_ok m x e) by done. cbn [mbind res_bind].
    pose proof (roots_lt m ch i l H Hi) as Hr. destruct l as [|f k]; cbn [head relink].
    + cbn [mbind res_bind]. rewrite put_root_ok by done. cbn [mbind res_bind]. erewrite set_pprev_ok by (cbn; by rewrite lookup_insert_eq).
      cbn. unfold with_ent. cbn. by rewrite insert_insert_eq.
    + assert (Hf : ents m !! f = Some (PEnt (head k) (Some (Root i)))) by apply (ls_segs _ _ H i _ Hi).
      assert (Hfx : f <> x) by (intros ->; apply Hx; eapply lists_in; [exact H|exact Hi|by left]).
      erewrite set_pprev_ok by (cbn; rewrite lookup_insert_ne by done; exact Hf). cbn [mbind res_bind].
      rewrite put_root_ok by done. cbn [mbind res_bind]. erewrite set_pprev_ok.
      2: { cbn. rewrite lookup_insert_ne by done. by rewrite lookup_insert_eq. }
      cbn. unfold with_ent. cbn. do 2 f_equal. rewrite (insert_insert_ne _ f x) by done. rewrite insert_insert_eq. done.
  - intros y Hy Hc. cbn. apply pushed_other; [done|]. intros Hl. apply Hc. by eapply lists_in.
Qed.

(** A segment that ends before [e]. *)
Fixpoint seg_to (es : gmap nat pentry) (s : slot) (l : list nat) (e : option nat) : Prop :=
  match l with
  | [] => True
  | x :: l => es !! x = Some (PEnt (match l with y :: _ => Some y | [] => e end) (Some s)) /\ seg_to es (NextOf x) l e
  end.
Definition last_slot (s : slot) (l : list nat) : slot := match last l with Some y => NextOf y | None => s end.

Lemma last_slot_cons s x l : last_slot s (x :: l) = last_slot (NextOf x) l.
Proof. unfold last_slot. rewrite last_cons. by destruct (last l). Qed.

Lemma last_slot_snoc s x l : last_slot s (l ++ [x]) = NextOf x.
Proof. unfold last_slot. by rewrite last_snoc. Qed.

Lemma seg_split es s l1 l2 : seg es s (l1 ++ l2) <-> seg_to es s l1 (head l2) /\ seg es (last_slot s l1) l2.
Proof.
  revert s. induction l1 as [|x l1 IH]; intros s; [cbn; tauto|]. rewrite last_slot_cons. cbn [app seg seg_to]. rewrite IH.
  replace (head (l1 ++ l2)) with (match l1 with y :: _ => Some y | [] => head l2 end) by (by destruct l1). tauto.
Qed.

Lemma seg_to_None es s l : seg_to es s l None <-> seg es s l.
Proof. revert s. induction l as [|x l IH]; intros s; [done|]. cbn [seg_to seg]. rewrite IH. by destruct l. Qed.

Lemma seg_to_frame es es' s l e : (forall x, x ∈ l -> es' !! x = es !! x) -> seg_to es s l e -> seg_to es' s l e.
Proof.
  revert s. induction l as [|x l IH]; intros s Hf; [done|]. intros [Hx Hl]. split; [rewrite Hf; [done|by left]|].
  apply IH; [|done]. intros y Hy. apply Hf. by right.
Qed.

Lemma seg_to_snoc es s l y e : seg_to es s (l ++ [y]) e <-> seg_to es s l (Some y) /\ es !! y = Some (PEnt e (Some (last_slot s l))).
Proof.
  revert s. induction l as [|x l IH]; intros s; [cbn; tauto|]. rewrite last_slot_cons. cbn [app seg_to]. rewrite IH.
  replace (match l ++ [y] with z :: _ => Some z | [] => e end) with (match l with z :: _ => Some z | [] => Some y end) by (by destruct l).
  tauto.
Qed.

(** The memory after an element between [l1] and [l2] was taken out: the element after it hangs on
    the pointer it hung on, and that pointer leads there. *)
Definition skipped (es : gmap nat pentry) (s : slot) (l1 l2 : list nat) : gmap nat pentry :=
  let es := match l2 with [] => es | f :: k => <[f := PEnt (head k) (Some (last_slot s l1))]> es end in
  match last l1 with
  | Some y => <[y := PEnt (head l2) (es !! y ≫= pprev)]> es
  | None => es
  end.

Lemma skipped_seg es s l1 x l2 : seg es s (l1 ++ x :: l2) -> NoDup (l1 ++ x :: l2) -> seg (skipped es s l1 l2) s (l1 ++ l2).
Proof.
  intros Hs ND. apply seg_split in Hs as [H1 [Hx H2]]. apply seg_split.
  apply NoDup_app in ND as (ND1 & Hd & [Hx2 ND2]%NoDup_cons).
  set (es1 := match l2 with [] => es | f :: k => <[f := PEnt (head k) (Some (last_slot s l1))]> es end).
  assert (F1 : forall y, y ∉ l2 -> es1 !! y = es !! y).
  { intros y Hy. unfold es1. destruct l2 as [|f k]; [done|]. apply lookup_insert_ne. intros ->. apply Hy. by left. }
  assert (S2 : seg es1 (last_slot s l1) l2).
  { unfold es1. destruct l2 as [|f k]; [done|]. destruct H2 as [_ H2]. split; [by rewrite lookup_insert_eq|].
    apply NoDup_cons in ND2 as [Hfk _]. apply seg_frame with es; [|done]. intros y Hy. apply lookup_insert_ne. by intros ->. }
  assert (Hd1 : forall y, y ∈ l1 -> y ∉ l2) by (intros y Hy Hy2; apply (Hd y Hy); by right).
  unfold skipped. fold es1. destruct l1 as [|y l1 _] using rev_ind; [done|]. rewrite last_snoc.
  apply seg_to_snoc in H1 as [H1 Hy]. assert (Hy1 : y ∈ l1 ++ [y]) by (apply elem_of_app; right; by left).
  rewrite F1, Hy by auto. cbn [mbind option_bind pprev]. split.
  - apply seg_to_snoc. split; [|by rewrite lookup_insert_eq]. apply NoDup_app in ND1 as (_ & Hdy & _).
    apply seg_to_frame with es; [|done]. intros z Hz. rewrite lookup_insert_ne.
    + apply F1, Hd1, elem_of_app. by left.
    + intros ->. apply (Hdy z Hz). by left.
  - apply seg_frame with es1; [|done]. intros z Hz. apply lookup_insert_ne. intros ->. by apply (Hd1 z).
Qed.

Lemma skipped_other es s l1 l2 y : y ∉ l1 -> y ∉ l2 -> skipped es s l1 l2 !! y = es !! y.
Proof.
  intros H1 H2. unfold skipped. destruct (last l1) as [z|] eqn:Hz.
  - rewrite lookup_insert_ne by (intros ->; apply H1; apply last_Some in Hz as [k ->]; apply elem_of_app; right; by left).
    destruct l2 as [|f k]; [done|]. apply lookup_insert_ne. intros ->. apply H2. by left.
  - destruct l2 as [|f k]; [done|]. apply lookup_insert_ne. intros ->. apply H2. by left.
Qed.

(** [remove] in terms of the memory it leaves. *)
Lemma list_remove_step m i l1 x l2 : seg (ents m) (Root i) (l1 ++ x :: l2) -> NoDup (l1 ++ x :: l2) -> i < length (roots m) ->
  remove x m = Ok (PMem (match last l1 with None => <[i := head l2]> (roots m) | Some _ => roots m end)
    (skipped (ents m) (Root i) l1 l2)).
Proof.
  intros Hs ND Hr.
  pose proof (seg_app _ _ _ _ _ Hs) as [Hx H2]. fold (last_slot (Root i) l1) in Hx.
  pose proof ND as ND'. apply NoDup_app in ND' as (_ & Hd & [Hx2 ND2]%NoDup_cons).
  unfold remove. rewrite (load_ent_ok _ _ _ Hx). cbn [mbind res_bind next pprev].
  assert (E1 : exists m1, relink m (head l2) (Some (last_slot (Root i) l1)) = Ok m1 /\ roots m1 = roots m /\
    ents m1 = match l2 with [] => ents m | f :: k => <[f := PEnt (head k) (Some (last_slot (Root i) l1))]> (ents m) end).
  { destruct l2 as [|f k]; [by exists m|]. destruct H2 as [Hf _]. cbn [head relink]. rewrite (set_pprev_ok _ _ _ _ Hf). by eexists. }
  destruct E1 as (m1 & -> & R1 & Es1). cbn [mbind res_bind].
  assert (Hx1 : ents m1 !! x = ents m !! x).
  { rewrite Es1. destruct l2 as [|f k]; [done|]. apply lookup_insert_ne. intros ->. apply Hx2. by left. }
  rewrite Hx in Hx1. rewrite (load_ent_ok _ _ _ Hx1). cbn [mbind res_bind next pprev]. unfold skipped. rewrite <- Es1.
  unfold last_slot. destruct l1 as [|y l1 _] using rev_ind.
  - cbn [last]. by rewrite put_root_ok, R1 by (by rewrite R1).
  - rewrite last_snoc. cbn [put]. apply seg_split in Hs as [H1 _]. apply seg_to_snoc in H1 as [_ Hy].
    assert (Hy1 : ents m1 !! y = Some (PEnt (Some x) (Some (last_slot (Root i) l1)))).
    { rewrite Es1. destruct l2 as [|f k]; [done|]. rewrite lookup_insert_ne; [done|]. intros ->. apply (Hd y); [apply elem_of_app; right; by left|].
      right. by left. }
    rewrite (set_next_ok _ _ _ _ Hy1), Hy1. cbn. unfold with_ent. by rewrite R1.
Qed.

(** An element leaves its list, wherever in it it stands. *)
Lemma list_remove_ok m ch i l1 x l2 : lists m ch -> ch !! i = Some (l1 ++ x :: l2) ->
  exists m', remove x m = Ok m' /\ lists m' (<[i := l1 ++ l2]> ch) /\ ents m' !! x = ents m !! x /\
    (forall y, y ∉ concat ch -> ents m' !! y = ents m !! y) /\ (forall y, is_Some (ents m !! y) -> is_Some (ents m' !! y)).
Proof.
  intros H Hi. pose proof (ls_segs _ _ H _ _ Hi) as Hs. pose proof (roots_lt _ _ _ _ H Hi) as Hr.
  pose proof (ls_nodup _ _ H) as ND. rewrite (concat_delete _ _ _ Hi) in ND.
  assert (NDl : NoDup (l1 ++ x :: l2)) by apply (proj1 (NoDup_app _ _) ND).
  eexists. split; [by apply list_remove_step|]. split; [|split; [|split]].
  - replace (match last l1 with None => <[i := head l2]> (roots m) | Some _ => roots m end) with (<[i := head (l1 ++ l2)]> (roots m)).
    + apply (lists_update m ch i (l1 ++ x :: l2)); [done|done| |by apply (skipped_seg _ _ _ x)|].
      * intros j k y Hj Hk Hy. apply skipped_other; intros Hin; apply (lists_other m ch i j _ k y H Hi Hk); try done;
          apply elem_of_app; [by left|right; by right].
      * rewrite <- (assoc_L app) in ND |- *. apply NoDup_app in ND as (N1 & Hd & [Hx N2]%NoDup_cons).
        apply NoDup_app. split; [done|]. split; [|done]. intros y Hy Hy2. apply (Hd y Hy). by right.
    + destruct l1 as [|y l1]; [done|]. rewrite (list_insert_id (roots m)).
      * destruct (last (y :: l1)) eqn:E; [done|]. by apply last_None in E.
      * rewrite (ls_roots _ _ H), list_lookup_fmap, Hi. done.
  - cbn. apply NoDup_app in NDl as (_ & Hd & [Hx _]%NoDup_cons). apply skipped_other; [|done]. intros Hin. apply (Hd x Hin). by left.
  - intros y Hy. cbn. apply skipped_other; intros Hin; apply Hy; eapply lists_in; try done; apply elem_of_app; [by left|right; by right].
  - intros y Hy. cbn. unfold skipped. set (es1 := match l2 with [] => _ | _ => _ end).
    assert (Hy1 : is_Some (es1 !! y)).
    { unfold es1. destruct l2 as [|f k]; [done|]. destruct (decide (y = f)) as [->|]; [rewrite lookup_insert_eq; by eexists|by rewrite lookup_insert_ne]. }
    destruct (last l1) as [z|]; [|done]. destruct (decide (y = z)) as [->|]; [rewrite lookup_insert_eq; by eexists|by rewrite lookup_insert_ne].
Qed.

(** ** Walks *)

(** A walk goes through [l] when [J], which knows the elements seen and those to come, is kept. *)
Lemma traverse_loop {S} (load : S -> option nat -> res (option nat)) (cb : nat -> S -> res S) (J : list nat -> list nat -> S -> Prop) :
  (forall v x r st, J v (x :: r) st -> load st (Some x) = Ok (head r) /\ exists st', cb x st = Ok st' /\ J (v ++ [x]) r st') ->
  forall r v st fuel, J v r st -> length r < fuel ->
  exists st', loop fuel (traverse_round load cb) (st, head r) = Ok st' /\ J (v ++ r) [] st'.
Proof.
  intros Hstep. induction r as [|x r IH]; intros v st fuel HJ Hf; (destruct fuel as [|fuel]; [lia|]); rewrite loop_step; cbn [head traverse_round].
  - exists st. by rewrite app_nil_r.
  - destruct (Hstep v x r st HJ) as (-> & st' & -> & HJ'). cbn [mbind res_bind].
    destruct (IH (v ++ [x]) st' fuel HJ') as (st2 & -> & H2); [cbn in Hf; lia|]. exists st2. by rewrite <- (assoc_L app) in H2.
Qed.

(** A callback that notes the element and removes it from its list. *)
Definition take_out (x : nat) (st : pmem * list nat) : res (pmem * list nat) :=
  m ← remove x st.1; Ok (m, st.2 ++ [x]).

Lemma list_traverse_take_out m ch i l fuel : lists m ch -> ch !! i = Some l -> length l < fuel ->
  exists m', traverse fuel take_out i (m, []) = Ok (m', l) /\ lists m' (<[i := []]> ch).
Proof.
  intros H Hi Hf. unfold traverse. cbn [fst]. rewrite (root_ok m ch i l H Hi). cbn [mbind res_bind].
  set (J v r (st : pmem * list nat) := st.2 = v /\ lists st.1 (<[i := r]> ch)).
  destruct (traverse_loop (fun (st : pmem * list nat) p => e ← load_ent st.1 p; Ok (next e)) take_out J) with (r := l) (v := @nil nat) (st := (m, @nil nat)) (fuel := fuel)
    as ([m' v'] & -> & Hv & HL).
  - intros v x r [m0 v0] [Hv HL]. cbn [fst snd] in *. subst v0.
    assert (Hx : <[i := x :: r]> ch !! i = Some ([] ++ x :: r)) by (apply list_lookup_insert_eq; by eapply lookup_lt_Some).
    pose proof (ls_segs _ _ HL _ _ Hx) as [He _]. rewrite (load_ent_ok _ _ _ He). split; [done|].
    destruct (list_remove_ok m0 _ i [] x r HL Hx) as (m1 & E1 & L1 & _). unfold take_out. cbn [fst snd]. rewrite E1. cbn [mbind res_bind].
    exists (m1, v ++ [x]). split; [done|]. split; [done|]. by rewrite list_insert_insert_eq in L1.
  - split; [done|]. cbn. by rewrite list_insert_id.
  - done.
  - cbn in Hv, HL. subst v'. by exists m'.
Qed.

(** ** Swapping two lists *)
Lemma seg_reroot es s s' l : seg es s l -> NoDup l ->
  seg (match l with [] => es | f :: k => <[f := PEnt (head k) (Some s')]> es end) s' l.
Proof.
  destruct l as [|f k]; [done|]. intros [_ Hk] [Hf _]%NoDup_cons. split; [by rewrite lookup_insert_eq|].
  apply seg_frame with es; [|done]. intros y Hy. apply lookup_insert_ne. by intros ->.
Qed.

Lemma relink_head_ok m s l s' : seg (ents m) s l ->
  relink m (head l) s' = Ok (PMem (roots m) (match l with [] => ents m | f :: k => <[f := PEnt (head k) s']> (ents m) end)).
Proof.
  destruct l as [|f k]; [by destruct m|]. intros [Hf _]. cbn [head relink]. by rewrite (set_pprev_ok _ _ _ _ Hf).
Qed.

Lemma list_swap_ok m ch a b la lb : lists m ch -> ch !! a = Some la -> ch !! b = Some lb -> a <> b ->
  exists m', swap a b m = Ok m' /\ lists m' (<[b := la]> (<[a := lb]> ch)).
Proof.
  intros H Ha Hb Hne. unfold swap. rewrite (root_ok m ch a la H Ha), (root_ok m ch b lb H Hb). cbn [mbind res_bind].
  pose proof (roots_lt _ _ _ _ H Ha) as Ra. pose proof (roots_lt _ _ _ _ H Hb) as Rb.
  pose proof (ls_segs _ _ H _ _ Ha) as Sa. pose proof (ls_segs _ _ H _ _ Hb) as Sb.
  rewrite put_root_ok by done. cbn [mbind res_bind]. rewrite (relink_head_ok _ (Root b) lb) by done. cbn [mbind res_bind roots ents].
  rewrite put_root_ok by (cbn; by rewrite length_insert). cbn [mbind res_bind roots ents].
  set (es1 := match lb with [] => ents m | f :: k => <[f := PEnt (head k) (Some (Root a))]> (ents m) end).
  assert (F1 : forall x, x ∉ lb -> es1 !! x = ents m !! x).
  { intros x Hx. unfold es1. destruct lb as [|f k]; [done|]. apply lookup_insert_ne. intros ->. apply Hx. by left. }
  assert (Hab : forall x, x ∈ la -> x ∉ lb) by (intros x Hx; by apply (lists_other m ch a b la lb x)).
  assert (Sa1 : seg es1 (Root a) la) by (apply seg_frame with (ents m); [auto|done]).
  pose proof (ls_nodup _ _ H) as ND. rewrite (concat_delete _ _ _ Ha) in ND.
  assert (NDa : NoDup la) by apply (proj1 (NoDup_app _ _) ND).
  assert (NDb : NoDup lb). { pose proof (ls_nodup _ _ H) as ND'. rewrite (concat_delete _ _ _ Hb) in ND'. apply (proj1 (NoDup_app _ _) ND'). }
  eexists. split; [by apply (relink_head_ok (PMem _ es1) (Root a) la)|]. cbn [roots].
  set (es2 := match la with [] => _ | _ => _ end).
  assert (F2 : forall x, x ∉ la -> es2 !! x = es1 !! x).
  { intros x Hx. unfold es2. destruct la as [|f k]; [done|]. apply lookup_insert_ne. intros ->. apply Hx. by left. }
  split; cbn [roots ents].
  - by rewrite (ls_roots _ _ H), !list_fmap_insert.
  - intros j k Hj. apply list_lookup_insert_Some in Hj as [(<- & <- & _)|[Hjb Hj]]; [by apply seg_reroot with (Root a)|].
    apply list_lookup_insert_Some in Hj as [(<- & <- & _)|[Hja Hj]].
    + apply seg_frame with es1; [intros x Hx; apply F2; intros Hxa; by apply (Hab x)|]. by apply seg_reroot with (Root b).
    + apply seg_frame with (ents m); [|by apply (ls_segs _ _ H)]. intros x Hx. rewrite F2, F1; [done|..]; intros Hin.
      * by apply (lists_other m ch b j lb k x).
      * by apply (lists_other m ch a j la k x).
  - assert (Hb1 : <[a := lb]> ch !! b = Some lb) by (by rewrite list_lookup_insert_ne).
    rewrite (concat_insert _ b lb la Hb1). assert (P : lb ++ concat (delete b (<[a := lb]> ch)) ≡ₚ lb ++ concat (delete a ch)).
    { rewrite <- (concat_delete _ b lb Hb1). apply (concat_insert ch a la lb Ha). }
    apply Permutation_app_inv_l in P. by rewrite P.
Qed.

(** * Sequences of operations *)
Lemma set_next_dom m x v m' : set_next m x v = Ok m' -> dom (ents m') = dom (ents m).
Proof.
  unfold set_next. intros (e & He & Hm)%bind_Ok_inv. injection Hm as <-. cbn in He |- *.
  destruct (ents m !! x) eqn:E; [|done]. rewrite dom_insert_L. apply elem_of_dom_2 in E. set_solver.
Qed.
Lemma set_pprev_dom m x v m' : set_pprev m x v = Ok m' -> dom (ents m') = dom (ents m).
Proof.
  unfold set_pprev. intros (e & He & Hm)%bind_Ok_inv. injection Hm as <-. cbn in He |- *.
  destruct (ents m !! x) eqn:E; [|done]. rewrite dom_insert_L. apply elem_of_dom_2 in E. set_solver.
Qed.
Lemma relink_dom m p s m' : relink m p s = Ok m' -> dom (ents m') = dom (ents m).
Proof. destruct p as [f|]; cbn [relink]; [apply set_pprev_dom|by intros [= <-]]. Qed.
Lemma put_dom m s v m' : put m s v = Ok m' -> dom (ents m') = dom (ents m).
Proof.
  destruct s as [[i|x]|]; cbn [put]; [|apply set_next_dom|done]. destruct (decide _); [|done]. by intros [= <-].
Qed.

(** A callback that notes the element. *)
Definition note {St} (x : nat) (st : St * list nat) : res (St * list nat) := Ok (st.1, st.2 ++ [x]).

Lemma list_traverse_notes m ch i l fuel : lists m ch -> ch !! i = Some l -> length l < fuel ->
  traverse fuel note i (m, []) = Ok (m, l).
Proof.
  intros H Hi Hf. unfold traverse. cbn [fst]. rewrite (root_ok m ch i l H Hi). cbn [mbind res_bind].
  set (J v r (st : pmem * list nat) := st = (m, v) /\ v ++ r = l).
  destruct (traverse_loop (fun (st : pmem * list nat) p => e ← load_ent st.1 p; Ok (next e)) note J) with (r := l) (v := @nil nat) (st := (m, @nil nat)) (fuel := fuel)
    as (st' & -> & -> & _); [|done|done|done].
  intros v x r st [-> Hv]. cbn [fst snd]. pose proof (ls_segs _ _ H _ _ Hi) as Hs. rewrite <- Hv in Hs. apply seg_app in Hs as [Hx _].
  rewrite (load_ent_ok _ _ _ Hx). split; [done|]. eexists. split; [done|]. split; [done|]. by rewrite <- (assoc_L app).
Qed.

Inductive lop : Type := LInsert (i x : nat) | LRemove (x : nat) | LSwap (a b : nat) | LWalk (i : nat).

Definition run_lop (fuel : nat) (op : lop) (m : pmem) : res (pmem * list nat) :=
  match op with
  | LInsert i x => m ← insert_head i x m; Ok (m, [])
  | LRemove x => m ← remove x m; Ok (m, [])
  | LSwap a b => m ← swap a b m; Ok (m, [])
  | LWalk i => traverse fuel note i (m, [])
  end.

(** What they do to the lists, and when they may be called. *)
Definition spec_lop (op : lop) (ch : list (list nat)) : list (list nat) * list nat :=
  match op with
  | LInsert i x => (<[i := x :: default [] (ch !! i)]> ch, [])
  | LRemove x => (filter (fun y => y <> x) <$> ch, [])
  | LSwap a b => (<[b := default [] (ch !! a)]> (<[a := default [] (ch !! b)]> ch), [])
  | LWalk i => (ch, default [] (ch !! i))
  end.
Definition may (D : gset nat) (op : lop) (ch : list (list nat)) : Prop :=
  match op with
  | LInsert i x => i < length ch /\ x ∈ D /\ x ∉ concat ch
  | LRemove x => x ∈ concat ch
  | LSwap a b => a < length ch /\ b < length ch /\ a <> b
  | LWalk i => i < length ch
  end.

Lemma run_lop_dom fuel op m m' r : run_lop fuel op m = Ok (m', r) -> (forall i, op <> LWalk i) -> dom (ents m') = dom (ents m).
Proof.
  intros E Hw. destruct op as [i x|x|a b|i]; cbn [run_lop] in E; [apply bind_Ok_inv in E as (mb & E & [= -> _])..|by destruct (Hw i)]; revert E.
  - unfold insert_head. intros (p & _ & (m1 & H1 & (m2 & H2 & (m3 & H3 & H4)%bind_Ok_inv)%bind_Ok_inv)%bind_Ok_inv)%bind_Ok_inv.
    by rewrite (set_pprev_dom _ _ _ _ H4), (put_dom _ _ _ _ H3), (relink_dom _ _ _ _ H2), (set_next_dom _ _ _ _ H1).
  - unfold remove. intros (e & _ & (m1 & H1 & (e1 & _ & H2)%bind_Ok_inv)%bind_Ok_inv)%bind_Ok_inv.
    by rewrite (put_dom _ _ _ _ H2), (relink_dom _ _ _ _ H1).
  - unfold swap. intros (p & _ & (q & _ & (m1 & H1 & (m2 & H2 & (m3 & H3 & H4)%bind_Ok_inv)%bind_Ok_inv)%bind_Ok_inv)%bind_Ok_inv)%bind_Ok_inv.
    by rewrite (relink_dom _ _ _ _ H4), (put_dom _ _ _ _ H3), (relink_dom _ _ _ _ H2), (put_dom _ _ _ _ H1).
Qed.

Lemma filter_all_ne (l : list nat) (x : nat) : x ∉ l -> filter (fun y => y <> x) l = l.
Proof.
  induction l as [|y l IH]; [done|]. intros [Hy Hl]%not_elem_of_cons. rewrite filter_cons_True by congruence. by rewrite IH.
Qed.

(** Removing an element from the list that has it removes it from all. *)
Lemma remove_everywhere m ch i l1 x l2 : lists m ch -> ch !! i = Some (l1 ++ x :: l2) ->
  (filter (fun y => y <> x) <$> ch) = <[i := l1 ++ l2]> ch.
Proof.
  intros H Hi. apply list_eq. intros j. rewrite list_lookup_fmap. destruct (decide (j = i)) as [->|Hne].
  - rewrite Hi, list_lookup_insert_eq by (by eapply lookup_lt_Some). cbn. f_equal. rewrite filter_app, filter_cons_False by auto.
    pose proof (ls_nodup _ _ H) as ND. rewrite (concat_delete _ _ _ Hi) in ND. apply NoDup_app in ND as (ND & _ & _).
    apply NoDup_app in ND as (_ & Hd & [Hx _]%NoDup_cons). rewrite !filter_all_ne; [done|done|]. intros Hin. apply (Hd x Hin). by left.
  - rewrite list_lookup_insert_ne by done. destruct (ch !! j) as [k|] eqn:Hj; [|done]. cbn. f_equal. apply filter_all_ne.
    apply (lists_other m ch i j _ k x H Hi Hj); [done|]. apply elem_of_app. right. by left.
Qed.

(** The list of an element. *)
Lemma in_some_list (ch : list (list nat)) x : x ∈ concat ch -> exists i l1 l2, ch !! i = Some (l1 ++ x :: l2).
Proof.
  intros Hm. apply list_elem_of_In, in_concat in Hm as (l & Hl & Hx). apply list_elem_of_In, list_elem_of_lookup in Hl as [i Hi].
  apply list_elem_of_In, list_elem_of_split in Hx as (l1 & l2 & ->). eauto.
Qed.

(** A list is no longer than the memory. *)
Lemma lists_length m ch i l : lists m ch -> ch !! i = Some l -> length l <= size (dom (ents m)).
Proof.
  intros H Hi. assert (ND : NoDup l). { pose proof (ls_nodup _ _ H) as ND. rewrite (concat_delete _ _ _ Hi) in ND. apply (proj1 (NoDup_app _ _) ND). }
  rewrite <- (size_list_to_set (C := gset nat)) by done. apply subseteq_size. intros x Hx%elem_of_list_to_set. apply elem_of_dom.
  by apply (seg_in _ _ _ _ (ls_segs _ _ H _ _ Hi)).
Qed.

Lemma run_lop_ok D fuel op m ch : size D < fuel -> lists m ch /\ dom (ents m) = D -> may D op ch ->
  exists m', run_lop fuel op m = Ok (m', (spec_lop op ch).2) /\ lists m' (spec_lop op ch).1 /\ dom (ents m') = D.
Proof.
  intros Hf [H HD] Hm.
  assert (Hstep : exists m', run_lop fuel op m = Ok (m', (spec_lop op ch).2) /\ lists m' (spec_lop op ch).1).
  - destruct op as [i x|x|a b|i]; cbn [run_lop spec_lop may fst snd] in *.
    + destruct Hm as (Hi & Hx & Hc). destruct (lookup_lt_is_Some_2 ch i Hi) as [l Hl].
      destruct (list_insert_head_ok m ch i l x H Hl Hc) as (m' & -> & HL & _); [apply elem_of_dom; by rewrite HD|]. exists m'. by rewrite Hl.
    + destruct (in_some_list _ _ Hm) as (i & l1 & l2 & Hi). destruct (list_remove_ok m ch i l1 x l2 H Hi) as (m' & -> & HL & _).
      exists m'. split; [done|]. by rewrite (remove_everywhere m ch i l1 x l2).
    + destruct Hm as (Ha & Hb & Hne). destruct (lookup_lt_is_Some_2 ch a Ha) as [la Hla]. destruct (lookup_lt_is_Some_2 ch b Hb) as [lb Hlb].
      destruct (list_swap_ok m ch a b la lb H Hla Hlb Hne) as (m' & -> & HL). exists m'. split; [done|]. by rewrite Hla, Hlb.
    + destruct (lookup_lt_is_Some_2 ch i Hm) as [l Hl]. exists m. rewrite Hl. split; [|done]. apply (list_traverse_notes m ch); [done..|].
      pose proof (lists_length m ch i l H Hl) as Hlen. rewrite HD in Hlen. cbn. lia.
  - destruct Hstep as (m' & E & HL). exists m'. split; [done|]. split; [done|]. rewrite <- HD. destruct op; try (by apply (run_lop_dom _ _ _ _ _ E)).
    cbn in E, Hm. destruct (lookup_lt_is_Some_2 ch _ Hm) as [l Hl]. rewrite (list_traverse_notes m ch _ l) in E; [by injection E as ->|done|done|].
    pose proof (lists_length m ch _ l H Hl) as Hlen. rewrite HD in Hlen. lia.
Qed.

Lemma empty_lists n D : lists (PMem (replicate n None) D) (replicate n []).
Proof.
  split; cbn; [by rewrite fmap_replicate|by intros i l [-> _]%lookup_replicate|].
  assert (concat (replicate n []) = @nil nat) as -> by (by induction n). constructor.
Qed.

(** However elements are put at the head of lists, removed through their own links, lists swapped
    and walked, the links stay those of the lists of addresses and the walks visit them in order; nothing
    fails while a new element is in no list and a removed one is in some. *)
Theorem list_refines n D ops fuel : size (dom D) < fuel -> may_all spec_lop (may (dom D)) ops (replicate n []) ->
  exists m, run_all (run_lop fuel) ops (PMem (replicate n None) D) = Ok (m, (spec_all spec_lop ops (replicate n [])).2) /\
  lists m (spec_all spec_lop ops (replicate n [])).1.
Proof.
  intros Hf Hm. destruct (run_all_refines (run_lop fuel) spec_lop (may (dom D)) (fun m ch => lists m ch /\ dom (ents m) = dom D)
    (fun op m ch => run_lop_ok (dom D) fuel op m ch Hf) ops (PMem (replicate n None) D) (replicate n [])) as (m & E & HL & _); [|done|by exists m].
  split; [apply empty_lists|done].
Qed.

Lemma list_refines_witness : exists m,
  run_all (run_lop 4) [LInsert 0 5; LInsert 0 6; LInsert 1 7; LWalk 0; LRemove 5; LSwap 0 1; LWalk 0]
    (PMem [None; None] {[5 := PEnt None None; 6 := PEnt None None; 7 := PEnt None None]}) = Ok (m, [[]; []; []; [6; 5]; []; []; [7]]) /\
  roots m = [Some 7; Some 6].
Proof.
  destruct (list_refines 2 {[5 := PEnt None None; 6 := PEnt None None; 7 := PEnt None None]}
    [LInsert 0 5; LInsert 0 6; LInsert 1 7; LWalk 0; LRemove 5; LSwap 0 1; LWalk 0] 4) as (m & E & HL).
  - vm_compute. lia.
  - cbn. split_and!; try lia; decide_now.
  - exists m. split; [exact E|]. rewrite (ls_roots _ _ HL). vm_compute. reflexivity.
Defined.
