(* ===== verification/Tailq.v ===== *)
(** The tail queues of src/deps/sfslite-1.2/list.h: the lists of PList.v with a pointer to the place
    where the next element at the end will hang. *)
From S2P Require Import Prelude PList.

(** The lists and their [plast]. *)
Definition state : Type := (pmem * list slot)%type.

Definition insert_head (i elm : nat) (st : state) : res state :=
  let '(m, plast) := st in
  first ← root m i;
  m ← set_next m elm first;
  '(m, plast) ← match first with
    | Some f => m ← set_pprev m f (Some (NextOf elm)); Ok (m, plast)
    | None => Ok (m, <[i := NextOf elm]> plast)
    end;
  m ← put m (Some (Root i)) (Some elm);
  m ← set_pprev m elm (Some (Root i));
  Ok (m, plast).

Definition insert_tail (i elm : nat) (st : state) : res state :=
  let '(m, plast) := st in
  m ← set_next m elm None;
  m ← set_pprev m elm (plast !! i);
  m ← put m (plast !! i) (Some elm);
  Ok (m, <[i := NextOf elm]> plast).

Definition remove (i elm : nat) (st : state) : res state :=
  let '(m, plast) := st in
  e ← load_ent m (Some elm);
  '(m, plast) ← match next e with
    | Some n => m ← set_pprev m n (pprev e); Ok (m, plast)
    | None => match pprev e with Some s => Ok (m, <[i := s]> plast) | None => Stop Uninit end
    end;
  e ← load_ent m (Some elm);
  m ← put m (pprev e) (next e);
  Ok (m, plast).

Definition tailq_next (elm : nat) (st : state) : res (option nat) := e ← load_ent st.1 (Some elm); Ok (next e).

Definition traverse {A} (fuel : nat) (cb : nat -> state * A -> res (state * A)) (i : nat) (st : state * A) : res (state * A) :=
  first ← root st.1.1 i;
  loop fuel (traverse_round (fun (st : state * A) p => e ← load_ent st.1.1 p; Ok (next e)) cb) (st, first).

(** * Tail queues in memory *)

(** The lists and the pointers their next elements will hang on. *)
Definition tq (st : state) (ch : list (list nat)) : Prop :=
  lists st.1 ch /\ forall i l, ch !! i = Some l -> st.2 !! i = Some (last_slot (Root i) l).

Lemma tq_plast st ch i l k m' pl' : tq st ch -> ch !! i = Some l -> lists m' (<[i := k]> ch) ->
  pl' = (if decide (last_slot (Root i) k = last_slot (Root i) l) then st.2 else <[i := last_slot (Root i) k]> st.2) ->
  tq (m', pl') (<[i := k]> ch).
Proof.
  intros [_ Hp] Hi HL ->. split; [done|]. cbn [snd]. pose proof (lookup_lt_Some _ _ _ (Hp i l Hi)) as Hlt.
  intros j l' Hj. apply list_lookup_insert_Some in Hj as [(<- & <- & _)|[Hne Hj]].
  - destruct (decide _) as [E|E]; [rewrite E; by apply Hp|by apply list_lookup_insert_eq].
  - destruct (decide _); [by apply Hp|]. rewrite list_lookup_insert_ne by done. by apply Hp.
Qed.

Lemma tailq_insert_head_eq i x m pl p : root m i = Ok p ->
  insert_head i x (m, pl) = (m' ← PList.insert_head i x m; Ok (m', match p with Some _ => pl | None => <[i := NextOf x]> pl end)).
Proof.
  intros E. unfold insert_head, PList.insert_head. rewrite E. cbn [mbind res_bind].
  destruct (set_next m x p) as [m1|]; [|done]. cbn [mbind res_bind]. destruct p as [f|]; cbn [relink mbind res_bind].
  - destruct (set_pprev m1 f (Some (NextOf x))) as [m2|]; [|done]. cbn [mbind res_bind].
    destruct (put m2 (Some (Root i)) (Some x)) as [m3|]; done.
  - destruct (put m1 (Some (Root i)) (Some x)) as [m3|]; done.
Qed.

Lemma tailq_insert_head_ok st ch i l x : tq st ch -> ch !! i = Some l -> x ∉ concat ch -> is_Some (ents st.1 !! x) ->
  exists st', insert_head i x st = Ok st' /\ tq st' (<[i := x :: l]> ch).
Proof.
  intros Ht Hi Hx He. destruct st as [m pl]. pose proof Ht as [HL Hp]. cbn [fst snd] in *.
  destruct (list_insert_head_ok m ch i l x HL Hi Hx He) as (m' & E & HL' & _).
  rewrite (tailq_insert_head_eq i x m pl (head l)) by (by apply (root_ok m ch)). rewrite E. cbn [mbind res_bind].
  eexists. split; [done|]. eapply tq_plast; [exact Ht|exact Hi|done|]. rewrite last_slot_cons. destruct l as [|f k]; cbn [head].
  - destruct (decide _) as [Eq|_]; [discriminate Eq|done].
  - rewrite !last_slot_cons, decide_True; done.
Qed.

Lemma tailq_insert_tail_ok st ch i l x : tq st ch -> ch !! i = Some l -> x ∉ concat ch -> is_Some (ents st.1 !! x) ->
  exists st', insert_tail i x st = Ok st' /\ tq st' (<[i := l ++ [x]]> ch).
Proof.
  intros Ht Hi Hx [e He]. destruct st as [m pl]. pose proof Ht as [HL Hp]. cbn [fst snd] in *.
  pose proof (roots_lt _ _ _ _ HL Hi) as Hr. pose proof (ls_segs _ _ HL _ _ Hi) as Hs.
  pose proof (ls_nodup _ _ HL) as ND. rewrite (concat_delete _ _ _ Hi) in ND, Hx.
  assert (Hxl : x ∉ l) by (intros Hin; apply Hx, elem_of_app; by left).
  unfold insert_tail. rewrite (set_next_ok _ _ _ _ He), (Hp i l Hi). cbn [mbind res_bind].
  erewrite set_pprev_ok by (cbn; by rewrite lookup_insert_eq). cbn [mbind res_bind]. unfold with_ent. cbn [roots ents].
  rewrite insert_insert_eq. change (next (PEnt None (pprev e))) with (@None nat).
  set (es1 := <[x := PEnt None (Some (last_slot (Root i) l))]> (ents m)).
  assert (F1 : forall y, y ∈ l -> es1 !! y = ents m !! y) by (intros y Hy; apply lookup_insert_ne; by intros ->).
  assert (Hput : exists es2, put (PMem (roots m) es1) (Some (last_slot (Root i) l)) (Some x) = Ok (PMem (<[i := head (l ++ [x])]> (roots m)) es2) /\
    seg es2 (Root i) (l ++ [x]) /\ forall y, y <> x -> y ∉ l -> es2 !! y = ents m !! y).
  { unfold last_slot at 1. destruct l as [|y l _] using rev_ind.
    - exists es1. cbn [last app head]. rewrite put_root_ok by done. split; [done|]. split; [|intros y Hy _; by apply lookup_insert_ne].
      split; [|done]. apply lookup_insert_eq.
    - rewrite last_snoc. cbn [put]. assert (Hy : y ∈ l ++ [y]) by (apply elem_of_app; right; by left).
      apply seg_to_None, seg_to_snoc in Hs as [Hs Hys].
      apply NoDup_app in ND as (NDl & _ & _). apply NoDup_app in NDl as (NDl & Hdy & _).
      assert (Hyx : y <> x) by (by intros ->).
      rewrite (set_next_ok _ y (PEnt None (Some (last_slot (Root i) l)))) by (cbn; by rewrite F1).
      eexists. unfold with_ent. cbn [roots ents pprev]. split; [|split].
      + f_equal. f_equal. symmetry. apply list_insert_id. rewrite (ls_roots _ _ HL), list_lookup_fmap, Hi. by destruct l.
      + apply seg_to_None, seg_to_snoc. split.
        * apply seg_to_snoc. split; [|by rewrite lookup_insert_eq]. apply seg_to_frame with (ents m); [|done].
          intros z Hz. rewrite lookup_insert_ne by (intros ->; apply (Hdy z Hz); by left). apply F1, elem_of_app. by left.
        * rewrite lookup_insert_ne by done. apply lookup_insert_eq.
      + intros z Hzx Hz. rewrite lookup_insert_ne by (by intros ->). by apply lookup_insert_ne. }
  destruct Hput as (es2 & -> & S2 & F2). cbn [mbind res_bind]. eexists. split; [done|].
  apply (tq_plast (m, pl) ch i l (l ++ [x])); [exact Ht|done| |].
  - apply (lists_update m ch i l); [done|done| |done|].
    + intros j k y Hj Hk Hy. apply F2; [|intros Hin; by apply (lists_other m ch i j l k y)].
      intros ->. apply Hx. rewrite <- (concat_delete _ _ _ Hi). by eapply lists_in.
    + rewrite <- (assoc_L app). cbn. rewrite <- Permutation_middle. by apply NoDup_cons.
  - cbn [snd]. rewrite last_slot_snoc. rewrite decide_False; [done|]. intros Eq. apply Hxl. unfold last_slot in Eq.
    destruct (last l) as [y|] eqn:El; [|done]. injection Eq as ->. apply last_Some in El as [k ->]. apply elem_of_app. right. by left.
Qed.

Lemma tailq_remove_ok st ch i l1 x l2 : tq st ch -> ch !! i = Some (l1 ++ x :: l2) ->
  exists st', remove i x st = Ok st' /\ tq st' (<[i := l1 ++ l2]> ch).
Proof.
  intros Ht Hi. destruct st as [m pl]. pose proof Ht as [HL Hp]. cbn [fst snd] in *.
  destruct (list_remove_ok m ch i l1 x l2 HL Hi) as (m' & E & HL' & _).
  pose proof (ls_segs _ _ HL _ _ Hi) as Hs. pose proof (seg_app _ _ _ _ _ Hs) as [Hx H2]. fold (last_slot (Root i) l1) in Hx.
  unfold PList.remove in E. unfold remove. rewrite (load_ent_ok _ _ _ Hx) in E |- *. cbn [mbind res_bind next pprev] in E |- *.
  pose proof (ls_nodup _ _ HL) as ND. rewrite (concat_delete _ _ _ Hi) in ND. apply NoDup_app in ND as (ND & _ & _).
  assert (Hend : forall pl', pl' = (match l2 with [] => <[i := last_slot (Root i) l1]> pl | _ => pl end) -> tq (m', pl') (<[i := l1 ++ l2]> ch)).
  { intros pl' ->. apply (tq_plast (m, pl) ch i _ _ _ _ Ht Hi HL'). cbn [snd]. destruct l2 as [|f k].
    - rewrite app_nil_r, last_slot_snoc. rewrite decide_False; [done|]. intros Eq. apply NoDup_app in ND as (_ & Hd & _).
      unfold last_slot in Eq. destruct (last l1) as [y|] eqn:El; [|done]. injection Eq as ->. apply last_Some in El as [l ->].
      apply (Hd x); [apply elem_of_app; right; by left|by left].
    - rewrite decide_True; [done|]. unfold last_slot. by rewrite !last_app_cons, last_cons_cons. }
  destruct l2 as [|f k]; cbn [head relink mbind res_bind] in E |- *.
  - rewrite (load_ent_ok _ _ _ Hx) in E |- *. cbn [mbind res_bind next pprev] in E |- *. rewrite E. cbn [mbind res_bind]. eexists. split; [done|]. by apply Hend.
  - destruct (set_pprev m f (Some (last_slot (Root i) l1))) as [m1|]; [|done]. cbn [mbind res_bind] in E |- *.
    destruct (load_ent m1 (Some x)) as [e|]; [|done]. cbn [mbind res_bind] in E |- *. rewrite E. cbn [mbind res_bind]. eexists. split; [done|]. by apply Hend.
Qed.


Lemma tailq_traverse_notes st ch i l fuel : tq st ch -> ch !! i = Some l -> length l < fuel ->
  traverse fuel note i (st, []) = Ok (st, l).
Proof.
  intros [H _] Hi Hf. unfold traverse. cbn [fst]. rewrite (root_ok st.1 ch i l H Hi). cbn [mbind res_bind].
  set (J v r (s : state * list nat) := s = (st, v) /\ v ++ r = l).
  destruct (traverse_loop (fun (s : state * list nat) p => e ← load_ent s.1.1 p; Ok (next e)) note J) with (r := l) (v := @nil nat) (st := (st, @nil nat)) (fuel := fuel)
    as (s' & -> & -> & _); [|done|done|done].
  intros v x r s [-> Hv]. cbn [fst snd]. pose proof (ls_segs _ _ H _ _ Hi) as Hs. rewrite <- Hv in Hs. apply seg_app in Hs as [Hx _].
  rewrite (load_ent_ok _ _ _ Hx). split; [done|]. eexists. split; [done|]. split; [done|]. by rewrite <- (assoc_L app).
Qed.

(** * Sequences of operations *)
Inductive tqop : Type := THead (i x : nat) | TTail (i x : nat) | TRemove (i x : nat) | TWalk (i : nat).

Definition run_tqop (fuel : nat) (op : tqop) (st : state) : res (state * list nat) :=
  match op with
  | THead i x => st ← insert_head i x st; Ok (st, [])
  | TTail i x => st ← insert_tail i x st; Ok (st, [])
  | TRemove i x => st ← remove i x st; Ok (st, [])
  | TWalk i => traverse fuel note i (st, [])
  end.
Definition spec_tqop (op : tqop) (ch : list (list nat)) : list (list nat) * list nat :=
  match op with
  | THead i x => (<[i := x :: default [] (ch !! i)]> ch, [])
  | TTail i x => (<[i := default [] (ch !! i) ++ [x]]> ch, [])
  | TRemove i x => (filter (fun y => y <> x) <$> ch, [])
  | TWalk i => (ch, default [] (ch !! i))
  end.
(** An element is only removed from the list that has it. *)
Definition tq_may (D : gset nat) (op : tqop) (ch : list (list nat)) : Prop :=
  match op with
  | THead i x | TTail i x => i < length ch /\ x ∈ D /\ x ∉ concat ch
  | TRemove i x => x ∈ default [] (ch !! i)
  | TWalk i => i < length ch
  end.

(** No operation adds an element to the memory or takes one out of it. *)
Lemma tailq_insert_head_dom i x st st' : insert_head i x st = Ok st' -> dom (ents st'.1) = dom (ents st.1).
Proof.
  destruct st as [m pl]. intros E. unfold insert_head in E. apply bind_Ok_inv in E as (p & Ep & E).
  assert (E' : insert_head i x (m, pl) = Ok st') by (unfold insert_head; by rewrite Ep). rewrite (tailq_insert_head_eq _ _ _ _ _ Ep) in E'.
  apply bind_Ok_inv in E' as (m' & E' & [= <-]). apply (run_lop_dom 0 (LInsert i x) m m' []); [cbn; by rewrite E'|done].
Qed.
Lemma tailq_insert_tail_dom i x st st' : insert_tail i x st = Ok st' -> dom (ents st'.1) = dom (ents st.1).
Proof.
  destruct st as [m pl]. unfold insert_tail. intros (m1 & H1 & (m2 & H2 & (m3 & H3 & [= <-])%bind_Ok_inv)%bind_Ok_inv)%bind_Ok_inv.
  cbn [fst]. by rewrite (put_dom _ _ _ _ H3), (set_pprev_dom _ _ _ _ H2), (set_next_dom _ _ _ _ H1).
Qed.
Lemma tailq_remove_dom i x st st' : remove i x st = Ok st' -> dom (ents st'.1) = dom (ents st.1).
Proof.
  destruct st as [m pl]. unfold remove. intros (e & _ & ([m1 pl1] & H1 & (e1 & _ & (m2 & H2 & [= <-])%bind_Ok_inv)%bind_Ok_inv)%bind_Ok_inv)%bind_Ok_inv.
  cbn [fst]. rewrite (put_dom _ _ _ _ H2). destruct (next e) as [n|].
  - apply bind_Ok_inv in H1 as (m3 & H1 & [= -> _]). by rewrite (set_pprev_dom _ _ _ _ H1).
  - destruct (pprev e); [by injection H1 as -> _|done].
Qed.

Lemma run_tqop_ok D fuel op st ch : size D < fuel -> tq st ch /\ dom (ents st.1) = D -> tq_may D op ch ->
  exists st', run_tqop fuel op st = Ok (st', (spec_tqop op ch).2) /\ tq st' (spec_tqop op ch).1 /\ dom (ents st'.1) = D.
Proof.
  intros Hf [H HD] Hm. destruct op as [i x|i x|i x|i]; cbn [run_tqop spec_tqop tq_may fst snd] in *.
  - destruct Hm as (Hi & Hx & Hc). destruct (lookup_lt_is_Some_2 ch i Hi) as [l Hl]. rewrite Hl. rewrite <- HD in Hx. apply elem_of_dom in Hx.
    destruct (tailq_insert_head_ok st ch i l x H Hl Hc Hx) as (st' & E & H'). rewrite E. exists st'. split_and!; [done|done|]. by rewrite (tailq_insert_head_dom _ _ _ _ E).
  - destruct Hm as (Hi & Hx & Hc). destruct (lookup_lt_is_Some_2 ch i Hi) as [l Hl]. rewrite Hl. rewrite <- HD in Hx. apply elem_of_dom in Hx.
    destruct (tailq_insert_tail_ok st ch i l x H Hl Hc Hx) as (st' & E & H'). rewrite E. exists st'. split_and!; [done|done|]. by rewrite (tailq_insert_tail_dom _ _ _ _ E).
  - destruct (ch !! i) as [l|] eqn:Hl; [|by apply not_elem_of_nil in Hm]. change (x ∈ l) in Hm. apply list_elem_of_split in Hm as (l1 & l2 & ->).
    destruct (tailq_remove_ok st ch i l1 x l2 H Hl) as (st' & E & H'). rewrite E. exists st'. rewrite (remove_everywhere st.1 ch i l1 x l2 (proj1 H) Hl).
    split_and!; [done|done|]. by rewrite (tailq_remove_dom _ _ _ _ E).
  - destruct (lookup_lt_is_Some_2 ch i Hm) as [l Hl]. exists st. rewrite Hl. split_and!; [|done|done]. apply (tailq_traverse_notes st ch); [done..|].
    pose proof (lists_length _ ch i l (proj1 H) Hl) as Hlen. rewrite HD in Hlen. cbn. lia.
Qed.

(** C40: the tail queues of sfslite refine lists of addresses.  A client works on any number of queues, all empty at first, with elements of a given memory.  It inserts an element, at the head
    or at the tail of a queue there is, only while the element is in no queue; it removes an element only from the queue that has it; and its walks (with a callback that notes the element) change nothing. Then no operation
    fails, the links and the back pointers of the queues are those of the lists after any sequence of operations, the pointer [plast] of each is where the next element at its end belongs, also
    after the last element was removed, and a walk visits the elements of its queue in their order and ends. *)
Theorem tailq_refines n D ops fuel : size (dom D) < fuel -> may_all spec_tqop (tq_may (dom D)) ops (replicate n []) ->
  exists st, run_all (run_tqop fuel) ops (PMem (replicate n None) D, Root <$> seq 0 n) = Ok (st, (spec_all spec_tqop ops (replicate n [])).2) /\
  tq st (spec_all spec_tqop ops (replicate n [])).1.
Proof.
  intros Hf Hm. destruct (run_all_refines (run_tqop fuel) spec_tqop (tq_may (dom D)) (fun st ch => tq st ch /\ dom (ents st.1) = dom D)
    (fun op st ch => run_tqop_ok (dom D) fuel op st ch Hf) ops (PMem (replicate n None) D, Root <$> seq 0 n) (replicate n [])) as (st & E & HL & _); [|done|by exists st].
  split; [|done]. split; [apply empty_lists|]. intros i l [-> Hi]%lookup_replicate. cbn [snd]. rewrite list_lookup_fmap. by rewrite lookup_seq_lt.
Qed.

Lemma tailq_refines_witness : exists st,
  run_all (run_tqop 4) [TTail 0 5; TTail 0 6; THead 0 7; TWalk 0; TRemove 0 6; TTail 0 6; TRemove 0 7; TWalk 0]
    (PMem [None] {[5 := PEnt None None; 6 := PEnt None None; 7 := PEnt None None]}, [Root 0]) = Ok (st, [[]; []; []; [7; 5; 6]; []; []; []; [5; 6]]).
Proof.
  destruct (tailq_refines 1 {[5 := PEnt None None; 6 := PEnt None None; 7 := PEnt None None]}
    [TTail 0 5; TTail 0 6; THead 0 7; TWalk 0; TRemove 0 6; TTail 0 6; TRemove 0 7; TWalk 0] 4) as (st & E & HL).
  - vm_compute. lia.
  - cbn. split_and!; try lia; decide_now.
  - exists st. exact E.
Defined.
