(* ===== verification/Backoff.v ===== *)
(** The queues of retransmissions of src/deps/sfslite-1.2/backoff.h: an element is sent, sent again after a time that doubles, and given up after [maxsend] times.  Every
    queue holds the elements that wait for the same time, and has one timer. *)
From S2P Require Import Prelude PList Tailq.
#[local] Open Scope Z_scope.

(** * The code *)

(** [tmoq_entry]: its links are in the queue; [tm] is not set before the first [insert]. *)
Record tmoq_entry : Type := TEnt { qno : Z; tm : option Z }.
(** What the elements are told: [xmit] and [timeout] are virtual calls into code of the clients.  They are taken not to call back into the queues; what
    clients do with the queues in response they do after the call that told them. *)
Inductive call : Type := Xmit (p : nat) (qn : nat) | Timeout (p : nat).
(** [timers] are the calls of [tcb] that [timecb] will make, [clock] is what [time (NULL)] gives. *)
Record tmoq : Type := Tmoq { queue : Tailq.state; entry : gmap nat tmoq_entry; pending : list bool; timers : list (Z * nat); clock : Z; calls : list call }.

Definition with_queue (q : Tailq.state) (s : tmoq) : tmoq := Tmoq q (entry s) (pending s) (timers s) (clock s) (calls s).
Definition with_entry (p : nat) (e : tmoq_entry) (s : tmoq) : tmoq := Tmoq (queue s) (<[p := e]> (entry s)) (pending s) (timers s) (clock s) (calls s).
Definition with_pending (l : list bool) (s : tmoq) : tmoq := Tmoq (queue s) (entry s) l (timers s) (clock s) (calls s).
Definition timecb (t : Z) (qn : nat) (s : tmoq) : tmoq := Tmoq (queue s) (entry s) (pending s) (timers s ++ [(t, qn)]) (clock s) (calls s).
Definition tell (c : call) (s : tmoq) : tmoq := Tmoq (queue s) (entry s) (pending s) (timers s) (clock s) (calls s ++ [c]).
Definition ent (p : nat) (s : tmoq) : res tmoq_entry := match entry s !! p with Some e => Ok e | None => Stop Dangling end.
Definition due_at (e : tmoq_entry) : res Z := match tm e with Some t => Ok t | None => Stop Uninit end.

Section code.
Context (minto : Z) (maxsend : nat).

(** [minto << qn] of unsigned numbers. *)
Definition timeout_of (qn : nat) : res Z := if (qn <? 32)%nat then Ok (Z.shiftl minto (Z.of_nat qn) mod 2 ^ 32) else Stop BadShift.

Definition schedq (qn : nat) (s : tmoq) : res tmoq :=
  b ← aget (pending s) (Z.of_nat qn);
  if (b : bool) then Ok s
  else
    p ← root (queue s).1 qn;
    match p with
    | None => Ok s
    | Some x =>
        l ← aset (pending s) (Z.of_nat qn) true;
        e ← ent x s; t ← due_at e;
        Ok (timecb t qn (with_pending l s))
    end.
Definition insert (p : nat) (qn : nat) (now : Z) (s : tmoq) : res tmoq :=
  ent p s;;
  d ← timeout_of qn;
  let s := with_entry p (TEnt (Z.of_nat qn) (Some ((if now =? 0 then clock s else now) + d))) s in
  q ← insert_tail qn p (queue s);
  s ← schedq qn (with_queue q s);
  Ok (tell (Xmit p qn) s).
Definition remove (p : nat) (s : tmoq) : res tmoq :=
  e ← ent p s;
  if qno e <? Z.of_nat maxsend then q ← Tailq.remove (Z.to_nat (qno e)) p (queue s); Ok (with_queue q s) else Ok s.

Definition runq_round (qn : nat) (now : Z) (s : tmoq) : res (tmoq + tmoq) :=
  p ← root (queue s).1 qn;
  match p with
  | None => Ok (inr s)
  | Some x =>
      e ← ent x s; t ← due_at e;
      if t <=? now then
        s ← remove x s;
        if (qn <? maxsend - 1)%nat then s ← insert x (qn + 1) now s; Ok (inl s)
        else e ← ent x s; Ok (inl (tell (Timeout x) (with_entry x (TEnt (Z.of_nat maxsend) (tm e)) s)))
      else Ok (inr s)
  end.
Definition runq (fuel : nat) (qn : nat) (s : tmoq) : res tmoq := loop fuel (runq_round qn (clock s)) s.
Definition tcb (fuel : nat) (qn : nat) (s : tmoq) : res tmoq :=
  l ← aset (pending s) (Z.of_nat qn) false;
  s ← runq fuel qn (with_pending l s);
  schedq qn s.

Definition start (p : nat) (s : tmoq) : res tmoq := insert p 0 0 s.
Definition keeptrying (p : nat) (s : tmoq) : res tmoq :=
  e ← ent p s; c_assert (Z.of_nat maxsend <=? qno e);; insert p (maxsend - 1) 0 s.

(** The constructors of the queues and of the elements [D]; a [(u_int) -1] is [qno]. *)
Definition tmoq_new (D : gset nat) (now : Z) : tmoq :=
  Tmoq (PMem (replicate maxsend None) (gset_to_gmap (PEnt None None) D), Root <$> seq 0 maxsend) (gset_to_gmap (TEnt (2 ^ 32 - 1) None) D)
    (replicate maxsend false) [] now [].

(** What happens to the queues: calls of their clients, time, and the timer at [k], which is due. *)
Inductive bop : Type := BStart (p : nat) | BKeep (p : nat) | BRemove (p : nat) | BTick (d : Z) | BFire (k : nat).
Definition fire (fuel : nat) (k : nat) (s : tmoq) : res tmoq :=
  match timers s !! k with
  | Some (t, qn) => tcb fuel qn (Tmoq (queue s) (entry s) (pending s) (delete k (timers s)) (clock s) (calls s))
  | None => Ok s
  end.
Definition run_bop (fuel : nat) (op : bop) (s : tmoq) : res (tmoq * list call) :=
  let s := Tmoq (queue s) (entry s) (pending s) (timers s) (clock s) [] in
  s ← match op with
      | BStart p => start p s
      | BKeep p => keeptrying p s
      | BRemove p => remove p s
      | BTick d => Ok (Tmoq (queue s) (entry s) (pending s) (timers s) (clock s + d) (calls s))
      | BFire k => fire fuel k s
      end;
  Ok (s, calls s).

(** * Specification *)

(** The elements that wait, with the time they wait for; those that were given up or never started; the timers; the time. *)
Record waiting : Type := Waiting { aq : list (list (nat * Z)); aidle : gset nat; atimers : list (Z * nat); aclock : Z }.
Definition setq (qn : nat) (l : list (nat * Z)) (a : waiting) : waiting := Waiting (<[qn := l]> (aq a)) (aidle a) (atimers a) (aclock a).
Definition given_up (x : nat) (a : waiting) : waiting := Waiting (aq a) ({[x]} ∪ aidle a) (atimers a) (aclock a).

Definition armed (ts : list (Z * nat)) (qn : nat) : bool := bool_decide (qn ∈ ts.*2).
Definition arm (qn : nat) (a : waiting) : waiting :=
  if armed (atimers a) qn then a
  else match aq a !! qn with Some ((_, t) :: _) => Waiting (aq a) (aidle a) (atimers a ++ [(t, qn)]) (aclock a) | _ => a end.
Definition wait (p qn : nat) (a : waiting) : waiting :=
  let l := default [] (aq a !! qn) ++ [(p, aclock a + minto * 2 ^ Z.of_nat qn)] in
  arm qn (Waiting (<[qn := l]> (aq a)) (aidle a ∖ {[p]}) (atimers a) (aclock a)).
Fixpoint overdue (now : Z) (l : list (nat * Z)) : list nat * list (nat * Z) :=
  match l with
  | (x, t) :: l' => if t <=? now then let '(d, r) := overdue now l' in (x :: d, r) else ([], l)
  | [] => ([], [])
  end.
(** Those that are due wait in the next queue, or are given up after the last. *)
Definition fired (qn : nat) (a : waiting) : waiting * list call :=
  let '(d, r) := overdue (aclock a) (default [] (aq a !! qn)) in
  let a := setq qn r a in
  if (qn <? maxsend - 1)%nat then (arm qn (foldl (fun a x => wait x (qn + 1) a) a d), (fun x => Xmit x (qn + 1)) <$> d)
  else (arm qn (foldl (fun a x => given_up x a) a d), Timeout <$> d).
Definition spec_bop (op : bop) (a : waiting) : waiting * list call :=
  match op with
  | BStart p => (wait p 0 a, [Xmit p 0])
  | BKeep p => (wait p (maxsend - 1) a, [Xmit p (maxsend - 1)])
  | BRemove p => (Waiting (filter (fun xt => xt.1 <> p) <$> aq a) (aidle a) (atimers a) (aclock a), [])
  | BTick d => (Waiting (aq a) (aidle a) (atimers a) (aclock a + d), [])
  | BFire k =>
      match atimers a !! k with
      | Some (_, qn) => fired qn (Waiting (aq a) (aidle a) (delete k (atimers a)) (aclock a))
      | None => (a, [])
      end
  end.

(** The elements in the queues. *)
Definition queued (a : waiting) : list nat := concat ((fun l => l.*1) <$> aq a).
(** Only an element that does not wait is started, and only one that was given up is kept on; one that waits can be removed, or one that was given up or never started, but not one twice. *)
Definition may_bop (D : gset nat) (op : bop) (a : waiting) : Prop :=
  match op with
  | BStart p => p ∈ D /\ p ∉ queued a
  | BKeep p => p ∈ aidle a
  | BRemove p => p ∈ queued a \/ p ∈ aidle a
  | BTick d => 0 <= d
  | BFire k => exists t qn, atimers a !! k = Some (t, qn) /\ t <= aclock a
  end.
End code.

#[export] Instance may_bop_dec D op a : Decision (may_bop D op a).
Proof.
  destruct op as [p|p|p|d|k]; cbn [may_bop]; try apply _. destruct (atimers a !! k) as [[t i]|] eqn:E; [destruct (decide (t <= aclock a))|].
  - left. by exists t, i.
  - right. by intros (t' & i' & [= <- <-] & ?).
  - right. by intros (t' & i' & [=] & ?).
Defined.

Section proofs.
Context (minto : Z) (maxsend : nat) (D : gset nat).
Context (Hminto : 0 <= minto) (Hmax : (1 <= maxsend <= 32)%nat) (Hwidth : minto * 2 ^ (Z.of_nat maxsend - 1) < 2 ^ 32).
Notation wait := (wait minto).
Notation insert := (insert minto).

Definition names (a : waiting) : list (list nat) := (fun l => l.*1) <$> aq a.

(** The queues in memory are the queues of the specification. *)
Record shows (s : tmoq) (a : waiting) : Prop := {
  sh_tq : tq (queue s) (names a);
  sh_len : length (aq a) = maxsend;
  sh_dom : dom (ents (queue s).1) = D /\ dom (entry s) = D;
  sh_ent i l x t : aq a !! i = Some l -> (x, t) ∈ l -> entry s !! x = Some (TEnt (Z.of_nat i) (Some t));
  sh_idle x : x ∈ aidle a <-> exists e, entry s !! x = Some e /\ Z.of_nat maxsend <= qno e;
  sh_pending i : (i < maxsend)%nat -> pending s !! i = Some (armed (atimers a) i);
  sh_timers : timers s = atimers a;
  sh_clock : clock s = aclock a
}.

Lemma pow_le i j : (i <= j)%nat -> minto * 2 ^ Z.of_nat i <= minto * 2 ^ Z.of_nat j.
Proof. intros Hij. pose proof (Z.pow_le_mono_r 2 (Z.of_nat i) (Z.of_nat j) ltac:(lia) ltac:(lia)). nia. Qed.

Lemma timeout_run qn : (qn < maxsend)%nat -> timeout_of minto qn = Ok (minto * 2 ^ Z.of_nat qn).
Proof.
  intros Hq. unfold timeout_of. rewrite (proj2 (Nat.ltb_lt _ _)) by lia. rewrite Z.shiftl_mul_pow2 by lia. rewrite Z.mod_small; [done|].
  pose proof (pow_le qn (maxsend - 1) ltac:(lia)) as Hle. replace (Z.of_nat (maxsend - 1)) with (Z.of_nat maxsend - 1) in Hle by lia.
  pose proof (Z.pow_pos_nonneg 2 (Z.of_nat qn) ltac:(lia) ltac:(lia)). nia.
Qed.

Lemma lookup_names a i l : aq a !! i = Some l -> names a !! i = Some (l.*1).
Proof. intros Hl. unfold names. by rewrite list_lookup_fmap, Hl. Qed.

Lemma queue_ex s a i : shows s a -> (i < maxsend)%nat -> exists l, aq a !! i = Some l.
Proof. intros HS Hi. apply lookup_lt_is_Some_2. by rewrite (sh_len _ _ HS). Qed.

Lemma tmoq_first_run s a i l : shows s a -> aq a !! i = Some l -> root (queue s).1 i = Ok (head (l.*1)).
Proof. intros HS Hl. apply (root_ok _ (names a)); [apply (sh_tq _ _ HS)|by apply lookup_names]. Qed.

Lemma schedq_run s a i : shows s a -> (i < maxsend)%nat -> exists s', schedq i s = Ok s' /\ shows s' (arm i a) /\ calls s' = calls s.
Proof.
  intros HS Hi. destruct (queue_ex s a i HS Hi) as [l Hl]. unfold schedq, arm. rewrite (aget_nat _ _ _ (sh_pending _ _ HS i Hi)). cbn [mbind res_bind].
  destruct (armed (atimers a) i) eqn:Ea; [by exists s|]. rewrite (tmoq_first_run s a i l HS Hl), Hl. cbn [mbind res_bind]. destruct l as [|[x t] l]; [by exists s|]. change (head (((x, t) :: l).*1)) with (Some x). cbv iota.
  pose proof (lookup_lt_Some _ _ _ (sh_pending _ _ HS i Hi)) as Hlt. rewrite aset_nat by done. cbn [mbind res_bind].
  unfold ent. rewrite (sh_ent _ _ HS i _ x t Hl) by (by left). cbn [mbind res_bind due_at tm]. eexists. split; [done|]. split; [|done].
  destruct HS as [H1 H2 H3 H4 H5 H6 H7 H8]. split; cbn [timecb with_pending queue entry pending timers clock aq aidle atimers aclock]; try done.
  - intros j Hj. destruct (decide (j = i)) as [->|Hne].
    + rewrite list_lookup_insert_eq by done. unfold armed. rewrite bool_decide_true; [done|]. rewrite fmap_app. set_solver.
    + rewrite list_lookup_insert_ne by done. rewrite H6 by done. f_equal. unfold armed. apply bool_decide_ext. rewrite fmap_app. set_solver.
  - by rewrite H7.
Qed.

Lemma names_setq i l a : names (setq i l a) = <[i := l.*1]> (names a).
Proof. unfold names, setq. cbn. apply list_fmap_insert. Qed.

Lemma elem_of_concat {A} (x : A) (ll : list (list A)) : x ∈ concat ll <-> exists l, x ∈ l /\ l ∈ ll.
Proof. rewrite list_elem_of_In, in_concat. split; intros (l & H1 & H2); exists l; [by rewrite !list_elem_of_In|by rewrite <- !list_elem_of_In]. Qed.

Lemma queued_elem i l x t a : aq a !! i = Some l -> (x, t) ∈ l -> x ∈ queued a.
Proof.
  intros Hl Hx. unfold queued. apply elem_of_concat. exists (l.*1). split; [apply list_elem_of_fmap; by exists (x, t)|].
  apply list_elem_of_fmap. exists l. split; [done|]. by eapply list_elem_of_lookup_2.
Qed.

(** One queue changes, and the element [x] with it. *)
Lemma shows_change s a i l l' x e ids q : shows s a -> aq a !! i = Some l -> x ∈ D -> tq q (<[i := l'.*1]> (names a)) -> dom (ents q.1) = D ->
  (forall j k t, j <> i -> aq a !! j = Some k -> (x, t) ∉ k) ->
  (forall y t, (y, t) ∈ l' -> if decide (y = x) then e = TEnt (Z.of_nat i) (Some t) else (y, t) ∈ l) ->
  (forall y, y ∈ ids <-> if decide (y = x) then Z.of_nat maxsend <= qno e else y ∈ aidle a) ->
  shows (Tmoq q (<[x := e]> (entry s)) (pending s) (timers s) (clock s) (calls s)) (Waiting (<[i := l']> (aq a)) ids (atimers a) (aclock a)).
Proof.
  intros HS Hl Hx Hq Hd Hother Hin Hids. pose proof HS as [H1 H2 [H3a H3b] H4 H5 H6 H7 H8]. split; cbn; try done.
  - unfold names. cbn. by rewrite list_fmap_insert.
  - by rewrite length_insert.
  - split; [done|]. rewrite dom_insert_L, H3b. set_solver.
  - intros j k y t Hk Hy. apply list_lookup_insert_Some in Hk as [(<- & <- & _)|[Hne Hk]].
    + specialize (Hin y t Hy). destruct (decide (y = x)) as [->|Hyx]; [rewrite lookup_insert_eq; by subst e|].
      rewrite lookup_insert_ne by done. by eapply H4.
    + destruct (decide (y = x)) as [->|Hyx]; [by destruct (Hother j k t ltac:(done) Hk)|]. rewrite lookup_insert_ne by done. by eapply H4.
  - intros y. rewrite Hids. destruct (decide (y = x)) as [->|Hyx].
    + rewrite lookup_insert_eq. split; [intros Hle; by exists e|intros (e' & [= <-] & Hle); done].
    + rewrite lookup_insert_ne by done. apply H5.
Qed.

Lemma tmoq_insert_run s a x i now : shows s a -> x ∈ D -> x ∉ queued a -> (i < maxsend)%nat -> now = 0 \/ now = aclock a ->
  exists s', insert x i now s = Ok s' /\ shows s' (wait x i a) /\ calls s' = calls s ++ [Xmit x i].
Proof.
  intros HS Hx Hni Hi Hnow. destruct (queue_ex s a i HS Hi) as [l Hl]. pose proof (sh_dom _ _ HS) as [Hd1 Hd2].
  assert (He : is_Some (entry s !! x)) by (apply elem_of_dom; by rewrite Hd2). destruct He as [e He].
  unfold Backoff.insert, ent. rewrite He. cbn [mbind res_bind]. rewrite timeout_run by done. cbn [mbind res_bind]. cbn [with_entry queue clock].
  assert (Hents : is_Some (ents (queue s).1 !! x)) by (apply elem_of_dom; by rewrite Hd1).
  destruct (tailq_insert_tail_ok (queue s) (names a) i (l.*1) x (sh_tq _ _ HS) (lookup_names a i l Hl) Hni Hents) as (q & Eq & Hq).
  rewrite Eq. cbn [mbind res_bind]. assert (Ec : (if now =? 0 then clock s else now) = aclock a).
  { rewrite (sh_clock _ _ HS). destruct (Z.eqb_spec now 0); [done|]. by destruct Hnow. }
  rewrite Ec. set (t := aclock a + minto * 2 ^ Z.of_nat i). set (e' := TEnt (Z.of_nat i) (Some t)).
  pose proof (shows_change s a i l (l ++ [(x, t)]) x e' (aidle a ∖ {[x]}) q HS Hl Hx) as HS1.
  destruct (schedq_run (Tmoq q (<[x := e']> (entry s)) (pending s) (timers s) (clock s) (calls s)) (Waiting (<[i := l ++ [(x, t)]]> (aq a)) (aidle a ∖ {[x]}) (atimers a) (aclock a)) i) as (s' & E & HS' & Hc).
  - apply HS1.
    + by rewrite fmap_app.
    + by rewrite (tailq_insert_tail_dom _ _ _ _ Eq).
    + intros j k t' _ Hk Hin. apply Hni. by eapply queued_elem.
    + intros y t' [Hy|Hy%list_elem_of_singleton]%elem_of_app; [|injection Hy as -> ->; by rewrite decide_True].
      destruct (decide (y = x)) as [->|]; [|done]. destruct (Hni (queued_elem _ _ _ _ _ Hl Hy)).
    + intros y. destruct (decide (y = x)) as [->|Hne]; [|set_solver]. cbn. split; [set_solver|lia].
  - done.
  - change (with_queue q _) with (Tmoq q (<[x := e']> (entry s)) (pending s) (timers s) (clock s) (calls s)). rewrite E. cbn [mbind res_bind]. eexists. split; [done|]. split.
    + unfold Backoff.wait. rewrite Hl. cbn [default]. destruct HS'. by split.
    + cbn. by rewrite Hc.
Qed.

(** The element at a known place of its queue is taken out. *)
Lemma tmoq_remove_run s a x i l1 t l2 : shows s a -> aq a !! i = Some (l1 ++ (x, t) :: l2) ->
  exists s', remove maxsend x s = Ok s' /\ shows s' (setq i (l1 ++ l2) a) /\ calls s' = calls s /\ entry s' = entry s.
Proof.
  intros HS Hl. pose proof (lookup_lt_Some _ _ _ Hl) as Hi. rewrite (sh_len _ _ HS) in Hi. pose proof (sh_dom _ _ HS) as [Hd1 Hd2].
  assert (Hin : (x, t) ∈ l1 ++ (x, t) :: l2) by set_solver. pose proof (sh_ent _ _ HS i _ x t Hl Hin) as He.
  unfold remove, ent. rewrite He. cbn [mbind res_bind qno]. rewrite (proj2 (Z.ltb_lt _ _)) by lia. rewrite Nat2Z.id.
  pose proof (lookup_names a i _ Hl) as Hn. rewrite fmap_app in Hn. change (((x, t) :: l2).*1) with (x :: l2.*1) in Hn.
  destruct (tailq_remove_ok (queue s) (names a) i (l1.*1) x (l2.*1) (sh_tq _ _ HS) Hn) as (q & Eq & Hq). rewrite Eq. cbn [mbind res_bind].
  eexists. split; [done|]. split; [|done]. pose proof HS as [H1 H2 H3 H4 H5 H6 H7 H8]. split; cbn; try done.
  - unfold names. cbn. rewrite list_fmap_insert, fmap_app. exact Hq.
  - by rewrite length_insert.
  - by rewrite (tailq_remove_dom _ _ _ _ Eq).
  - intros j k y t' Hk Hy. apply list_lookup_insert_Some in Hk as [(<- & <- & _)|[Hne Hk]]; [|by eapply H4].
    apply (H4 i _ y t' Hl). set_solver.
Qed.

(** ** The timer *)
Lemma wait_setq x j i r a : j <> i -> wait x j (setq i r a) = setq i r (wait x j a).
Proof.
  intros Hne. unfold Backoff.wait, arm, setq. cbn [aq aidle atimers aclock]. rewrite list_lookup_insert_ne by done. destruct (armed (atimers a) j).
  - cbn. by rewrite list_insert_insert_ne.
  - rewrite (list_insert_insert_ne _ j i) by done. rewrite (list_lookup_insert_ne _ i j) by done. cbn [aq aidle atimers aclock].
    destruct (<[j := _]> (aq a) !! j) as [[|[y t] k]|]; done.
Qed.

Lemma setq_setq i l l' a : setq i l (setq i l' a) = setq i l a.
Proof. unfold setq. cbn. by rewrite list_insert_insert_eq. Qed.

Lemma not_queued s a i x t l : shows s a -> aq a !! i = Some ((x, t) :: l) -> x ∉ queued (setq i l a) /\ x ∈ D.
Proof.
  intros HS Hl. split.
  - pose proof (ls_nodup _ _ (proj1 (sh_tq _ _ HS))) as HN. pose proof (lookup_names a i _ Hl) as Hn. change (((x, t) :: l).*1) with (x :: l.*1) in Hn.
    rewrite (concat_delete _ _ _ Hn) in HN. cbn in HN. apply NoDup_cons in HN as [HN _]. intros Hin. apply HN.
    change (queued (setq i l a)) with (concat (names (setq i l a))) in Hin. rewrite names_setq in Hin. by rewrite (concat_insert _ _ _ _ Hn) in Hin.
  - rewrite <- (proj2 (sh_dom _ _ HS)). apply elem_of_dom. eexists. apply (sh_ent _ _ HS i _ x t Hl). by left.
Qed.

Lemma shows_given_up s b x e c : shows s b -> x ∉ queued b -> x ∈ D -> Z.of_nat maxsend <= qno e -> shows (tell c (with_entry x e s)) (given_up x b).
Proof.
  intros HS Hx HD He. pose proof HS as [H1 H2 [H3a H3b] H4 H5 H6 H7 H8]. split; cbn; try done.
  - split; [done|]. rewrite dom_insert_L, H3b. set_solver.
  - intros i l y t Hl Hy. rewrite lookup_insert_ne; [by eapply H4|]. intros <-. apply Hx. by eapply queued_elem.
  - intros y. destruct (decide (y = x)) as [->|Hne].
    + rewrite lookup_insert_eq. split; [intros _; by exists e|set_solver].
    + rewrite lookup_insert_ne by done. rewrite <- H5. set_solver.
Qed.

(** Where a due element of queue [i] goes, and what it is told. *)
Definition go_on (i : nat) (a : waiting) (x : nat) : waiting := if (i <? maxsend - 1)%nat then wait x (i + 1) a else given_up x a.
Definition told (i : nat) (x : nat) : call := if (i <? maxsend - 1)%nat then Xmit x (i + 1) else Timeout x.

Lemma go_on_setq i x r a : go_on i (setq i r a) x = setq i r (go_on i a x).
Proof. unfold go_on. destruct (i <? maxsend - 1)%nat; [apply wait_setq; lia|done]. Qed.

Lemma wait_aq x j a i : j <> i -> aq (wait x j a) !! i = aq a !! i /\ aclock (wait x j a) = aclock a.
Proof.
  intros Hne. unfold Backoff.wait, arm. cbn [aq aidle atimers aclock]. destruct (armed (atimers a) j); [cbn; by rewrite list_lookup_insert_ne|].
  destruct (<[j := _]> (aq a) !! j) as [[|[y t] k]|]; cbn; by rewrite list_lookup_insert_ne.
Qed.

Lemma go_on_aq i a x : aq (go_on i a x) !! i = aq a !! i /\ aclock (go_on i a x) = aclock a.
Proof. unfold go_on. destruct (i <? maxsend - 1)%nat; [apply wait_aq; lia|done]. Qed.

(** One element is due. *)
Lemma runq_step s a i x t l : shows s a -> aq a !! i = Some ((x, t) :: l) -> (i < maxsend)%nat -> t <= aclock a ->
  exists s', runq_round minto maxsend i (aclock a) s = Ok (inl s') /\ shows s' (go_on i (setq i l a) x) /\ calls s' = calls s ++ [told i x].
Proof.
  intros HS Hl Hi Ht. unfold runq_round. rewrite (tmoq_first_run s a i _ HS Hl). change (head (((x, t) :: l).*1)) with (Some x). cbn [mbind res_bind]. cbv iota.
  pose proof (sh_ent _ _ HS i _ x t Hl ltac:(by left)) as He. unfold ent. rewrite He. cbn [mbind res_bind due_at tm]. rewrite (proj2 (Z.leb_le _ _)) by done.
  destruct (tmoq_remove_run s a x i [] t l HS Hl) as (s1 & E1 & HS1 & Ec1 & Ee1). rewrite E1. cbn [mbind res_bind app] in *.
  destruct (not_queued s a i x t l HS Hl) as [Hnq HxD]. unfold go_on, told. destruct (Nat.ltb_spec i (maxsend - 1)) as [Hlt|Hge].
  - destruct (tmoq_insert_run s1 (setq i l a) x (i + 1) (aclock a) HS1 HxD Hnq ltac:(lia) ltac:(by right)) as (s2 & E2 & HS2 & Ec2). rewrite E2. cbn [mbind res_bind].
    exists s2. split; [done|]. split; [done|]. by rewrite Ec2, Ec1.
  - rewrite Ee1, He. cbn [mbind res_bind tm]. eexists. split; [done|]. split; [by apply shows_given_up|]. cbn. by rewrite Ec1.
Qed.

Lemma runq_run l : forall fuel s a i d r, shows s a -> aq a !! i = Some l -> (i < maxsend)%nat -> (length l < fuel)%nat -> overdue (aclock a) l = (d, r) ->
  exists s', loop fuel (runq_round minto maxsend i (aclock a)) s = Ok s' /\ shows s' (foldl (go_on i) (setq i r a) d) /\ calls s' = calls s ++ (told i <$> d).
Proof.
  induction l as [|[x t] l IH]; intros fuel s a i d r HS Hl Hi Hf Eo; (destruct fuel as [|fuel]; [cbn in Hf; lia|]); rewrite loop_step.
  - injection Eo as <- <-. unfold runq_round. rewrite (tmoq_first_run s a i _ HS Hl). cbn. exists s. split; [done|]. split; [|by rewrite app_nil_r].
    unfold setq. rewrite list_insert_id by done. by destruct a.
  - cbn [overdue] in Eo. destruct (Z.leb_spec t (aclock a)) as [Ht|Ht].
    + destruct (overdue (aclock a) l) as [d' r'] eqn:Eo'. injection Eo as <- <-. destruct (runq_step s a i x t l HS Hl Hi Ht) as (s1 & E1 & HS1 & Ec1). rewrite E1.
      destruct (go_on_aq i (setq i l a) x) as [Ea Eclk]. assert (Hl1 : aq (go_on i (setq i l a) x) !! i = Some l).
      { rewrite Ea. unfold setq. cbn. apply list_lookup_insert_eq. by rewrite (sh_len _ _ HS). }
      change (aclock (setq i l a)) with (aclock a) in Eclk. cbn in Hf.
      destruct (IH fuel s1 (go_on i (setq i l a) x) i d' r' HS1 Hl1 Hi ltac:(lia)) as (s' & E & HS' & Ec); [by rewrite Eclk|]. rewrite Eclk in E. exists s'. split; [exact E|].
      split; [|by rewrite Ec, Ec1, <- app_assoc]. rewrite <- go_on_setq, setq_setq in HS'. exact HS'.
    + injection Eo as <- <-. unfold runq_round. rewrite (tmoq_first_run s a i _ HS Hl). change (head (((x, t) :: l).*1)) with (Some x). cbn [mbind res_bind]. cbv iota.
      pose proof (sh_ent _ _ HS i _ x t Hl ltac:(by left)) as He. unfold ent. rewrite He. cbn [mbind res_bind due_at tm]. rewrite (proj2 (Z.leb_gt _ _)) by done.
      exists s. split; [done|]. split; [|by rewrite app_nil_r]. cbn. unfold setq. rewrite list_insert_id by done. by destruct a.
Qed.
Lemma queue_small s a i l : shows s a -> aq a !! i = Some l -> (length l <= size D)%nat.
Proof.
  intros HS Hl. pose proof (ls_nodup _ _ (proj1 (sh_tq _ _ HS))) as HN. rewrite (concat_delete _ _ _ (lookup_names a i l Hl)) in HN. apply NoDup_app in HN as [HN _].
  rewrite <- (length_fmap fst), <- (size_list_to_set (C := gset nat)) by done. apply subseteq_size. intros x Hx%elem_of_list_to_set.
  apply list_elem_of_fmap in Hx as ([y t] & -> & Hx). rewrite <- (proj2 (sh_dom _ _ HS)). apply elem_of_dom. eexists. by apply (sh_ent _ _ HS i l).
Qed.

Lemma fired_go_on i a d r : overdue (aclock a) (default [] (aq a !! i)) = (d, r) ->
  fired minto maxsend i a = (arm i (foldl (go_on i) (setq i r a) d), told i <$> d).
Proof. intros E. unfold fired, go_on, told. rewrite E. by destruct (i <? maxsend - 1)%nat. Qed.

Lemma armed_delete k t i ts j : NoDup ts.*2 -> ts !! k = Some (t, i) -> armed (delete k ts) j = if decide (j = i) then false else armed ts j.
Proof.
  intros HN Hk. pose proof (delete_Permutation ts k (t, i) Hk) as HP. assert (HP2 : ts.*2 ≡ₚ i :: (delete k ts).*2) by by rewrite HP at 1.
  unfold armed. rewrite HP2 in HN. apply NoDup_cons in HN as [Hni _]. destruct (decide (j = i)) as [->|Hne]; [by apply bool_decide_false|].
  apply bool_decide_ext. rewrite HP2, elem_of_cons. naive_solver.
Qed.

(** The timer at [k] fires. *)
Lemma fire_run fuel s a k t i : shows s a -> NoDup (atimers a).*2 -> atimers a !! k = Some (t, i) -> (i < maxsend)%nat -> (size D < fuel)%nat ->
  exists s', fire minto maxsend fuel k s = Ok s' /\ shows s' (spec_bop minto maxsend (BFire k) a).1 /\ calls s' = calls s ++ (spec_bop minto maxsend (BFire k) a).2.
Proof.
  intros HS HN Hk Hi Hf. unfold fire. cbn [spec_bop]. rewrite (sh_timers _ _ HS), Hk. unfold tcb. cbn [pending].
  set (a1 := Waiting (aq a) (aidle a) (delete k (atimers a)) (aclock a)). pose proof (sh_pending _ _ HS i Hi) as Hp. pose proof (lookup_lt_Some _ _ _ Hp) as Hlt.
  rewrite (aset_nat (pending s) i false) by done. cbn [mbind res_bind]. unfold with_pending. cbn [queue entry pending timers clock calls]. set (s1 := Tmoq _ _ _ _ _ _).
  assert (HS1 : shows s1 a1).
  { pose proof HS as [H1 H2 H3 H4 H5 H6 H7 H8]. split; cbn; try done. intros j Hj. rewrite (armed_delete k t i) by done.
    destruct (decide (j = i)) as [->|Hne]; [by apply list_lookup_insert_eq|]. rewrite list_lookup_insert_ne by done. by apply H6. }
  destruct (queue_ex s1 a1 i HS1 Hi) as [l Hl]. destruct (overdue (aclock a1) l) as [d r] eqn:Eo. rewrite (fired_go_on i a1 d r) by by rewrite Hl.
  pose proof (queue_small s1 a1 i l HS1 Hl). destruct (runq_run l fuel s1 a1 i d r HS1 Hl Hi ltac:(lia) Eo) as (s2 & E2 & HS2 & Ec2).
  unfold runq. rewrite (sh_clock _ _ HS1), E2. cbn [mbind res_bind fst snd]. destruct (schedq_run _ _ i HS2 Hi) as (s3 & E3 & HS3 & Ec3).
  rewrite E3. exists s3. split; [done|]. split; [done|]. by rewrite Ec3, Ec2.
Qed.
(** ** No element is overlooked

    The queues are in the order of the times, none further away than the queue's time; a queue that is not empty has a timer that is not late, but for those in [ex]. *)
Notation far a i := (aclock a + minto * 2 ^ Z.of_nat i).
Record timely (ex : list nat) (a : waiting) : Prop := {
  tl_len : length (aq a) = maxsend;
  tl_nodup : NoDup (atimers a).*2;
  tl_idx t i : (t, i) ∈ atimers a -> (i < maxsend)%nat /\ t <= far a i;
  tl_sorted i l : aq a !! i = Some l -> StronglySorted Z.le l.*2 /\ Forall (fun t => t <= far a i) l.*2;
  tl_timer i x t l : i ∉ ex -> aq a !! i = Some ((x, t) :: l) -> exists t', (t', i) ∈ atimers a /\ t' <= t
}.

Lemma not_armed ts i : armed ts i = false -> forall t, (t, i) ∉ ts.
Proof. intros Ha t Hin. unfold armed in Ha. apply bool_decide_eq_false in Ha. apply Ha, list_elem_of_fmap. by exists (t, i). Qed.

Lemma timely_arm ex i a : timely (i :: ex) a -> armed (atimers a) i = false -> (i < maxsend)%nat -> timely ex (arm i a).
Proof.
  intros [H1 H2 H3 H4 H5] Ha Hi. unfold arm. rewrite Ha. destruct (aq a !! i) as [[|[x t] l]|] eqn:El.
  1,3: split; try done; intros j y u k Hj Hl; apply (H5 j y u k); [|done]; intros [->|?]%elem_of_cons; [congruence|done].
  destruct (H4 i _ El) as [_ [Ht _]%Forall_cons]. split; cbn; try done.
  - rewrite (fmap_app snd). apply NoDup_app. split; [done|]. split; [|apply NoDup_singleton]. intros j Hj Hji. apply list_elem_of_singleton in Hji as ->.
    cbn in Hj. apply list_elem_of_fmap in Hj as ([u j] & Ej & Hj). cbn in Ej. subst j. by apply (not_armed _ _ Ha u).
  - intros u j [Hu|Hu%list_elem_of_singleton]%elem_of_app; [by apply H3|]. by injection Hu as -> ->.
  - intros j y u k Hj Hl. destruct (decide (j = i)) as [->|Hne].
    + rewrite El in Hl. injection Hl as <- <- <-. exists t. split; [|lia]. apply elem_of_app. right. by left.
    + destruct (H5 j y u k) as (u' & Hu & Hle); [|done|exists u'; split; [|done]; apply elem_of_app; by left]. intros [?|?]%elem_of_cons; done.
Qed.

(** A queue is replaced by a part of it. *)
Lemma timely_part ex i l l' a : timely ex a -> aq a !! i = Some l -> sublist l' l -> timely ex (setq i l' a).
Proof.
  intros [H1 H2 H3 H4 H5] Hl Hsub. destruct (H4 i l Hl) as [Hs Hfar]. assert (Hsub2 : sublist l'.*2 l.*2) by by apply fmap_sublist.
  split; cbn; try done.
  - by rewrite length_insert.
  - intros j k Hk. apply list_lookup_insert_Some in Hk as [(<- & <- & _)|[Hne Hk]]; [|by apply H4].
    split; [by eapply StronglySorted_sublist|]. apply Forall_forall. intros t Ht. by eapply (proj1 (Forall_forall _ _) Hfar), elem_of_sublist.
  - intros j x t k Hj Hk. apply list_lookup_insert_Some in Hk as [(<- & -> & _)|[Hne Hk]]; [|by apply (H5 j x t k)].
    destruct l as [|[y u] l]; [by apply sublist_nil_r in Hsub|]. destruct (H5 i y u l Hj Hl) as (t' & Ht' & Hle). exists t'. split; [done|].
    assert (Hin : t ∈ u :: l.*2) by (apply (elem_of_sublist (t :: k.*2) _ _ ltac:(by left) Hsub2)). apply StronglySorted_cons in Hs as [Hu _]. rewrite Forall_forall in Hu.
    apply elem_of_cons in Hin as [->|Hin]; [done|]. specialize (Hu t Hin). cbn in Hu. lia.
Qed.

Lemma timely_wait ex x j a : timely ex a -> (j < maxsend)%nat -> j ∉ ex -> timely ex (wait x j a).
Proof.
  intros HT Hj Hex. destruct (lookup_lt_is_Some_2 (aq a) j) as [l Hl]; [by rewrite (tl_len _ _ HT)|]. pose proof HT as [H1 H2 H3 H4 H5]. unfold Backoff.wait. rewrite Hl. cbn [default].
  assert (HT1 : timely (j :: ex) (Waiting (<[j := l ++ [(x, far a j)]]> (aq a)) (aidle a ∖ {[x]}) (atimers a) (aclock a))).
  { split; cbn; try done.
    - by rewrite length_insert.
    - intros i k Hk. apply list_lookup_insert_Some in Hk as [(<- & <- & _)|[Hne Hk]]; [|by apply H4]. destruct (H4 j l Hl) as [Hs Hf].
      rewrite fmap_app. split; [|apply Forall_app; split; [done|by repeat constructor]]. apply StronglySorted_app. split; [|split; [done|repeat constructor]].
      intros u u' Hu Hu'. apply list_elem_of_singleton in Hu' as ->. by apply (proj1 (Forall_forall _ _) Hf).
    - intros i y u k Hi Hk. apply not_elem_of_cons in Hi as [Hij Hi]. rewrite list_lookup_insert_ne in Hk by done. by apply (H5 i y u k). }
  destruct (armed (atimers a) j) eqn:Ea; [|by apply timely_arm]. unfold arm. cbn [atimers]. rewrite Ea. destruct HT1 as [G1 G2 G3 G4 G5]. split; try done.
  intros i y u k Hi Hk. destruct (decide (i = j)) as [->|Hne]; [|apply (G5 i y u k); [|done]; by apply not_elem_of_cons]. cbn in Hk.
  rewrite list_lookup_insert_eq in Hk by (by eapply lookup_lt_Some). injection Hk as Hk. destruct l as [|[z w] l].
  - injection Hk as <- <- <-. unfold armed in Ea. apply bool_decide_eq_true, list_elem_of_fmap in Ea as ([t' i] & -> & Ht'). exists t'. split; [done|]. by apply (H3 t' i).
  - injection Hk as <- <- _. by apply (H5 j z w l).
Qed.

Lemma timely_go_on ex i x a : timely ex a -> (i < maxsend)%nat -> (i + 1)%nat ∉ ex -> timely ex (go_on i a x).
Proof. intros HT Hi Hex. unfold go_on. destruct (Nat.ltb_spec i (maxsend - 1)); [apply timely_wait; [done|lia|done]|]. destruct HT. by split. Qed.

Lemma go_on_armed i x a : armed (atimers (go_on i a x)) i = armed (atimers a) i.
Proof.
  unfold go_on. destruct (i <? maxsend - 1)%nat; [|done]. unfold Backoff.wait, arm. cbn [aq aidle atimers aclock]. destruct (armed (atimers a) (i + 1)) eqn:Ea; [done|].
  destruct (<[_ := _]> (aq a) !! (i + 1)%nat) as [[|[y t] k]|]; [done| |done]. cbn [atimers]. unfold armed. apply bool_decide_ext. rewrite fmap_app, elem_of_app.
  split; [|by left]. intros [?|Hin%list_elem_of_singleton]; [done|]. cbn in Hin. lia.
Qed.

Lemma overdue_rest now l : forall d r, overdue now l = (d, r) -> sublist r l.
Proof.
  induction l as [|[x t] l IH]; intros d r Eo; cbn [overdue] in Eo; [by simplify_eq|]. destruct (t <=? now); [|by simplify_eq].
  destruct (overdue now l) as [d' r']. simplify_eq. apply sublist_cons. by apply (IH d').
Qed.

Lemma timely_fire k t i a : timely [] a -> atimers a !! k = Some (t, i) -> timely [] (spec_bop minto maxsend (BFire k) a).1.
Proof.
  intros HT Hk. cbn [spec_bop]. rewrite Hk. destruct (tl_idx _ _ HT t i (list_elem_of_lookup_2 _ _ _ Hk)) as [Hi _]. set (a1 := Waiting (aq a) (aidle a) (delete k (atimers a)) (aclock a)).
  pose proof (delete_Permutation (atimers a) k (t, i) Hk) as HP. assert (HT1 : timely [i] a1 /\ armed (atimers a1) i = false).
  { pose proof HT as [H1 H2 H3 H4 H5]. split; [|cbn; rewrite (armed_delete k t i) by done; by rewrite decide_True]. split; cbn; try done.
    - rewrite HP in H2. by apply NoDup_cons in H2 as [_ H2].
    - intros u j Hu. apply H3. rewrite HP. by right.
    - intros j x u l Hj Hl. destruct (H5 j x u l) as (t' & Ht' & Hle); [by apply not_elem_of_nil|done|]. exists t'. split; [|done].
      rewrite HP in Ht'. apply elem_of_cons in Ht' as [[= _ ->]|Ht']; [|done]. destruct Hj. by left. }
  destruct (lookup_lt_is_Some_2 (aq a1) i) as [l Hl]; [cbn; by rewrite (tl_len _ _ HT)|]. destruct (overdue (aclock a1) l) as [d r] eqn:Eo. rewrite (fired_go_on i a1 d r) by by rewrite Hl.
  cbn [fst]. pose proof (overdue_rest _ _ _ _ Eo) as Hr.
  destruct HT1 as [HT1 Ha1]. assert (HT2 : timely [i] (setq i r a1) /\ armed (atimers (setq i r a1)) i = false) by (split; [by apply timely_part with l|done]).
  revert HT2. generalize (setq i r a1). clear -Hi Hmax Hminto. induction d as [|x d IH]; intros b [Hb Ha]; cbn [foldl]; [by apply timely_arm|].
  apply IH. split; [|by rewrite go_on_armed]. apply timely_go_on; [done|done|]. intros Hin%list_elem_of_singleton. lia.
Qed.
(** ** Sequences of operations *)
Lemma idle_not_queued s a x : shows s a -> x ∈ aidle a -> x ∉ queued a /\ x ∈ D.
Proof.
  intros HS Hx. apply (sh_idle _ _ HS) in Hx as (e & He & Hq). split; [|rewrite <- (proj2 (sh_dom _ _ HS)); apply elem_of_dom; by exists e].
  intros (k & Hxk & Hk)%elem_of_concat. apply list_elem_of_fmap in Hk as (l & -> & Hl). apply list_elem_of_lookup in Hl as [i Hl].
  apply list_elem_of_fmap in Hxk as ([y t] & Ey & Hy). cbn in Ey. subst y. rewrite (sh_ent _ _ HS i l x t Hl Hy) in He. injection He as <-. cbn in Hq.
  apply lookup_lt_Some in Hl. rewrite (sh_len _ _ HS) in Hl. lia.
Qed.

Lemma queued_place s a x : shows s a -> x ∈ queued a ->
  exists i l1 t l2, aq a !! i = Some (l1 ++ (x, t) :: l2) /\ filter (fun xt => xt.1 <> x) <$> aq a = <[i := l1 ++ l2]> (aq a).
Proof.
  intros HS (k & Hxk & Hk)%elem_of_concat. apply list_elem_of_fmap in Hk as (l & -> & Hl). apply list_elem_of_lookup in Hl as [i Hl].
  apply list_elem_of_fmap in Hxk as ([y t] & Ey & Hy). cbn in Ey. subst y. pose proof (sh_ent _ _ HS i l x t Hl Hy) as He.
  apply list_elem_of_split in Hy as (l1 & l2 & ->). exists i, l1, t, l2. split; [done|]. pose proof (ls_nodup _ _ (proj1 (sh_tq _ _ HS))) as HN.
  rewrite (concat_delete _ _ _ (lookup_names a i _ Hl)), fmap_app in HN. apply NoDup_app in HN as [HN _]. cbn in HN. apply NoDup_app in HN as (_ & Hd & HN). apply NoDup_cons in HN as [Hn2 _].
  assert (Hout : forall k, x ∉ k.*1 -> filter (fun xt : nat * Z => xt.1 <> x) k = k).
  { intros k Hk. apply filter_all, Forall_forall. intros [y u] Hyu Ey. cbn in Ey. subst y. apply Hk, list_elem_of_fmap. by exists (x, u). }
  apply list_eq. intros j. rewrite list_lookup_fmap. destruct (decide (j = i)) as [->|Hne].
  - rewrite list_lookup_insert_eq by (by eapply lookup_lt_Some). rewrite Hl. cbn [fmap option_fmap option_map]. f_equal. rewrite filter_app, filter_cons_False by (cbn; naive_solver).
    rewrite !Hout; [done|done|]. intros Hin. apply (Hd x Hin). by left.
  - rewrite list_lookup_insert_ne by done. destruct (aq a !! j) as [k|] eqn:Hk; [|done]. cbn. f_equal. apply Hout. intros Hin.
    apply list_elem_of_fmap in Hin as ([y u] & Ey & Hy). cbn in Ey. subst y. rewrite (sh_ent _ _ HS j k x u Hk Hy) in He. injection He. lia.
Qed.

Lemma run_tmoq_op_ok fuel op s a : (size D < fuel)%nat -> shows s a /\ timely [] a -> may_bop D op a ->
  exists s', run_bop minto maxsend fuel op s = Ok (s', (spec_bop minto maxsend op a).2) /\ shows s' (spec_bop minto maxsend op a).1 /\ timely [] (spec_bop minto maxsend op a).1.
Proof.
  intros Hf [HS HT] Hm. unfold run_bop. set (s0 := Tmoq _ _ _ _ _ _). assert (HS0 : shows s0 a) by (destruct HS; by split). assert (Ec0 : calls s0 = []) by done. clearbody s0. clear HS s.
  destruct op as [p|p|p|d|k]; cbn [may_bop] in Hm.
  - destruct Hm as [Hp Hq]. unfold start. destruct (tmoq_insert_run s0 a p 0 0 HS0 Hp Hq ltac:(lia) ltac:(by left)) as (s1 & E & HS1 & Ec). rewrite E. cbn [mbind res_bind spec_bop fst snd].
    rewrite Ec, Ec0. exists s1. split; [done|]. split; [done|]. apply timely_wait; [done|lia|by apply not_elem_of_nil].
  - destruct (idle_not_queued s0 a p HS0 Hm) as [Hq Hp]. pose proof (proj1 (sh_idle _ _ HS0 p) Hm) as (e & He & Hle). unfold keeptrying, ent. rewrite He. cbn [mbind res_bind].
    unfold c_assert. rewrite (proj2 (Z.leb_le _ _)) by done. cbn [mbind res_bind]. destruct (tmoq_insert_run s0 a p (maxsend - 1) 0 HS0 Hp Hq ltac:(lia) ltac:(by left)) as (s1 & E & HS1 & Ec). rewrite E.
    cbn [mbind res_bind spec_bop fst snd]. rewrite Ec, Ec0. exists s1. split; [done|]. split; [done|]. apply timely_wait; [done|lia|by apply not_elem_of_nil].
  - cbn [spec_bop fst snd]. destruct Hm as [Hq|Hi].
    + destruct (queued_place s0 a p HS0 Hq) as (i & l1 & t & l2 & Hl & Ef). rewrite Ef. destruct (tmoq_remove_run s0 a p i l1 t l2 HS0 Hl) as (s1 & E & HS1 & Ec & _). rewrite E.
      cbn [mbind res_bind]. rewrite Ec, Ec0. exists s1. split; [done|]. split; [done|]. apply (timely_part [] i _ (l1 ++ l2) a HT Hl). apply sublist_app; [done|]. by apply sublist_cons.
    + destruct (idle_not_queued s0 a p HS0 Hi) as [Hq _]. pose proof (proj1 (sh_idle _ _ HS0 p) Hi) as (e & He & Hle). unfold remove, ent. rewrite He. cbn [mbind res_bind].
      rewrite (proj2 (Z.ltb_ge _ _)) by done. cbn [mbind res_bind]. rewrite Ec0. exists s0. split; [done|]. assert (Ef : filter (fun xt => xt.1 <> p) <$> aq a = aq a); [|rewrite Ef; by destruct a].
      apply list_eq. intros j. rewrite list_lookup_fmap. destruct (aq a !! j) as [k|] eqn:Hk; [|done]. cbn. f_equal. apply filter_all, Forall_forall. intros [y u] Hyu Ey. cbn in Ey. subst y.
      apply Hq. by eapply queued_elem.
  - cbn [spec_bop fst snd mbind res_bind]. eexists. split; [by rewrite <- Ec0|]. split.
    + destruct HS0 as [H1 H2 H3 H4 H5 H6 H7 H8]. split; cbn; try done. by rewrite H8.
    + destruct HT as [H1 H2 H3 H4 H5]. split; cbn; try done.
      * intros t i Ht. destruct (H3 t i Ht). split; [done|lia].
      * intros i l Hl. destruct (H4 i l Hl) as [Hs Hfar]. split; [done|]. eapply Forall_impl; [exact Hfar|]. cbn. lia.
  - destruct Hm as (t & i & Hk & _). destruct (tl_idx _ _ HT t i (list_elem_of_lookup_2 _ _ _ Hk)) as [Hi _].
    destruct (fire_run fuel s0 a k t i HS0 (tl_nodup _ _ HT) Hk Hi Hf) as (s1 & E & HS1 & Ec). rewrite E. cbn [mbind res_bind]. rewrite Ec, Ec0. exists s1. split; [done|].
    split; [done|]. by apply (timely_fire k t i).
Qed.
End proofs.

Lemma tmoq_new_shows minto maxsend D now : (1 <= maxsend <= 32)%nat -> shows maxsend D (tmoq_new maxsend D now) (Waiting (replicate maxsend []) D [] now) /\
  timely minto maxsend [] (Waiting (replicate maxsend []) D [] now).
Proof.
  intros Hmax. split; split; cbn [queue entry pending timers clock aq aidle atimers aclock tmoq_new].
  - assert (En : names (Waiting (replicate maxsend []) D [] now) = replicate maxsend []) by (unfold names; cbn; by rewrite fmap_replicate). rewrite En. split.
    + split; cbn; [by rewrite fmap_replicate| |].
      * intros i l Hl. apply lookup_replicate in Hl as [-> _]. done.
      * assert (E : concat (replicate maxsend (@nil nat)) = []) by (clear; by induction maxsend). rewrite E. constructor.
    + intros i l Hl. apply lookup_replicate in Hl as [-> Hi]. cbn. rewrite list_lookup_fmap, lookup_seq_lt by done. done.
  - apply length_replicate.
  - split; cbn; apply dom_gset_to_gmap.
  - intros i l x t Hl Hx. apply lookup_replicate in Hl as [-> _]. by apply not_elem_of_nil in Hx.
  - intros x. split.
    + intros Hx. exists (TEnt (2 ^ 32 - 1) None). split; [by apply lookup_gset_to_gmap_Some|]. cbn. lia.
    + intros (e & He & _). by apply lookup_gset_to_gmap_Some in He as [He _].
  - intros i Hi. by apply lookup_replicate_2.
  - done.
  - done.
  - apply length_replicate.
  - constructor.
  - intros t i Ht. by apply not_elem_of_nil in Ht.
  - intros i l Hl. apply lookup_replicate in Hl as [-> _]. split; constructor.
  - intros i x t l _ Hl. by apply lookup_replicate in Hl as [? _].
Qed.

Lemma timely_all minto maxsend a i l x t : timely minto maxsend [] a -> aq a !! i = Some l -> (x, t) ∈ l -> exists t', (t', i) ∈ atimers a /\ t' <= t.
Proof.
  intros HT Hl Hx. destruct l as [|[y u] l]; [by apply not_elem_of_nil in Hx|]. destruct (tl_timer _ _ _ _ HT i y u l) as (t' & Ht' & Hle); [by apply not_elem_of_nil|done|].
  exists t'. split; [done|]. destruct (tl_sorted _ _ _ _ HT i _ Hl) as [[Hs _]%StronglySorted_cons _]. apply elem_of_cons in Hx as [[= _ ->]|Hx]; [done|].
  rewrite Forall_forall in Hs. specialize (Hs t ltac:(apply list_elem_of_fmap; by exists (x, t))). cbn in Hs. lia.
Qed.

(** C17: the queues do what the specification says in any interleaving of starts, [keeptrying]s, removals, passing time and timers that are due: an element is sent, sent again when its time,
    which doubles, has come, and told of its time-out after the last queue, in the order in which they were sent; the [n]-th element of [queue] in memory is the list of those that wait in it, and for
    each of them there is a timer that is not late.  Only an element that does not wait is started, only one that was given up or never started is kept on, and one is removed when it waits, was given up or was never started, so
    not twice in a row; [xmit] and [timeout] do not call back into the queues; there are 1 to 32 queues, the longest time fits an [u_int], and the clock does not go back. *)
Theorem backoff_refines minto maxsend D now fuel ops : 0 <= minto -> (1 <= maxsend <= 32)%nat -> minto * 2 ^ (Z.of_nat maxsend - 1) < 2 ^ 32 -> (size D < fuel)%nat ->
  may_all (spec_bop minto maxsend) (may_bop D) ops (Waiting (replicate maxsend []) D [] now) ->
  exists s a answers, run_all (run_bop minto maxsend fuel) ops (tmoq_new maxsend D now) = Ok (s, answers) /\
    spec_all (spec_bop minto maxsend) ops (Waiting (replicate maxsend []) D [] now) = (a, answers) /\ tq (queue s) (names a) /\
    forall i l x t, aq a !! i = Some l -> (x, t) ∈ l -> exists t', (t', i) ∈ timers s /\ t' <= t.
Proof.
  intros H1 H2 H3 Hf Hm. set (I s a := shows maxsend D s a /\ timely minto maxsend [] a).
  destruct (run_all_refines (run_bop minto maxsend fuel) (spec_bop minto maxsend) (may_bop D) I) with (ops := ops) (s := tmoq_new maxsend D now) (a := Waiting (replicate maxsend []) D [] now)
    as (s & E & HS & HT); [|by apply tmoq_new_shows|done|].
  - intros op s a HI Hop. by apply (run_tmoq_op_ok minto maxsend D).
  - exists s, (spec_all (spec_bop minto maxsend) ops (Waiting (replicate maxsend []) D [] now)).1, (spec_all (spec_bop minto maxsend) ops (Waiting (replicate maxsend []) D [] now)).2.
    split; [done|]. split; [by destruct (spec_all _ _ _)|]. split; [apply (sh_tq _ _ _ _ HS)|]. intros i l x t Hl Hx. rewrite (sh_timers _ _ _ _ HS). by apply (timely_all minto maxsend _ i l x t).
Qed.

(** Elements 1 and 2, [minto] 2, two queues: 1 is sent again after 2 seconds and given up after 4 more; 2 is taken out. *)
Definition a_run : list bop := [BStart 1; BTick 1; BStart 2; BTick 1; BFire 0; BRemove 2; BTick 1; BFire 1; BTick 3; BFire 0; BKeep 1].
Lemma backoff_refines_witness : exists s a, run_all (run_bop 2 2 3) a_run (tmoq_new 2 {[1%nat; 2%nat]} 100) =
    Ok (s, [[Xmit 1 0]; []; [Xmit 2 0]; []; [Xmit 1 1]; []; []; []; []; [Timeout 1]; [Xmit 1 1]]) /\ tq (queue s) (names a) /\ aq a = [[]; [(1%nat, 110)]].
Proof.
  destruct (backoff_refines 2 2 {[1%nat; 2%nat]} 100 3 a_run) as (s & a & ans & E & Ea & Ht & _); [lia|lia|vm_compute; done|vm_compute; lia| |].
  - unfold a_run. cbn [may_all]. split_and!; try decide_now; done.
  - exists s, a. vm_compute in Ea. injection Ea as <- <-. split; [exact E|]. split; [exact Ht|done].
Defined.

(** [remove] looks at [qno] for whether the element is in a queue, and does not set it: after a second [remove] of 1 the element 2, which was taken out as well, is sent again. *)
Lemma remove_twice : (x ← run_all (run_bop 2 2 4) [BStart 1; BStart 2; BStart 3; BRemove 1; BRemove 2; BRemove 1; BTick 2; BFire 0] (tmoq_new 2 {[1%nat; 2%nat; 3%nat]} 100); Ok x.2) =
  Ok [[Xmit 1 0]; [Xmit 2 0]; [Xmit 3 0]; []; []; []; []; [Xmit 2 1; Xmit 3 1]].
Proof. by vm_compute. Qed.
