(* ===== verification/Dllist.v ===== *)
(** The doubly linked lists of src/deps/sfslite-1.2/list.h: elements with both neighbours, and a
    check of the links. *)
From S2P Require Import Prelude PList.

Record dentry : Type := DEnt { next : option nat; prev : option nat }.
Record dlist : Type := DList { _first : option nat; _last : option nat; dents : gmap nat dentry }.

Definition load (m : dlist) (p : option nat) : res dentry :=
  match p with
  | None => Stop NullDeref
  | Some x => match dents m !! x with Some e => Ok e | None => Stop Dangling end
  end.
Definition with_dent (m : dlist) (x : nat) (e : dentry) : dlist := DList (_first m) (_last m) (<[x := e]> (dents m)).
Definition set_next (m : dlist) (x : nat) (v : option nat) : res dlist :=
  e ← load m (Some x); Ok (with_dent m x (DEnt v (prev e))).
Definition set_prev (m : dlist) (x : nat) (v : option nat) : res dlist :=
  e ← load m (Some x); Ok (with_dent m x (DEnt (next e) v)).

Definition insert_head (elm : nat) (m : dlist) : res dlist :=
  m ← set_next m elm (_first m);
  m ← match _first m with
    | Some f => set_prev m f (Some elm)
    | None => Ok (DList (_first m) (Some elm) (dents m))
    end;
  m ← set_prev m elm None;
  Ok (DList (Some elm) (_last m) (dents m)).

Definition insert_tail (elm : nat) (m : dlist) : res dlist :=
  m ← set_prev m elm (_last m);
  m ← match _last m with
    | Some t => set_next m t (Some elm)
    | None => Ok (DList (Some elm) (_last m) (dents m))
    end;
  m ← set_next m elm None;
  Ok (DList (_first m) (Some elm) (dents m)).

Definition remove (elm : nat) (m : dlist) : res dlist :=
  e ← load m (Some elm);
  m ← match next e with
    | Some n => set_prev m n (prev e)
    | None => Ok (DList (_first m) (prev e) (dents m))
    end;
  e ← load m (Some elm);
  m ← match prev e with
    | Some p => set_next m p (next e)
    | None => Ok (DList (next e) (_last m) (dents m))
    end;
  Ok (with_dent m elm (DEnt None None)).

(** [next] and [prev] of a null pointer are null. *)
Definition next_of (p : option nat) (m : dlist) : res (option nat) :=
  match p with Some _ => e ← load m p; Ok (next e) | None => Ok None end.
Definition prev_of (p : option nat) (m : dlist) : res (option nat) :=
  match p with Some _ => e ← load m p; Ok (prev e) | None => Ok None end.

Definition traverse {A} (fuel : nat) (cb : nat -> dlist * A -> res (dlist * A)) (st : dlist * A) : res (dlist * A) :=
  loop fuel (traverse_round (fun st p => e ← load st.1 p; Ok (next e)) cb) (st, _first st.1).

(** One round of [check] at [e]. *)
Definition check_round (m : dlist) (e : option nat) : res (option nat + unit) :=
  match e with
  | None => Ok (inr tt)
  | Some x =>
      d ← load m e;
      match prev d with
      | None => c_assert (bool_decide (e = _first m))
      | Some p => dp ← load m (Some p); c_assert (bool_decide (next dp = e))
      end;;
      match next d with
      | None => c_assert (bool_decide (e = _last m))
      | Some n => dn ← load m (Some n); c_assert (bool_decide (prev dn = e))
      end;;
      n ← next_of e m;
      Ok (inl n)
  end.
Definition check (fuel : nat) (m : dlist) : res unit := loop fuel (check_round m) (_first m).

(** * Lists in memory *)

Definition head_or (l : list nat) (e : option nat) : option nat := match l with y :: _ => Some y | [] => e end.
Definition last_or (l : list nat) (p : option nat) : option nat := match last l with Some y => Some y | None => p end.

(** The elements of [l], after [p] and before [e]. *)
Fixpoint dseg (es : gmap nat dentry) (p : option nat) (l : list nat) (e : option nat) : Prop :=
  match l with
  | [] => True
  | x :: l => es !! x = Some (DEnt (head_or l e) p) /\ dseg es (Some x) l e
  end.

Record dl (m : dlist) (l : list nat) : Prop := {
  dl_first : _first m = head l;
  dl_last : _last m = last l;
  dl_seg : dseg (dents m) None l None;
  dl_nodup : NoDup l;
}.

Lemma last_or_cons x l p : last_or (x :: l) p = last_or l (Some x).
Proof. unfold last_or. rewrite last_cons. by destruct (last l). Qed.
Lemma last_or_snoc l x p : last_or (l ++ [x]) p = Some x.
Proof. unfold last_or. by rewrite last_snoc. Qed.
Lemma head_or_head l : head_or l None = head l.
Proof. by destruct l. Qed.
Lemma last_or_last l : last_or l None = last l.
Proof. unfold last_or. by destruct (last l). Qed.

Lemma dseg_app es p l1 l2 e : dseg es p (l1 ++ l2) e <-> dseg es p l1 (head_or l2 e) /\ dseg es (last_or l1 p) l2 e.
Proof.
  revert p. induction l1 as [|x l1 IH]; intros p; [cbn; tauto|]. rewrite last_or_cons. cbn [app dseg]. rewrite IH.
  replace (head_or (l1 ++ l2) e) with (head_or l1 (head_or l2 e)) by (by destruct l1). tauto.
Qed.

Lemma dseg_frame es es' p l e : (forall x, x ∈ l -> es' !! x = es !! x) -> dseg es p l e -> dseg es' p l e.
Proof.
  revert p. induction l as [|x l IH]; intros p Hf; [done|]. intros [Hx Hl]. split; [rewrite Hf; [done|by left]|].
  apply IH; [|done]. intros y Hy. apply Hf. by right.
Qed.

Lemma dload_ok m x d : dents m !! x = Some d -> load m (Some x) = Ok d.
Proof. intros H. cbn. by rewrite H. Qed.
Lemma dset_next_ok m x d v : dents m !! x = Some d -> set_next m x v = Ok (with_dent m x (DEnt v (prev d))).
Proof. intros H. unfold set_next. by rewrite (dload_ok _ _ _ H). Qed.
Lemma dset_prev_ok m x d v : dents m !! x = Some d -> set_prev m x v = Ok (with_dent m x (DEnt (next d) v)).
Proof. intros H. unfold set_prev. by rewrite (dload_ok _ _ _ H). Qed.

(** The entry after or before the place of a change. *)
Definition fix_next (es : gmap nat dentry) (l2 : list nat) (p e : option nat) : gmap nat dentry :=
  match l2 with [] => es | f :: k => <[f := DEnt (head_or k e) p]> es end.
Definition fix_prev (es : gmap nat dentry) (p : option nat) (l1 : list nat) (e : option nat) : gmap nat dentry :=
  match last l1 with
  | Some y => <[y := DEnt e (match es !! y with Some d => prev d | None => p end)]> es
  | None => es
  end.

Lemma fix_next_seg es p p' l e : dseg es p l e -> NoDup l -> dseg (fix_next es l p' e) p' l e.
Proof.
  destruct l as [|f k]; [done|]. intros [_ Hk] [Hf _]%NoDup_cons. split; [apply lookup_insert_eq|].
  apply dseg_frame with es; [|done]. intros y Hy. apply lookup_insert_ne. by intros ->.
Qed.
Lemma fix_next_other es l p e y : y ∉ l -> fix_next es l p e !! y = es !! y.
Proof. destruct l as [|f k]; [done|]. intros Hy. apply lookup_insert_ne. intros ->. apply Hy. by left. Qed.
Lemma fix_prev_seg es p l e e' : dseg es p l e -> NoDup l -> dseg (fix_prev es p l e') p l e'.
Proof.
  destruct l as [|y l _] using rev_ind; [done|]. unfold fix_prev. rewrite last_snoc. intros [H1 [Hy _]]%dseg_app (_ & Hd & _)%NoDup_app.
  rewrite Hy. apply dseg_app. split; [|split; [apply lookup_insert_eq|done]]. apply dseg_frame with es; [|done].
  intros z Hz. apply lookup_insert_ne. intros ->. apply (Hd z Hz). by left.
Qed.
Lemma fix_prev_other es p l e y : y ∉ l -> fix_prev es p l e !! y = es !! y.
Proof.
  unfold fix_prev. destruct (last l) as [z|] eqn:Ez; [|done]. intros Hy. apply lookup_insert_ne. intros ->. apply Hy.
  apply last_Some in Ez as [k ->]. apply elem_of_app. right. by left.
Qed.

Lemma dllist_insert_head_ok m l x : dl m l -> x ∉ l -> is_Some (dents m !! x) -> exists m', insert_head x m = Ok m' /\ dl m' (x :: l).
Proof.
  intros [Hf Hl Hs ND] Hx [d Hd]. unfold insert_head. rewrite (dset_next_ok _ _ _ _ Hd), Hf. cbn [mbind res_bind with_dent _first _last dents].
  rewrite Hf. destruct l as [|f k]; cbn [head].
  - cbn [mbind res_bind]. erewrite dset_prev_ok by (cbn; by rewrite lookup_insert_eq). cbn. eexists. split; [done|].
    split; cbn [_first _last dents with_dent]; [done|done| |by apply NoDup_singleton]. rewrite insert_insert_eq. split; [apply lookup_insert_eq|done].
  - apply not_elem_of_cons in Hx as [Hxf Hxk]. pose proof Hs as [Hfd _].
    erewrite dset_prev_ok by (cbn; rewrite lookup_insert_ne by done; exact Hfd). cbn [mbind res_bind].
    erewrite dset_prev_ok by (cbn; rewrite lookup_insert_ne by done; by rewrite lookup_insert_eq). cbn. eexists. split; [done|].
    split; cbn [_first _last dents with_dent]; [done|done| |apply NoDup_cons; split; [by apply not_elem_of_cons|done]].
    split; [apply lookup_insert_eq|]. apply dseg_frame with (fix_next (dents m) (f :: k) (Some x) None).
    + intros y Hy. assert (Hyx : y <> x) by (intros ->; by apply elem_of_cons in Hy as [->|Hy]). rewrite lookup_insert_ne by done. cbn.
      destruct (decide (y = f)) as [->|Hyf]; [by rewrite !lookup_insert_eq|by rewrite !lookup_insert_ne].
    + by apply fix_next_seg with None.
Qed.

Lemma dllist_insert_tail_ok m l x : dl m l -> x ∉ l -> is_Some (dents m !! x) -> exists m', insert_tail x m = Ok m' /\ dl m' (l ++ [x]).
Proof.
  intros [Hf Hl Hs ND] Hx [d Hd]. unfold insert_tail. rewrite (dset_prev_ok _ _ _ _ Hd), Hl. cbn [mbind res_bind with_dent _first _last dents].
  rewrite Hl. destruct l as [|y l _] using rev_ind.
  - cbn [last mbind res_bind]. erewrite dset_next_ok by (cbn; by rewrite lookup_insert_eq). cbn. eexists. split; [done|].
    split; cbn [_first _last dents with_dent]; [done|done| |by apply NoDup_singleton]. rewrite insert_insert_eq. split; [apply lookup_insert_eq|done].
  - rewrite last_snoc. assert (Hy : y ∈ l ++ [y]) by (apply elem_of_app; right; by left). assert (Hyx : y <> x) by (by intros ->).
    pose proof Hs as Hs'. apply dseg_app in Hs' as [_ [Hyd _]].
    erewrite dset_next_ok by (cbn; rewrite lookup_insert_ne by done; exact Hyd). cbn [mbind res_bind].
    erewrite dset_next_ok by (cbn; rewrite lookup_insert_ne by done; by rewrite lookup_insert_eq). cbn. eexists. split; [done|].
    split; cbn [_first _last dents with_dent]; [by destruct l|by rewrite last_snoc| |].
    + apply dseg_app. cbn [head_or dseg]. rewrite last_or_snoc. split; [|split; [apply lookup_insert_eq|done]].
      apply dseg_frame with (fix_prev (dents m) None (l ++ [y]) (Some x)); [|by apply fix_prev_seg with None].
      unfold fix_prev. rewrite last_snoc, Hyd. intros z Hz. assert (z <> x) by (by intros ->). rewrite lookup_insert_ne by done.
      destruct (decide (z = y)) as [->|Hzy]; [by rewrite !lookup_insert_eq|]. by rewrite !lookup_insert_ne by done.
    + apply NoDup_app. split; [done|]. split; [|apply NoDup_singleton]. intros z Hz Hzx. apply list_elem_of_singleton in Hzx as ->. done.
Qed.

Lemma dllist_remove_ok m l1 x l2 : dl m (l1 ++ x :: l2) -> exists m', remove x m = Ok m' /\ dl m' (l1 ++ l2) /\ dents m' !! x = Some (DEnt None None).
Proof.
  intros [Hf Hl Hs ND]. pose proof Hs as Hs'. apply dseg_app in Hs' as [H1 [Hx H2]]. rewrite head_or_head, last_or_last in Hx.
  pose proof ND as ND'. apply NoDup_app in ND' as (ND1 & Hd & [Hx2 ND2]%NoDup_cons).
  assert (Hx1 : x ∉ l1) by (intros Hin; apply (Hd x Hin); by left).
  assert (Hd12 : forall y, y ∈ l1 -> y ∉ l2) by (intros y Hy Hy2; apply (Hd y Hy); by right).
  unfold remove. rewrite (dload_ok _ _ _ Hx). cbn [mbind res_bind next prev].
  set (es1 := fix_next (dents m) l2 (last l1) None).
  assert (E1 : (match head l2 with Some n => set_prev m n (last l1) | None => Ok (DList (_first m) (last l1) (dents m)) end)
    = Ok (DList (_first m) (last (l1 ++ l2)) es1)).
  { destruct l2 as [|f k]; cbn [head]; [by rewrite app_nil_r|]. destruct H2 as [Hfd _]. rewrite (dset_prev_ok _ _ _ _ Hfd).
    unfold with_dent, es1. cbn [fix_next next]. rewrite Hl. do 2 f_equal. rewrite !last_app_cons. by rewrite last_cons_cons. }
  rewrite E1. cbn [mbind res_bind].
  assert (X1 : es1 !! x = Some (DEnt (head l2) (last l1))) by (unfold es1; by rewrite fix_next_other).
  rewrite (dload_ok _ x (DEnt (head l2) (last l1))) by exact X1. cbn [mbind res_bind next prev].
  set (es2 := fix_prev es1 None l1 (head l2)).
  assert (E2 : (match last l1 with Some p => set_next (DList (_first m) (last (l1 ++ l2)) es1) p (head l2)
      | None => Ok (DList (head l2) (_last (DList (_first m) (last (l1 ++ l2)) es1)) (dents (DList (_first m) (last (l1 ++ l2)) es1))) end)
    = Ok (DList (head (l1 ++ l2)) (last (l1 ++ l2)) es2)).
  { unfold es2, fix_prev. destruct l1 as [|y l1 _] using rev_ind; [done|]. rewrite last_snoc.
    apply dseg_app in H1 as [_ [Hyd _]]. assert (Y1 : es1 !! y = Some (DEnt (Some x) (last_or l1 None))).
    { unfold es1. rewrite fix_next_other; [done|]. apply Hd12, elem_of_app. right. by left. }
    rewrite (dset_next_ok (DList (_first m) (last ((l1 ++ [y]) ++ l2)) es1) y _ _ Y1), Y1. unfold with_dent. cbn [_first _last dents prev]. rewrite Hf. by destruct l1. }
  rewrite E2. cbn [mbind res_bind]. eexists. split; [done|]. split; [|apply lookup_insert_eq].
  assert (X2 : forall y, y <> x -> (<[x := DEnt None None]> es2) !! y = es2 !! y) by (intros y Hy; by apply lookup_insert_ne).
  split; cbn [_first _last dents with_dent]; [done|done| |].
  - apply dseg_app. rewrite last_or_last, head_or_head. split.
    + apply dseg_frame with es2; [intros y Hy; apply X2; by intros ->|]. apply fix_prev_seg with (Some x); [|done].
      apply dseg_frame with (dents m); [|done]. intros y Hy. unfold es1. by rewrite fix_next_other by auto.
    + apply dseg_frame with es1; [intros y Hy; rewrite X2 by (by intros ->); apply fix_prev_other; intros Hin; by apply (Hd12 y)|].
      by apply fix_next_seg with (Some x).
  - apply NoDup_app. split; [done|]. split; [|done]. done.
Qed.

(** [check] finds nothing amiss. *)
Lemma dllist_check_ok m l fuel : dl m l -> length l < fuel -> check fuel m = Ok tt.
Proof.
  intros [Hf Hl Hs ND] Hlen. unfold check. rewrite Hf.
  assert (H : forall l1 l2 fuel, l = l1 ++ l2 -> length l2 < fuel -> loop fuel (check_round m) (head l2) = Ok tt); [|by apply (H [] l)].
  clear Hlen fuel. intros l1 l2 fuel El Hlen. revert l1 fuel El Hlen. induction l2 as [|x l2 IH]; intros l1 fuel El Hlen; (destruct fuel as [|fuel]; [lia|]).
  { by rewrite loop_step. }
  rewrite loop_step. cbn [head check_round]. subst l. pose proof Hs as Hs'. apply dseg_app in Hs' as [H1 [Hx H2]]. rewrite head_or_head, last_or_last in Hx.
  rewrite (dload_ok _ _ _ Hx). cbn [mbind res_bind prev next].
  assert (A1 : match last l1 with
    | None => c_assert (bool_decide (Some x = _first m))
    | Some p => dp ← load m (Some p); c_assert (bool_decide (next dp = Some x)) end = Ok tt).
  { destruct l1 as [|y l1 _] using rev_ind; [cbn [last]; rewrite Hf; by rewrite bool_decide_eq_true_2|]. rewrite last_snoc.
    apply dseg_app in H1 as [_ [Hy _]]. rewrite (dload_ok _ _ _ Hy). cbn [mbind res_bind next head_or]. by rewrite bool_decide_eq_true_2. }
  rewrite A1. cbn [mbind res_bind].
  assert (A2 : match head l2 with
    | None => c_assert (bool_decide (Some x = _last m))
    | Some n => dn ← load m (Some n); c_assert (bool_decide (prev dn = Some x)) end = Ok tt).
  { destruct l2 as [|f k]; cbn [head]; [rewrite Hl, last_snoc; by rewrite bool_decide_eq_true_2|]. destruct H2 as [Hy _].
    rewrite (dload_ok _ _ _ Hy). cbn [mbind res_bind prev]. by rewrite bool_decide_eq_true_2. }
  rewrite A2. cbn [mbind res_bind]. unfold next_of. rewrite (dload_ok _ _ _ Hx). cbn [mbind res_bind next].
  apply (IH (l1 ++ [x])); [by rewrite <- (assoc_L app)|cbn in Hlen; lia].
Qed.

Lemma dl_in m l1 x l2 : dl m (l1 ++ x :: l2) -> dents m !! x = Some (DEnt (head l2) (last l1)).
Proof. intros [_ _ Hs _]. apply dseg_app in Hs as [_ [Hx _]]. by rewrite head_or_head, last_or_last in Hx. Qed.

Lemma dllist_traverse_notes m l fuel : dl m l -> length l < fuel -> traverse fuel note (m, []) = Ok (m, l).
Proof.
  intros H Hf. unfold traverse. cbn [fst]. rewrite (dl_first _ _ H).
  set (J v r (s : dlist * list nat) := s = (m, v) /\ v ++ r = l).
  destruct (traverse_loop (fun (s : dlist * list nat) p => e ← load s.1 p; Ok (next e)) note J) with (r := l) (v := @nil nat) (st := (m, @nil nat)) (fuel := fuel)
    as (s' & -> & -> & _); [|done|done|done].
  intros v x r s [-> Hv]. cbn [fst snd]. rewrite <- Hv in H. rewrite (dload_ok _ _ _ (dl_in _ _ _ _ H)). split; [done|].
  eexists. split; [done|]. split; [done|]. by rewrite <- (assoc_L app).
Qed.

(** [next] and [prev] are the neighbours. *)
Lemma dllist_neighbours m l1 x l2 : dl m (l1 ++ x :: l2) -> next_of (Some x) m = Ok (head l2) /\ prev_of (Some x) m = Ok (last l1).
Proof. intros H. unfold next_of, prev_of. by rewrite (dload_ok _ _ _ (dl_in _ _ _ _ H)). Qed.

(** * Sequences of operations *)
Inductive dlop : Type := DHead (x : nat) | DTail (x : nat) | DRemove (x : nat) | DWalk | DCheck.

Definition run_dlop (fuel : nat) (op : dlop) (m : dlist) : res (dlist * list nat) :=
  match op with
  | DHead x => m ← insert_head x m; Ok (m, [])
  | DTail x => m ← insert_tail x m; Ok (m, [])
  | DRemove x => m ← remove x m; Ok (m, [])
  | DWalk => traverse fuel note (m, [])
  | DCheck => check fuel m;; Ok (m, [])
  end.
Definition spec_dlop (op : dlop) (l : list nat) : list nat * list nat :=
  match op with
  | DHead x => (x :: l, [])
  | DTail x => (l ++ [x], [])
  | DRemove x => (filter (fun y => y <> x) l, [])
  | DWalk => (l, l)
  | DCheck => (l, [])
  end.
Definition dl_may (D : gset nat) (op : dlop) (l : list nat) : Prop :=
  match op with
  | DHead x | DTail x => x ∈ D /\ x ∉ l
  | DRemove x => x ∈ l
  | DWalk | DCheck => True
  end.

Lemma dset_next_dom m x v m' : set_next m x v = Ok m' -> dom (dents m') = dom (dents m).
Proof.
  unfold set_next. intros (e & He & Hm)%bind_Ok_inv. injection Hm as <-. cbn in He |- *.
  destruct (dents m !! x) eqn:E; [|done]. rewrite dom_insert_L. apply elem_of_dom_2 in E. set_solver.
Qed.
Lemma dset_prev_dom m x v m' : set_prev m x v = Ok m' -> dom (dents m') = dom (dents m).
Proof.
  unfold set_prev. intros (e & He & Hm)%bind_Ok_inv. injection Hm as <-. cbn in He |- *.
  destruct (dents m !! x) eqn:E; [|done]. rewrite dom_insert_L. apply elem_of_dom_2 in E. set_solver.
Qed.

Lemma dllist_insert_head_dom x m m' : insert_head x m = Ok m' -> dom (dents m') = dom (dents m).
Proof.
  unfold insert_head. intros (m1 & H1 & (m2 & H2 & (m3 & H3 & [= <-])%bind_Ok_inv)%bind_Ok_inv)%bind_Ok_inv. cbn [dents].
  rewrite (dset_prev_dom _ _ _ _ H3), <- (dset_next_dom _ _ _ _ H1). destruct (_first m1); [by apply (dset_prev_dom _ _ _ _ H2)|by injection H2 as <-].
Qed.
Lemma dllist_insert_tail_dom x m m' : insert_tail x m = Ok m' -> dom (dents m') = dom (dents m).
Proof.
  unfold insert_tail. intros (m1 & H1 & (m2 & H2 & (m3 & H3 & [= <-])%bind_Ok_inv)%bind_Ok_inv)%bind_Ok_inv. cbn [dents].
  rewrite (dset_next_dom _ _ _ _ H3), <- (dset_prev_dom _ _ _ _ H1). destruct (_last m1); [by apply (dset_next_dom _ _ _ _ H2)|by injection H2 as <-].
Qed.
Lemma dllist_remove_dom x m m' : remove x m = Ok m' -> dom (dents m') = dom (dents m).
Proof.
  unfold remove. intros (e & He & (m1 & H1 & (e1 & _ & (m2 & H2 & [= <-])%bind_Ok_inv)%bind_Ok_inv)%bind_Ok_inv)%bind_Ok_inv. cbn [dents with_dent].
  assert (D1 : dom (dents m1) = dom (dents m)) by (destruct (next e); [by apply (dset_prev_dom _ _ _ _ H1)|by injection H1 as <-]).
  assert (D2 : dom (dents m2) = dom (dents m)) by (rewrite <- D1; destruct (prev e1); [by apply (dset_next_dom _ _ _ _ H2)|by injection H2 as <-]).
  rewrite dom_insert_L, D2. cbn in He. destruct (dents m !! x) eqn:E; [|done]. apply elem_of_dom_2 in E. set_solver.
Qed.

Lemma dl_length m l : dl m l -> length l <= size (dom (dents m)).
Proof.
  intros H. rewrite <- (size_list_to_set (C := gset nat)) by apply (dl_nodup _ _ H). apply subseteq_size. intros x Hx%elem_of_list_to_set. apply elem_of_dom.
  apply list_elem_of_split in Hx as (l1 & l2 & ->). rewrite (dl_in _ _ _ _ H). by eexists.
Qed.

Lemma run_dlop_ok D fuel op m l : size D < fuel -> dl m l /\ dom (dents m) = D -> dl_may D op l ->
  exists m', run_dlop fuel op m = Ok (m', (spec_dlop op l).2) /\ dl m' (spec_dlop op l).1 /\ dom (dents m') = D.
Proof.
  intros Hf [H HD] Hm. assert (Hlen : length l < fuel) by (pose proof (dl_length m l H) as Hlen; rewrite HD in Hlen; lia).
  destruct op as [x|x|x| |]; cbn [run_dlop spec_dlop dl_may fst snd] in *.
  - destruct Hm as [Hx Hl]. rewrite <- HD in Hx. apply elem_of_dom in Hx. destruct (dllist_insert_head_ok m l x H Hl Hx) as (m' & E & H').
    rewrite E. exists m'. split_and!; [done|done|]. by rewrite (dllist_insert_head_dom _ _ _ E).
  - destruct Hm as [Hx Hl]. rewrite <- HD in Hx. apply elem_of_dom in Hx. destruct (dllist_insert_tail_ok m l x H Hl Hx) as (m' & E & H').
    rewrite E. exists m'. split_and!; [done|done|]. by rewrite (dllist_insert_tail_dom _ _ _ E).
  - apply list_elem_of_split in Hm as (l1 & l2 & ->). destruct (dllist_remove_ok m l1 x l2 H) as (m' & E & H' & _).
    rewrite E. exists m'. split_and!; [done| |by rewrite (dllist_remove_dom _ _ _ E)].
    pose proof (dl_nodup _ _ H) as ND. apply NoDup_app in ND as (_ & Hd & [Hx _]%NoDup_cons).
    rewrite filter_app, filter_cons_False by auto. rewrite !filter_all_ne; [done|done|]. intros Hin. apply (Hd x Hin). by left.
  - exists m. by rewrite (dllist_traverse_notes m l).
  - exists m. by rewrite (dllist_check_ok m l).
Qed.

(** C16: however elements are put at either end of the list and removed, walks visit what the list of
    addresses holds and [check] never aborts. *)
Theorem dllist_refines D ops fuel : size (dom D) < fuel -> may_all spec_dlop (dl_may (dom D)) ops [] ->
  exists m, run_all (run_dlop fuel) ops (DList None None D) = Ok (m, (spec_all spec_dlop ops []).2) /\ dl m (spec_all spec_dlop ops []).1.
Proof.
  intros Hf Hm. destruct (run_all_refines (run_dlop fuel) spec_dlop (dl_may (dom D)) (fun m l => dl m l /\ dom (dents m) = dom D)
    (fun op m l => run_dlop_ok (dom D) fuel op m l Hf) ops (DList None None D) []) as (m & E & HL & _); [|done|by exists m].
  split; [|done]. split; [done|done|done|constructor].
Qed.

Lemma dllist_refines_witness : exists m,
  run_all (run_dlop 4) [DTail 5; DHead 6; DTail 7; DCheck; DWalk; DRemove 5; DCheck; DWalk]
    (DList None None {[5 := DEnt None None; 6 := DEnt None None; 7 := DEnt None None]}) = Ok (m, [[]; []; []; []; [6; 5; 7]; []; []; [6; 7]]) /\
  _last m = Some 7.
Proof.
  destruct (dllist_refines {[5 := DEnt None None; 6 := DEnt None None; 7 := DEnt None None]}
    [DTail 5; DHead 6; DTail 7; DCheck; DWalk; DRemove 5; DCheck; DWalk] 4) as (m & E & HL).
  - vm_compute. lia.
  - cbn. split_and!; try done; decide_now.
  - exists m. split; [exact E|]. rewrite (dl_last _ _ HL). vm_compute. reflexivity.
Defined.
