(* ===== verification/SfsVec.v ===== *)
(** The vectors of src/deps/sfslite-1.2/vec.h: a block of raw memory in which the elements between two
    pointers are constructed.  How large a new block is ([vec_resize_fn]) is the class [VecResize]: the
    function is not in the repository. *)
From S2P Require Import Prelude.

(** * Memory *)

(** A block is a list of places; a place without an element is raw memory. *)
Notation heap A := (gmap nat (list (option A))).
(** A pointer into a block, or the null pointer. *)
Definition ptr : Type := (option nat * nat)%type.

Definition place {A} (h : heap A) (p : ptr) : res (option A) :=
  match p.1 with
  | None => Stop NullDeref
  | Some b => match h !! b with
              | None => Stop Dangling
              | Some cs => match cs !! p.2 with Some c => Ok c | None => Stop OutOfBounds end
              end
  end.
(** Reading an element. *)
Definition read {A} (h : heap A) (p : ptr) : res A := c ← place h p; match c with Some x => Ok x | None => Stop Uninit end.
(** The place gets an element or loses it. *)
Definition set_place {A} (h : heap A) (p : ptr) (c : option A) : res (heap A) :=
  match p.1 with
  | None => Stop NullDeref
  | Some b => match h !! b with
              | None => Stop Dangling
              | Some cs => if p.2 <? length cs then Ok (<[b := <[p.2 := c]> cs]> h) else Stop OutOfBounds
              end
  end.
(** [new (p) T (x)] and [p->~T ()]: an element is made in raw memory only, and only an element is destroyed. *)
Definition cconstruct {A} (h : heap A) (p : ptr) (x : A) : res (heap A) :=
  c ← place h p; match c with None => set_place h p (Some x) | Some _ => Stop Lifetime end.
Definition destroy {A} (h : heap A) (p : ptr) : res (heap A) := read h p;; set_place h p None.

(** * [vec] *)
Class VecResize : Type := vec_resize_fn : Z -> Z -> Z -> Z.

(** [basep]; [firstp], [lastp] and [limp] as offsets from it.  The elements are of type [option T]: an object of a plain type
    has an indeterminate value, [None], after [new elm_t]; with a class that has a default constructor [dflt] is what that makes. *)
Record vec : Type := Vec { basep : option nat; firstp : nat; lastp : nat; limp : nat }.

Section vec.
Context `{VecResize} {T : Type} (dflt : option T) (objid : Z).
#[local] Notation A := (option T).
(** [txmalloc] returns a block that is not in use. *)
Context (new : gset nat -> nat).
(** The built-in buffer of a [vec<T, N>] ([None] for [N = 0]) and its size. *)
Context (def_basep : option nat) (N : nat).

Definition at_off (v : vec) (i : nat) : ptr := (basep v, i).

Definition init : vec := Vec def_basep 0 0 N.

(** [bfree]: nothing for the built-in buffer and the null pointer; in a block that is freed no element may be alive. *)
Definition is_raw (c : option A) : bool := match c with None => true | Some _ => false end.
Definition bfree (b : option nat) (h : heap A) : res (heap A) :=
  if bool_decide (b = def_basep) then Ok h
  else match b with
       | None => Ok h
       | Some b => match h !! b with
                   | None => Stop Dangling
                   | Some cs => if forallb is_raw cs then Ok (delete b h) else Stop Lifetime
                   end
       end.

(** The elements at [src ..] go to [dst ..], one by one. *)
Fixpoint move_loop (todo : nat) (dst src : ptr) (h : heap A) : res (heap A) :=
  match todo with
  | O => Ok h
  | S todo =>
      x ← read h src;
      h ← cconstruct h dst x;
      h ← destroy h src;
      move_loop todo (dst.1, S dst.2) (src.1, S src.2) h
  end.
(** [move (dst)] for the start [dst] of a block. *)
Definition move (dst : option nat) (v : vec) (h : heap A) : res (vec * heap A) :=
  if bool_decide (dst = basep v) && (firstp v =? 0) then Ok (v, h)
  else
    c_assert (bool_decide (dst <> basep v) || (0 <? firstp v) || (lastp v <=? 0));;
    h ← move_loop (lastp v - firstp v) (dst, 0) (at_off v (firstp v)) h;
    Ok (Vec dst 0 (lastp v - firstp v) (limp v), h).

Fixpoint destroy_loop (todo : nat) (p : ptr) (h : heap A) : res (heap A) :=
  match todo with O => Ok h | S todo => h ← destroy h p; destroy_loop todo (p.1, S p.2) h end.
Definition del (v : vec) (h : heap A) : res (heap A) :=
  h ← destroy_loop (lastp v - firstp v) (at_off v (firstp v)) h;
  bfree (basep v) h.
Definition clear (v : vec) (h : heap A) : res (vec * heap A) := h ← del v h; Ok (init, h).

Definition reserve (n : nat) (v : vec) (h : heap A) : res (vec * heap A) :=
  if lastp v + n <=? limp v then Ok (v, h)
  else
    let nwanted := lastp v - firstp v + n in
    if limp v / 2 <? nwanted then
      let nalloc := Z.to_nat (vec_resize_fn (Z.of_nat (limp v) mod 2 ^ 32) (Z.of_nat nwanted mod 2 ^ 32) objid) in
      let b := new (dom h) in
      let h := <[b := replicate nalloc None]> h in
      '(v', h) ← move (Some b) v h;
      h ← bfree (basep v) h;
      Ok (Vec (basep v') (firstp v') (lastp v') nalloc, h)
    else move (basep v) v h.

Definition vec_size (v : vec) : nat := lastp v - firstp v.
Definition empty_vec (v : vec) : bool := lastp v =? firstp v.

Definition front (v : vec) : ptr := at_off v (firstp v).
Definition back (v : vec) : res ptr := if lastp v =? 0 then Stop OutOfBounds else Ok (at_off v (lastp v - 1)).
Definition index (v : vec) (i : Z) : res ptr :=
  if (Z.of_nat (firstp v) + i <? 0)%Z then Stop OutOfBounds else Ok (at_off v (Z.to_nat (Z.of_nat (firstp v) + i))).

(** [push_back (e)]: the element [e] is read after the space is there. *)
Definition push_back (e : heap A -> res A) (v : vec) (h : heap A) : res (vec * heap A) :=
  '(v, h) ← reserve 1 v h;
  x ← e h;
  h ← cconstruct h (at_off v (lastp v)) x;
  Ok (Vec (basep v) (firstp v) (S (lastp v)) (limp v), h).
Definition push_back_default (v : vec) (h : heap A) : res (vec * heap A) :=
  '(v, h) ← reserve 1 v h;
  h ← cconstruct h (at_off v (lastp v)) dflt;
  Ok (Vec (basep v) (firstp v) (S (lastp v)) (limp v), h).

(** [e] is a copy elsewhere, or an element of the vector itself. *)
Definition by_value (x : A) : heap A -> res A := fun _ => Ok x.
Definition by_reference (p : ptr) : heap A -> res A := fun h => read h p.

Fixpoint construct_loop (todo : nat) (p : ptr) (h : heap A) : res (heap A) :=
  match todo with O => Ok h | S todo => h ← cconstruct h p dflt; construct_loop todo (p.1, S p.2) h end.
(** From the end backwards. *)
Fixpoint destroy_back (todo : nat) (b : option nat) (off : nat) (h : heap A) : res (heap A) :=
  match todo with
  | O => Ok h
  | S todo => if off =? 0 then Stop OutOfBounds else h ← destroy h (b, off - 1); destroy_back todo b (off - 1) h
  end.
Definition popn_back (n : nat) (v : vec) (h : heap A) : res (vec * heap A) :=
  h ← destroy_back n (basep v) (lastp v) h;
  Ok (Vec (basep v) (firstp v) (lastp v - n) (limp v), h).
Definition popn_front (n : nat) (v : vec) (h : heap A) : res (vec * heap A) :=
  h ← destroy_loop n (at_off v (firstp v)) h;
  Ok (Vec (basep v) (firstp v + n) (lastp v) (limp v), h).

Definition setsize (n : nat) (v : vec) (h : heap A) : res (vec * heap A) :=
  let s := vec_size v in
  if n <? s then popn_back (s - n) v h
  else if n - s =? 0 then Ok (v, h)
  else
    '(v, h) ← reserve (n - s) v h;
    h ← construct_loop (n - s) (at_off v (lastp v)) h;
    Ok (Vec (basep v) (firstp v) (lastp v + (n - s)) (limp v), h).

Definition pop_back (v : vec) (h : heap A) : res (A * vec * heap A) :=
  p ← back v;
  x ← read h p;
  h ← destroy h p;
  Ok (x, Vec (basep v) (firstp v) (lastp v - 1) (limp v), h).
Definition pop_front (v : vec) (h : heap A) : res (A * vec * heap A) :=
  x ← read h (front v);
  h ← destroy h (front v);
  Ok (x, Vec (basep v) (S (firstp v)) (lastp v) (limp v), h).

(** Assignment to an element. *)
Definition assign (p : ptr) (x : A) (h : heap A) : res (heap A) := read h p;; set_place h p (Some x).
Definition reverse_round (v : vec) (s : Z * Z * heap A) : res (Z * Z * heap A + heap A) :=
  let '(lo, hi, h) := s in
  if (lo <? hi)%Z then
    pl ← index v lo;
    pr ← index v hi;
    tmp ← read h pl;
    x ← read h pr;
    h ← assign pl x h;
    h ← assign pr tmp h;
    Ok (inl (lo + 1, hi - 1, h)%Z)
  else Ok (inr h).
Definition vec_reverse (v : vec) (h : heap A) : res (heap A) :=
  loop (S (vec_size v)) (reverse_round v) (0, Z.of_nat (vec_size v) - 1, h)%Z.

(** [append (v)] of another vector. *)
Fixpoint append_loop (todo : nat) (s : ptr) (v : vec) (h : heap A) : res (vec * heap A) :=
  match todo with
  | O => Ok (v, h)
  | S todo =>
      x ← read h s;
      h ← cconstruct h (at_off v (lastp v)) x;
      append_loop todo (s.1, S s.2) (Vec (basep v) (firstp v) (S (lastp v)) (limp v)) h
  end.
Definition append (w v : vec) (h : heap A) : res (vec * heap A) :=
  '(v, h) ← reserve (vec_size w) v h;
  append_loop (vec_size w) (at_off w (firstp w)) v h.
Definition vec_copy (w : vec) (h : heap A) : res (vec * heap A) := append w init h.
(** [operator=]; assigning a vector to itself does nothing. *)
Definition vec_assign (w : option vec) (v : vec) (h : heap A) : res (vec * heap A) :=
  match w with
  | None => Ok (v, h)
  | Some w => '(v, h) ← clear v h; append w v h
  end.
(** [v += v]: the appended vector is the one that grows. *)
Definition append_self (v : vec) (h : heap A) : res (vec * heap A) :=
  '(v, h) ← reserve (vec_size v) v h;
  append_loop (vec_size v) (at_off v (firstp v)) v h.
End vec.

(** [swap] of two vectors without built-in buffers. *)
Definition vec_swap (v w : vec) : vec * vec := (w, v).

(** * Places *)
Section Places.
Context {T : Type}.
#[local] Notation A := (option T).
Implicit Types (h : heap A) (d r : list (option A)) (l : list A).

Lemma read_mid h b d x r i : h !! b = Some (d ++ Some x :: r) -> i = length d -> read h (Some b, i) = Ok x.
Proof. intros Hb ->. unfold read, place. cbn [fst snd]. rewrite Hb. by rewrite list_lookup_middle. Qed.

Lemma set_place_mid h b d c0 c r i : h !! b = Some (d ++ c0 :: r) -> i = length d -> set_place h (Some b, i) c = Ok (<[b := d ++ c :: r]> h).
Proof.
  intros Hb ->. unfold set_place. cbn [fst snd]. rewrite Hb, (proj2 (Nat.ltb_lt _ _)) by (rewrite length_app; cbn; lia).
  do 3 f_equal. rewrite insert_app_r_alt by lia. by rewrite Nat.sub_diag.
Qed.

Lemma cconstruct_mid h b d x r i : h !! b = Some (d ++ None :: r) -> i = length d -> cconstruct h (Some b, i) x = Ok (<[b := d ++ Some x :: r]> h).
Proof.
  intros Hb Hi. unfold cconstruct, place. cbn [fst snd]. rewrite Hb, Hi, list_lookup_middle by done. cbn [mbind res_bind].
  by apply (set_place_mid _ _ _ None).
Qed.

Lemma destroy_mid h b d x r i : h !! b = Some (d ++ Some x :: r) -> i = length d -> destroy h (Some b, i) = Ok (<[b := d ++ None :: r]> h).
Proof. intros Hb Hi. unfold destroy. rewrite (read_mid _ _ _ _ _ _ Hb Hi). cbn [mbind res_bind]. by apply (set_place_mid _ _ _ (Some x)). Qed.

Lemma destroy_loop_ok l : forall h b d r i, h !! b = Some (d ++ (Some <$> l) ++ r) -> i = length d ->
  destroy_loop (length l) (Some b, i) h = Ok (<[b := d ++ replicate (length l) None ++ r]> h).
Proof.
  induction l as [|x l IH]; intros h b d r i Hb Hi; cbn [length destroy_loop].
  - cbn [length replicate app fmap list_fmap] in *. by rewrite insert_id.
  - cbn [fmap list_fmap app] in Hb. rewrite (destroy_mid _ _ _ x _ _ Hb Hi). cbn [mbind res_bind fst snd].
    rewrite (IH _ b (d ++ [None]) r); [|by rewrite lookup_insert_eq, <- (assoc_L app)|rewrite length_app; cbn; lia].
    by rewrite insert_insert_eq, <- (assoc_L app).
Qed.

Lemma destroy_back_ok l : forall h b d r off, h !! b = Some (d ++ (Some <$> l) ++ r) -> off = length d + length l ->
  destroy_back (length l) (Some b) off h = Ok (<[b := d ++ replicate (length l) None ++ r]> h).
Proof.
  induction l as [|x l IH] using rev_ind; intros h b d r off Hb Hoff.
  - cbn [length replicate app fmap list_fmap] in *. by rewrite insert_id.
  - rewrite length_app in *. cbn in *. rewrite Nat.add_1_r. cbn [destroy_back]. rewrite (proj2 (Nat.eqb_neq _ _)) by lia.
    rewrite fmap_app in Hb. cbn in Hb. rewrite <- (assoc_L app), (assoc_L app) in Hb. cbn [app] in Hb.
    rewrite (destroy_mid _ _ _ _ _ _ Hb) by (rewrite length_app, length_fmap; lia). cbn [mbind res_bind].
    rewrite (IH _ b d (None :: r)); [|by rewrite lookup_insert_eq, <- (assoc_L app)|lia].
    rewrite insert_insert_eq. do 3 f_equal. rewrite replicate_S_end, <- (assoc_L app). done.
Qed.

Lemma construct_loop_ok (dflt : A) n : forall h b d r i, h !! b = Some (d ++ replicate n None ++ r) -> i = length d ->
  construct_loop dflt n (Some b, i) h = Ok (<[b := d ++ (Some <$> replicate n dflt) ++ r]> h).
Proof.
  induction n as [|n IH]; intros h b d r i Hb Hi; cbn [construct_loop].
  - cbn [length replicate app fmap list_fmap] in *. by rewrite insert_id.
  - cbn [replicate app] in Hb. rewrite (cconstruct_mid _ _ _ dflt _ _ Hb Hi). cbn [mbind res_bind fst snd].
    rewrite (IH _ b (d ++ [Some dflt]) r); [|by rewrite lookup_insert_eq, <- (assoc_L app)|rewrite length_app; cbn; lia].
    by rewrite insert_insert_eq, <- (assoc_L app).
Qed.

(** Moving to another block. *)
Lemma move_loop_fresh l : forall h b b' d g r i j m, b <> b' -> h !! b = Some (g ++ (Some <$> l) ++ r) -> h !! b' = Some (d ++ replicate m None) ->
  i = length d -> j = length g -> length l <= m ->
  move_loop (length l) (Some b', i) (Some b, j) h =
    Ok (<[b' := d ++ (Some <$> l) ++ replicate (m - length l) None]> (<[b := g ++ replicate (length l) None ++ r]> h)).
Proof.
  induction l as [|x l IH]; intros h b b' d g r i j m Hne Hb Hb' Hi Hj Hm; cbn [length move_loop].
  - cbn [length replicate app fmap list_fmap] in *. rewrite Nat.sub_0_r, !insert_id; [done|done|by rewrite insert_id].
  - cbn [fmap list_fmap app] in Hb. cbn [length] in Hm. destruct m as [|m]; [lia|]. rewrite (read_mid _ _ _ _ _ _ Hb Hj). cbn [mbind res_bind]. cbn [replicate] in Hb'.
    rewrite (cconstruct_mid _ _ _ x _ _ Hb' Hi). cbn [mbind res_bind].
    erewrite destroy_mid; [|rewrite lookup_insert_ne by done; exact Hb|done]. cbn [mbind res_bind fst snd].
    rewrite (IH _ b b' (d ++ [Some x]) (g ++ [None]) r _ _ m Hne).
    + cbn [length Nat.sub replicate fmap list_fmap]. rewrite <- !(assoc_L app). cbn [app]. f_equal.
      rewrite insert_insert_eq. rewrite (insert_insert_ne _ b b') by done. rewrite insert_insert_eq. done.
    + by rewrite lookup_insert_eq, <- (assoc_L app).
    + rewrite lookup_insert_ne by done. by rewrite lookup_insert_eq, <- (assoc_L app).
    + rewrite length_app. cbn. lia.
    + rewrite length_app. cbn. lia.
    + lia.
Qed.

(** Moving down in the same block: the places may overlap. *)
Lemma move_loop_down l : forall h b d g r i j, h !! b = Some (d ++ replicate (S g) None ++ (Some <$> l) ++ r) -> i = length d -> j = i + S g ->
  move_loop (length l) (Some b, i) (Some b, j) h = Ok (<[b := d ++ (Some <$> l) ++ replicate (S g) None ++ r]> h).
Proof.
  induction l as [|x l IH]; intros h b d g r i j Hb Hi Hj; cbn [length move_loop].
  - cbn [fmap list_fmap app] in *. by rewrite insert_id.
  - cbn [fmap list_fmap] in *. erewrite read_mid; [|rewrite Hb; cbn [app]; by rewrite (assoc_L app d)|rewrite length_app, length_replicate; lia]. cbn [mbind res_bind].
    cbn [replicate app] in Hb. rewrite (cconstruct_mid _ _ _ x _ _ Hb Hi). cbn [mbind res_bind].
    rewrite (destroy_mid _ b (d ++ Some x :: replicate g None) x ((Some <$> l) ++ r)).
    2: { rewrite lookup_insert_eq. f_equal. by rewrite <- (assoc_L app). }
    2: { rewrite length_app. cbn [length]. rewrite length_replicate. lia. }
    cbn [mbind res_bind fst snd]. rewrite (IH _ b (d ++ [Some x]) g r).
    + rewrite !insert_insert_eq. cbn [app]. by rewrite <- !(assoc_L app).
    + rewrite lookup_insert_eq. f_equal. rewrite replicate_S_end, <- !(assoc_L app). done.
    + rewrite length_app. cbn. lia.
    + lia.
Qed.
End Places.

(** * Vectors in memory *)

(** What the library promises of [vec_resize_fn (nalloc, nwanted, id)]: at least [nwanted]. *)
Class VecResizeOk `{VecResize} : Prop :=
  resize_ok : forall nalloc nwanted id, (0 <= nalloc)%Z -> (0 <= nwanted)%Z -> (nwanted <= vec_resize_fn nalloc nwanted id)%Z.

Section Facts.
Context `{VecResizeOk} {T : Type} (dflt : option T) (objid : Z) (new : gset nat -> nat) (def_basep : option nat) (N : nat).
Context (new_fresh : forall D, new D ∉ D) (no_buffer : def_basep = None -> N = 0).
#[local] Notation A := (option T).
Implicit Types (h : heap A) (v w : vec) (l : list A).

(** The memory after [bfree]. *)
Definition freed (b : option nat) h : heap A :=
  if bool_decide (b = def_basep) then h else match b with Some b => delete b h | None => h end.

Lemma bfree_ok b h : (forall k, b = Some k -> exists n, h !! k = Some (replicate n None)) -> bfree def_basep b h = Ok (freed b h).
Proof.
  intros Hb. unfold bfree, freed. destruct (bool_decide _); [done|]. destruct b as [b|]; [|done]. destruct (Hb b eq_refl) as [n ->].
  replace (forallb is_raw (replicate n None)) with true; [done|]. symmetry. induction n; [done|]. by cbn.
Qed.

(** The block of a vector that holds [l]. *)
Definition cells v l : list (option A) := replicate (firstp v) None ++ (Some <$> l) ++ replicate (limp v - lastp v) None.

Record vec_ok v h l : Prop := {
  v_len : lastp v = firstp v + length l;
  v_lim : lastp v <= limp v;
  v_block : match basep v with Some b => h !! b = Some (cells v l) | None => limp v = 0 end;
  v_def : forall d, def_basep = Some d -> basep v <> Some d -> h !! d = Some (replicate N None);
  v_deflim : basep v = def_basep -> limp v = N;
}.

(** The memory that is not the vector's. *)
Definition rest_at v h (k : nat) : option (list (option A)) := if decide (Some k = basep v \/ Some k = def_basep) then None else h !! k.
(** Nothing else is changed and nothing is leaked. *)
Definition frame v h v' h' : Prop := forall k, rest_at v' h' k = rest_at v h k.

#[local] Notation init := (init def_basep N).
#[local] Notation reserve := (reserve objid new def_basep).

Lemma frame_refl v h : frame v h v h.
Proof. by intros k. Qed.
Lemma frame_trans v1 h1 v2 h2 v3 h3 : frame v1 h1 v2 h2 -> frame v2 h2 v3 h3 -> frame v1 h1 v3 h3.
Proof. intros F1 F2 k. by rewrite F2, F1. Qed.

(** Writing the block of the vector. *)
Lemma frame_block v h v' b cs : basep v = Some b -> basep v' = Some b -> frame v h v' (<[b := cs]> h).
Proof.
  intros E E' k. unfold rest_at. rewrite E, E'. destruct (decide _) as [|Hn]; [done|]. apply lookup_insert_ne. intros ->. apply Hn. by left.
Qed.

Lemma vec_ok_block v h l v' b l' : vec_ok v h l -> basep v = Some b -> basep v' = Some b -> limp v' = limp v ->
  lastp v' = firstp v' + length l' -> lastp v' <= limp v' -> vec_ok v' (<[b := cells v' l']> h) l'.
Proof.
  intros [Hlen Hlim Hb Hd Hdl] E E' El Hl Hm. split; [done|done|by rewrite E', lookup_insert_eq| |by rewrite E', El, <- E].
  intros d Ed Hne. rewrite lookup_insert_ne by congruence. apply Hd; [done|congruence].
Qed.

Lemma vec_empty v h l : vec_ok v h l -> basep v = None -> l = [] /\ firstp v = 0 /\ lastp v = 0 /\ limp v = 0.
Proof.
  intros HV E. pose proof (v_len _ _ _ HV). pose proof (v_lim _ _ _ HV). pose proof (v_block _ _ _ HV) as Hb. rewrite E in Hb.
  assert (length l = 0) by lia. destruct l; [|done]. split; [done|]. cbn in *. lia.
Qed.

Lemma init_vec_ok h : (forall d, def_basep = Some d -> h !! d = Some (replicate N None)) -> vec_ok init h [].
Proof.
  intros Hd. split; cbn; [done|lia| |by intros d Ed Hne|done]. unfold cells. cbn. rewrite Nat.sub_0_r.
  destruct def_basep as [d|] eqn:E; [by apply Hd|by apply no_buffer].
Qed.

Lemma def_in_heap v h l d : vec_ok v h l -> def_basep = Some d -> d ∈ dom h.
Proof.
  intros HV Ed. apply elem_of_dom. destruct (decide (basep v = Some d)) as [E|E].
  - pose proof (v_block _ _ _ HV) as Hb. rewrite E in Hb. by eexists.
  - rewrite (v_def _ _ _ HV d Ed E). by eexists.
Qed.

(** Moving everything to the block that was just allocated. *)
Lemma vec_grow_ok v h l n : vec_ok v h l -> length l <= n ->
  let b := new (dom h) in
  exists v' h', move (Some b) v (<[b := replicate n None]> h) = Ok (v', h') /\
    vec_ok (Vec (Some b) 0 (length l) n) (freed (basep v) h') l /\ bfree def_basep (basep v) h' = Ok (freed (basep v) h') /\ v' = Vec (Some b) 0 (length l) (limp v) /\
    frame v h (Vec (Some b) 0 (length l) n) (freed (basep v) h').
Proof.
  intros HV Hn b. assert (Hb : b ∉ dom h) by apply new_fresh. pose proof (v_len _ _ _ HV) as Hlen.
  assert (Hbd : Some b <> def_basep) by (intros E; apply Hb; by apply (def_in_heap v h l)).
  assert (Hbv : Some b <> basep v). { intros E. pose proof (v_block _ _ _ HV) as Hc. rewrite <- E in Hc. apply Hb. apply elem_of_dom. by eexists. }
  unfold move. rewrite (bool_decide_eq_false_2 (Some b = basep v)) by done. cbn [andb]. rewrite (bool_decide_eq_true_2 (Some b <> basep v)) by done.
  cbn [orb c_assert mbind res_bind]. replace (lastp v - firstp v) with (length l) by lia.
  set (dst := (Some <$> l) ++ replicate (n - length l) None).
  assert (Hmove : exists h', move_loop (length l) (Some b, 0) (at_off v (firstp v)) (<[b := replicate n None]> h) = Ok h' /\ h' !! b = Some dst /\
    (forall d, basep v = Some d -> h' !! d = Some (replicate (limp v) None)) /\ (forall k, k <> b -> Some k <> basep v -> h' !! k = h !! k)).
  { destruct (basep v) as [b0|] eqn:E.
    - pose proof (v_block _ _ _ HV) as Hc. rewrite E in Hc. assert (Hne : b0 <> b) by congruence. eexists. split; [|split; [|split]].
      + unfold at_off. rewrite E. apply (move_loop_fresh l _ b0 b [] (replicate (firstp v) None) (replicate (limp v - lastp v) None) 0 (firstp v) n Hne).
        * rewrite lookup_insert_ne by done. exact Hc.
        * by rewrite lookup_insert_eq.
        * done.
        * by rewrite length_replicate.
        * done.
      + by rewrite lookup_insert_eq.
      + intros d [= <-]. rewrite lookup_insert_ne, lookup_insert_eq by done. f_equal. rewrite <- !replicate_add. f_equal. pose proof (v_lim _ _ _ HV). lia.
      + intros k Hk Hk0. rewrite !lookup_insert_ne; [done|congruence..].
    - destruct (vec_empty v h l HV E) as (-> & _). eexists. split; [done|]. split; [|split].
      + rewrite lookup_insert_eq. unfold dst. cbn. by rewrite Nat.sub_0_r.
      + done.
      + intros k Hk _. by rewrite lookup_insert_ne. }
  destruct Hmove as (h' & -> & Hdst & Hsrc & Hoth). cbn [mbind res_bind]. exists (Vec (Some b) 0 (length l) (limp v)), h'. split; [done|].
  assert (Hfree : forall k, k <> b -> freed (basep v) h' !! k = if decide (Some k = basep v /\ basep v <> def_basep) then None else h' !! k).
  { intros k Hk. unfold freed. destruct (bool_decide_reflect (basep v = def_basep)) as [E|E]; [by rewrite decide_False by tauto|].
    destruct (basep v) as [b0|]; [|rewrite decide_False; [done|by intros [? _]]]. destruct (decide (k = b0)) as [->|Hk0].
    - by rewrite lookup_delete_eq, decide_True.
    - rewrite lookup_delete_ne by done. rewrite decide_False; [done|]. intros [[= ?] _]. done. }
  assert (Hkeep : freed (basep v) h' !! b = Some dst).
  { unfold freed. destruct (bool_decide _); [done|]. destruct (basep v) as [b0|]; [|done]. rewrite lookup_delete_ne by congruence. done. }
  split; [|split; [|split; [done|]]].
  2: { apply bfree_ok. intros k Hk. exists (limp v). by apply Hsrc. }
  - split; cbn [basep firstp lastp limp]; [done|done|exact Hkeep| |done]. intros d Ed Hne. rewrite Hfree by congruence.
    rewrite decide_False by (intros [E1 E2]; apply E2; by rewrite <- E1, Ed). destruct (decide (basep v = Some d)) as [E|E].
    + rewrite (Hsrc d E). f_equal. rewrite (v_deflim _ _ _ HV) by congruence. done.
    + rewrite Hoth by congruence. by apply (v_def _ _ _ HV).
  - intros k. unfold rest_at. cbn [basep]. destruct (decide (k = b)) as [->|Hk].
    + rewrite decide_True by by left. rewrite decide_False by tauto. symmetry. by apply not_elem_of_dom.
    + rewrite Hfree by done. destruct (decide (Some k = def_basep)) as [E|E]; [rewrite !decide_True by tauto; done|].
      rewrite (decide_False (P := Some k = Some b \/ _)) by (intros [[= ?]|?]; done). destruct (decide (Some k = basep v)) as [E'|E'].
      * rewrite (decide_True (P := Some k = basep v /\ _)) by (split; [done|congruence]). by rewrite decide_True by by left.
      * rewrite (decide_False (P := Some k = basep v /\ _)) by tauto. rewrite (decide_False (P := Some k = basep v \/ _)) by tauto. by apply Hoth.
Qed.

(** Moving everything to the start of the block. *)
Lemma move_down_ok v h l : vec_ok v h l -> 0 < firstp v ->
  exists v' h', move (basep v) v h = Ok (v', h') /\ vec_ok v' h' l /\ v' = Vec (basep v) 0 (length l) (limp v) /\ frame v h v' h'.
Proof.
  intros HV Hf. pose proof (v_len _ _ _ HV) as Hlen. pose proof (v_lim _ _ _ HV) as Hlim. destruct (basep v) as [b|] eqn:E.
  2: { destruct (vec_empty v h l HV E) as (_ & ? & _). lia. }
  pose proof (v_block _ _ _ HV) as Hb. rewrite E in Hb. unfold move. rewrite E, (bool_decide_eq_true_2 (Some b = Some b)) by done.
  rewrite (proj2 (Nat.eqb_neq _ _)) by lia. rewrite (proj2 (Nat.ltb_lt _ _)) by lia. rewrite orb_true_r. cbn [andb orb c_assert mbind res_bind].
  replace (lastp v - firstp v) with (length l) by lia. unfold at_off. rewrite E.
  rewrite (move_loop_down l h b [] (firstp v - 1) (replicate (limp v - lastp v) None)).
  - cbn [mbind res_bind]. eexists _, _. split; [done|]. split; [|split; [done|by apply frame_block]].
    set (v' := Vec (Some b) 0 (length l) (limp v)).
    replace ([] ++ (Some <$> l) ++ replicate (S (firstp v - 1)) None ++ replicate (limp v - lastp v) None) with (cells v' l).
    + apply (vec_ok_block v h l); try done. cbn. lia.
    + unfold cells. cbn [firstp lastp limp v' replicate app]. f_equal. rewrite <- replicate_add.
      match goal with |- _ = None :: replicate ?k None => change (None :: replicate k None) with (replicate (A := option A) (S k) None) end. f_equal. lia.
  - rewrite Hb. unfold cells. by replace (S (firstp v - 1)) with (firstp v) by lia.
  - done.
  - lia.
Qed.

Lemma reserve_ok v h l n : vec_ok v h l -> (Z.of_nat (length l + n) < 2 ^ 32)%Z ->
  exists v' h', reserve n v h = Ok (v', h') /\ vec_ok v' h' l /\ frame v h v' h' /\ lastp v' + n <= limp v'.
Proof.
  intros HV Hn. pose proof (v_len _ _ _ HV) as Hlen. unfold SfsVec.reserve. destruct (Nat.leb_spec (lastp v + n) (limp v)) as [Hle|Hgt].
  { exists v, h. split; [done|]. split; [done|]. split; [apply frame_refl|done]. }
  replace (lastp v - firstp v + n) with (length l + n) by lia. destruct (Nat.ltb_spec (limp v / 2) (length l + n)) as [Hw|Hw].
  - set (nalloc := Z.to_nat _). assert (Hna : length l + n <= nalloc).
    { unfold nalloc. pose proof (resize_ok (Z.of_nat (limp v) mod 2 ^ 32) (Z.of_nat (length l + n) mod 2 ^ 32) objid) as Hr.
      rewrite (Z.mod_small (Z.of_nat (length l + n))) in Hr by lia. rewrite (Z.mod_small (Z.of_nat (length l + n))) by lia.
      pose proof (Z.mod_pos_bound (Z.of_nat (limp v)) (2 ^ 32)). lia. }
    destruct (vec_grow_ok v h l nalloc HV) as (v' & h' & -> & HV' & Ef & -> & HF); [lia|].
    cbn [mbind res_bind]. rewrite Ef. cbn [mbind res_bind basep firstp lastp]. eexists _, _. split; [done|]. split; [done|]. split; [done|]. cbn. lia.
  - assert (Hf : 0 < firstp v). { pose proof (Nat.div_mod_eq (limp v) 2). pose proof (Nat.mod_upper_bound (limp v) 2). lia. }
    destruct (move_down_ok v h l HV Hf) as (v' & h' & -> & HV' & -> & HF). eexists _, _. split; [done|]. split; [done|]. split; [done|].
    cbn. pose proof (Nat.div_mod_eq (limp v) 2). lia.
Qed.

(** ** Elements *)
Lemma index_read v h l i x : vec_ok v h l -> l !! i = Some x -> exists p, index v (Z.of_nat i) = Ok p /\ read h p = Ok x.
Proof.
  intros HV Hi. unfold index. rewrite (proj2 (Z.ltb_ge _ _)) by lia. eexists. split; [done|]. rewrite <- Nat2Z.inj_add, Nat2Z.id. unfold at_off.
  pose proof (v_block _ _ _ HV) as Hb. destruct (basep v) as [b|] eqn:E; [|by destruct (vec_empty v h l HV E) as (-> & _)].
  rewrite <- (take_drop_middle l i x Hi) in Hb. unfold cells in Hb. rewrite fmap_app, <- !(assoc_L app) in Hb. cbn [fmap list_fmap app] in Hb. rewrite (assoc_L app) in Hb.
  apply (read_mid _ _ _ _ _ _ Hb). rewrite length_app, length_replicate, length_fmap, length_take. apply lookup_lt_Some in Hi. lia.
Qed.

Lemma back_read v h l x : vec_ok v h (l ++ [x]) -> exists p, back v = Ok p /\ read h p = Ok x /\ p = at_off v (firstp v + length l).
Proof.
  intros HV. pose proof (v_len _ _ _ HV) as Hlen. rewrite length_app in Hlen. cbn in Hlen. unfold back. rewrite (proj2 (Nat.eqb_neq _ _)) by lia. eexists. split; [done|].
  assert (Hi : (l ++ [x]) !! length l = Some x) by (rewrite lookup_app_r, Nat.sub_diag by lia; done).
  destruct (index_read v h _ _ x HV Hi) as (p & Ep & Hr). unfold index in Ep. rewrite (proj2 (Z.ltb_ge _ _)) in Ep by lia. injection Ep as <-.
  rewrite <- Nat2Z.inj_add, Nat2Z.id in Hr. replace (lastp v - 1) with (firstp v + length l) by lia. done.
Qed.

(** An element is written after the last one. *)
Lemma construct_last v h l x : vec_ok v h l -> lastp v + 1 <= limp v ->
  let v' := Vec (basep v) (firstp v) (S (lastp v)) (limp v) in
  exists h', cconstruct h (at_off v (lastp v)) x = Ok h' /\ vec_ok v' h' (l ++ [x]) /\ frame v h v' h'.
Proof.
  intros HV Hroom v'. pose proof (v_len _ _ _ HV) as Hlen. destruct (basep v) as [b|] eqn:E; [|destruct (vec_empty v h l HV E) as (_ & ? & ? & ?); lia].
  pose proof (v_block _ _ _ HV) as Hb. rewrite E in Hb. unfold cells in Hb. replace (limp v - lastp v) with (S (limp v - S (lastp v))) in Hb by lia.
  cbn [replicate] in Hb. rewrite (assoc_L app) in Hb. unfold at_off. rewrite E.
  rewrite (cconstruct_mid _ _ _ x _ _ Hb) by (rewrite length_app, length_replicate, length_fmap; lia). eexists. split; [done|]. split; [|by apply frame_block].
  replace ((replicate (firstp v) None ++ (Some <$> l)) ++ Some x :: replicate (limp v - S (lastp v)) None) with (cells v' (l ++ [x])).
  - apply (vec_ok_block v h l); try done; cbn; [|lia]. rewrite length_app. cbn. lia.
  - unfold cells, v'. cbn [firstp lastp limp]. rewrite fmap_app, <- !(assoc_L app). done.
Qed.

Lemma push_back_value v h l x : vec_ok v h l -> (Z.of_nat (S (length l)) < 2 ^ 32)%Z ->
  exists v' h', push_back objid new def_basep (by_value x) v h = Ok (v', h') /\ vec_ok v' h' (l ++ [x]) /\ frame v h v' h'.
Proof.
  intros HV Hn. unfold push_back. destruct (reserve_ok v h l 1 HV) as (v1 & h1 & -> & HV1 & HF1 & Hroom); [lia|]. cbn [mbind res_bind by_value].
  destruct (construct_last v1 h1 l x HV1 Hroom) as (h2 & -> & HV2 & HF2). cbn [mbind res_bind]. eexists _, _. split; [done|]. split; [done|]. by eapply frame_trans.
Qed.

Lemma push_back_default_ok v h l : vec_ok v h l -> (Z.of_nat (S (length l)) < 2 ^ 32)%Z ->
  exists v' h', push_back_default dflt objid new def_basep v h = Ok (v', h') /\ vec_ok v' h' (l ++ [dflt]) /\ frame v h v' h'.
Proof. intros HV Hn. by apply (push_back_value v h l dflt). Qed.

(** ** Removing *)
Lemma popn_back_ok v h l k : vec_ok v h (l ++ k) ->
  exists v' h', popn_back (length k) v h = Ok (v', h') /\ vec_ok v' h' l /\ frame v h v' h'.
Proof.
  intros HV. pose proof (v_len _ _ _ HV) as Hlen. pose proof (v_lim _ _ _ HV) as Hlim. rewrite length_app in Hlen. unfold popn_back.
  set (v' := Vec (basep v) (firstp v) (lastp v - length k) (limp v)). destruct (basep v) as [b|] eqn:E.
  - pose proof (v_block _ _ _ HV) as Hb. rewrite E in Hb. unfold cells in Hb. rewrite fmap_app, <- (assoc_L app), (assoc_L app) in Hb.
    rewrite (destroy_back_ok k _ _ _ _ _ Hb) by (rewrite length_app, length_replicate, length_fmap; lia). cbn [mbind res_bind]. eexists _, _. split; [done|].
    split; [|by apply frame_block]. replace (_ ++ replicate (length k) None ++ _) with (cells v' l).
    + apply (vec_ok_block v h (l ++ k)); try done; cbn; lia.
    + unfold cells, v'. cbn [firstp lastp limp]. rewrite <- (assoc_L app), <- replicate_add. do 3 f_equal. lia.
  - destruct (vec_empty v h _ HV E) as (El & ? & ? & ?). apply app_eq_nil in El as [-> ->]. cbn. eexists _, _. split; [done|].
    assert (Ev : v' = v) by (unfold v'; destruct v; cbn in *; subst; done). rewrite Ev. split; [done|apply frame_refl].
Qed.

Lemma popn_front_ok v h l k : vec_ok v h (l ++ k) ->
  exists v' h', popn_front (length l) v h = Ok (v', h') /\ vec_ok v' h' k /\ frame v h v' h'.
Proof.
  intros HV. pose proof (v_len _ _ _ HV) as Hlen. pose proof (v_lim _ _ _ HV) as Hlim. rewrite length_app in Hlen. unfold popn_front.
  set (v' := Vec (basep v) (firstp v + length l) (lastp v) (limp v)). destruct (basep v) as [b|] eqn:E.
  - pose proof (v_block _ _ _ HV) as Hb. rewrite E in Hb. unfold cells in Hb. rewrite fmap_app, <- (assoc_L app) in Hb. unfold at_off. rewrite E.
    rewrite (destroy_loop_ok l _ _ _ _ _ Hb) by (by rewrite length_replicate). cbn [mbind res_bind]. eexists _, _. split; [done|].
    split; [|by apply frame_block]. rewrite (assoc_L app), <- replicate_add. change (replicate (firstp v + length l) None ++ (Some <$> k) ++ replicate (limp v - lastp v) None) with (cells v' k).
    apply (vec_ok_block v h (l ++ k)); try done; cbn; lia.
  - destruct (vec_empty v h _ HV E) as (El & ? & ? & ?). apply app_eq_nil in El as [-> ->]. cbn. eexists _, _. split; [done|].
    assert (Ev : v' = v) by (unfold v'; destruct v; cbn in *; subst; done). rewrite Ev. split; [done|apply frame_refl].
Qed.

Lemma pop_back_ok v h l x : vec_ok v h (l ++ [x]) -> exists v' h', pop_back v h = Ok (x, v', h') /\ vec_ok v' h' l /\ frame v h v' h'.
Proof.
  intros HV. destruct (back_read v h l x HV) as (p & Ep & Hr & ->). unfold pop_back. rewrite Ep. cbn [mbind res_bind]. rewrite Hr. cbn [mbind res_bind].
  destruct (popn_back_ok v h l [x] HV) as (v' & h' & E & HV' & HF). unfold popn_back in E. cbn [length destroy_back] in E.
  pose proof (v_len _ _ _ HV) as Hlen. rewrite length_app in Hlen. cbn in Hlen. rewrite (proj2 (Nat.eqb_neq _ _)) in E by lia.
  replace (lastp v - 1) with (firstp v + length l) in E by lia. unfold at_off. apply bind_Ok_inv in E as (h1 & E & [= <- <-]). apply bind_Ok_inv in E as (h2 & -> & [= ->]).
  cbn [mbind res_bind]. eexists _, _. split; [done|]. replace (lastp v - 1) with (firstp v + length l) by lia. done.
Qed.

Lemma pop_front_ok v h l x : vec_ok v h (x :: l) -> exists v' h', pop_front v h = Ok (x, v', h') /\ vec_ok v' h' l /\ frame v h v' h'.
Proof.
  intros HV. destruct (index_read v h (x :: l) 0 x HV eq_refl) as (p & Ep & Hr). unfold index in Ep. rewrite (proj2 (Z.ltb_ge _ _)) in Ep by lia. injection Ep as <-.
  rewrite <- Nat2Z.inj_add, Nat2Z.id, Nat.add_0_r in Hr. unfold pop_front, front. rewrite Hr. cbn [mbind res_bind].
  destruct (popn_front_ok v h [x] l HV) as (v' & h' & E & HV' & HF). unfold popn_front in E. cbn [length destroy_loop] in E.
  apply bind_Ok_inv in E as (h1 & E & [= <- <-]). apply bind_Ok_inv in E as (h2 & -> & [= ->]). cbn [mbind res_bind]. eexists _, _. split; [done|]. rewrite Nat.add_1_r in *. done.
Qed.

Lemma clear_vec_ok v h l : vec_ok v h l -> exists h', SfsVec.clear def_basep N v h = Ok (init, h') /\ vec_ok init h' [] /\ frame v h init h'.
Proof.
  intros HV. pose proof (v_len _ _ _ HV) as Hlen. pose proof (v_lim _ _ _ HV) as Hlim. unfold SfsVec.clear, del. replace (lastp v - firstp v) with (length l) by lia.
  assert (Hd : exists h1, destroy_loop (length l) (at_off v (firstp v)) h = Ok h1 /\ (forall b, basep v = Some b -> h1 !! b = Some (replicate (limp v) None)) /\
    forall k, Some k <> basep v -> h1 !! k = h !! k).
  { destruct (basep v) as [b|] eqn:E.
    - pose proof (v_block _ _ _ HV) as Hb. rewrite E in Hb. unfold at_off. rewrite E. rewrite (destroy_loop_ok l _ _ _ _ _ Hb) by (by rewrite length_replicate).
      eexists. split; [done|]. split.
      + intros b' [= <-]. rewrite lookup_insert_eq, <- !replicate_add. do 2 f_equal. lia.
      + intros k Hk. rewrite lookup_insert_ne; [done|congruence].
    - destruct (vec_empty v h l HV E) as (-> & _). by exists h. }
  destruct Hd as (h1 & -> & Hown & Hoth). cbn [mbind res_bind]. rewrite (bfree_ok (basep v) h1) by (intros k Hk; exists (limp v); by apply Hown). cbn [mbind res_bind]. eexists. split; [done|].
  assert (Hk : forall k, (Some k = basep v -> basep v = def_basep) -> freed (basep v) h1 !! k = h1 !! k).
  { intros k Hk. unfold freed. destruct (bool_decide_reflect (basep v = def_basep)) as [E|E]; [done|]. destruct (basep v) as [b|]; [|done].
    apply lookup_delete_ne. intros ->. by apply E, Hk. }
  split.
  - apply init_vec_ok. intros d Ed. rewrite Hk by (intros <-; done). destruct (decide (basep v = Some d)) as [E|E].
    + rewrite (Hown d E). by rewrite (v_deflim _ _ _ HV) by congruence.
    + rewrite Hoth by done. by apply (v_def _ _ _ HV).
  - intros k. unfold rest_at. cbn [basep SfsVec.init]. destruct (decide (Some k = def_basep)) as [E|E]; [by rewrite !decide_True by tauto|].
    rewrite (decide_False (P := Some k = def_basep \/ _)) by tauto. destruct (decide (Some k = basep v)) as [E'|E'].
    + rewrite decide_True by tauto. unfold freed. rewrite bool_decide_eq_false_2 by congruence. rewrite <- E'. by rewrite lookup_delete_eq.
    + rewrite decide_False by tauto. rewrite Hk by done. by apply Hoth.
Qed.

Lemma construct_many v h l n : vec_ok v h l -> lastp v + n <= limp v ->
  let v' := Vec (basep v) (firstp v) (lastp v + n) (limp v) in
  exists h', construct_loop dflt n (at_off v (lastp v)) h = Ok h' /\ vec_ok v' h' (l ++ replicate n dflt) /\ frame v h v' h'.
Proof.
  intros HV Hroom v'. pose proof (v_len _ _ _ HV) as Hlen. destruct (basep v) as [b|] eqn:E.
  - pose proof (v_block _ _ _ HV) as Hb. rewrite E in Hb. unfold cells in Hb. replace (limp v - lastp v) with (n + (limp v - (lastp v + n))) in Hb by lia.
    rewrite replicate_add, (assoc_L app) in Hb. unfold at_off. rewrite E.
    rewrite (construct_loop_ok dflt n _ _ _ _ _ Hb) by (rewrite length_app, length_replicate, length_fmap; lia). eexists. split; [done|]. split; [|by apply frame_block].
    replace (_ ++ (Some <$> replicate n dflt) ++ _) with (cells v' (l ++ replicate n dflt)).
    + apply (vec_ok_block v h l); try done; cbn; rewrite ?length_app, ?length_replicate; lia.
    + unfold cells, v'. cbn [firstp lastp limp]. by rewrite fmap_app, <- !(assoc_L app).
  - destruct (vec_empty v h l HV E) as (-> & ? & ? & ?). assert (n = 0) by lia. subst n. exists h. split; [done|].
    assert (Ev : v' = v) by (unfold v'; destruct v; cbn in *; subst; done). rewrite Ev. split; [done|apply frame_refl].
Qed.

(** [setsize] cuts the end off or fills up with default elements. *)
Definition resized l (n : nat) : list A := take n l ++ replicate (n - length l) dflt.

Lemma setsize_ok v h l n : vec_ok v h l -> (Z.of_nat n < 2 ^ 32)%Z ->
  exists v' h', setsize dflt objid new def_basep n v h = Ok (v', h') /\ vec_ok v' h' (resized l n) /\ frame v h v' h'.
Proof.
  intros HV Hn. pose proof (v_len _ _ _ HV) as Hlen. unfold setsize, vec_size, resized. replace (lastp v - firstp v) with (length l) by lia.
  destruct (Nat.ltb_spec n (length l)) as [Hlt|Hge].
  - replace (n - length l) with 0 by lia. cbn [replicate]. rewrite app_nil_r. rewrite <- (take_drop n l) in HV.
    destruct (popn_back_ok v h _ _ HV) as (v' & h' & E & HV' & HF). rewrite length_drop in E. exists v', h'. done.
  - rewrite take_ge by lia. destruct (Nat.eqb_spec (n - length l) 0) as [E0|E0].
    + rewrite E0. cbn [replicate]. rewrite app_nil_r. exists v, h. split; [done|]. split; [done|apply frame_refl].
    + destruct (reserve_ok v h l (n - length l) HV) as (v1 & h1 & -> & HV1 & HF1 & Hroom); [lia|]. cbn [mbind res_bind].
      destruct (construct_many v1 h1 l (n - length l) HV1 Hroom) as (h2 & -> & HV2 & HF2). cbn [mbind res_bind]. eexists _, _. split; [done|]. split; [done|]. by eapply frame_trans.
Qed.

(** ** Reversing *)
Lemma elem_assign_ok v h l i x p : vec_ok v h l -> i < length l -> index v (Z.of_nat i) = Ok p ->
  exists h', assign p x h = Ok h' /\ vec_ok v h' (<[i := x]> l) /\ frame v h v h'.
Proof.
  intros HV Hi Ep. destruct (lookup_lt_is_Some_2 l i Hi) as [y Hy]. destruct (index_read v h l i y HV Hy) as (p' & Ep' & Hr). rewrite Ep in Ep'. injection Ep' as <-.
  unfold assign. rewrite Hr. cbn [mbind res_bind]. unfold index in Ep. rewrite (proj2 (Z.ltb_ge _ _)) in Ep by lia. injection Ep as <-.
  rewrite <- Nat2Z.inj_add, Nat2Z.id. pose proof (v_len _ _ _ HV) as Hlen. pose proof (v_lim _ _ _ HV) as Hlim. pose proof (v_block _ _ _ HV) as Hb. unfold at_off.
  destruct (basep v) as [b|] eqn:E; [|destruct (vec_empty v h l HV E) as (-> & _); cbn in Hi; lia].
  pose proof Hb as Hb'. rewrite <- (take_drop_middle l i y Hy) in Hb'. unfold cells in Hb'. rewrite fmap_app, <- !(assoc_L app) in Hb'. cbn [fmap list_fmap app] in Hb'. rewrite (assoc_L app) in Hb'.
  rewrite (set_place_mid _ _ _ _ (Some x) _ _ Hb') by (rewrite length_app, length_replicate, length_fmap, length_take; lia). eexists. split; [done|]. split; [|by apply frame_block].
  replace (_ ++ Some x :: _) with (cells v (<[i := x]> l)).
  - apply (vec_ok_block v h l); try done. by rewrite length_insert.
  - unfold cells. rewrite insert_take_drop by done. rewrite fmap_app. cbn [fmap list_fmap]. by rewrite <- !(assoc_L app).
Qed.

(** [l] with the elements outside [lo .. hi] exchanged with those at the other end. *)
Definition half_reversed l (lo : nat) (cur : list A) : Prop :=
  length cur = length l /\ forall k, k < length l -> cur !! k = if decide (k < lo \/ length l - lo <= k) then l !! (length l - 1 - k) else l !! k.

Lemma half_reversed_step l lo cur x y : half_reversed l lo cur -> lo < length l - 1 - lo -> cur !! lo = Some x -> cur !! (length l - 1 - lo) = Some y ->
  half_reversed l (S lo) (<[length l - 1 - lo := x]> (<[lo := y]> cur)).
Proof.
  intros [Hlen Hc] Hlt Hx Hy. split; [by rewrite !length_insert|]. intros k Hk. rewrite Hc in Hx, Hy by lia.
  rewrite decide_False in Hx by lia. rewrite decide_False in Hy by lia. destruct (decide (k = length l - 1 - lo)) as [->|Hne].
  - rewrite list_lookup_insert_eq by (rewrite length_insert; lia). rewrite decide_True by lia. by replace (length l - 1 - (length l - 1 - lo)) with lo by lia.
  - rewrite list_lookup_insert_ne by done. destruct (decide (k = lo)) as [->|Hne'].
    + rewrite list_lookup_insert_eq by lia. by rewrite decide_True by lia.
    + rewrite list_lookup_insert_ne, Hc by done. apply decide_ext. lia.
Qed.

Lemma half_reversed_done l lo cur : half_reversed l lo cur -> length l - 1 - lo <= lo -> cur = reverse l.
Proof.
  intros [Hlen Hc] Hle. apply list_eq. intros k. destruct (decide (k < length l)) as [Hk|Hk].
  - rewrite Hc, reverse_lookup by done. replace (length l - S k) with (length l - 1 - k) by lia. destruct (decide _) as [|Hn]; [done|]. f_equal. lia.
  - rewrite !lookup_ge_None_2; [done|by rewrite length_reverse; lia|lia].
Qed.

Lemma vec_reverse_ok v h l : vec_ok v h l -> exists h', vec_reverse v h = Ok h' /\ vec_ok v h' (reverse l) /\ frame v h v h'.
Proof.
  intros HV. pose proof (v_len _ _ _ HV) as Hlen. unfold vec_reverse, vec_size. replace (lastp v - firstp v) with (length l) by lia.
  destruct (loop_total (fun s : Z * Z * heap A => exists lo cur, s.1.1 = Z.of_nat lo /\ s.1.2 = (Z.of_nat (length l) - 1 - Z.of_nat lo)%Z /\
      half_reversed l lo cur /\ vec_ok v s.2 cur /\ frame v h v s.2)
    (fun h' => vec_ok v h' (reverse l) /\ frame v h v h') (fun s => length l - Z.to_nat s.1.1) (reverse_round v))
    with (fuel := S (length l)) (s := (0%Z, (Z.of_nat (length l) - 1)%Z, h)) as (h' & E & HV' & HF).
  - intros [[lo' hi'] h0] (lo & cur & Elo & Ehi & HR & HV0 & HF0). cbn [fst snd] in *. subst lo' hi'. unfold reverse_round.
    destruct (Z.ltb_spec (Z.of_nat lo) (Z.of_nat (length l) - 1 - Z.of_nat lo)) as [Hlt|Hge]; [left|right].
    + set (hi := length l - 1 - lo). assert (Ehi : (Z.of_nat (length l) - 1 - Z.of_nat lo)%Z = Z.of_nat hi) by lia. rewrite Ehi. pose proof HR as [Hcur _].
      destruct (lookup_lt_is_Some_2 cur lo) as [x Hx]; [lia|]. destruct (lookup_lt_is_Some_2 cur hi) as [y Hy]; [lia|].
      destruct (index_read v h0 cur lo x HV0 Hx) as (pl & Epl & Hrl). destruct (index_read v h0 cur hi y HV0 Hy) as (pr & Epr & Hrr).
      rewrite Epl, Epr. cbn [mbind res_bind]. rewrite Hrl. cbn [mbind res_bind]. rewrite Hrr. cbn [mbind res_bind].
      destruct (elem_assign_ok v h0 cur lo y pl HV0) as (h1 & -> & HV1 & HF1); [lia|done|]. cbn [mbind res_bind].
      destruct (elem_assign_ok v h1 (<[lo := y]> cur) hi x pr HV1) as (h2 & -> & HV2 & HF2); [rewrite length_insert; lia|done|]. cbn [mbind res_bind].
      eexists. split; [done|]. cbn [fst snd]. split; [|lia]. exists (S lo), (<[hi := x]> (<[lo := y]> cur)).
      split; [lia|]. split; [lia|]. split; [apply half_reversed_step; [done|lia|done|done]|]. split; [done|]. eapply frame_trans; [exact HF0|]. by eapply frame_trans.
    + eexists. split; [done|]. rewrite <- (half_reversed_done l lo cur HR) by lia. done.
  - exists 0, l. cbn. split; [done|]. split; [lia|]. split; [|split; [done|apply frame_refl]]. split; [done|]. intros k Hk. by rewrite decide_False by lia.
  - cbn. lia.
  - by exists h'.
Qed.

(** ** Appending *)

(** Another vector's elements, in a block of their own. *)
Definition elsewhere v w h (k : list A) : Prop :=
  match basep w with
  | Some b => Some b <> basep v /\ Some b <> def_basep /\ h !! b = Some (cells w k) /\ lastp w = firstp w + length k
  | None => k = [] /\ lastp w = firstp w
  end.

Lemma elsewhere_frame v h v' h' w k : elsewhere v w h k -> frame v h v' h' -> (forall b, basep w = Some b -> Some b <> basep v') -> elsewhere v' w h' k.
Proof.
  unfold elsewhere. destruct (basep w) as [b|]; [|done]. intros (H1' & H2' & H3' & H4') HF Hv. split; [by apply Hv|]. split; [done|]. split; [|done].
  specialize (HF b). unfold rest_at in HF. rewrite !decide_False in HF; [by rewrite HF|intros [?|?]; [done|done]|intros [E|?]; [by apply (Hv b)|done]].
Qed.

(** The block of a vector after [reserve] is its old one or a new one. *)
Lemma frame_new_block v h v' h' b c : frame v h v' h' -> Some b <> basep v -> Some b <> def_basep -> h !! b = Some c -> Some b <> basep v'.
Proof.
  intros HF H1' H2' Hb E. specialize (HF b). unfold rest_at in HF. rewrite (decide_True (P := Some b = basep v' \/ _)) in HF by by left.
  rewrite decide_False in HF by tauto. congruence.
Qed.

Lemma append_loop_ok bw k : forall v h l g r i, vec_ok v h l -> lastp v + length k <= limp v -> Some bw <> basep v -> Some bw <> def_basep ->
  h !! bw = Some (g ++ (Some <$> k) ++ r) -> i = length g ->
  exists v' h', append_loop (length k) (Some bw, i) v h = Ok (v', h') /\ vec_ok v' h' (l ++ k) /\ frame v h v' h'.
Proof.
  induction k as [|x k IH]; intros v h l g r i HV Hroom H1' H2' Hb Hi; cbn [length append_loop].
  - exists v, h. rewrite app_nil_r. split; [done|]. split; [done|apply frame_refl].
  - cbn [fmap list_fmap app length] in *. rewrite (read_mid _ _ _ _ _ _ Hb Hi). cbn [mbind res_bind].
    destruct (construct_last v h l x HV) as (h1 & -> & HV1 & HF1); [lia|]. cbn [mbind res_bind fst snd].
    edestruct (IH _ h1 (l ++ [x]) (g ++ [Some x]) r (S i) HV1) as (v' & h' & -> & HV' & HF').
    + cbn. lia.
    + done.
    + done.
    + specialize (HF1 bw). unfold rest_at in HF1. cbn [basep] in HF1. rewrite !decide_False in HF1 by tauto. rewrite HF1, Hb. by rewrite <- (assoc_L app).
    + rewrite length_app. cbn. lia.
    + exists v', h'. split; [done|]. rewrite <- (assoc_L app) in HV'. split; [done|]. by eapply frame_trans.
Qed.

Lemma vec_append_ok v w h l k : vec_ok v h l -> elsewhere v w h k -> (Z.of_nat (length l + length k) < 2 ^ 32)%Z ->
  exists v' h', append objid new def_basep w v h = Ok (v', h') /\ vec_ok v' h' (l ++ k) /\ frame v h v' h'.
Proof.
  intros HV HW Hn. assert (Ew : vec_size w = length k).
  { unfold elsewhere in HW. unfold vec_size. destruct (basep w); [destruct HW as (_ & _ & _ & ->); lia|]. destruct HW as [-> ->]. cbn. lia. }
  unfold append. rewrite Ew. destruct (reserve_ok v h l (length k) HV Hn) as (v1 & h1 & -> & HV1 & HF1 & Hroom). cbn [mbind res_bind].
  unfold at_off. unfold elsewhere in HW. destruct (basep w) as [bw|] eqn:Ebw.
  - destruct HW as (H1' & H2' & H3' & H4'). pose proof (frame_new_block _ _ _ _ _ _ HF1 H1' H2' H3') as Hne.
    assert (Hb1 : h1 !! bw = Some (cells w k)). { specialize (HF1 bw). unfold rest_at in HF1. rewrite !decide_False in HF1 by tauto. congruence. }
    destruct (append_loop_ok bw k v1 h1 l _ _ (firstp w) HV1 Hroom Hne H2' Hb1) as (v2 & h2 & -> & HV2 & HF2); [by rewrite length_replicate|].
    exists v2, h2. split; [done|]. split; [done|]. by eapply frame_trans.
  - destruct HW as [-> _]. cbn. exists v1, h1. rewrite app_nil_r. done.
Qed.

Lemma append_self_ok v h l : vec_ok v h l -> (Z.of_nat (length l + length l) < 2 ^ 32)%Z ->
  exists v' h', append_self objid new def_basep v h = Ok (v', h') /\ vec_ok v' h' (l ++ l) /\ frame v h v' h'.
Proof.
  intros HV Hn. pose proof (v_len _ _ _ HV) as Hlen. unfold append_self. assert (Es : vec_size v = length l) by (unfold vec_size; lia). rewrite Es.
  destruct (reserve_ok v h l (length l) HV Hn) as (v1 & h1 & -> & HV1 & HF1 & Hroom). cbn [mbind res_bind].
  pose proof (v_len _ _ _ HV1) as Hlen1. replace (vec_size v1) with (length l) by (unfold vec_size; lia).
  assert (Hrun : forall todo j v2 h2, j + todo = length l -> vec_ok v2 h2 (l ++ take j l) -> basep v2 = basep v1 -> firstp v2 = firstp v1 -> limp v2 = limp v1 -> frame v1 h1 v2 h2 ->
    exists v' h', append_loop todo (basep v1, firstp v1 + j) v2 h2 = Ok (v', h') /\ vec_ok v' h' (l ++ l) /\ frame v1 h1 v' h').
  { induction todo as [|todo IH]; intros j v2 h2 Hj HV2 Eb Ef El HF2; cbn [append_loop].
    - rewrite take_ge in HV2 by lia. by exists v2, h2.
    - destruct (lookup_lt_is_Some_2 l j) as [x Hx]; [lia|]. destruct (index_read v2 h2 (l ++ take j l) j x HV2) as (p & Ep & Hr); [by apply lookup_app_l_Some|].
      unfold index in Ep. rewrite (proj2 (Z.ltb_ge _ _)) in Ep by lia. injection Ep as <-. rewrite <- Nat2Z.inj_add, Nat2Z.id in Hr. unfold at_off in Hr. rewrite Eb, Ef in Hr.
      rewrite Hr. cbn [mbind res_bind]. pose proof (v_len _ _ _ HV2) as Hlen2. rewrite length_app, length_take in Hlen2.
      destruct (construct_last v2 h2 _ x HV2) as (h3 & -> & HV3 & HF3); [lia|]. cbn [mbind res_bind fst snd].
      replace (S (firstp v1 + j)) with (firstp v1 + S j) by lia. apply IH; [lia| |done|done|done|by eapply frame_trans]. by rewrite (take_S_r _ _ _ Hx), (assoc_L app). }
  destruct (Hrun (length l) 0 v1 h1) as (v' & h' & E & HV' & HF'); [done|by rewrite take_0, app_nil_r|done|done|done|apply frame_refl|].
  rewrite Nat.add_0_r in E. exists v', h'. split; [exact E|]. split; [done|]. by eapply frame_trans.
Qed.

(** Copying, and assignment of another vector. *)
Lemma vec_copy_ok w h k : (forall d, def_basep = Some d -> h !! d = Some (replicate N None)) -> elsewhere init w h k -> (Z.of_nat (length k) < 2 ^ 32)%Z ->
  exists v' h', vec_copy objid new def_basep N w h = Ok (v', h') /\ vec_ok v' h' k /\ frame init h v' h'.
Proof. intros Hd HW Hn. apply (vec_append_ok init w h [] k); [by apply init_vec_ok|done|done]. Qed.

Lemma vec_assign_ok v w h l k : vec_ok v h l -> elsewhere v w h k -> (Z.of_nat (length k) < 2 ^ 32)%Z ->
  exists v' h', vec_assign objid new def_basep N (Some w) v h = Ok (v', h') /\ vec_ok v' h' k /\ frame v h v' h'.
Proof.
  intros HV HW Hn. unfold vec_assign. destruct (clear_vec_ok v h l HV) as (h1 & -> & HV1 & HF1). cbn [mbind res_bind].
  destruct (vec_append_ok init w h1 [] k HV1) as (v' & h' & -> & HV' & HF'); [|done|exists v', h'; split; [done|]; split; [done|by eapply frame_trans]].
  apply (elsewhere_frame v h init h1); [done|done|]. intros b Eb E. unfold elsewhere in HW. rewrite Eb in HW. cbn in E. destruct HW as (_ & ? & _). done.
Qed.

(** ** Pushing an element of the vector itself *)
Lemma push_back_own_room v h l i x : vec_ok v h l -> l !! i = Some x -> lastp v < limp v ->
  exists v' h', push_back objid new def_basep (by_reference (at_off v (firstp v + i))) v h = Ok (v', h') /\ vec_ok v' h' (l ++ [x]) /\ frame v h v' h'.
Proof.
  intros HV Hi Hroom. destruct (index_read v h l i x HV Hi) as (p & Ep & Hr). unfold index in Ep. rewrite (proj2 (Z.ltb_ge _ _)) in Ep by lia. injection Ep as <-.
  rewrite <- Nat2Z.inj_add, Nat2Z.id in Hr. unfold push_back, SfsVec.reserve. rewrite (proj2 (Nat.leb_le _ _)) by lia. cbn [mbind res_bind]. unfold by_reference. rewrite Hr.
  cbn [mbind res_bind]. destruct (construct_last v h l x HV) as (h2 & -> & HV2 & HF2); [lia|]. eexists _, _. split; [done|]. done.
Qed.

(** [v.push_back (v[i])] on a full vector reads the element after the old block was freed. *)
Theorem push_back_own_dangles v h l i : vec_ok v h l -> i < length l -> lastp v = limp v -> limp v / 2 < length l + 1 -> basep v <> def_basep ->
  (Z.of_nat (length l + 1) < 2 ^ 32)%Z -> push_back objid new def_basep (by_reference (at_off v (firstp v + i))) v h = Stop Dangling.
Proof.
  intros HV Hi Hfull Hw Hnd Hn. pose proof (v_len _ _ _ HV) as Hlen. destruct (basep v) as [b0|] eqn:E; [|destruct (vec_empty v h l HV E) as (-> & _); cbn in Hi; lia].
  assert (Hb0 : b0 ∈ dom h). { pose proof (v_block _ _ _ HV) as Hb. rewrite E in Hb. apply elem_of_dom. by eexists. }
  destruct (reserve_ok v h l 1 HV Hn) as (v' & h' & Er & HV' & HF & _). unfold push_back. rewrite Er. cbn [mbind res_bind].
  assert (Hb' : basep v' = Some (new (dom h))).
  { unfold SfsVec.reserve in Er. rewrite (proj2 (Nat.leb_gt _ _)) in Er by lia. rewrite (proj2 (Nat.ltb_lt _ _)) in Er by lia.
    apply bind_Ok_inv in Er as ([v1 h1] & Em & (h3 & _ & [= <- _])%bind_Ok_inv). cbn [basep]. unfold move in Em.
    rewrite (bool_decide_eq_false_2 (Some _ = basep v)) in Em by (rewrite E; intros [= E']; apply (new_fresh (dom h)); by rewrite E').
    cbn [andb] in Em. apply bind_Ok_inv in Em as (_ & _ & (h2 & _ & [= <- _])%bind_Ok_inv). done. }
  specialize (HF b0). unfold rest_at in HF. rewrite (decide_True (P := Some b0 = basep v \/ _)) in HF by (left; done).
  rewrite decide_False in HF by (rewrite Hb'; intros [[= E']|?]; [apply (new_fresh (dom h)); by rewrite <- E'|done]).
  unfold by_reference, read, place, at_off. cbn [fst]. by rewrite E, HF.
Qed.

(** * Sequences of operations *)
Inductive vop : Type :=
| VPush (x : A) | VPushDefault | VPopBack | VPopFront | VPopnBack (n : nat) | VPopnFront (n : nat)
| VSetsize (n : nat) | VReserve (n : nat) | VReverse | VClear | VGet (i : nat) | VAppendSelf | VAppend (i : nat) | VAssign (i : nat).

(** Vectors of the same kind elsewhere in memory, which are copied from, and what they hold. *)
Context (sources : list (vec * list A)).
Definition sources_at v h : Prop := forall i w k, sources !! i = Some (w, k) -> elsewhere v w h k.

Lemma sources_frame v h v' h' : sources_at v h -> frame v h v' h' -> sources_at v' h'.
Proof.
  intros HS HF i w k Hi. specialize (HS i w k Hi). apply (elsewhere_frame v h v' h' w k HS HF). intros b Eb.
  unfold elsewhere in HS. rewrite Eb in HS. destruct HS as (H1' & H2' & H3' & _). by apply (frame_new_block v h v' h' b _ HF H1' H2' H3').
Qed.

Definition source (i : nat) : res vec := match sources !! i with Some (w, _) => Ok w | None => Stop OutOfBounds end.
Definition source_elems (i : nat) : list A := match sources !! i with Some (_, k) => k | None => [] end.

Definition run_vop (op : vop) (st : vec * heap A) : res (vec * heap A * list A) :=
  let '(v, h) := st in
  match op with
  | VPush x => st ← push_back objid new def_basep (by_value x) v h; Ok (st, [])
  | VPushDefault => st ← push_back_default dflt objid new def_basep v h; Ok (st, [])
  | VPopBack => '(x, v, h) ← pop_back v h; Ok (v, h, [x])
  | VPopFront => '(x, v, h) ← pop_front v h; Ok (v, h, [x])
  | VPopnBack n => st ← popn_back n v h; Ok (st, [])
  | VPopnFront n => st ← popn_front n v h; Ok (st, [])
  | VSetsize n => st ← setsize dflt objid new def_basep n v h; Ok (st, [])
  | VReserve n => st ← reserve n v h; Ok (st, [])
  | VReverse => h ← vec_reverse v h; Ok (v, h, [])
  | VClear => st ← SfsVec.clear def_basep N v h; Ok (st, [])
  | VGet i => p ← index v (Z.of_nat i); x ← read h p; Ok (v, h, [x])
  | VAppendSelf => st ← append_self objid new def_basep v h; Ok (st, [])
  | VAppend i => w ← source i; st ← append objid new def_basep w v h; Ok (st, [])
  | VAssign i => w ← source i; st ← vec_assign objid new def_basep N (Some w) v h; Ok (st, [])
  end.
Definition spec_vop (op : vop) (l : list A) : list A * list A :=
  match op with
  | VPush x => (l ++ [x], [])
  | VPushDefault => (l ++ [dflt], [])
  | VPopBack => (take (length l - 1) l, drop (length l - 1) l)
  | VPopFront => (drop 1 l, take 1 l)
  | VPopnBack n => (take (length l - n) l, [])
  | VPopnFront n => (drop n l, [])
  | VSetsize n => (resized l n, [])
  | VReserve _ => (l, [])
  | VReverse => (reverse l, [])
  | VClear => ([], [])
  | VGet i => (l, take 1 (drop i l))
  | VAppendSelf => (l ++ l, [])
  | VAppend i => (l ++ source_elems i, [])
  | VAssign i => (source_elems i, [])
  end.
(** The vector is not popped when it is empty nor read past its end, and sizes fit an [u_int]. *)
Definition vop_may (op : vop) (l : list A) : Prop :=
  match op with
  | VPush _ | VPushDefault => (Z.of_nat (S (length l)) < 2 ^ 32)%Z
  | VPopBack | VPopFront => 0 < length l
  | VPopnBack n | VPopnFront n => n <= length l
  | VSetsize n => (Z.of_nat n < 2 ^ 32)%Z
  | VReserve n => (Z.of_nat (length l + n) < 2 ^ 32)%Z
  | VReverse | VClear => True
  | VGet i => i < length l
  | VAppendSelf => (Z.of_nat (length l + length l) < 2 ^ 32)%Z
  | VAppend i => i < length sources /\ (Z.of_nat (length l + length (source_elems i)) < 2 ^ 32)%Z
  | VAssign i => i < length sources /\ (Z.of_nat (length (source_elems i)) < 2 ^ 32)%Z
  end.

Lemma run_vop_ok op st l : vec_ok st.1 st.2 l -> sources_at st.1 st.2 -> vop_may op l ->
  exists st', run_vop op st = Ok (st', (spec_vop op l).2) /\ vec_ok st'.1 st'.2 (spec_vop op l).1 /\ frame st.1 st.2 st'.1 st'.2.
Proof.
  destruct st as [v h]. cbn [fst snd]. intros HV HS Hm. destruct op as [x| | | |n|n|n|n| | |i| |i|i]; cbn [run_vop spec_vop vop_may fst snd] in *.
  - destruct (push_back_value v h l x HV Hm) as (v' & h' & -> & ? & ?). by exists (v', h').
  - destruct (push_back_default_ok v h l HV Hm) as (v' & h' & -> & ? & ?). by exists (v', h').
  - destruct l as [|x l _] using rev_ind; [cbn in Hm; lia|]. destruct (pop_back_ok v h l x HV) as (v' & h' & -> & ? & ?). cbn [mbind res_bind]. exists (v', h').
    rewrite length_app. cbn [length]. replace (length l + 1 - 1) with (length l) by lia. by rewrite take_app_length, drop_app_length.
  - destruct l as [|x l]; [cbn in Hm; lia|]. destruct (pop_front_ok v h l x HV) as (v' & h' & -> & ? & ?). by exists (v', h').
  - rewrite <- (take_drop (length l - n) l) in HV. destruct (popn_back_ok v h _ _ HV) as (v' & h' & E & ? & ?). rewrite length_drop in E.
    replace (length l - (length l - n)) with n in E by lia. rewrite E. by exists (v', h').
  - rewrite <- (take_drop n l) in HV. destruct (popn_front_ok v h _ _ HV) as (v' & h' & E & ? & ?). rewrite length_take, Nat.min_l in E by lia. rewrite E. by exists (v', h').
  - destruct (setsize_ok v h l n HV Hm) as (v' & h' & -> & ? & ?). by exists (v', h').
  - destruct (reserve_ok v h l n HV Hm) as (v' & h' & -> & ? & ? & _). by exists (v', h').
  - destruct (vec_reverse_ok v h l HV) as (h' & -> & ? & ?). by exists (v, h').
  - destruct (clear_vec_ok v h l HV) as (h' & -> & ? & ?). by exists (init, h').
  - destruct (lookup_lt_is_Some_2 l i Hm) as [x Hx]. destruct (index_read v h l i x HV Hx) as (p & -> & Hr). cbn [mbind res_bind]. rewrite Hr. cbn [mbind res_bind].
    exists (v, h). rewrite (drop_S _ _ _ Hx). split; [done|]. split; [done|apply frame_refl].
  - destruct (append_self_ok v h l HV Hm) as (v' & h' & -> & ? & ?). by exists (v', h').
  - destruct Hm as [Hi Hm]. unfold source, source_elems in *. destruct (lookup_lt_is_Some_2 sources i Hi) as [[w k] Hw]. rewrite Hw in *. cbn [mbind res_bind].
    destruct (vec_append_ok v w h l k HV (HS i w k Hw) Hm) as (v' & h' & -> & ? & ?). by exists (v', h').
  - destruct Hm as [Hi Hm]. unfold source, source_elems in *. destruct (lookup_lt_is_Some_2 sources i Hi) as [[w k] Hw]. rewrite Hw in *. cbn [mbind res_bind].
    destruct (vec_assign_ok v w h l k HV (HS i w k Hw) Hm) as (v' & h' & -> & ? & ?). by exists (v', h').
Qed.

(** C15: a vector does what the list of its elements does, whether its elements live in the built-in buffer or
    in allocated blocks, through growing, moving, popping at both ends and copying from other vectors; [size] is the length, no element is
    constructed where one lives already, only living ones are read and destroyed, none is alive in a block that is freed, and no other memory is touched or lost.
    [vec_resize_fn] gives at least the size it is asked for and [txmalloc] a block not in use; the vector is not popped when it is empty nor read past
    its end, sizes stay below [2 ^ 32], and the vectors copied from are others with blocks of their own. *)
Theorem vec_refines h0 ops : (forall d, def_basep = Some d -> h0 !! d = Some (replicate N None)) -> sources_at init h0 -> may_all spec_vop vop_may ops [] ->
  exists v h, run_all run_vop ops (init, h0) = Ok (v, h, (spec_all spec_vop ops []).2) /\
  let l := (spec_all spec_vop ops []).1 in
  vec_ok v h l /\ vec_size v = length l /\ frame init h0 v h.
Proof.
  intros Hd HS Hm. destruct (run_all_refines run_vop spec_vop vop_may (fun st l => vec_ok st.1 st.2 l /\ frame init h0 st.1 st.2)) with (ops := ops) (s := (init, h0)) (a := @nil A)
    as ([v h] & E & HV & HF).
  - intros op st l [HV HF] Hop. destruct (run_vop_ok op st l HV) as (st' & E & HV' & HF'); [by apply (sources_frame init h0)|done|].
    exists st'. split; [done|]. split; [done|]. by eapply frame_trans.
  - split; [by apply init_vec_ok|apply frame_refl].
  - done.
  - exists v, h. split; [done|]. cbv zeta. split; [done|]. split; [|done]. pose proof (v_len _ _ _ HV). cbn [fst snd] in *. unfold vec_size. lia.
Qed.
End Facts.

(** ** Blocks that double *)
#[export] Instance doubling : VecResize := fun nalloc nwanted _ => Z.max (2 * nalloc) nwanted.
#[export] Instance doubling_ok : VecResizeOk.
Proof. intros nalloc nwanted id. unfold vec_resize_fn, doubling. lia. Qed.

Definition new_block (D : gset nat) : nat := fresh D.
Lemma new_block_fresh D : new_block D ∉ D.
Proof. apply is_fresh. Qed.

(** A [vec<int, 2>] with its buffer at 0: it leaves the buffer, moves down in its block, copies from a vector at 7 and comes back. *)
Definition vec_run : list (vop (T := Z)) :=
  [VPush (Some 1); VPush (Some 2); VPush (Some 3); VPopFront; VPush (Some 4); VPush (Some 5); VPopFront; VPopFront; VPush (Some 6); VReverse; VGet 0; VSetsize 5; VPopBack;
   VAppend 0; VPopBack; VAssign 0; VClear; VPushDefault]%Z.
Definition nine_at_7 : list (vec * list (option Z)) := [(Vec (Some 7) 0 1 1, [Some 9%Z])].

Lemma vec_refines_witness : exists v h,
  run_all (run_vop None 0%Z new_block (Some 0) 2 nine_at_7) vec_run (init (Some 0) 2, {[0 := [None; None]; 7 := [Some (Some 9%Z)]]}) =
    Ok (v, h, [[]; []; []; [Some 1]; []; []; [Some 2]; [Some 3]; []; []; [Some 6]; []; [None]; []; [Some 9]; []; []; []]%Z) /\
    vec_size v = 1 /\ rest_at (Some 0) v h 7 = Some [Some (Some 9%Z)].
Proof.
  destruct (vec_refines None 0%Z new_block (Some 0) 2 new_block_fresh ltac:(done) nine_at_7 {[0 := [None; None]; 7 := [Some (Some 9%Z)]]} vec_run) as (v & h & E & HV & Hs & HF).
  - intros d [= <-]. done.
  - intros [|i] w k; [|done]. intros [= <- <-]. split; [done|]. split; [done|]. split; [vm_compute; reflexivity|done].
  - vm_compute. intuition (lia || discriminate).
  - exists v, h. split; [exact E|]. split; [rewrite Hs; vm_compute; reflexivity|]. rewrite (HF 7). vm_compute. reflexivity.
Defined.

Lemma push_back_own_dangles_witness :
  push_back (T := Z) 0%Z new_block None (by_reference (at_off (Vec (Some 1) 0 2 2) (0 + 1))) (Vec (Some 1) 0 2 2) {[1 := [Some (Some 5%Z); Some (Some 6%Z)]]} = Stop Dangling.
Proof.
  apply (push_back_own_dangles 0%Z new_block None 0 new_block_fresh ltac:(done) (Vec (Some 1) 0 2 2) _ [Some 5; Some 6]%Z 1); try (cbn; lia); [|done].
  split; cbn; [done|lia|done|done|done].
Defined.
