(* ===== verification/Ihash.v ===== *)
(** The intrusive hash table of src/deps/sfslite-1.2/ihash.h: an array of lists of PList.v, one per
    bucket.  [_ihash_grow], which makes the array larger, is not in the repository: it is the class
    [IhashGrow]. *)
From S2P Require Import Prelude PList.

(** * The table *)

(** [_ihash_table], with the links and hash values of the elements ([ihash_entry]). *)
Record table : Type := Table { buckets : Z; entries : Z; tab : pmem; vals : gmap nat Z }.

Definition with_entries (t : table) (n : Z) : table := Table (buckets t) n (tab t) (vals t).
Definition with_tab (t : table) (m : pmem) : table := Table (buckets t) (entries t) m (vals t).

(** [_ihash_grow (&t, offset, sz)]. *)
Class IhashGrow : Type := _grow : Z -> table -> res table.

(** [(elm->*field).val] and [(elm->*field).next]. *)
Definition val_of (t : table) (x : nat) : res Z := match vals t !! x with Some v => Ok v | None => Stop Uninit end.
Definition next_of (t : table) (x : nat) : res (option nat) := e ← load_ent (tab t) (Some x); Ok (next e).

(** [hval % t.buckets]. *)
Definition bucket (t : table) (hval : Z) : res nat :=
  if (buckets t =? 0)%Z then Stop DivByZero else Ok (Z.to_nat (hval mod buckets t)).

(** Going on along [nxt] to an element with [p]. *)
Definition skip_round (p : nat -> res bool) (nxt : nat -> res (option nat)) (e : option nat) : res (option nat + option nat) :=
  match e with
  | None => Ok (inr None)
  | Some x => b ← p x; if b : bool then Ok (inr e) else e ← nxt x; Ok (inl e)
  end.
Definition skip (fuel : nat) (p : nat -> res bool) (nxt : nat -> res (option nat)) (e : option nat) : res (option nat) :=
  loop fuel (skip_round p nxt) e.

Section core.
Context `{IhashGrow}.

Definition init (t : table) : res table := _grow 0 (Table 0 0 (PMem [] (ents (tab t))) (vals t)).

(** [elm] goes to the front of bucket [bn]. *)
Definition link_first (bn elm : nat) (m : pmem) : res pmem :=
  np ← root m bn;
  m ← relink m np (Some (NextOf elm));
  m ← set_next m elm np;
  m ← set_pprev m elm (Some (Root bn));
  put m (Some (Root bn)) (Some elm).

Definition insert_val (elm : nat) (hval : Z) (t : table) : res table :=
  let t := with_entries t (u64 (entries t + 1)) in
  t ← (if (buckets t <=? entries t)%Z then _grow 0 t else Ok t);
  load_ent (tab t) (Some elm);;
  let t := Table (buckets t) (entries t) (tab t) (<[elm := hval]> (vals t)) in
  bn ← bucket t hval;
  m ← link_first bn elm (tab t);
  Ok (with_tab t m).

Definition has_val (t : table) (hval : Z) (x : nat) : res bool := v ← val_of t x; Ok (v =? hval)%Z.

Definition lookup_val (fuel : nat) (hval : Z) (t : table) : res (option nat) :=
  bn ← bucket t hval;
  elm ← root (tab t) bn;
  skip fuel (has_val t hval) (next_of t) elm.

Definition next_val (fuel : nat) (elm : nat) (t : table) : res (option nat) :=
  hval ← val_of t elm;
  e ← next_of t elm;
  skip fuel (has_val t hval) (next_of t) e.

Definition present (fuel : nat) (elm : nat) (t : table) : res bool :=
  hval ← val_of t elm;
  e ← lookup_val fuel hval t;
  r ← skip fuel (fun e => Ok (bool_decide (e = elm))) (fun e => next_val fuel e t) e;
  Ok (bool_decide (r <> None)).

Definition ihash_size (t : table) : Z := entries t.
Definition constructed (t : table) : bool := (0 <? buckets t)%Z.
Definition has_room (t : table) : bool := (entries t <? buckets t)%Z.
(** The difference of the [size_t]s as an [ssize_t]. *)
Definition room (t : table) : Z := let d := u64 (buckets t - entries t) in if (d <? 2 ^ 63)%Z then d else (d - 2 ^ 64)%Z.

Definition reserve (sz : Z) (t : table) : res table := _grow sz t.
Definition grow (t : table) : res table := _grow 0 t.

Definition remove (elm : nat) (t : table) : res table :=
  let t := with_entries t (u64 (entries t - 1)) in
  e ← load_ent (tab t) (Some elm);
  m ← relink (tab t) (next e) (pprev e);
  e ← load_ent m (Some elm);
  m ← put m (pprev e) (next e);
  Ok (with_tab t m).

(** The first bucket from [i] on that is not empty. *)
Fixpoint first_from (m : pmem) (todo i : nat) : res (option nat) :=
  match todo with
  | O => Ok None
  | S todo => p ← root m i; match p with Some _ => Ok p | None => first_from m todo (S i) end
  end.
Definition first (t : table) : res (option nat) :=
  if (entries t =? 0)%Z then Ok None else first_from (tab t) (Z.to_nat (buckets t)) 0.
Definition next_elm (n : nat) (t : table) : res (option nat) :=
  e ← next_of t n;
  match e with
  | Some _ => Ok e
  | None => v ← val_of t n; i ← bucket t v; first_from (tab t) (Z.to_nat (buckets t) - S i) (S i)
  end.

Definition first_in_bucket (b : Z) (t : table) : res (option nat) :=
  if (b <? buckets t)%Z then root (tab t) (Z.to_nat b) else Ok None.
Definition next_in_bucket (n : nat) (t : table) : res (option nat) := next_of t n.

(** The callback may change the table and a state of its own; [fuel] bounds the elements of a bucket
    and the buckets that are added meanwhile. *)
Definition traverse_bucket {A} (fuel : nat) (cb : nat -> table * A -> res (table * A)) (s : nat * (table * A)) : res (nat * (table * A) + table * A) :=
  let '(i, st) := s in
  if (Z.of_nat i <? buckets st.1)%Z then
    n ← root (tab st.1) i;
    st ← loop fuel (traverse_round (fun (st : table * A) p => e ← load_ent (tab st.1) p; Ok (next e)) cb) (st, n);
    Ok (inl (S i, st))
  else Ok (inr st).
Definition traverse {A} (fuel : nat) (cb : nat -> table * A -> res (table * A)) (st : table * A) : res (table * A) :=
  loop (S (Z.to_nat (buckets st.1)) + fuel) (traverse_bucket fuel cb) (0, st).

Definition clear (t : table) : res table := init t.

(** [delete n]. *)
Definition drop_elm {A} (n : nat) (st : table * A) : res (table * A) :=
  let t := st.1 in
  load_ent (tab t) (Some n);;
  Ok (Table (buckets t) (entries t) (PMem (roots (tab t)) (delete n (ents (tab t)))) (delete n (vals t)), st.2).
Definition deleteall (fuel : nat) (t : table) : res table :=
  st ← traverse fuel drop_elm (t, tt);
  clear st.1.

(** The consistency check of a debugging build counts the elements. *)
Definition check_elm (i : nat) (n : nat) (st : table * Z) : res (table * Z) :=
  let t := st.1 in
  v ← val_of t n;
  b ← bucket t v;
  c_assert (i =? b);;
  ne ← next_of t n;
  c_assert (bool_decide (ne <> Some n));;
  Ok (t, u64 (st.2 + 1)).
Definition check_bucket (fuel : nat) (s : nat * (table * Z)) : res (nat * (table * Z) + table * Z) :=
  let '(i, st) := s in
  if (Z.of_nat i <? buckets st.1)%Z then
    n ← root (tab st.1) i;
    st ← loop fuel (traverse_round (fun (st : table * Z) p => e ← load_ent (tab st.1) p; Ok (next e)) (check_elm i)) (st, n);
    Ok (inl (S i, st))
  else Ok (inr st).
Definition _check (fuel : nat) (t : table) : res unit :=
  st ← loop (S (Z.to_nat (buckets t))) (check_bucket fuel) (0, (t, 0%Z));
  c_assert (st.2 =? entries t)%Z.

(** [ihash_iterator_t]: the element to come. *)
Definition it_next (_i : option nat) (t : table) : res (option nat * option nat) :=
  match _i with
  | Some x => n ← next_elm x t; Ok (_i, n)
  | None => Ok (None, None)
  end.
Definition it_collect (fuel : nat) (t : table) : res (list nat) :=
  _i ← first t;
  loop fuel (fun '(_i, l) => '(r, _i) ← it_next _i t; match r with Some x => Ok (inl (_i, l ++ [x])) | None => Ok (inr l) end) (_i, []).
End core.

(** * Tables by key *)
Section ihash.
Context `{IhashGrow} {K : Type} (key : nat -> K) (hash : K -> Z) (eq : K -> K -> bool).

Definition ihash_insert (elm : nat) (t : table) : res table := insert_val elm (hash (key elm)) t.

Definition ihash_lookup (fuel : nat) (k : K) (t : table) : res (option nat) :=
  v ← lookup_val fuel (hash k) t;
  skip fuel (fun v => Ok (eq k (key v))) (fun v => next_val fuel v t) v.

Definition nextkeq (fuel : nat) (v : nat) (t : table) : res (option nat) :=
  let k := key v in
  v ← next_val fuel v t;
  skip fuel (fun v => Ok (eq k (key v))) (fun v => next_val fuel v t) v.
End ihash.

(** [shash]: the element is its own key. *)
Section shash.
Context `{IhashGrow} {V : Type} (contents : nat -> V) (hash : V -> Z) (eq : V -> V -> bool).

Definition shash_insert : nat -> table -> res table := ihash_insert contents hash.
Definition shash_lookup : nat -> V -> table -> res (option nat) := ihash_lookup contents hash eq.
Definition shash_nextkeq : nat -> nat -> table -> res (option nat) := nextkeq contents eq.
End shash.

(** [fhash]: the key is computed from the element. *)
Section fhash.
Context `{IhashGrow} {K : Type} (keyfn : nat -> K) (hash : K -> Z) (eq : K -> K -> bool).

Definition fhash_insert : nat -> table -> res table := ihash_insert keyfn hash.
Definition fhash_lookup : nat -> K -> table -> res (option nat) := ihash_lookup keyfn hash eq.
Definition fhash_nextkeq : nat -> nat -> table -> res (option nat) := nextkeq keyfn eq.
End fhash.

(** [ihash2]: two keys.  [nextkeq] keeps the second key in a [K1]: converted there ([conv]) and, to be
    compared, back ([back]). *)
Section ihash2.
Context `{IhashGrow} {K1 K2 : Type} (key1 : nat -> K1) (key2 : nat -> K2) (hash : K1 -> K2 -> Z).
Context (eq1 : K1 -> K1 -> bool) (eq2 : K2 -> K2 -> bool) (conv : K2 -> K1) (back : K1 -> K2).

Definition ihash2_insert (elm : nat) (t : table) : res table := insert_val elm (hash (key1 elm) (key2 elm)) t.

Definition ihash2_lookup (fuel : nat) (k1 : K1) (k2 : K2) (t : table) : res (option nat) :=
  v ← lookup_val fuel (hash k1 k2) t;
  skip fuel (fun v => Ok (eq1 k1 (key1 v) && eq2 k2 (key2 v))) (fun v => next_val fuel v t) v.

Definition ihash2_nextkeq (fuel : nat) (v : nat) (t : table) : res (option nat) :=
  let k1 := key1 v in
  let k2 := conv (key2 v) in
  v ← next_val fuel v t;
  skip fuel (fun v => Ok (eq1 k1 (key1 v) && eq2 (back k2) (key2 v))) (fun v => next_val fuel v t) v.
End ihash2.

(** * Walking a list *)

(** [fst] and [nxt] lead through the elements of [L]. *)
Record enumerates (fst : res (option nat)) (nxt : nat -> res (option nat)) (L : list nat) : Prop := {
  en_first : fst = Ok (head L);
  en_next : forall L1 x L2, L = L1 ++ x :: L2 -> nxt x = Ok (head L2);
}.

Lemma skip_ok p nxt fst L (P : nat -> bool) fuel : enumerates fst nxt L -> (forall x, x ∈ L -> p x = Ok (P x)) -> length L < fuel ->
  forall L2 L1, L = L1 ++ L2 -> skip fuel p nxt (head L2) = Ok (head (filter P L2)).
Proof.
  intros HE HP Hf L2. assert (Hf2 : forall L1, L = L1 ++ L2 -> length L2 < fuel) by (intros L1 ->; rewrite length_app in Hf; lia).
  intros L1 EL. specialize (Hf2 L1 EL). clear Hf. revert L1 fuel EL Hf2. induction L2 as [|x L2 IH]; intros L1 fuel EL Hf; (destruct fuel as [|fuel]; [cbn in Hf; lia|]).
  { done. }
  unfold skip. rewrite loop_step. cbn [head skip_round]. rewrite HP by (rewrite EL; apply elem_of_app; right; by left). cbn [mbind res_bind].
  rewrite filter_cons. destruct (P x); [by rewrite decide_True|]. rewrite decide_False by (by intros []).
  rewrite (en_next _ _ _ HE L1 x L2 EL). cbn [mbind res_bind]. apply (IH (L1 ++ [x])); [by rewrite <- (assoc_L app)|cbn in Hf; lia].
Qed.

(** Splitting the elements with [P]. *)
Lemma filter_split (P : nat -> bool) L L1 x L2 : filter P L = L1 ++ x :: L2 ->
  exists M1 M2, L = M1 ++ x :: M2 /\ filter P M1 = L1 /\ filter P M2 = L2 /\ P x = true.
Proof.
  revert L1. induction L as [|y L IH]; intros L1 E; [by destruct L1|]. rewrite filter_cons in E. destruct (decide (P y)) as [Hy|Hy].
  - destruct L1 as [|z L1]; injection E as -> E.
    + exists [], L. split_and!; [done|done|done|]. by apply Is_true_eq_true.
    + destruct (IH _ E) as (M1 & M2 & -> & E1 & E2 & HP). exists (z :: M1), M2. split; [done|]. rewrite filter_cons_True by done. by rewrite E1.
  - destruct (IH _ E) as (M1 & M2 & -> & E1 & E2 & HP). exists (y :: M1), M2. split; [done|]. by rewrite filter_cons_False.
Qed.

(** Looking for an element with [P] among those that are led through leads through those with [P]. *)
Lemma enumerates_skip p nxt fst L (P : nat -> bool) fuel : enumerates fst nxt L -> (forall x, x ∈ L -> p x = Ok (P x)) -> length L < fuel ->
  enumerates (e ← fst; skip fuel p nxt e) (fun x => e ← nxt x; skip fuel p nxt e) (filter P L).
Proof.
  intros HE HP Hf. split.
  - rewrite (en_first _ _ _ HE). cbn [mbind res_bind]. by apply (skip_ok p nxt fst L P fuel HE HP Hf L []).
  - intros L1 x L2 (M1 & M2 & EL & _ & <- & _)%filter_split. rewrite (en_next _ _ _ HE M1 x M2 EL). cbn [mbind res_bind].
    apply (skip_ok p nxt fst L P fuel HE HP Hf M2 (M1 ++ [x])). by rewrite <- (assoc_L app).
Qed.

(** The two walks of a bucket and of the table are compared on the elements of the list only. *)
Lemma enumerates_ext fst fst' nxt nxt' L : fst = fst' -> (forall x, x ∈ L -> nxt x = nxt' x) -> enumerates fst nxt L -> enumerates fst' nxt' L.
Proof.
  intros <- Hn [E1 E2]. split; [done|]. intros L1 x L2 EL. rewrite <- Hn; [by apply (E2 L1)|]. rewrite EL. apply elem_of_app. right. by left.
Qed.

(** * What a table holds *)

(** [E] gives the hash values of the elements of the table; [ch] are its buckets. *)
Record chained (t : table) (ch : list (list nat)) (E : gmap nat Z) : Prop := {
  ch_lists : lists (tab t) ch;
  ch_len : buckets t = Z.of_nat (length ch);
  ch_in : forall i l x, ch !! i = Some l -> x ∈ l <-> exists v, E !! x = Some v /\ Z.of_nat i = (v mod buckets t)%Z;
  ch_vals : E ⊆ vals t;
  ch_empty : buckets t = 0%Z -> E = ∅;
}.

(** What [_ihash_grow] promises: more buckets with the same elements. *)
Class IhashGrowOk `{IhashGrow} : Prop :=
  grow_ok : forall sz t ch E, chained t ch E ->
    exists t' ch', _grow sz t = Ok t' /\ chained t' ch' E /\ (0 < buckets t')%Z /\ entries t' = entries t /\
      vals t' = vals t /\ dom (ents (tab t')) = dom (ents (tab t)).

(** A table with the elements of [E]. *)
Record ihash_ok (t : table) (ch : list (list nat)) (E : gmap nat Z) : Prop := {
  ih_chained : chained t ch E;
  ih_pos : (0 < buckets t)%Z;
  ih_entries : entries t = Z.of_nat (size E);
}.

Lemma chained_elements t ch E : chained t ch E -> forall x, x ∈ concat ch <-> is_Some (E !! x).
Proof.
  intros H x. split.
  - intros (i & l1 & l2 & Hi)%in_some_list. destruct (proj1 (ch_in _ _ _ H i _ x Hi)) as (v & -> & _); [|by eexists]. apply elem_of_app. right. by left.
  - intros [v Hv]. destruct (decide (buckets t = 0%Z)) as [E0|E0]; [by rewrite (ch_empty _ _ _ H E0) in Hv|].
    pose proof (ch_len _ _ _ H) as Hlen. pose proof (Z.mod_pos_bound v (buckets t)) as Hb.
    destruct (lookup_lt_is_Some_2 ch (Z.to_nat (v mod buckets t))) as [l Hl]; [lia|].
    rewrite (concat_delete _ _ _ Hl). apply elem_of_app. left. apply (ch_in _ _ _ H _ _ _ Hl). exists v. split; [done|]. lia.
Qed.

Lemma ihash_count t ch E : chained t ch E -> length (concat ch) = size E.
Proof.
  intros H. rewrite <- (size_dom E), <- (size_list_to_set (C := gset nat)) by apply (ls_nodup _ _ (ch_lists _ _ _ H)). f_equal.
  apply set_eq. intros x. rewrite elem_of_list_to_set, elem_of_dom. by apply (chained_elements t).
Qed.

Lemma ihash_in_memory t ch E x : chained t ch E -> is_Some (E !! x) -> is_Some (ents (tab t) !! x).
Proof.
  intros H Hx. apply (chained_elements _ _ _ H) in Hx. apply in_some_list in Hx as (i & l1 & l2 & Hi).
  apply (seg_in _ _ _ x (ls_segs _ _ (ch_lists _ _ _ H) _ _ Hi)). apply elem_of_app. right. by left.
Qed.

Lemma val_of_ok t ch E x v : chained t ch E -> E !! x = Some v -> val_of t x = Ok v.
Proof. intros H Hx. unfold val_of. by rewrite (lookup_weaken _ _ _ _ Hx (ch_vals _ _ _ H)). Qed.

Lemma bucket_ok t hval : (0 < buckets t)%Z -> bucket t hval = Ok (Z.to_nat (hval mod buckets t)).
Proof. intros H. unfold bucket. by rewrite (proj2 (Z.eqb_neq _ _)) by lia. Qed.

Lemma bucket_list t ch E hval : chained t ch E -> (0 < buckets t)%Z -> exists l, ch !! Z.to_nat (hval mod buckets t) = Some l.
Proof.
  intros H Hb. pose proof (Z.mod_pos_bound hval (buckets t) Hb). pose proof (ch_len _ _ _ H). apply lookup_lt_is_Some_2. lia.
Qed.

Lemma next_of_ok t ch i l1 x l2 : lists (tab t) ch -> ch !! i = Some (l1 ++ x :: l2) -> next_of t x = Ok (head l2).
Proof.
  intros H Hi. unfold next_of. pose proof (ls_segs _ _ H _ _ Hi) as Hs. apply seg_app in Hs as [Hx _]. by rewrite (load_ent_ok _ _ _ Hx).
Qed.

Lemma enumerates_bucket t ch i l : lists (tab t) ch -> ch !! i = Some l -> enumerates (root (tab t) i) (next_of t) l.
Proof. intros H Hi. split; [by apply (root_ok _ ch)|]. intros L1 x L2 ->. by apply (next_of_ok t ch i L1). Qed.

(** The elements with one hash value. *)
Lemma enumerates_val t ch E hval fuel : chained t ch E -> (0 < buckets t)%Z -> size (dom (ents (tab t))) < fuel ->
  exists L, NoDup L /\ (forall x, x ∈ L <-> E !! x = Some hval) /\ length L < fuel /\
    enumerates (lookup_val fuel hval t) (fun x => next_val fuel x t) L.
Proof.
  intros H Hb Hf. destruct (bucket_list t ch E hval H Hb) as [l Hl]. pose proof (ch_lists _ _ _ H) as HL.
  pose proof (lists_length _ _ _ _ HL Hl) as Hlen. set (P x := bool_decide (E !! x = Some hval)).
  assert (NDl : NoDup l). { pose proof (ls_nodup _ _ HL) as ND. rewrite (concat_delete _ _ _ Hl) in ND. apply (proj1 (NoDup_app _ _) ND). }
  assert (HP : forall x, x ∈ l -> has_val t hval x = Ok (P x)).
  { intros x Hx. apply (ch_in _ _ _ H _ _ _ Hl) in Hx as (v & Hv & _). unfold has_val. rewrite (val_of_ok _ _ _ _ _ H Hv). cbn. f_equal.
    unfold P. rewrite Hv. destruct (Z.eqb_spec v hval) as [->|Hne]; [by rewrite bool_decide_eq_true_2|]. rewrite bool_decide_eq_false_2; [done|congruence]. }
  assert (HM : forall x, x ∈ filter P l <-> E !! x = Some hval).
  { intros x. rewrite list_elem_of_filter. unfold P. rewrite bool_decide_spec. split; [tauto|]. intros Hx. split; [done|].
    apply (ch_in _ _ _ H _ _ _ Hl). exists hval. split; [done|]. pose proof (Z.mod_pos_bound hval (buckets t) Hb). lia. }
  exists (filter P l). split_and!; [by apply NoDup_filter|done|pose proof (length_filter P l); lia|].
  eapply enumerates_ext; [| |apply (enumerates_skip _ _ _ l P fuel (enumerates_bucket t ch _ l HL Hl) HP); lia].
  - unfold lookup_val. by rewrite bucket_ok.
  - intros x Hx%HM. cbv beta. unfold next_val. by rewrite (val_of_ok _ _ _ _ _ H Hx).
Qed.

Lemma present_ok t ch E x fuel : chained t ch E -> (0 < buckets t)%Z -> size (dom (ents (tab t))) < fuel ->
  forall v, vals t !! x = Some v -> present fuel x t = Ok (bool_decide (E !! x = Some v)).
Proof.
  intros H Hb Hf v Hv. unfold present. unfold val_of. rewrite Hv. cbn [mbind res_bind].
  destruct (enumerates_val t ch E v fuel H Hb Hf) as (L & ND & HM & Hlen & HE). rewrite (en_first _ _ _ HE). cbn [mbind res_bind].
  rewrite (skip_ok _ _ _ L (fun e => bool_decide (e = x)) fuel HE) with (L1 := []); [|done|done|done]. cbn [mbind res_bind]. f_equal.
  destruct (decide (E !! x = Some v)) as [Hx|Hx].
  - rewrite (bool_decide_eq_true_2 (E !! x = Some v)) by done. apply bool_decide_eq_true_2. apply HM in Hx.
    assert (Hin : x ∈ filter (fun e => bool_decide (e = x)) L) by (apply list_elem_of_filter; by rewrite bool_decide_spec).
    destruct (filter _ L); [by apply not_elem_of_nil in Hin|done].
  - rewrite (bool_decide_eq_false_2 (E !! x = Some v)) by done. apply bool_decide_eq_false_2. intros Hn. apply Hn.
    destruct (filter (fun e => bool_decide (e = x)) L) as [|y k] eqn:Ef; [done|]. exfalso. assert (Hin : y ∈ y :: k) by by left.
    rewrite <- Ef in Hin. apply list_elem_of_filter in Hin as [Hy Hin]. rewrite bool_decide_spec in Hy. subst y. by apply Hx, HM.
Qed.

(** ** Walking the whole table *)
Lemma first_from_ok t ch : lists (tab t) ch -> forall todo i, i + todo = length ch ->
  first_from (tab t) todo i = Ok (head (concat (drop i ch))).
Proof.
  intros H. induction todo as [|todo IH]; intros i Hi; cbn [first_from].
  - by rewrite drop_ge by lia.
  - destruct (lookup_lt_is_Some_2 ch i) as [l Hl]; [lia|]. rewrite (root_ok _ ch i l H Hl). cbn [mbind res_bind].
    rewrite (drop_S _ _ _ Hl). cbn [concat]. destruct l as [|x l]; [|done]. cbn [head app]. apply IH. lia.
Qed.

(** What a traversal has seen before it comes to [x]. *)
Lemma not_visited (ch : list (list nat)) i v x r : NoDup (concat ch) -> ch !! i = Some (v ++ x :: r) -> x ∉ concat (take i ch) ++ v.
Proof.
  intros ND Hi. rewrite <- (take_drop_middle _ _ _ Hi), concat_app in ND. cbn in ND. rewrite <- (assoc_L app), (assoc_L app) in ND. cbn in ND.
  apply NoDup_app in ND as (_ & Hd & _). intros Hin. apply (Hd x Hin). by left.
Qed.

(** Where an element is among all. *)
Lemma concat_at (ch : list (list nat)) i l1 x l2 L1 L2 : NoDup (concat ch) -> ch !! i = Some (l1 ++ x :: l2) ->
  concat ch = L1 ++ x :: L2 -> L2 = l2 ++ concat (drop (S i) ch).
Proof.
  intros ND Hi E. assert (E' : concat ch = (concat (take i ch) ++ l1) ++ x :: (l2 ++ concat (drop (S i) ch))).
  { rewrite <- (take_drop_middle _ _ _ Hi) at 1. rewrite concat_app. cbn. by rewrite <- !(assoc_L app). }
  rewrite E in ND, E'. assert (Hx : forall k1 k2, L1 ++ x :: L2 = k1 ++ x :: k2 -> x ∉ L1 -> x ∉ k1 -> L2 = k2).
  { clear. induction L1 as [|y L1 IH]; intros [|z k1] k2 E H1 H2; [by injection E|injection E as <- _; destruct H2; by left|injection E as -> _; destruct H1; by left|].
    injection E as -> E. apply not_elem_of_cons in H1 as [_ H1], H2 as [_ H2]. by apply (IH k1). }
  pose proof ND as ND'. rewrite E' in ND'. apply (Hx _ _ E'); [apply NoDup_app in ND as (_ & Hd & _)|apply NoDup_app in ND' as (_ & Hd & _)];
    intros Hin; apply (Hd x Hin); by left.
Qed.

Lemma enumerates_all t ch E : ihash_ok t ch E -> enumerates (first t) (fun x => next_elm x t) (concat ch).
Proof.
  intros [H Hb Hn]. pose proof (ch_lists _ _ _ H) as HL. pose proof (ch_len _ _ _ H) as Hlen. split.
  - unfold first. destruct (Z.eqb_spec (entries t) 0) as [E0|E0].
    + assert (El : length (concat ch) = 0) by (rewrite (ihash_count t ch E H); lia). by apply length_zero_iff_nil in El as ->.
    + apply (first_from_ok t ch HL). lia.
  - intros L1 x L2 EL. assert (Hx : x ∈ concat ch) by (rewrite EL; apply elem_of_app; right; by left).
    apply in_some_list in Hx as (i & l1 & l2 & Hi). rewrite (concat_at ch i l1 x l2 L1 L2 (ls_nodup _ _ HL) Hi EL).
    unfold next_elm. rewrite (next_of_ok t ch i l1 x l2 HL Hi). cbn [mbind res_bind]. destruct l2 as [|y l2]; [|done]. cbn [head app].
    destruct (proj1 (ch_in _ _ _ H i _ x Hi)) as (v & Hv & Ei); [apply elem_of_app; right; by left|].
    rewrite (val_of_ok _ _ _ _ _ H Hv). cbn [mbind res_bind]. rewrite bucket_ok by done. cbn [mbind res_bind].
    rewrite <- Ei, Nat2Z.id. apply (first_from_ok t ch HL). apply lookup_lt_Some in Hi. lia.
Qed.

(** A loop that collects what [f] says of the elements. *)
Lemma collect_loop {A} (f : nat -> option A) (body : option nat * list A -> res (option nat * list A + list A)) L fuel :
  (forall acc, body (None, acc) = Ok (inr acc)) ->
  (forall L1 x L2 acc, L = L1 ++ x :: L2 -> exists a, f x = Some a /\ body (Some x, acc) = Ok (inl (head L2, acc ++ [a]))) ->
  length L < fuel -> loop fuel body (head L, []) = Ok (omap f L).
Proof.
  intros Hend Hstep Hf. assert (Hl : forall L2 L1 acc fuel, L = L1 ++ L2 -> length L2 < fuel -> loop fuel body (head L2, acc) = Ok (acc ++ omap f L2)); [|by apply (Hl L [] [])].
  clear Hf fuel. induction L2 as [|x L2 IH]; intros L1 acc fuel EL Hf; (destruct fuel as [|fuel]; [cbn in Hf; lia|]); rewrite loop_step; cbn [head].
  - rewrite Hend. cbn. by rewrite app_nil_r.
  - destruct (Hstep L1 x L2 acc EL) as (a & Ha & ->). rewrite (IH (L1 ++ [x])); [|by rewrite <- (assoc_L app)|cbn in Hf; lia].
    cbn. rewrite Ha. by rewrite <- (assoc_L app).
Qed.

Lemma it_collect_ok t L fuel : enumerates (first t) (fun x => next_elm x t) L -> length L < fuel -> it_collect fuel t = Ok L.
Proof.
  intros HE Hf. unfold it_collect. rewrite (en_first _ _ _ HE). cbn [mbind res_bind]. rewrite (collect_loop Some _ L); [| |intros L1 x L2 acc EL|done].
  - f_equal. clear. induction L as [|x L IH]; [done|]. cbn. by rewrite IH.
  - done.
  - exists x. split; [done|]. cbn [it_next]. by rewrite (en_next _ _ _ HE L1 x L2 EL).
Qed.

(** A traversal whose callback keeps what is still to come: [J i v r st] when the buckets before [i] and
    the part [v] of bucket [i] have been visited and [r] is the rest of it. *)
Lemma traverse_ok {A} (cb : nat -> table * A -> res (table * A)) (J : nat -> list nat -> list nat -> table * A -> Prop) ch fuel st :
  (forall i l v x r st, ch !! i = Some l -> l = v ++ x :: r -> J i v (x :: r) st ->
     next_of st.1 x = Ok (head r) /\ exists st', cb x st = Ok st' /\ J i (v ++ [x]) r st') ->
  (forall i l st, ch !! i = Some l -> J i l [] st -> J (S i) [] (default [] (ch !! S i)) st) ->
  (forall i v r st, J i v r st -> buckets st.1 = Z.of_nat (length ch)) ->
  (forall i l st, ch !! i = Some l -> J i [] l st -> root (tab st.1) i = Ok (head l)) ->
  (forall i l, ch !! i = Some l -> length l < fuel) -> J 0 [] (default [] (ch !! 0)) st ->
  exists st', traverse fuel cb st = Ok st' /\ J (length ch) [] [] st'.
Proof.
  intros Hcb Hend Hb Hr Hl HJ. unfold traverse.
  destruct (loop_total (fun s : nat * (table * A) => s.1 <= length ch /\ J s.1 [] (default [] (ch !! s.1)) s.2) (fun st' => J (length ch) [] [] st')
    (fun s => length ch - s.1) (traverse_bucket fuel cb)) with (fuel := S (Z.to_nat (buckets st.1)) + fuel) (s := (0, st)) as (st' & E & HQ).
  - intros [i s] [Hi HJi]. cbn [fst snd] in *. destruct (decide (i = length ch)) as [->|Hne]; [right|left].
    + exists s. split; [|by rewrite lookup_ge_None_2 in HJi]. unfold traverse_bucket. rewrite (Hb _ _ _ _ HJi), Z.ltb_irrefl. done.
    + destruct (lookup_lt_is_Some_2 ch i) as [l El]; [lia|]. rewrite El in HJi. cbn [default] in HJi. unfold id in HJi.
      unfold traverse_bucket. rewrite (Hb _ _ _ _ HJi), (proj2 (Z.ltb_lt _ _)) by lia. rewrite (Hr _ _ _ El HJi). cbn [mbind res_bind].
      destruct (traverse_loop (fun (st : table * A) p => e ← load_ent (tab st.1) p; Ok (next e)) cb (fun v r st => l = v ++ r /\ J i v r st))
        with (r := l) (v := @nil nat) (st := s) (fuel := fuel) as (s' & -> & _ & HJ').
      * intros v x r s0 [E0 HJ0]. destruct (Hcb i l v x r s0 El E0 HJ0) as (Hn & s1 & E1 & HJ1). unfold next_of in Hn. split; [done|].
        exists s1. split; [done|]. split; [by rewrite <- (assoc_L app)|done].
      * done.
      * by apply (Hl i).
      * cbn [mbind res_bind]. exists (S i, s'). split; [done|]. cbn [fst snd]. split; [|lia]. split; [lia|]. by apply (Hend i l).
  - cbn. split; [lia|done].
  - rewrite (Hb _ _ _ _ HJ). cbn. lia.
  - by exists st'.
Qed.

(** A traversal that leaves the table alone. *)
Lemma traverse_notes t ch E fuel : chained t ch E -> size (dom (ents (tab t))) < fuel ->
  traverse fuel note (t, []) = Ok (t, concat ch).
Proof.
  intros H Hf. pose proof (ch_lists _ _ _ H) as HL.
  destruct (traverse_ok note (fun i v r st => st = (t, concat (take i ch) ++ v)) ch fuel (t, [])) as (st' & -> & ->); try done.
  - intros i l v x r st Hi -> ->. cbn [fst]. rewrite (next_of_ok t ch i v x r HL Hi). split; [done|]. eexists. split; [done|].
    unfold note. cbn [fst snd]. by rewrite (assoc_L app).
  - intros i l st Hi ->. rewrite (take_S_r _ _ _ Hi), concat_app. cbn. by rewrite !app_nil_r.
  - intros i v r st ->. apply (ch_len _ _ _ H).
  - intros i l st Hi ->. cbn [fst]. by apply (root_ok _ ch).
  - intros i l Hi. pose proof (lists_length _ _ _ _ HL Hi). lia.
  - by rewrite firstn_all, app_nil_r.
Qed.

(** The check of a debugging build counts one element and does not abort. *)
Lemma check_elm_ok t ch E i v x r : ihash_ok t ch E -> (Z.of_nat (size E) <= SIZE_MAX)%Z -> ch !! i = Some (v ++ x :: r) ->
  check_elm i x (t, Z.of_nat (length (concat (take i ch)) + length v)) = Ok (t, Z.of_nat (length (concat (take i ch)) + length (v ++ [x]))).
Proof.
  intros [H Hb Hn] Hmax El. pose proof (ch_lists _ _ _ H) as HL. unfold check_elm. cbn [fst snd].
  destruct (proj1 (ch_in _ _ _ H i _ x El)) as (w & Hw & Ei); [apply elem_of_app; right; by left|].
  rewrite (val_of_ok _ _ _ _ _ H Hw). cbn [mbind res_bind]. rewrite bucket_ok by done. cbn [mbind res_bind]. rewrite <- Ei, Nat2Z.id, Nat.eqb_refl.
  cbn [c_assert mbind res_bind]. rewrite (next_of_ok t ch i v x r HL El). cbn [mbind res_bind]. rewrite bool_decide_eq_true_2.
  - cbn [c_assert mbind res_bind]. do 2 f_equal. rewrite length_app. cbn [length]. unfold u64. rewrite Z.mod_small; [lia|]. split; [lia|].
    rewrite <- (ihash_count t ch E H) in Hmax. unfold SIZE_MAX in Hmax. assert (Hle : length (concat (take i ch)) + length v + 1 <= length (concat ch)).
    { rewrite <- (take_drop_middle _ _ _ El) at 2. rewrite concat_app. cbn. rewrite !length_app. cbn. lia. }
    change (2 ^ 64)%Z with 18446744073709551616%Z. lia.
  - pose proof (ls_nodup _ _ HL) as ND. rewrite (concat_delete _ _ _ El) in ND. apply NoDup_app in ND as (ND & _ & _).
    apply NoDup_app in ND as (_ & _ & [Hxr _]%NoDup_cons). destruct r as [|y r]; [done|]. intros [= ->]. apply Hxr. by left.
Qed.

(** The whole check. *)
Lemma check_ok t ch E fuel : ihash_ok t ch E -> size (dom (ents (tab t))) < fuel -> (Z.of_nat (size E) <= SIZE_MAX)%Z ->
  _check fuel t = Ok tt.
Proof.
  intros HI Hf Hmax. pose proof HI as [H Hb Hn]. pose proof (ch_lists _ _ _ H) as HL. pose proof (ch_len _ _ _ H) as Hlen.
  pose proof (ihash_count t ch E H) as Hcount. unfold _check.
  assert (Hl : forall i l, ch !! i = Some l -> length l < fuel) by (intros i l Hi; pose proof (lists_length _ _ _ _ HL Hi); lia).
  set (c i (v : list nat) := Z.of_nat (length (concat (take i ch)) + length v)).
  destruct (loop_total (fun s : nat * (table * Z) => s.1 <= length ch /\ s.2 = (t, c s.1 [])) (fun st => st = (t, Z.of_nat (length (concat ch))))
    (fun s => length ch - s.1) (check_bucket fuel)) with (fuel := S (Z.to_nat (buckets t))) (s := (0, (t, 0%Z))) as (st & -> & ->).
  - intros [i s] [Hi Es]. cbn [fst snd] in *. subst s. unfold check_bucket. cbn [fst]. rewrite Hlen. destruct (decide (i = length ch)) as [->|Hne]; [right|left].
    + eexists. rewrite Z.ltb_irrefl. split; [done|]. unfold c. rewrite firstn_all. cbn [length]. by rewrite Nat.add_0_r.
    + destruct (lookup_lt_is_Some_2 ch i) as [l El]; [lia|]. rewrite (proj2 (Z.ltb_lt _ _)) by lia. rewrite (root_ok _ ch i l HL El). cbn [mbind res_bind].
      destruct (traverse_loop (fun (st : table * Z) p => e ← load_ent (tab st.1) p; Ok (next e)) (check_elm i) (fun v r st => l = v ++ r /\ st = (t, c i v)))
        with (r := l) (v := @nil nat) (st := (t, c i [])) (fuel := fuel) as (s' & -> & -> & ->).
      * intros v x r s0 [E0 ->]. cbn [fst]. subst l. split; [by apply (next_of_ok t ch i v x r)|].
        eexists. split; [by apply (check_elm_ok t ch E i v x r)|]. split; [by rewrite <- (assoc_L app)|done].
      * done.
      * by apply (Hl i).
      * cbn [mbind res_bind]. eexists. split; [done|]. cbn [fst snd]. split; [|lia]. split; [lia|]. f_equal. unfold c.
        rewrite (take_S_r _ _ _ El), concat_app, length_app. cbn. rewrite !app_nil_r, length_app. lia.
  - cbn. split; [lia|done].
  - cbn. lia.
  - cbn [mbind res_bind snd]. rewrite Hn, Hcount, Z.eqb_refl. done.
Qed.

(** ** Changing the table *)
Lemma link_first_ok m ch i l x : lists m ch -> ch !! i = Some l -> x ∉ concat ch -> is_Some (ents m !! x) ->
  link_first i x m = Ok (PMem (<[i := Some x]> (roots m)) (pushed (ents m) i x l)).
Proof.
  intros H Hi Hx [e He]. unfold link_first. rewrite (root_ok m ch i l H Hi). cbn [mbind res_bind]. pose proof (roots_lt _ _ _ _ H Hi) as Hr. pose proof (ls_segs _ _ H _ _ Hi) as Hs.
  rewrite (relink_head_ok _ _ _ _ Hs). cbn [mbind res_bind].
  assert (Hxl : x ∉ l) by (intros Hin; apply Hx; by apply (lists_in m ch i l)).
  assert (Ex : (match l with [] => ents m | f :: k => <[f := PEnt (head k) (Some (NextOf x))]> (ents m) end) !! x = Some e).
  { destruct l as [|f k]; [done|]. apply not_elem_of_cons in Hxl as [Hne _]. by rewrite lookup_insert_ne. }
  rewrite (set_next_ok (PMem _ _) _ _ _ Ex). cbn [mbind res_bind]. erewrite set_pprev_ok by (cbn; by rewrite lookup_insert_eq).
  cbn [mbind res_bind]. rewrite put_root_ok by done. unfold with_ent. cbn [roots ents next]. do 2 f_equal. rewrite insert_insert_eq. by destruct l.
Qed.

Lemma pushed_dom m ch i l x : lists m ch -> ch !! i = Some l -> is_Some (ents m !! x) -> dom (pushed (ents m) i x l) = dom (ents m).
Proof.
  intros H Hi Hx. unfold pushed. rewrite dom_insert_L. destruct l as [|f k].
  - apply elem_of_dom in Hx. set_solver.
  - rewrite dom_insert_L. assert (Hf : f ∈ dom (ents m)). { apply elem_of_dom, (seg_in _ _ _ f (ls_segs _ _ H _ _ Hi)). by left. }
    apply elem_of_dom in Hx. set_solver.
Qed.

Lemma chained_vals t ch E x h : chained t ch E -> E !! x = None -> chained (Table (buckets t) (entries t) (tab t) (<[x := h]> (vals t))) ch E.
Proof. intros [HL Hlen Hin Hv He] Hx. split; [done..| |done]. cbn. by apply insert_subseteq_r. Qed.

Lemma insert_chained t ch E i l x h m : chained t ch E -> (0 < buckets t)%Z -> ch !! i = Some l -> Z.of_nat i = (h mod buckets t)%Z ->
  E !! x = None -> lists m (<[i := x :: l]> ch) ->
  chained (Table (buckets t) (entries t) m (<[x := h]> (vals t))) (<[i := x :: l]> ch) (<[x := h]> E).
Proof.
  intros H Hb Hi Eh Hx HL. assert (Hc : x ∉ concat ch) by (intros Hin%(chained_elements _ _ _ H); rewrite Hx in Hin; by destruct Hin).
  split; cbn [buckets tab vals].
  - done.
  - rewrite length_insert. apply (ch_len _ _ _ H).
  - intros j l' y Hj. apply list_lookup_insert_Some in Hj as [(<- & <- & _)|[Hne Hj]].
    + rewrite elem_of_cons, (ch_in _ _ _ H i l y Hi). destruct (decide (y = x)) as [->|Hyx].
      * rewrite lookup_insert_eq. split; [by exists h|by left].
      * rewrite lookup_insert_ne by done. split; [by intros [?|?]|by right].
    + rewrite (ch_in _ _ _ H j l' y Hj). destruct (decide (y = x)) as [->|Hyx].
      * rewrite lookup_insert_eq. split; [intros (v & Hv & _); congruence|]. intros (v & [= <-] & Ev). destruct Hne. lia.
      * by rewrite lookup_insert_ne.
  - apply insert_mono, (ch_vals _ _ _ H).
  - lia.
Qed.

Lemma remove_chained t ch E i l1 x l2 m : chained t ch E -> ch !! i = Some (l1 ++ x :: l2) ->
  lists m (<[i := l1 ++ l2]> ch) -> chained (Table (buckets t) (entries t) m (vals t)) (<[i := l1 ++ l2]> ch) (delete x E).
Proof.
  intros H Hi HL. split; cbn [buckets tab vals].
  - done.
  - rewrite length_insert. apply (ch_len _ _ _ H).
  - intros j l' y Hj. apply list_lookup_insert_Some in Hj as [(<- & <- & _)|[Hne Hj]].
    + pose proof (ls_nodup _ _ (ch_lists _ _ _ H)) as ND. rewrite (concat_delete _ _ _ Hi) in ND. apply NoDup_app in ND as (ND & _ & _).
      apply NoDup_app in ND as (_ & Hd & [Hx2 _]%NoDup_cons). destruct (decide (y = x)) as [->|Hyx].
      * rewrite lookup_delete_eq. split; [|by intros (v & ? & _)]. intros [Hin|Hin]%elem_of_app; [|done]. destruct (Hd x Hin). by left.
      * rewrite lookup_delete_ne by done. rewrite <- (ch_in _ _ _ H i _ y Hi), !elem_of_app, elem_of_cons. tauto.
    + rewrite (ch_in _ _ _ H j l' y Hj). destruct (decide (y = x)) as [->|Hyx]; [|by rewrite lookup_delete_ne].
      rewrite lookup_delete_eq. split; [|by intros (v & ? & _)]. intros Hin. apply (ch_in _ _ _ H j l' x Hj) in Hin.
      exfalso. apply (lists_other _ ch i j _ l' x (ch_lists _ _ _ H) Hi Hj); [done| |done]. apply elem_of_app. right. by left.
  - etrans; [apply delete_subseteq|apply (ch_vals _ _ _ H)].
  - intros E0. by rewrite (ch_empty _ _ _ H E0).
Qed.

Section Ops.
Context `{IhashGrowOk}.

Lemma init_ok t : exists t' ch', init t = Ok t' /\ ihash_ok t' ch' ∅ /\ dom (ents (tab t')) = dom (ents (tab t)).
Proof.
  destruct (grow_ok 0 (Table 0 0 (PMem [] (ents (tab t))) (vals t)) [] ∅) as (t' & ch' & E & HC & Hb & Hn & _ & Hd).
  { split; cbn; [|done|done|apply map_empty_subseteq|done]. split; cbn; [done|done|constructor]. }
  exists t', ch'. split; [done|]. split; [|done]. by split.
Qed.

Lemma insert_val_ok t ch E x hval : ihash_ok t ch E -> E !! x = None -> is_Some (ents (tab t) !! x) -> (Z.of_nat (size E) < SIZE_MAX)%Z ->
  exists t' ch', insert_val x hval t = Ok t' /\ ihash_ok t' ch' (<[x := hval]> E) /\ dom (ents (tab t')) = dom (ents (tab t)).
Proof.
  intros [HC Hb Hn] Hx Hm Hmax. set (t1 := with_entries t (u64 (entries t + 1))).
  assert (HC1 : chained t1 ch E) by (by destruct HC).
  assert (Hg : exists t2 ch2, (if (buckets t1 <=? entries t1)%Z then _grow 0 t1 else Ok t1) = Ok t2 /\ chained t2 ch2 E /\
    (0 < buckets t2)%Z /\ entries t2 = entries t1 /\ dom (ents (tab t2)) = dom (ents (tab t))).
  { destruct (buckets t1 <=? entries t1)%Z; [|by exists t1, ch]. destruct (grow_ok 0 t1 ch E HC1) as (t2 & ch2 & E2 & ? & ? & ? & _ & ?). by exists t2, ch2. }
  destruct Hg as (t2 & ch2 & Eg & HC2 & Hb2 & Hn2 & Hd2). destruct (bucket_list t2 ch2 E hval HC2 Hb2) as [l Hl].
  assert (Hx2 : is_Some (ents (tab t2) !! x)) by (apply elem_of_dom; rewrite Hd2; by apply elem_of_dom).
  assert (Hc : x ∉ concat ch2) by (intros Hin%(chained_elements _ _ _ HC2); rewrite Hx in Hin; by destruct Hin).
  pose proof (ch_lists _ _ _ HC2) as HL2. eexists _, _. split; [|split].
  - unfold insert_val. fold t1. rewrite Eg. cbn [mbind res_bind]. destruct Hx2 as [e He]. rewrite (load_ent_ok _ _ _ He). cbn [mbind res_bind].
    rewrite bucket_ok by done. cbn [mbind res_bind buckets tab]. by rewrite (link_first_ok _ _ _ l x HL2 Hl Hc (mk_is_Some _ _ He)).
  - unfold with_tab. cbn [buckets entries vals]. split; [|done|].
    + apply (insert_chained t2); [done|done|done| |done|by apply pushed_lists]. pose proof (Z.mod_pos_bound hval (buckets t2) Hb2). lia.
    + cbn. rewrite Hn2. cbn. rewrite map_size_insert_None by done. rewrite Hn. unfold u64, SIZE_MAX in *. rewrite Z.mod_small; lia.
  - cbn. rewrite <- Hd2. by apply (pushed_dom (tab t2) ch2).
Qed.

(** Removing the element [x] of bucket [i]. *)
Lemma ihash_remove_at t ch E i l1 x l2 : ihash_ok t ch E -> ch !! i = Some (l1 ++ x :: l2) -> (Z.of_nat (size E) <= SIZE_MAX)%Z ->
  exists t', remove x t = Ok t' /\ ihash_ok t' (<[i := l1 ++ l2]> ch) (delete x E) /\ dom (ents (tab t')) = dom (ents (tab t)).
Proof.
  intros [HC Hb Hn] Hi Hmax. destruct (proj1 (ch_in _ _ _ HC i _ x Hi)) as (v & Hv & _); [apply elem_of_app; right; by left|].
  pose proof (ch_lists _ _ _ HC) as HL. destruct (list_remove_ok _ _ _ _ _ _ HL Hi) as (m & Er & HL' & _).
  assert (Hd : dom (ents m) = dom (ents (tab t))) by (apply (run_lop_dom 0 (LRemove x) (tab t) m []); [unfold run_lop; by rewrite Er|done]).
  eexists. split; [|split].
  - unfold remove. unfold PList.remove in Er. apply bind_Ok_inv in Er as (e & E1 & (m1 & E2 & (e1 & E3 & E4)%bind_Ok_inv)%bind_Ok_inv).
    cbn [tab with_entries]. rewrite E1. cbn [mbind res_bind]. rewrite E2. cbn [mbind res_bind]. rewrite E3. cbn [mbind res_bind]. rewrite E4. reflexivity.
  - unfold with_tab. cbn [buckets entries vals with_entries]. split; [|done|].
    + by apply (remove_chained (with_entries t (u64 (entries t - 1)))); [destruct HC|..].
    + cbn. rewrite (map_size_delete_Some x E) by (by rewrite Hv). assert (size E <> 0) by (intros E0%map_size_empty_iff; by rewrite E0 in Hv).
      rewrite Hn. unfold u64, SIZE_MAX in *. rewrite Z.mod_small; lia.
  - done.
Qed.

Lemma ihash_remove_ok t ch E x : ihash_ok t ch E -> is_Some (E !! x) -> (Z.of_nat (size E) <= SIZE_MAX)%Z ->
  exists t' ch', remove x t = Ok t' /\ ihash_ok t' ch' (delete x E) /\ dom (ents (tab t')) = dom (ents (tab t)).
Proof.
  intros HI Hx Hmax. apply (chained_elements _ _ _ (ih_chained _ _ _ HI)) in Hx. apply in_some_list in Hx as (i & l1 & l2 & Hi).
  destruct (ihash_remove_at t ch E i l1 x l2 HI Hi Hmax) as (t' & ? & ? & ?). by exists t', (<[i := l1 ++ l2]> ch).
Qed.

(** Memory outside the table may change. *)
Lemma ihash_memory t ch E es vs : ihash_ok t ch E -> (forall x, is_Some (E !! x) -> es !! x = ents (tab t) !! x) -> E ⊆ vs ->
  ihash_ok (Table (buckets t) (entries t) (PMem (roots (tab t)) es) vs) ch E.
Proof.
  intros [HC Hb Hn] Hes Hvs. split; [|done|done]. destruct HC as [HL Hlen Hin Hv He]. split; cbn [buckets tab vals]; try done.
  assert (HC : chained t ch E) by done. destruct HL as [Hr Hs ND]. split; cbn [roots ents]; [done| |done]. intros i l Hi. apply seg_frame with (ents (tab t)); [|by apply Hs].
  intros x Hx. apply Hes, (chained_elements _ _ _ HC), (lists_in (tab t) ch i l); [by split|done|done].
Qed.

(** [delete] of an element that is in no bucket. *)
Lemma drop_elm_ok {A} t ch E x (a : A) : ihash_ok t ch E -> E !! x = None -> is_Some (ents (tab t) !! x) ->
  exists t', drop_elm x (t, a) = Ok (t', a) /\ ihash_ok t' ch E /\ dom (ents (tab t')) = dom (ents (tab t)) ∖ {[x]}.
Proof.
  intros HI Hx [e He]. unfold drop_elm. cbn [fst snd]. rewrite (load_ent_ok _ _ _ He). cbn [mbind res_bind]. eexists. split; [done|]. split.
  - apply ihash_memory; [done| |].
    + intros y Hy. apply lookup_delete_ne. intros ->. rewrite Hx in Hy. by destruct Hy.
    + apply map_subseteq_spec. intros y v Hy. rewrite lookup_delete_ne by (intros ->; by rewrite Hx in Hy).
      by apply (lookup_weaken _ _ _ _ Hy), (ch_vals _ _ _ (ih_chained _ _ _ HI)).
  - cbn. by rewrite dom_delete_L.
Qed.
End Ops.

(** ** Freeing the elements *)

(** The table [t] after the elements of [seen] were freed. *)
Definition gone (t : table) (seen : list nat) (t' : table) : Prop :=
  buckets t' = buckets t /\ roots (tab t') = roots (tab t) /\
  forall y, ents (tab t') !! y = if decide (y ∈ seen) then None else ents (tab t) !! y.

Lemma gone_nil t : gone t [] t.
Proof. split_and!; [done|done|]. intros y. rewrite decide_False; [done|]. apply not_elem_of_nil. Qed.

Lemma gone_next t seen t' x : gone t seen t' -> x ∉ seen -> next_of t' x = next_of t x.
Proof. intros (_ & _ & G) Hx. unfold next_of. cbn [load_ent]. by rewrite G, decide_False. Qed.

Lemma drop_gone {A} t seen t' x (a : A) : gone t seen t' -> x ∉ seen -> is_Some (ents (tab t) !! x) ->
  exists t'', drop_elm x (t', a) = Ok (t'', a) /\ gone t (seen ++ [x]) t''.
Proof.
  intros (G1 & G2 & G3) Hx [e He]. unfold drop_elm. cbn [fst snd load_ent]. rewrite G3, decide_False, He by done. cbn [mbind res_bind].
  eexists. split; [done|]. split_and!; [done|done|]. intros y. cbn [tab ents]. destruct (decide (y = x)) as [->|Hyx].
  - rewrite lookup_delete_eq, decide_True; [done|]. apply elem_of_app. right. by left.
  - rewrite lookup_delete_ne, G3 by done. apply decide_ext. rewrite elem_of_app, list_elem_of_singleton. tauto.
Qed.

(** A traversal that frees every element and does [f] to a state of its own. *)
Lemma traverse_drop_ok {A} (f : nat -> A -> A) t ch E fuel (a : A) : chained t ch E -> size (dom (ents (tab t))) < fuel ->
  exists t', traverse fuel (fun n st => '(t, a) ← drop_elm n st; Ok (t, f n a)) (t, a) = Ok (t', foldl (fun a n => f n a) a (concat ch)) /\
    dom (ents (tab t')) = dom (ents (tab t)) ∖ dom E.
Proof.
  intros HC Hf. pose proof (ch_lists _ _ _ HC) as HL.
  match goal with |- context [traverse fuel ?c _] =>
    destruct (traverse_ok c (fun i v (r : list nat) st => gone t (concat (take i ch) ++ v) st.1 /\ st.2 = foldl (fun a n => f n a) a (concat (take i ch) ++ v)) ch fuel (t, a))
      as ([t' a'] & -> & HG & Ea) end.
  - intros i l v x r [t1 a1] Hi -> [HG Ea]. cbn [fst snd] in *. pose proof (not_visited ch i v x r (ls_nodup _ _ HL) Hi) as Hx.
    rewrite (gone_next t _ t1 x HG Hx). split; [by apply (next_of_ok t ch i v)|].
    destruct (drop_gone t _ t1 x a1 HG Hx) as (t2 & -> & HG2).
    + apply (seg_in _ _ _ x (ls_segs _ _ HL _ _ Hi)). apply elem_of_app. right. by left.
    + cbn [mbind res_bind]. eexists. split; [done|]. cbn [fst snd]. rewrite (assoc_L app). split; [done|]. rewrite foldl_app. cbn. by rewrite Ea.
  - intros i l st Hi HJ. rewrite (take_S_r _ _ _ Hi), concat_app. cbn. by rewrite !app_nil_r.
  - intros i v r st [(-> & _) _]. apply (ch_len _ _ _ HC).
  - intros i l st Hi [(_ & G2 & _) _]. unfold root. rewrite G2. pose proof (root_ok _ _ _ _ HL Hi) as Hr. by unfold root in Hr.
  - intros i l Hi. pose proof (lists_length _ _ _ _ HL Hi). lia.
  - split; [apply gone_nil|done].
  - cbn [fst snd] in *. rewrite firstn_all, app_nil_r in *. exists t'. split; [by rewrite Ea|]. destruct HG as (_ & _ & G3).
    apply set_eq. intros y. rewrite elem_of_difference, !elem_of_dom, G3, <- (chained_elements _ _ _ HC).
    destruct (decide (y ∈ concat ch)); [|tauto]. split; [by intros []|tauto].
Qed.

Lemma traverse_ext {A} fuel (cb cb' : nat -> table * A -> res (table * A)) st : (forall x st, cb x st = cb' x st) -> traverse fuel cb st = traverse fuel cb' st.
Proof.
  intros Hcb. apply loop_ext. intros [i s]. unfold traverse_bucket. destruct (_ <? _)%Z; [|done]. destruct (root _ _) as [n|]; [|done]. cbn [mbind res_bind].
  match goal with |- ?a ≫= _ = ?b ≫= _ => assert (Hab : a = b); [|by rewrite Hab] end. apply loop_ext. intros [m [x|]]; [|done]. cbn [traverse_round].
  match goal with |- ?m ≫= _ = _ => destruct m; [|done] end. cbn [mbind res_bind]. by rewrite Hcb.
Qed.

Lemma deleteall_ok `{IhashGrowOk} t ch E fuel : ihash_ok t ch E -> size (dom (ents (tab t))) < fuel ->
  exists t' ch', deleteall fuel t = Ok t' /\ ihash_ok t' ch' ∅ /\ dom (ents (tab t')) = dom (ents (tab t)) ∖ dom E.
Proof.
  intros [HC Hb Hn] Hf. unfold deleteall. destruct (traverse_drop_ok (fun _ u => u) t ch E fuel tt HC Hf) as (t1 & E1 & HD1).
  rewrite (traverse_ext _ _ (fun n st => '(t, a) ← drop_elm n st; Ok (t, a))), E1 by (intros x st; by destruct (drop_elm x st) as [[]|]).
  cbn [mbind res_bind fst]. unfold clear. destruct (init_ok t1) as (t' & ch' & -> & HI & Hd). exists t', ch'. split; [done|]. split; [done|]. by rewrite Hd.
Qed.

(** * Tables by key *)
Section Keyed.
Context `{IhashGrowOk} {K : Type} (key : nat -> K) (hash : K -> Z) (eq : K -> K -> bool).
(** [eq] is an equality of keys that [hash] respects. *)
Context (eq_same : forall a b c, eq a b = true -> eq a c = eq b c) (eq_hash : forall a b, eq a b = true -> hash a = hash b).

Definition keyed (E : gmap nat Z) : Prop := forall x v, E !! x = Some v -> v = hash (key x).

Lemma lookup_enumerates t ch E fuel k : ihash_ok t ch E -> keyed E -> size (dom (ents (tab t))) < fuel ->
  exists L, NoDup L /\ (forall x, x ∈ L <-> is_Some (E !! x) /\ eq k (key x) = true) /\
    enumerates (ihash_lookup key hash eq fuel k t) (fun x => nextkeq key eq fuel x t) L.
Proof.
  intros [HC Hb Hn] HK Hf. destruct (enumerates_val t ch E (hash k) fuel HC Hb Hf) as (L & ND & HM & Hlen & HE).
  exists (filter (fun x => eq k (key x)) L). split; [by apply NoDup_filter|].
  assert (Hin : forall x, x ∈ filter (fun x => eq k (key x)) L <-> is_Some (E !! x) /\ eq k (key x) = true).
  { intros x. rewrite list_elem_of_filter, HM. split.
    - intros [Hk Hx]. split; [by eexists|by apply Is_true_eq_true].
    - intros [[v Hv] Hk]. split; [by rewrite Hk|]. by rewrite Hv, (HK _ _ Hv), (eq_hash _ _ Hk). }
  split; [done|]. eapply enumerates_ext; [| |apply (enumerates_skip (fun v => Ok (eq k (key v))) _ _ L (fun x => eq k (key x)) fuel HE); [done|done]].
  - done.
  - intros x Hx%Hin. destruct Hx as [_ Hk]. unfold nextkeq. cbv beta. destruct (next_val fuel x t) as [o|]; [|done]. cbn [mbind res_bind].
    unfold skip. apply loop_ext. intros [y|]; [|done]. cbn [skip_round mbind res_bind]. by rewrite <- (eq_same _ _ _ Hk).
Qed.
End Keyed.

(** * Sequences of operations *)
Section Sequences.
Context `{IhashGrowOk} {K : Type} (key : nat -> K) (hash : K -> Z) (eq : K -> K -> bool).
Context (eq_same : forall a b c, eq a b = true -> eq a c = eq b c) (eq_hash : forall a b, eq a b = true -> hash a = hash b).

Inductive hop : Type := HInsert (x : nat) | HRemove (x : nat) | HPresent (x : nat) | HClear | HReserve (sz : Z).

Definition run_hop (fuel : nat) (op : hop) (t : table) : res (table * bool) :=
  match op with
  | HInsert x => t ← ihash_insert key hash x t; Ok (t, true)
  | HRemove x => t ← remove x t; Ok (t, true)
  | HPresent x => b ← present fuel x t; Ok (t, b)
  | HClear => t ← clear t; Ok (t, true)
  | HReserve sz => t ← reserve sz t; Ok (t, true)
  end.
Definition spec_hop (op : hop) (X : gset nat) : gset nat * bool :=
  match op with
  | HInsert x => ({[x]} ∪ X, true)
  | HRemove x => (X ∖ {[x]}, true)
  | HPresent x => (X, bool_decide (x ∈ X))
  | HClear => (∅, true)
  | HReserve _ => (X, true)
  end.
(** [present] reads the hash value of its argument, which an element that never was in a table does not have. *)
Definition hop_may (D : gset nat) (op : hop) (X : gset nat) : Prop :=
  match op with
  | HInsert x => x ∈ D /\ x ∉ X
  | HRemove x | HPresent x => x ∈ X
  | HClear | HReserve _ => True
  end.

(** The table has the elements of [X], all from the memory [D]. *)
Definition holds (D X : gset nat) (t : table) : Prop :=
  exists ch E, ihash_ok t ch E /\ dom E = X /\ keyed key hash E /\ dom (ents (tab t)) = D.

Lemma size_in_memory t ch E : ihash_ok t ch E -> size E <= size (dom (ents (tab t))).
Proof.
  intros [HC _ _]. rewrite <- (size_dom E). apply subseteq_size. intros x Hx%elem_of_dom. apply elem_of_dom. by apply (ihash_in_memory t ch E).
Qed.

Lemma run_hop_ok D fuel op t X : size D < fuel -> (Z.of_nat (size D) <= SIZE_MAX)%Z -> holds D X t -> hop_may D op X ->
  exists t', run_hop fuel op t = Ok (t', (spec_hop op X).2) /\ holds D (spec_hop op X).1 t'.
Proof.
  intros Hf Hmax (ch & E & HI & <- & HK & HD) Hm. pose proof (size_in_memory t ch E HI) as Hs. rewrite HD in Hs.
  destruct op as [x|x|x| |sz]; cbn [run_hop spec_hop hop_may fst snd] in *.
  - destruct Hm as [Hx Hn]. apply not_elem_of_dom in Hn.
    assert (Hlt : size E < size D).
    { assert (Hsub : {[x]} ∪ dom E ⊆ D). { apply union_subseteq. split; [set_solver|]. rewrite <- HD. intros y Hy%elem_of_dom. apply elem_of_dom. by apply (ihash_in_memory t ch E (y) (ih_chained _ _ _ HI)). }
      apply subseteq_size in Hsub. rewrite size_union, size_singleton, size_dom in Hsub; [lia|]. apply not_elem_of_dom in Hn. set_solver. }
    destruct (insert_val_ok t ch E x (hash (key x)) HI Hn) as (t' & ch' & E1 & HI' & HD'); [apply elem_of_dom; by rewrite HD|lia|].
    unfold ihash_insert. rewrite E1. exists t'. split; [done|]. exists ch', (<[x := hash (key x)]> E). split_and!; [done|by rewrite dom_insert_L| |by rewrite HD'].
    intros y v Hy. apply lookup_insert_Some in Hy as [[<- <-]|[_ Hy]]; [done|by apply HK].
  - apply elem_of_dom in Hm. destruct (ihash_remove_ok t ch E x HI Hm) as (t' & ch' & E1 & HI' & HD'); [lia|]. rewrite E1.
    exists t'. split; [done|]. exists ch', (delete x E). split_and!; [done|by rewrite dom_delete_L| |by rewrite HD'].
    intros y v Hy. apply lookup_delete_Some in Hy as [_ Hy]. by apply HK.
  - rewrite bool_decide_eq_true_2 by done. apply elem_of_dom in Hm as [v Hv]. rewrite (present_ok t ch E x fuel (ih_chained _ _ _ HI) (ih_pos _ _ _ HI)) with (v := v).
    + rewrite bool_decide_eq_true_2 by done. exists t. split; [done|]. by exists ch, E.
    + by rewrite HD.
    + by apply (lookup_weaken _ _ _ _ Hv), (ch_vals _ _ _ (ih_chained _ _ _ HI)).
  - destruct (init_ok t) as (t' & ch' & E1 & HI' & HD'). unfold clear. rewrite E1. exists t'. split; [done|].
    exists ch', ∅. split_and!; [done|by rewrite dom_empty_L|by intros y v Hy|by rewrite HD'].
  - destruct (grow_ok sz t ch E (ih_chained _ _ _ HI)) as (t' & ch' & E1 & HC' & Hb' & Hn' & _ & HD'). unfold reserve. rewrite E1.
    exists t'. split; [done|]. exists ch', E. split_and!; [|done|done|by rewrite HD']. split; [done|done|]. by rewrite Hn', (ih_entries _ _ _ HI).
Qed.

(** C8: however elements are inserted, removed, the table cleared and made larger, a look-up with
    [nextkeq] after it leads through exactly the elements in the table with that key, each once; the iterator
    visits exactly the elements in the table, each once; [size] is their number and the debugging check does
    not abort. *)
Theorem ihash_correct D ops fuel : size D < fuel -> (Z.of_nat (size D) <= SIZE_MAX)%Z -> may_all spec_hop (hop_may D) ops ∅ ->
  forall t0, dom (ents (tab t0)) = D -> exists t X, (t1 ← init t0; run_all (run_hop fuel) ops t1) = Ok (t, (spec_all spec_hop ops ∅).2) /\
  X = (spec_all spec_hop ops ∅).1 /\ ihash_size t = Z.of_nat (size X) /\
  (forall k, exists L, NoDup L /\ (forall x, x ∈ L <-> x ∈ X /\ eq k (key x) = true) /\
     enumerates (ihash_lookup key hash eq fuel k t) (fun x => nextkeq key eq fuel x t) L) /\
  (exists L, it_collect fuel t = Ok L /\ NoDup L /\ (forall x, x ∈ L <-> x ∈ X)) /\
  _check fuel t = Ok tt.
Proof.
  intros Hf Hmax Hm t0 HD0. destruct (init_ok t0) as (t1 & ch1 & E1 & HI1 & HD1). rewrite E1. cbn [mbind res_bind].
  destruct (run_all_refines (run_hop fuel) spec_hop (hop_may D) (fun t X => holds D X t)
    (fun op t X => run_hop_ok D fuel op t X Hf Hmax) ops t1 ∅) as (t & -> & ch & E & HI & HX & HK & HD); [|done|].
  { exists ch1, ∅. split_and!; [done|by rewrite dom_empty_L|by intros y v Hy|congruence]. }
  pose proof (size_in_memory t ch E HI) as Hs. rewrite HD in Hs. pose proof (ih_chained _ _ _ HI) as HC.
  exists t, (spec_all spec_hop ops ∅).1. rewrite <- HX. split_and!; [done|done|by rewrite size_dom; apply (ih_entries _ _ _ HI)|..].
  - intros k. destruct (lookup_enumerates key hash eq eq_same eq_hash t ch E fuel k HI HK) as (L & ND & HM & HE); [by rewrite HD|].
    exists L. split_and!; [done| |done]. intros x. by rewrite HM, elem_of_dom.
  - exists (concat ch). split_and!; [|apply (ls_nodup _ _ (ch_lists _ _ _ HC))|].
    + apply it_collect_ok; [by apply (enumerates_all t ch E)|]. rewrite (ihash_count t ch E HC). lia.
    + intros x. by rewrite (chained_elements _ _ _ HC), elem_of_dom.
  - apply (check_ok t ch E); [done|by rewrite HD|lia].
Qed.
End Sequences.

(** * An array that is rebuilt from the start *)
Definition link_elm (x : nat) (t : table) : res table :=
  v ← val_of t x; bn ← bucket t v; m ← link_first bn x (tab t); Ok (with_tab t m).
Fixpoint link_all (xs : list nat) (t : table) : res table :=
  match xs with [] => Ok t | x :: xs => t ← link_elm x t; link_all xs t end.
#[export] Instance rebuild : IhashGrow := fun sz t =>
  '(_, xs) ← traverse (S (size (dom (ents (tab t))))) note (t, []);
  let n := Z.to_nat (2 * buckets t + 1) in
  link_all xs (Table (Z.of_nat n) (entries t) (PMem (replicate n None) (ents (tab t))) (vals t)).

Lemma link_all_ok xs : forall t ch E, chained t ch E -> (0 < buckets t)%Z -> NoDup xs ->
  (forall x, x ∈ xs -> E !! x = None /\ is_Some (ents (tab t) !! x) /\ is_Some (vals t !! x)) ->
  exists t' ch' E', link_all xs t = Ok t' /\ chained t' ch' E' /\ buckets t' = buckets t /\ entries t' = entries t /\ vals t' = vals t /\
    dom (ents (tab t')) = dom (ents (tab t)) /\ forall y, E' !! y = if decide (y ∈ xs) then vals t !! y else E !! y.
Proof.
  induction xs as [|x xs IH]; intros t ch E HC Hb ND Hxs; cbn [link_all].
  { by exists t, ch, E. }
  apply NoDup_cons in ND as [Hx ND]. destruct (Hxs x) as (Hn & He & [v Hv]); [by left|].
  destruct (bucket_list t ch E v HC Hb) as [l Hl]. pose proof (ch_lists _ _ _ HC) as HL.
  assert (Hc : x ∉ concat ch) by (intros Hin%(chained_elements _ _ _ HC); rewrite Hn in Hin; by destruct Hin).
  unfold link_elm, val_of. rewrite Hv. cbn [mbind res_bind]. rewrite bucket_ok by done. cbn [mbind res_bind].
  rewrite (link_first_ok _ _ _ l x HL Hl Hc He). cbn [mbind res_bind].
  assert (HC1 := insert_chained t ch E _ l x v _ HC Hb Hl ltac:(pose proof (Z.mod_pos_bound v (buckets t) Hb); lia) Hn (pushed_lists _ _ _ _ _ HL Hl Hc)).
  rewrite (insert_id (vals t)) in HC1 by done. pose proof (pushed_dom _ _ _ l x HL Hl He) as Hd.
  edestruct (IH _ _ _ HC1) as (t' & ch' & E' & E1 & HC' & Hb' & Hn' & Hv' & Hd' & HE'); [done|done| |].
  - intros y Hy. destruct (Hxs y) as (? & Hy2 & ?); [by right|]. split_and!; [|apply elem_of_dom; cbn; rewrite Hd; by apply elem_of_dom|done].
    rewrite lookup_insert_ne; [done|]. by intros ->.
  - exists t', ch', E'. split_and!; [done..|by rewrite Hd'; cbn; rewrite Hd|]. intros y. rewrite HE'. cbn [vals]. destruct (decide (y = x)) as [->|Hyx].
    + rewrite decide_False by done. rewrite lookup_insert_eq, decide_True by by left. done.
    + rewrite lookup_insert_ne by done. apply decide_ext. rewrite elem_of_cons. tauto.
Qed.

#[export] Instance rebuild_ok : IhashGrowOk.
Proof.
  intros sz t ch E HC. unfold _grow, rebuild. pose proof (ch_len _ _ _ HC) as Hlen. set (n := Z.to_nat (2 * buckets t + 1)).
  rewrite (traverse_notes t ch E) by (done || lia). cbn [mbind res_bind].
  edestruct (link_all_ok (concat ch)) as (t' & ch' & E' & E1 & HC' & Hb' & Hn' & Hv' & Hd' & HE').
  5: { exists t', ch'. split; [exact E1|]. split; [|split_and!; [rewrite Hb'; cbn; lia|done..]]. replace E with E'; [done|]. apply map_eq. intros y. rewrite HE'. cbn [vals].
       destruct (decide (y ∈ concat ch)) as [Hy|Hy]; rewrite (chained_elements _ _ _ HC) in Hy.
       - destruct Hy as [v Hv]. by rewrite Hv, (lookup_weaken _ _ _ _ Hv (ch_vals _ _ _ HC)).
       - rewrite lookup_empty. symmetry. by apply eq_None_not_Some. }
  - apply (Build_chained _ (replicate n []) ∅); cbn; [apply empty_lists|by rewrite length_replicate| |apply map_empty_subseteq|done].
    intros i l x [-> _]%lookup_replicate. split; [intros Hx; by apply not_elem_of_nil in Hx|by intros (v & ? & _)].
  - cbn. lia.
  - apply (ls_nodup _ _ (ch_lists _ _ _ HC)).
  - intros x Hx. apply (chained_elements _ _ _ HC) in Hx. split_and!; [done|by apply (ihash_in_memory t ch E)|]. destruct Hx as [v Hv].
    exists v. by apply (lookup_weaken _ _ _ _ Hv), (ch_vals _ _ _ HC).
Qed.

(** Elements 1 to 4 with keys 10, 20, 10, 30, hashed by [mod 10], so that all have one hash value. *)
Definition sample_key (x : nat) : Z := nth x [0; 10; 20; 10; 30]%Z 0%Z.
Definition sample_memory : table := Table 0 0 (PMem [] (gset_to_gmap (PEnt None None) {[1; 2; 3; 4]})) ∅.

Lemma ihash_correct_witness : exists t,
  (t1 ← init sample_memory; run_all (run_hop sample_key (fun k => k mod 10)%Z 9) [HInsert 1; HInsert 2; HInsert 3; HInsert 4; HRemove 2; HPresent 3] t1) =
    Ok (t, [true; true; true; true; true; true]) /\
  ihash_size t = 3%Z /\ exists L, it_collect 9 t = Ok L /\ NoDup L /\ (forall x, x ∈ L <-> x ∈ ({[1; 3; 4]} : gset nat)).
Proof.
  destruct (ihash_correct sample_key (fun k => k mod 10)%Z Z.eqb) with (D := {[1; 2; 3; 4]} : gset nat) (fuel := 9) (t0 := sample_memory)
    (ops := [HInsert 1; HInsert 2; HInsert 3; HInsert 4; HRemove 2; HPresent 3]) as (t & X & E & EX & Hs & _ & HL & _).
  - by intros a b c ->%Z.eqb_eq.
  - by intros a b ->%Z.eqb_eq.
  - vm_compute. lia.
  - vm_compute. discriminate.
  - cbn. split_and!; try done; decide_now.
  - vm_compute. reflexivity.
  - exists t. split; [exact E|]. assert (EX' : X = {[1; 3; 4]}) by (rewrite EX; vm_compute; reflexivity). rewrite EX' in Hs, HL. by split.
Defined.

(** ** The second key of [ihash2]

    With a 32-bit first and a 64-bit second key, [nextkeq] compares only the low half of the second key:
    it misses the other element with the same keys and finds one with other keys. *)
Definition wide_keys (l : list (Z * Z)) (x : nat) : Z * Z := nth x l (0, 0)%Z.
Definition two_of (l : list (Z * Z)) : res (option nat * option nat) :=
  let k1 x := (wide_keys l x).1 in let k2 x := (wide_keys l x).2 in
  t ← init sample_memory;
  t ← ihash2_insert k1 k2 (fun a b => Z.lxor a (b mod 2 ^ 32))%Z 1 t;
  t ← ihash2_insert k1 k2 (fun a b => Z.lxor a (b mod 2 ^ 32))%Z 2 t;
  v ← ihash2_lookup k1 k2 (fun a b => Z.lxor a (b mod 2 ^ 32))%Z Z.eqb Z.eqb 9 7%Z (wide_keys l 2).2 t;
  n ← ihash2_nextkeq k1 k2 Z.eqb Z.eqb (fun b => b mod 2 ^ 32)%Z id 9 2 t;
  Ok (v, n).

Example ihash2_nextkeq_narrows :
  two_of [(0, 0); (7, 4294967301); (7, 4294967301)]%Z = Ok (Some 2, None) /\
  two_of [(0, 0); (7, 5); (7, 4294967301)]%Z = Ok (Some 2, Some 1).
Proof. vm_compute. auto. Qed.
