(* ===== verification/Qhash.v ===== *)
(** The hash maps of src/deps/sfslite-1.2/qhash.h: [qhash], a table of Ihash.v whose elements are slots
    with a key and a value, [bhash], whose slots have a key only, and their iterators. *)
From S2P Require Import Prelude PList Ihash.

(** * The map *)
Record slot (K V : Type) : Type := Slot { skey : K; svalue : V }.
Arguments Slot {K V} _ _.
Arguments skey {K V} _.
Arguments svalue {K V} _.

(** The table and the slots in memory. *)
Record qhash (K V : Type) : Type := QHash { core : table; slots : gmap nat (slot K V) }.
Arguments QHash {K V} _ _.
Arguments core {K V} _.
Arguments slots {K V} _.

Section qhash.
Context `{IhashGrow} {K V : Type} (hash : K -> Z) (eq : K -> K -> bool).
(** [operator new] returns an address that is not in use. *)
Context (new : gset nat -> nat).

#[local] Notation qh := (qhash K V).

Definition slot_at (q : qh) (s : nat) : res (slot K V) := match slots q !! s with Some sl => Ok sl | None => Stop Dangling end.

Definition getslot (fuel : nat) (k : K) (q : qh) : res (option nat) :=
  s ← lookup_val fuel (hash k) (core q);
  skip fuel (fun s => sl ← slot_at q s; Ok (eq (skey sl) k)) (fun s => next_val fuel s (core q)) s.

(** [New slot (...)]. *)
Definition new_slot (sl : slot K V) (q : qh) : nat * qh :=
  let t := core q in
  let s := new (dom (ents (tab t))) in
  (s, QHash (Table (buckets t) (entries t) (PMem (roots (tab t)) (<[s := PEnt None None]> (ents (tab t)))) (vals t)) (<[s := sl]> (slots q))).

Definition add_slot (k : K) (v : V) (q : qh) : res qh :=
  let '(s, q) := new_slot (Slot k v) q in
  t ← insert_val s (hash k) (core q);
  Ok (QHash t (slots q)).

Definition set_value (s : nat) (v : V) (q : qh) : res qh :=
  sl ← slot_at q s; Ok (QHash (core q) (<[s := Slot (skey sl) v]> (slots q))).

Definition delslot (s : nat) (q : qh) : res qh :=
  t ← Ihash.remove s (core q);
  '(t, sls) ← drop_elm s (t, slots q);
  Ok (QHash t (delete s sls)).

Definition insert (fuel : nat) (k : K) (v : V) (q : qh) : res qh :=
  s ← getslot fuel k q;
  match s with
  | Some s => set_value s v q
  | None => add_slot k v q
  end.

(** [insert (k)]: the value is [V ()]. *)
Definition insert_default (V_ : V) (fuel : nat) (k : K) (q : qh) : res qh :=
  s ← getslot fuel k q;
  match s with
  | Some s => set_value s V_ q
  | None => add_slot k V_ q
  end.

Definition remove (fuel : nat) (k : K) (q : qh) : res qh :=
  s ← getslot fuel k q;
  match s with
  | Some s => delslot s q
  | None => Ok q
  end.

(** [remove (k, v)]: the value, when the result is [true]. *)
Definition remove_get (fuel : nat) (k : K) (q : qh) : res (qh * option V) :=
  s ← getslot fuel k q;
  match s with
  | Some s => sl ← slot_at q s; q ← delslot s q; Ok (q, Some (svalue sl))
  | None => Ok (q, None)
  end.

(** [operator[]]: the slot whose value the result points to. *)
Definition at_key (fuel : nat) (k : K) (q : qh) : res (option nat) :=
  s ← getslot fuel k q;
  match s with
  | Some s => Ok (Some s)
  | None => Ok None
  end.

Definition lookup (fuel : nat) (k : K) (q : qh) : res (option V) :=
  _v ← at_key fuel k q;
  match _v with
  | Some s => sl ← slot_at q s; Ok (Some (svalue sl))
  | None => Ok None
  end.

Definition qh_empty : res qh :=
  t ← init (Table 0 0 (PMem [] ∅) ∅);
  Ok (QHash t ∅).

(** The constructor from a list of slots. *)
Fixpoint add_list (l : list (slot K V)) (q : qh) : res qh :=
  match l with [] => Ok q | v :: l => q ← add_slot (skey v) (svalue v) q; add_list l q end.
Definition qh_of_list (l : list (slot K V)) : res qh := q ← qh_empty; add_list l q.

Definition clear (fuel : nat) (q : qh) : res qh :=
  '(t, sls) ← Ihash.traverse fuel (fun s st => q ← delslot s (QHash st.1 st.2); Ok (core q, slots q)) (core q, slots q);
  t ← Ihash.clear t;
  Ok (QHash t sls).

(** The callback gets the key and the slot of the value. *)
Definition traverse {A} (fuel : nat) (cb : K -> nat -> qh * A -> res (qh * A)) (st : qh * A) : res (qh * A) :=
  '(t, (sls, a)) ← Ihash.traverse fuel
    (fun s st => sl ← slot_at (QHash st.1 st.2.1) s; '(q, a) ← cb (skey sl) s (QHash st.1 st.2.1, st.2.2); Ok (core q, (slots q, a)))
    (core st.1, (slots st.1, st.2));
  Ok (QHash t sls, a).

(** [copyslot] of every slot of another map. *)
Definition copyslot (fuel : nat) (src : qh) (s : nat) (q : qh) : res qh :=
  sl ← slot_at src s; insert fuel (skey sl) (svalue sl) q.
Definition copy_from (fuel : nat) (src q : qh) : res qh :=
  '(_, q) ← Ihash.traverse fuel (fun s st => q ← copyslot fuel src s st.2; Ok (st.1, q)) (core src, q);
  Ok q.
Definition qh_copy (fuel : nat) (src : qh) : res qh := q ← qh_empty; copy_from fuel src q.

Definition qh_assign (fuel : nat) (src q : qh) : res qh := q ← clear fuel q; copy_from fuel src q.
(** The assignment of a map to itself. *)
Definition qh_assign_self (fuel : nat) (q : qh) : res qh :=
  q ← clear fuel q;
  '(t, sls) ← Ihash.traverse fuel (fun s st => q ← copyslot fuel (QHash st.1 st.2) s (QHash st.1 st.2); Ok (core q, slots q)) (core q, slots q);
  Ok (QHash t sls).

(** ** Iterators: the slot to come *)
Definition qh_begin (q : qh) : res (option nat) := first (core q).
Definition qh_end : option nat := None.
Definition qh_next (_i : option nat) (q : qh) : res (option (K * V) * option nat) :=
  match _i with
  | Some s => sl ← slot_at q s; n ← next_elm s (core q); Ok (Some (skey sl, svalue sl), n)
  | None => Ok (None, None)
  end.
Definition qh_deref (_i : option nat) (q : qh) : res K :=
  match _i with Some s => sl ← slot_at q s; Ok (skey sl) | None => Stop NullDeref end.
(** [for (it = q.begin (); it != q.end (); ++it)]. *)
Definition qh_collect (fuel : nat) (q : qh) : res (list K) :=
  it ← qh_begin q;
  loop fuel (fun '(it, l) =>
    if bool_decide (it <> qh_end) then k ← qh_deref it q; '(_, it) ← qh_next it q; Ok (inl (it, l ++ [k]))
    else Ok (inr l)) (it, []).
(** [while ((k = it.next (&v)))]. *)
Definition qh_pairs (fuel : nat) (q : qh) : res (list (K * V)) :=
  it ← qh_begin q;
  loop fuel (fun '(it, l) => '(r, it) ← qh_next it q; match r with Some kv => Ok (inl (it, l ++ [kv])) | None => Ok (inr l) end) (it, []).

(** *** [qhash_safe_const_iterator_t] keeps copies of the slots of one bucket *)
Record safe_it : Type := SafeIt { bucket : Z; sbuckets : Z; bucket_values : list (slot K V) }.

Definition safe_reset : safe_it := SafeIt 0 0 [].
Definition safe_done (it : safe_it) : bool := (sbuckets it <=? bucket it)%Z.
Definition refill_round (q : qh) (s : option nat * list (slot K V)) : res (option nat * list (slot K V) + list (slot K V)) :=
  let '(_i, values) := s in
  match _i with
  | Some x => sl ← slot_at q x; n ← next_in_bucket x (core q); Ok (inl (n, values ++ [sl]))
  | None => Ok (inr values)
  end.
Definition refill (fuel : nat) (q : qh) (it : safe_it) : res (bool * safe_it) :=
  if safe_done it then Ok (false, it)
  else
    _i ← first_in_bucket (bucket it) (core q);
    match _i with
    | None => Ok (false, SafeIt (u64 (bucket it + 1)) (sbuckets it) (bucket_values it))
    | Some _ => values ← loop fuel (refill_round q) (_i, bucket_values it); Ok (true, SafeIt (u64 (bucket it + 1)) (sbuckets it) values)
    end.
Definition refill_until (fuel : nat) (q : qh) (it : safe_it) : res (safe_it + bool * safe_it) :=
  '(b, it) ← refill fuel q it;
  if b : bool then Ok (inr (true, it)) else if safe_done it then Ok (inr (false, it)) else Ok (inl it).
Definition safe_next (fuel : nat) (q : qh) (it : safe_it) : res (option (K * V) * safe_it) :=
  let it := if (sbuckets it =? 0)%Z then SafeIt (bucket it) (buckets (core q)) (bucket_values it) else it in
  '(more, it) ← (match bucket_values it with [] => loop (S (Z.to_nat (sbuckets it))) (refill_until fuel q) it | _ => Ok (true, it) end);
  if more : bool then
    match last (bucket_values it) with
    | Some sl => Ok (Some (skey sl, svalue sl), SafeIt (bucket it) (sbuckets it) (removelast (bucket_values it)))
    | None => Stop EmptyContainer
    end
  else Ok (None, it).
Definition safe_pairs (fuel : nat) (q : qh) : res (list (K * V)) :=
  loop fuel (fun '(it, l) => '(r, it) ← safe_next fuel q it; match r with Some kv => Ok (inl (it, l ++ [kv])) | None => Ok (inr l) end) (safe_reset, []).
End qhash.

(** * [bhash]: keys without values *)
Section bhash.
Context `{IhashGrow} {K : Type} (hash : K -> Z) (eq : K -> K -> bool) (new : gset nat -> nat).

#[local] Notation bh := (qhash K unit).

Definition b_getslot (fuel : nat) (k : K) (b : bh) : res (option nat) := getslot hash eq fuel k b.
Definition b_delslot (s : nat) (b : bh) : res bh := delslot s b.

Definition b_insert (fuel : nat) (k : K) (b : bh) : res (bh * bool) :=
  s ← b_getslot fuel k b;
  match s with
  | None => b ← add_slot hash new k tt b; Ok (b, true)
  | Some _ => Ok (b, false)
  end.
Definition b_remove (fuel : nat) (k : K) (b : bh) : res bh :=
  s ← b_getslot fuel k b;
  match s with Some s => b_delslot s b | None => Ok b end.
Definition b_mem (fuel : nat) (k : K) (b : bh) : res bool :=
  s ← b_getslot fuel k b; Ok (bool_decide (s <> None)).

(** [deleteall]. *)
Definition b_clear (fuel : nat) (b : bh) : res bh :=
  '(t, sls) ← Ihash.traverse fuel (fun s st => '(t, sls) ← drop_elm s st; Ok (t, delete s sls)) (core b, slots b);
  t ← Ihash.clear t;
  Ok (QHash t sls).

Fixpoint b_insert_list (fuel : nat) (l : list K) (b : bh) : res bh :=
  match l with [] => Ok b | k :: l => '(b, _) ← b_insert fuel k b; b_insert_list fuel l b end.
Definition b_of_list (fuel : nat) (l : list K) : res bh := b ← qh_empty; b_insert_list fuel l b.

Definition b_copyslot (fuel : nat) (src : bh) (s : nat) (b : bh) : res bh :=
  sl ← slot_at src s; '(b, _) ← b_insert fuel (skey sl) b; Ok b.
Definition b_copy_from (fuel : nat) (src b : bh) : res bh :=
  '(_, b) ← Ihash.traverse fuel (fun s st => b ← b_copyslot fuel src s st.2; Ok (st.1, b)) (core src, b);
  Ok b.
Definition b_copy (fuel : nat) (src : bh) : res bh := b ← qh_empty; b_copy_from fuel src b.
Definition b_assign (fuel : nat) (src b : bh) : res bh := b ← b_clear fuel b; b_copy_from fuel src b.

Definition b_next (_i : option nat) (b : bh) : res (option K * option nat) :=
  match _i with
  | Some s => sl ← slot_at b s; n ← next_elm s (core b); Ok (Some (skey sl), n)
  | None => Ok (None, None)
  end.
Definition b_keys (fuel : nat) (b : bh) : res (list K) :=
  it ← first (core b);
  loop fuel (fun '(it, l) => '(r, it) ← b_next it b; match r with Some k => Ok (inl (it, l ++ [k])) | None => Ok (inr l) end) (it, []).
End bhash.

(** * What a map holds *)
Section Facts.
Context `{IhashGrowOk} `{Countable K} {V : Type} (hash : K -> Z) (eq : K -> K -> bool) (new : gset nat -> nat).
Context (eq_spec : forall a b, eq a b = true <-> a = b) (new_fresh : forall D, new D ∉ D).

Definition hashes (sls : gmap nat (slot K V)) : gmap nat Z := (fun s => hash (skey s)) <$> sls.

(** [M] gives the value of each key; every slot in memory is in the table. *)
Record qh_ok (q : qhash K V) (ch : list (list nat)) (M : gmap K V) : Prop := {
  qh_table : ihash_ok (core q) ch (hashes (slots q));
  qh_inj : forall x y s s', slots q !! x = Some s -> slots q !! y = Some s' -> skey s = skey s' -> x = y;
  qh_map : forall k v, M !! k = Some v <-> exists x, slots q !! x = Some (Slot k v);
  qh_mem : dom (ents (tab (core q))) = dom (slots q);
}.

(** The slots in the order of the buckets. *)
Definition kv_at (q : qhash K V) (x : nat) : option (K * V) := (fun s => (skey s, svalue s)) <$> slots q !! x.
Definition pairs (q : qhash K V) (l : list nat) : list (K * V) := omap (kv_at q) l.

Lemma qh_slot q ch M x : qh_ok q ch M -> x ∈ concat ch <-> is_Some (slots q !! x).
Proof.
  intros HQ. rewrite (chained_elements _ _ _ (ih_chained _ _ _ (qh_table _ _ _ HQ))). unfold hashes. by rewrite lookup_fmap, fmap_is_Some.
Qed.

Lemma pairs_Some q ch M l : qh_ok q ch M -> (forall x, x ∈ l -> x ∈ concat ch) -> Some <$> pairs q l = kv_at q <$> l.
Proof.
  intros HQ. induction l as [|x l IH]; intros Hl; [done|]. assert (Hx : x ∈ concat ch) by (apply Hl; by left).
  apply (qh_slot _ _ _ _ HQ) in Hx as [s Hs]. assert (Hk : kv_at q x = Some (skey s, svalue s)) by (unfold kv_at; by rewrite Hs).
  unfold pairs in *. cbn. rewrite Hk. cbn. f_equal. apply IH. intros y Hy. apply Hl. by right.
Qed.

Lemma kv_at_Some q x k v : kv_at q x = Some (k, v) <-> slots q !! x = Some (Slot k v).
Proof.
  unfold kv_at. destruct (slots q !! x) as [[k' v']|]; cbn; [|done]. split; by intros [= -> ->].
Qed.

Lemma pairs_perm q ch M : qh_ok q ch M -> pairs q (concat ch) ≡ₚ map_to_list M.
Proof.
  intros HQ. pose proof (pairs_Some q ch M (concat ch) HQ (fun _ Hx => Hx)) as HS. apply NoDup_Permutation.
  - apply (NoDup_fmap_1 Some). rewrite HS. apply NoDup_fmap_2_strong; [|apply (ls_nodup _ _ (ch_lists _ _ _ (ih_chained _ _ _ (qh_table _ _ _ HQ))))].
    intros x y Hx Hy. apply (qh_slot _ _ _ _ HQ) in Hx as [[k v] Hx], Hy as [[k' v'] Hy]. unfold kv_at. rewrite Hx, Hy. intros [= <- <-].
    by apply (qh_inj _ _ _ HQ x y _ _ Hx Hy).
  - apply NoDup_map_to_list.
  - intros [k v]. rewrite elem_of_map_to_list, (qh_map _ _ _ HQ). unfold pairs. rewrite list_elem_of_omap. split.
    + intros (x & _ & Hx). exists x. by apply kv_at_Some.
    + intros [x Hx]. exists x. split; [|by apply kv_at_Some]. apply (qh_slot _ _ _ _ HQ). by eexists.
Qed.

Lemma qh_size q ch M : qh_ok q ch M -> size (slots q) = size M.
Proof.
  intros HQ. pose proof (ihash_count _ _ _ (ih_chained _ _ _ (qh_table _ _ _ HQ))) as Hc. unfold hashes in Hc. rewrite map_size_fmap in Hc.
  rewrite <- Hc, <- length_map_to_list. rewrite <- (pairs_perm q ch M HQ), <- (length_fmap Some (pairs q (concat ch))), (pairs_Some q ch M (concat ch) HQ) by done. by rewrite length_fmap.
Qed.

Lemma qh_mem_size q ch M : qh_ok q ch M -> size (dom (ents (tab (core q)))) = size M.
Proof. intros HQ. by rewrite (qh_mem _ _ _ HQ), size_dom, (qh_size q ch M). Qed.

Lemma qh_empty_ok : exists q ch, qh_empty (K := K) (V := V) = Ok q /\ qh_ok q ch ∅.
Proof.
  unfold qh_empty. destruct (init_ok (Table 0 0 (PMem [] ∅) ∅)) as (t & ch & -> & HI & HD). cbn [mbind res_bind]. eexists _, ch. split; [done|].
  split; cbn [core slots]; [by unfold hashes; rewrite fmap_empty|done| |by rewrite HD, !dom_empty_L]. intros k v. split; [done|by intros [x ?]].
Qed.

(** ** Finding a slot *)
Lemma getslot_ok q ch M fuel k : qh_ok q ch M -> size M < fuel ->
  exists o, getslot hash eq fuel k q = Ok o /\
  match o with Some x => exists v, slots q !! x = Some (Slot k v) /\ M !! k = Some v | None => M !! k = None end.
Proof.
  intros HQ Hf. pose proof (qh_table _ _ _ HQ) as [HC Hb Hn].
  destruct (enumerates_val _ ch _ (hash k) fuel HC Hb) as (L & ND & HM & Hlen & HE); [by rewrite (qh_mem_size q ch M)|].
  set (P x := match slots q !! x with Some s => eq (skey s) k | None => false end).
  assert (HP : forall x, x ∈ L -> (sl ← slot_at q x; Ok (eq (skey sl) k)) = Ok (P x)).
  { intros x Hx%HM. unfold hashes in Hx. rewrite lookup_fmap in Hx. unfold slot_at, P. destruct (slots q !! x); done. }
  pose proof (en_first _ _ _ (enumerates_skip _ _ _ L P fuel HE HP Hlen)) as HF. exists (head (filter P L)). split; [exact HF|].
  destruct (filter P L) as [|x l] eqn:Ef; cbn [head].
  - apply eq_None_not_Some. intros [v Hv]. apply (qh_map _ _ _ HQ) in Hv as [x Hx].
    assert (Hin : x ∈ filter P L); [|rewrite Ef in Hin; by apply not_elem_of_nil in Hin]. apply list_elem_of_filter. split.
    + unfold P. rewrite Hx. cbn. by rewrite (proj2 (eq_spec k k)).
    + apply HM. unfold hashes. by rewrite lookup_fmap, Hx.
  - assert (Hin : x ∈ filter P L) by (rewrite Ef; by left). apply list_elem_of_filter in Hin as [HPx _]. unfold P in HPx.
    destruct (slots q !! x) as [[k' v]|] eqn:Hx; [|done]. apply Is_true_eq_true, eq_spec in HPx. cbn in HPx. subst k'.
    exists v. split; [done|]. apply (qh_map _ _ _ HQ). by exists x.
Qed.

(** ** Changing the map *)
Lemma set_value_ok q ch M x k v w : qh_ok q ch M -> slots q !! x = Some (Slot k v) ->
  exists q', set_value x w q = Ok q' /\ qh_ok q' ch (<[k := w]> M).
Proof.
  intros HQ Hx. unfold set_value, slot_at. rewrite Hx. cbn [mbind res_bind skey]. eexists. split; [done|]. destruct HQ as [HI Hinj HM HD]. split; cbn [core slots].
  - unfold hashes in *. rewrite fmap_insert. cbn [skey]. rewrite insert_id; [done|]. by rewrite lookup_fmap, Hx.
  - intros y z s s' Hy Hz Es. apply lookup_insert_Some in Hy as [[<- <-]|[Hyx Hy]]; apply lookup_insert_Some in Hz as [[<- <-]|[Hzx Hz]]; cbn in Es.
    + done.
    + by apply (Hinj x z _ _ Hx Hz).
    + by apply (Hinj y x _ _ Hy Hx).
    + by apply (Hinj y z _ _ Hy Hz).
  - intros k' u. destruct (decide (k' = k)) as [->|Hk].
    + rewrite lookup_insert_eq. split; [intros [= <-]; exists x; by rewrite lookup_insert_eq|]. intros [y Hy].
      apply lookup_insert_Some in Hy as [[_ [= <-]]|[Hyx Hy]]; [done|]. destruct Hyx. by apply (Hinj x y _ _ Hx Hy).
    + rewrite lookup_insert_ne by done. rewrite HM. split; intros [y Hy]; exists y.
      * rewrite lookup_insert_ne; [done|]. intros ->. congruence.
      * apply lookup_insert_Some in Hy as [[_ [= <-]]|[_ Hy]]; done.
  - rewrite dom_insert_L, HD. apply elem_of_dom_2 in Hx. set_solver.
Qed.

Lemma add_slot_ok q ch M k v : qh_ok q ch M -> M !! k = None -> (Z.of_nat (size M) < SIZE_MAX)%Z ->
  exists q' ch', add_slot hash new k v q = Ok q' /\ qh_ok q' ch' (<[k := v]> M).
Proof.
  intros HQ Hk Hmax. pose proof (qh_size q ch M HQ) as Hsz. destruct HQ as [HI Hinj HM HD]. unfold add_slot, new_slot. set (x := new (dom (ents (tab (core q))))).
  assert (Hx : slots q !! x = None) by (apply not_elem_of_dom; rewrite <- HD; apply new_fresh). cbn [core slots].
  set (t1 := Table _ _ _ _). assert (HI1 : ihash_ok t1 ch (hashes (slots q))).
  { apply ihash_memory; [done| |apply (ch_vals _ _ _ (ih_chained _ _ _ HI))]. intros y Hy. apply lookup_insert_ne. intros <-. unfold hashes in Hy.
    rewrite lookup_fmap, Hx in Hy. by destruct Hy. }
  destruct (insert_val_ok t1 ch _ x (hash k) HI1) as (t2 & ch2 & E2 & HI2 & HD2).
  - unfold hashes. by rewrite lookup_fmap, Hx.
  - cbn. rewrite lookup_insert_eq. by eexists.
  - unfold hashes. rewrite map_size_fmap. lia.
  - rewrite E2. cbn [mbind res_bind]. eexists _, ch2. split; [done|]. split; cbn [core slots].
    + unfold hashes in *. by rewrite fmap_insert.
    + intros y z s s' Hy Hz Es. apply lookup_insert_Some in Hy as [[<- <-]|[Hyx Hy]]; apply lookup_insert_Some in Hz as [[<- <-]|[Hzx Hz]]; cbn in Es; [done|..].
      * exfalso. destruct s' as [k' v']. cbn in Es. subst k'. assert (E3 : M !! k = Some v') by (apply HM; by exists z). by rewrite Hk in E3.
      * exfalso. destruct s as [k' v']. cbn in Es. subst k'. assert (E3 : M !! k = Some v') by (apply HM; by exists y). by rewrite Hk in E3.
      * by apply (Hinj y z _ _ Hy Hz).
    + intros k' u. destruct (decide (k' = k)) as [->|Hne].
      * rewrite lookup_insert_eq. split; [intros [= <-]; exists x; by rewrite lookup_insert_eq|]. intros [y Hy].
        apply lookup_insert_Some in Hy as [[_ [= <-]]|[Hyx Hy]]; [done|]. assert (E3 : M !! k = Some u) by (apply HM; by exists y). by rewrite Hk in E3.
      * rewrite lookup_insert_ne by done. rewrite HM. split; intros [y Hy]; exists y.
        -- rewrite lookup_insert_ne; [done|]. intros <-. congruence.
        -- apply lookup_insert_Some in Hy as [[_ [= <-]]|[_ Hy]]; done.
    + rewrite HD2. cbn. by rewrite !dom_insert_L, HD.
Qed.

Lemma delslot_ok q ch M i l1 x l2 k v : qh_ok q ch M -> ch !! i = Some (l1 ++ x :: l2) -> slots q !! x = Some (Slot k v) -> (Z.of_nat (size M) <= SIZE_MAX)%Z ->
  exists q', delslot x q = Ok q' /\ qh_ok q' (<[i := l1 ++ l2]> ch) (delete k M) /\ slots q' = delete x (slots q).
Proof.
  intros HQ Hi Hx Hmax. pose proof (qh_size q ch M HQ) as Hsz. destruct HQ as [HI Hinj HM HD]. unfold delslot.
  destruct (ihash_remove_at _ ch _ i l1 x l2 HI Hi) as (t1 & -> & HI1 & HD1); [unfold hashes; rewrite map_size_fmap; lia|]. cbn [mbind res_bind].
  destruct (drop_elm_ok t1 _ _ x (slots q) HI1) as (t2 & -> & HI2 & HD2).
  - by rewrite lookup_delete_eq.
  - apply elem_of_dom. rewrite HD1, HD. by apply elem_of_dom_2 in Hx.
  - cbn [mbind res_bind]. eexists. split; [done|]. split; [|done]. split; cbn [core slots].
    + unfold hashes in *. by rewrite fmap_delete.
    + intros y z s s' Hy Hz. apply lookup_delete_Some in Hy as [_ Hy], Hz as [_ Hz]. by apply (Hinj y z).
    + intros k' u. destruct (decide (k' = k)) as [->|Hne].
      * rewrite lookup_delete_eq. split; [done|]. intros [y Hy]. apply lookup_delete_Some in Hy as [Hyx Hy]. destruct Hyx. by apply (Hinj x y _ _ Hx Hy).
      * rewrite lookup_delete_ne by done. rewrite HM. split; intros [y Hy]; exists y; [rewrite lookup_delete_ne; [done|intros ->; congruence]|].
        by apply lookup_delete_Some in Hy as [_ Hy].
    + rewrite HD2, HD1, HD, dom_delete_L. done.
Qed.

Lemma delslot_ok' q ch M x k v : qh_ok q ch M -> slots q !! x = Some (Slot k v) -> (Z.of_nat (size M) <= SIZE_MAX)%Z ->
  exists q' ch', delslot x q = Ok q' /\ qh_ok q' ch' (delete k M).
Proof.
  intros HQ Hx Hmax. assert (Hin : x ∈ concat ch) by (apply (qh_slot q ch M x HQ); by eexists). apply in_some_list in Hin as (i & l1 & l2 & Hi).
  destruct (delslot_ok q ch M i l1 x l2 k v HQ Hi Hx Hmax) as (q' & E & HQ' & _). by exists q', (<[i := l1 ++ l2]> ch).
Qed.

(** ** Clearing *)

(** The buckets before [i] are empty and [r] is left of bucket [i]. *)
Definition cleared (ch : list (list nat)) (i : nat) (r : list nat) : list (list nat) := <[i := r]> (replicate i [] ++ drop i ch).

Lemma cleared_lookup ch i r : i < length ch -> cleared ch i r !! i = Some r.
Proof. intros Hi. apply list_lookup_insert_eq. rewrite length_app, length_replicate, length_drop. lia. Qed.
Lemma cleared_update ch i r r' : <[i := r']> (cleared ch i r) = cleared ch i r'.
Proof. unfold cleared. by rewrite list_insert_insert_eq. Qed.
Lemma cleared_length ch i r : i <= length ch -> length (cleared ch i r) = length ch.
Proof. intros Hi. unfold cleared. rewrite length_insert, length_app, length_replicate, length_drop. lia. Qed.
Lemma cleared_start ch : cleared ch 0 (default [] (ch !! 0)) = ch.
Proof. by destruct ch. Qed.
Lemma cleared_next ch i l : ch !! i = Some l -> cleared ch i [] = cleared ch (S i) (default [] (ch !! S i)).
Proof.
  intros Hi. unfold cleared. rewrite (drop_S _ _ _ Hi).
  rewrite insert_app_r_alt by (by rewrite length_replicate). rewrite length_replicate, Nat.sub_diag.
  change (<[0 := []]> (l :: drop (S i) ch)) with ([] :: drop (S i) ch).
  rewrite replicate_S_end, <- (assoc_L app). cbn [app]. rewrite (insert_app_r_alt (replicate i [])) by (rewrite length_replicate; lia).
  rewrite length_replicate. replace (S i - i) with 1 by lia. f_equal.
  destruct (ch !! S i) as [k|] eqn:Ek; [by rewrite (drop_S _ _ _ Ek)|]. apply lookup_ge_None in Ek. by rewrite drop_ge.
Qed.
Lemma cleared_end ch : concat (cleared ch (length ch) []) = [].
Proof.
  unfold cleared. rewrite drop_all, app_nil_r, list_insert_ge by (by rewrite length_replicate). induction ch as [|l ch IH]; [done|]. done.
Qed.

Lemma qh_bucket q ch M i l : qh_ok q ch M -> ch !! i = Some l ->
  buckets (core q) = Z.of_nat (length ch) /\ root (tab (core q)) i = Ok (head l) /\
  forall v x r, l = v ++ x :: r -> next_of (core q) x = Ok (head r) /\ exists k w, slots q !! x = Some (Slot k w) /\ M !! k = Some w.
Proof.
  intros HQ Hi. pose proof (ih_chained _ _ _ (qh_table _ _ _ HQ)) as HC. pose proof (ch_lists _ _ _ HC) as HL.
  split_and!; [apply (ch_len _ _ _ HC)|by apply (root_ok _ ch)|]. intros v x r ->. split; [by apply (next_of_ok _ ch i v)|].
  assert (Hx : x ∈ concat ch) by (apply (lists_in _ ch i _ x HL Hi), elem_of_app; right; by left). apply (qh_slot _ _ _ _ HQ) in Hx as [[k w] Hx].
  exists k, w. split; [done|]. apply (qh_map _ _ _ HQ). by exists x.
Qed.

Lemma bucket_length q ch M i l : qh_ok q ch M -> ch !! i = Some l -> length l <= size M.
Proof.
  intros HQ Hi. rewrite <- (qh_mem_size q ch M HQ). apply (lists_length _ ch i l); [|done]. apply (ch_lists _ _ _ (ih_chained _ _ _ (qh_table _ _ _ HQ))).
Qed.

Lemma qh_clear_ok q ch M fuel : qh_ok q ch M -> size M < fuel -> (Z.of_nat (size M) <= SIZE_MAX)%Z ->
  exists q' ch', clear fuel q = Ok q' /\ qh_ok q' ch' ∅.
Proof.
  intros HQ Hf Hmax. unfold clear.
  set (J i (v r : list nat) (st : table * gmap nat (slot K V)) := i <= length ch /\ exists M', qh_ok (QHash st.1 st.2) (cleared ch i r) M' /\ size M' <= size M).
  match goal with |- context [Ihash.traverse fuel ?c _] => destruct (traverse_ok c J ch fuel (core q, slots q)) as ([t1 sls] & -> & _ & M' & HQ' & _) end.
  - intros i l v x r [t sls] Hi _ [Hle (M' & HQ' & Hs)]. cbn [fst snd] in *. pose proof (lookup_lt_Some _ _ _ Hi) as Hlt.
    pose proof (cleared_lookup ch i (x :: r) Hlt) as Hc. destruct (qh_bucket _ _ _ _ _ HQ' Hc) as (_ & _ & Hb).
    destruct (Hb [] x r eq_refl) as (Hn & k & w & Hx & Hk). split; [exact Hn|].
    destruct (delslot_ok _ _ _ i [] x r k w HQ' Hc Hx) as (q1 & -> & HQ1 & _); [lia|]. cbn [mbind res_bind]. eexists. split; [done|]. split; [done|].
    exists (delete k M'). cbn [fst snd]. rewrite cleared_update in HQ1. split; [by destruct q1|]. rewrite map_size_delete_Some by (by rewrite Hk). lia.
  - intros i l st Hi [Hle HJ]. split; [apply lookup_lt_Some in Hi; lia|]. by rewrite <- (cleared_next ch i l).
  - intros i v r st [Hle (M' & HQ' & _)]. pose proof (ch_len _ _ _ (ih_chained _ _ _ (qh_table _ _ _ HQ'))) as Hb. by rewrite cleared_length in Hb.
  - intros i l st Hi [Hle (M' & HQ' & _)]. apply (qh_bucket _ _ _ _ _ HQ'). apply cleared_lookup. by apply lookup_lt_Some in Hi.
  - intros i l Hi. pose proof (bucket_length q ch M i l HQ Hi). lia.
  - split; [lia|]. rewrite cleared_start. exists M. by destruct q.
  - cbn [mbind res_bind fst snd] in *. pose proof (qh_mem _ _ _ HQ') as HD. pose proof (fun x => qh_slot _ _ _ x HQ') as HS. cbn [core slots] in *.
    assert (E0 : sls = ∅). { apply map_empty. intros x. apply eq_None_not_Some. intros Hx. apply HS in Hx. rewrite cleared_end in Hx. by apply not_elem_of_nil in Hx. }
    subst sls. unfold Ihash.clear. destruct (init_ok t1) as (t2 & ch2 & -> & HI2 & HD2). cbn [mbind res_bind]. eexists _, ch2. split; [done|].
    split; cbn [core slots]; [by unfold hashes; rewrite fmap_empty|done| |by rewrite HD2]. intros k v. split; [done|by intros [x ?]].
Qed.

(** ** Copying *)
Lemma insert_ok q ch M fuel k v : qh_ok q ch M -> size M < fuel -> (Z.of_nat (size M) < SIZE_MAX)%Z ->
  exists q' ch', insert hash eq new fuel k v q = Ok q' /\ qh_ok q' ch' (<[k := v]> M).
Proof.
  intros HQ Hf Hmax. unfold insert. destruct (getslot_ok q ch M fuel k HQ Hf) as (o & -> & Ho). cbn [mbind res_bind]. destruct o as [x|].
  - destruct Ho as (w & Hx & _). destruct (set_value_ok q ch M x k w v HQ Hx) as (q' & E & HQ'). by exists q', ch.
  - by apply add_slot_ok with ch.
Qed.

(** What copying the slots of [seen] makes of an empty map. *)
Definition copied (src : qhash K V) (M : gmap K V) (seen : list nat) (Md : gmap K V) : Prop :=
  Md ⊆ M /\ forall k w, Md !! k = Some w <-> exists x, x ∈ seen /\ slots src !! x = Some (Slot k w).

Lemma copied_more src chs M seen Md x k w : qh_ok src chs M -> copied src M seen Md -> x ∉ seen -> slots src !! x = Some (Slot k w) ->
  Md !! k = None /\ copied src M (seen ++ [x]) (<[k := w]> Md) /\ size Md < size M.
Proof.
  intros HQ [Hsub HM] Hns Hx. assert (Hk : M !! k = Some w) by (apply (qh_map _ _ _ HQ); by exists x).
  assert (Hn : Md !! k = None).
  { apply eq_None_not_Some. intros [u Hu]. apply HM in Hu as (y & Hy & Hys). by rewrite (qh_inj _ _ _ HQ x y _ _ Hx Hys eq_refl) in Hns. }
  assert (Hsub' : <[k := w]> Md ⊆ M) by (by apply insert_subseteq_l). split; [done|]. split.
  - split; [done|]. intros k' u. destruct (decide (k' = k)) as [->|Hne].
    + rewrite lookup_insert_eq. split; [intros [= <-]; exists x; split; [apply elem_of_app; right; by left|done]|].
      intros (y & _ & Hy). by rewrite (qh_inj _ _ _ HQ x y _ _ Hx Hy eq_refl) in Hx; congruence.
    + rewrite lookup_insert_ne by done. rewrite HM. split; intros (y & Hy & Hys); exists y; (split; [|done]).
      * apply elem_of_app. by left.
      * apply elem_of_app in Hy as [Hy|Hy]; [done|]. apply list_elem_of_singleton in Hy as ->. congruence.
  - apply map_subseteq_size in Hsub'. rewrite map_size_insert_None in Hsub'; [lia|done].
Qed.

Lemma copy_from_ok src chs M fuel q0 ch0 : qh_ok src chs M -> size M < fuel -> (Z.of_nat (size M) <= SIZE_MAX)%Z -> qh_ok q0 ch0 ∅ ->
  exists q ch, copy_from hash eq new fuel src q0 = Ok q /\ qh_ok q ch M.
Proof.
  intros HQ Hf Hmax HQ0. unfold copy_from.
  set (J i v (r : list nat) (st : table * qhash K V) := st.1 = core src /\ exists ch' Md, qh_ok st.2 ch' Md /\ copied src M (concat (take i chs) ++ v) Md).
  match goal with |- context [Ihash.traverse fuel ?c _] => destruct (traverse_ok c J chs fuel (core src, q0)) as ([t1 q] & -> & _ & ch' & Md & HQ' & Hsub & HM) end.
  - intros i l v x r [t q] Hi -> [E (ch' & Md & HQ' & HC)]. cbn [fst snd] in *. subst t.
    destruct (qh_bucket src chs M i _ HQ Hi) as (_ & _ & Hb). destruct (Hb v x r eq_refl) as (Hn & k & w & Hx & Hk). split; [done|].
    assert (Hns : x ∉ concat (take i chs) ++ v).
    { apply (not_visited chs i v x r); [|done]. apply (ls_nodup _ _ (ch_lists _ _ _ (ih_chained _ _ _ (qh_table _ _ _ HQ)))). }
    destruct (copied_more src chs M _ Md x k w HQ HC Hns Hx) as (HMn & HC' & Hlt). unfold copyslot, slot_at. rewrite Hx. cbn [mbind res_bind skey svalue].
    destruct (insert_ok q ch' Md fuel k w HQ') as (q1 & ch1 & -> & HQ1); [lia|lia|]. cbn [mbind res_bind]. eexists. split; [done|]. split; [done|].
    exists ch1, (<[k := w]> Md). cbn [snd]. by rewrite (assoc_L app).
  - intros i l st Hi [E (ch' & Md & HQ' & HC)]. split; [done|]. exists ch', Md. rewrite (take_S_r _ _ _ Hi), concat_app. cbn. by rewrite !app_nil_r.
  - intros i v r st [-> _]. apply (ch_len _ _ _ (ih_chained _ _ _ (qh_table _ _ _ HQ))).
  - intros i l st Hi [-> _]. by apply (qh_bucket src chs M).
  - intros i l Hi. pose proof (bucket_length src chs M i l HQ Hi). lia.
  - split; [done|]. exists ch0, ∅. split; [done|]. split; [apply map_empty_subseteq|]. intros k w. split; [done|]. by intros (x & Hx%not_elem_of_nil & _).
  - cbn [mbind res_bind snd] in *. exists q, ch'. split; [done|]. replace M with Md; [done|]. apply map_eq. intros k. apply option_eq. intros w.
    rewrite HM, (qh_map _ _ _ HQ), firstn_all, app_nil_r. split; [intros (x & _ & Hx); by exists x|]. intros [x Hx]. exists x. split; [|done].
    apply (qh_slot _ _ _ x HQ). by eexists.
Qed.

Lemma qh_copy_ok src chs M fuel : qh_ok src chs M -> size M < fuel -> (Z.of_nat (size M) <= SIZE_MAX)%Z ->
  exists q ch, qh_copy hash eq new fuel src = Ok q /\ qh_ok q ch M.
Proof.
  intros HQ Hf Hmax. unfold qh_copy. destruct qh_empty_ok as (q0 & ch0 & -> & HQ0). cbn [mbind res_bind]. by apply (copy_from_ok src chs M fuel q0 ch0).
Qed.

Lemma qh_assign_ok src chs M q ch Mq fuel : qh_ok src chs M -> qh_ok q ch Mq -> size M < fuel -> size Mq < fuel ->
  (Z.of_nat (size M) <= SIZE_MAX)%Z -> (Z.of_nat (size Mq) <= SIZE_MAX)%Z ->
  exists q' ch', qh_assign hash eq new fuel src q = Ok q' /\ qh_ok q' ch' M.
Proof.
  intros HQ HQq Hf Hfq Hmax Hmaxq. unfold qh_assign. destruct (qh_clear_ok q ch Mq fuel HQq Hfq Hmaxq) as (q0 & ch0 & -> & HQ0). cbn [mbind res_bind].
  by apply (copy_from_ok src chs M fuel q0 ch0).
Qed.

(** Assigned to itself, a map loses everything. *)
Lemma qh_assign_self_ok q ch M fuel : qh_ok q ch M -> size M < fuel -> (Z.of_nat (size M) <= SIZE_MAX)%Z ->
  exists q' ch', qh_assign_self hash eq new fuel q = Ok q' /\ qh_ok q' ch' ∅.
Proof.
  intros HQ Hf Hmax. unfold qh_assign_self. destruct (qh_clear_ok q ch M fuel HQ Hf Hmax) as (q0 & ch0 & -> & HQ0). cbn [mbind res_bind].
  assert (Hb : forall i l, ch0 !! i = Some l -> l = []).
  { intros i l Hi. pose proof (bucket_length q0 ch0 ∅ i l HQ0 Hi) as Hl. rewrite map_size_empty in Hl. apply length_zero_iff_nil. lia. }
  match goal with |- context [Ihash.traverse fuel ?c _] =>
    destruct (traverse_ok c (fun i (v r : list nat) st => st = (core q0, slots q0)) ch0 fuel (core q0, slots q0)) as (st & -> & ->) end; try done.
  - intros i l v x r st Hi El. rewrite (Hb i l Hi) in El. by destruct v.
  - intros i v r st ->. apply (ch_len _ _ _ (ih_chained _ _ _ (qh_table _ _ _ HQ0))).
  - intros i l st Hi ->. by apply (qh_bucket q0 ch0 ∅).
  - intros i l Hi. rewrite (Hb i l Hi). cbn. lia.
  - cbn. exists q0, ch0. by destruct q0.
Qed.

(** ** Iterating *)
Lemma qh_enumerates q ch M : qh_ok q ch M -> enumerates (qh_begin q) (fun x => next_elm x (core q)) (concat ch).
Proof. intros HQ. apply (enumerates_all _ _ _ (qh_table _ _ _ HQ)). Qed.

Lemma qh_concat_length q ch M : qh_ok q ch M -> length (concat ch) = size M.
Proof. intros HQ. rewrite (ihash_count _ _ _ (ih_chained _ _ _ (qh_table _ _ _ HQ))). unfold hashes. rewrite map_size_fmap. by apply (qh_size q ch). Qed.

Lemma qh_pairs_ok q ch M fuel : qh_ok q ch M -> size M < fuel -> exists l, qh_pairs fuel q = Ok l /\ l ≡ₚ map_to_list M.
Proof.
  intros HQ Hf. pose proof (qh_enumerates q ch M HQ) as HE. exists (pairs q (concat ch)). split; [|by apply pairs_perm].
  unfold qh_pairs. rewrite (en_first _ _ _ HE). cbn [mbind res_bind]. apply (collect_loop (kv_at q)); [done| |by rewrite (qh_concat_length q ch M)].
  intros L1 x L2 acc EL. assert (Hx : x ∈ concat ch) by (rewrite EL; apply elem_of_app; right; by left). apply (qh_slot q ch M x HQ) in Hx as [[k v] Hx].
  exists (k, v). split; [by apply kv_at_Some|]. unfold qh_next, slot_at. rewrite Hx. cbn [mbind res_bind skey svalue]. by rewrite (en_next _ _ _ HE L1 x L2 EL).
Qed.

Lemma qh_collect_ok q ch M fuel : qh_ok q ch M -> size M < fuel -> exists l, qh_collect fuel q = Ok l /\ l ≡ₚ (map_to_list M).*1.
Proof.
  intros HQ Hf. pose proof (qh_enumerates q ch M HQ) as HE. exists (pairs q (concat ch)).*1. split; [|by rewrite (pairs_perm q ch M HQ)].
  unfold qh_collect. rewrite (en_first _ _ _ HE). cbn [mbind res_bind].
  assert (Ef : forall l, (pairs q l).*1 = omap (fun x => fst <$> kv_at q x) l).
  { unfold pairs. induction l as [|x l IH]; [done|]. cbn. destruct (kv_at q x); cbn; by rewrite IH. }
  rewrite Ef. apply (collect_loop (fun x => fst <$> kv_at q x)); [done| |by rewrite (qh_concat_length q ch M)].
  intros L1 x L2 acc EL. assert (Hx : x ∈ concat ch) by (rewrite EL; apply elem_of_app; right; by left). apply (qh_slot q ch M x HQ) in Hx as [[k v] Hx].
  exists k. split; [by rewrite (proj2 (kv_at_Some q x k v) Hx)|]. rewrite bool_decide_eq_true_2 by done. unfold qh_deref, qh_next, slot_at. rewrite Hx.
  cbn [mbind res_bind skey svalue]. by rewrite (en_next _ _ _ HE L1 x L2 EL).
Qed.

(** *** The iterator with copies *)
Section Safe.
Context (q : qhash K V) (ch : list (list nat)) (M : gmap K V) (fuel : nat).
Context (HQ : qh_ok q ch M) (Hfuel : size M < fuel) (Hsize : (buckets (core q) <= SIZE_MAX)%Z).

Definition slots_of (l : list nat) : list (slot K V) := omap (fun x => slots q !! x) l.
Definition kv_of (sl : slot K V) : K * V := (skey sl, svalue sl).

(** What is still to come. *)
Definition safe_rest (it : safe_it (K := K) (V := V)) : list (K * V) :=
  (kv_of <$> rev (bucket_values it)) ++ concat ((fun l => kv_of <$> rev (slots_of l)) <$> drop (Z.to_nat (bucket it)) ch).
Definition started (it : safe_it (K := K) (V := V)) : Prop := sbuckets it = Z.of_nat (length ch) /\ (0 <= bucket it <= Z.of_nat (length ch))%Z.

Lemma q_buckets : buckets (core q) = Z.of_nat (length ch).
Proof. apply (ch_len _ _ _ (ih_chained _ _ _ (qh_table _ _ _ HQ))). Qed.

Lemma refill_loop_ok i l : ch !! i = Some l -> loop fuel (refill_round q) (head l, []) = Ok (slots_of l).
Proof.
  intros Hi. pose proof (bucket_length q ch M i l HQ Hi). apply (collect_loop (fun x => slots q !! x)); [done| |lia].
  intros L1 x L2 acc EL. destruct (qh_bucket q ch M i l HQ Hi) as (_ & _ & Hb). destruct (Hb L1 x L2 EL) as (Hn & k & w & Hx & _).
  exists (Slot k w). split; [done|]. unfold refill_round, slot_at, next_in_bucket. rewrite Hx. cbn [mbind res_bind]. by rewrite Hn.
Qed.

Lemma refill_ok it i l : started it -> bucket it = Z.of_nat i -> bucket_values it = [] -> ch !! i = Some l ->
  refill fuel q it = Ok (bool_decide (l <> []), SafeIt (Z.of_nat (S i)) (sbuckets it) (slots_of l)).
Proof.
  intros [Hs Hb] Ei Ev Hi. pose proof (lookup_lt_Some _ _ _ Hi) as Hlt. pose proof q_buckets as Hq. unfold refill, safe_done.
  rewrite Hs, Ei, (proj2 (Z.leb_gt _ _)) by lia. unfold first_in_bucket. rewrite Hq, (proj2 (Z.ltb_lt _ _)) by lia. rewrite Nat2Z.id.
  destruct (qh_bucket q ch M i l HQ Hi) as (_ & -> & _). cbn [mbind res_bind]. rewrite Ev.
  assert (Eu : u64 (Z.of_nat i + 1) = Z.of_nat (S i)) by (unfold u64, SIZE_MAX in *; rewrite Z.mod_small; lia). rewrite Eu.
  destruct l as [|x l]; cbn [head]; [by rewrite bool_decide_eq_false_2 by (intros E; by apply E)|].
  pose proof (refill_loop_ok i (x :: l) Hi) as E. cbn [head] in E. rewrite E. cbn [mbind res_bind]. by rewrite bool_decide_eq_true_2.
Qed.

Lemma slots_of_nonempty i x l : ch !! i = Some (x :: l) -> slots_of (x :: l) <> [].
Proof.
  intros Hi. destruct (qh_bucket q ch M i _ HQ Hi) as (_ & _ & Hb). destruct (Hb [] x l eq_refl) as (_ & k & w & Hx & _). unfold slots_of. cbn. by rewrite Hx.
Qed.

(** Going on to a bucket with slots. *)
Lemma refill_until_ok it : started it -> bucket_values it = [] ->
  exists m it', loop (S (Z.to_nat (sbuckets it))) (refill_until fuel q) it = Ok (m, it') /\ started it' /\ safe_rest it' = safe_rest it /\
    if m : bool then bucket_values it' <> [] else safe_rest it = [].
Proof.
  intros Hst Ev. destruct (loop_total (fun it' => started it' /\ bucket_values it' = [] /\ safe_rest it' = safe_rest it)
    (fun r : bool * safe_it => started r.2 /\ safe_rest r.2 = safe_rest it /\ if r.1 then bucket_values r.2 <> [] else safe_rest it = [])
    (fun it' => length ch - Z.to_nat (bucket it')) (refill_until fuel q)) with (fuel := S (Z.to_nat (sbuckets it))) (s := it) as ([m it'] & Er & Q1 & Q2 & Q3).
  - intros it0 (Hst0 & Ev0 & ER). destruct Hst0 as [Hs Hb]. unfold refill_until. set (i := Z.to_nat (bucket it0)).
    destruct (decide (i = length ch)) as [Ei|Ei].
    + right. exists (false, it0). cbn [fst snd]. assert (Ed : safe_done it0 = true) by (unfold safe_done; apply Z.leb_le; lia). unfold refill. rewrite Ed. cbn [mbind res_bind]. rewrite Ed.
      split; [done|]. split; [done|]. split; [done|]. rewrite <- ER. unfold safe_rest. fold i. by rewrite Ev0, Ei, drop_all.
    + destruct (lookup_lt_is_Some_2 ch i) as [l Hi]; [lia|]. rewrite (refill_ok it0 i l) by (done || lia). cbn [mbind res_bind].
      assert (Hst1 : started (SafeIt (Z.of_nat (S i)) (sbuckets it0) (slots_of l))) by (split; cbn; lia).
      assert (ER1 : safe_rest (SafeIt (Z.of_nat (S i)) (sbuckets it0) (slots_of l)) = safe_rest it).
      { rewrite <- ER. unfold safe_rest. cbn [bucket bucket_values]. fold i. rewrite Ev0, Nat2Z.id, (drop_S _ _ _ Hi). done. }
      destruct l as [|x l]; [rewrite bool_decide_eq_false_2 by (intros Hl; by apply Hl)|rewrite bool_decide_eq_true_2 by done].
      * cbn [slots_of omap list_omap] in *. unfold safe_done. cbn [sbuckets bucket]. destruct (Z.leb_spec (sbuckets it0) (Z.of_nat (S i))) as [Hd|Hd]; [right|left].
        -- eexists. split; [done|]. cbn [fst snd]. split; [done|]. split; [done|]. rewrite <- ER1. unfold safe_rest. cbn [bucket bucket_values].
           by rewrite Nat2Z.id, drop_ge by lia.
        -- eexists. split; [done|]. cbn [bucket]. split; [done|lia].
      * right. eexists. split; [done|]. cbn [fst snd bucket_values]. split; [done|]. split; [done|]. by apply (slots_of_nonempty i).
  - done.
  - destruct Hst. lia.
  - by exists m, it'.
Qed.

Lemma safe_next_started it : started it ->
  exists it', safe_next fuel q it = Ok (head (safe_rest it), it') /\ started it' /\ safe_rest it' = tail (safe_rest it).
Proof.
  intros Hst. pose proof Hst as [Hs Hb]. pose proof q_buckets as Hq. pose proof (ih_pos _ _ _ (qh_table _ _ _ HQ)) as Hp.
  unfold safe_next. rewrite (proj2 (Z.eqb_neq (sbuckets it) 0)) by lia.
  assert (Hpop : forall it1, started it1 -> safe_rest it1 = safe_rest it -> bucket_values it1 <> [] ->
    exists it', match last (bucket_values it1) with
      | Some sl => Ok (Some (skey sl, svalue sl), SafeIt (bucket it1) (sbuckets it1) (removelast (bucket_values it1)))
      | None => Stop EmptyContainer end = Ok (head (safe_rest it), it') /\ started it' /\ safe_rest it' = tail (safe_rest it)).
  { intros it1 Hst1 <- Hne. unfold safe_rest. destruct (bucket_values it1) as [|sl vs _] using rev_ind; [done|]. rewrite last_snoc, removelast_last, rev_app_distr.
    eexists. split; [done|]. split; [exact Hst1|]. done. }
  destruct (bucket_values it) as [|sl vs] eqn:Ev.
  - destruct (refill_until_ok it Hst Ev) as (m & it1 & -> & Hst1 & ER & Hm). cbn [mbind res_bind]. destruct m.
    + by apply Hpop.
    + rewrite Hm in *. exists it1. split; [done|]. split; [done|]. by rewrite ER.
  - cbn [mbind res_bind]. apply (Hpop it); [done|done|]. by rewrite Ev.
Qed.

Lemma safe_next_fresh : safe_next fuel q safe_reset = safe_next fuel q (SafeIt 0 (Z.of_nat (length ch)) []).
Proof.
  pose proof q_buckets as Hq. pose proof (ih_pos _ _ _ (qh_table _ _ _ HQ)) as Hp. unfold safe_next. cbn [sbuckets safe_reset bucket bucket_values Z.eqb].
  rewrite (proj2 (Z.eqb_neq (Z.of_nat (length ch)) 0)) by lia. by rewrite Hq.
Qed.

Lemma safe_rest_perm : safe_rest (SafeIt 0 (Z.of_nat (length ch)) []) ≡ₚ map_to_list M.
Proof.
  rewrite <- (pairs_perm q ch M HQ). unfold safe_rest. cbn [bucket_values bucket rev fmap list_fmap app]. change (Z.to_nat 0) with 0. rewrite drop_0.
  assert (Hl : forall l, kv_of <$> rev (slots_of l) ≡ₚ pairs q l).
  { intros l. rewrite <- Permutation_rev. unfold slots_of, pairs, kv_at, kv_of. induction l as [|x l IH]; [done|]. cbn. destruct (slots q !! x); cbn; by rewrite IH. }
  clear -Hl. induction ch as [|l k IH]; [done|]. cbn. rewrite Hl, IH. unfold pairs. by rewrite omap_app.
Qed.

Lemma safe_pairs_ok : exists l, safe_pairs fuel q = Ok l /\ l ≡ₚ map_to_list M.
Proof.
  exists (safe_rest (SafeIt 0 (Z.of_nat (length ch)) [])). split; [|apply safe_rest_perm]. unfold safe_pairs.
  match goal with |- loop _ ?b _ = _ => set (body := b) end.
  assert (Hrun : forall n it acc, started it -> length (safe_rest it) < n -> loop n body (it, acc) = Ok (acc ++ safe_rest it)).
  { induction n as [|n IH]; intros it acc Hst Hn; [lia|]. rewrite loop_step. unfold body at 1. destruct (safe_next_started it Hst) as (it' & -> & Hst' & ER).
    cbn [mbind res_bind]. destruct (safe_rest it) as [|kv r]; cbn [head tail] in *; [by rewrite app_nil_r|]. rewrite IH, ER; [by rewrite <- (assoc_L app)|done|]. rewrite ER. cbn in Hn. lia. }
  assert (Hst : started (SafeIt 0 (Z.of_nat (length ch)) [])) by (split; cbn; lia).
  assert (Hn : length (safe_rest (SafeIt 0 (Z.of_nat (length ch)) [])) < fuel) by (rewrite safe_rest_perm, length_map_to_list; done).
  transitivity (loop fuel body (SafeIt 0 (Z.of_nat (length ch)) [], [])); [|by rewrite Hrun].
  assert (He : forall n s s', body s = body s' -> loop n body s = loop n body s') by (intros [|n] s s' Es; [done|by rewrite !loop_step, Es]).
  apply He. unfold body. by rewrite safe_next_fresh.
Qed.
End Safe.
End Facts.

(** * Sequences of operations *)
Inductive qop (K V : Type) : Type :=
| QInsert (k : K) (v : V)
| QInsertDefault (k : K)
| QRemove (k : K)
| QRemoveGet (k : K)
| QLookup (k : K)
| QClear.
Arguments QInsert {K V} _ _.
Arguments QInsertDefault {K V} _.
Arguments QRemove {K V} _.
Arguments QRemoveGet {K V} _.
Arguments QLookup {K V} _.
Arguments QClear {K V}.

Section Sequences.
Context `{IhashGrowOk} `{Countable K} {V : Type} (hash : K -> Z) (eq : K -> K -> bool) (new : gset nat -> nat) (V_ : V).
Context (eq_spec : forall a b, eq a b = true <-> a = b) (new_fresh : forall D, new D ∉ D).

Definition run_qop (fuel : nat) (op : qop K V) (q : qhash K V) : res (qhash K V * option V) :=
  match op with
  | QInsert k v => q ← insert hash eq new fuel k v q; Ok (q, None)
  | QInsertDefault k => q ← insert_default hash eq new V_ fuel k q; Ok (q, None)
  | QRemove k => q ← remove hash eq fuel k q; Ok (q, None)
  | QRemoveGet k => remove_get hash eq fuel k q
  | QLookup k => v ← lookup hash eq fuel k q; Ok (q, v)
  | QClear => q ← clear fuel q; Ok (q, None)
  end.
Definition spec_qop (op : qop K V) (M : gmap K V) : gmap K V * option V :=
  match op with
  | QInsert k v => (<[k := v]> M, None)
  | QInsertDefault k => (<[k := V_]> M, None)
  | QRemove k => (delete k M, None)
  | QRemoveGet k => (delete k M, M !! k)
  | QLookup k => (M, M !! k)
  | QClear => (∅, None)
  end.
(** As long as there are fewer keys than the fuel and than a [size_t] counts. *)
Definition qop_may (fuel : nat) (op : qop K V) (M : gmap K V) : Prop := size M < fuel /\ (Z.of_nat (size M) < SIZE_MAX)%Z.

Definition qh_holds (M : gmap K V) (q : qhash K V) : Prop := exists ch, qh_ok hash q ch M.

Lemma run_qop_ok fuel op q M : qh_holds M q -> qop_may fuel op M ->
  exists q', run_qop fuel op q = Ok (q', (spec_qop op M).2) /\ qh_holds (spec_qop op M).1 q'.
Proof.
  intros [ch HQ] [Hf Hmax]. assert (Hmax' : (Z.of_nat (size M) <= SIZE_MAX)%Z) by lia.
  destruct op as [k v|k|k|k|k|]; cbn [run_qop spec_qop fst snd].
  - destruct (insert_ok hash eq new eq_spec new_fresh q ch M fuel k v HQ Hf Hmax) as (q' & ch' & -> & HQ'). exists q'. split; [done|]. by exists ch'.
  - destruct (insert_ok hash eq new eq_spec new_fresh q ch M fuel k V_ HQ Hf Hmax) as (q' & ch' & E & HQ'). unfold insert in E. unfold insert_default. rewrite E.
    exists q'. split; [done|]. by exists ch'.
  - unfold remove. destruct (getslot_ok hash eq eq_spec q ch M fuel k HQ Hf) as (o & -> & Ho). cbn [mbind res_bind]. destruct o as [x|].
    + destruct Ho as (v & Hx & _). destruct (delslot_ok' hash q ch M x k v HQ Hx Hmax') as (q' & ch' & -> & HQ'). exists q'. split; [done|]. by exists ch'.
    + exists q. split; [done|]. exists ch. by rewrite delete_id.
  - unfold remove_get. destruct (getslot_ok hash eq eq_spec q ch M fuel k HQ Hf) as (o & -> & Ho). cbn [mbind res_bind]. destruct o as [x|].
    + destruct Ho as (v & Hx & Hk). unfold slot_at. rewrite Hx. cbn [mbind res_bind svalue].
      destruct (delslot_ok' hash q ch M x k v HQ Hx Hmax') as (q' & ch' & -> & HQ'). exists q'. rewrite Hk. split; [done|]. by exists ch'.
    + exists q. rewrite Ho. split; [done|]. exists ch. by rewrite delete_id.
  - unfold lookup, at_key. destruct (getslot_ok hash eq eq_spec q ch M fuel k HQ Hf) as (o & -> & Ho). cbn [mbind res_bind]. exists q. split; [|by exists ch].
    destruct o as [x|]; cbn [mbind res_bind]; [|by rewrite Ho]. destruct Ho as (v & Hx & Hk). unfold slot_at. rewrite Hx. cbn [mbind res_bind svalue]. by rewrite Hk.
  - destruct (qh_clear_ok hash q ch M fuel HQ Hf Hmax') as (q' & ch' & -> & HQ'). exists q'. split; [done|]. by exists ch'.
Qed.

(** C7: a [qhash] does what a finite map does: after any sequence of insertions, removals, look-ups and
    clearings every answer is the map's, [size] is its number of keys, the iterator and the safe iterator visit
    each pair of it once, and a copy holds the same map. *)
Theorem qhash_refines ops fuel : may_all spec_qop (qop_may fuel) ops ∅ ->
  exists q, (q ← qh_empty; run_all (run_qop fuel) ops q) = Ok (q, (spec_all spec_qop ops ∅).2) /\
  let M := (spec_all spec_qop ops ∅).1 in
  ihash_size (core q) = Z.of_nat (size M) /\
  (size M < fuel -> (Z.of_nat (size M) < SIZE_MAX)%Z ->
    (forall k, lookup hash eq fuel k q = Ok (M !! k)) /\
    (exists l, qh_pairs fuel q = Ok l /\ l ≡ₚ map_to_list M) /\
    ((buckets (core q) <= SIZE_MAX)%Z -> exists l, safe_pairs fuel q = Ok l /\ l ≡ₚ map_to_list M) /\
    (exists q', qh_copy hash eq new fuel q = Ok q' /\ qh_holds M q')).
Proof.
  intros Hm. destruct (qh_empty_ok (K := K) (V := V) hash) as (q0 & ch0 & E0 & HQ0). rewrite E0. cbn [mbind res_bind].
  destruct (run_all_refines (run_qop fuel) spec_qop (qop_may fuel) (fun q M => qh_holds M q) (fun op q M => run_qop_ok fuel op q M) ops q0 ∅)
    as (q & -> & ch & HQ); [by exists ch0|done|]. exists q. split; [done|]. cbv zeta. set (M := (spec_all spec_qop ops ∅).1) in *. split.
  - unfold ihash_size. rewrite (ih_entries _ _ _ (qh_table _ _ _ _ HQ)). unfold hashes. rewrite map_size_fmap. by rewrite (qh_size hash q ch M HQ).
  - intros Hf Hmax. assert (Hmax' : (Z.of_nat (size M) <= SIZE_MAX)%Z) by lia. split_and!.
    + intros k. destruct (run_qop_ok fuel (QLookup k) q M) as (q' & E & _); [by exists ch|done|]. cbn [run_qop spec_qop snd] in E.
      apply bind_Ok_inv in E as (o & -> & [= _ ->]). done.
    + by apply (qh_pairs_ok hash q ch).
    + intros Hb. by apply (safe_pairs_ok hash q ch).
    + destruct (qh_copy_ok hash eq new eq_spec new_fresh q ch M fuel HQ Hf Hmax') as (q' & ch' & E & HQ'). exists q'. split; [done|]. by exists ch'.
Qed.
End Sequences.

Definition new_address (D : gset nat) : nat := fresh D.
Lemma new_address_fresh D : new_address D ∉ D.
Proof. apply is_fresh. Qed.

Lemma qhash_refines_witness : exists q,
  (q ← qh_empty; run_all (run_qop Z.abs Z.eqb new_address 0%Z 9) [QInsert 3 30; QInsert (-3) 33; QInsert 3 31; QLookup 3; QInsertDefault 4; QRemoveGet (-3); QLookup (-3)]%Z q)
    = Ok (q, [None; None; None; Some 31; None; Some 33; None]%Z) /\
  ihash_size (core q) = 2%Z /\ lookup Z.abs Z.eqb 9 4%Z q = Ok (Some 0%Z).
Proof.
  destruct (qhash_refines Z.abs Z.eqb new_address 0%Z) with (fuel := 9)
    (ops := [QInsert 3 30; QInsert (-3) 33; QInsert 3 31; QLookup 3; QInsertDefault 4; QRemoveGet (-3); QLookup (-3)]%Z) as (q & E & Hs & HL).
  - apply Z.eqb_eq.
  - apply new_address_fresh.
  - vm_compute. intuition (lia || discriminate).
  - exists q. split; [exact E|]. split; [rewrite Hs; vm_compute; reflexivity|]. destruct HL as [HL _]; [vm_compute; lia|vm_compute; reflexivity|].
    rewrite HL. vm_compute. reflexivity.
Defined.

(** * Sets *)
Inductive bop (K : Type) : Type := BInsert (k : K) | BRemove (k : K) | BMem (k : K) | BClear.
Arguments BInsert {K} _.
Arguments BRemove {K} _.
Arguments BMem {K} _.
Arguments BClear {K}.

Section Sets.
Context `{IhashGrowOk} `{Countable K} (hash : K -> Z) (eq : K -> K -> bool) (new : gset nat -> nat).
Context (eq_spec : forall a b, eq a b = true <-> a = b) (new_fresh : forall D, new D ∉ D).

(** The keys of the table. *)
Definition bh_ok (b : qhash K unit) (ch : list (list nat)) (X : gset K) : Prop := qh_ok hash b ch (gset_to_gmap tt X).

Lemma bh_size (X : gset K) : size (gset_to_gmap tt X) = size X.
Proof. by rewrite <- size_dom, dom_gset_to_gmap. Qed.

Lemma bh_insert_set (X : gset K) k : <[k := tt]> (gset_to_gmap tt X) = gset_to_gmap tt ({[k]} ∪ X).
Proof. by rewrite gset_to_gmap_union_singleton. Qed.

Lemma bh_delete_set (X : gset K) k : delete k (gset_to_gmap tt X) = gset_to_gmap tt (X ∖ {[k]}).
Proof.
  apply map_eq. intros k'. destruct (decide (k' = k)) as [->|Hne].
  - rewrite lookup_delete_eq. symmetry. apply lookup_gset_to_gmap_None. set_solver.
  - rewrite lookup_delete_ne by done. apply option_eq. intros []. rewrite !lookup_gset_to_gmap_Some. set_solver.
Qed.

Lemma bh_member (X : gset K) k : bool_decide (k ∈ X) = bool_decide (gset_to_gmap tt X !! k <> None).
Proof.
  apply bool_decide_ext. split.
  - intros Hk Hn. by apply lookup_gset_to_gmap_None in Hn.
  - intros Hn. destruct (gset_to_gmap tt X !! k) eqn:E; [|done]. by apply lookup_gset_to_gmap_Some in E as [? _].
Qed.

Lemma b_clear_ok b ch X fuel : bh_ok b ch X -> size X < fuel -> exists b' ch', b_clear fuel b = Ok b' /\ bh_ok b' ch' ∅.
Proof.
  intros HB Hf. pose proof (qh_mem_size hash b ch _ HB) as Hs. rewrite bh_size in Hs. pose proof (qh_table _ _ _ _ HB) as [HC Hb Hn]. unfold b_clear.
  destruct (traverse_drop_ok (fun n (sls : gmap nat (slot K unit)) => delete n sls) (core b) ch _ fuel (slots b) HC) as (t & -> & HD); [by rewrite Hs|].
  cbn [mbind res_bind]. unfold Ihash.clear. destruct (init_ok t) as (t' & ch' & -> & HI & HD'). cbn [mbind res_bind].
  assert (E0 : foldl (fun (sls : gmap nat (slot K unit)) n => delete n sls) (slots b) (concat ch) = ∅).
  { assert (Hg : forall l (sls : gmap nat (slot K unit)) y, foldl (fun sls n => delete n sls) sls l !! y = if decide (y ∈ l) then None else sls !! y).
    { induction l as [|x l IH]; intros sls y; [by rewrite decide_False by apply not_elem_of_nil|]. cbn [foldl]. rewrite IH. destruct (decide (y = x)) as [->|Hy].
      - rewrite lookup_delete_eq, (decide_True (P := x ∈ x :: l)) by by left. by destruct (decide _).
      - rewrite lookup_delete_ne by done. apply decide_ext. rewrite elem_of_cons. tauto. }
    apply map_empty. intros y. rewrite Hg. destruct (decide (y ∈ concat ch)) as [|Hy]; [done|]. apply eq_None_not_Some. by rewrite <- (qh_slot hash b ch _ y HB). }
  rewrite E0. eexists _, ch'. split; [done|]. unfold bh_ok. rewrite gset_to_gmap_empty. split; cbn [core slots].
  - unfold hashes. by rewrite fmap_empty.
  - done.
  - intros k v. split; [done|by intros [x ?]].
  - rewrite HD', HD, (qh_mem _ _ _ _ HB). unfold hashes. rewrite dom_fmap_L. set_solver.
Qed.

Definition run_bop (fuel : nat) (op : bop K) (b : qhash K unit) : res (qhash K unit * bool) :=
  match op with
  | BInsert k => b_insert hash eq new fuel k b
  | BRemove k => b ← b_remove hash eq fuel k b; Ok (b, true)
  | BMem k => r ← b_mem hash eq fuel k b; Ok (b, r)
  | BClear => b ← b_clear fuel b; Ok (b, true)
  end.
Definition spec_bop (op : bop K) (X : gset K) : gset K * bool :=
  match op with
  | BInsert k => ({[k]} ∪ X, bool_decide (k ∉ X))
  | BRemove k => (X ∖ {[k]}, true)
  | BMem k => (X, bool_decide (k ∈ X))
  | BClear => (∅, true)
  end.
Definition bop_may (fuel : nat) (op : bop K) (X : gset K) : Prop := size X < fuel /\ (Z.of_nat (size X) < SIZE_MAX)%Z.
Definition bh_holds (X : gset K) (b : qhash K unit) : Prop := exists ch, bh_ok b ch X.

Lemma run_setop_ok fuel op b X : bh_holds X b -> bop_may fuel op X ->
  exists b', run_bop fuel op b = Ok (b', (spec_bop op X).2) /\ bh_holds (spec_bop op X).1 b'.
Proof.
  intros [ch HB] [Hf Hmax]. assert (Hmax' : (Z.of_nat (size (gset_to_gmap tt X)) <= SIZE_MAX)%Z) by (rewrite bh_size; lia).
  assert (Hf' : size (gset_to_gmap tt X) < fuel) by by rewrite bh_size.
  assert (Hget : forall k, exists o, b_getslot hash eq fuel k b = Ok o /\
    match o with Some x => slots b !! x = Some (Slot k tt) /\ k ∈ X | None => k ∉ X end).
  { intros k. destruct (getslot_ok hash eq eq_spec b ch _ fuel k HB Hf') as (o & E & Ho). exists o. split; [exact E|]. destruct o as [x|].
    - destruct Ho as ([] & Hx & Hk). split; [done|]. by apply lookup_gset_to_gmap_Some in Hk as [? _].
    - by apply lookup_gset_to_gmap_None in Ho. }
  destruct op as [k|k|k|]; cbn [run_bop spec_bop fst snd].
  - unfold b_insert. destruct (Hget k) as (o & -> & Ho). cbn [mbind res_bind]. destruct o as [x|].
    + destruct Ho as [_ Hk]. exists b. rewrite bool_decide_eq_false_2 by tauto. split; [done|]. exists ch. by replace ({[k]} ∪ X) with X by set_solver.
    + destruct (add_slot_ok hash new new_fresh b ch _ k tt HB) as (b' & ch' & -> & HB'); [by apply lookup_gset_to_gmap_None|by rewrite bh_size|].
      cbn [mbind res_bind]. exists b'. rewrite bool_decide_eq_true_2 by done. split; [done|]. exists ch'. unfold bh_ok. by rewrite <- bh_insert_set.
  - unfold b_remove, b_delslot. destruct (Hget k) as (o & -> & Ho). cbn [mbind res_bind]. destruct o as [x|].
    + destruct Ho as [Hx _]. destruct (delslot_ok' hash b ch _ x k tt HB Hx Hmax') as (b' & ch' & -> & HB'). exists b'. split; [done|]. exists ch'.
      unfold bh_ok. by rewrite <- bh_delete_set.
    + exists b. split; [done|]. exists ch. by replace (X ∖ {[k]}) with X by set_solver.
  - unfold b_mem. destruct (Hget k) as (o & -> & Ho). cbn [mbind res_bind]. exists b. split; [|by exists ch]. do 2 f_equal. apply bool_decide_ext.
    destruct o as [x|]; [by split; intros; [apply Ho|]|]. by split.
  - destruct (b_clear_ok b ch X fuel HB Hf) as (b' & ch' & -> & HB'). exists b'. split; [done|]. by exists ch'.
Qed.

(** A [bhash] does what a finite set does: [insert] says whether the key is new, [operator[]] whether it
    is in the set, and the iterator visits each key once. *)
Theorem bhash_refines ops fuel : may_all spec_bop (bop_may fuel) ops ∅ ->
  exists b, (b ← qh_empty; run_all (run_bop fuel) ops b) = Ok (b, (spec_all spec_bop ops ∅).2) /\
  let X := (spec_all spec_bop ops ∅).1 in
  (size X < fuel -> exists l, b_keys fuel b = Ok l /\ l ≡ₚ elements X).
Proof.
  intros Hm. destruct (qh_empty_ok (K := K) (V := unit) hash) as (b0 & ch0 & -> & HB0). cbn [mbind res_bind].
  destruct (run_all_refines (run_bop fuel) spec_bop (bop_may fuel) (fun b X => bh_holds X b) (fun op b X => run_setop_ok fuel op b X) ops b0 ∅)
    as (b & -> & ch & HB); [exists ch0; unfold bh_ok; by rewrite gset_to_gmap_empty|done|]. exists b. split; [done|]. cbv zeta. set (X := (spec_all spec_bop ops ∅).1) in *.
  intros Hf. destruct (qh_collect_ok hash b ch _ fuel HB) as (l & E & Hl); [by rewrite bh_size|]. exists (pairs b (concat ch)).*1. split.
  - pose proof (qh_enumerates hash b ch _ HB) as HE. unfold b_keys. unfold qh_begin in HE. rewrite (en_first _ _ _ HE). cbn [mbind res_bind].
    assert (Ef : forall l, (pairs b l).*1 = omap (fun x => fst <$> kv_at b x) l).
    { unfold pairs. clear. induction l as [|x l IH]; [done|]. cbn. destruct (kv_at b x); cbn; by rewrite IH. }
    rewrite Ef. apply (collect_loop (fun x => fst <$> kv_at b x)); [done| |by rewrite (qh_concat_length hash b ch _ HB), bh_size].
    intros L1 x L2 acc EL. assert (Hx : x ∈ concat ch) by (rewrite EL; apply elem_of_app; right; by left). apply (qh_slot hash b ch _ x HB) in Hx as [[k v] Hx].
    exists k. split; [by rewrite (proj2 (kv_at_Some b x k v) Hx)|]. unfold b_next, slot_at. rewrite Hx. cbn [mbind res_bind skey]. by rewrite (en_next _ _ _ HE L1 x L2 EL).
  - rewrite (pairs_perm hash b ch _ HB). apply NoDup_Permutation.
    + apply NoDup_fst_map_to_list.
    + apply NoDup_elements.
    + intros k. rewrite list_elem_of_fmap, elem_of_elements. split.
      * intros ([k' []] & -> & Hk). apply elem_of_map_to_list, lookup_gset_to_gmap_Some in Hk as [? _]. done.
      * intros Hk. exists (k, tt). split; [done|]. apply elem_of_map_to_list. by apply lookup_gset_to_gmap_Some.
Qed.
End Sets.

Lemma bhash_refines_witness : exists b,
  (b ← qh_empty; run_all (run_bop Z.abs Z.eqb new_address 9) [BInsert 3; BInsert (-3); BInsert 3; BMem 3; BRemove 3; BMem 3; BInsert 5]%Z b)
    = Ok (b, [true; true; false; true; true; false; true]) /\ exists l, b_keys 9 b = Ok l /\ l ≡ₚ [-3; 5]%Z.
Proof.
  destruct (bhash_refines Z.abs Z.eqb new_address) with (fuel := 9) (ops := [BInsert 3; BInsert (-3); BInsert 3; BMem 3; BRemove 3; BMem 3; BInsert 5]%Z) as (b & E & HL).
  - apply Z.eqb_eq.
  - apply new_address_fresh.
  - vm_compute. intuition (lia || discriminate).
  - exists b. split; [exact E|]. destruct HL as (l & El & Hl); [vm_compute; lia|]. exists l. split; [exact El|]. rewrite Hl.
    vm_compute. reflexivity.
Defined.

(** * What goes wrong *)
Definition sample_ops : list (qop Z Z) := [QInsert 1 10; QInsert 2 20]%Z.
Definition sample_map : res (qhash Z Z) := q ← qh_empty; '(q, _) ← run_all (run_qop Z.abs Z.eqb new_address 0%Z 9) sample_ops q; Ok q.

(** A map assigned to itself is empty afterwards. *)
Example assign_self_loses_all : (q ← sample_map; q ← qh_assign_self Z.abs Z.eqb new_address 9 q; qh_pairs 9 q) = Ok [] /\
  (q ← sample_map; qh_pairs 9 q) = Ok [(1, 10); (2, 20)]%Z.
Proof. vm_compute. auto. Qed.

(** The constructor from a list keeps two slots with one key: removing the key leaves the older value. *)
Example list_keeps_duplicates :
  (q ← qh_of_list Z.abs new_address [Slot 1 10; Slot 1 11]%Z; a ← lookup Z.abs Z.eqb 9 1%Z q; q ← remove Z.abs Z.eqb 9 1%Z q;
   b ← lookup Z.abs Z.eqb 9 1%Z q; Ok (a, b)) = Ok (Some 11, Some 10)%Z.
Proof. vm_compute. reflexivity. Qed.

(** Removing the key an iterator will visit next leaves it with a dangling pointer; the one with
    copies goes on. *)
Example iterator_dangles :
  (q ← sample_map; it ← qh_begin q; q ← remove Z.abs Z.eqb 9 1%Z q; qh_next it q) = Stop Dangling /\
  (q ← sample_map; '(a, it) ← safe_next 9 q safe_reset; q ← remove Z.abs Z.eqb 9 2%Z q; '(b, _) ← safe_next 9 q it; Ok (a, b)) = Ok (Some (1, 10), None)%Z.
Proof. vm_compute. auto. Qed.
