(* ===== verification/Bitvec.v ===== *)
(** The bit vectors of src/deps/sfslite-1.2/bitvec.h: bits packed into 64-bit words that grow by
    [realloc], ranges set at once, and a search for the first bit that is not set. *)
From S2P Require Import Prelude Words.

Definition mapbits : Z := 64.
Definition all_ones : Z := 2 ^ 64 - 1.

Record bitvec : Type := BV { map : list Z; nbits : Z }.

(** Words of [nb] bits: [nbytes (nb)] over the size of a word. *)
Definition nwords (nb : Z) : Z := (u64 (nb + mapbits - 1) / mapbits)%Z.

(** [datalloc]; memory that [realloc] adds holds whatever [junk] says. *)
Definition datalloc (junk : nat -> Z) (nb : Z) (m : list Z) : list Z :=
  if (nb =? 0)%Z then [] else
  let n := Z.to_nat (nwords nb) in
  take n m ++ (junk <$> seq (length m) (n - length m)).

(** [map_t (-1) << b]. *)
Definition ones_from (b : Z) : Z := u64 (Z.shiftl all_ones b).

(** [map[i] |= x], [map[i] &= x]. *)
Definition or_word (m : list Z) (i x : Z) : res (list Z) := w ← aget m i; aset m i (Z.lor w x).
Definition and_word (m : list Z) (i x : Z) : res (list Z) := w ← aget m i; aset m i (Z.land w x).
(** [memset (&map[i], ..., n)] with whole words. *)
Fixpoint set_words (todo : nat) (i x : Z) (m : list Z) : res (list Z) :=
  match todo with O => Ok m | S todo => m ← aset m i x; set_words todo (i + 1) x m end.

Definition range_set (s e : Z) (m : list Z) : res (list Z) :=
  let sp := (s / mapbits)%Z in let ep := (e / mapbits)%Z in
  let sb := (s mod mapbits)%Z in let eb := (e mod mapbits)%Z in
  if (sp =? ep)%Z then
    if (eb =? 0)%Z then Ok m else or_word m sp (Z.land (ones_from sb) (not_word (ones_from eb)))
  else
    m ← or_word m sp (ones_from sb);
    m ← (if (eb =? 0)%Z then Ok m else or_word m ep (not_word (ones_from eb)));
    set_words (Z.to_nat (ep - sp - 1)) (sp + 1) all_ones m.

Definition range_clr (s e : Z) (m : list Z) : res (list Z) :=
  let sp := (s / mapbits)%Z in let ep := (e / mapbits)%Z in
  let sb := (s mod mapbits)%Z in let eb := (e mod mapbits)%Z in
  if (sp =? ep)%Z then
    if (eb =? 0)%Z then Ok m else and_word m sp (Z.lor (not_word (ones_from sb)) (ones_from eb))
  else
    m ← and_word m sp (not_word (ones_from sb));
    m ← (if (eb =? 0)%Z then Ok m else and_word m ep (ones_from eb));
    set_words (Z.to_nat (ep - sp - 1)) (sp + 1) 0 m.

Definition setsize (junk : nat -> Z) (n : Z) (v : bitvec) : bitvec := BV (datalloc junk n (map v)) n.
Definition zsetsize (junk : nat -> Z) (n : Z) (v : bitvec) : res bitvec :=
  let m := datalloc junk n (map v) in
  m ← (if (nbits v <? n)%Z then range_clr (nbits v) n m else Ok m);
  Ok (BV m n).
Definition osetsize (junk : nat -> Z) (n : Z) (v : bitvec) : res bitvec :=
  let m := datalloc junk n (map v) in
  m ← (if (nbits v <? n)%Z then range_set (nbits v) n m else Ok m);
  Ok (BV m n).

Definition bv_size (v : bitvec) : Z := nbits v.

(** [at] and [operator[]]: the index is converted to [size_t]. *)
Definition at_bit (i : Z) (v : bitvec) : res bool :=
  w ← aget (map v) (u64 i / mapbits); Ok (negb (Z.land w (one_bit (u64 i mod mapbits)) =? 0)%Z).
Definition setbit (i : Z) (val : bool) (v : bitvec) : res bitvec :=
  m ← (if val then or_word (map v) (u64 i / mapbits) (one_bit (u64 i mod mapbits))
       else and_word (map v) (u64 i / mapbits) (not_word (one_bit (u64 i mod mapbits))));
  Ok (BV m (nbits v)).
Definition setrange (s e : Z) (b : bool) (v : bitvec) : res bitvec :=
  m ← (if b then range_set s e (map v) else range_clr s e (map v));
  Ok (BV m (nbits v)).

(** [v[i] = b] and [v[i] ^= b] through a [wbit]. *)
Definition wbit_assign (i : Z) (b : bool) (v : bitvec) : res bitvec :=
  m ← (if b then or_word (map v) (u64 i / mapbits) (one_bit (u64 i mod mapbits))
       else and_word (map v) (u64 i / mapbits) (not_word (one_bit (u64 i mod mapbits))));
  Ok (BV m (nbits v)).
Definition wbit_xor (i : Z) (b : bool) (v : bitvec) : res bitvec :=
  w ← aget (map v) (u64 i / mapbits);
  m ← aset (map v) (u64 i / mapbits) (Z.lxor w (u64 (Z.shiftl (Z.b2z b) (u64 i mod mapbits))));
  Ok (BV m (nbits v)).

(** [operator=]: the words of [v] are copied over the whole array. *)
Definition bv_assign (junk : nat -> Z) (v w : bitvec) : res bitvec :=
  let r := setsize junk (nbits v) w in
  let n := Z.to_nat (nwords (nbits r)) in
  if decide (n <= length (map v)) then Ok (BV (take n (map v) ++ drop n (map r)) (nbits r)) else Stop OutOfBounds.

(** [first_unset_bit]: the bits of one word, then the words; [ret] is an [int], so that an index from [2 ^ 31] on may
    come out negative, and then the loops go on. *)
Fixpoint unset_in_word (todo : nat) (ret tmp bitindex : Z) : Z * Z :=
  match todo with
  | O => (ret, bitindex)
  | S todo =>
      if negb (ret <? 0)%Z then (ret, bitindex)
      else if Z.odd tmp then unset_in_word todo (i32 bitindex) tmp bitindex
      else unset_in_word todo ret (Z.shiftr tmp 1) (bitindex + 1)
  end.
Fixpoint unset_in_words (todo : nat) (i bitindex : Z) (m : list Z) : res Z :=
  match todo with
  | O => Ok (-1)%Z
  | S todo =>
      w ← aget m i;
      let tmp := Z.lxor w all_ones in
      if (tmp =? 0)%Z then unset_in_words todo (i + 1) (bitindex + mapbits) m
      else
        let '(ret, bitindex) := unset_in_word 64 (-1) tmp bitindex in
        c_assert (0 <=? ret)%Z;;
        Ok ret
  end.
Definition first_unset_bit (v : bitvec) : res Z :=
  unset_in_words (Z.to_nat (nbits v / mapbits + 1)) 0 0 (map v).

(** [strbuf_cat]: a character for each bit. *)
Fixpoint bit_chars (todo : nat) (i : Z) (v : bitvec) : res (list Z) :=
  match todo with
  | O => Ok []
  | S todo => b ← at_bit i v; r ← bit_chars todo (i + 1) v; Ok ((if b : bool then 49 else 48)%Z :: r)
  end.
Definition strbuf_cat (v : bitvec) : res (list Z) := bit_chars (Z.to_nat (nbits v)) 0 v.

Definition bv_swap (a b : bitvec) : bitvec * bitvec := (BV (map b) (nbits b), BV (map a) (nbits a)).

(** * Bits of an array of words *)
Definition bit (m : list Z) (k : nat) : bool := match m !! (k / 64) with Some w => Z.testbit w (Z.of_nat (k mod 64)) | None => false end.

Lemma mod64_range k : (0 <= Z.of_nat (k mod 64) < 64)%Z.
Proof. pose proof (Nat.mod_upper_bound k 64). lia. Qed.

Lemma bit_insert m p w k : p < length m -> bit (<[p := w]> m) k = if decide (k / 64 = p) then Z.testbit w (Z.of_nat (k mod 64)) else bit m k.
Proof.
  intros Hp. unfold bit. destruct (decide (k / 64 = p)) as [->|Hne]; [by rewrite list_lookup_insert_eq|by rewrite list_lookup_insert_ne].
Qed.

Lemma ones_from_bit b j : (0 <= b < 64)%Z -> (0 <= j < 64)%Z -> Z.testbit (ones_from b) j = (b <=? j)%Z.
Proof.
  intros Hb Hj. unfold ones_from. rewrite u64_bit, Z.shiftl_spec by lia. destruct (Z.leb_spec b j).
  - unfold all_ones. replace (2 ^ 64 - 1)%Z with (Z.ones 64) by (by rewrite Z.ones_equiv). apply Z.ones_spec_low. lia.
  - apply Z.testbit_neg_r. lia.
Qed.

Lemma all_ones_bit j : (0 <= j < 64)%Z -> Z.testbit all_ones j = true.
Proof. intros Hj. unfold all_ones. replace (2 ^ 64 - 1)%Z with (Z.ones 64) by (by rewrite Z.ones_equiv). apply Z.ones_spec_low. lia. Qed.

(** The array [m'] is [m] with other words of the same number, its bits given by [f]. *)
Record rewritten (m m' : list Z) (f : nat -> bool) : Prop := {
  rw_len : length m' = length m;
  rw_words : Forall is_word m';
  rw_bits : forall k, bit m' k = f k;
}.

Lemma rewritten_id m : Forall is_word m -> rewritten m m (bit m).
Proof. by split. Qed.

Lemma rewrite_word m p w w' : Forall is_word m -> m !! p = Some w -> is_word w' ->
  aset m (Z.of_nat p) w' = Ok (<[p := w']> m) /\
  rewritten m (<[p := w']> m) (fun k => if decide (k / 64 = p) then Z.testbit w' (Z.of_nat (k mod 64)) else bit m k).
Proof.
  intros Hw Hp Hw'. pose proof (lookup_lt_Some _ _ _ Hp). split; [by apply aset_nat|]. split; [by rewrite length_insert|by apply Forall_insert|].
  intros k. by apply bit_insert.
Qed.

Lemma or_word_ok m p x : Forall is_word m -> p < length m -> is_word x ->
  exists m', or_word m (Z.of_nat p) x = Ok m' /\ rewritten m m' (fun k => bit m k || bool_decide (k / 64 = p) && Z.testbit x (Z.of_nat (k mod 64))).
Proof.
  intros Hw Hp Hx. destruct (lookup_lt_is_Some_2 m p Hp) as [w Hm]. unfold or_word. rewrite (aget_nat _ _ _ Hm). cbn [mbind res_bind].
  destruct (rewrite_word m p w (Z.lor w x) Hw Hm) as [E [E1 E2 E3]]; [apply is_word_lor; [by apply (Forall_lookup_1 _ _ _ _ Hw Hm)|done]|].
  rewrite E. eexists. split; [done|]. split; [done|done|]. intros k. rewrite E3. destruct (decide (k / 64 = p)) as [Ek|Ek].
  - rewrite bool_decide_eq_true_2 by done. rewrite Z.lor_spec. unfold bit. by rewrite Ek, Hm.
  - rewrite bool_decide_eq_false_2 by done. by rewrite orb_false_r.
Qed.

Lemma and_word_ok m p x : Forall is_word m -> p < length m ->
  exists m', and_word m (Z.of_nat p) x = Ok m' /\ rewritten m m' (fun k => bit m k && (bool_decide (k / 64 <> p) || Z.testbit x (Z.of_nat (k mod 64)))).
Proof.
  intros Hw Hp. destruct (lookup_lt_is_Some_2 m p Hp) as [w Hm]. unfold and_word. rewrite (aget_nat _ _ _ Hm). cbn [mbind res_bind].
  destruct (rewrite_word m p w (Z.land w x) Hw Hm) as [E [E1 E2 E3]]; [apply is_word_land; by apply (Forall_lookup_1 _ _ _ _ Hw Hm)|].
  rewrite E. eexists. split; [done|]. split; [done|done|]. intros k. rewrite E3. destruct (decide (k / 64 = p)) as [Ek|Ek].
  - rewrite bool_decide_eq_false_2 by tauto. rewrite Z.land_spec. unfold bit. by rewrite Ek, Hm.
  - rewrite bool_decide_eq_true_2 by done. by rewrite andb_true_r.
Qed.

Lemma set_words_ok x todo : forall m i, Forall is_word m -> is_word x -> i + todo <= length m ->
  exists m', set_words todo (Z.of_nat i) x m = Ok m' /\
    rewritten m m' (fun k => if decide (i <= k / 64 < i + todo) then Z.testbit x (Z.of_nat (k mod 64)) else bit m k).
Proof.
  induction todo as [|todo IH]; intros m i Hw Hx Hi; cbn [set_words].
  - exists m. split; [done|]. split; [done|done|]. intros k. by rewrite decide_False by lia.
  - destruct (lookup_lt_is_Some_2 m i) as [w Hm]; [lia|]. destruct (rewrite_word m i w x Hw Hm Hx) as [E [E1 E2 E3]]. rewrite E. cbn [mbind res_bind].
    destruct (IH (<[i := x]> m) (S i) E2 Hx) as (m' & E' & [F1 F2 F3]); [lia|].
    replace (Z.of_nat i + 1)%Z with (Z.of_nat (S i)) by lia. rewrite E'. exists m'. split; [done|]. split; [congruence|done|]. intros k. rewrite F3, E3.
    destruct (decide (S i <= k / 64 < S i + todo)); [by rewrite decide_True by lia|]. destruct (decide (k / 64 = i)); [by rewrite decide_True by lia|].
    by rewrite decide_False by lia.
Qed.

(** ** Ranges *)
Lemma div64 n : (Z.of_nat n / mapbits)%Z = Z.of_nat (n / 64).
Proof. change mapbits with (Z.of_nat 64). by rewrite Nat2Z.inj_div. Qed.
Lemma mod64 n : (Z.of_nat n mod mapbits)%Z = Z.of_nat (n mod 64).
Proof. change mapbits with (Z.of_nat 64). by rewrite Nat2Z.inj_mod. Qed.

(** Where a bit lies relative to a range. *)
Ltac bit_cases k s e :=
  pose proof (Nat.div_mod_eq k 64); pose proof (Nat.mod_upper_bound k 64);
  pose proof (Nat.div_mod_eq s 64); pose proof (Nat.mod_upper_bound s 64);
  pose proof (Nat.div_mod_eq e 64); pose proof (Nat.mod_upper_bound e 64);
  repeat (case_bool_decide || case_decide || match goal with |- context [(?a <=? ?b)%Z] => destruct (Z.leb_spec a b) end);
  cbn [andb orb negb]; try done; try lia.

(** The last, partial word of a range. *)
Lemma or_end_ok m e : Forall is_word m -> e <= 64 * length m ->
  exists m', (if (Z.of_nat (e mod 64) =? 0)%Z then Ok m else or_word m (Z.of_nat (e / 64)) (not_word (ones_from (Z.of_nat (e mod 64))))) = Ok m' /\
    rewritten m m' (fun k => bit m k || bool_decide (k / 64 = e / 64 /\ k mod 64 < e mod 64)).
Proof.
  intros Hw He. destruct (Z.eqb_spec (Z.of_nat (e mod 64)) 0) as [E0|E0].
  - exists m. split; [done|]. split; [done|done|]. intros k. rewrite bool_decide_eq_false_2 by lia. by rewrite orb_false_r.
  - destruct (or_word_ok m (e / 64) (not_word (ones_from (Z.of_nat (e mod 64)))) Hw) as (m' & -> & [E1 E2 E3]); [pose proof (Nat.div_mod_eq e 64); lia|apply is_word_not|].
    exists m'. split; [done|]. split; [done|done|]. intros k. rewrite E3, not_word_bit, ones_from_bit by apply mod64_range. destruct (bit m k); [done|]. cbn [orb].
    destruct (Z.leb_spec (Z.of_nat (e mod 64)) (Z.of_nat (k mod 64))); repeat case_bool_decide; cbn; done || lia.
Qed.

Lemma and_end_ok m e : Forall is_word m -> e <= 64 * length m ->
  exists m', (if (Z.of_nat (e mod 64) =? 0)%Z then Ok m else and_word m (Z.of_nat (e / 64)) (ones_from (Z.of_nat (e mod 64)))) = Ok m' /\
    rewritten m m' (fun k => bit m k && bool_decide (~ (k / 64 = e / 64 /\ k mod 64 < e mod 64))).
Proof.
  intros Hw He. destruct (Z.eqb_spec (Z.of_nat (e mod 64)) 0) as [E0|E0].
  - exists m. split; [done|]. split; [done|done|]. intros k. rewrite bool_decide_eq_true_2 by lia. by rewrite andb_true_r.
  - destruct (and_word_ok m (e / 64) (ones_from (Z.of_nat (e mod 64))) Hw) as (m' & -> & [E1 E2 E3]); [pose proof (Nat.div_mod_eq e 64); lia|].
    exists m'. split; [done|]. split; [done|done|]. intros k. rewrite E3, ones_from_bit by apply mod64_range. destruct (bit m k); [|done]. cbn [andb].
    destruct (Z.leb_spec (Z.of_nat (e mod 64)) (Z.of_nat (k mod 64))); repeat case_bool_decide; cbn; done || lia.
Qed.

Lemma range_set_ok m s e : Forall is_word m -> s <= e -> e <= 64 * length m ->
  exists m', range_set (Z.of_nat s) (Z.of_nat e) m = Ok m' /\ rewritten m m' (fun k => if decide (s <= k < e) then true else bit m k).
Proof.
  intros Hw Hse He. unfold range_set. rewrite !div64, !mod64. pose proof (Nat.Div0.div_le_mono s e 64 Hse) as Hd.
  pose proof (mod64_range s). pose proof (mod64_range e). destruct (Z.eqb_spec (Z.of_nat (s / 64)) (Z.of_nat (e / 64))) as [Ep|Ep].
  - destruct (Z.eqb_spec (Z.of_nat (e mod 64)) 0) as [E0|E0].
    + exists m. split; [done|]. split; [done|done|]. intros k. bit_cases k s e.
    + assert (Hp : s / 64 < length m) by (pose proof (Nat.div_mod_eq e 64); lia).
      destruct (or_word_ok m (s / 64) (Z.land (ones_from (Z.of_nat (s mod 64))) (not_word (ones_from (Z.of_nat (e mod 64))))) Hw Hp) as (m' & -> & [E1 E2 E3]).
      { apply is_word_land, is_word_u64. }
      exists m'. split; [done|]. split; [done|done|]. intros k. rewrite E3, Z.land_spec, not_word_bit, !ones_from_bit by (apply mod64_range || done).
      destruct (bit m k); bit_cases k s e.
  - assert (Hp : s / 64 < length m) by (pose proof (Nat.div_mod_eq e 64); lia).
    destruct (or_word_ok m (s / 64) (ones_from (Z.of_nat (s mod 64))) Hw Hp (is_word_u64 _)) as (m1 & -> & [E1 E2 E3]). cbn [mbind res_bind].
    destruct (or_end_ok m1 e E2) as (m2 & -> & [F1 F2 F3]); [lia|]. cbn [mbind res_bind].
    replace (Z.of_nat (s / 64) + 1)%Z with (Z.of_nat (S (s / 64))) by lia.
    destruct (set_words_ok all_ones (Z.to_nat (Z.of_nat (e / 64) - Z.of_nat (s / 64) - 1)) m2 (S (s / 64)) F2) as (m3 & -> & [G1 G2 G3]).
    + done.
    + pose proof (Nat.div_mod_eq e 64). lia.
    + exists m3. split; [done|]. split; [congruence|done|]. intros k. rewrite G3, F3, E3, all_ones_bit, ones_from_bit by (apply mod64_range || done).
      destruct (bit m k); bit_cases k s e.
Qed.

Lemma range_clr_ok m s e : Forall is_word m -> s <= e -> e <= 64 * length m ->
  exists m', range_clr (Z.of_nat s) (Z.of_nat e) m = Ok m' /\ rewritten m m' (fun k => if decide (s <= k < e) then false else bit m k).
Proof.
  intros Hw Hse He. unfold range_clr. rewrite !div64, !mod64. pose proof (Nat.Div0.div_le_mono s e 64 Hse) as Hd.
  pose proof (mod64_range s). pose proof (mod64_range e). destruct (Z.eqb_spec (Z.of_nat (s / 64)) (Z.of_nat (e / 64))) as [Ep|Ep].
  - destruct (Z.eqb_spec (Z.of_nat (e mod 64)) 0) as [E0|E0].
    + exists m. split; [done|]. split; [done|done|]. intros k. bit_cases k s e.
    + assert (Hp : s / 64 < length m) by (pose proof (Nat.div_mod_eq e 64); lia).
      destruct (and_word_ok m (s / 64) (Z.lor (not_word (ones_from (Z.of_nat (s mod 64)))) (ones_from (Z.of_nat (e mod 64)))) Hw Hp) as (m' & -> & [E1 E2 E3]).
      exists m'. split; [done|]. split; [done|done|]. intros k. rewrite E3, Z.lor_spec, not_word_bit, !ones_from_bit by (apply mod64_range || done).
      destruct (bit m k); bit_cases k s e.
  - assert (Hp : s / 64 < length m) by (pose proof (Nat.div_mod_eq e 64); lia).
    destruct (and_word_ok m (s / 64) (not_word (ones_from (Z.of_nat (s mod 64)))) Hw Hp) as (m1 & -> & [E1 E2 E3]). cbn [mbind res_bind].
    destruct (and_end_ok m1 e E2) as (m2 & -> & [F1 F2 F3]); [lia|]. cbn [mbind res_bind].
    replace (Z.of_nat (s / 64) + 1)%Z with (Z.of_nat (S (s / 64))) by lia.
    destruct (set_words_ok 0 (Z.to_nat (Z.of_nat (e / 64) - Z.of_nat (s / 64) - 1)) m2 (S (s / 64)) F2) as (m3 & -> & [G1 G2 G3]).
    + done.
    + pose proof (Nat.div_mod_eq e 64). lia.
    + exists m3. split; [done|]. split; [congruence|done|]. intros k. rewrite G3, F3, E3, Z.testbit_0_l, not_word_bit, ones_from_bit by (apply mod64_range || done).
      destruct (bit m k); bit_cases k s e.
Qed.

(** * A vector as a list of booleans *)
Record bv_ok (v : bitvec) (l : list bool) : Prop := {
  bv_len : nbits v = Z.of_nat (length l);
  bv_max : (Z.of_nat (length l) < 2 ^ 63)%Z;
  bv_words : Forall is_word (map v);
  bv_count : length (map v) = (length l + 63) / 64;
  bv_bits : forall k, k < length l -> l !! k = Some (bit (map v) k);
}.

Lemma bv_room v l : bv_ok v l -> length l <= 64 * length (map v).
Proof. intros H. rewrite (bv_count _ _ H). pose proof (Nat.div_mod_eq (length l + 63) 64). pose proof (Nat.mod_upper_bound (length l + 63) 64). lia. Qed.

Lemma nwords_nat n : (Z.of_nat n < 2 ^ 63)%Z -> nwords (Z.of_nat n) = Z.of_nat ((n + 63) / 64).
Proof.
  intros Hn. unfold nwords, u64. rewrite Z.mod_small by (change mapbits with 64%Z; lia). rewrite <- div64. f_equal. change mapbits with 64%Z. lia.
Qed.

(** Junk is words. *)
Definition is_junk (junk : nat -> Z) : Prop := forall i, is_word (junk i).

Lemma datalloc_ok junk n m : is_junk junk -> (Z.of_nat n < 2 ^ 63)%Z -> Forall is_word m ->
  Forall is_word (datalloc junk (Z.of_nat n) m) /\ length (datalloc junk (Z.of_nat n) m) = (n + 63) / 64 /\
  forall k, k < 64 * length m -> k < n -> bit (datalloc junk (Z.of_nat n) m) k = bit m k.
Proof.
  intros Hj Hn Hw. unfold datalloc. destruct (Z.eqb_spec (Z.of_nat n) 0) as [E|E].
  { split; [constructor|]. assert (n = 0) as -> by lia. split; [done|lia]. }
  rewrite nwords_nat, Nat2Z.id by done. split; [|split].
  - apply Forall_app. split; [by apply Forall_take|]. apply Forall_fmap, Forall_forall. intros i _. apply Hj.
  - rewrite length_app, length_fmap, length_seq, length_take. lia.
  - intros k Hk Hkn. assert (Hk64 : k / 64 < length m) by (apply Nat.Div0.div_lt_upper_bound; lia).
    assert (Hkn64 : k / 64 < (n + 63) / 64). { pose proof (Nat.div_mod_eq (n + 63) 64). pose proof (Nat.mod_upper_bound (n + 63) 64). pose proof (Nat.div_mod_eq k 64). lia. }
    unfold bit. rewrite lookup_app_l by (rewrite length_take; lia). by rewrite lookup_take_lt.
Qed.

(** What growing or shrinking to [n] leaves of [l]. *)
Lemma sized_ok junk n v l m f : bv_ok v l -> is_junk junk -> (Z.of_nat n < 2 ^ 63)%Z -> rewritten (datalloc junk (Z.of_nat n) (map v)) m f ->
  (forall k, k < length l -> k < n -> f k = bit (datalloc junk (Z.of_nat n) (map v)) k) ->
  exists r, bv_ok (BV m (Z.of_nat n)) (take n l ++ r) /\ length r = n - length l /\ forall k, k < n - length l -> r !! k = Some (f (length l + k)).
Proof.
  intros HV Hj Hn [E1 E2 E3] Hf. destruct (datalloc_ok junk n (map v) Hj Hn (bv_words _ _ HV)) as (Hw & Hl & Hb).
  set (r := (fun k => f (length l + k)) <$> seq 0 (n - length l)). assert (Hr : forall k, k < n - length l -> r !! k = Some (f (length l + k))).
  { intros k Hk. unfold r. rewrite list_lookup_fmap, lookup_seq_lt by done. done. }
  assert (Hlen : length r = n - length l) by (unfold r; by rewrite length_fmap, length_seq).
  assert (Hn' : length (take n l ++ r) = n) by (rewrite length_app, length_take, Hlen; lia).
  exists r. split; [|done]. split; cbn [nbits map]; rewrite ?Hn'; [done|done|done|congruence|].
  intros k Hk. rewrite E3. destruct (decide (k < length l)) as [Hkl|Hkl].
  - rewrite lookup_app_l by (rewrite length_take; lia). rewrite lookup_take_lt by done. rewrite (bv_bits _ _ HV k Hkl), Hf, Hb; [done|pose proof (bv_room v l HV); lia|done|done|done].
  - rewrite lookup_app_r by (rewrite length_take; lia). rewrite length_take, Nat.min_r by lia. rewrite Hr by lia. do 2 f_equal. lia.
Qed.

Lemma setsize_bits junk n v l : bv_ok v l -> is_junk junk -> (Z.of_nat n < 2 ^ 63)%Z ->
  exists r, bv_ok (setsize junk (Z.of_nat n) v) (take n l ++ r) /\ length r = n - length l.
Proof.
  intros HV Hj Hn. destruct (datalloc_ok junk n (map v) Hj Hn (bv_words _ _ HV)) as (Hw & _).
  destruct (sized_ok junk n v l _ _ HV Hj Hn (rewritten_id _ Hw)) as (r & HR & Hr & _); [done|]. by exists r.
Qed.

Lemma zsetsize_ok junk n v l : bv_ok v l -> is_junk junk -> (Z.of_nat n < 2 ^ 63)%Z ->
  exists v', zsetsize junk (Z.of_nat n) v = Ok v' /\ bv_ok v' (take n l ++ replicate (n - length l) false).
Proof.
  intros HV Hj Hn. destruct (datalloc_ok junk n (map v) Hj Hn (bv_words _ _ HV)) as (Hw & Hl & _). unfold zsetsize. rewrite (bv_len _ _ HV).
  destruct (Z.ltb_spec (Z.of_nat (length l)) (Z.of_nat n)) as [Hlt|Hge].
  - destruct (range_clr_ok _ (length l) n Hw) as (m & -> & HR); [lia|rewrite Hl; pose proof (Nat.div_mod_eq (n + 63) 64); pose proof (Nat.mod_upper_bound (n + 63) 64); lia|].
    cbn [mbind res_bind]. eexists. split; [done|]. destruct (sized_ok junk n v l _ _ HV Hj Hn HR) as (r & HR' & Hlen & Hr); [intros k ? ?; by rewrite decide_False by lia|].
    replace (replicate (n - length l) false) with r; [done|]. apply list_eq. intros k. destruct (decide (k < n - length l)) as [Hk|Hk].
    + rewrite Hr, lookup_replicate_2 by done. by rewrite decide_True by lia.
    + rewrite !lookup_ge_None_2; [done|rewrite length_replicate; lia|lia].
  - cbn [mbind res_bind]. eexists. split; [done|]. destruct (sized_ok junk n v l _ _ HV Hj Hn (rewritten_id _ Hw)) as (r & HR' & Hlen & _); [done|].
    replace (n - length l) with 0 in * by lia. by destruct r.
Qed.

Lemma osetsize_ok junk n v l : bv_ok v l -> is_junk junk -> (Z.of_nat n < 2 ^ 63)%Z ->
  exists v', osetsize junk (Z.of_nat n) v = Ok v' /\ bv_ok v' (take n l ++ replicate (n - length l) true).
Proof.
  intros HV Hj Hn. destruct (datalloc_ok junk n (map v) Hj Hn (bv_words _ _ HV)) as (Hw & Hl & _). unfold osetsize. rewrite (bv_len _ _ HV).
  destruct (Z.ltb_spec (Z.of_nat (length l)) (Z.of_nat n)) as [Hlt|Hge].
  - destruct (range_set_ok _ (length l) n Hw) as (m & -> & HR); [lia|rewrite Hl; pose proof (Nat.div_mod_eq (n + 63) 64); pose proof (Nat.mod_upper_bound (n + 63) 64); lia|].
    cbn [mbind res_bind]. eexists. split; [done|]. destruct (sized_ok junk n v l _ _ HV Hj Hn HR) as (r & HR' & Hlen & Hr); [intros k ? ?; by rewrite decide_False by lia|].
    replace (replicate (n - length l) true) with r; [done|]. apply list_eq. intros k. destruct (decide (k < n - length l)) as [Hk|Hk].
    + rewrite Hr, lookup_replicate_2 by done. by rewrite decide_True by lia.
    + rewrite !lookup_ge_None_2; [done|rewrite length_replicate; lia|lia].
  - cbn [mbind res_bind]. eexists. split; [done|]. destruct (sized_ok junk n v l _ _ HV Hj Hn (rewritten_id _ Hw)) as (r & HR' & Hlen & _); [done|].
    replace (n - length l) with 0 in * by lia. by destruct r.
Qed.

(** ** Single bits *)
Lemma index_ok v l k : bv_ok v l -> k < length l -> (u64 (Z.of_nat k) / mapbits)%Z = Z.of_nat (k / 64) /\ (u64 (Z.of_nat k) mod mapbits)%Z = Z.of_nat (k mod 64) /\
  exists w, map v !! (k / 64) = Some w /\ is_word w.
Proof.
  intros HV Hk. pose proof (bv_max _ _ HV). unfold u64. rewrite Z.mod_small by lia. rewrite div64, mod64. split; [done|]. split; [done|].
  destruct (lookup_lt_is_Some_2 (map v) (k / 64)) as [w Hw]; [apply Nat.Div0.div_lt_upper_bound; pose proof (bv_room v l HV); lia|].
  exists w. split; [done|]. by apply (Forall_lookup_1 _ _ _ _ (bv_words _ _ HV) Hw).
Qed.

Lemma at_bit_ok v l k b : bv_ok v l -> l !! k = Some b -> at_bit (Z.of_nat k) v = Ok b.
Proof.
  intros HV Hb. pose proof (lookup_lt_Some _ _ _ Hb) as Hk. destruct (index_ok v l k HV Hk) as (E1 & E2 & w & Hw & Hword). unfold at_bit. rewrite E1, E2, (aget_nat _ _ _ Hw).
  cbn [mbind res_bind]. rewrite land_one_bit by (apply mod64_range || done). rewrite (bv_bits _ _ HV k Hk) in Hb. injection Hb as <-. unfold bit. by rewrite Hw.
Qed.

Lemma bv_rewritten v l l' m f : bv_ok v l -> rewritten (map v) m f -> length l' = length l -> (forall k, k < length l -> l' !! k = Some (f k)) -> bv_ok (BV m (nbits v)) l'.
Proof.
  intros HV [E1 E2 E3] Hl Hf. split; cbn [nbits map]; rewrite ?Hl; [apply HV|apply HV|done|rewrite E1; apply HV|]. intros k Hk. rewrite Hf by done. by rewrite E3.
Qed.

Lemma setbit_ok v l k b : bv_ok v l -> k < length l -> exists v', setbit (Z.of_nat k) b v = Ok v' /\ bv_ok v' (<[k := b]> l).
Proof.
  intros HV Hk. destruct (index_ok v l k HV Hk) as (E1 & E2 & w & Hw & Hword). pose proof (lookup_lt_Some _ _ _ Hw) as Hp. unfold setbit. rewrite E1, E2.
  assert (Hbits : forall j f, (forall i, f i = if decide (i = k) then b else bit (map v) i) -> j < length l -> <[k := b]> l !! j = Some (f j)).
  { intros j f Hf Hj. rewrite Hf. destruct (decide (j = k)) as [->|Hne]; [by rewrite list_lookup_insert_eq|]. rewrite list_lookup_insert_ne by done. by apply (bv_bits _ _ HV). }
  destruct b.
  - destruct (or_word_ok (map v) (k / 64) (one_bit (Z.of_nat (k mod 64))) (bv_words _ _ HV) Hp (is_word_u64 _)) as (m & -> & HR). cbn [mbind res_bind]. eexists. split; [done|].
    apply (bv_rewritten v l _ _ _ HV HR); [by rewrite length_insert|]. intros j Hj. refine (Hbits j (fun j => bit (map v) j || bool_decide (j / 64 = k / 64) && Z.testbit (one_bit (Z.of_nat (k mod 64))) (Z.of_nat (j mod 64))) _ Hj).
    intros i. rewrite one_bit_bit by (apply mod64_range || lia). destruct (Z.eqb_spec (Z.of_nat (k mod 64)) (Z.of_nat (i mod 64))); destruct (bit (map v) i); bit_cases i k k.
  - destruct (and_word_ok (map v) (k / 64) (not_word (one_bit (Z.of_nat (k mod 64)))) (bv_words _ _ HV) Hp) as (m & -> & HR). cbn [mbind res_bind]. eexists. split; [done|].
    apply (bv_rewritten v l _ _ _ HV HR); [by rewrite length_insert|]. intros j Hj.
    refine (Hbits j (fun j => bit (map v) j && (bool_decide (j / 64 <> k / 64) || Z.testbit (not_word (one_bit (Z.of_nat (k mod 64)))) (Z.of_nat (j mod 64)))) _ Hj).
    intros i. rewrite not_word_bit, one_bit_bit by (apply mod64_range || lia). destruct (Z.eqb_spec (Z.of_nat (k mod 64)) (Z.of_nat (i mod 64))); destruct (bit (map v) i); bit_cases i k k.
Qed.

(** The booleans from [s] up to [e] are [b]. *)
Definition painted (s e : nat) (b : bool) (l : list bool) : list bool := take s l ++ replicate (e - s) b ++ drop e l.

Lemma painted_lookup s e b l k : s <= e -> e <= length l -> k < length l -> painted s e b l !! k = if decide (s <= k < e) then Some b else l !! k.
Proof.
  intros Hse He Hk. unfold painted. destruct (decide (k < s)).
  - rewrite lookup_app_l by (rewrite length_take; lia). rewrite lookup_take_lt by done. by rewrite decide_False by lia.
  - rewrite lookup_app_r by (rewrite length_take; lia). rewrite length_take, Nat.min_l by lia. destruct (decide (k < e)).
    + rewrite lookup_app_l by (rewrite length_replicate; lia). rewrite lookup_replicate_2 by lia. by rewrite decide_True by lia.
    + rewrite lookup_app_r by (rewrite length_replicate; lia). rewrite length_replicate, lookup_drop, decide_False by lia. f_equal. lia.
Qed.

Lemma setrange_ok v l s e b : bv_ok v l -> s <= e -> e <= length l -> exists v', setrange (Z.of_nat s) (Z.of_nat e) b v = Ok v' /\ bv_ok v' (painted s e b l).
Proof.
  intros HV Hse He. pose proof (bv_room v l HV) as Hroom.
  assert (Hlen : length (painted s e b l) = length l) by (unfold painted; rewrite !length_app, length_take, length_replicate, length_drop; lia).
  assert (HR : exists m, (if b then range_set (Z.of_nat s) (Z.of_nat e) (map v) else range_clr (Z.of_nat s) (Z.of_nat e) (map v)) = Ok m /\
    rewritten (map v) m (fun k => if decide (s <= k < e) then b else bit (map v) k)).
  { destruct b; [apply range_set_ok|apply range_clr_ok]; try apply (bv_words _ _ HV); lia. }
  destruct HR as (m & E & HR). unfold setrange. rewrite E. cbn [mbind res_bind]. eexists. split; [done|]. apply (bv_rewritten v l _ _ _ HV HR Hlen).
  intros k Hk. rewrite painted_lookup by done. destruct (decide _); [done|]. by apply (bv_bits _ _ HV).
Qed.

Lemma wbit_xor_ok v l k b c : bv_ok v l -> l !! k = Some c -> exists v', wbit_xor (Z.of_nat k) b v = Ok v' /\ bv_ok v' (<[k := xorb c b]> l).
Proof.
  intros HV Hc. pose proof (lookup_lt_Some _ _ _ Hc) as Hk. destruct (index_ok v l k HV Hk) as (E1 & E2 & w & Hw & Hword). unfold wbit_xor. rewrite E1, E2, (aget_nat _ _ _ Hw). cbn [mbind res_bind].
  set (x := u64 (Z.shiftl (Z.b2z b) (Z.of_nat (k mod 64)))).
  assert (Hx : is_word (Z.lxor w x)). { apply word_bits. intros j Hj. rewrite Z.lxor_spec, !word_high by (done || apply is_word_u64). done. }
  destruct (rewrite_word (map v) (k / 64) w _ (bv_words _ _ HV) Hw Hx) as [E HR]. rewrite E. cbn [mbind res_bind]. eexists. split; [done|].
  apply (bv_rewritten v l _ _ _ HV HR); [by rewrite length_insert|]. intros j Hj. rewrite (bv_bits _ _ HV k Hk) in Hc. injection Hc as <-. destruct (decide (j = k)) as [->|Hne].
  - rewrite list_lookup_insert_eq, decide_True by done. rewrite Z.lxor_spec. unfold x. rewrite u64_bit, shifted_bit, Z.eqb_refl, andb_true_r by (apply mod64_range || lia). unfold bit. by rewrite Hw.
  - rewrite list_lookup_insert_ne by done. rewrite (bv_bits _ _ HV j Hj). f_equal. destruct (decide (j / 64 = k / 64)) as [Ej|Ej]; [|done].
    rewrite Z.lxor_spec. unfold x. rewrite u64_bit, shifted_bit by (apply mod64_range || lia). destruct (Z.eqb_spec (Z.of_nat (k mod 64)) (Z.of_nat (j mod 64))) as [Em|Em].
    + exfalso. apply Hne. rewrite (Nat.div_mod_eq j 64), (Nat.div_mod_eq k 64). lia.
    + rewrite andb_false_r, xorb_false_r. unfold bit. by rewrite Ej, Hw.
Qed.

Lemma bv_assign_ok junk v l w lw : bv_ok v l -> bv_ok w lw -> is_junk junk -> exists r, bv_assign junk v w = Ok r /\ bv_ok r l.
Proof.
  intros HV HW Hj. unfold bv_assign, setsize. cbn [nbits map]. pose proof (bv_max _ _ HV). rewrite (bv_len _ _ HV), nwords_nat, Nat2Z.id by done. rewrite <- (bv_count _ _ HV).
  rewrite decide_True by done. eexists. split; [done|]. destruct (datalloc_ok junk (length l) (map w) Hj ltac:(done) (bv_words _ _ HW)) as (_ & Hl & _).
  rewrite take_ge by lia. rewrite drop_ge by (rewrite Hl, (bv_count _ _ HV); lia). rewrite app_nil_r. destruct HV as [E1 E2 E3 E4 E5]. by split.
Qed.

Lemma bit_chars_ok v l todo k : bv_ok v l -> k + todo = length l -> bit_chars todo (Z.of_nat k) v = Ok ((fun b : bool => if b then 49 else 48)%Z <$> drop k l).
Proof.
  intros HV. revert k. induction todo as [|todo IH]; intros k Hk; cbn [bit_chars].
  - by rewrite drop_ge by lia.
  - destruct (lookup_lt_is_Some_2 l k) as [b Hb]; [lia|]. rewrite (at_bit_ok v l k b HV Hb). cbn [mbind res_bind].
    replace (Z.of_nat k + 1)%Z with (Z.of_nat (S k)) by lia. rewrite IH by lia. cbn [mbind res_bind]. by rewrite (drop_S _ _ _ Hb).
Qed.

Lemma strbuf_cat_ok v l : bv_ok v l -> strbuf_cat v = Ok ((fun b : bool => if b then 49 else 48)%Z <$> l).
Proof. intros HV. unfold strbuf_cat. rewrite (bv_len _ _ HV), Nat2Z.id. change 0%Z with (Z.of_nat 0). by rewrite (bit_chars_ok v l (length l) 0 HV). Qed.

(** ** The first bit that is not set *)
Lemma unset_in_word_ok i : forall todo tmp idx, (forall j, j < i -> Z.testbit tmp (Z.of_nat j) = false) -> Z.testbit tmp (Z.of_nat i) = true -> i < todo ->
  (unset_in_word todo (-1) tmp idx).1 = i32 (idx + Z.of_nat i).
Proof.
  induction i as [|i IH]; intros todo tmp idx Hlo Hi Htodo; (destruct todo as [|todo]; [lia|]); cbn [unset_in_word]; change (negb (-1 <? 0)%Z) with false; cbn [negb].
  - rewrite Z.bit0_odd in Hi. rewrite Hi, Z.add_0_r. clear Htodo. induction todo as [|todo IH]; [done|]. cbn [unset_in_word]. rewrite Hi. by destruct (negb _).
  - pose proof (Hlo 0 ltac:(lia)) as H0. rewrite Z.bit0_odd in H0. rewrite H0. rewrite IH.
    + f_equal. lia.
    + intros j Hj. rewrite Z.shiftr_spec by lia. replace (Z.of_nat j + 1)%Z with (Z.of_nat (S j)) by lia. apply Hlo. lia.
    + rewrite Z.shiftr_spec by lia. by replace (Z.of_nat i + 1)%Z with (Z.of_nat (S i)) by lia.
    + lia.
Qed.

(** The answer when the first zero is at [u]. *)
Definition narrowed (u : nat) : res Z := c_assert (0 <=? i32 (Z.of_nat u))%Z;; Ok (i32 (Z.of_nat u)).

Lemma narrowed_small u : (Z.of_nat u < 2 ^ 31)%Z -> narrowed u = Ok (Z.of_nat u).
Proof. intros Hu. unfold narrowed. rewrite i32_small by lia. by rewrite (proj2 (Z.leb_le _ _)) by lia. Qed.

Lemma xor_bit w j : (0 <= j < 64)%Z -> Z.testbit (Z.lxor w all_ones) j = negb (Z.testbit w j).
Proof. intros Hj. rewrite Z.lxor_spec, all_ones_bit by done. apply xorb_true_r. Qed.

Lemma bit_of_word m p w j : m !! p = Some w -> j < 64 -> bit m (64 * p + j) = Z.testbit w (Z.of_nat j).
Proof.
  intros Hp Hj. unfold bit. replace ((64 * p + j) / 64) with p by (rewrite Nat.mul_comm, Nat.div_add_l by lia; rewrite Nat.div_small; lia).
  replace ((64 * p + j) mod 64) with j; [by rewrite Hp|]. rewrite Nat.add_comm, Nat.mul_comm, Nat.Div0.mod_add, Nat.mod_small; done.
Qed.

(** A word without zeros. *)
Lemma full_word m p w : Forall is_word m -> m !! p = Some w -> (forall j, j < 64 -> bit m (64 * p + j) = true) -> (Z.lxor w all_ones =? 0)%Z = true.
Proof.
  intros Hw Hp Hall. apply Z.eqb_eq. apply Z.bits_inj'. intros j Hj. rewrite Z.testbit_0_l. destruct (Z.lt_ge_cases j 64).
  - rewrite xor_bit by lia. specialize (Hall (Z.to_nat j) ltac:(lia)). rewrite (bit_of_word m p w) in Hall by (done || lia). rewrite Z2Nat.id in Hall by lia. by rewrite Hall.
  - rewrite Z.lxor_spec, word_high; [|by apply (Forall_lookup_1 _ _ _ _ Hw Hp)|done]. rewrite word_high; [done| |done]. unfold is_word, all_ones. lia.
Qed.

Lemma unset_in_words_found m u : Forall is_word m -> u < 64 * length m -> bit m u = false -> (forall i, i < u -> bit m i = true) ->
  forall todo p, p <= u / 64 -> u / 64 < p + todo -> unset_in_words todo (Z.of_nat p) (Z.of_nat (64 * p)) m = narrowed u.
Proof.
  intros Hw Hu Hbit Hall. pose proof (Nat.div_mod_eq u 64) as Eu. pose proof (Nat.mod_upper_bound u 64) as Hm.
  induction todo as [|todo IH]; intros p Hp Htodo; [lia|]. cbn [unset_in_words]. destruct (lookup_lt_is_Some_2 m p) as [w Hpw]; [lia|].
  rewrite (aget_nat _ _ _ Hpw). cbn [mbind res_bind]. destruct (decide (p = u / 64)) as [Ep|Ep].
  - assert (Hun : Z.testbit (Z.lxor w all_ones) (Z.of_nat (u mod 64)) = true).
    { rewrite xor_bit by lia. rewrite <- (bit_of_word m p w) by (done || lia). replace (64 * p + u mod 64) with u by lia. by rewrite Hbit. }
    destruct (Z.eqb_spec (Z.lxor w all_ones) 0) as [E0|E0]; [by rewrite E0, Z.testbit_0_l in Hun|].
    pose proof (unset_in_word_ok (u mod 64) 64 (Z.lxor w all_ones) (Z.of_nat (64 * p))) as Er. destruct (unset_in_word _ _ _ _) as [ret bi]. cbn [fst] in Er.
    rewrite Er; [replace (Z.of_nat (64 * p) + Z.of_nat (u mod 64))%Z with (Z.of_nat u) by lia; done| |done|lia]. intros j Hj. rewrite xor_bit by lia. rewrite <- (bit_of_word m p w) by (done || lia). rewrite Hall by lia. done.
  - rewrite (full_word m p w Hw Hpw) by (intros j Hj; apply Hall; lia).
    replace (Z.of_nat p + 1)%Z with (Z.of_nat (S p)) by lia. replace (Z.of_nat (64 * p) + mapbits)%Z with (Z.of_nat (64 * S p)) by (change mapbits with 64%Z; lia).
    apply IH; lia.
Qed.

Lemma unset_in_words_full m : Forall is_word m -> (forall i, i < 64 * length m -> bit m i = true) ->
  forall todo p, p <= length m -> unset_in_words todo (Z.of_nat p) (Z.of_nat (64 * p)) m = if decide (p + todo <= length m) then Ok (-1)%Z else Stop OutOfBounds.
Proof.
  intros Hw Hall. induction todo as [|todo IH]; intros p Hp; cbn [unset_in_words]; [by rewrite decide_True by lia|].
  destruct (decide (p = length m)) as [->|Hne].
  - rewrite aget_oob by lia. by rewrite decide_False by lia.
  - destruct (lookup_lt_is_Some_2 m p) as [w Hpw]; [lia|]. rewrite (aget_nat _ _ _ Hpw). cbn [mbind res_bind].
    rewrite (full_word m p w Hw Hpw) by (intros j Hj; apply Hall; lia).
    replace (Z.of_nat p + 1)%Z with (Z.of_nat (S p)) by lia. replace (Z.of_nat (64 * p) + mapbits)%Z with (Z.of_nat (64 * S p)) by (change mapbits with 64%Z; lia).
    rewrite IH by lia. apply decide_ext. lia.
Qed.

(** The first zero of an array, or none. *)
Lemma first_zero m n : (forall i, i < n -> bit m i = true) \/ exists u, u < n /\ bit m u = false /\ forall i, i < u -> bit m i = true.
Proof.
  induction n as [|n [IH|(u & Hu & Hb & IH)]]; [left; lia| |right; exists u; split; [lia|done]]. destruct (bit m n) eqn:E.
  - left. intros i Hi. destruct (decide (i = n)) as [->|]; [done|]. apply IH. lia.
  - right. exists n. split; [lia|done].
Qed.

(** The last word that is looked at. *)
Lemma slots_ok l : Z.to_nat (Z.of_nat (length l) / mapbits + 1) = S (length (A := bool) l / 64).
Proof. rewrite div64. lia. Qed.

Lemma first_unset_ok v l u : bv_ok v l -> l !! u = Some false -> (forall i, i < u -> l !! i = Some true) -> first_unset_bit v = narrowed u.
Proof.
  intros HV Hu Hall. pose proof (lookup_lt_Some _ _ _ Hu) as Hul. pose proof (bv_room v l HV). unfold first_unset_bit. rewrite (bv_len _ _ HV), slots_ok.
  rewrite (bv_bits _ _ HV u Hul) in Hu. injection Hu as Hu. apply (unset_in_words_found (map v) u (bv_words _ _ HV)) with (p := 0); [lia|done| |lia|].
  - intros i Hi. specialize (Hall i Hi). rewrite (bv_bits _ _ HV) in Hall by lia. by injection Hall.
  - pose proof (Nat.Div0.div_le_mono u (length l) 64 ltac:(lia)). lia.
Qed.

(** An index from [2 ^ 31] up to [2 ^ 32] becomes negative and the assert fails. *)
Lemma first_unset_far v l u : bv_ok v l -> l !! u = Some false -> (forall i, i < u -> l !! i = Some true) -> (2 ^ 31 <= Z.of_nat u < 2 ^ 32)%Z ->
  first_unset_bit v = Stop AssertFailed.
Proof.
  intros HV Hu Hall Hr. rewrite (first_unset_ok v l u HV Hu Hall). unfold narrowed. rewrite (proj2 (Z.leb_gt 0 _)); [done|].
  unfold i32. replace (Z.of_nat u + 2 ^ 31)%Z with ((Z.of_nat u - 2 ^ 31) + 1 * 2 ^ 32)%Z by lia. rewrite Z.mod_add, Z.mod_small by lia. lia.
Qed.

(** When every bit is set, [first_unset_bit] reads one word past the array if the number of bits is
    a multiple of 64; otherwise it may answer with the index of a bit that does not exist, which depends on
    memory that was never written. *)
Theorem first_unset_bit_full v l : bv_ok v l -> (forall b, b ∈ l -> b = true) -> (Z.of_nat (64 * length (map v)) <= 2 ^ 31)%Z ->
  if decide (length l mod 64 = 0) then first_unset_bit v = Stop OutOfBounds
  else exists r, first_unset_bit v = Ok r /\
    ((r = (-1)%Z /\ forall i, length l <= i < 64 * length (map v) -> bit (map v) i = true) \/
     ((Z.of_nat (length l) <= r)%Z /\ bit (map v) (Z.to_nat r) = false)).
Proof.
  intros HV Hall Hsmall. pose proof (bv_room v l HV) as Hroom. pose proof (bv_count _ _ HV) as Hcount. unfold first_unset_bit. rewrite (bv_len _ _ HV), slots_ok.
  assert (Hset : forall i, i < length l -> bit (map v) i = true).
  { intros i Hi. pose proof (bv_bits _ _ HV i Hi) as Hb. apply list_elem_of_lookup_2 in Hb. by apply Hall. }
  pose proof (Nat.div_mod_eq (length l) 64) as Ed. pose proof (Nat.mod_upper_bound (length l) 64) as Hm.
  assert (Hcl : length (map v) = length l / 64 + if decide (length l mod 64 = 0) then 0 else 1).
  { rewrite Hcount. pose proof (Nat.div_mod_eq (length l + 63) 64). pose proof (Nat.mod_upper_bound (length l + 63) 64). destruct (decide _); lia. }
  destruct (decide (length l mod 64 = 0)) as [E0|E0].
  - rewrite (unset_in_words_full (map v) (bv_words _ _ HV)) with (p := 0); [|intros i Hi; apply Hset; lia|lia]. by rewrite decide_False by lia.
  - destruct (first_zero (map v) (64 * length (map v))) as [Hfull|(u & Hu & Hub & Hlo)].
    + exists (-1)%Z. rewrite (unset_in_words_full (map v) (bv_words _ _ HV)) with (p := 0); [|done|lia]. rewrite decide_True by lia. split; [done|]. left. split; [done|].
      intros i Hi. apply Hfull. lia.
    + exists (Z.of_nat u). rewrite <- (narrowed_small u) by lia. split; [apply (unset_in_words_found (map v) u (bv_words _ _ HV)) with (p := 0); [done|done|done|lia|]|].
      * assert (u / 64 < length (map v)) by (apply Nat.Div0.div_lt_upper_bound; lia). lia.
      * right. rewrite Nat2Z.id. split; [|done]. destruct (decide (u < length l)) as [Hul|]; [rewrite (Hset u Hul) in Hub; done|lia].
Qed.

(** * Sequences of operations *)
Inductive bvop : Type :=
| BvAt (k : nat) | BvSet (k : nat) (b : bool) | BvAssign (k : nat) (b : bool) | BvXor (k : nat) (b : bool) | BvRange (s e : nat) (b : bool)
| BvZsize (n : nat) | BvOsize (n : nat) | BvText | BvFirst.

Section Sequences.
Context (junk : nat -> Z) (Hjunk : is_junk junk).

Definition run_bvop (op : bvop) (v : bitvec) : res (bitvec * list Z) :=
  match op with
  | BvAt k => b ← at_bit (Z.of_nat k) v; Ok (v, [Z.b2z b])
  | BvSet k b => v ← setbit (Z.of_nat k) b v; Ok (v, [])
  | BvAssign k b => v ← wbit_assign (Z.of_nat k) b v; Ok (v, [])
  | BvXor k b => v ← wbit_xor (Z.of_nat k) b v; Ok (v, [])
  | BvRange s e b => v ← setrange (Z.of_nat s) (Z.of_nat e) b v; Ok (v, [])
  | BvZsize n => v ← zsetsize junk (Z.of_nat n) v; Ok (v, [])
  | BvOsize n => v ← osetsize junk (Z.of_nat n) v; Ok (v, [])
  | BvText => t ← strbuf_cat v; Ok (v, t)
  | BvFirst => r ← first_unset_bit v; Ok (v, [r])
  end.

Definition spec_bvop (op : bvop) (l : list bool) : list bool * list Z :=
  match op with
  | BvAt k => (l, [Z.b2z (default false (l !! k))])
  | BvSet k b | BvAssign k b => (<[k := b]> l, [])
  | BvXor k b => (<[k := xorb (default false (l !! k)) b]> l, [])
  | BvRange s e b => (painted s e b l, [])
  | BvZsize n => (take n l ++ replicate (n - length l) false, [])
  | BvOsize n => (take n l ++ replicate (n - length l) true, [])
  | BvText => (l, (fun b : bool => if b then 49 else 48)%Z <$> l)
  | BvFirst => (l, match list_find (fun b => b = false) l with Some (i, _) => [Z.of_nat i] | None => [] end)
  end.
(** Indices and ranges lie inside, sizes fit, and the search is for a bit that exists and whose index is an [int]. *)
Definition bvop_may (op : bvop) (l : list bool) : Prop :=
  match op with
  | BvAt k | BvSet k _ | BvAssign k _ | BvXor k _ => k < length l
  | BvRange s e _ => s <= e /\ e <= length l
  | BvZsize n | BvOsize n => (Z.of_nat n < 2 ^ 63)%Z
  | BvText => True
  | BvFirst => exists u, l !! u = Some false /\ (Z.of_nat u < 2 ^ 31)%Z
  end.

Lemma run_bvop_ok op v l : bv_ok v l -> bvop_may op l -> exists v', run_bvop op v = Ok (v', (spec_bvop op l).2) /\ bv_ok v' (spec_bvop op l).1.
Proof.
  intros HV Hm. destruct op as [k|k b|k b|k b|s e b|n|n| |]; cbn [run_bvop spec_bvop bvop_may fst snd] in *.
  - destruct (lookup_lt_is_Some_2 l k Hm) as [b Hb]. rewrite (at_bit_ok v l k b HV Hb), Hb. by exists v.
  - destruct (setbit_ok v l k b HV Hm) as (v' & -> & ?). by exists v'.
  - destruct (setbit_ok v l k b HV Hm) as (v' & E & ?). change (setbit (Z.of_nat k) b v) with (wbit_assign (Z.of_nat k) b v) in E. rewrite E. by exists v'.
  - destruct (lookup_lt_is_Some_2 l k Hm) as [c Hc]. destruct (wbit_xor_ok v l k b c HV Hc) as (v' & -> & ?). rewrite Hc. by exists v'.
  - destruct Hm as [Hse He]. destruct (setrange_ok v l s e b HV Hse He) as (v' & -> & ?). by exists v'.
  - destruct (zsetsize_ok junk n v l HV Hjunk Hm) as (v' & -> & ?). by exists v'.
  - destruct (osetsize_ok junk n v l HV Hjunk Hm) as (v' & -> & ?). by exists v'.
  - rewrite (strbuf_cat_ok v l HV). by exists v.
  - destruct Hm as (u0 & Hu0 & Hlt). destruct (list_find (fun b => b = false) l) as [[u b]|] eqn:Ef.
    + apply list_find_Some in Ef as (Hu & -> & Hlo). rewrite (first_unset_ok v l u HV Hu).
      * rewrite narrowed_small; [by exists v|]. destruct (decide (u0 < u)) as [Hlu|]; [|lia]. by destruct (Hlo u0 _ Hu0 Hlu).
      * intros i Hi. destruct (lookup_lt_is_Some_2 l i) as [b Hb]; [apply lookup_lt_Some in Hu; lia|]. rewrite Hb. specialize (Hlo i b Hb Hi). by destruct b.
    + apply list_find_None in Ef. rewrite Forall_forall in Ef. apply list_elem_of_lookup_2 in Hu0. by destruct (Ef false Hu0).
Qed.

(** C14: a [bitvec] does what the list of its bits does, whatever memory that [realloc] adds contains: growing
    with zeros or ones, ranges, reading, setting, assigning and xoring single bits, the text, and the first bit that is not set.  Indices
    and ranges lie inside the vector, sizes are below [2 ^ 63], and a search is made only when there is a zero at an index below [2 ^ 31]. *)
Theorem bitvec_refines ops : may_all spec_bvop bvop_may ops [] ->
  exists v, run_all run_bvop ops (BV [] 0) = Ok (v, (spec_all spec_bvop ops []).2) /\ bv_ok v (spec_all spec_bvop ops []).1.
Proof.
  intros Hm. apply (run_all_refines run_bvop spec_bvop bvop_may bv_ok run_bvop_ok); [|done]. split; [done|done|constructor|done|]. cbn. lia.
Qed.
End Sequences.

Definition bv_run : list bvop := [BvZsize 70; BvRange 0 66 true; BvSet 3 false; BvXor 3 true; BvAssign 69 true; BvFirst; BvAt 65; BvOsize 72; BvSet 66 true; BvFirst; BvZsize 4; BvText].

Lemma bitvec_refines_witness : exists v,
  run_all (run_bvop (fun _ => 12345%Z)) bv_run (BV [] 0) = Ok (v, [[]; []; []; []; []; [66]; [1]; []; []; [67]; []; [49; 49; 49; 49]]%Z) /\ nbits v = 4%Z.
Proof.
  destruct (bitvec_refines (fun _ => 12345%Z)) with (ops := bv_run) as (v & E & HV).
  - intros i. unfold is_word. lia.
  - unfold bv_run. cbn [may_all bvop_may]. split_and!; first [decide_now|exists 66; split; decide_now|exists 67; split; decide_now].
  - exists v. split; [exact E|]. rewrite (bv_len _ _ HV). vm_compute. reflexivity.
Defined.

(** 64 ones; and 3 ones before whatever is in memory. *)
Lemma first_unset_bit_full_witness : first_unset_bit (BV [all_ones] 64) = Stop OutOfBounds.
Proof.
  apply (first_unset_bit_full (BV [all_ones] 64) (replicate 64 true)).
  - split; [done|done| |done|].
    + apply Forall_singleton. unfold is_word, all_ones. lia.
    + intros k Hk. cbn in Hk. do 64 (destruct k as [|k]; [vm_compute; reflexivity|]). lia.
  - intros b Hb. by apply list_elem_of_In, repeat_spec in Hb || apply elem_of_replicate in Hb as [-> _].
  - decide_now.
Defined.
Example first_unset_bit_padding : first_unset_bit (BV [23%Z] 3) = Ok 3%Z /\ first_unset_bit (BV [all_ones] 3) = Ok (-1)%Z.
Proof. vm_compute. auto. Qed.
