(* ===== verification/Msb.v ===== *)
(** Most and least significant bits: src/deps/sfslite-1.2/msb.h.  The tables of the bytes are not in the
    repository: they are the class [ByteTables]. *)
From S2P Require Import Prelude Words.

(** [bytemsb] and [bytelsb]: the number, from 1, of the highest and the lowest bit of a byte. *)
Class ByteTables : Type := { bytemsb : Z -> Z; bytelsb : Z -> Z }.

Section msb.
Context `{ByteTables}.

(** Looking a byte up; the tables have 256 entries. *)
Definition table_at (t : Z -> Z) (i : Z) : res Z := if (0 <=? i)%Z && (i <? 256)%Z then Ok (t i) else Stop OutOfBounds.

Definition fls32 (v : Z) : res Z :=
  if negb (Z.land v 0xffff0000 =? 0)%Z then
    if negb (Z.land v 0xff000000 =? 0)%Z then b ← table_at bytemsb (Z.shiftr v 24); Ok (24 + b)%Z
    else b ← table_at bytemsb (Z.shiftr v 16); Ok (16 + b)%Z
  else if negb (Z.land v 0x0000ff00 =? 0)%Z then b ← table_at bytemsb (Z.shiftr v 8); Ok (8 + b)%Z
  else table_at bytemsb v.

Definition log2c32 (v : Z) : res Z := if (v =? 0)%Z then Ok (-1)%Z else fls32 (v - 1).

Definition fls64 (v : Z) : res Z :=
  let h := (Z.shiftr v 32 mod 2 ^ 32)%Z in
  if (h =? 0)%Z then fls32 (v mod 2 ^ 32) else b ← fls32 h; Ok (32 + b)%Z.

Definition log2c64 (v : Z) : res Z := if (v =? 0)%Z then Ok (-1)%Z else fls64 (v - 1).

Definition ffs32 (v : Z) : res Z :=
  if negb (Z.land v 0xffff =? 0)%Z then
    let vv := Z.land v 0xff in
    if negb (vv =? 0)%Z then table_at bytelsb vv
    else b ← table_at bytelsb (Z.land (Z.shiftr v 8) 0xff); Ok (8 + b)%Z
  else
    let vv := Z.land v 0xff0000 in
    if negb (vv =? 0)%Z then b ← table_at bytelsb (Z.shiftr vv 16); Ok (16 + b)%Z
    else if negb (v =? 0)%Z then b ← table_at bytelsb (Z.land (Z.shiftr v 24) 0xff); Ok (24 + b)%Z
    else Ok 0%Z.

(** The source calls [fls32], not [ffs32]. *)
Definition ffs64 (v : Z) : res Z :=
  let l := Z.land v 0xffffffff in
  if negb (l =? 0)%Z then fls32 l
  else
    let l := (Z.shiftr v 32 mod 2 ^ 32)%Z in
    if negb (l =? 0)%Z then b ← fls32 l; Ok (32 + b)%Z
    else Ok 0%Z.

(** The macros choose by the size of the argument. *)
Definition fls (sizeof v : Z) : res Z := if (4 <? sizeof)%Z then fls64 v else fls32 v.
Definition log2c (sizeof v : Z) : res Z := if (4 <? sizeof)%Z then log2c64 v else log2c32 v.
Definition ffs (sizeof v : Z) : res Z := if (4 <? sizeof)%Z then ffs64 v else ffs32 v.
End msb.

(** * What they compute *)

(** The number of the highest bit from 1, and 0 for 0. *)
Definition last_set (v : Z) : Z := if (v =? 0)%Z then 0%Z else (Z.log2 v + 1)%Z.
(** [r] is the number of the lowest bit of [v] from 1. *)
Definition is_first_set (v r : Z) : Prop := (1 <= r)%Z /\ Z.testbit v (r - 1) = true /\ forall j, (0 <= j < r - 1)%Z -> Z.testbit v j = false.

(** What the tables hold. *)
Class ByteTablesOk `{ByteTables} : Prop := {
  msb_ok : forall i, (0 <= i < 256)%Z -> bytemsb i = last_set i;
  lsb_ok : forall i, (0 < i < 256)%Z -> is_first_set i (bytelsb i);
}.

Section Facts.
Context `{ByteTablesOk}.

Lemma table_msb i : (0 <= i < 256)%Z -> table_at bytemsb i = Ok (last_set i).
Proof. intros Hi. unfold table_at. rewrite (proj2 (Z.leb_le _ _)), (proj2 (Z.ltb_lt _ _)) by lia. by rewrite msb_ok. Qed.
Lemma table_lsb i : (0 < i < 256)%Z -> exists r, table_at bytelsb i = Ok r /\ is_first_set i r.
Proof. intros Hi. unfold table_at. rewrite (proj2 (Z.leb_le _ _)), (proj2 (Z.ltb_lt _ _)) by lia. eexists. split; [done|]. by apply lsb_ok. Qed.

(** The bits of [v] from [k] to [k + n - 1] are zero. *)
Lemma masked_zero v k n : (0 <= k)%Z -> (0 <= n)%Z -> Z.land v (Z.shiftl (Z.ones n) k) = 0%Z <-> forall j, (k <= j < k + n)%Z -> Z.testbit v j = false.
Proof.
  intros Hk Hn. split.
  - intros E j Hj. assert (Ej : Z.testbit (Z.land v (Z.shiftl (Z.ones n) k)) j = false) by (rewrite E; apply Z.testbit_0_l).
    rewrite Z.land_spec, Z.shiftl_spec, Z.ones_spec_low, andb_true_r in Ej by lia. done.
  - intros Hz. apply Z.bits_inj'. intros j Hj. rewrite Z.land_spec, Z.shiftl_spec, Z.testbit_0_l by lia. destruct (decide (k <= j < k + n)%Z) as [Hr|Hr].
    + by rewrite Hz.
    + destruct (Z.lt_ge_cases j k); [rewrite (Z.testbit_neg_r (Z.ones n)) by lia; by rewrite andb_false_r|]. rewrite Z.ones_spec_high by lia. by rewrite andb_false_r.
Qed.

Lemma small_if_high_zero v k n : (0 <= k)%Z -> (0 <= v < 2 ^ (k + n))%Z -> (0 <= n)%Z -> Z.land v (Z.shiftl (Z.ones n) k) = 0%Z -> (v < 2 ^ k)%Z.
Proof.
  intros Hk Hv Hn E. assert (Em : v = (v mod 2 ^ k)%Z).
  { apply Z.bits_inj'. intros j Hj. destruct (Z.lt_ge_cases j k); [by rewrite Z.mod_pow2_bits_low|]. rewrite Z.mod_pow2_bits_high by lia.
    destruct (Z.lt_ge_cases j (k + n)); [by apply (proj1 (masked_zero v k n Hk Hn) E)|]. rewrite <- (Z.mod_small v (2 ^ (k + n))) by done. apply Z.mod_pow2_bits_high. lia. }
  rewrite Em. apply Z.mod_pos_bound. lia.
Qed.

Lemma big_if_high_nonzero v k n : (0 <= k)%Z -> (0 <= v)%Z -> Z.land v (Z.shiftl (Z.ones n) k) <> 0%Z -> (2 ^ k <= v)%Z.
Proof.
  intros Hk Hv E. destruct (Z.lt_ge_cases v (2 ^ k)) as [Hlt|]; [|done]. destruct E. apply Z.bits_inj'. intros j Hj. rewrite Z.land_spec, Z.shiftl_spec, Z.testbit_0_l by lia.
  destruct (Z.lt_ge_cases j k); [rewrite (Z.testbit_neg_r (Z.ones n)) by lia; by rewrite andb_false_r|].
  rewrite <- (Z.mod_small v (2 ^ k)) by lia. by rewrite Z.mod_pow2_bits_high by lia.
Qed.

Lemma last_set_shift v k : (0 <= k)%Z -> (2 ^ k <= v)%Z -> (k + last_set (Z.shiftr v k) = last_set v)%Z.
Proof.
  intros Hk Hv. assert (Hp : (0 < 2 ^ k)%Z) by (apply Z.pow_pos_nonneg; lia). unfold last_set. rewrite (proj2 (Z.eqb_neq v 0)) by lia.
  assert (Hs : (1 <= Z.shiftr v k)%Z) by (rewrite Z.shiftr_div_pow2 by done; apply Z.div_le_lower_bound; lia).
  rewrite (proj2 (Z.eqb_neq _ _)) by lia. rewrite Z.log2_shiftr by lia. assert (k <= Z.log2 v)%Z by (apply Z.log2_le_pow2; lia). lia.
Qed.

Lemma shifted_byte v k : (0 <= k)%Z -> (2 ^ k <= v < 2 ^ (k + 8))%Z -> table_at bytemsb (Z.shiftr v k) = Ok (last_set (Z.shiftr v k)).
Proof.
  intros Hk Hv. apply table_msb. rewrite Z.shiftr_div_pow2 by done. rewrite Z.pow_add_r in Hv by lia. assert (Hp : (0 < 2 ^ k)%Z) by (apply Z.pow_pos_nonneg; lia).
  split; [apply Z.div_pos; lia|]. apply Z.div_lt_upper_bound; [done|]. change (2 ^ 8)%Z with 256%Z in Hv. lia.
Qed.

Lemma fls32_ok v : (0 <= v < 2 ^ 32)%Z -> fls32 v = Ok (last_set v).
Proof.
  intros Hv. unfold fls32. change 0xffff0000%Z with (Z.shiftl (Z.ones 16) 16). change 0xff000000%Z with (Z.shiftl (Z.ones 8) 24). change 0x0000ff00%Z with (Z.shiftl (Z.ones 8) 8).
  destruct (Z.eqb_spec (Z.land v (Z.shiftl (Z.ones 16) 16)) 0) as [E1|E1]; cbn [negb].
  - pose proof (small_if_high_zero v 16 16 ltac:(lia) Hv ltac:(lia) E1) as Hs.
    destruct (Z.eqb_spec (Z.land v (Z.shiftl (Z.ones 8) 8)) 0) as [E2|E2]; cbn [negb].
    + apply table_msb. split; [lia|]. apply (small_if_high_zero v 8 8); [lia| |lia|done]. change (8 + 8)%Z with 16%Z. lia.
    + pose proof (big_if_high_nonzero v 8 8 ltac:(lia) ltac:(lia) E2) as Hb. rewrite shifted_byte by (change (8 + 8)%Z with 16%Z; lia). cbn [mbind res_bind]. by rewrite last_set_shift.
  - pose proof (big_if_high_nonzero v 16 16 ltac:(lia) ltac:(lia) E1) as Hb. destruct (Z.eqb_spec (Z.land v (Z.shiftl (Z.ones 8) 24)) 0) as [E2|E2]; cbn [negb].
    + assert (Hs : (v < 2 ^ 24)%Z) by (apply (small_if_high_zero v 24 8); [lia| |lia|done]; change (24 + 8)%Z with 32%Z; lia).
      rewrite shifted_byte by (change (16 + 8)%Z with 24%Z; lia). cbn [mbind res_bind]. by rewrite last_set_shift.
    + pose proof (big_if_high_nonzero v 24 8 ltac:(lia) ltac:(lia) E2) as Hb2. rewrite shifted_byte by (change (24 + 8)%Z with 32%Z; lia). cbn [mbind res_bind]. by rewrite last_set_shift.
Qed.

Lemma high_word v : (0 <= v < 2 ^ 64)%Z -> (Z.shiftr v 32 mod 2 ^ 32 = Z.shiftr v 32)%Z /\ (Z.shiftr v 32 = 0 <-> v < 2 ^ 32)%Z.
Proof.
  intros Hv. rewrite Z.shiftr_div_pow2 by lia. change (2 ^ 64)%Z with (2 ^ 32 * 2 ^ 32)%Z in Hv. split.
  - apply Z.mod_small. split; [apply Z.div_pos; lia|]. apply Z.div_lt_upper_bound; lia.
  - split; [|intros Hs; apply Z.div_small; lia]. intros E. destruct (Z.lt_ge_cases v (2 ^ 32)) as [|Hge]; [done|]. assert (1 <= v / 2 ^ 32)%Z by (apply Z.div_le_lower_bound; lia). lia.
Qed.

Lemma fls64_ok v : (0 <= v < 2 ^ 64)%Z -> fls64 v = Ok (last_set v).
Proof.
  intros Hv. destruct (high_word v Hv) as [E Ez]. unfold fls64. rewrite E. destruct (Z.eqb_spec (Z.shiftr v 32) 0) as [E0|E0].
  - apply Ez in E0. rewrite Z.mod_small by lia. apply fls32_ok. lia.
  - assert (Hb : (2 ^ 32 <= v)%Z) by lia. rewrite <- E. rewrite fls32_ok by (apply Z.mod_pos_bound; lia). rewrite E. cbn [mbind res_bind]. by rewrite last_set_shift.
Qed.

(** [log2c] of a positive word is the least exponent whose power of two is not below it; [fls] is the number
    of the highest bit, in either width. *)
Theorem log2c_correct sizeof v : sizeof = 4%Z /\ (0 < v < 2 ^ 32)%Z \/ sizeof = 8%Z /\ (0 < v < 2 ^ 64)%Z ->
  fls sizeof v = Ok (Z.log2 v + 1)%Z /\ exists e, log2c sizeof v = Ok e /\ (0 <= e)%Z /\ (v <= 2 ^ e)%Z /\ forall e', (0 <= e')%Z -> (v <= 2 ^ e')%Z -> (e <= e')%Z.
Proof.
  intros Hs. assert (E : fls sizeof v = Ok (last_set v) /\ log2c sizeof v = Ok (last_set (v - 1))).
  { unfold fls, log2c, log2c32, log2c64. destruct Hs as [[-> Hv]|[-> Hv]]; cbn; rewrite (proj2 (Z.eqb_neq v 0)) by lia.
    - rewrite !fls32_ok by lia. done.
    - rewrite !fls64_ok by lia. done. }
  destruct E as [-> ->]. assert (Hv : (0 < v)%Z) by lia. split; [unfold last_set; by rewrite (proj2 (Z.eqb_neq v 0)) by lia|]. eexists. split; [done|].
  unfold last_set. destruct (Z.eqb_spec (v - 1) 0) as [E1|E1].
  - split; [done|]. assert (v = 1%Z) as -> by lia. split; [done|]. intros e' He' _. done.
  - pose proof (Z.log2_spec (v - 1) ltac:(lia)) as [H1' H2']. rewrite <- Z.add_1_r in H2'. pose proof (Z.log2_nonneg (v - 1)). split; [lia|]. split; [lia|].
    intros e' He' Hle. destruct (Z.lt_ge_cases e' (Z.log2 (v - 1) + 1)) as [Hlt|]; [|done]. assert (2 ^ e' <= 2 ^ Z.log2 (v - 1))%Z by (apply Z.pow_le_mono_r; lia). lia.
Qed.

(** The lowest set bit of [v] lies in the byte at [k]. *)
Lemma low_byte v k : (0 <= k)%Z -> (forall j, (0 <= j < k)%Z -> Z.testbit v j = false) -> Z.land (Z.shiftr v k) 0xff <> 0%Z ->
  exists r, table_at bytelsb (Z.land (Z.shiftr v k) 0xff) = Ok r /\ is_first_set v (k + r).
Proof.
  intros Hk Hz Hn. change 0xff%Z with (Z.ones 8) in *. pose proof (Z.land_ones (Z.shiftr v k) 8 ltac:(lia)) as E.
  assert (Hb : (0 <= Z.land (Z.shiftr v k) (Z.ones 8) < 256)%Z) by (rewrite E; apply Z.mod_pos_bound; lia).
  destruct (table_lsb (Z.land (Z.shiftr v k) (Z.ones 8)) ltac:(lia)) as (r & Er & H1' & Hr & Hl). exists r. split; [done|].
  assert (Hr8 : (r - 1 < 8)%Z).
  { destruct (Z.lt_ge_cases (r - 1) 8) as [|Hge]; [done|]. rewrite Z.land_spec, (Z.ones_spec_high 8) in Hr by lia. by rewrite andb_false_r in Hr. }
  assert (Hbit : forall j, (0 <= j < 8)%Z -> Z.testbit (Z.land (Z.shiftr v k) (Z.ones 8)) j = Z.testbit v (k + j)).
  { intros j Hj. rewrite Z.land_spec, Z.ones_spec_low, andb_true_r, Z.shiftr_spec by lia. f_equal. lia. }
  split; [lia|]. split; [rewrite Hbit in Hr by lia; rewrite <- Hr; f_equal; lia|]. intros j Hj. destruct (Z.lt_ge_cases j k); [apply Hz; lia|].
  replace j with (k + (j - k))%Z by lia. rewrite <- Hbit by lia. apply Hl. lia.
Qed.

Lemma byte_zero v k : (0 <= k)%Z -> Z.land (Z.shiftr v k) 0xff = 0%Z -> forall j, (k <= j < k + 8)%Z -> Z.testbit v j = false.
Proof.
  intros Hk E j Hj. change 0xff%Z with (Z.ones 8) in E. assert (Eb : Z.testbit (Z.land (Z.shiftr v k) (Z.ones 8)) (j - k) = false) by (rewrite E; apply Z.testbit_0_l).
  rewrite Z.land_spec, Z.ones_spec_low, andb_true_r, Z.shiftr_spec in Eb by lia. by replace (j - k + k)%Z with j in Eb by lia.
Qed.

Lemma ffs32_ok v : (0 < v < 2 ^ 32)%Z -> exists r, ffs32 v = Ok r /\ is_first_set v r.
Proof.
  intros Hv. unfold ffs32. assert (E8 : Z.land v 0xff = Z.land (Z.shiftr v 0) 0xff) by by rewrite Z.shiftr_0_r.
  assert (E16 : Z.shiftr (Z.land v 0xff0000) 16 = Z.land (Z.shiftr v 16) 0xff) by by rewrite Z.shiftr_land.
  destruct (Z.eqb_spec (Z.land v 0xffff) 0) as [E1|E1]; cbn [negb].
  - pose proof (proj1 (masked_zero v 0 16 ltac:(lia) ltac:(lia)) E1) as Hz. destruct (Z.eqb_spec (Z.land v 0xff0000) 0) as [E2|E2]; cbn [negb].
    + pose proof (proj1 (masked_zero v 16 8 ltac:(lia) ltac:(lia)) E2) as Hz2. rewrite (proj2 (Z.eqb_neq v 0)) by lia. cbn [negb].
      destruct (low_byte v 24) as (r & -> & Hr); [lia|intros j Hj; destruct (Z.lt_ge_cases j 16); [apply Hz|apply Hz2]; lia| |by eexists].
      intros E3. pose proof (byte_zero v 24 ltac:(lia) E3) as Hz3. assert (v = 0%Z) as ->; [|lia]. apply Z.bits_inj'. intros j Hj. rewrite Z.testbit_0_l.
      destruct (Z.lt_ge_cases j 16); [apply Hz; lia|]. destruct (Z.lt_ge_cases j 24); [apply Hz2; lia|]. destruct (Z.lt_ge_cases j 32); [apply Hz3; lia|].
      rewrite <- (Z.mod_small v (2 ^ 32)) by lia. by apply Z.mod_pow2_bits_high.
    + rewrite E16. destruct (low_byte v 16) as (r & -> & Hr); [lia|intros j Hj; apply Hz; lia| |by eexists].
      intros E3. apply E2. apply (masked_zero v 16 8); [lia..|]. apply (byte_zero v 16); [lia|done].
  - rewrite E8. destruct (Z.eqb_spec (Z.land (Z.shiftr v 0) 0xff) 0) as [E2|E2]; cbn [negb].
    + pose proof (byte_zero v 0 ltac:(lia) E2) as Hz. destruct (low_byte v 8) as (r & -> & Hr); [lia|intros j Hj; apply Hz; lia| |by eexists].
      intros E3. apply E1. apply (masked_zero v 0 16); [lia..|]. intros j Hj. destruct (Z.lt_ge_cases j 8); [apply Hz; lia|]. apply (byte_zero v 8); [lia|done|lia].
    + destruct (low_byte v 0) as (r & -> & Hr); [lia|intros j Hj; lia|done|by eexists].
Qed.

Lemma is_first_set_last l : (0 < l)%Z -> is_first_set l (last_set l) <-> l = (2 ^ Z.log2 l)%Z.
Proof.
  intros Hl. unfold last_set. rewrite (proj2 (Z.eqb_neq l 0)) by lia. pose proof (Z.log2_nonneg l). unfold is_first_set.
  replace (Z.log2 l + 1 - 1)%Z with (Z.log2 l) by lia. split.
  - intros (_ & _ & Hz). apply Z.bits_inj'. intros j Hj. rewrite Z.pow2_bits_eqb by lia. destruct (Z.eqb_spec (Z.log2 l) j) as [<-|E]; [by apply Z.bit_log2|].
    destruct (Z.lt_ge_cases j (Z.log2 l)); [apply Hz; lia|]. apply Z.bits_above_log2; lia.
  - intros E. split; [lia|]. split; [by apply Z.bit_log2|]. intros j Hj. rewrite E, Z.pow2_bits_eqb by lia. apply Z.eqb_neq. lia.
Qed.

(** [ffs] of a positive word: in a 32-bit word the number of the lowest set bit; in a 64-bit one with a bit in its
    low half the number of the HIGHEST set bit of that half, the lowest only when that half has one bit. *)
Theorem ffs_lowest_in_32_bits v : (0 < v < 2 ^ 64)%Z ->
  ((v < 2 ^ 32)%Z -> exists r, ffs 4 v = Ok r /\ is_first_set v r) /\
  ((v mod 2 ^ 32 <> 0)%Z -> exists r, ffs 8 v = Ok r /\ r = last_set (v mod 2 ^ 32) /\ (is_first_set (v mod 2 ^ 32) r <-> (v mod 2 ^ 32 = 2 ^ Z.log2 (v mod 2 ^ 32))%Z)).
Proof.
  intros Hv. unfold ffs. cbn. split; [intros Hl; apply ffs32_ok; lia|]. intros Hn. assert (Hm : (0 <= v mod 2 ^ 32 < 2 ^ 32)%Z) by (apply Z.mod_pos_bound; lia).
  unfold ffs64. change 0xffffffff%Z with (Z.ones 32). rewrite Z.land_ones by lia. rewrite (proj2 (Z.eqb_neq _ 0)) by done. cbn [negb]. rewrite fls32_ok by done.
  eexists. split; [done|]. split; [done|]. apply is_first_set_last. lia.
Qed.
End Facts.

(** * The tables of the library, computed *)

Definition lowest (v : Z) : Z := match filter (fun j => Z.testbit v j = true) (seqZ 0 8) with j :: _ => (j + 1)%Z | [] => 0%Z end.
#[export] Instance byte_tables : ByteTables := {| bytemsb := last_set; bytelsb := lowest |}.

Lemma byte_tables_ok : ByteTablesOk.
Proof.
  split; [done|]. cbn [bytelsb byte_tables]. intros i Hi.
  assert (Hall : forallb (fun i => (1 <=? lowest i)%Z && Z.testbit i (lowest i - 1) && forallb (fun j => implb (j <? lowest i - 1)%Z (negb (Z.testbit i j))) (seqZ 0 8) && (lowest i <=? 8)%Z) (seqZ 1 255) = true)
    by (vm_compute; reflexivity).
  rewrite forallb_forall in Hall. specialize (Hall i). rewrite !andb_true_iff, !Z.leb_le, forallb_forall in Hall. destruct Hall as [[[H1' H2'] H3'] H4']; [apply list_elem_of_In, elem_of_seqZ; lia|].
  split; [done|]. split; [done|]. intros j Hj. assert (Hin : In j (seqZ 0 8)) by (apply list_elem_of_In, elem_of_seqZ; lia).
  specialize (H3' j Hin). rewrite (proj2 (Z.ltb_lt _ _)) in H3' by lia. by destruct (Z.testbit i j).
Qed.

Example log2c_correct_witness : fls 8 0x100000000 = Ok 33%Z /\ log2c 8 0x100000001 = Ok 33%Z /\ log2c 4 4 = Ok 2%Z.
Proof.
  pose proof byte_tables_ok as Hok. destruct (log2c_correct 8 0x100000000) as [E _]; [right; split; [reflexivity|lia]|]. split; [exact E|]. split; reflexivity.
Defined.

Example ffs_lowest_in_32_bits_witness : ffs 4 6 = Ok 2%Z /\ ffs 8 6 = Ok 3%Z.
Proof.
  pose proof byte_tables_ok as Hok. destruct (ffs_lowest_in_32_bits 6 ltac:(lia)) as [_ H64]. destruct (H64 ltac:(vm_compute; discriminate)) as (r & E & -> & _).
  split; [reflexivity|]. rewrite E. reflexivity.
Defined.
