(* ===== verification/Keyfunc.v ===== *)
(** Hashing and comparing keys: src/deps/sfslite-1.2/keyfunc.h.  A [char *] is the list of the bytes of memory from where it
    points on, each from 0 to 255 (the functions cast them to [unsigned char]); a [u_int] wraps by [u32]. *)
From S2P Require Import Prelude Words.

Definition u32 (z : Z) : Z := (z mod 2 ^ 32)%Z.
Definition HASHSEED : Z := 5381%Z.

(** The loop of [hash_bytes] with [n] bytes before [end]. *)
Fixpoint hash_bytes_loop (n : nat) (key : list Z) (seed : Z) : res Z :=
  match n with
  | O => Ok seed
  | S n => match key with
           | [] => Stop OutOfBounds
           | k :: key => hash_bytes_loop n key (Z.lxor (u32 (u32 (Z.shiftl seed 5) + seed)) k)
           end
  end.
(** A negative [len] puts [end] before [key] and the loop does not run. *)
Definition hash_bytes (key : list Z) (len : Z) (seed : Z) : res Z := hash_bytes_loop (Z.to_nat len) key seed.

Fixpoint hash_string (p : list Z) (v : Z) : res Z :=
  match p with
  | [] => Stop OutOfBounds
  | c :: p => if (c =? 0)%Z then Ok v else hash_string p (Z.lxor (u32 (33 * v)) c)
  end.

(** A shift of a [u_int] by its width is undefined. *)
Definition shl32 (v n : Z) : res Z := if (0 <=? n)%Z && (n <? 32)%Z then Ok (u32 (Z.shiftl v n)) else Stop BadShift.
Definition shr32 (v n : Z) : res Z := if (0 <=? n)%Z && (n <? 32)%Z then Ok (Z.shiftr v n) else Stop BadShift.

Definition hash_rotate (val rot : Z) : res Z :=
  let rot := (rot mod (8 * 4))%Z in
  hi ← shl32 val rot; lo ← shr32 val (8 * 4 - rot); Ok (Z.lor hi lo).

(** [strcmp]: the sign of the difference of the first bytes that differ. *)
Fixpoint strcmp (a b : list Z) : res Z :=
  match a, b with
  | x :: a, y :: b => if (x =? y)%Z then if (x =? 0)%Z then Ok 0%Z else strcmp a b else Ok (if (x <? y)%Z then -1 else 1)%Z
  | _, _ => Stop OutOfBounds
  end.

Definition compare_str (a b : list Z) : res Z := strcmp a b.
Definition equals_str (a b : list Z) : res bool := c ← strcmp a b; Ok (c =? 0)%Z.
Definition hashfn_str (a : list Z) : res Z := hash_string a HASHSEED.

(** The templates over a type with [<], and over a type that converts to a hash. *)
Definition compare_of {T} (lt : T -> T -> bool) (a b : T) : Z := if lt a b then -1 else if lt b a then 1 else 0.
Definition hash2fn {T1 T2} (h1 : T1 -> Z) (h2 : T2 -> Z) (t1 : T1) (t2 : T2) : Z := Z.lxor (h1 t1) (h2 t2).
Definition keyfunc_1 {R V K} (kf : K -> R) (key : V -> K) (a : V) : R := kf (key a).
Definition keyfunc_2 {R V K} (kf : K -> K -> R) (key : V -> K) (a b : V) : R := kf (key a) (key b).

(** * What they compute *)

(** The memory holds the string [s]. *)
Definition holds (p s : list Z) : Prop := exists rest, p = s ++ 0%Z :: rest /\ Forall (fun c => (0 < c < 256)%Z) s.

Lemma times_33 v : u32 (u32 (Z.shiftl v 5) + v) = u32 (33 * v).
Proof. unfold u32. rewrite Z.shiftl_mul_pow2 by lia. rewrite Zplus_mod_idemp_l. f_equal. lia. Qed.

Lemma hash_string_loop s rest v : Forall (fun c => (0 < c < 256)%Z) s ->
  hash_string (s ++ 0%Z :: rest) v = hash_bytes_loop (length s) (s ++ 0%Z :: rest) v.
Proof.
  intros Hs. revert v. induction Hs as [|c s Hc _ IH]; intros v; cbn; [done|].
  rewrite (proj2 (Z.eqb_neq c 0)) by lia. by rewrite times_33, IH.
Qed.

Lemma hash_bytes_loop_ok n key v : (n <= length key)%nat -> exists h, hash_bytes_loop n key v = Ok h.
Proof. revert key v. induction n as [|n IH]; intros [|k key] v Hn; cbn in *; [by eexists|by eexists|lia|]. apply IH. lia. Qed.

Lemma strcmp_refl s rest1 rest2 : Forall (fun c => (0 < c < 256)%Z) s -> strcmp (s ++ 0%Z :: rest1) (s ++ 0%Z :: rest2) = Ok 0%Z.
Proof. induction 1 as [|c s Hc _ IH]; cbn; [done|]. by rewrite Z.eqb_refl, (proj2 (Z.eqb_neq c 0)) by lia. Qed.

Lemma strcmp_differ s t rest1 rest2 : Forall (fun c => (0 < c < 256)%Z) s -> Forall (fun c => (0 < c < 256)%Z) t -> s <> t ->
  exists c, strcmp (s ++ 0%Z :: rest1) (t ++ 0%Z :: rest2) = Ok c /\ (c = -1 \/ c = 1)%Z.
Proof.
  intros Hs. revert t. induction Hs as [|x s Hx _ IH]; intros t Ht Hne; destruct Ht as [|y t Hy Ht]; cbn; [done| | |].
  - destruct y as [|y|y]; [lia| |lia]. cbn. eauto.
  - rewrite (proj2 (Z.eqb_neq x 0)) by lia. eexists. split; [done|]. case_match; auto.
  - destruct (Z.eqb_spec x y) as [->|Hxy].
    + rewrite (proj2 (Z.eqb_neq y 0)) by lia. apply IH; [done|congruence].
    + eexists. split; [done|]. case_match; auto.
Qed.

(** On memory that holds strings, [equals] says whether the strings are equal, [compare] is zero exactly then, and
    equal strings have equal hashes, whatever follows them: those of their bytes by [hash_bytes]. *)
Theorem string_keys_agree p q s t : holds p s -> holds q t ->
  equals_str p q = Ok (bool_decide (s = t)) /\ (compare_str p q = Ok 0%Z <-> s = t) /\
  exists h, hashfn_str p = Ok h /\ hash_bytes s (Z.of_nat (length s)) HASHSEED = Ok h /\ (s = t -> hashfn_str q = Ok h).
Proof.
  intros (r1 & -> & Hs) (r2 & -> & Ht). split_and!.
  - unfold equals_str. destruct (decide (s = t)) as [->|Hne]; [by rewrite strcmp_refl, bool_decide_eq_true_2|].
    destruct (strcmp_differ s t r1 r2 Hs Ht Hne) as (c & -> & [-> | ->]); by rewrite bool_decide_eq_false_2.
  - unfold compare_str. split; [|intros <-; by apply strcmp_refl]. intros E. destruct (decide (s = t)) as [|Hne]; [done|].
    destruct (strcmp_differ s t r1 r2 Hs Ht Hne) as (c & E' & [-> | ->]); by rewrite E in E'.
  - assert (Hloop : forall rest v, hash_bytes_loop (length s) (s ++ rest) v = hash_bytes_loop (length s) s v).
    { clear. induction s as [|c s IH]; intros rest v; cbn; [by destruct rest|apply IH]. }
    unfold hashfn_str, hash_bytes. rewrite Nat2Z.id, hash_string_loop by done. rewrite Hloop.
    destruct (hash_bytes_loop_ok (length s) s HASHSEED) as (h & E); [done|]. exists h. split_and!; [done|done|].
    intros <-. by rewrite hash_string_loop, Hloop by done.
Qed.

Example string_keys_agree_witness : equals_str [97; 98; 0; 7]%Z [97; 98; 0]%Z = Ok true /\ hashfn_str [97; 98; 0; 7]%Z = hashfn_str [97; 98; 0]%Z.
Proof.
  destruct (string_keys_agree [97; 98; 0; 7]%Z [97; 98; 0]%Z [97; 98]%Z [97; 98]%Z) as (E & _ & h & E1 & _ & E2).
  - exists [7%Z]. split; [reflexivity|]. repeat constructor; lia.
  - exists []. split; [reflexivity|]. repeat constructor; lia.
  - split; [exact E|]. rewrite E1. symmetry. apply E2. reflexivity.
Defined.

(** [hash_rotate] rotates the 32 bits of its first argument to the left by the second modulo 32, but a multiple of 32
    makes it shift a [u_int] by its full width, which is undefined. *)
Theorem hash_rotate_correct val rot : (0 <= val < 2 ^ 32)%Z -> (0 <= rot)%Z ->
  if (rot mod 32 =? 0)%Z then hash_rotate val rot = Stop BadShift
  else exists r, hash_rotate val rot = Ok r /\ (0 <= r < 2 ^ 32)%Z /\ forall j, (0 <= j < 32)%Z -> Z.testbit r ((j + rot) mod 32) = Z.testbit val j.
Proof.
  intros Hv Hr. unfold hash_rotate, shl32, shr32. change (8 * 4)%Z with 32%Z. pose proof (Z.mod_pos_bound rot 32 ltac:(lia)) as Hm.
  set (k := (rot mod 32)%Z) in *. rewrite (proj2 (Z.leb_le 0 k)), (proj2 (Z.ltb_lt k 32)) by lia. cbn [andb mbind res_bind].
  destruct (Z.eqb_spec k 0) as [E|E]; [rewrite E; done|]. rewrite (proj2 (Z.leb_le 0 (32 - k))), (proj2 (Z.ltb_lt (32 - k) 32)) by lia. cbn [andb mbind res_bind].
  eexists. split; [done|].
  assert (Hbit : forall j, (0 <= j)%Z -> Z.testbit (Z.lor (u32 (Z.shiftl val k)) (Z.shiftr val (32 - k))) j = (j <? 32)%Z && Z.testbit val (if (j <? k)%Z then j + 32 - k else j - k)%Z).
  { intros j Hj. rewrite Z.lor_spec, Z.shiftr_spec by lia. unfold u32. destruct (Z.ltb_spec j 32) as [Hj2|Hj2]; cbn [andb].
    - rewrite Z.mod_pow2_bits_low, Z.shiftl_spec by lia. destruct (Z.ltb_spec j k) as [Hk|Hk].
      + rewrite (Z.testbit_neg_r _ (j - k)) by lia. cbn. f_equal. lia.
      + rewrite <- (Z.mod_small val (2 ^ 32)) at 2 by done. rewrite Z.mod_pow2_bits_high by lia. apply orb_false_r.
    - rewrite Z.mod_pow2_bits_high by lia. rewrite <- (Z.mod_small val (2 ^ 32)) by done. by rewrite Z.mod_pow2_bits_high by lia. }
  split.
  - assert (Er : forall x, (forall j, (32 <= j)%Z -> Z.testbit x j = false) -> (0 <= x < 2 ^ 32)%Z).
    { intros x Hx. assert (Em : x = (x mod 2 ^ 32)%Z); [|rewrite Em; apply Z.mod_pos_bound; lia]. apply Z.bits_inj'. intros j Hj.
      destruct (Z.lt_ge_cases j 32); [by rewrite Z.mod_pow2_bits_low|]. rewrite Z.mod_pow2_bits_high by lia. by apply Hx. }
    apply Er. intros j Hj. rewrite Hbit by lia. by rewrite (proj2 (Z.ltb_ge j 32)).
  - intros j Hj. assert (Ej : ((j + rot) mod 32 = if (j + k <? 32)%Z then j + k else j + k - 32)%Z).
    { rewrite <- Zplus_mod_idemp_r. fold k. destruct (Z.ltb_spec (j + k) 32) as [Hs|Hs]; [apply Z.mod_small; lia|].
      symmetry. apply (Z.mod_unique _ _ 1); lia. }
    rewrite Ej, Hbit by (destruct (Z.ltb_spec (j + k) 32); lia). destruct (Z.ltb_spec (j + k) 32) as [Hs|Hs].
    + rewrite (proj2 (Z.ltb_lt (j + k) 32)), (proj2 (Z.ltb_ge (j + k) k)) by lia. cbn. f_equal. lia.
    + rewrite (proj2 (Z.ltb_lt (j + k - 32) 32)), (proj2 (Z.ltb_lt (j + k - 32) k)) by lia. cbn. f_equal. lia.
Qed.

Example hash_rotate_correct_witness : hash_rotate 0x80000001 4 = Ok 0x18%Z /\ hash_rotate 1 0 = Stop BadShift.
Proof.
  pose proof (hash_rotate_correct 0x80000001 4 ltac:(lia) ltac:(lia)) as Q1. pose proof (hash_rotate_correct 1 0 ltac:(lia) ltac:(lia)) as Q2.
  cbn in Q1. destruct Q1 as (r & E & _). split; [|exact Q2]. reflexivity.
Defined.
