(* ===== verification/Itree.v ===== *)
(** The intrusive trees of src/deps/sfslite-1.2/itree.h: the searches, the walk and the two ways to delete
    every element of an [itree_core], and the class [ItreeCode] of the four functions of itree.C that the
    header declares.  Elements are the nodes of PTree, [dat] being what the element holds besides its
    [itree_entry]; the colour is read by itree.C only. *)
From S2P Require Import Prelude PTree BsTree Keyfunc.

(** * The code *)
Section itree.
Context {loc : Type} `{Countable loc} {D : Type}.
Abbreviation st := (tstate loc D).

(** What itree.C provides; [cmp] is the comparison it is given. *)
Class ItreeCode (cmp : D -> D -> Z) := {
  itree_insert : loc -> M st unit;
  itree_delete : loc -> M st unit;
  itree_successor : loc -> M st (option loc);
  itree_predecessor : loc -> M st (option loc)
}.

Definition tfuel (s : st) : nat := S (size (hp s)).

Definition itree_core : st := mkTstate None ∅.
Definition clear : M st unit := set_root None.
Definition up (n : option loc) : M st (option loc) := e ← load n; mret (p e).
Definition left (n : option loc) : M st (option loc) := e ← load n; mret (PTree.left e).
Definition right (n : option loc) : M st (option loc) := e ← load n; mret (PTree.right e).

(** [delete n] *)
Definition delete_node (n : option loc) : M st unit :=
  match n with
  | None => mret tt
  | Some a => load (Some a);; modify (fun s => mkTstate (root s) (delete a (hp s)))
  end.

Fixpoint _deleteall_correct (fuel : nat) (n : option loc) : M st unit :=
  match fuel with
  | O => stop OutOfFuel
  | S fuel =>
      match n with
      | None => mret tt
      | Some _ =>
          l ← left n; _deleteall_correct fuel l;;
          r ← right n; _deleteall_correct fuel r;;
          delete_node n
      end
  end.
Definition deleteall_correct : M st unit :=
  fuel ← gets tfuel; r ← gets root; _deleteall_correct fuel r;; clear.

Definition min_postorder (n : option loc) : M st (option loc) :=
  match n with
  | None => mret n
  | Some _ =>
      fuel ← gets tfuel;
      loopM fuel (fun n =>
        nn ← left n;
        match nn with
        | Some _ => mret (inl nn)
        | None =>
            nn ← right n;
            match nn with Some _ => mret (inl nn) | None => mret (inr n) end
        end) n
  end.
Definition next_postorder (n : option loc) : M st (option loc) :=
  nn ← up n;
  match nn with
  | None => mret nn
  | Some _ =>
      nnr ← right nn;
      match nnr with
      | None => mret nn
      | Some _ => if bool_decide (n = nnr) then mret nn else min_postorder nnr
      end
  end.

(** One round of [for (n = min_postorder (root ()); n; n = nn)]. *)
Definition deleteall_round (n : option loc) : M st (option loc + unit) :=
  match n with
  | None => mret (inr tt)
  | Some _ => nn ← next_postorder n; delete_node n;; mret (inl nn)
  end.
Definition deleteall : M st unit :=
  fuel ← gets tfuel; r ← gets root; n ← min_postorder r; loopM fuel deleteall_round n;; clear.

Definition first : M st (option loc) :=
  fuel ← gets tfuel; r ← gets root;
  loopM fuel (fun n =>
    match n with
    | None => mret (inr n)
    | Some _ => nn ← left n; match nn with Some _ => mret (inl nn) | None => mret (inr n) end
    end) r.

(** The searches: [cb] is the comparison of what is looked for with an element, the state of the loop
    is [(ret, n)]. *)
Definition search_round (cb : D -> Z) (x : option loc * option loc) : M st (option loc * option loc + option loc) :=
  let '(ret, n) := x in
  match n with
  | None => mret (inr ret)
  | Some _ =>
      e ← load n;
      let srchres := cb (dat e) in
      if (srchres <? 0)%Z then mret (inl (ret, PTree.left e))
      else if (0 <? srchres)%Z then mret (inl (ret, PTree.right e))
      else mret (inl (n, PTree.left e))
  end.
Definition search (cb : D -> Z) : M st (option loc) :=
  fuel ← gets tfuel; r ← gets root; loopM fuel (search_round cb) (None, r).

Definition lower_round (cb : D -> Z) (x : option loc * option loc) : M st (option loc * option loc + option loc) :=
  let '(ret, n) := x in
  match n with
  | None => mret (inr ret)
  | Some _ =>
      e ← load n;
      if (cb (dat e) <=? 0)%Z then mret (inl (n, PTree.left e)) else mret (inl (ret, PTree.right e))
  end.
Definition lower_bound_impl (cb : D -> Z) : M st (option loc) :=
  fuel ← gets tfuel; r ← gets root; loopM fuel (lower_round cb) (None, r).

Definition upper_round (cb : D -> Z) (x : option loc * option loc) : M st (option loc * option loc + option loc) :=
  let '(ret, n) := x in
  match n with
  | None => mret (inr ret)
  | Some _ =>
      e ← load n;
      if (0 <=? cb (dat e))%Z then mret (inl (n, PTree.right e)) else mret (inl (ret, PTree.left e))
  end.
Definition upper_bound_impl (cb : D -> Z) : M st (option loc) :=
  fuel ← gets tfuel; r ← gets root; loopM fuel (upper_round cb) (None, r).

(** The functions that call itree.C. *)
Section client.
Context (cmp : D -> D -> Z) `{!ItreeCode cmp}.

Definition insert (n : loc) : M st unit := itree_insert n.
Definition remove (n : loc) : M st unit := itree_delete n.
Definition next (n : loc) : M st (option loc) := itree_successor n.
Definition prev (n : loc) : M st (option loc) := itree_predecessor n.

(** [cb] works on a state [X] of its own. *)
Definition traverse {X} (cb : loc -> X -> X) (x : X) : M st X :=
  fuel ← gets tfuel; n ← first;
  loopM fuel (fun nx : option loc * X =>
    match nx.1 with
    | None => mret (inr nx.2)
    | Some n => nn ← next n; mret (inl (nn, cb n nx.2))
    end) (n, x).
End client.

(** [itree]: the elements have a key, a field that [key] reads, and [kcmp] compares keys. *)
Section keyed.
Context {K : Type} (key : D -> K) (kcmp : K -> K -> Z).

(** The core compares by [keyfunc_2]. *)
Definition skvcmp (k : K) (v : D) : Z := kcmp k (key v).
Definition it_search (k : K) : M st (option loc) := search (skvcmp k).
Definition lower_bound (k : K) : M st (option loc) := lower_bound_impl (skvcmp k).
Definition upper_bound (k : K) : M st (option loc) := upper_bound_impl (skvcmp k).
End keyed.

(** * Specification *)

(** The elements of a tree from left to right, and in the order in which children come before their parent. *)
Fixpoint items (t : tree loc D) : list (loc * D) :=
  match t with Leaf => [] | Nd l a d r => items l ++ (a, d) :: items r end.
Fixpoint postlocs (t : tree loc D) : list loc :=
  match t with Leaf => [] | Nd l a d r => postlocs l ++ postlocs r ++ [a] end.

Definition without (L : list loc) (h : gmap loc (node loc D)) : gmap loc (node loc D) :=
  foldl (fun h a => delete a h) h L.

(** The signs of [cb] go down from left to right. *)
Definition signs_down (cb : D -> Z) (t : tree loc D) : Prop :=
  StronglySorted (fun x y => (cb x <= 0 -> cb y <= 0)%Z /\ (cb x < 0 -> cb y < 0)%Z) (inorder t).
End itree.
Arguments ItreeCode loc {_ _} {D} cmp.

(** * Proofs *)
Section proofs.
Context {loc : Type} `{Countable loc} {D : Type}.
Abbreviation st := (tstate loc D).
Abbreviation tree := (tree loc D).
Implicit Types (s : st) (t l r : tree) (c : list (frame loc D)).

Lemma items_locs t : (items t).*1 ≡ₚ locs t.
Proof. induction t as [|l IHl a d r IHr]; cbn; [done|]. rewrite fmap_app, fmap_cons, IHl, IHr. cbn. solve_Permutation. Qed.

Lemma items_inorder t : (items t).*2 = inorder t.
Proof. induction t as [|l IHl a d r IHr]; cbn; [done|]. by rewrite fmap_app, fmap_cons, IHl, IHr. Qed.

Lemma items_cells q t x : x ∈ items t -> exists n, (x.1, n) ∈ cells q t /\ dat n = x.2.
Proof.
  revert q. induction t as [|l IHl a d r IHr]; intros q Hx; cbn in *; [by apply not_elem_of_nil in Hx|].
  apply elem_of_app in Hx as [Hx|[->|Hx]%elem_of_cons].
  - destruct (IHl (Some a) Hx) as (n & Hn & Hd). exists n. split; [set_solver|done].
  - eexists. split; [left; done|done].
  - destruct (IHr (Some a) Hx) as (n & Hn & Hd). exists n. split; [set_solver|done].
Qed.

Lemma rep_tfuel s c t : rep s c t -> height t < tfuel s.
Proof.
  intros [HT _ HN _]. apply NoDup_app in HN as (HN & _ & _).
  unfold tfuel. pose proof (height_size _ _ _ HT HN). lia.
Qed.

(** ** The searches

    One descent for the three: [found d] says that the element is a candidate, [down d] that it goes left. *)
Section descents.
Context (found down : D -> bool).

Definition descend_round (x : option loc * option loc) : M st (option loc * option loc + option loc) :=
  let '(ret, n) := x in
  match n with
  | None => mret (inr ret)
  | Some _ =>
      e ← load n;
      mret (inl (if found (dat e) then n else ret, if down (dat e) then PTree.left e else PTree.right e))
  end.

Fixpoint descent (t : tree) (ret : option loc) : option loc :=
  match t with
  | Leaf => ret
  | Nd l a d r => descent (if down d then l else r) (if found d then Some a else ret)
  end.

Lemma descend_run fuel s c t ret : rep s c t -> height t < fuel ->
  loopM fuel descend_round (ret, rootp t) s = Ok (descent t ret, s).
Proof.
  revert c fuel ret. induction t as [|l IHl a d r IHr]; intros c fuel ret HR Hf;
    destruct fuel as [|fuel]; cbn [height] in Hf; try lia; rewrite loopM_step; [done|].
  cbn [rootp descend_round]. rewrite (bind_load _ _ _ _ (rep_cell _ _ _ _ _ _ HR)). cbn [dat PTree.left PTree.right descent].
  unfold mret, M_ret. destruct (down d).
  - apply (IHl (FL a d r :: c)); [by apply rep_left|lia].
  - apply (IHr (FR l a d :: c)); [by apply rep_right|lia].
Qed.

Definition is_found (x : loc * D) : Prop := found x.2 = true.
#[export] Instance is_found_dec x : Decision (is_found x).
Proof. unfold is_found. apply _. Defined.

Lemma filter_found_cons a d (k : list (loc * D)) :
  filter is_found ((a, d) :: k) = if found d then (a, d) :: filter is_found k else filter is_found k.
Proof.
  destruct (found d) eqn:E; [by rewrite filter_cons_True|]. rewrite filter_cons_False; [done|]. unfold is_found. cbn. congruence.
Qed.

(** Candidates that lie where the descent goes left: it finds the first. *)
Lemma descent_first t ret :
  StronglySorted (fun x y => (down x = true -> down y = true) /\ (down x = true -> found x = false -> found y = false)) (inorder t) ->
  (forall d, found d = true -> down d = true) ->
  descent t ret = from_option (fun x => Some x.1) ret (head (filter is_found (items t))).
Proof.
  intros Hs Hfd. revert ret Hs. induction t as [|l IHl a d r IHr]; intros ret Hs; cbn [descent items inorder] in *; [done|].
  apply StronglySorted_app in Hs as (Hlr & Hl & Hr). apply StronglySorted_cons in Hr as [Hd Hr].
  rewrite <- items_inorder in Hd, Hlr. rewrite Forall_forall in Hd.
  rewrite filter_app, filter_found_cons. destruct (down d) eqn:Ed.
  - rewrite IHl by done. destruct (filter is_found (items l)) as [|x k]; [|done]. cbn [app head from_option].
    destruct (found d) eqn:Ef; [done|]. rewrite filter_none; [done|]. apply Forall_forall. intros x Hx Hfx.
    destruct (Hd x.2) as [_ H2]; [by apply list_elem_of_fmap_2|]. unfold is_found in Hfx. by rewrite H2 in Hfx.
  - rewrite IHr by done. assert (Ef : found d = false) by (destruct (found d) eqn:E; [by rewrite Hfd in Ed|done]).
    rewrite Ef, (filter_none is_found (items l)); [done|]. apply Forall_forall. intros x Hx Hfx. unfold is_found in Hfx. destruct (Hlr x.2 d) as [H1 _]; [by apply list_elem_of_fmap_2|by left|].
    rewrite H1 in Ed; [done|by apply Hfd].
Qed.

(** Candidates that lie where the descent goes right: it finds the last. *)
Lemma descent_last t ret :
  StronglySorted (fun x y => down x = true -> down y = true) (inorder t) ->
  (forall d, found d = negb (down d)) ->
  descent t ret = from_option (fun x => Some x.1) ret (last (filter is_found (items t))).
Proof.
  intros Hs Hfd. revert ret Hs. induction t as [|l IHl a d r IHr]; intros ret Hs; cbn [descent items inorder] in *; [done|].
  apply StronglySorted_app in Hs as (Hlr & Hl & Hr). apply StronglySorted_cons in Hr as [Hd Hr].
  rewrite <- items_inorder in Hd. rewrite Forall_forall in Hd.
  rewrite filter_app, filter_found_cons, Hfd. destruct (down d) eqn:Ed; cbn [negb].
  - rewrite IHl by done.
    rewrite (filter_none is_found (items r)); [by rewrite app_nil_r|]. apply Forall_forall. intros x Hx.
    unfold is_found. rewrite Hfd, Hd; [done|by apply list_elem_of_fmap_2|done].
  - rewrite IHr by done. rewrite last_app, last_cons. by destruct (last (filter is_found (items r))).
Qed.
End descents.

Lemma root_run {R} s t (body : option loc * option loc -> M st (option loc * option loc + R)) : rep s [] t ->
  (fuel ← gets tfuel; r ← gets root; loopM fuel body (None, r)) s = loopM (tfuel s) body (None, rootp t) s.
Proof. intros HR. mnorm. by rewrite (rep_root _ _ _ HR). Qed.

Lemma loopM_ext {Y X R} fuel (b1 b2 : X -> M Y (X + R)) x (y : Y) : (forall x y, b1 x y = b2 x y) -> loopM fuel b1 x y = loopM fuel b2 x y.
Proof. intros E. unfold loopM. apply loop_ext. intros [x' y']. cbn. by rewrite E. Qed.

Lemma isearch_run s t cb : rep s [] t ->
  search cb s = Ok (descent (fun d => (cb d =? 0)%Z) (fun d => (cb d <=? 0)%Z) t None, s).
Proof.
  intros HR. unfold search. rewrite (root_run s t) by done.
  rewrite <- (descend_run _ _ (tfuel s) s [] t None HR (rep_tfuel _ _ _ HR)). apply loopM_ext.
  intros [ret [a|]] s'; [|done]. cbn. unfold mbind, M_bind. destruct (load (Some a) s') as [[e s'']|f]; [|done].
  cbn zeta. destruct (Z.ltb_spec (cb (dat e)) 0), (Z.ltb_spec 0 (cb (dat e))), (Z.eqb_spec (cb (dat e)) 0), (Z.leb_spec (cb (dat e)) 0); try lia; done.
Qed.

Lemma lower_run s t cb : rep s [] t ->
  lower_bound_impl cb s = Ok (descent (fun d => (cb d <=? 0)%Z) (fun d => (cb d <=? 0)%Z) t None, s).
Proof.
  intros HR. unfold lower_bound_impl. rewrite (root_run s t) by done.
  rewrite <- (descend_run _ _ (tfuel s) s [] t None HR (rep_tfuel _ _ _ HR)). apply loopM_ext.
  intros [ret [a|]] s'; [|done]. cbn. unfold mbind, M_bind. destruct (load (Some a) s') as [[e s'']|f]; [|done].
  by destruct (cb (dat e) <=? 0)%Z.
Qed.

Lemma upper_run s t cb : rep s [] t ->
  upper_bound_impl cb s = Ok (descent (fun d => (0 <=? cb d)%Z) (fun d => negb (0 <=? cb d)%Z) t None, s).
Proof.
  intros HR. unfold upper_bound_impl. rewrite (root_run s t) by done.
  rewrite <- (descend_run _ _ (tfuel s) s [] t None HR (rep_tfuel _ _ _ HR)). apply loopM_ext.
  intros [ret [a|]] s'; [|done]. cbn. unfold mbind, M_bind. destruct (load (Some a) s') as [[e s'']|f]; [|done].
  by destruct (0 <=? cb (dat e))%Z.
Qed.

Lemma bind_left {B} s a n (k : option loc -> M st B) : hp s !! a = Some n -> (left (Some a) ≫= k) s = k (PTree.left n) s.
Proof. intros Ha. unfold left. by rewrite bind_assoc, (bind_load _ _ _ _ Ha), bind_ret. Qed.

Lemma bind_right {B} s a n (k : option loc -> M st B) : hp s !! a = Some n -> (right (Some a) ≫= k) s = k (PTree.right n) s.
Proof. intros Ha. unfold right. by rewrite bind_assoc, (bind_load _ _ _ _ Ha), bind_ret. Qed.

(** ** Deleting every element

    On the way the heap holds less than the tree: [wcells] are the cells of a context whose left subtrees
    that lie before the hole are gone, although their parents still point to them. *)
Fixpoint wcells (q : option loc) (c : list (frame loc D)) : list (loc * node loc D) :=
  match c with
  | [] => []
  | FL a d r :: c' => (a, mkNode q (rootp r) (cpar c') d) :: cells (Some a) r ++ wcells (Some a) c'
  | FR l a d :: c' => (a, mkNode (rootp l) q (cpar c') d) :: wcells (Some a) c'
  end.

Lemma wcells_ccells q c : forall x, x ∈ wcells q c -> x ∈ ccells q c.
Proof. revert q. induction c as [|[a d r|l a d] c IH]; intros q x; cbn; [done|..]; set_solver. Qed.

Lemma wcells_key q c a n : (a, n) ∈ wcells q c -> a ∈ clocs c.
Proof. intros Hx. eapply ccells_key. by apply wcells_ccells. Qed.

Lemma postlocs_perm t : postlocs t ≡ₚ locs t.
Proof. induction t as [|l IHl a d r IHr]; cbn; [done|]. rewrite IHl, IHr. solve_Permutation. Qed.

Lemma mkTstate_eta s : mkTstate (root s) (hp s) = s.
Proof. by destruct s. Qed.

Lemma without_app L1 L2 (h : gmap loc (node loc D)) : without (L1 ++ L2) h = without L2 (without L1 h).
Proof. apply foldl_app. Qed.

Lemma lookup_without L (h : gmap loc (node loc D)) a : without L h !! a = if decide (a ∈ L) then None else h !! a.
Proof.
  revert h. induction L as [|b L IH]; intros h.
  - by rewrite decide_False by apply not_elem_of_nil.
  - change (without (b :: L) h) with (without L (delete b h)). rewrite IH. destruct (decide (a ∈ L)) as [Ha|Ha].
    + by rewrite decide_True by (by right).
    + destruct (decide (a = b)) as [->|Hne]; [by rewrite lookup_delete_eq, decide_True by (by left)|].
      rewrite lookup_delete_ne, decide_False; [done|set_solver|done].
Qed.

Lemma agrees_without L (h : gmap loc (node loc D)) X : (forall a n, (a, n) ∈ X -> a ∉ L) -> agrees h X -> agrees (without L h) X.
Proof. intros HL HX a n Ha. rewrite lookup_without, decide_False by (by eapply HL). by apply HX. Qed.

Fixpoint minp (t : tree) : option loc :=
  match t with
  | Leaf => None
  | Nd l a _ r => match l, r with Leaf, Leaf => Some a | Leaf, _ => minp r | _, _ => minp l end
  end.
Definition nextp (c : list (frame loc D)) : option loc :=
  match c with
  | [] => None
  | FL b _ Leaf :: _ => Some b
  | FL _ _ r :: _ => minp r
  | FR _ b _ :: _ => Some b
  end.

Lemma min_loop_run fuel s q t : agrees (hp s) (cells q t) -> t <> Leaf -> height t <= fuel ->
  loopM fuel (fun n => nn ← left n;
    match nn with
    | Some _ => mret (inl nn)
    | None => nn ← right n; match nn with Some _ => mret (inl nn) | None => mret (inr n) end
    end) (rootp t) s = Ok (minp t, s).
Proof.
  revert q fuel. induction t as [|l IHl a d r IHr]; intros q fuel HT Ht Hf; [done|].
  destruct fuel as [|fuel]; cbn [height] in Hf; [lia|]. cbn [cells] in HT.
  apply agrees_cons in HT as [Ha HT]. apply agrees_app in HT as [HL HR]. rewrite loopM_step. cbn [rootp].
  rewrite (bind_left _ _ _ _ Ha). cbn [PTree.left].
  destruct l as [|l1 a1 d1 r1]; cbn [rootp].
  - rewrite (bind_right _ _ _ _ Ha). cbn [PTree.right].
    destruct r as [|l2 a2 d2 r2]; cbn [rootp]; [done|]. apply (IHr (Some a)); [done|done|cbn [height] in *; lia].
  - apply (IHl (Some a)); [done|done|cbn [height] in *; lia].
Qed.

Lemma min_postorder_run s q t : agrees (hp s) (cells q t) -> NoDup (locs t) -> min_postorder (rootp t) s = Ok (minp t, s).
Proof.
  intros HT HN. pose proof (height_size _ _ _ HT HN). destruct t as [|l a d r]; [done|].
  unfold min_postorder. cbn [rootp]. mnorm. apply (min_loop_run _ s q (Nd l a d r)); [done|done|unfold tfuel; lia].
Qed.

Lemma next_postorder_run s c a n : hp s !! a = Some n -> p n = cpar c -> agrees (hp s) (wcells (Some a) c) -> NoDup (a :: clocs c) ->
  next_postorder (Some a) s = Ok (nextp c, s).
Proof.
  intros Ha Hp HC HN. unfold next_postorder, up. rewrite bind_assoc, (bind_load _ _ _ _ Ha), bind_ret, Hp.
  destruct c as [|[b d r|l b d] c]; cbn [cpar head fmap option_fmap option_map floc nextp]; [done|..]; cbn [wcells] in HC;
    apply agrees_cons in HC as [Hb HC]; rewrite (bind_right _ _ _ _ Hb); cbn [PTree.right].
  - apply agrees_app in HC as [HR _]. destruct r as [|l2 a2 d2 r2]; [done|]. cbn [rootp]. rewrite bool_decide_false.
    + apply (min_postorder_run s (Some b) (Nd l2 a2 d2 r2)); [done|]. cbn [clocs flocs] in HN. addr_split. tauto.
    + intros [= ->]. cbn [clocs flocs locs] in HN. apply NoDup_cons in HN as [HN _]. set_solver.
  - by rewrite bool_decide_true.
Qed.

Lemma delete_node_run s a n : hp s !! a = Some n -> delete_node (Some a) s = Ok (tt, mkTstate (root s) (without [a] (hp s))).
Proof. intros Ha. unfold delete_node. by rewrite (bind_load _ _ _ _ Ha). Qed.

(** From the first node of [t] in postorder the loop deletes all of [t] and goes on behind it. *)
Lemma deleteall_tree t c s fuel : t <> Leaf ->
  agrees (hp s) (cells (cpar c) t) -> agrees (hp s) (wcells (rootp t) c) -> NoDup (locs t ++ clocs c) ->
  loopM (length (locs t) + fuel) deleteall_round (minp t) s =
  loopM fuel deleteall_round (nextp c) (mkTstate (root s) (without (postlocs t) (hp s))).
Proof.
  revert c s fuel. induction t as [|l IHl a d r IHr]; intros c s fuel Ht HT HC HN; [done|].
  cbn [cells] in HT. apply agrees_cons in HT as [Ha HT]. apply agrees_app in HT as [HL HR]. cbn [locs rootp] in *.
  assert (HNl : NoDup (locs l ++ clocs (FL a d r :: c))) by (cbn [clocs flocs]; nodup_solve).
  assert (HNr : NoDup (locs r ++ clocs (FR l a d :: c))) by (cbn [clocs flocs]; nodup_solve).
  assert (HCa : NoDup (a :: clocs c)) by nodup_solve.
  assert (Hd : a ∉ locs l /\ a ∉ locs r /\ disj (locs l) (clocs c) /\ disj (locs l) (locs r) /\ disj (locs r) (clocs c)) by nodup_solve.
  destruct Hd as (Hal & Har & Hlc & Hlr & Hrc).
  set (s1 := mkTstate (root s) (without (postlocs l) (hp s))).
  set (s2 := mkTstate (root s1) (without (postlocs r) (hp s1))).
  assert (Hdl : forall x, x ∈ postlocs l -> x ∈ locs l) by (intros x; by rewrite postlocs_perm).
  assert (Hdr : forall x, x ∈ postlocs r -> x ∈ locs r) by (intros x; by rewrite postlocs_perm).
  assert (E1 : forall f, loopM (length (locs l) + f) deleteall_round (minp (Nd l a d r)) s = loopM f deleteall_round (nextp (FL a d r :: c)) s1).
  { intros f. destruct l as [|l1 a1 d1 r1].
    - unfold s1. cbn. rewrite mkTstate_eta. by destruct r.
    - unfold s1. rewrite <- (IHl (FL a d r :: c) s f); [by destruct r|done|done| |done].
      cbn [wcells rootp]. rewrite agrees_cons, agrees_app. done. }
  assert (Ha1 : hp s1 !! a = hp s !! a) by (unfold s1; cbn [hp]; rewrite lookup_without, decide_False; [done|]; by intros ?%Hdl).
  assert (HC1 : agrees (hp s1) (wcells (Some a) c)).
  { apply agrees_without; [|done]. intros x n Hx%wcells_key Hl%Hdl. exact (Hlc x Hl Hx). }
  assert (HR1 : agrees (hp s1) (cells (Some a) r)).
  { apply agrees_without; [|done]. intros x n Hx%cells_key Hl%Hdl. exact (Hlr x Hl Hx). }
  assert (E2 : forall f, loopM (length (locs r) + f) deleteall_round (nextp (FL a d r :: c)) s1 = loopM f deleteall_round (Some a) s2).
  { intros f. destruct r as [|l2 a2 d2 r2]; [done|].
    apply (IHr (FR l a d :: c) s1 f); [done|done| |done].
    cbn [wcells rootp]. rewrite agrees_cons, Ha1. done. }
  assert (Ha2 : hp s2 !! a = hp s !! a).
  { unfold s2; cbn [hp]; rewrite lookup_without, decide_False; [done|]. by intros ?%Hdr. }
  assert (HC2 : agrees (hp s2) (wcells (Some a) c)).
  { apply agrees_without; [|done]. intros x n Hx%wcells_key Hr%Hdr. exact (Hrc x Hr Hx). }
  change (length (a :: locs l ++ locs r) + fuel) with (S (length (locs l ++ locs r) + fuel)). rewrite length_app.
  replace (S (length (locs l) + length (locs r) + fuel)) with (length (locs l) + (length (locs r) + S fuel)) by lia.
  rewrite E1, E2, loopM_step. cbn [deleteall_round]. rewrite Ha in Ha2.
  rewrite (M_bind_ok _ _ _ _ _ (next_postorder_run s2 c a _ Ha2 eq_refl HC2 HCa)).
  rewrite (M_bind_ok _ _ _ _ _ (delete_node_run s2 a _ Ha2)). unfold mret, M_ret. cbn [postlocs].
  by rewrite !without_app.
Qed.

Lemma rep_none (h : gmap loc (node loc D)) : rep (mkTstate None h) [] Leaf.
Proof. split; [apply agrees_nil|apply agrees_nil|constructor|done]. Qed.

Lemma sorted_impl {X} (R1 R2 : relation X) (k : list X) : (forall x y, R1 x y -> R2 x y) -> StronglySorted R1 k -> StronglySorted R2 k.
Proof. intros E. induction 1 as [|x k _ IH Hx]; constructor; [done|]. eapply Forall_impl; [exact Hx|]. auto. Qed.

Lemma rep_nil s t : rep s [] t -> agrees (hp s) (cells None t) /\ NoDup (locs t) /\ root s = rootp t.
Proof. intros [HT _ HN HR]. cbn in HT, HN, HR. by rewrite app_nil_r in HN. Qed.

Definition emptied s t : st := mkTstate None (without (postlocs t) (hp s)).

Lemma deleteall_run s t : rep s [] t -> deleteall s = Ok (tt, emptied s t).
Proof.
  intros HR. destruct (rep_nil _ _ HR) as (HT & HN & Hr). unfold deleteall. mnorm. rewrite Hr.
  rewrite (M_bind_ok _ _ _ _ _ (min_postorder_run s None t HT HN)).
  assert (E : exists s', loopM (tfuel s) deleteall_round (minp t) s = Ok (tt, s') /\ hp s' = without (postlocs t) (hp s)).
  { destruct t as [|l a d r]; [by exists s|]. pose proof (locs_size _ _ _ HT HN) as Hsz. unfold tfuel.
    replace (S (size (hp s))) with (length (locs (Nd l a d r)) + S (size (hp s) - length (locs (Nd l a d r)))) by lia.
    rewrite (deleteall_tree _ []); [|done|done|apply agrees_nil|by cbn [clocs]; rewrite app_nil_r]. rewrite loopM_step. by eexists. }
  destruct E as (s' & E & Eh). rewrite (M_bind_ok _ _ _ _ _ E). unfold clear, set_root, modify, emptied. by rewrite Eh.
Qed.

Lemma _deleteall_correct_run fuel s q t : agrees (hp s) (cells q t) -> NoDup (locs t) -> height t < fuel ->
  _deleteall_correct fuel (rootp t) s = Ok (tt, mkTstate (root s) (without (postlocs t) (hp s))).
Proof.
  revert s q fuel. induction t as [|l IHl a d r IHr]; intros s q fuel HT HN Hf; (destruct fuel as [|fuel]; cbn [height] in Hf; [lia|]).
  { cbn. by rewrite mkTstate_eta. }
  cbn [cells locs] in HT, HN. apply agrees_cons in HT as [Ha HT]. apply agrees_app in HT as [HL HR].
  assert (Hd : a ∉ locs l /\ a ∉ locs r /\ disj (locs l) (locs r) /\ NoDup (locs l) /\ NoDup (locs r)) by nodup_solve.
  destruct Hd as (Hal & Har & Hlr & HNl & HNr). cbn [_deleteall_correct rootp]. rewrite (bind_left _ _ _ _ Ha).
  cbn [PTree.left]. rewrite (M_bind_ok _ _ _ _ _ (IHl s (Some a) fuel HL HNl ltac:(lia))).
  set (s1 := mkTstate (root s) (without (postlocs l) (hp s))).
  assert (Ha1 : hp s1 !! a = Some (mkNode (rootp l) (rootp r) q d)).
  { unfold s1. cbn [hp]. rewrite lookup_without, decide_False; [done|]. by rewrite postlocs_perm. }
  assert (HR1 : agrees (hp s1) (cells (Some a) r)).
  { apply agrees_without; [|done]. intros x n Hx%cells_key Hl. rewrite postlocs_perm in Hl. exact (Hlr x Hl Hx). }
  rewrite (bind_right _ _ _ _ Ha1). cbn [PTree.right].
  rewrite (M_bind_ok _ _ _ _ _ (IHr s1 (Some a) fuel HR1 HNr ltac:(lia))).
  erewrite delete_node_run; [cbn [root hp postlocs]; unfold s1; cbn [root hp]; by rewrite !without_app|].
  cbn [hp]. rewrite lookup_without, decide_False; [done|]. by rewrite postlocs_perm.
Qed.

Lemma deleteall_correct_run s t : rep s [] t -> deleteall_correct s = Ok (tt, emptied s t).
Proof.
  intros HR. destruct (rep_nil _ _ HR) as (HT & HN & Hr). unfold deleteall_correct. mnorm. rewrite Hr.
  by rewrite (M_bind_ok _ _ _ _ _ (_deleteall_correct_run (tfuel s) s None t HT HN (rep_tfuel _ _ _ HR))).
Qed.

Lemma lookup_emptied s t a : hp (emptied s t) !! a = if decide (a ∈ locs t) then None else hp s !! a.
Proof. unfold emptied. cbn [hp]. rewrite lookup_without. apply decide_ext. by rewrite postlocs_perm. Qed.

(** C18: [deleteall] walks a tree in postorder through the parent pointers while it deletes the nodes, and [deleteall_correct]
    recurses; on every tree both end, neither touches a node that is already deleted, and both leave an empty tree
    and delete exactly the nodes of the tree. *)
Theorem itree_deleteall_correct s t : rep s [] t ->
  exists s', deleteall s = Ok (tt, s') /\ deleteall_correct s = Ok (tt, s') /\ root s' = None /\
    forall a, hp s' !! a = if decide (a ∈ locs t) then None else hp s !! a.
Proof.
  intros HR. exists (emptied s t). split_and!; [by apply deleteall_run|by apply deleteall_correct_run|done|apply lookup_emptied].
Qed.

(** ** The walk *)
Lemma first_run s t : rep s [] t -> first s = Ok (fst <$> head (items t), s).
Proof.
  intros HR. unfold first. mnorm. rewrite (rep_root _ _ _ HR). cbn [croot last].
  pose proof (rep_tfuel _ _ _ HR) as Hf. revert Hf HR. generalize (tfuel s) (@nil (frame loc D)). intros fuel c.
  revert fuel c. induction t as [|l IHl a d r _]; intros fuel c Hf HR; (destruct fuel as [|fuel]; cbn [height] in Hf; [lia|]);
    rewrite loopM_step; [done|]. cbn [rootp]. rewrite (bind_left _ _ _ _ (rep_cell _ _ _ _ _ _ HR)).
  cbn [PTree.left]. destruct l as [|l1 a1 d1 r1]; cbn [rootp]; [done|].
  etrans; [apply (IHl fuel (FL a d r :: c)); [cbn [height] in *; lia|exact (rep_to_left _ _ _ _ _ _ HR)]|]. do 2 f_equal. cbn. by destruct (items l1).
Qed.
End proofs.

(** ** What itree.C promises *)
Section laws.
Context {loc : Type} `{Countable loc} {D : Type} (cmp : D -> D -> Z).
Abbreviation st := (tstate loc D).
Abbreviation tree := (tree loc D).
Implicit Types (s : st) (t : tree).

Definition ordered t : Prop := StronglySorted (fun x y => (cmp x y <= 0)%Z) (inorder t).

(** What the elements hold. *)
Definition data s : gmap loc D := dat <$> hp s.

(** An element is put into an ordered tree or taken out of it, and stays what it is; the two neighbours. *)
Class ItreeLaws `{!ItreeCode loc cmp} : Prop := {
  itree_insert_ok s t a : rep s [] t -> ordered t -> a ∉ locs t -> is_Some (hp s !! a) ->
    exists s' t', itree_insert a s = Ok (tt, s') /\ rep s' [] t' /\ ordered t' /\ locs t' ≡ₚ a :: locs t /\ data s' = data s;
  itree_delete_ok s t a : rep s [] t -> ordered t -> a ∈ locs t ->
    exists s' t', itree_delete a s = Ok (tt, s') /\ rep s' [] t' /\ ordered t' /\ a :: locs t' ≡ₚ locs t /\ data s' = data s;
  itree_successor_ok s t xs x ys : rep s [] t -> items t = xs ++ x :: ys -> itree_successor x.1 s = Ok (fst <$> head ys, s);
  itree_predecessor_ok s t xs x ys : rep s [] t -> items t = xs ++ x :: ys -> itree_predecessor x.1 s = Ok (fst <$> last xs, s)
}.

Context `{!ItreeCode loc cmp, !ItreeLaws}.

Lemma traverse_run {X} s t (cb : loc -> X -> X) x : rep s [] t ->
  traverse cmp cb x s = Ok (foldl (fun x a => cb a x) x (items t).*1, s).
Proof.
  intros HR. unfold traverse. mnorm. rewrite (M_bind_ok _ _ _ _ _ (first_run s t HR)).
  assert (Hf : length (items t) < tfuel s).
  { destruct (rep_nil _ _ HR) as (HT & HN & _). rewrite <- (length_fmap fst), items_locs. pose proof (locs_size _ _ _ HT HN). unfold tfuel. lia. }
  assert (E : forall ys xs fuel x, items t = xs ++ ys -> length ys < fuel ->
    loopM fuel (fun nx : option loc * X => match nx.1 with None => mret (inr nx.2) | Some n => nn ← next cmp n; mret (inl (nn, cb n nx.2)) end)
      (fst <$> head ys, x) s = Ok (foldl (fun x a => cb a x) x ys.*1, s)).
  { clear x Hf. intros ys. induction ys as [|y ys IH]; intros xs fuel x E Hf; (destruct fuel as [|fuel]; cbn [length] in Hf; [lia|]); rewrite loopM_step; [done|].
    cbn [fst head fmap option_fmap option_map]. unfold next. rewrite (M_bind_ok _ _ _ _ _ (itree_successor_ok s t xs y ys HR E)).
    etrans; [apply (IH (xs ++ [y])); [by rewrite <- app_assoc|lia]|done]. }
  by apply (E _ []).
Qed.

(** A sequence of calls of [insert] and [remove]; [live] are the elements that are in. *)
Inductive top : Type := TIns (a : loc) | TDel (a : loc).
Definition run_top (o : top) s : res (st * unit) := '(_, s') ← match o with TIns a => insert cmp a s | TDel a => remove cmp a s end; Ok (s', tt).
Definition spec_top (o : top) (L : list loc) : list loc * unit :=
  (match o with TIns a => a :: L | TDel a => filter (fun b => b <> a) L end, tt).
Definition may_top (S : gset loc) (o : top) (L : list loc) : Prop :=
  match o with TIns a => a ∈ S /\ a ∉ L | TDel a => a ∈ L end.

Record holds (F : gmap loc D) s (L : list loc) : Prop := {
  holds_tree : exists t, rep s [] t /\ ordered t /\ locs t ≡ₚ L;
  holds_data : data s = F
}.

Lemma filter_out (a : loc) L M : NoDup (a :: M) -> a :: M ≡ₚ L -> filter (fun b => b <> a) L ≡ₚ M.
Proof.
  intros [Ha _]%NoDup_cons <-. rewrite filter_cons_False by tauto. rewrite filter_all; [done|].
  apply Forall_forall. intros b Hb ->. done.
Qed.

Lemma run_top_ok F o s L : holds F s L -> may_top (dom F) o L ->
  exists s', run_top o s = Ok (s', (spec_top o L).2) /\ holds F s' (spec_top o L).1.
Proof.
  intros [(t & HR & Ho & HL) Hd] Hm. destruct o as [a|a]; cbn [may_top] in Hm; cbn [run_top spec_top fst snd].
  - unfold run_top. destruct Hm as [HaF HaL]. destruct (itree_insert_ok s t a HR Ho) as (s' & t' & E & HR' & Ho' & HL' & Hd').
    + by rewrite HL.
    + rewrite <- Hd in HaF. unfold data in HaF. rewrite dom_fmap_L in HaF. by apply elem_of_dom.
    + exists s'. unfold insert. rewrite E. split; [done|]. split; [|by rewrite Hd']. exists t'. by rewrite HL', HL.
  - unfold run_top. destruct (itree_delete_ok s t a HR Ho) as (s' & t' & E & HR' & Ho' & HL' & Hd'); [by rewrite HL|].
    exists s'. unfold remove. rewrite E. split; [done|]. split; [|by rewrite Hd']. exists t'. split_and!; [done|done|]. symmetry.
    apply filter_out; [|by rewrite HL']. rewrite HL'. destruct (rep_nil _ _ HR) as (_ & HN & _). done.
Qed.

End laws.
Arguments TIns {loc} a.
Arguments TDel {loc} a.
Arguments ItreeLaws {loc _ _ D} cmp {_}.

(** What the comparison of keys must be. *)
Class CompareLaws {K} (kcmp : K -> K -> Z) : Prop := {
  compare_flip x y : (kcmp x y < 0 <-> 0 < kcmp y x)%Z;
  compare_trans x y z : (kcmp x y <= 0 -> kcmp y z <= 0 -> kcmp x z <= 0)%Z
}.

(** ** A tree with keys *)
Section keys.
Context {loc : Type} `{Countable loc} {D K : Type} (key : D -> K) (kcmp : K -> K -> Z) `{!CompareLaws kcmp}.
Context `{!ItreeCode loc (keyfunc_2 kcmp key), !ItreeLaws (keyfunc_2 kcmp key)}.

Lemma compare_le x y : (kcmp x y <= 0 <-> 0 <= kcmp y x)%Z.
Proof. pose proof (compare_flip x y). pose proof (compare_flip y x). lia. Qed.

Lemma ordered_signs t k : ordered (loc := loc) (keyfunc_2 kcmp key) t -> signs_down (skvcmp key kcmp k) t.
Proof.
  unfold ordered, signs_down, skvcmp, keyfunc_2. intros Ho. eapply sorted_impl; [|exact Ho]. cbn. intros x y Hxy. split.
  - intros Hk. by eapply compare_trans.
  - intros Hk. apply Z.nle_gt. intros Hy. apply compare_le in Hy. pose proof (compare_trans _ _ _ Hxy Hy) as Hx. apply compare_le in Hx. lia.
Qed.

(** Of elements from left to right the first with key [k], the first with a key from [k] on, and the last with a key up to [k]. *)
Definition first_equal (k : K) (L : list (loc * D)) : option loc := fst <$> head (filter (fun x => kcmp k (key x.2) = 0)%Z L).
Definition first_from (k : K) (L : list (loc * D)) : option loc := fst <$> head (filter (fun x => kcmp k (key x.2) <= 0)%Z L).
Definition last_upto (k : K) (L : list (loc * D)) : option loc := fst <$> last (filter (fun x => 0 <= kcmp k (key x.2))%Z L).

Lemma filter_found (f : D -> bool) (P : loc * D -> Prop) `{forall x, Decision (P x)} (L : list (loc * D)) : (forall x, P x <-> f x.2 = true) ->
  filter P L = filter (is_found f) L.
Proof. intros E. apply list_filter_iff. intros x. apply E. Qed.

Lemma lookups_run (s : tstate loc D) (t : tree loc D) k : rep s [] t -> ordered (keyfunc_2 kcmp key) t ->
  it_search key kcmp k s = Ok (first_equal k (items t), s) /\
  lower_bound key kcmp k s = Ok (first_from k (items t), s) /\
  upper_bound key kcmp k s = Ok (last_upto k (items t), s).
Proof.
  intros HR Ho. pose proof (ordered_signs t k Ho) as Hs. unfold signs_down in Hs.
  unfold it_search, lower_bound, upper_bound, first_equal, first_from, last_upto. split_and!.
  - rewrite (isearch_run s t) by done. rewrite descent_first.
    + rewrite (filter_found (fun d => (skvcmp key kcmp k d =? 0)%Z) (fun x => kcmp k (key x.2) = 0)%Z); [done|]. intros x. symmetry. apply Z.eqb_eq.
    + eapply sorted_impl; [|exact Hs]. cbn. intros x y [H1 H2]. rewrite !Z.leb_le, !Z.eqb_neq. split; [done|]. intros H3 H4. apply Z.lt_neq, H2. lia.
    + intros d. rewrite Z.eqb_eq, Z.leb_le. lia.
  - rewrite (lower_run s t) by done. rewrite descent_first.
    + rewrite (filter_found (fun d => (skvcmp key kcmp k d <=? 0)%Z) (fun x => kcmp k (key x.2) <= 0)%Z); [done|]. intros x. symmetry. apply Z.leb_le.
    + eapply sorted_impl; [|exact Hs]. cbn. intros x y [H1 H2]. rewrite !Z.leb_le. split; [done|]. intros H3. rewrite Z.leb_gt. lia.
    + done.
  - rewrite (upper_run s t) by done. rewrite descent_last.
    + rewrite (filter_found (fun d => (0 <=? skvcmp key kcmp k d)%Z) (fun x => 0 <= kcmp k (key x.2))%Z); [done|]. intros x. symmetry. apply Z.leb_le.
    + eapply sorted_impl; [|exact Hs]. cbn. intros x y [H1 H2]. rewrite !negb_true_iff, !Z.leb_gt. done.
    + intros d. by rewrite negb_involutive.
Qed.

Lemma foldl_snoc {A} (l k : list A) : foldl (fun x a => x ++ [a]) k l = k ++ l.
Proof. revert k. induction l as [|a l IH]; intros k; cbn; [by rewrite app_nil_r|]. rewrite IH. by rewrite <- app_assoc. Qed.

Lemma items_data (s : tstate loc D) (t : tree loc D) x : rep s [] t -> x ∈ items t -> data s !! x.1 = Some x.2.
Proof.
  intros HR Hx. destruct (rep_nil _ _ HR) as (HT & _). destruct (items_cells None t x Hx) as (n & Hn & Hd).
  unfold data. rewrite lookup_fmap, (HT _ _ Hn). cbn. by rewrite Hd.
Qed.

(** C19: over any correct itree.C, after any sequence of insertions of elements that are not in and removals of elements that are in, the walk visits the
    elements that are in, each once, with keys that do not decrease; [operator[]] finds the first of them with the key,
    [lower_bound] the first whose key is not smaller and [upper_bound] the last whose key is not greater. *)
Theorem itree_refines ops h : let F := dat <$> h in
  may_all spec_top (may_top (dom F)) ops [] ->
  exists s L, run_all (run_top (keyfunc_2 kcmp key)) ops (mkTstate None h) = Ok (s, (spec_all spec_top ops []).2) /\
    L.*1 ≡ₚ (spec_all spec_top ops []).1 /\ (forall x, x ∈ L -> F !! x.1 = Some x.2) /\
    StronglySorted (fun x y => kcmp (key x) (key y) <= 0)%Z L.*2 /\
    traverse (keyfunc_2 kcmp key) (fun n l => l ++ [n]) [] s = Ok (L.*1, s) /\
    forall k, it_search key kcmp k s = Ok (first_equal k L, s) /\
      lower_bound key kcmp k s = Ok (first_from k L, s) /\ upper_bound key kcmp k s = Ok (last_upto k L, s).
Proof.
  intros F Hm. destruct (run_all_refines (run_top (keyfunc_2 kcmp key)) spec_top (may_top (dom F)) (holds (keyfunc_2 kcmp key) F)
    (fun o s L => run_top_ok _ F o s L) ops (mkTstate None h) []) as (s & E & [(t & HR & Ho & HL) Hd]); [|done|].
  { split; [|done]. exists Leaf. split_and!; [apply rep_none|constructor|done]. }
  exists s, (items t). split_and!; [done|by rewrite items_locs| | | |intros k; by apply lookups_run].
  - intros x Hx. rewrite <- Hd. by apply items_data with t.
  - by rewrite items_inorder.
  - rewrite (traverse_run _ s t) by done. do 2 f_equal. by rewrite foldl_snoc.
Qed.
End keys.

(** * An instance

    The unbalanced tree of BsTree, on integers, keeps the promises of itree.C. *)
Section instance.
Context {loc : Type} `{Countable loc}.
Abbreviation st := (tstate loc Z).

(** [compare<int>] *)
Definition compare_int : Z -> Z -> Z := compare_of Z.ltb.

Fixpoint walk (fuel : nat) (n : option loc) : M st (list loc) :=
  match fuel with
  | O => stop OutOfFuel
  | S fuel =>
      match n with
      | None => mret []
      | Some a => l ← left n; L ← walk fuel l; r ← right n; R ← walk fuel r; mret (L ++ a :: R)
      end
  end.
Fixpoint after (a : loc) (L : list loc) : option loc :=
  match L with [] => None | x :: L' => if decide (a = x) then head L' else after a L' end.

#[export] Instance bstree_code : ItreeCode loc (keyfunc_2 compare_int id) := {
  itree_insert a := update (Some a) (fun n => mkNode None None None (dat n));; bstree_insert (Some a);; mret tt;
  itree_delete a := bstree_delete (Some a);
  itree_successor a := fuel ← gets tfuel; r ← gets root; L ← walk fuel r; mret (after a L);
  itree_predecessor a := fuel ← gets tfuel; r ← gets root; L ← walk fuel r; mret (after a (reverse L))
}.

(** ** Programs that leave the data of the nodes alone *)
Definition keeps {A} (m : M st A) : Prop := forall s a s', m s = Ok (a, s') -> data s' = data s.

Lemma keeps_ret {A} (a : A) : keeps (mret a).
Proof. by intros s b s' [= <- <-]. Qed.

Lemma keeps_bind {A B} (m : M st A) (k : A -> M st B) : keeps m -> (forall a, keeps (k a)) -> keeps (m ≫= k).
Proof.
  intros Hm Hk s b s' E. unfold mbind, M_bind in E. destruct (m s) as [[a s1]|f] eqn:Em; [|done].
  rewrite (Hk _ _ _ _ E). by eapply Hm.
Qed.

Lemma keeps_gets {A} (f : st -> A) : keeps (gets f).
Proof. by intros s b s' [= <- <-]. Qed.

Lemma keeps_load x : keeps (load x).
Proof. intros s b s' E. unfold load in E. destruct x as [a|]; [|done]. destruct (hp s !! a); [|done]. by injection E as <- <-. Qed.

Lemma keeps_set_root x : keeps (set_root x).
Proof. by intros s b s' [= <- <-]. Qed.

Lemma keeps_update x f : (forall n, dat (f n) = dat n) -> keeps (update x f).
Proof.
  intros Hf s b s' E. unfold update in E. destruct x as [a|]; [|done]. destruct (hp s !! a) as [n|] eqn:Ea; [|done].
  injection E as <- <-. unfold data. cbn [hp]. rewrite fmap_insert, Hf. apply insert_id. by rewrite lookup_fmap, Ea.
Qed.

Lemma keeps_loopM {X R} fuel (body : X -> M st (X + R)) x : (forall x, keeps (body x)) -> keeps (loopM fuel body x).
Proof.
  intros Hb s r s' E. unfold loopM in E.
  apply (loop_partial (fun xs => data xs.2 = data s) (fun rs => data rs.2 = data s)) in E; [done| |done].
  intros [x1 s1] Hs. cbn in *. destruct (body x1 s1) as [[[x2|r2] s2]|f] eqn:Eb; [..|done]; cbn; by rewrite (Hb _ _ _ _ Eb).
Qed.

Create HintDb keeps.
Hint Resolve keeps_ret keeps_bind keeps_gets keeps_load keeps_set_root keeps_update keeps_loopM : keeps.
Ltac keeps_now :=
  repeat match goal with
  | |- keeps (_ ≫= _) => apply keeps_bind
  | |- keeps (match ?x with _ => _ end) => destruct x
  | |- keeps (loopM _ _ _) => apply keeps_loopM
  | |- forall _, _ => intros ?
  | |- keeps _ => solve [auto with keeps]
  end.

Lemma keeps_insert nd : keeps (bstree_insert nd).
Proof. unfold bstree_insert. keeps_now. Qed.

Lemma keeps_transplant u v : keeps (bstree_transplant u v).
Proof. unfold bstree_transplant. keeps_now. Qed.

Lemma keeps_delete nd : keeps (bstree_delete nd).
Proof. unfold bstree_delete, bstree_min. pose proof keeps_transplant. keeps_now. Qed.

Lemma compare_int_le x y : (compare_int x y <= 0 <-> x <= y)%Z.
Proof. unfold compare_int, compare_of. destruct (Z.ltb_spec x y), (Z.ltb_spec y x); lia. Qed.

#[export] Instance compare_int_laws : CompareLaws compare_int.
Proof.
  split.
  - intros x y. unfold compare_int, compare_of. destruct (Z.ltb_spec x y), (Z.ltb_spec y x); lia.
  - intros x y z. rewrite !compare_int_le. lia.
Qed.

Lemma ordered_bst (t : tree loc Z) : ordered (keyfunc_2 compare_int id) t <-> bst t.
Proof. unfold ordered, bst, keyfunc_2. split; apply sorted_impl; intros x y; by rewrite compare_int_le. Qed.

Lemma tree_at (t : tree loc Z) a : a ∈ locs t -> exists c l k r, t = plug c (Nd l a k r).
Proof.
  induction t as [|l IHl b k r IHr]; intros Ha; [by apply not_elem_of_nil in Ha|]. cbn in Ha.
  apply elem_of_cons in Ha as [->|[Ha|Ha]%elem_of_app]; [by exists [], l, k, r|..].
  - destruct (IHl Ha) as (c & l' & k' & r' & ->). exists (c ++ [FL b k r]), l', k', r'. by rewrite plug_app.
  - destruct (IHr Ha) as (c & l' & k' & r' & ->). exists (c ++ [FR l b k]), l', k', r'. by rewrite plug_app.
Qed.

Lemma walk_run fuel (s : st) c t : rep s c t -> height t < fuel -> walk fuel (rootp t) s = Ok ((items t).*1, s).
Proof.
  revert fuel c. induction t as [|l IHl a d r IHr]; intros fuel c HR Hf; (destruct fuel as [|fuel]; cbn [height] in Hf; [lia|]); [done|].
  cbn [walk rootp]. pose proof (rep_cell _ _ _ _ _ _ HR) as Ha. rewrite (bind_left _ _ _ _ Ha). cbn [PTree.left].
  rewrite (M_bind_ok _ _ _ _ _ (IHl fuel _ (rep_to_left _ _ _ _ _ _ HR) ltac:(lia))), (bind_right _ _ _ _ Ha). cbn [PTree.right].
  rewrite (M_bind_ok _ _ _ _ _ (IHr fuel _ (rep_to_right _ _ _ _ _ _ HR) ltac:(lia))). cbn [items]. by rewrite fmap_app.
Qed.

Lemma walk_root (s : st) t (f : list loc -> option loc) : rep s [] t ->
  (fuel ← gets tfuel; r ← gets root; L ← walk fuel r; mret (f L)) s = Ok (f (items t).*1, s).
Proof.
  intros HR. mnorm. rewrite (rep_root _ _ _ HR). by rewrite (M_bind_ok _ _ _ _ _ (walk_run _ _ _ _ HR (rep_tfuel _ _ _ HR))).
Qed.

Lemma after_ok a (xs ys : list loc) : a ∉ xs -> after a (xs ++ a :: ys) = head ys.
Proof.
  induction xs as [|x xs IH]; intros Ha; cbn; [by rewrite decide_True|].
  apply not_elem_of_cons in Ha as [Hne Ha]. rewrite decide_False by done. by apply IH.
Qed.

Lemma items_nodup (s : st) t : rep s [] t -> NoDup (items t).*1.
Proof. intros HR. rewrite items_locs. by destruct (rep_nil _ _ HR) as (_ & HN & _). Qed.

Lemma rep_unlinked (s : st) t a (n : node loc Z) : rep s [] t -> a ∉ locs t -> rep (mkTstate (root s) (alter (fun n => mkNode None None None (dat n)) a (hp s))) [] t.
Proof. intros [HT HC HN HR] Ha. split; cbn [hp root]; [by apply agrees_alter_tree|apply agrees_nil|done|done]. Qed.

#[export] Instance bstree_laws : ItreeLaws (loc := loc) (keyfunc_2 compare_int id).
Proof.
  split.
  - intros s t a HR Ho%ordered_bst Ha [n Hn]. cbn [itree_insert bstree_code].
    destruct (bstree_insert_run _ t a None (dat n) (rep_unlinked s t a n HR Ha)) as (s' & E & HR' & _); [by cbn [hp]; rewrite lookup_alter_eq, Hn|done|].
    assert (E' : (update (Some a) (fun n => mkNode None None None (dat n));; bstree_insert (Some a);; mret tt) s = Ok (tt, s')).
    { rewrite (bind_update _ _ _ _ _ Hn). by rewrite (M_bind_ok _ _ _ _ _ E). }
    exists s', (tins a (dat n) t). split_and!; [done|done|apply ordered_bst; by apply bst_tins|apply locs_tins|].
    refine (keeps_bind _ _ _ _ s tt s' E'); [by apply keeps_update|]. intros _. apply keeps_bind; [apply keeps_insert|]. intros _. apply keeps_ret.
  - intros s t a HR Ho%ordered_bst Ha. cbn [itree_delete bstree_code]. destruct (tree_at t a Ha) as (c & l & k & r & ->).
    apply (proj2 (rep_plug _ _ _)) in HR. destruct (bstree_delete_run s c l a k r HR) as (s' & t' & E & HR' & Hin & Hl & _).
    exists s', (plug c t'). split_and!; [done|by apply (proj1 (rep_plug _ _ _))| | |by eapply keeps_delete].
    + apply ordered_bst. unfold bst in *. rewrite inorder_plug in Ho |- *. rewrite Hin. eapply StronglySorted_sublist; [|exact Ho].
      apply sublist_app; [done|]. apply sublist_app; [|done]. cbn. apply sublist_app; [done|]. by apply sublist_cons.
    + rewrite !locs_plug, Hl. cbn. solve_Permutation.
  - intros s t xs x ys HR E. pose proof (items_nodup s t HR) as HN. cbn [itree_successor bstree_code]. rewrite (walk_root s t) by done.
    rewrite E, fmap_app, fmap_cons in HN |- *. rewrite after_ok by nodup_solve. by destruct ys.
  - intros s t xs x ys HR E. pose proof (items_nodup s t HR) as HN. cbn [itree_predecessor bstree_code]. rewrite (walk_root s t) by done.
    rewrite E, fmap_app, fmap_cons in HN |- *. rewrite reverse_app, reverse_cons, <- app_assoc. cbn [app].
    rewrite after_ok by (rewrite elem_of_reverse; nodup_solve). by rewrite head_reverse, fmap_last.
Qed.
End instance.

(** * A run *)
Definition wit_heap : gmap nat (node nat Z) :=
  list_to_map (zip (seq 0 6) ((fun k => mkNode None None None k) <$> [5; 3; 5; 9; 1; 5]%Z)).
Definition wit_ops : list top := [TIns 0; TIns 1; TIns 2; TIns 3; TIns 4; TDel 0; TIns 5; TDel 3; TIns 0].

Lemma itree_refines_witness :
  exists s L, run_all (run_top (keyfunc_2 compare_int id)) wit_ops (mkTstate None wit_heap) = Ok (s, replicate 9 tt) /\
    L.*1 ≡ₚ [0; 5; 4; 2; 1] /\ StronglySorted (fun x y => compare_int x y <= 0)%Z L.*2.
Proof.
  assert (Es : spec_all spec_top wit_ops [] = ([0; 5; 4; 2; 1], replicate 9 tt)) by (vm_compute; reflexivity).
  assert (Hm : may_all spec_top (may_top (dom (dat <$> wit_heap))) wit_ops []).
  { unfold wit_ops. cbn [may_all spec_top may_top fst]. split_and!; decide_now. }
  destruct (itree_refines id compare_int wit_ops wit_heap Hm) as (s & L & E & HL & _ & Hs & _). rewrite Es in E, HL. exists s, L.
  split_and!; [exact E|exact HL|exact Hs].
Defined.

Lemma itree_deleteall_correct_witness :
  exists s', deleteall BsTree.wit_state = Ok (tt, s') /\ deleteall_correct BsTree.wit_state = Ok (tt, s') /\ root s' = None.
Proof.
  destruct (itree_deleteall_correct BsTree.wit_state BsTree.wit_tree) as (s' & E1 & E2 & Hr & _);
    [apply repb_sound; vm_compute; reflexivity|by exists s'].
Defined.

(** [upper_bound] stops at the last element with a key up to the one looked for, [lower_bound] at the first from it on:
    for a key that is there neither passes its elements. *)
Example bounds_of_3 : ('(s, _) ← run_all (run_top (keyfunc_2 compare_int id)) [TIns 0; TIns 1; TIns 3] (mkTstate None wit_heap);
  '(lo, _) ← lower_bound id compare_int 3%Z s; '(hi, _) ← upper_bound id compare_int 3%Z s;
  '(lo4, _) ← lower_bound id compare_int 4%Z s; '(hi4, _) ← upper_bound id compare_int 4%Z s; Ok (lo, hi, lo4, hi4))
  = Ok (Some 1, Some 1, Some 0, Some 1).
Proof. vm_compute. reflexivity. Qed.
