(* ===== verification/Serial.v ===== *)
(** The numbers in memory and the hexadecimal text of src/deps/sfslite-1.2/serial.h: integers of 2, 4 and 8 bytes, the most significant byte first.  A [u_char] is a [Z] from 0 to 255, and so
    is a [char] of a [str] (the comparisons of [hexconv] are false of a [char] past 127 whether it counts as negative or not). *)
From S2P Require Import Prelude.
#[local] Open Scope Z_scope.

(** * The code *)
Definition u_char (z : Z) : Z := z mod 256.
(** The [int] that a shifted byte becomes, whose sign bit may be set. *)
Definition as_int (z : Z) : Z := (z + 2 ^ 31) mod 2 ^ 32 - 2 ^ 31.

Definition putshort (dp : list Z) (val : Z) : res (list Z) :=
  dp ← aset dp 0 (u_char (Z.shiftr val 8)); aset dp 1 (u_char val).
Definition getshort (dp : list Z) : res Z :=
  b0 ← aget dp 0; b1 ← aget dp 1; Ok (Z.lor (Z.shiftl b0 8) b1 mod 2 ^ 16).

Definition putint (dp : list Z) (val : Z) : res (list Z) :=
  dp ← aset dp 0 (u_char (Z.shiftr val 24)); dp ← aset dp 1 (u_char (Z.shiftr val 16));
  dp ← aset dp 2 (u_char (Z.shiftr val 8)); aset dp 3 (u_char val).
Definition getint (dp : list Z) : res Z :=
  b0 ← aget dp 0; b1 ← aget dp 1; b2 ← aget dp 2; b3 ← aget dp 3;
  Ok (Z.lor (Z.lor (Z.lor (as_int (Z.shiftl b0 24)) (Z.shiftl b1 16)) (Z.shiftl b2 8)) b3 mod 2 ^ 32).

Definition puthyper (dp : list Z) (val : Z) : res (list Z) :=
  dp ← aset dp 0 (u_char (Z.shiftr val 56)); dp ← aset dp 1 (u_char (Z.shiftr val 48));
  dp ← aset dp 2 (u_char (Z.shiftr val 40)); dp ← aset dp 3 (u_char (Z.shiftr val 32));
  dp ← aset dp 4 (u_char (Z.shiftr val 24)); dp ← aset dp 5 (u_char (Z.shiftr val 16));
  dp ← aset dp 6 (u_char (Z.shiftr val 8)); aset dp 7 (u_char val).
Definition gethyper (dp : list Z) : res Z :=
  b0 ← aget dp 0; b1 ← aget dp 1; b2 ← aget dp 2; b3 ← aget dp 3; lo ← getint (drop 4 dp);
  Ok (Z.lor (Z.lor (Z.lor (Z.lor (u64 (Z.shiftl b0 56)) (u64 (Z.shiftl b1 48))) (u64 (Z.shiftl b2 40))) (u64 (Z.shiftl b3 32))) lo).

(** [out] is only set where the result is [true]. *)
Definition hexconv (c : Z) : option Z :=
  if (48 <=? c) && (c <=? 57) then Some (c - 48)
  else if (97 <=? c) && (c <=? 102) then Some (c - (97 - 10))
  else if (65 <=? c) && (c <=? 70) then Some (c - (65 - 10))
  else None.
(** The characters from [p] on; after the last one comes the 0 of the [str], which is no digit. *)
Fixpoint hex_loop (p : list Z) (i : Z) (b : list Z) : res (option (list Z)) :=
  match p with
  | [] => Ok (Some b)
  | [_] => Ok None
  | c0 :: c1 :: p =>
      match hexconv c0, hexconv c1 with
      | Some h, Some l => b ← aset b i (u_char (Z.lor (Z.shiftl h 4) l)); i ← ck (i + 1); hex_loop p i b
      | _, _ => Ok None
      end
  end.
(** [b] is the new [mstr] of half the length. *)
Definition hex2bytes (b asc : list Z) : res (option (list Z)) :=
  if Z.odd (Z.of_nat (length asc)) then Ok None else hex_loop asc 0 b.

(** * Specification *)
Fixpoint be (n : nat) (v : Z) : list Z := match n with O => [] | S n => v / 256 ^ Z.of_nat n mod 256 :: be n v end.
Definition unbe (l : list Z) : Z := foldl (fun v b => 256 * v + b) 0 l.
Definition is_byte (b : Z) : Prop := 0 <= b < 256.

Definition digit (d : Z) : Z := if d <? 10 then 48 + d else 87 + d.
Definition to_hex (bs : list Z) : list Z := bs ≫= (fun b => [digit (b / 16); digit (b mod 16)]).
(** Capital letters count as small ones. *)
Definition small (c : Z) : Z := if (65 <=? c) && (c <=? 90) then c + 32 else c.

(** * Bytes *)
Lemma length_be n v : length (be n v) = n.
Proof. induction n as [|n IH]; [done|]. cbn. by rewrite IH. Qed.

Lemma be_bytes n v : Forall is_byte (be n v).
Proof. induction n as [|n IH]; cbn; constructor; [|done]. unfold is_byte. pose proof (Z.mod_pos_bound (v / 256 ^ Z.of_nat n) 256). lia. Qed.

Lemma unbe_app l k : unbe (l ++ k) = unbe l * 256 ^ Z.of_nat (length k) + unbe k.
Proof.
  unfold unbe. rewrite foldl_app. generalize (foldl (fun v b => 256 * v + b) 0 l). induction k as [|b k IH] using rev_ind; intros v; [cbn; lia|].
  rewrite !foldl_app, length_app. cbn [foldl length]. rewrite IH. rewrite Nat2Z.inj_add, Z.pow_add_r by lia. lia.
Qed.

Lemma be_S n v : be (S n) v = be n (v / 256) ++ [v mod 256].
Proof.
  revert v. induction n as [|n IH]; intros v; [cbn; by rewrite Z.div_1_r|]. cbn [be] in IH |- *. rewrite IH.
  cbn [app]. f_equal. rewrite Z.div_div by lia. rewrite Nat2Z.inj_succ, Z.pow_succ_r by lia. done.
Qed.

Lemma be_app n m v : be (n + m) v = be n (v / 256 ^ Z.of_nat m) ++ be m v.
Proof.
  induction n as [|n IH]; [done|]. cbn [Nat.add be app]. rewrite IH. f_equal. by rewrite Z.div_div, <- Z.pow_add_r, Nat.add_comm, Nat2Z.inj_add by (try apply Z.pow_pos_nonneg; lia).
Qed.

Lemma be_mod n v : be n (v mod 256 ^ Z.of_nat n) = be n v.
Proof.
  revert v. induction n as [|n IH]; intros v; [done|]. rewrite !be_S. pose proof (Z.pow_pos_nonneg 256 (Z.of_nat n) ltac:(lia) ltac:(lia)).
  rewrite Nat2Z.inj_succ, Z.pow_succ_r by lia. rewrite Z.rem_mul_r by lia. rewrite (Z.add_comm (v mod 256)), (Z.mul_comm 256).
  rewrite Z.div_add_l, (Z.div_small (v mod 256)), Z.add_0_r by (try apply Z.mod_pos_bound; lia). rewrite IH. do 2 f_equal.
  rewrite Z.add_comm, Z.mod_add by lia. by rewrite Z.mod_mod by lia.
Qed.

Lemma unbe_be n v : unbe (be n v) = v mod 256 ^ Z.of_nat n.
Proof.
  revert v. induction n as [|n IH]; intros v; [by rewrite Z.mod_1_r|]. rewrite be_S, unbe_app, IH. change (unbe [v mod 256]) with (v mod 256). cbn [length].
  change (256 ^ Z.of_nat 1) with 256. rewrite Nat2Z.inj_succ, Z.pow_succ_r by lia. rewrite (Z.rem_mul_r v 256 (256 ^ Z.of_nat n)) by (try apply Z.pow_pos_nonneg; lia). lia.
Qed.

Lemma unbe_range l : Forall is_byte l -> 0 <= unbe l < 256 ^ Z.of_nat (length l).
Proof.
  induction l as [|b l IH] using rev_ind; [cbn; lia|]. intros [Hl Hb]%Forall_app. rewrite Forall_singleton in Hb. specialize (IH Hl). unfold is_byte in Hb.
  rewrite unbe_app, length_app. change (unbe [b]) with b. cbn [length]. rewrite Nat2Z.inj_add, Z.pow_add_r by lia. change (256 ^ Z.of_nat 1) with 256.
  nia.
Qed.

Lemma be_unbe l : Forall is_byte l -> be (length l) (unbe l) = l.
Proof.
  induction l as [|b l IH] using rev_ind; [done|]. intros [Hl Hb]%Forall_app. rewrite Forall_singleton in Hb. unfold is_byte in Hb. rewrite length_app, Nat.add_1_r. rewrite be_S, unbe_app.
  change (unbe [b]) with b. cbn [length]. change (256 ^ Z.of_nat 1) with 256. rewrite Z.div_add_l, Z.div_small, Z.add_0_r, IH by (done || lia). do 2 f_equal.
  rewrite Z.add_comm, Z.mod_add, Z.mod_small by lia. done.
Qed.

(** Numbers with the low bits of the one and the high bits of the other. *)
Lemma lor_add a b k : 0 <= k -> 0 <= b < 2 ^ k -> Z.lor (Z.shiftl a k) b = a * 2 ^ k + b.
Proof.
  intros Hk Hb. rewrite <- Z.shiftl_mul_pow2 by done. pose proof (Z.add_lor_land (Z.shiftl a k) b).
  assert (E : Z.land (Z.shiftl a k) b = 0); [|lia]. apply Z.bits_inj'. intros j Hj. rewrite Z.land_spec, Z.shiftl_spec, Z.bits_0 by done.
  destruct (Z.ltb_spec j k); [by rewrite Z.testbit_neg_r by lia|]. destruct (decide (b = 0)) as [->|]; [by rewrite Z.bits_0, andb_false_r|].
  rewrite (Z.bits_above_log2 b j); [by rewrite andb_false_r|lia|]. pose proof (proj1 (Z.log2_lt_pow2 b k ltac:(lia)) ltac:(lia)). lia.
Qed.

(** * Integers *)
Lemma as_int_low z : as_int z mod 2 ^ 32 = z mod 2 ^ 32.
Proof. unfold as_int. rewrite Zminus_mod_idemp_l. f_equal. lia. Qed.

Lemma lor_mod a b k : 0 <= k -> Z.lor a b mod 2 ^ k = Z.lor (a mod 2 ^ k) (b mod 2 ^ k).
Proof. intros Hk. rewrite <- !Z.land_ones by done. apply Z.land_lor_distr_l. Qed.

(** Reading the bytes one by one gives the number they stand for. *)
Lemma lor4 b0 b1 b2 b3 : is_byte b0 -> is_byte b1 -> is_byte b2 -> is_byte b3 ->
  Z.lor (Z.lor (Z.lor (Z.shiftl b0 24) (Z.shiftl b1 16)) (Z.shiftl b2 8)) b3 = unbe [b0; b1; b2; b3].
Proof. unfold is_byte. intros H0 H1 H2 H3. rewrite <- !Z.lor_assoc, (lor_add b2 b3 8), (lor_add b1 _ 16), (lor_add b0 _ 24) by lia. cbn. lia. Qed.

Lemma length_4 {A} (l : list A) : (4 <= length l)%nat -> exists a b c d r, l = a :: b :: c :: d :: r.
Proof. destruct l as [|a [|b [|c [|d r]]]]; cbn; try lia. intros _. by exists a, b, c, d, r. Qed.

Lemma be_4 v : be 4 v = [u_char (Z.shiftr v 24); u_char (Z.shiftr v 16); u_char (Z.shiftr v 8); u_char v].
Proof. unfold u_char. rewrite !Z.shiftr_div_pow2 by lia. cbn [be Z.of_nat]. change (256 ^ 0) with 1. by rewrite Z.div_1_r. Qed.

(** The bytes of an array one by one. *)
Ltac byte_at := repeat match goal with
  | |- context [aset ?l ?i ?y] => let n := eval cbv in (Z.to_nat i) in
      rewrite (aset_Z l i y) by (cbn [length]; lia); change (Z.to_nat i) with n; cbn [insert list_insert mbind res_bind]
  | |- context [aget ?l ?i] => erewrite (aget_Z l i) by first [lia | reflexivity]; cbn [mbind res_bind]
  end.

Lemma putint_ok dp v : (4 <= length dp)%nat -> putint dp v = Ok (be 4 v ++ drop 4 dp).
Proof.
  intros (a & b & c & d & r & ->)%length_4. rewrite be_4. unfold putint. cbn [drop app].
  byte_at. done.
Qed.

Lemma getint_ok b0 b1 b2 b3 r : is_byte b0 -> is_byte b1 -> is_byte b2 -> is_byte b3 -> getint (b0 :: b1 :: b2 :: b3 :: r) = Ok (unbe [b0; b1; b2; b3]).
Proof.
  intros H0 H1 H2 H3. unfold getint. byte_at. f_equal. assert (Hr : 0 <= unbe [b0; b1; b2; b3] < 2 ^ 32) by (unfold is_byte in *; cbn; lia).
  rewrite !(lor_mod _ _ 32), as_int_low by lia. rewrite <- !(lor_mod _ _ 32) by lia. by rewrite lor4, Z.mod_small.
Qed.

Lemma putshort_ok a b r v : putshort (a :: b :: r) v = Ok (be 2 v ++ r).
Proof.
  unfold putshort. byte_at. unfold u_char. rewrite Z.shiftr_div_pow2 by lia. cbn [be Z.of_nat app]. change (256 ^ 0) with 1. by rewrite Z.div_1_r.
Qed.

Lemma getshort_ok b0 b1 r : is_byte b0 -> is_byte b1 -> getshort (b0 :: b1 :: r) = Ok (unbe [b0; b1]).
Proof.
  unfold is_byte. intros H0 H1. unfold getshort. byte_at. f_equal. rewrite (lor_add b0 b1 8) by lia. rewrite Z.mod_small by lia. cbn. lia.
Qed.

Lemma length_8 {A} (l : list A) : (8 <= length l)%nat -> exists a b c d e f g h r, l = a :: b :: c :: d :: e :: f :: g :: h :: r.
Proof. destruct l as [|a [|b [|c [|d [|e [|f [|g [|h r]]]]]]]]; cbn; try lia. intros _. by exists a, b, c, d, e, f, g, h, r. Qed.

Lemma puthyper_ok dp v : (8 <= length dp)%nat -> puthyper dp v = Ok (be 8 v ++ drop 8 dp).
Proof.
  intros (a & b & c & d & e & f & g & h & r & ->)%length_8. unfold puthyper. byte_at. unfold u_char. rewrite !Z.shiftr_div_pow2 by lia. cbn [be Z.of_nat app drop].
  change (256 ^ 0) with 1. by rewrite Z.div_1_r.
Qed.

Lemma gethyper_ok l r : length l = 8%nat -> Forall is_byte l -> gethyper (l ++ r) = Ok (unbe l).
Proof.
  destruct l as [|a [|b [|c [|d [|e [|f [|g [|h [|]]]]]]]]]; try discriminate. intros _. rewrite !Forall_cons. intros (Ha & Hb & Hc & Hd & He & Hf & Hg & Hh & _).
  unfold gethyper. cbn [app]. byte_at. cbn [drop]. rewrite getint_ok by done. cbn [mbind res_bind]. f_equal.
  assert (Hlo : 0 <= unbe [e; f; g; h] < 2 ^ 32) by (unfold is_byte in *; cbn; lia). change [a; b; c; d; e; f; g; h] with ([a; b; c; d] ++ [e; f; g; h]). rewrite unbe_app.
  change (256 ^ Z.of_nat (length [e; f; g; h])) with (2 ^ 32). generalize dependent (unbe [e; f; g; h]). intros lo Hlo. unfold u64, is_byte in *. rewrite !Z.shiftl_mul_pow2, !Z.mod_small by lia.
  rewrite <- !Z.shiftl_mul_pow2 by lia. rewrite <- !Z.lor_assoc, (lor_add d lo 32), (lor_add c _ 40), (lor_add b _ 48), (lor_add a _ 56) by lia. unfold unbe. cbn [foldl]. rewrite Z.shiftl_mul_pow2 by lia.
  lia.
Qed.

Lemma getint_app l r : length l = 4%nat -> Forall is_byte l -> getint (l ++ r) = Ok (unbe l).
Proof.
  destruct l as [|a [|b [|c [|d [|]]]]]; try discriminate. intros _. rewrite !Forall_cons. intros (Ha & Hb & Hc & Hd & _). by apply getint_ok.
Qed.

Lemma getint_be v r : getint (be 4 v ++ r) = Ok (v mod 2 ^ 32).
Proof. rewrite getint_app by (apply length_be || apply be_bytes). by rewrite unbe_be. Qed.

Lemma getshort_be v r : getshort (be 2 v ++ r) = Ok (v mod 2 ^ 16).
Proof.
  pose proof (be_bytes 2 v) as Hb. cbn [be] in Hb. rewrite !Forall_cons in Hb. destruct Hb as (H0 & H1 & _). cbn [be app]. rewrite getshort_ok by done.
  f_equal. apply (unbe_be 2).
Qed.

(** What [putshort], [putint] and [puthyper] write, the bytes of a number with the most significant one first and nothing else, [getshort], [getint] and [gethyper] read back, and writing the number
    that was read leaves the bytes as they were. *)
Theorem serial_roundtrip dp v : (8 <= length dp)%nat -> Forall is_byte dp ->
  (exists dp', putshort dp v = Ok dp' /\ dp' = be 2 v ++ drop 2 dp /\ getshort dp' = Ok (v mod 2 ^ 16)) /\
  (exists dp', putint dp v = Ok dp' /\ dp' = be 4 v ++ drop 4 dp /\ getint dp' = Ok (v mod 2 ^ 32)) /\
  (exists dp', puthyper dp v = Ok dp' /\ dp' = be 8 v ++ drop 8 dp /\ gethyper dp' = Ok (v mod 2 ^ 64)) /\
  (x ← getshort dp; putshort dp x) = Ok dp /\ (x ← getint dp; putint dp x) = Ok dp /\ (x ← gethyper dp; puthyper dp x) = Ok dp.
Proof.
  intros Hl Hb. split_and!.
  - destruct dp as [|d0 [|d1 dp]]; [cbn in Hl; lia..|]. eexists. rewrite putshort_ok. split; [done|]. split; [done|]. by rewrite getshort_be.
  - eexists. rewrite putint_ok by lia. split; [done|]. split; [done|]. by rewrite getint_be.
  - eexists. rewrite puthyper_ok by lia. split; [done|]. split; [done|]. rewrite gethyper_ok by (apply length_be || apply be_bytes). by rewrite unbe_be.
  - destruct dp as [|d0 [|d1 dp]]; [cbn in Hl; lia..|]. rewrite !Forall_cons in Hb. destruct Hb as (H0 & H1 & _).
    rewrite getshort_ok by done. cbn [mbind res_bind]. rewrite putshort_ok. f_equal. pose proof (be_unbe [d0; d1]) as E. cbn [length] in E. rewrite E; [done|]. apply Forall_cons. split; [done|]. apply Forall_cons. split; [done|]. by apply Forall_nil.
  - pose proof (take_drop 4 dp) as E. set (l := take 4 dp) in *. assert (Hl4 : length l = 4%nat) by (apply length_take_le; lia).
    assert (Hbl : Forall is_byte l) by by apply Forall_take. rewrite <- E at 1. rewrite (getint_app l) by done. cbn [mbind res_bind]. rewrite putint_ok by lia.
    rewrite <- Hl4 at 1. by rewrite be_unbe, E.
  - pose proof (take_drop 8 dp) as E. set (l := take 8 dp) in *. assert (Hl8 : length l = 8%nat) by (apply length_take_le; lia).
    assert (Hbl : Forall is_byte l) by by apply Forall_take. rewrite <- E at 1. rewrite (gethyper_ok l) by done. cbn [mbind res_bind]. rewrite puthyper_ok by lia.
    rewrite <- Hl8 at 1. by rewrite be_unbe, E.
Qed.

(** * Hexadecimal text *)
Lemma digit_small d : 0 <= d < 16 -> small (digit d) = digit d /\ hexconv (digit d) = Some d.
Proof.
  intros Hd. assert (Hc : forallb (fun d => (small (digit d) =? digit d) && match hexconv (digit d) with Some e => e =? d | None => false end) (seqZ 0 16) = true) by done.
  rewrite forallb_forall in Hc. specialize (Hc d ltac:(apply list_elem_of_In, elem_of_seqZ; lia)). apply andb_true_iff in Hc as [H1 H2]. split; [lia|].
  destruct (hexconv (digit d)) as [e|]; [|done]. apply Z.eqb_eq in H2. by subst.
Qed.

Lemma hexconv_small c : hexconv (small c) = hexconv c.
Proof.
  unfold small. destruct ((65 <=? c) && (c <=? 90)) eqn:Hc; [|done]. apply andb_true_iff in Hc as [H1%Z.leb_le H2%Z.leb_le].
  assert (Ha : forallb (fun c => bool_decide (hexconv (c + 32) = hexconv c)) (seqZ 65 26) = true) by by vm_compute.
  rewrite forallb_forall in Ha. specialize (Ha c ltac:(apply list_elem_of_In, elem_of_seqZ; lia)). by apply bool_decide_eq_true in Ha.
Qed.

(** A character is converted as the small one of the same letter. *)
Lemma hexconv_iff c d : hexconv c = Some d <-> 0 <= d < 16 /\ small c = digit d.
Proof.
  split.
  - unfold hexconv, small, digit. intros E.
    repeat match type of E with context [if ?b then _ else _] => destruct b eqn:? end; simplify_eq;
      rewrite ?andb_true_iff, ?andb_false_iff, ?Z.leb_le, ?Z.leb_gt in *; (split; [lia|]); repeat (case_match; try lia).
  - intros [Hd E]. destruct (digit_small d Hd) as [_ Ed]. by rewrite <- Ed, <- E, hexconv_small.
Qed.

Fixpoint unhex (p : list Z) : option (list Z) :=
  match p with
  | [] => Some []
  | c0 :: c1 :: p => h ← hexconv c0; l ← hexconv c1; bs ← unhex p; Some (16 * h + l :: bs)
  | [_] => None
  end.

Lemma unhex_iff n : forall p bs, (length p <= n)%nat -> unhex p = Some bs <-> Forall is_byte bs /\ to_hex bs = small <$> p.
Proof.
  induction n as [|n IH]; intros p bs Hn.
  - destruct p; [|cbn in Hn; lia]. cbn. split; [intros [= <-]; split; [by apply Forall_nil|done]|]. by destruct bs as [|b bs]; [|intros [_ [=]]].
  - destruct p as [|c0 [|c1 p]].
    + cbn. split; [intros [= <-]; split; [by apply Forall_nil|done]|]. by destruct bs as [|b bs]; [|intros [_ [=]]].
    + cbn. split; [done|]. by destruct bs as [|b bs]; intros [_ [=]].
    + cbn in Hn. cbn [unhex fmap list_fmap]. split.
      * destruct (hexconv c0) as [h|] eqn:E0; [|done]. destruct (hexconv c1) as [l|] eqn:E1; [|done]. cbn. destruct (unhex p) as [bs'|] eqn:E; [|done]. cbn. intros [= <-].
        apply hexconv_iff in E0 as [Hh ->], E1 as [Hl ->]. apply IH in E as [Hbs Et]; [|lia]. split; [apply Forall_cons; split; [unfold is_byte; lia|done]|].
        change (to_hex (16 * h + l :: bs')) with (digit ((16 * h + l) / 16) :: digit ((16 * h + l) mod 16) :: to_hex bs'). rewrite Et.
        replace ((16 * h + l) / 16) with h by (Z.div_mod_to_equations; lia). by replace ((16 * h + l) mod 16) with l by (Z.div_mod_to_equations; lia).
      * intros [Hb Et]. destruct bs as [|b bs]; [done|]. change (to_hex (b :: bs)) with (digit (b / 16) :: digit (b mod 16) :: to_hex bs) in Et. injection Et as E0 E1 Et.
        apply Forall_cons in Hb as [Hb Hbs]. unfold is_byte in Hb. rewrite (proj2 (hexconv_iff c0 (b / 16))) by (split; [Z.div_mod_to_equations; lia|done]). rewrite (proj2 (hexconv_iff c1 (b mod 16))) by (split; [Z.div_mod_to_equations; lia|done]). cbn.
        rewrite (proj2 (IH p bs ltac:(lia))) by done. cbn. do 2 f_equal. Z.div_mod_to_equations. lia.
Qed.

Lemma hex_loop_ok n : forall p pre junk, (length p <= n)%nat -> Z.odd (Z.of_nat (length p)) = false -> (2 * length junk = length p)%nat -> Z.of_nat (length pre + length junk) <= INT_MAX ->
  hex_loop p (Z.of_nat (length pre)) (pre ++ junk) = Ok ((fun bs => pre ++ bs) <$> unhex p).
Proof.
  induction n as [|n IH]; intros p pre junk Hn Ho Hj Hmax; (destruct p as [|c0 [|c1 p]]; [destruct junk; [done|cbn in Hj; lia]|done|]); [cbn in Hn; lia|].
  cbn [hex_loop unhex]. destruct (hexconv c0) as [h|] eqn:E0; [|done]. destruct (hexconv c1) as [l|] eqn:E1; [|done]. cbn [mbind option_bind].
  destruct junk as [|x junk]; [cbn in Hj; lia|]. cbn [length] in *. rewrite aset_nat by (rewrite length_app; cbn; lia). cbn [mbind res_bind].
  rewrite ck_ok by (unfold is_int, INT_MIN; lia). cbn [mbind res_bind]. rewrite insert_app_r_alt, Nat.sub_diag by lia. cbn [insert list_insert].
  apply hexconv_iff in E0 as [Hh _], E1 as [Hl _]. rewrite (lor_add h l 4) by lia. change (2 ^ 4) with 16. unfold u_char. rewrite Z.mod_small by lia.
  replace (h * 16 + l) with (16 * h + l) by lia. rewrite cons_middle, app_assoc. replace (Z.of_nat (length pre) + 1) with (Z.of_nat (length (pre ++ [16 * h + l]))) by (rewrite length_app; cbn; lia).
  rewrite IH; [|lia| |lia|rewrite length_app; cbn; lia].
  - f_equal. destruct (unhex p) as [bs|]; [|done]. cbn. by rewrite <- app_assoc.
  - rewrite !Nat2Z.inj_succ, !Z.odd_succ, Z.even_succ in Ho. done.
Qed.

(** [hex2bytes] gives the bytes that a text of an even number of hexadecimal digits, small or capital, stands for, and [NULL] for every other text. *)
Theorem hex2bytes_correct b asc : length b = (length asc / 2)%nat -> Z.of_nat (length b) <= INT_MAX ->
  exists o, hex2bytes b asc = Ok o /\ forall bs, o = Some bs <-> Forall is_byte bs /\ to_hex bs = small <$> asc.
Proof.
  intros Hl Hmax. unfold hex2bytes. destruct (Z.odd (Z.of_nat (length asc))) eqn:Ho.
  - exists None. split; [done|]. intros bs. split; [done|]. intros [_ E]. apply (f_equal length) in E. rewrite length_fmap in E. exfalso. rewrite <- E in Ho.
    assert (Hlen : length (to_hex bs) = (2 * length bs)%nat) by (clear; induction bs as [|b bs IH]; [done|]; cbn [length]; change (to_hex (b :: bs)) with ([digit (b / 16); digit (b mod 16)] ++ to_hex bs); rewrite length_app, IH; cbn; lia).
    rewrite Hlen, Nat2Z.inj_mul in Ho. by rewrite Z.odd_mul in Ho.
  - assert (Hev : (2 * length b = length asc)%nat).
    { assert (Hm : (length asc mod 2 = 0)%nat) by (apply Nat2Z.inj; rewrite Nat2Z.inj_mod; change (Z.of_nat 2) with 2; by rewrite Zmod_odd, Ho). pose proof (Nat.div_mod_eq (length asc) 2). lia. }
    pose proof (hex_loop_ok (length asc) asc [] b ltac:(lia) Ho Hev Hmax) as E. cbn [length app] in E. change (Z.of_nat 0) with 0 in E. rewrite E. eexists. split; [done|].
    intros bs. rewrite <- (unhex_iff (length asc) asc bs) by lia. destruct (unhex asc); cbn; naive_solver.
Qed.

Lemma hex2bytes_correct_witness : exists o, hex2bytes [0; 0] [48; 102; 65; 57] = Ok o /\ o = Some [15; 169].
Proof.
  destruct (hex2bytes_correct [0; 0] [48; 102; 65; 57]) as (o & E & Ho); [done|done|]. exists o. split; [exact E|]. apply Ho. split; [|done].
  repeat (apply Forall_cons; split; [unfold is_byte; lia|]). by apply Forall_nil.
Defined.

Lemma serial_roundtrip_witness : (x ← getint [1; 2; 3; 4; 5; 6; 7; 8]; putint [1; 2; 3; 4; 5; 6; 7; 8] x) = Ok [1; 2; 3; 4; 5; 6; 7; 8].
Proof.
  apply (serial_roundtrip [1; 2; 3; 4; 5; 6; 7; 8] 0); [cbn; lia|]. repeat (apply Forall_cons; split; [unfold is_byte; lia|]). by apply Forall_nil.
Defined.
