(* ===== verification/Xdr.v ===== *)
(** The marshalling of src/deps/sfslite-1.2/rpctypes.h and xdrmisc.h: [rpc_traverse] goes through a value of any type and encodes, decodes, frees or clears it.  The overloads that C++ chooses by the
    type of what is traversed are the instances of the class [RpcType], those it chooses by what traverses are the instances of [Traverser].  The operations of an XDR stream, of the C library and of
    suio.C, are the class [XdrOps] with the laws [XdrStream]. *)
From S2P Require Import Prelude Serial.
#[local] Open Scope Z_scope.

(** * The code *)
Inductive xdr_op : Type := XDR_ENCODE | XDR_DECODE | XDR_FREE.

(** The operations of a stream.  What is read comes with [true] in C; [XDR_INLINE] gives a pointer to the bytes or [NULL]; [resid] is all that was written to a suio. *)
Class XdrOps (X : Type) : Type := {
  x_op : X -> xdr_op;
  XDR_PUTLONG : X -> Z -> bool * X;
  XDR_GETLONG : X -> option Z * X;
  XDR_PUTBYTES : X -> list Z -> bool * X;
  XDR_GETBYTES : X -> nat -> option (list Z) * X;
  XDR_INLINE : X -> Z -> option (list Z) * X;
  xdrsuio_create : X;
  xdrmem_create : list Z -> X;
  uio_bytes : X -> list Z
}.

Section xdr.
Context {X : Type} `{XdrOps X}.

Definition xdr_putint (x : X) (val : Z) : bool * X := XDR_PUTLONG x val.
Definition xdr_getint (x : X) : option Z * X :=
  match XDR_GETLONG x with (Some l, x) => (Some (l mod 2 ^ 32), x) | (None, x) => (None, x) end.

Definition xdr_puthyper (x : X) (val : Z) : bool * X :=
  match XDR_PUTLONG x (Z.shiftr val 32) with (true, x) => XDR_PUTLONG x (Z.land val 4294967295) | (false, x) => (false, x) end.
Definition xdr_gethyper (x : X) : option Z * X :=
  match XDR_GETLONG x with
  | (Some h, x) => match XDR_GETLONG x with (Some l, x) => (Some (Z.lor (u64 (Z.shiftl (u64 h) 32)) (u64 l)), x) | (None, x) => (None, x) end
  | (None, x) => (None, x)
  end.

(** [-n & 3] of a [size_t]. *)
Definition pad_len (n : Z) : Z := Z.land (u64 (- n)) 3.
(** The length is a [u_int]. *)
Definition put_bytes (x : X) (p : list Z) (n : Z) : bool * X := XDR_PUTBYTES x (take (Z.to_nat (n mod 2 ^ 32)) p).
Definition xdr_putpadbytes (x : X) (p : list Z) (n : Z) : bool * X :=
  if n =? 0 then (true, x)
  else match put_bytes x p n with
       | (false, x) => (false, x)
       | (true, x) => if pad_len n =? 0 then (true, x) else put_bytes x [0; 0; 0; 0] (pad_len n)
       end.
(** The bytes that [p] holds then. *)
Definition xdr_getpadbytes (x : X) (p : list Z) (n : Z) : bool * list Z * X :=
  match XDR_GETBYTES x (Z.to_nat (n mod 2 ^ 32)) with
  | (None, x) => (false, p, x)
  | (Some bs, x) => if pad_len n =? 0 then (true, bs, x) else match XDR_GETBYTES x (Z.to_nat (pad_len n)) with (o, x) => (bool_decide (is_Some o), bs, x) end
  end.
End xdr.

(** [rpc_vec]: the elements, and whether they are in memory of somebody else's. *)
Record rpc_vec (T : Type) (max : Z) : Type := RpcVec { nofree : bool; elems : list T }.
Arguments RpcVec {T max} nofree elems.
Arguments nofree {T max} _.
Arguments elems {T max} _.
Definition size {T max} (v : rpc_vec T max) : Z := Z.of_nat (length (elems v)).

Section vec.
Context {T : Type} {max : Z}.
Implicit Type v : rpc_vec T max.
Definition ensure (m : Z) v : res unit := c_assert (negb (nofree v));; c_assert (size v + m <=? max).
Definition reserve (m : Z) v : res unit := ensure m v.
Definition setsize (d : T) (n : Z) v : res (rpc_vec T max) :=
  c_assert (negb (nofree v));; c_assert (n <=? max);;
  Ok (RpcVec false (take (Z.to_nat n) (elems v) ++ replicate (Z.to_nat n - length (elems v)) d)).
Definition push_back (e : T) v : res (rpc_vec T max) := ensure 1 v;; Ok (RpcVec (nofree v) (elems v ++ [e])).
End vec.

(** The types, as far as they have overloads of their own. *)
Definition u_int32_t : Type := Z.
Definition int32_t : Type := Z.
Definition u_int64_t : Type := Z.
Definition int64_t : Type := Z.
Definition rpc_opaque (n : nat) : Type := list Z.
Definition rpc_bytes (max : Z) : Type := rpc_vec Z max.
Definition rpc_str (max : Z) : Type := option (list Z).
Definition str : Type := option (list Z).
Definition rpc_ptr (T : Type) : Type := option T.
Definition array (T : Type) (n : nat) : Type := list T.

(** What goes through a value: it gives whether it went well, what the value is then and its own state. *)
Notation traversal X T := (X -> T -> res (bool * T * X)).
Class U32Traverser (X : Type) : Type := trav_u32 : traversal X u_int32_t.
Class Traverser (X : Type) : Type := {
  #[global] trav_leaf :: U32Traverser X;
  trav_opaque n : traversal X (rpc_opaque n);
  trav_bytes max : traversal X (rpc_bytes max);
  trav_str max : traversal X (rpc_str max);
  trav_ptr {R} : R -> traversal X R -> traversal X (rpc_ptr R);
  trav_vec {R} max : R -> Z -> traversal X R -> traversal X (rpc_vec R max)
}.
(** [sizeof_t] is [sizeof (T)], [dflt] the value that its constructor makes. *)
Class RpcType (T : Type) : Type := { dflt : T; sizeof_t : Z; rpc_traverse {X} `{Traverser X} : traversal X T }.

(** ** The default traversals *)
Section default.
Context {X : Type} `{U32Traverser X}.

Definition trav_bool : traversal X bool := fun x obj =>
  '(ret, val, x) ← trav_u32 x (Z.b2z obj); Ok (ret : bool, if ret then negb (val =? 0) else obj, x).
Definition trav_u64 : traversal X u_int64_t := fun x obj =>
  '(ret, hi, x) ← trav_u32 x (Z.shiftr obj 32 mod 2 ^ 32);
  if (ret : bool) then
    '(ret, lo, x) ← trav_u32 x (obj mod 2 ^ 32);
    Ok (ret : bool, if ret then Z.lor (u64 (Z.shiftl hi 32)) lo else obj, x)
  else Ok (false, obj, x).
(** The casts to the unsigned type of the same width. *)
Definition as_signed (w z : Z) : Z := (z + 2 ^ (w - 1)) mod 2 ^ w - 2 ^ (w - 1).
Definition trav_i32 : traversal X int32_t := fun x obj => '(ret, v, x) ← trav_u32 x (obj mod 2 ^ 32); Ok (ret, as_signed 32 v, x).
Definition trav_i64 : traversal X int64_t := fun x obj => '(ret, v, x) ← trav_u64 x (obj mod 2 ^ 64); Ok (ret, as_signed 64 v, x).

Definition trav_ptr_default {R} (d : R) (f : traversal X R) : traversal X (rpc_ptr R) := fun x obj =>
  '(ret, nonnil, x) ← trav_bool x (bool_decide (is_Some obj));
  if (ret : bool) then
    if (nonnil : bool) then '(ret, v, x) ← f x (default d obj); Ok (ret, Some v, x) else Ok (true, None, x)
  else Ok (false, obj, x).

(** The elements one after the other, as long as it goes well. *)
Fixpoint trav_all {R} (f : traversal X R) (x : X) (l : list R) : res (bool * list R * X) :=
  match l with
  | [] => Ok (true, [], x)
  | o :: l =>
      '(ret, o, x) ← f x o;
      if (ret : bool) then '(ret, l, x) ← trav_all f x l; Ok (ret, o :: l, x) else Ok (false, o :: l, x)
  end.
Fixpoint trav_push {R} {max : Z} (d : R) (f : traversal X R) (todo : nat) (x : X) (v : rpc_vec R max) : res (bool * rpc_vec R max * X) :=
  match todo with
  | O => Ok (true, v, x)
  | S todo =>
      v ← push_back d v;
      '(ret, o, x) ← f x d;
      let v := RpcVec (nofree v) (removelast (elems v) ++ [o]) in
      if (ret : bool) then trav_push d f todo x v else Ok (false, v, x)
  end.
Definition trav_vec_default {R} (max : Z) (d : R) (sz : Z) (f : traversal X R) : traversal X (rpc_vec R max) := fun x obj =>
  '(ret, n, x) ← trav_u32 x (size obj mod 2 ^ 32);
  if negb ret || (max <? n) then Ok (false, obj, x)
  else
    obj ← (if n <? size obj then setsize d n obj
           else if size obj <? n then
             (if size obj <? Z.min (65536 / sz) n then reserve (Z.min (65536 / sz) n - size obj) obj else Ok tt);; Ok obj
           else Ok obj);
    '(ret, l, x) ← trav_all f x (elems obj);
    let obj := RpcVec (nofree obj) l in
    if (ret : bool) then trav_push d f (Z.to_nat (n - size obj)) x obj else Ok (false, obj, x).
End default.

#[export] Instance rpc_u32 : RpcType u_int32_t := { dflt := 0; sizeof_t := 4; rpc_traverse _ _ := trav_u32 }.
#[export] Instance rpc_i32 : RpcType int32_t := { dflt := 0; sizeof_t := 4; rpc_traverse _ _ := trav_i32 }.
#[export] Instance rpc_u64 : RpcType u_int64_t := { dflt := 0; sizeof_t := 8; rpc_traverse _ _ := trav_u64 }.
#[export] Instance rpc_i64 : RpcType int64_t := { dflt := 0; sizeof_t := 8; rpc_traverse _ _ := trav_i64 }.
#[export] Instance rpc_bool : RpcType bool := { dflt := false; sizeof_t := 1; rpc_traverse _ _ := trav_bool }.
#[export] Instance rpc_opaque_type n : RpcType (rpc_opaque n) := { dflt := replicate n 0; sizeof_t := Z.of_nat n; rpc_traverse _ _ := trav_opaque n }.
#[export] Instance rpc_bytes_type max : RpcType (rpc_bytes max) := { dflt := RpcVec false []; sizeof_t := 40; rpc_traverse _ _ := trav_bytes max }.
#[export] Instance rpc_str_type max : RpcType (rpc_str max) := { dflt := Some []; sizeof_t := 8; rpc_traverse _ _ := trav_str max }.
#[export] Instance rpc_ptr_type {T} `{RpcType T} : RpcType (rpc_ptr T) := { dflt := None; sizeof_t := 8; rpc_traverse _ _ := trav_ptr dflt rpc_traverse }.
#[export] Instance rpc_vec_type {T} max `{RpcType T} : RpcType (rpc_vec T max) :=
  { dflt := RpcVec false []; sizeof_t := 40; rpc_traverse _ _ := trav_vec max dflt sizeof_t rpc_traverse }.
#[export] Instance rpc_array_type {T} n `{RpcType T} : RpcType (array T n) :=
  { dflt := replicate n dflt; sizeof_t := Z.of_nat n * sizeof_t; rpc_traverse _ _ := trav_all rpc_traverse }.

(** ** XDR streams *)
Section xdr_overloads.
Context {X : Type} `{XdrOps X}.

Definition xdr_u32 : traversal X u_int32_t := fun x obj =>
  match x_op x with
  | XDR_ENCODE => match xdr_putint x obj with (b, x) => Ok (b, obj, x) end
  | XDR_DECODE => match xdr_getint x with (Some v, x) => Ok (true, v, x) | (None, x) => Ok (false, obj, x) end
  | XDR_FREE => Ok (true, obj, x)
  end.
Definition xdr_opaque n : traversal X (rpc_opaque n) := fun x obj =>
  match x_op x with
  | XDR_ENCODE => match xdr_putpadbytes x obj (Z.of_nat n) with (b, x) => Ok (b, obj, x) end
  | XDR_DECODE => match xdr_getpadbytes x obj (Z.of_nat n) with (b, obj, x) => Ok (b, obj, x) end
  | XDR_FREE => Ok (true, obj, x)
  end.
(** The length and the bytes. *)
Definition put_counted (x : X) (l : list Z) : bool * X :=
  match xdr_putint x (Z.of_nat (length l) mod 2 ^ 32) with
  | (true, x) => xdr_putpadbytes x l (Z.of_nat (length l))
  | (false, x) => (false, x)
  end.
(** [(size + 3) & ~3] of a [u_int32_t]. *)
Definition rounded (n : Z) : Z := Z.land ((n + 3) mod 2 ^ 32) (Z.lnot 3).
Definition get_inline (max : Z) (x : X) : option (Z * list Z) * X :=
  match xdr_getint x with
  | (None, x) => (None, x)
  | (Some n, x) =>
      if max <? n then (None, x) else match XDR_INLINE x (rounded n) with (Some dp, x) => (Some (n, dp), x) | (None, x) => (None, x) end
  end.
Definition memchr0 (l : list Z) : bool := bool_decide (0 ∈ l).

Definition xdr_bytes max : traversal X (rpc_bytes max) := fun x obj =>
  match x_op x with
  | XDR_ENCODE => match put_counted x (elems obj) with (b, x) => Ok (b, obj, x) end
  | XDR_DECODE =>
      match get_inline max x with
      | (None, x) => Ok (false, obj, x)
      | (Some (n, dp), x) => obj ← setsize 0 n obj; Ok (true, RpcVec (nofree obj) (take (Z.to_nat n) dp ++ drop (Z.to_nat n) (elems obj)), x)
      end
  | XDR_FREE => Ok (true, obj, x)
  end.
(** [check] of an [rpc_str]. *)
Definition str_check (max : Z) (l : list Z) : res unit := c_assert (negb (memchr0 l));; c_assert (Z.of_nat (length l) <=? max).
Definition xdr_str max : traversal X (rpc_str max) := fun x obj =>
  match x_op x with
  | XDR_ENCODE => match obj with None => Ok (false, obj, x) | Some l => match put_counted x l with (b, x) => Ok (b, obj, x) end end
  | XDR_DECODE =>
      match get_inline max x with
      | (None, x) => Ok (false, obj, x)
      | (Some (n, dp), x) =>
          let buf := take (Z.to_nat n) dp in
          if memchr0 buf then Ok (false, obj, x) else str_check max buf;; Ok (true, Some buf, x)
      end
  | XDR_FREE => Ok (true, obj, x)
  end.
Definition xdr_string : traversal X str := fun x obj =>
  match x_op x with
  | XDR_ENCODE => match obj with None => Ok (false, obj, x) | Some l => match put_counted x l with (b, x) => Ok (b, obj, x) end end
  | XDR_DECODE =>
      match xdr_getint x with
      | (None, x) => Ok (false, obj, x)
      | (Some n, x) =>
          match xdr_getpadbytes x [] n with
          | (false, _, x) => Ok (false, obj, x)
          | (true, m, x) => if memchr0 m then Ok (false, obj, x) else Ok (true, Some m, x)
          end
      end
  | XDR_FREE => Ok (true, obj, x)
  end.

End xdr_overloads.

#[export] Instance xdr_leaf {X} `{XdrOps X} : U32Traverser X := xdr_u32.
#[export] Instance xdr_traverser {X} `{XdrOps X} : Traverser X := {
  trav_opaque := xdr_opaque; trav_bytes := xdr_bytes; trav_str := xdr_str;
  trav_ptr _ := trav_ptr_default; trav_vec _ := trav_vec_default }.

(** What the program calls. *)
Section calls.
Context {X : Type} `{XdrOps X}.
Definition xdr2str {T} `{RpcType T} (t : T) : res (option (list Z)) :=
  '(b, _, x) ← rpc_traverse (xdrsuio_create : X) t; Ok (if (b : bool) then Some (uio_bytes x) else None).
(** [xdrmem_create] gets the length, a [size_t], as a [u_int]. *)
Definition mem_of (s : list Z) : list Z := take (Z.to_nat (Z.of_nat (length s) mod 2 ^ 32)) s.
Definition str2xdr {T} `{RpcType T} (t : T) (s : list Z) : res (bool * T) :=
  '(b, t, _) ← rpc_traverse (xdrmem_create (mem_of s) : X) t; Ok (b, t).
Definition xdr2bytes {T max} `{RpcType T} (out : rpc_bytes max) (t : T) : res (bool * rpc_bytes max) :=
  '(b, _, x) ← rpc_traverse (xdrsuio_create : X) t;
  if negb b || (max <? Z.of_nat (length (uio_bytes x))) then Ok (false, out)
  else out ← setsize 0 (Z.of_nat (length (uio_bytes x))) out; Ok (true, RpcVec (nofree out) (uio_bytes x)).
Definition bytes2xdr {T max} `{RpcType T} (t : T) (b : rpc_bytes max) : res (bool * T) := str2xdr t (elems b).
End calls.

(** ** Clearing *)
Inductive rpc_clear_t : Type := RpcClear.
#[export] Instance clear_leaf : U32Traverser rpc_clear_t := fun c _ => Ok (true, 0, c).
#[export] Instance clear_traverser : Traverser rpc_clear_t := {
  trav_opaque n c _ := Ok (true, replicate n 0, c);
  trav_bytes max c obj := obj ← setsize 0 0 obj; Ok (true, obj, c);
  trav_str max c _ := Ok (true, Some [], c);
  trav_ptr R d f c _ := Ok (true, None, c);
  trav_vec R max d _ f c obj := obj ← setsize d 0 obj; Ok (true, obj, c) }.
Definition rpc_clear {T} `{RpcType T} (obj : T) : res T := '(_, obj, _) ← rpc_traverse RpcClear obj; Ok obj.

#[global] Typeclasses Opaque u_int32_t int32_t u_int64_t int64_t rpc_opaque rpc_bytes rpc_str str rpc_ptr array.

(** * The streams

    [written] is what a stream for encoding has got so far, [unread] what is left to decode; [sure] streams, those to a suio, take whatever is put.  Nothing is said of decoding but from streams that are
    [in_memory], those that [xdrmem_create] makes of less than [2 ^ 32] bytes: these lie in one piece, so that [XDR_INLINE] gives [NULL] only when there are too few of them. *)
Class XdrStream (X : Type) `{XdrOps X} : Type := {
  written : X -> list Z;
  unread : X -> list Z;
  sure : X -> bool;
  in_memory : X -> bool;
  putlong_law x v : x_op x = XDR_ENCODE -> let '(b, x') := XDR_PUTLONG x v in
    x_op x' = XDR_ENCODE /\ sure x' = sure x /\ (sure x = true -> b = true) /\ (b = true -> written x' = written x ++ be 4 v);
  putbytes_law x p : x_op x = XDR_ENCODE -> let '(b, x') := XDR_PUTBYTES x p in
    x_op x' = XDR_ENCODE /\ sure x' = sure x /\ (sure x = true -> b = true) /\ (b = true -> written x' = written x ++ p);
  getlong_law x : x_op x = XDR_DECODE -> in_memory x = true -> let '(o, x') := XDR_GETLONG x in x_op x' = XDR_DECODE /\ in_memory x' = true /\
    match o with Some v => exists bs, length bs = 4%nat /\ unread x = bs ++ unread x' /\ v mod 2 ^ 32 = unbe bs | None => (length (unread x) < 4)%nat end;
  getbytes_law x n : x_op x = XDR_DECODE -> in_memory x = true -> let '(o, x') := XDR_GETBYTES x n in x_op x' = XDR_DECODE /\ in_memory x' = true /\
    match o with Some bs => length bs = n /\ unread x = bs ++ unread x' | None => (length (unread x) < n)%nat end;
  inline_law x n : x_op x = XDR_DECODE -> in_memory x = true -> 0 <= n -> n mod 4 = 0 -> let '(o, x') := XDR_INLINE x n in x_op x' = XDR_DECODE /\ in_memory x' = true /\
    match o with Some bs => Z.of_nat (length bs) = n /\ unread x = bs ++ unread x' | None => Z.of_nat (length (unread x)) < n end;
  unread_bytes x : Forall is_byte (unread x);
  suio_law : x_op xdrsuio_create = XDR_ENCODE /\ sure xdrsuio_create = true /\ written xdrsuio_create = [] /\ forall x, uio_bytes x = written x;
  mem_law s : Forall is_byte s -> Z.of_nat (length s) < 2 ^ 32 ->
    x_op (xdrmem_create s) = XDR_DECODE /\ in_memory (xdrmem_create s) = true /\ unread (xdrmem_create s) = s
}.

(** * Specification

    A type is marshalled as RFC 4506 says: [enc] are the bytes of a value; [wf] are the values the type can have, [owned] those whose memory is their own. *)
Section codec.
Context {X : Type} `{XdrStream X}.

Definition decoding (x : X) : Prop := x_op x = XDR_DECODE /\ in_memory x = true.

Record codec {T : Type} (d : T) (f : traversal X T) (enc : T -> list Z) (wf owned : T -> Prop) : Prop := {
  cd_dflt : wf d /\ owned d;
  cd_words v : wf v -> Forall is_byte (enc v) /\ (length (enc v) mod 4 = 0)%nat;
  cd_enc v x : x_op x = XDR_ENCODE -> wf v ->
    exists b x', f x v = Ok (b, v, x') /\ x_op x' = XDR_ENCODE /\ sure x' = sure x /\ (sure x = true -> b = true) /\ (b = true -> written x' = written x ++ enc v);
  cd_dec v o x r : decoding x -> wf v -> owned v -> wf o -> owned o -> unread x = enc v ++ r ->
    exists x', f x o = Ok (true, v, x') /\ decoding x' /\ unread x' = r;
  cd_safe o x : decoding x -> wf o -> owned o ->
    exists b o' x', f x o = Ok (b, o', x') /\ decoding x' /\ wf o' /\ owned o' /\ (b = true -> exists bs, unread x = bs ++ unread x');
  cd_free o x : x_op x = XDR_FREE -> wf o -> f x o = Ok (true, o, x)
}.

Lemma getlong_law' x : decoding x -> let '(o, x') := XDR_GETLONG x in decoding x' /\
  match o with Some v => exists bs, length bs = 4%nat /\ unread x = bs ++ unread x' /\ v mod 2 ^ 32 = unbe bs | None => (length (unread x) < 4)%nat end.
Proof. intros [Hx Hm]. pose proof (getlong_law x Hx Hm) as L. destruct (XDR_GETLONG x). by destruct L as (? & ? & ?). Qed.

Lemma getbytes_law' x n : decoding x -> let '(o, x') := XDR_GETBYTES x n in decoding x' /\
  match o with Some bs => length bs = n /\ unread x = bs ++ unread x' | None => (length (unread x) < n)%nat end.
Proof. intros [Hx Hm]. pose proof (getbytes_law x n Hx Hm) as L. destruct (XDR_GETBYTES x n). by destruct L as (? & ? & ?). Qed.

Lemma inline_law' x n : decoding x -> 0 <= n -> n mod 4 = 0 -> let '(o, x') := XDR_INLINE x n in decoding x' /\
  match o with Some bs => Z.of_nat (length bs) = n /\ unread x = bs ++ unread x' | None => Z.of_nat (length (unread x)) < n end.
Proof. intros [Hx Hm] Hn H4. pose proof (inline_law x n Hx Hm Hn H4) as L. destruct (XDR_INLINE x n). by destruct L as (? & ? & ?). Qed.

Definition pad (l : list Z) : list Z := l ++ replicate (Z.to_nat (- Z.of_nat (length l) mod 4)) 0.

Lemma words_app (l k : list Z) : (length l mod 4 = 0)%nat -> (length k mod 4 = 0)%nat -> (length (l ++ k) mod 4 = 0)%nat.
Proof. intros H1 H2. by rewrite length_app, Nat.Div0.add_mod, H1, H2. Qed.

(** ** Numbers *)
Lemma putlong_ok x v : x_op x = XDR_ENCODE -> exists b x', XDR_PUTLONG x v = (b, x') /\
  x_op x' = XDR_ENCODE /\ sure x' = sure x /\ (sure x = true -> b = true) /\ (b = true -> written x' = written x ++ be 4 v).
Proof. intros Hx. pose proof (putlong_law x v Hx) as L. destruct (XDR_PUTLONG x v) as [b x']. by exists b, x'. Qed.

Lemma get_ok x v r : decoding x -> unread x = be 4 v ++ r -> exists x', xdr_getint x = (Some (v mod 2 ^ 32), x') /\ decoding x' /\ unread x' = r.
Proof.
  intros Hx Hr. pose proof (getlong_law' x Hx) as L. unfold xdr_getint. destruct (XDR_GETLONG x) as [[w|] x'].
  - destruct L as (Hx' & bs & Hbs & E & Ew). rewrite Hr in E. apply app_inj_1 in E as [<- ->]; [|by rewrite length_be]. exists x'. split; [|done].
    rewrite Ew, unbe_be. done.
  - destruct L as [_ L]. rewrite Hr, length_app, length_be in L. lia.
Qed.

Lemma get_safe x : decoding x -> exists o x', xdr_getint x = (o, x') /\ decoding x' /\
  match o with Some v => 0 <= v < 2 ^ 32 /\ exists bs, length bs = 4%nat /\ unread x = bs ++ unread x' | None => True end.
Proof.
  intros Hx. pose proof (getlong_law' x Hx) as L. unfold xdr_getint. destruct (XDR_GETLONG x) as [[w|] x'].
  - destruct L as (Hx' & bs & Hbs & E & Ew). exists (Some (w mod 2 ^ 32)), x'. split; [done|]. split; [done|]. split; [apply Z.mod_pos_bound; lia|]. by exists bs.
  - destruct L as [Hx' _]. exists None, x'. done.
Qed.

Lemma codec_u32 : codec (T := u_int32_t) 0 xdr_u32 (be 4) (fun v => 0 <= v < 2 ^ 32) (fun _ => True).
Proof.
  split; unfold xdr_u32.
  - split; [lia|done].
  - intros v _. split; [apply be_bytes|by rewrite length_be].
  - intros v x Hx Hv. rewrite Hx. destruct (putlong_ok x v Hx) as (b & x' & E & L). unfold xdr_putint. rewrite E. by exists b, x'.
  - intros v o x r Hx Hv _ _ _ Hr. rewrite (proj1 Hx). destruct (get_ok x v r Hx Hr) as (x' & E & L). rewrite E, Z.mod_small by done. by exists x'.
  - intros o x Hx Ho _. rewrite (proj1 Hx). destruct (get_safe x Hx) as ([v|] & x' & E & Hx' & L); rewrite E.
    + destruct L as [Hv (bs & _ & Hbs)]. exists true, v, x'. split; [done|]. split; [done|]. split; [done|]. split; [done|]. intros _. by exists bs.
    + exists false, o, x'. do 4 (split; [done|]). done.
  - intros o x Hx _. by rewrite Hx.
Qed.

(** A type that is marshalled as another one, which [to] and [from] convert to and from; where it fails the value becomes [fail]. *)
Lemma codec_conv {T U} d d' (g : traversal X U) (f : traversal X T) (to : T -> U) (from : U -> T) (fail : U -> T -> T) enc wf (wf' : T -> Prop) :
  codec d g enc wf (fun _ => True) ->
  (forall x v b u x', g x (to v) = Ok (b, u, x') -> f x v = Ok (b, if b then from u else fail u v, x')) ->
  (forall v, wf' v -> wf (to v) /\ from (to v) = v /\ fail (to v) v = v) -> (forall u v, wf u -> wf' v -> wf' (from u) /\ wf' (fail u v)) -> wf' d' ->
  codec d' f (fun v => enc (to v)) wf' (fun _ => True).
Proof.
  intros [_ Hwords He Hd Hs Hfr] Hf Hto Hfrom Hd'. split.
  - done.
  - intros v Hv. apply Hwords. by apply Hto.
  - intros v x Hx Hv. destruct (Hto v Hv) as (Hw & E1 & E2). destruct (He (to v) x Hx Hw) as (b & x' & E & L). apply Hf in E. rewrite E.
    exists b, x'. split; [|done]. destruct b; [by rewrite E1|by rewrite E2].
  - intros v o x r Hx Hv _ Ho _ Hr. destruct (Hto v Hv) as (Hw & E1 & _), (Hto o Ho) as (Hwo & _). destruct (Hd (to v) (to o) x r Hx Hw I Hwo I Hr) as (x' & E & L).
    apply Hf in E. rewrite E, E1. by exists x'.
  - intros o x Hx Ho _. destruct (Hto o Ho) as (Hwo & _). destruct (Hs (to o) x Hx Hwo I) as (b & u & x' & E & Hx' & Hu & _ & Hb). apply Hf in E. rewrite E.
    eexists b, _, x'. split; [done|]. split; [done|]. destruct (Hfrom u o Hu Ho). split; [by destruct b|]. by split.
  - intros o x Hx Ho. destruct (Hto o Ho) as (Hwo & E1 & _). pose proof (Hfr (to o) x Hx Hwo) as E. apply Hf in E. by rewrite E, E1.
Qed.

Lemma as_signed_id w v : 1 <= w -> - 2 ^ (w - 1) <= v < 2 ^ (w - 1) -> as_signed w (v mod 2 ^ w) = v.
Proof.
  intros Hw Hv. unfold as_signed. rewrite Zplus_mod_idemp_l. replace (2 ^ w) with (2 * 2 ^ (w - 1)) by (rewrite <- Z.pow_succ_r by lia; f_equal; lia).
  rewrite Z.mod_small by lia. lia.
Qed.

Lemma as_signed_range w z : 1 <= w -> - 2 ^ (w - 1) <= as_signed w z < 2 ^ (w - 1).
Proof.
  intros Hw. unfold as_signed. replace (2 ^ w) with (2 * 2 ^ (w - 1)) by (rewrite <- Z.pow_succ_r by lia; f_equal; lia).
  pose proof (Z.pow_pos_nonneg 2 (w - 1) ltac:(lia) ltac:(lia)). pose proof (Z.mod_pos_bound (z + 2 ^ (w - 1)) (2 * 2 ^ (w - 1)) ltac:(lia)). lia.
Qed.

Lemma codec_i32 : codec (T := int32_t) 0 trav_i32 (fun v => be 4 (v mod 2 ^ 32)) (fun v => - 2 ^ 31 <= v < 2 ^ 31) (fun _ => True).
Proof.
  apply (codec_conv 0 0 xdr_u32 _ (fun v => v mod 2 ^ 32) (as_signed 32) (fun u _ => as_signed 32 u) _ _ _ codec_u32).
  - intros x v b u x' E. unfold trav_i32, trav_u32, xdr_leaf. rewrite E. cbn. by destruct b.
  - intros v Hv. split; [apply Z.mod_pos_bound; lia|]. by rewrite as_signed_id.
  - intros u v _ _. pose proof (as_signed_range 32 u ltac:(lia)). done.
  - lia.
Qed.

Lemma codec_bool : codec false trav_bool (fun b => be 4 (Z.b2z b)) (fun _ => True) (fun _ => True).
Proof.
  apply (codec_conv 0 false xdr_u32 _ Z.b2z (fun u => negb (u =? 0)) (fun _ v => v) _ _ _ codec_u32).
  - intros x v b u x' E. unfold trav_bool, trav_u32, xdr_leaf. by rewrite E.
  - intros v _. split; [by destruct v|]. by destruct v.
  - done.
  - done.
Qed.

Lemma halves v : 0 <= v < 2 ^ 64 -> Z.lor (u64 (Z.shiftl (Z.shiftr v 32 mod 2 ^ 32) 32)) (v mod 2 ^ 32) = v /\ Z.shiftr v 32 mod 2 ^ 32 = v / 2 ^ 32.
Proof.
  intros Hv. rewrite Z.shiftr_div_pow2 by lia. assert (Hq : 0 <= v / 2 ^ 32 < 2 ^ 32) by (Z.div_mod_to_equations; lia). rewrite (Z.mod_small _ _ Hq). split; [|done].
  unfold u64. rewrite (Z.mod_small (Z.shiftl _ _)) by (rewrite Z.shiftl_mul_pow2; lia). rewrite lor_add by (try apply Z.mod_pos_bound; lia). Z.div_mod_to_equations. lia.
Qed.

Lemma halves_range hi lo : 0 <= hi < 2 ^ 32 -> 0 <= lo < 2 ^ 32 -> 0 <= Z.lor (u64 (Z.shiftl hi 32)) lo < 2 ^ 64.
Proof. intros Hh Hl. unfold u64. rewrite (Z.mod_small (Z.shiftl _ _)) by (rewrite Z.shiftl_mul_pow2; lia). rewrite lor_add by lia. lia. Qed.

Lemma codec_u64 : codec (T := u_int64_t) 0 trav_u64 (be 8) (fun v => 0 <= v < 2 ^ 64) (fun _ => True).
Proof.
  destruct codec_u32 as [_ _ He Hd Hs Hfr]. split; unfold trav_u64, trav_u32, xdr_leaf.
  - split; [lia|done].
  - intros v _. split; [apply be_bytes|by rewrite length_be].
  - intros v x Hx Hv. destruct (halves v Hv) as [E12 E1]. assert (Hh : 0 <= Z.shiftr v 32 mod 2 ^ 32 < 2 ^ 32) by (apply Z.mod_pos_bound; lia).
    assert (Hl : 0 <= v mod 2 ^ 32 < 2 ^ 32) by (apply Z.mod_pos_bound; lia).
    destruct (He _ x Hx Hh) as (b1 & x1 & -> & Hx1 & Hs1 & Hb1 & Hw1). cbn [mbind res_bind]. destruct b1; [|exists false, x1; do 3 (split; [done|]); by split].
    destruct (He _ x1 Hx1 Hl) as (b2 & x2 & -> & Hx2 & Hs2 & Hb2 & Hw2). cbn [mbind res_bind]. exists b2, x2. rewrite E12. split; [by destruct b2|]. split; [done|]. split; [congruence|].
    split; [intros Hsu; apply Hb2; congruence|]. intros ->. rewrite Hw2, Hw1 by done. rewrite <- app_assoc. f_equal. change 8%nat with (4 + 4)%nat. rewrite be_app, E1.
    f_equal. change (256 ^ Z.of_nat 4) with (2 ^ 32). clear. apply be_mod.
  - intros v o x r Hx Hv _ Ho _ Hr. destruct (halves v Hv) as [E12 E1]. change 8%nat with (4 + 4)%nat in Hr. rewrite be_app, <- app_assoc in Hr.
    change (256 ^ Z.of_nat 4) with (2 ^ 32) in Hr. rewrite <- E1, <- (be_mod 4 v) in Hr.
    assert (Hh : forall v, 0 <= v mod 2 ^ 32 < 2 ^ 32) by (intros; apply Z.mod_pos_bound; lia).
    destruct (Hd (Z.shiftr v 32 mod 2 ^ 32) (Z.shiftr o 32 mod 2 ^ 32) x _ Hx (Hh _) I (Hh _) I Hr) as (x1 & -> & Hx1 & Hr1). cbn [mbind res_bind].
    destruct (Hd (v mod 2 ^ 32) (o mod 2 ^ 32) x1 _ Hx1 (Hh _) I (Hh _) I Hr1) as (x2 & -> & Hx2 & Hr2). cbn [mbind res_bind]. exists x2. by rewrite E12.
  - intros o x Hx Ho _. assert (Hh : forall v, 0 <= v mod 2 ^ 32 < 2 ^ 32) by (intros; apply Z.mod_pos_bound; lia).
    destruct (Hs (Z.shiftr o 32 mod 2 ^ 32) x Hx (Hh _) I) as (b1 & hi & x1 & -> & Hx1 & Hhi & _ & Hb1). cbn [mbind res_bind].
    destruct b1; [|exists false, o, x1; do 4 (split; [done|]); done]. destruct (Hs (o mod 2 ^ 32) x1 Hx1 (Hh _) I) as (b2 & lo & x2 & -> & Hx2 & Hlo & _ & Hb2). cbn [mbind res_bind].
    eexists b2, _, x2. split; [done|]. split; [done|]. split; [destruct b2; [by apply halves_range|done]|]. split; [done|]. intros E2.
    destruct (Hb1 eq_refl) as [bs1 Hbs1], (Hb2 E2) as [bs2 Hbs2]. exists (bs1 ++ bs2). by rewrite Hbs1, Hbs2, <- app_assoc.
  - intros o x Hx Ho. assert (Hh : forall v, 0 <= v mod 2 ^ 32 < 2 ^ 32) by (intros; apply Z.mod_pos_bound; lia). rewrite (Hfr _ x Hx (Hh _)). cbn [mbind res_bind].
    rewrite (Hfr _ x Hx (Hh _)). cbn [mbind res_bind]. destruct (halves o Ho) as [E _]. by rewrite E.
Qed.

Lemma codec_i64 : codec (T := int64_t) 0 trav_i64 (fun v => be 8 (v mod 2 ^ 64)) (fun v => - 2 ^ 63 <= v < 2 ^ 63) (fun _ => True).
Proof.
  apply (codec_conv 0 0 trav_u64 _ (fun v => v mod 2 ^ 64) (as_signed 64) (fun u _ => as_signed 64 u) _ _ _ codec_u64).
  - intros x v b u x' E. unfold trav_i64. rewrite E. cbn. by destruct b.
  - intros v Hv. split; [apply Z.mod_pos_bound; lia|]. by rewrite as_signed_id.
  - intros u v _ _. pose proof (as_signed_range 64 u ltac:(lia)). done.
  - lia.
Qed.

(** ** Pointers and sequences *)
Section one.
Context {R : Type} (d : R) (f : traversal X R) (enc : R -> list Z) (wf owned : R -> Prop) (C : codec d f enc wf owned).

Lemma codec_ptr : codec None (trav_ptr_default d f) (fun o => match o with Some v => be 4 1 ++ enc v | None => be 4 0 end)
  (fun o => match o with Some v => wf v | None => True end) (fun o => match o with Some v => owned v | None => True end).
Proof.
  destruct codec_bool as [_ _ Be Bd Bs Bf]. pose proof C as [[Hwd Hod] Hwo He Hd Hs Hf]. split; unfold trav_ptr_default.
  - done.
  - intros [v|] Hv; [|split; [apply be_bytes|done]]. destruct (Hwo v Hv) as [Hb Hl]. split; [apply Forall_app; split; [apply be_bytes|done]|]. by apply words_app.
  - intros v x Hx Hv. destruct (Be (bool_decide (is_Some v)) x Hx I) as (b1 & x1 & -> & Hx1 & Hs1 & Hb1 & Hw1). cbn [mbind res_bind].
    destruct b1; [|exists false, x1; do 3 (split; [done|]); by split]. specialize (Hw1 eq_refl). destruct v as [v|].
    + destruct (He v x1 Hx1 Hv) as (b2 & x2 & E2 & Hx2 & Hs2 & Hb2 & Hw2). change (bool_decide (is_Some (Some v))) with true. cbv iota. change (default d (Some v)) with v. rewrite E2. cbn [mbind res_bind]. exists b2, x2. split; [done|]. split; [done|].
      split; [congruence|]. split; [intros Hsu; apply Hb2; congruence|]. intros ->. rewrite Hw2, Hw1 by done. by rewrite <- app_assoc.
    + exists true, x1. split; [done|]. split; [done|]. split; [done|]. split; [done|]. done.
  - intros v o x r Hx Hv Hov Ho Hoo Hr. destruct v as [v|].
    + rewrite <- app_assoc in Hr. destruct (Bd true (bool_decide (is_Some o)) x _ Hx I I I I Hr) as (x1 & -> & Hx1 & Hr1). cbn [mbind res_bind].
      assert (Hdo : wf (default d o) /\ owned (default d o)) by by destruct o. destruct Hdo.
      destruct (Hd v (default d o) x1 r Hx1) as (x2 & -> & Hx2 & Hr2); [done..|]. by exists x2.
    + destruct (Bd false (bool_decide (is_Some o)) x _ Hx I I I I Hr) as (x1 & -> & Hx1 & Hr1). by exists x1.
  - intros o x Hx Ho Hoo. destruct (Bs (bool_decide (is_Some o)) x Hx I I) as (b1 & nn & x1 & -> & Hx1 & _ & _ & Hb1). cbn [mbind res_bind].
    destruct b1; [|exists false, o, x1; do 4 (split; [done|]); done]. destruct (Hb1 eq_refl) as [bs1 Hbs1]. destruct nn; [|exists true, None, x1; do 4 (split; [done|]); by exists bs1].
    assert (Hdo : wf (default d o) /\ owned (default d o)) by by destruct o. destruct Hdo as [Hdo1 Hdo2].
    destruct (Hs (default d o) x1 Hx1 Hdo1 Hdo2) as (b2 & v & x2 & -> & Hx2 & Hv & Hov & Hb2). cbn [mbind res_bind]. exists b2, (Some v), x2. do 4 (split; [done|]). intros ->.
    destruct (Hb2 eq_refl) as [bs2 Hbs2]. exists (bs1 ++ bs2). by rewrite Hbs1, Hbs2, <- app_assoc.
  - intros o x Hx Ho. rewrite (Bf (bool_decide (is_Some o)) x Hx I). cbn [mbind res_bind]. destruct o as [v|]; [|done].
    change (bool_decide (is_Some (Some v))) with true. cbv iota. change (default d (Some v)) with v. by rewrite (Hf v x Hx Ho).
Qed.

Lemma all_words l : Forall wf l -> Forall is_byte (l ≫= enc) /\ (length (l ≫= enc) mod 4 = 0)%nat.
Proof.
  induction 1 as [|v l Hv _ [IH1 IH2]]; [split; [by apply Forall_nil|done]|]. destruct (cd_words _ _ _ _ _ C v Hv) as [H1 H2]. cbn [mbind list_bind].
  split; [by apply Forall_app|by apply words_app].
Qed.

Lemma all_enc l : forall x, x_op x = XDR_ENCODE -> Forall wf l ->
  exists b x', trav_all f x l = Ok (b, l, x') /\ x_op x' = XDR_ENCODE /\ sure x' = sure x /\ (sure x = true -> b = true) /\ (b = true -> written x' = written x ++ (l ≫= enc)).
Proof.
  destruct C as [_ _ He _ _ _]. induction l as [|v l IH]; intros x Hx Hl; cbn [trav_all].
  - exists true, x. do 4 (split; [done|]). by rewrite app_nil_r.
  - apply Forall_cons in Hl as [Hv Hl]. destruct (He v x Hx Hv) as (b1 & x1 & -> & Hx1 & Hs1 & Hb1 & Hw1). cbn [mbind res_bind].
    destruct b1; [|exists false, x1; do 3 (split; [done|]); by split]. destruct (IH x1 Hx1 Hl) as (b2 & x2 & -> & Hx2 & Hs2 & Hb2 & Hw2). cbn [mbind res_bind].
    exists b2, x2. split; [done|]. split; [done|]. split; [congruence|]. split; [intros Hsu; apply Hb2; congruence|]. intros ->. rewrite Hw2, Hw1 by done. by rewrite <- app_assoc.
Qed.

Lemma all_dec lv : forall lo x r, decoding x -> length lo = length lv -> Forall wf lv -> Forall owned lv -> Forall wf lo -> Forall owned lo ->
  unread x = (lv ≫= enc) ++ r -> exists x', trav_all f x lo = Ok (true, lv, x') /\ decoding x' /\ unread x' = r.
Proof.
  destruct C as [_ _ _ Hd _ _]. induction lv as [|v lv IH]; intros lo x r Hx Hlen H1 H2 H3 H4 Hr; (destruct lo as [|o lo]; [|try discriminate]); try discriminate; cbn [trav_all].
  - by exists x.
  - apply Forall_cons in H1 as [Hv H1], H2 as [Hov H2], H3 as [Ho H3], H4 as [Hoo H4]. cbn [mbind list_bind] in Hr. rewrite <- app_assoc in Hr.
    destruct (Hd v o x _ Hx Hv Hov Ho Hoo Hr) as (x1 & -> & Hx1 & Hr1). cbn [mbind res_bind]. injection Hlen as Hlen.
    destruct (IH lo x1 r Hx1 Hlen H1 H2 H3 H4 Hr1) as (x2 & -> & Hx2 & Hr2). by exists x2.
Qed.

Lemma all_safe lo : forall x, decoding x -> Forall wf lo -> Forall owned lo ->
  exists b lo' x', trav_all f x lo = Ok (b, lo', x') /\ decoding x' /\ length lo' = length lo /\ Forall wf lo' /\ Forall owned lo' /\ (b = true -> exists bs, unread x = bs ++ unread x').
Proof.
  destruct C as [_ _ _ _ Hs _]. induction lo as [|o lo IH]; intros x Hx H1 H2; cbn [trav_all].
  - exists true, [], x. do 5 (split; [done|]). by exists [].
  - pose proof H1 as H1'. pose proof H2 as H2'. apply Forall_cons in H1 as [Ho H1], H2 as [Hoo H2]. destruct (Hs o x Hx Ho Hoo) as (b1 & o1 & x1 & -> & Hx1 & Hw1 & Ho1 & Hb1). cbn [mbind res_bind].
    destruct b1; [|exists false, (o1 :: lo), x1; split; [done|]; split; [done|]; split; [done|]; split; [by constructor|]; by split; [constructor|]].
    destruct (IH x1 Hx1 H1 H2) as (b2 & lo2 & x2 & -> & Hx2 & Hl2 & Hw2 & Ho2 & Hb2). cbn [mbind res_bind]. exists b2, (o1 :: lo2), x2. split; [done|]. split; [done|]. split; [cbn; by rewrite Hl2|].
    split; [by constructor|]. split; [by constructor|]. intros ->. destruct (Hb1 eq_refl) as [bs1 Hbs1], (Hb2 eq_refl) as [bs2 Hbs2]. exists (bs1 ++ bs2). by rewrite Hbs1, Hbs2, <- app_assoc.
Qed.

Lemma all_free l : forall x, x_op x = XDR_FREE -> Forall wf l -> trav_all f x l = Ok (true, l, x).
Proof.
  destruct C as [_ _ _ _ _ Hf]. induction l as [|v l IH]; intros x Hx Hl; [done|]. apply Forall_cons in Hl as [Hv Hl]. cbn [trav_all]. rewrite (Hf v x Hx Hv). cbn [mbind res_bind].
  by rewrite (IH x Hx Hl).
Qed.

Lemma codec_array n : codec (replicate n d) (trav_all f) (fun l => l ≫= enc) (fun l => length l = n /\ Forall wf l) (Forall owned).
Proof.
  pose proof C as [[Hwd Hod] _ _ _ _ _]. split.
  - split; [split; [apply length_replicate|]|]; by apply Forall_replicate.
  - intros v [_ Hv]. by apply all_words.
  - intros v x Hx [_ Hv]. by apply all_enc.
  - intros v o x r Hx [Hl1 Hv] Hov [Hl2 Ho] Hoo Hr. apply all_dec; try done. congruence.
  - intros o x Hx [Hl Ho] Hoo. destruct (all_safe o x Hx Ho Hoo) as (b & o' & x' & E & Hx' & Hl' & Hw' & Ho' & Hb). exists b, o', x'. split; [done|]. split; [done|]. split; [split; [congruence|done]|]. by split.
  - intros o x Hx [_ Ho]. by apply all_free.
Qed.

Section vector.
Context (max sz : Z) (Hmax : 0 <= max < 2 ^ 32).

Lemma push_dec lv : forall x r (v : rpc_vec R max), decoding x -> nofree v = false -> size v + Z.of_nat (length lv) <= max -> Forall wf lv -> Forall owned lv ->
  unread x = (lv ≫= enc) ++ r -> exists x', trav_push d f (length lv) x v = Ok (true, RpcVec false (elems v ++ lv), x') /\ decoding x' /\ unread x' = r.
Proof.
  pose proof C as [[Hwd Hod] _ _ Hd _ _]. induction lv as [|e lv IH]; intros x r v Hx Hn Hs H1 H2 Hr; cbn [length trav_push].
  - exists x. rewrite app_nil_r, <- Hn. by destruct v.
  - apply Forall_cons in H1 as [He H1], H2 as [Hoe H2]. cbn [mbind list_bind] in Hr. rewrite <- app_assoc in Hr. cbn [length] in Hs. unfold push_back, ensure. rewrite Hn.
    unfold c_assert. rewrite (proj2 (Z.leb_le _ _)) by lia. cbn [negb mbind res_bind]. destruct (Hd e d x _ Hx He Hoe Hwd Hod Hr) as (x1 & -> & Hx1 & Hr1). cbn [mbind res_bind nofree elems].
    rewrite removelast_last. destruct (IH x1 r (RpcVec false (elems v ++ [e])) Hx1) as (x2 & -> & Hx2 & Hr2); [done| |done..|].
    + unfold size in *. cbn [elems]. rewrite length_app. cbn [length]. lia.
    + exists x2. cbn [elems]. by rewrite <- app_assoc.
Qed.

Lemma push_safe todo : forall x (v : rpc_vec R max), decoding x -> nofree v = false -> size v + Z.of_nat todo <= max -> Forall wf (elems v) -> Forall owned (elems v) ->
  exists b v' x', trav_push d f todo x v = Ok (b, v', x') /\ decoding x' /\ nofree v' = false /\ size v' <= max /\ Forall wf (elems v') /\ Forall owned (elems v') /\
    (b = true -> exists bs, unread x = bs ++ unread x').
Proof.
  pose proof C as [[Hwd Hod] _ _ _ Hsafe _]. induction todo as [|todo IH]; intros x v Hx Hn Hs H1 H2; cbn [trav_push].
  - exists true, v, x. do 3 (split; [done|]). split; [lia|]. do 2 (split; [done|]). by exists [].
  - unfold push_back, ensure, c_assert. rewrite Hn, (proj2 (Z.leb_le _ _)) by lia. cbn [negb mbind res_bind]. destruct (Hsafe d x Hx Hwd Hod) as (b1 & e & x1 & -> & Hx1 & Hw1 & Ho1 & Hb1).
    cbn [mbind res_bind nofree elems]. rewrite removelast_last. set (v1 := RpcVec false (elems v ++ [e])). assert (Hv1 : size v1 + Z.of_nat todo <= max /\ Forall wf (elems v1) /\ Forall owned (elems v1)).
    { unfold size in *. cbn [v1 elems]. rewrite length_app, !Forall_app. cbn [length]. split; [lia|]. split; (split; [done|by apply Forall_singleton]). }
    destruct Hv1 as (Hs1 & Hwf1 & How1). destruct b1; [|exists false, v1, x1; do 3 (split; [done|]); split; [lia|]; by split_and!].
    destruct (IH x1 v1 Hx1 eq_refl Hs1 Hwf1 How1) as (b2 & v2 & x2 & -> & Hx2 & Hn2 & Hs2 & Hw2 & Ho2 & Hb2). exists b2, v2, x2. do 6 (split; [done|]). intros ->.
    destruct (Hb1 eq_refl) as [bs1 Hbs1], (Hb2 eq_refl) as [bs2 Hbs2]. exists (bs1 ++ bs2). by rewrite Hbs1, Hbs2, <- app_assoc.
Qed.

(** The vector is made as long as it has to be, or has at most as many elements. *)
Lemma fitted n (o : rpc_vec R max) : 0 <= n <= max -> nofree o = false -> size o <= max -> exists l,
  (if n <? size o then setsize d n o
   else if size o <? n then (if size o <? Z.min (65536 / sz) n then reserve (Z.min (65536 / sz) n - size o) o else Ok tt);; Ok o else Ok o) = Ok (RpcVec false l) /\
  l = take (Z.to_nat n) (elems o).
Proof.
  intros Hn Hf Hs. unfold size in *. destruct (Z.ltb_spec n (Z.of_nat (length (elems o)))).
  - unfold setsize. rewrite Hf. unfold c_assert. rewrite (proj2 (Z.leb_le _ _)) by lia. cbn [negb mbind res_bind]. eexists. split; [done|].
    replace (Z.to_nat n - length (elems o))%nat with 0%nat by lia. by rewrite app_nil_r.
  - exists (elems o). rewrite take_ge by lia. split; [|done]. assert (Eo : Ok o = Ok (RpcVec false (elems o))) by (rewrite <- Hf; by destruct o).
    destruct (Z.of_nat (length (elems o)) <? n); [|exact Eo]. destruct (Z.ltb_spec (Z.of_nat (length (elems o))) (Z.min (65536 / sz) n)); [|exact Eo].
    unfold reserve, ensure, size. rewrite Hf. unfold c_assert. rewrite (proj2 (Z.leb_le _ _)) by lia. cbn [negb mbind res_bind]. exact Eo.
Qed.

Lemma codec_vec : codec (RpcVec false []) (trav_vec_default max d sz f) (fun v => be 4 (size v) ++ (elems v ≫= enc))
  (fun v => size v <= max /\ Forall wf (elems v)) (fun v => nofree v = false /\ Forall owned (elems v)).
Proof.
  destruct codec_u32 as [_ _ Ue Ud Us Uf]. assert (Hsz : forall v : rpc_vec R max, size v <= max -> 0 <= size v < 2 ^ 32 /\ size v mod 2 ^ 32 = size v).
  { intros v Hv. assert (0 <= size v < 2 ^ 32) by (unfold size in *; lia). split; [done|]. by apply Z.mod_small. }
  split; unfold trav_vec_default, trav_u32, xdr_leaf.
  - split; (split; [|by apply Forall_nil]); [|done]. change (0 <= max). lia.
  - intros v [_ Hv]. destruct (all_words (elems v) Hv). split; [apply Forall_app; split; [apply be_bytes|done]|]. by apply words_app.
  - intros v x Hx [Hs Hv]. destruct (Hsz v Hs) as [Hr Em]. rewrite Em. destruct (Ue (size v) x Hx Hr) as (b1 & x1 & -> & Hx1 & Hs1 & Hb1 & Hw1). cbn [mbind res_bind].
    destruct b1; [|exists false, x1; do 3 (split; [done|]); by split]. cbn [negb orb]. rewrite (proj2 (Z.ltb_ge max (size v))) by done. rewrite Z.ltb_irrefl. cbn [mbind res_bind].
    destruct (all_enc (elems v) x1 Hx1 Hv) as (b2 & x2 & -> & Hx2 & Hs2 & Hb2 & Hw2). cbn [mbind res_bind elems]. assert (Ev : RpcVec (nofree v) (elems v) = v) by by destruct v. rewrite Ev.
    rewrite Z.sub_diag. exists b2, x2. split; [by destruct b2|]. split; [done|]. split; [congruence|]. split; [intros Hsu; apply Hb2; congruence|].
    intros ->. rewrite Hw2, Hw1 by done. by rewrite <- app_assoc.
  - intros v o x r Hx [Hs Hv] [Hn Hov] [Hso Ho] [Hno Hoo] Hr. destruct (Hsz v Hs) as [Hr1 _], (Hsz o Hso) as [Hr2 Em]. rewrite Em. rewrite <- app_assoc in Hr.
    destruct (Ud (size v) (size o) x _ Hx Hr1 I Hr2 I Hr) as (x1 & -> & Hx1 & Hrd1). cbn [mbind res_bind negb orb]. rewrite (proj2 (Z.ltb_ge max (size v))) by done.
    destruct (fitted (size v) o ltac:(lia) Hno Hso) as (l & -> & ->). cbn [mbind res_bind elems nofree]. assert (Et : Z.to_nat (size v) = length (elems v)) by (unfold size; lia). rewrite Et. set (k := length (take (length (elems v)) (elems o))).
    assert (Hk : (k <= length (elems v))%nat) by (unfold k; rewrite length_take; lia). rewrite <- (take_drop k (elems v)), bind_app, <- app_assoc in Hrd1.
    destruct (all_dec (take k (elems v)) (take (length (elems v)) (elems o)) x1 ((drop k (elems v) ≫= enc) ++ r) Hx1) as (x2 & E2 & Hx2 & Hrd2).
    { fold k. by rewrite length_take_le. }
    1-4: by apply Forall_take.
    { exact Hrd1. }
    rewrite E2. cbn [mbind res_bind]. set (v2 := RpcVec false (take k (elems v))). assert (Hk2 : size v2 = Z.of_nat k) by (unfold size, v2; cbn [elems]; by rewrite length_take_le).
    destruct (push_dec (drop k (elems v)) x2 r v2 Hx2 eq_refl) as (x3 & E3 & Hx3 & Hrd3).
    + rewrite Hk2, length_drop. unfold size in Hs. lia.
    + by apply Forall_drop.
    + by apply Forall_drop.
    + exact Hrd2.
    + rewrite Hk2. replace (Z.to_nat (size v - Z.of_nat k)) with (length (drop k (elems v))) by (rewrite length_drop; lia). rewrite E3. exists x3. split; [|done].
      cbn [v2 elems]. rewrite take_drop, <- Hn. by destruct v.
  - intros o x Hx [Hso Ho] [Hno Hoo]. destruct (Hsz o Hso) as [Hr2 Em]. rewrite Em. destruct (Us (size o) x Hx Hr2 I) as (b1 & n & x1 & -> & Hx1 & Hn & _ & Hb1). cbn [mbind res_bind].
    destruct b1; cbn [negb orb]; [|exists false, o, x1; do 4 (split; [done|]); done]. destruct (Z.ltb_spec max n) as [Hbig|Hle]; [exists false, o, x1; do 4 (split; [done|]); done|].
    destruct (fitted n o ltac:(lia) Hno Hso) as (l & -> & El). cbn [mbind res_bind elems nofree].
    destruct (all_safe l x1 Hx1) as (b2 & l2 & x2 & -> & Hx2 & Hl2 & Hw2 & Ho2 & Hb2); [rewrite El; by apply Forall_take..|]. cbn [mbind res_bind].
    assert (Hln : Z.of_nat (length l2) <= n) by (rewrite Hl2, El, length_take; lia). destruct (Hb1 eq_refl) as [bs1 Hbs1].
    destruct b2; [|exists false, (RpcVec false l2), x2; split; [done|]; split; [done|]; split; [split; [unfold size; cbn [elems]; lia|done]|]; by split].
    destruct (Hb2 eq_refl) as [bs2 Hbs2]. set (v2 := RpcVec false l2). destruct (push_safe (Z.to_nat (n - size v2)) x2 v2 Hx2 eq_refl) as (b3 & v3 & x3 & -> & Hx3 & Hn3 & Hs3 & Hw3 & Ho3 & Hb3).
    + unfold size. cbn [v2 elems]. lia.
    + done.
    + done.
    + exists b3, v3, x3. do 2 (split; [done|]). split; [done|]. split; [done|]. intros ->. destruct (Hb3 eq_refl) as [bs3 Hbs3]. exists (bs1 ++ bs2 ++ bs3). by rewrite Hbs1, Hbs2, Hbs3, <- !app_assoc.
  - intros o x Hx [Hso Ho]. destruct (Hsz o Hso) as [Hr2 Em]. rewrite Em, (Uf (size o) x Hx Hr2). cbn [mbind res_bind negb orb]. rewrite (proj2 (Z.ltb_ge max (size o))) by done. rewrite Z.ltb_irrefl.
    cbn [mbind res_bind]. rewrite (all_free _ x Hx Ho). cbn [mbind res_bind elems]. assert (Eo : RpcVec (nofree o) (elems o) = o) by by destruct o. by rewrite Eo, Z.sub_diag.
Qed.
End vector.
End one.

(** ** Bytes *)
Lemma pad_len_eq n : pad_len n = - n mod 4.
Proof.
  unfold pad_len, u64. change 3 with (Z.ones 2). rewrite Z.land_ones by lia. change (2 ^ 2) with 4. symmetry. change (2 ^ 64) with (4 * 2 ^ 62).
  rewrite Z.rem_mul_r by lia. rewrite Z.add_mod, (Z.mul_comm 4), Z.mod_mul, Z.add_0_r, !Z.mod_mod by lia. done.
Qed.

Lemma rounded_eq n : 0 <= n < 2 ^ 31 -> rounded n = n + - n mod 4.
Proof.
  intros Hn. unfold rounded. rewrite Z.mod_small by lia. change (Z.land (n + 3) (Z.lnot 3)) with (Z.ldiff (n + 3) (Z.ones 2)). rewrite Z.ldiff_ones_r by lia.
  rewrite Z.shiftr_div_pow2, Z.shiftl_mul_pow2 by lia. change (2 ^ 2) with 4. Z.div_mod_to_equations. lia.
Qed.

Lemma length_pad l : Z.of_nat (length (pad l)) = Z.of_nat (length l) + - Z.of_nat (length l) mod 4.
Proof. unfold pad. rewrite length_app, length_replicate, Nat2Z.inj_add, Z2Nat.id; [done|]. apply Z.mod_pos_bound. lia. Qed.

Lemma words_pad l : Forall is_byte l -> Forall is_byte (pad l) /\ (length (pad l) mod 4 = 0)%nat.
Proof.
  intros Hl. split.
  - apply Forall_app. split; [done|]. apply Forall_replicate. unfold is_byte. lia.
  - apply Nat2Z.inj. rewrite Nat2Z.inj_mod, length_pad. change (Z.of_nat 4) with 4. Z.div_mod_to_equations. lia.
Qed.
Lemma words_counted n l : Forall is_byte l -> Forall is_byte (be 4 n ++ pad l) /\ (length (be 4 n ++ pad l) mod 4 = 0)%nat.
Proof. intros [H1 H2]%words_pad. split; [apply Forall_app; split; [apply be_bytes|done]|by apply words_app]. Qed.

Definition put_fine (x : X) (l : list Z) (r : bool * X) : Prop :=
  x_op r.2 = XDR_ENCODE /\ sure r.2 = sure x /\ (sure x = true -> r.1 = true) /\ (r.1 = true -> written r.2 = written x ++ l).

Lemma putbytes_ok x p : x_op x = XDR_ENCODE -> put_fine x p (XDR_PUTBYTES x p).
Proof. intros Hx. pose proof (putbytes_law x p Hx) as L. by destruct (XDR_PUTBYTES x p). Qed.

Lemma put_then x l1 l2 r1 (g : X -> bool * X) : put_fine x l1 r1 -> (forall x', x_op x' = XDR_ENCODE -> put_fine x' l2 (g x')) ->
  put_fine x (l1 ++ l2) (match r1 with (true, x) => g x | (false, x) => (false, x) end).
Proof.
  destruct r1 as [[|] x1]; intros (H1 & H2 & H3 & H4) Hg; cbn [fst snd] in *.
  - destruct (Hg x1 H1) as (G1 & G2 & G3 & G4). split; [done|]. split; [congruence|]. split; [intros Hs; apply G3; congruence|]. intros Hb. by rewrite G4, H4, <- app_assoc.
  - by split.
Qed.

Lemma putpad_ok x l : x_op x = XDR_ENCODE -> Z.of_nat (length l) < 2 ^ 32 -> put_fine x (pad l) (xdr_putpadbytes x l (Z.of_nat (length l))).
Proof.
  intros Hx Hl. unfold xdr_putpadbytes. destruct (Z.eqb_spec (Z.of_nat (length l)) 0) as [E|E].
  - destruct l; [|cbn in E; lia]. split; [done|]. split; [done|]. split; [done|]. intros _. by rewrite app_nil_r.
  - unfold put_bytes at 1. rewrite Z.mod_small, Nat2Z.id, take_ge by lia. pose proof (Z.mod_pos_bound (- Z.of_nat (length l)) 4 ltac:(lia)) as Hm. rewrite pad_len_eq.
    assert (Hg : forall x', x_op x' = XDR_ENCODE -> put_fine x' (replicate (Z.to_nat (- Z.of_nat (length l) mod 4)) 0)
      (if - Z.of_nat (length l) mod 4 =? 0 then (true, x') else put_bytes x' [0; 0; 0; 0] (- Z.of_nat (length l) mod 4))).
    { intros x' Hx'. destruct (Z.eqb_spec (- Z.of_nat (length l) mod 4) 0) as [->|]; [split; [done|]; split; [done|]; split; [done|]; intros _; by rewrite app_nil_r|].
      unfold put_bytes. rewrite (Z.mod_small _ (2 ^ 32)) by lia. replace (take _ [0; 0; 0; 0]) with (replicate (Z.to_nat (- Z.of_nat (length l) mod 4)) 0); [by apply putbytes_ok|].
      assert (Hc : - Z.of_nat (length l) mod 4 = 1 \/ - Z.of_nat (length l) mod 4 = 2 \/ - Z.of_nat (length l) mod 4 = 3) by lia. by destruct Hc as [->|[->| ->]]. }
    pose proof (put_then x l _ _ _ (putbytes_ok x l Hx) Hg) as HP. by destruct (XDR_PUTBYTES x l) as [[|] x1].
Qed.

Lemma counted_ok x l : x_op x = XDR_ENCODE -> Z.of_nat (length l) < 2 ^ 32 -> put_fine x (be 4 (Z.of_nat (length l)) ++ pad l) (put_counted x l).
Proof.
  intros Hx Hl. unfold put_counted. rewrite Z.mod_small by lia. apply put_then.
  - unfold xdr_putint. pose proof (putlong_law x (Z.of_nat (length l)) Hx). by destruct (XDR_PUTLONG x _).
  - intros x' Hx'. by apply putpad_ok.
Qed.

Lemma getbytes_ok x n l r : decoding x -> unread x = l ++ r -> length l = n -> exists x', XDR_GETBYTES x n = (Some l, x') /\ decoding x' /\ unread x' = r.
Proof.
  intros Hx Hr <-. pose proof (getbytes_law' x (length l) Hx) as L. destruct (XDR_GETBYTES x (length l)) as [[bs|] x'].
  - destruct L as (Hx' & Hb & E). rewrite Hr in E. apply app_inj_1 in E as [<- ->]; [|done]. by exists x'.
  - destruct L as [_ L]. rewrite Hr, length_app in L. lia.
Qed.

Lemma getpad_ok x p l r : decoding x -> unread x = pad l ++ r -> Z.of_nat (length l) < 2 ^ 32 ->
  exists x', xdr_getpadbytes x p (Z.of_nat (length l)) = (true, l, x') /\ decoding x' /\ unread x' = r.
Proof.
  intros Hx Hr Hl. unfold xdr_getpadbytes. rewrite Z.mod_small, Nat2Z.id by lia. unfold pad in Hr. rewrite <- app_assoc in Hr.
  destruct (getbytes_ok x (length l) l _ Hx Hr eq_refl) as (x1 & -> & Hx1 & Hr1). rewrite pad_len_eq. destruct (Z.eqb_spec (- Z.of_nat (length l) mod 4) 0) as [E|E].
  - rewrite E in Hr1. by exists x1.
  - destruct (getbytes_ok x1 _ _ _ Hx1 Hr1 (length_replicate _ _)) as (x2 & -> & Hx2 & Hr2). by exists x2.
Qed.

Lemma getpad_safe x p n : decoding x -> 0 <= n < 2 ^ 32 -> exists b l x', xdr_getpadbytes x p n = (b, l, x') /\ decoding x' /\
  (l = p \/ Z.of_nat (length l) = n /\ Forall is_byte l) /\ (b = true -> Z.of_nat (length l) = n /\ Forall is_byte l /\ exists bs, unread x = bs ++ unread x').
Proof.
  intros Hx Hn. unfold xdr_getpadbytes. rewrite Z.mod_small by lia. pose proof (getbytes_law' x (Z.to_nat n) Hx) as L. pose proof (unread_bytes x) as HB.
  destruct (XDR_GETBYTES x (Z.to_nat n)) as [[bs|] x1]; [|exists false, p, x1; destruct L as [L _]; split; [done|]; split; [done|]; by split; [left|]].
  destruct L as (Hx1 & Hb & E). rewrite E in HB. apply Forall_app in HB as [HB _]. assert (Hlen : Z.of_nat (length bs) = n /\ Forall is_byte bs) by (split; [lia|done]).
  destruct (pad_len n =? 0); [exists true, bs, x1; split; [done|]; split; [done|]; split; [by right|]; intros _; split_and!; try apply Hlen; by exists bs|].
  pose proof (getbytes_law' x1 (Z.to_nat (pad_len n)) Hx1) as L2. destruct (XDR_GETBYTES x1 (Z.to_nat (pad_len n))) as [[bs2|] x2]; destruct L2 as [Hx2 L2].
  - exists true, bs, x2. split; [done|]. split; [done|]. split; [by right|]. intros _. split_and!; try apply Hlen. destruct L2 as [_ E2]. exists (bs ++ bs2). by rewrite E, E2, <- app_assoc.
  - exists false, bs, x2. split; [done|]. split; [done|]. by split; [right|].
Qed.

Lemma codec_opaque n : Z.of_nat n < 2 ^ 32 -> codec (T := rpc_opaque n) (replicate n 0) (xdr_opaque n) pad (fun l => length l = n /\ Forall is_byte l) (fun _ => True).
Proof.
  intros Hn. split; unfold xdr_opaque.
  - split; [|done]. split; [apply length_replicate|apply Forall_replicate; unfold is_byte; lia].
  - intros v [_ Hv]. by apply words_pad.
  - intros v x Hx [Hl Hv]. rewrite Hx, <- Hl. pose proof (putpad_ok x v Hx ltac:(lia)) as HP. destruct (xdr_putpadbytes x v _) as [b x']. by exists b, x'.
  - intros v o x r Hx [Hl Hv] _ _ _ Hr. rewrite (proj1 Hx), <- Hl. destruct (getpad_ok x o v r Hx Hr ltac:(lia)) as (x' & -> & L). by exists x'.
  - intros o x Hx [Hl Ho] _. rewrite (proj1 Hx). destruct (getpad_safe x o (Z.of_nat n) Hx ltac:(lia)) as (b & l & x' & -> & Hx' & Hor & Hb). exists b, l, x'. split; [done|]. split; [done|].
    split; [destruct Hor as [->|[? ?]]; [done|split; [lia|done]]|]. split; [done|]. intros E. by apply Hb.
  - intros o x Hx _. by rewrite Hx.
Qed.

Lemma inline_ok x max l r : decoding x -> unread x = be 4 (Z.of_nat (length l)) ++ pad l ++ r -> Z.of_nat (length l) <= max < 2 ^ 31 ->
  exists x', get_inline max x = (Some (Z.of_nat (length l), pad l), x') /\ decoding x' /\ unread x' = r.
Proof.
  intros Hx Hr Hl. unfold get_inline. destruct (get_ok x _ _ Hx Hr) as (x1 & -> & Hx1 & Hr1). rewrite Z.mod_small by lia. rewrite (proj2 (Z.ltb_ge _ _)) by lia.
  assert (Hrd : rounded (Z.of_nat (length l)) = Z.of_nat (length (pad l))) by (rewrite rounded_eq, length_pad by lia; done). rewrite Hrd.
  assert (Hmod : Z.of_nat (length (pad l)) mod 4 = 0) by (rewrite length_pad; Z.div_mod_to_equations; lia).
  pose proof (inline_law' x1 (Z.of_nat (length (pad l))) Hx1 ltac:(lia) Hmod) as L. destruct (XDR_INLINE x1 _) as [[bs|] x'].
  - destruct L as (Hx' & Hb & E). rewrite Hr1 in E. apply app_inj_1 in E as [<- ->]; [|lia]. by exists x'.
  - destruct L as [_ L]. rewrite Hr1, length_app in L. lia.
Qed.

Lemma inline_safe x max : decoding x -> 0 <= max < 2 ^ 31 -> exists o x', get_inline max x = (o, x') /\ decoding x' /\
  match o with Some (n, dp) => 0 <= n <= max /\ n <= Z.of_nat (length dp) /\ Forall is_byte dp /\ exists bs, unread x = bs ++ unread x' | None => True end.
Proof.
  intros Hx Hmax. unfold get_inline. destruct (get_safe x Hx) as ([n|] & x1 & -> & Hx1 & L); [|by exists None, x1]. destruct L as [Hn (bs & _ & E)].
  destruct (Z.ltb_spec max n); [by exists None, x1|]. assert (Hrd : rounded n = n + - n mod 4) by (apply rounded_eq; lia). pose proof (Z.mod_pos_bound (- n) 4 ltac:(lia)).
  assert (Hmod : rounded n mod 4 = 0) by (rewrite Hrd; Z.div_mod_to_equations; lia).
  pose proof (inline_law' x1 (rounded n) Hx1 ltac:(lia) Hmod) as L. pose proof (unread_bytes x1) as HB. destruct (XDR_INLINE x1 _) as [[dp|] x2]; destruct L as [Hx2 L]; [|by exists None, x2].
  destruct L as [Hd E2]. rewrite E2 in HB. apply Forall_app in HB as [HB _]. exists (Some (n, dp)), x2. split; [done|]. split; [done|]. split; [lia|]. split; [lia|]. split; [done|].
  exists (bs ++ dp). by rewrite E, E2, <- app_assoc.
Qed.

Lemma codec_bytes max : 0 <= max < 2 ^ 31 -> codec (T := rpc_bytes max) (RpcVec false []) (xdr_bytes max) (fun v => be 4 (size v) ++ pad (elems v))
  (fun v => size v <= max /\ Forall is_byte (elems v)) (fun v => nofree v = false).
Proof.
  intros Hmax. split; unfold xdr_bytes.
  - split; [|done]. split; [change (0 <= max); lia|by apply Forall_nil].
  - intros v [_ Hv]. by apply words_counted.
  - intros v x Hx [Hs Hv]. rewrite Hx. unfold size in Hs. pose proof (counted_ok x (elems v) Hx ltac:(lia)) as HP. destruct (put_counted x _) as [b x']. by exists b, x'.
  - intros v o x r Hx [Hs Hv] Hn [Hso _] Hno Hr. rewrite (proj1 Hx). rewrite <- app_assoc in Hr. unfold size in Hs, Hr. destruct (inline_ok x max (elems v) r Hx Hr ltac:(lia)) as (x' & -> & L).
    unfold setsize. rewrite Hno. unfold c_assert. rewrite (proj2 (Z.leb_le _ _)) by lia. cbn [negb mbind res_bind]. exists x'. split; [|done]. cbn [nofree elems]. rewrite Nat2Z.id. unfold pad.
    rewrite take_app_length. rewrite drop_ge by (rewrite length_app, length_take, length_replicate; lia). rewrite app_nil_r, <- Hn. by destruct v.
  - intros o x Hx [Hso Ho] Hno. rewrite (proj1 Hx). destruct (inline_safe x max Hx Hmax) as ([[n dp]|] & x' & -> & Hx' & L); [|exists false, o, x'; by do 4 (split; [done|])].
    destruct L as (Hn & Hd & HB & Hbs). unfold setsize. rewrite Hno. unfold c_assert. rewrite (proj2 (Z.leb_le _ _)) by lia. cbn [negb mbind res_bind]. eexists true, _, x'. split; [done|]. split; [done|].
    cbn [nofree elems]. rewrite drop_ge by (rewrite length_app, length_take, length_replicate; lia). rewrite app_nil_r. split; [|by split]. split; [|by apply Forall_take].
    unfold size. cbn [elems]. rewrite length_take. lia.
  - intros o x Hx _. by rewrite Hx.
Qed.

Lemma codec_str max : 0 <= max < 2 ^ 31 -> codec (T := rpc_str max) (Some []) (xdr_str max) (fun s => be 4 (Z.of_nat (length (default [] s))) ++ pad (default [] s))
  (fun s => match s with Some l => Z.of_nat (length l) <= max /\ Forall is_byte l /\ 0 ∉ l | None => False end) (fun _ => True).
Proof.
  intros Hmax. assert (Hc : forall l, Z.of_nat (length l) <= max -> 0 ∉ l -> str_check max l = Ok tt).
  { intros l Hl Hz. unfold str_check, memchr0. rewrite bool_decide_false by done. unfold c_assert. by rewrite (proj2 (Z.leb_le _ _)) by lia. }
  split; unfold xdr_str.
  - split; [|done]. split; [cbn; lia|]. split; [by apply Forall_nil|apply not_elem_of_nil].
  - intros [v|] Hv; [|done]. destruct Hv as (_ & Hv & _). by apply words_counted.
  - intros [v|] x Hx Hv; [|done]. destruct Hv as (Hs & Hv & Hz). rewrite Hx. pose proof (counted_ok x v Hx ltac:(lia)) as HP. destruct (put_counted x v) as [b x']. by exists b, x'.
  - intros [v|] o x r Hx Hv _ _ _ Hr; [|done]. destruct Hv as (Hs & Hv & Hz). rewrite (proj1 Hx). rewrite <- app_assoc in Hr. cbn [default] in Hr.
    destruct (inline_ok x max v r Hx Hr ltac:(lia)) as (x' & -> & L). rewrite Nat2Z.id. unfold pad. rewrite take_app_length. unfold memchr0 at 1. rewrite bool_decide_false by done.
    rewrite Hc by done. cbn [mbind res_bind]. by exists x'.
  - intros o x Hx Ho _. rewrite (proj1 Hx). destruct (inline_safe x max Hx Hmax) as ([[n dp]|] & x' & -> & Hx' & L); [|exists false, o, x'; by do 4 (split; [done|])].
    destruct L as (Hn & Hd & HB & Hbs). cbv zeta. destruct (memchr0 (take (Z.to_nat n) dp)) eqn:E0; [exists false, o, x'; by do 4 (split; [done|])|].
    unfold memchr0 in E0. apply bool_decide_eq_false in E0. assert (Hl : Z.of_nat (length (take (Z.to_nat n) dp)) <= max) by (rewrite length_take; lia). rewrite Hc by done. cbn [mbind res_bind].
    eexists true, _, x'. split; [done|]. split; [done|]. split; [split; [done|]; split; [by apply Forall_take|done]|]. by split.
  - intros o x Hx _. by rewrite Hx.
Qed.
End codec.

(** ** Every type

    The types that values can be made of, by their names; [struct]s are generated by rpcc, whose output is not in the repository. *)
Inductive ty : Type := U32 | I32 | U64 | I64 | Bool | Opaque (n : nat) | Bytes (max : Z) | Str (max : Z) | Ptr (t : ty) | Array (t : ty) (n : nat) | Vec (t : ty) (max : Z).
Fixpoint type_of (t : ty) : Type :=
  match t with
  | U32 => u_int32_t | I32 => int32_t | U64 => u_int64_t | I64 => int64_t | Bool => bool
  | Opaque n => rpc_opaque n | Bytes max => rpc_bytes max | Str max => rpc_str max
  | Ptr t => rpc_ptr (type_of t) | Array t n => array (type_of t) n | Vec t max => rpc_vec (type_of t) max
  end.
#[export] Instance rpc_of : forall t, RpcType (type_of t) := fix rpc_of t :=
  match t return RpcType (type_of t) with
  | U32 => rpc_u32 | I32 => rpc_i32 | U64 => rpc_u64 | I64 => rpc_i64 | Bool => rpc_bool
  | Opaque n => rpc_opaque_type n | Bytes max => rpc_bytes_type max | Str max => rpc_str_type max
  | Ptr t => @rpc_ptr_type _ (rpc_of t) | Array t n => @rpc_array_type _ n (rpc_of t) | Vec t max => @rpc_vec_type _ max (rpc_of t)
  end.

(** The lengths that a type may name. *)
Fixpoint ty_ok (t : ty) : Prop :=
  match t with
  | Opaque n => Z.of_nat n < 2 ^ 32
  | Bytes max | Str max => 0 <= max < 2 ^ 31
  | Ptr t | Array t _ => ty_ok t
  | Vec t max => 0 <= max < 2 ^ 32 /\ ty_ok t
  | _ => True
  end.
(** RFC 4506, sections 4.1 to 4.19. *)
Fixpoint enc (t : ty) : type_of t -> list Z :=
  match t return type_of t -> list Z with
  | U32 => fun v => be 4 v
  | I32 => fun v => be 4 (v mod 2 ^ 32)
  | U64 => fun v => be 8 v
  | I64 => fun v => be 8 (v mod 2 ^ 64)
  | Bool => fun v => be 4 (Z.b2z v)
  | Opaque n => fun v => pad v
  | Bytes max => fun v => be 4 (size v) ++ pad (elems v)
  | Str max => fun v => be 4 (Z.of_nat (length (default [] v))) ++ pad (default [] v)
  | Ptr t => fun v => match v with Some v => be 4 1 ++ enc t v | None => be 4 0 end
  | Array t n => fun v => v ≫= enc t
  | Vec t max => fun v => be 4 (size v) ++ (elems v ≫= enc t)
  end.
(** The values that a type can have: numbers in their range, no more elements than the type allows, no 0 in a string; a string that is [NULL] has no encoding. *)
Fixpoint wf (t : ty) : type_of t -> Prop :=
  match t return type_of t -> Prop with
  | U32 => fun v => 0 <= v < 2 ^ 32
  | I32 => fun v => - 2 ^ 31 <= v < 2 ^ 31
  | U64 => fun v => 0 <= v < 2 ^ 64
  | I64 => fun v => - 2 ^ 63 <= v < 2 ^ 63
  | Bool => fun _ => True
  | Opaque n => fun v => length v = n /\ Forall is_byte v
  | Bytes max => fun v => size v <= max /\ Forall is_byte (elems v)
  | Str max => fun v => match v with Some l => Z.of_nat (length l) <= max /\ Forall is_byte l /\ 0 ∉ l | None => False end
  | Ptr t => fun v => match v with Some v => wf t v | None => True end
  | Array t n => fun v => length v = n /\ Forall (wf t) v
  | Vec t max => fun v => size v <= max /\ Forall (wf t) (elems v)
  end.
(** The vectors in it have memory of their own. *)
Fixpoint owned (t : ty) : type_of t -> Prop :=
  match t return type_of t -> Prop with
  | Bytes max => fun v => nofree v = false
  | Ptr t => fun v => match v with Some v => owned t v | None => True end
  | Array t n => Forall (owned t)
  | Vec t max => fun v => nofree v = false /\ Forall (owned t) (elems v)
  | _ => fun _ => True
  end.

Lemma codec_ty `{XdrStream X} t : ty_ok t -> codec (X := X) (T := type_of t) dflt rpc_traverse (enc t) (wf t) (owned t).
Proof.
  induction t as [| | | | |n|max|max|t IH|t IH n|t IH max]; cbn [ty_ok]; intros Ht.
  - apply codec_u32.
  - apply codec_i32.
  - apply codec_u64.
  - apply codec_i64.
  - apply codec_bool.
  - by apply (codec_opaque n).
  - by apply (codec_bytes max).
  - by apply (codec_str max).
  - exact (codec_ptr _ _ _ _ _ (IH Ht)).
  - exact (codec_array _ _ _ _ _ (IH Ht) n).
  - exact (codec_vec _ _ _ _ _ (IH (proj2 Ht)) max _ (proj1 Ht)).
Qed.

(** ** Clearing *)
Lemma clear_vec {R} max (d : R) (v : rpc_vec R max) : 0 <= max -> nofree v = false -> setsize d 0 v = Ok (RpcVec false []).
Proof. intros Hm Hn. unfold setsize, c_assert. by rewrite Hn, (proj2 (Z.leb_le _ _)). Qed.

Lemma clear_all {R} (d : R) (f : traversal rpc_clear_t R) l : Forall (fun v => f RpcClear v = Ok (true, d, RpcClear)) l ->
  trav_all f RpcClear l = Ok (true, replicate (length l) d, RpcClear).
Proof. induction 1 as [|v l Hv _ IH]; [done|]. cbn [trav_all length replicate]. rewrite Hv. cbn [mbind res_bind]. by rewrite IH. Qed.

Lemma clear_ty t : ty_ok t -> forall v, wf t v -> owned t v -> rpc_traverse RpcClear v = Ok (true, dflt, RpcClear).
Proof.
  induction t as [| | | | |n|max|max|t IH|t IH n|t IH max]; intros Ht v Hv Ho; try done.
  - cbn in v, Ht, Ho |- *. by rewrite clear_vec by (try done; lia).
  - assert (E : forall l, length l = n -> Forall (wf t) l -> Forall (owned t) l -> trav_all rpc_traverse RpcClear l = Ok (true, replicate n dflt, RpcClear)).
    { intros l <- Hl Hol. apply clear_all, Forall_forall. intros e He. rewrite Forall_forall in Hl, Hol. apply (IH Ht); auto. }
    destruct Hv as [Hl Hv]. exact (E v Hl Hv Ho).
  - cbn in v, Ht. destruct Ho as [Ho _], Ht as [Ht _]. cbn. by rewrite clear_vec by (try done; lia).
Qed.

Lemma mem_of_length s : Z.of_nat (length (mem_of s)) < 2 ^ 32.
Proof. unfold mem_of. rewrite length_take. pose proof (Z.mod_pos_bound (Z.of_nat (length s)) (2 ^ 32) ltac:(lia)). lia. Qed.
Lemma mem_of_short s : Z.of_nat (length s) < 2 ^ 32 -> mem_of s = s.
Proof. intros Hs. unfold mem_of. rewrite Z.mod_small by lia. apply take_ge. lia. Qed.

(** * Properties *)

(** C20: a value of any type made of integers, booleans, opaque and variable bytes, strings, pointers, arrays and vectors is encoded as RFC 4506 says, in whole words; decoding that encoding, with
    anything behind it and into any value of the type, gives the value back when there are less than [2 ^ 32] bytes.  [xdr2bytes] gives the encoding where it fits.  The vectors and bytes in both values, and
    those that [xdr2bytes] fills, have memory of their own (they do not borrow it by [set]).  The values keep the bounds of their type, and no string is [NULL] or contains a 0; the type's bounds are below [2 ^ 31] for bytes and strings and below [2 ^ 32] for the others. *)
Theorem xdr_roundtrip {X} `{XdrStream X} (t : ty) (v o : type_of t) (r : list Z) max (out : rpc_bytes max) :
  ty_ok t -> wf t v -> owned t v -> wf t o -> owned t o -> Forall is_byte r -> nofree out = false -> Z.of_nat (length (enc t v ++ r)) < 2 ^ 32 ->
  xdr2str (X := X) v = Ok (Some (enc t v)) /\ (length (enc t v) mod 4 = 0)%nat /\ str2xdr (X := X) o (enc t v ++ r) = Ok (true, v) /\
  xdr2bytes (X := X) out v = Ok (if Z.of_nat (length (enc t v)) <=? max then (true, RpcVec false (enc t v)) else (false, out)) /\
  bytes2xdr (X := X) o (RpcVec (max := max) false (enc t v ++ r)) = Ok (true, v).
Proof.
  intros Ht Hv Hov Ho Hoo Hr Hout Hlen. destruct (codec_ty (X := X) t Ht) as [_ Hwords He Hd _ _]. destruct (Hwords v Hv) as [Hb Hl]. destruct suio_law as (Hx & Hs & Hw & Hu).
  destruct (He v xdrsuio_create Hx Hv) as (b & x & E & _ & _ & Hbt & Hwr). specialize (Hbt Hs). subst b. specialize (Hwr eq_refl). rewrite Hw in Hwr. cbn [app] in Hwr.
  assert (Hin : Forall is_byte (enc t v ++ r)) by by apply Forall_app. destruct (mem_law _ Hin Hlen) as (Hm & Hi & Hmr). destruct (Hd v o _ r (conj Hm Hi) Hv Hov Ho Hoo Hmr) as (x' & E' & _).
  assert (E2 : str2xdr (X := X) o (enc t v ++ r) = Ok (true, v)) by (unfold str2xdr; rewrite mem_of_short by done; by rewrite E'). split_and!; try done.
  - unfold xdr2str. rewrite E. cbn [mbind res_bind]. by rewrite Hu, Hwr.
  - unfold xdr2bytes. rewrite E. cbn [mbind res_bind negb orb]. rewrite Hu, Hwr. destruct (Z.ltb_spec max (Z.of_nat (length (enc t v)))); [by rewrite (proj2 (Z.leb_gt _ _)) by lia|].
    unfold setsize. rewrite Hout. unfold c_assert. by rewrite !(proj2 (Z.leb_le _ _)) by lia.
Qed.

(** C21: decoding bytes into a value of a type whose vectors have memory of their own (they do not borrow it by [set]) never fails but by its result, whatever the bytes are: no assertion and no access out
    of bounds, and what is left in the value, decoded or not, keeps the bounds of its type and has memory of its own.  The type's bounds are below [2 ^ 31] for bytes and strings and below [2 ^ 32] for the others. *)
Theorem xdr_decode_safe {X} `{XdrStream X} (t : ty) (o : type_of t) (s : list Z) :
  ty_ok t -> Forall is_byte s -> wf t o -> owned t o -> exists b o', str2xdr (X := X) o s = Ok (b, o') /\ wf t o' /\ owned t o'.
Proof.
  intros Ht Hs Ho Hoo. destruct (mem_law (mem_of s)) as (Hm & Hi & _); [by apply Forall_take|apply mem_of_length|].
  destruct (cd_safe _ _ _ _ _ (codec_ty (X := X) t Ht) o _ (conj Hm Hi) Ho Hoo) as (b & o' & x' & E & _ & Hw & How & _).
  exists b, o'. unfold str2xdr. by rewrite E.
Qed.

(** [rpc_clear] makes of any value the one that the constructor of its type makes. *)
Theorem rpc_clear_correct (t : ty) (v : type_of t) : ty_ok t -> wf t v -> owned t v -> rpc_clear v = Ok dflt.
Proof. intros Ht Hv Ho. unfold rpc_clear. by rewrite (clear_ty t Ht v Hv Ho). Qed.

(** * A stream in memory

    [long] has 64 bits, and what is read is a signed number of 32 bits. *)
Record mem : Type := Mem { m_op : xdr_op; m_out : list Z; m_in : list Z }.
Definition m_bytes (l : list Z) : list Z := (fun b => b mod 256) <$> l.
Definition m_take (m : mem) (n : nat) : option (list Z) * mem :=
  if decide (n <= length (m_in m))%nat then (Some (m_bytes (take n (m_in m))), Mem (m_op m) (m_out m) (drop n (m_in m))) else (None, m).
#[export] Instance mem_ops : XdrOps mem := {
  x_op := m_op;
  XDR_PUTLONG m v := (true, Mem (m_op m) (m_out m ++ be 4 v) (m_in m));
  XDR_GETLONG m := match m_take m 4 with (Some bs, m) => (Some (as_signed 32 (unbe bs)), m) | (None, m) => (None, m) end;
  XDR_PUTBYTES m p := (true, Mem (m_op m) (m_out m ++ p) (m_in m));
  XDR_GETBYTES m n := m_take m n;
  XDR_INLINE m n := m_take m (Z.to_nat n);
  xdrsuio_create := Mem XDR_ENCODE [] [];
  xdrmem_create s := Mem XDR_DECODE [] s;
  uio_bytes := m_out }.

Lemma m_take_ok m n : let '(o, m') := m_take m n in m_op m' = m_op m /\
  match o with Some bs => length bs = n /\ m_bytes (m_in m) = bs ++ m_bytes (m_in m') | None => (length (m_bytes (m_in m)) < n)%nat end.
Proof.
  unfold m_take, m_bytes. destruct (decide _) as [Hn|Hn]; cbn.
  - split; [done|]. split; [rewrite length_fmap, length_take; lia|]. by rewrite <- fmap_app, take_drop.
  - split; [done|]. rewrite length_fmap. lia.
Qed.

Lemma m_bytes_bytes l : Forall is_byte (m_bytes l).
Proof. apply Forall_fmap, Forall_forall. intros b _. unfold is_byte. cbn. apply Z.mod_pos_bound. lia. Qed.

Lemma m_getlong (m : mem) : let '(o, m') := XDR_GETLONG m in m_op m' = m_op m /\
  match o with Some v => exists bs, length bs = 4%nat /\ m_bytes (m_in m) = bs ++ m_bytes (m_in m') /\ v mod 2 ^ 32 = unbe bs | None => (length (m_bytes (m_in m)) < 4)%nat end.
Proof.
  cbn [XDR_GETLONG mem_ops]. pose proof (m_take_ok m 4) as L. destruct (m_take m 4) as [[bs|] m'] eqn:E; destruct L as [L1 L2]; (split; [done|]); [|done].
  exists bs. split_and!; try apply L2. unfold as_signed. rewrite Zminus_mod_idemp_l. replace (unbe bs + 2 ^ (32 - 1) - 2 ^ (32 - 1)) with (unbe bs) by lia.
  apply Z.mod_small. destruct L2 as [Hl Hb]. pose proof (unbe_range bs) as Hr. rewrite Hl in Hr. apply Hr. unfold m_take in E. destruct (decide _); [|done]. injection E as <- _. apply m_bytes_bytes.
Qed.

#[export] Instance mem_stream : XdrStream mem.
Proof.
  unshelve refine {| written := m_out; unread m := m_bytes (m_in m); sure _ := true; in_memory _ := true |}.
  - done.
  - done.
  - intros m Hm _. cbn [x_op mem_ops] in *. pose proof (m_getlong m) as L. destruct (XDR_GETLONG m) as [o m']. destruct L. split; [congruence|]. by split.
  - intros m n Hm _. cbn [x_op XDR_GETBYTES mem_ops] in *. pose proof (m_take_ok m n) as L. destruct (m_take m n) as [o m']. destruct L. split; [congruence|]. by split.
  - intros m n Hm _ Hn _. cbn [x_op XDR_INLINE mem_ops] in *. pose proof (m_take_ok m (Z.to_nat n)) as L. destruct (m_take m (Z.to_nat n)) as [[bs|] m']; destruct L as [L1 L2]; (split; [congruence|]); (split; [done|]).
    + split; [lia|apply L2].
    + lia.
  - intros m. apply m_bytes_bytes.
  - done.
  - intros s Hs _. split; [done|]. split; [done|]. cbn. unfold m_bytes. rewrite <- (list_fmap_id s) at 2. apply list_fmap_ext. intros i b Hb. cbn. rewrite Forall_forall in Hs.
    apply Z.mod_small, Hs. by eapply list_elem_of_lookup_2.
Defined.

(** A vector of at most three pointers to strings of at most ten characters, with the two elements that point to a string and nowhere. *)
Definition strings : ty := Vec (Ptr (Str 10)) 3.
Definition some_strings : type_of strings := RpcVec false [Some (Some [104; 105]); None].
Definition other_strings : type_of strings := RpcVec false [None; None; Some (Some [])].

Lemma some_strings_wf : ty_ok strings /\ (wf strings some_strings /\ owned strings some_strings) /\ wf strings other_strings /\ owned strings other_strings.
Proof. cbn. unfold size, is_byte. cbn. split_and!; try done; repeat constructor; try lia; try decide_now. Qed.

Lemma xdr_roundtrip_witness : xdr2str (X := mem) some_strings = Ok (Some [0; 0; 0; 2; 0; 0; 0; 1; 0; 0; 0; 2; 104; 105; 0; 0; 0; 0; 0; 0]) /\
  str2xdr (X := mem) other_strings [0; 0; 0; 2; 0; 0; 0; 1; 0; 0; 0; 2; 104; 105; 0; 0; 0; 0; 0; 0] = Ok (true, some_strings).
Proof.
  destruct some_strings_wf as [Ht [[H1 H2] [H3 H4]]].
  destruct (xdr_roundtrip (X := mem) strings some_strings other_strings [] 100 (RpcVec false []) Ht H1 H2 H3 H4) as (E1 & _ & E2 & _); [by apply Forall_nil|done|vm_compute; done|].
  split; [exact E1|exact E2].
Defined.

(** Half a vector: the first element is decoded and kept. *)
Lemma xdr_decode_safe_witness : exists b o', str2xdr (X := mem) other_strings [0; 0; 0; 3; 0; 0; 0; 1; 0; 0; 0; 1; 65; 0; 0; 0; 0; 0; 0; 1; 255; 255; 255; 255] = Ok (b, o') /\
  b = false /\ o' = RpcVec false [Some (Some [65]); Some (Some []); Some (Some [])] /\ wf strings o'.
Proof.
  destruct (xdr_decode_safe (X := mem) strings other_strings [0; 0; 0; 3; 0; 0; 0; 1; 0; 0; 0; 1; 65; 0; 0; 0; 0; 0; 0; 1; 255; 255; 255; 255]) as (b & o' & E & Hw & _).
  - apply some_strings_wf.
  - repeat (apply Forall_cons; split; [unfold is_byte; lia|]). by apply Forall_nil.
  - apply some_strings_wf.
  - apply some_strings_wf.
  - exists b, o'. split; [exact E|]. vm_compute in E. injection E as <- <-. by split_and!.
Defined.

Lemma rpc_clear_correct_witness : rpc_clear some_strings = Ok (RpcVec false []).
Proof. destruct some_strings_wf as [Ht [[H1 H2] _]]. exact (rpc_clear_correct strings some_strings Ht H1 H2). Defined.

(** A string that is [NULL] is not encoded, although the words before it were written. *)
Lemma null_string_fails : xdr2str (X := mem) (T := rpc_str 10) None = Ok None.
Proof. done. Qed.

(** Of a number whose low half has the sign bit, [xdr_gethyper] makes one whose high half is all ones, for [long] has 64 bits and what [XDR_GETLONG] leaves in it is signed. *)
Lemma gethyper_loses_high_half : let '(b, m) := xdr_puthyper (Mem XDR_ENCODE [] []) (2 ^ 33 + 2 ^ 31) in
  b = true /\ (xdr_gethyper (Mem XDR_DECODE [] (m_out m))).1 = Some (2 ^ 64 - 2 ^ 31).
Proof. by vm_compute. Qed.
