(* ===== verification/Timespec.v ===== *)
(** The arithmetic of times of src/deps/sfslite-1.2/amisc.h and the macros of litetime.h. *)
From S2P Require Import Prelude.
#[local] Open Scope Z_scope.

(** * The code *)
Record timespec : Type := Ts { tv_sec : Z; tv_nsec : Z }.
(** Sums and differences of [time_t] and [long], which have 64 bits. *)
Definition ckl (z : Z) : res Z := if decide (- 2 ^ 63 <= z < 2 ^ 63) then Ok z else Stop Overflow.

Definition ts_eqb (a b : timespec) : bool := (tv_nsec a =? tv_nsec b) && (tv_sec a =? tv_sec b).
Definition tscmp (a b : timespec) : Z :=
  if tv_sec a <? tv_sec b then -1
  else if tv_sec b <? tv_sec a then 1
  else if tv_nsec a <? tv_nsec b then -1
  else Z.b2z (tv_nsec b <? tv_nsec a).
Definition ts_ltb (a b : timespec) : bool := tscmp a b <? 0.
Definition ts_leb (a b : timespec) : bool := tscmp a b <=? 0.

Definition ts_add (a b : timespec) : res timespec :=
  s ← ckl (tv_sec a + tv_sec b);
  n ← ckl (tv_nsec a + tv_nsec b);
  if 1000000000 <? n then n ← ckl (n - 1000000000); s ← ckl (s + 1); Ok (Ts s n) else Ok (Ts s n).
Definition ts_sub (a b : timespec) : res timespec :=
  s ← ckl (tv_sec a - tv_sec b);
  if tv_nsec b <? tv_nsec a then n ← ckl (tv_nsec a - tv_nsec b); Ok (Ts s n)
  else n ← ckl (tv_nsec a + 1000000000); n ← ckl (n - tv_nsec b); s ← ckl (s - 1); Ok (Ts s n).

(** The macros of litetime.h. *)
Definition TIMESPEC_INC (ts : timespec) : res timespec :=
  n ← ckl (tv_nsec ts + 1);
  if n =? 1000000000 then s ← ckl (tv_sec ts + 1); Ok (Ts s 0) else Ok (Ts (tv_sec ts) n).
Definition TIMESPEC_LT (a b : timespec) : bool := (tv_sec a <? tv_sec b) || ((tv_sec a =? tv_sec b) && (tv_sec a <? tv_sec b)).
Definition TIMESPEC_EQ (a b : timespec) : bool := (tv_sec a =? tv_sec b) && (tv_nsec a =? tv_nsec b).

(** * Specification *)

(** In nanoseconds; a time is normal if its nanoseconds are less than a second. *)
Definition nanos (a : timespec) : Z := tv_sec a * 1000000000 + tv_nsec a.
Definition normal (a : timespec) : Prop := 0 <= tv_nsec a < 1000000000.
#[export] Instance normal_dec a : Decision (normal a).
Proof. unfold normal. apply _. Defined.

Lemma ckl_ok z : - 2 ^ 63 <= z < 2 ^ 63 -> ckl z = Ok z.
Proof. intros Hz. unfold ckl. by rewrite decide_True. Qed.

(** The comparisons order normal times by their nanoseconds; [+], [-] and [TIMESPEC_INC] give the sum, the difference and the next nanosecond, and normal times, but for [+] where the nanoseconds
    make a second exactly and for [-] where they are the same: these have a whole second in [tv_nsec]. *)
Theorem timespec_correct a b : normal a -> normal b -> Z.abs (tv_sec a) < 2 ^ 61 -> Z.abs (tv_sec b) < 2 ^ 61 ->
  tscmp a b = Z.sgn (nanos a - nanos b) /\ ts_ltb a b = (nanos a <? nanos b) /\ ts_leb a b = (nanos a <=? nanos b) /\ ts_eqb a b = (nanos a =? nanos b) /\ TIMESPEC_EQ a b = (nanos a =? nanos b) /\
  (exists c, ts_add a b = Ok c /\ nanos c = nanos a + nanos b /\ (normal c <-> tv_nsec a + tv_nsec b <> 1000000000)) /\
  (exists c, ts_sub a b = Ok c /\ nanos c = nanos a - nanos b /\ (normal c <-> tv_nsec a <> tv_nsec b)) /\
  (exists c, TIMESPEC_INC a = Ok c /\ nanos c = nanos a + 1 /\ normal c).
Proof.
  destruct a as [s n], b as [t m]. unfold normal, nanos. cbn [tv_sec tv_nsec]. intros Hn Hm Hs Ht.
  assert (Hc : tscmp (Ts s n) (Ts t m) = Z.sgn (s * 1000000000 + n - (t * 1000000000 + m))).
  { unfold tscmp. cbn [tv_sec tv_nsec]. destruct (Z.ltb_spec s t); [symmetry; apply Z.sgn_neg; lia|]. destruct (Z.ltb_spec t s); [symmetry; apply Z.sgn_pos; lia|].
    destruct (Z.ltb_spec n m); [symmetry; apply Z.sgn_neg; lia|]. destruct (Z.ltb_spec m n); [symmetry; apply Z.sgn_pos; lia|]. symmetry. apply Z.sgn_null_iff. lia. }
  split; [exact Hc|]. unfold ts_ltb, ts_leb. rewrite Hc. split; [apply eq_true_iff_eq; rewrite !Z.ltb_lt; lia|]. split; [apply eq_true_iff_eq; rewrite !Z.leb_le; lia|].
  unfold ts_eqb, TIMESPEC_EQ, ts_add, ts_sub, TIMESPEC_INC. cbn [tv_sec tv_nsec]. split; [apply eq_true_iff_eq; rewrite andb_true_iff, !Z.eqb_eq; lia|].
  split; [apply eq_true_iff_eq; rewrite andb_true_iff, !Z.eqb_eq; lia|]. rewrite !(ckl_ok (s + t)), !(ckl_ok (n + m)), !(ckl_ok (s - t)), !(ckl_ok (n + 1)) by lia. cbn [mbind res_bind]. split_and!.
  - destruct (Z.ltb_spec 1000000000 (n + m)); rewrite ?ckl_ok by lia; cbn [mbind res_bind]; rewrite ?ckl_ok by lia; eexists; (split; [done|]); cbn [tv_sec tv_nsec]; lia.
  - destruct (Z.ltb_spec m n); [rewrite ckl_ok by lia|rewrite (ckl_ok (n + _)) by lia]; cbn [mbind res_bind]; rewrite ?ckl_ok by lia; cbn [mbind res_bind]; rewrite ?ckl_ok by lia; eexists; (split; [done|]); cbn [tv_sec tv_nsec]; lia.
  - destruct (Z.eqb_spec (n + 1) 1000000000); rewrite ?ckl_ok by lia; cbn [mbind res_bind]; eexists; (split; [done|]); cbn [tv_sec tv_nsec]; lia.
Qed.

Lemma timespec_correct_witness : exists c, ts_sub (Ts 5 200) (Ts 3 400) = Ok c /\ nanos c = 1999999800 /\ normal c.
Proof.
  destruct (timespec_correct (Ts 5 200) (Ts 3 400)) as (_ & _ & _ & _ & _ & _ & (c & E & Hc & Hn) & _); [decide_now|decide_now|cbn; lia|cbn; lia|].
  exists c. split; [exact E|]. split; [exact Hc|]. apply Hn. cbn. lia.
Defined.

(** The difference of a time and itself is not the time 0 of the comparisons, a sum that is a whole number of seconds is not equal to the same time made otherwise, and [TIMESPEC_LT] does not look at
    the nanoseconds at all. *)
Lemma ts_sub_self : ts_sub (Ts 7 5) (Ts 7 5) = Ok (Ts (-1) 1000000000) /\ ts_eqb (Ts (-1) 1000000000) (Ts 0 0) = false.
Proof. done. Qed.
Lemma ts_add_whole : ts_add (Ts 1 500000000) (Ts 1 500000000) = Ok (Ts 2 1000000000) /\ ts_ltb (Ts 2 1000000000) (Ts 3 0) = true.
Proof. done. Qed.
Lemma TIMESPEC_LT_seconds a b : TIMESPEC_LT a b = (tv_sec a <? tv_sec b).
Proof. unfold TIMESPEC_LT. destruct (tv_sec a <? tv_sec b); [done|]. by rewrite andb_false_r. Qed.
