(* ===== verification/Swaps.v ===== *)
(** Arrays that change by [std::swap] only: a swap permutes, and a sequence of swaps inside a range keeps what lies outside
    and every fact that holds of all the elements inside.  Shared by the sorts of src/src/algs/cti. *)
From S2P Require Import Prelude.

(** [std::swap(a[i], a[j])] *)
Definition std_swap (a : list Z) (i j : Z) : res (list Z) :=
  x ← aget a i; y ← aget a j; a ← aset a i y; aset a j x.

Definition swap_els (a : list Z) (i j : nat) : list Z := <[j := a !!! i]> (<[i := a !!! j]> a).

Lemma aget_total (a : list Z) (i : nat) : i < length a -> aget a (Z.of_nat i) = Ok (a !!! i).
Proof. intros Hi. apply aget_nat. by apply list_lookup_lookup_total_lt. Qed.

Lemma std_swap_ok a (i j : nat) : i < length a -> j < length a -> std_swap a (Z.of_nat i) (Z.of_nat j) = Ok (swap_els a i j).
Proof.
  intros Hi Hj. unfold std_swap. rewrite !aget_total by done. cbn [mbind res_bind]. rewrite aset_nat by done. cbn [mbind res_bind].
  by rewrite aset_nat by (by rewrite length_insert).
Qed.

Lemma length_swap_els a i j : length (swap_els a i j) = length a.
Proof. unfold swap_els. by rewrite !length_insert. Qed.

Lemma swap_els_l a i j : i < length a -> j < length a -> swap_els a i j !!! i = a !!! j.
Proof.
  intros Hi Hj. unfold swap_els. destruct (decide (i = j)) as [->|Hne]; [by rewrite list_lookup_total_insert_eq by (by rewrite length_insert)|].
  rewrite list_lookup_total_insert_ne by done. by apply list_lookup_total_insert_eq.
Qed.
Lemma swap_els_r a i j : i < length a -> j < length a -> swap_els a i j !!! j = a !!! i.
Proof. intros Hi Hj. unfold swap_els. by rewrite list_lookup_total_insert_eq by (by rewrite length_insert). Qed.
Lemma swap_els_ne a i j k : k <> i -> k <> j -> swap_els a i j !!! k = a !!! k.
Proof. intros Hi Hj. unfold swap_els. by rewrite !list_lookup_total_insert_ne by done. Qed.

Lemma swap_els_perm a i j : i < length a -> j < length a -> swap_els a i j ≡ₚ a.
Proof.
  intros Hi Hj. apply Permutation_inj. split; [apply length_swap_els|].
  exists (fun k => if decide (k = i) then j else if decide (k = j) then i else k). split.
  - intros x y E. repeat case_decide; congruence.
  - intros k. destruct (decide (k < length a)) as [Hk|Hk].
    + rewrite (list_lookup_lookup_total_lt (swap_els a i j)) by (by rewrite length_swap_els). repeat case_decide; subst.
      * rewrite swap_els_l by done. symmetry. by apply list_lookup_lookup_total_lt.
      * rewrite swap_els_r by done. symmetry. by apply list_lookup_lookup_total_lt.
      * rewrite swap_els_ne by done. symmetry. by apply list_lookup_lookup_total_lt.
    + rewrite lookup_ge_None_2 by (rewrite length_swap_els; lia). repeat case_decide; [lia..|]. symmetry. apply lookup_ge_None_2. lia.
Qed.

(** [a'] comes from [a] by swaps of elements from [lo] below [hi]. *)
Inductive swaps (lo hi : nat) : list Z -> list Z -> Prop :=
| swaps_refl a : swaps lo hi a a
| swaps_step a a' i j : swaps lo hi a a' -> lo <= i < hi -> lo <= j < hi -> hi <= length a' -> swaps lo hi a (swap_els a' i j).

Lemma swaps_trans lo hi a b c : swaps lo hi a b -> swaps lo hi b c -> swaps lo hi a c.
Proof. intros Hab. induction 1 as [b|b c i j _ IH Hi Hj Hh]; [done|]. constructor; auto. Qed.

Lemma swaps_one lo hi a i j : lo <= i < hi -> lo <= j < hi -> hi <= length a -> swaps lo hi a (swap_els a i j).
Proof. intros Hi Hj Hh. apply (swaps_step lo hi a a); [constructor|done..]. Qed.

Lemma swaps_length lo hi a b : swaps lo hi a b -> length b = length a.
Proof. induction 1 as [|a b i j _ IH]; [done|]. by rewrite length_swap_els. Qed.

Lemma swaps_perm lo hi a b : swaps lo hi a b -> b ≡ₚ a.
Proof. induction 1 as [|a b i j _ IH Hi Hj Hh]; [done|]. rewrite swap_els_perm by lia. done. Qed.

Lemma swaps_wider lo hi lo' hi' a b : swaps lo hi a b -> lo' <= lo -> hi <= hi' -> hi' <= length a -> swaps lo' hi' a b.
Proof.
  intros Hs Hl Hh Hn. induction Hs as [|a b i j Hs IH Hi Hj Hb]; [constructor|]. pose proof (swaps_length _ _ _ _ Hs). constructor; [by apply IH|lia..].
Qed.

Lemma swaps_out lo hi a b k : swaps lo hi a b -> ~ (lo <= k < hi) -> b !!! k = a !!! k.
Proof. induction 1 as [|a b i j _ IH Hi Hj Hh]; intros Hk; [done|]. rewrite swap_els_ne by lia. by apply IH. Qed.

(** What holds of every element of a range still does. *)
Lemma swaps_all lo hi a b (P : Z -> Prop) : swaps lo hi a b -> (forall k, lo <= k < hi -> P (a !!! k)) -> forall k, lo <= k < hi -> P (b !!! k).
Proof.
  induction 1 as [|a b i j _ IH Hi Hj Hh]; intros Hall k Hk; [by apply Hall|]. specialize (IH Hall).
  destruct (decide (k = j)) as [->|Hkj]; [rewrite swap_els_r by lia; by apply IH|].
  destruct (decide (k = i)) as [->|Hki]; [rewrite swap_els_l by lia; by apply IH|]. rewrite swap_els_ne by done. by apply IH.
Qed.

(** The elements from [lo] below [hi] are in order. *)
Definition sorted_in (lo hi : nat) (a : list Z) : Prop := forall i j, lo <= i -> i <= j -> j < hi -> (a !!! i <= a !!! j)%Z.

Lemma sorted_in_whole a : sorted_in 0 (length a) a -> StronglySorted Z.le a.
Proof.
  induction a as [|x a IH]; intros Hs; [constructor|]. constructor.
  - apply IH. intros i j H1 H2 H3. apply (Hs (S i) (S j)); cbn; lia.
  - rewrite Forall_lookup. intros i y Ei. rewrite <- (list_lookup_total_correct a i y Ei). apply lookup_lt_Some in Ei. apply (Hs 0 (S i)); cbn; lia.
Qed.

Lemma sorted_in_app lo mid hi a : lo <= mid -> mid <= hi -> sorted_in lo mid a -> sorted_in mid hi a ->
  (forall i j, lo <= i < mid -> mid <= j < hi -> (a !!! i <= a !!! j)%Z) -> sorted_in lo hi a.
Proof.
  intros Hl Hh S1 S2 Hx i j H1 H2 H3. destruct (Nat.lt_ge_cases j mid); [by apply S1|]. destruct (Nat.lt_ge_cases i mid); [apply Hx; lia|]. by apply S2.
Qed.

(** The two children of an element of a heap. *)
Lemma half_of k i : k / 2 = i <-> k = 2 * i \/ k = 2 * i + 1.
Proof.
  pose proof (Nat.div_mod_eq k 2). pose proof (Nat.mod_upper_bound k 2 ltac:(lia)).
  assert (k mod 2 = 0 \/ k mod 2 = 1) as [E|E] by lia; rewrite E in *; lia.
Qed.
