(* ===== verification/HeapSort.v ===== *)
(** Heap sort: [max_heapify], [build_max_heap] and [heap_sort] of src/src/algs/cti/test_cti_heap.cpp, on a vector of [int].
    The children of element [i] are [2 * i] and [2 * i + 1] counted from 0, so element 0 has the one child 1. *)
From S2P Require Import Prelude Swaps.

Fixpoint max_heapify (fuel : nat) (a : list Z) (size i : Z) : res (list Z) :=
  match fuel with
  | O => Stop OutOfFuel
  | S fuel =>
    l ← ck (2 * i);
    largest ← (if (l <? size)%Z then x ← aget a l; y ← aget a i; Ok (if (y <? x)%Z then l else i) else Ok i);
    r ← ck (2 * i + 1);
    largest ← (if (r <? size)%Z then x ← aget a r; y ← aget a largest; Ok (if (y <? x)%Z then r else largest) else Ok largest);
    if (largest =? i)%Z then Ok a
    else a ← std_swap a largest i; max_heapify fuel a size largest
  end.

(** Enough for a heap of [size] elements: the index grows with each call. *)
Definition heap_fuel (size : Z) : nat := S (Z.to_nat size).

(** The loop with [n] rounds left: [i] goes down from [n - 1] to 0. *)
Fixpoint build_loop (n : nat) (a : list Z) (size : Z) : res (list Z) :=
  match n with O => Ok a | S n => a ← max_heapify (heap_fuel size) a size (Z.of_nat n); build_loop n a size end.
Definition build_max_heap (a : list Z) (size : Z) : res (list Z) := build_loop (Z.to_nat (Z.quot size 2)) a size.

(** The loop with [n] rounds left: [i] goes down from [n] to 1, and [size] is [i + 1] before each round. *)
Fixpoint sort_loop (n : nat) (a : list Z) (size : Z) : res (list Z) :=
  match n with
  | O => Ok a
  | S n' => a ← std_swap a (Z.of_nat n) 0;
            let size := (size - 1)%Z in
            a ← max_heapify (heap_fuel size) a size 0; sort_loop n' a size
  end.
Definition heap_sort (a : list Z) (size : Z) : res (list Z) := a ← build_max_heap a size; sort_loop (Z.to_nat (size - 1)) a size.

(** * The order of a heap *)

(** Below [size], what hangs under an element from [lo] on is not greater than it. *)
Definition heap_from (lo size : nat) (a : list Z) : Prop := forall k, 0 < k < size -> lo <= k / 2 -> (a !!! k <= a !!! (k / 2)%nat)%Z.
(** The same except under element [i], whose children still respect its parent. *)
Definition heap_but (lo size i : nat) (a : list Z) : Prop :=
  (forall k, 0 < k < size -> lo <= k / 2 -> k / 2 <> i -> (a !!! k <= a !!! (k / 2)%nat)%Z) /\
  (forall k, 0 < k < size -> k / 2 = i -> lo <= i / 2 -> 0 < i -> (a !!! k <= a !!! (i / 2)%nat)%Z).

Lemma heap_but_done lo size i a : heap_but lo size i a -> (forall k, 0 < k < size -> k / 2 = i -> (a !!! k <= a !!! i)%Z) -> heap_from lo size a.
Proof. intros [H1' _] Hi k Hk Hl. destruct (decide (k / 2 = i)) as [E|E]; [rewrite E; by apply Hi|by apply H1']. Qed.

(** Swapping element [i] with its larger child moves the exception down. *)
Lemma heap_but_down lo size i j a : heap_but lo size i a -> size <= length a -> lo <= i -> i < size -> 0 < j < size -> j / 2 = i -> j <> i ->
  (a !!! i < a !!! j)%Z -> (forall k, 0 < k < size -> k / 2 = i -> (a !!! k <= a !!! j)%Z) -> heap_but lo size j (swap_els a j i).
Proof.
  intros [H1' H2'] Hn Hlo Hi Hj Ej Hne Hlt Hmax. pose proof (proj1 (half_of j i) Ej). split.
  - intros k Hk Hl Hkj. destruct (decide (k = j)) as [->|Hk1].
    { rewrite Ej, swap_els_l, swap_els_r by lia. lia. }
    destruct (decide (k / 2 = i)) as [E|E].
    + rewrite E, swap_els_r by lia. rewrite swap_els_ne; [by apply Hmax|done|]. intros ->. apply half_of in E. lia.
    + destruct (decide (k = i)) as [->|Hk2].
      * rewrite swap_els_r by lia. rewrite swap_els_ne by (pose proof (Nat.div_lt i 2); lia). apply H2'; done || lia.
      * rewrite !swap_els_ne by lia. by apply H1'.
  - intros k Hk E Hl Hj0. rewrite Ej, swap_els_r by lia. pose proof (proj1 (half_of k j) E).
    rewrite swap_els_ne by lia. rewrite <- E. apply H1'; rewrite ?E; lia.
Qed.

(** [max_heapify] orders the heap from [lo] on when only element [i] may be out of order, by swaps from [lo] below [size]. *)
Lemma max_heapify_ok fuel a size i lo : size <= length a -> (Z.of_nat size <= 2 ^ 30)%Z -> lo <= i < size -> size - i < fuel -> heap_but lo size i a ->
  exists a', max_heapify fuel a (Z.of_nat size) (Z.of_nat i) = Ok a' /\ swaps lo size a a' /\ heap_from lo size a'.
Proof.
  revert a i. induction fuel as [|fuel IH]; intros a i Hn Hs Hi Hf HB; [lia|]. cbn [max_heapify].
  rewrite !ck_ok by (unfold is_int, INT_MAX, INT_MIN; lia). cbn [mbind res_bind].
  set (left_step := if (2 * Z.of_nat i <? Z.of_nat size)%Z then _ else _).
  assert (Hleft : exists l, left_step = Ok (Z.of_nat l) /\ (l = i \/ l = 2 * i /\ 2 * i < size) /\ (a !!! i <= a !!! l)%Z /\ (2 * i < size -> (a !!! (2 * i)%nat <= a !!! l)%Z) /\ (l <> i -> (a !!! i < a !!! l)%Z)).
  { subst left_step. destruct (Z.ltb_spec (2 * Z.of_nat i) (Z.of_nat size)) as [Hl|Hl]; [|exists i; split_and!; [done|by left|lia..]].
    replace (2 * Z.of_nat i)%Z with (Z.of_nat (2 * i)) by lia. rewrite !aget_total by lia. cbn [mbind res_bind].
    destruct (Z.ltb_spec (a !!! i) (a !!! (2 * i)%nat)) as [Hc|Hc]; [exists (2 * i)|exists i]; (split_and!; [done|lia..]). }
  destruct Hleft as (l & -> & Hl & Hl1 & Hl2 & Hl3). cbn [mbind res_bind].
  set (right_step := if (2 * Z.of_nat i + 1 <? Z.of_nat size)%Z then _ else _).
  assert (Hright : exists j, right_step = Ok (Z.of_nat j) /\ (j = i \/ j / 2 = i /\ 0 < j < size) /\ (j <> i -> (a !!! i < a !!! j)%Z) /\ (forall k, 0 < k < size -> k / 2 = i -> (a !!! k <= a !!! j)%Z)).
  { subst right_step. assert (Hdown : forall m, (a !!! l <= a !!! m)%Z -> (2 * i + 1 < size -> (a !!! (2 * i + 1)%nat <= a !!! m)%Z) -> forall k, 0 < k < size -> k / 2 = i -> (a !!! k <= a !!! m)%Z).
    { intros m Hm1 Hm2 k Hk E. apply half_of in E as [-> | ->]; [specialize (Hl2 ltac:(lia)); lia|apply Hm2; lia]. }
    destruct (Z.ltb_spec (2 * Z.of_nat i + 1) (Z.of_nat size)) as [Hr|Hr].
    - replace (2 * Z.of_nat i + 1)%Z with (Z.of_nat (2 * i + 1)) by lia. rewrite !aget_total by lia. cbn [mbind res_bind].
      destruct (Z.ltb_spec (a !!! l) (a !!! (2 * i + 1)%nat)) as [Hc|Hc].
      + exists (2 * i + 1). split_and!; [done| |lia|apply Hdown; lia]. right. split; [apply half_of; lia|lia].
      + exists l. split_and!; [done| |done|apply Hdown; lia]. destruct Hl as [->|[-> Hl]]; [by left|]. destruct (decide (i = 0)); [left; lia|right]. split; [apply half_of; lia|lia].
    - exists l. split_and!; [done| |done|apply Hdown; lia]. destruct Hl as [->|[-> Hl]]; [by left|]. destruct (decide (i = 0)); [left; lia|right]. split; [apply half_of; lia|lia]. }
  destruct Hright as (j & -> & Hj & Hgt & Hmax). cbn [mbind res_bind].
  destruct (Z.eqb_spec (Z.of_nat j) (Z.of_nat i)) as [E|E].
  - assert (j = i) as -> by lia. exists a. split_and!; [done|constructor|]. by apply (heap_but_done lo size i).
  - destruct Hj as [->|[Ej Hj]]; [done|]. pose proof (proj1 (half_of j i) Ej). rewrite std_swap_ok by lia. cbn [mbind res_bind].
    destruct (IH (swap_els a j i) j) as (a' & -> & Hsw & HF); [by rewrite length_swap_els|done|lia|lia| |].
    + apply heap_but_down; try done; try lia.
    + exists a'. split_and!; [done| |done]. eapply swaps_trans; [|done]. apply swaps_one; lia.
Qed.

Lemma heap_from_but lo size a : heap_from (S lo) size a -> heap_but lo size lo a.
Proof.
  intros HF. split; [intros k Hk Hl Hne; apply HF; lia|]. intros k Hk E Hl H0. pose proof (Nat.div_lt lo 2). lia.
Qed.

Lemma build_loop_ok n a size : size <= length a -> (Z.of_nat size <= 2 ^ 30)%Z -> n <= size -> heap_from n size a ->
  exists a', build_loop n a (Z.of_nat size) = Ok a' /\ swaps 0 size a a' /\ heap_from 0 size a'.
Proof.
  revert a. induction n as [|n IH]; intros a Hn Hs Hle HF; [exists a; split_and!; [done|constructor|done]|]. cbn [build_loop].
  destruct (max_heapify_ok (heap_fuel (Z.of_nat size)) a size n n) as (a1 & -> & S1 & F1); try done; [unfold heap_fuel; lia|by apply heap_from_but|].
  cbn [mbind res_bind]. pose proof (swaps_length _ _ _ _ S1). destruct (IH a1) as (a2 & -> & S2 & F2); [lia|done|lia|done|].
  exists a2. split_and!; [done| |done]. apply (swaps_trans _ _ _ a1); [|done]. apply (swaps_wider n size); [done|lia..].
Qed.

(** For an even size every element with a child is heapified. *)
Lemma build_max_heap_ok a n : 2 * n <= length a -> (Z.of_nat (2 * n) <= 2 ^ 30)%Z ->
  exists a', build_max_heap a (Z.of_nat (2 * n)) = Ok a' /\ swaps 0 (2 * n) a a' /\ heap_from 0 (2 * n) a'.
Proof.
  intros Hn Hs. unfold build_max_heap. rewrite Z.quot_div_nonneg by lia. replace (Z.of_nat (2 * n) / 2)%Z with (Z.of_nat n) by (apply Z.div_unique_exact; lia).
  rewrite Nat2Z.id. apply build_loop_ok; [done|done|lia|]. intros k Hk Hl. assert (k / 2 < n) by (apply Nat.Div0.div_lt_upper_bound; lia). lia.
Qed.

Lemma heap_top size a k : heap_from 0 size a -> k < size -> (a !!! k <= a !!! 0%nat)%Z.
Proof.
  intros HF. induction k as [k IH] using lt_wf_ind. intros Hk. destruct (decide (k = 0)) as [->|Hne]; [lia|].
  etrans; [apply HF; lia|]. apply IH; [apply Nat.div_lt; lia|]. pose proof (Nat.div_lt k 2). lia.
Qed.

(** With the largest element exchanged for the last, the rest is a heap but for its root. *)
Lemma heap_pop n a : heap_from 0 (S n) a -> S n <= length a -> 0 < n -> heap_but 0 n 0 (swap_els a n 0).
Proof.
  intros HF Hn H0. split; [|intros; lia]. intros k Hk _ Hne. pose proof (Nat.div_lt k 2 ltac:(lia) ltac:(lia)). rewrite !swap_els_ne by lia. apply HF; lia.
Qed.

Lemma heap_sort_loop_ok n a len : heap_from 0 (S n) a -> S n <= len -> len <= length a -> (Z.of_nat len <= 2 ^ 30)%Z -> sorted_in (S n) len a ->
  (forall i j, i < S n -> S n <= j < len -> (a !!! i <= a !!! j)%Z) ->
  exists a', sort_loop n a (Z.of_nat (S n)) = Ok a' /\ swaps 0 len a a' /\ sorted_in 0 len a'.
Proof.
  revert a. induction n as [|n IH]; intros a HF Hl Hn Hs HS HX.
  { exists a. split_and!; [done|constructor|]. apply (sorted_in_app 0 1 len); [lia|lia| |done|intros i j Hi Hj; apply HX; lia].
    intros i j H1' H2' H3'. assert (i = 0) as -> by lia. assert (j = 0) as -> by lia. lia. }
  cbn [sort_loop]. change 0%Z with (Z.of_nat 0). rewrite std_swap_ok by lia. cbn [mbind res_bind].
  replace (Z.of_nat (S (S n)) - 1)%Z with (Z.of_nat (S n)) by lia.
  set (b := swap_els a (S n) 0). assert (Sb : swaps 0 len a b) by (apply swaps_one; lia). pose proof (swaps_length _ _ _ _ Sb) as Lb.
  destruct (max_heapify_ok (heap_fuel (Z.of_nat (S n))) b (S n) 0 0) as (a1 & E1 & S1 & F1); [lia|lia|lia|unfold heap_fuel; lia|by apply heap_pop; [|lia..]|].
  rewrite E1. cbn [mbind res_bind]. pose proof (swaps_length _ _ _ _ S1) as L1.
  assert (Hout : forall k, S n <= k -> a1 !!! k = b !!! k) by (intros k Hk; apply (swaps_out _ _ _ _ _ S1); lia).
  assert (Hb : forall k, S n < k -> b !!! k = a !!! k) by (intros k Hk; apply swap_els_ne; lia).
  assert (Hbn : b !!! S n = a !!! 0) by (apply swap_els_l; lia).
  assert (Hin : forall v, (forall k, k < S (S n) -> (a !!! k <= v)%Z) -> forall k, k < S n -> (a1 !!! k <= v)%Z).
  { intros v Hv k Hk. apply (swaps_all 0 (S n) b a1 (fun z => (z <= v)%Z) S1); [|lia]. intros j Hj.
    apply (swaps_all 0 (S (S n)) a b (fun z => (z <= v)%Z)); [apply swaps_one; lia|intros i Hi; apply Hv; lia|lia]. }
  destruct (IH a1) as (a2 & E2 & S2 & F2); [done|lia|lia|done| | |].
  - apply (sorted_in_app (S n) (S (S n)) len); [lia|lia| | |].
    + intros i j H1' H2' H3'. assert (i = S n) as -> by lia. assert (j = S n) as -> by lia. lia.
    + intros i j H1' H2' H3'. rewrite !Hout, !Hb by lia. by apply HS.
    + intros i j Hi Hj. assert (i = S n) as -> by lia. rewrite !Hout, Hbn, Hb by lia. apply HX; lia.
  - intros i j Hi Hj. rewrite (Hout j) by lia. destruct (decide (j = S n)) as [->|Hne].
    + rewrite Hbn. apply Hin; [|done]. intros k Hk. by apply (heap_top (S (S n))).
    + rewrite Hb by lia. apply Hin; [|done]. intros k Hk. apply HX; lia.
  - exists a2. split_and!; [done| |done]. apply (swaps_trans _ _ _ b); [done|]. apply (swaps_trans _ _ _ a1); [|done]. apply (swaps_wider 0 (S n)); [done|lia..].
Qed.

(** [heap_sort] of an even number of elements, within the range of [int], sorts the array and keeps its elements. *)
Theorem heap_sort_correct a : Nat.Even (length a) -> (Z.of_nat (length a) <= 2 ^ 30)%Z ->
  exists a', heap_sort a (Z.of_nat (length a)) = Ok a' /\ a' ≡ₚ a /\ StronglySorted Z.le a'.
Proof.
  intros [n En] Hs. unfold heap_sort. rewrite En in *. destruct (build_max_heap_ok a n) as (a1 & -> & S1 & F1); [lia|done|]. cbn [mbind res_bind].
  pose proof (swaps_length _ _ _ _ S1) as L1. destruct n as [|n].
  { exists a1. split_and!; [done|by apply (swaps_perm _ _ _ _ S1)|]. destruct a1; [constructor|cbn in *; lia]. }
  replace (2 * S n) with (S (2 * n + 1)) in * by lia. replace (Z.to_nat (Z.of_nat (S (2 * n + 1)) - 1)) with (2 * n + 1) by lia.
  destruct (heap_sort_loop_ok (2 * n + 1) a1 (length a1)) as (a2 & -> & S2 & F2); [done|lia|lia|lia| | |].
  - intros i j H1' H2' H3'. lia.
  - intros i j Hi Hj. lia.
  - exists a2. split_and!; [done| |].
    + rewrite (swaps_perm _ _ _ _ S2). by apply (swaps_perm _ _ _ _ S1).
    + apply sorted_in_whole. by rewrite (swaps_length _ _ _ _ S2).
Qed.

Example heap_sort_correct_witness : exists a', heap_sort [8; 2; 5; 9; 6; 4; 7; 1]%Z 8 = Ok a' /\ StronglySorted Z.le a'.
Proof.
  destruct (heap_sort_correct [8; 2; 5; 9; 6; 4; 7; 1]%Z) as (a' & E & _ & S); [exists 4; reflexivity|vm_compute; discriminate|].
  exists a'. split; [exact E|exact S].
Defined.

(** An odd number of elements: the last one is the only child of an element that the loop of [build_max_heap] skips, since it
    starts from [size / 2 - 1]. *)
Example heap_sort_odd : build_max_heap [1; 2; 3]%Z 3 = Ok [2; 3; 1]%Z /\ heap_sort [1; 2; 3]%Z 3 = Ok [1; 3; 2]%Z.
Proof. vm_compute. split; reflexivity. Qed.
