(* ===== verification/QuickSort.v ===== *)
(** Quicksort, a rod cutting that keeps only the last piece and a comparator: the rest of the functions of
    src/src/algs/cti/test_cti_heap.cpp outside the class [BinaryHeap]. *)
From S2P Require Import Prelude Swaps.

(** The loop of the partition with [n] elements before [r]: [j] runs to [r], [i] is the last of the elements found
    not greater than the pivot. *)
Fixpoint partition_loop (n : nat) (a : list Z) (i j r : Z) : res (list Z * Z) :=
  match n with
  | O => Ok (a, i)
  | S n =>
    x ← aget a j; y ← aget a r;
    if (x <=? y)%Z then i ← ck (i + 1); a ← std_swap a i j; partition_loop n a i (j + 1) r
    else partition_loop n a i (j + 1) r
  end.
(** With [p] past [r] the loop [for (j = p; j != r; ++j)] runs over the end of the array; [quicksort] does not call it so. *)
Definition quicksort_partition (a : list Z) (p r : Z) : res (list Z * Z) :=
  if (r <? p)%Z then Stop OutOfBounds
  else
    i ← ck (p - 1);
    '(a, i) ← partition_loop (Z.to_nat (r - p)) a i p r;
    k ← ck (i + 1);
    a ← std_swap a k r;
    Ok (a, k).

Fixpoint quicksort_rec (fuel : nat) (a : list Z) (p r : Z) : res (list Z) :=
  match fuel with
  | O => Stop OutOfFuel
  | S fuel =>
    if (p <? r)%Z then
      '(a, q) ← quicksort_partition a p r;
      a ← quicksort_rec fuel a p (q - 1);
      quicksort_rec fuel a (q + 1) r
    else Ok a
  end.
(** The ranges shrink with each call. *)
Definition quicksort (a : list Z) (p r : Z) : res (list Z) := quicksort_rec (S (Z.to_nat (r - p + 1))) a p r.

Definition compare_ints (arg1 arg2 : Z) : Z := if (arg1 <? arg2)%Z then -1 else if (arg2 <? arg1)%Z then 1 else 0.

(** [cut_rod(p, n)], whose recursion is on [n]: the loop runs [i] from [n - todo + 1] to [n], [sub] is the result for [n - i]. *)
Fixpoint rod_loop (p : list Z) (n todo : nat) (sub : nat -> res Z) (q : Z) : res Z :=
  match todo with
  | O => Ok q
  | S todo => x ← aget p (Z.of_nat (n - todo) - 1); y ← sub todo; rod_loop p n todo sub (Z.max x y)
  end.
Fixpoint cut_rod_rec (fuel : nat) (p : list Z) (n : nat) : res Z :=
  match fuel with
  | O => Stop OutOfFuel
  | S fuel => match n with O => Ok 0%Z | _ => rod_loop p n n (cut_rod_rec fuel p) INT_MIN end
  end.
Definition cut_rod (p : list Z) (n : nat) : res Z := cut_rod_rec (S n) p n.

(** * Quicksort sorts *)

(** With the pivot at [r]: from [p] the elements not greater than it, up to [m], then greater ones up to [j]. *)
Definition parted (a : list Z) (p m j : nat) (v : Z) : Prop :=
  (forall k, p <= k < m -> (a !!! k <= v)%Z) /\ (forall k, m <= k < j -> (v < a !!! k)%Z).

Lemma partition_loop_ok n a p m j : p <= m <= j -> j + n < length a -> (Z.of_nat (length a) <= INT_MAX)%Z -> parted a p m j (a !!! (j + n)) ->
  exists a' m', partition_loop n a (Z.of_nat m - 1) (Z.of_nat j) (Z.of_nat (j + n)) = Ok (a', (Z.of_nat m' - 1)%Z) /\ swaps p (j + n) a a' /\
    m <= m' <= j + n /\ parted a' p m' (j + n) (a !!! (j + n)).
Proof.
  revert a m j. induction n as [|n IH]; intros a m j Hm Hl Hi HP.
  { rewrite Nat.add_0_r in *. exists a, m. split_and!; try done; try lia. constructor. }
  cbn [partition_loop]. rewrite !aget_total by lia. cbn [mbind res_bind]. replace (j + S n) with (S j + n) in * by lia. replace (Z.of_nat j + 1)%Z with (Z.of_nat (S j)) by lia.
  destruct HP as [P1 P2]. destruct (Z.leb_spec (a !!! j) (a !!! (S j + n))) as [Hc|Hc].
  - rewrite ck_ok by (unfold is_int, INT_MAX, INT_MIN in *; lia). cbn [mbind res_bind]. replace (Z.of_nat m - 1 + 1)%Z with (Z.of_nat m) by lia.
    rewrite std_swap_ok by lia. cbn [mbind res_bind]. replace (Z.of_nat m) with (Z.of_nat (S m) - 1)%Z by lia.
    assert (Ev : swap_els a m j !!! (S j + n) = a !!! (S j + n)) by (apply swap_els_ne; lia).
    destruct (IH (swap_els a m j) (S m) (S j)) as (a' & m' & -> & Sw & Hm' & HP'); [lia|rewrite length_swap_els; lia|by rewrite length_swap_els| |].
    + rewrite Ev. split.
      * intros k Hk. destruct (decide (k = m)) as [->|Hne]; [by rewrite swap_els_l by lia|]. rewrite swap_els_ne by lia. apply P1. lia.
      * intros k Hk. destruct (decide (k = j)) as [->|Hne]; [rewrite swap_els_r by lia; apply P2; lia|]. rewrite swap_els_ne by lia. apply P2. lia.
    + rewrite Ev in HP'. exists a', m'. split_and!; [done| |lia|lia|apply HP'..]. eapply swaps_trans; [|done]. apply swaps_one; lia.
  - destruct (IH a m (S j)) as (a' & m' & -> & Sw & Hm' & HP'); [lia|lia|done| |].
    + split; [done|]. intros k Hk. destruct (decide (k = j)) as [->|Hne]; [done|]. apply P2. lia.
    + exists a', m'. split_and!; [done|done|lia|lia|apply HP'..].
Qed.

Lemma quicksort_partition_ok a p r : p <= r -> r < length a -> (Z.of_nat (length a) <= INT_MAX)%Z ->
  exists a' q, quicksort_partition a (Z.of_nat p) (Z.of_nat r) = Ok (a', Z.of_nat q) /\ swaps p (S r) a a' /\ p <= q <= r /\
    (forall k, p <= k < q -> (a' !!! k <= a' !!! q)%Z) /\ (forall k, q < k <= r -> (a' !!! q <= a' !!! k)%Z).
Proof.
  intros Hp Hr Hi. unfold quicksort_partition. rewrite (proj2 (Z.ltb_ge (Z.of_nat r) (Z.of_nat p))) by lia. rewrite ck_ok by (unfold is_int, INT_MAX, INT_MIN in *; lia). cbn [mbind res_bind].
  destruct (partition_loop_ok (r - p) a p p p) as (a1 & m & E & Sw & Hm & P1 & P2); [lia|lia|done|split; intros; lia|].
  replace (p + (r - p)) with r in * by lia. replace (Z.to_nat (Z.of_nat r - Z.of_nat p)) with (r - p) by lia. rewrite E. cbn [mbind res_bind].
  rewrite ck_ok by (unfold is_int, INT_MAX, INT_MIN in *; lia). cbn [mbind res_bind]. replace (Z.of_nat m - 1 + 1)%Z with (Z.of_nat m) by lia.
  pose proof (swaps_length _ _ _ _ Sw) as L1. rewrite std_swap_ok by lia. cbn [mbind res_bind]. exists (swap_els a1 m r), m. split; [done|].
  assert (Ev : a1 !!! r = a !!! r) by (apply (swaps_out _ _ _ _ _ Sw); lia). split_and!; [|lia|lia| |].
  - apply (swaps_trans _ _ _ a1); [apply (swaps_wider p r); [done|lia..]|apply swaps_one; lia].
  - intros k Hk. rewrite swap_els_ne, swap_els_l, Ev by lia. by apply P1.
  - intros k Hk. rewrite swap_els_l, Ev by lia. destruct (decide (k = r)) as [->|Hne].
    + destruct (decide (m = r)) as [->|]; [by rewrite swap_els_r, Ev by lia|]. rewrite swap_els_r by lia. specialize (P2 m). lia.
    + rewrite swap_els_ne by lia. specialize (P2 k). lia.
Qed.

Lemma quicksort_rec_ok fuel a p e : p <= e -> e <= length a -> (Z.of_nat (length a) <= INT_MAX)%Z -> e - p < fuel ->
  exists a', quicksort_rec fuel a (Z.of_nat p) (Z.of_nat e - 1) = Ok a' /\ swaps p e a a' /\ sorted_in p e a'.
Proof.
  revert a p e. induction fuel as [|fuel IH]; intros a p e Hp He Hi Hf; [lia|]. cbn [quicksort_rec].
  destruct (Z.ltb_spec (Z.of_nat p) (Z.of_nat e - 1)) as [Hlt|Hge].
  - replace (Z.of_nat e - 1)%Z with (Z.of_nat (e - 1)) by lia.
    destruct (quicksort_partition_ok a p (e - 1)) as (a1 & q & -> & S1 & Hq & P1 & P2); [lia|lia|done|]. cbn [mbind res_bind].
    replace (S (e - 1)) with e in S1 by lia. pose proof (swaps_length _ _ _ _ S1) as L1.
    destruct (IH a1 p q) as (a2 & -> & S2 & O2); [lia|lia|by rewrite L1|lia|]. cbn [mbind res_bind]. pose proof (swaps_length _ _ _ _ S2) as L2.
    replace (Z.of_nat q + 1)%Z with (Z.of_nat (S q)) by lia. replace (Z.of_nat (e - 1)) with (Z.of_nat e - 1)%Z by lia.
    destruct (IH a2 (S q) e) as (a3 & E3 & S3 & O3); [lia|lia|by rewrite L2, L1|lia|]. rewrite E3. exists a3. split; [done|].
    assert (Hlow : forall k, p <= k < q -> (a2 !!! k <= a1 !!! q)%Z) by (apply (swaps_all p q a1 a2 (fun z => (z <= a1 !!! q)%Z) S2); exact P1).
    assert (Hmid : a3 !!! q = a1 !!! q) by (rewrite (swaps_out _ _ _ _ _ S3), (swaps_out _ _ _ _ _ S2) by lia; done).
    assert (Hl3 : forall k, k < S q -> a3 !!! k = a2 !!! k) by (intros k Hk; apply (swaps_out _ _ _ _ _ S3); lia).
    assert (Hhigh : forall k, S q <= k < e -> (a1 !!! q <= a3 !!! k)%Z).
    { apply (swaps_all (S q) e a2 a3 (fun z => (a1 !!! q <= z)%Z) S3). intros k Hk. rewrite (swaps_out _ _ _ _ _ S2) by lia. apply P2. lia. }
    split.
    + apply (swaps_trans _ _ _ a1); [done|]. apply (swaps_trans _ _ _ a2); [apply (swaps_wider p q); [done|lia..]|apply (swaps_wider (S q) e); [done|lia..]].
    + apply (sorted_in_app p (S q) e); [lia|lia| |done|].
      * apply (sorted_in_app p q (S q)); [lia|lia| | |].
        -- intros i j H1' H2' H3'. rewrite !Hl3 by lia. by apply O2.
        -- intros i j H1' H2' H3'. assert (i = q) as -> by lia. assert (j = q) as -> by lia. lia.
        -- intros i j H1' H2'. assert (j = q) as -> by lia. rewrite Hmid, Hl3 by lia. by apply Hlow.
      * intros i j H1' H2'. destruct (decide (i = q)) as [->|Hne]; [rewrite Hmid; by apply Hhigh|].
        rewrite Hl3 by lia. etrans; [apply Hlow; lia|by apply Hhigh].
  - exists a. split_and!; [done|constructor|]. intros i j H1' H2' H3'. assert (i = j) as -> by lia. lia.
Qed.

(** [quicksort] of the elements from [p] to [r] of an array sorts them, keeps the others where they are, and keeps the
    elements of the array, whatever the order it finds. *)
Theorem quicksort_correct a (p r : Z) : (0 <= p)%Z -> (p <= r + 1)%Z -> (r < Z.of_nat (length a))%Z -> (Z.of_nat (length a) <= INT_MAX)%Z ->
  exists a', quicksort a p r = Ok a' /\ a' ≡ₚ a /\ sorted_in (Z.to_nat p) (Z.to_nat (r + 1)) a' /\
    forall k, ~ (Z.to_nat p <= k < Z.to_nat (r + 1)) -> a' !!! k = a !!! k.
Proof.
  intros Hp Hpr Hr Hi. unfold quicksort. destruct (quicksort_rec_ok (S (Z.to_nat (r - p + 1))) a (Z.to_nat p) (Z.to_nat (r + 1))) as (a' & E & Sw & So); [lia|lia|done|lia|].
  rewrite !Z2Nat.id in E by lia. replace (r + 1 - 1)%Z with r in E by lia. exists a'. split_and!; [done|by apply (swaps_perm _ _ _ _ Sw)|done|].
  intros k Hk. by apply (swaps_out _ _ _ _ _ Sw).
Qed.

Example quicksort_correct_witness : exists a', quicksort [-2; 99; 0; -743; 2; 3; 4]%Z 0 6 = Ok a' /\ a' = [-743; -2; 0; 2; 3; 4; 99]%Z.
Proof.
  destruct (quicksort_correct [-2; 99; 0; -743; 2; 3; 4]%Z 0 6) as (a' & E & _); [lia|lia|cbn; lia|vm_compute; discriminate|].
  exists a'. split; [exact E|]. vm_compute in E. injection E as <-. reflexivity.
Defined.

(** * The rod *)

Lemma rod_loop_S p n todo sub q :
  rod_loop p n (S todo) sub q = (x ← aget p (Z.of_nat (n - todo) - 1); y ← sub todo; rod_loop p n todo sub (Z.max x y)).
Proof. reflexivity. Qed.

(** Each round of the loop overwrites [q], so the last one decides: the whole rod as one piece, or nothing. *)
Lemma rod_loop_last p n todo sub q : todo < n -> (forall k, k <= todo -> exists y, sub k = Ok y) -> length p >= n ->
  exists y, sub 0 = Ok y /\ rod_loop p n (S todo) sub q = Ok (Z.max (p !!! (n - 1)%nat) y).
Proof.
  revert q. induction todo as [|todo IH]; intros q Hl Hs Hp.
  - destruct (Hs 0) as [y E]; [lia|]. exists y. split; [done|]. cbn [rod_loop]. replace (Z.of_nat (n - 0) - 1)%Z with (Z.of_nat (n - 1)) by lia.
    rewrite aget_total by lia. cbn [mbind res_bind]. by rewrite E.
  - rewrite rod_loop_S. replace (Z.of_nat (n - S todo) - 1)%Z with (Z.of_nat (n - S todo - 1)) by lia. rewrite aget_total by lia. cbn [mbind res_bind].
    destruct (Hs (S todo)) as [y E]; [lia|]. rewrite E. cbn [mbind res_bind]. apply IH; [lia|intros k Hk; apply Hs; lia|done].
Qed.

(** The [cut_rod] of this file is not the best price of a rod of length [n]: it forgets every round but the last and returns the
    price of the uncut rod, or 0 if that is negative. *)
Theorem cti_cut_rod_is_uncut p n : 0 < n <= length p -> cut_rod p n = Ok (Z.max (p !!! (n - 1)%nat) 0).
Proof.
  intros Hn. unfold cut_rod. assert (Hok : forall fuel m, m < fuel -> m <= length p -> exists y, cut_rod_rec fuel p m = Ok y /\ (m = 0 -> y = 0%Z) /\ (0 < m -> y = Z.max (p !!! (m - 1)%nat) 0)).
  { induction fuel as [|fuel IH]; intros m Hm Hp; [lia|]. cbn [cut_rod_rec]. destruct m as [|m]; [exists 0%Z; split_and!; [done|done|lia]|].
    destruct (rod_loop_last p (S m) m (cut_rod_rec fuel p) INT_MIN) as (y & E0 & ->); [lia| |lia|].
    - intros k Hk. destruct (IH k) as (y & E & _); [lia|lia|by exists y].
    - destruct (IH 0) as (y0 & E & Hz & _); [lia|lia|]. rewrite E0 in E. injection E as <-. rewrite Hz by done. eexists. split_and!; [done|lia|done]. }
  destruct (Hok (S n) n) as (y & -> & _ & Hy); [lia|lia|]. by rewrite Hy by lia.
Qed.

Example cti_cut_rod_is_uncut_witness : cut_rod [1; 5; 8; 9]%Z 4 = Ok 9%Z.
Proof. apply (cti_cut_rod_is_uncut [1; 5; 8; 9]%Z 4). cbn. lia. Defined.
