(* ===== verification/BinHeap.v ===== *)
(** The class [BinaryHeap] of src/src/algs/cti/test_cti_heap.h and test_cti_heap.cpp for [int]: a vector whose element 0 is meant as a
    sentinel and whose element [i] has the children [2 * i] and [2 * i + 1].  [findMin] and [makeEmpty] have no body in the source. *)
From S2P Require Import Prelude Swaps.

Definition size (a : list Z) : Z := Z.of_nat (length a).

(** [BinaryHeap(capacity)]; what [reserve] does is not visible. *)
Definition BinaryHeap : list Z := [0%Z].
Definition isEmpty (a : list Z) : bool := (size a <=? 1)%Z.

(** [vector::back] and [vector::pop_back] *)
Definition back (a : list Z) : res Z := match last a with Some x => Ok x | None => Stop EmptyContainer end.
Definition pop_back (a : list Z) : res (list Z) := match a with [] => Stop EmptyContainer | _ => Ok (take (length a - 1) a) end.

Fixpoint percolate_loop (fuel : nat) (a : list Z) (i : Z) : res (list Z) :=
  match fuel with
  | O => Stop OutOfFuel
  | S fuel =>
    l ← ck (2 * i); r ← ck (2 * i + 1);
    if (r <? size a)%Z then
      x ← aget a l; y ← aget a r;
      if (x <? y)%Z then a ← aset a i x; percolate_loop fuel a l
      else a ← aset a i y; percolate_loop fuel a r
    else x ← back a; aset a i x
  end.
Definition percolateDown (a : list Z) (i : Z) : res (list Z) := percolate_loop (length a) a i.

Definition deleteMin (a : list Z) : res (list Z) :=
  if isEmpty a then Ok a else a ← percolateDown a 1; pop_back a.
(** [deleteMin(minItem)] *)
Definition deleteMin_item (a : list Z) (minItem : Z) : res (list Z * Z) :=
  if isEmpty a then Ok (a, minItem)
  else minItem ← aget a 1; a ← percolateDown a 1; a ← pop_back a; Ok (a, minItem).

(** [for (size_t i = n; i > 0; --i) percolateDown(i)] *)
Fixpoint build_loop (n : nat) (a : list Z) : res (list Z) :=
  match n with O => Ok a | S n' => a ← percolateDown a (Z.of_nat n); build_loop n' a end.
Definition buildHeap (a : list Z) : res (list Z) := if isEmpty a then Ok a else build_loop (length a / 2) a.
(** [BinaryHeap(items)] *)
Definition BinaryHeap_items (items : list Z) : res (list Z) := buildHeap items.

Fixpoint insert_loop (fuel : nat) (a : list Z) (i x : Z) : res (list Z) :=
  match fuel with
  | O => Stop OutOfFuel
  | S fuel =>
    y ← aget a (Z.quot i 2);
    if (x <? y)%Z then a ← aset a i y; insert_loop fuel a (Z.quot i 2) x
    else aset a i x
  end.
(** [int i = array_.size() - 1]; the fuel is more than the levels of the heap. *)
Definition insert (a : list Z) (x : Z) : res (list Z) :=
  let a := a ++ [x] in i ← ck (size a - 1); insert_loop (length a) a i x.

(** [same(q)], with the priority queue given by the sequence of its tops; [top] of an empty queue is undefined. *)
Fixpoint same_loop (a tops : list Z) : res bool :=
  match a, tops with
  | [], _ => Ok true
  | _, [] => Stop EmptyContainer
  | x :: a, k :: tops => if (x =? k)%Z then same_loop a tops else Ok false
  end.
Definition same (a tops : list Z) : res bool := same_loop (drop 1 a) tops.

(** What [main] does with a heap: insert the numbers, then take the minimum until it is empty. *)
Fixpoint insert_all (a xs : list Z) : res (list Z) := match xs with [] => Ok a | x :: xs => a ← insert a x; insert_all a xs end.
Fixpoint drain (fuel : nat) (a : list Z) : res (list Z) :=
  match fuel with
  | O => Stop OutOfFuel
  | S fuel => if isEmpty a then Ok [] else '(a, min) ← deleteMin_item a 0; out ← drain fuel a; Ok (min :: out)
  end.
Definition heap_output (xs : list Z) : res (list Z) := a ← insert_all BinaryHeap xs; drain (length a) a.

(** * Insertion *)

(** The elements from 1 on are in heap order; element 0 is the sentinel. *)
Definition heap (a : list Z) : Prop := a !! 0 = Some 0%Z /\ forall k, 2 <= k < length a -> (a !!! (k / 2)%nat <= a !!! k)%Z.
(** The same with the element at [i] missing and to be replaced by [x], which is not greater than those below [i]. *)
Definition heap_hole (a : list Z) (i : nat) (x : Z) : Prop :=
  a !! 0 = Some 0%Z /\ (forall k, 2 <= k < length a -> k <> i -> k / 2 <> i -> (a !!! (k / 2)%nat <= a !!! k)%Z) /\
  (forall k, 2 <= k < length a -> k / 2 = i -> (x <= a !!! k)%Z /\ (2 <= i -> (a !!! (i / 2)%nat <= a !!! k)%Z)).

Lemma quot_half (i : nat) : Z.quot (Z.of_nat i) 2 = Z.of_nat (i / 2).
Proof. rewrite Z.quot_div_nonneg by lia. by rewrite Nat2Z.inj_div. Qed.


Lemma insert_loop_ok fuel a i x : (0 <= x)%Z -> 1 <= i < length a -> i < fuel -> heap_hole a i x ->
  exists a', insert_loop fuel a (Z.of_nat i) x = Ok a' /\ heap a' /\ a' ≡ₚ <[i := x]> a.
Proof.
  intros Hx. revert a i. induction fuel as [|fuel IH]; intros a i Hi Hf (H0 & H1' & H2'); [lia|]. cbn [insert_loop]. rewrite quot_half.
  assert (Hlt : i / 2 < i) by (apply Nat.div_lt; lia). rewrite aget_total by lia. cbn [mbind res_bind]. set (j := i / 2) in *.
  destruct (Z.ltb_spec x (a !!! j)) as [Hc|Hc].
  - assert (Hj : 1 <= j) by (destruct (decide (j = 0)) as [E|]; [rewrite E in Hc; rewrite (list_lookup_total_correct _ _ _ H0) in Hc; lia|lia]).
    rewrite aset_nat by lia. cbn [mbind res_bind]. destruct (IH (<[i := a !!! j]> a) j) as (a' & -> & HH & HP); [rewrite length_insert; lia|lia| |].
    + split_and!; [by rewrite list_lookup_insert_ne by lia| |].
      * rewrite length_insert. intros k Hk Hkj Hkj2. assert (k <> i) by (intros ->; by apply Hkj2). rewrite (list_lookup_total_insert_ne _ i k) by done.
        destruct (decide (k / 2 = i)) as [E|E]; [rewrite E, list_lookup_total_insert_eq by lia; apply (H2' k Hk E); unfold j in Hj; pose proof (Nat.div_lt i 2); lia|].
        rewrite list_lookup_total_insert_ne by done. by apply H1'.
      * rewrite length_insert. intros k Hk E. rewrite (list_lookup_total_insert_ne _ i (j / 2)) by (pose proof (Nat.div_lt j 2); lia).
        assert (Hup : 2 <= j -> (a !!! (j / 2)%nat <= a !!! j)%Z) by (intros Hj2; apply H1'; pose proof (Nat.div_lt j 2); lia).
        destruct (decide (k = i)) as [->|Hne]; [rewrite list_lookup_total_insert_eq by lia; split; [lia|done]|].
        rewrite list_lookup_total_insert_ne by done. assert (Hjk : (a !!! j <= a !!! k)%Z) by (rewrite <- E; apply H1'; lia). split; [lia|]. intros Hj2. specialize (Hup Hj2). lia.
    + exists a'. split_and!; [done|done|]. rewrite HP. rewrite <- (swap_els_perm (<[i := x]> a) i j) by (rewrite length_insert; lia).
      unfold swap_els. rewrite (list_lookup_total_insert_eq a i x) by lia. rewrite (list_lookup_total_insert_ne a i j) by lia. by rewrite list_insert_insert_eq.
  - rewrite aset_nat by lia. exists (<[i := x]> a). split_and!; [done| |done]. split; [by rewrite list_lookup_insert_ne by lia|]. rewrite length_insert. intros k Hk.
    destruct (decide (k = i)) as [->|Hne]; [rewrite list_lookup_total_insert_eq, list_lookup_total_insert_ne by lia; done|].
    rewrite (list_lookup_total_insert_ne _ i k) by done. destruct (decide (k / 2 = i)) as [E|E]; [rewrite E, list_lookup_total_insert_eq by lia; by apply (H2' k Hk E)|].
    rewrite list_lookup_total_insert_ne by done. by apply H1'.
Qed.

(** [insert] of a number that is not negative keeps the heap in order and adds the number to its elements; a negative one
    sends it into an endless loop at the sentinel, however long it runs. *)
Theorem binary_heap_insert_correct a x : heap a -> (Z.of_nat (length a) <= INT_MAX)%Z ->
  ((0 <= x)%Z -> exists a', insert a x = Ok a' /\ heap a' /\ a' ≡ₚ x :: a) /\
  ((x < 0)%Z -> (forall k, 1 <= k < length a -> (0 <= a !!! k)%Z) -> forall fuel, insert_loop fuel (a ++ [x]) (Z.of_nat (length a)) x = Stop OutOfFuel).
Proof.
  intros [H0 HH] Hi. assert (Hl : 0 < length a) by (by apply lookup_lt_Some in H0).
  assert (Hk : forall k, k < length a -> (a ++ [x]) !!! k = a !!! k) by (intros k Hk; by rewrite lookup_total_app_l). split.
  - intros Hx. unfold insert, size. rewrite length_app. cbn [length]. rewrite ck_ok by (unfold is_int, INT_MIN, INT_MAX in *; lia). cbn [mbind res_bind].
    replace (Z.of_nat (length a + 1) - 1)%Z with (Z.of_nat (length a)) by lia.
    destruct (insert_loop_ok (length a + 1) (a ++ [x]) (length a) x) as (a' & -> & H' & HP); [done|rewrite length_app; cbn; lia|lia| |].
    + split_and!; [by rewrite lookup_app_l| |].
      * rewrite length_app. cbn [length]. intros k Hk1 Hk2 Hk3. rewrite !Hk by (pose proof (Nat.div_lt k 2); lia). apply HH. lia.
      * rewrite length_app. cbn [length]. intros k Hk1 E. pose proof (Nat.div_lt k 2). lia.
    + exists a'. split_and!; [done|done|]. rewrite HP. rewrite <- (Nat.add_0_r (length a)) at 1. rewrite insert_app_r. cbn. by rewrite <- Permutation_cons_append.
  - intros Hx Hpos fuel. assert (Hgen : forall fuel b i, i < length b -> (forall k, k < i -> (0 <= b !!! k)%Z) -> (i = 0 -> (0 <= b !!! 0%nat)%Z) -> insert_loop fuel b (Z.of_nat i) x = Stop OutOfFuel).
    { clear - Hx. induction fuel as [|fuel IH]; intros b i Hi Hb H0; [done|]. cbn [insert_loop]. rewrite quot_half.
      assert (Hle : i / 2 <= i) by (apply Nat.Div0.div_le_upper_bound; lia). rewrite aget_total by lia. cbn [mbind res_bind].
      assert (Hnn : (0 <= b !!! (i / 2)%nat)%Z) by (destruct (decide (i = 0)) as [->|]; [by apply H0|apply Hb, Nat.div_lt; lia]).
      rewrite (proj2 (Z.ltb_lt x (b !!! (i / 2)%nat))) by lia. rewrite aset_nat by lia. cbn [mbind res_bind]. apply IH; [rewrite length_insert; lia| |].
      - intros k Hk. rewrite list_lookup_total_insert_ne by lia. apply Hb. lia.
      - intros E. destruct (decide (i = 0)) as [->|]; [by rewrite list_lookup_total_insert_eq by done|]. rewrite list_lookup_total_insert_ne by done. apply Hb. lia. }
    apply Hgen; [rewrite length_app; cbn; lia| |lia]. intros k Hk1. rewrite Hk by done. destruct (decide (k = 0)) as [->|]; [by rewrite (list_lookup_total_correct _ _ _ H0)|]. apply Hpos. lia.
Qed.

Example binary_heap_insert_correct_witness : (exists a', insert [0; 1; 5; 2]%Z 0 = Ok a' /\ heap a') /\ insert_loop 100 [0; 1; 5; 2; -3]%Z 4 (-3) = Stop OutOfFuel.
Proof.
  destruct (binary_heap_insert_correct [0; 1; 5; 2]%Z 0) as [H1' _].
  - split; [reflexivity|]. intros k Hk. cbn in Hk. assert (k = 2 \/ k = 3) as [-> | ->] by lia; vm_compute; discriminate.
  - vm_compute. discriminate.
  - destruct (binary_heap_insert_correct [0; 1; 5; 2]%Z (-3)) as [_ H2'].
    + split; [reflexivity|]. intros k Hk. cbn in Hk. assert (k = 2 \/ k = 3) as [-> | ->] by lia; vm_compute; discriminate.
    + vm_compute. discriminate.
    + split; [destruct H1' as (a' & E & HH & _); [reflexivity|by exists a']|]. apply (H2' eq_refl). intros k Hk. cbn in Hk. assert (k = 1 \/ k = 2 \/ k = 3) as [-> | [-> | ->]] by lia; vm_compute; discriminate.
Defined.

(** * Removal *)

Lemma replace_perm (a : list Z) i x : i < length a -> a !!! i :: <[i := x]> a ≡ₚ x :: a.
Proof.
  intros Hi. destruct (lookup_lt_is_Some_2 a i Hi) as [z Ez]. rewrite (list_lookup_total_correct _ _ _ Ez). rewrite <- (take_drop_middle a i z Ez) at 2.
  rewrite insert_take_drop by done. rewrite <- !Permutation_middle. apply Permutation_swap.
Qed.

(** Percolating from [i] and dropping the last element removes the element at [i] and no other. *)
Lemma percolate_loop_perm fuel a (i : nat) : 1 <= i < length a -> length a - i < fuel -> (Z.of_nat (length a) <= 2 ^ 30)%Z ->
  exists a', percolate_loop fuel a (Z.of_nat i) = Ok a' /\ length a' = length a /\ (forall k, k < i -> a' !!! k = a !!! k) /\ a !!! i :: take (length a' - 1) a' ≡ₚ a.
Proof.
  revert a i. induction fuel as [|fuel IH]; intros a i Hi Hf Hs; [lia|]. cbn [percolate_loop]. rewrite !ck_ok by (unfold is_int, INT_MIN, INT_MAX; lia). cbn [mbind res_bind]. unfold size.
  destruct (Z.ltb_spec (2 * Z.of_nat i + 1) (Z.of_nat (length a))) as [Hr|Hr].
  - replace (2 * Z.of_nat i)%Z with (Z.of_nat (2 * i)) by lia. replace (Z.of_nat (2 * i) + 1)%Z with (Z.of_nat (2 * i + 1)) by lia. rewrite !aget_total by lia. cbn [mbind res_bind].
    assert (Hgo : forall l, i < l < length a -> exists a', (a0 ← aset a (Z.of_nat i) (a !!! l); percolate_loop fuel a0 (Z.of_nat l)) = Ok a' /\
      length a' = length a /\ (forall k, k < i -> a' !!! k = a !!! k) /\ a !!! i :: take (length a' - 1) a' ≡ₚ a).
    { intros l Hl. rewrite aset_nat by lia. cbn [mbind res_bind]. destruct (IH (<[i := a !!! l]> a) l) as (a' & -> & L & Hk & HP); [rewrite length_insert; lia..|].
      rewrite length_insert in L. rewrite list_lookup_total_insert_ne in HP by lia. exists a'. split_and!; [done|done|intros k Hki; rewrite Hk by lia; by apply list_lookup_total_insert_ne; lia|].
      apply (Permutation_cons_inv (a := a !!! l)). rewrite Permutation_swap, HP. apply replace_perm. lia. }
    destruct (a !!! (2 * i)%nat <? a !!! (2 * i + 1)%nat)%Z; apply Hgo; lia.
  - destruct (last a) as [z|] eqn:Ez; [|apply last_None in Ez; subst; cbn in *; lia]. unfold back. rewrite Ez. cbn [mbind res_bind]. rewrite aset_nat by lia.
    exists (<[i := z]> a). rewrite length_insert. split_and!; [done|done|intros k Hk; by apply list_lookup_total_insert_ne; lia|].
    apply last_Some in Ez as [init ->]. rewrite length_app in *. cbn [length] in *. replace (length init + 1 - 1) with (length init) by lia.
    destruct (decide (i = length init)) as [->|Hne].
    + rewrite lookup_total_app_r, Nat.sub_diag by lia. cbn. rewrite list_insert_id by (by apply list_lookup_middle). rewrite take_app_length. apply Permutation_cons_append.
    + rewrite lookup_total_app_l, insert_app_l by lia. rewrite take_app_le by (rewrite length_insert; lia). rewrite take_ge by (rewrite length_insert; lia).
      rewrite replace_perm by lia. apply Permutation_cons_append.
Qed.

Lemma heap_min a k : heap a -> 1 <= k < length a -> (a !!! 1%nat <= a !!! k)%Z.
Proof.
  intros [_ HH]. induction k as [k IH] using lt_wf_ind. intros Hk. destruct (decide (k = 1)) as [->|Hne]; [lia|].
  pose proof (Nat.div_lt k 2 ltac:(lia) ltac:(lia)). assert (1 <= k / 2) by (apply Nat.div_le_lower_bound; lia). apply (Z.le_trans _ (a !!! (k / 2)%nat)); [apply IH; lia|]. apply HH. lia.
Qed.

(** [deleteMin] of a heap that is not empty returns its least element and removes just that; of an empty one it
    changes nothing. *)
Theorem binary_heap_deleteMin_correct a m : heap a -> (Z.of_nat (length a) <= 2 ^ 30)%Z ->
  if isEmpty a then deleteMin_item a m = Ok (a, m) /\ deleteMin a = Ok a
  else exists a' x, deleteMin_item a m = Ok (a', x) /\ deleteMin a = Ok a' /\ (forall k, 1 <= k < length a -> (x <= a !!! k)%Z) /\ x :: a' ≡ₚ a /\ a' !! 0 = Some 0%Z.
Proof.
  intros HH Hs. unfold deleteMin_item, deleteMin. destruct (isEmpty a) eqn:Ee; [done|]. apply Z.leb_gt in Ee. unfold size in Ee.
  change 1%Z with (Z.of_nat 1). rewrite aget_total by lia. cbn [mbind res_bind]. unfold percolateDown.
  destruct (percolate_loop_perm (length a) a 1) as (a1 & -> & L & Hk & HP); [lia|lia|done|]. cbn [mbind res_bind].
  assert (Ep : pop_back a1 = Ok (take (length a1 - 1) a1)) by (destruct a1; [cbn in L; lia|done]). rewrite Ep. cbn [mbind res_bind].
  exists (take (length a1 - 1) a1), (a !!! 1). split_and!; [done|done| |done|].
  - intros k Hk1. by apply heap_min.
  - rewrite lookup_take_lt by lia. rewrite list_lookup_lookup_total_lt by lia. rewrite Hk by lia. f_equal. apply list_lookup_total_correct, HH.
Qed.

Example binary_heap_deleteMin_correct_witness : exists a', deleteMin_item [0; 1; 2; 3; 10; 11; 4]%Z 0 = Ok (a', 1%Z) /\ a' !! 0 = Some 0%Z.
Proof.
  pose proof (binary_heap_deleteMin_correct [0; 1; 2; 3; 10; 11; 4]%Z 0) as Q1. destruct Q1 as (a' & x & E & _ & _ & _ & E0).
  - split; [reflexivity|]. intros k Hk. cbn in Hk. assert (k = 2 \/ k = 3 \/ k = 4 \/ k = 5 \/ k = 6) as [-> | [-> | [-> | [-> | ->]]]] by lia; vm_compute; discriminate.
  - vm_compute. discriminate.
  - exists a'. split; [|exact E0]. rewrite E. vm_compute in E. injection E as <- <-. reflexivity.
Defined.

(** The hole takes the last element without comparing it with the parent: the rest is no heap, and later minima come out of order. *)
Example deleteMin_breaks_the_order : insert_all BinaryHeap [1; 2; 3; 10; 11; 4]%Z = Ok [0; 1; 2; 3; 10; 11; 4]%Z /\
  deleteMin [0; 1; 2; 3; 10; 11; 4]%Z = Ok [0; 2; 10; 3; 4; 11]%Z /\ heap_output [1; 2; 3; 10; 11; 4]%Z = Ok [1; 2; 3; 10; 4; 11]%Z.
Proof. vm_compute. split_and!; reflexivity. Qed.

(** The program's own heap. *)
Example heap_main : heap_output [8; 2; 5; 9; 6; 4; 7; 1]%Z = Ok [1; 2; 4; 5; 6; 7; 8; 9]%Z.
Proof. vm_compute. reflexivity. Qed.

(** A heap built from a vector has no sentinel, and percolating writes over the elements it should move. *)
Example heap_of_items_loses : BinaryHeap_items [8; 2; 5; 9; 6; 4; 7; 1]%Z = Ok [8; 1; 1; 1; 1; 4; 7; 1]%Z.
Proof. vm_compute. reflexivity. Qed.
