(* ===== verification/CtiTree.v ===== *)
(** The class [BinarySearchTree] of src/src/algs/cti/test_bstree.h and test_cti_bstree.cpp for [int].  A node owns its subtrees and the
    class hands out no pointer that changes them, so a subtree is a value.  The copy constructor has no body in the source. *)
From S2P Require Import Prelude.

Inductive BinaryNode : Type :=
| NULL
| Node (left_ : BinaryNode) (element_ : Z) (right_ : BinaryNode).

Definition BinarySearchTree : BinaryNode := NULL.
Definition isEmpty (root : BinaryNode) : bool := match root with NULL => true | _ => false end.

(** [findMin(t)] and [findMax(t)] start by following a pointer of [t]. *)
Fixpoint findMin_at (t : BinaryNode) : res Z :=
  match t with NULL => Stop NullDeref | Node NULL e _ => Ok e | Node l _ _ => findMin_at l end.
Fixpoint findMax_at (t : BinaryNode) : res Z :=
  match t with NULL => Stop NullDeref | Node _ e NULL => Ok e | Node _ _ r => findMax_at r end.
(** The public methods return a null pointer for an empty tree; [findMax] calls [findMin]. *)
Definition findMin (root : BinaryNode) : res (option Z) := if isEmpty root then Ok None else m ← findMin_at root; Ok (Some m).
Definition findMax (root : BinaryNode) : res (option Z) := if isEmpty root then Ok None else m ← findMin_at root; Ok (Some m).

Fixpoint contains (x : Z) (t : BinaryNode) : bool :=
  match t with
  | NULL => false
  | Node l e r => if (x <? e)%Z then contains x l else if (e <? x)%Z then contains x r else true
  end.

Fixpoint insert (x : Z) (t : BinaryNode) : BinaryNode :=
  match t with
  | NULL => Node NULL x NULL
  | Node l e r => if (x <? e)%Z then Node (insert x l) e r else if (e <? x)%Z then Node l e (insert x r) else Node l e r
  end.

(** The case meant for two children is guarded by two null pointers. *)
Fixpoint remove (x : Z) (t : BinaryNode) : res BinaryNode :=
  match t with
  | NULL => Ok NULL
  | Node l e r =>
    if (x <? e)%Z then l ← remove x l; Ok (Node l e r)
    else if (e <? x)%Z then r ← remove x r; Ok (Node l e r)
    else if isEmpty l && isEmpty r then e ← findMin_at r; r ← remove e r; Ok (Node l e r)
    else Ok (if isEmpty l then r else l)
  end.

Definition makeEmpty (t : BinaryNode) : BinaryNode := NULL.
Fixpoint clone (t : BinaryNode) : BinaryNode := match t with NULL => NULL | Node l e r => Node (clone l) e (clone r) end.
(** [operator=]: its body is under [if(false)]. *)
Definition assign (this rhs : BinaryNode) : BinaryNode := if false then clone rhs else this.

Fixpoint height (t : BinaryNode) : Z := match t with NULL => -1 | Node l _ r => 1 + Z.max (height l) (height r) end.
Fixpoint btree_height (n : BinaryNode) : Z := match n with NULL => 0 | Node l _ r => 1 + Z.max (btree_height l) (btree_height r) end.
Definition is_balanced (n : BinaryNode) : bool :=
  match n with NULL => true | Node l _ r => (Z.abs (btree_height l - btree_height r) <? 2)%Z end.

(** [printTree(t, os)]: the numbers in the order they are written. *)
Fixpoint printTree_at (t : BinaryNode) : list Z := match t with NULL => [] | Node l e r => printTree_at l ++ e :: printTree_at r end.
(** [None] is the text for the empty tree. *)
Definition printTree (t : BinaryNode) : option (list Z) := if isEmpty t then None else Some (printTree_at t).

(** * The order of the tree *)

Fixpoint ordered (t : BinaryNode) : Prop :=
  match t with
  | NULL => True
  | Node l e r => ordered l /\ ordered r /\ Forall (fun x => (x < e)%Z) (printTree_at l) /\ Forall (fun x => (e < x)%Z) (printTree_at r)
  end.

Lemma insert_perm x t : ordered t -> printTree_at (insert x t) ≡ₚ if decide (x ∈ printTree_at t) then printTree_at t else x :: printTree_at t.
Proof.
  induction t as [|l IHl e r IHr]; intros Ht; [done|]. destruct Ht as (Hl & Hr & Fl & Fr). cbn [insert printTree_at]. rewrite Forall_forall in Fl, Fr.
  destruct (Z.ltb_spec x e) as [H1'|H1']; [|destruct (Z.ltb_spec e x) as [H2'|H2']]; cbn [printTree_at].
  - rewrite (IHl Hl). destruct (decide (x ∈ printTree_at l)) as [Hi|Hi]; [by rewrite decide_True by (by apply elem_of_app; left)|].
    rewrite decide_False; [done|]. rewrite elem_of_app, elem_of_cons. intros [?|[?|Hx]]; [done|lia|]. specialize (Fr x Hx). lia.
  - rewrite (IHr Hr). destruct (decide (x ∈ printTree_at r)) as [Hi|Hi]; [rewrite decide_True; [done|]; rewrite elem_of_app, elem_of_cons; tauto|].
    rewrite decide_False; [|rewrite elem_of_app, elem_of_cons; intros [Hx|[?|?]]; [specialize (Fl x Hx); lia|lia|done]].
    rewrite (Permutation_swap x e). rewrite <- Permutation_middle. done.
  - assert (x = e) as -> by lia. rewrite decide_True; [done|]. rewrite elem_of_app, elem_of_cons. tauto.
Qed.

Lemma ordered_insert x t : ordered t -> ordered (insert x t).
Proof.
  induction t as [|l IHl e r IHr]; intros Ht; [done|]. destruct Ht as (Hl & Hr & Fl & Fr). cbn [insert].
  destruct (Z.ltb_spec x e) as [H1'|H1']; [|destruct (Z.ltb_spec e x) as [H2'|H2']]; cbn [ordered].
  - split_and!; [by apply IHl|done| |done]. rewrite (insert_perm x l Hl). case_decide; [done|by constructor].
  - split_and!; [done|by apply IHr|done|]. rewrite (insert_perm x r Hr). case_decide; [done|by constructor].
  - done.
Qed.

Lemma contains_iff x t : ordered t -> contains x t = bool_decide (x ∈ printTree_at t).
Proof.
  induction t as [|l IHl e r IHr]; intros Ht; [done|]. destruct Ht as (Hl & Hr & Fl & Fr). cbn [contains printTree_at]. rewrite Forall_forall in Fl, Fr.
  destruct (Z.ltb_spec x e) as [H1'|H1']; [|destruct (Z.ltb_spec e x) as [H2'|H2']].
  - rewrite (IHl Hl). apply bool_decide_ext. rewrite elem_of_app, elem_of_cons. split; [tauto|]. intros [?|[?|Hx]]; [done|lia|]. specialize (Fr x Hx). lia.
  - rewrite (IHr Hr). apply bool_decide_ext. rewrite elem_of_app, elem_of_cons. split; [tauto|]. intros [Hx|[?|?]]; [specialize (Fl x Hx); lia|lia|done].
  - symmetry. apply bool_decide_eq_true_2. rewrite elem_of_app, elem_of_cons. right. left. lia.
Qed.

Lemma ordered_sorted t : ordered t -> StronglySorted Z.lt (printTree_at t).
Proof.
  induction t as [|l IHl e r IHr]; intros Ht; [constructor|]. destruct Ht as (Hl & Hr & Fl & Fr). cbn [printTree_at].
  rewrite Forall_forall in Fl, Fr. apply StronglySorted_app. split_and!; [|by apply IHl|constructor; [by apply IHr|by rewrite Forall_forall]].
  intros x y Hx Hy. specialize (Fl x Hx). apply elem_of_cons in Hy as [->|Hy]; [done|]. specialize (Fr y Hy). lia.
Qed.

(** Where the node with [x] is: a missing one, a leaf, one with one child, or one with two and the right one given. *)
Inductive place : Type := Absent | Leaf | One | Two (lost : list Z).
Fixpoint place_of (x : Z) (t : BinaryNode) : place :=
  match t with
  | NULL => Absent
  | Node l e r =>
    if (x <? e)%Z then place_of x l else if (e <? x)%Z then place_of x r
    else match l, r with NULL, NULL => Leaf | Node _ _ _, Node _ _ _ => Two (printTree_at r) | _, _ => One end
  end.

Lemma place_of_leaf x t : place_of x t = Leaf -> remove x t = Stop NullDeref.
Proof.
  induction t as [|l IHl e r IHr]; intros Hp; [done|]. cbn [place_of remove] in *. destruct (x <? e)%Z; [by rewrite IHl|]. destruct (e <? x)%Z; [by rewrite IHr|].
  destruct l, r; cbn; done.
Qed.

(** What [remove] loses besides [x]. *)
Definition lost_of (p : place) : list Z := match p with Two lost => lost | _ => [] end.

Lemma remove_perm x t : place_of x t <> Leaf -> exists t', remove x t = Ok t' /\
  match place_of x t with Absent => t' = t | p => x :: printTree_at t' ++ lost_of p ≡ₚ printTree_at t end.
Proof.
  induction t as [|l IHl e r IHr]; intros Hp; [by exists NULL|]. cbn [place_of remove printTree_at] in *.
  destruct (Z.ltb_spec x e) as [H1'|H1']; [|destruct (Z.ltb_spec e x) as [H2'|H2']].
  - destruct (IHl Hp) as (l' & -> & HP). cbn [mbind res_bind]. eexists. split; [done|]. cbn [printTree_at]. destruct (place_of x l) as [| | |lost]; [by subst|done| |];
      rewrite <- HP, <- ?app_assoc; cbn [lost_of app]; rewrite ?app_nil_r; [done|]. f_equiv. rewrite <- !app_assoc. f_equiv. apply (Permutation_app_comm (e :: printTree_at r)).
  - destruct (IHr Hp) as (r' & -> & HP). cbn [mbind res_bind]. eexists. split; [done|]. cbn [printTree_at]. destruct (place_of x r) as [| | |lost]; [by subst|done| |];
      rewrite <- HP; cbn [lost_of]; rewrite ?app_nil_r.
    + rewrite (Permutation_swap x e). apply Permutation_middle.
    + rewrite (Permutation_swap x e). rewrite <- app_assoc. cbn [app]. apply Permutation_middle.
  - assert (x = e) as -> by lia. destruct l as [|l1 e1 r1], r as [|l2 e2 r2]; [done|eexists; split; [done|]..]; cbn [lost_of]; rewrite ?app_nil_r; [done| |].
    + cbn [printTree_at app]. rewrite (Permutation_app_comm _ [e]). done.
    + by rewrite <- Permutation_middle.
Qed.

Lemma remove_subset x t t' y : remove x t = Ok t' -> y ∈ printTree_at t' -> y ∈ printTree_at t.
Proof.
  revert t'. induction t as [|l IHl e r IHr]; intros t' E Hy; cbn [remove] in E; [by injection E as <-|]. cbn [printTree_at]. rewrite elem_of_app, elem_of_cons.
  destruct (x <? e)%Z; [|destruct (e <? x)%Z].
  - apply bind_Ok_inv in E as (l' & El & E). injection E as <-. cbn [printTree_at] in Hy. rewrite elem_of_app, elem_of_cons in Hy. destruct Hy as [Hy|Hy]; [left; by apply (IHl l')|tauto].
  - apply bind_Ok_inv in E as (r' & Er & E). injection E as <-. cbn [printTree_at] in Hy. rewrite elem_of_app, elem_of_cons in Hy. destruct Hy as [Hy|[Hy|Hy]]; [tauto|tauto|]. right. right. by apply (IHr r').
  - destruct (isEmpty l && isEmpty r) eqn:Ee; [apply andb_prop in Ee as [_ Er]; destruct r; done|]. injection E as <-. destruct (isEmpty l); tauto.
Qed.

Lemma ordered_remove x t t' : ordered t -> remove x t = Ok t' -> ordered t'.
Proof.
  revert t'. induction t as [|l IHl e r IHr]; intros t' Ht E; cbn [remove] in E; [by injection E as <-|]. destruct Ht as (Hl & Hr & Fl & Fr).
  rewrite Forall_forall in Fl, Fr. destruct (x <? e)%Z; [|destruct (e <? x)%Z].
  - apply bind_Ok_inv in E as (l' & El & E). injection E as <-. cbn [ordered]. split_and!; [by apply IHl|done| |by rewrite Forall_forall].
    rewrite Forall_forall. intros y Hy. apply Fl. by apply (remove_subset x l l').
  - apply bind_Ok_inv in E as (r' & Er & E). injection E as <-. cbn [ordered]. split_and!; [done|by apply IHr|by rewrite Forall_forall|].
    rewrite Forall_forall. intros y Hy. apply Fr. by apply (remove_subset x r r').
  - destruct (isEmpty l && isEmpty r) eqn:Ee; [apply andb_prop in Ee as [_ Er]; destruct r; done|]. injection E as <-. by destruct (isEmpty l).
Qed.

(** [insert] keeps the tree ordered, makes [contains] true of the new number and changes it for no other, and adds the number to
    what [printTree] writes, in increasing order, unless it is there already. *)
Theorem cti_bst_insert_correct x t : ordered t ->
  ordered (insert x t) /\ StronglySorted Z.lt (printTree_at (insert x t)) /\ (forall y, contains y (insert x t) = bool_decide (y = x) || contains y t) /\
  printTree_at (insert x t) ≡ₚ if contains x t then printTree_at t else x :: printTree_at t.
Proof.
  intros Ht. pose proof (ordered_insert x t Ht) as Hi. pose proof (insert_perm x t Ht) as HP. split_and!; [done|by apply ordered_sorted| |].
  - intros y. rewrite !contains_iff by done. apply eq_true_iff_eq. rewrite orb_true_iff, !bool_decide_eq_true, HP. destruct (decide (x ∈ printTree_at t)) as [Hx|Hx]; [|by rewrite elem_of_cons].
    split; [tauto|]. by intros [->|?].
  - rewrite HP, contains_iff by done. by case_decide; rewrite ?bool_decide_eq_true_2, ?bool_decide_eq_false_2 by done.
Qed.

Definition sample : BinaryNode := insert 9 (insert 2 (insert 8 (insert 5 NULL))).

Example cti_bst_insert_correct_witness : contains 8 (insert 7 sample) = true /\ StronglySorted Z.lt (printTree_at (insert 7 sample)).
Proof.
  assert (Hs : ordered sample) by (unfold sample; cbn; repeat constructor; lia).
  destruct (cti_bst_insert_correct 7 sample Hs) as (_ & H1' & H2' & _). split; [rewrite H2'; reflexivity|exact H1'].
Defined.

(** [remove] of a number that is absent changes nothing, of one in a node with one child removes just it, of one in a leaf follows
    a null pointer, and of one in a node with two children drops everything to the right of it as well. *)
Theorem cti_bst_remove_correct x t : ordered t ->
  match place_of x t with
  | Absent => contains x t = false /\ remove x t = Ok t
  | Leaf => contains x t = true /\ remove x t = Stop NullDeref
  | One => contains x t = true /\ exists t', remove x t = Ok t' /\ ordered t' /\ x :: printTree_at t' ≡ₚ printTree_at t
  | Two lost => contains x t = true /\ lost <> [] /\ exists t', remove x t = Ok t' /\ ordered t' /\ x :: printTree_at t' ++ lost ≡ₚ printTree_at t
  end.
Proof.
  intros Ht. assert (Hc : contains x t = match place_of x t with Absent => false | _ => true end /\ (forall lost, place_of x t = Two lost -> lost <> [])).
  { clear Ht. induction t as [|l IHl e r IHr]; [done|]. cbn [contains place_of]. destruct (x <? e)%Z; [done|]. destruct (e <? x)%Z; [done|]. split; [by destruct l, r|].
    intros lost. destruct l, r; try done. intros E. injection E as <-. cbn [printTree_at]. by intros [_ ?]%app_nil. }
  destruct Hc as [-> Hl]. pose proof (remove_perm x t) as HR. pose proof (place_of_leaf x t) as HL. destruct (place_of x t) as [| | |lost].
  - destruct HR as (t' & -> & ->); done.
  - split; [done|]. by apply HL.
  - split; [done|]. destruct HR as (t' & E & HP); [done|]. exists t'. split_and!; [done|by apply (ordered_remove x t)|]. cbn [lost_of] in HP. by rewrite app_nil_r in HP.
  - split; [done|]. split; [by apply Hl|]. destruct HR as (t' & E & HP); [done|]. exists t'. split_and!; [done|by apply (ordered_remove x t)|done].
Qed.

Example cti_bst_remove_correct_witness : remove 2 sample = Stop NullDeref /\ (exists t', remove 5 sample = Ok t' /\ printTree_at t' = [2]%Z) /\ exists t', remove 8 sample = Ok t' /\ ordered t'.
Proof.
  assert (Hs : ordered sample) by (unfold sample; cbn; repeat constructor; lia).
  destruct (cti_bst_remove_correct 2 sample Hs) as [_ E2]. destruct (cti_bst_remove_correct 5 sample Hs) as (_ & _ & t5 & E5 & _ & _).
  destruct (cti_bst_remove_correct 8 sample Hs) as (_ & t8 & E8 & O8 & _).
  split; [exact E2|]. split; [exists t5; split; [exact E5|]; vm_compute in E5; injection E5 as <-; reflexivity|exists t8; split; [exact E8|exact O8]].
Defined.

(** [findMax] of a tree is its least element. *)
Example findMax_is_findMin : findMax sample = Ok (Some 2%Z) /\ findMin sample = Ok (Some 2%Z) /\ findMax_at sample = Ok 9%Z.
Proof. vm_compute. split_and!; reflexivity. Qed.

(** [is_balanced] looks at the heights below the root alone. *)
Example is_balanced_at_root_only : let chain := Node NULL 2 (Node NULL 3 (Node NULL 4 NULL)) in
  is_balanced (Node (Node (Node NULL (-2) NULL) (-1) (Node NULL 0 NULL)) 1 chain) = true /\ is_balanced chain = false.
Proof. vm_compute. split; reflexivity. Qed.
