(* ===== verification/CtiList.v ===== *)
(** The doubly linked lists of src/src/algs/cti/test_cti_list.h and test_cti_list.cpp for [int]: [my_list], and [list_with_sentinel], whose
    nodes form a ring through the node [nil_].  [list_delete] of a [my_list] calls a [list_search] of one argument, which does not exist, so
    that template cannot be instantiated and has no behaviour. *)
From S2P Require Import Prelude.

Record list_node : Type := LNode { key_ : Z; prev_ : option nat; next_ : option nat }.
(** The nodes in memory and the addresses [new] has not given out. *)
Record mem : Type := Mem { nodes : gmap nat list_node; fresh : nat }.

Definition load (m : mem) (p : option nat) : res list_node :=
  match p with
  | None => Stop NullDeref
  | Some x => match nodes m !! x with Some n => Ok n | None => Stop Dangling end
  end.
Definition store (m : mem) (x : nat) (n : list_node) : mem := Mem (<[x := n]> (nodes m)) (fresh m).
Definition set_prev (m : mem) (p v : option nat) : res mem :=
  match p with None => Stop NullDeref | Some x => n ← load m p; Ok (store m x (LNode (key_ n) v (next_ n))) end.
Definition set_next (m : mem) (p v : option nat) : res mem :=
  match p with None => Stop NullDeref | Some x => n ← load m p; Ok (store m x (LNode (key_ n) (prev_ n) v)) end.
(** [new list_node<Key>(node)] *)
Definition new_node (m : mem) (node : list_node) : mem * nat := (Mem (<[fresh m := node]> (nodes m)) (S (fresh m)), fresh m).

(** [list_node(k)] *)
Definition a_node (k : Z) : list_node := LNode k None None.

(** * [my_list] *)
Record my_list : Type := MyList { head_ : option nat; heap : mem }.
Definition empty_list : my_list := MyList None (Mem ∅ 1).

Definition search_round (k : Z) (m : mem) (x : option nat) : res (option nat + option nat) :=
  match x with None => Ok (inr None) | Some _ => n ← load m x; if (key_ n =? k)%Z then Ok (inr x) else Ok (inl (next_ n)) end.
(** The fuel exceeds the nodes in memory. *)
Definition list_search (l : my_list) (k : Z) : res (option nat) := loop (S (size (nodes (heap l)))) (search_round k (heap l)) (head_ l).

Definition list_insert (l : my_list) (node : list_node) : res my_list :=
  let '(m, x) := new_node (heap l) node in
  m ← set_next m (Some x) (head_ l);
  m ← match head_ l with Some _ => set_prev m (head_ l) (Some x) | None => Ok m end;
  m ← set_prev m (Some x) None;
  Ok (MyList (Some x) m).

(** * [list_with_sentinel] *)

(** The address of [nil_], which is part of the list and not from [new]. *)
Definition nil_ : nat := 0.
Definition list_with_sentinel : mem := Mem {[ nil_ := LNode 0 (Some nil_) (Some nil_) ]} 1.

Definition s_search_round (k : Z) (m : mem) (x : option nat) : res (option nat + option nat) :=
  if decide (x = Some nil_) then Ok (inr x) else n ← load m x; if (key_ n =? k)%Z then Ok (inr x) else Ok (inl (next_ n)).
Definition s_list_search (m : mem) (k : Z) : res (option nat) :=
  n ← load m (Some nil_); loop (S (size (nodes m))) (s_search_round k m) (next_ n).

Definition s_list_insert (m : mem) (node : list_node) : res mem :=
  let '(m, x) := new_node m node in
  n ← load m (Some nil_); m ← set_next m (Some x) (next_ n);
  m ← set_prev m (Some x) (Some nil_);
  m ← set_next m (Some nil_) (Some x);
  n ← load m (Some nil_); set_prev m (next_ n) (Some x).

(** [delete x]: undefined for what [new] did not give. *)
Definition delete_node (m : mem) (p : option nat) : res mem :=
  match p with
  | None => Ok m
  | Some x => if decide (x = nil_) then Stop Dangling else _ ← load m p; Ok (Mem (delete x (nodes m)) (fresh m))
  end.
Definition s_list_delete (m : mem) (k : Z) : res mem :=
  x ← s_list_search m k;
  match x with
  | None => Ok m
  | Some _ =>
    n ← load m x; m ← set_next m (prev_ n) (next_ n);
    n ← load m x; m ← set_prev m (next_ n) (prev_ n);
    delete_node m x
  end.

Fixpoint insert_keys (ks : list Z) (l : my_list) : res my_list :=
  match ks with [] => Ok l | k :: ks => l ← insert_keys ks l; list_insert l (a_node k) end.
Fixpoint s_insert_keys (ks : list Z) (m : mem) : res mem :=
  match ks with [] => Ok m | k :: ks => m ← s_insert_keys ks m; s_list_insert m (a_node k) end.

(** * [my_list] is a list *)

(** The nodes of the keys [ks], the first one inserted last; the node at address [i] was inserted as number [i]. *)
Fixpoint chain (m : gmap nat list_node) (before : option nat) (ks : list Z) : Prop :=
  match ks with
  | [] => True
  | k :: ks => m !! S (length ks) = Some (LNode k before (match ks with [] => None | _ => Some (length ks) end)) /\ chain m (Some (S (length ks))) ks
  end.
Definition first_of (ks : list Z) : option nat := match ks with [] => None | _ => Some (length ks) end.
Definition my_list_of (l : my_list) (ks : list Z) : Prop :=
  head_ l = first_of ks /\ fresh (heap l) = S (length ks) /\ chain (nodes (heap l)) None ks /\ (forall x, is_Some (nodes (heap l) !! x) <-> 1 <= x <= length ks).

Lemma nodes_frame m m' b ks : (forall x, 1 <= x <= length ks -> m' !! x = m !! x) -> chain m b ks -> chain m' b ks.
Proof.
  revert b. induction ks as [|k ks IH]; intros b Hf; [done|]. intros [Hk Hc]. split; [rewrite Hf by (cbn; lia); done|]. apply IH; [|done]. intros x Hx. apply Hf. cbn. lia.
Qed.

Lemma list_insert_ok l ks k : my_list_of l ks -> exists l', list_insert l (a_node k) = Ok l' /\ my_list_of l' (k :: ks).
Proof.
  intros (Hh & Hf & Hc & Hd). unfold list_insert, new_node. rewrite Hh, Hf. cbn [heap]. unfold set_next, set_prev, load, store. cbn [nodes fresh].
  rewrite lookup_insert_eq. cbn [mbind res_bind nodes key_ prev_ next_]. destruct ks as [|k1 ks]; cbn [first_of length] in *.
  - cbn [mbind res_bind nodes fresh key_ prev_ next_]. rewrite lookup_insert_eq. cbn [mbind res_bind key_ prev_ next_ nodes fresh].
    eexists. split; [done|]. split_and!; [done|done| |].
    + cbn [heap nodes chain length]. split; [by rewrite lookup_insert_eq|done].
    + intros x. cbn [heap nodes length]. rewrite !insert_insert_eq. destruct (decide (x = 1)) as [->|Hne]; [rewrite lookup_insert_eq; split; [lia|by eexists]|].
      rewrite lookup_insert_ne by done. rewrite Hd. lia.
  - destruct Hc as [Hk1 Hc]. rewrite !lookup_insert_ne by lia. rewrite Hk1. cbn [mbind res_bind nodes fresh key_ prev_ next_].
    rewrite lookup_insert_ne by lia. rewrite lookup_insert_eq. cbn [mbind res_bind nodes fresh key_ prev_ next_].
    eexists. split; [done|]. split_and!; [done|done| |].
    + cbn [heap nodes chain]. split; [by rewrite lookup_insert_eq|]. split; [rewrite lookup_insert_ne, lookup_insert_eq by (cbn; lia); done|].
      eapply nodes_frame; [|exact Hc]. intros x Hx. rewrite !lookup_insert_ne by (cbn in *; lia). done.
    + intros x. cbn [heap nodes length]. destruct (decide (x = S (S (length ks)))) as [->|H1']; [rewrite lookup_insert_eq; split; [lia|by eexists]|].
      rewrite lookup_insert_ne by done. destruct (decide (x = S (length ks))) as [->|H2']; [rewrite lookup_insert_eq; split; [lia|by eexists]|].
      rewrite !lookup_insert_ne by done. rewrite Hd. cbn [length]. lia.
Qed.

(** The address of the first of the keys that equals [k]. *)
Fixpoint found (k : Z) (ks : list Z) : option nat :=
  match ks with [] => None | k1 :: ks' => if (k1 =? k)%Z then Some (length ks) else found k ks' end.

Lemma search_loop_ok m b ks k fuel : chain (nodes m) b ks -> length ks < fuel -> loop fuel (search_round k m) (first_of ks) = Ok (found k ks).
Proof.
  revert b fuel. induction ks as [|k1 ks IH]; intros b [|fuel] Hc Hf; cbn [length] in *; [lia|done|lia|]. destruct Hc as [Hk Hc].
  rewrite loop_step. cbn [search_round first_of]. unfold load. cbn [length]. rewrite Hk. cbn [mbind res_bind key_ next_ found]. destruct (k1 =? k)%Z; [done|].
  apply (IH (Some (S (length ks)))); [done|lia].
Qed.

Lemma size_at_least (m : gmap nat list_node) n : (forall x, 1 <= x <= n -> is_Some (m !! x)) -> n <= size m.
Proof.
  intros Hd. rewrite <- (size_dom (D := gset nat)). transitivity (size (list_to_set (seq 1 n) : gset nat)); [by rewrite size_list_to_set, length_seq by apply NoDup_seq|].
  apply subseteq_size. intros x Hx. apply elem_of_list_to_set, elem_of_seq in Hx. apply elem_of_dom, Hd. lia.
Qed.

(** Insertions into an empty [my_list] never fail, and a search then finds the node of the last insertion of the key, or a null
    pointer if it was never inserted. *)
Theorem my_list_correct ks k : exists l, insert_keys ks empty_list = Ok l /\ list_search l k = Ok (found k ks) /\ (found k ks = None <-> k ∉ ks).
Proof.
  assert (Hl : exists l, insert_keys ks empty_list = Ok l /\ my_list_of l ks).
  { induction ks as [|k1 ks IH].
    - exists empty_list. do 4 (split; [done|]). intros x. cbn. rewrite lookup_empty. split; [by intros [? ?]|lia].
    - destruct IH as (l & E & HL). cbn [insert_keys]. rewrite E. cbn [mbind res_bind]. by apply list_insert_ok. }
  destruct Hl as (l & E & Hh & Hf & Hc & Hd). exists l. split_and!; [done| |].
  - unfold list_search. rewrite Hh. apply (search_loop_ok _ None); [done|]. apply Nat.lt_succ_r, size_at_least. intros x Hx. by apply Hd.
  - clear. induction ks as [|k1 ks IH]; cbn [found]; [split; [intros _; apply not_elem_of_nil|done]|].
    rewrite not_elem_of_cons. destruct (Z.eqb_spec k1 k) as [->|Hne]; [split; [done|by intros [? _]]|]. rewrite IH. split; [intros ?; split; [congruence|done]|tauto].
Qed.

(** * [list_with_sentinel] dangles *)

(** The ring forwards is right, but every node is its own predecessor. *)
Fixpoint ring (m : gmap nat list_node) (ks : list Z) : Prop :=
  match ks with
  | [] => True
  | k :: ks => m !! S (length ks) = Some (LNode k (Some (S (length ks))) (Some (length ks))) /\ ring m ks
  end.
Definition ring_of (m : mem) (ks : list Z) : Prop :=
  fresh m = S (length ks) /\ nodes m !! nil_ = Some (LNode 0 (Some nil_) (Some (length ks))) /\ ring (nodes m) ks /\ (forall x, is_Some (nodes m !! x) <-> x <= length ks).

Lemma ring_frame m m' ks : (forall x, 1 <= x <= length ks -> m' !! x = m !! x) -> ring m ks -> ring m' ks.
Proof.
  induction ks as [|k ks IH]; intros Hf; [done|]. intros [Hk Hc]. split; [rewrite Hf by (cbn; lia); done|]. apply IH; [|done]. intros x Hx. apply Hf. cbn. lia.
Qed.

Lemma s_insert_ok m ks k : ring_of m ks -> exists m', s_list_insert m (a_node k) = Ok m' /\ ring_of m' (k :: ks).
Proof.
  intros (Hf & H0 & Hr & Hd). unfold s_list_insert, new_node, set_next, set_prev, load, store, nil_ in *. rewrite Hf. cbn [nodes fresh].
  rewrite (lookup_insert_ne _ _ 0), H0, lookup_insert_eq by lia. cbn [mbind res_bind nodes fresh key_ prev_ next_].
  rewrite lookup_insert_eq. cbn [mbind res_bind nodes fresh key_ prev_ next_]. rewrite !(lookup_insert_ne _ _ 0), H0 by lia. cbn [mbind res_bind nodes fresh key_ prev_ next_].
  rewrite lookup_insert_eq. cbn [mbind res_bind nodes fresh key_ prev_ next_]. rewrite lookup_insert_ne, lookup_insert_eq by lia. cbn [mbind res_bind nodes fresh key_ prev_ next_].
  eexists. split; [done|]. split_and!; [done| | |].
  - cbn [nodes length]. unfold nil_. rewrite lookup_insert_ne, lookup_insert_eq by lia. done.
  - cbn [nodes ring]. split; [by rewrite lookup_insert_eq|]. eapply ring_frame; [|exact Hr]. intros x Hx. by rewrite !lookup_insert_ne by lia.
  - intros x. cbn [nodes length]. destruct (decide (x = S (length ks))) as [->|H1']; [rewrite lookup_insert_eq; split; [lia|by eexists]|]. rewrite lookup_insert_ne by done.
    destruct (decide (x = 0)) as [->|H2']; [rewrite lookup_insert_eq; split; [lia|by eexists]|]. rewrite !lookup_insert_ne by done. rewrite Hd. lia.
Qed.

Definition found_or_nil (k : Z) (ks : list Z) : nat := match found k ks with Some x => x | None => nil_ end.

Lemma s_search_loop_ok m ks k fuel : ring (nodes m) ks -> length ks < fuel -> loop fuel (s_search_round k m) (Some (length ks)) = Ok (Some (found_or_nil k ks)).
Proof.
  revert fuel. induction ks as [|k1 ks IH]; intros [|fuel] Hc Hf; cbn [length] in *; [lia|done|lia|]. destruct Hc as [Hk Hc].
  rewrite loop_step. unfold s_search_round at 1. rewrite decide_False by done. unfold load. rewrite Hk. cbn [mbind res_bind key_ next_]. unfold found_or_nil. cbn [found length].
  destruct (k1 =? k)%Z; [done|]. apply IH; [done|lia].
Qed.

Lemma ring_size m ks : ring_of m ks -> length ks < S (size (nodes m)).
Proof. intros (_ & _ & _ & Hd). apply Nat.lt_succ_r, size_at_least. intros x Hx. apply Hd. lia. Qed.

Lemma s_search_ok m ks k : ring_of m ks -> s_list_search m k = Ok (Some (found_or_nil k ks)).
Proof.
  intros HR. pose proof (ring_size _ _ HR) as Hs. destruct HR as (_ & H0 & Hr & _). unfold s_list_search, load. rewrite H0. cbn [mbind res_bind next_]. by apply s_search_loop_ok.
Qed.

Lemma found_split k l1 l2 : k ∉ l1 -> found k (l1 ++ k :: l2) = Some (S (length l2)).
Proof.
  induction l1 as [|k1 l1 IH]; intros Hn; cbn [app found]; [by rewrite Z.eqb_refl|]. apply not_elem_of_cons in Hn as [Hne Hn]. destruct (Z.eqb_spec k1 k); [congruence|by apply IH].
Qed.

Lemma ring_at m l1 k l2 : ring m (l1 ++ k :: l2) -> m !! S (length l2) = Some (LNode k (Some (S (length l2))) (Some (length l2))) /\ ring m l2.
Proof. induction l1 as [|k1 l1 IH]; cbn [app ring]; [done|]. intros [_ Hr]. by apply IH. Qed.

(** Deleting a node leaves it linked: only the prev_ of the node behind it changes. *)
Lemma s_delete_found m l1 k l2 : ring_of m (l1 ++ k :: l2) -> k ∉ l1 -> exists n0 n1 m',
  s_list_delete m k = Ok m' /\ nodes m !! length l2 = Some n1 /\ next_ n0 = next_ n1 /\ nodes m' = delete (S (length l2)) (<[length l2 := n0]> (nodes m)).
Proof.
  intros HR Hn. unfold s_list_delete. rewrite (s_search_ok _ _ _ HR). unfold found_or_nil. rewrite found_split by done. cbn [mbind res_bind].
  destruct HR as (Hf & H0 & Hr & Hd). destruct (ring_at _ _ _ _ Hr) as [Hx _]. destruct (proj2 (Hd (length l2))) as [n1 H1']; [rewrite length_app; cbn; lia|].
  unfold set_next, set_prev, delete_node, load, store, nil_. rewrite Hx. cbn [mbind res_bind prev_ next_ nodes fresh key_]. rewrite Hx. cbn [mbind res_bind prev_ next_ nodes fresh key_].
  rewrite lookup_insert_eq. cbn [mbind res_bind prev_ next_ nodes fresh key_]. rewrite lookup_insert_ne by lia. rewrite H1'. cbn [mbind res_bind prev_ next_ nodes fresh key_].
  rewrite decide_False by done. rewrite lookup_insert_ne, lookup_insert_eq by lia. cbn [mbind res_bind]. eexists (LNode (key_ n1) (Some (S (length l2))) (next_ n1)), n1, _. split; [done|]. split; [done|]. split; [done|]. cbn [nodes]. rewrite (insert_id _ (S (length l2))) by done. done.
Qed.

Lemma s_search_dangling m l1 k l2 k' fuel : ring (nodes m) (l1 ++ k :: l2) -> k' ∉ l1 -> length l1 < fuel -> forall m' n0,
  nodes m' = delete (S (length l2)) (<[length l2 := n0]> (nodes m)) -> loop fuel (s_search_round k' m') (Some (length (l1 ++ k :: l2))) = Stop Dangling.
Proof.
  intros Hr Hn Hf m' n0 Em. revert fuel Hf. induction l1 as [|k1 l1 IH]; intros [|fuel] Hf; cbn [app length] in *; [lia| |lia|]; rewrite loop_step; unfold s_search_round at 1.
  - rewrite decide_False by done. unfold load. by rewrite Em, lookup_delete_eq.
  - destruct Hr as [Hk Hr]. apply not_elem_of_cons in Hn as [Hne Hn]. rewrite length_app in *. cbn [length] in *. rewrite decide_False by done. unfold load.
    rewrite Em, lookup_delete_ne, lookup_insert_ne, Hk by lia. cbn [mbind res_bind key_ next_]. destruct (Z.eqb_spec k1 k'); [congruence|]. apply IH; [done|done|lia].
Qed.

(** In a list with a sentinel insertions and searches work, but deleting a key that is absent frees the sentinel, and deleting one that is
    present frees a node that stays linked: every later search for a key not found before it follows the freed node. *)
Theorem sentinel_list_correct ks : exists m, s_insert_keys ks list_with_sentinel = Ok m /\ (forall k, s_list_search m k = Ok (Some (found_or_nil k ks))) /\
  (forall k, k ∉ ks -> s_list_delete m k = Stop Dangling) /\
  (forall l1 k l2, ks = l1 ++ k :: l2 -> k ∉ l1 -> exists m', s_list_delete m k = Ok m' /\ forall k', k' ∉ l1 -> s_list_search m' k' = Stop Dangling).
Proof.
  assert (Hm : exists m, s_insert_keys ks list_with_sentinel = Ok m /\ ring_of m ks).
  { induction ks as [|k1 ks IH].
    - eexists. split; [done|]. split; [done|]. split; [done|]. split; [done|]. intros x. cbn [list_with_sentinel nodes length]. rewrite lookup_singleton_is_Some. unfold nil_. lia.
    - destruct IH as (m & E & HR). cbn [s_insert_keys]. rewrite E. cbn [mbind res_bind]. by apply s_insert_ok. }
  destruct Hm as (m & E & HR). exists m. split; [done|]. split; [intros k; by apply s_search_ok|]. split.
  - intros k Hk. unfold s_list_delete. rewrite (s_search_ok _ _ _ HR). unfold found_or_nil. assert (found k ks = None) as ->.
    { clear - Hk. induction ks as [|k1 ks IH]; [done|]. apply not_elem_of_cons in Hk as [Hne Hk]. cbn [found]. destruct (Z.eqb_spec k1 k); [congruence|by apply IH]. }
    cbn [mbind res_bind]. destruct HR as (_ & H0 & _ & Hd). destruct (proj2 (Hd (length ks))) as [n1 H1']; [lia|]. unfold set_next, set_prev, delete_node, load, store. rewrite H0. cbn [mbind res_bind prev_ next_ nodes fresh key_].
    rewrite H0. cbn [mbind res_bind prev_ next_ nodes fresh key_]. rewrite lookup_insert_eq. cbn [mbind res_bind prev_ next_ nodes fresh key_].
    assert (Hl : exists n2, (<[nil_:=LNode 0 (Some nil_) (Some (length ks))]> (nodes m)) !! length ks = Some n2).
    { destruct (decide (length ks = nil_)) as [->|Hne]; [rewrite lookup_insert_eq|rewrite lookup_insert_ne by done]; by eexists. }
    destruct Hl as [n2 ->]. cbn [mbind res_bind]. by rewrite decide_True.
  - intros l1 k l2 -> Hk. destruct (s_delete_found _ _ _ _ HR Hk) as (n0 & n1 & m' & Ed & E1 & En & Em). exists m'. split; [done|]. intros k' Hk'.
    pose proof (ring_size _ _ HR) as Hsz. destruct HR as (Hf & H0 & Hr & Hd). destruct (ring_at _ _ _ _ Hr) as [Hx _].
    assert (Hnil : exists n, nodes m' !! nil_ = Some n /\ next_ n = Some (length (l1 ++ k :: l2))).
    { rewrite Em. unfold nil_ in *. rewrite lookup_delete_ne by lia. destruct (decide (length l2 = 0)) as [E0|Hne].
      - rewrite E0 in *. rewrite lookup_insert_eq. exists n0. split; [done|]. rewrite En. rewrite H0 in E1. by injection E1 as <-.
      - rewrite lookup_insert_ne by done. by eexists. }
    destruct Hnil as (n & E0 & Enx). unfold s_list_search. unfold load at 1. rewrite E0. cbn [mbind res_bind]. rewrite Enx.
    apply (s_search_dangling m l1 k l2 k' _ Hr Hk') with (n0 := n0); [|done]. rewrite Em, map_size_delete_Some, map_size_insert_Some.
    + rewrite length_app in Hsz. cbn [length] in Hsz. lia.
    + by exists n1.
    + rewrite lookup_insert_ne by lia. by eexists.
Qed.

(** The main program. *)
Example test_list_main : exists m m', s_insert_keys [8%Z] list_with_sentinel = Ok m /\ s_list_search m 5 = Ok (Some nil_) /\ s_list_delete m 8 = Ok m' /\ s_list_search m' 8 = Stop Dangling.
Proof. eexists _, _. split_and!; reflexivity. Qed.
