(* ===== verification/CtiGraph.v ===== *)
(** The graph searches of src/src/algs/cti/test_cti_graph.h and test_cti_graph.cpp.  The graphs are those of the Boost library: the class
    [BoostGraph] gives the number of vertices of a graph with vertices in a vector, which are 0, 1, ..., and the adjacent vertices of each in
    the library's order; its law [BoostGraphOk] says that these are vertices. *)
From S2P Require Import Prelude.

Class BoostGraph : Type := { num_vertices : nat; adjacent_vertices : nat -> list nat }.
Class BoostGraphOk `{BoostGraph} : Prop := { adjacent_ok : forall u v, v ∈ adjacent_vertices u -> v < num_vertices }.

Inductive Color : Type := White | Gray | Black.
#[export] Instance Color_eq_dec : EqDecision Color.
Proof. solve_decision. Defined.

(** The properties of a vertex; [p_] points to those of another one. *)
Record my_vertex : Type := MyVertex { color_ : Color; d_ : Z; f_ : Z; dist_ : Z; p_ : option nat }.
Definition a_vertex : my_vertex := MyVertex White 0 0 (-1) None.
#[export] Instance my_vertex_inhabited : Inhabited my_vertex := populate a_vertex.

(** The properties of the vertices, which [g[u]] indexes. *)
Notation props := (list my_vertex).

Section Search.
Context `{BoostGraph}.

Definition vget (g : props) (u : nat) : res my_vertex := match g !! u with Some x => Ok x | None => Stop OutOfBounds end.
Definition vset (g : props) (u : nat) (x : my_vertex) : res props := match g !! u with Some _ => Ok (<[u := x]> g) | None => Stop OutOfBounds end.
Definition new_graph : props := replicate num_vertices a_vertex.

(** * Breadth first *)

(** The loop over the vertices adjacent to [u]. *)
Fixpoint bfs_adjacent (u : nat) (vs : list nat) (g : props) (Q : list nat) : res (props * list nat) :=
  match vs with
  | [] => Ok (g, Q)
  | v :: vs =>
    x ← vget g v;
    if decide (color_ x = White) then
      xu ← vget g u; k ← ck (dist_ xu + 1);
      g ← vset g v (MyVertex Gray (d_ x) (f_ x) k (Some u));
      bfs_adjacent u vs g (Q ++ [v])
    else bfs_adjacent u vs g Q
  end.

Definition bfs_round (st : props * list nat) : res (props * list nat + props) :=
  match st.2 with
  | [] => Ok (inr st.1)
  | u :: Q =>
    '(g, Q) ← bfs_adjacent u (adjacent_vertices u) st.1 Q;
    x ← vget g u; g ← vset g u (MyVertex Black (d_ x) (f_ x) (dist_ x) (p_ x));
    Ok (inl (g, Q))
  end.

(** Every vertex enters the queue once. *)
Definition breadth_first_search (g : props) (s : nat) : res props :=
  x ← vget g s; g ← vset g s (MyVertex Gray (d_ x) (f_ x) 0 (p_ x)); loop (num_vertices + 2) bfs_round (g, [s]).

(** [print_path(g, s, v)] on the properties of the vertices: the distances it writes, or those of [s] and [v] when [v] has no path. *)
Inductive printed : Type := Dist (k : Z) | NotExit (ks kv : Z).
Fixpoint print_path (fuel : nat) (g : props) (s v : nat) : res (list printed) :=
  match fuel with
  | O => Stop OutOfFuel
  | S fuel =>
    xs ← vget g s; xv ← vget g v;
    if decide (s = v) then Ok [Dist (dist_ xs)]
    else match p_ xv with
         | None => Ok [NotExit (dist_ xs) (dist_ xv)]
         | Some p => out ← print_path fuel g s p; Ok (out ++ [Dist (dist_ xv)])
         end
  end.

(** * Depth first *)

(** What the searches write. *)
Inductive event : Type := Open (u : nat) (d : Z) | Close (u : nat) (f : Z) | NewLine.
(** The counter [time] is static: it keeps its value between the calls. *)
Record dfs_state : Type := DS { vs : props; time : Z; out : list event }.

(** [g[u].color_ = Gray; g[u].d_ = time++;] and the output. *)
Definition discover (u : nat) (st : dfs_state) : res dfs_state :=
  x ← vget (vs st) u; t ← ck (time st + 1);
  g ← vset (vs st) u (MyVertex Gray (time st) (f_ x) (dist_ x) (p_ x));
  Ok (DS g t (out st ++ [Open u (time st)])).
Definition finish (u : nat) (st : dfs_state) : res dfs_state :=
  x ← vget (vs st) u; t ← ck (time st + 1);
  g ← vset (vs st) u (MyVertex Black (d_ x) (time st) (dist_ x) (p_ x));
  Ok (DS g t (out st ++ [Close u (time st)])).

(** The loop over adjacent vertices that visits the white ones. *)
Fixpoint for_white (visit : nat -> dfs_state -> res dfs_state) (l : list nat) (st : dfs_state) : res dfs_state :=
  match l with
  | [] => Ok st
  | v :: l => x ← vget (vs st) v; if decide (color_ x = White) then st ← visit v st; for_white visit l st else for_white visit l st
  end.
(** The recursion; [fuel] bounds its depth. *)
Fixpoint depth_first_visit (fuel : nat) (u : nat) (st : dfs_state) : res dfs_state :=
  match fuel with
  | O => Stop OutOfFuel
  | S fuel => st ← discover u st; st ← for_white (depth_first_visit fuel) (adjacent_vertices u) st; finish u st
  end.

(** The loop over all vertices that both searches share, with their visits of a white vertex. *)
Fixpoint each_vertex (visit : nat -> dfs_state -> res dfs_state) (l : list nat) (st : dfs_state) : res dfs_state :=
  match l with
  | [] => Ok st
  | u :: l => x ← vget (vs st) u;
              if decide (color_ x = White) then st ← visit u st; each_vertex visit l (DS (vs st) (time st) (out st ++ [NewLine]))
              else each_vertex visit l st
  end.
Definition depth_first_search (st : dfs_state) : res dfs_state := each_vertex (depth_first_visit (num_vertices + 1)) (seq 0 num_vertices) st.

(** The two nested loops of the search without recursion as one: [iter] is [None] before a round of the outer loop and the vertices left
    to the iterator inside the inner one. *)
Record machine : Type := Mach { stk : list nat; iter : option (list nat); ms : dfs_state }.
Definition machine_round (m : machine) : res (machine + dfs_state) :=
  match iter m with
  | None =>
    match stk m with
    | [] => Ok (inr (ms m))
    | t :: _ => Ok (inl (Mach (stk m) (Some (adjacent_vertices t)) (ms m)))
    end
  | Some [] =>
    match stk m with
    | [] => Stop EmptyContainer
    | t :: rest => st ← finish t (ms m); Ok (inl (Mach rest None st))
    end
  | Some (v :: l) =>
    x ← vget (vs (ms m)) v;
    if decide (color_ x = White) then st ← discover v (ms m); Ok (inl (Mach (v :: stk m) (Some (adjacent_vertices v)) st))
    else Ok (inl (Mach (stk m) (Some l) (ms m)))
  end.
(** A white vertex [u] of the outermost loop. *)
Definition visit_non_recursive (fuel : nat) (u : nat) (st : dfs_state) : res dfs_state :=
  st ← discover u st; loop fuel machine_round (Mach [u] None st).
Definition depth_first_search_non_recursive (fuel : nat) (st : dfs_state) : res dfs_state := each_vertex (visit_non_recursive fuel) (seq 0 num_vertices) st.

(** * Topological sort *)

(** [m[g[u].f_] = u] for every vertex, then the vertices of the map by increasing key. *)
Definition by_finish (g : props) : list (Z * nat) := imap (fun u x => (f_ x, u)) g.
Fixpoint map_insert (k : Z) (v : nat) (m : list (Z * nat)) : list (Z * nat) :=
  match m with
  | [] => [(k, v)]
  | (k1, v1) :: m' => if (k <? k1)%Z then (k, v) :: m else if (k =? k1)%Z then (k, v) :: m' else (k1, v1) :: map_insert k v m'
  end.
Definition topological_sort (st : dfs_state) : res (dfs_state * list nat) :=
  st ← depth_first_search st;
  Ok (st, (foldl (fun m kv => map_insert kv.1 kv.2 m) [] (by_finish (vs st))).*2).
End Search.

(** * Breadth first in a map of lists

    The search of a [dag_graph_t], whose results are local to the function: the state at its end is what it computes. *)
Record dag_state : Type := DagState { dist : gmap Z Z; parent : gmap Z Z; known : gmap Z bool; queue : list Z }.

Fixpoint dag_adjacent (u : Z) (vs : list Z) (st : dag_state) : dag_state :=
  match vs with
  | [] => st
  | v :: vs =>
    dag_adjacent u vs
      (if default false (known st !! v) then st
       else DagState (<[v := (default 0 (dist st !! u) + 1)%Z]> (dist st)) (<[v := u]> (parent st)) (<[v := true]> (known st)) (queue st ++ [v]))
  end.
Definition dag_round (g : gmap Z (list Z)) (st : dag_state) : res (dag_state + dag_state) :=
  match queue st with
  | [] => Ok (inr st)
  | u :: Q =>
    let st := dag_adjacent u (default [] (g !! u)) (DagState (dist st) (parent st) (known st) Q) in
    Ok (inl (DagState (dist st) (parent st) (<[u := true]> (known st)) (queue st)))
  end.
Definition dag_breadth_first_search (fuel : nat) (g : gmap Z (list Z)) (s : Z) : res dag_state :=
  loop fuel (dag_round g) (DagState {[ s := 0%Z ]} {[ s := (-1)%Z ]} ∅ [s]).

(** The graph of the test program from vertex 3. *)
Example dag_main : exists st, dag_breadth_first_search 10 (list_to_map [(1, [2; 4]); (3, [1; 6]); (2, [4; 5]); (4, [3; 5; 6; 7]); (5, [7]); (7, [6])]%Z) 3 = Ok st /\
  omap (fun v => dist st !! v) [1; 2; 3; 4; 5; 6; 7]%Z = [1; 2; 0; 2; 3; 1; 3]%Z.
Proof. eexists. split; vm_compute; reflexivity. Qed.

(** The start is marked as known only after its list has been read: an edge to itself gives it the distance 1. *)
Example dag_self_loop : exists st, dag_breadth_first_search 5 {[ 1%Z := [1%Z] ]} 1 = Ok st /\ dist st !! 1%Z = Some 1%Z.
Proof. eexists. split; vm_compute; reflexivity. Qed.

Lemma vget_ok (g : props) u x : g !! u = Some x -> vget g u = Ok x.
Proof. intros E. unfold vget. by rewrite E. Qed.
Lemma vset_ok (g : props) u x y : g !! u = Some x -> vset g u y = Ok (<[u := y]> g).
Proof. intros E. unfold vset. by rewrite E. Qed.
