(* ===== verification/CtiBfs.v ===== *)
(** The breadth first search of test_cti_graph.cpp finds shortest paths, and [print_path] writes them. *)
From S2P Require Import Prelude CtiGraph.

Section Bfs.
Context `{BoostGraphOk}.
Context (s : nat).

Definition edge (u v : nat) : Prop := v ∈ adjacent_vertices u.
(** [v] has been discovered at distance [k]. *)
Definition seen (g : props) (v k : nat) : Prop := exists x, g !! v = Some x /\ color_ x <> White /\ dist_ x = Z.of_nat k.
Definition nonwhite (g : props) : nat := length (filter (fun x => color_ x <> White) g).

Lemma seen_fun g v k k' : seen g v k -> seen g v k' -> k = k'.
Proof. intros (x & E & _ & D) (x' & E' & _ & D'). rewrite E in E'. injection E' as <-. lia. Qed.

Lemma nonwhite_le g : nonwhite g <= length g.
Proof. apply length_filter. Qed.

Lemma nonwhite_insert g v x y : g !! v = Some x -> color_ y <> White -> nonwhite (<[v := y]> g) = nonwhite g + (if decide (color_ x = White) then 1 else 0).
Proof.
  intros E Hy. rewrite <- (take_drop_middle g v x E). pose proof (lookup_lt_Some _ _ _ E). rewrite insert_app_r_alt by (rewrite length_take; lia).
  rewrite length_take, Nat.min_l by lia. rewrite Nat.sub_diag. cbn [insert list_insert]. unfold nonwhite. rewrite !filter_app, !filter_cons, !length_app.
  rewrite (decide_True (P := color_ y <> White)) by done. cbn [length]. destruct (decide (color_ x = White)) as [Ew|Ew].
  - rewrite (decide_False (P := color_ x <> White)) by (by intros []). lia.
  - rewrite (decide_True (P := color_ x <> White)) by done. cbn [length]. lia.
Qed.

(** What holds while the vertices of level [d] are processed: the queue holds some of that level, then some of the next one, and nothing
    beyond it has been discovered. *)
Record level (g : props) (Q : list nat) (d : nat) : Prop := {
  lv_len : length g = num_vertices;
  lv_queue : exists Q1 Q2, Q = Q1 ++ Q2 /\ Forall (fun v => seen g v d) Q1 /\ Forall (fun v => seen g v (S d)) Q2;
  lv_max : forall v k, seen g v k -> k <= S d;
  lv_sound : forall v k, seen g v k -> nsteps edge k s v;
  lv_source : seen g s 0;
  lv_count : forall v k, seen g v k -> k < nonwhite g;
  lv_white : forall v x, g !! v = Some x -> color_ x = White -> x = a_vertex;
  lv_seen : forall v x, g !! v = Some x -> color_ x <> White -> exists k, seen g v k;
  lv_parent : forall v k, seen g v k -> v <> s -> exists x p j, g !! v = Some x /\ p_ x = Some p /\ seen g p j /\ k = S j;
}.
(** The successors of what is discovered and not in the queue are discovered, one level further at most. *)
Definition closed (g : props) (Q : list nat) : Prop :=
  forall v k, seen g v k -> v ∉ Q -> forall w, edge v w -> exists j, seen g w j /\ j <= S k.

Lemma seen_insert g v y w k : v < length g -> w <> v -> seen (<[v := y]> g) w k <-> seen g w k.
Proof. intros Hv Hne. unfold seen. by rewrite list_lookup_insert_ne by done. Qed.

(** Discovering the white vertex [v] from [u]. *)
Lemma level_push g Q d u v x : level g Q d -> seen g u d -> edge u v -> g !! v = Some x -> color_ x = White ->
  let g' := <[v := MyVertex Gray (d_ x) (f_ x) (Z.of_nat (S d)) (Some u)]> g in
  level g' (Q ++ [v]) d /\ (forall w k, seen g' w k <-> seen g w k \/ w = v /\ k = S d) /\ nonwhite g' = S (nonwhite g).
Proof.
  intros HL Hu He Ev Ew g'. pose proof (lookup_lt_Some _ _ _ Ev) as Hv.
  assert (Hnv : forall k, ~ seen g v k) by (intros k (x' & E' & W' & _); rewrite Ev in E'; injection E' as <-; done).
  assert (Hs : forall w k, seen g' w k <-> seen g w k \/ w = v /\ k = S d).
  { intros w k. destruct (decide (w = v)) as [->|Hne].
    - split; [|intros [Hk|[_ ->]]; [by apply Hnv in Hk|]].
      + intros (y & Ey & _ & Dy). unfold g' in Ey. rewrite list_lookup_insert_eq in Ey by done. injection Ey as <-. cbn in Dy. right. split; [done|lia].
      + eexists. unfold g'. rewrite list_lookup_insert_eq by done. done.
    - unfold g'. rewrite seen_insert by done. tauto. }
  assert (Hc : nonwhite g' = S (nonwhite g)) by (unfold g'; rewrite (nonwhite_insert g v x) by done; rewrite decide_True by done; lia).
  split_and!; [|done|done]. destruct HL as [L Hq Hm Hsd Hz Hct Hw Hse Hp]. constructor.
  - unfold g'. by rewrite length_insert.
  - destruct Hq as (Q1 & Q2 & -> & F1 & F2). exists Q1, (Q2 ++ [v]). rewrite app_assoc. split_and!; [done| |].
    + eapply Forall_impl; [exact F1|]. intros w Hk. apply Hs. by left.
    + rewrite Forall_app. split; [eapply Forall_impl; [exact F2|]; intros w Hk; apply Hs; by left|]. constructor; [|constructor]. apply Hs. by right.
  - intros w k [Hk|[-> ->]]%Hs; [by apply Hm in Hk|done].
  - intros w k [Hk|[-> ->]]%Hs; [by apply Hsd|]. eapply nsteps_r; [by apply Hsd|done].
  - apply Hs. by left.
  - intros w k [Hk|[-> ->]]%Hs; rewrite Hc; [apply Hct in Hk; lia|]. apply Hct in Hu. lia.
  - intros w y Ey Wy. unfold g' in Ey. destruct (decide (w = v)) as [->|Hne]; [rewrite list_lookup_insert_eq in Ey by done; injection Ey as <-; done|].
    rewrite list_lookup_insert_ne in Ey by done. by apply (Hw w).
  - intros w y Ey Wy. unfold g' in Ey. destruct (decide (w = v)) as [->|Hne]; [exists (S d); apply Hs; by right|].
    rewrite list_lookup_insert_ne in Ey by done. destruct (Hse w y Ey Wy) as [k Hk]. exists k. apply Hs. by left.
  - intros w k [Hk|[-> ->]]%Hs Hns.
    + destruct (Hp w k Hk Hns) as (y & p & j & Ey & Ep & Hj & ->). exists y, p, j. split_and!; [|done|apply Hs; by left|done].
      unfold g'. rewrite list_lookup_insert_ne; [done|]. intros <-. by apply Hnv in Hk.
    + eexists _, u, d. unfold g'. rewrite list_lookup_insert_eq by done. split_and!; [done|done|apply Hs; by left|done].
Qed.

Lemma bfs_adjacent_ok u d l g Q : level g Q d -> seen g u d -> (forall w, w ∈ l -> edge u w) -> (Z.of_nat num_vertices <= INT_MAX)%Z ->
  exists g' Q', bfs_adjacent u l g Q = Ok (g', Q') /\ level g' Q' d /\ (forall v k, seen g v k -> seen g' v k) /\ (forall w, w ∈ l -> exists j, seen g' w j) /\
    nonwhite g' + length Q = nonwhite g + length Q' /\ (forall v, v ∈ Q -> v ∈ Q') /\ (forall v k, seen g' v k -> seen g v k \/ v ∈ Q').
Proof.
  intros HL Hu Hl Hn. revert g Q HL Hu. induction l as [|v l IH]; intros g Q HL Hu.
  { exists g, Q. split_and!; try done; [|by left]. by intros w ?%not_elem_of_nil. }
  assert (He : edge u v) by (apply Hl; by left). assert (Hv : v < num_vertices) by (by apply (adjacent_ok u)).
  destruct (lookup_lt_is_Some_2 g v) as [x Ex]; [by rewrite (lv_len _ _ _ HL)|]. cbn [bfs_adjacent]. rewrite (vget_ok _ _ _ Ex). cbn [mbind res_bind].
  assert (Hl' : forall w, w ∈ l -> edge u w) by (intros w Hw; apply Hl; by right). destruct (decide (color_ x = White)) as [Ew|Ew].
  - destruct (level_push g Q d u v x HL Hu He Ex Ew) as (HL' & Hs & Hc). set (g1 := <[v := _]> g) in *.
    pose proof (nonwhite_le g1) as Hle. rewrite (lv_len _ _ _ HL') in Hle. pose proof (lv_count _ _ _ HL u d Hu).
    destruct Hu as (xu & Eu & Wu & Du). rewrite (vget_ok _ _ _ Eu). cbn [mbind res_bind]. rewrite Du.
    rewrite ck_ok by (unfold is_int, INT_MAX, INT_MIN in *; lia). cbn [mbind res_bind]. rewrite (vset_ok _ _ _ _ Ex). cbn [mbind res_bind].
    replace (Z.of_nat d + 1)%Z with (Z.of_nat (S d)) by lia. fold g1.
    destruct (IH Hl' g1 (Q ++ [v]) HL') as (g' & Q' & E & HL2 & Hmono & Hall & Hcount & Hsub & Hnew); [apply Hs; left; by exists xu|].
    rewrite length_app in Hcount. cbn [length] in Hcount. exists g', Q'. split_and!; [done|done|intros w k Hk; apply Hmono, Hs; by left| |lia| |].
    + intros w [->|Hw]%elem_of_cons; [exists (S d); apply Hmono, Hs; by right|by apply Hall].
    + intros w Hw. apply Hsub, elem_of_app. by left.
    + intros w k Hk. destruct (Hnew w k Hk) as [Hk'|]; [|by right]. apply Hs in Hk' as [|[-> ->]]; [by left|]. right. apply Hsub, elem_of_app. right. by left.
  - destruct (IH Hl' g Q HL Hu) as (g' & Q' & E & HL2 & Hmono & Hall & Hcount & Hsub & Hnew). exists g', Q'. split_and!; try done.
    intros w [->|Hw]%elem_of_cons; [|by apply Hall]. destruct (lv_seen _ _ _ HL v x Ex Ew) as [k Hk]. exists k. by apply Hmono.
Qed.

(** Colouring a discovered vertex black changes none of this. *)
Lemma recolor_level g Q d u x : level g Q d -> g !! u = Some x -> color_ x <> White ->
  let g' := <[u := MyVertex Black (d_ x) (f_ x) (dist_ x) (p_ x)]> g in level g' Q d /\ (forall v k, seen g' v k <-> seen g v k) /\ nonwhite g' = nonwhite g.
Proof.
  intros HL Eu Wu g'. pose proof (lookup_lt_Some _ _ _ Eu) as Hu.
  assert (Hlk : forall v y, g' !! v = Some y -> exists y0, g !! v = Some y0 /\ (color_ y = White <-> color_ y0 = White) /\ dist_ y = dist_ y0 /\ p_ y = p_ y0 /\ (color_ y0 = White -> y = y0)).
  { intros v y Ey. unfold g' in Ey. destruct (decide (v = u)) as [->|Hne].
    - rewrite list_lookup_insert_eq in Ey by done. injection Ey as <-. exists x. split_and!; [done|split; [done|by intros ?%Wu]|done|done|done].
    - rewrite list_lookup_insert_ne in Ey by done. exists y. split_and!; done. }
  assert (Hlk2 : forall v y0, g !! v = Some y0 -> exists y, g' !! v = Some y /\ (color_ y = White <-> color_ y0 = White) /\ dist_ y = dist_ y0 /\ p_ y = p_ y0).
  { intros v y Ey. unfold g'. destruct (decide (v = u)) as [->|Hne].
    - rewrite list_lookup_insert_eq by done. eexists. split; [done|]. rewrite Eu in Ey. injection Ey as <-. split_and!; [split; [done|by intros ?%Wu]|done|done].
    - rewrite list_lookup_insert_ne by done. exists y. split_and!; done. }
  assert (Hs : forall v k, seen g' v k <-> seen g v k).
  { intros v k. split.
    - intros (y & Ey & Wy & Dy). destruct (Hlk v y Ey) as (y0 & E0 & W0 & D0 & _). exists y0. rewrite <- W0, <- D0. done.
    - intros (y & Ey & Wy & Dy). destruct (Hlk2 v y Ey) as (y0 & E0 & W0 & D0 & _). exists y0. rewrite W0, D0. done. }
  assert (Hc : nonwhite g' = nonwhite g) by (unfold g'; rewrite (nonwhite_insert g u x) by done; rewrite decide_False by done; lia).
  split_and!; [|done|done]. destruct HL as [L Hq Hm Hsd Hz Hct Hw Hse Hp]. constructor.
  - unfold g'. by rewrite length_insert.
  - destruct Hq as (Q1 & Q2 & -> & F1 & F2). exists Q1, Q2. split_and!; [done| |]; (eapply Forall_impl; [done|]); intros w Hk; by apply Hs.
  - intros v k Hk%Hs. by apply (Hm v).
  - intros v k Hk%Hs. by apply Hsd.
  - by apply Hs.
  - intros v k Hk%Hs. rewrite Hc. by apply (Hct v).
  - intros v y Ey Wy. destruct (Hlk v y Ey) as (y0 & E0 & W0 & _ & _ & Eq). apply W0 in Wy. rewrite (Eq Wy). by apply (Hw v).
  - intros v y Ey Wy. destruct (Hlk v y Ey) as (y0 & E0 & W0 & _). destruct (Hse v y0 E0) as [k Hk]; [by rewrite <- W0|]. exists k. by apply Hs.
  - intros v k Hk%Hs Hns. destruct (Hp v k Hk Hns) as (y0 & p & j & E0 & P0 & Hj & ->). destruct (Hlk2 v y0 E0) as (y & Ey & _ & _ & Py).
    exists y, p, j. rewrite Py. split_and!; [done|done|by apply Hs|done].
Qed.

(** The first vertex of the queue is of the level, or starts the next one. *)
Lemma level_head g u Q d : level g (u :: Q) d -> exists d', level g Q d' /\ seen g u d'.
Proof.
  intros HL. destruct (lv_queue _ _ _ HL) as (Q1 & Q2 & E & F1 & F2). destruct Q1 as [|u1 Q1]; cbn in E.
  - subst Q2. apply Forall_cons in F2 as [Hu F2]. exists (S d). split; [|done]. destruct HL as [L Hq Hm Hsd Hz Hct Hw Hse Hp]. constructor; try done.
    + exists Q, []. rewrite app_nil_r. split_and!; [done|done|constructor].
    + intros v k Hk. specialize (Hm v k Hk). lia.
  - injection E as <- ->. apply Forall_cons in F1 as [Hu F1]. exists d. split; [|done]. destruct HL as [L Hq Hm Hsd Hz Hct Hw Hse Hp]. constructor; try done. by exists Q1, Q2.
Qed.

Lemma bfs_loop_ok fuel g Q : (exists d, level g Q d) -> closed g Q -> (num_vertices - nonwhite g) + length Q < fuel -> (Z.of_nat num_vertices <= INT_MAX)%Z ->
  exists g', loop fuel bfs_round (g, Q) = Ok g' /\ (exists d, level g' [] d) /\ closed g' [].
Proof.
  intros HL HC Hf Hn. apply (loop_total (fun st => (exists d, level st.1 st.2 d) /\ closed st.1 st.2) (fun g => (exists d, level g [] d) /\ closed g [])
    (fun st => (num_vertices - nonwhite st.1) + length st.2)); [|done|done].
  clear g Q HL HC Hf. intros [g Q] [[d HL] HC]. cbn [fst snd] in *. unfold bfs_round. cbn [fst snd]. destruct Q as [|u Q].
  { right. exists g. split_and!; [done|by exists d|done]. }
  left. destruct (level_head g u Q d HL) as (d' & HL' & Hu).
  destruct (bfs_adjacent_ok u d' (adjacent_vertices u) g Q HL' Hu) as (g1 & Q1 & -> & HL1 & Hmono & Hall & Hcount & Hsub & Hnew); [done|done|]. cbn [mbind res_bind].
  pose proof (Hmono _ _ Hu) as (x & Ex & Wx & Dx). rewrite (vget_ok _ _ _ Ex). cbn [mbind res_bind]. rewrite (vset_ok _ _ _ _ Ex). cbn [mbind res_bind].
  destruct (recolor_level g1 Q1 d' u x HL1 Ex Wx) as (HL2 & Hs2 & Hc2). eexists (_, _). split; [done|]. cbn [fst snd]. split.
  - split; [by exists d'|]. intros v k Hk Hv w Hw. apply Hs2 in Hk. destruct (decide (v = u)) as [->|Hne].
    + destruct (Hall w Hw) as [j Hj]. exists j. split; [by apply Hs2|]. rewrite (seen_fun _ _ _ _ Hk (Hmono _ _ Hu)). by apply (lv_max _ _ _ HL1 w).
    + destruct (Hnew v k Hk) as [Hk'|]; [|done]. destruct (HC v k Hk') with (w := w) as (j & Hj & Hle); [|done|exists j; split; [apply Hs2; by apply Hmono|done]].
      intros [->|Hq]%elem_of_cons; [done|]. by apply Hv, Hsub.
  - rewrite Hc2. pose proof (nonwhite_le g1) as Hle. rewrite (lv_len _ _ _ HL1) in Hle. cbn [length]. lia.
Qed.

Lemma bfs_start : s < num_vertices -> let g := <[s := MyVertex Gray 0 0 0 None]> new_graph in level g [s] 0 /\ closed g [s].
Proof.
  intros Hs g. assert (Hl : length new_graph = num_vertices) by apply length_replicate.
  assert (Hat : forall v x, g !! v = Some x -> v = s /\ x = MyVertex Gray 0 0 0 None \/ v <> s /\ x = a_vertex).
  { intros v x E. unfold g in E. destruct (decide (v = s)) as [->|Hne]; [rewrite list_lookup_insert_eq in E by (by rewrite Hl); left; by injection E as <-|].
    rewrite list_lookup_insert_ne in E by done. right. unfold new_graph in E. by apply lookup_replicate in E as [-> _]. }
  assert (Hseen : forall v k, seen g v k <-> v = s /\ k = 0).
  { intros v k. split; [|intros [-> ->]; eexists; unfold g; by rewrite list_lookup_insert_eq by (by rewrite Hl)].
    intros (x & E & W & D). destruct (Hat v x E) as [[-> ->]|[_ ->]]; [|done]. cbn in D. split; [done|lia]. }
  split.
  - constructor.
    + unfold g. by rewrite length_insert.
    + exists [s], []. split_and!; [done| |constructor]. constructor; [|constructor]. by apply Hseen.
    + intros v k [-> ->]%Hseen. lia.
    + intros v k [-> ->]%Hseen. constructor.
    + by apply Hseen.
    + intros v k [-> ->]%Hseen. unfold g. assert (E : new_graph !! s = Some a_vertex) by (by apply lookup_replicate_2). rewrite (nonwhite_insert _ _ _ _ E) by done. rewrite decide_True by done. lia.
    + intros v x E W. by destruct (Hat v x E) as [[-> ->]|[_ ->]].
    + intros v x E W. destruct (Hat v x E) as [[-> ->]|[_ ->]]; [|done]. exists 0. by apply Hseen.
    + intros v k [-> ->]%Hseen. done.
  - intros v k [-> ->]%Hseen Hv. destruct Hv. by left.
Qed.

Lemma closed_reach g d : level g [] d -> closed g [] -> forall j v, nsteps edge j s v -> exists k, seen g v k /\ k <= j.
Proof.
  intros HL HC j. induction j as [|j IH]; intros v Hp.
  - inversion Hp; subst. exists 0. split; [apply HL|lia].
  - apply nsteps_inv_r in Hp as (w & Hw & He). destruct (IH w Hw) as (k & Hk & Hle). destruct (HC w k Hk) with (w := v) as (k' & Hk' & Hle'); [apply not_elem_of_nil|done|].
    exists k'. split; [done|lia].
Qed.

(** Following the parents from a vertex at distance [k] writes the distances from 0 to [k]. *)
Lemma print_path_ok g d v k : level g [] d -> seen g v k -> forall fuel, k < fuel -> print_path fuel g s v = Ok (Dist <$> seqZ 0 (Z.of_nat (S k))).
Proof.
  intros HL. revert v. induction k as [|k IH]; intros v Hv [|fuel] Hf; [lia| |lia|]; pose proof (lv_source _ _ _ HL) as (xs & Es & _ & Ds); cbn [print_path]; rewrite (vget_ok _ _ _ Es); cbn [mbind res_bind].
  - pose proof Hv as (x & Ex & _ & Dx). rewrite (vget_ok _ _ _ Ex). cbn [mbind res_bind]. destruct (decide (s = v)) as [->|Hne]; [rewrite Ds; done|].
    destruct (lv_parent _ _ _ HL v 0 Hv) as (? & ? & ? & _ & _ & _ & [=]). congruence.
  - pose proof Hv as (x' & Ex' & _ & Dx'). rewrite (vget_ok _ _ _ Ex'). cbn [mbind res_bind]. destruct (decide (s = v)) as [Esv|Hne].
    { subst v. pose proof (seen_fun _ _ _ _ Hv (lv_source _ _ _ HL)) as [=]. }
    destruct (lv_parent _ _ _ HL v (S k) Hv) as (x & p & j & Ex & Px & Hp & [= <-]); [congruence|]. rewrite Ex in Ex'. injection Ex' as <-. rewrite Px.
    rewrite (IH p Hp) by lia. cbn [mbind res_bind]. rewrite Dx'.
    replace (Z.of_nat (S (S k))) with (Z.of_nat (S k) + 1)%Z by lia. rewrite seqZ_app, fmap_app by lia. cbn [seqZ]. do 2 f_equal.
Qed.

(** [k] is the length of the shortest path from [s] to [v]. *)
Definition distance (v k : nat) : Prop := nsteps edge k s v /\ forall j, nsteps edge j s v -> k <= j.

(** C33: a breadth first search from [s] in a fresh graph ends; every vertex with a path from [s] then has the length of the shortest one as its
    distance, and [print_path] writes the distances along one; the others stay white, and [print_path] says so. *)
Theorem breadth_first_search_correct : s < num_vertices -> (Z.of_nat num_vertices <= INT_MAX)%Z ->
  exists g, breadth_first_search new_graph s = Ok g /\ length g = num_vertices /\ forall v x, g !! v = Some x ->
    (exists k, distance v k /\ color_ x <> White /\ dist_ x = Z.of_nat k /\ forall fuel, k < fuel -> print_path fuel g s v = Ok (Dist <$> seqZ 0 (Z.of_nat k + 1))) \/
    ((forall k, ~ nsteps edge k s v) /\ x = a_vertex /\ forall fuel, print_path (S fuel) g s v = Ok [NotExit 0 (-1)]).
Proof.
  intros Hs Hn. unfold breadth_first_search. assert (E : new_graph !! s = Some a_vertex) by (by apply lookup_replicate_2).
  rewrite (vget_ok _ _ _ E). cbn [mbind res_bind]. rewrite (vset_ok _ _ _ _ E). cbn [mbind res_bind]. change (p_ a_vertex) with (@None nat). change (d_ a_vertex) with 0%Z. change (f_ a_vertex) with 0%Z.
  destruct (bfs_start Hs) as [HL HC]. destruct (bfs_loop_ok (num_vertices + 2) _ [s] (ex_intro _ 0 HL) HC) as (g & -> & [d HL'] & HC'); [cbn; lia|done|].
  exists g. split_and!; [done|apply HL'|]. intros v x Ex. destruct (decide (color_ x = White)) as [Ew|Ew].
  - right. assert (Hno : forall k, ~ nsteps edge k s v).
    { intros k Hk. destruct (closed_reach g d HL' HC' k v Hk) as (j & (y & Ey & Wy & _) & _). rewrite Ex in Ey. by injection Ey as <-. }
    pose proof (lv_white _ _ _ HL' v x Ex Ew) as ->. split_and!; [done|done|]. intros fuel. pose proof (lv_source _ _ _ HL') as (xs & Es & _ & Ds).
    cbn [print_path]. rewrite (vget_ok _ _ _ Es). cbn [mbind res_bind]. rewrite (vget_ok _ _ _ Ex). cbn [mbind res_bind]. rewrite decide_False; [by rewrite Ds|].
    intros ->. apply (Hno 0). constructor.
  - left. destruct (lv_seen _ _ _ HL' v x Ex Ew) as [k Hk]. pose proof Hk as (y & Ey & _ & Dy). rewrite Ex in Ey. injection Ey as <-. exists k. split_and!; [|done|done|].
    + split; [by apply (lv_sound _ _ _ HL')|]. intros j Hj. destruct (closed_reach g d HL' HC' j v Hj) as (k' & Hk' & Hle). by rewrite (seen_fun _ _ _ _ Hk Hk').
    + intros fuel Hf. rewrite (print_path_ok g d v k HL' Hk fuel Hf). do 3 f_equal. lia.
Qed.
End Bfs.

(** The graph of the test program: the letters r s t u v w x y are 0 to 7. *)
Definition rsty_table : list (list nat) := [[1; 4]; [0; 5]; [5; 6; 3]; [6; 2; 7]; [0]; [1; 2; 6]; [5; 3; 2; 7]; [6; 3]].
Definition rsty : BoostGraph := {|
  num_vertices := 8;
  adjacent_vertices := fun u => nth u rsty_table [] |}.
Lemma rsty_ok : @BoostGraphOk rsty.
Proof.
  split. intros u v Hv. assert (Hall : Forall (fun l => Forall (fun v => v < 8) l) rsty_table) by (repeat constructor).
  change (v ∈ nth u rsty_table []) in Hv. change (v < 8). destruct (nth_in_or_default u rsty_table []) as [Hi|Hd]; [|rewrite Hd in Hv; by apply not_elem_of_nil in Hv].
  apply list_elem_of_In in Hi. rewrite Forall_forall in Hall. specialize (Hall _ Hi). rewrite Forall_forall in Hall. by apply Hall.
Qed.

Example breadth_first_search_correct_witness : exists g, @breadth_first_search rsty (@new_graph rsty) 1 = Ok g /\ print_path 4 g 1 7 = Ok [Dist 0; Dist 1; Dist 2; Dist 3].
Proof.
  pose proof rsty_ok as Hok. destruct (@breadth_first_search_correct rsty Hok 1) as (g & E & _); [cbn; lia|cbn; vm_compute; discriminate|].
  exists g. split; [exact E|]. vm_compute in E. injection E as <-. reflexivity.
Defined.
