(* ===== verification/CtiDfs.v ===== *)
(** The depth first searches of test_cti_graph.cpp: the recursive one visits every vertex and orders the finishing times along the edges, the
    one without recursion does the same thing, and [topological_sort] sorts. *)
From S2P Require Import Prelude CtiGraph.

Section Dfs.
Context `{BoostGraphOk}.

Notation edge := (fun u v : nat => v ∈ adjacent_vertices u).
Notation path := (rtc edge).

(** The number of vertices of a colour. *)
Definition count (c : Color) (g : props) : nat := length (filter (fun x => color_ x = c) g).
(** Every vertex takes two ticks of the counter, a gray one has one left. *)
Definition budget (st : dfs_state) : Z := (time st + 2 * Z.of_nat (count White (vs st)) + Z.of_nat (count Gray (vs st)))%Z.
Definition ind (b : bool) : nat := if b then 1 else 0.

Lemma count_insert c g v x y : g !! v = Some x ->
  count c (<[v := y]> g) + ind (bool_decide (color_ x = c)) = count c g + ind (bool_decide (color_ y = c)).
Proof.
  intros E. rewrite <- (take_drop_middle g v x E) at 2. pose proof (lookup_lt_Some _ _ _ E) as Hl. rewrite insert_take_drop by done.
  unfold count. rewrite !filter_app, !filter_cons, !length_app. unfold ind.
  destruct (decide (color_ x = c)) as [Ex|Ex], (decide (color_ y = c)) as [Ey|Ey]; rewrite ?(bool_decide_eq_true_2 _ Ex), ?(bool_decide_eq_true_2 _ Ey), ?(bool_decide_eq_false_2 _ Ex), ?(bool_decide_eq_false_2 _ Ey); cbn [length]; lia.
Qed.

Lemma count_move g v x y a b : g !! v = Some x -> color_ x = a -> color_ y = b -> a <> b ->
  count a (<[v := y]> g) + 1 = count a g /\ count b (<[v := y]> g) = count b g + 1 /\ forall c, c <> a -> c <> b -> count c (<[v := y]> g) = count c g.
Proof.
  intros E <- <- Hne. pose proof (fun c => count_insert c g v x y E) as C. split_and!.
  - specialize (C (color_ x)). rewrite (bool_decide_eq_true_2 _ eq_refl), (bool_decide_eq_false_2 (color_ y = color_ x)) in C by congruence. cbn [ind] in C. lia.
  - specialize (C (color_ y)). rewrite (bool_decide_eq_true_2 _ eq_refl), (bool_decide_eq_false_2 (color_ x = color_ y)) in C by congruence. cbn [ind] in C. lia.
  - intros c Hx Hy. specialize (C c). rewrite !bool_decide_eq_false_2 in C by congruence. lia.
Qed.

Record ready (st : dfs_state) : Prop := { rd_len : length (vs st) = num_vertices; rd_budget : (budget st <= INT_MAX)%Z; rd_time : (INT_MIN <= time st)%Z }.

Definition discovered (u : nat) (x : my_vertex) (st : dfs_state) : dfs_state :=
  DS (<[u := MyVertex Gray (time st) (f_ x) (dist_ x) (p_ x)]> (vs st)) (time st + 1) (out st ++ [Open u (time st)]).
Definition finished (u : nat) (x : my_vertex) (st : dfs_state) : dfs_state :=
  DS (<[u := MyVertex Black (d_ x) (time st) (dist_ x) (p_ x)]> (vs st)) (time st + 1) (out st ++ [Close u (time st)]).

Lemma discover_ok u x st : ready st -> vs st !! u = Some x -> color_ x = White ->
  discover u st = Ok (discovered u x st) /\ ready (discovered u x st) /\ budget (discovered u x st) = budget st /\ count White (vs (discovered u x st)) < count White (vs st).
Proof.
  intros [L B T] E W. destruct (count_move (vs st) u x (MyVertex Gray (time st) (f_ x) (dist_ x) (p_ x)) White Gray E W eq_refl) as (Cw & Cg & _); [done|].
  assert (Eb : budget (discovered u x st) = budget st) by (unfold budget, discovered; cbn [vs time]; lia).
  unfold discover. rewrite (vget_ok _ _ _ E). cbn [mbind res_bind]. rewrite ck_ok by (unfold budget, is_int in *; lia). cbn [mbind res_bind].
  rewrite (vset_ok _ _ _ _ E). cbn [mbind res_bind]. split_and!; [done| |done|cbn [vs discovered]; lia].
  constructor; [cbn; by rewrite length_insert|by rewrite Eb|cbn; lia].
Qed.

Lemma finish_vertex_ok u x st : ready st -> vs st !! u = Some x -> color_ x = Gray ->
  finish u st = Ok (finished u x st) /\ ready (finished u x st) /\ budget (finished u x st) = budget st /\ count White (vs (finished u x st)) = count White (vs st).
Proof.
  intros [L B T] E W. destruct (count_move (vs st) u x (MyVertex Black (d_ x) (time st) (dist_ x) (p_ x)) Gray Black E W eq_refl) as (Cg & _ & Cw); [done|]. specialize (Cw White ltac:(done) ltac:(done)).
  assert (Eb : budget (finished u x st) = budget st) by (unfold budget, finished; cbn [vs time]; lia).
  unfold finish. rewrite (vget_ok _ _ _ E). cbn [mbind res_bind]. rewrite ck_ok by (unfold budget, is_int in *; lia). cbn [mbind res_bind].
  rewrite (vset_ok _ _ _ _ E). cbn [mbind res_bind]. split_and!; [done| |done|cbn [vs finished]; lia].
  constructor; [cbn; by rewrite length_insert|by rewrite Eb|cbn; lia].
Qed.

Definition coloured (c : Color) (st : dfs_state) (v : nat) (x : my_vertex) : Prop := vs st !! v = Some x /\ color_ x = c.

(** What is true of the black vertices: their times are past, no two share a finishing time, and an edge from one leads to a black vertex that
    finished before, or back to where it can be reached from. *)
Record times (st : dfs_state) : Prop := {
  tm_past : forall v x, coloured Black st v x -> (d_ x < f_ x < time st)%Z;
  tm_distinct : forall v v' x x', coloured Black st v x -> coloured Black st v' x' -> f_ x = f_ x' -> v = v';
  tm_edge : forall v x w, coloured Black st v x -> w ∈ adjacent_vertices v -> (exists y, coloured Black st w y /\ (f_ y < f_ x)%Z) \/ path w v;
  tm_open : forall v x, coloured Gray st v x -> (d_ x < time st)%Z;
}.

(** A search from [st] to [st'] blackens some white vertices and leaves the others as they are. *)
Record post (st st' : dfs_state) : Prop := {
  po_ready : ready st';
  po_budget : budget st' = budget st;
  po_count : count White (vs st') <= count White (vs st);
  po_keep : forall v x, vs st !! v = Some x -> color_ x <> White -> vs st' !! v = Some x;
  po_new : forall v x', vs st' !! v = Some x' -> vs st !! v = Some x' \/ color_ x' = Black /\ exists x, coloured White st v x;
}.

Lemma post_refl st : ready st -> post st st.
Proof. intros Hr. constructor; try done. by left. Qed.

Lemma post_trans st1 st2 st3 : post st1 st2 -> post st2 st3 -> post st1 st3.
Proof.
  intros [R1 B1 C1 K1 N1] [R2 B2 C2 K2 N2]. constructor; [done|congruence|lia| |].
  - intros v x E W. by apply K2; [apply K1|].
  - intros v x' E. destruct (N2 v x' E) as [E2|[Wx (x & E2 & W2)]]; [by apply N1|]. right. split; [done|].
    destruct (N1 v x E2) as [E1|[Wb _]]; [by exists x|congruence].
Qed.

Lemma post_gray st st' v x : post st st' -> coloured Gray st' v x <-> coloured Gray st v x.
Proof.
  intros HP. split.
  - intros [E W]. destruct (po_new _ _ HP v x E) as [E'|[W' _]]; [done|congruence].
  - intros [E W]. split; [|done]. apply (po_keep _ _ HP); [done|congruence].
Qed.

(** * The machine *)

Definition reaches (m m' : machine) : Prop := exists k, forall fuel, loop (k + fuel) machine_round m = loop fuel machine_round m'.

Lemma reaches_refl m : reaches m m.
Proof. by exists 0. Qed.
Lemma reaches_trans m1 m2 m3 : reaches m1 m2 -> reaches m2 m3 -> reaches m1 m3.
Proof. intros [k1 E1] [k2 E2]. exists (k1 + k2). intros fuel. by rewrite <- Nat.add_assoc, E1, E2. Qed.
Lemma reaches_step m m' : machine_round m = Ok (inl m') -> reaches m m'.
Proof. intros E. exists 1. intros fuel. change (1 + fuel) with (S fuel). by rewrite loop_step, E. Qed.

Lemma reaches_skip S l1 l2 st : (forall v, v ∈ l1 -> exists x, vs st !! v = Some x /\ color_ x <> White) -> reaches (Mach S (Some (l1 ++ l2)) st) (Mach S (Some l2) st).
Proof.
  induction l1 as [|v l1 IH]; intros Hl; [apply reaches_refl|]. apply (reaches_trans _ (Mach S (Some (l1 ++ l2)) st)).
  - apply reaches_step. destruct (Hl v) as (x & E & W); [by left|]. unfold machine_round. cbn [iter app ms stk]. rewrite (vget_ok _ _ _ E). cbn [mbind res_bind]. by rewrite decide_False.
  - apply IH. intros w Hw. apply Hl. by right.
Qed.

(** * The visits *)

(** A white vertex [u] is visited: with recursion, and by the machine with anything below it on the stack. *)
Definition visit_spec (fuel u : nat) (st : dfs_state) : Prop := exists x st',
  vs st !! u = Some x /\ depth_first_visit fuel u st = Ok st' /\ post st st' /\ times st' /\ (exists x', coloured Black st' u x') /\
  forall S, reaches (Mach (u :: S) (Some (adjacent_vertices u)) (discovered u x st)) (Mach S None st').

Definition gray_reach (st : dfs_state) (u : nat) : Prop := forall v x, coloured Gray st v x -> path v u.

Lemma times_discovered u x st : times st -> vs st !! u = Some x -> color_ x = White -> times (discovered u x st).
Proof.
  intros [T1 T2 T3 T4] E W. pose proof (lookup_lt_Some _ _ _ E) as Hu.
  assert (Hb : forall v y, coloured Black (discovered u x st) v y <-> coloured Black st v y).
  { intros v y. unfold coloured, discovered. cbn [vs]. destruct (decide (v = u)) as [->|Hne]; [|by rewrite list_lookup_insert_ne].
    rewrite list_lookup_insert_eq by done. split; [intros [[= <-] ?]; done|]. intros [E' W']. rewrite E in E'. injection E' as <-. congruence. }
  constructor.
  - intros v y Hv%Hb. cbn [time discovered]. specialize (T1 v y Hv). lia.
  - intros v v' y y' Hv%Hb Hv'%Hb. by apply T2.
  - intros v y w Hv%Hb Hw. destruct (T3 v y w Hv Hw) as [(z & Hz & Hlt)|Hp]; [left; exists z; split; [by apply Hb|done]|by right].
  - intros v y [E' W']. cbn [time discovered vs] in *. destruct (decide (v = u)) as [->|Hne]; [rewrite list_lookup_insert_eq in E' by done; injection E' as <-; cbn; lia|].
    rewrite list_lookup_insert_ne in E' by done. specialize (T4 v y (conj E' W')). lia.
Qed.

Lemma times_finished u x st : times st -> coloured Gray st u x -> gray_reach st u ->
  (forall w, w ∈ adjacent_vertices u -> exists y, vs st !! w = Some y /\ color_ y <> White) -> times (finished u x st).
Proof.
  intros [T1 T2 T3 T4] [E W] Hg Hadj. pose proof (lookup_lt_Some _ _ _ E) as Hu.
  assert (Hb : forall v y, coloured Black (finished u x st) v y -> v = u /\ y = MyVertex Black (d_ x) (time st) (dist_ x) (p_ x) \/ v <> u /\ coloured Black st v y).
  { intros v y. unfold coloured, finished. cbn [vs]. destruct (decide (v = u)) as [->|Hne]; [rewrite list_lookup_insert_eq by done; intros [[= <-] _]; by left|].
    rewrite list_lookup_insert_ne by done. intros Hv. by right. }
  assert (Hb2 : forall v y, v <> u -> coloured Black st v y -> coloured Black (finished u x st) v y) by (intros v y Hne [E' W']; split; [|done]; cbn [vs finished]; by rewrite list_lookup_insert_ne).
  assert (Hbu : forall v y, coloured Black st v y -> v <> u) by (intros v y [E' W'] ->; rewrite E in E'; injection E' as <-; congruence).
  constructor.
  - intros v y [[-> ->]|[_ Hv]]%Hb; cbn [time finished d_ f_]; [specialize (T4 u x (conj E W)); lia|]. specialize (T1 v y Hv). lia.
  - intros v v' y y' [[-> ->]|[Hne Hv]]%Hb [[-> ->]|[Hne' Hv']]%Hb; cbn [f_]; [done| | |by apply T2].
    + intros Ef. specialize (T1 v' y' Hv'). lia.
    + intros Ef. specialize (T1 v y Hv). lia.
  - intros v y w [[-> ->]|[Hne Hv]]%Hb Hw; cbn [f_].
    + destruct (Hadj w Hw) as (z & Ez & Wz). destruct (color_ z) eqn:Ec; [done| |].
      * right. apply (Hg w z). done.
      * left. exists z. split; [apply Hb2; [by apply (Hbu w z)|done]|]. by apply (T1 w z).
    + destruct (T3 v y w Hv Hw) as [(z & Hz & Hlt)|Hp]; [left; exists z; split; [|done]; apply Hb2; [by apply (Hbu w z)|done]|by right].
  - intros v y [E' W']. cbn [time finished vs] in *. destruct (decide (v = u)) as [->|Hne]; [rewrite list_lookup_insert_eq in E' by done; injection E' as <-; done|].
    rewrite list_lookup_insert_ne in E' by done. specialize (T4 v y (conj E' W')). lia.
Qed.

(** The loop over the rest [l] of the vertices adjacent to [u], the ones before being discovered. *)
Lemma for_white_ok fuel u l l0 st : (forall v st, ready st -> times st -> gray_reach st v -> (exists x, coloured White st v x) -> count White (vs st) < fuel -> visit_spec fuel v st) ->
  adjacent_vertices u = l0 ++ l -> (forall v, v ∈ l0 -> exists x, vs st !! v = Some x /\ color_ x <> White) ->
  ready st -> times st -> gray_reach st u -> count White (vs st) < fuel ->
  exists st', for_white (depth_first_visit fuel) l st = Ok st' /\ post st st' /\ times st' /\ (forall v, v ∈ l0 ++ l -> exists x, vs st' !! v = Some x /\ color_ x <> White) /\
    forall S, reaches (Mach (u :: S) (Some l) st) (Mach (u :: S) (Some []) st').
Proof.
  intros Hvisit. revert l0 st. induction l as [|v l IH]; intros l0 st Ea H0' Hr Ht Hg Hf.
  { exists st. split_and!; [done|by apply post_refl|done|by rewrite app_nil_r|intros S; apply reaches_refl]. }
  assert (Hadj : v ∈ adjacent_vertices u) by (rewrite Ea; apply elem_of_app; right; by left). pose proof (adjacent_ok u v Hadj) as Hv.
  destruct (lookup_lt_is_Some_2 (vs st) v) as [x Ex]; [by rewrite (rd_len _ Hr)|]. cbn [for_white]. rewrite (vget_ok _ _ _ Ex). cbn [mbind res_bind].
  replace (l0 ++ v :: l) with ((l0 ++ [v]) ++ l) in Ea |- * by (by rewrite <- app_assoc). destruct (decide (color_ x = White)) as [Ew|Ew].
  - destruct (Hvisit v st Hr Ht) as (x1 & st1 & E1 & -> & P1 & T1 & (xb & Eb & Wb) & R1); [|by exists x|done|].
    { intros w y Hw. eapply rtc_r; [by apply (Hg w y)|exact Hadj]. }
    cbn [mbind res_bind]. rewrite Ex in E1. injection E1 as <-.
    destruct (IH (l0 ++ [v]) st1 Ea) as (st' & -> & P2 & T2 & Hall & R2); [|apply P1|done| |pose proof (po_count _ _ P1); lia|].
    + intros w Hw. apply elem_of_app in Hw as [Hw|Hw%list_elem_of_singleton]; [|subst w; by exists xb; rewrite Wb]. destruct (H0' w Hw) as (y & Ey & Wy). exists y. split; [by apply (po_keep _ _ P1)|done].
    + intros w y Hw. apply (Hg w y). by apply (post_gray st st1).
    + exists st'. split_and!; [done|by apply (post_trans _ st1)|done|done|]. intros S. destruct (discover_ok v x st Hr Ex Ew) as (Ed & _ & _).
      apply (reaches_trans _ (Mach (v :: u :: S) (Some (adjacent_vertices v)) (discovered v x st))).
      { apply reaches_step. unfold machine_round. cbn [iter ms stk]. rewrite (vget_ok _ _ _ Ex). cbn [mbind res_bind]. rewrite decide_True by done. by rewrite Ed. }
      apply (reaches_trans _ (Mach (u :: S) None st1)); [apply R1|]. apply (reaches_trans _ (Mach (u :: S) (Some (adjacent_vertices u)) st1)); [by apply reaches_step|].
      rewrite Ea. apply (reaches_trans _ (Mach (u :: S) (Some l) st1)); [|apply R2]. apply reaches_skip.
      intros w Hw. apply elem_of_app in Hw as [Hw|Hw%list_elem_of_singleton]; [|subst w; by exists xb; rewrite Wb]. destruct (H0' w Hw) as (y & Ey & Wy). exists y. split; [by apply (po_keep _ _ P1)|done].
  - destruct (IH (l0 ++ [v]) st Ea) as (st' & -> & P2 & T2 & Hall & R2); [|done|done|done|done|].
    + intros w Hw. apply elem_of_app in Hw as [Hw|Hw%list_elem_of_singleton]; [by apply H0'|subst w; by exists x].
    + exists st'. split_and!; [done|done|done|done|]. intros S. apply (reaches_trans _ (Mach (u :: S) (Some l) st)); [|apply R2].
      apply (reaches_skip _ [v]). intros w Hw%list_elem_of_singleton. subst w. by exists x.
Qed.

Lemma discover_post u x st : ready st -> vs st !! u = Some x -> color_ x = White ->
  forall v y, v <> u -> vs (discovered u x st) !! v = Some y <-> vs st !! v = Some y.
Proof. intros Hr E W v y Hne. cbn [vs discovered]. by rewrite list_lookup_insert_ne. Qed.

Lemma visit_ok fuel u st : ready st -> times st -> gray_reach st u -> (exists x, coloured White st u x) -> count White (vs st) < fuel -> visit_spec fuel u st.
Proof.
  revert u st. induction fuel as [|fuel IH]; intros u st Hr Ht Hg [x [Ex Wx]] Hf; [lia|]. pose proof (lookup_lt_Some _ _ _ Ex) as Hu.
  destruct (discover_ok u x st Hr Ex Wx) as (Ed & Rd & Bd & Cd). pose proof (times_discovered u x st Ht Ex Wx) as Td. set (st1 := discovered u x st) in *.
  assert (E1 : vs st1 !! u = Some (MyVertex Gray (time st) (f_ x) (dist_ x) (p_ x))) by (unfold st1; cbn [vs discovered]; by rewrite list_lookup_insert_eq).
  assert (Hg1 : gray_reach st1 u).
  { intros v y [Ey Wy]. destruct (decide (v = u)) as [->|Hne]; [apply rtc_refl|]. apply (Hg v y). split; [|done]. by apply (discover_post u x st Hr Ex Wx) in Ey. }
  destruct (for_white_ok fuel u (adjacent_vertices u) [] st1 IH) as (st2 & E2 & P2 & T2 & Hall & R2); [done|by intros v ?%not_elem_of_nil|done|done|done|lia|].
  pose proof (po_keep _ _ P2 u _ E1 ltac:(done)) as Eu2. cbn [app] in Hall.
  destruct (finish_vertex_ok u _ st2 (po_ready _ _ P2) Eu2 eq_refl) as (Ef & Rf & Bf & Cf). set (x2 := MyVertex Gray (time st) (f_ x) (dist_ x) (p_ x)) in *.
  assert (Hu2 : u < length (vs st2)) by (by apply lookup_lt_Some in Eu2).
  exists x, (finished u x2 st2). split_and!; [done| | | | |].
  - cbn [depth_first_visit]. rewrite Ed. cbn [mbind res_bind]. rewrite E2. cbn [mbind res_bind]. done.
  - constructor; [done|rewrite Bf, (po_budget _ _ P2); done|pose proof (po_count _ _ P2); lia| |].
    + intros v y Ey Wy. assert (v <> u) by (intros ->; rewrite Ex in Ey; injection Ey as <-; done). cbn [vs finished]. rewrite list_lookup_insert_ne by done.
      apply (po_keep _ _ P2); [|done]. by apply (discover_post u x st Hr Ex Wx).
    + intros v y Ey. cbn [vs finished] in Ey. destruct (decide (v = u)) as [->|Hne].
      * rewrite list_lookup_insert_eq in Ey by done. injection Ey as <-. right. split; [done|by exists x].
      * rewrite list_lookup_insert_ne in Ey by done. destruct (po_new _ _ P2 v y Ey) as [Ey'|[Wy (z & Ez & Wz)]].
        -- left. by apply (discover_post u x st Hr Ex Wx) in Ey'.
        -- right. split; [done|]. exists z. split; [|done]. by apply (discover_post u x st Hr Ex Wx) in Ez.
  - apply times_finished; [done|done| |done]. intros v y Hv. apply (Hg1 v y). by apply (post_gray st1 st2).
  - eexists. split; [cbn [vs finished]; by rewrite list_lookup_insert_eq|done].
  - intros S. apply (reaches_trans _ (Mach (u :: S) (Some []) st2)); [apply R2|]. apply reaches_step. unfold machine_round. cbn [iter stk ms]. by rewrite Ef.
Qed.

Lemma count_le c g : count c g <= length g.
Proof. apply length_filter. Qed.

(** The loop over all vertices, for either search. *)
Lemma each_vertex_ok l st : (forall u, u ∈ l -> u < num_vertices) -> ready st -> times st -> (forall v x, ~ coloured Gray st v x) ->
  exists st', each_vertex (depth_first_visit (num_vertices + 1)) l st = Ok st' /\ post st st' /\ times st' /\
    (forall u, u ∈ l -> exists x, vs st' !! u = Some x /\ color_ x <> White) /\
    exists F, forall fuel, F <= fuel -> each_vertex (visit_non_recursive fuel) l st = Ok st'.
Proof.
  revert st. induction l as [|u l IH]; intros st Hl Hr Ht Hg.
  { exists st. split_and!; [done|by apply post_refl|done|by intros u ?%not_elem_of_nil|]. by exists 0. }
  assert (Hu : u < num_vertices) by (apply Hl; by left). assert (Hl' : forall w, w ∈ l -> w < num_vertices) by (intros w Hw; apply Hl; by right).
  destruct (lookup_lt_is_Some_2 (vs st) u) as [x Ex]; [by rewrite (rd_len _ Hr)|]. cbn [each_vertex]. rewrite (vget_ok _ _ _ Ex). cbn [mbind res_bind].
  destruct (decide (color_ x = White)) as [Ew|Ew].
  - destruct (visit_ok (num_vertices + 1) u st Hr Ht) as (x1 & st1 & E1 & -> & P1 & T1 & (xb & Eb & Wb) & R1); [intros v y Hv; by apply Hg in Hv|by exists x|pose proof (count_le White (vs st)); rewrite (rd_len _ Hr) in *; lia|].
    cbn [mbind res_bind]. rewrite Ex in E1. injection E1 as <-. set (st2 := DS (vs st1) (time st1) (out st1 ++ [NewLine])).
    assert (P2 : post st st2) by (destruct P1 as [[R1a R1b R1c] B1 C1 K1 N1]; constructor; try done; by constructor).
    assert (T2 : times st2) by (destruct T1 as [A1 A2 A3 A4]; by constructor).
    destruct (IH st2 Hl' (po_ready _ _ P2) T2) as (st' & -> & P3 & T3 & Hall & F & HF); [intros v y Hv; apply (post_gray st st2) in Hv; [by apply Hg in Hv|done]|].
    exists st'. split_and!; [done|by apply (post_trans _ st2)|done| |].
    + intros w [->|Hw]%elem_of_cons; [|by apply Hall]. exists xb. split; [|by rewrite Wb]. apply (po_keep _ _ P3); [done|by rewrite Wb].
    + destruct (reaches_trans _ _ _ (reaches_step (Mach [u] None (discovered u x st)) _ eq_refl) (R1 [])) as [k Hk]. exists (F + k + 1). intros fuel Hf.
      assert (Ev : visit_non_recursive fuel u st = Ok st1); [|rewrite Ev; cbn [mbind res_bind]; apply HF; lia].
      unfold visit_non_recursive. destruct (discover_ok u x st Hr Ex Ew) as (Ed & _). rewrite Ed. cbn [mbind res_bind].
      replace fuel with (k + (fuel - k)) by lia. rewrite Hk. destruct (fuel - k) as [|f] eqn:Ek; [lia|done].
  - destruct (IH st Hl' Hr Ht Hg) as (st' & -> & P3 & T3 & Hall & F & HF). exists st'. split_and!; [done|done|done| |by exists F].
    intros w [->|Hw]%elem_of_cons; [|by apply Hall]. exists x. split; [|done]. by apply (po_keep _ _ P3).
Qed.

(** The state of a fresh graph when the counter has reached [t]. *)
Definition start (t : Z) : dfs_state := DS new_graph t [].

Lemma start_ready t : (INT_MIN <= t)%Z -> (t + 2 * Z.of_nat num_vertices <= INT_MAX)%Z -> ready (start t) /\ times (start t) /\ forall v x, ~ coloured Gray (start t) v x.
Proof.
  intros Hm Ht. assert (Hat : forall v x, vs (start t) !! v = Some x -> x = a_vertex) by (intros v x E; by apply lookup_replicate in E as [-> _]).
  assert (Hno : forall c v x, c <> White -> ~ coloured c (start t) v x) by (intros c v x Hc [E W]; apply Hat in E as ->; by apply Hc).
  split_and!; [constructor|constructor|intros v x; by apply Hno].
  - apply length_replicate.
  - unfold budget. cbn [time vs start]. pose proof (count_le White new_graph) as Hw. unfold new_graph in Hw at 2. rewrite length_replicate in Hw.
    assert (count Gray new_graph = 0) as ->; [|lia]. unfold count, new_graph. clear. induction num_vertices as [|n IH]; [done|]. cbn [replicate]. rewrite filter_cons_False by done. done.
  - done.
  - intros v x Hv. by apply Hno in Hv.
  - intros v v' x x' Hv. by apply Hno in Hv.
  - intros v x w Hv. by apply Hno in Hv.
  - intros v x Hv. by apply Hno in Hv.
Qed.

(** C31: the recursive depth first search of a fresh graph ends with every vertex black and finished after it was discovered, at times that differ;
    an edge leads to a vertex that finished before, unless it closes a cycle.  The search without recursion, with enough rounds, ends in the same
    state and writes the same text. *)
Theorem depth_first_search_correct t : (INT_MIN <= t)%Z -> (t + 2 * Z.of_nat num_vertices <= INT_MAX)%Z ->
  exists st, depth_first_search (start t) = Ok st /\ (exists F, forall fuel, F <= fuel -> depth_first_search_non_recursive fuel (start t) = Ok st) /\
    length (vs st) = num_vertices /\ (forall v x, vs st !! v = Some x -> color_ x = Black /\ (d_ x < f_ x)%Z) /\
    (forall v v' x x', vs st !! v = Some x -> vs st !! v' = Some x' -> f_ x = f_ x' -> v = v') /\
    (forall v w x y, vs st !! v = Some x -> vs st !! w = Some y -> w ∈ adjacent_vertices v -> (f_ y < f_ x)%Z \/ path w v).
Proof.
  intros Hm Ht. destruct (start_ready t Hm Ht) as (Hr & Htm & Hg). unfold depth_first_search, depth_first_search_non_recursive.
  destruct (each_vertex_ok (seq 0 num_vertices) (start t)) as (st & E & P & T & Hall & HF); [|done|done|done|].
  { intros u Hu%elem_of_seq. lia. }
  assert (Hb : forall v x, vs st !! v = Some x -> coloured Black st v x).
  { intros v x Ex. pose proof (lookup_lt_Some _ _ _ Ex) as Hv. rewrite (rd_len _ (po_ready _ _ P)) in Hv. destruct (Hall v) as (y & Ey & Wy); [by apply elem_of_seq; lia|].
    rewrite Ex in Ey. injection Ey as <-. split; [done|]. destruct (color_ x) eqn:Ec; [done| |done]. exfalso. apply (Hg v x). by apply (post_gray _ _ v x P). }
  exists st. split_and!; [done|done|apply P| | |].
  - intros v x Ex. apply Hb in Ex. split; [apply Ex|]. by apply (tm_past _ T v x).
  - intros v v' x x' Ex%Hb Ex'%Hb. by apply (tm_distinct _ T).
  - intros v w x y Ex%Hb Ey Hw. destruct (tm_edge _ T v x w Ex Hw) as [(z & [Ez _] & Hlt)|]; [|by right]. rewrite Ey in Ez. injection Ez as <-. by left.
Qed.

(** * Topological sort *)

Definition key_lt (a b : Z * nat) : Prop := (a.1 < b.1)%Z.

Lemma map_insert_sorted k v m : StronglySorted key_lt m -> k ∉ m.*1 -> StronglySorted key_lt (map_insert k v m) /\ map_insert k v m ≡ₚ (k, v) :: m.
Proof.
  induction 1 as [|[k1 v1] m Hs IH Hall]; intros Hk; [split; [repeat constructor|done]|]. cbn [map_insert]. rewrite fmap_cons in Hk. apply not_elem_of_cons in Hk as [Hne Hk]. cbn [fst] in Hne.
  destruct (Z.ltb_spec k k1) as [Hlt|Hge].
  - split; [|done]. constructor; [by constructor|]. constructor; [done|]. eapply Forall_impl; [exact Hall|]. intros [k2 v2] H2'. unfold key_lt in *. cbn in *. lia.
  - destruct (Z.eqb_spec k k1) as [E|_]; [congruence|]. destruct (IH Hk) as [S1 P1]. split; [|rewrite P1; apply Permutation_swap].
    constructor; [done|]. rewrite P1. constructor; [unfold key_lt; cbn; lia|done].
Qed.

Lemma fold_insert_sorted l m : StronglySorted key_lt m -> NoDup (l.*1 ++ m.*1) ->
  let r := foldl (fun m kv => map_insert kv.1 kv.2 m) m l in StronglySorted key_lt r /\ r ≡ₚ l ++ m.
Proof.
  revert m. induction l as [|[k v] l IH]; intros m Hs Hn; [done|]. cbn [foldl fst snd]. rewrite fmap_cons in Hn. cbn [app fst] in Hn. apply NoDup_cons in Hn as [Hk Hn].
  destruct (map_insert_sorted k v m Hs) as [S1 P1]; [intros Hi; apply Hk, elem_of_app; by right|]. destruct (IH (map_insert k v m) S1) as [S2 P2].
  - rewrite P1, fmap_cons. cbn [fst]. rewrite <- Permutation_middle. apply NoDup_cons. done.
  - split; [done|]. rewrite P2, P1. by rewrite <- Permutation_middle.
Qed.

Lemma by_finish_lookup (g : props) i z : by_finish g !! i = Some z <-> exists x, g !! i = Some x /\ z = (f_ x, i).
Proof.
  unfold by_finish. rewrite list_lookup_imap. split.
  - intros E. destruct (g !! i) as [x|]; [|done]. injection E as <-. by exists x.
  - intros (x & -> & ->). done.
Qed.

Lemma sorted_index (l : list (Z * nat)) i j a b : StronglySorted key_lt l -> l !! i = Some a -> l !! j = Some b -> (a.1 < b.1)%Z -> i < j.
Proof.
  intros Hs. revert i j. induction Hs as [|c l Hs IH Hall]; intros i j Ea Eb Hlt; [done|]. rewrite Forall_forall in Hall. destruct i as [|i], j as [|j]; cbn in Ea, Eb.
  - injection Ea as <-. injection Eb as <-. lia.
  - lia.
  - injection Eb as <-. specialize (Hall a ltac:(by eapply list_elem_of_lookup_2)). unfold key_lt in Hall. lia.
  - apply -> Nat.succ_lt_mono. by apply IH.
Qed.

(** C32: in a graph without cycles [topological_sort] lists every vertex once, each after all the vertices its edges lead to: written backwards, as the
    program does, a topological order. *)
Theorem topological_sort_correct t : (INT_MIN <= t)%Z -> (t + 2 * Z.of_nat num_vertices <= INT_MAX)%Z -> (forall v w, w ∈ adjacent_vertices v -> ~ path w v) ->
  exists st c, topological_sort (start t) = Ok (st, c) /\ c ≡ₚ seq 0 num_vertices /\
    forall i j v w, c !! i = Some v -> c !! j = Some w -> w ∈ adjacent_vertices v -> j < i.
Proof.
  intros Hm Ht Hac. destruct (start_ready t Hm Ht) as (Hr & Htm & Hg). unfold topological_sort, depth_first_search.
  destruct (each_vertex_ok (seq 0 num_vertices) (start t)) as (st & E & P & T & Hall & _); [intros u Hu%elem_of_seq; lia|done|done|done|].
  rewrite E. cbn [mbind res_bind]. exists st. eexists. split; [done|].
  assert (Hb : forall v x, vs st !! v = Some x -> coloured Black st v x).
  { intros v x Ex. pose proof (lookup_lt_Some _ _ _ Ex) as Hv. rewrite (rd_len _ (po_ready _ _ P)) in Hv. destruct (Hall v) as (y & Ey & Wy); [by apply elem_of_seq; lia|].
    rewrite Ex in Ey. injection Ey as <-. split; [done|]. destruct (color_ x) eqn:Ec; [done| |done]. exfalso. apply (Hg v x). by apply (post_gray _ _ v x P). }
  destruct (fold_insert_sorted (by_finish (vs st)) []) as [Hs HP]; [constructor| |].
  { rewrite app_nil_r. apply NoDup_alt. intros i j k Ei Ej. apply list_lookup_fmap_Some in Ei as ([k1 v1] & -> & Ei). apply list_lookup_fmap_Some in Ej as ([k2 v2] & Ek & Ej). cbn [fst] in Ek. subst k2.
    apply by_finish_lookup in Ei as (x & Ex & [= -> ->]). apply by_finish_lookup in Ej as (y & Ey & [= Ef ->]). by apply (tm_distinct _ T i j x y (Hb _ _ Ex) (Hb _ _ Ey)). }
  rewrite app_nil_r in HP. set (r := foldl _ _ _) in *.
  assert (Hr1 : forall kv, kv ∈ r -> exists x, vs st !! kv.2 = Some x /\ kv.1 = f_ x).
  { intros kv Hkv. rewrite HP in Hkv. apply list_elem_of_lookup in Hkv as [i Ei]. apply by_finish_lookup in Ei as (x & Ex & ->). by exists x. }
  split.
  - rewrite HP. unfold by_finish. rewrite fmap_imap. rewrite <- (rd_len _ (po_ready _ _ P)). generalize (vs st). clear. intros g. match goal with |- ?a ≡ₚ ?b => cut (a = b); [by intros ->|] end. apply list_eq. intros i.
    rewrite list_lookup_imap. destruct (g !! i) as [x|] eqn:Ei; cbn.
    + symmetry. apply lookup_seq. split; [done|]. by apply lookup_lt_Some in Ei.
    + symmetry. apply lookup_ge_None_2. rewrite length_seq. by apply lookup_ge_None_1.
  - intros i j v w Ei Ej He. apply list_lookup_fmap_Some in Ei as ([k1 v1] & -> & Ei). apply list_lookup_fmap_Some in Ej as ([k2 v2] & -> & Ej). cbn [snd] in *.
    destruct (Hr1 (k1, v1)) as (x & Ex & Ek1); [by eapply list_elem_of_lookup_2|]. destruct (Hr1 (k2, v2)) as (y & Ey & Ek2); [by eapply list_elem_of_lookup_2|]. cbn [fst snd] in *. subst.
    apply (sorted_index r j i _ _ Hs Ej Ei). cbn [fst]. destruct (tm_edge _ T v1 x v2 (Hb _ _ Ex) He) as [(z & [Ez _] & Hlt)|Hp]; [rewrite Ey in Ez; by injection Ez as <-|]. by apply Hac in Hp.
Qed.
End Dfs.

(** The graph of the searches and the clothes of the test program. *)
Definition uvwxyz : BoostGraph := {| num_vertices := 6; adjacent_vertices := fun u => nth u [[1; 3]; [4]; [4; 5]; [1]; [3]; []] [] |}.
Definition clothes : BoostGraph := {| num_vertices := 8; adjacent_vertices := fun u => nth u [[1; 7]; [2; 7]; [5]; [2; 4]; [5]; []; [7]; []] [] |}.

Lemma table_ok n (table : list (list nat)) : Forall (Forall (fun v => v < n)) table -> @BoostGraphOk {| num_vertices := n; adjacent_vertices := fun u => nth u table [] |}.
Proof.
  intros Hall. split. cbn. intros u v Hv. destruct (nth_in_or_default u table []) as [Hi|Hd]; [|rewrite Hd in Hv; by apply not_elem_of_nil in Hv].
  apply list_elem_of_In in Hi. rewrite Forall_forall in Hall. specialize (Hall _ Hi). rewrite Forall_forall in Hall. by apply Hall.
Qed.

Example depth_first_search_correct_witness : exists st, @depth_first_search uvwxyz (@start uvwxyz 1) = Ok st /\ (f_ <$> vs st) = [8; 7; 12; 5; 6; 11]%Z.
Proof.
  assert (Hok : @BoostGraphOk uvwxyz) by (apply table_ok; repeat constructor). destruct (@depth_first_search_correct uvwxyz Hok 1) as (st & E & _).
  - vm_compute. discriminate.
  - vm_compute. discriminate.
  - exists st. split; [exact E|]. vm_compute in E. injection E as <-. reflexivity.
Defined.

(** A graph whose edges lower a rank has no cycle. *)
Lemma rank_acyclic `{BoostGraph} (rank : nat -> nat) : (forall v w, w ∈ adjacent_vertices v -> rank w < rank v) ->
  forall v w, w ∈ adjacent_vertices v -> ~ rtc (fun u v => v ∈ adjacent_vertices u) w v.
Proof.
  intros Hr v w Hw Hp. specialize (Hr v w Hw) as Hlt. assert (Hle : rank v <= rank w); [|lia]. clear Hw Hlt. induction Hp as [|x y z Hxy _ IH]; [done|]. specialize (Hr x y Hxy). lia.
Qed.

Example topological_sort_correct_witness : exists st c, @topological_sort clothes (@start clothes 1) = Ok (st, c) /\ reverse c = [6; 3; 4; 0; 1; 7; 2; 5].
Proof.
  assert (Hok : @BoostGraphOk clothes) by (apply table_ok; repeat constructor). destruct (@topological_sort_correct clothes Hok 1) as (st & c & E & _).
  - vm_compute. discriminate.
  - vm_compute. discriminate.
  - apply (@rank_acyclic clothes (fun u => nth u [3; 2; 1; 2; 1; 0; 1; 0] 0)). intros v w Hw. do 8 (destruct v as [|v]; [cbn in Hw; set_unfold in Hw; repeat (destruct Hw as [-> | Hw]; [cbn; lia|]); try (destruct Hw; fail); try (subst; cbn; lia)|]).
    cbn in Hw. destruct v; cbn in Hw; by apply not_elem_of_nil in Hw.
  - exists st, c. split; [exact E|]. vm_compute in E. injection E as <- <-. reflexivity.
Defined.
