(* ===== verification/CtiExpr.v ===== *)
(** Arithmetic expressions: [infix2postfix], [higher_priority] and [calc4] of src/src/algs/cti/test_cti.cpp.  Characters are their codes.  What the
    C library computes with doubles is the class [Doubles], Boost's splitting of a string the class [Splits]. *)
From S2P Require Import Prelude.

Definition PLUS : Z := 43.
Definition MINUS : Z := 45.
Definition STAR : Z := 42.
Definition SLASH : Z := 47.
Definition LPAR : Z := 40.
Definition RPAR : Z := 41.
Definition SPACE : Z := 32.

Definition is_sum (c : Z) : bool := (c =? PLUS)%Z || (c =? MINUS)%Z.
Definition is_product (c : Z) : bool := (c =? STAR)%Z || (c =? SLASH)%Z.
Definition is_operator (c : Z) : bool := is_sum c || is_product c.

Definition higher_priority (inputOpa stackOpb : Z) : bool :=
  (inputOpa =? LPAR)%Z || (stackOpb =? LPAR)%Z || (is_product inputOpa && is_sum stackOpb).

(** [*postfix++ = c; *postfix++ = ' '] into a buffer of [cap] bytes; a [std::string] grows ([None]). *)
Definition emit (cap : option nat) (out : list Z) (c : Z) : res (list Z) :=
  match cap with
  | Some n => if length out + 2 <=? n then Ok (out ++ [c; SPACE]) else Stop OutOfBounds
  | None => Ok (out ++ [c; SPACE])
  end.

(** The stack of operators has its top first. *)
Fixpoint pop_lower (cap : option nat) (c : Z) (ops out : list Z) : res (list Z * list Z) :=
  match ops with
  | [] => Ok ([], out)
  | top :: ops' => if higher_priority c top then Ok (ops, out) else out ← emit cap out top; pop_lower cap c ops' out
  end.
(** [top] of an empty stack is undefined. *)
Fixpoint pop_to_paren (cap : option nat) (ops out : list Z) : res (list Z * list Z) :=
  match ops with
  | [] => Stop EmptyContainer
  | top :: ops => if (top =? LPAR)%Z then Ok (ops, out) else out ← emit cap out top; pop_to_paren cap ops out
  end.
Fixpoint pop_all (cap : option nat) (ops out : list Z) : res (list Z) :=
  match ops with [] => Ok out | top :: ops => out ← emit cap out top; pop_all cap ops out end.

(** The [switch] on one character. *)
Definition convert_char (cap : option nat) (c : Z) (st : list Z * list Z) : res (list Z * list Z) :=
  let '(ops, out) := st in
  if is_operator c || (c =? LPAR)%Z then '(ops, out) ← pop_lower cap c ops out; Ok (c :: ops, out)
  else if (c =? RPAR)%Z then pop_to_paren cap ops out
  else out ← emit cap out c; Ok (ops, out).
Fixpoint convert (cap : option nat) (cs : list Z) (st : list Z * list Z) : res (list Z * list Z) :=
  match cs with [] => Ok st | c :: cs => st ← convert_char cap c st; convert cap cs st end.
Definition to_postfix (cap : option nat) (cs : list Z) : res (list Z) := '(ops, out) ← convert cap cs ([], []); pop_all cap ops out.

(** The string of a buffer, up to its first zero. *)
Fixpoint c_str (p : list Z) : res (list Z) :=
  match p with [] => Stop OutOfBounds | c :: p => if (c =? 0)%Z then Ok [] else s ← c_str p; Ok (c :: s) end.

(** [infix2postfix(infix, postfix)]: the buffer [postfix] afterwards; no terminator is written. *)
Definition infix2postfix (infix : option (list Z)) (postfix : list Z) : res (list Z) :=
  match infix with
  | None => Ok postfix
  | Some p => s ← c_str p; out ← to_postfix (Some (length postfix)) s; Ok (out ++ drop (length out) postfix)
  end.

(** [boost::split(tokens, s, is_any_of(" "))]: the pieces between the spaces, empty ones too. *)
Class Splits : Type := {
  split : list Z -> list (list Z);
  split_nil : split [] = [[]];
  split_space s : split (SPACE :: s) = [] :: split s;
  split_char c s t ts : c <> SPACE -> split s = t :: ts -> split (c :: s) = (c :: t) :: ts;
}.

(** Doubles and their text: [strtod] and [sprintf("%f")]. *)
Class Doubles : Type := {
  double : Type;
  strtod : list Z -> double;
  sprintf_f : double -> list Z;
  dzero : double;
  dadd : double -> double -> double;
  dsub : double -> double -> double;
  dmul : double -> double -> double;
  ddiv : double -> double -> double;
}.

Section Calc.
Context `{Doubles} `{Splits}.

Definition apply_op (op : Z) (x y : double) : double :=
  if (op =? PLUS)%Z then dadd x y else if (op =? MINUS)%Z then dsub x y else if (op =? STAR)%Z then dmul x y else if (op =? SLASH)%Z then ddiv x y else dzero.

(** [tokenStack.top()], then [pop()]. *)
Definition top_pop (ts : list (list Z)) : res (list Z * list (list Z)) := match ts with [] => Stop EmptyContainer | t :: ts => Ok (t, ts) end.

(** One token; [tmp] holds 128 bytes with the terminator. *)
Definition eval_token (tok : list Z) (ts : list (list Z)) : res (list (list Z)) :=
  match tok with
  | [] => Ok ts
  | [c] => if is_operator c then
             '(a, ts) ← top_pop ts; let operand1 := strtod a in
             '(b, ts) ← top_pop ts; let operand2 := strtod b in
             let tmp := sprintf_f (apply_op c operand1 operand2) in
             if length tmp <? 128 then Ok (tmp :: ts) else Stop OutOfBounds
           else Ok (tok :: ts)
  | _ => Ok (tok :: ts)
  end.
Fixpoint eval_tokens (toks : list (list Z)) (ts : list (list Z)) : res (list (list Z)) :=
  match toks with [] => Ok ts | t :: toks => ts ← eval_token t ts; eval_tokens toks ts end.

Definition calc4 (expr : list Z) : res double :=
  let exp := filter (fun c => c <> SPACE) expr in
  match exp with
  | [] => Ok dzero
  | _ => postfix ← to_postfix None exp; ts ← eval_tokens (split postfix) []; '(t, _) ← top_pop ts; Ok (strtod t)
  end.
End Calc.

(** * Expressions *)

Inductive expr : Type := Num (c : Z) | Bin (op : Z) (l r : expr) | Par (e : expr).

(** Sums bind less than products. *)
Definition prec (op : Z) : nat := if is_sum op then 1 else 2.
Fixpoint well_formed (e : expr) : Prop :=
  match e with
  | Num c => is_operator c = false /\ c <> LPAR /\ c <> RPAR /\ c <> SPACE /\ c <> 0%Z
  | Bin op l r => is_operator op = true /\ well_formed l /\ well_formed r
  | Par e => well_formed e
  end.
(** The text of an expression where [lvl] is expected: parentheses around what binds less. *)
Fixpoint infix (lvl : nat) (e : expr) : list Z :=
  match e with
  | Num c => [c]
  | Bin op l r => let s := infix (prec op) l ++ op :: infix (S (prec op)) r in if prec op <? lvl then LPAR :: s ++ [RPAR] else s
  | Par e => LPAR :: infix 1 e ++ [RPAR]
  end.
Fixpoint postfix_of (e : expr) : list Z :=
  match e with
  | Num c => [c; SPACE]
  | Bin op l r => postfix_of l ++ postfix_of r ++ [op; SPACE]
  | Par e => postfix_of e
  end.

Definition flush (ops : list Z) : list Z := concat ((fun c => [c; SPACE]) <$> ops).
(** There is room for [n] more bytes. *)
Definition room (cap : option nat) (out : list Z) (n : nat) : Prop := match cap with Some m => length out + n <= m | None => True end.

Lemma emit_ok cap out c n : room cap out (2 + n) -> emit cap out c = Ok (out ++ [c; SPACE]) /\ room cap (out ++ [c; SPACE]) n.
Proof. destruct cap as [m|]; cbn; [|done]. intros Hr. rewrite (proj2 (Nat.leb_le _ _)) by lia. split; [done|]. rewrite length_app. cbn. lia. Qed.

Lemma flush_cons c ops : flush (c :: ops) = [c; SPACE] ++ flush ops.
Proof. done. Qed.
Lemma flush_app a b : flush (a ++ b) = flush a ++ flush b.
Proof. unfold flush. by rewrite fmap_app, concat_app. Qed.

(** The stack below the operators of an expression expected at [lvl] does not give way to them. *)
Definition below (lvl : nat) (ops : list Z) : Prop := match ops with [] => True | top :: _ => top = LPAR \/ is_operator top = true /\ prec top < lvl end.
Definition pending (lvl : nat) (pend : list Z) : Prop := Forall (fun c => is_operator c = true /\ lvl <= prec c) pend.

Lemma operator_cases c : is_operator c = true -> c = PLUS \/ c = MINUS \/ c = STAR \/ c = SLASH.
Proof. unfold is_operator, is_sum, is_product. rewrite !orb_true_iff, !Z.eqb_eq. tauto. Qed.
Lemma higher_iff c top : is_operator c = true -> is_operator top = true -> higher_priority c top = (prec top <? prec c).
Proof. intros [-> | [-> | [-> | ->]]]%operator_cases [-> | [-> | [-> | ->]]]%operator_cases; done. Qed.

Lemma pop_lower_pending cap c pend ops out n : is_operator c = true -> pending (prec c) pend -> below (prec c) ops -> room cap out (length (flush pend) + n) ->
  pop_lower cap c (pend ++ ops) out = Ok (ops, out ++ flush pend) /\ room cap (out ++ flush pend) n.
Proof.
  intros Hc Hp Hb. revert out. induction Hp as [|top pend [Ho Hle] Hp IH]; intros out Hr.
  - cbn [app flush concat fmap list_fmap]. rewrite app_nil_r. split; [|done]. destruct ops as [|top ops]; [done|]. cbn [pop_lower]. destruct Hb as [->|[Ho Hlt]].
    + unfold higher_priority. rewrite Z.eqb_refl, orb_true_r. done.
    + rewrite higher_iff by done. by rewrite (proj2 (Nat.ltb_lt _ _) Hlt).
  - cbn [app pop_lower]. rewrite higher_iff by done. rewrite (proj2 (Nat.ltb_ge _ _) Hle). rewrite flush_cons in *. rewrite length_app in Hr. cbn [length] in Hr.
    destruct (emit_ok cap out top (length (flush pend) + n)) as [-> Hr']; [by rewrite Nat.add_assoc|]. cbn [mbind res_bind]. destruct (IH _ Hr') as [-> Hr2]. rewrite <- app_assoc in *. done.
Qed.

Lemma pop_to_paren_pending cap pend ops out n lvl : pending lvl pend -> room cap out (length (flush pend) + n) ->
  pop_to_paren cap (pend ++ LPAR :: ops) out = Ok (ops, out ++ flush pend) /\ room cap (out ++ flush pend) n.
Proof.
  intros Hp. revert out. induction Hp as [|top pend [Ho Hle] Hp IH]; intros out Hr; [cbn; by rewrite app_nil_r|]. cbn [app pop_to_paren].
  destruct (Z.eqb_spec top LPAR) as [->|_]; [done|]. rewrite flush_cons in *. rewrite length_app in Hr. cbn [length] in Hr.
  destruct (emit_ok cap out top (length (flush pend) + n)) as [-> Hr']; [by rewrite Nat.add_assoc|]. cbn [mbind res_bind]. destruct (IH _ Hr') as [-> Hr2]. rewrite <- app_assoc in *. done.
Qed.

Lemma convert_app cap a b st : convert cap (a ++ b) st = (st ← convert cap a st; convert cap b st).
Proof. revert st. induction a as [|c a IH]; intros st; [done|]. cbn. destruct (convert_char cap c st) as [st'|]; [apply IH|done]. Qed.

(** Reading an expression writes a part [o] of its postfix form and leaves the rest, its pending operators, on the stack. *)
Definition reads (cap : option nat) (lvl : nat) (e : expr) : Prop := forall ops out n, below lvl ops -> room cap out (length (postfix_of e) + n) ->
  exists pend o, convert cap (infix lvl e) (ops, out) = Ok (pend ++ ops, out ++ o) /\ o ++ flush pend = postfix_of e /\ pending lvl pend.

Lemma room_app cap out o n m : room cap out n -> length o + m = n -> room cap (out ++ o) m.
Proof. destruct cap as [k|]; cbn; [|done]. rewrite length_app. lia. Qed.

Lemma pending_weaken lvl lvl' pend : lvl' <= lvl -> pending lvl pend -> pending lvl' pend.
Proof. intros Hle Hp. eapply Forall_impl; [exact Hp|]. intros c [? ?]. split; [done|lia]. Qed.

Lemma below_paren lvl ops : below lvl (LPAR :: ops).
Proof. by left. Qed.

(** A parenthesised expression is written whole. *)
Lemma reads_paren cap e : reads cap 1 e -> forall ops out n, room cap out (length (postfix_of e) + n) ->
  convert cap (LPAR :: infix 1 e ++ [RPAR]) (ops, out) = Ok (ops, out ++ postfix_of e).
Proof.
  intros He ops out n Hr. assert (E1 : convert_char cap LPAR (ops, out) = Ok (LPAR :: ops, out)) by (by destruct ops).
  cbn [convert]. rewrite E1. cbn [mbind res_bind]. rewrite convert_app. destruct (He (LPAR :: ops) out n (below_paren _ _) Hr) as (pend & o & -> & Eo & Hp). cbn [mbind res_bind convert].
  destruct (pop_to_paren_pending cap pend ops (out ++ o) n 1 Hp) as [E _].
  { apply (room_app _ out _ _ _ Hr). rewrite <- Eo, length_app. lia. }
  change (convert_char cap RPAR (pend ++ LPAR :: ops, out ++ o)) with (pop_to_paren cap (pend ++ LPAR :: ops) (out ++ o)). rewrite E. cbn [mbind res_bind]. by rewrite <- app_assoc, Eo.
Qed.

Lemma prec_range op : 1 <= prec op <= 2.
Proof. unfold prec. destruct (is_sum op); lia. Qed.

Lemma reads_bin cap op l r lvl : is_operator op = true -> reads cap (prec op) l -> reads cap (S (prec op)) r -> lvl <= prec op ->
  forall ops out n, below lvl ops -> room cap out (length (postfix_of (Bin op l r)) + n) ->
  exists pend o, convert cap (infix (prec op) l ++ op :: infix (S (prec op)) r) (ops, out) = Ok (pend ++ ops, out ++ o) /\ o ++ flush pend = postfix_of (Bin op l r) /\ pending lvl pend.
Proof.
  intros Ho Hl Hrd Hlvl ops out n Hb Hr. cbn [postfix_of] in *. rewrite !length_app in Hr. cbn [length] in Hr.
  assert (Hb1 : below (prec op) ops) by (destruct ops as [|top ops]; [done|]; destruct Hb as [->|[? ?]]; [by left|right; split; [done|lia]]).
  rewrite convert_app. destruct (Hl ops out (length (postfix_of r) + 2 + n) Hb1) as (pend1 & o1 & -> & E1 & P1); [by replace (length (postfix_of l) + (length (postfix_of r) + 2 + n)) with (length (postfix_of l) + (length (postfix_of r) + 2) + n) by lia|].
  cbn [mbind res_bind convert].
  destruct (pop_lower_pending cap op pend1 ops (out ++ o1) (length (postfix_of r) + (2 + n)) Ho P1 Hb1) as [Ep Hr2].
  { apply (room_app _ out _ _ _ Hr). rewrite <- E1, length_app. lia. }
  assert (Ec : convert_char cap op (pend1 ++ ops, out ++ o1) = Ok (op :: ops, out ++ o1 ++ flush pend1)) by (unfold convert_char; rewrite Ho; cbn [orb]; rewrite Ep; cbn [mbind res_bind]; by rewrite <- app_assoc).
  rewrite Ec. cbn [mbind res_bind]. rewrite <- app_assoc, E1 in *. destruct (Hrd (op :: ops) (out ++ postfix_of l) (2 + n)) as (pend2 & o2 & E & E2 & P2); [right; split; [done|lia]|exact Hr2|].
  exists (pend2 ++ [op]), (postfix_of l ++ o2). rewrite E, <- !app_assoc. split_and!; [done| |].
  - rewrite flush_app, (app_assoc o2), E2. done.
  - apply Forall_app. split; [apply (pending_weaken (S (prec op))); [lia|done]|]. constructor; [done|constructor].
Qed.

Lemma convert_reads cap e : well_formed e -> forall lvl, reads cap lvl e.
Proof.
  induction e as [c|op l IHl r IHr|e IHe]; intros Hw lvl ops out n Hb Hr.
  - destruct Hw as (Ho & Hlp & Hrp & _ & _). exists [], [c; SPACE]. split_and!; [|done|constructor]. cbn [infix convert app]. unfold convert_char.
    rewrite Ho, (proj2 (Z.eqb_neq _ _) Hlp), (proj2 (Z.eqb_neq _ _) Hrp). cbn [orb]. destruct (emit_ok cap out c n) as [-> _]; [exact Hr|]. done.
  - destruct Hw as (Ho & Hl & Hrw). specialize (IHl Hl). specialize (IHr Hrw). cbn [infix]. destruct (Nat.ltb_spec (prec op) lvl) as [Hlt|Hge]; [|by apply (reads_bin cap op l r lvl Ho (IHl _) (IHr _) Hge ops out n)].
    exists [], (postfix_of (Bin op l r)). split_and!; [|by rewrite app_nil_r|constructor].
    assert (Hs : reads cap 1 (Bin op l r)).
    { intros ops' out' n' Hb' Hr'. cbn [infix]. pose proof (prec_range op). rewrite (proj2 (Nat.ltb_ge _ _)) by lia. apply (reads_bin cap op l r 1 Ho (IHl _) (IHr _)) with (n := n'); [lia|done|done]. }
    pose proof (reads_paren cap _ Hs ops out n Hr) as E. cbn [infix] in E. pose proof (prec_range op). rewrite (proj2 (Nat.ltb_ge _ _)) in E by lia. exact E.
  - exists [], (postfix_of e). cbn [infix postfix_of]. split_and!; [|by rewrite app_nil_r|constructor]. by apply (reads_paren cap e (IHe Hw 1) ops out n).
Qed.

Lemma pop_all_flush cap ops out n : room cap out (length (flush ops) + n) -> pop_all cap ops out = Ok (out ++ flush ops).
Proof.
  revert out. induction ops as [|top ops IH]; intros out Hr; [cbn; by rewrite app_nil_r|]. cbn [pop_all]. rewrite flush_cons in *. rewrite length_app in Hr. cbn [length] in Hr.
  destruct (emit_ok cap out top (length (flush ops) + n)) as [-> Hr']; [by rewrite Nat.add_assoc|]. cbn [mbind res_bind]. rewrite IH by done. by rewrite <- app_assoc.
Qed.

Lemma to_postfix_ok cap e : well_formed e -> room cap [] (length (postfix_of e)) -> to_postfix cap (infix 1 e) = Ok (postfix_of e).
Proof.
  intros Hw Hr. unfold to_postfix. destruct (convert_reads cap e Hw 1 [] [] 0) as (pend & o & -> & E & _); [done|by rewrite Nat.add_0_r|]. cbn [mbind res_bind].
  rewrite app_nil_r. cbn [app]. rewrite (pop_all_flush cap pend o 0); [by rewrite E|]. apply (room_app cap [] o (length (postfix_of e))); [done|]. rewrite <- E, length_app. lia.
Qed.

Lemma infix_nonzero lvl e : well_formed e -> Forall (fun c => c <> 0%Z /\ c <> SPACE) (infix lvl e).
Proof.
  revert lvl. induction e as [c|op l IHl r IHr|e IHe]; intros lvl Hw; cbn [infix].
  - destruct Hw as (_ & _ & _ & ? & ?). by repeat constructor.
  - destruct Hw as (Ho & Hl & Hr). assert (Hs : Forall (fun c => c <> 0%Z /\ c <> SPACE) (infix (prec op) l ++ op :: infix (S (prec op)) r)).
    { apply Forall_app. split; [by apply IHl|]. constructor; [|by apply IHr]. by apply operator_cases in Ho as [-> | [-> | [-> | ->]]]. }
    destruct (prec op <? lvl); [|done]. constructor; [done|]. apply Forall_app. split; [done|]. by repeat constructor.
  - constructor; [done|]. apply Forall_app. split; [by apply IHe|]. by repeat constructor.
Qed.

Lemma c_str_ok s rest : Forall (fun c => c <> 0%Z /\ c <> SPACE) s -> c_str (s ++ 0%Z :: rest) = Ok s.
Proof. induction 1 as [|c s [Hc _] _ IH]; cbn; [done|]. rewrite (proj2 (Z.eqb_neq _ _) Hc), IH. done. Qed.

(** ** Spaces in the text

    A space is written like an operand, and leaves the stack alone. *)
Abbreviation visible := (filter (fun c : Z => c <> SPACE)).
Definition spaces (s : list Z) : nat := length s - length (visible s).

Lemma pop_lower_out c ops : exists ops' p, forall out, pop_lower None c ops out = Ok (ops', out ++ p).
Proof.
  induction ops as [|top ops (ops' & p & IH)]; [exists [], []; intros out; by rewrite app_nil_r|]. cbn [pop_lower].
  destruct (higher_priority c top); [exists (top :: ops), []; intros out; by rewrite app_nil_r|].
  exists ops', ([top; SPACE] ++ p). intros out. cbn [emit mbind res_bind]. by rewrite IH, <- app_assoc.
Qed.

Lemma pop_to_paren_out ops : (exists f, forall out, pop_to_paren None ops out = Stop f) \/ exists ops' p, forall out, pop_to_paren None ops out = Ok (ops', out ++ p).
Proof.
  induction ops as [|top ops IH]; [left; by exists EmptyContainer|]. cbn [pop_to_paren].
  destruct (top =? LPAR)%Z; [right; exists ops, []; intros out; by rewrite app_nil_r|].
  destruct IH as [(f & IH)|(ops' & p & IH)]; [left; exists f; intros out; cbn [emit mbind res_bind]; by rewrite IH|].
  right. exists ops', ([top; SPACE] ++ p). intros out. cbn [emit mbind res_bind]. by rewrite IH, <- app_assoc.
Qed.

(** What a character writes does not depend on what is written. *)
Lemma convert_char_out c ops : (exists f, forall out, convert_char None c (ops, out) = Stop f) \/ exists ops' p, forall out, convert_char None c (ops, out) = Ok (ops', out ++ p).
Proof.
  unfold convert_char. destruct (is_operator c || (c =? LPAR)%Z).
  - destruct (pop_lower_out c ops) as (ops' & p & E). right. exists (c :: ops'), p. intros out. by rewrite E.
  - destruct (c =? RPAR)%Z; [apply pop_to_paren_out|]. right. by exists ops, [c; SPACE].
Qed.

Lemma convert_space ops out : convert_char None SPACE (ops, out) = Ok (ops, out ++ [SPACE; SPACE]).
Proof. done. Qed.

Lemma convert_spaces s : forall ops out0 out ops' out', convert None (visible s) (ops, out) = Ok (ops', out') -> visible out0 = visible out ->
  exists out0', convert None s (ops, out0) = Ok (ops', out0') /\ visible out0' = visible out' /\ length out0' + length out = length out0 + length out' + 2 * spaces s.
Proof.
  unfold spaces. induction s as [|c s IH]; intros ops out0 out ops' out' E Ev.
  - injection E as <- <-. exists out0. split; [done|]. split; [done|]. cbn. lia.
  - pose proof (length_filter (fun c : Z => c <> SPACE) s) as Hle. destruct (decide (c = SPACE)) as [->|Hc].
    + rewrite filter_cons_False in E |- * by (intros Hn; by apply Hn). cbn [convert]. rewrite convert_space. cbn [mbind res_bind].
      destruct (IH ops (out0 ++ [SPACE; SPACE]) out ops' out' E) as (out0' & E' & Ev' & Hl); [by rewrite filter_app, app_nil_r|].
      exists out0'. split; [done|]. split; [done|]. rewrite length_app in Hl. cbn [length] in *. lia.
    + rewrite filter_cons_True in E |- * by done. cbn [convert] in *. destruct (convert_char_out c ops) as [(f & Hf)|(ops1 & p & Hp)]; [by rewrite Hf in E|].
      rewrite Hp in E |- *. cbn [mbind res_bind] in *. destruct (IH ops1 (out0 ++ p) (out ++ p) ops' out' E) as (out0' & E' & Ev' & Hl); [by rewrite !filter_app, Ev|].
      exists out0'. split; [done|]. split; [done|]. rewrite !length_app in Hl. cbn [length] in *. lia.
Qed.

(** A buffer that is large enough takes what a string would. *)
Lemma pop_all_out ops out : pop_all None ops out = Ok (out ++ flush ops).
Proof. by apply (pop_all_flush None ops out 0). Qed.

Lemma convert_grows s : forall ops out ops' out', convert None s (ops, out) = Ok (ops', out') -> length out <= length out'.
Proof.
  induction s as [|c s IH]; intros ops out ops' out' E; [by injection E as <- <-|]. cbn [convert] in E.
  destruct (convert_char_out c ops) as [(f & Hf)|(ops1 & p & Hp)]; [by rewrite Hf in E|]. rewrite Hp in E. apply IH in E. rewrite length_app in E. lia.
Qed.

Lemma pop_lower_cap n c ops : forall out ops' out', pop_lower None c ops out = Ok (ops', out') -> length out' <= n -> pop_lower (Some n) c ops out = Ok (ops', out').
Proof.
  induction ops as [|top ops IH]; intros out ops' out'; [done|]. cbn [pop_lower]. destruct (higher_priority c top); [done|]. cbn [emit mbind res_bind]. intros E Hl.
  destruct (pop_lower_out c ops) as (o & p & Ho). pose proof E as E'. rewrite Ho in E'. injection E' as _ <-. rewrite !length_app in Hl. cbn [length] in Hl.
  rewrite (proj2 (Nat.leb_le _ _)) by lia. cbn [mbind res_bind]. apply IH; [exact E|]. rewrite !length_app. cbn [length]. lia.
Qed.

Lemma pop_to_paren_cap n ops : forall out ops' out', pop_to_paren None ops out = Ok (ops', out') -> length out' <= n -> pop_to_paren (Some n) ops out = Ok (ops', out').
Proof.
  induction ops as [|top ops IH]; intros out ops' out'; [done|]. cbn [pop_to_paren]. destruct (top =? LPAR)%Z; [done|]. cbn [emit mbind res_bind]. intros E Hl.
  destruct (pop_to_paren_out ops) as [(f & Ho)|(o & p & Ho)]; [by rewrite Ho in E|]. pose proof E as E'. rewrite Ho in E'. injection E' as _ <-. rewrite !length_app in Hl. cbn [length] in Hl.
  rewrite (proj2 (Nat.leb_le _ _)) by lia. cbn [mbind res_bind]. apply IH; [exact E|]. rewrite !length_app. cbn [length]. lia.
Qed.

Lemma convert_char_cap n c ops out ops' out' : convert_char None c (ops, out) = Ok (ops', out') -> length out' <= n -> convert_char (Some n) c (ops, out) = Ok (ops', out').
Proof.
  unfold convert_char. destruct (is_operator c || (c =? LPAR)%Z).
  - destruct (pop_lower None c ops out) as [[o p]|f] eqn:E; [|done]. intros [= <- <-] Hl. by rewrite (pop_lower_cap _ _ _ _ _ _ E Hl).
  - destruct (c =? RPAR)%Z; [intros E Hl; by apply pop_to_paren_cap|]. intros [= <- <-] Hl. rewrite length_app in Hl. cbn [length] in Hl.
    cbn [emit]. rewrite (proj2 (Nat.leb_le _ _)) by lia. done.
Qed.

Lemma convert_cap n s : forall ops out ops' out', convert None s (ops, out) = Ok (ops', out') -> length out' <= n -> convert (Some n) s (ops, out) = Ok (ops', out').
Proof.
  induction s as [|c s IH]; intros ops out ops' out' E Hl; [done|]. cbn [convert] in *.
  destruct (convert_char None c (ops, out)) as [[ops1 out1]|f] eqn:E1; [|done]. cbn [mbind res_bind] in E. pose proof (convert_grows _ _ _ _ _ E).
  rewrite (convert_char_cap n c ops out ops1 out1 E1) by lia. cbn [mbind res_bind]. by apply IH.
Qed.

Lemma to_postfix_spaces n e s : visible s = infix 1 e -> well_formed e -> length (postfix_of e) + 2 * spaces s <= n ->
  exists out, to_postfix (Some n) s = Ok out /\ length out = length (postfix_of e) + 2 * spaces s /\ visible out = visible (postfix_of e).
Proof.
  intros Es Hw Hn. pose proof (to_postfix_ok None e Hw I) as E. unfold to_postfix in *.
  destruct (convert None (infix 1 e) ([], [])) as [[ops out]|f] eqn:Ec; [|done]. cbn [mbind res_bind] in E. rewrite pop_all_out in E. injection E as E.
  rewrite <- Es in Ec. destruct (convert_spaces s [] [] [] ops out Ec eq_refl) as (out0 & E0 & Ev & Hl). cbn [length] in Hl.
  pose proof (f_equal length E) as El. rewrite length_app in El.
  rewrite (convert_cap n s [] [] ops out0 E0) by lia. cbn [mbind res_bind]. exists (out0 ++ flush ops).
  split; [|split; [rewrite length_app; lia|by rewrite <- E, !filter_app, Ev]].
  apply (pop_all_flush (Some n) ops out0 0). cbn. lia.
Qed.

Lemma c_str_visible s rest : Forall (fun c => c <> 0%Z /\ c <> SPACE) (visible s) -> c_str (s ++ 0%Z :: rest) = Ok s.
Proof.
  induction s as [|c s IH]; intros Hs; [done|]. cbn [app c_str]. destruct (decide (c = SPACE)) as [->|Hc].
  - rewrite filter_cons_False in Hs by (intros Hn; by apply Hn). by rewrite IH.
  - rewrite filter_cons_True in Hs by done. apply Forall_cons in Hs as [[H0 _] Hs]. rewrite (proj2 (Z.eqb_neq _ _) H0), IH by done. done.
Qed.


(** The expression of the test program, [a+b*c+(d*e+f)*g+(h-i*j)]. *)
Definition main_expr : expr :=
  Bin PLUS (Bin PLUS (Bin PLUS (Num 97) (Bin STAR (Num 98) (Num 99))) (Bin STAR (Bin PLUS (Bin STAR (Num 100) (Num 101)) (Num 102)) (Num 103)))
    (Par (Bin MINUS (Num 104) (Bin STAR (Num 105) (Num 106)))).


(** [10+2]: each digit is an operand. *)
Example digits_split : infix2postfix (Some [49; 48; 43; 50; 0]%Z) (replicate 8 0%Z) = Ok [49; 32; 48; 32; 50; 32; 43; 32]%Z.
Proof. vm_compute. reflexivity. Qed.

(** [a + b]: the spaces of the text are copied. *)
Example spaces_copied : infix2postfix (Some [97; 32; 43; 32; 98; 0]%Z) (replicate 12 0%Z) = Ok [97; 32; 32; 32; 32; 32; 98; 32; 43; 32; 0; 0]%Z.
Proof. vm_compute. reflexivity. Qed.

(** * Values *)

Section Value.
Context `{Doubles} `{Splits}.

(** What [calc4] computes: the text of the value, with the operands of every operator exchanged. *)
Fixpoint text (e : expr) : list Z :=
  match e with
  | Num c => [c]
  | Bin op l r => sprintf_f (apply_op op (strtod (text r)) (strtod (text l)))
  | Par e => text e
  end.
(** The texts of all results fit into [tmp]. *)
Fixpoint fits (e : expr) : Prop :=
  match e with Num _ => True | Bin op l r => fits l /\ fits r /\ length (text (Bin op l r)) < 128 | Par e => fits e end.

Fixpoint tokens (e : expr) : list (list Z) :=
  match e with Num c => [[c]] | Bin op l r => tokens l ++ tokens r ++ [[op]] | Par e => tokens e end.

Lemma split_token c s : c <> SPACE -> split (c :: SPACE :: s) = [c] :: split s.
Proof. intros Hc. apply split_char; [done|]. apply split_space. Qed.

Lemma split_postfix e rest : well_formed e -> split (postfix_of e ++ rest) = tokens e ++ split rest.
Proof.
  revert rest. induction e as [c|op l IHl r IHr|e IHe]; intros rest Hw; cbn [postfix_of tokens]; [| |by apply IHe].
  - destruct Hw as (_ & _ & _ & Hc & _). by apply split_token.
  - destruct Hw as (Ho & Hl & Hr). rewrite <- !app_assoc, IHl, IHr by done. do 2 f_equal. apply split_token. by apply operator_cases in Ho as [-> | [-> | [-> | ->]]].
Qed.

Lemma eval_tokens_ok e rest ts : well_formed e -> fits e -> eval_tokens (tokens e ++ rest) ts = eval_tokens rest (text e :: ts).
Proof.
  revert rest ts. induction e as [c|op l IHl r IHr|e IHe]; intros rest ts Hw Hf; cbn [tokens]; [| |by apply IHe].
  - destruct Hw as (Ho & _). cbn [app eval_tokens eval_token text]. by rewrite Ho.
  - destruct Hw as (Ho & Hl & Hr), Hf as (Fl & Fr & Fo). rewrite <- !app_assoc, IHl, IHr by done. cbn [app eval_tokens eval_token]. rewrite Ho. cbn [top_pop mbind res_bind].
    cbn [text] in Fo. rewrite (proj2 (Nat.ltb_lt _ _) Fo). done.
Qed.

(** [calc4] of the text of an expression, with spaces anywhere, is its value with the operands of every operator exchanged: a difference and a quotient are
    computed the wrong way round. *)
Theorem calc4_exchanges_operands s e : filter (fun c => c <> SPACE) s = infix 1 e -> well_formed e -> fits e -> calc4 s = Ok (strtod (text e)).
Proof.
  intros Es Hw Hf. unfold calc4. rewrite Es. assert (Hn : infix 1 e <> []).
  { destruct e as [c|op l r|e]; cbn [infix]; [done| |done]. destruct (prec op <? 1); [done|]. by intros [_ ?]%app_nil. }
  destruct (infix 1 e) as [|c0 s0] eqn:Ei; [done|]. rewrite <- Ei, (to_postfix_ok None) by done. cbn [mbind res_bind].
  rewrite <- (app_nil_r (postfix_of e)), split_postfix, split_nil, eval_tokens_ok by done. done.
Qed.
End Value.

(** Integers as doubles whose text is one character, 1000 above the number. *)
Definition toy_doubles : Doubles := {|
  double := Z;
  strtod := fun s => match s with [c] => if (500 <=? c)%Z then (c - 1000)%Z else (c - 48)%Z | _ => 0%Z end;
  sprintf_f := fun d => [(d + 1000)%Z];
  dzero := 0%Z; dadd := Z.add; dsub := Z.sub; dmul := Z.mul; ddiv := Z.quot |}.

(** Splitting from the right. *)
Fixpoint split_at (s : list Z) : list (list Z) :=
  match s with [] => [[]] | c :: s => if (c =? SPACE)%Z then [] :: split_at s else match split_at s with t :: ts => (c :: t) :: ts | [] => [[c]] end end.
#[refine] Instance splits_at : Splits := {| split := split_at |}.
Proof.
  - done.
  - done.
  - intros c s t ts Hc E. cbn. by rewrite (proj2 (Z.eqb_neq _ _) Hc), E.
Defined.

(** [8 - 5 - 1] is computed as [1 - (5 - 8)]. *)
Example calc4_exchanges_operands_witness : @calc4 toy_doubles splits_at [56; 32; 45; 32; 53; 45; 49]%Z = Ok 4%Z.
Proof.
  rewrite (@calc4_exchanges_operands toy_doubles splits_at _ (Bin MINUS (Bin MINUS (Num 56) (Num 53)) (Num 49))).
  - reflexivity.
  - reflexivity.
  - cbn. repeat split; discriminate.
  - cbn. repeat split; lia.
Defined.
