(* ===== verification/CtiArray.v ===== *)
(** Arrays of [int] in src/src/algs/cti/test_cti.cpp: [merge_sort] and [my_merge], [insertion_sort], [maximun_subarray], [maximun_subarray2] and
    [binary_search]. *)
From S2P Require Import Prelude Swaps.

(** * Insertion sort *)

(** The inner loop at [i = n - 1], which the result gives as [n] too. *)
Fixpoint shift_loop (n : nat) (a : list Z) (key : Z) : res (list Z * nat) :=
  match n with
  | O => Ok (a, O)
  | S i => x ← aget a (Z.of_nat i);
           if (key <? x)%Z then a ← aset a (Z.of_nat (S i)) x; shift_loop i a key else Ok (a, n)
  end.
(** The outer loop with [todo] rounds left. *)
Fixpoint insertion_loop (todo j : nat) (a : list Z) : res (list Z) :=
  match todo with
  | O => Ok a
  | S todo =>
    key ← aget a (Z.of_nat j);
    '(a, i) ← shift_loop j a key;
    a ← aset a (Z.of_nat i) key;
    insertion_loop todo (S j) a
  end.
Definition insertion_sort (arr : option (list Z)) (length : nat) : res (option (list Z)) :=
  match arr with
  | Some a => if length <? 2 then Ok arr else a ← insertion_loop (length - 1) 1 a; Ok (Some a)
  | None => Ok None
  end.

(** * Merge sort *)

(** The loop of [my_merge] with [todo] rounds left and what is left of [L] and [R] from [i] and [j] on. *)
Fixpoint my_merge_loop (todo : nat) (L R : list Z) (k : nat) (arr : list Z) : res (list Z) :=
  match todo with
  | O => Ok arr
  | S todo =>
    match L, R with
    | x :: L', y :: R' => if (x <=? y)%Z then arr ← aset arr (Z.of_nat k) x; my_merge_loop todo L' R (S k) arr
                          else arr ← aset arr (Z.of_nat k) y; my_merge_loop todo L R' (S k) arr
    | _, _ => Stop OutOfBounds
    end
  end.
Definition my_merge (arr : list Z) (p q r : nat) : res (list Z) :=
  let n1 := q - p + 1 in let n2 := r - q in
  if length arr <? n1 + n2 then Stop OutOfBounds
  else my_merge_loop (r - p + 1) (take n1 arr ++ [INT_MAX]) (take n2 (drop n1 arr) ++ [INT_MAX]) p arr.

(** [merge_sort(arr, length)] on the [length] elements from [arr] on; the two recursive calls get the two parts of them. *)
Fixpoint merge_sort_rec (fuel : nat) (arr : list Z) : res (list Z) :=
  match fuel with
  | O => Stop OutOfFuel
  | S fuel =>
    if length arr <? 2 then Ok arr
    else let q := length arr / 2 in
         l ← merge_sort_rec fuel (take q arr);
         r ← merge_sort_rec fuel (drop q arr);
         my_merge (l ++ r) 0 (q - 1) (length arr - 1)
  end.
Definition merge_sort (arr : option (list Z)) : res (option (list Z)) :=
  match arr with Some a => a ← merge_sort_rec (S (length a)) a; Ok (Some a) | None => Ok None end.

(** * Largest sum of a subarray *)

Fixpoint subarray_loop (todo i : nat) (a : list Z) (b maxSum : Z) : res Z :=
  match todo with
  | O => Ok maxSum
  | S todo =>
    x ← aget a (Z.of_nat i);
    b ← (if (b <? 0)%Z then Ok x else ck (b + x));
    subarray_loop todo (S i) a b (if (maxSum <? b)%Z then b else maxSum)
  end.
(** [maximun_subarray]: only [maxSum] is assigned. *)
Definition maximun_subarray (arr : option (list Z)) (length : nat) (maxSum : Z) : res Z :=
  match arr with Some a => if length =? 0 then Ok maxSum else subarray_loop length 0 a 0 0 | None => Ok maxSum end.

Fixpoint subarray2_loop (todo i : nat) (a : list Z) (thisSum maxSum : Z) (high : nat) : res (Z * nat) :=
  match todo with
  | O => Ok (maxSum, high)
  | S todo =>
    x ← aget a (Z.of_nat i); thisSum ← ck (thisSum + x);
    if (maxSum <? thisSum)%Z then subarray2_loop todo (S i) a thisSum thisSum i
    else subarray2_loop todo (S i) a (if (thisSum <? 0)%Z then 0%Z else thisSum) maxSum high
  end.
(** [for(; thisSum != 0; --i) thisSum -= arr[i]] from [i = n - 1]; the result is [i + 1]. *)
Fixpoint back_loop (n : nat) (a : list Z) (thisSum : Z) : res nat :=
  if (thisSum =? 0)%Z then Ok n
  else match n with
       | O => Stop OutOfBounds
       | S i => x ← aget a (Z.of_nat i); thisSum ← ck (thisSum - x); back_loop i a thisSum
       end.
Definition maximun_subarray2 (arr : option (list Z)) (length : nat) (maxSum : Z) (low high : nat) : res (Z * nat * nat) :=
  match arr with
  | Some a =>
    if length =? 0 then Ok (maxSum, low, high)
    else '(maxSum, high) ← subarray2_loop length 0 a 0 0 0; low ← back_loop (S high) a maxSum; Ok (maxSum, low, high)
  | None => Ok (maxSum, low, high)
  end.

(** * Binary search *)

Definition search_round (a : list Z) (val : Z) (st : Z * Z) : res (Z * Z + Z) :=
  let '(low, high) := st in
  if (low <=? high)%Z then
    s ← ck (low + high);
    let mid := Z.quot s 2 in
    x ← aget a mid;
    if (x <? val)%Z then low ← ck (mid + 1); Ok (inl (low, high))
    else if (val <? x)%Z then high ← ck (mid - 1); Ok (inl (low, high))
    else Ok (inr mid)
  else Ok (inr (-1)%Z).
Definition binary_search (arr : option (list Z)) (length val : Z) : res Z :=
  match arr with
  | Some a => if (length =? 0)%Z then Ok (-2)%Z else loop (Z.to_nat length + 3) (search_round a val) (0%Z, length)
  | None => Ok (-2)%Z
  end.

(** * The sorts sort *)

Lemma shift_loop_ok n j a key : n <= j -> j < length a -> sorted_in 0 n a -> sorted_in (S n) (S j) a -> (forall i k, i < n -> n < k <= j -> (a !!! i <= a !!! k)%Z) ->
  (forall k, n < k <= j -> (key < a !!! k)%Z) ->
  exists a' m, shift_loop n a key = Ok (a', m) /\ m <= n /\ length a' = length a /\ swaps 0 (S j) (<[n := key]> a) (<[m := key]> a') /\ sorted_in 0 (S j) (<[m := key]> a').
Proof.
  revert a. induction n as [|n IH]; intros a Hn Hj S1 S2 X K.
  - exists a, 0. split_and!; [done|done|done|constructor|]. intros i k H1' H2' H3'. destruct (decide (i = 0)) as [->|Hi]; destruct (decide (k = 0)) as [->|Hk]; try lia;
      rewrite ?list_lookup_total_insert_eq, ?list_lookup_total_insert_ne by lia; [specialize (K k); lia|apply S2; lia].
  - cbn [shift_loop]. rewrite aget_total by lia. cbn [mbind res_bind]. destruct (Z.ltb_spec key (a !!! n)) as [Hc|Hc].
    + rewrite aset_nat by lia. cbn [mbind res_bind]. destruct (IH (<[S n := a !!! n]> a)) as (a' & m & E & Hm & L & Sw & So); [lia|by rewrite length_insert| | | | |].
      * intros i k H1' H2' H3'. rewrite !list_lookup_total_insert_ne by lia. apply S1; lia.
      * intros i k H1' H2' H3'. destruct (decide (i = S n)) as [->|Hi]; destruct (decide (k = S n)) as [->|Hk]; try lia; rewrite ?list_lookup_total_insert_eq, ?list_lookup_total_insert_ne by lia; [apply X; lia|apply S2; lia].
      * intros i k Hi Hk. rewrite (list_lookup_total_insert_ne _ _ i) by lia. destruct (decide (k = S n)) as [->|Hne]; [rewrite list_lookup_total_insert_eq by lia; apply S1; lia|].
        rewrite list_lookup_total_insert_ne by lia. apply X; lia.
      * intros k Hk. destruct (decide (k = S n)) as [->|Hne]; [by rewrite list_lookup_total_insert_eq by lia|]. rewrite list_lookup_total_insert_ne by lia. apply K. lia.
      * exists a', m. rewrite length_insert in L. split_and!; [done|lia|done| |done]. eapply swaps_trans; [|exact Sw].
        replace (<[n:=key]> (<[S n:=a !!! n]> a)) with (swap_els (<[S n := key]> a) (S n) n); [apply swaps_one; rewrite ?length_insert; lia|].
        unfold swap_els. rewrite list_lookup_total_insert_eq, (list_lookup_total_insert_ne _ _ n) by lia. by rewrite list_insert_insert_eq.
    + exists a, (S n). split_and!; [done|done|done|constructor|]. intros i k H1' H2' H3'.
      destruct (decide (i = S n)) as [->|Hi]; destruct (decide (k = S n)) as [->|Hk]; try lia; rewrite ?list_lookup_total_insert_eq, ?list_lookup_total_insert_ne by lia.
      * specialize (K k). lia.
      * apply (Z.le_trans _ (a !!! n)); [apply S1; lia|done].
      * destruct (decide (k <= n)); [apply S1; lia|]. destruct (decide (S n < i)); [apply S2; lia|]. apply X; lia.
Qed.

Lemma insertion_loop_ok todo j a : 1 <= j -> j + todo = length a -> sorted_in 0 j a ->
  exists a', insertion_loop todo j a = Ok a' /\ swaps 0 (length a) a a' /\ sorted_in 0 (length a) a'.
Proof.
  revert j a. induction todo as [|todo IH]; intros j a Hj Hl Hs; [exists a; split_and!; [done|constructor|by replace (length a) with j by lia]|].
  cbn [insertion_loop]. rewrite aget_total by lia. cbn [mbind res_bind].
  destruct (shift_loop_ok j j a (a !!! j)) as (a1 & m & -> & Hm & L & Sw & So); [lia|lia|done|unfold sorted_in; intros; lia|intros; lia|intros; lia|]. cbn [mbind res_bind].
  rewrite list_insert_id in Sw by (apply list_lookup_lookup_total_lt; lia). rewrite aset_nat by lia. cbn [mbind res_bind].
  assert (L2 : length (<[m:=a !!! j]> a1) = length a) by (by rewrite length_insert).
  destruct (IH (S j) (<[m := a !!! j]> a1)) as (a2 & -> & Sw2 & So2); [lia|lia|done|]. rewrite L2 in *. exists a2. split_and!; [done| |done].
  apply (swaps_trans _ _ _ (<[m := a !!! j]> a1)); [|done]. apply (swaps_wider 0 (S j)); [done|lia..].
Qed.

(** [insertion_sort] of a whole array sorts it and keeps its elements; a null pointer is left alone. *)
Theorem insertion_sort_correct a : insertion_sort None (length a) = Ok None /\
  exists a', insertion_sort (Some a) (length a) = Ok (Some a') /\ a' ≡ₚ a /\ StronglySorted Z.le a'.
Proof.
  split; [done|]. unfold insertion_sort. destruct (Nat.ltb_spec (length a) 2) as [Hl|Hl].
  - exists a. split_and!; [done|done|]. destruct a as [|x [|y a]]; cbn in Hl; [constructor|repeat constructor|lia].
  - destruct (insertion_loop_ok (length a - 1) 1 a) as (a' & -> & Sw & So); [done|lia|intros i k H1' H2' H3'; assert (i = k) as -> by lia; lia|]. exists a'.
    split_and!; [done|by apply (swaps_perm _ _ _ _ Sw)|]. apply sorted_in_whole. by rewrite (swaps_length _ _ _ _ Sw).
Qed.

(** Merging two sorted parts, with the sentinels behind them, from position [k] on. *)
Lemma my_merge_loop_ok L R k arr todo : todo = length L + length R -> k + todo <= length arr -> Forall (fun x => (x < INT_MAX)%Z) L -> Forall (fun x => (x < INT_MAX)%Z) R ->
  StronglySorted Z.le L -> StronglySorted Z.le R ->
  exists m, my_merge_loop todo (L ++ [INT_MAX]) (R ++ [INT_MAX]) k arr = Ok (take k arr ++ m ++ drop (k + todo) arr) /\ m ≡ₚ L ++ R /\ StronglySorted Z.le m.
Proof.
  revert L R k arr. induction todo as [|todo IH]; intros L R k arr Ht Hk FL FR SL SR.
  { destruct L, R; cbn in Ht; try lia. exists []. rewrite Nat.add_0_r. cbn. split_and!; [by rewrite take_drop|done|constructor]. }
  cbn [my_merge_loop].
  assert (Hstep : forall v m, take (S k) (<[k := v]> arr) ++ m ++ drop (S k + todo) (<[k := v]> arr) = take k arr ++ (v :: m) ++ drop (k + S todo) arr).
  { intros v m. rewrite drop_insert_lt by lia. rewrite (take_S_r _ _ v) by (by rewrite list_lookup_insert_eq by lia). rewrite take_insert_ge by lia. rewrite <- app_assoc. cbn. by rewrite Nat.add_succ_r. }
  assert (Hle : forall v m l, Forall (Z.le v) l -> m ≡ₚ l -> StronglySorted Z.le m -> StronglySorted Z.le (v :: m)) by (intros v m l Hv Hm Hs; constructor; [done|by rewrite Hm]).
  destruct L as [|x L].
  - destruct R as [|y R]; [cbn in Ht; lia|]. cbn [app]. apply Forall_cons in FR as [Hy FR]. apply StronglySorted_inv in SR as [SR FS].
    rewrite (proj2 (Z.leb_gt _ _)) by done. rewrite aset_nat by lia. cbn [mbind res_bind].
    destruct (IH [] R (S k) (<[k := y]> arr)) as (m & E & HP & HS); [cbn in *; lia|rewrite length_insert; lia|done|done|constructor|done|]. cbn [app] in E. rewrite E. exists (y :: m).
    split_and!; [by rewrite Hstep|by rewrite HP|by apply (Hle y m R)].
  - apply Forall_cons in FL as [Hx FL]. apply StronglySorted_inv in SL as [SL FSL]. destruct R as [|y R].
    + cbn [app]. rewrite (proj2 (Z.leb_le x INT_MAX)) by lia. rewrite aset_nat by lia. cbn [mbind res_bind].
      destruct (IH L [] (S k) (<[k := x]> arr)) as (m & E & HP & HS); [cbn in *; lia|rewrite length_insert; lia|done|done|done|constructor|]. cbn [app] in E. rewrite E. exists (x :: m).
      split_and!; [by rewrite Hstep|by rewrite HP|]. rewrite app_nil_r in HP. by apply (Hle x m L).
    + cbn [app]. apply Forall_cons in FR as [Hy FR]. apply StronglySorted_inv in SR as [SR FSR]. rewrite aset_nat by lia. destruct (Z.leb_spec x y) as [Hc|Hc].
      * cbn [mbind res_bind]. destruct (IH L (y :: R) (S k) (<[k := x]> arr)) as (m & E & HP & HS); [cbn in *; lia|rewrite length_insert; lia|done|by constructor|done|by constructor|]. cbn [app] in E. rewrite E. exists (x :: m).
        split_and!; [by rewrite Hstep|by rewrite HP|]. apply (Hle x m (L ++ y :: R)); [|done|done]. apply Forall_app. split; [done|]. constructor; [done|]. eapply Forall_impl; [exact FSR|]. intros z Hz. lia.
      * rewrite aset_nat by lia. cbn [mbind res_bind]. destruct (IH (x :: L) R (S k) (<[k := y]> arr)) as (m & E & HP & HS); [cbn in *; lia|rewrite length_insert; lia|by constructor|done|by constructor|done|]. cbn [app] in E. rewrite E. exists (y :: m).
        split_and!; [by rewrite Hstep|rewrite HP; apply (Permutation_middle (x :: L))|]. apply (Hle y m ((x :: L) ++ R)); [|done|done]. constructor; [lia|]. apply Forall_app. split; [|done]. eapply Forall_impl; [exact FSL|]. intros z Hz. lia.
Qed.

Lemma merge_sort_rec_ok fuel a : length a < fuel -> Forall (fun x => (x < INT_MAX)%Z) a ->
  exists a', merge_sort_rec fuel a = Ok a' /\ a' ≡ₚ a /\ StronglySorted Z.le a'.
Proof.
  revert a. induction fuel as [|fuel IH]; intros a Hf FA; [lia|]. cbn [merge_sort_rec]. destruct (Nat.ltb_spec (length a) 2) as [Hl|Hl].
  - exists a. split_and!; [done|done|]. destruct a as [|x [|y a]]; cbn in Hl; [constructor|repeat constructor|lia].
  - set (q := length a / 2). assert (Hq : 1 <= q < length a) by (split; [apply Nat.div_le_lower_bound; lia|apply Nat.div_lt; lia]).
    assert (FTD : Forall (fun x => (x < INT_MAX)%Z) (take q a) /\ Forall (fun x => (x < INT_MAX)%Z) (drop q a)) by (apply Forall_app; by rewrite take_drop). destruct FTD as [FT FD].
    destruct (IH (take q a)) as (l & -> & Pl & Sl); [rewrite length_take; lia|done|]. destruct (IH (drop q a)) as (r & -> & Pr & Sr); [rewrite length_drop; lia|done|]. cbn [mbind res_bind].
    pose proof (Permutation_length Pl) as Ll. pose proof (Permutation_length Pr) as Lr. rewrite length_take in Ll. rewrite length_drop in Lr.
    unfold my_merge. rewrite length_app. replace (q - 1 - 0 + 1) with (length l) by lia. replace (length a - 1 - (q - 1)) with (length r) by lia. rewrite (proj2 (Nat.ltb_ge _ _)) by lia.
    rewrite take_app_length, drop_app_length, (take_ge r) by lia.
    destruct (my_merge_loop_ok l r 0 (l ++ r) (length a - 1 - 0 + 1)) as (m & -> & Pm & Sm); [lia|rewrite length_app; lia|by rewrite Pl|by rewrite Pr|done|done|].
    rewrite drop_ge by (rewrite length_app; lia). rewrite app_nil_r. exists m. split_and!; [done| |done]. rewrite Pm, Pl, Pr. by rewrite take_drop.
Qed.

(** [merge_sort] of an array without [INT_MAX], the value of its sentinels, sorts it and keeps its elements. *)
Theorem cti_merge_sort_correct a : Forall (fun x => (x < INT_MAX)%Z) a -> exists a', merge_sort (Some a) = Ok (Some a') /\ a' ≡ₚ a /\ StronglySorted Z.le a'.
Proof. intros FA. unfold merge_sort. destruct (merge_sort_rec_ok (S (length a)) a) as (a' & -> & HP & HS); [lia|done|]. by exists a'. Qed.

Example cti_merge_sort_correct_witness : exists a', merge_sort (Some [5; -3; 9; 0; 5]%Z) = Ok (Some a') /\ StronglySorted Z.le a'.
Proof.
  destruct (cti_merge_sort_correct [5; -3; 9; 0; 5]%Z) as (a' & E & _ & S); [repeat constructor|]. exists a'. split; [exact E|exact S].
Defined.

(** An element equal to the sentinels makes the merge read past one of them. *)
Example merge_sort_sentinel : merge_sort (Some [1; INT_MAX; INT_MAX]%Z) = Stop OutOfBounds.
Proof. reflexivity. Qed.

(** * The largest sum *)

Definition sum (l : list Z) : Z := foldr Z.add 0%Z l.
Definition abs_sum (l : list Z) : Z := sum (Z.abs <$> l).
(** [m] is the largest sum of a subarray of [l], the empty one included. *)
Definition best (l : list Z) (m : Z) : Prop :=
  (exists p s t, l = p ++ s ++ t /\ sum s = m) /\ forall p s t, l = p ++ s ++ t -> (sum s <= m)%Z.
(** [m] is the largest sum of the elements before the end of [l]; [ne] asks for at least one. *)
Definition best_end (ne : bool) (l : list Z) (m : Z) : Prop :=
  (exists p s, l = p ++ s /\ sum s = m /\ (ne = true -> s <> [])) /\ forall p s, l = p ++ s -> (ne = true -> s <> []) -> (sum s <= m)%Z.

Lemma sum_app a b : sum (a ++ b) = (sum a + sum b)%Z.
Proof. unfold sum. induction a as [|x a IH]; cbn; [done|]. rewrite IH. lia. Qed.
Lemma abs_sum_app a b : abs_sum (a ++ b) = (abs_sum a + abs_sum b)%Z.
Proof. unfold abs_sum. by rewrite fmap_app, sum_app. Qed.
Lemma abs_sum_ge l : (Z.abs (sum l) <= abs_sum l)%Z.
Proof. unfold abs_sum, sum. induction l as [|x l IH]; cbn in *; lia. Qed.
Lemma abs_sum_nonneg l : (0 <= abs_sum l)%Z.
Proof. pose proof (abs_sum_ge l). lia. Qed.

(** A subarray of a longer array ends at its last element or lies before it. *)
Lemma best_snoc l x m b : best l m -> best_end true (l ++ [x]) b -> best (l ++ [x]) (Z.max m b).
Proof.
  intros [(p & s & t & -> & Es) Hm] [(p' & s' & E' & Es' & Hne) Hb]. split.
  - destruct (Z.max_spec m b) as [[_ ->]|[_ ->]].
    + exists p', s', []. by rewrite app_nil_r.
    + exists p, s, (t ++ [x]). by rewrite <- !app_assoc.
  - intros p1 s1 t1 E1. destruct t1 as [|y t1 _] using rev_ind.
    + rewrite app_nil_r in E1. destruct s1 as [|z s1]; [specialize (Hm [] [] (p ++ s ++ t) eq_refl); cbn in *; lia|]. specialize (Hb p1 (z :: s1) E1 ltac:(done)). lia.
    + rewrite !app_assoc in E1. apply app_inj_tail in E1 as [E1 _]. rewrite <- !app_assoc in E1. specialize (Hm p1 s1 t1 E1). lia.
Qed.

Lemma best_end_ne_snoc l x b : best_end true l b \/ l = [] /\ b = 0%Z -> best_end true (l ++ [x]) (if (b <? 0)%Z then x else (b + x)%Z).
Proof.
  intros HB. assert (Hlast : forall p s, l ++ [x] = p ++ s -> s <> [] -> exists s0, s = s0 ++ [x] /\ l = p ++ s0).
  { intros p s E Hs. destruct s as [|y s _] using rev_ind; [done|]. rewrite app_assoc in E. apply app_inj_tail in E as [-> ->]. by exists s. }
  destruct HB as [[(p & s & -> & Es & Hne) Hb]|[-> ->]].
  - split.
    + destruct (Z.ltb_spec b 0) as [Hc|Hc]; [exists (p ++ s), [x]; split_and!; [done|cbn; lia|done]|]. exists p, (s ++ [x]). rewrite sum_app, Es, app_assoc. split_and!; [done|cbn; lia|]. by intros _ [_ ?]%app_nil.
    + intros p1 s1 E1 Hs1. destruct (Hlast p1 s1 E1 (Hs1 eq_refl)) as (s0 & -> & E0). rewrite sum_app. cbn. destruct s0 as [|z s0]; [cbn; destruct (Z.ltb_spec b 0); lia|].
      specialize (Hb p1 (z :: s0) E0 ltac:(done)). destruct (Z.ltb_spec b 0); lia.
  - cbn. split; [exists [], [x]; split_and!; [done|cbn; lia|done]|]. intros p1 s1 E1 Hs1. destruct (Hlast p1 s1 E1 (Hs1 eq_refl)) as (s0 & -> & E0).
    destruct p1, s0; try done. cbn. lia.
Qed.

Lemma subarray_loop_ok todo a l r b m : a = l ++ r -> todo = length r -> (abs_sum a <= INT_MAX)%Z -> best l m -> (best_end true l b \/ l = [] /\ b = 0%Z) ->
  exists m', subarray_loop todo (length l) a b m = Ok m' /\ best a m'.
Proof.
  revert l r b m. induction todo as [|todo IH]; intros l r b m Ea Ht Hi Hm Hb; [destruct r; [|done]; rewrite app_nil_r in Ea; subst; by exists m|].
  destruct r as [|x r]; [done|]. cbn [subarray_loop]. rewrite (aget_nat a (length l) x) by (rewrite Ea; by apply list_lookup_middle). cbn [mbind res_bind].
  pose proof (best_end_ne_snoc l x b Hb) as Hb'. set (b' := if (b <? 0)%Z then x else (b + x)%Z) in *.
  assert (E : (if (b <? 0)%Z then Ok x else ck (b + x)) = Ok b').
  { unfold b'. destruct (b <? 0)%Z eqn:Ec; [done|]. apply ck_ok. destruct Hb' as [(p & s & Es & Ess & _) _]. pose proof (abs_sum_ge s) as H1'.
    assert (H2' : (abs_sum s <= abs_sum a)%Z).
    { replace a with ((l ++ [x]) ++ r) by (rewrite Ea, <- app_assoc; done). rewrite Es, !abs_sum_app. pose proof (abs_sum_nonneg p). pose proof (abs_sum_nonneg r). lia. }
    unfold is_int, INT_MIN, INT_MAX in *. unfold b' in Ess. lia. }
  rewrite E. cbn [mbind res_bind]. destruct (IH (l ++ [x]) r b' (Z.max m b')) as (m' & Em & Hm'); [by rewrite <- app_assoc|cbn in Ht; lia|done|by apply best_snoc|by left|].
  rewrite length_app, Nat.add_1_r in Em. replace (if (m <? b')%Z then b' else m) with (Z.max m b') by (destruct (Z.ltb_spec m b'); lia). by exists m'.
Qed.

Lemma best_nil : best [] 0.
Proof. split; [by exists [], [], []|]. intros p s t E. destruct p, s, t; done. Qed.

(** [maximun_subarray] of an array that is not empty assigns the largest sum of a subarray, 0 for the empty one, when the
    absolute values of the elements add up to an [int]; it never assigns the bounds of the subarray. *)
Theorem maximun_subarray_correct a m0 : a <> [] -> (abs_sum a <= INT_MAX)%Z -> exists m, maximun_subarray (Some a) (length a) m0 = Ok m /\ best a m.
Proof.
  intros Ha Hi. unfold maximun_subarray. destruct (Nat.eqb_spec (length a) 0) as [E|_]; [by destruct a|].
  destruct (subarray_loop_ok (length a) a [] a 0 0) as (m & E & Hm); [done|done|done|apply best_nil|by right|]. by exists m.
Qed.

Example maximun_subarray_correct_witness : exists m, maximun_subarray (Some [-9; 9; -1; 7; -2; -8; -4; 0; -5; -2]%Z) 10 0 = Ok m /\ m = 15%Z.
Proof.
  destruct (maximun_subarray_correct [-9; 9; -1; 7; -2; -8; -4; 0; -5; -2]%Z 0) as (m & E & _); [discriminate|vm_compute; discriminate|].
  exists m. split; [exact E|]. vm_compute in E. injection E as <-. reflexivity.
Defined.

(** The sum at the end of the elements before, when it is negative started again from 0. *)
Lemma best_end_snoc l x t : best_end false l t -> best_end false (l ++ [x]) (Z.max 0 (t + x)).
Proof.
  intros [(p & s & -> & Es & _) Hb]. split.
  - destruct (Z.max_spec 0 (t + x)) as [[_ ->]|[_ ->]]; [exists p, (s ++ [x])|exists ((p ++ s) ++ [x]), []; by rewrite app_nil_r]. rewrite sum_app, Es, app_assoc. split_and!; [done|cbn; lia|done].
  - intros p1 s1 E1 _. destruct s1 as [|y s1 _] using rev_ind; [cbn; lia|]. rewrite app_assoc in E1. apply app_inj_tail in E1 as [E1 ->]. specialize (Hb p1 s1 E1 ltac:(done)).
    rewrite sum_app. cbn. lia.
Qed.

Lemma best_max l x m t : best l m -> best_end false l t -> best (l ++ [x]) (Z.max m (t + x)).
Proof.
  intros [(p & s & u & El & Es) Hle] [(p' & s' & E' & Es' & _) Hb]. split.
  - destruct (Z.max_spec m (t + x)) as [[_ ->]|[_ ->]].
    + exists p', (s' ++ [x]), []. rewrite app_nil_r, sum_app, Es', E'. split; [by rewrite app_assoc|cbn; lia].
    + exists p, s, (u ++ [x]). rewrite El. by rewrite <- !app_assoc.
  - intros p1 s1 t1 E1. destruct t1 as [|y t1 _] using rev_ind.
    + rewrite app_nil_r in E1. destruct s1 as [|z s1 _] using rev_ind; [specialize (Hle [] [] l eq_refl); cbn in *; lia|].
      rewrite app_assoc in E1. apply app_inj_tail in E1 as [E1 ->]. specialize (Hb p1 s1 E1 ltac:(done)). rewrite sum_app. cbn. lia.
    + rewrite !app_assoc in E1. apply app_inj_tail in E1 as [E1 _]. rewrite <- !app_assoc in E1. specialize (Hle p1 s1 t1 E1). lia.
Qed.

(** The subarray that ends at [high] and has the sum [m]. *)
Definition ends_at (a : list Z) (m : Z) (high : nat) : Prop := (m = 0%Z /\ high = 0) \/ exists p s t, a = p ++ s ++ t /\ s <> [] /\ sum s = m /\ S high = length p + length s.

Lemma subarray2_loop_ok todo a l r t m high : a = l ++ r -> todo = length r -> (abs_sum a <= INT_MAX)%Z -> best l m -> best_end false l t -> ends_at a m high -> (0 <= m)%Z ->
  exists m' high', subarray2_loop todo (length l) a t m high = Ok (m', high') /\ best a m' /\ ends_at a m' high'.
Proof.
  revert l r t m high. induction todo as [|todo IH]; intros l r t m high Ea Ht Hi Hm Hb He Hnn; [destruct r; [|done]; rewrite app_nil_r in Ea; subst; by exists m, high|].
  destruct r as [|x r]; [done|]. cbn [subarray2_loop]. rewrite (aget_nat a (length l) x) by (rewrite Ea; by apply list_lookup_middle). cbn [mbind res_bind].
  pose proof Hb as [(p & s & Es & Ess & _) Hle]. assert (Hck : is_int (t + x)).
  { pose proof (abs_sum_ge (s ++ [x])) as H1'. rewrite sum_app, Ess in H1'. cbn in H1'. assert (H2' : (abs_sum (s ++ [x]) <= abs_sum a)%Z).
    { replace a with (p ++ (s ++ [x]) ++ r) by (rewrite Ea, Es, <- !app_assoc; done). rewrite (abs_sum_app p), (abs_sum_app (s ++ [x]) r). pose proof (abs_sum_nonneg p). pose proof (abs_sum_nonneg r). lia. }
    unfold is_int, INT_MIN, INT_MAX in *. lia. }
  rewrite ck_ok by done. cbn [mbind res_bind]. pose proof (best_max l x m t Hm Hb) as Hm'. pose proof (best_end_snoc l x t Hb) as Hb'.
  assert (Ea' : a = (l ++ [x]) ++ r) by (by rewrite <- app_assoc). assert (Ht' : todo = length r) by (cbn in Ht; lia). destruct (Z.ltb_spec m (t + x)) as [Hc|Hc].
  - rewrite Z.max_r in Hm' by lia. rewrite Z.max_r in Hb' by lia. destruct (IH (l ++ [x]) r (t + x)%Z (t + x)%Z (length l)) as (m' & h' & E & R1 & R2); [done|done|done|done|done| |lia|].
    + right. exists p, (s ++ [x]), r. rewrite Ea, Es. split_and!; [by rewrite <- !app_assoc|by intros [_ ?]%app_nil|by rewrite sum_app, Ess; cbn; lia|]. rewrite !length_app. cbn. lia.
    + rewrite length_app, Nat.add_1_r in E. by exists m', h'.
  - rewrite Z.max_l in Hm' by lia. destruct (IH (l ++ [x]) r (if (t + x <? 0)%Z then 0%Z else (t + x)%Z) m high) as (m' & h' & E & R1 & R2); [done|done|done|done| |done|done|].
    + replace (if (t + x <? 0)%Z then 0%Z else (t + x)%Z) with (Z.max 0 (t + x)) by (destruct (Z.ltb_spec (t + x) 0); lia). done.
    + rewrite length_app, Nat.add_1_r in E. by exists m', h'.
Qed.

(** Walking back subtracts a suffix of [p ++ s] until nothing is left, at the start of [s] at the latest. *)
Lemma walk_back_ok a p s t m : a = p ++ s ++ t -> (abs_sum a <= INT_MAX)%Z -> forall n v, n <= length s -> v = (m - sum (drop n s))%Z -> m = sum s -> (0 <= n)%nat ->
  exists low, back_loop (length p + n) a v = Ok low /\ length p <= low <= length p + n /\ sum (drop (low - length p) s) = m.
Proof.
  intros Ea Hi n. induction n as [|n IH]; intros v Hn Hv Hm _.
  - rewrite drop_0 in Hv. assert (v = 0%Z) as -> by lia. exists (length p). replace (length p + 0) with (length p) by lia. split_and!; [by destruct (length p)|lia|lia|]. by rewrite Nat.sub_diag, drop_0.
  - replace (length p + S n) with (S (length p + n)) by lia. cbn [back_loop]. destruct (Z.eqb_spec v 0) as [->|Hne].
    + exists (S (length p + n)). split_and!; [done|lia|lia|]. replace (S (length p + n) - length p) with (S n) by lia. lia.
    + destruct (lookup_lt_is_Some_2 s n) as [x Ex]; [lia|]. rewrite (aget_nat a (length p + n) x) by (rewrite Ea, lookup_app_r, Nat.add_comm, Nat.add_sub, lookup_app_l by lia; done). cbn [mbind res_bind].
      assert (Hs : sum (drop n s) = (x + sum (drop (S n) s))%Z) by (by rewrite (drop_S _ _ _ Ex)).
      assert (Hrest : (v - x)%Z = sum (take n s)) by (rewrite Hv, Hm; rewrite <- (take_drop n s) at 1; rewrite sum_app; lia).
      rewrite ck_ok; [|rewrite Hrest; pose proof (abs_sum_ge (take n s)) as H1'; assert (H2' : (abs_sum (take n s) <= abs_sum a)%Z); [|unfold is_int, INT_MIN, INT_MAX in *; lia]].
      2: { rewrite Ea, !abs_sum_app. rewrite <- (take_drop n s) at 2. rewrite abs_sum_app. pose proof (abs_sum_nonneg p). pose proof (abs_sum_nonneg t). pose proof (abs_sum_nonneg (drop n s)). lia. }
      cbn [mbind res_bind]. destruct (IH (v - x)%Z) as (low & E & Hl & Hs'); [lia|lia|done|lia|]. exists low. split_and!; [done|lia|lia|done].
Qed.

(** [maximun_subarray2] of an array that is not empty assigns the largest sum of a subarray and, when that is positive, the bounds of one that has it. *)
Theorem maximun_subarray2_correct a m0 l0 h0 : a <> [] -> (abs_sum a <= INT_MAX)%Z ->
  exists m low high, maximun_subarray2 (Some a) (length a) m0 l0 h0 = Ok (m, low, high) /\ best a m /\
    ((0 < m)%Z -> low <= high < length a /\ sum (take (S high - low) (drop low a)) = m).
Proof.
  intros Ha Hi. unfold maximun_subarray2. destruct (Nat.eqb_spec (length a) 0) as [E|_]; [by destruct a|].
  destruct (subarray2_loop_ok (length a) a [] a 0 0 0) as (m & high & E & Hb & He); [done|done|done|apply best_nil| |by left|lia|].
  { split; [by exists [], []|]. intros p s Ep _. destruct p, s; done. }
  cbn [length] in E. rewrite E. cbn [mbind res_bind]. destruct He as [[-> ->]|(p & s & t & Ea & Hs & Es & Hh)].
  - cbn [back_loop Z.eqb mbind res_bind]. exists 0%Z, 1, 0. split_and!; [done|done|lia].
  - destruct (walk_back_ok a p s t m Ea Hi (length s) m) as (low & El & Hl & Hsum); [done|rewrite drop_all; cbn; lia|done|lia|]. rewrite Hh, El. cbn [mbind res_bind].
    exists m, low, high. split_and!; [done|done|]. intros Hpos. assert (Hlow : low <> length p + length s).
    { intros ->. replace (length p + length s - length p) with (length s) in Hsum by lia. rewrite drop_all in Hsum. cbn in Hsum. lia. }
    assert (La : length a = length p + length s + length t) by (rewrite Ea, !length_app; lia). split; [lia|].
    rewrite Hh, Ea. rewrite drop_app_ge by lia. rewrite drop_app_le by lia. rewrite take_app_le by (rewrite length_drop; lia). rewrite take_ge by (rewrite length_drop; lia). done.
Qed.

Example maximun_subarray2_correct_witness : exists m low high, maximun_subarray2 (Some [-9; 9; -1; 7; -2; -8; -4; 0; -5; -2]%Z) 10 0 0 0 = Ok (m, low, high) /\ (m = 15%Z /\ low = 1 /\ high = 3).
Proof.
  destruct (maximun_subarray2_correct [-9; 9; -1; 7; -2; -8; -4; 0; -5; -2]%Z 0 0 0) as (m & low & high & E & _); [discriminate|vm_compute; discriminate|].
  exists m, low, high. split; [exact E|]. vm_compute in E. injection E as <- <- <-. split_and!; reflexivity.
Defined.

(** * Binary search *)

Lemma search_round_at a val low high mid : low <= high -> mid = (low + high) / 2 -> mid < length a -> (Z.of_nat (low + high) <= INT_MAX)%Z ->
  search_round a val (Z.of_nat low, Z.of_nat high) =
  if (a !!! mid <? val)%Z then Ok (inl (Z.of_nat (S mid), Z.of_nat high)) else if (val <? a !!! mid)%Z then Ok (inl (Z.of_nat low, (Z.of_nat mid - 1)%Z)) else Ok (inr (Z.of_nat mid)).
Proof.
  intros Hle Em Hm Hi. unfold search_round. rewrite (proj2 (Z.leb_le _ _)) by lia. rewrite <- Nat2Z.inj_add. rewrite ck_ok by (unfold is_int, INT_MIN, INT_MAX in *; lia). cbn [mbind res_bind].
  rewrite Z.quot_div_nonneg by lia. change 2%Z with (Z.of_nat 2). rewrite <- Nat2Z.inj_div, <- Em. rewrite aget_total by done. cbn [mbind res_bind].
  assert (Hmi : 2 * mid <= low + high) by (pose proof (Nat.div_mod_eq (low + high) 2); lia).
  rewrite !ck_ok by (unfold is_int, INT_MIN, INT_MAX in *; lia). cbn [mbind res_bind]. by rewrite Nat2Z.inj_succ.
Qed.

(** The invariant: what is before [low] is less than the value, what is after [high] is greater. *)
Definition bounded (a : list Z) (val : Z) (low : nat) (high : Z) : Prop :=
  (forall k, k < low -> (a !!! k < val)%Z) /\ (forall k, (high < Z.of_nat k)%Z -> k < length a -> (val < a !!! k)%Z).

Lemma binary_loop_ok a val fuel low high : sorted_in 0 (length a) a -> (Z.of_nat (2 * length a) <= INT_MAX)%Z -> (Z.of_nat low <= high + 1)%Z -> (high <= Z.of_nat (length a))%Z -> low <= length a ->
  bounded a val low high -> (Z.to_nat (high + 1 - Z.of_nat low) < fuel) ->
  (exists k, k < length a /\ (val <= a !!! k)%Z) ->
  exists r, loop fuel (search_round a val) (Z.of_nat low, high) = Ok r /\
    ((exists k, k < length a /\ r = Z.of_nat k /\ a !!! k = val) \/ r = (-1)%Z /\ forall k, k < length a -> a !!! k <> val).
Proof.
  intros Hs Hi. revert low high. induction fuel as [|fuel IH]; intros low high Hlh Hh Hl HB Hf Hbig; [lia|]. rewrite loop_step. destruct (Z.le_gt_cases (Z.of_nat low) high) as [Hle|Hgt].
  - replace high with (Z.of_nat (Z.to_nat high)) in * by lia. set (h := Z.to_nat high) in *. assert (Hm : low <= (low + h) / 2 <= h) by (split; [apply Nat.div_le_lower_bound; lia|apply Nat.Div0.div_le_upper_bound; lia]).
    assert (Hma : (low + h) / 2 < length a).
    { destruct (decide ((low + h) / 2 < length a)) as [|Hge]; [done|]. exfalso. assert (low = length a) as ->.
      { assert ((low + h) / 2 * 2 <= low + h) by (pose proof (Nat.div_mod_eq (low + h) 2); lia). lia. }
      destruct Hbig as (k & Hk & Hv). pose proof (proj1 HB k Hk). lia. }
    rewrite (search_round_at a val low h ((low + h) / 2)) by (done || lia). set (mid := (low + h) / 2) in *. destruct (Z.ltb_spec (a !!! mid) val) as [Hc|Hc]; [|destruct (Z.ltb_spec val (a !!! mid)) as [Hc2|Hc2]].
    + apply IH; try lia; [|done]. split; [|apply HB]. intros k Hk. destruct (decide (k <= mid)); [|lia]. pose proof (Hs k mid ltac:(lia) ltac:(lia) Hma). lia.
    + apply IH; try lia; [|done]. split; [apply HB|]. intros k Hk Hka. pose proof (Hs mid k ltac:(lia) ltac:(lia) Hka). lia.
    + eexists. split; [done|]. left. exists mid. split_and!; [done|done|lia].
  - unfold search_round. rewrite (proj2 (Z.leb_gt _ _)) by lia. eexists. split; [done|]. right. split; [done|]. intros k Hk E. destruct HB as [B1 B2].
    destruct (decide (k < low)); [specialize (B1 k ltac:(lia)); lia|]. specialize (B2 k ltac:(lia) Hk). lia.
Qed.

Lemma binary_loop_past a val fuel low : (forall k, k < length a -> (a !!! k < val)%Z) -> (Z.of_nat (2 * length a) <= INT_MAX)%Z -> low <= length a -> length a - low < fuel ->
  loop fuel (search_round a val) (Z.of_nat low, Z.of_nat (length a)) = Stop OutOfBounds.
Proof.
  intros Hall Hi. revert low. induction fuel as [|fuel IH]; intros low Hl Hf; [lia|]. rewrite loop_step. destruct (decide (low = length a)) as [->|Hne].
  - unfold search_round. rewrite Z.leb_refl, <- Nat2Z.inj_add, ck_ok by (unfold is_int, INT_MIN, INT_MAX in *; lia). cbn [mbind res_bind].
    rewrite Z.quot_div_nonneg by lia. change 2%Z with (Z.of_nat 2). rewrite <- Nat2Z.inj_div. replace ((length a + length a) / 2) with (length a) by (apply Nat.div_unique_exact; lia).
    rewrite aget_oob by lia. done.
  - assert (Hm : low <= (low + length a) / 2 < length a) by (split; [apply Nat.div_le_lower_bound; lia|apply Nat.Div0.div_lt_upper_bound; lia]).
    rewrite (search_round_at a val low (length a) ((low + length a) / 2)) by (done || lia). rewrite (proj2 (Z.ltb_lt _ _)) by (apply Hall; lia). apply IH; lia.
Qed.

Lemma sorted_in_of (a : list Z) : StronglySorted Z.le a -> sorted_in 0 (length a) a.
Proof.
  induction 1 as [|x a Hs IH Hall]; intros i j H1' H2' H3'; cbn in H3'; [lia|]. destruct j as [|j].
  - assert (i = 0) as -> by lia. lia.
  - destruct i as [|i]; [|apply (IH i j); lia]. change (x <= a !!! j)%Z. rewrite Forall_forall in Hall. apply Hall. apply (list_elem_of_lookup_2 _ j), list_lookup_lookup_total_lt. lia.
Qed.

(** [binary_search] of a sorted array whose last element is not less than the value returns an index of it, or -1 if it is missing; a value
    greater than every element sends it past the end of the array. *)
Theorem binary_search_correct a val : a <> [] -> StronglySorted Z.le a -> (Z.of_nat (2 * length a) <= INT_MAX)%Z ->
  ((exists x, x ∈ a /\ (val <= x)%Z) -> exists r, binary_search (Some a) (Z.of_nat (length a)) val = Ok r /\
    ((exists k, r = Z.of_nat k /\ a !! k = Some val) \/ r = (-1)%Z /\ val ∉ a)) /\
  ((forall x, x ∈ a -> (x < val)%Z) -> binary_search (Some a) (Z.of_nat (length a)) val = Stop OutOfBounds).
Proof.
  intros Ha Hs Hi. unfold binary_search. assert (Hl : 0 < length a) by (destruct a; [done|cbn; lia]). rewrite (proj2 (Z.eqb_neq _ _)) by lia.
  assert (Hin : forall k, k < length a -> a !!! k ∈ a) by (intros k Hk; apply (list_elem_of_lookup_2 _ k), list_lookup_lookup_total_lt; done). rewrite Nat2Z.id. change 0%Z with (Z.of_nat 0). split.
  - intros (x & Hx & Hv). destruct (binary_loop_ok a val (length a + 3) 0 (Z.of_nat (length a))) as (r & -> & Hr); [by apply sorted_in_of|done|lia|lia|lia|split; intros; lia|lia| |].
    + apply list_elem_of_lookup in Hx as [k Hk]. exists k. split; [by apply lookup_lt_Some in Hk|]. by rewrite (list_lookup_total_correct _ _ _ Hk).
    + exists r. split; [done|]. destruct Hr as [(k & Hk & -> & E)|[-> Hno]]; [left; exists k; split; [done|]; rewrite <- E; by apply list_lookup_lookup_total_lt|right]. split; [done|].
      intros Hv2. apply list_elem_of_lookup in Hv2 as [k Hk]. apply (Hno k); [by apply lookup_lt_Some in Hk|]. by apply list_lookup_total_correct.
  - intros Hall. apply binary_loop_past; [intros k Hk; by apply Hall, Hin|done|lia|lia].
Qed.

Example binary_search_correct_witness : (exists r, binary_search (Some [2; 3; 5; 8]%Z) 4 5 = Ok r /\ r = 2%Z) /\ binary_search (Some [2; 3; 5; 8]%Z) 4 9 = Stop OutOfBounds.
Proof.
  destruct (binary_search_correct [2; 3; 5; 8]%Z 5) as [H1' _]; [discriminate|repeat constructor; lia|vm_compute; discriminate|].
  destruct (binary_search_correct [2; 3; 5; 8]%Z 9) as [_ H2']; [discriminate|repeat constructor; lia|vm_compute; discriminate|]. split.
  - destruct H1' as (r & E & _); [exists 5%Z; split; [set_solver|lia]|]. exists r. split; [exact E|]. vm_compute in E. injection E as <-. reflexivity.
  - apply H2'. intros x Hx. set_unfold in Hx. lia.
Defined.
