(* ===== verification/CtiText.v ===== *)
(** Strings in src/src/algs/cti/test_cti.cpp: [my_strcpy], [compress_repeat_str], [all_diff], [my_reverse], [elements_same] and [replace_char_to_str].
    A [char *] is the list of the characters of memory from where it points on, which are their codes. *)
From S2P Require Import Prelude Swaps.

(** [strlen] *)
Fixpoint strlen (p : list Z) : res nat := match p with [] => Stop OutOfBounds | c :: p => if (c =? 0)%Z then Ok O else n ← strlen p; Ok (S n) end.

(** [my_strcpy(from, to)] copies [to] to [from]; the loop with [from] advanced by [i]. *)
Fixpoint strcpy_loop (to : list Z) (i : nat) (from : list Z) : res (list Z) :=
  match to with
  | [] => Stop OutOfBounds
  | c :: to => if (c =? 0)%Z then aset from (Z.of_nat i) 0%Z else from ← aset from (Z.of_nat i) c; strcpy_loop to (S i) from
  end.
Definition my_strcpy (from to : list Z) : res (list Z) := strcpy_loop to 0 from.

(** * Compression *)

(** [%zu] *)
Fixpoint decimal_loop (fuel n : nat) (acc : list Z) : list Z :=
  match fuel with
  | O => acc
  | S fuel => let acc := (48 + Z.of_nat (n mod 10))%Z :: acc in if n <? 10 then acc else decimal_loop fuel (n / 10) acc
  end.
Definition decimal (n : nat) : list Z := decimal_loop (S n) n [].

(** [sprintf(dest + index, ...)] of the text [s]: it and a terminator. *)
Definition sprintf_at (dest : list Z) (index : nat) (s : list Z) : res (list Z) :=
  if index + length s <? length dest then Ok (take index dest ++ s ++ 0%Z :: drop (index + length s + 1) dest) else Stop OutOfBounds.
Definition run_text (c : Z) (count : nat) : list Z := c :: decimal count.

Fixpoint compress_loop (rest : list Z) (c : Z) (count : nat) (dest : list Z) (index : nat) : res (list Z * nat) :=
  match rest with
  | [] => dest ← sprintf_at dest index (run_text c count); Ok (dest, index + length (run_text c count))
  | x :: rest =>
    if (c =? x)%Z then compress_loop rest c (S count) dest index
    else dest ← sprintf_at dest index (run_text c count); compress_loop rest x 1 dest (index + length (run_text c count))
  end.
Definition compress_repeat_str (src : option (list Z)) (len : nat) (dest : list Z) : res (list Z) :=
  match src with
  | None => Ok dest
  | Some p =>
    if len =? 0 then Ok dest
    else if length p <? len then Stop OutOfBounds
    else match take len p with
         | [] => Ok dest
         | c :: rest =>
           '(dest, index) ← compress_loop rest c 1 dest 0;
           if len <=? index then (if length dest <? len then Stop OutOfBounds else Ok (take len p ++ drop len dest)) else Ok dest
         end
  end.

(** * The other functions *)

Fixpoint all_diff (l : list Z) : bool := match l with [] => true | c :: l => if existsb (Z.eqb c) l then false else all_diff l end.

(** The loop from [i] on with [todo] rounds left. *)
Fixpoint reverse_loop (todo i len : nat) (str : list Z) : res (list Z) :=
  match todo with
  | O => Ok str
  | S todo => if i =? len - i then Ok str else str ← std_swap str (Z.of_nat i) (Z.of_nat (len - i - 1)); reverse_loop todo (S i) len str
  end.
Definition my_reverse (str : list Z) : res (list Z) := len ← strlen str; reverse_loop (len / 2) 0 len str.

Definition count_char (m : gmap Z nat) (c : Z) : gmap Z nat := <[c := S (default 0 (m !! c))]> m.
Definition elements_same (a b : list Z) : bool := bool_decide (foldl count_char ∅ a = foldl count_char ∅ b).

(** [strcpy] from [str] into [buf] at [p] *)
Fixpoint replace_loop (s : list Z) (i : nat) (c : Z) (str : list Z) (len : nat) (buf : list Z) (p : nat) : res (list Z * nat) :=
  match s with
  | [] => Ok (buf, p)
  | x :: s =>
    '(buf, p) ← (if (x =? c)%Z then buf ← strcpy_loop str p buf; Ok (buf, p + len) else Ok (buf, p));
    buf ← aset buf (Z.of_nat (p + i)) x;
    replace_loop s (S i) c str len buf p
  end.
(** The buffer of [src] and the offset of the pointer returned. *)
Definition replace_char_to_str (src : list Z) (c : Z) (str : list Z) : res (list Z * nat) :=
  n ← strlen src; len ← strlen str; replace_loop (take n src) 0 c str len src 0.

(** * What they compute *)

(** The memory holds the string [s]. *)
Definition is_text (s : list Z) : Prop := Forall (fun c => c <> 0%Z) s.

Lemma strlen_ok s rest : is_text s -> strlen (s ++ 0%Z :: rest) = Ok (length s).
Proof. induction 1 as [|c s Hc _ IH]; cbn; [done|]. by rewrite (proj2 (Z.eqb_neq _ _) Hc), IH. Qed.

Lemma strcpy_loop_ok s rest i from : is_text s -> i + length s < length from ->
  strcpy_loop (s ++ 0%Z :: rest) i from = Ok (take i from ++ s ++ 0%Z :: drop (i + length s + 1) from).
Proof.
  intros Hs. revert i from. induction Hs as [|c s Hc _ IH]; intros i from Hl; cbn [app strcpy_loop length] in *.
  - cbn. rewrite aset_nat by lia. rewrite insert_take_drop by lia. by rewrite Nat.add_0_r, Nat.add_1_r.
  - rewrite (proj2 (Z.eqb_neq _ _) Hc), aset_nat by lia. cbn [mbind res_bind]. rewrite IH by (rewrite length_insert; lia). f_equal.
    rewrite (take_S_r _ _ c) by (by rewrite list_lookup_insert_eq by lia). rewrite take_insert_ge by lia. rewrite drop_insert_lt by lia. rewrite <- app_assoc. cbn. do 4 f_equal. f_equal. lia.
Qed.

(** [my_strcpy] copies a string with its terminator when the buffer has room for them, and leaves the rest of the buffer alone. *)
Theorem my_strcpy_correct s rest from : is_text s -> length s < length from ->
  my_strcpy from (s ++ 0%Z :: rest) = Ok (s ++ 0%Z :: drop (length s + 1) from).
Proof. intros Hs Hl. unfold my_strcpy. by rewrite strcpy_loop_ok. Qed.

Lemma all_diff_iff l : all_diff l = bool_decide (NoDup l).
Proof.
  induction l as [|c l IH]; [by rewrite bool_decide_eq_true_2 by constructor|]. cbn [all_diff]. destruct (existsb (Z.eqb c) l) eqn:Ee.
  - apply existsb_exists in Ee as (x & Hx & E%Z.eqb_eq). subst x. symmetry. apply bool_decide_eq_false_2. intros [Hn _]%NoDup_cons. by apply Hn, list_elem_of_In.
  - rewrite IH. apply bool_decide_ext. rewrite NoDup_cons. split; [|tauto]. intros Hn. split; [|done]. intros Hc. apply list_elem_of_In in Hc.
    assert (existsb (Z.eqb c) l = true) by (apply existsb_exists; exists c; by rewrite Z.eqb_refl). congruence.
Qed.

Lemma fold_count l m c : foldl count_char m l !! c = (if decide (count_occ Z.eq_dec l c = 0) then m !! c else Some (count_occ Z.eq_dec l c + default 0 (m !! c))).
Proof.
  revert m. induction l as [|x l IH]; intros m; [done|]. cbn [foldl count_occ]. rewrite IH. unfold count_char. destruct (Z.eq_dec x c) as [->|Hne].
  - rewrite lookup_insert_eq. cbn. destruct (decide (count_occ Z.eq_dec l c = 0)) as [->|]; [done|]. f_equal. lia.
  - by rewrite lookup_insert_ne.
Qed.

(** [all_diff] is true of exactly the strings without a repeated character, and [elements_same] of exactly the pairs of permutations. *)
Theorem elements_decided a b : all_diff a = bool_decide (NoDup a) /\ elements_same a b = bool_decide (a ≡ₚ b).
Proof.
  split; [apply all_diff_iff|]. apply bool_decide_ext. split.
  - intros E. apply (Permutation_count_occ Z.eq_dec). intros c. pose proof (fold_count a ∅ c) as Ea. pose proof (fold_count b ∅ c) as Eb. rewrite E in Ea. rewrite lookup_empty in Ea, Eb. rewrite Ea in Eb.
    cbn in Eb. repeat case_decide; simplify_eq; lia.
  - intros HP. apply map_eq. intros c. rewrite !fold_count. rewrite (proj1 (Permutation_count_occ Z.eq_dec a b) HP c). done.
Qed.

Lemma reverse_loop_ok todo i s b : 2 * (i + todo) <= length s -> length s < length b ->
  (forall k, k < length s -> b !!! k = if (k <? i) || (length s - i <=? k) then s !!! (length s - 1 - k) else s !!! k) ->
  exists b', reverse_loop todo i (length s) b = Ok b' /\ length b' = length b /\ (forall k, length s <= k -> b' !!! k = b !!! k) /\
    forall k, k < length s -> b' !!! k = if (k <? i + todo) || (length s - (i + todo) <=? k) then s !!! (length s - 1 - k) else s !!! k.
Proof.
  revert i b. induction todo as [|todo IH]; intros i b Hi Hl Hb; [exists b; rewrite Nat.add_0_r; done|]. cbn [reverse_loop].
  destruct (Nat.eqb_spec i (length s - i)) as [E|_]; [lia|]. rewrite std_swap_ok by lia. cbn [mbind res_bind].
  destruct (IH (S i) (swap_els b i (length s - i - 1))) as (b' & -> & L & Hout & Hin); [lia|by rewrite length_swap_els| |].
  - intros k Hk. destruct (decide (k = i)) as [->|H1'].
    + rewrite swap_els_l by lia. rewrite Hb by lia. rewrite (proj2 (Nat.ltb_lt i (S i))) by lia. rewrite (proj2 (Nat.ltb_ge _ _)), (proj2 (Nat.leb_gt _ _)) by lia. cbn. f_equal. lia.
    + destruct (decide (k = length s - i - 1)) as [->|H2'].
      * rewrite swap_els_r by lia. rewrite Hb by lia. rewrite (proj2 (Nat.ltb_ge i i)), (proj2 (Nat.leb_gt (length s - i) i)) by lia. rewrite (proj2 (Nat.leb_le (length s - S i) _)) by lia. rewrite orb_true_r. cbn. f_equal. lia.
      * rewrite swap_els_ne by lia. rewrite Hb by lia. replace ((k <? i) || (length s - i <=? k)) with ((k <? S i) || (length s - S i <=? k)); [done|]. apply eq_true_iff_eq. rewrite !orb_true_iff, !Nat.ltb_lt, !Nat.leb_le. lia.
  - rewrite length_swap_els in L. exists b'. split_and!; [done|done|intros k Hk; rewrite Hout by done; apply swap_els_ne; lia|]. intros k Hk. rewrite Hin by done. by replace (S i + todo) with (i + S todo) by lia.
Qed.

(** [my_reverse] reverses a string in place. *)
Theorem my_reverse_correct s rest : is_text s -> my_reverse (s ++ 0%Z :: rest) = Ok (reverse s ++ 0%Z :: rest).
Proof.
  intros Hs. unfold my_reverse. rewrite strlen_ok by done. cbn [mbind res_bind]. pose proof (Nat.div_mod_eq (length s) 2) as Hd. pose proof (Nat.mod_upper_bound (length s) 2 ltac:(lia)).
  destruct (reverse_loop_ok (length s / 2) 0 s (s ++ 0%Z :: rest)) as (b & -> & L & Hout & Hin); [lia|rewrite length_app; cbn; lia| |].
  - intros k Hk. rewrite lookup_total_app_l by done. rewrite (proj2 (Nat.ltb_ge k 0)), (proj2 (Nat.leb_gt (length s - 0) k)) by lia. done.
  - f_equal. rewrite length_app in L. cbn [length] in L. apply list_eq_same_length with (length b); [rewrite length_app, length_reverse; cbn; lia|done|].
    intros k x y Hk Hx Hy. apply list_lookup_total_correct in Hx, Hy. subst x y. destruct (decide (k < length s)) as [Hks|Hks].
    + rewrite Hin by done. rewrite lookup_total_app_l by (by rewrite length_reverse). rewrite (list_lookup_total_alt (reverse s)), reverse_lookup, <- list_lookup_total_alt by done.
      destruct ((k <? 0 + length s / 2) || (length s - (0 + length s / 2) <=? k)) eqn:Em; [f_equal; lia|]. apply orb_false_iff in Em as [E1%Nat.ltb_ge E2%Nat.leb_gt]. f_equal. lia.
    + rewrite Hout by lia. rewrite !lookup_total_app_r by (rewrite ?length_reverse; lia). by rewrite length_reverse.
Qed.

(** * What compression writes *)

(** The maximal runs of [c], repeated [count] times, and [rest]. *)
Fixpoint runs_from (c : Z) (count : nat) (rest : list Z) : list (Z * nat) :=
  match rest with
  | [] => [(c, count)]
  | x :: rest => if (c =? x)%Z then runs_from c (S count) rest else (c, count) :: runs_from x 1 rest
  end.
Fixpoint texts (rs : list (Z * nat)) : list Z := match rs with [] => [] | (c, n) :: rs => run_text c n ++ texts rs end.
Definition encode (s : list Z) : list Z := match s with [] => [] | c :: rest => texts (runs_from c 1 rest) end.

Definition is_digit (c : Z) : bool := (48 <=? c)%Z && (c <=? 57)%Z.
(** A decoder: [cur] is the character whose digits, worth [n] so far, are being read. *)
Fixpoint decode (cur : Z) (n : nat) (t : list Z) : list Z :=
  match t with
  | [] => replicate n cur
  | x :: t => if is_digit x then decode cur (10 * n + Z.to_nat (x - 48)) t else replicate n cur ++ decode x 0 t
  end.

Lemma is_digit_digit d : d < 10 -> is_digit (48 + Z.of_nat d) = true.
Proof. intros. unfold is_digit. apply andb_true_iff. rewrite !Z.leb_le. lia. Qed.

Lemma decode_decimal_loop fuel n acc c t : n < fuel -> decode c 0 (decimal_loop fuel n acc ++ t) = decode c n (acc ++ t).
Proof.
  revert n acc. induction fuel as [|fuel IH]; intros n acc Hf; [lia|]. cbn [decimal_loop].
  pose proof (Nat.div_mod_eq n 10) as Hn. pose proof (Nat.mod_upper_bound n 10 ltac:(lia)) as Hm.
  assert (Hd : forall k, decode c k ((48 + Z.of_nat (n mod 10))%Z :: acc ++ t) = decode c (10 * k + n mod 10) (acc ++ t)).
  { intros k. cbn [decode]. rewrite is_digit_digit by done. f_equal. lia. }
  destruct (Nat.ltb_spec n 10) as [Hs|Hs].
  - cbn [app]. rewrite Hd. f_equal. rewrite Nat.mod_small by done. lia.
  - rewrite IH by lia. cbn [app]. rewrite Hd. f_equal. lia.
Qed.

Lemma decode_run_text c k x n t : is_digit x = false -> decode c k (run_text x n ++ t) = replicate k c ++ decode x n t.
Proof. intros Hx. unfold run_text. cbn [app decode]. rewrite Hx. f_equal. unfold decimal. by rewrite decode_decimal_loop by lia. Qed.

Lemma decode_runs s : Forall (fun x => is_digit x = false) s -> forall c count d k, is_digit c = false ->
  decode d k (texts (runs_from c count s)) = replicate k d ++ replicate count c ++ s.
Proof.
  induction 1 as [|x s Hx _ IH]; intros c count d k Hc; cbn [runs_from].
  - cbn [texts]. rewrite decode_run_text by done. by rewrite app_nil_r.
  - destruct (Z.eqb_spec c x) as [->|Hne].
    + rewrite IH by done. f_equal. replace (S count) with (count + 1) by lia. rewrite replicate_add, <- app_assoc. done.
    + cbn [texts]. rewrite decode_run_text by done. f_equal. apply (IH x 1 c count Hx).
Qed.

Lemma sprintf_at_ok pre suf s : length s < length suf ->
  sprintf_at (pre ++ suf) (length pre) s = Ok ((pre ++ s) ++ 0%Z :: drop (length s + 1) suf).
Proof.
  intros Hl. unfold sprintf_at. rewrite (proj2 (Nat.ltb_lt _ _)) by (rewrite length_app; lia). rewrite take_app_length, drop_app_ge by lia. rewrite <- app_assoc. do 5 f_equal. lia.
Qed.

Lemma compress_loop_ok rest : forall c count pre suf, length (texts (runs_from c count rest)) < length suf ->
  compress_loop rest c count (pre ++ suf) (length pre)
  = let e := texts (runs_from c count rest) in Ok (pre ++ e ++ 0%Z :: drop (length e + 1) suf, length pre + length e).
Proof.
  induction rest as [|x rest IH]; intros c count pre suf Hl; cbn [compress_loop runs_from] in *.
  - cbn [texts] in *. rewrite app_nil_r in *. rewrite sprintf_at_ok by done. cbn [mbind res_bind]. by rewrite <- app_assoc.
  - destruct (c =? x)%Z; [by apply IH|]. cbn [texts] in *. rewrite length_app in Hl. rewrite sprintf_at_ok by lia. cbn [mbind res_bind].
    rewrite <- length_app. rewrite IH by (cbn [length]; rewrite length_drop; lia). cbn zeta. f_equal. f_equal; [|rewrite !length_app; lia].
    rewrite <- !app_assoc. do 3 f_equal. rewrite length_app. cbn [drop]. rewrite Nat.add_1_r. cbn [drop]. rewrite drop_drop. do 2 f_equal. lia.
Qed.

(** [compress_repeat_str] writes the runs of a string with their lengths and a terminator, and a decoder gets the
    string back when it has no digits.  When the encoding is not shorter, the string is copied over
    it instead, without a terminator: the rest of the encoding stays behind it. *)
Theorem compress_repeat_str_correct s rest dest : s <> [] -> length (encode s) < length dest -> length s <= length dest ->
  (exists out, compress_repeat_str (Some (s ++ rest)) (length s) dest = Ok out /\
     if length (encode s) <? length s then out = encode s ++ 0%Z :: drop (length (encode s) + 1) dest
     else out = s ++ drop (length s) (encode s ++ 0%Z :: drop (length (encode s) + 1) dest)) /\
  (Forall (fun x => is_digit x = false) s -> decode 0 0 (encode s) = s).
Proof.
  intros Hs He Hd. destruct s as [|c s]; [done|]. split.
  - unfold compress_repeat_str. cbn [length Nat.eqb]. rewrite (proj2 (Nat.ltb_ge _ _)) by (rewrite length_app; cbn; lia).
    change (S (length s)) with (length (c :: s)). rewrite take_app_length. pose proof (compress_loop_ok s c 1 [] dest He) as E. cbn [app length Nat.add] in E. rewrite E. cbn [mbind res_bind].
    change (texts (runs_from c 1 s)) with (encode (c :: s)).
    destruct (Nat.leb_spec (length (c :: s)) (length (encode (c :: s)))) as [Hle|Hle].
    + rewrite (proj2 (Nat.ltb_ge _ (length (c :: s)))) by (rewrite length_app; lia). eexists; split; [done|]. by rewrite (proj2 (Nat.ltb_ge _ _)).
    + eexists; split; [done|]. by rewrite (proj2 (Nat.ltb_lt _ _)).
  - intros Hf. inversion Hf; subst. cbn [encode]. by rewrite (decode_runs s).
Qed.

Example my_strcpy_witness : is_text [97; 98]%Z /\ my_strcpy [1; 2; 3; 4]%Z [97; 98; 0]%Z = Ok [97; 98; 0; 4]%Z.
Proof. assert (Hs : is_text [97; 98]%Z) by (repeat constructor; done). split; [exact Hs|exact (my_strcpy_correct [97; 98]%Z [] [1; 2; 3; 4]%Z Hs ltac:(vm_compute; lia))]. Defined.

Example my_reverse_witness : is_text [97; 98; 99]%Z /\ my_reverse [97; 98; 99; 0; 5]%Z = Ok [99; 98; 97; 0; 5]%Z.
Proof. assert (Hs : is_text [97; 98; 99]%Z) by (repeat constructor; done). split; [exact Hs|exact (my_reverse_correct [97; 98; 99]%Z [5]%Z Hs)]. Defined.

(** The string of the test program, "aabcccccaaa", becomes "a2b1c5a3". *)
Definition aabcccccaaa : list Z := [97; 97; 98; 99; 99; 99; 99; 99; 97; 97; 97]%Z.
Lemma compress_repeat_str_witness : decode 0 0 (encode aabcccccaaa) = aabcccccaaa /\
  exists out, compress_repeat_str (Some (aabcccccaaa ++ [0%Z])) 11 (replicate 256 0%Z) = Ok out /\ take 9 out = [97; 50; 98; 49; 99; 53; 97; 51; 0]%Z.
Proof.
  destruct (compress_repeat_str_correct aabcccccaaa [0%Z] (replicate 256 0%Z)) as [(out & E & Ho) Hd]; [done|apply Nat.ltb_lt; reflexivity|apply Nat.leb_le; reflexivity|].
  split; [apply Hd; repeat constructor|]. exists out. split; [exact E|]. cbn in Ho. by rewrite Ho.
Defined.

(** "ab" becomes "abb1": the two letters over "a1", and what is left of the encoding. *)
Example compress_repeat_str_tail : compress_repeat_str (Some [97; 98; 0]%Z) 2 (replicate 8 0%Z) = Ok [97; 98; 98; 49; 0; 0; 0; 0]%Z.
Proof. reflexivity. Qed.

(** "a b" with a blank replaced by "%20", in a buffer of nine: the first characters are overwritten with
    "%20", the blank is kept, and the pointer returned is behind the replacement. *)
Example replace_char_to_str_misplaces :
  replace_char_to_str [97; 32; 98; 0; 0; 0; 0; 0; 0]%Z 32 [37; 50; 48; 0]%Z = Ok ([37; 50; 48; 0; 32; 98; 0; 0; 0]%Z, 3).
Proof. reflexivity. Qed.
