(* ===== verification/CtiMisc.v ===== *)
(** Hanoi, gcd and Josephus of src/src/algs/cti/test_cti.cpp. *)
From S2P Require Import Prelude.

(** * Hanoi

    The lines printed: the disc, the peg it leaves and the peg it goes to.  For n <= 0 the recursion goes
    down to INT_MIN, or as far as the machine's stack. *)
Fixpoint Hanoi (fuel : nat) (a b c : Z) (n : Z) : res (list (Z * Z * Z)) :=
  match fuel with
  | O => Stop OutOfFuel
  | S fuel =>
    if (1 =? n)%Z then Ok [(n, a, c)]
    else n' ← ck (n - 1); l ← Hanoi fuel a c b n'; r ← Hanoi fuel b a c n'; Ok (l ++ (n, a, c) :: r)
  end.

(** The rules: a move takes the top disc of a peg to one that is empty or has a larger disc on top. *)
Definition fits (d : Z) (p : list Z) : bool := match p with [] => true | e :: _ => (d <? e)%Z end.
Definition move (pegs : gmap Z (list Z)) (m : Z * Z * Z) : option (gmap Z (list Z)) :=
  let '(d, x, y) := m in
  match pegs !! x, pegs !! y with
  | Some (e :: px), Some py => if decide (d = e /\ x <> y) then if fits d py then Some (<[y := d :: py]> (<[x := px]> pegs)) else None else None
  | _, _ => None
  end.
Fixpoint play (pegs : gmap Z (list Z)) (ms : list (Z * Z * Z)) : option (gmap Z (list Z)) :=
  match ms with [] => Some pegs | m :: ms => pegs ← move pegs m; play pegs ms end.

(** The discs 1, ..., [n]. *)
Definition tower (n : nat) : list Z := Z.of_nat <$> seq 1 n.

Lemma play_app pegs l r : play pegs (l ++ r) = (pegs ← play pegs l; play pegs r).
Proof. revert pegs. induction l as [|m l IH]; intros pegs; [done|]. cbn. destruct (move pegs m); cbn; [apply IH|done]. Qed.

Lemma tower_S n : tower (S n) = tower n ++ [Z.of_nat (S n)].
Proof. unfold tower. rewrite seq_S, fmap_app. done. Qed.

Lemma hanoi_ok n : forall fuel a b c pegs ra rb rc, n < fuel -> (Z.of_nat n < INT_MAX)%Z -> a <> b -> b <> c -> a <> c ->
  pegs !! a = Some (tower (S n) ++ ra) -> pegs !! b = Some rb -> pegs !! c = Some rc ->
  fits (Z.of_nat (S n)) ra = true -> fits (Z.of_nat (S n)) rb = true -> fits (Z.of_nat (S n)) rc = true ->
  exists ms, Hanoi fuel a b c (Z.of_nat (S n)) = Ok ms /\ S (length ms) = 2 ^ S n /\
    play pegs ms = Some (<[c := tower (S n) ++ rc]> (<[a := ra]> pegs)).
Proof.
  induction n as [|n IH]; intros [|fuel] a b c pegs ra rb rc Hf Hn Hab Hbc Hac Ha Hb Hc Fa Fb Fc; try lia.
  - exists [(1%Z, a, c)]. split_and!; [done|done|]. cbn [play move]. rewrite Ha, Hc. change (Z.of_nat 1) with 1%Z in Fc. cbn [tower seq fmap list_fmap app]. rewrite decide_True by done. by rewrite Fc.
  - cbn [Hanoi]. rewrite (proj2 (Z.eqb_neq _ _)) by lia. replace (Z.of_nat (S (S n)) - 1)%Z with (Z.of_nat (S n)) by lia. unfold ck. rewrite decide_True by (unfold is_int, INT_MAX, INT_MIN in *; lia). cbn [mbind res_bind].
    assert (Fw : forall p, fits (Z.of_nat (S (S n))) p = true -> fits (Z.of_nat (S n)) p = true). { intros [|e p]; cbn [fits]; [done|]. rewrite !Z.ltb_lt. lia. }
    rewrite tower_S, <- app_assoc in Ha. cbn [app] in Ha.
    edestruct (IH fuel a c b pegs) as (l & -> & Ll & Pl); [lia|lia|done|done|done|exact Ha|exact Hc|exact Hb|cbn [fits]; rewrite Z.ltb_lt; lia|by apply Fw|by apply Fw|]. cbn [mbind res_bind].
    set (p1 := <[b := tower (S n) ++ rb]> (<[a := Z.of_nat (S (S n)) :: ra]> pegs)) in *.
    set (p2 := <[c := Z.of_nat (S (S n)) :: rc]> (<[a := ra]> p1)).
    edestruct (IH fuel b a c p2) as (r & -> & Lr & Pr); [lia|lia|done|done|done| | | | | | |].
    + unfold p2, p1. rewrite !lookup_insert_ne by done. by rewrite lookup_insert_eq.
    + unfold p2. rewrite lookup_insert_ne by done. by rewrite lookup_insert_eq.
    + unfold p2. by rewrite lookup_insert_eq.
    + by apply Fw.
    + by apply Fw.
    + cbn [fits]. rewrite Z.ltb_lt. lia.
    + cbn [res_bind]. eexists; split; [done|]. split; [rewrite length_app; cbn [length]; cbn [Nat.pow] in *; lia|].
      rewrite play_app, Pl. cbn [mbind option_bind play]. 
      assert (p1 !! a = Some (Z.of_nat (S (S n)) :: ra)) as E1 by (unfold p1; rewrite lookup_insert_ne by done; by rewrite lookup_insert_eq).
      assert (p1 !! c = Some rc) as E2 by (unfold p1; by rewrite !lookup_insert_ne by done).
      unfold move. rewrite E1, E2, decide_True by done. rewrite Fc. cbn [mbind option_bind]. fold p1. fold p2. rewrite Pr. f_equal. unfold p2, p1. rewrite (tower_S (S n)), <- app_assoc. cbn [app].
      apply map_eq. intros k. destruct (decide (k = c)) as [->|]; [by rewrite !lookup_insert_eq|]. rewrite !(lookup_insert_ne _ c k) by done.
      destruct (decide (k = b)) as [->|]; [rewrite lookup_insert_eq, !lookup_insert_ne by done; done|]. rewrite !(lookup_insert_ne _ b k) by done.
      destruct (decide (k = a)) as [->|]; [rewrite !(lookup_insert_ne _ c a), !lookup_insert_eq by done; done|]. by rewrite !lookup_insert_ne by done.
Qed.

(** [Hanoi] prints legal moves that take a tower of [n] discs from [a] to [c], 2^n - 1 of them, whatever larger discs the pegs hold below. *)
Theorem hanoi_correct n fuel a b c pegs ra rb rc : 0 < n -> n <= fuel -> is_int (Z.of_nat n) -> NoDup [a; b; c] ->
  pegs !! a = Some (tower n ++ ra) -> pegs !! b = Some rb -> pegs !! c = Some rc -> Forall (fun p => fits (Z.of_nat n) p = true) [ra; rb; rc] ->
  exists ms, Hanoi fuel a b c (Z.of_nat n) = Ok ms /\ S (length ms) = 2 ^ n /\ play pegs ms = Some (<[c := tower n ++ rc]> (<[a := ra]> pegs)).
Proof.
  intros Hn Hf Hi Hd Ha Hb Hc HF. destruct n as [|n]; [lia|]. rewrite !NoDup_cons in Hd. rewrite !Forall_cons in HF. destruct HF as (Fa & Fb & Fc & _). destruct Hd as (H1' & H2' & _).
  apply (hanoi_ok n fuel a b c pegs ra rb rc); try done; [unfold is_int in Hi; lia|set_solver|set_solver|set_solver].
Qed.

Lemma hanoi_never n fuel a b c : (n <= 0)%Z -> forall ms, Hanoi fuel a b c n <> Ok ms.
Proof.
  revert n a b c. induction fuel as [|fuel IH]; intros n a b c Hn ms; [done|]. cbn [Hanoi]. rewrite (proj2 (Z.eqb_neq _ _)) by lia.
  intros (n' & E & (l & E2 & _)%bind_Ok_inv)%bind_Ok_inv. unfold ck in E. case_decide; simplify_eq. by apply IH in E2; [|lia].
Qed.

(** The four discs of the test program on the pegs 'A', 'B' and 'C'. *)
Example hanoi_correct_witness : 0 < 4 /\ exists ms, Hanoi 4 65 66 67 4 = Ok ms /\ S (length ms) = 16 /\
  play (<[65 := tower 4]> (<[66 := []]> {[67 := []]}))%Z ms = Some (<[67 := tower 4]> (<[65 := []]> (<[65 := tower 4]> (<[66 := []]> {[67 := []]}))))%Z.
Proof.
  split; [lia|]. apply (hanoi_correct 4 4 65 66 67 _ [] [] []); [lia|lia|unfold is_int, INT_MIN, INT_MAX; lia| |done|done|done|repeat constructor].
  apply (bool_decide_unpack _). by vm_compute.
Defined.

(** * gcd *)

Definition LONG_MIN : Z := (- 2 ^ 63)%Z.
Definition is_long (z : Z) : Prop := (LONG_MIN <= z < 2 ^ 63)%Z.

(** [m % n], whose sign is that of [m] *)
Definition rem_long (m n : Z) : res Z :=
  if (n =? 0)%Z then Stop DivByZero else if ((m =? LONG_MIN) && (n =? -1))%Z then Stop Overflow else Ok (Z.rem m n).
Definition gcd_round (s : Z * Z) : res (Z * Z + Z) :=
  let '(m, n) := s in if negb (n =? 0)%Z then rem ← rem_long m n; Ok (inl (n, rem)) else Ok (inr m).
Definition gcd (fuel : nat) (m n : Z) : res Z :=
  let '(m, n) := if (m <? n)%Z then (n, m) else (m, n) in loop fuel gcd_round (m, n).

Lemma rem_long_ok m n : n <> 0%Z -> ~ (m = LONG_MIN /\ n = -1)%Z -> rem_long m n = Ok (Z.rem m n).
Proof.
  intros Hn Hov. unfold rem_long. rewrite (proj2 (Z.eqb_neq n 0)) by done. destruct ((m =? LONG_MIN)%Z && (n =? -1)%Z) eqn:E; [|done].
  exfalso. apply Hov. apply andb_true_iff in E. rewrite !Z.eqb_eq in E. done.
Qed.

Lemma gcd_rem m n : n <> 0%Z -> Z.gcd n (Z.rem m n) = Z.gcd m n.
Proof.
  intros Hn. rewrite (Z.gcd_comm m n). rewrite (Z.quot_rem' m n) at 2. rewrite Z.add_comm, (Z.mul_comm n). by rewrite Z.gcd_add_mult_diag_r.
Qed.

(** The product of the two numbers at least halves in every round. *)
Lemma gcd_loop_ok k : forall fuel m n, k < fuel -> (Z.abs n <= Z.abs m)%Z -> (Z.abs m * Z.abs n < 2 ^ Z.of_nat k)%Z -> ~ (m = LONG_MIN /\ n = -1)%Z -> (Z.abs n < 2 ^ 63)%Z ->
  exists g, loop fuel gcd_round (m, n) = Ok g /\ Z.abs g = Z.gcd m n.
Proof.
  induction k as [|k IH]; intros [|fuel] m n Hf Hle Hp Hov Hn; try lia; cbn [loop gcd_round].
  - replace n with 0%Z by nia. cbn. exists m. by rewrite Z.gcd_0_r.
  - destruct (Z.eqb_spec n 0) as [->|Hn0]; cbn [negb]; [exists m; by rewrite Z.gcd_0_r|]. rewrite rem_long_ok by done. cbn [mbind res_bind].
    pose proof (Z.rem_abs m n Hn0) as Ha. pose proof (Z.rem_bound_pos (Z.abs m) (Z.abs n) ltac:(lia) ltac:(lia)) as Hb. pose proof (Z.quot_rem' (Z.abs m) (Z.abs n)) as Hq.
    assert (1 <= Z.quot (Z.abs m) (Z.abs n))%Z by (apply Z.quot_le_lower_bound; lia). rewrite Ha in *.
    assert (2 * Z.abs (Z.rem m n) < Z.abs m)%Z by nia. rewrite Nat2Z.inj_succ, Z.pow_succ_r in Hp by lia.
    destruct (IH fuel n (Z.rem m n)) as (g & -> & Hg); [lia|lia|nia|unfold LONG_MIN; lia|lia|]. exists g. by rewrite Hg, gcd_rem.
Qed.

(** [gcd] of two longs is their greatest common divisor up to its sign, within 129 rounds, except for
    -1 and LONG_MIN, where a remainder overflows. *)
Theorem gcd_correct m n fuel : is_long m -> is_long n -> 129 <= fuel ->
  if decide (Z.min m n = LONG_MIN /\ Z.max m n = -1)%Z then gcd fuel m n = Stop Overflow
  else exists g, gcd fuel m n = Ok g /\ Z.abs g = Z.gcd m n.
Proof.
  intros Hm Hn Hf.
  assert (forall m n, is_long m -> is_long n -> (n <= m)%Z -> if decide (n = LONG_MIN /\ m = -1)%Z then loop fuel gcd_round (m, n) = Stop Overflow
    else exists g, loop fuel gcd_round (m, n) = Ok g /\ Z.abs g = Z.gcd m n) as Hw.
  { clear m n Hm Hn. intros m n Hm Hn Hle. destruct fuel as [|[|fuel]]; [lia|lia|]. case_decide as Hd; [by destruct Hd as [-> ->]|].
    unfold is_long, LONG_MIN in *. rewrite loop_step. cbn [gcd_round]. destruct (Z.eqb_spec n 0) as [->|Hn0]; cbn [negb]; [exists m; by rewrite Z.gcd_0_r|].
    assert (Hov : ~ (m = LONG_MIN /\ n = -1)%Z) by (unfold LONG_MIN; lia). rewrite rem_long_ok by done. cbn [mbind res_bind].
    assert (Z.abs (Z.rem m n) < Z.abs n)%Z as Hr by (rewrite <- Z.rem_abs by done; apply Z.rem_bound_pos; lia).
    destruct (gcd_loop_ok 127 (S fuel) n (Z.rem m n)) as (g & -> & Hg); [lia|lia| | |lia|by exists g; rewrite Hg, gcd_rem].
    - change (2 ^ Z.of_nat 127)%Z with (2 ^ 63 * 2 ^ 64)%Z. nia.
    - intros [E1 E2]. apply Hd. split; [done|]. unfold LONG_MIN in E1. subst n. pose proof (Z.quot_rem' m (- 2 ^ 63)) as Hq. rewrite E2 in Hq.
      assert (m < 0)%Z by (destruct (Z.lt_ge_cases m 0); [done|]; pose proof (Z.rem_nonneg m (- 2 ^ 63)); lia). lia. }
  unfold gcd. destruct (Z.ltb_spec m n) as [Hlt|Hge].
  - rewrite (Z.min_l m n), (Z.max_r m n) by lia. rewrite (Z.gcd_comm m n). apply (Hw n m); [done|done|lia].
  - rewrite (Z.min_r m n), (Z.max_l m n) by lia. by apply (Hw m n).
Qed.

Lemma gcd_correct_witness : is_long 84 /\ exists g, gcd 129 36 84 = Ok g /\ Z.abs g = 12%Z.
Proof. split; [unfold is_long, LONG_MIN; lia|]. exact (gcd_correct 36 84 129 ltac:(unfold is_long, LONG_MIN; lia) ltac:(unfold is_long, LONG_MIN; lia) ltac:(lia)). Defined.

(** * Josephus

    [T] is int, INT_MIN the mark of a child that is out. *)
Definition count_round (child : list Z) (n m : Z) (s : Z * Z) : res (Z * Z + Z) :=
  let '(i, curr) := s in
  if negb (i =? m)%Z then
    (if (n =? 0)%Z then Stop DivByZero else
     curr1 ← ck (curr + 1);
     let curr := Z.rem curr1 n in
     v ← aget child curr;
     if negb (v =? INT_MIN)%Z then i ← ck (i + 1); Ok (inl (i, curr)) else Ok (inl (i, curr)))
  else Ok (inr curr).
(** The children, [kickOut], [curr] and what has been printed. *)
Definition josephus_round (fuel : nat) (n m : Z) (s : list Z * Z * Z * list Z) : res (list Z * Z * Z * list Z + list Z * Z * list Z) :=
  let '(child, kickOut, curr, out) := s in
  curr ← loop fuel (count_round child n m) (0%Z, curr);
  if (kickOut =? 1)%Z then Ok (inr (child, curr, out))
  else v ← aget child curr; child ← aset child curr INT_MIN; kickOut ← ck (kickOut - 1); Ok (inl (child, kickOut, curr, out ++ [v])).
(** What is returned and what is printed. *)
Definition Josephus (fuel : nat) (child : list Z) (n m : Z) : res (Z * list Z) :=
  kickOut ← ck (n - 1);
  '(child, curr, out) ← loop fuel (josephus_round fuel n m) (child, kickOut, (-1)%Z, []);
  v ← aget child curr; Ok (v, out).

(** The game on a queue: [m - 1] go to the back, the [m]-th leaves. *)
Definition rot (q : list nat) : list nat := match q with [] => [] | x :: q => q ++ [x] end.
Definition counted (m : nat) (q : list nat) : list nat := Nat.iter m rot q.
Fixpoint leaving (k m : nat) (q : list nat) : list nat :=
  match k with
  | O => []
  | S k => match last (counted m q) with Some x => x :: leaving k m (removelast (counted m q)) | None => [] end
  end.

(** The positions from [c] on around the circle, and those of them still in the game. *)
Definition circ (n c : nat) : list nat := (fun k => (c + k) mod n) <$> seq 0 n.
Definition alive (child : list Z) (p : nat) : Prop := child !!! p <> INT_MIN.
#[local] Instance alive_dec child p : Decision (alive child p) := _.
Definition inside (child : list Z) (n c : nat) : list nat := filter (alive child) (circ n c).

Lemma circ_step n c : 0 < n -> exists q, circ n c = c mod n :: q /\ circ n (S (c mod n)) = q ++ [c mod n].
Proof.
  intros Hn. exists ((fun k => (c + S k) mod n) <$> seq 0 (n - 1)). unfold circ. destruct n as [|n]; [lia|]. split.
  - cbn [seq fmap list_fmap]. rewrite Nat.add_0_r. f_equal. replace (S n - 1) with n by lia. rewrite <- seq_shift, <- list_fmap_compose. done.
  - rewrite seq_S, fmap_app. cbn [fmap list_fmap]. replace (S n - 1) with n by lia. f_equal.
    + apply list_fmap_ext. intros i k _. cbn beta. replace (S (c mod S n) + k) with (c mod S n + S k) by lia. by rewrite Nat.Div0.add_mod_idemp_l.
    + assert ((S (c mod S n) + (0 + n)) mod S n = c mod S n) as ->; [|done]. replace (S (c mod S n) + (0 + n)) with (c mod S n + 1 * S n) by lia. rewrite Nat.Div0.mod_add. apply Nat.Div0.mod_mod.
Qed.

Lemma NoDup_circ n c : NoDup (circ n c).
Proof.
  apply NoDup_fmap_2_strong; [|apply NoDup_seq]. intros x y Hx%elem_of_seq Hy%elem_of_seq E.
  pose proof (Nat.div_mod_eq (c + x) n). pose proof (Nat.div_mod_eq (c + y) n). rewrite E in *.
  destruct (Nat.lt_trichotomy ((c + x) / n) ((c + y) / n)) as [H1'|[H1'|H1']]; [|rewrite H1' in *; lia|]; exfalso; pose proof (Nat.mul_le_mono_l _ _ n H1'); lia.
Qed.

Section Josephus.
Context (child : list Z) (n : nat) (m : Z) (Hn0 : 0 < n) (Hn : n <= length child) (Hni : is_int (Z.of_nat n)) (Hmi : is_int m).

Lemma count_step i c : is_int (i + 1) -> (i <> m)%Z -> c <= n -> forall fuel,
  loop (S fuel) (count_round child (Z.of_nat n) m) (i, (Z.of_nat c - 1)%Z)
  = loop fuel (count_round child (Z.of_nat n) m) ((if decide (alive child (c mod n)) then i + 1 else i)%Z, Z.of_nat (c mod n)).
Proof.
  intros Hi Him Hc fuel. rewrite loop_step. cbn [count_round]. rewrite (proj2 (Z.eqb_neq i m)) by done. cbn [negb]. rewrite (proj2 (Z.eqb_neq _ _)) by lia.
  unfold is_int in *. replace (Z.of_nat c - 1 + 1)%Z with (Z.of_nat c) by lia. rewrite (ck_ok (Z.of_nat c)) by (unfold is_int, INT_MIN in *; lia). cbn [mbind res_bind].
  rewrite Z.rem_mod_nonneg, <- Nat2Z.inj_mod by lia. pose proof (Nat.mod_upper_bound c n ltac:(lia)).
  rewrite (aget_nat child (c mod n) (child !!! (c mod n))) by (apply list_lookup_lookup_total_lt; lia). cbn [mbind res_bind].
  destruct (decide (alive child (c mod n))) as [Ha|Ha]; unfold alive in Ha.
  - rewrite (proj2 (Z.eqb_neq _ _)) by done. cbn [negb]. by rewrite ck_ok by done.
  - destruct (Z.eqb_spec (child !!! (c mod n)) INT_MIN); [done|tauto].
Qed.

(** Up to the next child that is in. *)
Lemma count_next pre : forall c x suf i, circ n c = pre ++ x :: suf -> Forall (fun p => ~ alive child p) pre -> alive child x -> is_int (i + 1) -> (i <> m)%Z -> c <= n ->
  x < n /\ inside child n (S x) = rot (inside child n c) /\ forall fuel,
  loop (length pre + 1 + fuel) (count_round child (Z.of_nat n) m) (i, (Z.of_nat c - 1)%Z) = loop fuel (count_round child (Z.of_nat n) m) ((i + 1)%Z, Z.of_nat x).
Proof.
  induction pre as [|y pre IH]; intros c x suf i E Hd Hx Hi Him Hc; destruct (circ_step n c Hn0) as (q & E1 & E2); rewrite E1 in E; pose proof (Nat.mod_upper_bound c n ltac:(lia)).
  - injection E as E3 E4. subst q. rewrite E3 in *. split; [done|]. split.
    + unfold inside. rewrite E1, E2. rewrite filter_cons_True by done. cbn [rot]. rewrite filter_app, filter_cons_True by done. done.
    + intros fuel. cbn [length Nat.add]. rewrite count_step by done. rewrite E3. by rewrite decide_True.
  - cbn [app] in E. injection E as E3 E4. subst q. inversion Hd; subst y pre0 || (apply Forall_cons in Hd as [Hy Hd]). rewrite E3 in *.
    rewrite <- app_assoc in E2. cbn [app] in E2. destruct (IH (S y) x (suf ++ [y]) i E2 Hd Hx Hi Him ltac:(lia)) as (H1' & H2' & H3'). split; [done|]. split.
    + rewrite H2'. f_equal. unfold inside. rewrite E1, E2. rewrite filter_cons_False by done. rewrite (app_comm_cons suf [y] x), app_assoc, filter_app. rewrite (filter_cons_False _ y) by done. by rewrite app_nil_r.
    + intros fuel. cbn [length Nat.add]. rewrite count_step by done. rewrite E3, decide_False by done. replace (Z.of_nat y) with (Z.of_nat (S y) - 1)%Z by lia. apply H3'.
Qed.

Lemma first_alive (l : list nat) x q : filter (alive child) l = x :: q -> exists pre suf, l = pre ++ x :: suf /\ Forall (fun p => ~ alive child p) pre /\ alive child x.
Proof.
  induction l as [|y l IH]; [done|]. rewrite filter_cons. case_decide as Hy.
  - intros E. injection E as <- _. by exists [], l.
  - intros (pre & suf & -> & Hp & Hx)%IH. exists (y :: pre), suf. split_and!; [done|by constructor|done].
Qed.

Lemma length_rot q : length (rot q) = length q.
Proof. destruct q; cbn; [done|]. rewrite length_app. cbn. lia. Qed.

Lemma counting todo : forall i c fuel, (i + Z.of_nat todo = m)%Z -> (0 <= i)%Z -> c <= n -> inside child n c <> [] -> todo * n < fuel ->
  exists c', loop fuel (count_round child (Z.of_nat n) m) (i, (Z.of_nat c - 1)%Z) = Ok (Z.of_nat c' - 1)%Z /\ c' <= n /\
    inside child n c' = counted todo (inside child n c) /\ (todo = 0 -> c' = c) /\ (todo <> 0 -> exists q x, c' = S x /\ inside child n c' = q ++ [x]).
Proof.
  induction todo as [|todo IH]; intros i c fuel Him Hi Hc Hne Hf.
  - destruct fuel as [|fuel]; [lia|]. exists c. rewrite loop_step. cbn [count_round]. rewrite (proj2 (Z.eqb_eq i m)) by lia. split_and!; done.
  - destruct (inside child n c) as [|x q] eqn:Eq; [done|]. destruct (first_alive _ _ _ Eq) as (pre & suf & E & Hp & Hx).
    assert (length pre < n) as Hl. { apply (f_equal length) in E. unfold circ in E. rewrite length_fmap, length_seq, length_app in E. cbn in E. lia. }
    unfold is_int, INT_MIN, INT_MAX in *.
    destruct (count_next pre c x suf i E Hp Hx ltac:(unfold is_int, INT_MIN, INT_MAX; lia) ltac:(lia) Hc) as (Hxn & Hrot & Hl2).
    rewrite Eq in Hrot. replace fuel with (length pre + 1 + (fuel - length pre - 1)) by (cbn in Hf; nia). rewrite Hl2.
    replace (Z.of_nat x) with (Z.of_nat (S x) - 1)%Z by lia.
    destruct (IH (i + 1)%Z (S x) (fuel - length pre - 1)) as (c' & -> & Hc' & Hin & Hsame & Hlast); [lia|lia|lia|rewrite Hrot; cbn; by destruct q|cbn in Hf; nia|].
    exists c'. split_and!; [done|done| |done|].
    + rewrite Hin, Hrot. unfold counted. by rewrite Nat.iter_succ_r.
    + intros _. destruct (decide (todo = 0)) as [->|Ht]; [|by apply Hlast]. cbn in Hin. exists q, x. rewrite Hin, Hrot. split; [by apply Hsame|done].
Qed.
End Josephus.

(** A child leaves. *)
Lemma inside_out child n c q x : inside child n c = q ++ [x] -> x < length child -> inside (<[x := INT_MIN]> child) n c = q.
Proof.
  intros E Hx. assert (Hd : NoDup (q ++ [x])) by (rewrite <- E; apply NoDup_filter, NoDup_circ). apply NoDup_app in Hd as (_ & Hqx & _).
  unfold inside in *. transitivity (filter (fun p => p <> x) (filter (alive child) (circ n c))).
  - rewrite list_filter_filter. apply list_filter_iff. intros p. unfold alive. destruct (decide (p = x)) as [->|Hne].
    + rewrite list_lookup_total_insert_eq by done. tauto.
    + rewrite list_lookup_total_insert_ne by done. tauto.
  - rewrite E, filter_app, (filter_cons_False _ x) by tauto. rewrite filter_nil, app_nil_r. apply filter_all, Forall_forall. intros p Hp ->. apply (Hqx x); [done|by left].
Qed.

Lemma rot_perm q : rot q ≡ₚ q.
Proof. destruct q as [|x q]; [done|]. symmetry. apply Permutation_cons_append. Qed.

Lemma counted_perm m q : counted m q ≡ₚ q.
Proof. induction m as [|m IH]; [done|]. transitivity (counted m q); [apply rot_perm|exact IH]. Qed.

Lemma leaving_S k m q q' x : counted m q = q' ++ [x] -> leaving (S k) m q = x :: leaving k m q'.
Proof. intros E. cbn [leaving]. by rewrite E, last_snoc, removelast_last. Qed.

Lemma josephus_loop_ok (child0 : list Z) n m fi : 0 < n -> is_int (Z.of_nat n) -> is_int m -> (1 <= m)%Z -> Z.to_nat m * n < fi -> forall k child c out fo,
  n <= length child -> c <= n -> length (inside child n c) = S (S k) -> k < fo -> is_int (Z.of_nat (S k)) -> Forall (fun p => child !!! p = child0 !!! p) (inside child n c) ->
  exists child' ps x, leaving (S k) (Z.to_nat m) (inside child n c) = ps ++ [x] /\ child' !! x = Some (child0 !!! x) /\ length ps = k /\
    loop fo (josephus_round fi (Z.of_nat n) m) (child, Z.of_nat (S k), (Z.of_nat c - 1)%Z, out) = Ok (child', Z.of_nat x, out ++ ((fun p => child0 !!! p) <$> ps)).
Proof.
  intros Hn Hni Hmi Hm Hfi. induction k as [|k IH]; intros child c out fo Hl Hc Hk Hfo Hki HF; (destruct fo as [|fo]; [lia|]); rewrite loop_step; cbn [josephus_round];
    (edestruct (counting child n m) as (c' & E & Hc' & Hin & _ & Hlast); [done|done|done|done|instantiate (1 := Z.to_nat m); instantiate (1 := 0%Z); lia|lia|exact Hc|by destruct (inside child n c)|exact Hfi|]);
    rewrite E; cbn [mbind res_bind]; destruct (Hlast ltac:(lia)) as (q & x & -> & Eq);
    assert (Hx : x < length child) by lia;
    assert (Hcx : counted (Z.to_nat m) (inside child n c) = q ++ [x]) by congruence;
    assert (Hxc : child !!! x = child0 !!! x) by (rewrite Forall_forall in HF; apply HF; rewrite <- (counted_perm (Z.to_nat m)), Hcx; apply elem_of_app; right; by left);
    assert (Hxs : child !! x = Some (child0 !!! x)) by (rewrite <- Hxc; by apply list_lookup_lookup_total_lt);
    replace (Z.of_nat (S x) - 1)%Z with (Z.of_nat x) by lia; rewrite (leaving_S _ _ _ _ _ Hcx).
  - exists child, [], x. cbn [Z.of_nat Z.eqb Pos.eqb]. split_and!; [done|done|done|]. cbn. by rewrite app_nil_r.
  - rewrite (proj2 (Z.eqb_neq (Z.of_nat (S (S k))) 1)) by lia. rewrite (aget_nat _ _ _ Hxs). cbn [mbind res_bind]. rewrite aset_nat by done. cbn [mbind res_bind].
    unfold is_int, INT_MIN in Hki. rewrite ck_ok by (unfold is_int, INT_MIN; lia). cbn [mbind res_bind].
    pose proof (inside_out child n (S x) q x Eq Hx) as Eo.
    replace (Z.of_nat x) with (Z.of_nat (S x) - 1)%Z by lia. replace (Z.of_nat (S (S k)) - 1)%Z with (Z.of_nat (S k)) by lia.
    destruct (IH (<[x := INT_MIN]> child) (S x) (out ++ [child0 !!! x]) fo) as (child' & ps & y & E1 & E2 & E3 & E4).
    + by rewrite length_insert.
    + lia.
    + rewrite Eo. apply (f_equal length) in Eq, Hcx. rewrite Hin in Eq. rewrite (Permutation_length (counted_perm _ _)), length_app in Hcx. cbn in *. lia.
    + lia.
    + unfold is_int, INT_MIN. lia.
    + rewrite Eo. apply Forall_forall. intros p Hp. rewrite list_lookup_total_insert_ne.
      * rewrite Forall_forall in HF. apply HF. rewrite <- (counted_perm (Z.to_nat m)), Hcx. apply elem_of_app. by left.
      * intros <-. assert (Hd : NoDup (q ++ [x])) by (rewrite <- Eq; apply NoDup_filter, NoDup_circ). apply NoDup_app in Hd as (_ & Hqx & _). apply (Hqx x); [done|by left].
    + rewrite Eo in E1. exists child', (x :: ps), y. split_and!; [by rewrite E1|done|cbn; lia|]. rewrite E4. cbn [fmap list_fmap]. by rewrite <- app_assoc.
Qed.

(** [Josephus] prints the children that leave and returns the one that is counted out when two are left:
    the (n - 1)-th to leave the queue, not the last one. *)
Theorem josephus_correct child n m fuel : 2 <= n -> n <= length child -> is_int (Z.of_nat n) -> is_int m -> (1 <= m)%Z ->
  Forall (fun v => v <> INT_MIN) (take n child) -> Z.to_nat m * n < fuel ->
  exists out x, leaving (n - 1) (Z.to_nat m) (seq 0 n) = out ++ [x] /\ length out = n - 2 /\
    Josephus fuel child (Z.of_nat n) m = Ok (child !!! x, (fun p => child !!! p) <$> out).
Proof.
  intros H2n Hl Hni Hmi Hm HF Hf.
  assert (Hin : inside child n 0 = seq 0 n).
  { unfold inside, circ. rewrite (list_fmap_ext _ id (seq 0 n)) by (intros i k E; cbn; apply Nat.mod_small; apply lookup_seq in E; lia). rewrite list_fmap_id.
    apply filter_all, Forall_forall. intros p Hp%elem_of_seq. unfold alive. rewrite Forall_lookup in HF. apply (HF p). rewrite lookup_take, decide_True by lia. apply list_lookup_lookup_total_lt. lia. }
  destruct (josephus_loop_ok child n m fuel ltac:(lia) Hni Hmi Hm Hf (n - 2) child 0 [] fuel) as (child' & ps & x & E1 & E2 & E3 & E4).
  - done.
  - lia.
  - rewrite Hin, length_seq. lia.
  - nia.
  - unfold is_int, INT_MIN in *. lia.
  - by apply Forall_forall.
  - rewrite Hin in E1. replace (S (n - 2)) with (n - 1) in * by lia. exists ps, x. split_and!; [done|done|]. unfold Josephus. rewrite ck_ok by (unfold is_int, INT_MIN in *; lia). cbn [mbind res_bind].
    replace (Z.of_nat n - 1)%Z with (Z.of_nat (n - 1)) by lia. change (-1)%Z with (Z.of_nat 0 - 1)%Z. rewrite E4. cbn [mbind res_bind]. by rewrite (aget_nat _ _ _ E2).
Qed.

Lemma josephus_correct_witness : 2 <= 5 /\ exists out x, out ++ [x] = [2; 0; 4; 1] /\ Josephus 16 [10; 11; 12; 13; 14]%Z 5 3 = Ok ([10; 11; 12; 13; 14]%Z !!! x, (fun p => [10; 11; 12; 13; 14]%Z !!! p) <$> out).
Proof.
  split; [lia|]. destruct (josephus_correct [10; 11; 12; 13; 14]%Z 5 3 16) as (out & x & E & _ & R); [lia|cbn; lia|unfold is_int, INT_MIN, INT_MAX; lia|unfold is_int, INT_MIN, INT_MAX; lia|lia|repeat constructor; done|cbn; lia|].
  exists out, x. split; [by rewrite <- E|exact R].
Defined.

Lemma count_alone ch m cu f c : (1 <= m)%Z -> loop f (count_round ch 1 m) (0%Z, cu) = Ok c -> c = 0%Z /\ ch !! 0 <> Some INT_MIN.
Proof.
  intros Hm E.
  eapply (loop_partial (fun s => s.1 = 0 \/ (s.2 = 0 /\ ch !! 0%nat <> Some INT_MIN))%Z (fun c => c = 0%Z /\ ch !! 0 <> Some INT_MIN)) in E; [exact E| |by left].
  clear -Hm. intros [i cu] HI. cbn [fst snd] in HI. cbn [count_round]. destruct (Z.eqb_spec i m) as [->|Hne]; cbn [negb]; [destruct HI; [lia|done]|].
  cbn [Z.eqb]. destruct (ck (cu + 1)) as [c1|]; [|done]. cbn [mbind res_bind]. rewrite Z.rem_1_r. destruct (aget ch 0) as [v|] eqn:Ev; [|done]. cbn [mbind res_bind].
  apply (aget_inv ch 0) in Ev as (_ & Ev). change (Z.to_nat 0) with 0 in Ev. destruct (Z.eqb_spec v INT_MIN) as [->|Hv]; cbn [negb].
  - cbn [fst snd]. left. destruct HI as [->|[_ HI]]; [done|]. by rewrite Ev in HI.
  - destruct (ck (i + 1)) as [i'|]; [|done]. cbn. right. split; [done|]. rewrite Ev. congruence.
Qed.

(** A lone child is counted for ever. *)
Lemma josephus_alone child m fuel : (1 <= m)%Z -> forall r, Josephus fuel child 1 m <> Ok r.
Proof.
  intros Hm r E. unfold Josephus in E. change (ck (1 - 1)) with (Ok 0%Z) in E. cbn [mbind res_bind] in E.
  apply bind_Ok_inv in E as ([[child' curr] out] & E & _).
  eapply (loop_partial (fun s => let '(ch, k, cu, out) := s in k = 0%Z \/ ((k < 0)%Z /\ ch !! 0 = Some INT_MIN)) (fun _ => False)) in E; [done| |by left].
  clear -Hm. intros [[[ch k] cu] out] Hk. cbn [josephus_round]. destruct (loop _ _ _) as [c|f] eqn:El; [|done]. apply count_alone in El as [-> Hne]; [|done]. cbn [mbind res_bind].
  destruct Hk as [->|[_ H0']]; [|done]. cbn [Z.eqb]. destruct (aget ch 0) as [v|] eqn:Ev; [|done]. cbn [mbind res_bind]. apply aget_inv in Ev as (_ & Ev). rewrite (aset_nat ch 0) by (by apply lookup_lt_Some in Ev). cbn [mbind res_bind].
  change (ck (0 - 1)) with (Ok (-1)%Z). cbn [mbind res_bind]. right. split; [lia|]. apply list_lookup_insert_eq. by apply lookup_lt_Some in Ev.
Qed.
