(* ===== verification/JzCount.v ===== *)
(** Key-indexed counting in src/src/algs/jzoffer/test_string.cpp: [test_kic_main] and the LSD sort of [test_lsd_sort_main].
    An element of an array that was never written is [None]. *)
From S2P Require Import Prelude SortSpec.

Definition read {A} (l : list (option A)) (i : Z) : res A :=
  x ← aget l i; match x with Some x => Ok x | None => Stop Uninit end.

Section Counting.
Context {A : Type} (key : A -> res Z).

(** [++count[key + 1]] for every element *)
Fixpoint count_keys (l : list A) (count : list (option Z)) : res (list (option Z)) :=
  match l with
  | [] => Ok count
  | x :: l => k ← key x; k ← ck (k + 1); c ← read count k; c ← ck (c + 1); count ← aset count k (Some c); count_keys l count
  end.
(** [count[r + 1] += count[r]] from [r] on, [todo] times *)
Fixpoint accumulate (todo r : nat) (count : list (option Z)) : res (list (option Z)) :=
  match todo with
  | O => Ok count
  | S todo =>
    a ← read count (Z.of_nat r); b ← read count (Z.of_nat (S r)); c ← ck (b + a);
    count ← aset count (Z.of_nat (S r)) (Some c); accumulate todo (S r) count
  end.
(** [aux[count[key]++] = x] for every element [x] *)
Fixpoint distribute (l : list A) (count : list (option Z)) (aux : list (option A)) : res (list (option A)) :=
  match l with
  | [] => Ok aux
  | x :: l =>
    k ← key x; c ← read count k; c' ← ck (c + 1); count ← aset count k (Some c'); aux ← aset aux c (Some x);
    distribute l count aux
  end.
End Counting.

(** Nothing of [e] and [count] is written before it is read. *)
Record kic : Type := Kic { name : list (option Z); key_ : option Z }.
Definition kic_key (e : kic) : res Z := match key_ e with Some k => Ok k | None => Stop Uninit end.
Definition test_kic_main : res (list (option kic)) :=
  let e := replicate 64 (Kic (replicate 128 None) None) in
  count ← count_keys kic_key e (replicate 10 None);
  count ← accumulate 10 0 count;
  distribute kic_key e count (replicate 64 None).

(** A pass at the characters [d]; every pass reads [a] and overwrites [aux]. *)
Definition lsd_pass (R : nat) (a : list (list Z)) (d : nat) (aux : list (option (list Z))) : res (list (option (list Z))) :=
  let key w := aget w (Z.of_nat d) in
  count ← count_keys key a (replicate (R + 1) (Some 0%Z));
  count ← accumulate R 0 count;
  distribute key a count aux.
Fixpoint lsd_loop (R W : nat) (a : list (list Z)) (aux : list (option (list Z))) : res (list (option (list Z))) :=
  match W with O => Ok aux | S d => aux ← lsd_pass R a d aux; lsd_loop R d a aux end.
(** [aux] at the end *)
Definition test_lsd_sort_main (R W : nat) (a : list (list Z)) : res (list (option (list Z))) := lsd_loop R W a (replicate (length a) None).

(** * Counting sort *)

Section Buckets.
Context {A : Type} (kf : A -> res Z) (key : A -> nat) (R : nat) (l : list A).

(** The elements with key [r], and those with smaller keys, by key. *)
Notation having r k := (filter (fun x => key x = r) k).
Fixpoint buckets (r : nat) : list A := match r with O => [] | S r => buckets r ++ having r l end.

Lemma buckets_length_mono r r' : r <= r' -> length (buckets r) <= length (buckets r').
Proof. induction 1 as [|r' Hle IH]; [done|]. cbn [buckets]. rewrite length_app. lia. Qed.

Lemma buckets_lookup r r' k : r < r' -> k < length (having r l) -> buckets r' !! (length (buckets r) + k) = having r l !! k.
Proof.
  intros Hr Hk. induction r' as [|r' IH]; [lia|]. cbn [buckets]. destruct (decide (r = r')) as [->|Hne].
  - rewrite lookup_app_r by lia. f_equal. lia.
  - rewrite lookup_app_l; [by apply IH; lia|]. pose proof (buckets_length_mono (S r) r' ltac:(lia)) as Hm. cbn [buckets] in Hm. rewrite length_app in Hm. lia.
Qed.

Lemma buckets_cover r' p : p < length (buckets r') -> exists r k, r < r' /\ k < length (having r l) /\ p = length (buckets r) + k.
Proof.
  induction r' as [|r' IH]; cbn [buckets length]; [lia|]. rewrite length_app. intros Hp. destruct (decide (p < length (buckets r'))) as [Hlt|Hge].
  - destruct (IH Hlt) as (r & k & ? & ? & ?). exists r, k. split_and!; [lia|done|done].
  - exists r', (p - length (buckets r')). split_and!; lia.
Qed.

Lemma buckets_perm r : buckets r ≡ₚ filter (fun x => key x < r) l.
Proof.
  induction r as [|r IH]; cbn [buckets].
  - induction l as [|x k IHk]; [done|]. rewrite filter_cons_False by lia. exact IHk.
  - rewrite IH. clear. induction l as [|x k IHk]; [done|]. destruct (decide (key x < r)) as [Hlt|Hge].
    + rewrite (filter_cons_True _ x) by done. rewrite (filter_cons_False _ x) by lia. rewrite (filter_cons_True (fun x => key x < S r) x) by lia. cbn. by rewrite IHk.
    + rewrite (filter_cons_False _ x) by done. destruct (decide (key x = r)) as [E|Hne].
      * rewrite (filter_cons_True _ x) by done. rewrite (filter_cons_True (fun x => key x < S r) x) by lia. rewrite <- Permutation_middle. by rewrite IHk.
      * rewrite (filter_cons_False _ x) by done. rewrite (filter_cons_False (fun x => key x < S r) x) by lia. exact IHk.
Qed.

Lemma buckets_stable r c : c < r -> having c (buckets r) = having c l.
Proof.
  intros Hc. induction r as [|r IH]; [lia|]. cbn [buckets]. rewrite filter_app. destruct (decide (c = r)) as [->|Hne].
  - rewrite (filter_none (fun x => key x = r) (buckets r)), list_filter_filter_l; [done|done|]. apply Forall_forall. intros x Hx. rewrite buckets_perm in Hx. apply list_elem_of_filter in Hx as [Hx _]. lia.
  - rewrite IH by lia. rewrite (filter_none (fun x => key x = c) (having r l)), app_nil_r; [done|]. apply Forall_forall. intros x Hx. apply list_elem_of_filter in Hx as [Hx _]. lia.
Qed.

Lemma buckets_sorts : Forall (fun x => key x < R) l -> sorts (fun x => Z.of_nat (key x)) true l (buckets R).
Proof.
  intros Hk. assert (Hin : forall r x, x ∈ buckets r -> key x < r) by (intros r x Hx; rewrite buckets_perm in Hx; by apply list_elem_of_filter in Hx as [Hx _]).
  split.
  - rewrite buckets_perm. clear -Hk. induction Hk as [|x k Hx _ IH]; [done|]. rewrite filter_cons_True by done. by rewrite <- IH.
  - clear Hk. induction R as [|r IH]; cbn [buckets]; [constructor|]. apply StronglySorted_app. split_and!; [|exact IH|].
    + intros x y Hx%Hin Hy. apply list_elem_of_filter in Hy as [Hy _]. unfold le_key. lia.
    + induction l as [|x k IHk]; [constructor|]. destruct (decide (key x = r)) as [E|Hne]; [|by rewrite filter_cons_False by done].
      rewrite filter_cons_True by done. constructor; [done|]. apply Forall_forall. intros y Hy. apply list_elem_of_filter in Hy as [Hy _]. unfold le_key. lia.
  - intros _ c. destruct (decide (0 <= c < Z.of_nat R)%Z) as [Hc|Hc].
    + rewrite (list_filter_iff _ (fun x => key x = Z.to_nat c) (buckets R)), (list_filter_iff _ (fun x => key x = Z.to_nat c) l) by (intros x; lia). apply buckets_stable. lia.
    + rewrite !filter_none; [done| |]; apply Forall_forall; [intros x Hx; rewrite Forall_forall in Hk; specialize (Hk x Hx); lia|intros x Hx%Hin; lia].
Qed.
End Buckets.

Section Loops.
Context {A : Type} (kf : A -> res Z) (key : A -> nat) (R : nat).
Notation having r k := (filter (fun x => key x = r) k).

Lemma read_ok {B} (l : list (option B)) i x : l !! i = Some (Some x) -> read l (Z.of_nat i) = Ok x.
Proof. intros E. unfold read. by rewrite (aget_nat _ _ _ E). Qed.

(** Counters: [cs] in all cells. *)
Notation cells cs := (Some <$> cs : list (option Z)).

Lemma read_cell (cs : list Z) i x : cs !! i = Some x -> read (cells cs) (Z.of_nat i) = Ok x.
Proof. intros E. apply read_ok. by rewrite list_lookup_fmap, E. Qed.

Lemma set_cell (cs : list Z) i x : i < length cs -> aset (cells cs) (Z.of_nat i) (Some x) = Ok (cells (<[i := x]> cs)).
Proof. intros Hi. rewrite aset_nat by (by rewrite length_fmap). by rewrite list_fmap_insert. Qed.

Definition counts (l : list A) (c c' : nat -> Z) : Prop := c' 0 = c 0 /\ forall r, c' (S r) = (c (S r) + Z.of_nat (length (having r l)))%Z.

Lemma count_keys_ok l : forall cs, Forall (fun x => kf x = Ok (Z.of_nat (key x)) /\ key x < R) l -> length cs = R + 1 -> (Z.of_nat R <= INT_MAX)%Z ->
  (forall r, r < R -> (0 <= cs !!! S r)%Z /\ (cs !!! S r + Z.of_nat (length l) <= INT_MAX)%Z) ->
  exists cs', count_keys kf l (cells cs) = Ok (cells cs') /\ length cs' = R + 1 /\ cs' !!! 0%nat = cs !!! 0%nat /\
    forall r, r < R -> cs' !!! S r = (cs !!! S r + Z.of_nat (length (having r l)))%Z.
Proof.
  induction l as [|x l IH]; intros cs HF Hl HR Hb; cbn [count_keys].
  - exists cs. split_and!; [done|done|done|]. intros r Hr. cbn. lia.
  - apply Forall_cons in HF as [[Ek Hk] HF]. rewrite Ek. cbn [mbind res_bind]. rewrite ck_ok by (unfold is_int, INT_MIN, INT_MAX in *; lia). cbn [mbind res_bind].
    replace (Z.of_nat (key x) + 1)%Z with (Z.of_nat (S (key x))) by lia. rewrite (read_cell cs (S (key x)) (cs !!! S (key x))) by (apply list_lookup_lookup_total_lt; lia). cbn [mbind res_bind].
    destruct (Hb (key x) Hk) as [H1' H2']. cbn [length] in H2'. rewrite ck_ok by (unfold is_int, INT_MIN, INT_MAX in *; lia). cbn [mbind res_bind]. rewrite set_cell by lia. cbn [mbind res_bind].
    destruct (IH (<[S (key x) := (cs !!! S (key x) + 1)%Z]> cs)) as (cs' & -> & Hl' & H0' & Hr'); [done|by rewrite length_insert|done| |].
    + intros r Hr. destruct (Hb r Hr) as [Hb1 Hb2]. cbn [length] in Hb2. destruct (decide (r = key x)) as [->|Hne]; [rewrite list_lookup_total_insert_eq by lia|rewrite list_lookup_total_insert_ne by lia]; lia.
    + exists cs'. split_and!; [done|done|by rewrite H0', list_lookup_total_insert_ne by lia|]. intros r Hr. rewrite Hr' by done. destruct (decide (r = key x)) as [->|Hne].
      * rewrite list_lookup_total_insert_eq by lia. rewrite filter_cons_True by done. cbn [length]. lia.
      * rewrite list_lookup_total_insert_ne by lia. by rewrite filter_cons_False by done.
Qed.

Lemma accumulate_ok l todo : forall r cs, r + todo = R -> length cs = R + 1 -> (Z.of_nat (length l) <= INT_MAX)%Z ->
  (forall r', r' <= r -> cs !!! r' = Z.of_nat (length (buckets key l r'))) -> (forall r', r <= r' < R -> cs !!! S r' = Z.of_nat (length (having r' l))) ->
  exists cs', accumulate todo r (cells cs) = Ok (cells cs') /\ length cs' = R + 1 /\ forall r', r' <= R -> cs' !!! r' = Z.of_nat (length (buckets key l r')).
Proof.
  induction todo as [|todo IH]; intros r cs Hr Hl Hm H1' H2'; cbn [accumulate].
  - exists cs. split_and!; [done|done|]. intros r' Hr'. apply H1'. lia.
  - rewrite (read_cell cs r (cs !!! r)), (read_cell cs (S r) (cs !!! S r)) by (apply list_lookup_lookup_total_lt; lia). cbn [mbind res_bind].
    assert (length (buckets key l (S r)) <= length l) by (rewrite (Permutation_length (buckets_perm key l (S r))); apply length_filter).
    assert (Es : (cs !!! S r + cs !!! r)%Z = Z.of_nat (length (buckets key l (S r)))) by (rewrite (H1' r), (H2' r) by lia; cbn [buckets]; rewrite length_app; lia).
    rewrite Es. rewrite ck_ok by (unfold is_int, INT_MIN, INT_MAX in *; lia). cbn [mbind res_bind]. rewrite set_cell by lia. cbn [mbind res_bind].
    apply IH; [lia|by rewrite length_insert|done| |].
    + intros r' Hr'. destruct (decide (r' = S r)) as [->|Hne]; [by rewrite list_lookup_total_insert_eq by lia|rewrite list_lookup_total_insert_ne by lia; apply H1'; lia].
    + intros r' Hr'. rewrite list_lookup_total_insert_ne by lia. apply H2'. lia.
Qed.

Lemma distribute_ok l l2 : forall l1 cs aux, l = l1 ++ l2 -> Forall (fun x => kf x = Ok (Z.of_nat (key x)) /\ key x < R) l2 -> length cs = R + 1 -> (Z.of_nat (length l) <= INT_MAX)%Z ->
  (forall r, r < R -> cs !!! r = Z.of_nat (length (buckets key l r) + length (having r l1))) -> length aux = length l ->
  (forall r k, r < R -> k < length (having r l1) -> aux !! (length (buckets key l r) + k) = Some (having r l !! k)) ->
  exists aux', distribute kf l2 (cells cs) aux = Ok aux' /\ length aux' = length l /\
    forall r k, r < R -> k < length (having r l) -> aux' !! (length (buckets key l r) + k) = Some (having r l !! k).
Proof.
  induction l2 as [|x l2 IH]; intros l1 cs aux El HF Hl Hm Hcs Hla Haux; cbn [distribute].
  - exists aux. rewrite app_nil_r in El. subst l1. done.
  - apply Forall_cons in HF as [[Ek Hk] HF]. rewrite Ek. cbn [mbind res_bind]. rewrite (read_cell cs (key x) (cs !!! key x)) by (apply list_lookup_lookup_total_lt; lia). rewrite (Hcs _ Hk). cbn [mbind res_bind].
    assert (Ex : having (key x) l !! length (having (key x) l1) = Some x) by (rewrite El, filter_app, filter_cons_True by done; by rewrite list_lookup_middle).
    pose proof (lookup_lt_Some _ _ _ Ex) as Hlt. pose proof (buckets_perm key l (S (key x))) as HP. apply Permutation_length in HP. cbn [buckets] in HP. rewrite length_app in HP.
    pose proof (length_filter (fun y => key y < S (key x)) l) as Hle. set (c := length (buckets key l (key x)) + length (having (key x) l1)) in *.
    assert (Hc : c < length l) by lia. rewrite ck_ok by (unfold is_int, INT_MIN, INT_MAX in *; lia). cbn [mbind res_bind]. rewrite set_cell by lia. cbn [mbind res_bind]. rewrite aset_nat by lia. cbn [mbind res_bind].
    assert (Hg : forall r, length (having r (l1 ++ [x])) = length (having r l1) + (if decide (key x = r) then 1 else 0)).
    { intros r. rewrite filter_app, length_app, filter_cons. by case_decide. }
    apply (IH (l1 ++ [x])); [by rewrite <- app_assoc|done|by rewrite length_insert|done| |by rewrite length_insert|].
    + intros r Hr. rewrite Hg. destruct (decide (key x = r)) as [<-|Hne]; [rewrite list_lookup_total_insert_eq by lia; subst c; lia|].
      rewrite list_lookup_total_insert_ne by done. rewrite Hcs by done. f_equal. lia.
    + intros r k Hr Hkl. rewrite Hg in Hkl. destruct (decide (key x = r)) as [<-|Hne].
      * destruct (decide (k = length (having (key x) l1))) as [->|Hnk]; [rewrite Ex; by apply list_lookup_insert_eq; lia|].
        rewrite list_lookup_insert_ne by (subst c; lia). apply Haux; [done|lia].
      * assert (Hkl' : k < length (having r l1)) by lia. rewrite list_lookup_insert_ne; [by apply Haux|].
        assert (length (having r l1) <= length (having r l)) by (rewrite El, filter_app, length_app; lia).
        destruct (decide (r < key x)) as [Hrx|Hrx].
        -- pose proof (buckets_length_mono key l (S r) (key x) ltac:(lia)) as Hmo. cbn [buckets] in Hmo. rewrite length_app in Hmo. subst c. lia.
        -- pose proof (buckets_length_mono key l (S (key x)) r ltac:(lia)) as Hmo. cbn [buckets] in Hmo. rewrite length_app in Hmo. subst c. lia.
Qed.

Lemma counting_ok l aux : Forall (fun x => kf x = Ok (Z.of_nat (key x)) /\ key x < R) l -> (Z.of_nat R <= INT_MAX)%Z -> (Z.of_nat (length l) <= INT_MAX)%Z -> length aux = length l ->
  (count ← count_keys kf l (replicate (R + 1) (Some 0%Z)); count ← accumulate R 0 count; distribute kf l count aux) = Ok (Some <$> buckets key l R).
Proof.
  intros HF HR Hm Hl. rewrite <- (fmap_replicate Some).
  assert (Hz : forall i, i < R + 1 -> replicate (R + 1) 0%Z !!! i = 0%Z) by (intros i Hi; apply list_lookup_total_correct; by apply lookup_replicate_2).
  destruct (count_keys_ok l (replicate (R + 1) 0%Z)) as (cs & -> & Hl1 & H0' & Hs); [done|by rewrite length_replicate|done|intros r Hr; rewrite Hz by lia; lia|]. cbn [mbind res_bind].
  destruct (accumulate_ok l R 0 cs) as (cs' & -> & Hl2 & Hb); [lia|done|done| | |].
  { intros r' Hr'. replace r' with 0 by lia. rewrite H0', Hz by lia. done. }
  { intros r' Hr'. rewrite Hs, Hz by lia. lia. }
  cbn [mbind res_bind]. destruct (distribute_ok l l [] cs' aux) as (aux' & -> & Hla & Haux); [done|done|done|done| |done| |].
  { intros r Hr. rewrite Hb by lia. cbn. f_equal. lia. }
  { intros r k Hr Hk. cbn in Hk. lia. }
  f_equal. assert (Hp : Forall (fun x => key x < R) l) by (eapply Forall_impl; [exact HF|]; cbn; tauto). pose proof (sorts_perm _ _ _ _ (buckets_sorts key R l Hp)) as HP. apply Permutation_length in HP.
  apply list_eq. intros p. destruct (decide (p < length l)) as [Hlt|Hge].
  - rewrite HP in Hlt. destruct (buckets_cover _ _ _ _ Hlt) as (r & k & Hr & Hk & ->). rewrite Haux by done. rewrite list_lookup_fmap, buckets_lookup by done.
    destruct (lookup_lt_is_Some_2 _ _ Hk) as [y Hy]. by rewrite Hy.
  - rewrite !lookup_ge_None_2; [done|rewrite length_fmap; lia|lia].
Qed.
End Loops.

(** A key that is the same on the elements. *)
Lemma sorts_key_ext {A} (key1 key2 : A -> Z) strict l k : Forall (fun x => key1 x = key2 x) l -> sorts key1 strict l k -> sorts key2 strict l k.
Proof.
  intros HF [HP HS HT]. assert (HFk : Forall (fun x => key1 x = key2 x) k) by (by rewrite <- HP). split; [done| |].
  - clear HP HT HF. induction HS as [|x k HS IH Hx]; [constructor|]. constructor; [apply IH; by inversion HFk|]. apply Forall_cons in HFk as [E HFk].
    rewrite Forall_forall in Hx, HFk |- *. intros y Hy. unfold le_key. rewrite <- E, <- (HFk y Hy). by apply Hx.
  - intros Hst c. assert (Hf : forall l, Forall (fun x => key1 x = key2 x) l -> filter (fun x => key1 x = c) l = filter (fun x => key2 x = c) l).
    { induction 1 as [|x l' E _ IH]; [done|]. rewrite !filter_cons, IH, E. done. }
    rewrite <- !Hf by done. by apply HT.
Qed.

(** [test_lsd_sort_main] sorts by the first character alone, stably, whatever the later characters are: each of its passes
    starts from the array as it was given, so only the last one counts. *)
Theorem lsd_sorts_by_first_char R W a : 0 < W -> (Z.of_nat R <= INT_MAX)%Z -> (Z.of_nat (length a) <= INT_MAX)%Z ->
  Forall (fun w => length w = W /\ Forall (fun c => 0 <= c < Z.of_nat R)%Z w) a ->
  exists k, test_lsd_sort_main R W a = Ok (Some <$> k) /\ sorts (fun w => w !!! 0) true a k.
Proof.
  intros HW HR Hm HF. unfold test_lsd_sort_main.
  assert (Hpass : forall d aux, d < W -> length aux = length a -> lsd_pass R a d aux = Ok (Some <$> buckets (fun w => Z.to_nat (w !!! d)) a R)).
  { intros d aux Hd Hl. apply counting_ok; [|done|done|done]. eapply Forall_impl; [exact HF|]. cbn. intros w [Hlw Hc].
    assert (Hw : w !! d = Some (w !!! d)) by (apply list_lookup_lookup_total_lt; lia). rewrite Forall_lookup in Hc. specialize (Hc _ _ Hw). rewrite (aget_nat _ _ _ Hw). split; [f_equal|]; lia. }
  assert (Hs : forall d, d < W -> sorts (fun w : list Z => w !!! d) true a (buckets (fun w => Z.to_nat (w !!! d)) a R)).
  { intros d Hd. assert (Hw : forall w, w ∈ a -> (0 <= w !!! d < Z.of_nat R)%Z).
    { intros w Hin. rewrite Forall_forall in HF. destruct (HF w Hin) as [Hlw Hc]. rewrite Forall_lookup in Hc. apply (Hc d). apply list_lookup_lookup_total_lt. lia. }
    eapply (sorts_key_ext (fun w => Z.of_nat (Z.to_nat (w !!! d)))); [apply Forall_forall; intros w Hin; specialize (Hw w Hin); lia|].
    apply buckets_sorts, Forall_forall. intros w Hin. specialize (Hw w Hin). lia. }
  assert (Hloop : forall d aux, 0 < d <= W -> length aux = length a -> lsd_loop R d a aux = Ok (Some <$> buckets (fun w => Z.to_nat (w !!! 0)) a R)).
  { induction d as [|d IH]; intros aux Hd Hl; [lia|]. cbn [lsd_loop]. rewrite Hpass by (done || lia). cbn [mbind res_bind]. destruct d as [|d]; [done|]. apply IH; [lia|].
    rewrite length_fmap. symmetry. apply Permutation_length, (Hs (S d)). lia. }
  eexists. split; [apply Hloop; [lia|by rewrite length_replicate]|by apply Hs].
Qed.

(** The first three characters of six of the program's words. "1IC" stays before "10H", "4PG" before "4JZ". *)
Definition words : list (list Z) :=
  [[52; 80; 71]; [50; 73; 89]; [51; 67; 73]; [49; 73; 67]; [49; 48; 72]; [52; 74; 90]]%Z.
Lemma lsd_sorts_by_first_char_witness : exists k, test_lsd_sort_main 256 3 words = Ok (Some <$> k) /\
  sorts (fun w => w !!! 0) true words k /\ k = [[49; 73; 67]; [49; 48; 72]; [50; 73; 89]; [51; 67; 73]; [52; 80; 71]; [52; 74; 90]]%Z.
Proof.
  destruct (lsd_sorts_by_first_char 256 3 words) as (k & E & Hs); [lia|cbn; unfold INT_MAX; lia|cbn; unfold INT_MAX; lia|repeat constructor; lia|].
  exists k. split; [exact E|]. split; [exact Hs|]. assert (Ev : test_lsd_sort_main 256 3 words = Ok (Some <$> [[49; 73; 67]; [49; 48; 72]; [50; 73; 89]; [51; 67; 73]; [52; 80; 71]; [52; 74; 90]]%Z)) by (vm_compute; reflexivity).
  rewrite E in Ev. assert (Ev' : forall x y : list (option (list Z)), Ok x = Ok y -> x = y) by congruence. apply Ev' in Ev. by apply (inj (fmap (M:=list) Some)) in Ev.
Defined.

(** [test_kic_main] reads a key that was never written; with the keys and the counters written, it would still count in
    a cell behind the array, which has one too few. *)
Lemma kic_uninitialised : test_kic_main = Stop Uninit.
Proof. reflexivity. Qed.
Lemma kic_counters_too_few : (count ← count_keys kic_key [Kic [] (Some 0%Z)] (replicate 10 (Some 0%Z)); accumulate 10 0 count) = Stop OutOfBounds.
Proof. reflexivity. Qed.

