(* ===== verification/JzString.v ===== *)
(** The replacement of characters and the two substring searches of src/src/algs/jzoffer/test_string.cpp.  A byte of a buffer
    that was never written is [None]. *)
From S2P Require Import Prelude CtiText JzCount.

(** * Replacing a character by a string *)

(** [memcpy(buf + n, bytes)] *)
Definition memcpy_at (buf : list (option Z)) (n : nat) (bytes : list Z) : res (list (option Z)) :=
  if n + length bytes <=? length buf then Ok (take n buf ++ (Some <$> bytes) ++ drop (n + length bytes) buf) else Stop OutOfBounds.
(** [strcat(buf + n, r)] looks for the terminator of what is there first. *)
Fixpoint find_nul (p : list (option Z)) : res nat :=
  match p with [] => Stop OutOfBounds | None :: _ => Stop Uninit | Some c :: p => if (c =? 0)%Z then Ok O else k ← find_nul p; Ok (S k) end.
Definition strcat_at (buf : list (option Z)) (n : nat) (r : list Z) : res (list (option Z)) :=
  k ← find_nul (drop n buf); memcpy_at buf (n + k) (r ++ [0%Z]).

(** The characters [seg] from [p] to [q], if any, are copied when there is room; [k] is what follows. *)
Definition copied (seg : list Z) (len n : nat) (buf : list (option Z)) (k : nat -> list (option Z) -> res (bool * list (option Z))) : res (bool * list (option Z)) :=
  if length seg =? 0 then k n buf
  else if len - 1 <? n + length seg then Ok (false, buf)
  else buf ← memcpy_at buf n seg; k (n + length seg) buf.
(** The loop, where [rest] is the text from [q] to [end]: whether [buf] is returned, and its bytes. *)
Fixpoint replace_loop (rest seg : list Z) (c : Z) (r : list Z) (len n : nat) (buf : list (option Z)) : res (bool * list (option Z)) :=
  match rest with
  | [] => copied seg len n buf (fun n buf => buf ← aset buf (Z.of_nat n) (Some 0%Z); Ok (true, buf))
  | x :: rest =>
    if (x =? c)%Z then
      copied seg len n buf (fun n buf => if len - 1 <? n + length r then Ok (false, buf)
                                         else buf ← strcat_at buf n r; replace_loop rest [] c r len (n + length r) buf)
    else replace_loop rest (seg ++ [x]) c r len n buf
  end.
(** [strlen(str)] comes before the test of [str]. *)
Definition replace_char_to_str (str : option (list Z)) (c : Z) (r : option (list Z)) (buf : option (list (option Z))) (len : nat) : res (bool * option (list (option Z))) :=
  match str with
  | None => Stop NullDeref
  | Some p =>
    k ← strlen p;
    match r, buf with
    | Some r, Some buf' =>
      rlen ← strlen r;
      if (k =? 0) || (rlen =? 0) || (len =? 0) then Ok (false, buf)
      else '(b, buf') ← replace_loop (take k p) [] c (take rlen r) len 0 buf'; Ok (b, Some buf')
    | _, _ => Ok (false, buf)
    end
  end.

(** * Searches *)

(** The inner loop of [str_search_force] from [j] on: whether it ends with [j == M]. *)
Fixpoint match_from (str pat : list Z) (i : Z) (todo j : nat) : res bool :=
  match todo with
  | O => Ok true
  | S todo => x ← aget str (i + Z.of_nat j)%Z; y ← aget pat (Z.of_nat j); if negb (x =? y)%Z then Ok false else match_from str pat i todo (S j)
  end.
Definition force_round (str : list Z) (N : Z) (pat : list Z) (M : Z) (i : Z) : res (Z + Z) :=
  if (i <? u64 (N - M))%Z then b ← match_from str pat i (Z.to_nat M) 0; if (b : bool) then Ok (inr i) else Ok (inl (u64 (i + 1)))
  else Ok (inr N).
Definition str_search_force (fuel : nat) (str : list Z) (N : Z) (pat : list Z) (M : Z) : res Z := loop fuel (force_round str N pat M) 0%Z.

Definition force2_round (str : list Z) (N : Z) (pat : list Z) (M : Z) (s : Z * Z) : res (Z * Z + Z) :=
  let '(i, j) := s in
  if ((i <? N) && (j <? M))%Z then
    x ← aget str i; y ← aget pat j;
    let '(i, j) := if (x =? y)%Z then (i, u64 (j + 1)) else (u64 (i - j), 0%Z) in
    Ok (inl (u64 (i + 1), j))
  else Ok (inr (if (j =? M)%Z then u64 (i - M) else N)).
Definition str_search_force2 (fuel : nat) (str : list Z) (N : Z) (pat : list Z) (M : Z) : res Z := loop fuel (force2_round str N pat M) (0, 0)%Z.

(** * What replacement writes *)

Definition subst (c : Z) (r s : list Z) : list Z := concat ((fun x => if (x =? c)%Z then r else [x]) <$> s).
(** The buffer after [out], with [k] zeros behind it. *)
Definition holding (out : list Z) (k : nat) : list (option Z) := (Some <$> out) ++ replicate k (Some 0%Z).

Lemma length_holding out k : length (holding out k) = length out + k.
Proof. unfold holding. by rewrite length_app, length_fmap, length_replicate. Qed.

Lemma memcpy_holding out k bytes : length bytes <= k -> memcpy_at (holding out k) (length out) bytes = Ok (holding (out ++ bytes) (k - length bytes)).
Proof.
  intros Hk. unfold memcpy_at. rewrite (proj2 (Nat.leb_le _ _)) by (rewrite length_holding; lia). unfold holding. f_equal.
  rewrite take_app_length' by (by rewrite length_fmap). rewrite drop_app_ge by (rewrite length_fmap; lia). rewrite length_fmap, fmap_app, <- app_assoc. do 2 f_equal.
  rewrite drop_replicate. f_equal. lia.
Qed.

Lemma strcat_holding out k r : length r < k -> strcat_at (holding out k) (length out) r = Ok (holding (out ++ r) (k - length r)).
Proof.
  intros Hk. assert (E : find_nul (drop (length out) (holding out k)) = Ok 0).
  { unfold holding. rewrite drop_app_length' by (by rewrite length_fmap). by destruct k; [lia|]. }
  unfold strcat_at. rewrite E. cbn [mbind res_bind]. rewrite Nat.add_0_r, memcpy_holding by (rewrite length_app; cbn; lia). f_equal. unfold holding.
  rewrite length_app, !fmap_app, <- !app_assoc. do 2 f_equal. cbn [length fmap list_fmap app]. destruct (k - length r) as [|m] eqn:Em; [lia|]. cbn [replicate]. do 2 f_equal. lia.
Qed.

Lemma copied_ok seg len out k : length out < len ->
  if length (out ++ seg) <? len then copied seg len (length out) (holding out (len - length out)) k = k (length (out ++ seg)) (holding (out ++ seg) (len - length (out ++ seg)))
  else exists buf, copied seg len (length out) (holding out (len - length out)) k = Ok (false, buf).
Proof.
  intros Hout. unfold copied. rewrite length_app. destruct (Nat.eqb_spec (length seg) 0) as [E|E].
  - rewrite E, Nat.add_0_r. rewrite (proj2 (Nat.ltb_lt _ _) Hout). apply length_zero_iff_nil in E. subst seg. by rewrite app_nil_r.
  - destruct (Nat.ltb_spec (length out + length seg) len) as [Hl|Hl].
    + rewrite (proj2 (Nat.ltb_ge _ _)) by lia. rewrite memcpy_holding by lia. cbn [mbind res_bind]. do 2 f_equal. lia.
    + rewrite (proj2 (Nat.ltb_lt _ _)) by lia. by eexists.
Qed.

Lemma replace_loop_ok rest : forall seg c r len out, length out < len ->
  let t := out ++ seg ++ subst c r rest in
  exists b buf, replace_loop rest seg c r len (length out) (holding out (len - length out)) = Ok (b, buf) /\
    if length t <? len then b = true /\ buf = holding t (len - length t) else b = false.
Proof.
  induction rest as [|x rest IH]; intros seg c r len out Hout t; subst t; cbn [replace_loop].
  - unfold subst. cbn [fmap list_fmap concat]. rewrite app_nil_r. pose proof (copied_ok seg len out (fun n buf => buf ← aset buf (Z.of_nat n) (Some 0%Z); Ok (true, buf)) Hout) as Hc.
    destruct (Nat.ltb_spec (length (out ++ seg)) len) as [Hl|Hl]; [|destruct Hc as [buf ->]; by eexists _, _].
    rewrite Hc, aset_nat by (rewrite length_holding; lia). cbn [mbind res_bind]. eexists _, _. split; [done|]. split; [done|]. unfold holding.
    rewrite insert_app_r_alt by (rewrite length_fmap; lia). f_equal. rewrite length_fmap, Nat.sub_diag. destruct (len - length (out ++ seg)) eqn:E; [lia|done].
  - unfold subst. cbn [fmap list_fmap concat]. destruct (Z.eqb_spec x c) as [->|Hne].
    + match goal with |- context [copied _ _ _ _ ?k] => pose proof (copied_ok seg len out k Hout) as Hc end.
      destruct (Nat.ltb_spec (length (out ++ seg)) len) as [Hl|Hl].
      * rewrite Hc. destruct (Nat.ltb_spec (len - 1) (length (out ++ seg) + length r)) as [Hr|Hr].
        -- eexists _, _. split; [done|]. rewrite (proj2 (Nat.ltb_ge _ _)); [done|]. rewrite !length_app in *. lia.
        -- rewrite strcat_holding by lia. cbn [mbind res_bind]. rewrite <- length_app. replace (len - length (out ++ seg) - length r) with (len - length ((out ++ seg) ++ r)) by (rewrite (length_app (out ++ seg)); lia).
           destruct (IH [] c r len ((out ++ seg) ++ r)) as (b & buf & -> & Hb); [rewrite length_app; lia|]. exists b, buf. split; [done|]. cbn [app] in Hb. by rewrite <- !app_assoc in Hb.
      * destruct Hc as [buf ->]. eexists _, _. split; [done|]. rewrite (proj2 (Nat.ltb_ge _ _)); [done|]. rewrite !length_app in *. lia.
    + destruct (IH (seg ++ [x]) c r len out Hout) as (b & buf & -> & Hb). exists b, buf. split; [done|]. by rewrite <- app_assoc in Hb.
Qed.

(** [replace_char_to_str] in a buffer of [len] zeros: the text with every [c] replaced by [r] and its terminator when they fit, and otherwise
    a null pointer.  In a buffer that was not written, [strcat] reads what is not there. *)
Theorem jz_replace_correct s s' c r r' len : is_text s -> is_text r -> s <> [] -> r <> [] -> 0 < len ->
  exists b buf, replace_char_to_str (Some (s ++ 0%Z :: s')) c (Some (r ++ 0%Z :: r')) (Some (replicate len (Some 0%Z))) len = Ok (b, Some buf) /\
    if length (subst c r s) <? len then b = true /\ buf = holding (subst c r s) (len - length (subst c r s)) else b = false.
Proof.
  intros Hs Hr Hs0 Hr0 Hlen. unfold replace_char_to_str. rewrite strlen_ok by done. cbn [mbind res_bind]. rewrite strlen_ok by done. cbn [mbind res_bind].
  rewrite !(proj2 (Nat.eqb_neq _ _)) by (destruct s, r; cbn; done || lia). cbn [orb]. rewrite !take_app_length.
  destruct (replace_loop_ok s [] c r len [] Hlen) as (b & buf & E & Hb). cbn [length app] in *. unfold holding at 1 in E. cbn [fmap list_fmap app] in E. rewrite Nat.sub_0_r in E. rewrite E. cbn [mbind res_bind].
  by eexists _, _.
Qed.

Definition we_are_happy : list Z := [119; 101; 32; 97; 114; 101; 32; 104; 97; 112; 112; 121]%Z.
Lemma jz_replace_correct_witness : exists b buf, replace_char_to_str (Some (we_are_happy ++ [0%Z])) 32 (Some [37; 50; 48; 0]%Z) (Some (replicate 20 (Some 0%Z))) 20 = Ok (b, Some buf) /\
  (b = true /\ buf = holding [119; 101; 37; 50; 48; 97; 114; 101; 37; 50; 48; 104; 97; 112; 112; 121]%Z 4).
Proof.
  apply (jz_replace_correct we_are_happy [] 32 [37; 50; 48]%Z [] 20); [repeat constructor; done|repeat constructor; done|done|done|lia].
Defined.

(** The test program's buffer is not initialised. *)
Lemma jz_replace_uninitialised : replace_char_to_str (Some (we_are_happy ++ [0%Z])) 32 (Some [37; 50; 48; 0]%Z) (Some (replicate 128 None)) 128 = Stop Uninit.
Proof. reflexivity. Qed.

(** * What the searches find *)

Definition occurs (s p : list Z) (i : nat) : Prop := i + length p <= length s /\ take (length p) (drop i s) = p.
#[local] Instance occurs_dec s p i : Decision (occurs s p i).
Proof. unfold occurs. apply _. Defined.

(** [r] is the first occurrence, or the length of the text when there is none. *)
Definition first_occurrence (s p : list Z) (r : nat) : Prop :=
  (occurs s p r /\ forall i, i < r -> ~ occurs s p i) \/ (r = length s /\ forall i, ~ occurs s p i).

Section Search.
Context (s s' p p' : list Z).
Notation str := (s ++ s').
Notation pat := (p ++ p').

Lemma get_str i : i < length s -> aget str (Z.of_nat i) = Ok (s !!! i).
Proof. intros Hi. apply aget_nat. rewrite lookup_app_l by done. by apply list_lookup_lookup_total_lt. Qed.
Lemma get_pat j : j < length p -> aget pat (Z.of_nat j) = Ok (p !!! j).
Proof. intros Hi. apply aget_nat. rewrite lookup_app_l by done. by apply list_lookup_lookup_total_lt. Qed.

(** [j] characters agree from [i] on. *)
Definition agree (i j : nat) : Prop := forall k, k < j -> s !!! (i + k) = p !!! k.

Lemma occurs_agree i : occurs s p i <-> i + length p <= length s /\ agree i (length p).
Proof.
  split; intros [Hl E]; (split; [done|]).
  - intros k Hk. rewrite <- E. rewrite lookup_total_take_lt by done. by rewrite lookup_total_drop.
  - apply list_eq_same_length with (length p); [done|rewrite length_take, length_drop; lia|]. intros k x y Hk Hx Hy. apply list_lookup_total_correct in Hx, Hy. subst.
    rewrite lookup_total_take_lt by done. rewrite lookup_total_drop. by apply E.
Qed.

Lemma match_from_ok i todo j : i + length p <= length s -> j + todo = length p -> agree i j ->
  match_from str pat (Z.of_nat i) todo j = Ok (bool_decide (occurs s p i)).
Proof.
  revert j. induction todo as [|todo IH]; intros j Hi Hj Ha; cbn [match_from].
  - rewrite bool_decide_eq_true_2; [done|]. apply occurs_agree. split; [done|]. by replace (length p) with j by lia.
  - rewrite <- Nat2Z.inj_add, get_str, get_pat by lia. cbn [mbind res_bind]. destruct (Z.eqb_spec (s !!! (i + j)) (p !!! j)) as [E|E]; cbn [negb].
    + apply IH; [done|lia|]. intros k Hk. destruct (decide (k = j)) as [->|]; [done|]. apply Ha. lia.
    + rewrite bool_decide_eq_false_2; [done|]. intros [_ Ho]%occurs_agree. apply E, Ho. lia.
Qed.

(** [str_search_force] looks at the positions below [N - M]. *)
Lemma force_ok fuel : length p <= length s -> (Z.of_nat (length s) < 2 ^ 64)%Z -> length s < fuel ->
  exists r, str_search_force fuel str (Z.of_nat (length s)) pat (Z.of_nat (length p)) = Ok (Z.of_nat r) /\
    ((r < length s - length p /\ occurs s p r /\ forall i, i < r -> ~ occurs s p i) \/ (r = length s /\ forall i, i < length s - length p -> ~ occurs s p i)).
Proof.
  intros Hl H64 Hf. unfold str_search_force.
  destruct (loop_total (fun i => exists n : nat, i = Z.of_nat n /\ n <= length s - length p /\ forall k, k < n -> ~ occurs s p k)
    (fun r => exists n, r = Z.of_nat n /\ ((n < length s - length p /\ occurs s p n /\ forall i, i < n -> ~ occurs s p i) \/ (n = length s /\ forall i, i < length s - length p -> ~ occurs s p i)))
    (fun i => length s - Z.to_nat i) (force_round str (Z.of_nat (length s)) pat (Z.of_nat (length p)))) with (fuel := fuel) (s := 0%Z) as (r & E & n & -> & HQ).
  - intros i (n & -> & Hn & Hk). unfold force_round. rewrite Nat2Z.id. unfold u64. rewrite (Z.mod_small (_ - _)) by lia. destruct (Z.ltb_spec (Z.of_nat n) (Z.of_nat (length s) - Z.of_nat (length p))) as [Hlt|Hge].
    + rewrite match_from_ok by (lia || (intros k Hk'; lia)). cbn [mbind res_bind]. case_bool_decide as Ho.
      * right. eexists. split; [done|]. exists n. split; [done|]. left. split_and!; [lia|done|done].
      * left. eexists. split; [done|]. rewrite Z.mod_small by lia. split; [|lia]. exists (S n). split_and!; [lia|lia|]. intros k Hk'. destruct (decide (k = n)) as [->|]; [done|]. apply Hk. lia.
    + right. eexists. split; [done|]. exists (length s). split; [done|]. right. split; [done|]. intros i Hi. apply Hk. lia.
  - exists 0. split_and!; [done|lia|lia].
  - lia.
  - by exists n.
Qed.

Lemma force2_ok fuel : (Z.of_nat (length s) < 2 ^ 64)%Z -> (Z.of_nat (length p) < 2 ^ 64)%Z -> (length s + 1) * (length p + 1) < fuel ->
  exists r, str_search_force2 fuel str (Z.of_nat (length s)) pat (Z.of_nat (length p)) = Ok (Z.of_nat r) /\ first_occurrence s p r.
Proof.
  intros H64 Hp64 Hf. unfold str_search_force2.
  destruct (loop_total (fun st : Z * Z => exists b j : nat, st = (Z.of_nat (b + j), Z.of_nat j) /\ b + j <= length s /\ j <= length p /\ agree b j /\ forall k, k < b -> ~ occurs s p k)
    (fun r => exists n, r = Z.of_nat n /\ first_occurrence s p n)
    (fun st => (length s - Z.to_nat (st.1 - st.2)) * (length p + 1) + (length p - Z.to_nat st.2)) (force2_round str (Z.of_nat (length s)) pat (Z.of_nat (length p)))) with (fuel := fuel) (s := (0, 0)%Z) as (r & E & n & -> & HQ).
  - intros st (b & j & -> & Hb & Hj & Ha & Hk). unfold force2_round. destruct ((Z.of_nat (b + j) <? Z.of_nat (length s))%Z && (Z.of_nat j <? Z.of_nat (length p))%Z) eqn:Ec.
    + apply andb_true_iff in Ec as [E1%Z.ltb_lt E2%Z.ltb_lt]. rewrite get_str, get_pat by lia. cbn [mbind res_bind]. left. unfold u64. destruct (Z.eqb_spec (s !!! (b + j)) (p !!! j)) as [E|E].
      * eexists. split; [done|]. rewrite !Z.mod_small by lia. split; [|cbn [fst snd]; nia]. exists b, (S j). split_and!; [f_equal; lia|lia|lia| |done].
        intros k Hk'. destruct (decide (k = j)) as [->|]; [done|]. apply Ha. lia.
      * eexists. split; [done|]. rewrite (Z.mod_small (_ - _)) by lia. rewrite Z.mod_small by lia. split; [|cbn [fst snd]; nia]. exists (S b), 0. split_and!; [f_equal; lia|lia|lia|intros k Hk'; lia|].
        intros k Hk'. destruct (decide (k = b)) as [->|]; [|apply Hk; lia]. intros [_ Ho]%occurs_agree. apply E, Ho. lia.
    + right. eexists. split; [done|]. destruct (Z.eqb_spec (Z.of_nat j) (Z.of_nat (length p))) as [E|E].
      * exists b. unfold u64. rewrite Z.mod_small by lia. split; [lia|]. left. split; [|done]. apply occurs_agree. replace (length p) with j by lia. done.
      * exists (length s). split; [done|]. right. split; [done|]. intros i Ho. destruct (decide (i < b)) as [Hib|Hib]; [by apply (Hk i)|]. destruct Ho as [Ho _].
        apply andb_false_iff in Ec. rewrite !Z.ltb_ge in Ec. lia.
  - exists 0, 0. split_and!; [done|lia|lia|intros k Hk; lia|intros k Hk; lia].
  - cbn. lia.
  - by exists n.
Qed.
End Search.

(** [str_search_force2] finds the first occurrence of a pattern in a text, or gives the length of the text when there is none.
    [str_search_force], of a pattern that is not longer than the text, gives the same except that it
    misses an occurrence at the very end. *)
Theorem searches_correct s s' p p' fuel : (Z.of_nat (length s) < 2 ^ 64)%Z -> (Z.of_nat (length p) < 2 ^ 64)%Z -> (length s + 1) * (length p + 1) < fuel ->
  exists r, str_search_force2 fuel (s ++ s') (Z.of_nat (length s)) (p ++ p') (Z.of_nat (length p)) = Ok (Z.of_nat r) /\ first_occurrence s p r /\
    (length p <= length s -> str_search_force fuel (s ++ s') (Z.of_nat (length s)) (p ++ p') (Z.of_nat (length p)) = Ok (Z.of_nat (if r + length p =? length s then length s else r))).
Proof.
  intros H64 Hp64 Hf. destruct (force2_ok s s' p p' fuel H64 Hp64 Hf) as (r & E & Hr). exists r. split_and!; [done|done|]. intros Hl.
  destruct (force_ok s s' p p' fuel Hl H64 ltac:(nia)) as (r1 & -> & Hr1). do 2 f_equal. destruct (Nat.eqb_spec (r + length p) (length s)) as [E1|E1].
  - destruct Hr1 as [(Hlt & Ho & _)|[-> _]]; [|done]. destruct Hr as [[_ Hf']|[-> Hn]]; [|exfalso; by apply (Hn r1)]. exfalso. apply (Hf' r1); [lia|done].
  - destruct Hr1 as [(Hlt & Ho & Hm1)|[-> Hm1]]; destruct Hr as [[Hor Hm]|[-> Hn]].
    + destruct (Nat.lt_trichotomy r r1) as [Hlt'|[->|Hlt']]; [by apply Hm1 in Hlt'|done|by apply Hm in Hlt'].
    + by apply Hn in Ho.
    + exfalso. destruct Hor as [Hor1 Hor2]. apply (Hm1 r); [lia|done].
    + done.
Qed.

(** "good" in "is a good day", and at the end of "so good". *)
Lemma searches_correct_witness :
  let s := [105; 115; 32; 97; 32; 103; 111; 111; 100; 32; 100; 97; 121]%Z in let p := [103; 111; 111; 100]%Z in
  exists r, str_search_force2 100 (s ++ [0%Z]) 13 (p ++ [0%Z]) 4 = Ok (Z.of_nat r) /\ r = 5 /\ str_search_force 100 (s ++ [0%Z]) 13 (p ++ [0%Z]) 4 = Ok 5%Z.
Proof.
  intros s p. destruct (searches_correct s [0%Z] p [0%Z] 100) as (r & E & _ & F); [cbn; lia|cbn; lia|cbn; lia|]. 
  assert (Er : str_search_force2 100 (s ++ [0%Z]) (Z.of_nat (length s)) (p ++ [0%Z]) (Z.of_nat (length p)) = Ok 5%Z) by reflexivity.
  rewrite Er in E. assert (r = 5) as -> by (injection E; lia). exists 5. split; [exact Er|]. split; [done|]. apply F. cbn. lia.
Defined.

Lemma force_misses_the_end : let s := [115; 111; 32; 103; 111; 111; 100; 0]%Z in let p := [103; 111; 111; 100; 0]%Z in
  str_search_force 100 s 7 p 4 = Ok 7%Z /\ str_search_force2 100 s 7 p 4 = Ok 3%Z.
Proof. split; reflexivity. Qed.

(** A pattern longer than the text: [N - M] wraps, and the search reads behind the text. *)
Lemma force_longer_pattern : str_search_force 100 [115; 111; 0]%Z 2 [103; 111; 111; 100; 0]%Z 4 = Stop OutOfBounds.
Proof. reflexivity. Qed.

